(* ===== verification/_CoqProject ===== *)
-Q . S2P
Prelude.v
Io.v
Ordered.v
HashEngine.v
Sha256.v
Hashes.v
Tagged.v
Encode.v
Mimblewimble.v
Witness.v
Units.v
Locktime.v
Transaction.v
MerkleTree.v
Pow.v
Opcodes.v
Script.v
Templates.v
Block.v
Taproot.v
Sighash.v
SipHash.v
BitStream.v
Bip158.v
Bip152.v
Text.v
Utf8.v
Base58.v
AmountText.v
Keys.v
Bip32.v
Derive.v
Network.v
P2p.v
Messages.v
Envelope.v
Bech32.v
Addresses.v
Psbt.v
PsbtValues.v
PsbtMweb.v
PsbtOutput.v
PsbtInput.v
PsbtGlobal.v
PsbtTx.v
PsbtCombine.v
PsbtSign.v
PsbtSigner.v
PsbtKeys.v
