(* ===== verification/Prelude.v ===== *)
(** * A verification of rust-litecoin

    rust-litecoin is a library for the data of the Litecoin network: Bitcoin's
    transactions, scripts and blocks with Litecoin's MimbleWimble extension blocks
    (MWEB).  It decodes what peers and users send, computes the hashes that identify and
    commit to it, and checks it.  This development translates its core into pure
    functions, file by file, and proves what that core promises.

    ** The program and the files

    The crates under [src/] build on each other as follows; each line gives the file of
    the development that models the part.

    - [io] ([io/src/lib.rs], [error.rs]): [Read], [Write] and the readers and writers of
      this library for builds without [std]: file [Io].
    - [hashes] ([hashes/src/util.rs], [sha256.rs], [sha256d.rs]): the block-buffering
      engine is file [HashEngine], for any compression function; SHA-256, its double and its
      [const] version are file [Sha256]; engines that start from a tag ([sha256t.rs]) are
      file [Tagged]; RIPEMD-160, SHA-1, the SHA-512 family, HASH160 and HMAC are file
      [Hashes]; SipHash ([siphash24.rs]) is file [SipHash].
    - [units] ([units/src/amount.rs], [weight.rs], [fee_rate.rs], [locktime/]): checked
      arithmetic on amounts, weights and fee rates is file [Units]; amounts as text are file
      [AmountText]; lock times and sequence numbers (with their parts of
      [litecoin/src/blockdata/]) are file [Locktime].
    - [base58/src/lib.rs]: file [Base58].
    - [litecoin/src/consensus/encode.rs]: the wire format, file [Encode]; its strings, with
      UTF-8, are file [Utf8].
    - [litecoin/src/blockdata/mimblewimble.rs]: the MWEB types, file [Mimblewimble].
    - [litecoin/src/blockdata/witness.rs]: the witness buffer with its index, file [Witness].
    - [litecoin/src/blockdata/transaction.rs]: transactions, file [Transaction]; its
      signature operations are in [Templates].
    - [litecoin/src/merkle_tree/]: roots and partial trees, file [MerkleTree].
    - [litecoin/src/pow.rs], [consensus/params.rs]: 256-bit arithmetic, targets and
      retargeting, file [Pow].
    - [litecoin/src/blockdata/opcodes.rs]: file [Opcodes].  [blockdata/script/]: numbers,
      instructions and growing scripts are file [Script]; the templates, witness programs,
      dust limits and signature operations are file [Templates].
    - [litecoin/src/blockdata/block.rs]: headers, MWEB blocks and blocks, with
      [MerkleBlock] of [merkle_tree/block.rs]: file [Block].
    - [litecoin/src/taproot/]: leaf and branch hashes, the tree builder, Huffman trees,
      spending information and control blocks: file [Taproot].
    - [litecoin/src/crypto/sighash.rs]: the messages that signatures sign and the cache
      between them: file [Sighash].
    - [litecoin/src/crypto/key.rs], [ecdsa.rs], [taproot.rs]: keys and signatures as bytes and
      text, file [Keys].  [litecoin/src/bip32.rs]: paths and extended keys as bytes and text
      are file [Bip32], their derivation is file [Derive].
    - [litecoin/src/address/]: addresses, file [Addresses], over the interface of the bech32
      crate in file [Bech32].
    - [litecoin/src/network.rs], [blockdata/constants.rs]: networks and genesis blocks, file
      [Network].
    - [litecoin/src/bip158.rs]: bit streams and Golomb-Rice coding are file [BitStream], the
      filters file [Bip158].  [litecoin/src/bip152.rs]: compact blocks, file [Bip152].
    - [litecoin/src/p2p/]: service flags and network addresses are file [P2p], the messages
      file [Messages], what their envelope promises file [Envelope].
    - [litecoin/src/psbt/]: raw pairs and the macros of the maps are file [Psbt], values file
      [PsbtValues], the MWEB extension file [PsbtMweb], the three kinds of map files
      [PsbtInput], [PsbtOutput] and [PsbtGlobal], the codec, fee and extraction file
      [PsbtTx], combination file [PsbtCombine], the messages to sign file [PsbtSign], the
      signer file [PsbtSigner] and extended keys as its source of keys file [PsbtKeys].
    - Files of the Rust library that the code leans on: [Ordered] (orders, [BTreeMap],
      [BTreeSet]) and [Text] (digits, strings as scalar values).

    A block holds transactions, which hold scripts, witnesses, lock times and amounts; all
    are given a [codec] of file [Encode], and hashed by the engine of [Sha256] through what
    their encoder writes.  Blocks call Merkle roots for their two commitments, and [Pow]
    for the target in their header.  Addresses join scripts, base 58, hashes and keys; network
    messages carry blocks, transactions, filters and compact blocks in an envelope with a
    checksum; a partially signed transaction is a transaction with maps of scripts, keys,
    signatures and MWEB data, signed through [Sighash], [Keys] and [Taproot].

    ** Conventions

    Integers are in [Z], with the wrap-around of their type written out ([uwrap], [swrap])
    where the code can reach it; [usize] has 64 bits and integers are stored little-endian,
    as on the common targets.  Arithmetic that Rust leaves unchecked in release builds wraps,
    and a shift takes its amount modulo the width; where the debug build panics instead, the
    finding says so.  A Rust [Result] is [result]; a panic is [None] in an option.  Sizes of data held in memory do not overflow
    and stay unbounded.  Bytes are [Init.Byte.byte], byte strings lists of them.

    A reader is a function from the bytes left to a result and the bytes after it; a writer
    is the value returned with the bytes written; [rd_bind] and [w_bind] (notations [let!] and
    [let+]) compose them as the code's [?] does.  That the byte-at-a-time traits refine this
    view is the theorem on [read_exact] in [Io].  A [codec] packs an encoder with the two
    decoders of the trait [Decodable], for finite readers and for others; the classes
    [RoundTrip], [Canonical] and [EncodeLen] state its laws, and instance resolution puts
    them together: the tactics [seg_roundtrip], [canonical_finish] and [wlen_chain] prove
    the laws of a structure from those of its fields.

    What is not under [src/] is a parameter: the check of public keys by [secp256k1] is
    the class [PublicKeys] with the laws [PublicKeyLaws] (a key that parses serialises to
    what it was parsed from), instantiated in [Mimblewimble.PlainKeys] for the examples; x-only
    keys, scalars and tweaks are the class [TaprootKeys] with [TaprootKeyLaws], instantiated
    in [Taproot.PlainTaprootKeys]; uncompressed and secret keys and signatures are
    [Secp256k1] of [Keys], sums of keys and scalars [KeyArith] of [Derive], signing [Signer]
    of [PsbtSigner], each with its laws and an instance on byte strings; the order of x-only keys is
    an argument of the maps they index.  The bech32 crate is [Bech32Crate] of [Bech32], whose
    laws are proved for BIP 173 itself.  A lookup of spent outputs, a source of keys
    ([GetKey]), the table of alphabetic characters and the size of a [Transaction] in memory
    are arguments.

    ** Loops and fuel

    Loops of the source with a bound from their input are structural ([rd_for], [w_for] and
    recursion on the data) or take that bound as fuel: the length of the input
    for readers, engines and the script iterator; 64 doublings for a buffer that grows up to
    [usize]; 31 for the heights of a tree over [u32] leaves; 256 shifts for a division;
    77 digits for a 256-bit number and 20 for one of 64 bits, 16 in hexadecimal; the number of
    scripts for the rounds of a Huffman tree; the carry for the digits it gives in base 58; a
    byte for each character of UTF-8; the bits wanted or left for a bit stream; a byte more than
    there are for the maps of a partially signed transaction.  Each is proved sufficient where it is used: the loop
    lemmas ([read_bytes_loop_spec], [engine_holds_loop], [iterate_fuel], [double_until_spec],
    [calc_tree_height_spec], [div_loop_val], [decimal_loop_spec],
    [huffman_loop_spec]) give the result of the
    loop outright, with no premise that it returns.

    ** What is proved

    - Codecs: encoding and decoding are inverse for variable-length integers (both kinds),
      vectors, checked messages, MWEB transactions, transactions and blocks, with what is
      accepted characterised exactly; where an encoding is not unique a theorem says where.
    - Hashing: the buffering engine and the [const] implementation compute SHA-256 as the
      standard defines it, however the input is cut.
    - Identifiers, commitments and sizes: a transaction identifier commits to four fields
      and no more; sizes, weights and predicted weights are lengths of encodings; the witness
      commitment is BIP141's; the height is BIP34's.
    - Merkle trees: three root computations agree; partial trees and Merkle blocks give
      back what they were built for, and nothing that is not in the block, unless a
      collision of double SHA-256 is exhibited.
    - Arithmetic: 256-bit operations are those of the integers modulo [2 ^ 256], division
      ends and is exact, the compact form round-trips, retargeting is bounded.
    - Scripts: the iterator reads back what is pushed and ends; the builder keeps its record
      of the last opcode; templates are recognised from their bytes and exclude each
      other; signature operations are counted as the reference client counts them, but for
      the cases that the findings give.
    - Taproot: the builder implements trees given depth first, and what it finalizes yields
      control blocks that its output key commits to, for exactly its leaves.
    - Signature hashes: the cache, whatever is asked of it and in whatever order, answers with the
      hashes of the messages of BIP341, BIP143 and the legacy algorithm.
    - Witnesses: the flat buffer with its index refines a list of elements.

    - Other hashes: each engine folds its compression function over the padded message, however
      it is cut; HMAC over SHA-256 and SHA-512 is that of RFC 2104;
      SipHash is that of its authors.
    - Text: base 58 is a bijection, with and without checksum; amounts parse exactly, within
      bounds and with the reason of each refusal, and print back; paths, extended keys,
      private keys, networks and addresses are read back from what is printed.
    - Keys: derivation of a public key from a private one commutes with derivation of
      children, whatever the path; depths, fingerprints and chain codes are as BIP 32 has them.
    - Addresses: an address and its script determine each other on a network; what parses is
      well formed, and when each error arises is characterised.
    - Filters and compact blocks: a filter matches what was put in it, and otherwise only on a
      collision of hashes; a compact block expands to the block it was made from, in its
      first version but for the witnesses of what it carries whole.
    - Messages: every well-formed message is read back; what is accepted carries the checksum
      of its payload.
    - Partially signed transactions: maps and the whole round-trip; fee and extraction return
      the right number, transaction or error on each path; combination keeps the
      invariants and its laws field by field; the signer adds only signatures of the message
      that the input asks for, with keys it was given, and ends.

    Findings are theorems and examples at the ends of the files ([retarget_wraps],
    [timespan_wraps], [overflowing_mul_top_word], [mweb_encoding_not_unique],
    [multisig_without_count], [unknown_grows], [padding_ignored], [golomb_of_64_bits],
    [saturated_fee_rate], [equal_paths_other_fingerprint] and others): each computes an
    input on which the code does something else than its documentation or the reference
    client.

    ** What is not modelled, and why

    [serde], [Debug] and hexadecimal text, floating-point numbers, allocation and the [std]
    adapters are left out: they are library code of the language or do not change what is
    computed.  The SIMD paths of SHA-256 are taken to agree with the portable one, which is
    modelled.  The arithmetic of the curve, message signing ([sign_message.rs]) and script
    verification ([consensus/validation.rs]) are calls of C and C++ libraries.  The unsafe code
    of [internals] is a fixed-capacity vector, modelled by the lists it holds. *)

(** This file: results, readers and writers, loops, machine integers and bytes, with the
    lemmas and the tactics that all the other files use. *)

From Stdlib Require Import String ZArith Lia.
From stdpp Require Import base list.
From coqutil Require Import Byte Word.LittleEndianList.

#[global] Open Scope Z_scope.

(** ** Results: Rust's [Result<A, E>] *)

Inductive result (E A : Type) : Type :=
| Ok (a : A)
| Err (e : E).
Arguments Ok {E A} a.
Arguments Err {E A} e.

Definition result_bind {E A B} (m : result E A) (k : A → result E B) : result E B :=
  match m with
  | Ok a => k a
  | Err e => Err e
  end.
Arguments result_bind {E A B} !m k /.

Definition result_map_err {E F A} (f : E → F) (m : result E A) : result F A :=
  match m with
  | Ok a => Ok a
  | Err e => Err (f e)
  end.

Definition ok_or {E A} (o : option A) (e : E) : result E A :=
  match o with
  | Some a => Ok a
  | None => Err e
  end.

Definition is_ok {E A} (m : result E A) : bool :=
  match m with Ok _ => true | Err _ => false end.

(** ** The two stream monads

    A [reader E A] is a computation on the bytes still to be read; a
    [writer E A] yields the bytes it appended to the output.  Both stop at the
    first error, as the [?] operator does. *)

Definition reader (E A : Type) : Type := list byte → result E (A * list byte).
Definition writer (E A : Type) : Type := result E (A * list byte).

Definition rd_ret {E A} (a : A) : reader E A := λ s, Ok (a, s).
Definition rd_err {E A} (e : E) : reader E A := λ _, Err e.
Definition rd_bind {E A B} (m : reader E A) (k : A → reader E B) : reader E B :=
  λ s, match m s with
       | Ok (a, s') => k a s'
       | Err e => Err e
       end.
Definition rd_lift {E A} (m : result E A) : reader E A :=
  λ s, match m with Ok a => Ok (a, s) | Err e => Err e end.

(** [read_exact]: all of [n] bytes or the end-of-file error. *)
Definition rd_exact {E} (eof : E) (n : Z) : reader E (list byte) :=
  λ s, if n <=? Z.of_nat (length s)
       then Ok (take (Z.to_nat n) s, drop (Z.to_nat n) s)
       else Err eof.

(** Running a reader through a [Take] adapter of [limit] bytes: it sees the
    first [limit] bytes only, and what it leaves is put back in front of the
    rest of the stream. *)
Definition rd_take {E A} (limit : Z) (m : reader E A) : reader E A :=
  λ s, match m (take (Z.to_nat limit) s) with
       | Ok (a, s') => Ok (a, s' ++ drop (Z.to_nat limit) s)
       | Err e => Err e
       end.

Definition w_ret {E A} (a : A) : writer E A := Ok (a, []).
Definition w_err {E A} (e : E) : writer E A := Err e.
Definition w_bytes {E} (bs : list byte) : writer E unit := Ok (tt, bs).
Definition w_bind {E A B} (m : writer E A) (k : A → writer E B) : writer E B :=
  match m with
  | Ok (a, b1) =>
      match k a with
      | Ok (b, b2) => Ok (b, b1 ++ b2)
      | Err e => Err e
      end
  | Err e => Err e
  end.
(** [len += w?] *)
Definition w_add {E} (len : Z) (w : writer E Z) : writer E Z :=
  w_bind w (λ n, w_ret (len + n)).
Definition w_lift {E A} (m : result E A) : writer E A :=
  match m with Ok a => w_ret a | Err e => Err e end.

Declare Scope stream_scope.
Notation "'let!' x ':=' m 'in' k" := (rd_bind m (λ x, k))
  (at level 10, x pattern, m at level 100, k at level 200) : stream_scope.
Notation "'let+' x ':=' m 'in' k" := (w_bind m (λ x, k))
  (at level 10, x pattern, m at level 100, k at level 200) : stream_scope.
Notation "'let?' x ':=' m 'in' k" := (result_bind m (λ x, k))
  (at level 10, x pattern, m at level 100, k at level 200) : stream_scope.
#[global] Open Scope stream_scope.

(** A loop of [n] rounds over a fallible state step, by halves: a failing round
    ends the loop, however large [n] is. *)
Fixpoint pos_loop {E S} (p : positive) (f : S → result E S) (s : S) : result E S :=
  match p with
  | xH => f s
  | xO q => result_bind (pos_loop q f s) (pos_loop q f)
  | xI q => result_bind (f s) (λ s1, result_bind (pos_loop q f s1) (pos_loop q f))
  end.

(** [for _ in 0..n { acc = body(acc, reader)?; }] *)
Definition rd_for {E A} (n : Z) (body : A → reader E A) (acc : A) : reader E A :=
  λ s, match n with
       | Zpos p => pos_loop p (λ st, body (fst st) (snd st)) (acc, s)
       | _ => Ok (acc, s)
       end.

(** [for x in xs { acc = body(acc, x)?; }] on the writing side. *)
Fixpoint w_for {E A X} (body : A → X → writer E A) (acc : A) (xs : list X) : writer E A :=
  match xs with
  | [] => w_ret acc
  | x :: xs => w_bind (body acc x) (λ acc, w_for body acc xs)
  end.

(** ** Machine integers *)

Definition U8_MAX : Z := 2 ^ 8 - 1.
Definition U16_MAX : Z := 2 ^ 16 - 1.
Definition U32_MAX : Z := 2 ^ 32 - 1.
Definition U64_MAX : Z := 2 ^ 64 - 1.
Definition I64_MAX : Z := 2 ^ 63 - 1.
Definition I64_MIN : Z := - 2 ^ 63.

(** Wrapping to [w] bits, unsigned and two's complement (Rust's [as] casts). *)
Definition uwrap (w x : Z) : Z := x mod 2 ^ w.
Definition swrap (w x : Z) : Z := (x + 2 ^ (w - 1)) mod 2 ^ w - 2 ^ (w - 1).

Definition urange (w x : Z) : Prop := 0 <= x < 2 ^ w.
Definition srange (w x : Z) : Prop := - 2 ^ (w - 1) <= x < 2 ^ (w - 1).

(** Big-endian bytes of an integer ([to_be_bytes], [from_be_bytes]). *)
Definition be_split (n : nat) (z : Z) : list byte := rev (le_split n z).
Definition be_combine (bs : list byte) : Z := le_combine (rev bs).

Definition b2z (b : bool) : Z := if b then 1 else 0.

#[export] Instance byte_eq_dec : EqDecision byte := Byte.byte_eq_dec.

(** ** Lemmas on the monads *)

Section Readers.
Context {E : Type}.

(** [m] reads exactly [bs] and returns [a], whatever follows. *)
Definition reads {A} (m : reader E A) (bs : list byte) (a : A) : Prop :=
  ∀ rest, m (bs ++ rest) = Ok (a, rest).

Lemma rd_bind_ok {A B} (m : reader E A) (k : A → reader E B) s b rest :
  rd_bind m k s = Ok (b, rest) ↔ ∃ a s', m s = Ok (a, s') ∧ k a s' = Ok (b, rest).
Proof.
  unfold rd_bind. destruct (m s) as [[a s']|e]; split.
  - intros H. by exists a, s'.
  - intros (? & ? & [= <- <-] & ?). done.
  - done.
  - intros (? & ? & ? & ?). done.
Qed.

Lemma rd_lift_ok {A} (m : result E A) s a rest :
  rd_lift m s = Ok (a, rest) ↔ m = Ok a ∧ s = rest.
Proof.
  unfold rd_lift. destruct m; split; [intros [= -> ->]|intros [[= ->] ->]|done|intros [? ?]]; done.
Qed.

Lemma rd_exact_app (eof : E) n bs rest :
  Z.of_nat (length bs) = n → rd_exact eof n (bs ++ rest) = Ok (bs, rest).
Proof.
  intros <-. unfold rd_exact. rewrite length_app, Nat2Z.id.
  destruct (Z.leb_spec (Z.of_nat (length bs)) (Z.of_nat (length bs + length rest))); [|lia].
  by rewrite take_app_length, drop_app_length.
Qed.

Lemma rd_exact_ok (eof : E) n s bs rest :
  0 <= n → rd_exact eof n s = Ok (bs, rest) ↔ s = bs ++ rest ∧ Z.of_nat (length bs) = n.
Proof.
  intros Hn. split.
  - unfold rd_exact. destruct (Z.leb_spec n (Z.of_nat (length s))); [|done].
    intros [= <- <-]. rewrite take_drop, length_take. split; [done|lia].
  - intros [-> <-]. by apply rd_exact_app.
Qed.

Lemma reads_take {A} (m : reader E A) bs a limit :
  reads m bs a → Z.of_nat (length bs) <= limit → reads (rd_take limit m) bs a.
Proof.
  intros Hm Hl rest. unfold rd_take.
  rewrite take_app_ge, drop_app_ge, Hm by lia. by rewrite take_drop.
Qed.

(** A stream shorter than the limit is read the same with and without [Take]. *)
Lemma rd_take_short {A} (m : reader E A) limit s :
  Z.of_nat (length s) <= limit → rd_take limit m s = m s.
Proof.
  intros Hl. unfold rd_take. rewrite take_ge, drop_ge by lia.
  destruct (m s) as [[a r]|e]; [|done]. by rewrite app_nil_r.
Qed.
End Readers.

Section Loops.
Context {E S : Type} (f : S → result E S).

Fixpoint nat_loop (n : nat) (s : S) : result E S :=
  match n with
  | O => Ok s
  | Datatypes.S n => result_bind (f s) (nat_loop n)
  end.

Lemma nat_loop_add n m s :
  nat_loop (n + m) s = result_bind (nat_loop n s) (nat_loop m).
Proof.
  revert s. induction n as [|n IH]; intros s; [done|]. cbn.
  destruct (f s); cbn; [apply IH|done].
Qed.

(** The halving loop is the ordinary one. *)
Lemma pos_loop_nat p s : pos_loop p f s = nat_loop (Pos.to_nat p) s.
Proof.
  revert s. induction p as [p IH|p IH|]; intros s; cbn [pos_loop].
  - replace (Pos.to_nat p~1) with (1 + (Pos.to_nat p + Pos.to_nat p))%nat by lia.
    cbn. destruct (f s) as [s1|]; cbn; [|done]. rewrite nat_loop_add, IH.
    destruct (nat_loop _ s1); cbn; auto.
  - replace (Pos.to_nat p~0) with (Pos.to_nat p + Pos.to_nat p)%nat by lia.
    rewrite nat_loop_add, IH. destruct (nat_loop _ s); cbn; auto.
  - change (Pos.to_nat 1) with 1%nat. cbn. by destruct (f s).
Qed.
End Loops.

Lemma rd_for_nat {E A} (n : Z) (body : A → reader E A) acc s :
  rd_for n body acc s = nat_loop (λ st, body (fst st) (snd st)) (Z.to_nat n) (acc, s).
Proof. destruct n; cbn -[Pos.to_nat]; try done. apply pos_loop_nat. Qed.

(** Two loops that proceed in step, and fail alike. *)
Definition same_outcome {E A B} (R : A → B → Prop)
    (r1 : result E (A * list byte)) (r2 : result E (B * list byte)) : Prop :=
  match r1, r2 with
  | Ok (a, s1), Ok (b, s2) => s1 = s2 ∧ R a b
  | Err e1, Err e2 => e1 = e2
  | _, _ => False
  end.

Lemma same_outcome_bind {E A B C} (R : B → C → Prop) (m : reader E A)
    (k1 : A → reader E B) (k2 : A → reader E C) s :
  (∀ a s', m s = Ok (a, s') → same_outcome R (k1 a s') (k2 a s')) →
  same_outcome R (rd_bind m k1 s) (rd_bind m k2 s).
Proof. intros H. unfold rd_bind. destruct (m s) as [[a s']|]; [by apply H|done]. Qed.

Lemma rd_for_sim {E A B} (R : nat → A → B → Prop) n
    (f : A → reader E A) (g : B → reader E B) a b s :
  (∀ i a b s, (i < Z.to_nat n)%nat → R i a b → same_outcome (R (S i)) (f a s) (g b s)) →
  R 0%nat a b → same_outcome (R (Z.to_nat n)) (rd_for n f a s) (rd_for n g b s).
Proof.
  intros Hstep HR. rewrite !rd_for_nat.
  enough (∀ k i a b s, (i + k = Z.to_nat n)%nat → R i a b →
    same_outcome (R (i + k)%nat) (nat_loop (λ st, f st.1 st.2) k (a, s))
      (nat_loop (λ st, g st.1 st.2) k (b, s))) as H by by apply (H _ 0%nat).
  clear a b s HR. induction k as [|k IH]; intros i a b s Hk HR.
  - by rewrite Nat.add_0_r.
  - cbn [nat_loop fst snd]. specialize (Hstep i a b s ltac:(lia) HR). unfold same_outcome in Hstep.
    destruct (f a s) as [[a' s1]|], (g b s) as [[b' s2]|]; cbn; try done.
    destruct Hstep as [-> HR']. rewrite <- Nat.add_succ_comm. apply IH; [lia|done].
Qed.

Section Writers.
Context {E : Type}.

Lemma w_bind_ok {A B} (m : writer E A) (k : A → writer E B) b bs :
  w_bind m k = Ok (b, bs) ↔
  ∃ a b1 b2, m = Ok (a, b1) ∧ k a = Ok (b, b2) ∧ bs = b1 ++ b2.
Proof.
  unfold w_bind. destruct m as [[a b1]|e].
  2:{ split; [done|]. by intros (? & ? & ? & ? & ?). }
  split.
  - destruct (k a) as [[b' b2]|e] eqn:Hk; [|done]. intros [= -> <-]. by exists a, b1, b2.
  - intros (? & ? & ? & [= <- <-] & -> & ->). done.
Qed.

Lemma w_bind_of {A B} (m : writer E A) (k : A → writer E B) a b1 b b2 :
  m = Ok (a, b1) → k a = Ok (b, b2) → w_bind m k = Ok (b, b1 ++ b2).
Proof. intros -> Hk. cbn. by rewrite Hk. Qed.

Lemma w_bind_assoc {A B C} (m : writer E A) (f : A → writer E B) (g : B → writer E C) :
  w_bind (w_bind m f) g = w_bind m (λ a, w_bind (f a) g).
Proof.
  destruct m as [[a b1]|]; [|done]. cbn. destruct (f a) as [[b b2]|]; [|done]. cbn.
  destruct (g b) as [[c b3]|]; [|done]. by rewrite app_assoc.
Qed.

Lemma w_bind_ext {A B} (m : writer E A) (f g : A → writer E B) :
  (∀ a, f a = g a) → w_bind m f = w_bind m g.
Proof. intros Hfg. destruct m as [[a b1]|]; [|done]. cbn. by rewrite Hfg. Qed.

Lemma w_for_map {A X Y} (f : A → Y → writer E A) (g : X → Y) acc xs :
  w_for f acc (map g xs) = w_for (λ acc x, f acc (g x)) acc xs.
Proof.
  revert acc. induction xs as [|x xs IH]; intros acc; [done|]. cbn.
  destruct (f acc (g x)) as [[a b]|]; [|done]. cbn. by rewrite IH.
Qed.

Lemma w_add_of len (w : writer E Z) k bs : w = Ok (k, bs) → w_add len w = Ok (len + k, bs).
Proof. intros ->. unfold w_add, w_ret. cbn. by rewrite app_nil_r. Qed.

Lemma w_add_ok len (w : writer E Z) n bs :
  w_add len w = Ok (n, bs) ↔ ∃ k, w = Ok (k, bs) ∧ n = len + k.
Proof.
  unfold w_add, w_ret. rewrite w_bind_ok. split.
  - intros (a & b1 & b2 & -> & [= <- <-] & ->). rewrite app_nil_r. eauto.
  - intros (k & -> & ->). exists k, bs, []. by rewrite app_nil_r.
Qed.
End Writers.

(** ** Integer lemmas *)

Lemma urange_byte b : urange 8 (byte.unsigned b).
Proof. apply byte.unsigned_range. Qed.

Lemma uwrap_range w x : 0 <= w → urange w (uwrap w x).
Proof. intros. unfold urange, uwrap. apply Z.mod_pos_bound. lia. Qed.

Lemma uwrap_small w x : urange w x → uwrap w x = x.
Proof. unfold urange, uwrap. apply Z.mod_small. Qed.

Lemma swrap_range w x : 0 < w → srange w (swrap w x).
Proof.
  intros Hw. unfold srange, swrap.
  assert (2 ^ w = 2 * 2 ^ (w - 1)) as ->
    by (rewrite <- Z.pow_succ_r by lia; f_equal; lia).
  assert (0 < 2 ^ (w - 1)) by lia.
  pose proof (Z.mod_pos_bound (x + 2 ^ (w - 1)) (2 * 2 ^ (w - 1))). lia.
Qed.

Lemma swrap_small w x : 0 < w → srange w x → swrap w x = x.
Proof.
  unfold srange, swrap. intros Hw.
  assert (2 ^ w = 2 * 2 ^ (w - 1)) as ->
    by (rewrite <- Z.pow_succ_r by lia; f_equal; lia).
  intros. rewrite Z.mod_small; lia.
Qed.

Lemma swrap_mod w x : swrap w (x mod 2 ^ w) = swrap w x.
Proof. unfold swrap. by rewrite Zplus_mod_idemp_l. Qed.

Lemma swrap_uwrap w x : 0 < w → srange w x → swrap w (uwrap w x) = x.
Proof. intros. unfold uwrap. rewrite swrap_mod. by apply swrap_small. Qed.

Lemma uwrap_swrap w x : 0 < w → urange w x → uwrap w (swrap w x) = x.
Proof.
  intros Hw Hx. unfold uwrap, swrap. rewrite Zminus_mod_idemp_l.
  replace (x + 2 ^ (w - 1) - 2 ^ (w - 1)) with x by lia. by apply Z.mod_small.
Qed.

Lemma length_le_split_Z n z : Z.of_nat (length (le_split n z)) = Z.of_nat n.
Proof. by rewrite length_le_split. Qed.

Lemma le_combine_split_u n z :
  urange (8 * Z.of_nat n) z → le_combine (le_split n z) = z.
Proof. intros H. rewrite le_combine_split. rewrite Z.mul_comm. by apply uwrap_small. Qed.

Lemma le_combine_range bs : urange (8 * Z.of_nat (length bs)) (le_combine bs).
Proof. apply le_combine_bound. Qed.

Lemma le_split_le_combine n bs : length bs = n → le_split n (le_combine bs) = bs.
Proof. apply split_le_combine'. Qed.

Lemma le_split_uwrap n z : le_split n (uwrap (8 * Z.of_nat n) z) = le_split n z.
Proof. unfold uwrap. rewrite (le_split_mod z), Z.mul_comm. done. Qed.

Lemma byte_of_Z_eq x y : x mod 2 ^ 8 = y mod 2 ^ 8 → byte.of_Z x = byte.of_Z y.
Proof. intros. apply byte.unsigned_inj. by rewrite !byte.unsigned_of_Z. Qed.

Lemma byte_of_Z_land255 x : byte.of_Z (Z.land x 255) = byte.of_Z x.
Proof.
  apply byte_of_Z_eq. change 255 with (Z.ones 8). rewrite Z.land_ones by lia.
  apply Z.mod_mod. lia.
Qed.

Lemma byte_of_Z_u x : urange 8 x → byte.unsigned (byte.of_Z x) = x.
Proof. intros. rewrite byte.unsigned_of_Z. by apply uwrap_small. Qed.

Lemma length_be_split n z : length (be_split n z) = n.
Proof. unfold be_split. by rewrite length_rev, length_le_split. Qed.

Lemma be_combine_split n z :
  urange (8 * Z.of_nat n) z → be_combine (be_split n z) = z.
Proof. unfold be_combine, be_split. rewrite rev_involutive. apply le_combine_split_u. Qed.

Lemma be_split_combine n bs : length bs = n → be_split n (be_combine bs) = bs.
Proof.
  unfold be_combine, be_split. intros <-. rewrite le_split_le_combine by apply length_rev.
  apply rev_involutive.
Qed.

Lemma be_combine_range bs : urange (8 * Z.of_nat (length bs)) (be_combine bs).
Proof. unfold be_combine. rewrite <- (length_rev bs). apply le_combine_range. Qed.

Lemma land_pow2_bit x i : 0 <= i → (Z.land x (2 ^ i) =? 0) = negb (Z.testbit x i).
Proof.
  intros Hi. destruct (Z.testbit x i) eqn:Hb; cbn.
  - apply Z.eqb_neq. intros H0.
    assert (Z.testbit (Z.land x (2 ^ i)) i = false) as Hf by (rewrite H0; apply Z.bits_0).
    rewrite Z.land_spec, Hb, Z.pow2_bits_true in Hf by done. done.
  - apply Z.eqb_eq. apply Z.bits_inj'. intros n Hn.
    rewrite Z.bits_0, Z.land_spec.
    destruct (decide (n = i)) as [->|Hne]; [by rewrite Hb|].
    rewrite Z.pow2_bits_false by done. apply andb_false_r.
Qed.

Lemma testbit_above x w n : urange w x → w <= n → Z.testbit x n = false.
Proof.
  unfold urange. intros Hx Hn. destruct (decide (x = 0)) as [->|]; [apply Z.bits_0|].
  apply Z.bits_above_log2; [lia|]. apply Z.log2_lt_pow2; [lia|].
  assert (0 <= w) by (destruct (decide (0 <= w)); [done|rewrite Z.pow_neg_r in Hx; lia]).
  pose proof (Z.pow_le_mono_r 2 w n ltac:(lia) Hn). lia.
Qed.

(** The bits of [b] fit below those of [a]. *)
Lemma shiftl_lor_add a b k : 0 <= k → urange k b → Z.lor (Z.shiftl a k) b = a * 2 ^ k + b.
Proof.
  intros Hk Hb. rewrite <- Z.shiftl_mul_pow2 by done.
  pose proof (Z.add_lor_land (Z.shiftl a k) b) as Ha.
  assert (Z.land (Z.shiftl a k) b = 0) as Hz; [|lia].
  apply Z.bits_inj'. intros n Hn. rewrite Z.land_spec, Z.bits_0, Z.shiftl_spec by done.
  destruct (Z.ltb_spec n k).
  - by rewrite Z.testbit_neg_r by lia.
  - rewrite (testbit_above b k n) by done. apply andb_false_r.
Qed.

Lemma le_combine_app_add bs1 bs2 :
  le_combine (bs1 ++ bs2) = le_combine bs1 + le_combine bs2 * 2 ^ (8 * Z.of_nat (length bs1)).
Proof.
  pose proof (le_combine_range bs1). rewrite le_combine_app, Z.lor_comm, shiftl_lor_add.
  - rewrite (Z.mul_comm 8). apply Z.add_comm.
  - lia.
  - by rewrite (Z.mul_comm _ 8).
Qed.

Lemma le_combine_one b : le_combine [b] = byte.unsigned b.
Proof. cbn. apply Z.lor_0_r. Qed.

Lemma le_combine_cons b bs : le_combine (b :: bs) = byte.unsigned b + le_combine bs * 2 ^ 8.
Proof. change (b :: bs) with ([b] ++ bs). by rewrite le_combine_app_add, le_combine_one. Qed.

Lemma lor_pow2_add x k : 0 <= k → x mod 2 ^ (k + 1) = 0 → Z.lor x (2 ^ k) = x + 2 ^ k.
Proof.
  intros Hk Hx. apply Z.div_exact in Hx; [|lia].
  generalize dependent (x / 2 ^ (k + 1)). intros q Hx.
  assert (x = Z.shiftl q (k + 1)) as -> by (rewrite Z.shiftl_mul_pow2; lia).
  rewrite shiftl_lor_add, Z.shiftl_mul_pow2 by
    (lia || unfold urange; rewrite Z.pow_add_r by lia; lia). done.
Qed.

(** ** Buffers updated in place *)

(** [buf[i..i + bs.len()].copy_from_slice(bs)], for a range inside the buffer. *)
Definition write_at {A} (i : nat) (bs buf : list A) : list A :=
  take i buf ++ bs ++ drop (i + length bs) buf.

Lemma write_at_0_nil {A} (buf : list A) : write_at 0 [] buf = buf.
Proof. done. Qed.

Lemma length_write_at {A} i (bs buf : list A) :
  (i + length bs <= length buf)%nat → length (write_at i bs buf) = length buf.
Proof.
  intros. unfold write_at. rewrite !length_app, length_take, length_drop. lia.
Qed.

Lemma take_write_at {A} i (bs buf : list A) :
  (i <= length buf)%nat → take (i + length bs) (write_at i bs buf) = take i buf ++ bs.
Proof.
  intros. unfold write_at. rewrite app_assoc. apply take_app_length'.
  rewrite length_app, length_take. lia.
Qed.

Lemma write_at_app {A} i (pre old bs post : list A) :
  length pre = i → length old = length bs →
  write_at i bs (pre ++ old ++ post) = pre ++ bs ++ post.
Proof.
  intros <- Hl. unfold write_at.
  rewrite take_app_length, drop_app_add', <- Hl, drop_app_length; done.
Qed.

(** ** Tactics *)

(** Splits every successful monadic bind in the context into its steps. *)
Ltac inv_ok :=
  repeat match goal with
  | H : rd_bind _ _ _ = Ok (_, _) |- _ =>
      apply rd_bind_ok in H; destruct H as (? & ? & ? & ?)
  | H : rd_lift _ _ = Ok (_, _) |- _ => apply rd_lift_ok in H; destruct H as [? ?]
  | H : rd_ret _ _ = Ok (_, _) |- _ => injection H as; subst
  | H : rd_err _ _ = Ok _ |- _ => discriminate H
  | H : w_bind _ _ = Ok (_, _) |- _ =>
      apply w_bind_ok in H; destruct H as (? & ? & ? & ? & ? & ?)
  | H : w_add _ _ = Ok (_, _) |- _ => apply w_add_ok in H; destruct H as (? & ? & ?)
  | H : w_ret _ = Ok (_, _) |- _ => injection H as; subst
  | H : w_bytes _ = Ok (_, _) |- _ => injection H as; subst
  | H : Ok _ = Ok _ |- _ => injection H as; subst
  | H : Err _ = Ok _ |- _ => discriminate H
  | H : Ok _ = Err _ |- _ => discriminate H
  end; subst.

(** Case analysis on the boolean test that drives the goal or a hypothesis. *)
Ltac case_if :=
  match goal with
  | |- context [if ?b then _ else _] => let E := fresh "Hif" in destruct b eqn:E
  | H : context [if ?b then _ else _] |- _ => let E := fresh "Hif" in destruct b eqn:E
  end.

(** Turns boolean arithmetic tests into propositions for [lia]. *)
Ltac bool_lia :=
  repeat match goal with
  | H : andb _ _ = true |- _ => apply andb_true_iff in H; destruct H
  | H : orb _ _ = false |- _ => apply orb_false_iff in H; destruct H
  | H : negb _ = true |- _ => apply negb_true_iff in H
  | H : negb _ = false |- _ => apply negb_false_iff in H
  end;
  repeat match goal with
  | H : (_ <=? _) = true |- _ => apply Z.leb_le in H
  | H : (_ <=? _) = false |- _ => apply Z.leb_gt in H
  | H : (_ <? _) = true |- _ => apply Z.ltb_lt in H
  | H : (_ <? _) = false |- _ => apply Z.ltb_ge in H
  | H : (_ =? _) = true |- _ => apply Z.eqb_eq in H
  | H : (_ =? _) = false |- _ => apply Z.eqb_neq in H
  end; try lia.

Create HintDb codec.
Create Rewrite HintDb codec.
#[export] Hint Rewrite @length_app @length_le_split @length_take @length_drop
  @length_cons @length_replicate : codec.
#[export] Hint Rewrite @app_nil_r : codec.
#[export] Hint Rewrite <- @app_assoc : codec.

#[export] Hint Resolve urange_byte uwrap_range : codec.
