(* ===== verification/Io.v ===== *)
(** Readers and writers of the [io] crate ([src/io/src/lib.rs]): the [Read]
    trait with its provided [read_exact], the in-memory readers [&[u8]] and
    [Cursor], the limiting adapter [Take], and the [Write] implementations for
    [Vec<u8>] and [&mut [u8]].  The refinement theorems show that all of them
    behave as the byte-list readers of the prelude, on which the codecs are
    modelled. *)

From Stdlib Require Import String ZArith Lia.
From stdpp Require Import base list.
From Stdlib Require Import Init.Byte.
From coqutil Require Import Byte Word.LittleEndianList.
From S2P Require Import Prelude.

Inductive ErrorKind :=
| NotFound | PermissionDenied | ConnectionRefused | ConnectionReset
| ConnectionAborted | NotConnected | AddrInUse | AddrNotAvailable
| BrokenPipe | AlreadyExists | WouldBlock | InvalidInput | InvalidData
| TimedOut | WriteZero | Interrupted | UnexpectedEof | Other.

#[export] Instance ErrorKind_eq_dec : EqDecision ErrorKind.
Proof. solve_decision. Defined.

(** [io::Error]: its kind and the payload given to [Error::new], if any. *)
Record io_error := IoError { kind : ErrorKind; payload : option string }.

Definition err_of_kind (k : ErrorKind) : io_error := IoError k None.

(** A slice or array index out of range panics.  In a function that returns a
    [Result] the panic is this value, which no operation of the code returns; the
    theorems show that it does not come out. *)
Definition index_panic : io_error := IoError Other (Some "index out of bounds"%string).

(** ** The [Read] trait *)

(** [read r n] is a call with a buffer of [n] bytes: the bytes put at the start
    of the buffer, and the reader afterwards. *)
Class Read (R : Type) := read : R → Z → result io_error (list byte * R).

(** [read_exact]: the provided method.  [fuel] bounds the rounds; every round
    that does not end the loop shortens the buffer or was interrupted. *)
Fixpoint read_exact_loop {R} `{Read R} (fuel : nat) (r : R) (n : Z) (acc : list byte)
  : option (result io_error (list byte * R)) :=
  if n =? 0 then Some (Ok (acc, r)) else
  match fuel with
  | O => None
  | S fuel =>
      match read r n with
      | Ok ([], _) => Some (Err (err_of_kind UnexpectedEof))
      | Ok (bs, r') => read_exact_loop fuel r' (n - Z.of_nat (length bs)) (acc ++ bs)
      | Err e => if decide (kind e = Interrupted) then read_exact_loop fuel r n acc
                 else Some (Err e)
      end
  end.

Definition read_exact {R} `{Read R} (fuel : nat) (r : R) (n : Z) :=
  read_exact_loop fuel r n [].

(** ** Readers *)

#[export] Instance slice_read : Read (list byte) := λ self n,
  let cnt := Z.min (Z.of_nat (length self)) n in
  Ok (take (Z.to_nat cnt) self, drop (Z.to_nat cnt) self).

Record Cursor := { inner : list byte; pos : Z }.

Definition cursor_new (inner : list byte) : Cursor := {| inner := inner; pos := 0 |}.
Definition position (c : Cursor) : Z := pos c.
Definition into_inner (c : Cursor) : list byte := inner c.

#[export] Instance cursor_read : Read Cursor := λ self n,
  let len := Z.of_nat (length (inner self)) in
  let start_pos := pos self in
  let cnt := Z.min (Z.max 0 (len - start_pos)) n in
  Ok (take (Z.to_nat cnt) (drop (Z.to_nat start_pos) (inner self)),
      {| inner := inner self; pos := Z.min U64_MAX (pos self + cnt) |}).

(** [Take<'_, R>]: the borrowed reader and the bytes it may still hand out. *)
Record Take (R : Type) := { take_reader : R; remaining : Z }.
Arguments take_reader {R} _.
Arguments remaining {R} _.

Definition read_take {R} (self : R) (limit : Z) : Take R :=
  {| take_reader := self; remaining := limit |}.

#[export] Instance take_read {R} `{Read R} : Read (Take R) := λ self n,
  let len := Z.min n (remaining self) in
  match read (take_reader self) len with
  | Ok (bs, r') =>
      Ok (bs, {| take_reader := r'; remaining := remaining self - Z.of_nat (length bs) |})
  | Err e => Err e
  end.

(** [Take::read_to_end], in chunks of 64 bytes. *)
Fixpoint read_to_end {R} `{Read R} (fuel : nat) (self : Take R) (buf : list byte) (cnt : Z)
  : option (result io_error (Z * list byte * Take R)) :=
  match fuel with
  | O => None
  | S fuel =>
      match read self 64 with
      | Ok ([], self') => Some (Ok (cnt, buf, self'))
      | Ok (bs, self') => read_to_end fuel self' (buf ++ bs) (cnt + Z.of_nat (length bs))
      | Err e => if decide (kind e = Interrupted) then read_to_end fuel self buf cnt
                 else Some (Err e)
      end
  end.

Definition read_to_limit {R} `{Read R} (fuel : nat) (self : R) (buf : list byte) (limit : Z) :=
  read_to_end fuel (read_take self limit) buf 0.

(** ** The [Write] trait *)

Class Write (W : Type) := write : W → list byte → result io_error (Z * W).

Fixpoint write_all_loop {W} `{Write W} (fuel : nat) (w : W) (buf : list byte)
  : option (result io_error W) :=
  match buf with
  | [] => Some (Ok w)
  | _ =>
      match fuel with
      | O => None
      | S fuel =>
          match write w buf with
          | Ok (len, w') =>
              if len =? 0 then Some (Err (err_of_kind UnexpectedEof))
              else write_all_loop fuel w' (drop (Z.to_nat len) buf)
          | Err e => if decide (kind e = Interrupted) then write_all_loop fuel w buf
                     else Some (Err e)
          end
      end
  end.

Record VecWriter := { vec_bytes : list byte }.

#[export] Instance vec_write : Write VecWriter := λ self buf,
  Ok (Z.of_nat (length buf), {| vec_bytes := vec_bytes self ++ buf |}).

(** [&mut [u8]]: what has been written so far and the room that is left. *)
Record SliceWriter := { written : list byte; room : Z }.

#[export] Instance slice_write : Write SliceWriter := λ self buf,
  let cnt := Z.min (room self) (Z.of_nat (length buf)) in
  Ok (cnt, {| written := written self ++ take (Z.to_nat cnt) buf; room := room self - cnt |}).

(** ** Refinement of the byte-list readers *)

(** What an in-memory reader promises: it holds the bytes [avail r], hands out
    as many as are asked for and there, and never fails. *)
Class ReadSpec (R : Type) `{Read R} := {
  avail : R → list byte;
  read_inv : R → Prop;
  read_spec r n : read_inv r → 0 <= n →
    let k := Z.to_nat (Z.min n (Z.of_nat (length (avail r)))) in
    ∃ r', read r n = Ok (take k (avail r), r') ∧ avail r' = drop k (avail r) ∧ read_inv r' }.

#[export] Program Instance slice_read_spec : ReadSpec (list byte) :=
  {| avail := id; read_inv := λ _, True |}.
Next Obligation.
  intros r n _ Hn. unfold read, slice_read, id; simpl. eexists.
  by rewrite (Z.min_comm n).
Qed.

#[export] Program Instance cursor_read_spec : ReadSpec Cursor :=
  {| avail := λ c, drop (Z.to_nat (pos c)) (inner c);
     read_inv := λ c, 0 <= pos c <= U64_MAX ∧ Z.of_nat (length (inner c)) <= U64_MAX |}.
Next Obligation.
  intros [inn p] n [Hp Hl] Hn; cbn in *. unfold read, cursor_read; cbn.
  rewrite !length_drop.
  replace ((0 `max` (Z.of_nat (length inn) - p)) `min` n)
    with (n `min` Z.of_nat (length inn - Z.to_nat p)) by lia.
  set (k := n `min` _). assert (0 <= k) as Hk by lia.
  eexists. split_and!; [reflexivity|..]; cbn; [|unfold U64_MAX in *; lia..].
  rewrite drop_drop. destruct (decide (p <= Z.of_nat (length inn))).
  - f_equal. unfold U64_MAX in *. lia.
  - by rewrite !drop_ge by lia.
Qed.

#[export] Program Instance take_read_spec {R} `{ReadSpec R} : ReadSpec (Take R) :=
  {| avail := λ t, take (Z.to_nat (remaining t)) (avail (take_reader t));
     read_inv := λ t, 0 <= remaining t ∧ read_inv (take_reader t) |}.
Next Obligation.
  intros R ? ? [r rem] n [Hrem Hr] Hn; cbn in *. unfold read at 1, take_read; cbn.
  destruct (read_spec r (Z.min n rem) Hr ltac:(lia)) as (r' & -> & Ha & Hi).
  rewrite !length_take in *. eexists. split_and!.
  - do 2 f_equal. rewrite take_take. f_equal. lia.
  - cbn. rewrite Ha, take_drop_commute. f_equal; [|f_equal]; lia.
  - cbn. lia.
  - done.
Qed.

Section ReadExact.
Context {R} `{ReadSpec R}.

Lemma read_exact_loop_spec fuel r n acc :
  read_inv r → 0 <= n → (Z.to_nat n < fuel)%nat →
  if n <=? Z.of_nat (length (avail r))
  then ∃ r', read_exact_loop fuel r n acc = Some (Ok (acc ++ take (Z.to_nat n) (avail r), r'))
             ∧ avail r' = drop (Z.to_nat n) (avail r) ∧ read_inv r'
  else read_exact_loop fuel r n acc = Some (Err (err_of_kind UnexpectedEof)).
Proof.
  revert r n acc. induction fuel as [|fuel IH]; intros r n acc Hr Hn Hf; [lia|].
  cbn [read_exact_loop]. destruct (Z.eqb_spec n 0) as [->|Hn0].
  { rewrite (proj2 (Z.leb_le _ _)) by lia. exists r.
    change (Z.to_nat 0) with 0%nat. by rewrite take_0, drop_0, app_nil_r. }
  destruct (read_spec r n Hr Hn) as (r' & -> & Ha & Hi).
  destruct (avail r) as [|b bs] eqn:Hav.
  { cbn. rewrite take_nil. by rewrite (proj2 (Z.leb_gt n _)) by lia. }
  set (k := Z.to_nat (Z.min n (Z.of_nat (length (b :: bs))))) in *.
  assert (0 < k)%nat as Hk by (subst k; cbn [length]; lia).
  destruct (take k (b :: bs)) as [|b' t] eqn:Ht.
  { destruct k; [lia|]. cbn in Ht. congruence. }
  rewrite <- Ht. clear Ht b' t.
  assert (length (take k (b :: bs)) = k) as Hlen
    by (rewrite length_take; subst k; lia).
  rewrite Hlen.
  specialize (IH r' (n - Z.of_nat k) (acc ++ take k (b :: bs)) Hi
    ltac:(subst k; lia) ltac:(lia)).
  rewrite Ha, length_drop in IH.
  destruct (Z.leb_spec n (Z.of_nat (length (b :: bs)))) as [Hle|Hgt].
  - assert (k = Z.to_nat n) as Hkn by (subst k; lia).
    rewrite (proj2 (Z.leb_le _ _)) in IH by (subst k; lia).
    destruct IH as (r'' & -> & Ha' & Hi'). exists r''. split_and!; [|..|done].
    + rewrite <- app_assoc. do 4 f_equal.
      replace (Z.to_nat (n - Z.of_nat k)) with 0%nat by lia.
      by rewrite take_0, app_nil_r, Hkn.
    + rewrite Ha', drop_drop. f_equal. lia.
  - rewrite (proj2 (Z.leb_gt _ _)) in IH by (subst k; lia). done.
Qed.
End ReadExact.

(** On every in-memory reader (a slice, a [Cursor], and a [Take] of any of
    them, nested or not) the provided [read_exact] loop terminates and is the
    byte-list reader [rd_exact] on the bytes the reader still holds: it returns
    exactly the next [n] bytes and leaves the reader on the bytes after them, or
    fails with [UnexpectedEof] when fewer than [n] are left. *)
Theorem read_exact_refines {R} `{ReadSpec R} (r : R) n fuel :
  read_inv r → 0 <= n → (Z.to_nat n < fuel)%nat →
  match rd_exact (err_of_kind UnexpectedEof) n (avail r) with
  | Ok (bs, rest) => ∃ r', read_exact fuel r n = Some (Ok (bs, r')) ∧ avail r' = rest ∧ read_inv r'
  | Err e => read_exact fuel r n = Some (Err e)
  end.
Proof.
  intros Hr Hn Hf. unfold rd_exact, read_exact.
  pose proof (read_exact_loop_spec fuel r n [] Hr Hn Hf) as Hs.
  destruct (n <=? _); [|done].
  destruct Hs as (r' & -> & ? & ?). eauto.
Qed.

Lemma read_exact_refines_witness :
  ∃ r' : Take Cursor,
    read_exact 4 (read_take (cursor_new [x01; x02; x03; x04; x05]) 4) 3
      = Some (Ok ([x01; x02; x03], r')) ∧ avail r' = [x04] ∧ read_inv r'.
Proof.
  pose proof (read_exact_refines (read_take (cursor_new [x01; x02; x03; x04; x05]) 4) 3 4) as H.
  lapply H; [clear H; intros H|repeat split; vm_compute; discriminate].
  lapply H; [clear H; intros H|lia]. lapply H; [clear H; intros H|lia].
  assert (rd_exact (err_of_kind UnexpectedEof) 3
    (avail (read_take (cursor_new [x01; x02; x03; x04; x05]) 4)) = Ok ([x01; x02; x03], [x04]))
    as E by (vm_compute; reflexivity).
  rewrite E in H. exact H.
Defined.

(** The position of a cursor counts the bytes read from it. *)
Lemma cursor_position (c c' : Cursor) n bs :
  read_inv c → 0 <= pos c <= Z.of_nat (length (inner c)) →
  read c n = Ok (bs, c') → 0 <= n →
  inner c' = inner c ∧ position c' = Z.of_nat (length (inner c)) - Z.of_nat (length (avail c')).
Proof.
  intros [Hp Hl] Hpos Hr Hn. unfold read, cursor_read in Hr. cbn in Hr.
  injection Hr as <- <-. cbn. split; [done|]. rewrite length_drop.
  unfold U64_MAX in *. lia.
Qed.

(** ** Writers *)

Lemma vec_write_all fuel w bs :
  (length bs < fuel)%nat →
  write_all_loop fuel w bs = Some (Ok {| vec_bytes := vec_bytes w ++ bs |}).
Proof.
  intros Hf. destruct w as [w]. destruct fuel as [|fuel]; [lia|].
  destruct bs as [|b bs]; [cbn; by rewrite app_nil_r|].
  cbn [write_all_loop write vec_write vec_bytes].
  rewrite (proj2 (Z.eqb_neq _ _)) by (cbn [length]; lia).
  rewrite drop_ge by lia. by destruct fuel.
Qed.

Lemma slice_write_all fuel w bs :
  (length bs < fuel)%nat → Z.of_nat (length bs) <= room w →
  write_all_loop fuel w bs
  = Some (Ok {| written := written w ++ bs; room := room w - Z.of_nat (length bs) |}).
Proof.
  intros Hf Hroom. destruct w as [w rm]. destruct fuel as [|fuel]; [lia|].
  destruct bs as [|b bs]; [cbn; by rewrite app_nil_r, Z.sub_0_r|].
  cbn [write_all_loop write slice_write room written] in *.
  rewrite Z.min_r by lia. rewrite (proj2 (Z.eqb_neq _ _)) by (cbn [length]; lia).
  rewrite drop_ge, take_ge by lia. by destruct fuel.
Qed.
