(* ===== verification/Ordered.v ===== *)
(** Ordered types and the ordered collections of the Rust library: lexicographic
    orders (the derived [Ord]), [BTreeSet] and [BTreeMap] as lists in increasing
    order, with their laws. *)

From Stdlib Require Import ZArith Lia.
From stdpp Require Import base list sets.
From Stdlib Require Import Init.Byte.
From coqutil Require Import Byte.
From S2P Require Import Prelude.

#[local] Set Warnings "-clear-no-such-hyp".

(** ** Lexicographic orders *)

Fixpoint list_cmp {A} (cmp : A → A → comparison) (l k : list A) : comparison :=
  match l, k with
  | [], [] => Eq
  | [], _ :: _ => Lt
  | _ :: _, [] => Gt
  | x :: l, y :: k => match cmp x y with Eq => list_cmp cmp l k | c => c end
  end.

Definition byte_cmp (b c : byte) : comparison := byte.unsigned b ?= byte.unsigned c.
Definition bytes_cmp : list byte → list byte → comparison := list_cmp byte_cmp.
Definition bytes_ltb (a b : list byte) : bool := match bytes_cmp a b with Lt => true | _ => false end.

Definition then_cmp (c d : comparison) : comparison := match c with Eq => d | _ => c end.

Lemma list_cmp_eq {A} (cmp : A → A → comparison) l k :
  (∀ x y, cmp x y = Eq → x = y) → list_cmp cmp l k = Eq → l = k.
Proof.
  intros Hc. revert k. induction l as [|x l IH]; intros [|y k]; cbn; try done.
  destruct (cmp x y) eqn:E; try done. intros H. by rewrite (Hc _ _ E), (IH _ H).
Qed.

Lemma list_cmp_opp {A} (cmp : A → A → comparison) l k :
  (∀ x y, cmp y x = CompOpp (cmp x y)) → list_cmp cmp k l = CompOpp (list_cmp cmp l k).
Proof.
  intros Hc. revert k. induction l as [|x l IH]; intros [|y k]; cbn; try done.
  rewrite Hc. destruct (cmp x y); cbn; [apply IH|done..].
Qed.

Lemma byte_cmp_eq b c : byte_cmp b c = Eq → b = c.
Proof. intros H%Z.compare_eq. by apply byte.unsigned_inj. Qed.

Lemma bytes_cmp_eq a b : bytes_cmp a b = Eq → a = b.
Proof. apply list_cmp_eq, byte_cmp_eq. Qed.

Lemma bytes_cmp_opp a b : bytes_cmp b a = CompOpp (bytes_cmp a b).
Proof. apply list_cmp_opp. intros. apply Z.compare_antisym. Qed.

(** ** The interface: a total order *)

Class Ordered (A : Type) := {
  cmp : A → A → comparison;
  cmp_eq x y : cmp x y = Eq ↔ x = y;
  cmp_opp x y : cmp y x = CompOpp (cmp x y);
  cmp_trans x y z : cmp x y = Lt → cmp y z = Lt → cmp x z = Lt }.

Section OrderedLaws.
Context `{Ordered A}.

Lemma cmp_refl x : cmp x x = Eq.
Proof. by apply cmp_eq. Qed.

Lemma cmp_gt x y : cmp x y = Gt ↔ cmp y x = Lt.
Proof. rewrite (cmp_opp x y). by destruct (cmp x y). Qed.

Definition ordered_eq_dec : EqDecision A.
Proof. intros x y. destruct (cmp x y) eqn:E; [left; by apply cmp_eq|right; intros ->; by rewrite cmp_refl in E..]. Defined.
End OrderedLaws.

#[export] Program Instance Z_ordered : Ordered Z := {| cmp := Z.compare |}.
Next Obligation. intros. apply Z.compare_eq_iff. Qed.
Next Obligation. intros. apply Z.compare_antisym. Qed.
Next Obligation. intros x y z. rewrite !Z.compare_lt_iff. lia. Qed.

#[export] Program Instance byte_ordered : Ordered byte := {| cmp := byte_cmp |}.
Next Obligation. intros x y. split; [apply byte_cmp_eq|]. intros ->. apply Z.compare_refl. Qed.
Next Obligation. intros. apply Z.compare_antisym. Qed.
Next Obligation. intros x y z. unfold byte_cmp. rewrite !Z.compare_lt_iff. lia. Qed.

#[export] Program Instance list_ordered `{Ordered A} : Ordered (list A) := {| cmp := list_cmp cmp |}.
Next Obligation.
  intros A ? x y. split; [apply list_cmp_eq; intros; by apply cmp_eq|]. intros ->.
  induction y as [|a y IH]; [done|]. cbn. by rewrite cmp_refl.
Qed.
Next Obligation. intros. apply list_cmp_opp, cmp_opp. Qed.
Next Obligation.
  intros A ? x. induction x as [|a x IH]; intros [|b y] [|c z]; cbn; try done.
  destruct (cmp a b) eqn:E1; try done; destruct (cmp b c) eqn:E2; try done.
  - apply cmp_eq in E1 as ->. rewrite E2. apply IH.
  - apply cmp_eq in E1 as ->. by rewrite E2.
  - apply cmp_eq in E2 as ->. by rewrite E1.
  - by rewrite (cmp_trans _ _ _ E1 E2).
Qed.

#[export] Program Instance prod_ordered `{Ordered A, Ordered B} : Ordered (A * B) :=
  {| cmp x y := then_cmp (cmp (fst x) (fst y)) (cmp (snd x) (snd y)) |}.
Next Obligation.
  intros A ? B ? [a b] [c d]. cbn. unfold then_cmp. destruct (cmp a c) eqn:E.
  - apply cmp_eq in E as ->. rewrite cmp_eq. by split; [intros ->|intros [= ->]].
  - split; [done|]. intros [= -> ->]. by rewrite cmp_refl in E.
  - split; [done|]. intros [= -> ->]. by rewrite cmp_refl in E.
Qed.
Next Obligation.
  intros A ? B ? [a b] [c d]. cbn. unfold then_cmp. rewrite (cmp_opp a c), (cmp_opp b d). by destruct (cmp a c).
Qed.
Next Obligation.
  intros A ? B ? [a b] [c d] [e f]. cbn. unfold then_cmp.
  destruct (cmp a c) eqn:E1; try done; destruct (cmp c e) eqn:E2; try done.
  - apply cmp_eq in E1 as ->. rewrite E2. apply cmp_trans.
  - apply cmp_eq in E1 as ->. by rewrite E2.
  - apply cmp_eq in E2 as ->. by rewrite E1.
  - by rewrite (cmp_trans _ _ _ E1 E2).
Qed.

(** A derived order: that of the fields. *)
Program Definition inj_ordered {A} `{Ordered B} (f : A → B) (Hf : ∀ x y, f x = f y → x = y) : Ordered A :=
  {| cmp x y := cmp (f x) (f y) |}.
Next Obligation. intros. split; [by intros ?%cmp_eq%Hf|]. intros ->. by apply cmp_eq. Qed.
Next Obligation. intros. apply cmp_opp. Qed.
Next Obligation. intros. cbn in *. by eapply cmp_trans. Qed.

(** ** [BTreeSet] and [BTreeMap] *)

Section Maps.
Context `{Ordered K} {V : Type}.
#[local] Existing Instance ordered_eq_dec.

(** [BTreeSet::insert] *)
Fixpoint bset_insert (x : K) (s : list K) : list K :=
  match s with
  | [] => [x]
  | y :: s' => match cmp x y with Lt => x :: s | Eq => s | Gt => y :: bset_insert x s' end
  end.

(** [BTreeMap::get], [insert], [remove] *)
Fixpoint bmap_get (k : K) (m : list (K * V)) : option V :=
  match m with [] => None | (k', v) :: m => if decide (k' = k) then Some v else bmap_get k m end.
Fixpoint bmap_insert (k : K) (v : V) (m : list (K * V)) : list (K * V) :=
  match m with
  | [] => [(k, v)]
  | (k', v') :: m' => match cmp k k' with Lt => (k, v) :: m | Eq => (k, v) :: m' | Gt => (k', v') :: bmap_insert k v m' end
  end.
Fixpoint bmap_remove (k : K) (m : list (K * V)) : list (K * V) :=
  match m with [] => [] | (k', v) :: m => if decide (k' = k) then m else (k', v) :: bmap_remove k m end.
(** [BTreeMap::extend] *)
Definition bmap_extend (m m' : list (K * V)) : list (K * V) := foldl (λ m e, bmap_insert (fst e) (snd e) m) m m'.

(** Keys in increasing order. *)
Fixpoint above (k : K) (m : list (K * V)) : Prop :=
  match m with [] => True | (k', _) :: m => cmp k k' = Lt ∧ above k m end.
Fixpoint bmap_wf (m : list (K * V)) : Prop :=
  match m with [] => True | (k, _) :: m => above k m ∧ bmap_wf m end.

Lemma bset_insert_elem x y s : x ∈ bset_insert y s ↔ x = y ∨ x ∈ s.
Proof.
  induction s as [|z s IH]; cbn [bset_insert]; [set_solver|]. destruct (cmp y z) eqn:E; [|set_solver|].
  - apply cmp_eq in E as ->. set_solver.
  - rewrite elem_of_cons, IH. set_solver.
Qed.

Lemma above_trans j k m : cmp j k = Lt → above k m → above j m.
Proof. intros Hj. induction m as [|[i v] m IH]; [done|]. intros [H1 H2]. split; [by eapply cmp_trans|auto]. Qed.

Lemma above_get k m : above k m → bmap_get k m = None.
Proof.
  induction m as [|[i v] m IH]; [done|]. intros [H1 H2]. cbn. rewrite decide_False; [auto|]. intros ->. by rewrite cmp_refl in H1.
Qed.

Lemma above_insert j k v m : cmp j k = Lt → above j m → above j (bmap_insert k v m).
Proof.
  intros Hj. induction m as [|[i w] m IH]; [done|]. intros [H1 H2]. cbn. destruct (cmp k i); cbn; auto.
Qed.

Lemma bmap_insert_wf k v m : bmap_wf m → bmap_wf (bmap_insert k v m).
Proof.
  induction m as [|[i w] m IH]; [done|]. intros [H1 H2]. cbn. destruct (cmp k i) eqn:E; cbn.
  - apply cmp_eq in E as ->. done.
  - split_and!; [done| |done|done]. by eapply above_trans.
  - split; [|auto]. apply above_insert; [by apply cmp_gt|done].
Qed.

Lemma bmap_get_insert k v m j : bmap_wf m → bmap_get j (bmap_insert k v m) = if decide (j = k) then Some v else bmap_get j m.
Proof.
  induction m as [|[i w] m IH]; intros Hm; cbn [bmap_insert bmap_get].
  - destruct (decide (k = j)), (decide (j = k)); congruence.
  - destruct Hm as [H1 H2]. destruct (cmp k i) eqn:E; cbn [bmap_get].
    + apply cmp_eq in E as <-. destruct (decide (k = j)), (decide (j = k)); congruence.
    + destruct (decide (k = j)), (decide (j = k)); congruence.
    + rewrite IH by done. destruct (decide (i = j)) as [->|]; [|done]. destruct (decide (j = k)) as [->|]; [|done].
      by rewrite cmp_refl in E.
Qed.

(** Two maps with the same entries are the same list. *)
Lemma bmap_ext m m' : bmap_wf m → bmap_wf m' → (∀ k, bmap_get k m = bmap_get k m') → m = m'.
Proof.
  revert m'. induction m as [|[k v] m IH]; intros [|[k' v'] m'] Hm Hm' He; [done| | |].
  - specialize (He k'). cbn in He. by rewrite decide_True in He.
  - specialize (He k). cbn in He. by rewrite decide_True in He.
  - destruct Hm as [A1 W1], Hm' as [A2 W2]. destruct (cmp k k') eqn:E.
    + apply cmp_eq in E as <-. pose proof (He k) as Hk. cbn in Hk. rewrite !decide_True in Hk by done. injection Hk as <-.
      f_equal. apply IH; [done|done|]. intros j. specialize (He j). cbn in He. destruct (decide (k = j)) as [<-|]; [|done].
      by rewrite !above_get.
    + pose proof (He k) as Hk. cbn in Hk. rewrite decide_True in Hk by done. rewrite decide_False in Hk by (intros ->; by rewrite cmp_refl in E).
      rewrite above_get in Hk; [done|]. by eapply above_trans.
    + pose proof (He k') as Hk. cbn in Hk. rewrite (decide_True (P := k' = k')) in Hk by done.
      rewrite decide_False in Hk by (intros ->; by rewrite cmp_refl in E). apply cmp_gt in E.
      rewrite above_get in Hk; [done|]. by eapply above_trans.
Qed.

(** Inserting entries in order appends them. *)
Lemma bmap_insert_last k v m : (∀ j w, (j, w) ∈ m → cmp j k = Lt) → bmap_insert k v m = m ++ [(k, v)].
Proof.
  induction m as [|[i w] m IH]; intros Hm; [done|]. cbn. rewrite (proj2 (cmp_gt k i)) by (apply (Hm i w); left).
  f_equal. apply IH. intros j u Hj. apply (Hm j u). by right.
Qed.

Lemma above_elem k m j w : above k m → (j, w) ∈ m → cmp k j = Lt.
Proof. induction m as [|[i u] m IH]; intros Ha Hin; [by apply elem_of_nil in Hin|]. destruct Ha. by apply elem_of_cons in Hin as [[= -> ->]|]; auto. Qed.

Lemma bmap_wf_app a b : bmap_wf (a ++ b) ↔ bmap_wf a ∧ bmap_wf b ∧ ∀ j w k v, (j, w) ∈ a → (k, v) ∈ b → cmp j k = Lt.
Proof.
  induction a as [|[i u] a IH]; cbn [app bmap_wf].
  - split; [intros; split_and!; [done|done|set_solver]|by intros (_ & ? & _)].
  - assert (above i (a ++ b) ↔ above i a ∧ above i b) as Hab.
    { clear. induction a as [|[k v] a IH]; cbn; [tauto|]. rewrite IH. tauto. }
    assert (above i b ↔ ∀ k v, (k, v) ∈ b → cmp i k = Lt) as Hb.
    { clear. induction b as [|[k v] b IH]; cbn; [split; [set_solver|done]|]. rewrite IH. set_solver. }
    rewrite IH, Hab, Hb. set_solver.
Qed.

Lemma bmap_insert_all m m' : bmap_wf (m ++ m') → bmap_extend m m' = m ++ m'.
Proof.
  unfold bmap_extend. revert m. induction m' as [|[k v] m' IH]; intros m Hm; cbn [foldl fst snd]; [by rewrite app_nil_r|].
  apply bmap_wf_app in Hm as Hm'. destruct Hm' as (H1 & H2 & H3).
  rewrite bmap_insert_last by (intros j w Hj; eapply H3; [exact Hj|left]). rewrite IH; [by rewrite <- app_assoc|].
  by rewrite <- app_assoc.
Qed.

(** *** [extend] *)

Lemma bmap_get_app a b k : bmap_get k (a ++ b) = match bmap_get k a with Some v => Some v | None => bmap_get k b end.
Proof. induction a as [|[j w] a IH]; [done|]. cbn. by destruct (decide (j = k)). Qed.

Lemma bmap_extend_wf m m' : bmap_wf m → bmap_wf (bmap_extend m m').
Proof. unfold bmap_extend. revert m. induction m' as [|[k v] m' IH]; intros m Hm; [done|]. cbn. by apply IH, bmap_insert_wf. Qed.

(** The entries of the second map win. *)
Lemma bmap_get_extend m m' k :
  bmap_wf m → bmap_wf m' → bmap_get k (bmap_extend m m') = match bmap_get k m' with Some v => Some v | None => bmap_get k m end.
Proof.
  unfold bmap_extend. revert m. induction m' as [|[j w] m' IH]; intros m Hm Hm'; [done|]. destruct Hm' as [Ha Hm'].
  cbn [foldl fst snd bmap_get]. rewrite IH by (try apply bmap_insert_wf; done). rewrite bmap_get_insert by done.
  destruct (decide (j = k)) as [->|Hjk].
  - rewrite above_get by done. by rewrite decide_True.
  - rewrite (decide_False (P := k = j)) by done. done.
Qed.

Lemma bmap_extend_idem m : bmap_wf m → bmap_extend m m = m.
Proof.
  intros Hm. apply bmap_ext; [by apply bmap_extend_wf|done|]. intros k. rewrite bmap_get_extend by done. by destruct (bmap_get k m).
Qed.

Lemma bmap_extend_nil m : bmap_wf m → bmap_extend [] m = m.
Proof. intros Hm. by apply (bmap_insert_all []). Qed.

Lemma bmap_extend_assoc a b c :
  bmap_wf a → bmap_wf b → bmap_wf c → bmap_extend a (bmap_extend b c) = bmap_extend (bmap_extend a b) c.
Proof.
  intros Ha Hb Hc. apply bmap_ext; [by repeat apply bmap_extend_wf..|]. intros k.
  rewrite !bmap_get_extend by (try apply bmap_extend_wf; done). by destruct (bmap_get k c), (bmap_get k b).
Qed.

Lemma bmap_get_in k v m : bmap_get k m = Some v → (k, v) ∈ m.
Proof. induction m as [|[j w] m IH]; [done|]. cbn. destruct (decide (j = k)) as [->|]; [intros [= ->]; left|intros; right; auto]. Qed.

Lemma bmap_extend_in k v m m' : (k, v) ∈ bmap_extend m m' → (k, v) ∈ m ∨ (k, v) ∈ m'.
Proof.
  unfold bmap_extend. revert m. induction m' as [|[j w] m' IH]; intros m; [by left|]. cbn [foldl fst snd].
  intros [Hi|Hi]%IH; [|right; by right].
  assert (∀ m, (k, v) ∈ bmap_insert j w m → (k, v) ∈ m ∨ (k, v) = (j, w)) as Hins.
  { clear. induction m as [|[i u] m IH]; cbn [bmap_insert]; [set_solver|]. destruct (cmp j i); set_solver. }
  apply Hins in Hi as [Hi|[= -> ->]]; [by left|right; left].
Qed.
End Maps.
