(* ===== verification/HashEngine.v ===== *)
(** The buffering hash engine shared by the block hashes of [src/hashes]: the
    macro [engine_input_impl!] of [util.rs], generic in the block size and the
    compression function, and what it computes: the fold of the compression
    function over the blocks of everything that was input. *)

From Stdlib Require Import String ZArith Lia.
From stdpp Require Import base list.
From coqutil Require Import Byte Word.LittleEndianList.
From S2P Require Import Prelude.

(** [struct HashEngine { buffer, h, length }] *)
Record HashEngine := { buffer : list byte; h : list Z; eng_length : Z }.

(** What a block hash supplies to the macro. *)
Class BlockHash := {
  BLOCK_SIZE : Z;
  compress : list Z → list byte → list Z;
  block_size_pos : 0 < BLOCK_SIZE }.

Section Engine.
Context `{BlockHash}.

Definition process_block (e : HashEngine) : HashEngine :=
  {| buffer := buffer e; h := compress (h e) (buffer e); eng_length := eng_length e |}.

(** [while !inp.is_empty() { .. }]: every round consumes at least one byte. *)
Fixpoint input_loop (fuel : nat) (e : HashEngine) (inp : list byte) : HashEngine :=
  match fuel, inp with
  | O, _ | _, [] => e
  | S fuel, _ =>
      let buf_idx := eng_length e mod BLOCK_SIZE in
      let rem_len := BLOCK_SIZE - buf_idx in
      let write_len := Z.min rem_len (Z.of_nat (length inp)) in
      let e := {| buffer := write_at (Z.to_nat buf_idx) (take (Z.to_nat write_len) inp) (buffer e);
                  h := h e; eng_length := eng_length e + write_len |} in
      let e := if eng_length e mod BLOCK_SIZE =? 0 then process_block e else e in
      input_loop fuel e (drop (Z.to_nat write_len) inp)
  end.

Definition input (e : HashEngine) (inp : list byte) : HashEngine :=
  input_loop (length inp) e inp.

(** ** What the engine computes *)

(** The first [n] blocks of [m] absorbed into [s]. *)
Fixpoint absorb (n : nat) (s : list Z) (m : list byte) : list Z :=
  match n with
  | O => s
  | S n => absorb n (compress s (take (Z.to_nat BLOCK_SIZE) m)) (drop (Z.to_nat BLOCK_SIZE) m)
  end.

Lemma absorb_app n s m x :
  (n * Z.to_nat BLOCK_SIZE <= length m)%nat → absorb n s (m ++ x) = absorb n s m.
Proof.
  revert s m. induction n as [|n IH]; intros s m Hl; [done|]. cbn.
  rewrite take_app_le, drop_app_le by lia. apply IH. rewrite length_drop. lia.
Qed.

Lemma absorb_S n s m :
  absorb (S n) s m
  = compress (absorb n s m) (take (Z.to_nat BLOCK_SIZE) (drop (n * Z.to_nat BLOCK_SIZE) m)).
Proof.
  revert s m. induction n as [|n IH]; intros s m; [done|].
  change (absorb (S (S n)) s m)
    with (absorb (S n) (compress s (take (Z.to_nat BLOCK_SIZE) m)) (drop (Z.to_nat BLOCK_SIZE) m)).
  rewrite IH. cbn. by rewrite drop_drop.
Qed.

Lemma absorb_split n k s m :
  absorb (n + k) s m = absorb k (absorb n s m) (drop (n * Z.to_nat BLOCK_SIZE) m).
Proof.
  revert s m. induction n as [|n IH]; intros s m; [done|]. cbn.
  by rewrite IH, drop_drop.
Qed.

(** The engine [e], started on state [s], has been given exactly [m]. *)
Record engine_holds (s : list Z) (e : HashEngine) (m : list byte) : Prop := {
  eh_length : eng_length e = Z.of_nat (length m);
  eh_buffer : Z.of_nat (length (buffer e)) = BLOCK_SIZE;
  eh_state : h e = absorb (Z.to_nat (eng_length e / BLOCK_SIZE)) s m;
  eh_pending : take (Z.to_nat (eng_length e mod BLOCK_SIZE)) (buffer e)
               = drop (Z.to_nat (eng_length e / BLOCK_SIZE) * Z.to_nat BLOCK_SIZE) m }.

Lemma engine_holds_new s buf :
  Z.of_nat (length buf) = BLOCK_SIZE →
  engine_holds s {| buffer := buf; h := s; eng_length := 0 |} [].
Proof.
  intros Hb. pose proof block_size_pos.
  constructor; cbn; rewrite ?Z.div_0_l, ?Z.mod_0_l by lia; done.
Qed.

(** One round of the loop: the engine absorbs the bytes it copied. *)
Lemma engine_holds_round s e m bs :
  engine_holds s e m → bs ≠ [] →
  Z.of_nat (length bs) <= BLOCK_SIZE - eng_length e mod BLOCK_SIZE →
  let e' := {| buffer := write_at (Z.to_nat (eng_length e mod BLOCK_SIZE)) bs (buffer e);
               h := h e; eng_length := eng_length e + Z.of_nat (length bs) |} in
  engine_holds s (if eng_length e' mod BLOCK_SIZE =? 0 then process_block e' else e') (m ++ bs).
Proof.
  intros [Hlen Hbuf Hst Hpend] Hne Hbs e'. pose proof block_size_pos as HB.
  set (L := eng_length e) in *. set (q := L / BLOCK_SIZE) in *. set (r := L mod BLOCK_SIZE) in *.
  assert (L = BLOCK_SIZE * q + r) as HL by apply Z.div_mod, Z.neq_sym, Z.lt_neq, HB.
  assert (0 <= r < BLOCK_SIZE) as Hr by (apply Z.mod_pos_bound; lia).
  assert (0 <= q) as Hq by nia.
  assert (Z.to_nat q * Z.to_nat BLOCK_SIZE <= length m)%nat as Hqm by nia.
  assert (0 < length bs)%nat as Hbs0 by (destruct bs; cbn; [done|lia]).
  assert (length (buffer e') = length (buffer e)) as Hb' by (apply length_write_at; lia).
  assert (take (Z.to_nat r + length bs) (buffer e')
          = drop (Z.to_nat q * Z.to_nat BLOCK_SIZE) (m ++ bs)) as Hp'.
  { rewrite drop_app_le, <- Hpend by done. apply take_write_at. lia. }
  assert (h e' = absorb (Z.to_nat q) s (m ++ bs)) as Hst' by (cbn; by rewrite absorb_app).
  assert (eng_length e' = BLOCK_SIZE * q + (r + Z.of_nat (length bs))) as HL' by (cbn; lia).
  destruct (decide (r + Z.of_nat (length bs) = BLOCK_SIZE)) as [Hfull|Hpart].
  - assert (eng_length e' / BLOCK_SIZE = q + 1) as Hdiv by (rewrite HL'; symmetry; apply Z.div_unique with 0; lia).
    assert (eng_length e' mod BLOCK_SIZE = 0) as Hmod by (rewrite HL'; symmetry; apply Z.mod_unique with (q + 1); lia).
    rewrite Hmod. cbn [Z.eqb].
    constructor; cbn [process_block eng_length buffer h]; rewrite ?Hdiv, ?Hmod.
    + rewrite length_app. cbn. lia.
    + congruence.
    + replace (Z.to_nat (q + 1)) with (S (Z.to_nat q)) by lia.
      rewrite absorb_S, <- Hst', <- Hp'. f_equal. rewrite take_ge by (rewrite length_take; lia).
      by rewrite take_ge by lia.
    + cbn. rewrite drop_ge; [done|]. rewrite length_app. lia.
  - assert (eng_length e' / BLOCK_SIZE = q) as Hdiv by (rewrite HL'; symmetry; apply Z.div_unique with (r + Z.of_nat (length bs)); lia).
    assert (eng_length e' mod BLOCK_SIZE = r + Z.of_nat (length bs)) as Hmod by (rewrite HL'; symmetry; apply Z.mod_unique with q; lia).
    rewrite Hmod. rewrite (proj2 (Z.eqb_neq _ 0)) by lia.
    constructor; rewrite ?Hdiv, ?Hmod; [|congruence|done|].
    + rewrite length_app. cbn. lia.
    + rewrite <- Hp'. f_equal. lia.
Qed.

Lemma engine_holds_loop s fuel e m inp :
  (length inp <= fuel)%nat → engine_holds s e m →
  engine_holds s (input_loop fuel e inp) (m ++ inp).
Proof.
  revert e m inp. induction fuel as [|fuel IH]; intros e m inp Hf He.
  { destruct inp; cbn in *; [by rewrite app_nil_r|lia]. }
  destruct inp as [|b inp']; [cbn; by rewrite app_nil_r|].
  set (inp := b :: inp') in *.
  assert (0 < length inp)%nat by (cbn; lia).
  pose proof block_size_pos as HB.
  pose proof (Z.mod_pos_bound (eng_length e) BLOCK_SIZE HB).
  set (wl := Z.min (BLOCK_SIZE - eng_length e mod BLOCK_SIZE) (Z.of_nat (length inp))).
  assert (Z.of_nat (length (take (Z.to_nat wl) inp)) = wl) as Hwl by (rewrite length_take; lia).
  replace (m ++ inp) with ((m ++ take (Z.to_nat wl) inp) ++ drop (Z.to_nat wl) inp)
    by (by rewrite <- app_assoc, take_drop).
  cbn [input_loop]. fold inp wl. subst inp. cbv iota beta zeta.
  apply IH; [rewrite length_drop; lia|].
  pose proof (engine_holds_round s e m (take (Z.to_nat wl) (b :: inp')) He) as Hr. rewrite Hwl in Hr.
  apply Hr; [|lia]. intros Hn. rewrite Hn in Hwl. cbn in Hwl. lia.
Qed.

(** Feeding the engine: whatever the pieces, it holds their concatenation. *)
Lemma engine_holds_input s e m inp :
  engine_holds s e m → engine_holds s (input e inp) (m ++ inp).
Proof. apply engine_holds_loop. done. Qed.
End Engine.
