(* ===== verification/Sha256.v ===== *)
(** SHA-256 and double SHA-256 ([src/hashes/src/sha256.rs], [sha256d.rs]): the
    engine with the portable compression function [software_process_block], its
    finalisation, and the separate one-shot implementation
    [Midstate::const_hash]. *)

From Stdlib Require Import String ZArith Lia.
From stdpp Require Import base list.
From Stdlib Require Import Init.Byte.
From coqutil Require Import Byte Word.LittleEndianList.
From S2P Require Import Prelude HashEngine.

(** ** The compression function *)

Definition add32 (x y : Z) : Z := uwrap 32 (x + y).
Definition shl32 (x n : Z) : Z := uwrap 32 (Z.shiftl x n).
Definition rotate_left (x n : Z) : Z := Z.lor (shl32 x n) (Z.shiftr x (32 - n)).

Definition Ch (x y z : Z) : Z := Z.lxor z (Z.land x (Z.lxor y z)).
Definition Maj (x y z : Z) : Z := Z.lor (Z.land x y) (Z.land z (Z.lor x y)).
Definition Sigma0 (x : Z) : Z :=
  Z.lxor (Z.lxor (rotate_left x 30) (rotate_left x 19)) (rotate_left x 10).
Definition Sigma1 (x : Z) : Z :=
  Z.lxor (Z.lxor (rotate_left x 26) (rotate_left x 21)) (rotate_left x 7).
Definition sigma0 (x : Z) : Z :=
  Z.lxor (Z.lxor (rotate_left x 25) (rotate_left x 14)) (Z.shiftr x 3).
Definition sigma1 (x : Z) : Z :=
  Z.lxor (Z.lxor (rotate_left x 15) (rotate_left x 13)) (Z.shiftr x 10).

(** The two forms of [round!]: the first sixteen rounds use [w[i]] as loaded,
    the later ones recompute it from three other words. *)
Inductive schedule :=
| First (i : nat)
| Later (i i1 i2 i3 : nat).

Record registers := { ra : Z; rb : Z; rc : Z; rd : Z; re : Z; rf : Z; rg : Z; rh : Z }.

(** [round!(a, .., h, k, w)].  The source passes the registers rotated by one
    place in each call; here the registers themselves are rotated, so that the
    table below lists only the round's constant and schedule. *)
Definition round (st : registers * list Z) (r : Z * schedule) : registers * list Z :=
  let '(s, w) := st in
  let '(k, sched) := r in
  let '(i, w) :=
    match sched with
    | First i => (i, w)
    | Later i i1 i2 i3 =>
        (i, <[i := add32 (add32 (add32 (w !!! i) (sigma1 (w !!! i1))) (w !!! i2))
                     (sigma0 (w !!! i3))]> w)
    end in
  let t1 := add32 (add32 (add32 (add32 (rh s) (Sigma1 (re s))) (Ch (re s) (rf s) (rg s))) k) (w !!! i) in
  let t2 := add32 (Sigma0 (ra s)) (Maj (ra s) (rb s) (rc s)) in
  let d := add32 (rd s) t1 in
  let h := add32 t1 t2 in
  ({| ra := h; rb := ra s; rc := rb s; rd := rc s; re := d; rf := re s; rg := rf s; rh := rg s |}, w).

Definition rounds : list (Z * schedule) :=
  [(0x428a2f98, First 0); (0x71374491, First 1); (0xb5c0fbcf, First 2);
     (0xe9b5dba5, First 3); (0x3956c25b, First 4); (0x59f111f1, First 5);
     (0x923f82a4, First 6); (0xab1c5ed5, First 7); (0xd807aa98, First 8);
     (0x12835b01, First 9); (0x243185be, First 10); (0x550c7dc3, First 11);
     (0x72be5d74, First 12); (0x80deb1fe, First 13); (0x9bdc06a7, First 14);
     (0xc19bf174, First 15); (0xe49b69c1, Later 0 14 9 1); (0xefbe4786, Later 1 15 10 2);
     (0x0fc19dc6, Later 2 0 11 3); (0x240ca1cc, Later 3 1 12 4); (0x2de92c6f, Later 4 2 13 5);
     (0x4a7484aa, Later 5 3 14 6); (0x5cb0a9dc, Later 6 4 15 7); (0x76f988da, Later 7 5 0 8);
     (0x983e5152, Later 8 6 1 9); (0xa831c66d, Later 9 7 2 10); (0xb00327c8, Later 10 8 3 11);
     (0xbf597fc7, Later 11 9 4 12); (0xc6e00bf3, Later 12 10 5 13); (0xd5a79147, Later 13 11 6 14);
     (0x06ca6351, Later 14 12 7 15); (0x14292967, Later 15 13 8 0); (0x27b70a85, Later 0 14 9 1);
     (0x2e1b2138, Later 1 15 10 2); (0x4d2c6dfc, Later 2 0 11 3); (0x53380d13, Later 3 1 12 4);
     (0x650a7354, Later 4 2 13 5); (0x766a0abb, Later 5 3 14 6); (0x81c2c92e, Later 6 4 15 7);
     (0x92722c85, Later 7 5 0 8); (0xa2bfe8a1, Later 8 6 1 9); (0xa81a664b, Later 9 7 2 10);
     (0xc24b8b70, Later 10 8 3 11); (0xc76c51a3, Later 11 9 4 12); (0xd192e819, Later 12 10 5 13);
     (0xd6990624, Later 13 11 6 14); (0xf40e3585, Later 14 12 7 15); (0x106aa070, Later 15 13 8 0);
     (0x19a4c116, Later 0 14 9 1); (0x1e376c08, Later 1 15 10 2); (0x2748774c, Later 2 0 11 3);
     (0x34b0bcb5, Later 3 1 12 4); (0x391c0cb3, Later 4 2 13 5); (0x4ed8aa4a, Later 5 3 14 6);
     (0x5b9cca4f, Later 6 4 15 7); (0x682e6ff3, Later 7 5 0 8); (0x748f82ee, Later 8 6 1 9);
     (0x78a5636f, Later 9 7 2 10); (0x84c87814, Later 10 8 3 11); (0x8cc70208, Later 11 9 4 12);
     (0x90befffa, Later 12 10 5 13); (0xa4506ceb, Later 13 11 6 14); (0xbef9a3f7, Later 14 12 7 15);
     (0xc67178f2, Later 15 13 8 0)].

(** The sixty-four rounds and the final additions, from the words of a block. *)
Definition compress_words (h w : list Z) : list Z :=
  let s := {| ra := h !!! 0%nat; rb := h !!! 1%nat; rc := h !!! 2%nat; rd := h !!! 3%nat;
              re := h !!! 4%nat; rf := h !!! 5%nat; rg := h !!! 6%nat; rh := h !!! 7%nat |} in
  let s := fst (fold_left round rounds (s, w)) in
  [add32 (h !!! 0%nat) (ra s); add32 (h !!! 1%nat) (rb s); add32 (h !!! 2%nat) (rc s);
   add32 (h !!! 3%nat) (rd s); add32 (h !!! 4%nat) (re s); add32 (h !!! 5%nat) (rf s);
   add32 (h !!! 6%nat) (rg s); add32 (h !!! 7%nat) (rh s)].

(** [for (w_val, buff_bytes) in w.iter_mut().zip(buffer.chunks_exact(4))] *)
Definition block_words (buffer : list byte) : list Z :=
  (λ i, be_combine (take 4 (drop (4 * i) buffer))) <$> seq 0 16.

Definition software_process_block (h : list Z) (buffer : list byte) : list Z :=
  compress_words h (block_words buffer).

#[export] Program Instance sha256_block : BlockHash :=
  {| BLOCK_SIZE := 64; compress := software_process_block |}.
Next Obligation. done. Qed.

(** ** The engine *)

Definition initial_state : list Z :=
  [0x6a09e667; 0xbb67ae85; 0x3c6ef372; 0xa54ff53a; 0x510e527f; 0x9b05688c; 0x1f83d9ab; 0x5be0cd19].

Definition engine_default : HashEngine :=
  {| buffer := replicate 64 x00; h := initial_state; eng_length := 0 |}.

(** [midstate]: the state words, big-endian. *)
Definition midstate (e : HashEngine) : list byte := h e ≫= be_split 4.

Definition from_midstate (ms : list byte) (len : Z) : option HashEngine :=
  if len mod BLOCK_SIZE =? 0
  then Some {| buffer := replicate 64 x00;
               h := (λ i, be_combine (take 4 (drop (4 * i) ms))) <$> seq 0 8;
               eng_length := len |}
  else None.

Definition from_engine (e : HashEngine) : list byte :=
  let data_len := uwrap 64 (eng_length e) in
  let zeroes := replicate 56 x00 in
  let e := input e [x80] in
  let e := if 56 <? eng_length e mod BLOCK_SIZE then input e zeroes else e in
  let pad_length := 56 - eng_length e mod BLOCK_SIZE in
  let e := input e (take (Z.to_nat pad_length) zeroes) in
  let e := input e (be_split 8 (uwrap 64 (8 * data_len))) in
  midstate e.

(** [<sha256::Hash as Hash>::hash] *)
Definition sha256_hash (data : list byte) : list byte := from_engine (input engine_default data).

(** [sha256::Hash::hash_again] and [sha256d::from_engine]. *)
Definition sha256d_from_engine (e : HashEngine) : list byte := sha256_hash (from_engine e).
Definition sha256d_hash (data : list byte) : list byte :=
  sha256d_from_engine (input engine_default data).

(** ** The constant-evaluable implementation *)

Definition read_u32 (bytes : list byte) (index : nat) : Z :=
  let b i := byte.unsigned (nth i bytes x00) in
  Z.lor (Z.lor (Z.lor (Z.shiftl (b index) 24) (Z.shiftl (b (index + 1)%nat) 16))
               (Z.shiftl (b (index + 2)%nat) 8))
        (Z.shiftl (b (index + 3)%nat) 0).

Definition copy_w (bytes : list byte) (index : nat) : list Z :=
  (λ i, read_u32 bytes (index + i * 4)%nat) <$> seq 0 16.

(** [while offset + i < bytes.len() { buf[i] = bytes[offset + i]; i += 1; }] *)
Fixpoint copy_tail (fuel : nat) (bytes : list byte) (offset i : nat) (buf : list byte)
  : list byte * nat :=
  match fuel with
  | O => (buf, i)
  | S fuel =>
      if (offset + i <? length bytes)%nat
      then copy_tail fuel bytes offset (i + 1) (<[i := nth (offset + i) bytes x00]> buf)
      else (buf, i)
  end.

(** The words of chunk [chunk] out of [num_chunks]. *)
Definition const_chunk_words (bytes : list byte) (num_chunks chunk : nat) : list Z :=
  let len := length bytes in
  if (chunk * 64 + 64 <=? len)%nat then copy_w bytes (chunk * 64)
  else
    let '(buf, i) := copy_tail 64 bytes (chunk * 64) 0 (replicate 64 x00) in
    let buf := if (len mod 64 <=? 64 - 9)%nat || (chunk + 2 =? num_chunks)%nat
               then <[i := x80]> buf else buf in
    let buf :=
      if (chunk + 1 =? num_chunks)%nat then
        let bit_len := uwrap 64 (Z.of_nat len * 8) in
        foldl (λ buf j, <[(64 - j)%nat := byte.of_Z (Z.land (Z.shiftr bit_len (8 * (Z.of_nat j - 1))) 255)]> buf)
          buf [8; 7; 6; 5; 4; 3; 2; 1]%nat
      else buf in
    copy_w buf 0.

Fixpoint const_hash_loop (n : nat) (bytes : list byte) (finalize : bool) (num_chunks chunk : nat)
    (state : list Z) : list Z :=
  match n with
  | O => state
  | S n =>
      if negb finalize && (chunk + 1 =? num_chunks)%nat then state
      else const_hash_loop n bytes finalize num_chunks (chunk + 1)
             (compress_words state (const_chunk_words bytes num_chunks chunk))
  end.

Definition midstate_const_hash (bytes : list byte) (finalize : bool) : list byte :=
  let num_chunks := ((length bytes + 9 + 63) / 64)%nat in
  let state := const_hash_loop num_chunks bytes finalize num_chunks 0 initial_state in
  state ≫= λ s, [byte.of_Z (Z.shiftr s 24); byte.of_Z (Z.shiftr s 16);
                 byte.of_Z (Z.shiftr s 8); byte.of_Z (Z.shiftr s 0)].

Definition const_hash (bytes : list byte) : list byte := midstate_const_hash bytes true.

(** [Midstate::hash_tag]: the state after the block [SHA256(tag) || SHA256(tag)]. *)
Definition hash_tag (tag : list byte) : list byte :=
  let hash := const_hash tag in
  midstate_const_hash ((λ i, nth (i mod length hash) hash x00) <$> seq 0 64) false.

(** ** The specification *)

(** The padded message of FIPS 180-4. *)
Definition sha256_pad (m : list byte) : list byte :=
  m ++ [x80] ++ replicate (Z.to_nat ((55 - Z.of_nat (length m)) mod 64)) x00
    ++ be_split 8 (8 * Z.of_nat (length m)).

Definition sha256_spec (m : list byte) : list byte :=
  absorb (length (sha256_pad m) / 64) initial_state (sha256_pad m) ≫= be_split 4.

Lemma sha256_pad_blocks m :
  Z.of_nat (length (sha256_pad m)) = 64 * ((Z.of_nat (length m) + 72) / 64).
Proof.
  unfold sha256_pad. rewrite !length_app, length_replicate, length_be_split. cbn [length].
  set (L := Z.of_nat (length m)).
  pose proof (Z.mod_pos_bound (55 - L) 64 ltac:(lia)).
  pose proof (Z.div_mod (55 - L) 64 ltac:(lia)). 
  assert ((L + 72) / 64 = 1 - (55 - L) / 64) as -> by (symmetry; apply Z.div_unique with (63 - (55 - L) mod 64); lia).
  lia.
Qed.

Lemma engine_default_holds : engine_holds initial_state engine_default [].
Proof. apply engine_holds_new. done. Qed.

Lemma engine_holds_chunks s e m chunks :
  engine_holds s e m → engine_holds s (foldl input e chunks) (m ++ concat chunks).
Proof.
  revert e m. induction chunks as [|c cs IH]; intros e m He; cbn.
  - by rewrite app_nil_r.
  - rewrite app_assoc. apply IH. by apply engine_holds_input.
Qed.

(** The zero bytes [from_engine] inserts are those of the padding. *)
Lemma from_engine_padding L :
  0 <= L →
  let l1 := L + 1 in
  let l2 := if 56 <? l1 mod 64 then l1 + 56 else l1 in
  (l2 - l1) + (56 - l2 mod 64) = (55 - L) mod 64 ∧ 0 <= 56 - l2 mod 64 <= 56.
Proof.
  intros HL l1 l2. subst l1 l2.
  pose proof (Z.mod_pos_bound (L + 1) 64 ltac:(lia)).
  pose proof (Z.div_mod (L + 1) 64 ltac:(lia)).
  set (q := (L + 1) / 64) in *. set (r := (L + 1) mod 64) in *.
  destruct (Z.ltb_spec 56 r).
  - assert ((L + 1 + 56) mod 64 = r - 8) as -> by (symmetry; apply Z.mod_unique with (q + 1); lia).
    split; [|lia]. apply Z.mod_unique with (- q - 1); lia.
  - fold r. split; [|lia]. apply Z.mod_unique with (- q); lia.
Qed.

Lemma be_split_wrap z : be_split 8 (uwrap 64 z) = be_split 8 z.
Proof. unfold be_split. f_equal. by rewrite (le_split_mod z 8). Qed.

Lemma from_engine_holds s e m :
  engine_holds s e m →
  from_engine e = absorb (length (sha256_pad m) / 64) s (sha256_pad m) ≫= be_split 4.
Proof.
  intros He. unfold from_engine. cbv zeta.
  pose proof (eh_length _ _ _ He) as HL.
  assert (be_split 8 (uwrap 64 (8 * uwrap 64 (eng_length e))) = be_split 8 (8 * eng_length e)) as ->.
  { rewrite <- (be_split_wrap (8 * eng_length e)). f_equal. unfold uwrap. apply Zmult_mod_idemp_r. }
  pose proof (engine_holds_input s e m [x80] He) as H1.
  set (e1 := input e [x80]) in *.
  pose proof (eh_length _ _ _ H1) as HL1. rewrite length_app in HL1. cbn [length] in HL1.
  destruct (from_engine_padding (Z.of_nat (length m)) ltac:(lia)) as [Hpad Hrange].
  replace (Z.of_nat (length m) + 1) with (eng_length e1) in * by lia.
  change (@BLOCK_SIZE sha256_block) with 64.
  set (e2 := if 56 <? eng_length e1 mod 64 then _ else _).
  assert (∃ z, engine_holds s e2 ((m ++ [x80]) ++ replicate z x00) ∧
    eng_length e2 = (if 56 <? eng_length e1 mod 64 then eng_length e1 + 56 else eng_length e1) ∧
    Z.of_nat z = eng_length e2 - eng_length e1) as (z & H2 & HL2 & Hz).
  { subst e2. destruct (56 <? eng_length e1 mod 64).
    - exists 56%nat. pose proof (engine_holds_input s e1 _ (replicate 56 x00) H1) as H2.
      pose proof (eh_length _ _ _ H2) as HL2. rewrite !length_app, length_replicate in HL2.
      cbn [length] in HL2. split_and!; [done|lia|lia].
    - exists 0%nat. cbn. rewrite app_nil_r. split_and!; [done|lia|lia]. }
  rewrite <- HL2 in Hpad, Hrange.
  pose proof (engine_holds_input s e2 _
    (take (Z.to_nat (56 - eng_length e2 mod 64)) (replicate 56 x00)) H2) as H3.
  rewrite take_replicate, Nat.min_l in H3 by lia.
  rewrite take_replicate, Nat.min_l by lia.
  pose proof (engine_holds_input s _ _ (be_split 8 (8 * eng_length e)) H3) as H4.
  assert (((m ++ [x80]) ++ replicate z x00) ++ replicate (Z.to_nat (56 - eng_length e2 mod 64)) x00
            = m ++ [x80] ++ replicate (Z.to_nat ((55 - Z.of_nat (length m)) mod 64)) x00) as Heq.
  { rewrite <- !app_assoc, <- replicate_add. do 3 f_equal. lia. }
  rewrite Heq, <- !app_assoc, HL in H4. fold (sha256_pad m) in H4. rewrite HL.
  unfold midstate. rewrite (eh_state _ _ _ H4), (eh_length _ _ _ H4).
  f_equal. f_equal. change (@BLOCK_SIZE sha256_block) with 64.
  rewrite Z2Nat.inj_div, Nat2Z.id by lia. done.
Qed.

Lemma from_engine_spec s e m :
  engine_holds s e m → Z.of_nat (length m) < 2 ^ 61 →
  from_engine e = absorb (length (sha256_pad m) / 64) s (sha256_pad m) ≫= be_split 4.
Proof. intros He _. by apply from_engine_holds. Qed.

(** ** The one-shot implementation builds the same blocks *)

Lemma be_split_4 z :
  be_split 4 z = [byte.of_Z (Z.shiftr z 24); byte.of_Z (Z.shiftr z 16);
                  byte.of_Z (Z.shiftr z 8); byte.of_Z (Z.shiftr z 0)].
Proof.
  unfold be_split, le_split. rewrite !Z.shiftr_shiftr by lia. rewrite Z.shiftr_0_r. done.
Qed.

Lemma be_split_8 z :
  be_split 8 z = (λ j, byte.of_Z (Z.shiftr z (8 * (j - 1)))) <$> [8; 7; 6; 5; 4; 3; 2; 1].
Proof.
  unfold be_split, le_split. rewrite !Z.shiftr_shiftr by lia. cbn. by rewrite Z.shiftr_0_r.
Qed.

Lemma read_u32_be bytes index :
  (index + 4 <= length bytes)%nat → read_u32 bytes index = be_combine (take 4 (drop index bytes)).
Proof.
  intros Hl. unfold read_u32. rewrite <- (take_drop index bytes) at 1 2 3 4.
  assert (length (take index bytes) = index) as Hi by (rewrite length_take; lia).
  assert (length (drop index bytes) = length bytes - index)%nat as Hd by apply length_drop.
  destruct (drop index bytes) as [|b0 [|b1 [|b2 [|b3 t]]]]; cbn [length] in Hd; try lia.
  rewrite !app_nth2 by lia. rewrite Hi, Nat.sub_diag, !Nat.add_sub'. cbn [nth take].
  change (be_combine (b0 :: b1 :: b2 :: b3 :: take 0 t)) with
    (Z.lor (byte.unsigned b3) (Z.shiftl (Z.lor (byte.unsigned b2) (Z.shiftl
      (Z.lor (byte.unsigned b1) (Z.shiftl (Z.lor (byte.unsigned b0) (Z.shiftl 0 8)) 8)) 8)) 8)).
  rewrite !Z.shiftl_lor, !Z.shiftl_shiftl by lia. rewrite Z.shiftl_0_l, Z.shiftl_0_r, Z.lor_0_r.
  apply Z.bits_inj'. intros n _. rewrite !Z.lor_spec.
  repeat destruct (Z.testbit _ _); done.
Qed.

Lemma copy_w_words bytes index :
  (index + 64 <= length bytes)%nat → copy_w bytes index = block_words (take 64 (drop index bytes)).
Proof.
  intros Hl. unfold copy_w, block_words. apply list_fmap_ext. intros i j Hj.
  apply lookup_seq in Hj as [-> Hi]. rewrite read_u32_be by lia. f_equal.
  rewrite skipn_firstn_comm, take_take, drop_drop. f_equal; [lia|]. f_equal. lia.
Qed.

Lemma copy_tail_spec fuel bytes offset i buf :
  (length bytes - offset <= length buf)%nat → (i <= length bytes - offset)%nat →
  (length bytes - offset - i < fuel)%nat →
  copy_tail fuel bytes offset i (write_at 0 (take i (drop offset bytes)) buf)
  = (write_at 0 (drop offset bytes) buf, length bytes - offset)%nat.
Proof.
  revert i. induction fuel as [|fuel IH]; intros i Hb Hi Hf; [lia|]. cbn [copy_tail].
  destruct (Nat.ltb_spec (offset + i) (length bytes)).
  - rewrite <- (IH (S i)) by lia. rewrite (Nat.add_1_r i). f_equal. unfold write_at. rewrite !take_0. cbn [app Nat.add].
    assert (length (take i (drop offset bytes)) = i) as Hli
      by (rewrite length_take, length_drop; lia).
    rewrite insert_app_r_alt by (rewrite Hli; lia). rewrite Hli, Nat.sub_diag.
    rewrite (take_S_r _ _ (nth (offset + i) bytes x00)).
    2:{ rewrite lookup_drop. destruct (lookup_lt_is_Some_2 bytes (offset + i) ltac:(lia)) as [x Hx].
        by rewrite Hx, (nth_lookup_Some _ _ _ _ Hx). }
    rewrite length_app, Hli, <- app_assoc. f_equal. cbn [length app].
    destruct (drop i buf) as [|b t] eqn:Hd.
    { apply (f_equal length) in Hd. rewrite length_drop in Hd. cbn in Hd. lia. }
    cbn. f_equal. by rewrite <- drop_drop, Hd.
  - do 2 f_equal; [|lia]. rewrite take_ge; [done|]. rewrite length_drop. lia.
Qed.

(** The eight single-byte stores of the length are the big-endian length. *)
Lemma length_stores z pre :
  length pre = 56%nat →
  foldl (λ buf j, <[(64 - j)%nat := byte.of_Z (Z.land (Z.shiftr z (8 * (Z.of_nat j - 1))) 255)]> buf)
    (pre ++ replicate 8 x00) [8; 7; 6; 5; 4; 3; 2; 1]%nat = pre ++ be_split 8 z.
Proof.
  intros Hp. cbn [foldl]. rewrite !byte_of_Z_land255.
  rewrite !insert_app_r_alt by (rewrite Hp; lia). rewrite Hp. f_equal.
Qed.

Section ConstHash.
Context (m : list byte) (Hm : Z.of_nat (length m) < 2 ^ 61).
Let L := length m.
Let q := (L / 64)%nat.
Let r := (L mod 64)%nat.
Let num_chunks := ((L + 9 + 63) / 64)%nat.

Lemma length_qr : L = (64 * q + r)%nat ∧ (r < 64)%nat.
Proof. split; [apply Nat.div_mod; lia|apply Nat.mod_upper_bound; lia]. Qed.

Lemma num_chunks_eq : num_chunks = if (r <=? 55)%nat then (q + 1)%nat else (q + 2)%nat.
Proof.
  destruct length_qr as [HL Hr]. unfold num_chunks. symmetry.
  destruct (Nat.leb_spec r 55);
    [apply Nat.div_unique with (r + 8)%nat|apply Nat.div_unique with (r - 56)%nat]; lia.
Qed.

Lemma sha256_pad_zeros :
  Z.to_nat ((55 - Z.of_nat L) mod 64) = (if (r <=? 55)%nat then 55 - r else 119 - r)%nat.
Proof.
  destruct length_qr as [HL Hr].
  destruct (Nat.leb_spec r 55).
  - rewrite <- (Z.mod_unique (55 - Z.of_nat L) 64 (- Z.of_nat q) (55 - Z.of_nat r)); lia.
  - rewrite <- (Z.mod_unique (55 - Z.of_nat L) 64 (- Z.of_nat q - 1) (119 - Z.of_nat r)); lia.
Qed.

Lemma bit_len_small : uwrap 64 (Z.of_nat L * 8) = 8 * Z.of_nat L.
Proof. rewrite Z.mul_comm. apply uwrap_small. unfold urange. unfold L. lia. Qed.

Lemma insert_marker (pre : list byte) k :
  <[length pre := x80]> (pre ++ replicate (S k) x00) = pre ++ [x80] ++ replicate k x00.
Proof. rewrite insert_app_r_alt by lia. by rewrite Nat.sub_diag. Qed.

(** The padded message from a chunk that is not full on. *)
Lemma drop_pad chunk :
  (chunk * 64 <= L)%nat →
  drop (chunk * 64) (sha256_pad m)
  = drop (chunk * 64) m ++ [x80] ++ replicate (if (r <=? 55)%nat then 55 - r else 119 - r) x00
      ++ be_split 8 (8 * Z.of_nat L).
Proof.
  intros Hc. unfold sha256_pad. fold L. by rewrite sha256_pad_zeros, drop_app_le.
Qed.

Lemma drop_pad_last :
  (55 < r)%nat →
  drop ((q + 1) * 64) (sha256_pad m) = replicate 56 x00 ++ be_split 8 (8 * Z.of_nat L).
Proof.
  intros Hr55. destruct length_qr as [HL Hr].
  replace ((q + 1) * 64)%nat with (q * 64 + 64)%nat by lia.
  rewrite <- drop_drop, drop_pad by lia. rewrite (proj2 (Nat.leb_gt r 55)) by lia.
  replace (119 - r)%nat with ((63 - r) + 56)%nat by lia.
  rewrite replicate_add, <- !app_assoc, (app_assoc [x80]), (app_assoc (drop _ _)).
  rewrite drop_app_length'; [done|].
  rewrite !length_app, length_replicate, length_drop. fold L. cbn [length]. lia.
Qed.

(** Each chunk of the one-shot loop holds the words of the padded message's block. *)
Lemma const_chunk_words_spec chunk :
  (chunk < num_chunks)%nat →
  const_chunk_words m num_chunks chunk = block_words (take 64 (drop (chunk * 64) (sha256_pad m))).
Proof.
  intros Hc. pose proof num_chunks_eq as Hnc. destruct length_qr as [HL Hr].
  unfold const_chunk_words. cbv zeta. fold L r.
  destruct (Nat.leb_spec (chunk * 64 + 64) L) as [Hfull|Hpart].
  { rewrite copy_w_words by (unfold L in *; lia). f_equal. unfold sha256_pad.
    rewrite drop_app_le, take_app_le by (rewrite ?length_drop; fold L; lia). done. }
  rewrite <- (write_at_0_nil (replicate 64 x00)) at 1.
  change (@nil byte) with (take 0 (drop (chunk * 64) m)) at 1.
  rewrite copy_tail_spec by (rewrite ?length_replicate; fold L; lia). fold L.
  rewrite bit_len_small.
  assert (∀ buf : list byte, length buf = 64%nat →
    copy_w buf 0 = block_words buf) as Hw.
  { intros buf Hb. rewrite copy_w_words by lia. by rewrite drop_0, take_ge by lia. }
  assert (write_at 0 (drop (chunk * 64) m) (replicate 64 x00)
    = drop (chunk * 64) m ++ replicate (64 - (L - chunk * 64)) x00) as ->.
  { unfold write_at. rewrite take_0, length_drop. cbn [app Nat.add]. by rewrite drop_replicate. }
  assert (length (drop (chunk * 64) m) = (L - chunk * 64)%nat) as Hld by (rewrite length_drop; done).
  change (64 - 9)%nat with 55%nat.
  destruct (Nat.leb_spec r 55) as [Hr55|Hr55].
  - assert (chunk = q) as -> by lia. rewrite drop_pad, (proj2 (Nat.leb_le r 55)) by lia.
    rewrite (proj2 (Nat.eqb_eq (q + 1) _)) by lia.
    cbn [orb]. replace (64 - (L - q * 64))%nat with (S (63 - r)) by lia.
    rewrite <- Hld, insert_marker.
    replace (replicate (63 - r) x00) with (replicate (55 - r) x00 ++ replicate 8 x00)
      by (rewrite <- replicate_add; f_equal; lia).
    rewrite 2!app_assoc, <- (app_assoc (drop _ _)), length_stores
      by (rewrite !length_app, length_replicate, Hld; cbn [length]; lia).
    rewrite Hw by (rewrite !length_app, length_replicate, length_be_split, Hld; cbn [length]; lia).
    rewrite <- !app_assoc, take_ge; [done|].
    rewrite !length_app, length_replicate, length_be_split, Hld. cbn [length]. lia.
  - destruct (decide (chunk = q)) as [->|Hne].
    + rewrite drop_pad, (proj2 (Nat.leb_gt r 55)) by lia.
      rewrite (proj2 (Nat.eqb_eq (q + 2) _)) by lia.
      rewrite (proj2 (Nat.eqb_neq (q + 1) _)) by lia.
      cbn [orb]. replace (64 - (L - q * 64))%nat with (S (63 - r)) by lia.
      rewrite <- Hld, insert_marker.
      rewrite Hw by (rewrite !length_app, length_replicate, Hld; cbn [length]; lia).
      replace (119 - r)%nat with ((63 - r) + 56)%nat by lia.
      rewrite replicate_add, <- !app_assoc.
      f_equal. symmetry. rewrite (app_assoc [x80]), (app_assoc (drop _ _)).
      apply take_app_length'. rewrite !length_app, length_replicate, Hld. cbn [length]. lia.
    + assert (chunk = q + 1)%nat as -> by lia.
      rewrite (proj2 (Nat.eqb_neq (q + 1 + 2) _)) by lia.
      rewrite (proj2 (Nat.eqb_eq (q + 1 + 1) _)) by lia.
      cbn [orb]. rewrite drop_pad_last by lia.
      rewrite (drop_ge m) by (fold L; lia).
      replace (64 - (L - (q + 1) * 64))%nat with (56 + 8)%nat by lia.
      rewrite replicate_add. cbn [app].
      rewrite length_stores by apply length_replicate.
      rewrite Hw by done. by rewrite take_ge by done.
Qed.

Lemma const_hash_loop_spec n chunk state :
  (chunk + n = num_chunks)%nat →
  const_hash_loop n m true num_chunks chunk state
  = absorb n state (drop (chunk * 64) (sha256_pad m)).
Proof.
  revert chunk state. induction n as [|n IH]; intros chunk state Hn; [done|].
  cbn [const_hash_loop negb andb absorb]. rewrite IH by lia.
  rewrite const_chunk_words_spec by lia.
  change (@BLOCK_SIZE sha256_block) with 64. change (Z.to_nat 64) with 64%nat.
  rewrite drop_drop. do 2 f_equal. lia.
Qed.
End ConstHash.

Lemma foldl_input_spec (chunks : list (list byte)) :
  Z.of_nat (length (concat chunks)) < 2 ^ 61 →
  from_engine (foldl input engine_default chunks) = sha256_spec (concat chunks).
Proof.
  intros Hl. apply (from_engine_spec initial_state); [|done].
  apply (engine_holds_chunks _ _ []), engine_default_holds.
Qed.

(** C3: the streaming engine computes SHA-256.  However the message is cut into
    pieces for [HashEngine::input], [from_engine] returns the fold of the
    compression function over the FIPS 180-4 padding of the concatenation (for
    messages below the 2^61 bytes whose bit length fits the length field). *)
Theorem sha256_engine_correct (chunks : list (list byte)) :
  Z.of_nat (length (concat chunks)) < 2 ^ 61 →
  from_engine (foldl input engine_default chunks) = sha256_spec (concat chunks).
Proof. apply foldl_input_spec. Qed.

Lemma sha256_engine_correct_witness :
  from_engine (foldl input engine_default [[x61; x62]; []; replicate 70 x63])
  = sha256_spec (x61 :: x62 :: replicate 70 x63).
Proof. apply (sha256_engine_correct [[x61; x62]; []; replicate 70 x63]). vm_compute. done. Defined.

Lemma sha256_hash_spec m : Z.of_nat (length m) < 2 ^ 61 → sha256_hash m = sha256_spec m.
Proof.
  intros Hm. apply from_engine_spec; [|done].
  apply (engine_holds_input _ _ []), engine_default_holds.
Qed.

Lemma length_bind_be_split n (l : list Z) : length (l ≫= be_split n) = (n * length l)%nat.
Proof. induction l; cbn; rewrite ?length_app, ?length_be_split; lia. Qed.

Lemma length_compress_words s w : length (compress_words s w) = 8%nat.
Proof. done. Qed.

Lemma length_absorb n s m : length s = 8%nat → length (absorb n s m) = 8%nat.
Proof. revert s m. induction n; cbn; auto. Qed.

Lemma length_sha256_spec m : length (sha256_spec m) = 32%nat.
Proof. unfold sha256_spec. by rewrite length_bind_be_split, length_absorb. Qed.

Lemma const_hash_spec m : Z.of_nat (length m) < 2 ^ 61 → const_hash m = sha256_spec m.
Proof.
  intros Hm.
  unfold const_hash, midstate_const_hash, sha256_spec. cbv zeta.
  rewrite (const_hash_loop_spec m Hm) by done. change (0 * 64)%nat with 0%nat. rewrite drop_0.
  assert (length (sha256_pad m) / 64 = (length m + 9 + 63) / 64)%nat as ->.
  { pose proof (sha256_pad_blocks m) as Hb. apply (f_equal Z.to_nat) in Hb.
    rewrite Nat2Z.id in Hb. rewrite Hb. 
    replace (Z.of_nat (length m) + 72) with (Z.of_nat (length m + 9 + 63)) by lia.
    change 64 with (Z.of_nat 64). rewrite <- Nat2Z.inj_div, <- Nat2Z.inj_mul, Nat2Z.id.
    rewrite Nat.mul_comm. apply Nat.div_mul. done. }
  induction (absorb _ _ _) as [|s l IH]; [done|]. cbn [mbind list_bind]. by rewrite be_split_4, IH.
Qed.

(** The two SHA-256 implementations of the crate agree: the loop of
    [Midstate::const_hash], which builds each padded chunk by hand, returns what
    the buffering engine returns, on every message. *)
Theorem const_hash_eq_hash m :
  Z.of_nat (length m) < 2 ^ 61 → const_hash m = sha256_hash m.
Proof. intros Hm. by rewrite const_hash_spec, sha256_hash_spec. Qed.

Lemma const_hash_eq_hash_witness :
  const_hash (replicate 56 x61) = sha256_hash (replicate 56 x61).
Proof. apply const_hash_eq_hash. vm_compute. done. Defined.

Example sha256_abc :
  sha256_hash [x61; x62; x63] =
  [xba; x78; x16; xbf; x8f; x01; xcf; xea; x41; x41; x40; xde; x5d; xae; x22; x23;
   xb0; x03; x61; xa3; x96; x17; x7a; x9c; xb4; x10; xff; x61; xf2; x00; x15; xad].
Proof. vm_compute. reflexivity. Qed.

Lemma length_sha256_hash m : Z.of_nat (length m) < 2 ^ 61 → length (sha256_hash m) = 32%nat.
Proof. intros. rewrite sha256_hash_spec by done. apply length_sha256_spec. Qed.

Lemma length_from_engine e : length (h e) = 8%nat → length (from_engine e) = 32%nat.
Proof.
  unfold from_engine, midstate. intros He. rewrite length_bind_be_split.
  set (e0 := input _ _).
  assert (∀ f e bs, length (h e) = 8%nat → length (h (input_loop f e bs)) = 8%nat) as Hi.
  { clear. induction f as [|f IH]; intros e bs He; [done|]. destruct bs; [done|].
    cbn [input_loop]. apply IH. case_if; done. }
  subst e0. unfold input. rewrite !Hi; [done|]. apply Hi. case_if; repeat apply Hi; done.
Qed.

Lemma sha256d_hash_eq m : sha256d_hash m = sha256_hash (sha256_hash m).
Proof. unfold sha256d_hash, sha256d_from_engine, sha256_hash. reflexivity. Qed.

Lemma length_sha256d_hash m : Z.of_nat (length m) < 2 ^ 61 → length (sha256d_hash m) = 32%nat.
Proof.
  intros Hm. rewrite sha256d_hash_eq. apply length_sha256_hash.
  rewrite length_sha256_hash by exact Hm. lia.
Qed.

Lemma length_input e bs : length (h e) = 8%nat → length (h (input e bs)) = 8%nat.
Proof.
  unfold input. generalize (length bs) as f. intros f. revert e bs.
  induction f as [|f IH]; intros e bs He; [done|]. destruct bs; [done|].
  cbn [input_loop]. apply IH. case_if; done.
Qed.

Lemma length_sha256d_from_engine e : length (h e) = 8%nat → length (sha256d_from_engine e) = 32%nat.
Proof.
  intros He. unfold sha256d_from_engine. apply length_sha256_hash.
  rewrite length_from_engine by done. lia.
Qed.

Lemma length_sha256d_hash_any m : length (sha256d_hash m) = 32%nat.
Proof. unfold sha256d_hash. by apply length_sha256d_from_engine, length_input. Qed.

(** Feeding an engine piece by piece is hashing the concatenation. *)
Lemma sha256d_chunks chunks :
  Z.of_nat (length (concat chunks)) < 2 ^ 61 →
  sha256d_from_engine (foldl input engine_default chunks) = sha256d_hash (concat chunks).
Proof.
  intros Hl. rewrite sha256d_hash_eq. unfold sha256d_from_engine.
  by rewrite foldl_input_spec, <- sha256_hash_spec.
Qed.

(** The pieces do not matter, whatever the length. *)
Lemma sha256_pieces chunks : from_engine (foldl input engine_default chunks) = sha256_hash (concat chunks).
Proof.
  pose proof (engine_holds_chunks _ _ [] chunks engine_default_holds) as He.
  pose proof (engine_holds_input _ _ [] (concat chunks) engine_default_holds) as He'.
  unfold sha256_hash. by rewrite (from_engine_holds _ _ _ He), (from_engine_holds _ _ _ He').
Qed.

Lemma sha256_hash_engine m : sha256_hash m = from_engine (input engine_default m).
Proof. done. Qed.

(* The hashes are used through the lemmas above; they still compute. *)
#[global] Opaque sha256_hash sha256d_hash sha256d_from_engine from_engine.
