(* ===== verification/Hashes.v ===== *)
(** The other hash functions ([src/hashes/src/ripemd160.rs], [sha1.rs], [sha512.rs],
    [sha384.rs], [sha512_256.rs], [hash160.rs], [hmac.rs]): the compression functions
    behind the same buffering engine, the padding they share, and the keyed hash made of
    any of them. *)

From Stdlib Require Import String ZArith Lia ZifyBool.
From stdpp Require Import base list.
From Stdlib Require Import Init.Byte.
From coqutil Require Import Byte Word.LittleEndianList.
From S2P Require Import Prelude HashEngine Sha256.

(** ** Padding

    What the four [from_engine] functions begin with: a one bit, then zeros up to the
    length field of [field] bytes. *)
Section Padding.
Context `{BlockHash} (field : Z).

Definition zeroes : list byte := replicate (Z.to_nat (BLOCK_SIZE - field)) x00.

Definition pad_buffer (e : HashEngine) : HashEngine :=
  let e := input e [x80] in
  let e := if Z.of_nat (length zeroes) <? eng_length e mod BLOCK_SIZE then input e zeroes else e in
  let pad_length := Z.of_nat (length zeroes) - eng_length e mod BLOCK_SIZE in
  input e (take (Z.to_nat pad_length) zeroes).

(** The padding of the standards. *)
Definition pad_zeros (len : Z) : Z := (BLOCK_SIZE - field - 1 - len) mod BLOCK_SIZE.
Definition marked (m : list byte) : list byte :=
  m ++ [x80] ++ replicate (Z.to_nat (pad_zeros (Z.of_nat (length m)))) x00.

Hypothesis field_fits : 0 < field < BLOCK_SIZE.
Hypothesis field_small : 2 * field <= BLOCK_SIZE.

Lemma pad_buffer_holds s e m : engine_holds s e m → engine_holds s (pad_buffer e) (marked m).
Proof.
  intros He. pose proof (eh_length _ _ _ He) as HL. unfold pad_buffer, zeroes. rewrite length_replicate, Z2Nat.id by lia.
  pose proof (engine_holds_input s e m [x80] He) as H1. set (e1 := input e [x80]) in *.
  pose proof (eh_length _ _ _ H1) as HL1. rewrite length_app in HL1. cbn [length] in HL1.
  set (Z0 := BLOCK_SIZE - field) in *. set (l1 := eng_length e1) in *.
  pose proof block_size_pos as HB. pose proof (Z.mod_pos_bound l1 _ HB) as Hm.
  pose proof (Z.div_mod l1 BLOCK_SIZE (not_eq_sym (Z.lt_neq _ _ HB))) as Hd.
  set (e2 := if Z0 <? l1 mod BLOCK_SIZE then _ else _).
  assert (∃ z, engine_holds s e2 ((m ++ [x80]) ++ replicate z x00) ∧ eng_length e2 mod BLOCK_SIZE <= Z0 ∧
    Z.of_nat z + (Z0 - eng_length e2 mod BLOCK_SIZE) = pad_zeros (Z.of_nat (length m))) as (z & H2 & Hle & Hz).
  { unfold pad_zeros. fold Z0. subst e2. destruct (Z.ltb_spec Z0 (l1 mod BLOCK_SIZE)).
    - exists (Z.to_nat Z0). pose proof (engine_holds_input s e1 _ (replicate (Z.to_nat Z0) x00) H1) as H2.
      pose proof (eh_length _ _ _ H2) as HL2. rewrite !length_app, length_replicate in HL2. cbn [length] in HL2.
      set (l2 := eng_length (input e1 _)) in *.
      assert (l2 mod BLOCK_SIZE = l1 mod BLOCK_SIZE - field) as -> by (symmetry; apply Z.mod_unique with (l1 / BLOCK_SIZE + 1); lia).
      split_and!; [done|lia|]. apply Z.mod_unique with (- (l1 / BLOCK_SIZE) - 1); lia.
    - exists 0%nat. cbn [replicate]. rewrite app_nil_r. split_and!; [done|done|]. fold l1.
      apply Z.mod_unique with (- (l1 / BLOCK_SIZE)); lia. }
  pose proof (Z.mod_pos_bound (eng_length e2) _ HB) as Hm2.
  rewrite take_replicate, Nat.min_l by lia. pose proof (engine_holds_input s e2 _ (replicate (Z.to_nat (Z0 - eng_length e2 mod BLOCK_SIZE)) x00) H2) as H3.
  unfold marked. rewrite <- Hz. rewrite Z2Nat.inj_add, Nat2Z.id, replicate_add by lia. by rewrite !app_assoc.
Qed.

Lemma marked_length m : (Z.of_nat (length (marked m)) + field) mod BLOCK_SIZE = 0.
Proof.
  unfold marked. rewrite !length_app, length_replicate. cbn [length]. unfold pad_zeros. set (L := Z.of_nat (length m)).
  pose proof block_size_pos as HB. pose proof (Z.mod_pos_bound (BLOCK_SIZE - field - 1 - L) _ HB).
  pose proof (Z.div_mod (BLOCK_SIZE - field - 1 - L) BLOCK_SIZE (not_eq_sym (Z.lt_neq _ _ HB))).
  symmetry. apply Z.mod_unique with (1 - (BLOCK_SIZE - field - 1 - L) / BLOCK_SIZE); lia.
Qed.

(** With the length field the blocks are full, and all absorbed. *)
Definition absorb_all (s : list Z) (m : list byte) : list Z := absorb (length m / Z.to_nat BLOCK_SIZE) s m.

Lemma padded_state s e m len :
  engine_holds s e m → Z.of_nat (length len) = field →
  h (input (pad_buffer e) len) = absorb_all s (marked m ++ len).
Proof.
  intros He Hlen. pose proof (engine_holds_input s _ _ len (pad_buffer_holds s e m He)) as H1.
  rewrite (eh_state _ _ _ H1), (eh_length _ _ _ H1). unfold absorb_all. f_equal.
  rewrite Z2Nat.inj_div, Nat2Z.id by lia. done.
Qed.
End Padding.

Lemma engine_fold_holds `{BlockHash} s e m chunks :
  engine_holds s e m → engine_holds s (foldl input e chunks) (m ++ concat chunks).
Proof.
  revert e m. induction chunks as [|c cs IH]; intros e m He; cbn; [by rewrite app_nil_r|].
  rewrite app_assoc. apply IH. by apply engine_holds_input.
Qed.

Definition not32 (x : Z) : Z := Z.lxor x U32_MAX.

(** ** RIPEMD-160 *)

Module Ripemd160.

(** The arguments of one [round!]: the order of the state, the word, the rotation. *)
Inductive Line := line (f0 f1 f2 f3 f4 : nat) (data_index : nat) (bits : Z).

(** [round!], the function of the three middle registers as an argument. *)
Definition round (add : Z) (f : Z → Z → Z → Z) (data : list Z) (bb : list Z) (l : Line) : list Z :=
  let '(line f0 f1 f2 f3 f4 data_index bits) := l in
  let r := f (bb !!! f1) (bb !!! f2) (bb !!! f3) in
  let a := add32 (add32 (add32 (bb !!! f0) r) (data !!! data_index)) add in
  let bb := <[f0 := add32 (rotate_left a bits) (bb !!! f4)]> bb in
  <[f2 := rotate_left (bb !!! f2) 10]> bb.

Definition fn1 (x y z : Z) : Z := Z.lxor (Z.lxor x y) z.
Definition fn2 (x y z : Z) : Z := Z.lor (Z.land x y) (Z.land (not32 x) z).
Definition fn3 (x y z : Z) : Z := Z.lxor (Z.lor x (not32 y)) z.
Definition fn4 (x y z : Z) : Z := Z.lor (Z.land x z) (Z.land y (not32 z)).
Definition fn5 (x y z : Z) : Z := Z.lxor x (Z.lor y (not32 z)).

Definition round1 : list Line :=
  [line 0 1 2 3 4 0 11; line 4 0 1 2 3 1 14; line 3 4 0 1 2 2 15; line 2 3 4 0 1 3 12; line 1 2 3 4 0 4 5;
   line 0 1 2 3 4 5 8; line 4 0 1 2 3 6 7; line 3 4 0 1 2 7 9; line 2 3 4 0 1 8 11; line 1 2 3 4 0 9 13;
   line 0 1 2 3 4 10 14; line 4 0 1 2 3 11 15; line 3 4 0 1 2 12 6; line 2 3 4 0 1 13 7; line 1 2 3 4 0 14 9;
   line 0 1 2 3 4 15 8].
Definition round2 : list Line :=
  [line 4 0 1 2 3 7 7; line 3 4 0 1 2 4 6; line 2 3 4 0 1 13 8; line 1 2 3 4 0 1 13; line 0 1 2 3 4 10 11;
   line 4 0 1 2 3 6 9; line 3 4 0 1 2 15 7; line 2 3 4 0 1 3 15; line 1 2 3 4 0 12 7; line 0 1 2 3 4 0 12;
   line 4 0 1 2 3 9 15; line 3 4 0 1 2 5 9; line 2 3 4 0 1 2 11; line 1 2 3 4 0 14 7; line 0 1 2 3 4 11 13;
   line 4 0 1 2 3 8 12].
Definition round3 : list Line :=
  [line 3 4 0 1 2 3 11; line 2 3 4 0 1 10 13; line 1 2 3 4 0 14 6; line 0 1 2 3 4 4 7; line 4 0 1 2 3 9 14;
   line 3 4 0 1 2 15 9; line 2 3 4 0 1 8 13; line 1 2 3 4 0 1 15; line 0 1 2 3 4 2 14; line 4 0 1 2 3 7 8;
   line 3 4 0 1 2 0 13; line 2 3 4 0 1 6 6; line 1 2 3 4 0 13 5; line 0 1 2 3 4 11 12; line 4 0 1 2 3 5 7;
   line 3 4 0 1 2 12 5].
Definition round4 : list Line :=
  [line 2 3 4 0 1 1 11; line 1 2 3 4 0 9 12; line 0 1 2 3 4 11 14; line 4 0 1 2 3 10 15; line 3 4 0 1 2 0 14;
   line 2 3 4 0 1 8 15; line 1 2 3 4 0 12 9; line 0 1 2 3 4 4 8; line 4 0 1 2 3 13 9; line 3 4 0 1 2 3 14;
   line 2 3 4 0 1 7 5; line 1 2 3 4 0 15 6; line 0 1 2 3 4 14 8; line 4 0 1 2 3 5 6; line 3 4 0 1 2 6 5;
   line 2 3 4 0 1 2 12].
Definition round5 : list Line :=
  [line 1 2 3 4 0 4 9; line 0 1 2 3 4 0 15; line 4 0 1 2 3 5 5; line 3 4 0 1 2 9 11; line 2 3 4 0 1 7 6;
   line 1 2 3 4 0 12 8; line 0 1 2 3 4 2 13; line 4 0 1 2 3 10 12; line 3 4 0 1 2 14 5; line 2 3 4 0 1 1 12;
   line 1 2 3 4 0 3 13; line 0 1 2 3 4 8 14; line 4 0 1 2 3 11 11; line 3 4 0 1 2 6 8; line 2 3 4 0 1 15 5;
   line 1 2 3 4 0 13 6].
Definition par_round1 : list Line :=
  [line 0 1 2 3 4 5 8; line 4 0 1 2 3 14 9; line 3 4 0 1 2 7 9; line 2 3 4 0 1 0 11; line 1 2 3 4 0 9 13;
   line 0 1 2 3 4 2 15; line 4 0 1 2 3 11 15; line 3 4 0 1 2 4 5; line 2 3 4 0 1 13 7; line 1 2 3 4 0 6 7;
   line 0 1 2 3 4 15 8; line 4 0 1 2 3 8 11; line 3 4 0 1 2 1 14; line 2 3 4 0 1 10 14; line 1 2 3 4 0 3 12;
   line 0 1 2 3 4 12 6].
Definition par_round2 : list Line :=
  [line 4 0 1 2 3 6 9; line 3 4 0 1 2 11 13; line 2 3 4 0 1 3 15; line 1 2 3 4 0 7 7; line 0 1 2 3 4 0 12;
   line 4 0 1 2 3 13 8; line 3 4 0 1 2 5 9; line 2 3 4 0 1 10 11; line 1 2 3 4 0 14 7; line 0 1 2 3 4 15 7;
   line 4 0 1 2 3 8 12; line 3 4 0 1 2 12 7; line 2 3 4 0 1 4 6; line 1 2 3 4 0 9 15; line 0 1 2 3 4 1 13;
   line 4 0 1 2 3 2 11].
Definition par_round3 : list Line :=
  [line 3 4 0 1 2 15 9; line 2 3 4 0 1 5 7; line 1 2 3 4 0 1 15; line 0 1 2 3 4 3 11; line 4 0 1 2 3 7 8;
   line 3 4 0 1 2 14 6; line 2 3 4 0 1 6 6; line 1 2 3 4 0 9 14; line 0 1 2 3 4 11 12; line 4 0 1 2 3 8 13;
   line 3 4 0 1 2 12 5; line 2 3 4 0 1 2 14; line 1 2 3 4 0 10 13; line 0 1 2 3 4 0 13; line 4 0 1 2 3 4 7;
   line 3 4 0 1 2 13 5].
Definition par_round4 : list Line :=
  [line 2 3 4 0 1 8 15; line 1 2 3 4 0 6 5; line 0 1 2 3 4 4 8; line 4 0 1 2 3 1 11; line 3 4 0 1 2 3 14;
   line 2 3 4 0 1 11 14; line 1 2 3 4 0 15 6; line 0 1 2 3 4 0 14; line 4 0 1 2 3 5 6; line 3 4 0 1 2 12 9;
   line 2 3 4 0 1 2 12; line 1 2 3 4 0 13 9; line 0 1 2 3 4 9 12; line 4 0 1 2 3 7 5; line 3 4 0 1 2 10 15;
   line 2 3 4 0 1 14 8].
Definition par_round5 : list Line :=
  [line 1 2 3 4 0 12 8; line 0 1 2 3 4 15 5; line 4 0 1 2 3 10 12; line 3 4 0 1 2 4 9; line 2 3 4 0 1 1 12;
   line 1 2 3 4 0 5 5; line 0 1 2 3 4 8 14; line 4 0 1 2 3 7 6; line 3 4 0 1 2 6 8; line 2 3 4 0 1 2 13;
   line 1 2 3 4 0 13 6; line 0 1 2 3 4 14 5; line 4 0 1 2 3 0 15; line 3 4 0 1 2 3 13; line 2 3 4 0 1 9 11;
   line 1 2 3 4 0 11 11].

(** [process_block!] *)
Definition compress_words (h data : list Z) : list Z :=
  let bb := foldl (round 0x00000000 fn1 data) h round1 in
  let bb := foldl (round 0x5a827999 fn2 data) bb round2 in
  let bb := foldl (round 0x6ed9eba1 fn3 data) bb round3 in
  let bb := foldl (round 0x8f1bbcdc fn4 data) bb round4 in
  let bb := foldl (round 0xa953fd4e fn5 data) bb round5 in
  let bbb := foldl (round 0x50a28be6 fn5 data) h par_round1 in
  let bbb := foldl (round 0x5c4dd124 fn4 data) bbb par_round2 in
  let bbb := foldl (round 0x6d703ef3 fn3 data) bbb par_round3 in
  let bbb := foldl (round 0x7a6d76e9 fn2 data) bbb par_round4 in
  let bbb := foldl (round 0x00000000 fn1 data) bbb par_round5 in
  [add32 (add32 (bbb !!! 3%nat) (h !!! 1%nat)) (bb !!! 2%nat);
   add32 (add32 (h !!! 2%nat) (bb !!! 3%nat)) (bbb !!! 4%nat);
   add32 (add32 (h !!! 3%nat) (bb !!! 4%nat)) (bbb !!! 0%nat);
   add32 (add32 (h !!! 4%nat) (bb !!! 0%nat)) (bbb !!! 1%nat);
   add32 (add32 (h !!! 0%nat) (bb !!! 1%nat)) (bbb !!! 2%nat)].

Definition process_block (h : list Z) (buffer : list byte) : list Z :=
  compress_words h ((λ i, le_combine (take 4 (drop (4 * i) buffer))) <$> seq 0 16).

#[export] Program Instance block : BlockHash := {| BLOCK_SIZE := 64; compress := process_block |}.
Next Obligation. done. Qed.

Definition initial_state : list Z := [0x67452301; 0xefcdab89; 0x98badcfe; 0x10325476; 0xc3d2e1f0].
Definition engine : HashEngine := {| buffer := replicate 64 x00; h := initial_state; eng_length := 0 |}.
Definition midstate (e : HashEngine) : list byte := h e ≫= le_split 4.

Definition from_engine (e : HashEngine) : list byte :=
  let data_len := uwrap 64 (eng_length e) in
  midstate (input (pad_buffer 8 e) (le_split 8 (uwrap 64 (8 * data_len)))).

Definition hash (data : list byte) : list byte := from_engine (input engine data).

Definition spec (m : list byte) : list byte :=
  absorb_all initial_state (marked 8 m ++ le_split 8 (8 * Z.of_nat (length m))) ≫= le_split 4.

End Ripemd160.

(** [hash160]: the engine is that of SHA-256. *)
Definition hash160_from_engine (e : HashEngine) : list byte := Ripemd160.hash (Sha256.from_engine e).
Definition hash160 (data : list byte) : list byte := hash160_from_engine (input engine_default data).

(** ** SHA-1 *)

Module Sha1.

(** [for i in 16..80 { w[i] = .. }] *)
Definition schedule (w : list Z) : list Z :=
  foldl (λ w i, w ++ [rotate_left (Z.lxor (Z.lxor (Z.lxor (w !!! (i - 3)%nat) (w !!! (i - 8)%nat)) (w !!! (i - 14)%nat))
                         (w !!! (i - 16)%nat)) 1]) w (seq 16 64).

Definition step (st : Z * Z * Z * Z * Z) (iw : nat * Z) : Z * Z * Z * Z * Z :=
  let '(a, b, c, d, e) := st in
  let '(i, wi) := iw in
  let '(f, k) :=
    if (i <? 20)%nat then (Z.lor (Z.land b c) (Z.land (not32 b) d), 0x5a827999)
    else if (i <? 40)%nat then (Z.lxor (Z.lxor b c) d, 0x6ed9eba1)
    else if (i <? 60)%nat then (Z.lor (Z.lor (Z.land b c) (Z.land b d)) (Z.land c d), 0x8f1bbcdc)
    else (Z.lxor (Z.lxor b c) d, 0xca62c1d6) in
  let new_a := add32 (add32 (add32 (add32 (rotate_left a 5) f) e) k) wi in
  (new_a, a, rotate_left b 30, c, d).

Definition process_block (h : list Z) (buffer : list byte) : list Z :=
  let w := schedule (block_words buffer) in
  let '(a, b, c, d, e) :=
    foldl step (h !!! 0%nat, h !!! 1%nat, h !!! 2%nat, h !!! 3%nat, h !!! 4%nat) (zip (seq 0 80) w) in
  [add32 (h !!! 0%nat) a; add32 (h !!! 1%nat) b; add32 (h !!! 2%nat) c; add32 (h !!! 3%nat) d; add32 (h !!! 4%nat) e].

#[export] Program Instance block : BlockHash := {| BLOCK_SIZE := 64; compress := process_block |}.
Next Obligation. done. Qed.

Definition initial_state : list Z := [0x67452301; 0xefcdab89; 0x98badcfe; 0x10325476; 0xc3d2e1f0].
Definition engine : HashEngine := {| buffer := replicate 64 x00; h := initial_state; eng_length := 0 |}.
Definition midstate (e : HashEngine) : list byte := h e ≫= be_split 4.

Definition from_engine (e : HashEngine) : list byte :=
  let data_len := uwrap 64 (eng_length e) in
  midstate (input (pad_buffer 8 e) (be_split 8 (uwrap 64 (8 * data_len)))).

Definition hash (data : list byte) : list byte := from_engine (input engine data).

Definition spec (m : list byte) : list byte :=
  absorb_all initial_state (marked 8 m ++ be_split 8 (8 * Z.of_nat (length m))) ≫= be_split 4.

End Sha1.

(** ** SHA-512, SHA-384 and SHA-512/256 *)

Module Sha512.

Definition add64 (x y : Z) : Z := uwrap 64 (x + y).
Definition rotate_left64 (x n : Z) : Z := Z.lor (uwrap 64 (Z.shiftl x n)) (Z.shiftr x (64 - n)).

Definition Sigma0 (x : Z) : Z := Z.lxor (Z.lxor (rotate_left64 x 36) (rotate_left64 x 30)) (rotate_left64 x 25).
Definition Sigma1 (x : Z) : Z := Z.lxor (Z.lxor (rotate_left64 x 50) (rotate_left64 x 46)) (rotate_left64 x 23).
Definition sigma0 (x : Z) : Z := Z.lxor (Z.lxor (rotate_left64 x 63) (rotate_left64 x 56)) (Z.shiftr x 7).
Definition sigma1 (x : Z) : Z := Z.lxor (Z.lxor (rotate_left64 x 45) (rotate_left64 x 3)) (Z.shiftr x 6).

(** [round!]: as for SHA-256 the registers are rotated, not the arguments. *)
Definition round (st : registers * list Z) (r : Z * schedule) : registers * list Z :=
  let '(s, w) := st in
  let '(k, sched) := r in
  let '(i, w) :=
    match sched with
    | First i => (i, w)
    | Later i i1 i2 i3 =>
        (i, <[i := add64 (add64 (add64 (w !!! i) (sigma1 (w !!! i1))) (w !!! i2)) (sigma0 (w !!! i3))]> w)
    end in
  let t1 := add64 (add64 (add64 (add64 (rh s) (Sigma1 (re s))) (Ch (re s) (rf s) (rg s))) k) (w !!! i) in
  let t2 := add64 (Sigma0 (ra s)) (Maj (ra s) (rb s) (rc s)) in
  let d := add64 (rd s) t1 in
  let h := add64 t1 t2 in
  ({| ra := h; rb := ra s; rc := rb s; rd := rc s; re := d; rf := re s; rg := rf s; rh := rg s |}, w).

Definition rounds : list (Z * schedule) :=
  [(0x428a2f98d728ae22, First 0); (0x7137449123ef65cd, First 1); (0xb5c0fbcfec4d3b2f, First 2);
   (0xe9b5dba58189dbbc, First 3); (0x3956c25bf348b538, First 4); (0x59f111f1b605d019, First 5);
   (0x923f82a4af194f9b, First 6); (0xab1c5ed5da6d8118, First 7); (0xd807aa98a3030242, First 8);
   (0x12835b0145706fbe, First 9); (0x243185be4ee4b28c, First 10); (0x550c7dc3d5ffb4e2, First 11);
   (0x72be5d74f27b896f, First 12); (0x80deb1fe3b1696b1, First 13); (0x9bdc06a725c71235, First 14);
   (0xc19bf174cf692694, First 15); (0xe49b69c19ef14ad2, Later 0 14 9 1); (0xefbe4786384f25e3, Later 1 15 10 2);
   (0x0fc19dc68b8cd5b5, Later 2 0 11 3); (0x240ca1cc77ac9c65, Later 3 1 12 4); (0x2de92c6f592b0275, Later 4 2 13 5);
   (0x4a7484aa6ea6e483, Later 5 3 14 6); (0x5cb0a9dcbd41fbd4, Later 6 4 15 7); (0x76f988da831153b5, Later 7 5 0 8);
   (0x983e5152ee66dfab, Later 8 6 1 9); (0xa831c66d2db43210, Later 9 7 2 10); (0xb00327c898fb213f, Later 10 8 3 11);
   (0xbf597fc7beef0ee4, Later 11 9 4 12); (0xc6e00bf33da88fc2, Later 12 10 5 13);
   (0xd5a79147930aa725, Later 13 11 6 14); (0x06ca6351e003826f, Later 14 12 7 15);
   (0x142929670a0e6e70, Later 15 13 8 0); (0x27b70a8546d22ffc, Later 0 14 9 1);
   (0x2e1b21385c26c926, Later 1 15 10 2); (0x4d2c6dfc5ac42aed, Later 2 0 11 3); (0x53380d139d95b3df, Later 3 1 12 4);
   (0x650a73548baf63de, Later 4 2 13 5); (0x766a0abb3c77b2a8, Later 5 3 14 6); (0x81c2c92e47edaee6, Later 6 4 15 7);
   (0x92722c851482353b, Later 7 5 0 8); (0xa2bfe8a14cf10364, Later 8 6 1 9); (0xa81a664bbc423001, Later 9 7 2 10);
   (0xc24b8b70d0f89791, Later 10 8 3 11); (0xc76c51a30654be30, Later 11 9 4 12);
   (0xd192e819d6ef5218, Later 12 10 5 13); (0xd69906245565a910, Later 13 11 6 14);
   (0xf40e35855771202a, Later 14 12 7 15); (0x106aa07032bbd1b8, Later 15 13 8 0);
   (0x19a4c116b8d2d0c8, Later 0 14 9 1); (0x1e376c085141ab53, Later 1 15 10 2); (0x2748774cdf8eeb99, Later 2 0 11 3);
   (0x34b0bcb5e19b48a8, Later 3 1 12 4); (0x391c0cb3c5c95a63, Later 4 2 13 5); (0x4ed8aa4ae3418acb, Later 5 3 14 6);
   (0x5b9cca4f7763e373, Later 6 4 15 7); (0x682e6ff3d6b2b8a3, Later 7 5 0 8); (0x748f82ee5defb2fc, Later 8 6 1 9);
   (0x78a5636f43172f60, Later 9 7 2 10); (0x84c87814a1f0ab72, Later 10 8 3 11);
   (0x8cc702081a6439ec, Later 11 9 4 12); (0x90befffa23631e28, Later 12 10 5 13);
   (0xa4506cebde82bde9, Later 13 11 6 14); (0xbef9a3f7b2c67915, Later 14 12 7 15);
   (0xc67178f2e372532b, Later 15 13 8 0); (0xca273eceea26619c, Later 0 14 9 1);
   (0xd186b8c721c0c207, Later 1 15 10 2); (0xeada7dd6cde0eb1e, Later 2 0 11 3); (0xf57d4f7fee6ed178, Later 3 1 12 4);
   (0x06f067aa72176fba, Later 4 2 13 5); (0x0a637dc5a2c898a6, Later 5 3 14 6); (0x113f9804bef90dae, Later 6 4 15 7);
   (0x1b710b35131c471b, Later 7 5 0 8); (0x28db77f523047d84, Later 8 6 1 9); (0x32caab7b40c72493, Later 9 7 2 10);
   (0x3c9ebe0a15c9bebc, Later 10 8 3 11); (0x431d67c49c100d4c, Later 11 9 4 12);
   (0x4cc5d4becb3e42b6, Later 12 10 5 13); (0x597f299cfc657e2a, Later 13 11 6 14);
   (0x5fcb6fab3ad6faec, Later 14 12 7 15); (0x6c44198c4a475817, Later 15 13 8 0)].

Definition compress_words (h w : list Z) : list Z :=
  let s := {| ra := h !!! 0%nat; rb := h !!! 1%nat; rc := h !!! 2%nat; rd := h !!! 3%nat;
              re := h !!! 4%nat; rf := h !!! 5%nat; rg := h !!! 6%nat; rh := h !!! 7%nat |} in
  let s := fst (fold_left round rounds (s, w)) in
  [add64 (h !!! 0%nat) (ra s); add64 (h !!! 1%nat) (rb s); add64 (h !!! 2%nat) (rc s); add64 (h !!! 3%nat) (rd s);
   add64 (h !!! 4%nat) (re s); add64 (h !!! 5%nat) (rf s); add64 (h !!! 6%nat) (rg s); add64 (h !!! 7%nat) (rh s)].

Definition process_block (h : list Z) (buffer : list byte) : list Z :=
  compress_words h ((λ i, be_combine (take 8 (drop (8 * i) buffer))) <$> seq 0 16).

#[export] Program Instance block : BlockHash := {| BLOCK_SIZE := 128; compress := process_block |}.
Next Obligation. done. Qed.

Definition initial_state : list Z :=
  [0x6a09e667f3bcc908; 0xbb67ae8584caa73b; 0x3c6ef372fe94f82b; 0xa54ff53a5f1d36f1;
   0x510e527fade682d1; 0x9b05688c2b3e6c1f; 0x1f83d9abfb41bd6b; 0x5be0cd19137e2179].
Definition state_256 : list Z :=
  [0x22312194fc2bf72c; 0x9f555fa3c84c64c2; 0x2393b86b6f53b151; 0x963877195940eabd;
   0x96283ee2a88effe3; 0xbe5e1e2553863992; 0x2b0199fc2c85b8aa; 0x0eb72ddc81c52ca2].
Definition state_384 : list Z :=
  [0xcbbb9d5dc1059ed8; 0x629a292a367cd507; 0x9159015a3070dd17; 0x152fecd8f70e5939;
   0x67332667ffc00b31; 0x8eb44a8768581511; 0xdb0c2e0d64f98fa7; 0x47b5481dbefa4fa4].

Definition engine_of (state : list Z) : HashEngine :=
  {| buffer := replicate 128 x00; h := state; eng_length := 0 |}.
Definition engine : HashEngine := engine_of initial_state.
Definition sha512_256 : HashEngine := engine_of state_256.
Definition sha384 : HashEngine := engine_of state_384.

Definition midstate (e : HashEngine) : list byte := h e ≫= be_split 8.

Definition from_engine (e : HashEngine) : list byte :=
  let data_len := uwrap 64 (eng_length e) in
  let e := input (pad_buffer 16 e) (replicate 8 x00) in
  midstate (input e (be_split 8 (uwrap 64 (8 * data_len)))).

Definition hash (data : list byte) : list byte := from_engine (input engine data).

(** [sha384::from_engine] and [sha512_256::from_engine]: the first bytes. *)
Definition sha384_from_engine (e : HashEngine) : list byte := take 48 (from_engine e).
Definition sha512_256_from_engine (e : HashEngine) : list byte := take 32 (from_engine e).
Definition sha384_hash (data : list byte) : list byte := sha384_from_engine (input sha384 data).
Definition sha512_256_hash (data : list byte) : list byte := sha512_256_from_engine (input sha512_256 data).

(** The length field has sixteen bytes. *)
Definition spec (state : list Z) (m : list byte) : list byte :=
  absorb_all state (marked 16 m ++ replicate 8 x00 ++ be_split 8 (8 * Z.of_nat (length m))) ≫= be_split 8.

End Sha512.

Definition ascii_bytes (s : string) : list byte := list_byte_of_string s.

Example ripemd160_abc :
  Ripemd160.hash (ascii_bytes "abc")
  = [x8e; xb2; x08; xf7; xe0; x5d; x98; x7a; x9b; x04; x4a; x8e; x98; xc6; xb0; x87; xf1; x5a; x0b; xfc].
Proof. vm_compute. reflexivity. Qed.

Example sha1_fox :
  Sha1.hash (ascii_bytes "The quick brown fox jumps over the lazy cog")
  = [xde; x9f; x2c; x7f; xd2; x5e; x1b; x3a; xfa; xd3; xe8; x5a; x0b; xd1; x7d; x9b; x10; x0d; xb4; xb3].
Proof. vm_compute. reflexivity. Qed.

Example sha512_empty :
  take 8 (Sha512.hash []) = [xcf; x83; xe1; x35; x7e; xef; xb8; xbd].
Proof. vm_compute. reflexivity. Qed.

(** ** The engines, however the message is cut *)

Lemma length_fields z :
  le_split 8 (uwrap 64 (8 * uwrap 64 z)) = le_split 8 (8 * z) ∧ be_split 8 (uwrap 64 (8 * uwrap 64 z)) = be_split 8 (8 * z).
Proof.
  assert (uwrap 64 (8 * uwrap 64 z) = uwrap 64 (8 * z)) as -> by (unfold uwrap; apply Zmult_mod_idemp_r).
  split; [exact (le_split_uwrap 8 (8 * z))|apply be_split_wrap].
Qed.

Lemma ripemd160_holds e m :
  engine_holds (H := Ripemd160.block) Ripemd160.initial_state e m → Ripemd160.from_engine e = Ripemd160.spec m.
Proof.
  intros He. unfold Ripemd160.from_engine, Ripemd160.midstate, Ripemd160.spec. rewrite (proj1 (length_fields _)).
  erewrite (padded_state 8); [|by cbn|by cbn|exact He|by rewrite length_le_split]. by rewrite (eh_length _ _ _ He).
Qed.

Lemma sha1_holds e m : engine_holds (H := Sha1.block) Sha1.initial_state e m → Sha1.from_engine e = Sha1.spec m.
Proof.
  intros He. unfold Sha1.from_engine, Sha1.midstate, Sha1.spec. rewrite (proj2 (length_fields _)).
  erewrite (padded_state 8); [|by cbn|by cbn|exact He|by rewrite length_be_split]. by rewrite (eh_length _ _ _ He).
Qed.

Lemma sha512_holds state e m : engine_holds (H := Sha512.block) state e m → Sha512.from_engine e = Sha512.spec state m.
Proof.
  intros He. unfold Sha512.from_engine, Sha512.midstate, Sha512.spec. rewrite (proj2 (length_fields _)).
  pose proof (pad_buffer_holds (H := Sha512.block) 16 ltac:(by cbn) ltac:(by cbn) _ _ _ He) as H1.
  pose proof (engine_holds_input _ _ _ (replicate 8 x00) H1) as H2.
  pose proof (engine_holds_input _ _ _ (be_split 8 (8 * eng_length e)) H2) as H3. rewrite <- app_assoc in H3.
  rewrite (eh_state _ _ _ H3), (eh_length _ _ _ H3), (eh_length _ _ _ He). unfold absorb_all. do 2 f_equal.
  rewrite Z2Nat.inj_div, Nat2Z.id by (cbn; lia). done.
Qed.

(* The engines are used through these lemmas; they still compute. *)
#[global] Opaque Ripemd160.from_engine Sha1.from_engine Sha512.from_engine.

(** ** HMAC

    The part of the trait [Hash] that is used: an engine, its input, its end. *)
Class HashFn := {
  Engine : Type;
  new_engine : Engine;
  engine_input : Engine → list byte → Engine;
  finish : Engine → list byte;
  hash_block_size : Z }.

(** What a hash function promises: the pieces do not matter. *)
Class HashFnLaws `{HashFn} : Prop := {
  finish_pieces cs : finish (foldl engine_input new_engine cs) = finish (engine_input new_engine (concat cs)) }.

Definition byte_xor (b c : byte) : byte := byte.of_Z (Z.lxor (byte.unsigned b) (byte.unsigned c)).

Section Hmac.
Context `{HashFn}.

Definition fn_hash (m : list byte) : list byte := finish (engine_input new_engine m).

Record HmacEngine := { iengine : Engine; oengine : Engine }.

(** [for (b_i, b_h) in pad.iter_mut().zip(bytes) { *b_i ^= *b_h }] *)
Fixpoint xor_into (pad bytes : list byte) : list byte :=
  match pad, bytes with
  | p :: pad, b :: bytes => byte_xor p b :: xor_into pad bytes
  | _, _ => pad
  end.

(** [None]: the slice of a block larger than the pads. *)
Definition hmac_new (key : list byte) : option HmacEngine :=
  let ipad := replicate 128 x36 in
  let opad := replicate 128 x5c in
  let '(ipad, opad) :=
    if hash_block_size <? Z.of_nat (length key) then
      let hash := fn_hash key in (xor_into ipad hash, xor_into opad hash)
    else (xor_into ipad key, xor_into opad key) in
  if 128 <? hash_block_size then None
  else
    Some {| iengine := engine_input new_engine (take (Z.to_nat hash_block_size) ipad);
            oengine := engine_input new_engine (take (Z.to_nat hash_block_size) opad) |}.

Definition hmac_input (e : HmacEngine) (buf : list byte) : HmacEngine :=
  {| iengine := engine_input (iengine e) buf; oengine := oengine e |}.

Definition hmac_from_engine (e : HmacEngine) : list byte :=
  let ihash := finish (iengine e) in
  finish (engine_input (oengine e) ihash).

(** The construction of RFC 2104. *)
Definition hmac_key (key : list byte) : list byte :=
  let k := if hash_block_size <? Z.of_nat (length key) then fn_hash key else key in
  k ++ replicate (Z.to_nat hash_block_size - length k) x00.
Definition hmac_spec (key m : list byte) : list byte :=
  fn_hash (map (byte_xor x5c) (hmac_key key) ++ fn_hash (map (byte_xor x36) (hmac_key key) ++ m)).

Lemma take_xor_into n p k c :
  (length k <= n)%nat → (n <= c)%nat → byte_xor p x00 = p →
  take n (xor_into (replicate c p) k) = map (byte_xor p) (k ++ replicate (n - length k) x00).
Proof.
  intros Hk Hn Hp. revert n c Hk Hn. induction k as [|b k IH]; intros n c Hk Hn.
  - assert (xor_into (replicate c p) [] = replicate c p) as -> by (by destruct c).
    cbn [app length]. rewrite Nat.sub_0_r, take_replicate, Nat.min_l by done. clear - Hp. induction n; cbn; congruence.
  - destruct c as [|c]; [cbn in *; lia|]. destruct n as [|n]; [cbn in *; lia|]. cbn [replicate xor_into take app length map].
    f_equal. apply IH; cbn in *; lia.
Qed.

Lemma hmac_engine_spec `{!HashFnLaws} key cs :
  0 < hash_block_size <= 128 → Z.of_nat (length (fn_hash key)) <= hash_block_size →
  (e ← hmac_new key; Some (hmac_from_engine (foldl hmac_input e cs))) = Some (hmac_spec key (concat cs)).
Proof.
  intros Hb Hh. unfold hmac_new. cbv zeta.
  set (k := if hash_block_size <? Z.of_nat (length key) then fn_hash key else key).
  assert ((if hash_block_size <? Z.of_nat (length key)
           then (xor_into (replicate 128 x36) (fn_hash key), xor_into (replicate 128 x5c) (fn_hash key))
           else (xor_into (replicate 128 x36) key, xor_into (replicate 128 x5c) key))
          = (xor_into (replicate 128 x36) k, xor_into (replicate 128 x5c) k)) as -> by (subst k; by case_match).
  assert (Z.of_nat (length k) <= hash_block_size) as Hk by (subst k; destruct (Z.ltb_spec hash_block_size (Z.of_nat (length key))); lia).
  destruct (Z.ltb_spec 128 hash_block_size); [lia|]. cbn [mbind option_bind]. f_equal.
  rewrite !take_xor_into by (done || lia). unfold hmac_spec, hmac_key. fold k. set (K := k ++ _).
  assert (∀ e cs, foldl hmac_input e cs = {| iengine := foldl engine_input (iengine e) cs; oengine := oengine e |}) as ->.
  { clear. intros e cs. revert e. induction cs as [|c cs IH]; intros e; [by destruct e|]. cbn. by rewrite IH. }
  unfold hmac_from_engine, fn_hash. cbn [iengine oengine].
  rewrite (finish_pieces (map (byte_xor x36) K :: cs) : finish (foldl _ (engine_input new_engine _) cs) = _). cbn [concat].
  set (ih := finish (engine_input new_engine (map (byte_xor x36) K ++ concat cs))).
  pose proof (finish_pieces [map (byte_xor x5c) K; ih]) as Ho. cbn [foldl concat] in Ho. by rewrite app_nil_r in Ho.
Qed.
End Hmac.

#[export] Instance sha256_fn : HashFn :=
  {| new_engine := engine_default; engine_input := input (H := sha256_block); finish := Sha256.from_engine; hash_block_size := 64 |}.
#[export] Instance sha512_fn : HashFn :=
  {| new_engine := Sha512.engine; engine_input := input (H := Sha512.block); finish := Sha512.from_engine; hash_block_size := 128 |}.

#[export] Instance sha256_fn_laws : HashFnLaws (H := sha256_fn).
Proof.
  constructor. intros cs. cbn [finish engine_input new_engine sha256_fn]. rewrite <- sha256_hash_engine. apply sha256_pieces.
Qed.

#[export] Instance sha512_fn_laws : HashFnLaws (H := sha512_fn).
Proof.
  constructor. intros cs. assert (engine_holds (H := Sha512.block) Sha512.initial_state Sha512.engine []) as H0 by (by apply engine_holds_new).
  pose proof (engine_fold_holds (H := Sha512.block) _ _ _ cs H0) as H1. pose proof (engine_holds_input (H := Sha512.block) _ _ _ (concat cs) H0) as H2.
  transitivity (Sha512.spec Sha512.initial_state (concat cs)); [exact (sha512_holds _ _ _ H1)|symmetry; exact (sha512_holds _ _ _ H2)].
Qed.

Lemma length_block_state `{BlockHash} n k s m :
  (∀ s b, length (compress s b) = n) → length s = n → length (absorb k s m) = n.
Proof. intros Hc. revert s m. induction k; intros s m Hs; cbn; auto. Qed.

Lemma length_bind_le_split n (l : list Z) : length (l ≫= le_split n) = (n * length l)%nat.
Proof. induction l; cbn; rewrite ?length_app, ?length_le_split; lia. Qed.

Lemma length_sha512 m : length (Sha512.hash m) = 64%nat.
Proof.
  unfold Sha512.hash. assert (engine_holds (H := Sha512.block) Sha512.initial_state Sha512.engine []) as H0 by (by apply engine_holds_new).
  rewrite (sha512_holds _ _ _ (engine_holds_input (H := Sha512.block) _ _ _ m H0)). unfold Sha512.spec, absorb_all.
  rewrite length_bind_be_split, (length_block_state 8); done.
Qed.

Lemma length_ripemd160 m : length (Ripemd160.hash m) = 20%nat.
Proof.
  unfold Ripemd160.hash. assert (engine_holds (H := Ripemd160.block) Ripemd160.initial_state Ripemd160.engine []) as H0 by (by apply engine_holds_new).
  rewrite (ripemd160_holds _ _ (engine_holds_input (H := Ripemd160.block) _ _ _ m H0)). unfold Ripemd160.spec, absorb_all.
  rewrite length_bind_le_split, (length_block_state 5); done.
Qed.

Lemma length_hash160 m : length (hash160 m) = 20%nat.
Proof. apply length_ripemd160. Qed.

(** C24: The engines of RIPEMD-160, SHA-1, SHA-512, SHA-384 and SHA-512/256, given a
    message in any pieces, return the compression function folded over the blocks of the
    message with the padding of the standards: a one bit, the least number of zero bytes,
    the length in bits (little-endian for RIPEMD-160, in sixteen bytes for the SHA-512
    family); HASH160 is RIPEMD-160 of SHA-256, whatever the pieces. *)
Theorem hash_engines_correct (cs : list (list byte)) :
  Ripemd160.from_engine (foldl (input (H := Ripemd160.block)) Ripemd160.engine cs) = Ripemd160.spec (concat cs) ∧
  Sha1.from_engine (foldl (input (H := Sha1.block)) Sha1.engine cs) = Sha1.spec (concat cs) ∧
  Sha512.from_engine (foldl (input (H := Sha512.block)) Sha512.engine cs) = Sha512.spec Sha512.initial_state (concat cs) ∧
  Sha512.sha384_from_engine (foldl (input (H := Sha512.block)) Sha512.sha384 cs) = take 48 (Sha512.spec Sha512.state_384 (concat cs)) ∧
  Sha512.sha512_256_from_engine (foldl (input (H := Sha512.block)) Sha512.sha512_256 cs) = take 32 (Sha512.spec Sha512.state_256 (concat cs)) ∧
  hash160_from_engine (foldl (input (H := sha256_block)) engine_default cs) = Ripemd160.spec (sha256_hash (concat cs)) ∧
  length (Ripemd160.hash (concat cs)) = 20%nat ∧ length (Sha512.hash (concat cs)) = 64%nat.
Proof.
  assert (∀ st, engine_holds (H := Sha512.block) st (Sha512.engine_of st) []) as H5 by (intros; by apply engine_holds_new).
  assert (engine_holds (H := Ripemd160.block) Ripemd160.initial_state Ripemd160.engine []) as HR by (by apply engine_holds_new).
  split_and!; [| | | | | |apply length_ripemd160|apply length_sha512].
  - apply ripemd160_holds, (engine_fold_holds (H := Ripemd160.block) _ _ []), HR.
  - apply sha1_holds, (engine_fold_holds (H := Sha1.block) _ _ []). by apply engine_holds_new.
  - apply sha512_holds, (engine_fold_holds (H := Sha512.block) _ _ []), H5.
  - unfold Sha512.sha384_from_engine. f_equal. apply sha512_holds, (engine_fold_holds (H := Sha512.block) _ _ []), H5.
  - unfold Sha512.sha512_256_from_engine. f_equal. apply sha512_holds, (engine_fold_holds (H := Sha512.block) _ _ []), H5.
  - unfold hash160_from_engine. rewrite sha256_pieces. unfold Ripemd160.hash. apply ripemd160_holds.
    exact (engine_holds_input (H := Ripemd160.block) _ _ [] (sha256_hash (concat cs)) HR).
Qed.

Lemma fn_hash_sha256 m : fn_hash (H := sha256_fn) m = Sha256.from_engine (input (H := sha256_block) engine_default m).
Proof. unfold fn_hash, finish, engine_input, new_engine, sha256_fn. reflexivity. Qed.
Lemma fn_hash_sha512 m : fn_hash (H := sha512_fn) m = Sha512.hash m.
Proof. unfold fn_hash, finish, engine_input, new_engine, sha512_fn, Sha512.hash. reflexivity. Qed.

(** C25: HMAC over SHA-256 and over SHA-512 is the construction of RFC 2104: a key
    longer than a block is hashed first, the key is filled with zeros to a block, and
    the two pads are those of the standard; the message may come in any pieces, and no
    key makes the constructor panic. *)
Theorem hmac_correct (key : list byte) (cs : list (list byte)) :
  (e ← hmac_new (H := sha256_fn) key; Some (hmac_from_engine (foldl hmac_input e cs)))
  = Some (hmac_spec (H := sha256_fn) key (concat cs)) ∧
  (e ← hmac_new (H := sha512_fn) key; Some (hmac_from_engine (foldl hmac_input e cs)))
  = Some (hmac_spec (H := sha512_fn) key (concat cs)).
Proof.
  split; apply hmac_engine_spec; try done.
  - rewrite fn_hash_sha256, length_from_engine; [done|]. by apply length_input.
  - rewrite fn_hash_sha512, length_sha512. done.
Qed.

Example hmac_sha256_vector :
  hmac_spec (H := sha256_fn) (replicate 20 x0b) (ascii_bytes "Hi There")
  = [xb0; x34; x4c; x61; xd8; xdb; x38; x53; x5c; xa8; xaf; xce; xaf; x0b; xf1; x2b;
     x88; x1d; xc2; x00; xc9; x83; x3d; xa7; x26; xe9; x37; x6c; x2e; x32; xcf; xf7].
Proof. vm_compute. reflexivity. Qed.
