(* ===== verification/Tagged.v ===== *)
(** Tagged SHA-256 ([src/hashes/src/sha256t.rs]): engines that start from the midstate
    of a tag, and what they compute: the hash of BIP340. *)

From Stdlib Require Import String ZArith Lia.
From stdpp Require Import base list.
From Stdlib Require Import Init.Byte.
From coqutil Require Import Byte Word.LittleEndianList.
From S2P Require Import Prelude HashEngine Sha256.

(** [<Tag as sha256t::Tag>::engine]; the midstate is after 64 bytes, a whole block, so
    [from_midstate] does not panic. *)
Definition tag_engine (tag : list byte) : HashEngine :=
  default engine_default (from_midstate (hash_tag tag) 64).

(** [Hash::hash] of a tagged type. *)
Definition tagged_hash (tag data : list byte) : list byte := from_engine (input (tag_engine tag) data).

(** ** What they compute *)

(** The prefix that BIP340 gives every message. *)
Definition tag_prefix (tag : list byte) : list byte := sha256_spec tag ++ sha256_spec tag.

Lemma length_tag_prefix tag : length (tag_prefix tag) = 64%nat.
Proof. unfold tag_prefix. by rewrite length_app, !length_sha256_spec. Qed.

Lemma repeat_block (hash : list byte) :
  length hash = 32%nat → (λ i, nth (i mod length hash) hash x00) <$> seq 0 64 = hash ++ hash.
Proof.
  intros Hl. apply list_eq_same_length with 64%nat; [by rewrite length_app, Hl|by rewrite length_fmap, length_seq|].
  intros i x y Hi. rewrite list_lookup_fmap, lookup_seq_lt by done. cbn [fmap option_fmap option_map Nat.add].
  rewrite Hl. intros Hx Hy. apply (inj Some) in Hx as <-. destruct (Nat.lt_ge_cases i 32).
  - rewrite Nat.mod_small by done. rewrite lookup_app_l in Hy by lia. by apply nth_lookup_Some.
  - rewrite lookup_app_r in Hy by lia. rewrite Hl in Hy.
    replace i with (i - 32 + 1 * 32)%nat by lia. rewrite Nat.Div0.mod_add, Nat.mod_small by lia.
    by apply nth_lookup_Some.
Qed.

Lemma block_midstate (m : list byte) :
  length m = 64%nat → midstate_const_hash m false = compress initial_state m ≫= be_split 4.
Proof.
  intros Hm. unfold midstate_const_hash. rewrite Hm. change ((64 + 9 + 63) / 64)%nat with 2%nat.
  cbv zeta. cbn [const_hash_loop]. change (negb false && (0 + 1 =? 2)%nat) with false.
  change (negb false && (0 + 1 + 1 =? 2)%nat) with true. cbv iota.
  assert (compress_words initial_state (const_chunk_words m 2 0) = compress initial_state m) as ->.
  { pose proof (const_chunk_words_spec m) as Hc. rewrite Hm in Hc.
    change ((64 + 9 + 63) / 64)%nat with 2%nat in Hc. rewrite (Hc ltac:(lia) 0%nat ltac:(vm_compute; lia)).
    rewrite Nat.mul_0_l, drop_0. unfold sha256_pad. rewrite take_app_length' by done. reflexivity. }
  induction (compress initial_state m) as [|s l IH]; [done|]. cbn [mbind list_bind]. by rewrite be_split_4, IH.
Qed.

Lemma words_of_midstate (ws : list Z) :
  Forall (urange 32) ws →
  (λ i, be_combine (take 4 (drop (4 * i) (ws ≫= be_split 4)))) <$> seq 0 (length ws) = ws.
Proof.
  induction 1 as [|w ws Hw _ IH]; [done|]. cbn [length]. rewrite <- cons_seq. cbn [fmap list_fmap mbind list_bind].
  f_equal.
  - rewrite drop_0, take_app_length' by by rewrite length_be_split. by rewrite (be_combine_split 4).
  - rewrite <- fmap_S_seq, <- list_fmap_compose. rewrite <- IH at 2. apply list_fmap_ext. intros i j _. cbn [compose].
    do 2 f_equal. rewrite drop_app_ge by (rewrite length_be_split; lia). f_equal. rewrite length_be_split. lia.
Qed.

Lemma compress_range s m : Forall (urange 32) (compress s m).
Proof. cbn [compress sha256_block]. unfold software_process_block, compress_words. cbv zeta. repeat constructor; apply uwrap_range; lia. Qed.

Lemma tag_engine_holds tag :
  Z.of_nat (length tag) < 2 ^ 61 → engine_holds initial_state (tag_engine tag) (tag_prefix tag).
Proof.
  intros Ht. unfold tag_engine, from_midstate. change (64 mod BLOCK_SIZE =? 0) with true. cbn [default from_option]. unfold id.
  unfold hash_tag. cbv zeta. rewrite const_hash_spec by done. rewrite repeat_block by apply length_sha256_spec.
  fold (tag_prefix tag). pose proof (length_tag_prefix tag) as Hl. rewrite block_midstate by done.
  change (seq 0 8) with (seq 0 (length (compress initial_state (tag_prefix tag)))).
  rewrite words_of_midstate by apply compress_range.
  constructor; cbn [eng_length buffer h]; [by rewrite Hl|done| |].
  - change (Z.to_nat (64 / BLOCK_SIZE)) with 1%nat. cbn [absorb]. f_equal. symmetry. apply take_ge. rewrite Hl. done.
  - change (64 mod BLOCK_SIZE) with 0. change (Z.to_nat (64 / BLOCK_SIZE) * Z.to_nat BLOCK_SIZE)%nat with 64%nat.
    rewrite drop_ge by lia. done.
Qed.

(** Feeding a tagged engine piece by piece hashes the prefix and the concatenation. *)
Lemma tagged_chunks tag chunks :
  Z.of_nat (length tag) < 2 ^ 61 → Z.of_nat (length (concat chunks)) < 2 ^ 60 →
  from_engine (foldl input (tag_engine tag) chunks) = sha256_spec (tag_prefix tag ++ concat chunks).
Proof.
  intros Ht Hc. apply (from_engine_spec initial_state).
  - by apply engine_holds_chunks, tag_engine_holds.
  - rewrite length_app, length_tag_prefix. lia.
Qed.

Lemma tagged_hash_spec tag m :
  Z.of_nat (length tag) < 2 ^ 61 → Z.of_nat (length m) < 2 ^ 60 →
  tagged_hash tag m = sha256_spec (tag_prefix tag ++ m).
Proof.
  intros Ht Hm. unfold tagged_hash. pose proof (tagged_chunks tag [m] Ht) as H. cbn [foldl concat] in H.
  rewrite app_nil_r in H. by apply H.
Qed.

Lemma length_tagged_hash tag m : length (tagged_hash tag m) = 32%nat.
Proof. apply length_from_engine, length_input. reflexivity. Qed.

Lemma length_tagged_chunks tag chunks : length (from_engine (foldl input (tag_engine tag) chunks)) = 32%nat.
Proof.
  apply length_from_engine. assert (length (h (tag_engine tag)) = 8%nat) as Hl by reflexivity. revert Hl.
  generalize (tag_engine tag). induction chunks as [|c cs IH]; intros e He; [done|]. by apply IH, length_input.
Qed.

(** The pieces do not matter, whatever the length. *)
Lemma tagged_pieces tag chunks :
  Z.of_nat (length tag) < 2 ^ 61 →
  from_engine (foldl input (tag_engine tag) chunks) = tagged_hash tag (concat chunks).
Proof.
  intros Ht. pose proof (tag_engine_holds tag Ht) as He.
  pose proof (engine_holds_chunks _ _ _ chunks He) as H1. pose proof (engine_holds_input _ _ _ (concat chunks) He) as H2.
  unfold tagged_hash. by rewrite (from_engine_holds _ _ _ H1), (from_engine_holds _ _ _ H2).
Qed.
