(* ===== verification/Encode.v ===== *)
(** Consensus encoding ([src/litecoin/src/consensus/encode.rs]): the error type,
    the codecs of the primitive types, [VarInt], byte vectors, typed vectors,
    strings and [CheckedData], the [serialize]/[deserialize] entry points, and the
    laws that the codecs of every other component are proved against. *)

From Stdlib Require Import String ZArith Lia.
From stdpp Require Import base list.
From Stdlib Require Import Init.Byte.
From coqutil Require Import Byte Word.LittleEndianList.
From S2P Require Import Prelude Io HashEngine Sha256.

(** [encode::Error] *)
Inductive Error :=
| Io (e : io_error)
| OversizedVectorAllocation (requested max : Z)
| InvalidChecksum (expected actual : list byte)
| NonMinimalVarInt
| ParseFailed (s : string)
| UnsupportedSegwitFlag (flag : Z).

Definition rd (A : Type) : Type := reader Error A.
Definition wr (A : Type) : Type := writer io_error A.

Definition MAX_VEC_SIZE : Z := 4000000.

(** ** The traits [Encodable] and [Decodable]

    [c_enc] is [consensus_encode], which returns the number of bytes written;
    [c_dec] is [consensus_decode_from_finite_reader] and [c_dec_top] is
    [consensus_decode]. *)
Record codec (A : Type) := Codec {
  c_enc : A → wr Z;
  c_dec : rd A;
  c_dec_top : rd A }.
Arguments Codec {A}.
Arguments c_enc {A} _ _.
Arguments c_dec {A} _ _.
Arguments c_dec_top {A} _ _.

(** A type that implements [consensus_decode]: the finite-reader method forwards
    to it. *)
Definition fixed_codec {A} (enc : A → wr Z) (dec : rd A) : codec A := Codec enc dec dec.
(** A type that implements [consensus_decode_from_finite_reader]: the provided
    [consensus_decode] wraps the reader in [Take]. *)
Definition finite_codec {A} (enc : A → wr Z) (dec : rd A) : codec A :=
  Codec enc dec (rd_take MAX_VEC_SIZE dec).

(** ** [WriteExt] and [ReadExt] *)

Definition emit_slice (v : list byte) : wr unit := w_bytes v.
Definition emit_uint (n : nat) (v : Z) : wr unit := w_bytes (le_split n v).
Definition emit_u8 (v : Z) : wr unit := w_bytes [byte.of_Z v].
Definition emit_i8 (v : Z) : wr unit := w_bytes [byte.of_Z (uwrap 8 v)].
Definition emit_bool (v : bool) : wr unit := w_bytes [byte.of_Z (b2z v)].

Definition read_slice (n : Z) : rd (list byte) := rd_exact (Io (err_of_kind UnexpectedEof)) n.
Definition read_uint (n : nat) : rd Z :=
  let! val := read_slice (Z.of_nat n) in rd_ret (le_combine val).
Definition read_sint (n : nat) : rd Z :=
  let! val := read_slice (Z.of_nat n) in rd_ret (swrap (8 * Z.of_nat n) (le_combine val)).
Definition read_u8 : rd Z := read_uint 1.
Definition read_i8 : rd Z := read_sint 1.
Definition read_bool : rd bool := let! bit := read_i8 in rd_ret (negb (bit =? 0)).

(** ** Primitive types *)

Definition u8 : codec Z :=
  fixed_codec (λ v, let+ _ := emit_u8 v in w_ret 1) read_u8.
Definition i8 : codec Z :=
  fixed_codec (λ v, let+ _ := emit_i8 v in w_ret 1) read_i8.
Definition uint (n : nat) : codec Z :=
  fixed_codec (λ v, let+ _ := emit_uint n v in w_ret (Z.of_nat n)) (read_uint n).
Definition sint (n : nat) : codec Z :=
  fixed_codec (λ v, let+ _ := emit_uint n v in w_ret (Z.of_nat n)) (read_sint n).
Definition u16 : codec Z := uint 2.
Definition u32 : codec Z := uint 4.
Definition u64 : codec Z := uint 8.
Definition i16 : codec Z := sint 2.
Definition i32 : codec Z := sint 4.
Definition i64 : codec Z := sint 8.

Definition bool_codec : codec bool :=
  fixed_codec (λ v, let+ _ := emit_bool v in w_ret 1) read_bool.

(** [[u8; n]] *)
Definition array (n : Z) : codec (list byte) :=
  fixed_codec (λ v, let+ _ := emit_slice v in w_ret (Z.of_nat (length v))) (read_slice n).

(** ** [VarInt] *)

Definition varint_size (v : Z) : Z :=
  if v <=? 0xFC then 1 else if v <=? 0xFFFF then 3 else if v <=? 0xFFFFFFFF then 5 else 9.

Definition varint_encode (v : Z) : wr Z :=
  if v <=? 0xFC then
    let+ _ := c_enc u8 (uwrap 8 v) in w_ret 1
  else if v <=? 0xFFFF then
    let+ _ := emit_u8 0xFD in let+ _ := c_enc u16 (uwrap 16 v) in w_ret 3
  else if v <=? 0xFFFFFFFF then
    let+ _ := emit_u8 0xFE in let+ _ := c_enc u32 (uwrap 32 v) in w_ret 5
  else
    let+ _ := emit_u8 0xFF in let+ _ := c_enc u64 v in w_ret 9.

Definition varint_decode : rd Z :=
  let! n := read_u8 in
  if n =? 0xFF then
    let! x := read_uint 8 in
    if x <? 0x100000000 then rd_err NonMinimalVarInt else rd_ret x
  else if n =? 0xFE then
    let! x := read_uint 4 in
    if x <? 0x10000 then rd_err NonMinimalVarInt else rd_ret x
  else if n =? 0xFD then
    let! x := read_uint 2 in
    if x <? 0xFD then rd_err NonMinimalVarInt else rd_ret x
  else rd_ret n.

Definition varint : codec Z := fixed_codec varint_encode varint_decode.

(** ** Byte vectors *)

Definition consensus_encode_with_size (data : list byte) : wr Z :=
  let+ vi_len := c_enc varint (Z.of_nat (length data)) in
  let+ _ := emit_slice data in
  w_ret (vi_len + Z.of_nat (length data)).

(** The [while opts.len > 0] loop: each round reads a chunk of at least one byte
    or fails, so as many rounds as there are bytes, and one, are enough. *)
Fixpoint read_bytes_loop (fuel : nat) (len chunk_size : Z) (ret : list byte) : rd (list byte) :=
  λ s,
    if 0 <? len then
      match fuel with
      | O => Err (Io (err_of_kind UnexpectedEof))
      | S fuel =>
          let chunk := Z.min len chunk_size in
          (let! bs := read_slice chunk in
           read_bytes_loop fuel (len - chunk) chunk_size (ret ++ bs)) s
      end
    else rd_ret ret s.

Definition read_bytes_from_finite_reader (len chunk_size : Z) : rd (list byte) :=
  λ s, read_bytes_loop (S (length s)) len chunk_size [] s.

Definition bytes_decode : rd (list byte) :=
  let! len := c_dec_top varint in
  read_bytes_from_finite_reader len (128 * 1024).

Definition bytes : codec (list byte) := finite_codec consensus_encode_with_size bytes_decode.

(** ** [impl_vec!] *)

Definition vec_encode {A} (c : codec A) (xs : list A) : wr Z :=
  let+ len := w_add 0 (c_enc varint (Z.of_nat (length xs))) in
  w_for (λ len x, w_add len (c_enc c x)) len xs.

Definition vec_decode {A} (c : codec A) : rd (list A) :=
  let! len := c_dec varint in
  rd_for len (λ ret, let! x := c_dec c in rd_ret (ret ++ [x])) [].

Definition vec {A} (c : codec A) : codec (list A) := finite_codec (vec_encode c) (vec_decode c).

(** [[u16; 8]] *)
Definition u16_array_8 : codec (list Z) :=
  fixed_codec
    (λ v, let+ _ := w_for (λ _ c, let+ _ := c_enc u16 c in w_ret tt) tt v in w_ret 16)
    (rd_for 8 (λ res, let! x := c_dec u16 in rd_ret (res ++ [x])) []).

(** ** [CheckedData] *)

Record CheckedData := { data : list byte; checksum : list byte }.

Definition sha2_checksum (data : list byte) : list byte := take 4 (sha256d_hash data).

Definition checked_data_new (data : list byte) : CheckedData :=
  {| data := data; checksum := sha2_checksum data |}.

(** [u32::try_from(self.data.len()).expect(..)]: [None] is the panic. *)
Definition checked_data_encode (cd : CheckedData) : option (wr Z) :=
  let len := Z.of_nat (length (data cd)) in
  if len <=? U32_MAX then
    Some (let+ _ := c_enc u32 len in
          let+ _ := c_enc (array 4) (checksum cd) in
          let+ _ := emit_slice (data cd) in
          w_ret (8 + len))
  else None.

Definition checked_data_decode : rd CheckedData :=
  let! len := c_dec u32 in
  let! checksum := c_dec (array 4) in
  let! data := read_bytes_from_finite_reader len MAX_VEC_SIZE in
  let expected_checksum := sha2_checksum data in
  if decide (expected_checksum ≠ checksum)
  then rd_err (InvalidChecksum expected_checksum checksum)
  else rd_ret {| data := data; checksum := checksum |}.

(** ** Entry points *)

Definition serialize {A} (c : codec A) (x : A) : result io_error (list byte) :=
  match c_enc c x with
  | Ok (_, encoder) => Ok encoder
  | Err e => Err e
  end.

(** [decoder.position()] counts the bytes taken off the cursor. *)
Definition deserialize_partial {A} (c : codec A) (data : list byte) : result Error (A * Z) :=
  match c_dec c data with
  | Ok (rv, rest) => Ok (rv, Z.of_nat (length data) - Z.of_nat (length rest))
  | Err e => Err e
  end.

Definition deserialize {A} (c : codec A) (data : list byte) : result Error A :=
  let? (rv, consumed) := deserialize_partial c data in
  if consumed =? Z.of_nat (length data) then Ok rv
  else Err (ParseFailed "data not consumed entirely when explicitly deserializing").

(** ** Laws *)

(** [bs] is the encoding of [x], and the byte count returned is its length. *)
Definition encodes {A} (c : codec A) (x : A) (bs : list byte) : Prop :=
  c_enc c x = Ok (Z.of_nat (length bs), bs).

(** Every well-formed value is encoded, and decoded back from its encoding,
    whatever follows it. *)
Class RoundTrip {A} (c : codec A) (wf : A → Prop) : Prop :=
  roundtrip x : wf x → ∃ bs, encodes c x bs ∧ reads (c_dec c) bs x.

(** What is decoded is well formed, and the bytes consumed are its encoding. *)
Class Canonical {A} (c : codec A) (wf : A → Prop) : Prop :=
  canonical s x rest :
    c_dec c s = Ok (x, rest) → wf x ∧ ∃ bs, encodes c x bs ∧ s = bs ++ rest.

(** The count a successful [consensus_encode] returns is the bytes it wrote. *)
Class EncodeLen {A} (c : codec A) : Prop :=
  encode_len x n bs : c_enc c x = Ok (n, bs) → n = Z.of_nat (length bs).

(** The length of [w_for]'s output, for an accumulator that counts it. *)
Lemma w_for_len {A} (c : codec A) `{!EncodeLen c} xs len n bs :
  w_for (λ len x, w_add len (c_enc c x)) len xs = Ok (n, bs) → n = len + Z.of_nat (length bs).
Proof.
  revert len n bs. induction xs as [|x xs IH]; intros len n bs; cbn.
  - intros [= <- <-]. cbn. lia.
  - intros H. inv_ok. match goal with H : c_enc c _ = _ |- _ => apply encode_len in H end.
    match goal with H : w_for _ _ _ = _ |- _ => apply IH in H end.
    rewrite length_app. lia.
Qed.

Lemma w_for_encodes {A} (c : codec A) (wf : A → Prop) `{!RoundTrip c wf} xs len :
  Forall wf xs →
  ∃ bs, w_for (λ len x, w_add len (c_enc c x)) len xs = Ok (len + Z.of_nat (length bs), bs) ∧
        ∀ rest acc,
          nat_loop (λ st, (let! x := c_dec c in rd_ret (fst st ++ [x])) (snd st))
            (length xs) (acc, bs ++ rest) = Ok (acc ++ xs, rest).
Proof.
  revert len. induction xs as [|x xs IH]; intros len Hwf.
  - exists []. split; [cbn; by rewrite Z.add_0_r|]. intros. cbn. by rewrite app_nil_r.
  - inversion_clear Hwf as [|? ? Hx Hxs].
    destruct (roundtrip x Hx) as (b & He & Hr).
    destruct (IH (len + Z.of_nat (length b)) Hxs) as (bs & Hf & Hl).
    exists (b ++ bs). split.
    + cbn [w_for]. erewrite w_bind_of by eauto using w_add_of.
      do 2 f_equal. rewrite length_app. lia.
    + intros rest acc. cbn [length nat_loop]. unfold rd_bind at 1. cbn [fst snd].
      rewrite <- app_assoc, Hr. cbn [rd_ret result_bind]. rewrite Hl, <- app_assoc. done.
Qed.

Lemma nat_loop_canonical {A} (c : codec A) (wf : A → Prop) `{!Canonical c wf} n s acc r rest len :
  nat_loop (λ st, (let! x := c_dec c in rd_ret (fst st ++ [x])) (snd st)) n (acc, s) = Ok (r, rest) →
  ∃ xs bs, r = acc ++ xs ∧ length xs = n ∧ Forall wf xs ∧ s = bs ++ rest ∧
    w_for (λ len x, w_add len (c_enc c x)) len xs = Ok (len + Z.of_nat (length bs), bs).
Proof.
  revert s acc len. induction n as [|n IH]; intros s acc len; cbn.
  - intros [= <- <-]. exists [], []. rewrite app_nil_r. split_and!; try done.
    cbn. by rewrite Z.add_0_r.
  - unfold rd_bind at 1. destruct (c_dec c s) as [[x s']|] eqn:Hx; [|done]. cbn. intros Hl.
    destruct (canonical s x s' Hx) as (Hwf & b & He & ->).
    destruct (IH _ _ (len + Z.of_nat (length b)) Hl) as (xs & bs & -> & <- & Hxs & -> & Hf).
    exists (x :: xs), (b ++ bs). rewrite <- !app_assoc. split_and!; try done.
    + by constructor.
    + cbn [w_for]. erewrite w_bind_of by eauto using w_add_of.
      do 2 f_equal. rewrite length_app. lia.
Qed.

(** Consequences of the two laws for the entry points. *)
Section EntryPoints.
Context {A : Type} (c : codec A) (wf : A → Prop).

Lemma deserialize_serialize `{!RoundTrip c wf} x bs :
  wf x → serialize c x = Ok bs → deserialize c bs = Ok x.
Proof.
  intros Hx Hs. destruct (roundtrip x Hx) as (b & He & Hr).
  unfold serialize in Hs. rewrite He in Hs. injection Hs as <-.
  unfold deserialize, deserialize_partial. rewrite <- (app_nil_r b) at 1. rewrite Hr. cbn.
  by rewrite Z.sub_0_r, Z.eqb_refl.
Qed.

Lemma deserialize_ok x bs : deserialize c bs = Ok x ↔ c_dec c bs = Ok (x, []).
Proof.
  unfold deserialize, deserialize_partial. destruct (c_dec c bs) as [[y r]|]; [|done]. cbn.
  split.
  - case_if; [|done]. intros [= ->]. bool_lia.
    destruct r; [done|]. cbn [length] in *. lia.
  - intros [= -> ->]. cbn. by rewrite Z.sub_0_r, Z.eqb_refl.
Qed.

Lemma serialize_deserialize `{!Canonical c wf} x bs :
  deserialize c bs = Ok x → wf x ∧ serialize c x = Ok bs.
Proof.
  rewrite deserialize_ok. intros Hd. destruct (canonical _ _ _ Hd) as (Hwf & b & He & ->).
  rewrite app_nil_r. unfold serialize. by rewrite He.
Qed.

(** No byte string is the encoding of two values, nor a proper prefix of one. *)
Lemma encodes_inj `{!RoundTrip c wf} x y b1 b2 r1 r2 :
  wf x → wf y → encodes c x b1 → encodes c y b2 → b1 ++ r1 = b2 ++ r2 → x = y ∧ r1 = r2.
Proof.
  intros Hx Hy H1 H2 Heq.
  destruct (roundtrip x Hx) as (b1' & H1' & R1), (roundtrip y Hy) as (b2' & H2' & R2).
  unfold encodes in *. rewrite H1 in H1'. rewrite H2 in H2'.
  injection H1' as _ <-. injection H2' as _ <-.
  specialize (R1 r1). specialize (R2 r2). rewrite Heq, R2 in R1. by simplify_eq.
Qed.
End EntryPoints.

(** ** Proof automation for codecs *)

Lemma encodes_intro {A} (c : codec A) x n bs :
  c_enc c x = Ok (n, bs) → n = Z.of_nat (length bs) → encodes c x bs.
Proof. intros H ->. exact H. Qed.

(** Replaces every field encoder whose result is known by that result. *)
Ltac enc_steps :=
  unfold w_add;
  repeat (first
    [ match goal with
      | H : encodes ?c ?x _ |- context [c_enc ?c ?x] => unfold encodes in H; rewrite H
      | H : c_enc ?c ?x = Ok _ |- context [c_enc ?c ?x] => rewrite H
      | H : w_for _ _ _ = Ok _ |- _ => rewrite H
      end ]; cbn [w_bind w_ret w_bytes w_lift emit_slice]).

Ltac enc_close := autorewrite with codec; cbn [length]; lia.

(** Replaces every field decoder by the field it reads off the front. *)
Ltac dec_steps :=
  repeat (autorewrite with codec; first
    [ match goal with
      | H : reads ?m _ _ |- context [?m _] => rewrite H
      end ]; cbn [rd_bind rd_ret rd_lift rd_err]).

(** ** Primitive types *)

Lemma read_uint_app n v rest :
  urange (8 * Z.of_nat n) v → read_uint n (le_split n v ++ rest) = Ok (v, rest).
Proof.
  intros Hv. unfold read_uint, rd_bind, read_slice.
  rewrite rd_exact_app by (by rewrite length_le_split). cbn.
  by rewrite le_combine_split_u.
Qed.

Lemma read_uint_ok n s v rest :
  read_uint n s = Ok (v, rest) ↔ urange (8 * Z.of_nat n) v ∧ s = le_split n v ++ rest.
Proof.
  split.
  - unfold read_uint. intros H. inv_ok.
    match goal with H : read_slice _ _ = _ |- _ => apply rd_exact_ok in H as [-> Hl]; [|lia] end.
    apply Nat2Z.inj in Hl. subst n. split; [apply le_combine_range|].
    by rewrite le_split_le_combine.
  - intros [? ->]. by apply read_uint_app.
Qed.

Lemma read_u8_cons b rest : read_u8 (b :: rest) = Ok (byte.unsigned b, rest).
Proof.
  unfold read_u8. change (b :: rest) with ([b] ++ rest).
  replace [b] with (le_split 1 (byte.unsigned b)).
  - apply read_uint_app, urange_byte.
  - change (le_split 1 (byte.unsigned b)) with [byte.of_Z (byte.unsigned b)].
    by rewrite byte.of_Z_unsigned.
Qed.

Lemma read_u8_ok s v rest :
  read_u8 s = Ok (v, rest) ↔ ∃ b, s = b :: rest ∧ v = byte.unsigned b.
Proof.
  split.
  - destruct s as [|b s]; [done|]. rewrite read_u8_cons. intros [= <- <-]. eauto.
  - intros (b & -> & ->). apply read_u8_cons.
Qed.

#[export] Instance uint_roundtrip n : RoundTrip (uint n) (urange (8 * Z.of_nat n)).
Proof.
  intros v Hv. exists (le_split n v). split.
  - unfold encodes. cbn. by rewrite app_nil_r, length_le_split.
  - intros rest. by apply read_uint_app.
Qed.

#[export] Instance uint_canonical n : Canonical (uint n) (urange (8 * Z.of_nat n)).
Proof.
  intros s v rest Hd. apply read_uint_ok in Hd as [Hv ->]. split; [done|].
  exists (le_split n v). split; [|done]. unfold encodes. cbn. by rewrite app_nil_r, length_le_split.
Qed.

#[export] Instance uint_len n : EncodeLen (uint n).
Proof. intros v k bs. cbn. intros [= <- <-]. by rewrite app_nil_r, length_le_split. Qed.

Lemma read_sint_app n v rest :
  srange (8 * Z.of_nat (S n)) v → read_sint (S n) (le_split (S n) v ++ rest) = Ok (v, rest).
Proof.
  intros Hv. unfold read_sint, rd_bind, read_slice.
  rewrite rd_exact_app by (by rewrite length_le_split). cbn -[le_split le_combine Z.mul Z.of_nat].
  rewrite le_combine_split, (Z.mul_comm (Z.of_nat _)), swrap_mod, swrap_small by (done || lia). done.
Qed.

#[export] Instance sint_roundtrip n : RoundTrip (sint (S n)) (srange (8 * Z.of_nat (S n))).
Proof.
  intros v Hv. exists (le_split (S n) v). split.
  - unfold encodes. cbn -[le_split]. by rewrite app_nil_r, length_le_split.
  - intros rest. by apply read_sint_app.
Qed.

#[export] Instance sint_canonical n : Canonical (sint (S n)) (srange (8 * Z.of_nat (S n))).
Proof.
  intros s v rest Hd. cbn -[read_sint] in Hd. unfold read_sint in Hd. inv_ok.
  match goal with H : read_slice _ _ = _ |- _ => apply rd_exact_ok in H as [-> Hl]; [|lia] end.
  apply Nat2Z.inj in Hl. split; [apply swrap_range; lia|].
  eexists. split; [|reflexivity]. unfold encodes. cbn -[le_split Z.mul Z.of_nat]. rewrite app_nil_r, Hl.
  do 2 f_equal. rewrite <- le_split_uwrap, <- Hl, uwrap_swrap by (lia || apply le_combine_range).
  by apply le_split_le_combine.
Qed.

#[export] Instance sint_len n : EncodeLen (sint n).
Proof. intros v k bs. cbn. intros [= <- <-]. by rewrite app_nil_r, length_le_split. Qed.

#[export] Instance u8_roundtrip : RoundTrip u8 (urange 8).
Proof. exact (uint_roundtrip 1). Qed.
#[export] Instance u8_canonical : Canonical u8 (urange 8).
Proof. exact (uint_canonical 1). Qed.
#[export] Instance u8_len : EncodeLen u8.
Proof. exact (uint_len 1). Qed.

(** [[u8; n]]: the values of the Rust type have exactly [n] bytes. *)
Definition is_array (n : Z) (v : list byte) : Prop := Z.of_nat (length v) = n.

#[export] Instance array_roundtrip n : RoundTrip (array n) (is_array n).
Proof.
  intros v Hv. exists v. split.
  - unfold encodes. cbn. by rewrite app_nil_r.
  - intros rest. cbn. unfold read_slice. by apply rd_exact_app.
Qed.

#[export] Instance array_canonical n :
  TCEq (0 <=? n) true → Canonical (array n) (is_array n).
Proof.
  intros Hn%TCEq_eq s v rest Hd. apply Z.leb_le in Hn. cbn in Hd.
  apply rd_exact_ok in Hd as [-> Hl]; [|lia]. split; [done|].
  exists v. split; [|done]. unfold encodes. cbn. by rewrite app_nil_r.
Qed.

#[export] Instance array_len n : EncodeLen (array n).
Proof. intros v k bs. cbn. intros [= <- <-]. by rewrite app_nil_r. Qed.

#[export] Instance bool_roundtrip : RoundTrip bool_codec (λ _, True).
Proof.
  intros b _. exists [byte.of_Z (b2z b)]. split; [done|]. intros rest.
  change [byte.of_Z (b2z b)] with (le_split 1 (b2z b)).
  cbn [c_dec bool_codec fixed_codec]. unfold read_bool, read_i8, rd_bind.
  rewrite read_sint_app by (destruct b; cbn; unfold srange; lia). by destruct b.
Qed.

(** ** [VarInt] *)

(** The bytes [varint_encode] writes. *)
Definition varint_bytes (v : Z) : list byte :=
  if v <=? 0xFC then [byte.of_Z v]
  else if v <=? 0xFFFF then xfd :: le_split 2 v
  else if v <=? 0xFFFFFFFF then xfe :: le_split 4 v
  else xff :: le_split 8 v.

Lemma varint_encode_eq v :
  urange 64 v → varint_encode v = Ok (varint_size v, varint_bytes v).
Proof.
  unfold urange. intros Hv. unfold varint_encode, varint_size, varint_bytes.
  repeat case_if; bool_lia; cbn -[le_split uwrap]; rewrite ?uwrap_small by (unfold urange; lia); done.
Qed.

Lemma length_varint_bytes v : Z.of_nat (length (varint_bytes v)) = varint_size v.
Proof. unfold varint_bytes, varint_size. repeat case_if; cbn; done. Qed.

Lemma varint_size_pos v : 1 <= varint_size v <= 9.
Proof. unfold varint_size. repeat case_if; lia. Qed.

Lemma varint_encodes v : urange 64 v → encodes varint v (varint_bytes v).
Proof. intros Hv. unfold encodes. cbn. by rewrite varint_encode_eq, length_varint_bytes. Qed.

Lemma varint_decode_app v rest :
  urange 64 v → varint_decode (varint_bytes v ++ rest) = Ok (v, rest).
Proof.
  unfold urange. intros Hv. unfold varint_decode, varint_bytes, rd_bind at 1.
  repeat case_if; bool_lia; cbn [app]; rewrite read_u8_cons.
  - rewrite byte_of_Z_u by (unfold urange; lia).
    rewrite !(proj2 (Z.eqb_neq v _)) by lia. done.
  - change (byte.unsigned xfd) with 0xFD. cbn [Z.eqb Pos.eqb]. unfold rd_bind.
    rewrite read_uint_app by (unfold urange; lia).
    by rewrite (proj2 (Z.ltb_ge v _)) by lia.
  - change (byte.unsigned xfe) with 0xFE. cbn [Z.eqb Pos.eqb]. unfold rd_bind.
    rewrite read_uint_app by (unfold urange; lia).
    by rewrite (proj2 (Z.ltb_ge v _)) by lia.
  - change (byte.unsigned xff) with 0xFF. cbn [Z.eqb Pos.eqb]. unfold rd_bind.
    rewrite read_uint_app by (unfold urange; lia).
    by rewrite (proj2 (Z.ltb_ge v _)) by lia.
Qed.

Lemma byte_eq_of_unsigned b c : byte.unsigned b = byte.unsigned c → b = c.
Proof. apply byte.unsigned_inj. Qed.

Lemma varint_decode_ok s v rest :
  varint_decode s = Ok (v, rest) ↔ urange 64 v ∧ s = varint_bytes v ++ rest.
Proof.
  split; [|intros [? ->]; by apply varint_decode_app].
  unfold varint_decode. intros H. apply rd_bind_ok in H as (n & s' & Hn & H).
  apply read_u8_ok in Hn as (b & -> & ->). pose proof (urange_byte b) as Hb.
  unfold urange in Hb.
  assert (∀ k c, (let! x := read_uint k in
      if x <? c then rd_err NonMinimalVarInt else rd_ret x) s' = Ok (v, rest) →
    urange (8 * Z.of_nat k) v ∧ c <= v ∧ s' = le_split k v ++ rest) as Hlong.
  { intros k c Hk. apply rd_bind_ok in Hk as (x & s2 & Hx & Hk).
    apply read_uint_ok in Hx as [Hx ->].
    destruct (x <? c) eqn:Hc; [discriminate Hk|]. injection Hk as -> ->. bool_lia. done. }
  repeat (case_if; bool_lia); unfold varint_bytes.
  1-3: apply Hlong in H as (Hv & Hmin & ->); unfold urange in Hv;
    rewrite ?(proj2 (Z.leb_gt v _)), ?(proj2 (Z.leb_le v _)) by lia.
  - split; [unfold urange; lia|]. by rewrite (byte_eq_of_unsigned b xff).
  - split; [unfold urange; lia|]. by rewrite (byte_eq_of_unsigned b xfe).
  - split; [unfold urange; lia|]. by rewrite (byte_eq_of_unsigned b xfd).
  - injection H as <- <-. rewrite (proj2 (Z.leb_le _ _)) by lia.
    split; [unfold urange; lia|]. by rewrite byte.of_Z_unsigned.
Qed.

#[export] Instance varint_roundtrip : RoundTrip varint (urange 64).
Proof.
  intros v Hv. exists (varint_bytes v). split; [by apply varint_encodes|].
  intros rest. by apply varint_decode_app.
Qed.

#[export] Instance varint_canonical : Canonical varint (urange 64).
Proof.
  intros s v rest Hd. apply varint_decode_ok in Hd as [Hv ->].
  split; [done|]. exists (varint_bytes v). split; [by apply varint_encodes|done].
Qed.

#[export] Instance varint_len : EncodeLen varint.
Proof.
  intros v n bs. cbn. unfold varint_encode. repeat case_if; cbn; intros [= <- <-]; done.
Qed.

(** ** Byte vectors *)

Lemma read_slice_ok n s bs rest :
  0 <= n → read_slice n s = Ok (bs, rest) ↔ s = bs ++ rest ∧ Z.of_nat (length bs) = n.
Proof. apply rd_exact_ok. Qed.

(** The chunked loop reads the bytes, or fails as one [read_exact] would. *)
Lemma read_bytes_loop_spec fuel len chunk ret s :
  0 < chunk → 0 <= len → (length s < fuel)%nat →
  read_bytes_loop fuel len chunk ret s
  = match read_slice len s with
    | Ok (bs, rest) => Ok (ret ++ bs, rest)
    | Err e => Err e
    end.
Proof.
  intros Hc. revert len ret s. induction fuel as [|fuel IH]; intros len ret s Hl Hf; [lia|].
  cbn [read_bytes_loop]. destruct (Z.ltb_spec 0 len) as [Hpos|].
  2:{ assert (len = 0) as -> by lia. unfold read_slice, rd_exact, rd_ret.
      rewrite (proj2 (Z.leb_le _ _)) by lia. by rewrite app_nil_r. }
  set (c := Z.min len chunk). unfold read_slice, rd_exact, rd_bind at 1.
  destruct (Z.leb_spec len (Z.of_nat (length s))).
  - rewrite (proj2 (Z.leb_le c _)) by lia.
    rewrite IH by (rewrite ?length_drop; lia). unfold read_slice, rd_exact.
    rewrite length_drop, (proj2 (Z.leb_le _ _)) by lia.
    rewrite <- app_assoc, drop_drop. do 2 f_equal; [|f_equal; lia].
    f_equal. rewrite take_take_drop. f_equal. lia.
  - destruct (Z.leb_spec c (Z.of_nat (length s))); [|done].
    rewrite IH by (rewrite ?length_drop; lia). unfold read_slice, rd_exact.
    by rewrite length_drop, (proj2 (Z.leb_gt _ _)) by lia.
Qed.

Lemma read_bytes_eq len chunk s :
  0 < chunk → 0 <= len → read_bytes_from_finite_reader len chunk s = read_slice len s.
Proof.
  intros. unfold read_bytes_from_finite_reader. rewrite read_bytes_loop_spec by lia.
  by destruct (read_slice len s) as [[? ?]|].
Qed.

Definition fits_u64 (v : list byte) : Prop := Z.of_nat (length v) < 2 ^ 64.

Lemma bytes_encodes v :
  fits_u64 v → encodes bytes v (varint_bytes (Z.of_nat (length v)) ++ v).
Proof.
  intros Hv. apply encodes_intro with (n := varint_size (Z.of_nat (length v)) + Z.of_nat (length v)).
  - cbn. unfold consensus_encode_with_size. cbn.
    rewrite varint_encode_eq by (unfold urange, fits_u64 in *; lia). cbn. by rewrite app_nil_r.
  - rewrite length_app, Nat2Z.inj_add, length_varint_bytes. done.
Qed.

#[export] Instance bytes_roundtrip : RoundTrip bytes fits_u64.
Proof.
  intros v Hv. eexists. split; [by apply bytes_encodes|].
  intros rest. cbn [c_dec bytes finite_codec]. unfold bytes_decode, rd_bind.
  cbn [c_dec_top varint fixed_codec]. rewrite <- app_assoc.
  rewrite varint_decode_app by (unfold urange, fits_u64 in *; lia).
  rewrite read_bytes_eq by lia. by apply rd_exact_app.
Qed.

#[export] Instance bytes_canonical : Canonical bytes fits_u64.
Proof.
  intros s v rest Hd. cbn in Hd. unfold bytes_decode in Hd. inv_ok.
  match goal with H : c_dec_top _ _ = _ |- _ => apply varint_decode_ok in H as [Hv ->] end.
  unfold urange in Hv.
  match goal with H : read_bytes_from_finite_reader _ _ _ = _ |- _ =>
    rewrite read_bytes_eq in H by lia; apply read_slice_ok in H as [-> Hl]; [|lia] end.
  assert (fits_u64 v) by (unfold fits_u64; lia). split; [done|].
  eexists. split; [by apply bytes_encodes|]. by rewrite Hl, app_assoc.
Qed.

#[export] Instance bytes_len : EncodeLen bytes.
Proof.
  intros v n bs H. cbn [c_enc bytes finite_codec] in H.
  unfold consensus_encode_with_size, emit_slice in H. inv_ok.
  match goal with H : c_enc varint _ = _ |- _ => apply encode_len in H end.
  rewrite !length_app. cbn. lia.
Qed.

(** ** Typed vectors *)

Definition vec_wf {A} (wf : A → Prop) (xs : list A) : Prop :=
  Forall wf xs ∧ Z.of_nat (length xs) < 2 ^ 64.

#[export] Instance vec_roundtrip {A} (c : codec A) wf `{!RoundTrip c wf} :
  RoundTrip (vec c) (vec_wf wf).
Proof.
  intros xs [Hwf Hl]. assert (urange 64 (Z.of_nat (length xs))) as Hu by (unfold urange; lia).
  destruct (w_for_encodes c wf xs (varint_size (Z.of_nat (length xs))) Hwf) as (bs & He & Hd).
  exists (varint_bytes (Z.of_nat (length xs)) ++ bs). split.
  - apply encodes_intro with (n := varint_size (Z.of_nat (length xs)) + Z.of_nat (length bs)).
    + cbn [c_enc vec finite_codec]. unfold vec_encode. eapply w_bind_of; [|exact He].
      apply (w_add_of 0). by apply varint_encode_eq.
    + rewrite length_app, Nat2Z.inj_add, length_varint_bytes. done.
  - intros rest. cbn [c_dec vec finite_codec]. unfold vec_decode, rd_bind at 1.
    rewrite <- app_assoc. cbn [c_dec varint fixed_codec]. rewrite varint_decode_app by done.
    rewrite rd_for_nat, Nat2Z.id. apply Hd.
Qed.

#[export] Instance vec_canonical {A} (c : codec A) wf `{!Canonical c wf} :
  Canonical (vec c) (vec_wf wf).
Proof.
  intros s xs rest Hd. cbn [c_dec vec finite_codec] in Hd. unfold vec_decode in Hd.
  apply rd_bind_ok in Hd as (n & s' & Hn & Hd). cbn [c_dec varint fixed_codec] in Hn.
  apply varint_decode_ok in Hn as [Hn ->]. rewrite rd_for_nat in Hd.
  destruct (nat_loop_canonical c wf _ _ _ _ _ (varint_size n) Hd) as (ys & bs & -> & Hl & Hwf & -> & He).
  assert (Z.of_nat (length ys) = n) as <- by (unfold urange in Hn; lia).
  cbn [app]. split; [split; [done|unfold urange in Hn; lia]|].
  exists (varint_bytes (Z.of_nat (length ys)) ++ bs). rewrite app_assoc. split; [|done].
  apply encodes_intro with (n := varint_size (Z.of_nat (length ys)) + Z.of_nat (length bs)).
  - cbn [c_enc vec finite_codec]. unfold vec_encode. eapply w_bind_of; [|exact He].
    apply (w_add_of 0). by apply varint_encode_eq.
  - rewrite length_app, Nat2Z.inj_add, length_varint_bytes. done.
Qed.

#[export] Instance vec_len {A} (c : codec A) `{!EncodeLen c} : EncodeLen (vec c).
Proof.
  intros xs n bs H. cbn [c_enc vec finite_codec] in H. unfold vec_encode in H. inv_ok.
  match goal with H : c_enc varint _ = _ |- _ => apply encode_len in H end.
  match goal with H : w_for _ _ _ = _ |- _ => apply w_for_len in H; [|done] end.
  rewrite length_app. lia.
Qed.

(** ** Sequences of fields

    An encoder is a chain of [len += field.consensus_encode(w)?] steps and its
    decoder a chain of reads.  [wseg W bs]: the step [W] adds [bs] to the output
    and its length to [len].  [seg W R x]: moreover [R] reads [x] off [bs]. *)

Definition wseg (W : Z → wr Z) (bs : list byte) : Prop :=
  ∀ len, W len = Ok (len + Z.of_nat (length bs), bs).

Definition seg {A} (W : Z → wr Z) (R : rd A) (x : A) : Prop :=
  ∃ bs, wseg W bs ∧ reads R bs x.

(** [wlen W]: a successful [W] adds to [len] the length of what it wrote. *)
Definition wlen (W : Z → wr Z) : Prop :=
  ∀ len n bs, W len = Ok (n, bs) → n = len + Z.of_nat (length bs).

(** A [consensus_decode] that is the finite-reader method itself. *)
Class TopIsFinite {A} (c : codec A) : Prop := top_is_finite : c_dec_top c = c_dec c.

#[export] Instance fixed_top {A} enc (dec : rd A) : TopIsFinite (fixed_codec enc dec).
Proof. done. Qed.
#[export] Instance u8_top : TopIsFinite u8. Proof. done. Qed.
#[export] Instance uint_top n : TopIsFinite (uint n). Proof. done. Qed.
#[export] Instance sint_top n : TopIsFinite (sint n). Proof. done. Qed.
#[export] Instance array_top n : TopIsFinite (array n). Proof. done. Qed.
#[export] Instance varint_top : TopIsFinite varint. Proof. done. Qed.

Lemma wseg_ret : wseg (λ len, w_ret len) [].
Proof. intros len. by rewrite Z.add_0_r. Qed.

Lemma wseg_bind W K b1 b2 :
  wseg W b1 → wseg K b2 → wseg (λ len, let+ len := W len in K len) (b1 ++ b2).
Proof.
  intros H1 H2 len. rewrite length_app, Nat2Z.inj_add, Z.add_assoc.
  eapply w_bind_of; [apply H1|apply H2].
Qed.

Lemma wseg_enc {A} (c : codec A) x bs :
  encodes c x bs → wseg (λ len, w_add len (c_enc c x)) bs.
Proof. intros He len. by apply w_add_of. Qed.

Lemma wseg_encodes {A} (c : codec A) x W bs :
  c_enc c x = W 0 → wseg W bs → encodes c x bs.
Proof. intros He Hw. unfold encodes. by rewrite He, Hw. Qed.

Lemma seg_ret {A} (x : A) : seg (λ len, w_ret len) (rd_ret x) x.
Proof. exists []. split; [apply wseg_ret|]. by intros rest. Qed.

Lemma seg_bind {A B} W K (R : rd A) (R' : A → rd B) x y :
  seg W R x → seg K (R' x) y → seg (λ len, let+ len := W len in K len) (rd_bind R R') y.
Proof.
  intros (b1 & H1 & R1) (b2 & H2 & R2). exists (b1 ++ b2). split; [by apply wseg_bind|].
  intros rest. unfold rd_bind. by rewrite <- app_assoc, R1, R2.
Qed.

Lemma seg_ext {A} W W' (R : rd A) x : (∀ len, W len = W' len) → seg W' R x → seg W R x.
Proof. intros HW (b & Hw & Hr). exists b. split; [|done]. intros len. rewrite HW. apply Hw. Qed.

Lemma wseg_ext W W' bs : (∀ len, W len = W' len) → wseg W' bs → wseg W bs.
Proof. intros HW Hw len. rewrite HW. apply Hw. Qed.

Lemma seg_map {A B} W (R : rd A) (f : A → B) x :
  seg W R x → seg W (rd_bind R (λ a, rd_ret (f a))) (f x).
Proof.
  intros (b & H & Hr). exists b. split; [done|]. intros rest. unfold rd_bind. by rewrite Hr.
Qed.

(** The last field of an encoder that ends with it. *)
Lemma seg_last {A B} W (R : rd A) (R' : A → rd B) x y :
  seg W R x → (∀ rest, R' x rest = Ok (y, rest)) → seg W (rd_bind R R') y.
Proof.
  intros (b & Hw & Hr) HR. exists b. split; [done|]. intros rest. unfold rd_bind. by rewrite Hr.
Qed.

Lemma seg_enc {A} (c : codec A) (wf : A → Prop) `{!RoundTrip c wf} x :
  wf x → seg (λ len, w_add len (c_enc c x)) (c_dec c) x.
Proof.
  intros Hx. destruct (roundtrip x Hx) as (bs & He & Hr). exists bs.
  split; [by apply wseg_enc|done].
Qed.

Lemma seg_enc_top {A} (c : codec A) (wf : A → Prop) `{!RoundTrip c wf, !TopIsFinite c} x :
  wf x → seg (λ len, w_add len (c_enc c x)) (c_dec_top c) x.
Proof. rewrite top_is_finite. apply seg_enc, _. Qed.

Lemma seg_roundtrip {A} (c : codec A) W x :
  c_enc c x = W 0 → seg W (c_dec c) x → ∃ bs, encodes c x bs ∧ reads (c_dec c) bs x.
Proof. intros He (bs & Hw & Hr). exists bs. split; [by eapply wseg_encodes|done]. Qed.

Lemma canonical_top {A} (c : codec A) (wf : A → Prop) `{!Canonical c wf, !TopIsFinite c} s x rest :
  c_dec_top c s = Ok (x, rest) → wf x ∧ ∃ bs, encodes c x bs ∧ s = bs ++ rest.
Proof. rewrite top_is_finite. apply canonical. Qed.

Lemma wlen_ret : wlen (λ len, w_ret len).
Proof. intros len n bs [= <- <-]. cbn. lia. Qed.

Lemma wlen_bind W K : wlen W → wlen K → wlen (λ len, let+ len := W len in K len).
Proof.
  intros H1 H2 len n bs H. inv_ok.
  match goal with H : W _ = _ |- _ => apply H1 in H end.
  match goal with H : K _ = _ |- _ => apply H2 in H end.
  rewrite length_app. lia.
Qed.

Lemma wlen_enc {A} (c : codec A) `{!EncodeLen c} x : wlen (λ len, w_add len (c_enc c x)).
Proof. intros len n bs H. inv_ok. match goal with H : c_enc _ _ = _ |- _ => apply encode_len in H end. lia. Qed.

Lemma wlen_if (b : bool) W K : wlen W → wlen K → wlen (λ len, if b then W len else K len).
Proof. by destruct b. Qed.

Lemma wlen_for {A} (c : codec A) `{!EncodeLen c} xs :
  wlen (λ len, w_for (λ len x, w_add len (c_enc c x)) len xs).
Proof. intros len n bs. by apply w_for_len. Qed.

Lemma wlen_len {A} (c : codec A) W x n bs :
  c_enc c x = W 0 → wlen W → c_enc c x = Ok (n, bs) → n = Z.of_nat (length bs).
Proof. intros He HW Hn. rewrite He in Hn. apply HW in Hn. lia. Qed.

(** The first step of an encoder starts from [len = 0]. *)
Lemma seg_start {A} (c : codec A) w K x :
  c_enc c x = w_bind (w_add 0 w) K → seg (λ len, w_bind (w_add len w) K) (c_dec c) x →
  ∃ bs, encodes c x bs ∧ reads (c_dec c) bs x.
Proof. intros He. by apply seg_roundtrip. Qed.

Lemma wseg_start {A} (c : codec A) w K x bs :
  c_enc c x = w_bind (w_add 0 w) K → wseg (λ len, w_bind (w_add len w) K) bs → encodes c x bs.
Proof. intros He. by apply wseg_encodes. Qed.

Lemma wlen_start {A} (c : codec A) w K x n bs :
  c_enc c x = w_bind (w_add 0 w) K → wlen (λ len, w_bind (w_add len w) K) →
  c_enc c x = Ok (n, bs) → n = Z.of_nat (length bs).
Proof. intros He. by apply wlen_len. Qed.

Lemma seg_if {A} (b : bool) W1 W2 (R1 R2 : rd A) x :
  (b = true → seg W1 R1 x) → (b = false → seg W2 R2 x) →
  seg (λ len, if b then W1 len else W2 len) (if b then R1 else R2) x.
Proof. destruct b; auto. Qed.

Lemma wseg_if (b : bool) W1 W2 bs :
  (b = true → wseg W1 bs) → (b = false → wseg W2 bs) →
  wseg (λ len, if b then W1 len else W2 len) bs.
Proof. destruct b; auto. Qed.

(** A typed vector encoded in place, its count and elements added to [len]. *)
Lemma w_for_shift {A} (c : codec A) xs len :
  w_for (λ len x, w_add len (c_enc c x)) len xs
  = w_add len (w_for (λ len x, w_add len (c_enc c x)) 0 xs).
Proof.
  revert len. induction xs as [|x xs IH]; intros len.
  - unfold w_add. cbn. by rewrite Z.add_0_r.
  - cbn [w_for]. unfold w_add at 1 4. destruct (c_enc c x) as [[k b]|e]; [|done]. cbn.
    rewrite app_nil_r, IH, (IH (0 + k)). unfold w_add, w_ret.
    destruct (w_for _ 0 xs) as [[n bs]|e]; [|done]. cbn.
    rewrite !app_nil_r, Z.add_0_l, Z.add_assoc. done.
Qed.

Definition vec_in_place {A} (c : codec A) (xs : list A) (len : Z) : wr Z :=
  let+ len := w_add len (c_enc varint (Z.of_nat (length xs))) in
  w_for (λ len x, w_add len (c_enc c x)) len xs.

Lemma vec_in_place_eq {A} (c : codec A) xs len :
  vec_in_place c xs len = w_add len (c_enc (vec c) xs).
Proof.
  unfold vec_in_place. cbn [c_enc vec finite_codec]. unfold vec_encode, w_add at 1 3.
  destruct (c_enc varint _) as [[k b]|e]; [|done]. cbn.
  rewrite app_nil_r, w_for_shift, (w_for_shift c xs (0 + k)). unfold w_add, w_ret.
  destruct (w_for _ 0 xs) as [[n bs]|e]; [|done]. cbn.
  by rewrite !app_nil_r, Z.add_0_l, Z.add_assoc.
Qed.

Lemma wlen_vec_in_place {A} (c : codec A) `{!EncodeLen c} xs : wlen (vec_in_place c xs).
Proof. intros len n bs. rewrite vec_in_place_eq. apply wlen_enc, _. Qed.

(** [seg_chain]: proves that a decoder reads what the encoder of the same fields
    writes, from the round trips of the fields. *)
Create HintDb seg.
#[export] Hint Resolve seg_ret wseg_ret wseg_enc : seg.
Ltac seg_field := first
  [ assumption
  | eapply seg_enc_top; [apply _|apply _|assumption]
  | eapply seg_enc; [apply _|assumption]
  | solve [eauto with seg] ].
Ltac seg_chain :=
  repeat (eapply seg_bind; [seg_field|]); try (apply seg_ret).
Ltac seg_roundtrip := eapply seg_start; [reflexivity|]; seg_chain.

(** What a field decoder that succeeded says of the value it read ([P]) and of
    the bytes it consumed ([Q]). *)
Class Parses {A} (R : rd A) (P : A → Prop) (Q : A → list byte → Prop) : Prop :=
  parses s x rest : R s = Ok (x, rest) → P x ∧ ∃ bs, Q x bs ∧ s = bs ++ rest.

#[export] Instance parses_dec {A} (c : codec A) wf `{!Canonical c wf} :
  Parses (c_dec c) wf (encodes c).
Proof. intros s x rest. apply canonical. Qed.
#[export] Instance parses_top {A} (c : codec A) wf `{!Canonical c wf, !TopIsFinite c} :
  Parses (c_dec_top c) wf (encodes c).
Proof. rewrite top_is_finite. apply _. Qed.

(** A field read through the [Take] adapter of a finite codec. *)
Lemma parses_take {A} (R : rd A) P Q limit s x rest `{!Parses R P Q} :
  0 <= limit → rd_take limit R s = Ok (x, rest) →
  P x ∧ ∃ bs, Q x bs ∧ Z.of_nat (length bs) <= limit ∧ s = bs ++ rest.
Proof.
  intros Hl. unfold rd_take. destruct (R (take (Z.to_nat limit) s)) as [[y s']|] eqn:HR; [|done].
  intros [= -> <-]. apply parses in HR as (HP & bs & HQ & Heq). split; [done|].
  exists bs. split_and!; [done| |].
  - apply (f_equal length) in Heq. rewrite length_app, length_take in Heq. lia.
  - by rewrite app_assoc, <- Heq, take_drop.
Qed.

Lemma seg_take {A} W (R : rd A) x limit :
  (∃ bs, wseg W bs ∧ reads R bs x ∧ Z.of_nat (length bs) <= limit) → seg W (rd_take limit R) x.
Proof. intros (bs & Hw & Hr & Hl). exists bs. split; [done|]. by apply reads_take. Qed.

(** A vector of byte arrays takes its count and the arrays' bytes. *)
Lemma length_vec_array n xs bs :
  Forall (is_array n) xs → encodes (vec (array n)) xs bs →
  Z.of_nat (length bs) = varint_size (Z.of_nat (length xs)) + n * Z.of_nat (length xs).
Proof.
  intros Hxs He. unfold encodes in He. cbn [c_enc vec finite_codec] in He. unfold vec_encode in He.
  apply w_bind_ok in He as (k & b1 & b2 & Hk & He & _). apply w_add_ok in Hk as (k' & Hk' & ->).
  assert (k' = varint_size (Z.of_nat (length xs))) as ->.
  { cbn [c_enc varint fixed_codec] in Hk'. unfold varint_encode, varint_size in *.
    repeat (case_if; try lia); cbn in Hk'; congruence. }
  enough (∀ len m b, w_for (λ len x, w_add len (c_enc (array n) x)) len xs = Ok (m, b) →
    m = len + n * Z.of_nat (length xs)) as H.
  { apply H in He. lia. }
  clear -Hxs. induction Hxs as [|x xs Hx _ IH]; intros len m b.
  - intros [= <- <-]. cbn. lia.
  - cbn [w_for]. intros Hw. inv_ok. cbn in *. inv_ok.
    match goal with H : w_for _ _ _ = _ |- _ => apply IH in H end. unfold is_array in Hx. lia.
Qed.

(** [canonical_fields]: turns every field that was read into its encoding. *)
Ltac canonical_fields :=
  repeat match goal with
  | H : ?R ?s = Ok (_, _) |- _ =>
      eapply (parses (R := R)) in H; destruct H as (? & ? & ? & ->)
  end.

(** [wseg_chain]: the encoder writes the fields' encodings one after the other. *)
Ltac wseg_chain :=
  repeat first
    [ apply wseg_ret
    | eapply wseg_bind; [solve [eauto with seg]|] ].
Ltac canonical_finish :=
  eexists; split; [eapply wseg_start; [reflexivity|]; wseg_chain|];
  rewrite ?app_nil_r, <- ?app_assoc; reflexivity.

(** Proves [wlen] of a chain of steps. *)
Create HintDb wlen.
#[export] Hint Resolve wlen_ret : wlen.
Ltac wlen_chain :=
  repeat first
    [ apply wlen_ret | apply wlen_enc; apply _ | solve [eauto with wlen] | apply wlen_for; apply _
    | apply (wlen_bind (λ len, _)) | apply wlen_if ].

(** ** Properties *)

(** [VarInt] is a bijection between the 64-bit integers and the minimal
    encodings.  Every [u64] is written in [size()] bytes, is read back from them
    whatever follows, and no other byte string is read as that value: the
    non-minimal forms are refused. *)
Theorem varint_minimal_encoding v :
  urange 64 v →
  ∃ bs, varint_encode v = Ok (varint_size v, bs) ∧ Z.of_nat (length bs) = varint_size v ∧
    ∀ s rest, varint_decode s = Ok (v, rest) ↔ s = bs ++ rest.
Proof.
  intros Hv. exists (varint_bytes v).
  split_and!; [by apply varint_encode_eq|apply length_varint_bytes|].
  intros s rest. rewrite varint_decode_ok. tauto.
Qed.

Lemma varint_minimal_encoding_witness :
  ∃ bs, varint_encode 253 = Ok (varint_size 253, bs) ∧ Z.of_nat (length bs) = varint_size 253 ∧
    ∀ s rest, varint_decode s = Ok (253, rest) ↔ s = bs ++ rest.
Proof. apply varint_minimal_encoding. unfold urange. lia. Defined.

Example varint_non_minimal : varint_decode [xfd; x01; x00] = Err NonMinimalVarInt.
Proof. reflexivity. Qed.

(** The chunked reader, which never allocates more than one chunk ahead of
    the data, is one [read_exact] of the whole length: its loop ends within the
    fuel, it returns the next [len] bytes, and it fails with [UnexpectedEof]
    exactly when the stream is shorter than that. *)
Theorem read_bytes_is_read_exact len chunk_size s :
  0 < chunk_size → 0 <= len →
  read_bytes_from_finite_reader len chunk_size s
  = rd_exact (Io (err_of_kind UnexpectedEof)) len s.
Proof. intros. by apply read_bytes_eq. Qed.

Lemma read_bytes_is_read_exact_witness :
  read_bytes_from_finite_reader 5 2 [x01; x02; x03; x04; x05; x06]
  = rd_exact (Io (err_of_kind UnexpectedEof)) 5 [x01; x02; x03; x04; x05; x06].
Proof. apply read_bytes_is_read_exact; lia. Defined.

(** For any element codec that round-trips and is canonical, [Vec] of it is
    deserialised from a byte string exactly when the string is the serialisation
    of the vector; in particular [deserialize] inverts [serialize], and a
    serialisation followed by more bytes is refused. *)
Theorem vec_deserialize_iff {A} (c : codec A) (wf : A → Prop)
    `{!RoundTrip c wf, !Canonical c wf} xs bs :
  deserialize (vec c) bs = Ok xs ↔
  (Forall wf xs ∧ Z.of_nat (length xs) < 2 ^ 64) ∧ serialize (vec c) xs = Ok bs.
Proof.
  split.
  - intros Hd. by apply (serialize_deserialize (vec c) (vec_wf wf)).
  - intros [Hwf Hs]. by apply (deserialize_serialize (vec c) (vec_wf wf)).
Qed.

Lemma vec_deserialize_iff_witness :
  deserialize (vec u32) (x02 :: le_split 4 7 ++ le_split 4 9) = Ok [7; 9].
Proof.
  apply (vec_deserialize_iff u32 (urange 32)). split; [|vm_compute; done].
  split; [|cbn; lia]. repeat constructor; unfold urange; lia.
Defined.

(** A [CheckedData] is decoded exactly from a 32-bit length, the first four
    bytes of the double SHA-256 of the data, and the data: what [new] builds and
    [consensus_encode] writes is read back, and any other checksum is refused
    with the expected and the actual one. *)
Theorem checked_data_decode_spec s len (cs d rest : list byte) :
  urange 32 len → length cs = 4%nat → Z.of_nat (length d) = len →
  s = le_split 4 len ++ cs ++ d ++ rest →
  checked_data_decode s
  = if decide (cs = sha2_checksum d) then Ok (checked_data_new d, rest)
    else Err (InvalidChecksum (sha2_checksum d) cs).
Proof.
  intros Hlen Hcs Hd ->. unfold checked_data_decode, rd_bind. cbn [c_dec u32 uint fixed_codec array].
  rewrite read_uint_app by done.
  unfold read_slice at 1. rewrite rd_exact_app by (rewrite Hcs; done).
  unfold urange in Hlen. rewrite read_bytes_eq by (unfold MAX_VEC_SIZE; lia).
  unfold read_slice. rewrite rd_exact_app by done.
  destruct (decide (cs = sha2_checksum d)) as [->|Hne].
  - by rewrite decide_False by (intros Hn; by apply Hn).
  - by rewrite decide_True by congruence.
Qed.

Lemma checked_data_decode_spec_witness :
  checked_data_decode (le_split 4 5 ++ [x8d; xc9; xe1; x62] ++ [x01; x02; x03; x04; x05])
  = if decide ([x8d; xc9; xe1; x62] = sha2_checksum [x01; x02; x03; x04; x05])
    then Ok (checked_data_new [x01; x02; x03; x04; x05], [])
    else Err (InvalidChecksum (sha2_checksum [x01; x02; x03; x04; x05]) [x8d; xc9; xe1; x62]).
Proof.
  apply (checked_data_decode_spec _ 5 _ [x01; x02; x03; x04; x05] []);
    [unfold urange; lia|done|done|done].
Defined.
