(* ===== verification/Mimblewimble.v ===== *)
(** MWEB wire types ([src/litecoin/src/blockdata/mimblewimble.rs]): the
    base-128 varints of amounts and MMR sizes, peg-out coins, kernels, inputs,
    outputs, transaction bodies and transactions, with their codecs.
    [secp256k1::PublicKey] is outside the repository and enters as a class. *)

From Stdlib Require Import String ZArith Lia.
From stdpp Require Import base list.
From Stdlib Require Import Init.Byte.
From coqutil Require Import Byte Word.LittleEndianList.
From S2P Require Import Prelude Io Encode.

(** ** Base-128 varints

    [read_amount]/[write_amount] (on [i64]) and [read_compact_varint]/
    [write_compact_varint] (on [u64]) are the same code at two types; [MAX] is
    the type's greatest value. *)

(** The reading loop: [u8::consensus_decode] takes the next byte. *)
Fixpoint read_varint7 (MAX n : Z) (s : list byte) : result Error (Z * list byte) :=
  match s with
  | [] => Err (Io (err_of_kind UnexpectedEof))
  | ch :: s =>
      let ch_data := byte.unsigned ch in
      if Z.shiftr MAX 7 <? n then Err (ParseFailed "MWEB varint overflow")
      else
        let n := Z.lor (Z.shiftl n 7) (Z.land ch_data 0x7f) in
        if negb (Z.land ch_data 0x80 =? 0) then
          if MAX <? n + 1 then Err (ParseFailed "MWEB varint overflow")
          else read_varint7 MAX (n + 1) s
        else Ok (n, s)
  end.

(** The writing loop: the bytes of [tmp], least significant first; [None] is
    the panic of an index outside [tmp: [u8; 10]]. *)
Fixpoint write_varint7_loop (room : nat) (n len : Z) : option (list byte) :=
  match room with
  | O => None
  | S room =>
      let a := Z.land n 0x7f in
      let b := if negb (len =? 0) then 0x80 else 0x00 in
      let tmp_len := byte.of_Z (Z.lor a b) in
      if n <=? 0x7f then Some [tmp_len]
      else match write_varint7_loop room (Z.shiftr n 7 - 1) (len + 1) with
           | Some tmp => Some (tmp_len :: tmp)
           | None => None
           end
  end.

Definition write_varint7 (v : Z) : wr Z :=
  match write_varint7_loop 10 v 0 with
  | Some tmp =>
      let+ _ := w_for (λ _ b, let+ _ := c_enc u8 (byte.unsigned b) in w_ret tt) tt (rev tmp) in
      w_ret (Z.of_nat (length tmp))
  | None => w_err index_panic
  end.

Definition read_amount : rd Z := read_varint7 I64_MAX 0.
Definition write_amount (amount : Z) : wr Z := write_varint7 amount.
Definition read_compact_varint : rd Z := read_varint7 U64_MAX 0.
Definition write_compact_varint (value : Z) : wr Z := write_varint7 value.

(** ** Public keys *)

Class PublicKeys := {
  PublicKey : Type;
  PublicKey_from_slice : list byte → option PublicKey;
  PublicKey_serialize : PublicKey → list byte }.

(** The documented behaviour of the compressed encoding: 33 bytes, parsed back
    to the key, and the only 33 bytes that parse to it. *)
Class PublicKeyLaws `{PublicKeys} : Prop := {
  pk_length k : length (PublicKey_serialize k) = 33%nat;
  pk_parse_serialize k : PublicKey_from_slice (PublicKey_serialize k) = Some k;
  pk_serialize_parse bs k :
    length bs = 33%nat → PublicKey_from_slice bs = Some k → PublicKey_serialize k = bs }.

Definition read_array_len : rd Z := c_dec_top varint.

Definition FeeFeatureBit : Z := 0x01.
Definition PeginFeatureBit : Z := 0x02.
Definition PegoutFeatureBit : Z := 0x04.
Definition HeightLockFeatureBit : Z := 0x08.
Definition StealthExcessFeatureBit : Z := 0x10.
Definition KernelExtraDataFeatureBit : Z := 0x20.
Definition StandardFieldsFeatureBit : Z := 0x01.
Definition OutputExtraDataFeatureBit : Z := 0x02.

(** [features & bit != 0] *)
Definition has_bit (features bit : Z) : bool := negb (Z.land features bit =? 0).

(** ** Peg-out coins *)

Record PegOutCoin := { amount : Z; script_pub_key : list byte }.

Definition pegout_decode : rd PegOutCoin :=
  let! amount := read_amount in
  let! script_pub_key := c_dec bytes in
  match script_pub_key with
  | [] => rd_err (ParseFailed "Pegout scriptPubKey must not be empty")
  | _ => rd_ret {| amount := amount; script_pub_key := script_pub_key |}
  end.

Definition pegout_encode (p : PegOutCoin) : wr Z :=
  let len := 0 in
  let+ len := w_add len (write_amount (amount p)) in
  let+ len := w_add len (c_enc bytes (script_pub_key p)) in
  w_ret len.

Definition pegout_codec : codec PegOutCoin := finite_codec pegout_encode pegout_decode.

Section Keyed.
Context `{PublicKeys}.

(** [let bytes: [u8; 33] = decode(r)?; PublicKey::from_slice(&bytes).map_err(..)?] *)
Definition read_public_key (what : string) : rd PublicKey :=
  let! bytes := c_dec_top (array 33) in
  rd_lift (ok_or (PublicKey_from_slice bytes) (ParseFailed what)).

(** [key.serialize().consensus_encode(w)] *)
Definition write_public_key (k : PublicKey) : wr Z := c_enc (array 33) (PublicKey_serialize k).

(** [if features & bit != 0 { Some(m?) } else { None }] *)
Definition read_if {A} (b : bool) (m : rd A) : rd (option A) :=
  if b then let! x := m in rd_ret (Some x) else rd_ret None.

(** [if features & bit != 0 { Vec::<u8>::decode(r)? } else { Vec::new() }] *)
Definition read_extra (b : bool) : rd (list byte) := if b then c_dec bytes else rd_ret [].

(** ** Kernels *)

Record Kernel := {
  k_features : Z; k_fee : option Z; k_pegin : option Z; k_pegouts : list PegOutCoin;
  k_lock_height : option Z; k_stealth_excess : option PublicKey;
  k_extra_data : list byte; k_excess : list byte; k_signature : list byte }.

(** [let n = read_array_len(r)?; for _ in 0..n { v.push(decode(r)?) }] *)
Definition read_pegouts (b : bool) : rd (list PegOutCoin) :=
  if b then
    let! n := read_array_len in
    rd_for n (λ pegouts, let! x := c_dec pegout_codec in rd_ret (pegouts ++ [x])) []
  else rd_ret [].

Definition read_lock_height (b : bool) : rd (option Z) :=
  if b then
    let! raw := read_amount in
    if (raw <? 0) || (U32_MAX <? raw)
    then rd_err (ParseFailed "Kernel lock_height out of range")
    else rd_ret (Some (uwrap 32 raw))
  else rd_ret None.

Definition kernel_decode : rd Kernel :=
  let! features := c_dec_top u8 in
  let! fee := read_if (has_bit features FeeFeatureBit) read_amount in
  let! pegin := read_if (has_bit features PeginFeatureBit) read_amount in
  let! pegouts := read_pegouts (has_bit features PegoutFeatureBit) in
  let! lock_height := read_lock_height (has_bit features HeightLockFeatureBit) in
  let! stealth_excess :=
    read_if (has_bit features StealthExcessFeatureBit)
      (read_public_key "invalid kernel stealth excess") in
  let! extra_data := read_extra (has_bit features KernelExtraDataFeatureBit) in
  let! excess := c_dec_top (array 33) in
  let! signature := c_dec_top (array 64) in
  rd_ret {| k_features := features; k_fee := fee; k_pegin := pegin; k_pegouts := pegouts;
            k_lock_height := lock_height; k_stealth_excess := stealth_excess;
            k_extra_data := extra_data; k_excess := excess; k_signature := signature |}.

Definition missing (what : string) : io_error := IoError Other (Some what).

(** [if features & bit != 0 { let x = opt.ok_or_else(..)?; len += write(x)?; }] *)
Definition write_if {A} (b : bool) (o : option A) (what : string) (write : A → wr Z) (len : Z) : wr Z :=
  if b then
    let+ x := w_lift (ok_or o (missing what)) in
    w_add len (write x)
  else w_ret len.

Definition write_pegouts (b : bool) (pegouts : list PegOutCoin) (len : Z) : wr Z :=
  if b then
    let+ len := w_add len (c_enc varint (Z.of_nat (length pegouts))) in
    w_for (λ len p, w_add len (c_enc pegout_codec p)) len pegouts
  else w_ret len.

(** [if features & bit != 0 { len += extra_data.consensus_encode(w)?; }] *)
Definition write_extra (b : bool) (extra : list byte) (len : Z) : wr Z :=
  if b then w_add len (c_enc bytes extra) else w_ret len.

Definition kernel_encode (k : Kernel) : wr Z :=
  let len := 0 in
  let+ len := w_add len (c_enc u8 (k_features k)) in
  let+ len := write_if (has_bit (k_features k) FeeFeatureBit) (k_fee k)
                "Kernel.fee bit set but None" write_amount len in
  let+ len := write_if (has_bit (k_features k) PeginFeatureBit) (k_pegin k)
                "Kernel.pegin bit set but None" write_amount len in
  let+ len := write_pegouts (has_bit (k_features k) PegoutFeatureBit) (k_pegouts k) len in
  let+ len := write_if (has_bit (k_features k) HeightLockFeatureBit) (k_lock_height k)
                "Kernel.lock_height bit set but None" write_amount len in
  let+ len := write_if (has_bit (k_features k) StealthExcessFeatureBit) (k_stealth_excess k)
                "Kernel.stealth_excess bit set but None" write_public_key len in
  let+ len := write_extra (has_bit (k_features k) KernelExtraDataFeatureBit) (k_extra_data k) len in
  let+ len := w_add len (c_enc (array 33) (k_excess k)) in
  let+ len := w_add len (c_enc (array 64) (k_signature k)) in
  w_ret len.

Definition kernel_codec : codec Kernel := finite_codec kernel_encode kernel_decode.

(** ** Inputs *)

Record Input := {
  i_features : Z; i_output_id : list byte; i_commitment : list byte;
  i_input_public_key : option PublicKey; i_output_public_key : PublicKey;
  i_extra_data : list byte; i_signature : list byte }.

Definition input_decode : rd Input :=
  let! features := c_dec_top u8 in
  let! output_id := c_dec_top (array 32) in
  let! commitment := c_dec_top (array 33) in
  let! output_public_key := read_public_key "invalid input output_public_key" in
  let! input_public_key :=
    read_if (has_bit features 1) (read_public_key "invalid input input_public_key") in
  let! extra_data := read_extra (has_bit features 2) in
  let! signature := c_dec_top (array 64) in
  rd_ret {| i_features := features; i_output_id := output_id; i_commitment := commitment;
            i_input_public_key := input_public_key; i_output_public_key := output_public_key;
            i_extra_data := extra_data; i_signature := signature |}.

Definition input_encode (i : Input) : wr Z :=
  let len := 0 in
  let+ len := w_add len (c_enc u8 (i_features i)) in
  let+ len := w_add len (c_enc (array 32) (i_output_id i)) in
  let+ len := w_add len (c_enc (array 33) (i_commitment i)) in
  let+ len := w_add len (write_public_key (i_output_public_key i)) in
  let+ len := write_if (has_bit (i_features i) 1) (i_input_public_key i)
                "Input.input_public_key bit set but None" write_public_key len in
  let+ len := write_extra (has_bit (i_features i) 2) (i_extra_data i) len in
  let+ len := w_add len (c_enc (array 64) (i_signature i)) in
  w_ret len.

Definition input_codec : codec Input := finite_codec input_encode input_decode.

(** ** Outputs *)

Record OutputMessageStandardFields := {
  key_exchange_pubkey : PublicKey; view_tag : Z; masked_value : Z; masked_nonce : list byte }.

Record OutputMessage := {
  m_features : Z; m_standard_fields : option OutputMessageStandardFields;
  m_extra_data : list byte }.

Record Output := {
  o_commitment : list byte; o_sender_public_key : PublicKey; o_receiver_public_key : PublicKey;
  o_message : OutputMessage; o_range_proof : list byte; o_signature : list byte }.

Definition standard_fields_decode : rd OutputMessageStandardFields :=
  let! key := read_public_key "invalid output key_exchange_pubkey" in
  let! tag := c_dec_top u8 in
  let! value := c_dec_top u64 in
  let! nonce := c_dec_top (array 16) in
  rd_ret {| key_exchange_pubkey := key; view_tag := tag; masked_value := value;
            masked_nonce := nonce |}.

Definition message_decode : rd OutputMessage :=
  let! features := c_dec_top u8 in
  let! standard_fields :=
    read_if (has_bit features StandardFieldsFeatureBit) standard_fields_decode in
  let! extra_data := read_extra (has_bit features OutputExtraDataFeatureBit) in
  rd_ret {| m_features := features; m_standard_fields := standard_fields;
            m_extra_data := extra_data |}.

Definition standard_fields_encode (fields : OutputMessageStandardFields) (len : Z) : wr Z :=
  let+ len := w_add len (write_public_key (key_exchange_pubkey fields)) in
  let+ len := w_add len (c_enc u8 (view_tag fields)) in
  let+ len := w_add len (c_enc u64 (masked_value fields)) in
  let+ len := w_add len (c_enc (array 16) (masked_nonce fields)) in
  w_ret len.

Definition message_encode (m : OutputMessage) : wr Z :=
  let len := 0 in
  let+ len := w_add len (c_enc u8 (m_features m)) in
  let+ len :=
    (match m_standard_fields m with
     | Some fields => standard_fields_encode fields len
     | None => w_ret len
     end) in
  let+ len := write_extra (has_bit (m_features m) OutputExtraDataFeatureBit) (m_extra_data m) len in
  w_ret len.

Definition message_codec : codec OutputMessage := finite_codec message_encode message_decode.

Definition output_decode : rd Output :=
  let! commitment := c_dec_top (array 33) in
  let! sender := read_public_key "invalid output sender_public_key" in
  let! receiver := read_public_key "invalid output receiver_public_key" in
  let! message := c_dec message_codec in
  let! range_proof := c_dec_top (array 675) in
  let! signature := c_dec_top (array 64) in
  rd_ret {| o_commitment := commitment; o_sender_public_key := sender;
            o_receiver_public_key := receiver; o_message := message;
            o_range_proof := range_proof; o_signature := signature |}.

Definition output_encode (o : Output) : wr Z :=
  let len := 0 in
  let+ len := w_add len (c_enc (array 33) (o_commitment o)) in
  let+ len := w_add len (write_public_key (o_sender_public_key o)) in
  let+ len := w_add len (write_public_key (o_receiver_public_key o)) in
  let+ len := w_add len (c_enc message_codec (o_message o)) in
  let+ len := w_add len (c_enc (array 675) (o_range_proof o)) in
  let+ len := w_add len (c_enc (array 64) (o_signature o)) in
  w_ret len.

Definition output_codec : codec Output := finite_codec output_encode output_decode.

(** ** Bodies and transactions *)

Record TxBody := { b_inputs : list Input; b_outputs : list Output; b_kernels : list Kernel }.

Definition body_decode : rd TxBody :=
  let! inputs := c_dec (vec input_codec) in
  let! outputs := c_dec (vec output_codec) in
  let! kernels := c_dec (vec kernel_codec) in
  rd_ret {| b_inputs := inputs; b_outputs := outputs; b_kernels := kernels |}.

Definition body_encode (b : TxBody) : wr Z :=
  let len := 0 in
  let+ len := w_add len (c_enc (vec input_codec) (b_inputs b)) in
  let+ len := w_add len (c_enc (vec output_codec) (b_outputs b)) in
  let+ len := w_add len (c_enc (vec kernel_codec) (b_kernels b)) in
  w_ret len.

Definition body_codec : codec TxBody := finite_codec body_encode body_decode.

(** [mimblewimble::Transaction] *)
Record MwTransaction := { kernel_offset : list byte; stealth_offset : list byte; body : TxBody }.

Definition mw_tx_decode : rd MwTransaction :=
  let! kernel_offset := c_dec_top (array 32) in
  let! stealth_offset := c_dec_top (array 32) in
  let! body := c_dec body_codec in
  match b_kernels body with
  | [] => rd_err (ParseFailed "MWEB transaction must contain at least one kernel")
  | _ => rd_ret {| kernel_offset := kernel_offset; stealth_offset := stealth_offset;
                   body := body |}
  end.

Definition mw_tx_encode (t : MwTransaction) : wr Z :=
  let len := 0 in
  let+ len := w_add len (c_enc (array 32) (kernel_offset t)) in
  let+ len := w_add len (c_enc (array 32) (stealth_offset t)) in
  let+ len := w_add len (c_enc body_codec (body t)) in
  w_ret len.

Definition mw_tx_codec : codec MwTransaction := finite_codec mw_tx_encode mw_tx_decode.

End Keyed.

(** ** The varints are a bijection *)

Section Varint7.
Context (MAX : Z) (HMAX : 127 <= MAX < 2 ^ 64) (Hlow : MAX mod 128 = 127).

Lemma land_mod128_bit7 n : Z.land (n mod 128) 0x80 = 0.
Proof.
  change 0x80 with (2 ^ 7). change 128 with (2 ^ 7). apply Z.eqb_eq.
  rewrite land_pow2_bit by lia. by rewrite Z.mod_pow2_bits_high by lia.
Qed.

(** The digit byte of [n], with or without the continuation flag. *)
Lemma digit_byte n (flag : bool) :
  0 <= n →
  let b := byte.unsigned (byte.of_Z (Z.lor (Z.land n 0x7f) (if flag then 0x80 else 0x00))) in
  Z.land b 0x7f = n mod 128 ∧ negb (Z.land b 0x80 =? 0) = flag.
Proof.
  intros Hn. change 0x7f with (Z.ones 7). rewrite Z.land_ones by lia. change (2 ^ 7) with 128.
  pose proof (Z.mod_pos_bound n 128 ltac:(lia)) as Hm.
  assert (Z.lor (n mod 128) (if flag then 0x80 else 0) = n mod 128 + (if flag then 0x80 else 0)) as ->.
  { destruct flag; [|by rewrite Z.lor_0_r, Z.add_0_r].
    rewrite <- Z.lxor_lor, <- Z.add_nocarry_lxor; auto using land_mod128_bit7. }
  rewrite byte_of_Z_u by (unfold urange; destruct flag; lia). cbv zeta. split.
  - rewrite Z.land_ones by lia. change (2 ^ 7) with 128.
    destruct flag; [|rewrite Z.add_0_r; by apply Z.mod_mod].
    replace (n mod 128 + 0x80) with (n mod 128 + 1 * 128) by lia.
    rewrite Z.mod_add by lia. by apply Z.mod_mod.
  - destruct flag; [|by rewrite Z.add_0_r, land_mod128_bit7].
    apply negb_true_iff, Z.eqb_neq. intros H0.
    assert ((Z.land (n mod 128 + 0x80) (2 ^ 7) =? 0) = true) as H1 by (apply Z.eqb_eq; exact H0).
    rewrite land_pow2_bit in H1 by lia. apply negb_true_iff in H1.
    enough (Z.testbit (n mod 128 + 0x80) 7 = true) by congruence.
    apply Z.testbit_true; [lia|]. change (2 ^ 7) with 128.
    by rewrite <- (Z.div_unique (n mod 128 + 0x80) 128 1 (n mod 128)) by lia.
Qed.

Lemma join_digit n : 0 <= n → Z.lor (Z.shiftl (Z.shiftr n 7) 7) (n mod 128) = n.
Proof.
  intros Hn. apply Z.bits_inj'. intros i Hi. rewrite Z.lor_spec, Z.shiftl_spec by done.
  change 128 with (2 ^ 7). destruct (decide (i < 7)).
  - rewrite Z.mod_pow2_bits_low, Z.testbit_neg_r by lia. done.
  - rewrite Z.mod_pow2_bits_high, Z.shiftr_spec, orb_false_r by lia. f_equal. lia.
Qed.

Lemma split_digit k d : 0 <= d < 128 → Z.lor (Z.shiftl k 7) d = 128 * k + d.
Proof.
  intros Hd. rewrite <- Z.lxor_lor, <- Z.add_nocarry_lxor.
  - rewrite Z.shiftl_mul_pow2 by lia. lia.
  - apply Z.bits_inj'. intros i Hi. rewrite Z.land_spec, Z.shiftl_spec, Z.bits_0 by done.
    destruct (decide (i < 7)); [by rewrite Z.testbit_neg_r by lia|].
    rewrite <- (Z.mod_small d (2 ^ 7)) by lia.
    rewrite Z.mod_pow2_bits_high by lia. apply andb_false_r.
  - apply Z.bits_inj'. intros i Hi. rewrite Z.land_spec, Z.shiftl_spec, Z.bits_0 by done.
    destruct (decide (i < 7)); [by rewrite Z.testbit_neg_r by lia|].
    rewrite <- (Z.mod_small d (2 ^ 7)) by lia.
    rewrite Z.mod_pow2_bits_high by lia. apply andb_false_r.
Qed.

Lemma shiftr7_bounds n : 0x7f < n → 1 <= Z.shiftr n 7 < n.
Proof.
  intros. rewrite Z.shiftr_div_pow2 by lia. change (2 ^ 7) with 128.
  split; [apply Z.div_le_lower_bound|apply Z.div_lt_upper_bound]; lia.
Qed.

(** One step of the reading loop on a digit of [n]. *)
Lemma read_digit n (flag : bool) rest :
  0 <= n <= MAX →
  read_varint7 MAX (Z.shiftr n 7)
    (byte.of_Z (Z.lor (Z.land n 0x7f) (if flag then 0x80 else 0x00)) :: rest)
  = if flag then
      if MAX <? n + 1 then Err (ParseFailed "MWEB varint overflow")
      else read_varint7 MAX (n + 1) rest
    else Ok (n, rest).
Proof.
  intros Hn. cbn [read_varint7]. destruct (digit_byte n flag) as [Hd Hf]; [lia|].
  rewrite Hd, Hf, join_digit by lia.
  rewrite (proj2 (Z.ltb_ge _ (Z.shiftr n 7))); [done|].
  rewrite !Z.shiftr_div_pow2 by lia. apply Z.div_le_mono; lia.
Qed.

(** Reading the continuation digits of [n] leaves the loop at [n + 1]. *)
Lemma read_flagged room n len tmp rest :
  1 <= len → 0 <= n → n + 1 <= MAX →
  write_varint7_loop room n len = Some tmp →
  read_varint7 MAX 0 (rev tmp ++ rest) = read_varint7 MAX (n + 1) rest.
Proof.
  revert n len tmp rest. induction room as [|room IH]; intros n len tmp rest Hlen Hn Hmax; [done|].
  cbn [write_varint7_loop]. rewrite (proj2 (Z.eqb_neq len 0)) by lia. cbn [negb].
  pose proof (read_digit n true rest ltac:(lia)) as Hstep. cbv iota in Hstep.
  rewrite (proj2 (Z.ltb_ge MAX _)) in Hstep by lia.
  destruct (Z.leb_spec n 0x7f).
  - intros [= <-]. cbn [rev app]. rewrite <- Hstep. f_equal.
    rewrite Z.shiftr_div_pow2 by lia. symmetry. apply Z.div_small. lia.
  - destruct (write_varint7_loop room (Z.shiftr n 7 - 1) (len + 1)) as [tmp'|] eqn:Hw; [|done].
    intros [= <-]. cbn [rev]. rewrite <- app_assoc.
    pose proof (shiftr7_bounds n ltac:(lia)).
    rewrite (IH (Z.shiftr n 7 - 1) (len + 1) tmp' _ ltac:(lia) ltac:(lia) ltac:(lia) Hw), Z.sub_add.
    exact Hstep.
Qed.

Lemma read_write_varint7 room n tmp rest :
  0 <= n <= MAX → write_varint7_loop room n 0 = Some tmp →
  read_varint7 MAX 0 (rev tmp ++ rest) = Ok (n, rest).
Proof.
  intros Hn. destruct room as [|room]; [done|]. cbn [write_varint7_loop Z.eqb negb].
  pose proof (read_digit n false rest Hn) as Hstep. cbv iota in Hstep.
  destruct (Z.leb_spec n 0x7f).
  - intros [= <-]. cbn [rev app]. rewrite <- Hstep. f_equal.
    rewrite Z.shiftr_div_pow2 by lia. symmetry. apply Z.div_small. lia.
  - destruct (write_varint7_loop room (Z.shiftr n 7 - 1) (0 + 1)) as [tmp'|] eqn:Hw; [|done].
    intros [= <-]. cbn [rev]. rewrite <- app_assoc.
    pose proof (shiftr7_bounds n ltac:(lia)).
    rewrite (read_flagged room (Z.shiftr n 7 - 1) (0 + 1) tmp' _ ltac:(lia) ltac:(lia) ltac:(lia) Hw),
      Z.sub_add. exact Hstep.
Qed.

Lemma write_varint7_S room n len :
  write_varint7_loop (S room) n len =
  let d := byte.of_Z (Z.lor (Z.land n 0x7f) (if negb (len =? 0) then 0x80 else 0x00)) in
  if n <=? 0x7f then Some [d]
  else match write_varint7_loop room (Z.shiftr n 7 - 1) (len + 1) with
       | Some tmp => Some (d :: tmp)
       | None => None
       end.
Proof. done. Qed.

(** Enough room for the digits of a value below [128^room]. *)
Lemma write_varint7_room room n len :
  0 <= n < 128 ^ (Z.of_nat room + 1) → ∃ tmp, write_varint7_loop (S room) n len = Some tmp.
Proof.
  revert n len. induction room as [|room IH]; intros n len Hn; rewrite write_varint7_S; cbv zeta.
  - rewrite (proj2 (Z.leb_le n _)) by (cbn in Hn; lia). eauto.
  - destruct (Z.leb_spec n 0x7f); [eauto|].
    destruct (IH (Z.shiftr n 7 - 1) (len + 1)) as [tmp Ht].
    + pose proof (shiftr7_bounds n ltac:(lia)). split; [lia|].
      enough (Z.shiftr n 7 < 128 ^ (Z.of_nat room + 1)) by lia.
      rewrite Z.shiftr_div_pow2 by lia. apply Z.div_lt_upper_bound; [lia|].
      change (2 ^ 7) with 128. rewrite <- Z.pow_succ_r by lia.
      replace (Z.succ (Z.of_nat room + 1)) with (Z.of_nat (S room) + 1) by lia. lia.
    + rewrite Ht. eauto.
Qed.

Lemma write_varint7_some n : 0 <= n < 2 ^ 64 → ∃ tmp, write_varint7_loop 10 n 0 = Some tmp.
Proof. intros. apply (write_varint7_room 9). cbn. lia. Qed.

Lemma write_varint7_loop_len room n len tmp :
  write_varint7_loop room n len = Some tmp → (1 <= length tmp <= room)%nat.
Proof.
  revert n len tmp. induction room as [|room IH]; intros n len tmp; [done|].
  rewrite write_varint7_S. cbv zeta. case_if; [intros [= <-]; cbn; lia|].
  destruct (write_varint7_loop room _ _) eqn:E; [|done]. intros [= <-]. apply IH in E. cbn. lia.
Qed.

(** The loop's result does not depend on the room, nor on which nonzero index
    it is at. *)
Lemma write_varint7_det r1 r2 n l1 l2 t1 t2 :
  (l1 =? 0) = (l2 =? 0) → 0 <= l1 → 0 <= l2 →
  write_varint7_loop r1 n l1 = Some t1 → write_varint7_loop r2 n l2 = Some t2 → t1 = t2.
Proof.
  revert r2 n l1 l2 t1 t2. induction r1 as [|r1 IH]; intros [|r2] n l1 l2 t1 t2 Hl H1 H2; try done.
  cbn [write_varint7_loop]. rewrite Hl. case_if; [congruence|].
  destruct (write_varint7_loop r1 _ _) as [u1|] eqn:E1; [|done].
  destruct (write_varint7_loop r2 _ _) as [u2|] eqn:E2; [|done].
  intros [= <-] [= <-]. f_equal. eapply IH; [..|exact E1|exact E2]; [|lia|lia].
  by rewrite !(proj2 (Z.eqb_neq _ 0)) by lia.
Qed.

Lemma write_varint7_any_len room n l l' t :
  write_varint7_loop room n l = Some t → ∃ t', write_varint7_loop room n l' = Some t'.
Proof.
  revert n l l' t. induction room as [|room IH]; intros n l l' t; [done|].
  rewrite !write_varint7_S. cbv zeta. case_if; [eauto|].
  destruct (write_varint7_loop room _ (l + 1)) eqn:E; [|done]. intros _.
  destruct (IH _ _ (l' + 1) _ E) as [t' ->]. eauto.
Qed.

(** What the loop has read so far: nothing, or the continuation digits of [n - 1]. *)
Definition read_so_far (n : Z) (pre : list byte) : Prop :=
  (n = 0 ∧ pre = []) ∨
  (1 <= n ∧ ∃ room tmp, write_varint7_loop room (n - 1) 1 = Some tmp ∧ pre = rev tmp).

Lemma byte_digits (b : byte) :
  byte.of_Z (Z.lor (Z.land (byte.unsigned b) 0x7f)
    (if negb (Z.land (byte.unsigned b) 0x80 =? 0) then 0x80 else 0x00)) = b.
Proof. destruct b; reflexivity. Qed.

Lemma read_so_far_step n pre b (flag : bool) :
  read_so_far n pre → 0 <= n →
  negb (Z.land (byte.unsigned b) 0x80 =? 0) = flag →
  let n' := Z.lor (Z.shiftl n 7) (Z.land (byte.unsigned b) 0x7f) in
  0 <= n' ∧ ∃ room tmp, write_varint7_loop room n' (b2z flag) = Some tmp ∧ pre ++ [b] = rev tmp.
Proof.
  intros Hpre Hn Hflag n'.
  assert (0 <= Z.land (byte.unsigned b) 0x7f < 128) as Hd
    by (change 0x7f with (Z.ones 7); rewrite Z.land_ones by lia; apply Z.mod_pos_bound; lia).
  assert (n' = 128 * n + Z.land (byte.unsigned b) 0x7f) as Hn' by (by apply split_digit).
  assert (byte.of_Z (Z.lor (Z.land n' 0x7f) (if negb (b2z flag =? 0) then 0x80 else 0)) = b) as Hb.
  { rewrite <- (byte_digits b) at 1. rewrite Hflag. f_equal. f_equal; [|by destruct flag].
    rewrite Hn'. revert Hd. generalize (Z.land (byte.unsigned b) 0x7f) as d. intros d Hd.
    change 0x7f with (Z.ones 7). rewrite Z.land_ones by lia. change (2 ^ 7) with 128.
    replace (128 * n + d) with (d + n * 128) by lia.
    rewrite Z.mod_add by lia. by apply Z.mod_small. }
  split; [lia|]. destruct Hpre as [[-> ->]|(Hn1 & room & tmp & Hw & ->)].
  - exists 1%nat, [b]. split; [|done]. cbn [write_varint7_loop]. rewrite Hb.
    by rewrite (proj2 (Z.leb_le _ _)) by lia.
  - assert (Z.shiftr n' 7 = n) as Hsh.
    { rewrite Z.shiftr_div_pow2 by lia. symmetry. apply Z.div_unique with (Z.land (byte.unsigned b) 0x7f).
      - left. exact Hd. - rewrite Hn'. reflexivity. }
    exists (S room), (b :: tmp). split; [|done]. cbn [write_varint7_loop]. rewrite Hb.
    rewrite (proj2 (Z.leb_gt _ _)) by lia. rewrite Hsh.
    assert (∃ t, write_varint7_loop room (n - 1) (b2z flag + 1) = Some t) as [t Ht]
      by (by eapply write_varint7_any_len).
    rewrite Ht. f_equal. f_equal.
    eapply (write_varint7_det room room); [..|exact Ht|exact Hw]; destruct flag; cbn; lia.
Qed.

Lemma read_varint7_ok pre n s v rest :
  read_so_far n pre → 0 <= n <= MAX → read_varint7 MAX n s = Ok (v, rest) →
  0 <= v <= MAX ∧ ∃ room tmp, write_varint7_loop room v 0 = Some tmp ∧ pre ++ s = rev tmp ++ rest.
Proof.
  revert pre n. induction s as [|b s IH]; intros pre n Hpre Hn; [done|]. cbn [read_varint7].
  destruct (Z.ltb_spec (Z.shiftr MAX 7) n); [done|].
  destruct (read_so_far_step n pre b _ Hpre ltac:(lia) eq_refl) as (Hn' & room & tmp & Hw & Happ).
  set (n' := Z.lor (Z.shiftl n 7) (Z.land (byte.unsigned b) 0x7f)) in *.
  replace (pre ++ b :: s) with ((pre ++ [b]) ++ s) by (by rewrite <- app_assoc).
  destruct (negb (Z.land (byte.unsigned b) 0x80 =? 0)).
  - destruct (Z.ltb_spec MAX (n' + 1)); [done|]. apply IH; [|lia].
    right. rewrite Z.add_simpl_r. split; [lia|]. eauto.
  - intros [= <- <-]. rewrite Happ. split; [|by eauto]. split; [lia|].
    assert (0 <= Z.land (byte.unsigned b) 0x7f < 128) as Hd
      by (change 0x7f with (Z.ones 7); rewrite Z.land_ones by lia; apply Z.mod_pos_bound; lia).
    subst n'. rewrite split_digit by done. rewrite Z.shiftr_div_pow2 in * by lia.
    change (2 ^ 7) with 128 in *. pose proof (Z.div_mod MAX 128). lia.
Qed.
End Varint7.

Lemma read_varint7_ok_iff MAX s v rest :
  127 <= MAX < 2 ^ 64 → MAX mod 128 = 127 →
  read_varint7 MAX 0 s = Ok (v, rest) ↔
  0 <= v <= MAX ∧ ∃ tmp, write_varint7_loop 10 v 0 = Some tmp ∧ s = rev tmp ++ rest.
Proof.
  intros HMAX Hlow. split.
  - intros Hr. destruct (read_varint7_ok MAX Hlow [] 0 s v rest) as (Hv & room & tmp & Hw & Hs);
      [by left|lia|done|]. split; [done|].
    destruct (write_varint7_some v) as [tmp' Hw']; [lia|]. exists tmp'. split; [done|].
    rewrite (write_varint7_det room 10 v 0 0 tmp tmp') in Hs; done.
  - intros (Hv & tmp & Hw & ->). by eapply read_write_varint7.
Qed.

Lemma write_varint7_eq v tmp :
  write_varint7_loop 10 v 0 = Some tmp →
  write_varint7 v = Ok (Z.of_nat (length (rev tmp)), rev tmp).
Proof.
  intros Hw. unfold write_varint7. rewrite Hw, length_rev.
  assert (∀ bs, w_for (λ _ b, let+ _ := c_enc u8 (byte.unsigned b) in w_ret tt) tt bs = Ok (tt, bs))
    as Hf.
  { induction bs as [|b bs IH]; [done|]. cbn [w_for].
    rewrite (w_bind_of (E := io_error) _ _ tt [b] tt bs); [done|..|done].
    cbn. by rewrite byte.of_Z_unsigned. }
  rewrite (w_bind_of _ _ _ _ _ [] (Hf _) eq_refl). by rewrite app_nil_r.
Qed.

(** The codecs of the two instances. *)
Definition amount_codec : codec Z := fixed_codec write_amount read_amount.
Definition compact_codec : codec Z := fixed_codec write_compact_varint read_compact_varint.

Lemma varint7_roundtrip MAX v :
  127 <= MAX < 2 ^ 64 → MAX mod 128 = 127 → 0 <= v <= MAX →
  ∃ bs, write_varint7 v = Ok (Z.of_nat (length bs), bs) ∧ reads (read_varint7 MAX 0) bs v.
Proof.
  intros HM Hl Hv. destruct (write_varint7_some v) as [tmp Hw]; [lia|].
  exists (rev tmp). split; [by apply write_varint7_eq|].
  intros rest. apply read_varint7_ok_iff; eauto.
Qed.

Lemma varint7_canonical MAX s v rest :
  127 <= MAX < 2 ^ 64 → MAX mod 128 = 127 → read_varint7 MAX 0 s = Ok (v, rest) →
  0 <= v <= MAX ∧ ∃ bs, write_varint7 v = Ok (Z.of_nat (length bs), bs) ∧ s = bs ++ rest.
Proof.
  intros HM Hl Hr. apply read_varint7_ok_iff in Hr as (Hv & tmp & Hw & ->); [|done..].
  split; [done|]. exists (rev tmp). split; [by apply write_varint7_eq|done].
Qed.

Lemma varint7_len v n bs : write_varint7 v = Ok (n, bs) → n = Z.of_nat (length bs).
Proof.
  intros H. destruct (write_varint7_loop 10 v 0) as [tmp|] eqn:Hw.
  - rewrite (write_varint7_eq _ _ Hw) in H. by injection H as <- <-.
  - unfold write_varint7 in H. by rewrite Hw in H.
Qed.

Definition is_amount (v : Z) : Prop := 0 <= v <= I64_MAX.
Definition is_u64 (v : Z) : Prop := 0 <= v <= U64_MAX.

#[export] Instance amount_roundtrip : RoundTrip amount_codec is_amount.
Proof. intros v Hv. by apply varint7_roundtrip. Qed.
#[export] Instance amount_canonical : Canonical amount_codec is_amount.
Proof. intros s v rest Hr. by apply (varint7_canonical I64_MAX). Qed.
#[export] Instance amount_len : EncodeLen amount_codec.
Proof. intros v n bs. apply varint7_len. Qed.
#[export] Instance amount_top : TopIsFinite amount_codec.
Proof. done. Qed.
#[export] Instance compact_roundtrip : RoundTrip compact_codec is_u64.
Proof. intros v Hv. by apply varint7_roundtrip. Qed.
#[export] Instance compact_canonical : Canonical compact_codec is_u64.
Proof. intros s v rest Hr. by apply (varint7_canonical U64_MAX). Qed.
#[export] Instance compact_len : EncodeLen compact_codec.
Proof. intros v n bs. apply varint7_len. Qed.
#[export] Instance compact_top : TopIsFinite compact_codec.
Proof. done. Qed.

(** ** Well-formed values *)

(** An optional field is there exactly when its feature bit is set. *)
Definition opt_wf {A} (b : bool) (P : A → Prop) (o : option A) : Prop :=
  if b then ∃ x, o = Some x ∧ P x else o = None.
Definition extra_wf (b : bool) (v : list byte) : Prop := if b then fits_u64 v else v = [].

Definition pegout_wf (p : PegOutCoin) : Prop :=
  is_amount (amount p) ∧ fits_u64 (script_pub_key p) ∧ script_pub_key p ≠ [].

(** *** The optional fields, as steps *)

Lemma seg_amount v : is_amount v → seg (λ len, w_add len (write_amount v)) read_amount v.
Proof. apply (seg_enc amount_codec is_amount). Qed.
#[export] Hint Resolve seg_amount : seg.

#[export] Instance parses_amount :
  Parses read_amount is_amount (λ v bs, wseg (λ len, w_add len (write_amount v)) bs).
Proof.
  intros s v rest H. apply (canonical (c := amount_codec)) in H as (Hv & bs & He & ->).
  split; [done|]. exists bs. split; [|done]. by apply (wseg_enc amount_codec).
Qed.

Lemma wlen_amount v : wlen (λ len, w_add len (write_amount v)).
Proof. apply (wlen_enc amount_codec). Qed.
#[export] Hint Resolve wlen_amount : wlen.

Section Optional.
Context {A : Type} (P : A → Prop) (m : rd A) (write : A → wr Z).

Lemma seg_read_if b o what :
  opt_wf b P o → (∀ x, P x → seg (λ len, w_add len (write x)) m x) →
  seg (λ len, write_if b o what write len) (read_if b m) o.
Proof.
  intros Ho Hm. destruct b; cbn in *; [|subst; apply seg_ret].
  destruct Ho as (x & -> & Hx). destruct (Hm x Hx) as (bs & Hw & Hr). exists bs. split.
  - intros len. cbn. rewrite Hw. done.
  - intros rest. unfold rd_bind. by rewrite Hr.
Qed.

#[export] Instance parses_read_if b
    `{!Parses m P (λ x bs, wseg (λ len, w_add len (write x)) bs)} :
  Parses (read_if b m) (opt_wf b P)
    (λ o bs, ∀ what, wseg (λ len, write_if b o what write len) bs).
Proof.
  intros s o rest H. destruct b; cbn in *; inv_ok.
  - canonical_fields. split; [by eauto|]. eexists. split; [|done].
    intros what len. cbn. match goal with H : wseg _ _ |- _ => by rewrite H end.
  - split; [done|]. exists []. split; [|done]. intros what. apply wseg_ret.
Qed.

Lemma wlen_write_if b o what :
  (∀ x, wlen (λ len, w_add len (write x))) → wlen (λ len, write_if b o what write len).
Proof.
  intros Hw. destruct b; [|apply wlen_ret]. intros len n bs H. cbn in H.
  destruct o as [x|]; [|done]. cbn in H.
  destruct (w_add len (write x)) as [[k b]|] eqn:Hx; [|done]. injection H as <- <-. by apply Hw in Hx.
Qed.
End Optional.
#[export] Hint Resolve wlen_write_if : wlen.

Lemma seg_extra b v : extra_wf b v → seg (λ len, write_extra b v len) (read_extra b) v.
Proof.
  destruct b; cbn; intros H; [|subst; apply seg_ret]. by apply (seg_enc bytes fits_u64).
Qed.
#[export] Instance parses_extra b :
  Parses (read_extra b) (extra_wf b) (λ v bs, wseg (λ len, write_extra b v len) bs).
Proof.
  intros s v rest H. destruct b; cbn [read_extra] in H.
  - canonical_fields. split; [done|]. eexists. split; [by apply wseg_enc|done].
  - inv_ok. split; [done|]. exists []. split; [apply wseg_ret|done].
Qed.
Lemma wlen_extra b v : wlen (λ len, write_extra b v len).
Proof. destruct b; [apply wlen_enc, _|apply wlen_ret]. Qed.
#[export] Hint Resolve seg_extra : seg.
#[export] Hint Resolve wlen_extra : wlen.

(** *** Peg-out coins *)

#[export] Instance pegout_roundtrip : RoundTrip pegout_codec pegout_wf.
Proof.
  intros [a sc] (Ha & Hsc & Hne). cbn in *. seg_roundtrip. destruct sc; [done|]. apply seg_ret.
Qed.

#[export] Instance pegout_canonical : Canonical pegout_codec pegout_wf.
Proof.
  intros s p rest Hd. cbn [c_dec pegout_codec finite_codec] in Hd. unfold pegout_decode in Hd.
  inv_ok. canonical_fields.
  match goal with H : match ?v with [] => _ | _ => _ end _ = _ |- _ => destruct v as [|b sc]; [done|] end.
  inv_ok. split; [by split_and!|]. canonical_finish.
Qed.

#[export] Instance pegout_len : EncodeLen pegout_codec.
Proof. intros p n bs. eapply wlen_start; [reflexivity|]. wlen_chain. Qed.

Definition pegouts_wf (b : bool) (ps : list PegOutCoin) : Prop :=
  if b then vec_wf pegout_wf ps else ps = [].

Lemma seg_pegouts b ps :
  pegouts_wf b ps → seg (λ len, write_pegouts b ps len) (read_pegouts b) ps.
Proof.
  destruct b; cbn; intros H; [|subst; apply seg_ret].
  destruct (seg_enc (vec pegout_codec) _ ps H) as (bs & Hw & Hr). exists bs. split; [|done].
  intros len. rewrite <- (Hw len). apply (vec_in_place_eq pegout_codec).
Qed.
#[export] Instance parses_pegouts b :
  Parses (read_pegouts b) (pegouts_wf b) (λ v bs, wseg (λ len, write_pegouts b v len) bs).
Proof.
  intros s v rest H. destruct b.
  - apply (canonical (c := vec pegout_codec)) in H as (Hv & bs & He & ->). split; [done|].
    exists bs. split; [|done]. intros len. unfold write_pegouts.
    etrans; [apply (vec_in_place_eq pegout_codec)|]. by apply wseg_enc.
  - cbn in *. inv_ok. split; [done|]. exists []. split; [apply wseg_ret|done].
Qed.
Lemma wlen_pegouts b v : wlen (λ len, write_pegouts b v len).
Proof. destruct b; [|apply wlen_ret]. apply (wlen_vec_in_place pegout_codec). Qed.
#[export] Hint Resolve seg_pegouts : seg.
#[export] Hint Resolve wlen_pegouts : wlen.

(** *** Lock heights: a [u32] sent as an amount *)

Lemma seg_lock_height b o what :
  opt_wf b (urange 32) o →
  seg (λ len, write_if b o what write_amount len) (read_lock_height b) o.
Proof.
  destruct b; cbn; [|intros ->; apply seg_ret]. intros (h & -> & Hh). unfold urange in Hh.
  destruct (seg_amount h) as (bs & Hw & Hr). { unfold is_amount, I64_MAX. lia. }
  exists bs. split; [intros len; cbn; by rewrite Hw|]. intros rest. unfold rd_bind. rewrite Hr.
  rewrite (proj2 (orb_false_iff _ _)) by (unfold U32_MAX; lia). cbn. by rewrite uwrap_small.
Qed.
#[export] Instance parses_lock_height b :
  Parses (read_lock_height b) (opt_wf b (urange 32))
    (λ o bs, ∀ what, wseg (λ len, write_if b o what write_amount len) bs).
Proof.
  intros s o rest H. destruct b; cbn in *; inv_ok.
  - canonical_fields. case_if; [done|]. inv_ok. bool_lia.
    match goal with H : is_amount ?x |- _ => assert (urange 32 x) as Hx
      by (unfold U32_MAX in *; unfold urange; lia) end.
    rewrite uwrap_small by done. split; [by eauto|]. eexists. split; [|done].
    intros what len. cbn. match goal with H : wseg _ _ |- _ => by rewrite H end.
  - split; [done|]. exists []. split; [|done]. intros what. apply wseg_ret.
Qed.
#[export] Hint Resolve seg_lock_height : seg.

(** ** The laws of the codecs *)

Section Laws.
Context `{PublicKeyLaws}.

Definition any_key (k : PublicKey) : Prop := True.

Lemma seg_public_key k what :
  seg (λ len, w_add len (write_public_key k)) (read_public_key what) k.
Proof.
  destruct (roundtrip (c := array 33) (PublicKey_serialize k)) as (bs & He & Hr).
  { unfold is_array. by rewrite pk_length. }
  exists bs. split; [by apply (wseg_enc (array 33))|]. intros rest.
  unfold read_public_key, rd_bind. change (c_dec_top (array 33)) with (c_dec (array 33)).
  by rewrite Hr, pk_parse_serialize.
Qed.

#[export] Instance parses_public_key what :
  Parses (read_public_key what) any_key (λ k bs, wseg (λ len, w_add len (write_public_key k)) bs).
Proof.
  intros s k rest Hd. unfold read_public_key in Hd. inv_ok. canonical_fields.
  destruct (PublicKey_from_slice _) as [k'|] eqn:Hk; [|done]. cbn in *. simplify_eq.
  split; [done|]. eexists. split; [|done]. unfold write_public_key.
  apply pk_serialize_parse in Hk; [|unfold is_array in *; lia]. rewrite Hk. by apply (wseg_enc (array 33)).
Qed.

Lemma wlen_public_key k : wlen (λ len, w_add len (write_public_key k)).
Proof. apply (wlen_enc (array 33)). Qed.

Lemma seg_public_key_if b o what what' :
  opt_wf b any_key o →
  seg (λ len, write_if b o what write_public_key len) (read_if b (read_public_key what')) o.
Proof. intros Ho. apply seg_read_if with (P := any_key); [done|]. intros. apply seg_public_key. Qed.

Lemma seg_amount_if b o what :
  opt_wf b is_amount o → seg (λ len, write_if b o what write_amount len) (read_if b read_amount) o.
Proof. intros Ho. apply seg_read_if with (P := is_amount); [done|]. apply seg_amount. Qed.

Hint Resolve seg_public_key seg_public_key_if seg_amount_if : seg.
Hint Resolve wlen_public_key : wlen.

(** *** Kernels *)

Record kernel_wf (k : Kernel) : Prop := {
  kwf_features : urange 8 (k_features k);
  kwf_fee : opt_wf (has_bit (k_features k) FeeFeatureBit) is_amount (k_fee k);
  kwf_pegin : opt_wf (has_bit (k_features k) PeginFeatureBit) is_amount (k_pegin k);
  kwf_pegouts : pegouts_wf (has_bit (k_features k) PegoutFeatureBit) (k_pegouts k);
  kwf_lock : opt_wf (has_bit (k_features k) HeightLockFeatureBit) (urange 32) (k_lock_height k);
  kwf_stealth :
    opt_wf (has_bit (k_features k) StealthExcessFeatureBit) any_key (k_stealth_excess k);
  kwf_extra : extra_wf (has_bit (k_features k) KernelExtraDataFeatureBit) (k_extra_data k);
  kwf_excess : is_array 33 (k_excess k);
  kwf_signature : is_array 64 (k_signature k) }.

#[export] Instance kernel_roundtrip : RoundTrip kernel_codec kernel_wf.
Proof. intros [] []. cbn in *. seg_roundtrip. Qed.

#[export] Instance kernel_canonical : Canonical kernel_codec kernel_wf.
Proof.
  intros s k rest Hd. change (c_dec kernel_codec) with kernel_decode in Hd. unfold kernel_decode in Hd.
  inv_ok. canonical_fields. split; [by constructor|]. canonical_finish.
Qed.

#[export] Instance kernel_len : EncodeLen kernel_codec.
Proof. intros k n bs. eapply wlen_start; [reflexivity|]. wlen_chain. Qed.

(** *** Inputs *)

Record input_wf (i : Input) : Prop := {
  iwf_features : urange 8 (i_features i);
  iwf_output_id : is_array 32 (i_output_id i);
  iwf_commitment : is_array 33 (i_commitment i);
  iwf_input_key : opt_wf (has_bit (i_features i) 1) any_key (i_input_public_key i);
  iwf_extra : extra_wf (has_bit (i_features i) 2) (i_extra_data i);
  iwf_signature : is_array 64 (i_signature i) }.

#[export] Instance input_roundtrip : RoundTrip input_codec input_wf.
Proof. intros [] []. cbn in *. seg_roundtrip. Qed.

#[export] Instance input_canonical : Canonical input_codec input_wf.
Proof.
  intros s i rest Hd. change (c_dec input_codec) with input_decode in Hd. unfold input_decode in Hd.
  inv_ok. canonical_fields. split; [by constructor|]. canonical_finish.
Qed.

#[export] Instance input_len : EncodeLen input_codec.
Proof. intros i n bs. eapply wlen_start; [reflexivity|]. wlen_chain. Qed.

(** *** Output messages: the encoder looks at the option, the decoder at the bit *)

Record standard_fields_wf (f : OutputMessageStandardFields) : Prop := {
  fwf_tag : urange 8 (view_tag f);
  fwf_value : urange 64 (masked_value f);
  fwf_nonce : is_array 16 (masked_nonce f) }.

Lemma seg_standard_fields f :
  standard_fields_wf f → seg (standard_fields_encode f) standard_fields_decode f.
Proof. destruct f. intros []. cbn in *. unfold standard_fields_encode. seg_chain. Qed.

#[export] Instance parses_standard_fields :
  Parses standard_fields_decode standard_fields_wf (λ f bs, wseg (standard_fields_encode f) bs).
Proof.
  intros s f rest Hd. unfold standard_fields_decode in Hd.
  inv_ok. canonical_fields. split; [by constructor|].
  eexists. split; [unfold standard_fields_encode; wseg_chain|].
  rewrite ?app_nil_r, <- ?app_assoc. reflexivity.
Qed.

Lemma wlen_standard_fields f : wlen (standard_fields_encode f).
Proof. unfold standard_fields_encode. wlen_chain. Qed.
Hint Resolve wlen_standard_fields : wlen.

Definition standard_fields_step (o : option OutputMessageStandardFields) (len : Z) : wr Z :=
  match o with
  | Some fields => standard_fields_encode fields len
  | None => w_ret len
  end.

Lemma seg_standard_if b o :
  opt_wf b standard_fields_wf o → seg (standard_fields_step o) (read_if b standard_fields_decode) o.
Proof.
  destruct b; cbn; [|intros ->; apply seg_ret]. intros (f & -> & Hf).
  by apply seg_map, seg_standard_fields.
Qed.
#[export] Instance parses_standard_if b :
  Parses (read_if b standard_fields_decode) (opt_wf b standard_fields_wf)
    (λ o bs, wseg (standard_fields_step o) bs).
Proof.
  intros s o rest Hd. destruct b; cbn in Hd; inv_ok.
  - canonical_fields. split; [by eexists|]. by eexists.
  - split; [done|]. exists []. split; [apply wseg_ret|done].
Qed.
Lemma wlen_standard_step o : wlen (standard_fields_step o).
Proof. destruct o; [apply wlen_standard_fields|apply wlen_ret]. Qed.
Hint Resolve seg_standard_if : seg.
Hint Resolve wlen_standard_step : wlen.

Record message_wf (m : OutputMessage) : Prop := {
  mwf_features : urange 8 (m_features m);
  mwf_fields :
    opt_wf (has_bit (m_features m) StandardFieldsFeatureBit) standard_fields_wf
      (m_standard_fields m);
  mwf_extra : extra_wf (has_bit (m_features m) OutputExtraDataFeatureBit) (m_extra_data m) }.

#[export] Instance message_roundtrip : RoundTrip message_codec message_wf.
Proof.
  intros [] []. cbn in *. eapply seg_start; [reflexivity|].
  eapply seg_bind; [seg_field|]. eapply (seg_bind (standard_fields_step _)); [seg_field|]. seg_chain.
Qed.

#[export] Instance message_canonical : Canonical message_codec message_wf.
Proof.
  intros s m rest Hd. change (c_dec message_codec) with message_decode in Hd.
  unfold message_decode in Hd. inv_ok. canonical_fields. split; [by constructor|]. canonical_finish.
Qed.

#[export] Instance message_len : EncodeLen message_codec.
Proof.
  intros m n bs. eapply wlen_start; [reflexivity|].
  apply (wlen_bind (λ len, _)); [wlen_chain|].
  apply (wlen_bind (standard_fields_step _)); wlen_chain.
Qed.

(** *** Outputs, bodies and transactions *)

Record output_wf (o : Output) : Prop := {
  owf_commitment : is_array 33 (o_commitment o);
  owf_message : message_wf (o_message o);
  owf_range_proof : is_array 675 (o_range_proof o);
  owf_signature : is_array 64 (o_signature o) }.

#[export] Instance output_roundtrip : RoundTrip output_codec output_wf.
Proof. intros [] []. cbn in *. seg_roundtrip. Qed.

#[export] Instance output_canonical : Canonical output_codec output_wf.
Proof.
  intros s o rest Hd. change (c_dec output_codec) with output_decode in Hd. unfold output_decode in Hd.
  inv_ok. canonical_fields. split; [by constructor|]. canonical_finish.
Qed.

#[export] Instance output_len : EncodeLen output_codec.
Proof. intros o n bs. eapply wlen_start; [reflexivity|]. wlen_chain. Qed.

Record body_wf (b : TxBody) : Prop := {
  bwf_inputs : vec_wf input_wf (b_inputs b);
  bwf_outputs : vec_wf output_wf (b_outputs b);
  bwf_kernels : vec_wf kernel_wf (b_kernels b) }.

#[export] Instance body_roundtrip : RoundTrip body_codec body_wf.
Proof. intros [] []. cbn in *. seg_roundtrip. Qed.

#[export] Instance body_canonical : Canonical body_codec body_wf.
Proof.
  intros s b rest Hd. change (c_dec body_codec) with body_decode in Hd. unfold body_decode in Hd.
  inv_ok. canonical_fields. split; [by constructor|]. canonical_finish.
Qed.

#[export] Instance body_len : EncodeLen body_codec.
Proof. intros b n bs. eapply wlen_start; [reflexivity|]. wlen_chain. Qed.

Record mw_tx_wf (t : MwTransaction) : Prop := {
  twf_kernel_offset : is_array 32 (kernel_offset t);
  twf_stealth_offset : is_array 32 (stealth_offset t);
  twf_body : body_wf (body t);
  twf_kernels : b_kernels (body t) ≠ [] }.

#[export] Instance mw_tx_roundtrip : RoundTrip mw_tx_codec mw_tx_wf.
Proof.
  intros [ko so [i o [|k ks]]] []; cbn in *; [done|]. seg_roundtrip.
Qed.

#[export] Instance mw_tx_canonical : Canonical mw_tx_codec mw_tx_wf.
Proof.
  intros s t rest Hd. change (c_dec mw_tx_codec) with mw_tx_decode in Hd. unfold mw_tx_decode in Hd.
  inv_ok. canonical_fields.
  match goal with H : match b_kernels ?b with [] => _ | _ => _ end _ = _ |- _ =>
    destruct (b_kernels b) eqn:Hk; [done|] end.
  inv_ok. split; [constructor; cbn; by rewrite ?Hk|]. canonical_finish.
Qed.

#[export] Instance mw_tx_len : EncodeLen mw_tx_codec.
Proof. intros b n bs. eapply wlen_start; [reflexivity|]. wlen_chain. Qed.
End Laws.

(** ** Properties *)

(** A concrete key type for the examples: any 33 bytes, kept as they are. *)
Module PlainKeys.
Definition key : Type := dsig (λ l : list byte, length l = 33%nat).
#[export] Instance plain_keys : PublicKeys := {
  PublicKey := key;
  PublicKey_from_slice bs :=
    match decide (length bs = 33%nat) with left H => Some (dexist bs H) | right _ => None end;
  PublicKey_serialize k := `k }.
#[export] Instance plain_keys_laws : PublicKeyLaws.
Proof.
  split.
  - intros k. exact (proj2_dsig k).
  - intros k. cbn. destruct (decide _) as [H|H]; [|by destruct (H (proj2_dsig k))].
    f_equal. by apply dsig_eq.
  - intros bs k Hl. cbn. destruct (decide _); [|done]. by intros [= <-].
Qed.
End PlainKeys.

(** The MWEB base-128 varint is a bijection.  At both types, [i64] amounts
    and [u64] sizes, every value from 0 to the type's maximum is written without
    leaving the ten-byte buffer, and the reader accepts exactly those bytes for
    it: no other byte string reads as the same value, and no accepted string
    overflows. *)
Theorem mweb_varint_bijection MAX v :
  MAX = I64_MAX ∨ MAX = U64_MAX → 0 <= v <= MAX →
  ∃ bs, write_varint7 v = Ok (Z.of_nat (length bs), bs) ∧ 1 <= Z.of_nat (length bs) <= 10 ∧
    ∀ s rest, read_varint7 MAX 0 s = Ok (v, rest) ↔ s = bs ++ rest.
Proof.
  intros HM Hv. assert (127 <= MAX < 2 ^ 64 ∧ MAX mod 128 = 127) as [HMAX Hlow]
    by (by destruct HM as [-> | ->]).
  destruct (write_varint7_some v) as [tmp Hw]; [lia|].
  exists (rev tmp). split_and!.
  - by apply write_varint7_eq.
  - rewrite length_rev. apply write_varint7_loop_len in Hw. lia.
  - rewrite length_rev. apply write_varint7_loop_len in Hw. lia.
  - intros s rest. rewrite read_varint7_ok_iff by done. split.
    + intros (_ & tmp' & Hw' & ->). by simplify_eq.
    + intros ->. eauto.
Qed.

Lemma mweb_varint_bijection_witness :
  ∃ bs, write_varint7 16512 = Ok (Z.of_nat (length bs), bs) ∧ 1 <= Z.of_nat (length bs) <= 10 ∧
    ∀ s rest, read_varint7 I64_MAX 0 s = Ok (16512, rest) ↔ s = bs ++ rest.
Proof. apply mweb_varint_bijection; [by left|unfold I64_MAX; lia]. Defined.

Example varint7_16512 : write_varint7 16512 = Ok (3, [x80; x80; x00]).
Proof. reflexivity. Qed.

(** C15: an MWEB transaction is deserialised from a byte string exactly when the
    string is its serialisation and the transaction is well formed: every
    optional field present if and only if its feature bit is set, every number in
    its range, peg-out scripts not empty, at least one kernel. *)
Theorem mw_transaction_deserialize_iff `{PublicKeyLaws} (t : MwTransaction) (bs : list byte) :
  deserialize mw_tx_codec bs = Ok t ↔ mw_tx_wf t ∧ serialize mw_tx_codec t = Ok bs.
Proof.
  split.
  - apply (serialize_deserialize mw_tx_codec mw_tx_wf).
  - intros [Hwf Hs]. by apply (deserialize_serialize mw_tx_codec mw_tx_wf).
Qed.

Definition sample_kernel `{PublicKeys} : Kernel :=
  {| k_features := 0x0d; k_fee := Some 1000; k_pegin := None;
     k_pegouts := [{| amount := 5; script_pub_key := [x51] |}]; k_lock_height := Some 300;
     k_stealth_excess := None; k_extra_data := []; k_excess := replicate 33 x02;
     k_signature := replicate 64 x03 |}.

Definition sample_mw_tx `{PublicKeys} : MwTransaction :=
  {| kernel_offset := replicate 32 x00; stealth_offset := replicate 32 x01;
     body := {| b_inputs := []; b_outputs := []; b_kernels := [sample_kernel] |} |}.

Lemma sample_kernel_wf `{PublicKeys} : kernel_wf sample_kernel.
Proof.
  constructor; cbn; try done; try by eexists.
  split; [|cbn; lia]. by repeat constructor.
Qed.

Lemma sample_mw_tx_wf `{PublicKeys} : mw_tx_wf sample_mw_tx.
Proof.
  constructor; [done|done| |done]. constructor; (split; [|done]); [constructor..|].
  constructor; [apply sample_kernel_wf|constructor].
Qed.

Lemma mw_transaction_deserialize_iff_witness :
  match serialize mw_tx_codec (sample_mw_tx (H := PlainKeys.plain_keys)) with
  | Ok bs =>
      deserialize (mw_tx_codec (H := PlainKeys.plain_keys)) bs
      = Ok (sample_mw_tx (H := PlainKeys.plain_keys))
  | Err _ => False
  end.
Proof.
  destruct (serialize _ _) as [bs|e] eqn:Hs; [|vm_compute in Hs; discriminate Hs].
  apply (mw_transaction_deserialize_iff (H0 := PlainKeys.plain_keys_laws)). split; [apply sample_mw_tx_wf|done].
Defined.

(** The kernel encoder refuses a kernel whose feature bits announce a field
    that is absent: when it succeeds every announced field is there, and the
    count it returns is the length of its output. *)
Theorem kernel_encode_consistent `{PublicKeyLaws} (k : Kernel) n bs :
  kernel_encode k = Ok (n, bs) →
  n = Z.of_nat (length bs) ∧
  (has_bit (k_features k) FeeFeatureBit = true → is_Some (k_fee k)) ∧
  (has_bit (k_features k) PeginFeatureBit = true → is_Some (k_pegin k)) ∧
  (has_bit (k_features k) HeightLockFeatureBit = true → is_Some (k_lock_height k)) ∧
  (has_bit (k_features k) StealthExcessFeatureBit = true → is_Some (k_stealth_excess k)).
Proof.
  intros He. split; [by apply (encode_len (c := kernel_codec)) in He|].
  unfold kernel_encode in He. inv_ok.
  split_and!; intros Hb; unfold write_if in *; rewrite Hb in *; inv_ok; unfold ok_or, w_lift in *;
    match goal with |- is_Some ?o => destruct o; [by eexists|done] end.
Qed.

Lemma kernel_encode_consistent_witness :
  ∃ n bs, kernel_encode (sample_kernel (H := PlainKeys.plain_keys)) = Ok (n, bs) ∧ n = Z.of_nat (length bs).
Proof.
  destruct (kernel_encode (sample_kernel (H := PlainKeys.plain_keys))) as [[n bs]|e] eqn:He;
    [|vm_compute in He; discriminate He].
  exists n, bs. split; [done|]. by apply (kernel_encode_consistent (H0 := PlainKeys.plain_keys_laws) sample_kernel).
Defined.

(** A negative amount is written as one byte, the one of its low seven bits,
    which is the encoding of an amount from 0 to 127: [write_amount] neither
    refuses it nor writes something that reads back. *)
Theorem write_amount_negative v :
  v < 0 →
  write_amount v = write_amount (v mod 128) ∧
  ∀ rest, ∃ bs, write_amount v = Ok (1, bs) ∧ read_amount (bs ++ rest) = Ok (v mod 128, rest).
Proof.
  intros Hv. pose proof (Z.mod_pos_bound v 128 ltac:(lia)) as Hm.
  assert (write_amount v = write_amount (v mod 128)) as Heq.
  { unfold write_amount, write_varint7. cbn [write_varint7_loop].
    rewrite !(proj2 (Z.leb_le _ 0x7f)) by lia.
    change 0x7f with (Z.ones 7). rewrite !Z.land_ones by lia. change (2 ^ 7) with 128.
    by rewrite Z.mod_mod by lia. }
  split; [done|]. intros rest.
  destruct (roundtrip (c := amount_codec) (v mod 128)) as (bs & He & Hr).
  { unfold is_amount, I64_MAX. lia. }
  exists bs. rewrite Heq, <- (Hr rest). unfold encodes in He. cbn [c_enc amount_codec fixed_codec] in He.
  split; [|done]. rewrite He. do 2 f_equal.
  revert He. unfold write_amount, write_varint7. cbn [write_varint7_loop].
  rewrite (proj2 (Z.leb_le _ 0x7f)) by lia. cbn. intros [= _ <-]. done.
Qed.

Lemma write_amount_negative_witness :
  -1 < 0 ∧ ∀ rest, ∃ bs, write_amount (-1) = Ok (1, bs) ∧ read_amount (bs ++ rest) = Ok (127, rest).
Proof. split; [lia|]. apply (write_amount_negative (-1)). lia. Defined.

(** The message encoder writes the standard fields whenever they are there; the
    decoder looks at the feature bit, and leaves them unread. *)
Theorem message_encode_ignores_bit `{PublicKeyLaws} f :
  standard_fields_wf f →
  ∃ n bs extra, message_encode {| m_features := 0; m_standard_fields := Some f; m_extra_data := [] |}
           = Ok (n, bs) ∧ extra ≠ [] ∧
    message_decode bs = Ok ({| m_features := 0; m_standard_fields := None; m_extra_data := [] |}, extra).
Proof.
  intros Hf. destruct (seg_standard_fields f Hf) as (bs & Hw & Hr).
  exists (1 + Z.of_nat (length bs)), (x00 :: bs), bs. split_and!.
  - unfold message_encode. cbn [m_features m_standard_fields m_extra_data].
    erewrite (w_bind_of _ _ 1 [x00]); [done..|]. cbn beta.
    by rewrite (w_bind_of _ _ _ _ _ [] (Hw 1) eq_refl), app_nil_r.
  - intros ->. specialize (Hr []). unfold standard_fields_decode, read_public_key in Hr. inv_ok.
    match goal with H : c_dec_top (array 33) _ = _ |- _ => by vm_compute in H end.
  - unfold message_decode, rd_bind. cbn [c_dec_top u8 fixed_codec]. by rewrite read_u8_cons.
Qed.
