(* ===== verification/Witness.v ===== *)
(** Witnesses ([src/litecoin/src/blockdata/witness.rs]): the stack of byte strings
    kept as one buffer, elements first and the index table behind them.  The
    operations are those on the buffer; [repr] is the buffer of a list of
    elements, and every operation is shown to be the list operation under it. *)

From Stdlib Require Import String ZArith Lia ZifyBool.
From stdpp Require Import base list.
From Stdlib Require Import Init.Byte.
From coqutil Require Import Byte Word.LittleEndianList.
From S2P Require Import Prelude Io Encode.

(** Indices are little endian ([to_ne_bytes] on such a target), [usize] has 64
    bits.  [None] is a panic in the functions that return no [Result]. *)
Record Witness := Mk_Witness {
  content : list byte;
  witness_elements : Z;
  indices_start : Z }.

Definition witness_new : Witness :=
  {| content := []; witness_elements := 0; indices_start := 0 |}.

(** [&v[from..to]] *)
Definition slice (from to : Z) (v : list byte) : option (list byte) :=
  if (0 <=? from) && (from <=? to) && (to <=? Z.of_nat (length v))
  then Some (take (Z.to_nat (to - from)) (drop (Z.to_nat from) v)) else None.

(** [v[from..from + bs.len()].copy_from_slice(bs)] *)
Definition store (from : Z) (bs v : list byte) : option (list byte) :=
  if (0 <=? from) && (from + Z.of_nat (length bs) <=? Z.of_nat (length v))
  then Some (write_at (Z.to_nat from) bs v) else None.

(** [varint.consensus_encode(&mut &mut v[from..from + varint.size()])] *)
Definition store_varint (from n : Z) (v : list byte) : option (list byte) :=
  match c_enc varint n with
  | Ok (_, bs) => store from bs v
  | Err _ => None
  end.

(** [value.try_into().expect("Larger than u32")] *)
Definition encode_cursor (bytes : list byte) (start_of_indices index value : Z) : option (list byte) :=
  let start := start_of_indices + index * 4 in
  if value <=? U32_MAX then store start (le_split 4 value) bytes else None.

(** The additions wrap, as they do in a build without overflow checks.  The outer
    option is the panic, the inner one the result. *)
Definition decode_cursor (bytes : list byte) (start_of_indices index : Z) : option (option Z) :=
  let start := uwrap 64 (start_of_indices + uwrap 64 (index * 4)) in
  let end_ := uwrap 64 (start + 4) in
  if Z.of_nat (length bytes) <? end_ then Some None
  else
    bs ← slice start end_ bytes;
    Some (Some (le_combine bs)).

(** [while new_len <= required_len { new_len *= 2 }] *)
Fixpoint double_until (fuel : nat) (new_len required_len : Z) : Z :=
  if new_len <=? required_len then
    match fuel with
    | O => new_len
    | S fuel => double_until fuel (2 * new_len) required_len
    end
  else new_len.

Definition resize_if_needed (vec : list byte) (required_len : Z) : list byte :=
  let len := Z.of_nat (length vec) in
  if len <=? required_len then
    let new_len := double_until 64 (Z.max len 1) required_len in
    vec ++ replicate (Z.to_nat (new_len - len)) x00
  else vec.

Definition or_panic {A} (m : option A) : result Error A := ok_or m (Io index_panic).

Record decode_state := { ds_content : list byte; ds_cursor : Z; ds_i : Z }.

Definition checked_add (a b : Z) : option Z := if a + b <=? U64_MAX then Some (a + b) else None.

(** The body of [for i in 0..witness_elements]. *)
Definition witness_decode_step (witness_index_space : Z) (st : decode_state) : rd decode_state :=
  let content := ds_content st in
  let cursor := ds_cursor st in
  let! element_size := c_dec_top varint in
  let element_size_varint_len := varint_size element_size in
  let oversized := OversizedVectorAllocation U64_MAX MAX_VEC_SIZE in
  let! sum := rd_lift (ok_or (checked_add cursor element_size) oversized) in
  let! required_len := rd_lift (ok_or (checked_add sum element_size_varint_len) oversized) in
  if MAX_VEC_SIZE + witness_index_space <? required_len then
    rd_err (OversizedVectorAllocation required_len MAX_VEC_SIZE)
  else
    let! content :=
      rd_lift (or_panic (encode_cursor content 0 (ds_i st) (cursor - witness_index_space))) in
    let content := resize_if_needed content required_len in
    let! content := rd_lift (or_panic (store_varint cursor element_size content)) in
    let cursor := cursor + element_size_varint_len in
    let! read := read_slice element_size in
    let! content := rd_lift (or_panic (store cursor read content)) in
    let cursor := cursor + element_size in
    rd_ret {| ds_content := content; ds_cursor := cursor; ds_i := ds_i st + 1 |}.

(** [v.rotate_left(k)], [v.rotate_right(k)] *)
Definition rotate_left {A} (k : Z) (v : list A) : list A :=
  drop (Z.to_nat k) v ++ take (Z.to_nat k) v.
Definition rotate_right {A} (k : Z) (v : list A) : list A :=
  rotate_left (Z.of_nat (length v) - k) v.

Definition witness_decode : rd Witness :=
  let! witness_elements := c_dec_top varint in
  if MAX_VEC_SIZE <? witness_elements then
    rd_err (OversizedVectorAllocation witness_elements MAX_VEC_SIZE)
  else if witness_elements =? 0 then rd_ret witness_new
  else
    let witness_index_space := witness_elements * 4 in
    let cursor := witness_index_space in
    let content := replicate (Z.to_nat (cursor + 128)) x00 in
    let! st := rd_for witness_elements (witness_decode_step witness_index_space)
                 {| ds_content := content; ds_cursor := cursor; ds_i := 0 |} in
    let content := take (Z.to_nat (ds_cursor st)) (ds_content st) in
    let content := rotate_left witness_index_space content in
    rd_ret {| content := content; witness_elements := witness_elements;
              indices_start := ds_cursor st - witness_index_space |}.

Definition witness_encode (w : Witness) : wr Z :=
  let len := witness_elements w in
  let+ _ := c_enc varint len in
  let content_with_indices_len := Z.of_nat (length (content w)) in
  let indices_size := witness_elements w * 4 in
  let content_len := content_with_indices_len - indices_size in
  let+ out := w_lift (ok_or (slice 0 content_len (content w)) index_panic) in
  let+ _ := emit_slice out in
  w_ret (content_len + varint_size len).

Definition witness_codec : codec Witness := fixed_codec witness_encode witness_decode.

(** ** Building and reading *)

Definition item_size (elem : list byte) : Z :=
  Z.of_nat (length elem) + varint_size (Z.of_nat (length elem)).

(** The loop of [from_slice]. *)
Fixpoint from_slice_loop (content_size i cursor : Z) (slice : list (list byte)) (content : list byte)
  : option (list byte) :=
  match slice with
  | [] => Some content
  | elem :: slice =>
      content ← encode_cursor content content_size i cursor;
      let elem_len := Z.of_nat (length elem) in
      content ← store_varint cursor elem_len content;
      let cursor := cursor + varint_size elem_len in
      content ← store cursor elem content;
      let cursor := cursor + elem_len in
      from_slice_loop content_size (i + 1) cursor slice content
  end.

Definition from_slice (slice : list (list byte)) : option Witness :=
  let witness_elements := Z.of_nat (length slice) in
  let index_size := witness_elements * 4 in
  let content_size := foldr (λ elem sum, item_size elem + sum) 0 slice in
  let content := replicate (Z.to_nat (content_size + index_size)) x00 in
  content ← from_slice_loop content_size 0 0 slice content;
  Some {| content := content; witness_elements := witness_elements; indices_start := content_size |}.

Definition push_slice (w : Witness) (new_element : list byte) : option Witness :=
  let elements := witness_elements w + 1 in
  let previous_content_end := indices_start w in
  let element_len := Z.of_nat (length new_element) in
  let new_item_total_len := varint_size element_len + element_len in
  let content := content w ++ replicate (Z.to_nat (new_item_total_len + 4)) x00 in
  if Z.of_nat (length content) <? previous_content_end then None
  else
    let prev := Z.to_nat previous_content_end in
    let content := take prev content ++ rotate_right new_item_total_len (drop prev content) in
    let start := indices_start w + new_item_total_len in
    content ← encode_cursor content start (elements - 1) previous_content_end;
    let end_varint := previous_content_end + varint_size element_len in
    content ← store_varint previous_content_end element_len content;
    content ← store end_varint new_element content;
    Some {| content := content; witness_elements := elements; indices_start := start |}.

(** [VarInt::consensus_decode(&mut &content[index..]).ok()?] and the element behind it. *)
Definition element_at (content : list byte) (index : Z) : option (option (list byte)) :=
  tail ← slice index (Z.of_nat (length content)) content;
  match c_dec_top varint tail with
  | Err _ => Some None
  | Ok (varint, _) =>
      let start := uwrap 64 (index + varint_size varint) in
      out ← slice start (uwrap 64 (start + varint)) content;
      Some (Some out)
  end.

Definition nth (w : Witness) (index : Z) : option (option (list byte)) :=
  pos ← decode_cursor (content w) (indices_start w) index;
  match pos with
  | None => Some None
  | Some pos => element_at (content w) pos
  end.

Definition last (w : Witness) : option (option (list byte)) :=
  if witness_elements w =? 0 then Some None else nth w (witness_elements w - 1).
Definition second_to_last (w : Witness) : option (option (list byte)) :=
  if witness_elements w <=? 1 then Some None else nth w (witness_elements w - 2).
Definition third_to_last (w : Witness) : option (option (list byte)) :=
  if witness_elements w <=? 2 then Some None else nth w (witness_elements w - 3).

Definition is_empty (w : Witness) : bool := witness_elements w =? 0.

(** [Iter]: [next] is [nth] at the current index, which it advances. *)
Record Iter := { inner : list byte; it_indices_start : Z; current_index : Z }.

Definition iter (w : Witness) : Iter :=
  {| inner := content w; it_indices_start := indices_start w; current_index := 0 |}.

Definition next (it : Iter) : option (option (list byte) * Iter) :=
  index ← decode_cursor (inner it) (it_indices_start it) (current_index it);
  match index with
  | None => Some (None, it)
  | Some index =>
      item ← element_at (inner it) index;
      match item with
      | None => Some (None, it)
      | Some slice =>
          Some (Some slice,
                {| inner := inner it; it_indices_start := it_indices_start it;
                   current_index := current_index it + 1 |})
      end
  end.

(** [collect]: one round per index the buffer has room for, and the last [None]. *)
Fixpoint collect (fuel : nat) (it : Iter) : option (list (list byte)) :=
  match fuel with
  | O => None
  | S fuel =>
      step ← next it;
      match step with
      | (None, _) => Some []
      | (Some item, it) => items ← collect fuel it; Some (item :: items)
      end
  end.

Definition to_vec (w : Witness) : option (list (list byte)) :=
  collect (S (length (content w))) (iter w).

Definition size (w : Witness) : option Z :=
  items ← to_vec w;
  Some (varint_size (witness_elements w) + foldr (λ elem sum, item_size elem + sum) 0 items).

(** ** Taproot spends *)

Definition TAPROOT_ANNEX_PREFIX : byte := x50.
Definition TAPROOT_LEAF_MASK : Z := 0xfe.
Definition TAPROOT_LEAF_TAPSCRIPT : Z := 0xc0.
Definition TAPROOT_CONTROL_BASE_SIZE : Z := 33.

Inductive P2TrSpend :=
| Key (annex : option (list byte))
| Script (leaf_script control_block : list byte) (annex : option (list byte)).

(** [o.expect(..)] *)
Definition expect {A} (o : option (option A)) : option A := mjoin o.

Definition starts_with (v : list byte) (b : byte) : bool :=
  match v with c :: _ => bool_decide (c = b) | [] => false end.

Definition from_witness (w : Witness) : option (option P2TrSpend) :=
  let len := witness_elements w in
  if len =? 0 then Some None
  else if len =? 1 then Some (Some (Key None))
  else
    last_elem ← expect (last w);
    if (len =? 2) && starts_with last_elem TAPROOT_ANNEX_PREFIX then
      Some (Some (Key (Some last_elem)))
    else if (3 <=? len) && starts_with last_elem TAPROOT_ANNEX_PREFIX then
      leaf_script ← expect (third_to_last w);
      control_block ← expect (second_to_last w);
      Some (Some (Script leaf_script control_block (Some last_elem)))
    else
      leaf_script ← expect (second_to_last w);
      Some (Some (Script leaf_script last_elem None)).

Definition spend_annex (s : P2TrSpend) : option (list byte) :=
  match s with Key annex => annex | Script _ _ annex => annex end.

(** [LeafVersion]: the tapscript version, or another even byte that is not the
    annex prefix. *)
Inductive LeafVersion := TapScript | Future (version : Z).

Definition leaf_version_from_consensus (version : Z) : option LeafVersion :=
  if version =? TAPROOT_LEAF_TAPSCRIPT then Some TapScript
  else if version =? 0x50 then None
  else if negb (Z.land version 0xFE =? version) then None
  else Some (Future version).

Definition leaf_version_to_consensus (v : LeafVersion) : Z :=
  match v with TapScript => TAPROOT_LEAF_TAPSCRIPT | Future version => version end.

Record LeafScript := { lf_version : LeafVersion; lf_script : list byte }.

Definition taproot_leaf_script (w : Witness) : option (option LeafScript) :=
  spend ← from_witness w;
  match spend with
  | Some (Script leaf_script ((b :: _) as control_block) _) =>
      if TAPROOT_CONTROL_BASE_SIZE <=? Z.of_nat (length control_block) then
        Some (version ← leaf_version_from_consensus (Z.land (byte.unsigned b) TAPROOT_LEAF_MASK);
              Some {| lf_version := version; lf_script := leaf_script |})
      else Some None
  | _ => Some None
  end.

Definition taproot_control_block (w : Witness) : option (option (list byte)) :=
  spend ← from_witness w;
  match spend with
  | Some (Script _ control_block _) => Some (Some control_block)
  | _ => Some None
  end.

Definition taproot_annex (w : Witness) : option (option (list byte)) :=
  spend ← from_witness w;
  match spend with
  | Some s => Some (spend_annex s)
  | None => Some None
  end.

Definition witness_script (w : Witness) : option (option (list byte)) := last w.

(** ** The buffer of a list of elements *)

Definition elem_bytes (e : list byte) : list byte := varint_bytes (Z.of_nat (length e)) ++ e.
Definition elems (ws : list (list byte)) : list byte := concat (map elem_bytes ws).
Definition content_size (ws : list (list byte)) : Z := Z.of_nat (length (elems ws)).

(** The index table of elements that start at position [pos]. *)
Fixpoint offsets (pos : Z) (ws : list (list byte)) : list byte :=
  match ws with
  | [] => []
  | e :: ws => le_split 4 pos ++ offsets (pos + item_size e) ws
  end.

Definition repr (ws : list (list byte)) : Witness :=
  {| content := elems ws ++ offsets 0 ws;
     witness_elements := Z.of_nat (length ws);
     indices_start := content_size ws |}.

Lemma length_elem_bytes e : Z.of_nat (length (elem_bytes e)) = item_size e.
Proof.
  unfold elem_bytes, item_size. rewrite length_app, Nat2Z.inj_add, length_varint_bytes. lia.
Qed.

Lemma item_size_pos e : 1 <= item_size e ∧ Z.of_nat (length e) < item_size e.
Proof. unfold item_size. pose proof (varint_size_pos (Z.of_nat (length e))). lia. Qed.

Lemma elems_app ws1 ws2 : elems (ws1 ++ ws2) = elems ws1 ++ elems ws2.
Proof. unfold elems. by rewrite map_app, concat_app. Qed.

Lemma elems_snoc ws e : elems (ws ++ [e]) = elems ws ++ elem_bytes e.
Proof. rewrite elems_app. unfold elems at 2. cbn. by rewrite app_nil_r. Qed.

Lemma content_size_cons e ws : content_size (e :: ws) = item_size e + content_size ws.
Proof.
  unfold content_size, elems. cbn. rewrite length_app, Nat2Z.inj_add.
  by rewrite length_elem_bytes.
Qed.

Lemma content_size_app ws1 ws2 : content_size (ws1 ++ ws2) = content_size ws1 + content_size ws2.
Proof. unfold content_size. rewrite elems_app, length_app. lia. Qed.

Lemma content_size_snoc ws e : content_size (ws ++ [e]) = content_size ws + item_size e.
Proof. rewrite content_size_app, content_size_cons. unfold content_size at 2. cbn. lia. Qed.

Lemma content_size_sum ws : foldr (λ elem sum, item_size elem + sum) 0 ws = content_size ws.
Proof. induction ws as [|e ws IH]; [done|]. cbn. by rewrite IH, content_size_cons. Qed.

Lemma content_size_length ws : Z.of_nat (length ws) <= content_size ws.
Proof.
  induction ws as [|e ws IH]; [done|]. rewrite content_size_cons. pose proof (item_size_pos e).
  cbn [length]. lia.
Qed.

Lemma offsets_app pos ws1 ws2 :
  offsets pos (ws1 ++ ws2) = offsets pos ws1 ++ offsets (pos + content_size ws1) ws2.
Proof.
  revert pos. induction ws1 as [|e ws1 IH]; intros pos; cbn [app offsets].
  - unfold content_size. cbn. by rewrite Z.add_0_r.
  - by rewrite IH, <- app_assoc, content_size_cons, Z.add_assoc.
Qed.

Lemma offsets_snoc ws e : offsets 0 (ws ++ [e]) = offsets 0 ws ++ le_split 4 (content_size ws).
Proof. rewrite offsets_app. cbn [offsets]. by rewrite app_nil_r. Qed.

Lemma length_offsets pos ws : length (offsets pos ws) = (4 * length ws)%nat.
Proof.
  revert pos. induction ws as [|e ws IH]; intros pos; [done|]. cbn [offsets].
  rewrite length_app, length_le_split, IH. cbn [length]. lia.
Qed.

(** ** The primitives on a buffer given by its parts *)

Lemma store_app from bs pre old post :
  from = Z.of_nat (length pre) → length old = length bs →
  store from bs (pre ++ old ++ post) = Some (pre ++ bs ++ post).
Proof.
  intros -> Hl. unfold store.
  case_if; [|rewrite !length_app in *; lia].
  by rewrite Nat2Z.id, write_at_app.
Qed.

Lemma encode_cursor_app bytes start index value pre old post :
  bytes = pre ++ old ++ post → start + index * 4 = Z.of_nat (length pre) → length old = 4%nat →
  value <= U32_MAX →
  encode_cursor bytes start index value = Some (pre ++ le_split 4 value ++ post).
Proof.
  intros -> Hs Hl Hv. unfold encode_cursor. rewrite (proj2 (Z.leb_le _ _)) by done.
  apply store_app; [done|]. by rewrite length_le_split.
Qed.

Lemma store_varint_app from n pre old post :
  urange 64 n → from = Z.of_nat (length pre) → Z.of_nat (length old) = varint_size n →
  store_varint from n (pre ++ old ++ post) = Some (pre ++ varint_bytes n ++ post).
Proof.
  intros Hn Hf Hl. unfold store_varint. cbn [c_enc varint fixed_codec].
  rewrite varint_encode_eq by done. apply store_app; [done|].
  pose proof (length_varint_bytes n). lia.
Qed.

Lemma slice_app from to pre mid post :
  from = Z.of_nat (length pre) → to = from + Z.of_nat (length mid) →
  slice from to (pre ++ mid ++ post) = Some mid.
Proof.
  intros -> ->. unfold slice.
  case_if; [|rewrite !length_app in *; lia].
  rewrite Nat2Z.id, drop_app_length. f_equal. apply take_app_length'. lia.
Qed.

(** An element of size [n] written over a free area that has room for it. *)
Lemma store_item pre (e old post : list byte) cursor n :
  cursor = Z.of_nat (length pre) → n = Z.of_nat (length e) → n < 2 ^ 64 →
  Z.of_nat (length old) = item_size e →
  (content ← store_varint cursor n (pre ++ old ++ post);
   store (cursor + varint_size n) e content) = Some (pre ++ elem_bytes e ++ post).
Proof.
  intros Hc -> Hn Hl. unfold item_size in Hl.
  pose proof (varint_size_pos (Z.of_nat (length e))).
  rewrite <- (take_drop (Z.to_nat (varint_size (Z.of_nat (length e)))) old), <- !app_assoc.
  rewrite store_varint_app; [|unfold urange; lia|done|rewrite length_take; lia].
  cbn [mbind option_bind]. rewrite (app_assoc pre), (store_app _ e).
  - unfold elem_bytes. by rewrite <- !app_assoc.
  - rewrite length_app. pose proof (length_varint_bytes (Z.of_nat (length e))). lia.
  - rewrite length_drop. lia.
Qed.

Lemma double_until_spec fuel new_len required_len :
  1 <= new_len → required_len < new_len * 2 ^ Z.of_nat fuel →
  new_len <= double_until fuel new_len required_len ∧
  required_len < double_until fuel new_len required_len.
Proof.
  revert new_len. induction fuel as [|fuel IH]; intros new_len Hn Hr; cbn [double_until].
  - cbn in Hr. destruct (Z.leb_spec new_len required_len); lia.
  - destruct (Z.leb_spec new_len required_len); [|lia].
    destruct (IH (2 * new_len)) as [H1 H2]; [lia|..|lia].
    rewrite Nat2Z.inj_succ, Z.pow_succ_r in Hr by lia. lia.
Qed.

(** The resized buffer is the old one with zeros behind, longer than required. *)
Lemma resize_if_needed_spec vec required_len :
  required_len < 2 ^ 64 →
  ∃ zs, resize_if_needed vec required_len = vec ++ zs ∧
        required_len < Z.of_nat (length (vec ++ zs)).
Proof.
  intros Hr. unfold resize_if_needed. destruct (Z.leb_spec (Z.of_nat (length vec)) required_len).
  - eexists. split; [done|]. rewrite length_app, length_replicate.
    destruct (double_until_spec 64 (Z.max (Z.of_nat (length vec)) 1) required_len); lia.
  - exists []. rewrite app_nil_r. split; [done|lia].
Qed.

(** ** Decoding: the loop over the buffer is a loop over the list of elements *)

(** The decoder without the buffer. *)
Definition elements_decode_step (witness_index_space : Z) (ws : list (list byte))
  : rd (list (list byte)) :=
  let! len := varint_decode in
  let required_len := witness_index_space + content_size ws + len + varint_size len in
  if MAX_VEC_SIZE + witness_index_space <? required_len then
    rd_err (OversizedVectorAllocation (Z.min required_len U64_MAX) MAX_VEC_SIZE)
  else let! e := read_slice len in rd_ret (ws ++ [e]).

Definition elements_decode : rd (list (list byte)) :=
  let! n := varint_decode in
  if MAX_VEC_SIZE <? n then rd_err (OversizedVectorAllocation n MAX_VEC_SIZE)
  else rd_for n (elements_decode_step (n * 4)) [].

(** The buffer while the elements [ws] of [n] have been read: their indices, free
    index space, the elements, and free space. *)
Definition decoding (n : Z) (i : nat) (st : decode_state) (ws : list (list byte)) : Prop :=
  length ws = i ∧ ds_i st = Z.of_nat i ∧ content_size ws <= MAX_VEC_SIZE ∧
  ds_cursor st = n * 4 + content_size ws ∧
  ∃ free tail, ds_content st = offsets 0 ws ++ free ++ elems ws ++ tail ∧
    Z.of_nat (length free) = 4 * (n - Z.of_nat i).

Lemma read_slice_length n s e rest :
  0 <= n → read_slice n s = Ok (e, rest) → n = Z.of_nat (length e).
Proof. intros Hn H. apply read_slice_ok in H as [_ H]; [|done]. done. Qed.

(** Storing the index of the next element, which is then put at the cursor. *)
Lemma decode_store n i st ws (e : list byte) required :
  (Z.of_nat i < n) → n <= MAX_VEC_SIZE → decoding n i st ws →
  required = n * 4 + content_size ws + item_size e → required <= MAX_VEC_SIZE + n * 4 →
  ∃ buf buf', encode_cursor (ds_content st) 0 (ds_i st) (ds_cursor st - n * 4) = Some buf ∧
    store_varint (ds_cursor st) (Z.of_nat (length e)) (resize_if_needed buf required) = Some buf' ∧
    ∃ buf'', store (ds_cursor st + varint_size (Z.of_nat (length e))) e buf' = Some buf'' ∧
    decoding n (S i)
      {| ds_content := buf''; ds_cursor := ds_cursor st + varint_size (Z.of_nat (length e))
                                           + Z.of_nat (length e);
         ds_i := ds_i st + 1 |} (ws ++ [e]).
Proof.
  intros Hi Hn (Hl & Hdi & Hsz & Hcur & free & tail & Hbuf & Hfree) Hreq Hmax.
  rewrite <- (take_drop 4 free) in Hbuf. set (f4 := take 4 free) in *. set (free' := drop 4 free) in *.
  assert (length f4 = 4%nat) as H4 by (subst f4; rewrite length_take; lia).
  unfold MAX_VEC_SIZE in *.
  eexists. rewrite (encode_cursor_app _ 0 (ds_i st) _ (offsets 0 ws) f4 (free' ++ elems ws ++ tail));
    [|by rewrite Hbuf, <- !app_assoc|rewrite length_offsets; lia|done|unfold U32_MAX; lia].
  set (buf := offsets 0 ws ++ _).
  destruct (resize_if_needed_spec buf required) as (zs & -> & Hlen); [lia|].
  set (pre := offsets 0 ws ++ le_split 4 (content_size ws) ++ free' ++ elems ws).
  assert (ds_cursor st = Z.of_nat (length pre)) as Hpre.
  { subst pre free'. rewrite !length_app, length_offsets, length_le_split, length_drop.
    unfold content_size in *. lia. }
  assert (buf ++ zs = pre ++ tail ++ zs) as Hbz.
  { subst buf pre. rewrite Hcur, <- !app_assoc. do 2 f_equal. f_equal. lia. }
  rewrite Hbz in *. rewrite length_app in Hlen.
  set (k := Z.to_nat (item_size e)). pose proof (item_size_pos e).
  rewrite <- (take_drop k (tail ++ zs)).
  set (old := take k (tail ++ zs)) in *. set (post := drop k (tail ++ zs)) in *.
  assert (Z.of_nat (length old) = item_size e) as Hold.
  { subst old. rewrite length_take. subst k. lia. }
  pose proof (store_item pre e old post (ds_cursor st) _ Hpre eq_refl ltac:(lia) Hold) as Hst.
  destruct (store_varint _ _ _) as [buf'|]; [|done]. cbn in Hst. exists buf'.
  split; [done|]. split; [done|]. eexists. split; [exact Hst|].
  split_and!; cbn [ds_i ds_cursor ds_content].
  - rewrite length_app. cbn. lia.
  - lia.
  - rewrite content_size_snoc. unfold MAX_VEC_SIZE. lia.
  - rewrite content_size_snoc. unfold item_size in *. lia.
  - exists free', post. split; [|subst free'; rewrite length_drop; lia].
    subst pre. rewrite offsets_snoc, elems_snoc, <- !app_assoc. done.
Qed.

Lemma witness_decode_step_sim n i st ws s :
  (Z.of_nat i < n) → n <= MAX_VEC_SIZE → decoding n i st ws →
  same_outcome (decoding n (S i)) (witness_decode_step (n * 4) st s)
    (elements_decode_step (n * 4) ws s).
Proof.
  intros Hi Hn Hd. pose proof Hd as (_ & _ & Hsz & Hcur & _).
  apply same_outcome_bind. intros len s' Hv.
  apply varint_decode_ok in Hv as [Hu _]. unfold urange in Hu.
  pose proof (varint_size_pos len) as Hvs.
  assert (0 <= content_size ws) by (unfold content_size; lia).
  unfold checked_add. unfold MAX_VEC_SIZE, U64_MAX in *.
  destruct (Z.ltb_spec (4000000 + n * 4) (n * 4 + content_size ws + len + varint_size len)).
  { unfold rd_bind at 1. case_if; [|cbn; f_equal; lia]. cbn [ok_or rd_lift].
    unfold rd_bind at 1. case_if; [|cbn; f_equal; lia]. cbn [ok_or rd_lift].
    case_if; [|lia]. cbn. f_equal. lia. }
  unfold rd_bind at 1. case_if; [|lia]. cbn [ok_or rd_lift].
  unfold rd_bind at 1. case_if; [|lia]. cbn [ok_or rd_lift]. case_if; [lia|].
  destruct (read_slice len s') as [[e rest]|err] eqn:He.
  - assert (len = Z.of_nat (length e)) as -> by (eapply read_slice_length; [|exact He]; lia).
    destruct (decode_store n i st ws e (ds_cursor st + Z.of_nat (length e) + varint_size (Z.of_nat (length e))))
      as (buf & buf' & H1 & H2 & buf'' & H3 & H4);
      [done..|unfold item_size; lia|unfold MAX_VEC_SIZE; lia|].
    unfold rd_bind. rewrite H1. cbn [or_panic ok_or rd_lift]. rewrite H2. cbn [or_panic ok_or rd_lift].
    rewrite He, H3. done.
  - destruct (decode_store n i st ws (replicate (Z.to_nat len) x00)
      (ds_cursor st + len + varint_size len)) as (buf & buf' & H1 & H2 & _);
      [done..|unfold item_size; rewrite length_replicate, Z2Nat.id by lia; lia|unfold MAX_VEC_SIZE; lia|].
    rewrite length_replicate, Z2Nat.id in H2 by lia.
    unfold rd_bind. rewrite H1. cbn [or_panic ok_or rd_lift]. rewrite H2. cbn [or_panic ok_or rd_lift].
    by rewrite He.
Qed.

Lemma witness_decode_elements s :
  same_outcome (λ w ws, w = repr ws ∧ Z.of_nat (length ws) <= MAX_VEC_SIZE ∧ content_size ws <= MAX_VEC_SIZE)
    (witness_decode s) (elements_decode s).
Proof.
  apply same_outcome_bind. intros n s' Hv.
  apply varint_decode_ok in Hv as [Hu _]. unfold urange in Hu.
  destruct (Z.ltb_spec MAX_VEC_SIZE n); [done|].
  destruct (Z.eqb_spec n 0) as [->|Hn]; [done|].
  unfold rd_bind at 1.
  set (st0 := {| ds_content := _ |}).
  assert (decoding n 0 st0 []) as H0.
  { split_and!; try done; cbn [ds_cursor st0]; [unfold content_size; cbn; lia|].
    exists (replicate (Z.to_nat (n * 4)) x00), (replicate 128 x00). split.
    - cbn [ds_content st0 offsets elems app map concat]. rewrite <- replicate_add. f_equal. lia.
    - rewrite length_replicate. lia. }
  pose proof (rd_for_sim (decoding n) n _ _ _ _ s'
    (λ i st ws s Hi, witness_decode_step_sim n i st ws s ltac:(lia) ltac:(lia)) H0) as Hsim.
  unfold same_outcome in *.
  destruct (rd_for n _ st0 s') as [[st s1]|], (rd_for n _ [] s') as [[ws s2]|]; try done.
  cbn. destruct Hsim as [-> (Hl & _ & Hsz & Hcur & free & tail & Hbuf & Hfree)]. split; [done|].
  assert (free = []) as -> by (apply nil_length_inv; lia).
  split; [|lia]. rewrite Hcur, Hbuf. cbn [app]. rewrite app_assoc, take_app_length'.
  2:{ rewrite length_app, length_offsets. unfold content_size. lia. }
  unfold rotate_left. rewrite drop_app_length', take_app_length' by (rewrite length_offsets; lia).
  unfold repr. f_equal; lia.
Qed.

(** ** The codec *)

Lemma elements_step_reads k ws e rest :
  content_size (ws ++ [e]) <= MAX_VEC_SIZE →
  elements_decode_step k ws (elem_bytes e ++ rest) = Ok (ws ++ [e], rest).
Proof.
  intros Hs. rewrite content_size_snoc in Hs. unfold item_size, content_size in Hs.
  pose proof (varint_size_pos (Z.of_nat (length e))). unfold MAX_VEC_SIZE in Hs.
  unfold elements_decode_step, elem_bytes, rd_bind. rewrite <- app_assoc.
  rewrite varint_decode_app by (unfold urange; lia).
  unfold content_size, MAX_VEC_SIZE. case_if; [lia|].
  unfold read_slice. by rewrite rd_exact_app.
Qed.

Lemma elements_loop_reads k ws1 ws2 rest :
  content_size (ws1 ++ ws2) <= MAX_VEC_SIZE →
  nat_loop (λ st, elements_decode_step k st.1 st.2) (length ws2) (ws1, elems ws2 ++ rest)
  = Ok (ws1 ++ ws2, rest).
Proof.
  revert ws1. induction ws2 as [|e ws2 IH]; intros ws1 Hs.
  - cbn. by rewrite app_nil_r.
  - cbn [length nat_loop fst snd]. change (elems (e :: ws2)) with (elem_bytes e ++ elems ws2).
    rewrite <- app_assoc. rewrite cons_middle, (app_assoc ws1) in Hs.
    rewrite elements_step_reads.
    + cbn [result_bind]. rewrite IH by done. by rewrite <- app_assoc.
    + rewrite content_size_app in Hs. unfold content_size in *. lia.
Qed.

Lemma elements_step_ok k ws s ws' rest :
  elements_decode_step k ws s = Ok (ws', rest) →
  ∃ e, ws' = ws ++ [e] ∧ s = elem_bytes e ++ rest ∧ content_size ws' <= MAX_VEC_SIZE.
Proof.
  unfold elements_decode_step. intros H. apply rd_bind_ok in H as (len & s1 & Hv & H).
  apply varint_decode_ok in Hv as [Hu ->]. unfold urange in Hu. case_if; [done|].
  apply rd_bind_ok in H as (e & s2 & He & [= <- <-]).
  apply read_slice_ok in He as [-> <-]; [|lia].
  exists e. split_and!; [done|unfold elem_bytes; by rewrite <- app_assoc|].
  rewrite content_size_snoc. unfold item_size. lia.
Qed.

Lemma elements_loop_ok k n ws s ws' rest :
  nat_loop (λ st, elements_decode_step k st.1 st.2) n (ws, s) = Ok (ws', rest) →
  content_size ws <= MAX_VEC_SIZE →
  ∃ ws2, ws' = ws ++ ws2 ∧ length ws2 = n ∧ s = elems ws2 ++ rest ∧ content_size ws' <= MAX_VEC_SIZE.
Proof.
  revert ws s. induction n as [|n IH]; intros ws s; cbn [nat_loop fst snd].
  - intros [= <- <-] Hs. exists []. by rewrite app_nil_r.
  - destruct (elements_decode_step k ws s) as [[ws1 s1]|] eqn:Hstep; [|done]. cbn [result_bind].
    intros Hl Hs. apply elements_step_ok in Hstep as (e & -> & -> & Hs1).
    destruct (IH _ _ Hl Hs1) as (ws2 & -> & <- & -> & Hs').
    exists (e :: ws2). rewrite <- app_assoc in Hs' |- *. split_and!; try done.
    change (elems (e :: ws2)) with (elem_bytes e ++ elems ws2). by rewrite app_assoc.
Qed.

(** The wire format: the number of elements, then each with its length. *)
Definition wire (ws : list (list byte)) : list byte :=
  varint_bytes (Z.of_nat (length ws)) ++ elems ws.

Lemma elements_decode_wire ws rest :
  content_size ws <= MAX_VEC_SIZE → elements_decode (wire ws ++ rest) = Ok (ws, rest).
Proof.
  intros Hs. pose proof (content_size_length ws). unfold MAX_VEC_SIZE in *.
  unfold elements_decode, wire, rd_bind. rewrite <- app_assoc, varint_decode_app by (unfold urange; lia).
  unfold MAX_VEC_SIZE. case_if; [lia|]. rewrite rd_for_nat, Nat2Z.id.
  by apply (elements_loop_reads _ []).
Qed.

Lemma elements_decode_ok s ws rest :
  elements_decode s = Ok (ws, rest) → content_size ws <= MAX_VEC_SIZE ∧ s = wire ws ++ rest.
Proof.
  unfold elements_decode. intros H. apply rd_bind_ok in H as (n & s1 & Hv & H).
  apply varint_decode_ok in Hv as [Hu ->]. unfold urange in Hu. case_if; [done|].
  rewrite rd_for_nat in H. apply elements_loop_ok in H as (ws2 & -> & Hl & -> & Hs); [|done].
  split; [done|]. unfold wire. cbn [app]. rewrite Hl, Z2Nat.id, <- app_assoc by lia. done.
Qed.

Lemma witness_decode_ok s w rest :
  witness_decode s = Ok (w, rest) ↔
  ∃ ws, w = repr ws ∧ content_size ws <= MAX_VEC_SIZE ∧ s = wire ws ++ rest.
Proof.
  pose proof (witness_decode_elements s) as Hsim. split.
  - intros Hw. rewrite Hw in Hsim.
    destruct (elements_decode s) as [[ws s']|] eqn:He; [|done]. destruct Hsim as [<- (-> & _ & Hs)].
    apply elements_decode_ok in He as [_ ->]. eauto.
  - intros (ws & -> & Hs & ->). rewrite elements_decode_wire in Hsim by done.
    destruct (witness_decode _) as [[w s']|]; [|done]. by destruct Hsim as [-> (-> & _)].
Qed.

Lemma witness_encode_repr ws :
  content_size ws < 2 ^ 64 →
  witness_encode (repr ws) = Ok (Z.of_nat (length (wire ws)), wire ws).
Proof.
  intros Hs. pose proof (content_size_length ws). unfold witness_encode, wire.
  cbn [c_enc varint fixed_codec repr witness_elements content].
  rewrite varint_encode_eq by (unfold urange; lia). cbn [w_bind].
  rewrite <- (app_nil_l (elems ws ++ _)), (slice_app 0 _ [] (elems ws)); [|done|].
  - cbn. rewrite !app_nil_r. do 2 f_equal. rewrite !length_app, length_offsets.
    pose proof (length_varint_bytes (Z.of_nat (length ws))). lia.
  - cbn [app]. rewrite length_app, length_offsets. lia.
Qed.

(** The witnesses that the decoder builds. *)
Definition witness_wf (w : Witness) : Prop := ∃ ws, w = repr ws ∧ content_size ws <= MAX_VEC_SIZE.

#[export] Instance witness_roundtrip : RoundTrip witness_codec witness_wf.
Proof.
  intros w (ws & -> & Hs). exists (wire ws). split.
  - apply witness_encode_repr. unfold MAX_VEC_SIZE in *. lia.
  - intros rest. apply witness_decode_ok. eauto.
Qed.

#[export] Instance witness_canonical : Canonical witness_codec witness_wf.
Proof.
  intros s w rest Hd. apply witness_decode_ok in Hd as (ws & -> & Hs & ->).
  split; [by exists ws|]. exists (wire ws). split; [|done].
  apply witness_encode_repr. unfold MAX_VEC_SIZE in *. lia.
Qed.

#[export] Instance witness_len : EncodeLen witness_codec.
Proof.
  intros w n bs H. cbn [c_enc witness_codec fixed_codec] in H. unfold witness_encode in H.
  apply w_bind_ok in H as (k & b1 & b2 & Hk & H & ->).
  destruct (slice _ _ _) as [out|] eqn:Hs; [|done]. cbn in H. injection H as <- <-.
  unfold slice in Hs. case_if; [|done]. injection Hs as <-.
  pose proof (encode_len (c := varint) _ _ _ Hk) as ->.
  assert (Z.of_nat (length b1) = varint_size (witness_elements w)) as Hb.
  { cbn [c_enc varint fixed_codec] in Hk. unfold varint_encode, varint_size in *.
    revert Hk. repeat case_if; cbn; intros [= Hk _]; done. }
  rewrite length_app, app_nil_r, length_take, length_drop. lia.
Qed.

(** ** The operations on a represented list *)

Lemma store_item_bind {B} pre (e old post : list byte) cursor n (k : list byte → option B) :
  cursor = Z.of_nat (length pre) → n = Z.of_nat (length e) → n < 2 ^ 64 →
  Z.of_nat (length old) = item_size e →
  (content ← store_varint cursor n (pre ++ old ++ post);
   content ← store (cursor + varint_size n) e content; k content)
  = k (pre ++ elem_bytes e ++ post).
Proof.
  intros Hc Hn Hlt Hl. pose proof (store_item pre e old post cursor n Hc Hn Hlt Hl) as H.
  destruct (store_varint _ _ _) as [b|]; [|done]. cbn in *. by rewrite H.
Qed.

Lemma from_slice_loop_spec ws1 ws2 z1 z2 :
  content_size (ws1 ++ ws2) <= U32_MAX →
  Z.of_nat (length z1) = content_size ws2 → length z2 = (4 * length ws2)%nat →
  from_slice_loop (content_size (ws1 ++ ws2)) (Z.of_nat (length ws1)) (content_size ws1) ws2
    (elems ws1 ++ z1 ++ offsets 0 ws1 ++ z2)
  = Some (elems (ws1 ++ ws2) ++ offsets 0 (ws1 ++ ws2)).
Proof.
  revert ws1 z1 z2. induction ws2 as [|e ws2 IH]; intros ws1 z1 z2 Hs H1 H2.
  - apply nil_length_inv in H2 as ->. unfold content_size in H1. cbn in H1.
    assert (z1 = []) as -> by (apply nil_length_inv; lia). by rewrite !app_nil_r.
  - pose proof (item_size_pos e). rewrite content_size_cons in H1. cbn [length] in H2.
    assert (content_size ws1 + item_size e + content_size ws2 = content_size (ws1 ++ e :: ws2)) as Hsz
      by (rewrite content_size_app, content_size_cons; lia).
    assert (0 <= content_size ws1 ∧ 0 <= content_size ws2) as [? ?] by (unfold content_size; lia).
    cbn [from_slice_loop].
    rewrite <- (take_drop 4 z2). set (o4 := take 4 z2). set (z2' := drop 4 z2).
    erewrite (encode_cursor_app _ _ _ _ (elems ws1 ++ z1 ++ offsets 0 ws1) o4 z2');
      [|by rewrite <- !app_assoc| |subst o4; rewrite length_take; lia|lia].
    2:{ rewrite !length_app, length_offsets. unfold content_size in *. lia. }
    cbn [mbind option_bind]. rewrite <- !app_assoc.
    rewrite <- (take_drop (Z.to_nat (item_size e)) z1), <- !app_assoc.
    rewrite store_item_bind; [|done|done|unfold U32_MAX in *; lia|rewrite length_take; lia].
    specialize (IH (ws1 ++ [e]) (drop (Z.to_nat (item_size e)) z1) z2').
    rewrite <- app_assoc in IH. cbn [app] in IH.
    rewrite <- IH; [|done|rewrite length_drop; lia|subst z2'; rewrite length_drop; lia].
    rewrite elems_snoc, offsets_snoc, content_size_snoc, <- !app_assoc.
    f_equal; [rewrite length_app; cbn; lia|unfold item_size; lia].
Qed.

Lemma from_slice_repr ws :
  content_size ws <= U32_MAX → from_slice ws = Some (repr ws).
Proof.
  intros Hs. assert (0 <= content_size ws) by (unfold content_size; lia).
  unfold from_slice. rewrite content_size_sum, Z2Nat.inj_add, replicate_add by lia.
  pose proof (from_slice_loop_spec [] ws (replicate (Z.to_nat (content_size ws)) x00)
    (replicate (Z.to_nat (Z.of_nat (length ws) * 4)) x00) Hs) as Hl.
  cbn [app length elems map concat offsets] in Hl.
  change (elems []) with (@nil byte) in Hl. change (content_size []) with 0 in Hl.
  change (Z.of_nat 0) with 0 in Hl. cbn [app] in Hl.
  rewrite Hl; [done|rewrite length_replicate; lia..].
Qed.

Lemma rotate_right_app (a b : list byte) k :
  Z.of_nat (length b) = k → rotate_right k (a ++ b) = b ++ a.
Proof.
  intros <-. unfold rotate_right, rotate_left. rewrite length_app.
  rewrite drop_app_length', take_app_length' by lia. done.
Qed.

Lemma push_slice_repr ws e :
  content_size ws <= U32_MAX → Z.of_nat (length e) < 2 ^ 64 →
  push_slice (repr ws) e = Some (repr (ws ++ [e])).
Proof.
  intros Hs He. pose proof (item_size_pos e). unfold push_slice.
  cbn [repr content witness_elements indices_start].
  set (k := varint_size (Z.of_nat (length e)) + Z.of_nat (length e)).
  assert (k = item_size e) as Hk by (unfold k, item_size; lia).
  destruct (Z.ltb_spec (Z.of_nat (length ((elems ws ++ offsets 0 ws) ++ replicate (Z.to_nat (k + 4)) x00)))
    (content_size ws)); [rewrite !length_app in *; unfold content_size in *; lia|].
  replace (Z.to_nat (k + 4)) with (4 + Z.to_nat k)%nat by lia. rewrite replicate_add, <- !app_assoc.
  assert (Z.to_nat (content_size ws) = length (elems ws)) as Hc by (unfold content_size; lia).
  rewrite Hc, take_app_length, drop_app_length, (app_assoc (offsets 0 ws)).
  rewrite rotate_right_app by (rewrite length_replicate; lia).
  erewrite (encode_cursor_app _ _ _ _ (elems ws ++ replicate (Z.to_nat k) x00 ++ offsets 0 ws)
    (replicate 4 x00) []);
    [|by rewrite app_nil_r, <- !app_assoc| |done|done].
  2:{ rewrite !length_app, length_replicate, length_offsets. unfold content_size in *. lia. }
  cbn [mbind option_bind]. rewrite <- !app_assoc, app_nil_r.
  rewrite store_item_bind; [|done|done|done|rewrite length_replicate; lia].
  unfold repr. rewrite elems_snoc, offsets_snoc, content_size_snoc, length_app, <- !app_assoc, Hk.
  do 2 f_equal. cbn. lia.
Qed.

(** The index of element [i] is where it starts. *)
Lemma offsets_lookup ws i :
  (i < length ws)%nat →
  ∃ pre post, offsets 0 ws = pre ++ le_split 4 (content_size (take i ws)) ++ post ∧
    length pre = (4 * i)%nat.
Proof.
  intros Hi. destruct (lookup_lt_is_Some_2 ws i Hi) as [e He].
  rewrite <- (take_drop_middle ws i e He), offsets_app. cbn [offsets].
  exists (offsets 0 (take i ws)). eexists. split.
  - rewrite take_app_length'; [done|]. rewrite length_take. lia.
  - rewrite length_offsets, length_take. lia.
Qed.

Definition small (ws : list (list byte)) : Prop := content_size ws <= U32_MAX.

Lemma decode_cursor_repr ws i :
  small ws → (i < length ws)%nat →
  decode_cursor (elems ws ++ offsets 0 ws) (content_size ws) (Z.of_nat i)
  = Some (Some (content_size (take i ws))).
Proof.
  unfold small, U32_MAX. intros Hs Hi. destruct (offsets_lookup ws i Hi) as (pre & post & Ho & Hp).
  pose proof (content_size_length ws).
  assert (0 <= content_size (take i ws) <= content_size ws) as Hle.
  { rewrite <- (take_drop i ws) at 3. rewrite content_size_app. unfold content_size. lia. }
  unfold decode_cursor. rewrite !(uwrap_small 64 (Z.of_nat i * 4)) by (unfold urange; lia).
  rewrite !(uwrap_small 64 (content_size ws + _)) by (unfold urange; lia).
  rewrite !uwrap_small by (unfold urange; lia).
  case_if. { rewrite length_app, length_offsets in *. unfold content_size in *. lia. }
  rewrite Ho, app_assoc, (slice_app _ _ _ (le_split 4 _)); [|rewrite length_app; unfold content_size; lia|].
  2:{ rewrite length_le_split. lia. }
  cbn [mbind option_bind]. rewrite le_combine_split_u; [done|]. unfold urange. lia.
Qed.

Lemma decode_cursor_end ws i :
  small ws → Z.of_nat (length ws) <= i < 2 ^ 61 →
  decode_cursor (elems ws ++ offsets 0 ws) (content_size ws) i = Some None.
Proof.
  unfold small, U32_MAX. intros Hs Hi. pose proof (content_size_length ws). unfold decode_cursor.
  rewrite !(uwrap_small 64 (i * 4)) by (unfold urange; lia).
  rewrite !(uwrap_small 64 (content_size ws + _)) by (unfold urange; lia).
  rewrite !uwrap_small by (unfold urange; lia).
  case_if; [done|]. rewrite length_app, length_offsets in *. unfold content_size in *. lia.
Qed.

Lemma element_at_repr ws i e :
  small ws → ws !! i = Some e →
  element_at (elems ws ++ offsets 0 ws) (content_size (take i ws)) = Some (Some e).
Proof.
  unfold small, U32_MAX. intros Hs He. pose proof (item_size_pos e) as Hp.
  rewrite <- (take_drop_middle ws i e He) in Hs |- *. set (ws1 := take i ws) in *.
  rewrite take_app_length' by (subst ws1; apply lookup_lt_Some in He; rewrite length_take; lia).
  set (ws2 := drop (S i) ws) in *. rewrite content_size_app, content_size_cons in Hs.
  assert (0 <= content_size ws1 ∧ 0 <= content_size ws2) as [? ?] by (unfold content_size; lia).
  set (off := offsets 0 _). unfold element_at. rewrite elems_app, <- app_assoc.
  set (tail := elems (e :: ws2) ++ off).
  rewrite <- (app_nil_r tail) at 2. rewrite (slice_app _ _ (elems ws1) tail []);
    [|done|rewrite length_app; unfold content_size; lia].
  cbn [mbind option_bind c_dec_top varint fixed_codec]. subst tail.
  change (elems (e :: ws2)) with (elem_bytes e ++ elems ws2). unfold elem_bytes.
  rewrite <- !app_assoc, varint_decode_app by (unfold urange, item_size in *; lia).
  unfold item_size in *. pose proof (varint_size_pos (Z.of_nat (length e))).
  rewrite (uwrap_small 64 (_ + varint_size _)), uwrap_small by (unfold urange; lia).
  rewrite app_assoc, (slice_app _ _ _ e); [done| |done].
  rewrite length_app. pose proof (length_varint_bytes (Z.of_nat (length e))).
  unfold content_size. lia.
Qed.

Lemma nth_repr ws i :
  small ws → 0 <= i < 2 ^ 61 → nth (repr ws) i = Some (ws !! Z.to_nat i).
Proof.
  intros Hs Hi. unfold nth. cbn [repr content indices_start].
  destruct (ws !! Z.to_nat i) as [e|] eqn:He.
  - pose proof (lookup_lt_Some _ _ _ He). rewrite <- (Z2Nat.id i) at 1 by lia.
    rewrite decode_cursor_repr by (done || lia). cbn [mbind option_bind]. by apply element_at_repr.
  - apply lookup_ge_None in He. by rewrite decode_cursor_end by (done || lia).
Qed.

Lemma collect_repr fuel ws i :
  small ws → (i <= length ws)%nat → (length ws - i < fuel)%nat →
  collect fuel {| inner := elems ws ++ offsets 0 ws; it_indices_start := content_size ws;
                  current_index := Z.of_nat i |} = Some (drop i ws).
Proof.
  intros Hs. pose proof (content_size_length ws). unfold small, U32_MAX in Hs.
  revert i. induction fuel as [|fuel IH]; intros i Hi Hf; [lia|].
  cbn [collect]. unfold next. cbn [inner it_indices_start current_index].
  destruct (ws !! i) as [e|] eqn:He.
  - pose proof (lookup_lt_Some _ _ _ He).
    rewrite decode_cursor_repr by done. cbn [mbind option_bind].
    rewrite (element_at_repr ws i e) by done. cbn [mbind option_bind].
    replace (Z.of_nat i + 1) with (Z.of_nat (S i)) by lia. rewrite IH by lia. cbn.
    by rewrite (drop_S _ _ _ He).
  - apply lookup_ge_None in He. rewrite decode_cursor_end by (done || lia). cbn.
    by rewrite drop_ge.
Qed.

Lemma to_vec_repr ws : small ws → to_vec (repr ws) = Some ws.
Proof.
  intros Hs. unfold to_vec, iter. cbn [repr content indices_start].
  rewrite (collect_repr _ ws 0); [done|done|lia|]. rewrite length_app, length_offsets. lia.
Qed.

Lemma size_repr ws : small ws → size (repr ws) = Some (Z.of_nat (length (wire ws))).
Proof.
  intros Hs. unfold size. rewrite to_vec_repr by done. cbn [mbind option_bind].
  rewrite content_size_sum. unfold wire. rewrite length_app, Nat2Z.inj_add, length_varint_bytes. done.
Qed.

Lemma nth_back ws k :
  small ws → 1 <= k → nth (repr ws) (Z.of_nat (length ws) - k) =
    (if k <=? Z.of_nat (length ws) then Some (rev ws !! Z.to_nat (k - 1)) else nth (repr ws) (Z.of_nat (length ws) - k)).
Proof.
  intros Hs Hk. pose proof (content_size_length ws). destruct (Z.leb_spec k (Z.of_nat (length ws))); [|done].
  unfold small, U32_MAX in Hs. rewrite nth_repr by (unfold small, U32_MAX; lia). f_equal.
  change (rev ws) with (List.rev ws). rewrite rev_alt, (reverse_lookup ws) by lia. f_equal. lia.
Qed.

Lemma from_back_repr ws :
  small ws →
  last (repr ws) = Some (rev ws !! 0%nat) ∧
  second_to_last (repr ws) = Some (rev ws !! 1%nat) ∧
  third_to_last (repr ws) = Some (rev ws !! 2%nat).
Proof.
  intros Hs. unfold last, second_to_last, third_to_last. cbn [repr witness_elements].
  change (Mk_Witness _ _ _) with (repr ws).
  assert (∀ k, (length ws <= k)%nat → rev ws !! k = None) as Hnone
    by (intros; apply lookup_ge_None; by rewrite length_rev).
  split_and!; case_if; rewrite ?Hnone by lia; try done;
    rewrite nth_back by (done || lia); case_if; (done || lia).
Qed.

(** The BIP-341 rule on the list of elements: with two or more of them, a last one
    that starts with 0x50 is the annex and is taken off; of what remains, one
    element is a key spend, more are a script spend. *)
Definition taproot_spend (ws : list (list byte)) : option P2TrSpend :=
  match rev ws with
  | [] => None
  | [_] => Some (Key None)
  | last :: stack =>
      let '(annex, stack) :=
        if starts_with last TAPROOT_ANNEX_PREFIX then (Some last, stack) else (None, last :: stack) in
      match stack with
      | [] => None
      | [_] => Some (Key annex)
      | control_block :: leaf_script :: _ => Some (Script leaf_script control_block annex)
      end
  end.

Lemma from_witness_repr ws : small ws → from_witness (repr ws) = Some (taproot_spend ws).
Proof.
  intros Hs. destruct (from_back_repr ws Hs) as (H0 & H1 & H2).
  unfold from_witness, taproot_spend. rewrite H0, H1, H2.
  cbn [repr witness_elements]. rewrite <- (length_rev ws).
  destruct (rev ws) as [|a [|b [|c l]]]; cbn [length lookup list_lookup expect mjoin option_join mbind option_bind];
    try done.
  - by destruct (starts_with a _).
  - case_if; [lia|]. case_if; [lia|]. case_if; [lia|].
    replace (3 <=? _) with true by lia. by destruct (starts_with a _).
Qed.

(** ** Properties *)

(** C14: decoding a witness into its buffer is decoding a list of byte strings: for
    every input the decoder over the buffer (index space in front, a tail that
    grows by doubling, a final rotation) ends, never indexes out of range, fails
    with the same error as the list decoder, and otherwise returns the buffer of
    the list, which is the one byte string read. *)
Theorem witness_decode_refines s :
  witness_decode s =
    match elements_decode s with
    | Ok (ws, rest) => Ok (repr ws, rest)
    | Err e => Err e
    end ∧
  ∀ w rest, witness_decode s = Ok (w, rest) ↔
    ∃ ws, w = repr ws ∧ content_size ws <= MAX_VEC_SIZE ∧ s = wire ws ++ rest.
Proof.
  split; [|intros w rest; apply witness_decode_ok].
  pose proof (witness_decode_elements s) as H. unfold same_outcome in H.
  destruct (witness_decode s) as [[w r]|], (elements_decode s) as [[ws r']|]; try done; [|congruence].
  by destruct H as [-> [-> _]].
Qed.

(** [from_slice] and [push] build the buffer of the list: the elements in
    order, then the index table; [push] on a witness built in any way is
    appending to its list, and the [u32] index never overflows while the elements
    take at most [u32::MAX] bytes. *)
Theorem witness_build ws e :
  content_size ws <= U32_MAX → Z.of_nat (length e) < 2 ^ 64 →
  from_slice ws = Some (repr ws) ∧
  push_slice (repr ws) e = Some (repr (ws ++ [e])).
Proof. intros Hs He. split; [by apply from_slice_repr|by apply push_slice_repr]. Qed.

Lemma witness_build_witness :
  from_slice [[x01]; []] = Some (repr [[x01]; []]) ∧
  push_slice (repr [[x01]; []]) [x02; x03] = Some (repr [[x01]; []; [x02; x03]]).
Proof. apply (witness_build [[x01]; []] [x02; x03]); [by vm_compute|done]. Defined.

(** Reading back: [nth] is list lookup, [None] past the end; [last],
    [second_to_last] and [third_to_last] count from the end; iterating yields the
    list; [size] is the length of the wire encoding.  None of them panics. *)
Theorem witness_read ws i :
  content_size ws <= U32_MAX → 0 <= i < 2 ^ 61 →
  nth (repr ws) i = Some (ws !! Z.to_nat i) ∧
  (last (repr ws) = Some (rev ws !! 0%nat) ∧
   second_to_last (repr ws) = Some (rev ws !! 1%nat) ∧
   third_to_last (repr ws) = Some (rev ws !! 2%nat)) ∧
  to_vec (repr ws) = Some ws ∧
  size (repr ws) = Some (Z.of_nat (length (wire ws))).
Proof.
  intros Hs Hi. split_and!; try by apply from_back_repr.
  - by apply nth_repr.
  - by apply to_vec_repr.
  - by apply size_repr.
Qed.

Lemma witness_read_witness :
  nth (repr [[x01]; []; [x02; x03]]) 2 = Some (Some [x02; x03]) ∧
  size (repr [[x01]; []; [x02; x03]]) = Some 7.
Proof.
  pose proof (witness_read [[x01]; []; [x02; x03]] 2 ltac:(by vm_compute) ltac:(lia)) as (H & _ & _ & H').
  split; [exact H|exact H'].
Defined.

(** The Taproot accessors follow the BIP-341 annex rule: [P2TrSpend::from_witness]
    is that rule on the list of elements, and panics for none. *)
Theorem taproot_spend_rule ws :
  content_size ws <= U32_MAX → from_witness (repr ws) = Some (taproot_spend ws).
Proof. apply from_witness_repr. Qed.

Lemma taproot_spend_rule_witness :
  from_witness (repr [[x01]; [x02]; [xc0]; [x50; x00]])
  = Some (Some (Script [x02] [xc0] (Some [x50; x00]))).
Proof. apply (taproot_spend_rule [[x01]; [x02]; [xc0]; [x50; x00]]). by vm_compute. Defined.

(** With the arithmetic of a build without overflow checks, an index far out of
    range comes back to the first element. *)
Theorem nth_index_wraps ws : small ws → nth (repr ws) (2 ^ 62) = nth (repr ws) 0.
Proof. intros _. unfold nth, decode_cursor. done. Qed.
