(* ===== verification/Units.v ===== *)
(** Units ([src/units/src/]): weights, fee rates and amounts as 64-bit integers,
    with their checked and unchecked arithmetic. *)

From Stdlib Require Import String ZArith Lia ZifyBool.
From stdpp Require Import base list.
From S2P Require Import Prelude.

(** [u64::checked_*] and [i64::checked_*]: [None] on overflow. *)
Definition checked_u64 (x : Z) : option Z :=
  if (0 <=? x) && (x <=? U64_MAX) then Some x else None.
Definition checked_i64 (x : Z) : option Z :=
  if (I64_MIN <=? x) && (x <=? I64_MAX) then Some x else None.
Definition checked_u64_div (x y : Z) : option Z := if y =? 0 then None else Some (x / y).
Definition checked_u64_rem (x y : Z) : option Z := if y =? 0 then None else Some (x mod y).

Lemma checked_u64_Some x y : checked_u64 x = Some y ↔ 0 <= x <= U64_MAX ∧ y = x.
Proof. unfold checked_u64. case_if; (split; [intros [=]|intros [? ->]]); try f_equal; lia. Qed.
Lemma checked_u64_in x : 0 <= x <= U64_MAX → checked_u64 x = Some x.
Proof. intros. by apply checked_u64_Some. Qed.
Lemma checked_u64_None x : checked_u64 x = None ↔ ¬ 0 <= x <= U64_MAX.
Proof. unfold checked_u64. case_if; (split; [intros [=]|intros ?]); (done || lia). Qed.
Lemma checked_i64_Some x y : checked_i64 x = Some y ↔ I64_MIN <= x <= I64_MAX ∧ y = x.
Proof. unfold checked_i64. case_if; (split; [intros [=]|intros [? ->]]); try f_equal; lia. Qed.

(** ** [Weight] *)

Module Weight.
Definition WITNESS_SCALE_FACTOR : Z := 4.
Definition MAX_BLOCK : Z := 4000000.
Definition MIN_TRANSACTION : Z := WITNESS_SCALE_FACTOR * 60.

Definition from_kwu (wu : Z) : option Z := checked_u64 (wu * 1000).
Definition from_vb (vb : Z) : option Z := checked_u64 (vb * WITNESS_SCALE_FACTOR).
Definition from_vb_unchecked (vb : Z) : Z := uwrap 64 (vb * 4).
Definition from_witness_data_size (witness_size : Z) : Z := witness_size.
Definition from_non_witness_data_size (non_witness_size : Z) : Z :=
  uwrap 64 (non_witness_size * WITNESS_SCALE_FACTOR).
Definition to_kwu_floor (w : Z) : Z := w / 1000.
Definition to_vbytes_floor (w : Z) : Z := w / WITNESS_SCALE_FACTOR.
Definition to_vbytes_ceil (w : Z) : Z :=
  uwrap 64 (w + WITNESS_SCALE_FACTOR - 1) / WITNESS_SCALE_FACTOR.
Definition checked_add (w rhs : Z) : option Z := checked_u64 (w + rhs).
Definition checked_sub (w rhs : Z) : option Z := checked_u64 (w - rhs).
Definition checked_mul (w rhs : Z) : option Z := checked_u64 (w * rhs).
Definition checked_div (w rhs : Z) : option Z := checked_u64_div w rhs.
Definition scale_by_witness_factor (w : Z) : option Z := checked_mul w WITNESS_SCALE_FACTOR.
(** The operators [+] and [sum], which wrap in a build without overflow checks. *)
Definition add (w rhs : Z) : Z := uwrap 64 (w + rhs).
Definition sum (ws : list Z) : Z := foldl (λ acc w, uwrap 64 (acc + w)) 0 ws.
End Weight.

(** ** [Amount] and [SignedAmount] *)

Inductive OutOfRangeError := OutOfRange (is_signed is_greater_than_max : bool).

Module Amount.
Definition SIZE : Z := 8.
Definition from_int_btc (btc : Z) : option Z := checked_u64 (btc * 100000000).
Definition MAX_MONEY : option Z := from_int_btc 84000000.
Definition checked_add (a rhs : Z) : option Z := checked_u64 (a + rhs).
Definition checked_sub (a rhs : Z) : option Z := checked_u64 (a - rhs).
Definition checked_mul (a rhs : Z) : option Z := checked_u64 (a * rhs).
Definition checked_div (a rhs : Z) : option Z := checked_u64_div a rhs.
Definition checked_rem (a rhs : Z) : option Z := checked_u64_rem a rhs.
Definition div_by_weight_ceil (a wu : Z) : option Z :=
  sats ← checked_u64 (a * 1000);
  wu1 ← checked_u64 (wu - 1);
  num ← checked_u64 (sats + wu1);
  checked_u64_div num wu.
Definition div_by_weight_floor (a wu : Z) : option Z :=
  sats ← checked_u64 (a * 1000);
  checked_u64_div sats wu.
Definition to_signed (a : Z) : result OutOfRangeError Z :=
  if I64_MAX <? a then Err (OutOfRange true true) else Ok (swrap 64 a).
End Amount.

Module SignedAmount.
Definition is_negative (a : Z) : bool := a <? 0.
Definition unsigned_abs (a : Z) : Z := Z.abs a.
Definition checked_abs (a : Z) : option Z := checked_i64 (Z.abs a).
Definition checked_add (a rhs : Z) : option Z := checked_i64 (a + rhs).
Definition checked_sub (a rhs : Z) : option Z := checked_i64 (a - rhs).
Definition checked_mul (a rhs : Z) : option Z := checked_i64 (a * rhs).
(** Division truncates towards zero; [i64::MIN / -1] overflows. *)
Definition checked_div (a rhs : Z) : option Z :=
  if rhs =? 0 then None else checked_i64 (Z.quot a rhs).
(** [i64::MIN % -1] is an overflow too. *)
Definition checked_rem (a rhs : Z) : option Z :=
  if rhs =? 0 then None
  else if (a =? I64_MIN) && (rhs =? -1) then None else Some (Z.rem a rhs).
Definition positive_sub (a rhs : Z) : option Z :=
  if is_negative a || is_negative rhs || (a <? rhs) then None else checked_sub a rhs.
Definition to_unsigned (a : Z) : result OutOfRangeError Z :=
  if is_negative a then Err (OutOfRange false false) else Ok (uwrap 64 a).
End SignedAmount.

(** ** [FeeRate] *)

Module FeeRate.
Definition from_sat_per_vb (sat_vb : Z) : option Z := checked_u64 (sat_vb * (1000 / 4)).
Definition from_sat_per_vb_u32 (sat_vb : Z) : Z := sat_vb * (1000 / 4).
Definition BROADCAST_MIN : Z := from_sat_per_vb_u32 1.
Definition DUST : Z := from_sat_per_vb_u32 3.
Definition to_sat_per_vb_floor (r : Z) : Z := r / (1000 / 4).
Definition to_sat_per_vb_ceil (r : Z) : Z := uwrap 64 (r + (1000 / 4 - 1)) / (1000 / 4).
Definition checked_mul (r rhs : Z) : option Z := checked_u64 (r * rhs).
Definition checked_div (r rhs : Z) : option Z := checked_u64_div r rhs.
Definition checked_mul_by_weight (r wu : Z) : option Z :=
  p ← checked_u64 (r * wu);
  s ← checked_u64 (p + 999);
  Some (s / 1000).
Definition fee_wu (r weight : Z) : option Z := checked_mul_by_weight r weight.
Definition fee_vb (r vb : Z) : option Z := w ← Weight.from_vb vb; fee_wu r w.
End FeeRate.

(** ** Lemmas *)

Lemma ceil_div_le x y k : 0 < y → (x + (y - 1)) / y <= k ↔ x <= k * y.
Proof.
  intros Hy. split; intros H.
  - pose proof (Z.mul_succ_div_gt (x + (y - 1)) y Hy). nia.
  - apply Z.lt_succ_r. apply Z.div_lt_upper_bound; nia.
Qed.

Lemma checked_mul_by_weight_Some r w fee :
  0 <= r → 0 <= w →
  FeeRate.checked_mul_by_weight r w = Some fee ↔
  r * w + 999 <= U64_MAX ∧ fee = (r * w + 999) / 1000.
Proof.
  intros Hr Hw. unfold FeeRate.checked_mul_by_weight.
  destruct (checked_u64 (r * w)) as [p|] eqn:Hp.
  - apply checked_u64_Some in Hp as [Hp ->]. cbn.
    destruct (checked_u64 (r * w + 999)) as [s|] eqn:Hs; cbn.
    + apply checked_u64_Some in Hs as [Hs ->]. split; [intros [= <-]|intros [? ->]]; (done || lia).
    + apply checked_u64_None in Hs. split; [done|]. intros [? _]. nia.
  - apply checked_u64_None in Hp. cbn. split; [done|]. intros [? _]. nia.
Qed.

(** ** Properties *)

(** The fee of a weight at a rate is the product rounded up to a satoshi, and
    [None] exactly when the product and the rounding leave 64 bits.  The two
    divisions are adjoint to it: [div_by_weight_floor] is the greatest rate whose
    fee is at most the amount, [div_by_weight_ceil] the least rate whose fee, before
    rounding, reaches it. *)
Theorem fee_rate_adjunction a w r :
  0 <= a → 0 < w → 0 <= r → r * w + 999 <= U64_MAX → a * 1000 + w - 1 <= U64_MAX →
  FeeRate.fee_wu r w = Some ((r * w + 999) / 1000) ∧
  (∃ floor ceil, Amount.div_by_weight_floor a w = Some floor ∧
     Amount.div_by_weight_ceil a w = Some ceil ∧
     (r <= floor ↔ (r * w + 999) / 1000 <= a) ∧
     (ceil <= r ↔ a * 1000 <= r * w)).
Proof.
  intros Ha Hw Hr Hrw Haw. split.
  - apply checked_mul_by_weight_Some; [lia..|done].
  - unfold Amount.div_by_weight_floor, Amount.div_by_weight_ceil, checked_u64_div.
    assert (0 <= a * 1000 <= U64_MAX) as H1 by nia.
    rewrite !(checked_u64_in (a * 1000)) by done.
    rewrite (checked_u64_in (w - 1)) by nia. cbn [mbind option_bind].
    rewrite (checked_u64_in (a * 1000 + (w - 1))) by lia. cbn [mbind option_bind].
    destruct (Z.eqb_spec w 0); [lia|]. eexists _, _. split_and!; [done..| |].
    + pose proof (ceil_div_le (r * w) 1000 a ltac:(lia)) as Hc.
      change (1000 - 1) with 999 in Hc. rewrite Hc. split; intros H.
      * pose proof (Z.mul_div_le (a * 1000) w Hw). nia.
      * apply Z.div_le_lower_bound; lia.
    + rewrite ceil_div_le by done. done.
Qed.

Lemma fee_rate_adjunction_witness :
  FeeRate.fee_wu 253 561 = Some 142 ∧
  ∃ floor ceil, Amount.div_by_weight_floor 142 561 = Some floor ∧
     Amount.div_by_weight_ceil 142 561 = Some ceil ∧
     (253 <= floor ↔ (253 * 561 + 999) / 1000 <= 142) ∧
     (ceil <= 253 ↔ 142 * 1000 <= 253 * 561).
Proof. apply (fee_rate_adjunction 142 561 253); unfold U64_MAX; lia. Defined.

(** Conversions between the amount types lose nothing: an [Amount] becomes a
    [SignedAmount] exactly up to [i64::MAX] and comes back as itself; a
    [SignedAmount] becomes an [Amount] exactly when it is not negative. *)
Theorem amount_signed_roundtrip a :
  (0 <= a <= U64_MAX →
     (if a <=? I64_MAX
      then Amount.to_signed a = Ok a ∧ SignedAmount.to_unsigned a = Ok a
      else Amount.to_signed a = Err (OutOfRange true true))) ∧
  (I64_MIN <= a <= I64_MAX →
     (if 0 <=? a
      then SignedAmount.to_unsigned a = Ok a ∧ Amount.to_signed a = Ok a
      else SignedAmount.to_unsigned a = Err (OutOfRange false false))).
Proof.
  unfold Amount.to_signed, SignedAmount.to_unsigned, SignedAmount.is_negative, I64_MAX, I64_MIN, U64_MAX.
  split; intros H; case_if; repeat case_if; try lia; try done;
    rewrite ?swrap_small, ?uwrap_small by (unfold srange, urange; lia); done.
Qed.

Lemma amount_signed_roundtrip_witness :
  Amount.to_signed 84000000 = Ok 84000000 ∧ SignedAmount.to_unsigned 84000000 = Ok 84000000.
Proof. exact (proj1 (amount_signed_roundtrip 84000000) ltac:(unfold U64_MAX; lia)). Defined.

(** Weights: a virtual size and its weight convert back. *)
Lemma vbytes_roundtrip vb w :
  0 <= vb → Weight.from_vb vb = Some w → w + 3 <= U64_MAX →
  Weight.to_vbytes_floor w = vb ∧ Weight.to_vbytes_ceil w = vb.
Proof.
  intros Hv Hw Hm. apply checked_u64_Some in Hw as [Hr ->].
  unfold Weight.to_vbytes_floor, Weight.to_vbytes_ceil, Weight.WITNESS_SCALE_FACTOR in *.
  unfold U64_MAX in Hm. rewrite uwrap_small by (unfold urange; lia).
  split; [by rewrite Z.div_mul by lia|].
  replace (vb * 4 + 4 - 1) with (3 + vb * 4) by lia. by rewrite Z.div_add by lia.
Qed.
