(* ===== verification/Locktime.v ===== *)
(** Lock times ([src/units/src/locktime], [src/litecoin/src/blockdata/locktime]) and
    the input sequence number ([transaction.rs], [Sequence]). *)

From Stdlib Require Import String ZArith Lia ZifyBool.
From stdpp Require Import base list.
From S2P Require Import Prelude Io Encode.

(** ** Absolute lock times *)

Module Absolute.
Definition LOCK_TIME_THRESHOLD : Z := 500000000.

Inductive LockTimeUnit := UnitBlocks | UnitSeconds.
Record ConversionError := { ce_unit : LockTimeUnit; ce_input : Z }.

Definition is_block_height (n : Z) : bool := n <? LOCK_TIME_THRESHOLD.
Definition is_block_time (n : Z) : bool := LOCK_TIME_THRESHOLD <=? n.

Definition height_from_consensus (n : Z) : result ConversionError Z :=
  if is_block_height n then Ok n else Err {| ce_unit := UnitBlocks; ce_input := n |}.
Definition time_from_consensus (n : Z) : result ConversionError Z :=
  if is_block_time n then Ok n else Err {| ce_unit := UnitSeconds; ce_input := n |}.

Inductive LockTime := Blocks (h : Z) | Seconds (t : Z).

(** [from_consensus(n).expect("n is valid")]: [None] is the panic. *)
Definition from_consensus (n : Z) : option LockTime :=
  if is_block_height n then
    match height_from_consensus n with Ok h => Some (Blocks h) | Err _ => None end
  else match time_from_consensus n with Ok t => Some (Seconds t) | Err _ => None end.
Definition from_height (n : Z) : result ConversionError LockTime :=
  let? height := height_from_consensus n in Ok (Blocks height).
Definition from_time (n : Z) : result ConversionError LockTime :=
  let? time := time_from_consensus n in Ok (Seconds time).

Definition is_same_unit (a b : LockTime) : bool :=
  match a, b with Blocks _, Blocks _ | Seconds _, Seconds _ => true | _, _ => false end.
Definition is_satisfied_by (l : LockTime) (height time : Z) : bool :=
  match l with Blocks n => n <=? height | Seconds n => n <=? time end.
Definition is_implied_by (l other : LockTime) : bool :=
  match l, other with
  | Blocks this, Blocks other => this <=? other
  | Seconds this, Seconds other => this <=? other
  | _, _ => false
  end.
Definition to_consensus_u32 (l : LockTime) : Z := match l with Blocks h => h | Seconds t => t end.
Definition partial_cmp (a b : LockTime) : option comparison :=
  match a, b with
  | Blocks a, Blocks b => Some (a ?= b)
  | Seconds a, Seconds b => Some (a ?= b)
  | _, _ => None
  end.

Definition SIZE : Z := 4.

Definition lock_time_encode (l : LockTime) : wr Z := c_enc u32 (to_consensus_u32 l).
Definition lock_time_decode : rd LockTime :=
  let! n := c_dec_top u32 in
  rd_lift (ok_or (from_consensus n) (Io index_panic)).
Definition lock_time_codec : codec LockTime := fixed_codec lock_time_encode lock_time_decode.

(** A value of the Rust types: the unit determines the range. *)
Definition lock_time_wf (l : LockTime) : Prop :=
  match l with
  | Blocks h => 0 <= h < LOCK_TIME_THRESHOLD
  | Seconds t => LOCK_TIME_THRESHOLD <= t <= U32_MAX
  end.

Lemma from_consensus_eq n :
  from_consensus n = Some (if n <? LOCK_TIME_THRESHOLD then Blocks n else Seconds n).
Proof.
  unfold from_consensus, height_from_consensus, time_from_consensus, is_block_height, is_block_time.
  repeat case_if; (done || lia).
Qed.

Lemma from_to_consensus l : lock_time_wf l → from_consensus (to_consensus_u32 l) = Some l.
Proof.
  rewrite from_consensus_eq. unfold lock_time_wf, LOCK_TIME_THRESHOLD.
  destruct l; cbn; intros; case_if; (done || lia).
Qed.

Lemma from_consensus_wf n l :
  urange 32 n → from_consensus n = Some l → lock_time_wf l ∧ to_consensus_u32 l = n.
Proof.
  rewrite from_consensus_eq. unfold urange, lock_time_wf, U32_MAX. intros Hn [= <-].
  case_if; cbn; unfold LOCK_TIME_THRESHOLD in *; split; (done || lia).
Qed.

Lemma lock_time_u32 l : lock_time_wf l → urange 32 (to_consensus_u32 l).
Proof. unfold lock_time_wf, urange, U32_MAX, LOCK_TIME_THRESHOLD. destruct l; cbn; lia. Qed.

#[export] Instance lock_time_roundtrip : RoundTrip lock_time_codec lock_time_wf.
Proof.
  intros l Hl. destruct (roundtrip (c := u32) _ (lock_time_u32 l Hl)) as (bs & He & Hr).
  exists bs. split; [exact He|]. intros rest. cbn [c_dec lock_time_codec fixed_codec].
  unfold lock_time_decode, rd_bind. change (c_dec_top u32) with (c_dec u32).
  by rewrite Hr, from_to_consensus.
Qed.

#[export] Instance lock_time_canonical : Canonical lock_time_codec lock_time_wf.
Proof.
  intros s l rest Hd. cbn [c_dec lock_time_codec fixed_codec] in Hd. unfold lock_time_decode in Hd.
  inv_ok. canonical_fields. destruct (from_consensus _) as [l'|] eqn:Hl; [|done]. cbn in *. simplify_eq.
  apply from_consensus_wf in Hl as [Hwf Heq]; [|done]. split; [done|].
  eexists. split; [|done]. by subst.
Qed.

#[export] Instance lock_time_len : EncodeLen lock_time_codec.
Proof. intros l n bs H. by apply (encode_len (c := u32)) in H. Qed.
#[export] Instance lock_time_top : TopIsFinite lock_time_codec.
Proof. done. Qed.
End Absolute.
#[export] Existing Instances Absolute.lock_time_roundtrip Absolute.lock_time_canonical
  Absolute.lock_time_len Absolute.lock_time_top.

(** ** Relative lock times *)

Module Relative.
Inductive LockTime := Blocks (h : Z) | Time (t : Z).

Record TimeOverflowError := { seconds : Z }.

(** [Time::from_seconds_floor] and [Time::from_seconds_ceil]; the addition is on
    [u32] and wraps in a build without overflow checks. *)
Definition time_from_seconds_floor (seconds : Z) : result TimeOverflowError Z :=
  let interval := seconds / 512 in
  if interval <=? U16_MAX then Ok (uwrap 16 interval) else Err {| seconds := seconds |}.
Definition time_from_seconds_ceil (seconds : Z) : result TimeOverflowError Z :=
  let interval := uwrap 32 (seconds + 511) / 512 in
  if interval <=? U16_MAX then Ok (uwrap 16 interval) else Err {| seconds := seconds |}.

Definition height_to_consensus_u32 (h : Z) : Z := h.
Definition time_to_consensus_u32 (t : Z) : Z := Z.lor (Z.shiftl 1 22) t.
Definition to_consensus_u32 (l : LockTime) : Z :=
  match l with Blocks h => height_to_consensus_u32 h | Time t => time_to_consensus_u32 t end.

Definition from_seconds_floor (seconds : Z) : result TimeOverflowError LockTime :=
  let? time := time_from_seconds_floor seconds in Ok (Time time).
Definition from_seconds_ceil (seconds : Z) : result TimeOverflowError LockTime :=
  let? time := time_from_seconds_ceil seconds in Ok (Time time).

Definition is_same_unit (a b : LockTime) : bool :=
  match a, b with Blocks _, Blocks _ | Time _, Time _ => true | _, _ => false end.
Definition is_block_height (l : LockTime) : bool := match l with Blocks _ => true | _ => false end.

Inductive IncompatibleError := IncompatibleHeight (height time : Z) | IncompatibleTime (time height : Z).

Definition is_satisfied_by_height (l : LockTime) (height : Z) : result IncompatibleError bool :=
  match l with Blocks h => Ok (h <=? height) | Time time => Err (IncompatibleHeight height time) end.
Definition is_satisfied_by_time (l : LockTime) (time : Z) : result IncompatibleError bool :=
  match l with Time t => Ok (t <=? time) | Blocks height => Err (IncompatibleTime time height) end.
Definition is_satisfied_by (l : LockTime) (h t : Z) : bool :=
  match is_satisfied_by_height l h with
  | Ok true => true
  | _ => match is_satisfied_by_time l t with Ok true => true | _ => false end
  end.
Definition is_implied_by (l other : LockTime) : bool :=
  match l, other with
  | Blocks this, Blocks other => this <=? other
  | Time this, Time other => this <=? other
  | _, _ => false
  end.

(** The values of the Rust type: both units are [u16]. *)
Definition lock_time_wf (l : LockTime) : Prop :=
  match l with Blocks h => urange 16 h | Time t => urange 16 t end.
End Relative.

(** ** [Sequence] *)

Module Sequence.
Definition MAX : Z := 0xFFFFFFFF.
Definition ENABLE_RBF_NO_LOCKTIME : Z := 0xFFFFFFFD.
Definition MIN_NO_RBF : Z := 0xFFFFFFFE.
Definition LOCK_TIME_DISABLE_FLAG_MASK : Z := 0x80000000.
Definition LOCK_TYPE_MASK : Z := 0x00400000.
Definition SIZE : Z := 4.

Definition enables_absolute_lock_time (s : Z) : bool := negb (s =? MAX).
Definition is_final (s : Z) : bool := negb (enables_absolute_lock_time s).
Definition is_rbf (s : Z) : bool := s <? MIN_NO_RBF.
Definition is_relative_lock_time (s : Z) : bool := Z.land s LOCK_TIME_DISABLE_FLAG_MASK =? 0.
Definition is_height_locked (s : Z) : bool :=
  is_relative_lock_time s && (Z.land s LOCK_TYPE_MASK =? 0).
Definition is_time_locked (s : Z) : bool :=
  is_relative_lock_time s && (0 <? Z.land s LOCK_TYPE_MASK).
Definition from_height (height : Z) : Z := height.
Definition from_512_second_intervals (intervals : Z) : Z := Z.lor intervals LOCK_TYPE_MASK.

(** [TimeOverflowError::new] asserts that the seconds do overflow; the outer option
    is that panic. *)
Definition time_overflow_error (seconds : Z) : option Relative.TimeOverflowError :=
  if uwrap 32 (seconds + 511) / 512 <=? U16_MAX then None
  else Some {| Relative.seconds := seconds |}.
Definition from_seconds_floor (seconds : Z) : option (result Relative.TimeOverflowError Z) :=
  if seconds / 512 <=? U16_MAX then Some (Ok (from_512_second_intervals (seconds / 512)))
  else e ← time_overflow_error seconds; Some (Err e).
Definition from_seconds_ceil (seconds : Z) : option (result Relative.TimeOverflowError Z) :=
  let interval := uwrap 32 (seconds + 511) / 512 in
  if interval <=? U16_MAX then Some (Ok (from_512_second_intervals interval))
  else e ← time_overflow_error seconds; Some (Err e).

Definition low_u16 (s : Z) : Z := uwrap 16 s.
Definition to_relative_lock_time (s : Z) : option Relative.LockTime :=
  if negb (is_relative_lock_time s) then None
  else
    let lock_value := low_u16 s in
    if is_time_locked s then Some (Relative.Time lock_value)
    else Some (Relative.Blocks lock_value).
End Sequence.

(** [relative::LockTime::from_consensus], [from_sequence] and [to_sequence]. *)
Definition relative_from_consensus (n : Z) : result Z Relative.LockTime :=
  ok_or (Sequence.to_relative_lock_time n) n.
Definition relative_to_sequence (l : Relative.LockTime) : Z := Relative.to_consensus_u32 l.
Definition is_implied_by_sequence (l : Relative.LockTime) (other : Z) : bool :=
  match relative_from_consensus other with
  | Ok other => Relative.is_implied_by l other
  | Err _ => false
  end.

(** ** Lemmas *)

Lemma land_low16 t k : urange 16 t → 16 <= k → Z.land t (2 ^ k) = 0.
Proof.
  intros Ht Hk. apply Z.bits_inj'. intros i Hi. rewrite Z.land_spec, Z.bits_0.
  destruct (decide (i = k)) as [->|Hne]; [|by rewrite Z.pow2_bits_false, andb_false_r by lia].
  unfold urange in Ht. rewrite <- (Z.mod_small t (2 ^ 16)) by lia.
  by rewrite Z.mod_pow2_bits_high by lia.
Qed.

Lemma lor_type_mask t :
  urange 16 t → Z.lor t Sequence.LOCK_TYPE_MASK = t + Sequence.LOCK_TYPE_MASK.
Proof.
  intros Ht. change Sequence.LOCK_TYPE_MASK with (2 ^ 22).
  rewrite <- Z.lxor_lor by (apply land_low16; [done|lia]).
  symmetry. apply Z.add_nocarry_lxor. apply land_low16; [done|lia].
Qed.

Lemma relative_blocks h :
  urange 16 h → Sequence.to_relative_lock_time (Sequence.from_height h) = Some (Relative.Blocks h).
Proof.
  intros Hh. unfold Sequence.to_relative_lock_time, Sequence.is_time_locked,
    Sequence.is_relative_lock_time, Sequence.from_height, Sequence.low_u16.
  change Sequence.LOCK_TIME_DISABLE_FLAG_MASK with (2 ^ 31).
  change Sequence.LOCK_TYPE_MASK with (2 ^ 22).
  rewrite !land_low16 by (done || lia). cbn. by rewrite uwrap_small.
Qed.

Lemma relative_time t :
  urange 16 t →
  Sequence.to_relative_lock_time (Sequence.from_512_second_intervals t) = Some (Relative.Time t).
Proof.
  intros Ht. unfold Sequence.to_relative_lock_time, Sequence.is_time_locked,
    Sequence.is_relative_lock_time, Sequence.from_512_second_intervals, Sequence.low_u16.
  rewrite !Z.land_lor_distr_l.
  change (Z.land Sequence.LOCK_TYPE_MASK Sequence.LOCK_TIME_DISABLE_FLAG_MASK) with 0.
  change (Z.land Sequence.LOCK_TYPE_MASK Sequence.LOCK_TYPE_MASK) with (2 ^ 22).
  rewrite (lor_type_mask t) by done.
  change Sequence.LOCK_TIME_DISABLE_FLAG_MASK with (2 ^ 31).
  change Sequence.LOCK_TYPE_MASK with (2 ^ 22). rewrite !land_low16 by (done || lia). unfold uwrap.
  change (2 ^ 22) with (64 * 2 ^ 16). rewrite Z_mod_plus_full.
  assert (t mod 2 ^ 16 = t) as -> by (by apply uwrap_small). done.
Qed.

Lemma relative_to_sequence_bound l :
  Relative.lock_time_wf l → 0 <= relative_to_sequence l < 2 ^ 23.
Proof.
  intros Hl. destruct l as [h|t].
  - change (relative_to_sequence (Relative.Blocks h)) with h. unfold Relative.lock_time_wf, urange in Hl. lia.
  - change (relative_to_sequence (Relative.Time t)) with (Z.lor (Z.shiftl 1 22) t).
    change (Z.shiftl 1 22) with Sequence.LOCK_TYPE_MASK. rewrite Z.lor_comm, lor_type_mask by done.
    unfold Relative.lock_time_wf, urange in Hl. unfold Sequence.LOCK_TYPE_MASK. lia.
Qed.

Lemma relative_lock_type l :
  Relative.lock_time_wf l →
  Z.land (relative_to_sequence l) Sequence.LOCK_TYPE_MASK
  = if Relative.is_block_height l then 0 else Sequence.LOCK_TYPE_MASK.
Proof.
  intros Hl. destruct l as [h|t]; cbn [Relative.is_block_height].
  - by apply (land_low16 h 22).
  - change (relative_to_sequence (Relative.Time t)) with (Z.lor (Z.shiftl 1 22) t).
    rewrite Z.land_lor_distr_l. change Sequence.LOCK_TYPE_MASK with (2 ^ 22) at 2.
    rewrite (land_low16 t) by (done || lia). done.
Qed.

(** ** Properties *)

(** A consensus lock time is a height below the threshold and a time from it
    on, never a panic; the [u32] comes back unchanged, and being satisfied is
    monotone in what satisfies it: a lock implied by a satisfied lock is satisfied. *)
Theorem absolute_lock_time n l other height time :
  urange 32 n →
  (∃ m, Absolute.from_consensus n = Some m ∧ Absolute.to_consensus_u32 m = n ∧
        (Absolute.is_same_unit m (Absolute.Blocks 0) = (n <? Absolute.LOCK_TIME_THRESHOLD))) ∧
  (Absolute.is_implied_by l other = true → Absolute.is_satisfied_by other height time = true →
   Absolute.is_satisfied_by l height time = true).
Proof.
  intros Hn. split.
  - rewrite Absolute.from_consensus_eq. eexists. split; [done|]. case_if; done.
  - destruct l, other; cbn; lia.
Qed.

Lemma absolute_lock_time_witness :
  Absolute.is_satisfied_by (Absolute.Blocks 100) 150 600000000 = true.
Proof.
  apply (proj2 (absolute_lock_time 0 (Absolute.Blocks 100) (Absolute.Blocks 120) 150 600000000
    ltac:(unfold urange; lia))); done.
Defined.

(** Relative lock times and sequence numbers are inverse: every relative lock
    time survives [to_sequence], is enabled, of the right kind and signals RBF; and
    every sequence number without the disable flag is read as a lock time whose
    own sequence number reads the same. *)
Theorem relative_lock_time_roundtrip (l : Relative.LockTime) (s : Z) :
  (Relative.lock_time_wf l →
     relative_from_consensus (relative_to_sequence l) = Ok l ∧
     Sequence.is_rbf (relative_to_sequence l) = true ∧
     Sequence.is_height_locked (relative_to_sequence l) = Relative.is_block_height l) ∧
  (urange 32 s → Sequence.is_relative_lock_time s = true →
     ∃ m, relative_from_consensus s = Ok m ∧ Relative.lock_time_wf m ∧
          relative_from_consensus (relative_to_sequence m) = Ok m).
Proof.
  assert (∀ l, Relative.lock_time_wf l → relative_from_consensus (relative_to_sequence l) = Ok l) as Hrt.
  { intros [h|t] Hl; cbn in Hl; unfold relative_from_consensus.
    - change (relative_to_sequence (Relative.Blocks h)) with (Sequence.from_height h).
      by rewrite (relative_blocks h Hl).
    - change (relative_to_sequence (Relative.Time t)) with (Z.lor (Z.shiftl 1 22) t).
      rewrite Z.lor_comm. change (Z.lor t (Z.shiftl 1 22)) with (Sequence.from_512_second_intervals t).
      by rewrite (relative_time t Hl). }
  split.
  - intros Hl. split; [by apply Hrt|]. specialize (Hrt l Hl).
    unfold relative_from_consensus, Sequence.to_relative_lock_time in Hrt.
    unfold Sequence.is_rbf, Sequence.is_height_locked, Sequence.is_time_locked in *.
    destruct (Sequence.is_relative_lock_time (relative_to_sequence l)) eqn:Hrel; [|done]. cbn in *.
    split.
    + apply relative_to_sequence_bound in Hl. unfold Sequence.MIN_NO_RBF. lia.
    + rewrite relative_lock_type by done. by destruct l.
  - intros Hs Hrel. unfold relative_from_consensus at 1, Sequence.to_relative_lock_time. rewrite Hrel. cbn.
    assert (urange 16 (Sequence.low_u16 s)) by (apply uwrap_range; lia).
    destruct (Sequence.is_time_locked s); eexists; (split; [done|]); split; (done || by apply Hrt).
Qed.

Lemma relative_lock_time_roundtrip_witness :
  relative_from_consensus (relative_to_sequence (Relative.Time 70)) = Ok (Relative.Time 70).
Proof.
  exact (proj1 (proj1 (relative_lock_time_roundtrip (Relative.Time 70) 0) ltac:(cbn; unfold urange; lia))).
Defined.

(** Seconds to 512-second intervals: both conversions are the rounded quotient,
    [Err] exactly above [u16::MAX] intervals, for seconds up to [u32::MAX - 511];
    above that [from_seconds_ceil] wraps, and the greatest number of seconds is
    accepted as the interval 0. *)
Theorem from_seconds_spec s :
  urange 32 s →
  (Relative.time_from_seconds_floor s =
     (if s <? 512 * 65536 then Ok (s / 512) else Err {| Relative.seconds := s |})) ∧
  (s <= U32_MAX - 511 →
     Relative.time_from_seconds_ceil s =
       (if s <=? 512 * 65535 then Ok ((s + 511) / 512) else Err {| Relative.seconds := s |})) ∧
  Relative.time_from_seconds_ceil U32_MAX = Ok 0.
Proof.
  unfold urange. intros Hs. split_and!; [| |done].
  - unfold Relative.time_from_seconds_floor. pose proof (Z.div_mod s 512).
    pose proof (Z.mod_pos_bound s 512). unfold U16_MAX.
    case_if; case_if; try (exfalso; lia); [|done]. by rewrite uwrap_small by (unfold urange; lia).
  - unfold U32_MAX. intros Hm. unfold Relative.time_from_seconds_ceil.
    rewrite (uwrap_small 32) by (unfold urange; lia). pose proof (Z.div_mod (s + 511) 512).
    pose proof (Z.mod_pos_bound (s + 511) 512). unfold U16_MAX.
    case_if; case_if; try (exfalso; lia); [|done]. by rewrite uwrap_small by (unfold urange; lia).
Qed.

Lemma from_seconds_spec_witness :
  Relative.time_from_seconds_ceil 1025 = Ok 3.
Proof. exact (proj1 (proj2 (from_seconds_spec 1025 ltac:(unfold urange; lia))) ltac:(unfold U32_MAX; lia)). Defined.
