(* ===== verification/Transaction.v ===== *)
(** Transactions ([src/litecoin/src/blockdata/transaction.rs]): outpoints, inputs,
    outputs, the transaction codec with its segwit and MWEB extensions, the three
    identifiers, sizes and weights, and weight prediction. *)

From Stdlib Require Import String ZArith Lia ZifyBool.
From stdpp Require Import base list.
From Stdlib Require Import Init.Byte.
From coqutil Require Import Byte Word.LittleEndianList.
From S2P Require Import Prelude Io HashEngine Sha256 Encode Mimblewimble Witness Units Locktime.

(** ** Outpoints, inputs and outputs *)

Record OutPoint := { txid : list byte; vout : Z }.

Definition outpoint_null : OutPoint := {| txid := replicate 32 x00; vout := U32_MAX |}.

#[export] Instance outpoint_eq_dec : EqDecision OutPoint.
Proof. solve_decision. Defined.

Definition outpoint_is_null (o : OutPoint) : bool := bool_decide (o = outpoint_null).
Definition OUTPOINT_SIZE : Z := 32 + 4.

Definition outpoint_encode (o : OutPoint) : wr Z :=
  let+ len := w_add 0 (c_enc (array 32) (txid o)) in
  w_add len (c_enc u32 (vout o)).
Definition outpoint_decode : rd OutPoint :=
  let! txid := c_dec_top (array 32) in
  let! vout := c_dec_top u32 in
  rd_ret {| txid := txid; vout := vout |}.
Definition outpoint_codec : codec OutPoint := fixed_codec outpoint_encode outpoint_decode.

Record TxIn := {
  previous_output : OutPoint; script_sig : list byte; sequence : Z; witness : Witness }.

Definition enables_lock_time (i : TxIn) : bool := negb (sequence i =? Sequence.MAX).

Definition txin_encode (i : TxIn) : wr Z :=
  let len := 0 in
  let+ len := w_add len (c_enc outpoint_codec (previous_output i)) in
  let+ len := w_add len (c_enc bytes (script_sig i)) in
  let+ len := w_add len (c_enc u32 (sequence i)) in
  w_ret len.
Definition txin_decode : rd TxIn :=
  let! previous_output := c_dec outpoint_codec in
  let! script_sig := c_dec bytes in
  let! sequence := c_dec u32 in
  rd_ret {| previous_output := previous_output; script_sig := script_sig;
            sequence := sequence; witness := witness_new |}.
Definition txin_codec : codec TxIn := finite_codec txin_encode txin_decode.

Record TxOut := { value : Z; script_pubkey : list byte }.

Definition txout_null : TxOut := {| value := 0xffffffffffffffff; script_pubkey := [] |}.

(** [impl_consensus_encoding!(TxOut, value, script_pubkey)] *)
Definition txout_encode (o : TxOut) : wr Z :=
  let len := 0 in
  let+ len := w_add len (c_enc u64 (value o)) in
  let+ len := w_add len (c_enc bytes (script_pubkey o)) in
  w_ret len.
Definition txout_decode : rd TxOut :=
  let! value := c_dec u64 in
  let! script_pubkey := c_dec bytes in
  rd_ret {| value := value; script_pubkey := script_pubkey |}.
Definition txout_decode_top : rd TxOut :=
  rd_take MAX_VEC_SIZE
    (let! value := c_dec_top u64 in
     let! script_pubkey := c_dec_top bytes in
     rd_ret {| value := value; script_pubkey := script_pubkey |}).
Definition txout_codec : codec TxOut := Codec txout_encode txout_decode txout_decode_top.

(** ** Transactions *)

Definition SEGWIT_MARKER : Z := 0x00.
Definition FLAGS_SEGWIT : Z := 0x01.
Definition FLAGS_MWEB_TX : Z := 0x08.

Section Transactions.
Context `{PublicKeys}.

Record Transaction := {
  version : Z; lock_time : Absolute.LockTime; input : list TxIn; output : list TxOut;
  mw_tx : option MwTransaction; is_hog_ex : bool }.

Definition has_witnesses (t : Transaction) : bool :=
  existsb (λ i, negb (is_empty (witness i))) (input t).
Definition has_mweb (t : Transaction) : bool :=
  match mw_tx t with Some _ => true | None => is_hog_ex t end.
Definition no_input (t : Transaction) : bool := match input t with [] => true | _ => false end.
Definition segwit_required (t : Transaction) : bool :=
  let needs_segwit_disambiguation := no_input t && negb (has_mweb t) in
  has_witnesses t || needs_segwit_disambiguation.

(** [for input in &self.input { len += input.witness.consensus_encode(w)?; }] *)
Definition write_witnesses (ins : list TxIn) (len : Z) : wr Z :=
  w_for (λ len i, w_add len (c_enc witness_codec (witness i))) len ins.

Definition write_mweb (mw : option MwTransaction) (len : Z) : wr Z :=
  match mw with
  | Some mw =>
      let+ len := w_add len (c_enc u8 1) in
      w_add len (c_enc mw_tx_codec mw)
  | None => w_add len (c_enc u8 0)
  end.

Definition tx_flag (segwit mweb : bool) : Z :=
  let flag := 0 in
  let flag := if segwit then Z.lor flag FLAGS_SEGWIT else flag in
  if mweb then Z.lor flag FLAGS_MWEB_TX else flag.

Definition write_plain (t : Transaction) (len : Z) : wr Z :=
  let+ len := w_add len (c_enc (vec txin_codec) (input t)) in
  w_add len (c_enc (vec txout_codec) (output t)).

Definition write_extended (t : Transaction) (len : Z) : wr Z :=
  let+ len := w_add len (c_enc u8 SEGWIT_MARKER) in
  let+ len := w_add len (c_enc u8 (tx_flag (segwit_required t) (has_mweb t))) in
  let+ len := w_add len (c_enc (vec txin_codec) (input t)) in
  let+ len := w_add len (c_enc (vec txout_codec) (output t)) in
  let+ len := (if segwit_required t then write_witnesses (input t) len else w_ret len) in
  if has_mweb t then write_mweb (mw_tx t) len else w_ret len.

Definition write_body (t : Transaction) (len : Z) : wr Z :=
  if negb (segwit_required t) && negb (has_mweb t) then write_plain t len else write_extended t len.

Definition transaction_encode (t : Transaction) : wr Z :=
  let len := 0 in
  let+ len := w_add len (c_enc i32 (version t)) in
  let+ len := write_body t len in
  w_add len (c_enc Absolute.lock_time_codec (lock_time t)).

Definition with_witness (i : TxIn) (w : Witness) : TxIn :=
  {| previous_output := previous_output i; script_sig := script_sig i; sequence := sequence i;
     witness := w |}.

(** [for txin in input.iter_mut() { txin.witness = decode(r)?; }] *)
Fixpoint read_witnesses (ins : list TxIn) : rd (list TxIn) :=
  match ins with
  | [] => rd_ret []
  | i :: ins =>
      let! w := c_dec witness_codec in
      let! ins := read_witnesses ins in
      rd_ret (with_witness i w :: ins)
  end.

Definition read_segwit (flag : Z) (ins : list TxIn) : rd (list TxIn) :=
  if has_bit flag FLAGS_SEGWIT then
    let! ins := read_witnesses ins in
    if negb (match ins with [] => true | _ => false end) && forallb (λ i, is_empty (witness i)) ins
    then rd_err (ParseFailed "witness flag set but no witnesses present")
    else rd_ret ins
  else rd_ret ins.

Definition read_mweb (flag : Z) (outs : list TxOut) : rd (option MwTransaction * bool) :=
  if has_bit flag FLAGS_MWEB_TX then
    let! is_mw_tx_present := c_dec u8 in
    if negb (is_mw_tx_present =? 0) then
      let! mw := c_dec mw_tx_codec in rd_ret (Some mw, false)
    else match outs with
         | [] => rd_err (ParseFailed "HogEx transaction must have at least one output")
         | _ => rd_ret (None, true)
         end
  else rd_ret (None, false).

Definition read_extended (version : Z) : rd Transaction :=
  let! segwit_flag := c_dec u8 in
  if negb (Z.land segwit_flag (Z.lor FLAGS_SEGWIT FLAGS_MWEB_TX) =? segwit_flag)
     || (segwit_flag =? 0)
  then rd_err (UnsupportedSegwitFlag segwit_flag)
  else
    let! input := c_dec (vec txin_codec) in
    let! output := c_dec (vec txout_codec) in
    let! input := read_segwit segwit_flag input in
    let! mweb := read_mweb segwit_flag output in
    let! lock_time := c_dec Absolute.lock_time_codec in
    rd_ret {| version := version; lock_time := lock_time; input := input; output := output;
              mw_tx := fst mweb; is_hog_ex := snd mweb |}.

Definition read_plain (version : Z) (input : list TxIn) : rd Transaction :=
  let! output := c_dec (vec txout_codec) in
  let! lock_time := c_dec Absolute.lock_time_codec in
  rd_ret {| version := version; lock_time := lock_time; input := input; output := output;
            mw_tx := None; is_hog_ex := false |}.

Definition transaction_decode : rd Transaction :=
  let! version := c_dec i32 in
  let! input := c_dec (vec txin_codec) in
  match input with
  | [] => read_extended version
  | _ => read_plain version input
  end.

Definition transaction_codec : codec Transaction := finite_codec transaction_encode transaction_decode.

(** ** Identifiers

    Encoding into a hash engine feeds it the bytes written; [None] is the panic of
    [expect("engines don't error")]. *)
Definition hash_written {A} (w : wr A) : option (list byte) :=
  match w with
  | Ok (_, bs) => Some (sha256d_hash bs)
  | Err _ => None
  end.

Definition base_encode (t : Transaction) : wr Z :=
  let+ _ := c_enc i32 (version t) in
  let+ _ := c_enc (vec txin_codec) (input t) in
  let+ _ := c_enc (vec txout_codec) (output t) in
  c_enc Absolute.lock_time_codec (lock_time t).

Definition compute_txid (t : Transaction) : option (list byte) := hash_written (base_encode t).

Definition compute_wtxid (t : Transaction) : option (list byte) :=
  hash_written (c_enc transaction_codec t).

Definition compute_ntxid (t : Transaction) : option (list byte) :=
  compute_txid
    {| version := version t; lock_time := lock_time t;
       input := map (λ i, {| previous_output := previous_output i; script_sig := [];
                             sequence := sequence i; witness := witness_new |}) (input t);
       output := output t; mw_tx := None; is_hog_ex := false |}.

(** ** Predicates *)

Definition is_coinbase (t : Transaction) : bool :=
  match input t with [i] => outpoint_is_null (previous_output i) | _ => false end.
Definition is_explicitly_rbf (t : Transaction) : bool :=
  existsb (λ i, Sequence.is_rbf (sequence i)) (input t).
Definition is_lock_time_enabled (t : Transaction) : bool := existsb enables_lock_time (input t).
Definition is_absolute_timelock_satisfied (t : Transaction) (height time : Z) : bool :=
  if negb (is_lock_time_enabled t) then true
  else Absolute.is_satisfied_by (lock_time t) height time.

(** [tx_in], [tx_out]: the error carries the index and the length. *)
Definition tx_in (t : Transaction) (index : nat) : result (nat * nat) TxIn :=
  ok_or (input t !! index) (index, length (input t)).
Definition tx_out (t : Transaction) (index : nat) : result (nat * nat) TxOut :=
  ok_or (output t !! index) (index, length (output t)).

End Transactions.

(** ** The laws of the codecs *)

Record outpoint_wf (o : OutPoint) : Prop := {
  opwf_txid : is_array 32 (txid o);
  opwf_vout : urange 32 (vout o) }.

#[export] Instance outpoint_roundtrip : RoundTrip outpoint_codec outpoint_wf.
Proof.
  intros [tx vo] []. cbn in *. eapply seg_start; [reflexivity|].
  eapply seg_bind; [seg_field|]. apply seg_map. seg_field.
Qed.
#[export] Instance outpoint_canonical : Canonical outpoint_codec outpoint_wf.
Proof.
  intros s o rest Hd. change (c_dec outpoint_codec) with outpoint_decode in Hd.
  unfold outpoint_decode in Hd. inv_ok. canonical_fields. split; [by constructor|].
  eexists. split; [eapply wseg_start; [reflexivity|]; eapply wseg_bind; by apply wseg_enc|].
  by rewrite <- app_assoc.
Qed.
#[export] Instance outpoint_len : EncodeLen outpoint_codec.
Proof. intros o n bs. eapply wlen_start; [reflexivity|]. wlen_chain. Qed.

(** An input as it is on the wire: without its witness. *)
Record txin_base_wf (i : TxIn) : Prop := {
  iwf_outpoint : outpoint_wf (previous_output i);
  iwf_script : fits_u64 (script_sig i);
  iwf_sequence : urange 32 (sequence i) }.
Definition txin_bare_wf (i : TxIn) : Prop := txin_base_wf i ∧ witness i = witness_new.

#[export] Instance txin_roundtrip : RoundTrip txin_codec txin_bare_wf.
Proof. intros [] [[] Hw]. cbn in *. subst. seg_roundtrip. Qed.
#[export] Instance txin_canonical : Canonical txin_codec txin_bare_wf.
Proof.
  intros s i rest Hd. change (c_dec txin_codec) with txin_decode in Hd. unfold txin_decode in Hd.
  inv_ok. canonical_fields. split; [by split; [constructor|]|]. canonical_finish.
Qed.
#[export] Instance txin_len : EncodeLen txin_codec.
Proof. intros i n bs. eapply wlen_start; [reflexivity|]. wlen_chain. Qed.

Record txout_wf (o : TxOut) : Prop := {
  owf_value : urange 64 (value o);
  owf_script : fits_u64 (script_pubkey o) }.

#[export] Instance txout_roundtrip : RoundTrip txout_codec txout_wf.
Proof. intros [] []. cbn in *. seg_roundtrip. Qed.
#[export] Instance txout_canonical : Canonical txout_codec txout_wf.
Proof.
  intros s o rest Hd. change (c_dec txout_codec) with txout_decode in Hd. unfold txout_decode in Hd.
  inv_ok. canonical_fields. split; [by constructor|]. canonical_finish.
Qed.
#[export] Instance txout_len : EncodeLen txout_codec.
Proof. intros o n bs. eapply wlen_start; [reflexivity|]. wlen_chain. Qed.

Lemma is_empty_wf w : witness_wf w → is_empty w = true → w = witness_new.
Proof.
  intros (ws & -> & _) He. unfold is_empty in He. cbn in He.
  destruct ws; [done|]. cbn in He. lia.
Qed.

Definition bare (i : TxIn) : TxIn := with_witness i witness_new.

(** Transactions that differ in nothing but their witnesses. *)
Definition same_but_witnesses `{PublicKeys} (t u : Transaction) : Prop :=
  version t = version u ∧ lock_time t = lock_time u ∧ map bare (input t) = map bare (input u) ∧
  output t = output u ∧ mw_tx t = mw_tx u ∧ is_hog_ex t = is_hog_ex u.

Lemma vec_txin_bare ins : c_enc (vec txin_codec) ins = c_enc (vec txin_codec) (map bare ins).
Proof.
  cbn [c_enc vec finite_codec]. unfold vec_encode. rewrite length_map.
  destruct (w_add 0 _) as [[len b]|]; [|done]. cbn. by rewrite w_for_map.
Qed.

Lemma flag_cases flag :
  urange 8 flag → negb (Z.land flag 9 =? flag) || (flag =? 0) = false →
  flag = 1 ∨ flag = 8 ∨ flag = 9.
Proof.
  intros Hf H.
  assert (forallb (λ f, negb (Z.land f 9 =? f) || (f =? 0) || (f =? 1) || (f =? 8) || (f =? 9))
    (map Z.of_nat (List.seq 0 256)) = true) as Hall by by vm_compute.
  rewrite forallb_forall in Hall. unfold urange in Hf. specialize (Hall flag).
  lapply Hall; [lia|]. apply in_map_iff. exists (Z.to_nat flag). rewrite List.in_seq. lia.
Qed.

Section Laws.
Context `{Hpk : PublicKeyLaws}.

Record tx_wf (t : Transaction) : Prop := {
  txwf_version : srange 32 (version t);
  txwf_lock_time : Absolute.lock_time_wf (lock_time t);
  txwf_input : vec_wf txin_base_wf (input t);
  txwf_witness : Forall (λ i, witness_wf (witness i)) (input t);
  txwf_output : vec_wf txout_wf (output t);
  txwf_mw : match mw_tx t with Some mw => mw_tx_wf mw ∧ is_hog_ex t = false | None => True end;
  txwf_hogex : is_hog_ex t = true → output t ≠ [] }.

(** *** The pieces of the extended form *)

Lemma seg_txins ins :
  vec_wf txin_base_wf ins →
  seg (λ len, w_add len (c_enc (vec txin_codec) ins)) (c_dec (vec txin_codec)) (map bare ins).
Proof.
  intros [Hw Hl]. rewrite vec_txin_bare. apply (seg_enc (vec txin_codec) (vec_wf txin_bare_wf)).
  split; [|by rewrite length_map]. apply Forall_map. eapply Forall_impl; [exact Hw|].
  intros i []. split; [by constructor|done].
Qed.

Lemma bare_id ins :
  Forall (λ i, witness_wf (witness i)) ins →
  existsb (λ i, negb (is_empty (witness i))) ins = false → map bare ins = ins.
Proof.
  induction 1 as [|i ins Hi _ IH]; [done|]. cbn. intros He.
  apply orb_false_iff in He as [He1 He2]. rewrite IH by done. f_equal.
  destruct i as [po sc sq w]. cbn in *. unfold bare, with_witness. cbn. f_equal. symmetry.
  apply is_empty_wf; [done|]. by destruct (is_empty w).
Qed.

Lemma seg_witnesses ins :
  Forall (λ i, witness_wf (witness i)) ins →
  seg (write_witnesses ins) (read_witnesses (map bare ins)) ins.
Proof.
  induction 1 as [|i ins Hi _ IH]; [apply seg_ret|].
  change (write_witnesses (i :: ins)) with
    (λ len, let+ len := w_add len (c_enc witness_codec (witness i)) in write_witnesses ins len).
  cbn [map read_witnesses]. eapply seg_bind; [by apply (seg_enc witness_codec witness_wf)|].
  destruct i. apply seg_map. exact IH.
Qed.

Lemma seg_segwit (segwit mweb : bool) ins :
  Forall (λ i, witness_wf (witness i)) ins →
  (segwit = false → existsb (λ i, negb (is_empty (witness i))) ins = false) →
  (segwit = true → ins = [] ∨ existsb (λ i, negb (is_empty (witness i))) ins = true) →
  seg (λ len, if segwit then write_witnesses ins len else w_ret len)
    (read_segwit (tx_flag segwit mweb) (map bare ins)) ins.
Proof.
  intros Hw Hno Hyes. unfold read_segwit.
  assert (has_bit (tx_flag segwit mweb) FLAGS_SEGWIT = segwit) as -> by by destruct segwit, mweb.
  destruct segwit.
  - destruct (seg_witnesses ins Hw) as (bs & Hws & Hr). exists bs. split; [done|].
    intros rest. unfold rd_bind. rewrite Hr. case_if; [|done]. exfalso.
    destruct (Hyes eq_refl) as [->|He]; [done|]. apply andb_true_iff in Hif as [_ Hall].
    apply existsb_exists in He as (i & Hin & Hi). rewrite forallb_forall in Hall.
    rewrite Hall in Hi by done. done.
  - rewrite bare_id by auto. apply seg_ret.
Qed.

Lemma seg_mweb (segwit : bool) (t : Transaction) :
  tx_wf t →
  seg (λ len, if has_mweb t then write_mweb (mw_tx t) len else w_ret len)
    (read_mweb (tx_flag segwit (has_mweb t)) (output t)) (mw_tx t, is_hog_ex t).
Proof.
  intros [_ _ _ _ _ Hmw Hhog]. unfold read_mweb.
  assert (has_bit (tx_flag segwit (has_mweb t)) FLAGS_MWEB_TX = has_mweb t) as ->
    by by destruct segwit, (has_mweb t).
  unfold has_mweb. destruct (mw_tx t) as [mw|].
  - destruct Hmw as [Hmw ->]. cbn [write_mweb].
    eapply seg_bind; [apply (seg_enc u8 (urange 8)); unfold urange; lia|]. cbn [negb Z.eqb].
    apply (seg_map _ _ (λ mw, (Some mw, false))). by apply (seg_enc mw_tx_codec mw_tx_wf).
  - destruct (is_hog_ex t); [|apply seg_ret]. cbn [write_mweb].
    destruct (output t); [by destruct Hhog|].
    eapply seg_last; [apply (seg_enc u8 (urange 8)); unfold urange; lia|done].
Qed.

Lemma tx_flag_ok segwit mweb :
  segwit || mweb = true →
  negb (Z.land (tx_flag segwit mweb) (Z.lor FLAGS_SEGWIT FLAGS_MWEB_TX) =? tx_flag segwit mweb)
    || (tx_flag segwit mweb =? 0) = false.
Proof. by destruct segwit, mweb. Qed.

Definition write_lock_time (t : Transaction) (len : Z) : wr Z :=
  w_add len (c_enc Absolute.lock_time_codec (lock_time t)).
Definition wire_input (t : Transaction) : list TxIn :=
  if negb (segwit_required t) && negb (has_mweb t) then input t else [].

(** What follows the version: the first vector tells the two forms apart. *)
Lemma seg_plain (t : Transaction) :
  tx_wf t → has_mweb t = false →
  seg (λ len, let+ len := w_add len (c_enc (vec txout_codec) (output t)) in write_lock_time t len)
    (read_plain (version t) (input t)) t.
Proof.
  intros [_ Hl _ _ Ho _ _] Hm. unfold read_plain.
  eapply seg_bind; [by apply (seg_enc (vec txout_codec) (vec_wf txout_wf))|].
  unfold has_mweb in Hm. destruct t as [? ? ? ? [|] ?]; [done|]. cbn in Hm. subst.
  apply (seg_map _ _ (λ l, {| lock_time := l |})). by apply (seg_enc Absolute.lock_time_codec Absolute.lock_time_wf).
Qed.

Lemma segwit_required_false t :
  segwit_required t = false → has_witnesses t = false ∧ (has_mweb t = false → input t ≠ []).
Proof. unfold segwit_required, no_input. destruct (input t); cbn; split; (lia || done). Qed.

Lemma segwit_required_true t :
  segwit_required t = true → input t = [] ∨ has_witnesses t = true.
Proof. unfold segwit_required, no_input. destruct (has_witnesses t), (input t); cbn; auto. Qed.

Lemma seg_extended (t : Transaction) :
  tx_wf t → segwit_required t || has_mweb t = true →
  seg (λ len, let+ len := w_add len (c_enc u8 (tx_flag (segwit_required t) (has_mweb t))) in
              let+ len := w_add len (c_enc (vec txin_codec) (input t)) in
              let+ len := w_add len (c_enc (vec txout_codec) (output t)) in
              let+ len := (if segwit_required t then write_witnesses (input t) len else w_ret len) in
              let+ len := (if has_mweb t then write_mweb (mw_tx t) len else w_ret len) in
              write_lock_time t len)
    (read_extended (version t)) t.
Proof.
  intros Ht Hext. pose proof Ht as [_ Hl Hi Hw Ho _ _]. unfold read_extended.
  eapply seg_bind; [apply (seg_enc u8 (urange 8)); by destruct (segwit_required t), (has_mweb t)|].
  rewrite tx_flag_ok by done.
  eapply seg_bind; [by apply seg_txins|].
  eapply seg_bind; [by apply (seg_enc (vec txout_codec) (vec_wf txout_wf))|].
  eapply (seg_bind (λ len, if segwit_required t then _ else _)).
  { apply seg_segwit; [done|intros; by apply segwit_required_false|intros; by apply segwit_required_true]. }
  eapply (seg_bind (λ len, if has_mweb t then _ else _)); [by apply seg_mweb|].
  destruct t. apply (seg_map _ _ (λ l, {| lock_time := l |})).
  by apply (seg_enc Absolute.lock_time_codec Absolute.lock_time_wf).
Qed.

Lemma write_extended_lock_time t len :
  (let+ len := write_extended t len in write_lock_time t len) =
  (let+ len := w_add len (c_enc u8 SEGWIT_MARKER) in
   let+ len := w_add len (c_enc u8 (tx_flag (segwit_required t) (has_mweb t))) in
   let+ len := w_add len (c_enc (vec txin_codec) (input t)) in
   let+ len := w_add len (c_enc (vec txout_codec) (output t)) in
   let+ len := (if segwit_required t then write_witnesses (input t) len else w_ret len) in
   let+ len := (if has_mweb t then write_mweb (mw_tx t) len else w_ret len) in
   write_lock_time t len).
Proof. unfold write_extended. repeat (rewrite w_bind_assoc; apply w_bind_ext; intros ?). done. Qed.

Lemma seg_marker : seg (λ len, w_add len (c_enc u8 SEGWIT_MARKER)) (c_dec (vec txin_codec)) [].
Proof.
  eapply seg_ext; [|apply (seg_enc (vec txin_codec) (vec_wf txin_bare_wf)); split; [constructor|done]].
  intros len. vm_compute. by destruct len.
Qed.

#[export] Instance transaction_roundtrip : RoundTrip transaction_codec tx_wf.
Proof.
  intros t Ht. pose proof Ht as [Hv _ Hi Hw _ _ _].
  eapply seg_start; [reflexivity|]. change (c_dec transaction_codec) with transaction_decode.
  unfold transaction_decode. eapply seg_bind; [by apply (seg_enc i32 (srange 32))|].
  unfold write_body. destruct (negb (segwit_required t) && negb (has_mweb t)) eqn:Hplain.
  - apply andb_true_iff in Hplain as [Hs%negb_true_iff Hm%negb_true_iff].
    apply segwit_required_false in Hs as [Hno Hne].
    eapply seg_ext; [intros len; apply w_bind_assoc|].
    eapply seg_bind; [by apply seg_txins|]. rewrite (bare_id _ Hw Hno).
    pose proof (seg_plain t Ht Hm) as Hp. destruct (input t); [by destruct Hne|]. exact Hp.
  - eapply seg_ext; [intros len; apply write_extended_lock_time|].
    eapply seg_bind; [apply seg_marker|]. apply seg_extended; [done|lia].
Qed.

#[export] Instance transaction_len : EncodeLen transaction_codec.
Proof.
  intros t n bs. eapply wlen_start; [reflexivity|].
  apply (wlen_bind (λ len, _)); [wlen_chain|]. apply (wlen_bind (write_body t)).
  2:{ wlen_chain. }
  unfold write_body, write_plain, write_extended, write_witnesses, write_mweb.
  apply wlen_if; [wlen_chain|]. wlen_chain.
  - intros len n' bs'. rewrite <- (w_for_map (λ len w, w_add len (c_enc witness_codec w)) witness).
    apply (w_for_len witness_codec).
  - destruct (mw_tx t); wlen_chain.
Qed.

(** *** What the decoder accepts *)

Lemma read_witnesses_ok ins s ins' rest :
  Forall txin_bare_wf ins → read_witnesses ins s = Ok (ins', rest) →
  map bare ins' = ins ∧ Forall txin_base_wf ins' ∧ Forall (λ i, witness_wf (witness i)) ins' ∧
  ∃ bs, wseg (write_witnesses ins') bs ∧ s = bs ++ rest.
Proof.
  intros Hw. revert s ins' rest. induction Hw as [|i ins [Hb Hn] _ IH]; intros s ins' rest; cbn [read_witnesses].
  - intros [= <- <-]. split_and!; [done..|]. exists []. split; [apply wseg_ret|done].
  - intros Hd. inv_ok. canonical_fields.
    match goal with H : read_witnesses _ _ = _ |- _ => apply IH in H as (<- & ? & ? & bs & Hbs & ->) end.
    split_and!.
    + cbn. f_equal. destruct i. cbn in *. by subst.
    + constructor; [|done]. by destruct i, Hb.
    + by constructor.
    + eexists. rewrite app_assoc. split; [|done].
      change (write_witnesses (_ :: _)) with
        (λ len, let+ len := w_add len (c_enc witness_codec x) in write_witnesses x1 len).
      eapply wseg_bind; [by apply wseg_enc|exact Hbs].
Qed.

Definition no_witness (ins : list TxIn) : bool := forallb (λ i, is_empty (witness i)) ins.

Lemma no_witness_exists ins :
  no_witness ins = negb (existsb (λ i, negb (is_empty (witness i))) ins).
Proof.
  induction ins as [|i ins IH]; [done|]. cbn. unfold no_witness in IH. rewrite IH.
  by destruct (is_empty (witness i)).
Qed.

Lemma no_witness_bare ins : Forall txin_bare_wf ins → no_witness ins = true ∧ map bare ins = ins.
Proof.
  induction 1 as [|i ins [_ Hn] _ [IH1 IH2]]; [done|]. cbn. unfold no_witness in IH1. rewrite Hn, IH1, IH2.
  split; [done|]. f_equal. destruct i. cbn in *. by subst.
Qed.

Lemma read_segwit_ok flag ins s ins' rest :
  Forall txin_bare_wf ins → read_segwit flag ins s = Ok (ins', rest) →
  map bare ins' = ins ∧ Forall txin_base_wf ins' ∧ Forall (λ i, witness_wf (witness i)) ins' ∧
  (if has_bit flag FLAGS_SEGWIT then ins' = [] ∨ no_witness ins' = false else no_witness ins' = true) ∧
  ∃ bs, wseg (λ len, if has_bit flag FLAGS_SEGWIT then write_witnesses ins' len else w_ret len) bs ∧
        s = bs ++ rest.
Proof.
  intros Hw Hd. unfold read_segwit in Hd. destruct (has_bit flag FLAGS_SEGWIT).
  - inv_ok. match goal with H : read_witnesses _ _ = _ |- _ =>
      apply read_witnesses_ok in H as (<- & ? & ? & bs & Hbs & ->); [|done] end.
    case_if; [done|]. inv_ok. split_and!; [done..| |by exists bs].
    apply andb_false_iff in Hif as [Hif|Hif]; [left|by right]. by destruct ins'.
  - inv_ok. destruct (no_witness_bare ins' Hw) as [Hn ->]. split_and!; [done|..|done|].
    + eapply Forall_impl; [exact Hw|]. by intros i [].
    + eapply Forall_impl; [exact Hw|]. intros i [_ ->]. by exists [].
    + exists []. split; [apply wseg_ret|done].
Qed.

Lemma read_mweb_ok flag outs s mw hog rest :
  read_mweb flag outs s = Ok ((mw, hog), rest) →
  match mw with Some m => mw_tx_wf m ∧ hog = false | None => True end ∧
  (hog = true → outs ≠ []) ∧
  match mw with Some _ => true | None => hog end = has_bit flag FLAGS_MWEB_TX ∧
  (has_bit flag FLAGS_MWEB_TX = false → s = rest).
Proof.
  unfold read_mweb. destruct (has_bit flag FLAGS_MWEB_TX).
  - intros Hd. inv_ok.
    match goal with H : (if negb (?p =? 0) then _ else _) _ = _ |- _ => destruct (negb (p =? 0)) end.
    + inv_ok. canonical_fields. simplify_eq. by split_and!.
    + destruct outs; inv_ok. simplify_eq. by split_and!.
  - intros [= <- <- <-]. by split_and!.
Qed.

(** The identity of the list behind [bare]. *)
Lemma vec_txin_wf ins :
  vec_wf txin_bare_wf (map bare ins) → Forall txin_base_wf ins → vec_wf txin_base_wf ins.
Proof. intros [_ Hl] Hb. split; [done|]. by rewrite length_map in Hl. Qed.

Lemma encodes_bare ins bs :
  encodes (vec txin_codec) (map bare ins) bs → encodes (vec txin_codec) ins bs.
Proof. unfold encodes. by rewrite (vec_txin_bare ins). Qed.

Lemma read_plain_ok v ins s t rest :
  srange 32 v → vec_wf txin_bare_wf ins → ins ≠ [] → read_plain v ins s = Ok (t, rest) →
  tx_wf t ∧ version t = v ∧ input t = ins ∧ has_mweb t = false ∧ segwit_required t = false ∧
  ∃ bs, wseg (λ len, let+ len := w_add len (c_enc (vec txout_codec) (output t)) in
                     write_lock_time t len) bs ∧ s = bs ++ rest.
Proof.
  intros Hv [Hi Hl] Hne Hd. unfold read_plain in Hd. inv_ok. canonical_fields.
  destruct (no_witness_bare ins Hi) as [Hno _].
  split_and!; try done.
  - constructor; try done; cbn.
    + split; [|done]. eapply Forall_impl; [exact Hi|]. by intros i [].
    + eapply Forall_impl; [exact Hi|]. intros i [_ ->]. by exists [].
  - unfold segwit_required, has_witnesses, no_input. cbn. rewrite no_witness_exists in Hno.
    apply negb_true_iff in Hno. rewrite Hno. by destruct ins.
  - eexists. split; [eapply wseg_bind; by apply wseg_enc|]. by rewrite <- app_assoc.
Qed.

Lemma read_extended_ok v s t rest :
  srange 32 v → read_extended v s = Ok (t, rest) →
  tx_wf t ∧ version t = v ∧
  (has_mweb t = false → segwit_required t = true ∧
   ∃ bs, wseg (λ len, let+ len := w_add len (c_enc u8 (tx_flag true false)) in
              let+ len := w_add len (c_enc (vec txin_codec) (input t)) in
              let+ len := w_add len (c_enc (vec txout_codec) (output t)) in
              let+ len := write_witnesses (input t) len in
              write_lock_time t len) bs ∧ s = bs ++ rest).
Proof.
  intros Hv Hd. unfold read_extended in Hd.
  apply rd_bind_ok in Hd as (flag & s1 & Hf & Hd). apply canonical in Hf as (Hf & b0 & He0 & ->).
  destruct (_ || (flag =? 0)) eqn:Hflag; [done|].
  inv_ok. canonical_fields.
  match goal with H : vec_wf txin_bare_wf _ |- _ => pose proof H as [Hbare Hlen] end.
  match goal with H : read_segwit _ _ _ = _ |- _ =>
    apply read_segwit_ok in H as (Hb & Hbw & Hww & Hsw & b3 & W3 & ->); [|done] end.
  match goal with m : _ * bool |- _ => destruct m as [mw hog] end.
  match goal with H : read_mweb _ _ _ = _ |- _ => apply read_mweb_ok in H as (Hmw & Hhog & Hbit & Hrest) end.
  subst. cbn [fst snd]. split_and!; [|done|].
  - constructor; cbn; try done. by eapply vec_txin_wf.
  - unfold has_mweb. cbn [mw_tx is_hog_ex]. intros Hm. rewrite Hm in Hbit. rewrite (Hrest (eq_sym Hbit)).
    apply flag_cases in Hflag as [-> | [-> | ->]]; [|done..]. cbn in Hsw.
    split.
    + unfold segwit_required, has_mweb, has_witnesses, no_input. cbn. rewrite Hm.
      destruct Hsw as [-> | Hsw]; [done|]. rewrite no_witness_exists in Hsw.
      apply negb_false_iff in Hsw. by rewrite Hsw.
    + eexists. split.
      { eapply wseg_bind; [by apply (wseg_enc u8)|]. eapply wseg_bind; [by apply wseg_enc, encodes_bare|].
        eapply wseg_bind; [by apply wseg_enc|]. eapply wseg_bind; [exact W3|]. by apply wseg_enc. }
      by rewrite <- !app_assoc.
Qed.

Lemma transaction_decode_ok s t rest :
  transaction_decode s = Ok (t, rest) →
  tx_wf t ∧ (has_mweb t = false → ∃ bs, encodes transaction_codec t bs ∧ s = bs ++ rest).
Proof.
  intros Hd. unfold transaction_decode in Hd.
  apply rd_bind_ok in Hd as (v & s1 & Hv & Hd). apply canonical in Hv as (Hv & b0 & He0 & ->).
  apply rd_bind_ok in Hd as (ins & s2 & Hi & Hd). apply canonical in Hi as (Hi & b1 & He1 & ->).
  destruct ins as [|i ins].
  - apply read_extended_ok in Hd as (Hwf & <- & Hcan); [|done]. split; [done|]. intros Hm.
    destruct (Hcan Hm) as (Hs & bs & Hw & ->). exists (b0 ++ b1 ++ bs). rewrite <- !app_assoc.
    split; [|done]. eapply wseg_start; [reflexivity|]. eapply wseg_bind; [by apply wseg_enc|].
    unfold write_body. rewrite Hs, Hm. cbn [negb andb].
    eapply wseg_ext; [intros len; apply write_extended_lock_time|]. rewrite Hs, Hm.
    eapply wseg_bind; [|eapply wseg_ext; [|exact Hw]].
    + intros len. rewrite <- (wseg_enc _ _ _ He1). by destruct len.
    + intros len. do 3 (apply w_bind_ext; intros ?). apply w_bind_ext; intros ?. done.
  - apply read_plain_ok in Hd as (Hwf & <- & Hin & Hm & Hs & bs & Hw & ->); [|done..].
    split; [done|]. intros _. exists (b0 ++ b1 ++ bs). rewrite <- !app_assoc.
    split; [|done]. eapply wseg_start; [reflexivity|]. eapply wseg_bind; [by apply wseg_enc|].
    unfold write_body. rewrite Hs, Hm. cbn [negb andb].
    eapply wseg_ext; [intros len; apply w_bind_assoc|].
    eapply wseg_bind; [|exact Hw]. rewrite Hin. by apply wseg_enc.
Qed.
End Laws.

(** ** Sizes and weights

    Sizes of data held in memory: [usize] sums that do not overflow, kept as
    unbounded integers.  [Witness::size] may panic on a buffer that is not one of a
    list, hence the options. *)

Definition txin_base_size (i : TxIn) : Z :=
  let size := OUTPOINT_SIZE in
  let size := size + varint_size (Z.of_nat (length (script_sig i))) in
  let size := size + Z.of_nat (length (script_sig i)) in
  size + Sequence.SIZE.
Definition txin_total_size (i : TxIn) : option Z :=
  w ← size (witness i); Some (txin_base_size i + w).
Definition TXIN_BASE_WEIGHT : option Z := Weight.from_vb (OUTPOINT_SIZE + Sequence.SIZE).
Definition txin_legacy_weight (i : TxIn) : Z := Weight.from_non_witness_data_size (txin_base_size i).
Definition txin_segwit_weight (i : TxIn) : option Z :=
  w ← size (witness i);
  Some (Weight.add (Weight.from_non_witness_data_size (txin_base_size i)) (Weight.from_witness_data_size w)).

Definition size_from_script_pubkey (script_pubkey : list byte) : Z :=
  let len := Z.of_nat (length script_pubkey) in
  Amount.SIZE + varint_size len + len.
Definition txout_size (o : TxOut) : Z := size_from_script_pubkey (script_pubkey o).
Definition txout_weight (o : TxOut) : option Z := Weight.from_vb (txout_size o).

Definition zsum (xs : list Z) : Z := foldr Z.add 0 xs.

Section Sizes.
Context `{PublicKeys}.

Definition uses_segwit_serialization (t : Transaction) : bool :=
  if existsb (λ i, negb (is_empty (witness i))) (input t) then true
  else match input t with [] => true | _ => false end.

Definition base_size (t : Transaction) : Z :=
  let size := 4 in
  let size := size + varint_size (Z.of_nat (length (input t))) in
  let size := size + zsum (map txin_base_size (input t)) in
  let size := size + varint_size (Z.of_nat (length (output t))) in
  let size := size + zsum (map txout_size (output t)) in
  size + Absolute.SIZE.

Definition total_size (t : Transaction) : option Z :=
  let size := 4 in
  let uses_segwit := uses_segwit_serialization t in
  let size := if uses_segwit then size + 2 else size in
  let size := size + varint_size (Z.of_nat (length (input t))) in
  ins ← mapM (λ i, if uses_segwit then txin_total_size i else Some (txin_base_size i)) (input t);
  let size := size + zsum ins in
  let size := size + varint_size (Z.of_nat (length (output t))) in
  let size := size + zsum (map txout_size (output t)) in
  Some (size + Absolute.SIZE).

Definition weight (t : Transaction) : option Z :=
  total ← total_size t; Some (base_size t * 3 + total).
Definition vsize (t : Transaction) : option Z := w ← weight t; Some (Weight.to_vbytes_ceil w).
End Sizes.

(** [effective_value] *)
Definition effective_value (fee_rate satisfaction_weight value : Z) : option Z :=
  base ← TXIN_BASE_WEIGHT;
  weight ← Weight.checked_add satisfaction_weight base;
  fee ← FeeRate.checked_mul_by_weight fee_rate weight;
  match Amount.to_signed fee, Amount.to_signed value with
  | Ok signed_input_fee, Ok value => SignedAmount.checked_sub value signed_input_fee
  | _, _ => None
  end.

(** ** Weight prediction *)

Record InputWeightPrediction := { script_size : Z; witness_size : Z }.

Definition prediction_weight (p : InputWeightPrediction) : Z := script_size p * 4 + witness_size p.

(** [InputWeightPrediction::new]: a fold that counts and sums. *)
Definition prediction_new (input_script_len : Z) (witness_element_lengths : list Z)
  : InputWeightPrediction :=
  let '(count, total_size) :=
    foldl (λ '(count, total_size) elem_len,
             let elem_size := elem_len + varint_size elem_len in
             (count + 1, total_size + elem_size)) (0, 0) witness_element_lengths in
  let witness_size := if 0 <? count then total_size + varint_size count else 0 in
  let script_size := input_script_len + varint_size input_script_len in
  {| script_size := script_size; witness_size := witness_size |}.

(** [InputWeightPrediction::from_slice]: an index loop, for const contexts.  Its fuel
    is the number of elements left. *)
Fixpoint from_slice_sum (fuel i : nat) (total_size : Z) (lens : list Z) : Z :=
  match fuel with
  | O => total_size
  | S fuel =>
      match lens !! i with
      | None => total_size
      | Some elem_len =>
          let elem_size := elem_len + varint_size elem_len in
          from_slice_sum fuel (S i) (total_size + elem_size) lens
      end
  end.
Definition prediction_from_slice (input_script_len : Z) (witness_element_lengths : list Z)
  : InputWeightPrediction :=
  let total_size := from_slice_sum (length witness_element_lengths) 0 0 witness_element_lengths in
  let witness_size :=
    match witness_element_lengths with
    | [] => 0
    | _ => total_size + varint_size (Z.of_nat (length witness_element_lengths))
    end in
  let script_size := input_script_len + varint_size input_script_len in
  {| script_size := script_size; witness_size := witness_size |}.

Definition P2WPKH_MAX := prediction_from_slice 0 [72; 33].
Definition P2PKH_COMPRESSED_MAX := prediction_from_slice 107 [].
Definition P2PKH_UNCOMPRESSED_MAX := prediction_from_slice 139 [].
Definition P2TR_KEY_DEFAULT_SIGHASH := prediction_from_slice 0 [64].
Definition P2TR_KEY_NON_DEFAULT_SIGHASH := prediction_from_slice 0 [65].
Definition ground_p2wpkh (bytes_to_grind : Z) : InputWeightPrediction :=
  let der_signature_size := 10 + (62 - bytes_to_grind) in
  prediction_from_slice 0 [der_signature_size; 33].
Definition ground_p2pkh_compressed (bytes_to_grind : Z) : InputWeightPrediction :=
  let der_signature_size := 10 + (62 - bytes_to_grind) in
  prediction_from_slice (2 + 33 + der_signature_size) [].

Definition predict_weight_internal (input_count partial_input_weight inputs_with_witnesses
    output_count output_scripts_size : Z) : Z :=
  let input_weight := partial_input_weight + input_count * 4 * (32 + 4 + 4) in
  let output_size := 8 * output_count + output_scripts_size in
  let non_input_size :=
    4 + varint_size input_count + varint_size output_count + output_size + 4 in
  if inputs_with_witnesses =? 0 then non_input_size * 4 + input_weight
  else non_input_size * 4 + input_weight + input_count - inputs_with_witnesses + 2.

Definition predict_weight (inputs : list InputWeightPrediction) (output_script_lens : list Z) : Z :=
  let '(input_count, partial_input_weight, inputs_with_witnesses) :=
    foldl (λ '(count, partial_input_weight, inputs_with_witnesses) prediction,
             (count + 1, partial_input_weight + prediction_weight prediction,
              inputs_with_witnesses + b2z (0 <? witness_size prediction))) (0, 0, 0) inputs in
  let '(output_count, output_scripts_size) :=
    foldl (λ '(output_count, total_scripts_size) script_len,
             let script_size := script_len + varint_size script_len in
             (output_count + 1, total_scripts_size + script_size)) (0, 0) output_script_lens in
  predict_weight_internal input_count partial_input_weight inputs_with_witnesses
    output_count output_scripts_size.

(** The two index loops of [predict_weight_from_slices]. *)
Fixpoint predict_inputs_loop (fuel i : nat) (partial_input_weight inputs_with_witnesses : Z)
    (inputs : list InputWeightPrediction) : Z * Z :=
  match fuel with
  | O => (partial_input_weight, inputs_with_witnesses)
  | S fuel =>
      match inputs !! i with
      | None => (partial_input_weight, inputs_with_witnesses)
      | Some prediction =>
          predict_inputs_loop fuel (S i) (partial_input_weight + prediction_weight prediction)
            (inputs_with_witnesses + b2z (0 <? witness_size prediction)) inputs
      end
  end.
Definition predict_weight_from_slices (inputs : list InputWeightPrediction)
    (output_script_lens : list Z) : Z :=
  let '(partial_input_weight, inputs_with_witnesses) :=
    predict_inputs_loop (length inputs) 0 0 0 inputs in
  let output_scripts_size := from_slice_sum (length output_script_lens) 0 0 output_script_lens in
  predict_weight_internal (Z.of_nat (length inputs)) partial_input_weight inputs_with_witnesses
    (Z.of_nat (length output_script_lens)) output_scripts_size.

(** The predictions of a transaction's own inputs. *)
Definition prediction_of (i : TxIn) (elements : list (list byte)) : InputWeightPrediction :=
  prediction_new (Z.of_nat (length (script_sig i))) (map (λ e, Z.of_nat (length e)) elements).
Definition script_pubkey_lens `{PublicKeys} (t : Transaction) : list Z :=
  map (λ o, Z.of_nat (length (script_pubkey o))) (output t).

(** *** Loops and folds *)

Lemma from_slice_sum_spec fuel i total lens :
  (length lens - i <= fuel)%nat → (i <= length lens)%nat →
  from_slice_sum fuel i total lens = total + zsum (map (λ l, l + varint_size l) (drop i lens)).
Proof.
  revert i total. induction fuel as [|fuel IH]; intros i total Hf Hi; cbn [from_slice_sum].
  - rewrite drop_ge by lia. cbn. lia.
  - destruct (lens !! i) as [l|] eqn:Hl.
    + pose proof (lookup_lt_Some _ _ _ Hl). rewrite IH by lia. rewrite (drop_S _ _ _ Hl).
      unfold zsum. cbn [map foldr]. lia.
    + apply lookup_ge_None in Hl. rewrite drop_ge by lia. cbn. lia.
Qed.

Lemma prediction_new_fold lens count total :
  foldl (λ '(count, total_size) elem_len,
           (count + 1, total_size + (elem_len + varint_size elem_len))) (count, total) lens
  = (count + Z.of_nat (length lens), total + zsum (map (λ l, l + varint_size l) lens)).
Proof.
  revert count total. induction lens as [|l lens IH]; intros count total; cbn [foldl map zsum foldr length].
  - f_equal; lia.
  - rewrite IH. unfold zsum. f_equal; lia.
Qed.

Lemma prediction_new_eq len lens : prediction_new len lens = prediction_from_slice len lens.
Proof.
  unfold prediction_new, prediction_from_slice. rewrite prediction_new_fold.
  rewrite from_slice_sum_spec, drop_0 by lia. destruct lens; [done|]. f_equal.
Qed.

Lemma predict_inputs_fold (inputs : list InputWeightPrediction) count partial with_w :
  foldl (λ '(count, partial_input_weight, inputs_with_witnesses) prediction,
           (count + 1, partial_input_weight + prediction_weight prediction,
            inputs_with_witnesses + b2z (0 <? witness_size prediction))) (count, partial, with_w) inputs
  = (count + Z.of_nat (length inputs), partial + zsum (map prediction_weight inputs),
     with_w + zsum (map (λ p, b2z (0 <? witness_size p)) inputs)).
Proof.
  revert count partial with_w. induction inputs as [|p ps IH]; intros; cbn [foldl map zsum foldr length].
  - f_equal; [f_equal|]; lia.
  - rewrite IH. unfold zsum. f_equal; [f_equal|]; lia.
Qed.

Lemma predict_inputs_loop_spec fuel i partial with_w inputs :
  (length inputs - i <= fuel)%nat → (i <= length inputs)%nat →
  predict_inputs_loop fuel i partial with_w inputs
  = (partial + zsum (map prediction_weight (drop i inputs)),
     with_w + zsum (map (λ p, b2z (0 <? witness_size p)) (drop i inputs))).
Proof.
  revert i partial with_w. induction fuel as [|fuel IH]; intros i partial with_w Hf Hi;
    cbn [predict_inputs_loop].
  - rewrite drop_ge by lia. cbn. f_equal; lia.
  - destruct (inputs !! i) as [p|] eqn:Hp.
    + pose proof (lookup_lt_Some _ _ _ Hp). rewrite IH by lia. rewrite (drop_S _ _ _ Hp).
      unfold zsum. cbn [map foldr]. f_equal; lia.
    + apply lookup_ge_None in Hp. rewrite drop_ge by lia. cbn. f_equal; lia.
Qed.

(** *** Counts: what an encoder returns is the size its type computes *)

Lemma varint_count v n bs : c_enc varint v = Ok (n, bs) → n = varint_size v.
Proof.
  cbn [c_enc varint fixed_codec]. unfold varint_encode, varint_size.
  repeat case_if; cbn; by intros [= <- _].
Qed.
Lemma bytes_count v n bs :
  c_enc bytes v = Ok (n, bs) → n = varint_size (Z.of_nat (length v)) + Z.of_nat (length v).
Proof.
  cbn [c_enc bytes finite_codec]. unfold consensus_encode_with_size, emit_slice. intros Hn. inv_ok.
  match goal with Hv : c_enc varint _ = _ |- _ => apply varint_count in Hv as -> end. done.
Qed.
Lemma uint_count k v n bs : c_enc (uint k) v = Ok (n, bs) → n = Z.of_nat k.
Proof. cbn. by intros [= <- _]. Qed.

Lemma txin_count i n bs :
  is_array 32 (txid (previous_output i)) → c_enc txin_codec i = Ok (n, bs) → n = txin_base_size i.
Proof.
  intros Ha Hn. cbn [c_enc txin_codec finite_codec] in Hn. unfold txin_encode in Hn. inv_ok.
  repeat match goal with
  | Hc : c_enc bytes _ = _ |- _ => apply bytes_count in Hc
  | Hc : c_enc u32 _ = _ |- _ => apply uint_count in Hc
  | Hc : c_enc outpoint_codec _ = _ |- _ =>
      cbn [c_enc outpoint_codec fixed_codec] in Hc; unfold outpoint_encode in Hc; inv_ok
  | Hc : c_enc (array 32) _ = Ok _ |- _ => cbn in Hc; injection Hc as <- _
  end.
  unfold is_array in Ha. unfold txin_base_size, OUTPOINT_SIZE, Sequence.SIZE. lia.
Qed.

Lemma txout_count o n bs : c_enc txout_codec o = Ok (n, bs) → n = txout_size o.
Proof.
  intros Hn. cbn [c_enc txout_codec] in Hn. unfold txout_encode in Hn. inv_ok.
  repeat match goal with
  | Hc : c_enc bytes _ = _ |- _ => apply bytes_count in Hc
  | Hc : c_enc u64 _ = _ |- _ => apply uint_count in Hc
  end.
  unfold txout_size, size_from_script_pubkey, Amount.SIZE. lia.
Qed.

Lemma w_for_count {X} (f : X → wr Z) (P : X → Prop) (sz : X → Z) xs len n bs :
  (∀ x n bs, P x → f x = Ok (n, bs) → n = sz x) → Forall P xs →
  w_for (λ len x, w_add len (f x)) len xs = Ok (n, bs) → n = len + zsum (map sz xs).
Proof.
  intros Hf HP. revert len n bs. induction HP as [|x xs Hx _ IH]; intros len n bs Hn; cbn in Hn.
  - injection Hn as <- _. cbn. lia.
  - inv_ok. match goal with He : f x = _ |- _ => apply Hf in He as ->; [|done] end.
    match goal with Hw : w_for _ _ _ = _ |- _ => apply IH in Hw as -> end. unfold zsum. cbn [map foldr]. lia.
Qed.

Lemma vec_count {A} (c : codec A) (P : A → Prop) (sz : A → Z) xs n bs :
  (∀ x n bs, P x → c_enc c x = Ok (n, bs) → n = sz x) → Forall P xs →
  c_enc (vec c) xs = Ok (n, bs) → n = varint_size (Z.of_nat (length xs)) + zsum (map sz xs).
Proof.
  intros Hf HP Hn. cbn [c_enc vec finite_codec] in Hn. unfold vec_encode in Hn. inv_ok.
  match goal with Hv : c_enc varint _ = _ |- _ => apply varint_count in Hv as -> end.
  match goal with Hw : w_for _ _ _ = _ |- _ => eapply w_for_count in Hw as ->; [|done..] end.
  done.
Qed.

Lemma witness_size_wf w n bs :
  witness_wf w → c_enc witness_codec w = Ok (n, bs) → size w = Some n.
Proof.
  intros (ws & -> & Hs) Hn. cbn [c_enc witness_codec fixed_codec] in Hn. unfold MAX_VEC_SIZE in Hs.
  rewrite witness_encode_repr in Hn by lia. injection Hn as <- _.
  apply size_repr. unfold small, U32_MAX. lia.
Qed.

Lemma mapM_map {A B} (f : A → option B) (g : A → B) xs :
  Forall (λ x, f x = Some (g x)) xs → mapM f xs = Some (map g xs).
Proof. induction 1 as [|x xs Hx _ IH]; [done|]. cbn. by rewrite Hx, IH. Qed.

Lemma zsum_add {A} (f g : A → Z) xs :
  zsum (map (λ x, f x + g x) xs) = zsum (map f xs) + zsum (map g xs).
Proof. induction xs as [|x xs IH]; [done|]. unfold zsum in *. cbn [map foldr]. lia. Qed.

Lemma zsum_zero {A} (xs : list A) : zsum (map (λ _, 0) xs) = 0.
Proof. by induction xs. Qed.

Definition witness_wire_size (w : Witness) : Z := match size w with Some n => n | None => 0 end.

Section SizeLaws.
Context `{Hpk : PublicKeyLaws}.

Lemma tx_wf_txid (t : Transaction) :
  tx_wf t → Forall (λ i, is_array 32 (txid (previous_output i))) (input t).
Proof. intros [_ _ [Hi _] _ _ _ _]. eapply Forall_impl; [exact Hi|]. by intros i [[]]. Qed.

Lemma total_size_wf (t : Transaction) :
  tx_wf t →
  total_size t = Some (base_size t +
    (if uses_segwit_serialization t then 2 + zsum (map (λ i, witness_wire_size (witness i)) (input t)) else 0)).
Proof.
  intros Ht. unfold total_size, base_size.
  rewrite (mapM_map _ (λ i, txin_base_size i +
    (if uses_segwit_serialization t then witness_wire_size (witness i) else 0))).
  - cbn [mbind option_bind]. f_equal. rewrite zsum_add. destruct (uses_segwit_serialization t); [lia|].
    rewrite zsum_zero. lia.
  - eapply Forall_impl; [exact (txwf_witness t Ht)|]. intros i (ws & Hw & Hs).
    destruct (uses_segwit_serialization t); [|f_equal; lia].
    unfold txin_total_size, witness_wire_size. rewrite Hw, size_repr; [done|].
    unfold small, U32_MAX, MAX_VEC_SIZE in *. lia.
Qed.

Lemma uses_segwit_required (t : Transaction) :
  has_mweb t = false → uses_segwit_serialization t = segwit_required t.
Proof.
  intros Hm. unfold uses_segwit_serialization, segwit_required, has_witnesses, no_input.
  rewrite Hm. destruct (existsb _ _); [done|]. by destruct (input t).
Qed.

(** The parts that [base_encode] writes, and what reads them back. *)
Definition base_view (t : Transaction) : Z * list TxIn * list TxOut * Absolute.LockTime :=
  (version t, map bare (input t), output t, lock_time t).

Definition base_decode : rd (Z * list TxIn * list TxOut * Absolute.LockTime) :=
  let! v := c_dec i32 in
  let! ins := c_dec (vec txin_codec) in
  let! outs := c_dec (vec txout_codec) in
  let! l := c_dec Absolute.lock_time_codec in
  rd_ret (v, ins, outs, l).

Lemma base_encode_ok (t : Transaction) :
  tx_wf t →
  ∃ k b0 n1 b1 n2 b2 b3, base_encode t = Ok (k, b0 ++ b1 ++ b2 ++ b3) ∧
    encodes i32 (version t) b0 ∧ c_enc (vec txin_codec) (input t) = Ok (n1, b1) ∧
    c_enc (vec txout_codec) (output t) = Ok (n2, b2) ∧
    encodes Absolute.lock_time_codec (lock_time t) b3 ∧
    reads base_decode (b0 ++ b1 ++ b2 ++ b3) (base_view t).
Proof.
  intros [Hv Hl [Hi Hil] _ Ho _ _].
  destruct (roundtrip (c := i32) (version t) Hv) as (b0 & E0 & R0).
  assert (vec_wf txin_bare_wf (map bare (input t))) as Hb.
  { split; [|by rewrite length_map]. apply Forall_map. eapply Forall_impl; [exact Hi|].
    intros i []. split; [by constructor|done]. }
  destruct (roundtrip (c := vec txin_codec) _ Hb) as (b1 & E1 & R1).
  destruct (roundtrip (c := vec txout_codec) (output t) Ho) as (b2 & E2 & R2).
  destruct (roundtrip (c := Absolute.lock_time_codec) (lock_time t) Hl) as (b3 & E3 & R3).
  unfold encodes in E1, E2. rewrite <- vec_txin_bare in E1.
  exists (Z.of_nat (length b3)), b0, (Z.of_nat (length b1)), b1, (Z.of_nat (length b2)), b2, b3.
  split_and!; [|done..|].
  - unfold base_encode. do 3 (eapply w_bind_of; [done|]). done.
  - intros rest. unfold base_decode, rd_bind. rewrite <- !app_assoc, R0, R1, R2, R3. done.
Qed.

Lemma ins_count (t : Transaction) n bs :
  tx_wf t → c_enc (vec txin_codec) (input t) = Ok (n, bs) →
  n = varint_size (Z.of_nat (length (input t))) + zsum (map txin_base_size (input t)).
Proof. intros Ht. apply (vec_count _ _ _ _ _ _ txin_count), tx_wf_txid, Ht. Qed.

Lemma outs_count (t : Transaction) n bs :
  c_enc (vec txout_codec) (output t) = Ok (n, bs) →
  n = varint_size (Z.of_nat (length (output t))) + zsum (map txout_size (output t)).
Proof.
  apply (vec_count _ (λ _, True)); [intros ? ? ? _; apply txout_count|by apply Forall_true].
Qed.

Lemma witnesses_count (t : Transaction) len n bs :
  tx_wf t → write_witnesses (input t) len = Ok (n, bs) →
  n = len + zsum (map (λ i, witness_wire_size (witness i)) (input t)).
Proof.
  intros Ht. apply (w_for_count _ (λ i, witness_wf (witness i))); [|exact (txwf_witness t Ht)].
  intros i k b Hw Hk. unfold witness_wire_size. by rewrite (witness_size_wf _ _ _ Hw Hk).
Qed.

Lemma lock_time_count (t : Transaction) n bs :
  c_enc Absolute.lock_time_codec (lock_time t) = Ok (n, bs) → n = 4.
Proof. apply uint_count. Qed.

Lemma transaction_count (t : Transaction) n bs :
  tx_wf t → has_mweb t = false → c_enc transaction_codec t = Ok (n, bs) →
  n = base_size t + (if segwit_required t
    then 2 + zsum (map (λ i, witness_wire_size (witness i)) (input t)) else 0).
Proof.
  intros Ht Hm Hn. cbn [c_enc transaction_codec finite_codec] in Hn. unfold transaction_encode, write_body in Hn.
  rewrite Hm in Hn. destruct (segwit_required t) eqn:Hs; cbn [negb andb] in Hn;
    unfold write_plain, write_extended in Hn; rewrite ?Hs, ?Hm in Hn; inv_ok;
    repeat match goal with
    | Hc : c_enc (vec txin_codec) _ = _ |- _ => apply ins_count in Hc; [|done]
    | Hc : c_enc (vec txout_codec) _ = _ |- _ => apply outs_count in Hc
    | Hc : c_enc Absolute.lock_time_codec _ = _ |- _ => apply lock_time_count in Hc
    | Hc : c_enc i32 _ = _ |- _ => apply (uint_count 4) in Hc
    | Hc : c_enc u8 _ = _ |- _ => apply (uint_count 1) in Hc
    | Hc : write_witnesses _ _ = _ |- _ => apply witnesses_count in Hc; [|done]
    end; unfold base_size, Absolute.SIZE; lia.
Qed.

Lemma total_size_encoded (t : Transaction) n bs :
  tx_wf t → has_mweb t = false → c_enc transaction_codec t = Ok (n, bs) →
  total_size t = Some (Z.of_nat (length bs)).
Proof.
  intros Ht Hm Hn. rewrite total_size_wf, uses_segwit_required by done.
  rewrite <- (encode_len _ _ _ Hn), (transaction_count t n bs) by done. done.
Qed.

(** Sizes are lengths of serialisations.  For a well-formed transaction
    without MWEB data, [total_size] is the length of its consensus serialisation,
    [base_size] that of the serialisation without witnesses, whose double SHA-256
    is the transaction identifier, and the weight is three times the one plus the
    other; without witness data the two serialisations are the same. *)
Theorem transaction_sizes (t : Transaction) n bs :
  tx_wf t → has_mweb t = false → c_enc transaction_codec t = Ok (n, bs) →
  total_size t = Some (Z.of_nat (length bs)) ∧
  (∃ k base, base_encode t = Ok (k, base) ∧ compute_txid t = Some (sha256d_hash base) ∧
     Z.of_nat (length base) = base_size t ∧ (segwit_required t = false → base = bs)) ∧
  weight t = Some (base_size t * 3 + Z.of_nat (length bs)).
Proof.
  intros Ht Hm Hn.
  pose proof (total_size_encoded t n bs Ht Hm Hn) as Htot.
  split_and!; [done| |unfold weight; by rewrite Htot].
  destruct (base_encode_ok t Ht) as (k & b0 & n1 & b1 & n2 & b2 & b3 & Hb & E0 & E1 & E2 & E3 & _).
  exists k, (b0 ++ b1 ++ b2 ++ b3). split_and!; [done|unfold compute_txid; by rewrite Hb| |].
  - pose proof (encode_len _ _ _ E1). pose proof (encode_len _ _ _ E2).
    pose proof (ins_count _ _ _ Ht E1). pose proof (outs_count _ _ _ E2).
    pose proof (lock_time_count _ _ _ E3). pose proof (uint_count 4 _ _ _ E0).
    rewrite !length_app. unfold base_size, Absolute.SIZE. lia.
  - intros Hs. cbn [c_enc transaction_codec finite_codec] in Hn. unfold transaction_encode, write_body in Hn.
    rewrite Hm, Hs in Hn. cbn [negb andb] in Hn. unfold write_plain, encodes in *. inv_ok.
    rewrite <- !app_assoc. repeat (f_equal; [congruence|]). congruence.
Qed.

(** C1: the transaction codec.  Every well-formed transaction, legacy, segwit,
    MWEB or HogEx, is serialised, and deserialised as itself; what is deserialised
    is well formed, and for a transaction without MWEB data the bytes consumed are
    its only encoding. *)
Theorem transaction_codec_spec (t : Transaction) s rest :
  (tx_wf t → ∃ bs, encodes transaction_codec t bs ∧
     ∀ rest, transaction_decode (bs ++ rest) = Ok (t, rest)) ∧
  (transaction_decode s = Ok (t, rest) →
     tx_wf t ∧ (has_mweb t = false → ∃ bs, encodes transaction_codec t bs ∧ s = bs ++ rest)).
Proof. split; [apply transaction_roundtrip|apply transaction_decode_ok]. Qed.

Lemma compute_txid_base_view t t' : base_view t = base_view t' → compute_txid t = compute_txid t'.
Proof.
  unfold base_view, compute_txid, base_encode. intros [= -> Hi -> ->].
  by rewrite (vec_txin_bare (input t)), (vec_txin_bare (input t')), Hi.
Qed.

(** What a transaction identifier commits to: the version, the inputs without
    their witnesses, the outputs and the lock time, and nothing else.  Transactions
    that differ elsewhere have the same one, and two that hash the same bytes agree
    on all four; the normalised identifier is the one of the transaction with the
    input scripts removed. *)
Theorem txid_commitment (t t' : Transaction) :
  tx_wf t → tx_wf t' →
  (base_view t = base_view t' → compute_txid t = compute_txid t') ∧
  (∀ k bs k', base_encode t = Ok (k, bs) → base_encode t' = Ok (k', bs) → base_view t = base_view t') ∧
  (∀ ins, map (λ i, (previous_output i, sequence i)) ins
          = map (λ i, (previous_output i, sequence i)) (input t) →
     compute_ntxid t = compute_ntxid {| version := version t; lock_time := lock_time t; input := ins;
       output := output t; mw_tx := None; is_hog_ex := false |}).
Proof.
  intros Ht Ht'. split_and!.
  - apply compute_txid_base_view.
  - intros k bs k' Hb Hb'.
    destruct (base_encode_ok t Ht) as (? & b0 & ? & b1 & ? & b2 & b3 & E & _ & _ & _ & _ & R).
    destruct (base_encode_ok t' Ht') as (? & b0' & ? & b1' & ? & b2' & b3' & E' & _ & _ & _ & _ & R').
    rewrite Hb in E. rewrite Hb' in E'. injection E as _ ->. injection E' as _ Heq.
    specialize (R []). specialize (R' []). rewrite Heq, R' in R. congruence.
  - intros ins Hins. unfold compute_ntxid. cbn [version lock_time output input]. do 2 f_equal.
    revert Hins. generalize (input t). induction ins as [|i ins IH]; intros [|j js]; [done..|].
    cbn. intros [= Hp Hq Hr]. rewrite Hp, Hq. f_equal. by apply IH.
Qed.

(** *** Weights are positive *)

Lemma zsum_nonneg {A} (f : A → Z) xs : (∀ x, 0 <= f x) → 0 <= zsum (map f xs).
Proof. intros Hf. induction xs as [|x xs IH]; unfold zsum in *; cbn [map foldr]; [done|]. specialize (Hf x). lia. Qed.

Lemma mapM_zsum_nonneg {A} (f : A → option Z) xs ys :
  (∀ x y, f x = Some y → 0 <= y) → mapM f xs = Some ys → 0 <= zsum ys.
Proof.
  intros Hf Hys%mapM_Some. induction Hys as [|x y xs ys Hy _ IH]; unfold zsum in *; cbn [foldr]; [done|].
  apply Hf in Hy. lia.
Qed.

Lemma witness_size_nonneg w n : Witness.size w = Some n → 0 <= n.
Proof.
  unfold Witness.size. destruct (to_vec w) as [items|]; [|done]. cbn [mbind option_bind]. intros [= <-].
  pose proof (varint_size_pos (witness_elements w)).
  assert (0 <= foldr (λ elem sum, item_size elem + sum) 0 items); [|lia].
  induction items as [|e items IH]; cbn [foldr]; [done|]. unfold item_size at 1.
  pose proof (varint_size_pos (Z.of_nat (length e))). lia.
Qed.

Lemma txin_base_size_nonneg i : 0 <= txin_base_size i.
Proof. unfold txin_base_size, OUTPOINT_SIZE, Sequence.SIZE. pose proof (varint_size_pos (Z.of_nat (length (script_sig i)))). lia. Qed.
Lemma txout_size_nonneg o : 0 <= txout_size o.
Proof.
  unfold txout_size, size_from_script_pubkey, Amount.SIZE.
  pose proof (varint_size_pos (Z.of_nat (length (script_pubkey o)))). lia.
Qed.

Lemma weight_pos (t : Transaction) w : weight t = Some w → 0 < w.
Proof.
  unfold weight. destruct (total_size t) as [n|] eqn:Hn; [|done]. cbn [mbind option_bind]. intros [= <-].
  pose proof (varint_size_pos (Z.of_nat (length (input t)))). pose proof (varint_size_pos (Z.of_nat (length (output t)))).
  pose proof (zsum_nonneg _ (output t) txout_size_nonneg).
  assert (0 < base_size t).
  { unfold base_size, Absolute.SIZE. pose proof (zsum_nonneg _ (input t) txin_base_size_nonneg). lia. }
  assert (0 <= n); [|lia]. revert Hn. unfold total_size.
  match goal with |- context [mapM ?f (input t)] => destruct (mapM f (input t)) as [ins|] eqn:Hins end; [|done].
  cbn [mbind option_bind]. intros [= <-]. unfold Absolute.SIZE.
  assert (0 <= zsum ins); [|destruct (uses_segwit_serialization t); lia].
  eapply mapM_zsum_nonneg; [|exact Hins]. intros i y. cbv beta. pose proof (txin_base_size_nonneg i).
  unfold txin_total_size. destruct (uses_segwit_serialization t); [|intros [= <-]; lia].
  destruct (Witness.size (witness i)) as [v|] eqn:Hv; [|done]. cbn [mbind option_bind]. intros [= <-]. apply witness_size_nonneg in Hv. lia.
Qed.

(** *** Weight prediction *)

(** The witness of each input is the buffer of its list of elements. *)
Definition witnessed (i : TxIn) (els : list (list byte)) : Prop :=
  witness i = repr els ∧ content_size els <= MAX_VEC_SIZE.

Lemma prediction_of_eq i els :
  witnessed i els →
  prediction_weight (prediction_of i els) + 160
    = 4 * txin_base_size i + witness_size (prediction_of i els) ∧
  witness_wire_size (witness i)
    = witness_size (prediction_of i els) + (1 - b2z (0 <? witness_size (prediction_of i els))) ∧
  negb (is_empty (witness i)) = (0 <? witness_size (prediction_of i els)) ∧
  0 <= witness_size (prediction_of i els).
Proof.
  intros [-> Hs]. unfold prediction_of. rewrite prediction_new_eq. unfold prediction_from_slice.
  rewrite from_slice_sum_spec, drop_0 by lia. rewrite length_map, map_map.
  set (k := zsum (map (λ e, Z.of_nat (length e) + varint_size (Z.of_nat (length e))) els)).
  assert (k = content_size els) as Hk.
  { subst k. rewrite <- content_size_sum. unfold zsum. clear. induction els as [|e els IH]; [done|].
    cbn [map foldr]. rewrite IH. done. }
  assert (witness_wire_size (repr els) = varint_size (Z.of_nat (length els)) + content_size els) as ->.
  { unfold witness_wire_size. rewrite size_repr by (unfold small, U32_MAX, MAX_VEC_SIZE in *; lia).
    unfold wire. rewrite length_app, Nat2Z.inj_add, length_varint_bytes. done. }
  pose proof (content_size_length els). pose proof (varint_size_pos (Z.of_nat (length els))).
  unfold prediction_weight, txin_base_size, OUTPOINT_SIZE, Sequence.SIZE, is_empty.
  cbn [script_size witness_size repr witness_elements].
  destruct els as [|e els]; [split_and!; [lia|done|done|done]|].
  cbn [map]. rewrite Hk. cbn [length] in *. unfold b2z.
  replace (0 <? _) with true by lia. split_and!; lia.
Qed.

Lemma existsb_map {A B} (f : A → B) p xs : existsb p (map f xs) = existsb (λ x, p (f x)) xs.
Proof. induction xs as [|x xs IH]; [done|]. cbn. by rewrite IH. Qed.

Definition with_witnesses (ps : list InputWeightPrediction) : Z :=
  zsum (map (λ p, b2z (0 <? witness_size p)) ps).
Definition predictions (xs : list (TxIn * list (list byte))) : list InputWeightPrediction :=
  map (λ x, prediction_of x.1 x.2) xs.

Lemma predictions_sum xs :
  Forall (λ x, witnessed x.1 x.2) xs →
  let ps := predictions xs in
  let n := Z.of_nat (length xs) in
  0 <= with_witnesses ps ∧
  zsum (map prediction_weight ps) + 160 * n
    = 4 * zsum (map (λ x, txin_base_size x.1) xs) + zsum (map witness_size ps) ∧
  zsum (map (λ x, witness_wire_size (witness x.1)) xs)
    = zsum (map witness_size ps) + n - with_witnesses ps ∧
  (if existsb (λ x, negb (is_empty (witness x.1))) xs then 0 < with_witnesses ps
   else with_witnesses ps = 0 ∧ zsum (map witness_size ps) = 0).
Proof.
  cbv zeta. unfold zsum, with_witnesses, predictions.
  induction 1 as [|[i els] xs Hi _ (IH1 & IH2 & IH3 & IH4)]; [by cbn|].
  cbn [fst snd] in Hi. destruct (prediction_of_eq i els Hi) as (H1 & H2 & H3 & H4).
  cbn [map existsb length]. unfold zsum. cbn [foldr fst snd]. rewrite H3.
  set (ws := witness_size (prediction_of i els)) in *.
  assert (0 <= b2z (0 <? ws) <= 1) by (unfold b2z; case_if; lia).
  unfold zsum in *. split_and!; try lia.
  destruct (0 <? ws) eqn:Hws; cbn [orb]; cbn in *; [lia|].
  destruct (existsb _ xs); [lia|]. destruct IH4. split; [lia|]. subst ws. lia.
Qed.

(** The predicted weight is the weight.  For a transaction whose witnesses are
    those of lists of elements, predicting from the lengths of the input scripts,
    of the witness elements and of the output scripts gives [weight]; with no
    inputs the prediction leaves out the marker and the flag.  The versions for
    const contexts compute the same. *)
Theorem predict_weight_correct (t : Transaction) xs :
  tx_wf t → input t = map fst xs → Forall (λ x, witnessed x.1 x.2) xs →
  weight t = Some (predict_weight (predictions xs) (script_pubkey_lens t)
                   + match xs with [] => 2 | _ => 0 end) ∧
  predict_weight_from_slices (predictions xs) (script_pubkey_lens t)
    = predict_weight (predictions xs) (script_pubkey_lens t) ∧
  ∀ len lens, prediction_from_slice len lens = prediction_new len lens.
Proof.
  intros Ht Hin Hxs. pose proof (predictions_sum xs Hxs) as (Hw & Hp & Hwire & Hex). cbv zeta in *.
  split_and!; [| |intros; symmetry; apply prediction_new_eq].
  - unfold weight. rewrite total_size_wf by done. cbn [mbind option_bind]. f_equal.
    unfold predict_weight. rewrite predict_inputs_fold, prediction_new_fold.
    unfold predict_weight_internal, base_size, uses_segwit_serialization, script_pubkey_lens.
    fold (with_witnesses (predictions xs)).
    rewrite Hin, !length_map, !map_map, !Z.add_0_l. unfold predictions in *. rewrite length_map in *.
    rewrite existsb_map.
    assert (zsum (map txout_size (output t)) = 8 * Z.of_nat (length (output t)) +
      zsum (map (λ o, Z.of_nat (length (script_pubkey o)) + varint_size (Z.of_nat (length (script_pubkey o))))
        (output t))) as ->.
    { unfold txout_size, size_from_script_pubkey, Amount.SIZE, zsum. generalize (output t).
      intros os. induction os as [|o os IH]; [done|]. cbn [map foldr length]. lia. }
    unfold Absolute.SIZE. destruct (existsb _ xs) eqn:He.
    + destruct (Z.eqb_spec (with_witnesses (map (λ x, prediction_of x.1 x.2) xs)) 0); [lia|].
      destruct xs as [|x xs]; [done|]. lia.
    + destruct Hex as [Hww Hws]. rewrite Hww. cbn [Z.eqb]. destruct xs as [|x xs]; cbn [map]; [cbn; lia|].
      cbn [map] in *. lia.
  - unfold predict_weight_from_slices, predict_weight.
    rewrite predict_inputs_loop_spec, predict_inputs_fold, prediction_new_fold, from_slice_sum_spec,
      !drop_0 by lia. done.
Qed.
End SizeLaws.

(** ** Examples *)

Section Samples.
Context `{Hpk : PublicKeyLaws}.

Definition sample_txin : TxIn :=
  {| previous_output := {| txid := replicate 32 x01; vout := 7 |}; script_sig := [];
     sequence := Sequence.MAX; witness := repr [[x01; x02]; []] |}.
Definition sample_txout : TxOut := {| value := 1000; script_pubkey := [x51] |}.
Definition sample_tx : Transaction :=
  {| version := 2; lock_time := Absolute.Blocks 100; input := [sample_txin];
     output := [sample_txout]; mw_tx := None; is_hog_ex := false |}.
Definition sample_mweb : Transaction :=
  {| version := 2; lock_time := Absolute.Blocks 0; input := []; output := [];
     mw_tx := Some sample_mw_tx; is_hog_ex := false |}.
Definition sample_hog_ex : Transaction :=
  {| version := 2; lock_time := Absolute.Blocks 0; input := [sample_txin];
     output := [sample_txout]; mw_tx := None; is_hog_ex := true |}.

Lemma sample_tx_wf : tx_wf sample_tx.
Proof.
  constructor; cbn; try done.
  - split; [|done]. constructor; [|constructor]. constructor; cbn; try done.
  - constructor; [|constructor]. by exists [[x01; x02]; []].
  - split; [|done]. constructor; [|constructor]. constructor; cbn; try done.
Qed.

Lemma sample_mweb_wf : tx_wf sample_mweb.
Proof.
  constructor; try done; try (by split; [constructor|]); try constructor; [|done].
  apply sample_mw_tx_wf.
Qed.
End Samples.

Lemma transaction_sizes_witness :
  total_size (sample_tx (H := PlainKeys.plain_keys)) = Some 68 ∧ weight (sample_tx (H := PlainKeys.plain_keys)) = Some 251.
Proof.
  destruct (c_enc transaction_codec (sample_tx (H := PlainKeys.plain_keys))) as [[n bs]|] eqn:Hn;
    [|vm_compute in Hn; discriminate Hn].
  destruct (transaction_sizes (H := PlainKeys.plain_keys) (sample_tx (H := PlainKeys.plain_keys)) n bs) as (H1 & _ & H2);
    [apply (sample_tx_wf (H := PlainKeys.plain_keys))|done|exact Hn|].
  rewrite H1, H2. vm_compute in Hn. injection Hn as <- <-. done.
Defined.

Lemma transaction_codec_spec_witness :
  match serialize transaction_codec (sample_mweb (H := PlainKeys.plain_keys)) with
  | Ok bs => transaction_decode (H := PlainKeys.plain_keys) (bs ++ [x00]) = Ok (sample_mweb, [x00])
  | Err _ => False
  end.
Proof.
  destruct (proj1 (transaction_codec_spec (Hpk := PlainKeys.plain_keys_laws) sample_mweb [] [])
    (sample_mweb_wf (H := PlainKeys.plain_keys))) as (bs & He & Hd).
  unfold serialize. unfold encodes in He. rewrite He. apply Hd.
Defined.

Lemma txid_commitment_witness :
  compute_txid (sample_tx (H := PlainKeys.plain_keys)) =
  compute_txid (H := PlainKeys.plain_keys) {| version := 2; lock_time := Absolute.Blocks 100; input := [bare sample_txin];
    output := [sample_txout]; mw_tx := None; is_hog_ex := false |}.
Proof.
  apply (txid_commitment (H := PlainKeys.plain_keys)); [apply (sample_tx_wf (H := PlainKeys.plain_keys))| |done].
  destruct (sample_tx_wf (H := PlainKeys.plain_keys)) as [H1 H2 H3 H4 H5 H6 H7].
  constructor; try done.
  - destruct H3 as [H3 ?]. split; [|done]. constructor; [|constructor].
    inversion H3 as [|? ? [] ?]; subst. by constructor.
  - constructor; [|constructor]. by exists [].
Defined.

Lemma predict_weight_correct_witness :
  weight (sample_tx (H := PlainKeys.plain_keys)) =
  Some (predict_weight (predictions [(sample_txin, [[x01; x02]; []])]) [1] + 0).
Proof.
  apply (predict_weight_correct (H := PlainKeys.plain_keys) sample_tx [(sample_txin, [[x01; x02]; []])]);
    [apply (sample_tx_wf (H := PlainKeys.plain_keys))|done|].
  constructor; [|constructor]. split; [done|]. by vm_compute.
Defined.

(** A HogEx transaction: [total_size] leaves out the MWEB presence byte. *)
Theorem hog_ex_total_size :
  ∃ bs, serialize (transaction_codec (H := PlainKeys.plain_keys)) sample_hog_ex = Ok bs ∧
    total_size (sample_hog_ex (H := PlainKeys.plain_keys)) = Some (Z.of_nat (length bs) - 1).
Proof. eexists. split; vm_compute; reflexivity. Qed.

(** The wire form of an MWEB transaction is not unique: flag 9 with no inputs is
    read as flag 8, and any nonzero presence byte as 1. *)
Theorem mweb_encoding_not_unique :
  ∃ b1 b2 b3, b1 ≠ b2 ∧ b1 ≠ b3 ∧
    deserialize (transaction_codec (H := PlainKeys.plain_keys)) b1 = Ok sample_mweb ∧
    deserialize (transaction_codec (H := PlainKeys.plain_keys)) b2 = Ok sample_mweb ∧
    deserialize (transaction_codec (H := PlainKeys.plain_keys)) b3 = Ok sample_mweb.
Proof.
  destruct (serialize (transaction_codec (H := PlainKeys.plain_keys)) sample_mweb) as [bs|] eqn:Hs;
    [|vm_compute in Hs; discriminate Hs].
  exists bs, (take 5 bs ++ [x09] ++ drop 6 bs), (take 8 bs ++ [x02] ++ drop 9 bs).
  vm_compute in Hs. injection Hs as <-. split_and!; [vm_compute; congruence..| | |]; vm_compute; reflexivity.
Qed.

(** The effective value is the value less the fee of spending it, rounded up,
    whenever the satisfaction weight, the fee and both amounts are in range. *)
Theorem effective_value_spec fee_rate satisfaction_weight v :
  0 <= fee_rate → 0 <= satisfaction_weight → satisfaction_weight + 160 <= U64_MAX →
  0 <= v <= I64_MAX → fee_rate * (satisfaction_weight + 160) + 999 <= U64_MAX →
  effective_value fee_rate satisfaction_weight v
  = Some (v - (fee_rate * (satisfaction_weight + 160) + 999) / 1000).
Proof.
  intros Hr Hs Hw Hv Hf. unfold effective_value, TXIN_BASE_WEIGHT, OUTPOINT_SIZE, Sequence.SIZE.
  change (Weight.from_vb (32 + 4 + 4)) with (Some 160). cbn [mbind option_bind].
  unfold Weight.checked_add. rewrite checked_u64_in by lia. cbn [mbind option_bind].
  rewrite (proj2 (checked_mul_by_weight_Some fee_rate (satisfaction_weight + 160) _ Hr ltac:(lia))
    (conj Hf eq_refl)). cbn [mbind option_bind].
  set (fee := (_ + 999) / 1000).
  assert (0 <= fee <= U64_MAX / 1000) as Hfee.
  { subst fee. split; [apply Z.div_pos; nia|]. apply Z.div_le_mono; nia. }
  unfold Amount.to_signed, I64_MAX, U64_MAX in *.
  change ((2 ^ 64 - 1) / 1000) with 18446744073709551 in Hfee.
  destruct (Z.ltb_spec (2 ^ 63 - 1) fee); [lia|]. destruct (Z.ltb_spec (2 ^ 63 - 1) v); [lia|].
  rewrite !swrap_small by (unfold srange; lia). unfold SignedAmount.checked_sub.
  apply checked_i64_Some. unfold I64_MIN, I64_MAX. lia.
Qed.

Lemma effective_value_spec_witness : effective_value 1000 104 50000 = Some 49736.
Proof. apply (effective_value_spec 1000 104 50000); unfold U64_MAX, I64_MAX; lia. Defined.
