(* ===== verification/MerkleTree.v ===== *)
(** Merkle trees ([src/litecoin/src/merkle_tree/]): the two root computations of
    [mod.rs] and the partial Merkle tree of [block.rs] with its construction, its
    verification and its codec.  The three ways of computing a root are one
    function, a tree built from a block proves the transactions it was built for,
    and no tree proves anything else unless it exhibits a collision of the hash. *)

From Stdlib Require Import String ZArith Lia ZifyBool.
From stdpp Require Import base list.
From Stdlib Require Import Init.Byte.
From coqutil Require Import Byte Word.LittleEndianList.
From S2P Require Import Prelude Io HashEngine Sha256 Encode Units.

(** A 32-byte hash: a [Txid], a [TxMerkleNode] or a [WitnessMerkleNode], all of
    which are double SHA-256 and encode as their bytes.  Encoding into an engine
    feeds it those bytes, and cannot fail. *)
Abbreviation node := (list byte) (only parsing).
Definition node_codec : codec node := array 32.

Definition parent_hash (left right : node) : node :=
  let encoder := engine_default in
  let encoder := input encoder left in
  let encoder := input encoder right in
  sha256d_from_engine encoder.

(** ** Roots *)

(** The loop of [merkle_root_r] from round [idx] on, [n] rounds: the parents
    overwrite the start of the slice.  [None] is an index out of range. *)
Fixpoint level_loop (n idx : nat) (hashes : list node) : option (list node) :=
  match n with
  | O => Some hashes
  | S n =>
      let idx1 := (2 * idx)%nat in
      let idx2 := Nat.min (idx1 + 1) (length hashes - 1) in
      h1 ← hashes !! idx1;
      h2 ← hashes !! idx2;
      level_loop n (S idx) (<[idx := parent_hash h1 h2]> hashes)
  end.

(** [merkle_root_r]; every call but the last halves the slice, rounding up. *)
Fixpoint merkle_root_r (fuel : nat) (hashes : list node) : option node :=
  match fuel with
  | O => None
  | S fuel =>
      if (length hashes =? 1)%nat then hashes !! 0%nat
      else
        hashes ← level_loop ((length hashes + 1) / 2) 0 hashes;
        let half_len := (length hashes / 2 + length hashes mod 2)%nat in
        merkle_root_r fuel (take half_len hashes)
  end.

Definition calculate_root_inline (hashes : list node) : option node :=
  match length hashes with
  | 0%nat => None
  | 1%nat => hashes !! 0%nat
  | _ => merkle_root_r (length hashes) hashes
  end.

(** The [while let] loop of [calculate_root], which takes two hashes a round. *)
Fixpoint first_level (hashes : list node) : list node :=
  match hashes with
  | [] => []
  | [hash1] => [parent_hash hash1 hash1]
  | hash1 :: hash2 :: hashes => parent_hash hash1 hash2 :: first_level hashes
  end.

Definition calculate_root (hashes : list node) : option node :=
  match hashes with
  | [] => None
  | [first] => Some first
  | _ => let alloc := first_level hashes in merkle_root_r (length alloc) alloc
  end.

(** ** Partial Merkle trees *)

Record PartialMerkleTree := {
  num_transactions : Z; bits : list bool; hashes : list node }.

Inductive MerkleBlockError :=
| MerkleRootMismatch | NoTransactions | TooManyTransactions | TooManyHashes | NotEnoughBits
| NotAllBitsConsumed | NotAllHashesConsumed | BitsArrayOverflow | HashesArrayOverflow
| IdenticalHashesFound.

(** [(num + (1 << height) - 1) >> height], on [u32]. *)
Definition calc_tree_width (num height : Z) : Z :=
  Z.shiftr (uwrap 32 (uwrap 32 (num + Z.shiftl 1 height) - 1)) height.

(** [while self.calc_tree_width(height) > 1 { height += 1; }]; at height 31 the
    width of any [u32] is at most 1. *)
Fixpoint height_loop (fuel height : nat) (num : Z) : nat :=
  match fuel with
  | O => height
  | S fuel => if 1 <? calc_tree_width num (Z.of_nat height) then height_loop fuel (S height) num
              else height
  end.
Definition calc_tree_height (num : Z) : nat := height_loop 31 0 num.

Definition left_child (pos : Z) : Z := uwrap 32 (pos * 2).
Definition right_child (pos : Z) : Z := uwrap 32 (uwrap 32 (pos * 2) + 1).

Fixpoint calc_hash (num : Z) (height : nat) (pos : Z) (txids : list node) : option node :=
  match height with
  | O => txids !! Z.to_nat pos
  | S height =>
      left ← calc_hash num height (left_child pos) txids;
      right ← (if right_child pos <? calc_tree_width num (Z.of_nat height)
               then calc_hash num height (right_child pos) txids
               else Some left);
      Some (parent_hash left right)
  end.

(** [while p < (pos + 1) << height && p < self.num_transactions], in [fuel]
    rounds. *)
Fixpoint match_loop (fuel : nat) (p hi num : Z) (matches : list bool) (parent_of_match : bool)
  : option bool :=
  if (p <? hi) && (p <? num) then
    match fuel with
    | O => None
    | S fuel =>
        m ← matches !! Z.to_nat p;
        match_loop fuel (uwrap 32 (p + 1)) hi num matches (parent_of_match || m)
    end
  else Some parent_of_match.

Definition push_bit (pmt : PartialMerkleTree) (b : bool) : PartialMerkleTree :=
  {| num_transactions := num_transactions pmt; bits := bits pmt ++ [b]; hashes := hashes pmt |}.
Definition push_hash (pmt : PartialMerkleTree) (h : node) : PartialMerkleTree :=
  {| num_transactions := num_transactions pmt; bits := bits pmt; hashes := hashes pmt ++ [h] |}.

Fixpoint traverse_and_build (height : nat) (pos : Z) (txids : list node) (matches : list bool)
    (pmt : PartialMerkleTree) : option PartialMerkleTree :=
  let num := num_transactions pmt in
  let p := uwrap 32 (Z.shiftl pos (Z.of_nat height)) in
  let hi := uwrap 32 (Z.shiftl (uwrap 32 (pos + 1)) (Z.of_nat height)) in
  parent_of_match ← match_loop (length matches) p hi num matches false;
  let pmt := push_bit pmt parent_of_match in
  match height with
  | O => hash ← calc_hash num 0 pos txids; Some (push_hash pmt hash)
  | S height' =>
      if negb parent_of_match then
        hash ← calc_hash num height pos txids; Some (push_hash pmt hash)
      else
        pmt ← traverse_and_build height' (left_child pos) txids matches pmt;
        if right_child pos <? calc_tree_width num (Z.of_nat height')
        then traverse_and_build height' (right_child pos) txids matches pmt
        else Some pmt
  end.

(** [None]: one of the assertions, or an index out of range, panics. *)
Definition from_txids (txids : list node) (matches : list bool) : option PartialMerkleTree :=
  if (length txids =? 0)%nat || negb (length txids =? length matches)%nat then None
  else
    let pmt := {| num_transactions := uwrap 32 (Z.of_nat (length txids)); bits := []; hashes := [] |} in
    traverse_and_build (calc_tree_height (num_transactions pmt)) 0 txids matches pmt.

(** The variables that [traverse_and_extract] updates through its references. *)
Record extraction := {
  bits_used : Z; hash_used : Z; matches : list node; indexes : list Z }.

Definition take_bit (st : extraction) : extraction :=
  {| bits_used := uwrap 32 (bits_used st + 1); hash_used := hash_used st;
     matches := matches st; indexes := indexes st |}.
Definition take_hash (st : extraction) : extraction :=
  {| bits_used := bits_used st; hash_used := uwrap 32 (hash_used st + 1);
     matches := matches st; indexes := indexes st |}.
Definition push_match (st : extraction) (hash : node) (pos : Z) : extraction :=
  {| bits_used := bits_used st; hash_used := hash_used st;
     matches := matches st ++ [hash]; indexes := indexes st ++ [pos] |}.

(** The stored hash of a node that is not descended into. *)
Definition use_hash (self : PartialMerkleTree) (matched : bool) (pos : Z) (st : extraction)
  : result MerkleBlockError (node * extraction) :=
  match hashes self !! Z.to_nat (hash_used st) with
  | None => Err HashesArrayOverflow
  | Some hash =>
      let st := take_hash st in
      Ok (hash, if matched then push_match st hash pos else st)
  end.

Fixpoint traverse_and_extract (self : PartialMerkleTree) (height : nat) (pos : Z) (st : extraction)
  : result MerkleBlockError (node * extraction) :=
  match bits self !! Z.to_nat (bits_used st) with
  | None => Err BitsArrayOverflow
  | Some parent_of_match =>
      let st := take_bit st in
      match height with
      | O => use_hash self parent_of_match pos st
      | S height' =>
          if negb parent_of_match then use_hash self false pos st
          else
            let? (left_hash, st) := traverse_and_extract self height' (left_child pos) st in
            if right_child pos <? calc_tree_width (num_transactions self) (Z.of_nat height') then
              let? (right_hash, st) := traverse_and_extract self height' (right_child pos) st in
              if decide (right_hash = left_hash) then Err IdenticalHashesFound
              else Ok (parent_hash left_hash right_hash, st)
            else Ok (parent_hash left_hash left_hash, st)
      end
  end.

Definition extract_matches (self : PartialMerkleTree)
  : result MerkleBlockError (node * list node * list Z) :=
  if num_transactions self =? 0 then Err NoTransactions
  else if Weight.MAX_BLOCK / Weight.MIN_TRANSACTION <? num_transactions self then Err TooManyTransactions
  else if num_transactions self <? uwrap 32 (Z.of_nat (length (hashes self))) then Err TooManyHashes
  else if (length (bits self) <? length (hashes self))%nat then Err NotEnoughBits
  else
    let height := calc_tree_height (num_transactions self) in
    let st := {| bits_used := 0; hash_used := 0; matches := []; indexes := [] |} in
    let? (hash_merkle_root, st) := traverse_and_extract self height 0 st in
    if negb (uwrap 32 (bits_used st + 7) / 8
             =? uwrap 32 (uwrap 32 (Z.of_nat (length (bits self))) + 7) / 8)
    then Err NotAllBitsConsumed
    else if negb (hash_used st =? uwrap 32 (Z.of_nat (length (hashes self))))
    then Err NotAllHashesConsumed
    else Ok (hash_merkle_root, matches st, indexes st).

(** *** The codec *)

(** [bits.chunks(8)] *)
Fixpoint chunks8 (fuel : nat) (bs : list bool) : list (list bool) :=
  match fuel, bs with
  | S fuel, _ :: _ => take 8 bs :: chunks8 fuel (drop 8 bs)
  | _, _ => []
  end.

Definition pack_byte (chunk : list bool) : Z :=
  foldl Z.lor 0 (imap (λ i bit, uwrap 8 (Z.shiftl (b2z bit) (Z.of_nat i))) chunk).
Definition unpack_byte (byte : Z) : list bool :=
  map (λ i, negb (Z.land byte (uwrap 8 (Z.shiftl 1 (Z.of_nat i))) =? 0)) (List.seq 0 8).

Definition pmt_encode (pmt : PartialMerkleTree) : wr Z :=
  let+ ret := c_enc u32 (num_transactions pmt) in
  let+ ret := w_add ret (c_enc (vec node_codec) (hashes pmt)) in
  let nb_bytes_for_bits := (Z.of_nat (length (bits pmt)) + 7) / 8 in
  let+ ret := w_add ret (c_enc varint nb_bytes_for_bits) in
  w_for (λ ret chunk, w_add ret (c_enc u8 (pack_byte chunk))) ret
    (chunks8 (length (bits pmt)) (bits pmt)).

(** [vec![false; nb_bytes * 8]] is filled chunk by chunk; [bits] are the chunks
    filled so far. *)
Definition pmt_decode : rd PartialMerkleTree :=
  let! num_transactions := c_dec_top u32 in
  let! hashes := c_dec_top (vec node_codec) in
  let! nb_bytes_for_bits := c_dec_top varint in
  if MAX_VEC_SIZE <? nb_bytes_for_bits
  then rd_err (OversizedVectorAllocation nb_bytes_for_bits MAX_VEC_SIZE)
  else
    let! bits := rd_for nb_bytes_for_bits
      (λ bits, let! byte := c_dec_top u8 in rd_ret (bits ++ unpack_byte byte)) [] in
    rd_ret {| num_transactions := num_transactions; bits := bits; hashes := hashes |}.

Definition pmt_codec : codec PartialMerkleTree := finite_codec pmt_encode pmt_decode.

(** ** Parents *)

Definition is_node (h : node) : Prop := length h = 32%nat.

Lemma parent_hash_eq l r : is_node l → is_node r → parent_hash l r = sha256d_hash (l ++ r).
Proof.
  intros Hl Hr. unfold is_node in *. rewrite <- (app_nil_r r) at 2.
  change (l ++ r ++ []) with (concat [l; r]). unfold parent_hash.
  rewrite <- sha256d_chunks; [reflexivity|].
  cbn. rewrite !length_app, Hl, Hr. cbn. lia.
Qed.

Lemma parent_hash_node l r : is_node (parent_hash l r).
Proof. apply length_sha256d_from_engine, length_input, length_input. done. Qed.

(** Two different inputs with the same double SHA-256. *)
Definition collision : Prop :=
  ∃ a b : list byte, a ≠ b ∧ sha256d_hash a = sha256d_hash b.

Lemma parent_hash_inj l r l' r' :
  is_node l → is_node r → is_node l' → is_node r' →
  parent_hash l r = parent_hash l' r' → (l = l' ∧ r = r') ∨ collision.
Proof.
  intros Hl Hr Hl' Hr'. rewrite !parent_hash_eq by done. intros He.
  destruct (decide (l ++ r = l' ++ r')) as [Heq|Hne].
  - left. apply app_inj_1 in Heq; [done|]. by rewrite Hl, Hl'.
  - right. by exists (l ++ r), (l' ++ r').
Qed.

(** ** One level *)

Lemma first_level_lookup hs j :
  (2 * j < length hs)%nat →
  first_level hs !! j
  = h1 ← hs !! (2 * j)%nat; h2 ← hs !! Nat.min (2 * j + 1) (length hs - 1);
    Some (parent_hash h1 h2).
Proof.
  revert hs. induction j as [|j IH]; intros [|h1 [|h2 hs]] Hj; cbn [length] in *; try lia.
  - done.
  - cbn [first_level lookup list_lookup Nat.mul Nat.add].
    replace (Nat.min 1 (S (S (length hs)) - 1)) with 1%nat by lia. done.
  - cbn [first_level]. rewrite lookup_cons. rewrite IH by lia.
    replace (2 * S j)%nat with (S (S (2 * j))) by lia. rewrite !lookup_cons.
    replace (Nat.min (S (S (2 * j)) + 1) (S (S (length hs)) - 1))
      with (S (S (Nat.min (2 * j + 1) (length hs - 1)))) by lia.
    by rewrite !lookup_cons.
Qed.

Lemma length_first_level hs : length (first_level hs) = ((length hs + 1) / 2)%nat.
Proof.
  assert (∀ n hs, (length hs <= n)%nat → length (first_level hs) = ((length hs + 1) / 2)%nat) as H.
  { clear. induction n as [|n IH]; intros [|h1 [|h2 hs]] Hl; cbn [length] in *; try done; try lia.
    cbn [first_level length]. rewrite IH by lia.
    replace (S (S (length hs)) + 1)%nat with (length hs + 1 + 1 * 2)%nat by lia.
    rewrite Nat.div_add by done. lia. }
  by apply (H (length hs)).
Qed.

(** The loop in place computes the level: a parent is written behind the hashes
    that are still to be read. *)
Lemma level_loop_spec n idx hs cur :
  (idx + n = (length hs + 1) / 2)%nat → length cur = length hs →
  (∀ j, (idx <= j)%nat → cur !! j = hs !! j) →
  ∃ res, level_loop n idx cur = Some res ∧ length res = length hs ∧
    take idx res = take idx cur ∧
    ∀ j, (idx <= j < (length hs + 1) / 2)%nat → res !! j = first_level hs !! j.
Proof.
  revert idx cur. induction n as [|n IH]; intros idx cur Hn Hl Hj.
  { exists cur. split_and!; [done..|]. intros j ?. lia. }
  pose proof (Nat.div_mod (length hs + 1) 2 ltac:(lia)) as Hdm.
  pose proof (Nat.mod_upper_bound (length hs + 1) 2 ltac:(lia)).
  cbn [level_loop]. rewrite Hl, !Hj by lia.
  assert (2 * idx < length hs)%nat as Hidx by lia.
  destruct (hs !! (2 * idx)%nat) as [h1|] eqn:E1; [|apply lookup_ge_None in E1; lia].
  destruct (hs !! Nat.min (2 * idx + 1) (length hs - 1)) as [h2|] eqn:E2;
    [|apply lookup_ge_None in E2; lia].
  cbn [mbind option_bind].
  destruct (IH (S idx) (<[idx:=parent_hash h1 h2]> cur)) as (res & Hr & Hlen & Ht & Hres).
  - lia.
  - by rewrite length_insert.
  - intros j Hij. rewrite list_lookup_insert_ne by lia. apply Hj. lia.
  - exists res. split_and!; [done..| |].
    + apply (f_equal (take idx)) in Ht. rewrite !take_take in Ht.
      rewrite !Nat.min_l in Ht by lia. by rewrite take_insert_ge in Ht.
    + intros j Hij. destruct (decide (j = idx)) as [->|]; [|apply Hres; lia].
      apply (f_equal (λ l, l !! idx)) in Ht. rewrite !lookup_take_lt in Ht by lia.
      rewrite Ht, list_lookup_insert_eq by lia. by rewrite first_level_lookup, E1, E2.
Qed.

Lemma level_loop_first_level hs :
  hs ≠ [] →
  ∃ res, level_loop ((length hs + 1) / 2) 0 hs = Some res ∧
    take (length res / 2 + length res mod 2) res = first_level hs.
Proof.
  intros Hne.
  destruct (level_loop_spec ((length hs + 1) / 2) 0 hs hs) as (res & Hr & Hl & _ & Hres); try done.
  exists res. split; [done|]. rewrite Hl.
  assert (length hs / 2 + length hs mod 2 = (length hs + 1) / 2)%nat as ->.
  { pose proof (Nat.div_mod (length hs) 2 ltac:(lia)).
    pose proof (Nat.div_mod (length hs + 1) 2 ltac:(lia)).
    pose proof (Nat.mod_upper_bound (length hs) 2 ltac:(lia)).
    pose proof (Nat.mod_upper_bound (length hs + 1) 2 ltac:(lia)). lia. }
  apply list_eq. intros j. destruct (decide (j < (length hs + 1) / 2)%nat).
  - rewrite lookup_take_lt by lia. apply Hres. lia.
  - rewrite !lookup_ge_None_2; rewrite ?length_take, ?length_first_level; [done|lia..].
Qed.

(** The root, one level at a time. *)
Fixpoint root_of (fuel : nat) (hs : list node) : option node :=
  match fuel, hs with
  | _, [h] => Some h
  | S fuel, _ :: _ => root_of fuel (first_level hs)
  | _, _ => None
  end.

Lemma merkle_root_r_levels fuel hs :
  hs ≠ [] → (length hs <= fuel)%nat → merkle_root_r fuel hs = root_of fuel hs.
Proof.
  revert hs. induction fuel as [|fuel IH]; intros hs Hne Hf.
  { destruct hs; cbn in *; [done|lia]. }
  cbn [merkle_root_r]. destruct hs as [|h1 [|h2 hs]]; [done|done|].
  destruct (level_loop_first_level (h1 :: h2 :: hs) Hne) as (res & Hr & Ht).
  rewrite (proj2 (Nat.eqb_neq _ 1)) by (cbn; lia). rewrite Hr. cbn [mbind option_bind].
  rewrite Ht, IH; [done|done|]. rewrite length_first_level. cbn [length] in *.
  pose proof (Nat.div_mod (S (S (length hs)) + 1) 2 ltac:(lia)). lia.
Qed.

(** ** The tree a root is the root of

    [subtree hs h pos]: the hash of the node at height [h] and position [pos] of
    the tree whose leaves are [hs]. *)
Definition width (num : nat) (h : nat) : nat := ((num + 2 ^ h - 1) / 2 ^ h)%nat.

Fixpoint subtree (hs : list node) (h pos : nat) : node :=
  match h with
  | O => hs !!! pos
  | S h =>
      let l := subtree hs h (2 * pos) in
      parent_hash l (if (2 * pos + 1 <? width (length hs) h)%nat then subtree hs h (2 * pos + 1) else l)
  end.

Lemma subtree_S hs h pos :
  subtree hs (S h) pos =
  parent_hash (subtree hs h (2 * pos))
    (if (2 * pos + 1 <? width (length hs) h)%nat then subtree hs h (2 * pos + 1) else subtree hs h (2 * pos)).
Proof. done. Qed.

Lemma width_0 num : width num 0 = num.
Proof. unfold width. rewrite Nat.pow_0_r, Nat.div_1_r. lia. Qed.

Lemma width_spec num h pos : (pos < width num h ↔ pos * 2 ^ h < num)%nat.
Proof.
  unfold width. assert (2 ^ h ≠ 0)%nat by (apply Nat.pow_nonzero; lia).
  pose proof (Nat.div_mod (num + 2 ^ h - 1) (2 ^ h) ltac:(done)).
  pose proof (Nat.mod_upper_bound (num + 2 ^ h - 1) (2 ^ h) ltac:(done)).
  set (q := ((num + 2 ^ h - 1) / 2 ^ h)%nat) in *. split; intros; nia.
Qed.

(** Halving the leaves lowers every node by one. *)
Lemma width_S num h : width num (S h) = width ((num + 1) / 2) h.
Proof.
  apply Nat.le_antisymm; apply Nat.nlt_ge; intros Hlt; revert Hlt; rewrite !width_spec;
    pose proof (Nat.div_mod (num + 1) 2 ltac:(lia)); pose proof (Nat.mod_upper_bound (num + 1) 2 ltac:(lia));
    cbn [Nat.pow].
  - assert (¬ (width ((num + 1) / 2) h < width ((num + 1) / 2) h)%nat) as Hw by lia.
    rewrite width_spec in Hw. nia.
  - assert (¬ (width num (S h) < width num (S h))%nat) as Hw by lia.
    rewrite width_spec in Hw. cbn [Nat.pow] in Hw. nia.
Qed.

Lemma subtree_first_level hs h pos :
  (pos < width (length hs) (S h))%nat → subtree hs (S h) pos = subtree (first_level hs) h pos.
Proof.
  revert pos. induction h as [|h IH]; intros pos Hpos.
  - apply width_spec in Hpos. cbn [subtree]. rewrite width_0.
    symmetry. apply list_lookup_total_correct. rewrite first_level_lookup by (cbn in Hpos; lia).
    rewrite (list_lookup_lookup_total_lt hs (2 * pos)) by (cbn in Hpos; lia).
    cbn [mbind option_bind]. case_if; bool_lia.
    + rewrite Nat.min_l by lia. by rewrite (list_lookup_lookup_total_lt hs) by lia.
    + rewrite Nat.min_r by lia. replace (length hs - 1)%nat with (2 * pos)%nat by (cbn in Hpos; lia).
      by rewrite (list_lookup_lookup_total_lt hs) by (cbn in Hpos; lia).
  - rewrite subtree_S. apply width_spec in Hpos.
    rewrite (IH (2 * pos)%nat) by (apply width_spec; cbn [Nat.pow] in *; nia).
    rewrite (subtree_S (first_level hs)), length_first_level, <- width_S.
    case_if; [|done]. rewrite IH; [done|]. lia.
Qed.

(** The height of a tree of [n] leaves. *)
Definition tree_height (n : nat) : nat := Nat.log2_up n.

Lemma tree_height_half n : (1 < n)%nat → tree_height n = S (tree_height ((n + 1) / 2)).
Proof.
  intros Hn. unfold tree_height.
  pose proof (Nat.div_mod (n + 1) 2 ltac:(lia)). pose proof (Nat.mod_upper_bound (n + 1) 2 ltac:(lia)).
  set (m := ((n + 1) / 2)%nat) in *. destruct (decide (m = 1)%nat) as [Hm|].
  - assert (n = 2)%nat as -> by lia. by rewrite Hm.
  - apply Nat.log2_up_unique; [lia|]. pose proof (Nat.log2_up_spec m ltac:(lia)) as [H1 H2].
    cbn [Nat.pred] in *. destruct (Nat.log2_up m) as [|k]; [cbn in *; lia|]. cbn [Nat.pred Nat.pow] in *. lia.
Qed.

Lemma root_of_subtree fuel hs :
  hs ≠ [] → (length hs <= S fuel)%nat → root_of fuel hs = Some (subtree hs (tree_height (length hs)) 0).
Proof.
  revert hs. induction fuel as [|fuel IH]; intros [|h1 [|h2 hs]] Hne Hf; try done; cbn [length] in *; [lia|].
  cbn [root_of]. set (l := h1 :: h2 :: hs).
  assert (2 <= length l)%nat as Hl by (subst l; cbn; lia).
  rewrite tree_height_half by lia. rewrite subtree_first_level by (apply width_spec; lia).
  change (S (S (length hs))) with (length l).
  rewrite <- length_first_level. apply IH; [done|]. rewrite length_first_level.
  pose proof (Nat.div_mod (length l + 1) 2 ltac:(lia)). subst l. cbn [length] in *. lia.
Qed.

(** The root computed by [calculate_root]. *)
Definition merkle_root (hs : list node) : node := subtree hs (tree_height (length hs)) 0.

Lemma calculate_root_spec hs :
  calculate_root hs = match hs with [] => None | _ => Some (merkle_root hs) end.
Proof.
  destruct hs as [|h1 [|h2 hs]]; [done|done|]. cbn [calculate_root]. cbv zeta.
  set (l := h1 :: h2 :: hs). rewrite merkle_root_r_levels by done.
  rewrite root_of_subtree by (done || lia). f_equal. unfold merkle_root.
  rewrite (tree_height_half (length l)) by (subst l; cbn; lia).
  rewrite subtree_first_level by (apply width_spec; subst l; cbn; lia).
  by rewrite length_first_level.
Qed.

Lemma calculate_root_inline_spec hs :
  calculate_root_inline hs = match hs with [] => None | _ => Some (merkle_root hs) end.
Proof.
  destruct hs as [|h1 [|h2 hs]]; [done|done|]. unfold calculate_root_inline.
  set (l := h1 :: h2 :: hs). change (merkle_root_r (length l) l = Some (merkle_root l)).
  rewrite merkle_root_r_levels, root_of_subtree by (done || lia). done.
Qed.

(** ** The [u32] arithmetic of the partial tree *)

(** As many leaves as the widths and positions of the tree fit a [u32] for. *)
Definition leaves_fit (n : nat) : Prop := (0 < n)%nat ∧ Z.of_nat n <= 2 ^ 31.

Lemma two_pow_nat h : Z.of_nat (2 ^ h) = 2 ^ Z.of_nat h.
Proof. by rewrite Nat2Z.inj_pow. Qed.

Lemma calc_tree_width_spec n h :
  leaves_fit n → (h <= 31)%nat → calc_tree_width (Z.of_nat n) (Z.of_nat h) = Z.of_nat (width n h).
Proof.
  intros [Hn0 Hn] Hh. unfold calc_tree_width, width.
  rewrite Z.shiftl_mul_pow2, Z.shiftr_div_pow2, Z.mul_1_l by lia.
  assert (0 < 2 ^ Z.of_nat h <= 2 ^ 31) as Hp.
  { split; [lia|]. apply Z.pow_le_mono_r; lia. }
  rewrite Nat2Z.inj_div, Nat2Z.inj_sub, Nat2Z.inj_add, two_pow_nat by lia. f_equal.
  unfold uwrap. rewrite Zminus_mod_idemp_l. apply Z.mod_small. lia.
Qed.

Lemma width_le_1 n h : (0 < n)%nat → (width n h <= 1 ↔ n <= 2 ^ h)%nat.
Proof.
  intros Hn. pose proof (width_spec n h 1) as Hw. split; intros; [|lia].
  assert (¬ (1 * 2 ^ h < n))%nat by (rewrite <- Hw; lia). lia.
Qed.

Lemma tree_height_spec n h : (0 < n)%nat → (n <= 2 ^ h ↔ tree_height n <= h)%nat.
Proof. intros. unfold tree_height. apply Nat.log2_up_le_pow2. done. Qed.

Lemma tree_height_fits n : leaves_fit n → (tree_height n <= 31)%nat.
Proof.
  intros [Hn0 Hn]. apply tree_height_spec; [done|]. apply Nat2Z.inj_le. rewrite two_pow_nat. exact Hn.
Qed.

(** The height loop ends by its condition, within its 31 rounds. *)
Lemma calc_tree_height_spec n : leaves_fit n → calc_tree_height (Z.of_nat n) = tree_height n.
Proof.
  intros Hn. pose proof (tree_height_fits n Hn) as Hh. destruct (Hn) as [Hn0 _].
  enough (∀ f h, (h + f = 31)%nat → (h <= tree_height n)%nat →
    height_loop f h (Z.of_nat n) = tree_height n) as H by (apply H; lia).
  induction f as [|f IH]; intros h Hf Hle; cbn [height_loop]; [lia|].
  rewrite calc_tree_width_spec by (done || lia).
  pose proof (width_le_1 n h Hn0). pose proof (tree_height_spec n h Hn0).
  case_if; [apply IH; lia|lia].
Qed.

Section Positions.
Context (n : nat) (Hn : leaves_fit n).

(** Children of a node of the tree are positions without wrap-around. *)
Lemma child_positions h pos :
  (pos < width n (S h))%nat →
  left_child (Z.of_nat pos) = Z.of_nat (2 * pos) ∧
  right_child (Z.of_nat pos) = Z.of_nat (2 * pos + 1) ∧ (2 * pos < width n h)%nat.
Proof.
  destruct Hn as [Hn0 Hn1]. rewrite !width_spec. cbn [Nat.pow]. intros Hpos.
  pose proof (Nat.pow_nonzero 2 h ltac:(lia)).
  assert (2 * pos < n)%nat by nia. unfold left_child, right_child.
  rewrite (uwrap_small 32 (Z.of_nat pos * 2)) by (unfold urange; lia).
  rewrite uwrap_small by (unfold urange; lia). split_and!; [lia|lia|nia].
Qed.

Lemma right_in_tree h pos :
  (pos < width n (S h))%nat → (S h <= 31)%nat →
  (right_child (Z.of_nat pos) <? calc_tree_width (Z.of_nat n) (Z.of_nat h))
  = (2 * pos + 1 <? width n h)%nat.
Proof.
  intros Hpos Hh. destruct (child_positions h pos Hpos) as (_ & -> & _).
  rewrite calc_tree_width_spec by (done || lia). lia.
Qed.

Lemma calc_hash_spec txids h pos :
  length txids = n → (h <= 31)%nat → (pos < width n h)%nat →
  calc_hash (Z.of_nat n) h (Z.of_nat pos) txids = Some (subtree txids h pos).
Proof.
  intros Hl. revert pos. induction h as [|h IH]; intros pos Hh Hpos.
  - cbn. rewrite Nat2Z.id. rewrite width_0 in Hpos. apply list_lookup_lookup_total_lt. lia.
  - cbn [calc_hash]. destruct (child_positions h pos Hpos) as (Hlc & Hrc & Hlw).
    rewrite right_in_tree by done. rewrite Hlc, Hrc, (IH (2 * pos)%nat) by (done || lia). cbn [mbind option_bind].
    rewrite subtree_S, Hl. case_if; [|done]. rewrite IH by lia. done.
Qed.

(** *** Construction *)

(** The matched leaves among the [k] from [a] on. *)
Definition matched (ms : list bool) (a k : nat) : list nat :=
  filter (λ i : nat, ms !! i = Some true) (seq a k).

Definition has_match (ms : list bool) (h pos : nat) : bool :=
  bool_decide (matched ms (pos * 2 ^ h) (2 ^ h) ≠ []).

Lemma matched_S ms a k (b : bool) :
  ms !! a = Some b → matched ms a (S k) = (if b then [a] else []) ++ matched ms (S a) k.
Proof.
  intros Hb. unfold matched. cbn [seq]. rewrite filter_cons, Hb. by destruct b.
Qed.

Lemma matched_out ms a k : (length ms <= a)%nat → matched ms a k = [].
Proof.
  revert a. induction k as [|k IH]; intros a Ha; [done|]. unfold matched in *. cbn [seq].
  rewrite filter_cons, lookup_ge_None_2 by done. apply IH. lia.
Qed.

Lemma matched_app ms a k k' : matched ms a (k + k') = matched ms a k ++ matched ms (a + k) k'.
Proof. unfold matched. by rewrite seq_app, filter_app. Qed.

Lemma match_loop_spec ms fuel p hi acc :
  length ms = n → (p <= n)%nat → (n - p <= fuel)%nat → Z.of_nat p <= hi < 2 ^ 32 →
  match_loop fuel (Z.of_nat p) hi (Z.of_nat n) ms acc
  = Some (acc || bool_decide (matched ms p (Z.to_nat hi - p) ≠ [])).
Proof.
  intros Hl. destruct Hn as [_ Hn1]. revert p acc. induction fuel as [|fuel IH]; intros p acc Hp Hf Hhi.
  - cbn. rewrite (proj2 (Z.ltb_ge (Z.of_nat p) (Z.of_nat n))), andb_false_r by lia.
    rewrite matched_out by lia. by rewrite orb_false_r.
  - cbn [match_loop]. case_if; bool_lia.
    + rewrite Nat2Z.id. destruct (ms !! p) as [m|] eqn:Hm; [|apply lookup_ge_None in Hm; lia].
      cbn [mbind option_bind]. rewrite uwrap_small by (unfold urange; lia).
      replace (Z.of_nat p + 1) with (Z.of_nat (S p)) by lia. rewrite IH by lia.
      replace (Z.to_nat hi - p)%nat with (S (Z.to_nat hi - S p)) by lia.
      rewrite (matched_S _ _ _ m) by done. by destruct m, acc.
    + destruct (decide (Z.of_nat p = Z.of_nat n)); [rewrite matched_out by lia|
        replace (Z.to_nat hi - p)%nat with 0%nat by lia]; by rewrite orb_false_r.
Qed.
End Positions.

(** The flag bits and the hashes of a partial tree, in the order of the traversal. *)
Fixpoint tree_bits (n : nat) (ms : list bool) (h pos : nat) : list bool :=
  has_match ms h pos ::
  match h with
  | O => []
  | S h' =>
      if has_match ms h pos then
        tree_bits n ms h' (2 * pos)
        ++ (if (2 * pos + 1 <? width n h')%nat then tree_bits n ms h' (2 * pos + 1) else [])
      else []
  end.

Fixpoint tree_hashes (txids : list node) (ms : list bool) (h pos : nat) : list node :=
  match h with
  | O => [subtree txids 0 pos]
  | S h' =>
      if has_match ms h pos then
        tree_hashes txids ms h' (2 * pos)
        ++ (if (2 * pos + 1 <? width (length txids) h')%nat
            then tree_hashes txids ms h' (2 * pos + 1) else [])
      else [subtree txids h pos]
  end.

(** No node of the traversal has two children with the same hash. *)
Fixpoint distinct_siblings (txids : list node) (ms : list bool) (h pos : nat) : bool :=
  match h with
  | O => true
  | S h' =>
      if has_match ms h pos then
        distinct_siblings txids ms h' (2 * pos)
        && (if (2 * pos + 1 <? width (length txids) h')%nat
            then distinct_siblings txids ms h' (2 * pos + 1)
                 && negb (bool_decide (subtree txids h' (2 * pos + 1) = subtree txids h' (2 * pos)))
            else true)
      else true
  end.

Lemma tree_height_top n : leaves_fit n → (0 < width n (tree_height n))%nat.
Proof. intros []. apply width_spec. lia. Qed.

Section Construction.
Context (txids : list node) (ms : list bool).
Context (Hn : leaves_fit (length txids)) (Hms : length ms = length txids).

Lemma build_match_loop h pos :
  (h <= 31)%nat → (pos < width (length txids) h)%nat →
  match_loop (length ms) (uwrap 32 (Z.shiftl (Z.of_nat pos) (Z.of_nat h)))
    (uwrap 32 (Z.shiftl (uwrap 32 (Z.of_nat pos + 1)) (Z.of_nat h))) (Z.of_nat (length txids)) ms false
  = Some (has_match ms h pos).
Proof.
  intros Hh Hpos. pose proof Hpos as Hp. apply width_spec in Hp. destruct (Hn) as [_ Hn1].
  pose proof (two_pow_nat h) as H2. assert (0 < 2 ^ Z.of_nat h <= 2 ^ 31) as Hpw.
  { split; [lia|]. apply Z.pow_le_mono_r; lia. }
  assert (Z.of_nat pos * 2 ^ Z.of_nat h < Z.of_nat (length txids)) as Hpz by nia.
  assert (0 <= Z.of_nat pos <= Z.of_nat pos * 2 ^ Z.of_nat h) as Hpp by nia.
  rewrite (uwrap_small 32 (Z.of_nat pos + 1)) by (unfold urange; lia).
  rewrite !Z.shiftl_mul_pow2 by lia.
  rewrite (uwrap_small 32 (Z.of_nat pos * _)) by (unfold urange; lia).
  rewrite uwrap_small by (unfold urange; nia).
  replace (Z.of_nat pos * 2 ^ Z.of_nat h) with (Z.of_nat (pos * 2 ^ h)) by lia.
  rewrite (match_loop_spec _ Hn) by (done || nia). cbn [orb]. unfold has_match. do 3 f_equal.
  replace (Z.to_nat ((Z.of_nat pos + 1) * 2 ^ Z.of_nat h) - pos * 2 ^ h)%nat with (2 ^ h)%nat by nia.
  done.
Qed.

Lemma traverse_and_build_spec h pos pmt :
  num_transactions pmt = Z.of_nat (length txids) →
  (h <= 31)%nat → (pos < width (length txids) h)%nat →
  traverse_and_build h (Z.of_nat pos) txids ms pmt
  = Some {| num_transactions := num_transactions pmt;
            bits := bits pmt ++ tree_bits (length txids) ms h pos;
            hashes := hashes pmt ++ tree_hashes txids ms h pos |}.
Proof.
  revert pos pmt. induction h as [|h IH]; intros pos pmt Hnum Hh Hpos;
    cbn [traverse_and_build]; rewrite Hnum, build_match_loop by done; cbn [mbind option_bind].
  - pose proof (calc_hash_spec _ Hn txids 0 pos) as Hc. rewrite Hc by (done || lia).
    unfold push_hash, push_bit. cbn. by rewrite Hnum.
  - cbn [tree_bits tree_hashes].
    destruct (has_match ms (S h) pos); cbn [negb].
    + destruct (child_positions _ Hn h pos Hpos) as (Hlc & Hrc & Hlw).
      rewrite (right_in_tree _ Hn) by done. rewrite Hlc, Hrc, IH by (done || lia).
      cbn [mbind option_bind]. case_if.
      * rewrite IH by (done || lia). unfold push_bit. cbn. by rewrite Hnum, <- !app_assoc.
      * unfold push_bit. cbn. by rewrite Hnum, !app_nil_r, <- !app_assoc.
    + rewrite (calc_hash_spec _ Hn) by done. unfold push_hash, push_bit. cbn. by rewrite Hnum.
Qed.

Lemma from_txids_spec :
  from_txids txids ms
  = Some {| num_transactions := Z.of_nat (length txids);
            bits := tree_bits (length txids) ms (tree_height (length txids)) 0;
            hashes := tree_hashes txids ms (tree_height (length txids)) 0 |}.
Proof.
  destruct (Hn) as [Hn0 Hn1]. unfold from_txids.
  rewrite (proj2 (Nat.eqb_neq _ _)), (proj2 (Nat.eqb_eq _ _)) by lia. cbn [negb orb]. cbv zeta.
  cbn [num_transactions]. rewrite uwrap_small by (unfold urange; lia).
  rewrite calc_tree_height_spec by done. change 0 with (Z.of_nat 0).
  apply traverse_and_build_spec; [done|by apply tree_height_fits|by apply tree_height_top].
Qed.

(** *** Extraction from a tree that was built *)

(** The matches below a node. *)
Definition matched_below (h pos : nat) : list nat := matched ms (pos * 2 ^ h) (2 ^ h).

Lemma matched_below_S h pos :
  (pos < width (length txids) (S h))%nat →
  matched_below (S h) pos = matched_below h (2 * pos)
    ++ (if (2 * pos + 1 <? width (length txids) h)%nat then matched_below h (2 * pos + 1) else []).
Proof.
  intros Hpos. unfold matched_below. cbn [Nat.pow].
  replace (pos * (2 * 2 ^ h))%nat with (2 * pos * 2 ^ h)%nat by lia.
  replace (2 * 2 ^ h)%nat with (2 ^ h + 2 ^ h)%nat by lia. rewrite matched_app. f_equal.
  replace (2 * pos * 2 ^ h + 2 ^ h)%nat with ((2 * pos + 1) * 2 ^ h)%nat by lia.
  case_if; [done|]. apply matched_out. rewrite Hms.
  apply Nat.nlt_ge. rewrite <- width_spec. lia.
Qed.

Lemma length_tree_hashes h pos :
  (pos < width (length txids) h)%nat →
  (length (tree_hashes txids ms h pos) <= length txids - pos * 2 ^ h)%nat ∧
  (length (tree_hashes txids ms h pos) <= 2 ^ h)%nat ∧
  (length (tree_hashes txids ms h pos) <= length (tree_bits (length txids) ms h pos))%nat ∧
  (length (tree_bits (length txids) ms h pos) < 2 ^ S h)%nat.
Proof.
  revert pos. induction h as [|h IH]; intros pos Hpos.
  - apply width_spec in Hpos. cbn in *. lia.
  - cbn [tree_hashes tree_bits]. pose proof (Nat.pow_nonzero 2 h ltac:(lia)).
    pose proof Hpos as Hw. apply width_spec in Hw. destruct (has_match ms (S h) pos).
    + destruct (child_positions _ Hn h pos Hpos) as (_ & _ & Hlw).
      destruct (IH (2 * pos)%nat Hlw) as (H1 & H2 & H3 & H4). cbn [length].
      rewrite !length_app. cbn [Nat.pow] in *. case_if.
      * destruct (IH (2 * pos + 1)%nat ltac:(lia)) as (H1' & H2' & H3' & H4').
        assert (2 * pos + 1 < width (length txids) h)%nat as Hrw by lia. apply width_spec in Hrw. nia.
      * cbn [length]. nia.
    + cbn [length Nat.pow] in *. nia.
Qed.

(** The state after a node has been traversed. *)
Definition extracted (h pos : nat) (st : extraction) : extraction :=
  {| bits_used := bits_used st + Z.of_nat (length (tree_bits (length txids) ms h pos));
     hash_used := hash_used st + Z.of_nat (length (tree_hashes txids ms h pos));
     matches := matches st ++ ((txids !!!.) <$> matched_below h pos);
     indexes := indexes st ++ (Z.of_nat <$> matched_below h pos) |}.

(** The part of the tree's bits and hashes that lies ahead of [st]. *)
Definition ahead (self : PartialMerkleTree) (st : extraction) (bs : list bool) (hs : list node) : Prop :=
  (∃ pre post, bits self = pre ++ bs ++ post ∧ bits_used st = Z.of_nat (length pre)) ∧
  (∃ pre post, hashes self = pre ++ hs ++ post ∧ hash_used st = Z.of_nat (length pre)).

Lemma ahead_split self st h pos bs hs :
  ahead self st (tree_bits (length txids) ms h pos ++ bs) (tree_hashes txids ms h pos ++ hs) →
  ahead self st (tree_bits (length txids) ms h pos) (tree_hashes txids ms h pos) ∧
  ahead self (extracted h pos st) bs hs.
Proof.
  intros [(bp & bq & Hb & Hbu) (hp & hq & Hh & Hhu)]. split; split.
  - exists bp, (bs ++ bq). by rewrite Hb, <- app_assoc.
  - exists hp, (hs ++ hq). by rewrite Hh, <- app_assoc.
  - exists (bp ++ tree_bits (length txids) ms h pos), bq. rewrite Hb, <- !app_assoc. split; [done|].
    cbn. rewrite length_app. lia.
  - exists (hp ++ tree_hashes txids ms h pos), hq. rewrite Hh, <- !app_assoc. split; [done|].
    cbn. rewrite length_app. lia.
Qed.

Lemma ahead_bit self st b bs hs :
  ahead self st (b :: bs) hs → Z.of_nat (length (bits self)) < 2 ^ 32 →
  bits self !! Z.to_nat (bits_used st) = Some b ∧ ahead self (take_bit st) bs hs ∧
  take_bit st = {| bits_used := bits_used st + 1; hash_used := hash_used st;
                   matches := matches st; indexes := indexes st |}.
Proof.
  intros [(bp & bq & Hb & Hbu) Hh] Hlen. rewrite Hbu, Nat2Z.id. 
  rewrite Hb, !length_app in Hlen. cbn [length] in Hlen.
  assert (take_bit st = {| bits_used := bits_used st + 1; hash_used := hash_used st;
                   matches := matches st; indexes := indexes st |}) as Ht.
  { unfold take_bit. rewrite uwrap_small by (unfold urange; lia). done. }
  split_and!; [by rewrite Hb, lookup_app_r, Nat.sub_diag by done| |by rewrite Ht, Hbu].
  split; [|exact Hh]. exists (bp ++ [b]), bq. rewrite Hb, <- app_assoc. split; [done|].
  rewrite Ht. cbn. rewrite length_app. cbn. lia.
Qed.

Lemma ahead_hash self st hash matched pos :
  ahead self st [] [hash] → Z.of_nat (length (hashes self)) < 2 ^ 32 →
  use_hash self matched pos st
  = Ok (hash, {| bits_used := bits_used st; hash_used := hash_used st + 1;
                 matches := matches st ++ (if matched then [hash] else []);
                 indexes := indexes st ++ (if matched then [pos] else []) |}).
Proof.
  intros [_ (hp & hq & Hh & Hhu)] Hlen. unfold use_hash. rewrite Hhu, Nat2Z.id.
  rewrite Hh, !length_app in Hlen. cbn [length] in Hlen.
  rewrite Hh, lookup_app_r, Nat.sub_diag by done. cbn.
  assert (uwrap 32 (hash_used st + 1) = hash_used st + 1) as Hw by (apply uwrap_small; unfold urange; lia).
  unfold take_hash. rewrite Hw, Hhu. destruct matched; cbn; by rewrite ?app_nil_r.
Qed.

Lemma has_match_false h pos : has_match ms h pos = false → matched_below h pos = [].
Proof.
  unfold has_match, matched_below. intros Hf. apply bool_decide_eq_false in Hf.
  destruct (matched _ _ _); [done|]. by destruct Hf.
Qed.

Lemma matched_leaf pos :
  (pos < length txids)%nat → matched_below 0 pos = if has_match ms 0 pos then [pos] else [].
Proof.
  intros Hpos. unfold has_match, matched_below. change (2 ^ 0)%nat with 1%nat. rewrite Nat.mul_1_r.
  destruct (ms !! pos) as [b|] eqn:Hb; [|apply lookup_ge_None in Hb; lia].
  rewrite (matched_S _ _ _ b) by done. by destruct b.
Qed.

Lemma extracted_S h pos st :
  (pos < width (length txids) (S h))%nat → has_match ms (S h) pos = true →
  extracted (S h) pos st
  = let st1 := extracted h (2 * pos)
      {| bits_used := bits_used st + 1; hash_used := hash_used st;
         matches := matches st; indexes := indexes st |} in
    if (2 * pos + 1 <? width (length txids) h)%nat then extracted h (2 * pos + 1) st1 else st1.
Proof.
  intros Hpos Hm. unfold extracted. rewrite matched_below_S by done. cbn [tree_bits tree_hashes].
  rewrite Hm. cbn. case_if; rewrite ?app_nil_r, ?fmap_app, ?length_app, <- ?app_assoc; f_equal; lia.
Qed.

Lemma traverse_and_extract_built self h pos st :
  num_transactions self = Z.of_nat (length txids) → (h <= 31)%nat → (pos < width (length txids) h)%nat →
  Z.of_nat (length (bits self)) < 2 ^ 32 → Z.of_nat (length (hashes self)) < 2 ^ 32 →
  ahead self st (tree_bits (length txids) ms h pos) (tree_hashes txids ms h pos) →
  traverse_and_extract self h (Z.of_nat pos) st
  = if distinct_siblings txids ms h pos then Ok (subtree txids h pos, extracted h pos st)
    else Err IdenticalHashesFound.
Proof.
  intros Hnum Hh Hpos Hlb Hlh. revert pos st Hpos Hh.
  induction h as [|h IH]; intros pos st Hpos Hh Ha; cbn [traverse_and_extract].
  - cbn [tree_bits tree_hashes distinct_siblings] in *.
    destruct (ahead_bit _ _ _ _ _ Ha Hlb) as (-> & Ha' & Ht).
    rewrite (ahead_hash _ _ _ _ _ Ha' Hlh), Ht. cbn. do 2 f_equal.
    unfold extracted. rewrite matched_leaf by (by rewrite width_0 in Hpos).
    cbn. by destruct (has_match ms 0 pos).
  - cbn [tree_bits tree_hashes distinct_siblings] in *.
    destruct (ahead_bit _ _ _ _ _ Ha Hlb) as (-> & Ha' & Ht). 
    destruct (has_match ms (S h) pos) eqn:Hm; cbn [negb].
    + destruct (child_positions _ Hn h pos Hpos) as (Hlc & Hrc & Hlw).
      rewrite Hnum, (right_in_tree _ Hn), Hlc, Hrc by done.
      destruct (ahead_split _ _ _ _ _ _ Ha') as [Hal Har]. rewrite (IH (2 * pos)%nat) by (done || lia).
      destruct (distinct_siblings txids ms h (2 * pos)); cbn [andb result_bind]; [|done].
      rewrite extracted_S, subtree_S by done. cbv zeta. rewrite <- Ht. case_if.
      * rewrite (IH (2 * pos + 1)%nat) by (done || lia).
        destruct (distinct_siblings txids ms h (2 * pos + 1)); cbn [andb result_bind]; [|done].
        case_decide as Hd.
        -- by rewrite bool_decide_true by done.
        -- by rewrite bool_decide_false by done.
      * done.
    + rewrite (ahead_hash _ _ _ _ _ Ha' Hlh), Ht. unfold extracted. rewrite has_match_false by done.
      cbn [tree_bits tree_hashes]. rewrite Hm. cbn. done.
Qed.
End Construction.

(** ** The codec of the partial tree *)

Lemma unpack_pack chunk :
  (length chunk <= 8)%nat →
  unpack_byte (pack_byte chunk) = chunk ++ replicate (8 - length chunk) false ∧ urange 8 (pack_byte chunk).
Proof.
  intros Hl. unfold urange.
  do 9 (destruct chunk as [|[] chunk]; [vm_compute; repeat split; discriminate || reflexivity| |]);
    cbn in Hl; lia.
Qed.

Lemma pack_unpack v : urange 8 v → pack_byte (unpack_byte v) = v.
Proof.
  intros Hv. assert (forallb (λ v, pack_byte (unpack_byte v) =? v) (map Z.of_nat (List.seq 0 256)) = true)
    as Hall by by vm_compute.
  rewrite forallb_forall in Hall. apply Z.eqb_eq, Hall, in_map_iff. unfold urange in Hv.
  exists (Z.to_nat v). rewrite List.in_seq. lia.
Qed.

Lemma length_unpack v : length (unpack_byte v) = 8%nat.
Proof. done. Qed.

(** The bits as they come back: filled up with [false] to whole bytes. *)
Definition padded (bs : list bool) : list bool :=
  bs ++ replicate (8 * ((length bs + 7) / 8) - length bs) false.

Lemma chunks8_padded fuel bs :
  (length bs <= fuel)%nat →
  (chunks8 fuel bs ≫= λ c, unpack_byte (pack_byte c)) = padded bs ∧
  length (chunks8 fuel bs) = ((length bs + 7) / 8)%nat ∧
  Forall (λ c, length c <= 8)%nat (chunks8 fuel bs).
Proof.
  revert bs. induction fuel as [|fuel IH]; intros [|b bs] Hf; try (cbn in *; done || lia).
  cbn [chunks8]. set (l := b :: bs) in *. assert (0 < length l)%nat as Hl0 by (cbn; lia).
  assert (length (take 8 l) <= 8)%nat as Ht by (rewrite length_take; lia).
  destruct (IH (drop 8 l)) as (H1 & H2 & H3); [rewrite length_drop; lia|].
  cbn [mbind list_bind length]. rewrite H1, H2. rewrite (proj1 (unpack_pack _ Ht)).
  unfold padded. rewrite length_drop, length_take in *.
  destruct (decide (8 <= length l)%nat).
  - assert ((length l - 8 + 7) / 8 = (length l + 7) / 8 - 1)%nat as ->.
    { replace (length l + 7)%nat with (length l - 8 + 7 + 1 * 8)%nat by lia. rewrite Nat.div_add by lia. lia. }
    assert (1 <= (length l + 7) / 8)%nat by (apply Nat.div_le_lower_bound; lia).
    rewrite Nat.min_l by lia. rewrite app_nil_r, app_assoc, take_drop.
    split_and!; [do 2 f_equal; lia|lia|]. constructor; [rewrite length_take; lia|done].
  - rewrite Nat.min_r by lia. rewrite (drop_ge l), take_ge by lia.
    replace (length l - 8 + 7)%nat with 7%nat by lia. change (7 / 8)%nat with 0%nat.
    assert ((length l + 7) / 8 = 1)%nat as -> by (symmetry; apply Nat.div_unique with (length l - 1)%nat; lia).
    cbn [app]. rewrite app_nil_r. split_and!; [done|done|].
    constructor; [lia|]. by rewrite drop_ge in H3 by lia.
Qed.

Definition bit_bytes (cs : list (list bool)) : list byte := map (λ c, byte.of_Z (pack_byte c)) cs.

Lemma write_bits cs :
  wseg (λ ret, w_for (λ ret chunk, w_add ret (c_enc u8 (pack_byte chunk))) ret cs) (bit_bytes cs).
Proof.
  induction cs as [|c cs IH]; [apply wseg_ret|]. cbn [w_for bit_bytes map].
  change (byte.of_Z (pack_byte c) :: map (λ c, byte.of_Z (pack_byte c)) cs)
    with ([byte.of_Z (pack_byte c)] ++ bit_bytes cs).
  apply (wseg_bind (λ ret, w_add ret (c_enc u8 (pack_byte c)))); [|exact IH].
  apply wseg_enc. done.
Qed.

Definition read_bits_step (bits : list bool) : rd (list bool) :=
  let! byte := c_dec_top u8 in rd_ret (bits ++ unpack_byte byte).

Lemma read_bits_loop cs acc rest :
  Forall (λ c, length c <= 8)%nat cs →
  nat_loop (λ st, read_bits_step (fst st) (snd st)) (length cs) (acc, bit_bytes cs ++ rest)
  = Ok (acc ++ (cs ≫= λ c, unpack_byte (pack_byte c)), rest).
Proof.
  intros Hcs. revert acc. induction Hcs as [|c cs Hc _ IH]; intros acc.
  { cbn. by rewrite app_nil_r. }
  cbn [length nat_loop fst snd bit_bytes map app]. unfold read_bits_step at 1, rd_bind.
  change (c_dec_top u8) with read_u8. rewrite read_u8_cons.
  rewrite byte_of_Z_u by (by apply unpack_pack). cbn [rd_ret result_bind mbind list_bind].
  unfold bit_bytes in IH. by rewrite IH, <- app_assoc.
Qed.

Lemma read_bits_ok n s acc bits rest :
  nat_loop (λ st, read_bits_step (fst st) (snd st)) n (acc, s) = Ok (bits, rest) →
  ∃ bs, length bs = n ∧ s = bs ++ rest ∧
    bits = acc ++ (bs ≫= λ b, unpack_byte (byte.unsigned b)).
Proof.
  revert acc s. induction n as [|n IH]; intros acc s.
  - intros [= <- <-]. exists []. cbn. by rewrite app_nil_r.
  - cbn [nat_loop fst snd]. unfold read_bits_step at 1, rd_bind.
    change (c_dec_top u8) with read_u8. destruct s as [|b s]; [done|]. rewrite read_u8_cons.
    cbn [rd_ret result_bind]. intros Hl. destruct (IH _ _ Hl) as (bs & <- & -> & ->).
    exists (b :: bs). cbn. by rewrite <- app_assoc.
Qed.

Lemma chunks8_unpack fuel bs :
  (length (bs ≫= λ b, unpack_byte (byte.unsigned b)) <= fuel)%nat →
  bit_bytes (chunks8 fuel (bs ≫= λ b, unpack_byte (byte.unsigned b))) = bs.
Proof.
  revert fuel. induction bs as [|b bs IH]; intros fuel Hf; [by destruct fuel|].
  cbn [mbind list_bind] in *. rewrite length_app, length_unpack in Hf.
  destruct fuel as [|fuel]; [lia|].
  change (chunks8 (S fuel) (unpack_byte (byte.unsigned b) ++ (bs ≫= λ b, unpack_byte (byte.unsigned b))))
    with (unpack_byte (byte.unsigned b) :: chunks8 fuel (bs ≫= λ b, unpack_byte (byte.unsigned b))).
  cbn [bit_bytes map]. rewrite pack_unpack by apply urange_byte. rewrite byte.of_Z_unsigned.
  f_equal. apply IH. lia.
Qed.

(** Trees whose parts fit the limits of the decoder. *)
Record pmt_fits (pmt : PartialMerkleTree) : Prop := {
  pf_num : urange 32 (num_transactions pmt);
  pf_hashes : Forall is_node (hashes pmt);
  pf_room : varint_size (Z.of_nat (length (hashes pmt))) + 32 * Z.of_nat (length (hashes pmt)) <= MAX_VEC_SIZE;
  pf_bits : (Z.of_nat (length (bits pmt)) + 7) / 8 <= MAX_VEC_SIZE }.

(** What comes back from the wire has whole bytes of bits. *)
Definition pmt_wf (pmt : PartialMerkleTree) : Prop :=
  pmt_fits pmt ∧ padded (bits pmt) = bits pmt.

Definition pmt_padded (pmt : PartialMerkleTree) : PartialMerkleTree :=
  {| num_transactions := num_transactions pmt; bits := padded (bits pmt); hashes := hashes pmt |}.

Lemma is_node_array hs : Forall is_node hs → Forall (is_array 32) hs.
Proof. intros H. eapply Forall_impl; [exact H|]. unfold is_node, is_array. intros h ->. done. Qed.

Lemma bit_count (bs : list bool) :
  Z.to_nat ((Z.of_nat (length bs) + 7) / 8) = ((length bs + 7) / 8)%nat.
Proof.
  replace (Z.of_nat (length bs) + 7) with (Z.of_nat (length bs + 7)) by lia.
  change 8 with (Z.of_nat 8). by rewrite <- Nat2Z.inj_div, Nat2Z.id.
Qed.

(** The encoder as a sequence of fields. *)
Definition pmt_write (pmt : PartialMerkleTree) (len : Z) : wr Z :=
  let+ ret := w_add len (c_enc u32 (num_transactions pmt)) in
  let+ ret := w_add ret (c_enc (vec node_codec) (hashes pmt)) in
  let+ ret := w_add ret (c_enc varint ((Z.of_nat (length (bits pmt)) + 7) / 8)) in
  w_for (λ ret chunk, w_add ret (c_enc u8 (pack_byte chunk))) ret
    (chunks8 (length (bits pmt)) (bits pmt)).

Lemma pmt_encode_write pmt : c_enc pmt_codec pmt = pmt_write pmt 0.
Proof. done. Qed.

Lemma pmt_reads pmt :
  pmt_fits pmt → ∃ bs, encodes pmt_codec pmt bs ∧ reads pmt_decode bs (pmt_padded pmt).
Proof.
  intros [Hnum Hhs Hroom Hbits]. unfold MAX_VEC_SIZE in *.
  pose proof (varint_size_pos (Z.of_nat (length (hashes pmt)))).
  assert (vec_wf (is_array 32) (hashes pmt)) as Hv by (split; [by apply is_node_array|lia]).
  destruct (roundtrip (c := vec node_codec) (hashes pmt) Hv) as (hb & Hhe & Hhr).
  pose proof (length_vec_array 32 _ _ (proj1 Hv) Hhe) as Hhl.
  assert (seg (λ len, w_add len (c_enc (vec node_codec) (hashes pmt)))
    (c_dec_top (vec node_codec)) (hashes pmt)) as Hseg.
  { apply seg_take. exists hb. split_and!; [by apply wseg_enc|done|unfold MAX_VEC_SIZE; lia]. }
  assert (0 <= (Z.of_nat (length (bits pmt)) + 7) / 8) by (apply Z.div_pos; lia).
  enough (seg (pmt_write pmt) pmt_decode (pmt_padded pmt)) as (bs & Hw & Hr).
  { exists bs. split; [|done]. by eapply wseg_encodes; [apply pmt_encode_write|]. }
  eapply seg_bind; [seg_field|]. cbn beta. eapply seg_bind; [exact Hseg|].
  cbv zeta. eapply seg_bind; [eapply (seg_enc_top varint (urange 64)); unfold urange; lia|].
  rewrite (proj2 (Z.ltb_ge _ _)) by (unfold MAX_VEC_SIZE; lia).
  apply (seg_map _ _ (λ bits, {| num_transactions := num_transactions pmt; bits := bits;
    hashes := hashes pmt |})).
  destruct (chunks8_padded (length (bits pmt)) (bits pmt)) as (Hp & Hl & Hc); [done|].
  exists (bit_bytes (chunks8 (length (bits pmt)) (bits pmt))). split; [apply write_bits|].
  intros rest. rewrite rd_for_nat, bit_count, <- Hl. fold read_bits_step.
  pose proof (read_bits_loop (chunks8 (length (bits pmt)) (bits pmt)) [] rest Hc) as Hr.
  unfold read_bits_step in Hr. rewrite Hr, Hp. done.
Qed.

#[export] Instance pmt_roundtrip : RoundTrip pmt_codec pmt_wf.
Proof.
  intros [num bs hs] [Hf Hp]. destruct (pmt_reads _ Hf) as (b & He & Hr). exists b.
  split; [done|]. unfold pmt_padded in Hr. cbn in *. by rewrite Hp in Hr.
Qed.

Lemma length_unpacked (bs : list byte) :
  length (bs ≫= λ b, unpack_byte (byte.unsigned b)) = (8 * length bs)%nat.
Proof. induction bs as [|b bs IH]; [done|]. cbn [mbind list_bind length]. rewrite length_app, length_unpack, IH. lia. Qed.

#[export] Instance pmt_canonical : Canonical pmt_codec pmt_wf.
Proof.
  intros s pmt rest Hd. change (c_dec pmt_codec) with pmt_decode in Hd. unfold pmt_decode in Hd.
  apply rd_bind_ok in Hd as (num & s1 & Hnum & Hd). apply rd_bind_ok in Hd as (hs & s2 & Hhs & Hd).
  apply rd_bind_ok in Hd as (nb & s3 & Hnb & Hd).
  apply (parses_take (c_dec (vec node_codec)) (vec_wf (is_array 32)) (encodes (vec node_codec)))
    in Hhs as ((Hwf & Hlen) & hb & Hhe & Hhl & ->); [|apply _|done].
  canonical_fields. unfold urange in *. case_if; [done|]. inv_ok.
  match goal with H : rd_for _ _ _ _ = _ |- _ => rewrite rd_for_nat in H;
    apply read_bits_ok in H as (bs & Hbl & -> & ->) end. cbn [app] in *.
  pose proof (length_vec_array 32 _ _ Hwf Hhe) as Hvl.
  pose proof (length_unpacked bs) as Hul.
  set (ub := bs ≫= λ b, unpack_byte (byte.unsigned b)) in *.
  assert ((length ub + 7) / 8 = length bs)%nat as Hdiv
    by (rewrite Hul; symmetry; apply Nat.div_unique with 7%nat; lia).
  assert ((Z.of_nat (length ub) + 7) / 8 = Z.of_nat (length bs)) as Hdivz.
  { rewrite Hul. symmetry; apply Z.div_unique with 7; lia. }
  split; [split|].
  - constructor; cbn; [done| | |].
    + eapply Forall_impl; [exact Hwf|]. unfold is_node, is_array. lia.
    + lia.
    + rewrite Hdivz. lia.
  - change (padded ub = ub). unfold padded. rewrite Hdiv, Hul. replace (8 * length bs - 8 * length bs)%nat with 0%nat by lia.
    by rewrite app_nil_r.
  - eexists. split.
    + eapply wseg_encodes; [apply pmt_encode_write|].
      eapply wseg_bind; [by apply wseg_enc|]. eapply wseg_bind; [by apply wseg_enc|].
      eapply wseg_bind; [apply wseg_enc|apply write_bits].
      cbn [bits]. rewrite Hdivz, Hbl, Z2Nat.id by lia. eassumption.
    + cbn [bits]. subst ub. rewrite chunks8_unpack by done. by rewrite <- !app_assoc.
Qed.

#[export] Instance pmt_len : EncodeLen pmt_codec.
Proof.
  intros pmt n bs H. cbn [c_enc pmt_codec finite_codec] in H. unfold pmt_encode in H. inv_ok.
  repeat match goal with H : c_enc _ _ = _ |- _ => apply encode_len in H end.
  match goal with H : w_for _ _ _ = _ |- _ => rewrite (write_bits _ _) in H; injection H as <- <- end.
  rewrite !length_app. lia.
Qed.

(** ** Soundness of extraction *)

(** The pairs of siblings of the block's tree, and the pairs that an extraction
    combines: explicit, finite lists of what the two computations hash. *)
Fixpoint tree_pairs (hs : list node) (h pos : nat) : list (node * node) :=
  match h with
  | O => []
  | S h =>
      let l := subtree hs h (2 * pos) in
      if (2 * pos + 1 <? width (length hs) h)%nat
      then (l, subtree hs h (2 * pos + 1)) :: tree_pairs hs h (2 * pos) ++ tree_pairs hs h (2 * pos + 1)
      else (l, l) :: tree_pairs hs h (2 * pos)
  end.

Fixpoint combined (self : PartialMerkleTree) (height : nat) (pos : Z) (st : extraction)
  : list (node * node) :=
  match height, bits self !! Z.to_nat (bits_used st) with
  | S height', Some true =>
      match traverse_and_extract self height' (left_child pos) (take_bit st) with
      | Ok (l, st') =>
          if right_child pos <? calc_tree_width (num_transactions self) (Z.of_nat height') then
            match traverse_and_extract self height' (right_child pos) st' with
            | Ok (r, _) => (l, r) :: combined self height' (left_child pos) (take_bit st)
                             ++ combined self height' (right_child pos) st'
            | Err _ => []
            end
          else (l, l) :: combined self height' (left_child pos) (take_bit st)
      | Err _ => []
      end
  | _, _ => []
  end.

(** Two different pairs with the same parent, one from each list. *)
Definition collide (ps qs : list (node * node)) : Prop :=
  ∃ p q, p ∈ ps ∧ q ∈ qs ∧ p ≠ q ∧ parent_hash p.1 p.2 = parent_hash q.1 q.2.

Lemma collide_mono ps ps' qs qs' : ps ⊆ ps' → qs ⊆ qs' → collide ps qs → collide ps' qs'.
Proof. intros Hp Hq (p & q & ? & ? & ? & ?). exists p, q. auto. Qed.

Lemma sub_left {A} (x : A) xs ys : xs ⊆ x :: xs ++ ys.
Proof. intros y Hy. rewrite elem_of_cons, elem_of_app. auto. Qed.
Lemma sub_right {A} (x : A) xs ys : ys ⊆ x :: xs ++ ys.
Proof. intros y Hy. rewrite elem_of_cons, elem_of_app. auto. Qed.
Lemma sub_tail {A} (x : A) xs : xs ⊆ x :: xs.
Proof. intros y Hy. rewrite elem_of_cons. auto. Qed.

(** Each match is the leaf of its index. *)
Definition leaf_matches (txids : list node) (ms : list node) (ixs : list Z) : Prop :=
  Forall2 (λ m i, 0 <= i ∧ txids !! Z.to_nat i = Some m) ms ixs.

(** What a traversal appends to the matches is right, if the hash of the node is. *)
Definition sound_step (self : PartialMerkleTree) (txids : list node) (h pos : nat)
    (st : extraction) (hash : node) (st' : extraction) : Prop :=
  hash = subtree txids h pos →
  (∃ ms ixs, matches st' = matches st ++ ms ∧ indexes st' = indexes st ++ ixs ∧ leaf_matches txids ms ixs)
  ∨ collide (combined self h (Z.of_nat pos) st) (tree_pairs txids h pos).

Lemma use_hash_ok self matched pos st hash st' :
  use_hash self matched pos st = Ok (hash, st') →
  matches st' = matches st ++ (if matched then [hash] else []) ∧
  indexes st' = indexes st ++ (if matched then [pos] else []).
Proof.
  unfold use_hash. destruct (_ !! _); [|done]. intros [= -> <-].
  by destruct matched; cbn; rewrite ?app_nil_r.
Qed.

Lemma sound_append self txids h pos st hash st' :
  matches st' = matches st → indexes st' = indexes st → sound_step self txids h pos st hash st'.
Proof. intros Hm Hi _. left. exists [], []. rewrite !app_nil_r. split_and!; [done..|constructor]. Qed.

Section Soundness.
Context (self : PartialMerkleTree) (txids : list node).
Context (Hn : leaves_fit (length txids)) (Hnum : num_transactions self = Z.of_nat (length txids)).

Lemma traverse_sound h pos st hash st' :
  (h <= 31)%nat → (pos < width (length txids) h)%nat →
  traverse_and_extract self h (Z.of_nat pos) st = Ok (hash, st') →
  sound_step self txids h pos st hash st'.
Proof.
  revert pos st hash st'. induction h as [|h IH]; intros pos st hash st' Hh Hpos;
    cbn [traverse_and_extract]; destruct (bits self !! _) as [b|] eqn:Hb; try done.
  - intros Hu Heq. apply use_hash_ok in Hu as [Hm Hi]. left. eexists _, _. split_and!; [exact Hm|exact Hi|].
    destruct b; [|constructor]. constructor; [|constructor]. split; [lia|].
    rewrite Nat2Z.id, Heq. cbn. apply list_lookup_lookup_total_lt. by rewrite width_0 in Hpos.
  - destruct b; cbn [negb].
    2:{ intros Hu. apply use_hash_ok in Hu as [Hm Hi]. apply sound_append; cbn in *; by rewrite ?app_nil_r in *. }
    unfold sound_step. rewrite subtree_S. cbn [combined tree_pairs]. rewrite Hb, Hnum.
    destruct (child_positions _ Hn h pos Hpos) as (Hlc & Hrc & Hlw).
    rewrite (right_in_tree _ Hn), Hlc, Hrc by done.
    destruct (traverse_and_extract self h (Z.of_nat (2 * pos)) (take_bit st)) as [[l st1]|] eqn:Hl; [|done].
    pose proof (IH _ _ _ _ ltac:(lia) Hlw Hl) as IHl. unfold sound_step in IHl. cbn [result_bind].
    case_if.
    + destruct (traverse_and_extract self h (Z.of_nat (2 * pos + 1)) st1) as [[r st2]|] eqn:Hr; [|done].
      pose proof (IH (2 * pos + 1)%nat _ _ _ ltac:(lia) ltac:(lia) Hr) as IHr. unfold sound_step in IHr.
      cbn [result_bind]. case_decide; [done|]. intros [= <- <-] Heq.
      destruct (decide ((l, r) = (subtree txids h (2 * pos), subtree txids h (2 * pos + 1)))) as [[= El Er]|Hne].
      2:{ right. eexists _, _. split_and!; [constructor|constructor|exact Hne|exact Heq]. }
      destruct (IHl El) as [(ms1 & ixs1 & Hm1 & Hi1 & H1)|Hc];
        [|right; apply (collide_mono _ _ _ _ (sub_left _ _ _) (sub_left _ _ _) Hc)].
      destruct (IHr Er) as [(ms2 & ixs2 & Hm2 & Hi2 & H2)|Hc];
        [|right; apply (collide_mono _ _ _ _ (sub_right _ _ _) (sub_right _ _ _) Hc)].
      left. exists (ms1 ++ ms2), (ixs1 ++ ixs2). rewrite Hm2, Hi2, Hm1, Hi1, <- !app_assoc.
      split_and!; [done..|by apply Forall2_app].
    + intros [= <- <-] Heq.
      destruct (decide ((l, l) = (subtree txids h (2 * pos), subtree txids h (2 * pos)))) as [[= El]|Hne].
      2:{ right. eexists _, _. split_and!; [constructor|constructor|exact Hne|exact Heq]. }
      destruct (IHl El) as [Hok|Hc]; [by left|].
      right. apply (collide_mono _ _ _ _ (sub_tail _ _) (sub_tail _ _) Hc).
Qed.
End Soundness.

(** What [extract_matches] combines, from its first state. *)
Definition start : extraction := {| bits_used := 0; hash_used := 0; matches := []; indexes := [] |}.

Definition extract_pairs (self : PartialMerkleTree) : list (node * node) :=
  combined self (calc_tree_height (num_transactions self)) 0 start.
Definition root_pairs (txids : list node) : list (node * node) :=
  tree_pairs txids (tree_height (length txids)) 0.

(** ** Properties *)

(** The three computations of a Merkle root agree.  [calculate_root], which
    streams the first level, [calculate_root_inline], which folds the slice onto
    itself, and [calc_hash] at the top of the partial tree return the same hash
    for every list of hashes of block size, and there is one for every list but the
    empty one, for which both return [None]. *)
Theorem merkle_root_equivalence txids :
  calculate_root txids = calculate_root_inline txids ∧
  (calculate_root txids = None ↔ txids = []) ∧
  (leaves_fit (length txids) →
   let num := Z.of_nat (length txids) in
   calc_hash num (calc_tree_height num) 0 txids = calculate_root txids).
Proof.
  rewrite calculate_root_inline_spec, calculate_root_spec. split_and!; [done|by destruct txids|].
  intros Hn. cbv zeta. rewrite calc_tree_height_spec by done. change 0 with (Z.of_nat 0).
  rewrite (calc_hash_spec _ Hn); [|done|by apply tree_height_fits|by apply tree_height_top].
  destruct txids; [|done]. destruct Hn. cbn in *. lia.
Qed.

Lemma merkle_root_equivalence_witness :
  calc_hash 3 (calc_tree_height 3) 0 [replicate 32 x01; replicate 32 x02; replicate 32 x03]
  = calculate_root [replicate 32 x01; replicate 32 x02; replicate 32 x03].
Proof.
  apply (merkle_root_equivalence [replicate 32 x01; replicate 32 x02; replicate 32 x03]).
  split; cbn; lia.
Defined.

(** The limit on the transactions of a block. *)
Definition block_limit (n : nat) : Prop :=
  (0 < n)%nat ∧ Z.of_nat n <= Weight.MAX_BLOCK / Weight.MIN_TRANSACTION.

Lemma block_limit_fits n : block_limit n → leaves_fit n ∧ (tree_height n <= 15)%nat ∧ Z.of_nat n <= 16666.
Proof.
  intros [Hn0 Hn]. change (Weight.MAX_BLOCK / Weight.MIN_TRANSACTION) with 16666 in Hn.
  split_and!; [split; lia| |done]. apply tree_height_spec; [done|]. change (2 ^ 15)%nat with (Z.to_nat 32768). lia.
Qed.

Lemma matched_all ms : matched_below ms (tree_height (length ms)) 0 = matched ms 0 (length ms).
Proof.
  unfold matched_below. rewrite Nat.mul_0_l.
  assert (length ms <= 2 ^ tree_height (length ms))%nat.
  { destruct (decide (length ms = 0)%nat) as [->|]; [lia|]. apply tree_height_spec; lia. }
  replace (2 ^ tree_height (length ms))%nat
    with (length ms + (2 ^ tree_height (length ms) - length ms))%nat by lia.
  by rewrite matched_app, (matched_out ms (0 + _)), app_nil_r by lia.
Qed.

(** The positions that were asked for. *)
Definition selected (ms : list bool) : list nat := matched ms 0 (length ms).

Definition expected (txids : list node) (ms : list bool) : result MerkleBlockError (node * list node * list Z) :=
  if distinct_siblings txids ms (tree_height (length txids)) 0
  then Ok (merkle_root txids, (txids !!!.) <$> selected ms, Z.of_nat <$> selected ms)
  else Err IdenticalHashesFound.

Lemma built_lengths txids ms :
  block_limit (length txids) → length ms = length txids →
  let bs := tree_bits (length txids) ms (tree_height (length txids)) 0 in
  let hs := tree_hashes txids ms (tree_height (length txids)) 0 in
  (length hs <= length txids)%nat ∧ (length hs <= length bs)%nat ∧ Z.of_nat (length bs) < 65536.
Proof.
  intros Hb Hms. destruct (block_limit_fits _ Hb) as (Hn & Hh & _). cbv zeta.
  destruct (length_tree_hashes txids ms Hn Hms _ _ (tree_height_top _ Hn)) as (H1 & _ & H3 & H4).
  split_and!; [lia|done|]. apply inj_lt in H4. rewrite two_pow_nat in H4.
  eapply Z.lt_le_trans; [exact H4|]. change 65536 with (2 ^ 16). apply Z.pow_le_mono_r; lia.
Qed.

Lemma extract_built txids ms k :
  block_limit (length txids) → length ms = length txids →
  let bs := tree_bits (length txids) ms (tree_height (length txids)) 0 in
  (k < 8)%nat → ((length bs + k + 7) / 8 = (length bs + 7) / 8)%nat →
  extract_matches {| num_transactions := Z.of_nat (length txids); bits := bs ++ replicate k false;
                     hashes := tree_hashes txids ms (tree_height (length txids)) 0 |}
  = expected txids ms.
Proof.
  intros Hb Hms bs Hk Hdiv. destruct (block_limit_fits _ Hb) as (Hn & Hh & Hmax).
  destruct (built_lengths txids ms Hb Hms) as (H1 & H2 & H3). fold bs in H2, H3.
  unfold extract_matches. cbn [num_transactions bits hashes].
  rewrite length_app, length_replicate.
  set (hs := tree_hashes txids ms (tree_height (length txids)) 0) in *.
  rewrite (uwrap_small 32 (Z.of_nat (length hs))) by (unfold urange; lia).
  rewrite (uwrap_small 32 (Z.of_nat (length bs + k))) by (unfold urange; lia).
  rewrite (proj2 (Z.eqb_neq _ 0)) by (destruct Hn; lia).
  rewrite (proj2 (Z.ltb_ge _ _)) by apply Hb. rewrite (proj2 (Z.ltb_ge _ _)) by lia.
  rewrite (proj2 (Nat.ltb_ge _ _)) by lia. cbv zeta. rewrite calc_tree_height_spec by done.
  pose proof (traverse_and_extract_built txids ms Hn Hms
    {| num_transactions := Z.of_nat (length txids); bits := bs ++ replicate k false; hashes := hs |}
    (tree_height (length txids)) 0 start) as Ht.
  change (Z.of_nat 0) with 0 in Ht. unfold start in Ht.
  rewrite Ht; [|done|lia|by apply tree_height_top|cbn; rewrite length_app, length_replicate; lia|cbn; lia|].
  2:{ split; [exists [], (replicate k false)|exists [], []]; cbn; by rewrite ?app_nil_r. }
  unfold expected. destruct (distinct_siblings _ _ _ _); [|done]. cbn [result_bind].
  unfold extracted. cbn [bits_used hash_used matches indexes]. fold bs hs. rewrite !Z.add_0_l, !app_nil_l.
  rewrite !uwrap_small by (unfold urange; lia).
  assert ((Z.of_nat (length bs) + 7) / 8 = (Z.of_nat (length bs + k) + 7) / 8) as ->.
  { apply (f_equal Z.of_nat) in Hdiv. rewrite !Nat2Z.inj_div in Hdiv.
    rewrite !Nat2Z.inj_add in *. cbn in Hdiv. lia. }
  rewrite !Z.eqb_refl. cbn [negb]. unfold selected. rewrite <- matched_all, Hms. done.
Qed.

Lemma built_fits txids ms :
  block_limit (length txids) → Forall is_node txids → length ms = length txids →
  pmt_fits {| num_transactions := Z.of_nat (length txids);
              bits := tree_bits (length txids) ms (tree_height (length txids)) 0;
              hashes := tree_hashes txids ms (tree_height (length txids)) 0 |}.
Proof.
  intros Hb Hnodes Hms. destruct (block_limit_fits _ Hb) as (Hn & Hh & Hmax).
  pose proof (tree_height_top _ Hn) as Htop.
  destruct (built_lengths txids ms Hb Hms) as (H1 & H3 & H4).
  set (hs := tree_hashes _ _ _ _) in *. pose proof (varint_size_pos (Z.of_nat (length hs))).
  constructor; cbn [num_transactions bits hashes].
  - unfold urange. lia.
  - subst hs. revert Htop. generalize (tree_height (length txids)), 0%nat. clear -Hnodes Hn.
    assert (∀ h pos, (pos < width (length txids) h)%nat → is_node (subtree txids h pos)) as Hsub.
    { intros [|h] pos Hpos; [|apply parent_hash_node]. rewrite width_0 in Hpos.
      rewrite Forall_lookup in Hnodes. eapply Hnodes. by apply list_lookup_lookup_total_lt. }
    induction n as [|h IH]; intros pos Hpos; cbn [tree_hashes]; [constructor; [by apply (Hsub 0%nat)|constructor]|].
    case_if; [|constructor; [by apply Hsub|constructor]].
    destruct (child_positions _ Hn h pos Hpos) as (_ & _ & Hlw).
    apply Forall_app. split; [by apply IH|]. case_if; [apply IH; lia|constructor].
  - unfold MAX_VEC_SIZE. fold hs. lia.
  - unfold MAX_VEC_SIZE. apply Z.div_le_upper_bound; lia.
Qed.

(** C17: a partial Merkle tree proves the transactions it was built for.  For any
    block of at most 16666 transactions and any selection of them [from_txids] does
    not panic, and [extract_matches] returns the Merkle root, the selected hashes
    and their indexes, also after the tree went over the wire, where the bits are
    filled up to whole bytes; the one exception is a block with two sibling nodes
    of the same hash on the way to a selected transaction, which is refused. *)
Theorem partial_tree_complete txids ms :
  block_limit (length txids) → Forall is_node txids → length ms = length txids →
  ∃ pmt bs root, from_txids txids ms = Some pmt ∧ encodes pmt_codec pmt bs ∧
    calculate_root txids = Some root ∧
    (extract_matches pmt =
       if distinct_siblings txids ms (tree_height (length txids)) 0
       then Ok (root, (txids !!!.) <$> selected ms, Z.of_nat <$> selected ms)
       else Err IdenticalHashesFound) ∧
    ∀ rest, ∃ pmt', pmt_decode (bs ++ rest) = Ok (pmt', rest) ∧ extract_matches pmt' = extract_matches pmt.
Proof.
  intros Hb Hnodes Hms. destruct (block_limit_fits _ Hb) as (Hn & _ & _).
  pose proof (built_fits txids ms Hb Hnodes Hms) as Hf. destruct (pmt_reads _ Hf) as (bs & He & Hr).
  set (tb := tree_bits (length txids) ms (tree_height (length txids)) 0) in *.
  assert (∀ k, (k < 8)%nat → ((length tb + k + 7) / 8 = (length tb + 7) / 8)%nat → extract_matches
    {| num_transactions := Z.of_nat (length txids); bits := tb ++ replicate k false;
       hashes := tree_hashes txids ms (tree_height (length txids)) 0 |} = expected txids ms) as Hx
    by (intros k ? ?; by apply extract_built).
  pose proof (Hx 0%nat ltac:(lia)) as H0. rewrite Nat.add_0_r in H0. specialize (H0 eq_refl).
  cbn [replicate] in H0. rewrite app_nil_r in H0.
  eexists _, bs, (merkle_root txids). split_and!; [by apply from_txids_spec|exact He| |exact H0|].
  - rewrite calculate_root_spec. destruct txids; [|done]. destruct Hn. cbn in *. lia.
  - intros rest. eexists. split; [apply Hr|]. transitivity (expected txids ms); [|symmetry; exact H0].
    unfold pmt_padded, padded. cbn [num_transactions bits hashes]. fold tb.
    pose proof (Nat.div_mod (length tb + 7) 8 ltac:(lia)). pose proof (Nat.mod_upper_bound (length tb + 7) 8 ltac:(lia)).
    apply Hx; [lia|]. symmetry. apply Nat.div_unique with 7%nat; lia.
Qed.

(** What an extraction with the right root has matched. *)
Lemma extract_sound (self : PartialMerkleTree) txids root ms ixs :
  leaves_fit (length txids) → num_transactions self = Z.of_nat (length txids) →
  calculate_root txids = Some root → extract_matches self = Ok (root, ms, ixs) →
  Forall2 (λ m i, 0 <= i ∧ txids !! Z.to_nat i = Some m) ms ixs ∨
  ∃ p q, p ∈ extract_pairs self ∧ q ∈ root_pairs txids ∧ p ≠ q ∧
    parent_hash p.1 p.2 = parent_hash q.1 q.2.
Proof.
  intros Hn Hnum Hroot. rewrite calculate_root_spec in Hroot.
  assert (root = merkle_root txids) as -> by (destruct txids; congruence). clear Hroot.
  unfold extract_matches. do 4 (case_if; [done|]). cbv zeta.
  change {| bits_used := 0; hash_used := 0; matches := []; indexes := [] |} with start.
  rewrite Hnum, calc_tree_height_spec by done.
  destruct (traverse_and_extract self (tree_height (length txids)) 0 start) as [[hash st]|] eqn:Ht; [|done].
  cbn [result_bind]. do 2 (case_if; [done|]). intros [= -> <- <-].
  change 0 with (Z.of_nat 0) in Ht.
  destruct (traverse_sound self txids Hn Hnum (tree_height (length txids)) 0 start
      (merkle_root txids) st) as
    [(ms & ixs & -> & -> & H)|Hc]; [by apply tree_height_fits|by apply tree_height_top|exact Ht|done| |].
  - left. exact H.
  - right. unfold extract_pairs, root_pairs. rewrite Hnum, calc_tree_height_spec by done. exact Hc.
Qed.

(** C4: and no tree proves anything else.  Whatever the tree that an adversary
    sends, if extraction succeeds with the Merkle root and the number of
    transactions of the block then every match is the transaction at the index
    given, or else the extraction and the block's own tree have hashed two
    different pairs to the same value: a collision of double SHA-256 is at hand. *)
Theorem partial_tree_sound (self : PartialMerkleTree) txids root ms ixs :
  leaves_fit (length txids) → num_transactions self = Z.of_nat (length txids) →
  calculate_root txids = Some root → extract_matches self = Ok (root, ms, ixs) →
  Forall2 (λ m i, 0 <= i ∧ txids !! Z.to_nat i = Some m) ms ixs ∨
  ∃ p q, p ∈ extract_pairs self ∧ q ∈ root_pairs txids ∧ p ≠ q ∧
    parent_hash p.1 p.2 = parent_hash q.1 q.2.
Proof. apply extract_sound. Qed.

(** ** Examples *)

Definition sample_txids : list node := [replicate 32 x01; replicate 32 x02; replicate 32 x03].

Lemma sample_txids_nodes : Forall is_node sample_txids.
Proof. repeat constructor. Qed.

Lemma sample_block_limit : block_limit 3.
Proof. split; [lia|]. by vm_compute. Qed.

Lemma partial_tree_complete_witness :
  ∃ pmt root, from_txids sample_txids [false; false; true] = Some pmt ∧
    extract_matches pmt = Ok (root, [replicate 32 x03], [2]).
Proof.
  destruct (partial_tree_complete sample_txids [false; false; true] sample_block_limit
    sample_txids_nodes eq_refl) as (pmt & bs & root & Hf & _ & _ & He & _).
  exists pmt, root. split; [exact Hf|]. rewrite He.
  assert (distinct_siblings sample_txids [false; false; true] (tree_height (length sample_txids)) 0 = true)
    as -> by (vm_compute; reflexivity).
  reflexivity.
Defined.

(** The tree for the third of three transactions, and their root. *)
Definition sample_tree : PartialMerkleTree :=
  {| num_transactions := 3; bits := [true; false; true; true];
     hashes := [parent_hash (replicate 32 x01) (replicate 32 x02); replicate 32 x03] |}.
Definition sample_root : node := merkle_root sample_txids.

Example sample_tree_built : from_txids sample_txids [false; false; true] = Some sample_tree.
Proof. vm_compute. reflexivity. Qed.
Example sample_tree_extract : extract_matches sample_tree = Ok (sample_root, [replicate 32 x03], [2]).
Proof. vm_compute. reflexivity. Qed.

Lemma partial_tree_sound_witness :
  Forall2 (λ m i, 0 <= i ∧ sample_txids !! Z.to_nat i = Some m) [replicate 32 x03] [2] ∨
  ∃ p q, p ∈ extract_pairs sample_tree ∧ q ∈ root_pairs sample_txids ∧ p ≠ q ∧
    parent_hash p.1 p.2 = parent_hash q.1 q.2.
Proof.
  apply (partial_tree_sound sample_tree sample_txids sample_root).
  - split; cbn; lia.
  - reflexivity.
  - apply (calculate_root_spec sample_txids).
  - apply sample_tree_extract.
Defined.

(** The duplication that Bitcoin knows as CVE-2012-2459: repeating the last
    transactions of an odd level does not change the root. *)
Example duplicated_leaves_same_root :
  calculate_root sample_txids = calculate_root (sample_txids ++ [replicate 32 x03]).
Proof. vm_compute. reflexivity. Qed.
