(* ===== verification/Pow.v ===== *)
(** Proof of work ([src/litecoin/src/pow.rs], [consensus/params.rs]): the 256-bit
    integers, targets and work, the compact encoding of targets, difficulty, and
    the retargeting rule.  The operations on pairs of [u128] halves are proved to
    be arithmetic on the values they stand for. *)

From Stdlib Require Import String ZArith Lia ZifyBool.
From stdpp Require Import base list.
From Stdlib Require Import Init.Byte.
From coqutil Require Import Byte Word.LittleEndianList.
From S2P Require Import Prelude.

Definition U128_MAX : Z := 2 ^ 128 - 1.

(** [struct U256(u128, u128)]: the high and the low half. *)
Record u256 := Pair { hi : Z; lo : Z }.

#[export] Instance u256_eq_dec : EqDecision u256.
Proof. solve_decision. Defined.

Module U256.

Definition MAX : u256 := Pair 0xffffffffffffffffffffffffffffffff 0xffffffffffffffffffffffffffffffff.
Definition ZERO : u256 := Pair 0 0.
Definition ONE : u256 := Pair 0 1.

(** [From<T: Into<u128>>] *)
Definition from (x : Z) : u256 := Pair 0 x.

(** The derived [PartialOrd]: lexicographic on the halves. *)
Definition ltb (x y : u256) : bool := (hi x <? hi y) || ((hi x =? hi y) && (lo x <? lo y)).
Definition leb (x y : u256) : bool := negb (ltb y x).

Definition from_be_bytes (a : list byte) : u256 := Pair (be_combine (take 16 a)) (be_combine (drop 16 a)).
Definition from_le_bytes (a : list byte) : u256 := Pair (le_combine (drop 16 a)) (le_combine (take 16 a)).
Definition to_be_bytes (x : u256) : list byte := be_split 16 (hi x) ++ be_split 16 (lo x).
Definition to_le_bytes (x : u256) : list byte := le_split 16 (lo x) ++ le_split 16 (hi x).

Definition is_zero (x : u256) : bool := (hi x =? 0) && (lo x =? 0).
Definition is_one (x : u256) : bool := (hi x =? 0) && (lo x =? 1).
Definition is_max (x : u256) : bool := (hi x =? U128_MAX) && (lo x =? U128_MAX).

Definition low_u128 (x : u256) : Z := lo x.
Definition low_u64 (x : u256) : Z := uwrap 64 (low_u128 x).
Definition low_u32 (x : u256) : Z := uwrap 32 (low_u128 x).
Definition saturating_to_u128 (x : u256) : Z :=
  if ltb (from U128_MAX) x then U128_MAX else low_u128 x.

(** [u128::leading_zeros] *)
Definition leading_zeros (x : Z) : Z := if x =? 0 then 128 else 127 - Z.log2 x.
Definition bits (x : u256) : Z :=
  if 0 <? hi x then 256 - leading_zeros (hi x) else 128 - leading_zeros (lo x).

(** [u128::overflowing_add] *)
Definition overflowing_add128 (a b : Z) : Z * bool := (uwrap 128 (a + b), 2 ^ 128 <=? a + b).

Definition overflowing_add (self rhs : u256) : u256 * bool :=
  let '(high, ret_overflow) := overflowing_add128 (hi self) (hi rhs) in
  let '(low, overflow) := overflowing_add128 (lo self) (lo rhs) in
  if overflow then
    let '(high, overflow) := overflowing_add128 high 1 in
    (Pair high low, ret_overflow || overflow)
  else (Pair high low, ret_overflow).

Definition wrapping_add (self rhs : u256) : u256 := fst (overflowing_add self rhs).
Definition not (x : u256) : u256 := Pair (uwrap 128 (Z.lnot (hi x))) (uwrap 128 (Z.lnot (lo x))).

Definition overflowing_sub (self rhs : u256) : u256 * bool :=
  let ret := wrapping_add (wrapping_add self (not rhs)) ONE in
  (ret, ltb self rhs).
Definition wrapping_sub (self rhs : u256) : u256 := fst (overflowing_sub self rhs).

Definition wrapping_inc (x : u256) : u256 :=
  let low := uwrap 128 (lo x + 1) in
  Pair (if low =? 0 then uwrap 128 (hi x + 1) else hi x) low.

Definition wrapping_shl (self : u256) (rhs : Z) : u256 :=
  let shift := Z.land rhs 0x000000ff in
  let word_shift := 128 <=? shift in
  let bit_shift := shift mod 128 in
  if word_shift then Pair (uwrap 128 (Z.shiftl (lo self) bit_shift)) 0
  else
    let high := uwrap 128 (Z.shiftl (hi self) bit_shift) in
    let high := if 0 <? bit_shift then uwrap 128 (high + Z.shiftr (lo self) (128 - bit_shift)) else high in
    Pair high (uwrap 128 (Z.shiftl (lo self) bit_shift)).

Definition wrapping_shr (self : u256) (rhs : Z) : u256 :=
  let shift := Z.land rhs 0x000000ff in
  let word_shift := 128 <=? shift in
  let bit_shift := shift mod 128 in
  if word_shift then Pair 0 (Z.shiftr (hi self) bit_shift)
  else
    let low := Z.shiftr (lo self) bit_shift in
    let low := if 0 <? bit_shift
               then uwrap 128 (low + uwrap 128 (Z.shiftl (hi self) (128 - bit_shift))) else low in
    Pair (Z.shiftr (hi self) bit_shift) low.

(** The loop of [mul_u64] over the four little-endian words. *)
Fixpoint mul_words (rhs carry : Z) (words : list Z) : list Z * Z :=
  match words with
  | [] => ([], carry)
  | word :: words =>
      let n := uwrap 128 (carry + rhs * word) in
      let '(words, carry) := mul_words rhs (Z.shiftr n 64) words in
      (uwrap 64 n :: words, carry)
  end.

Definition mul_u64 (self : u256) (rhs : Z) : u256 * bool :=
  let split_le := [uwrap 64 (lo self); uwrap 64 (Z.shiftr (lo self) 64);
                   uwrap 64 (hi self); uwrap 64 (Z.shiftr (hi self) 64)] in
  let '(split_le, carry) := mul_words rhs 0 split_le in
  let word i := nth i split_le 0 in
  let low := Z.lor (word 0%nat) (uwrap 128 (Z.shiftl (word 1%nat) 64)) in
  let high := Z.lor (word 2%nat) (uwrap 128 (Z.shiftl (word 3%nat) 64)) in
  (Pair high low, negb (carry =? 0)).

Definition overflowing_mul (self rhs : u256) : u256 * bool :=
  let step ret i :=
    let to_mul := low_u64 (wrapping_shr rhs (64 * i)) in
    let mul_res := fst (mul_u64 self to_mul) in
    wrapping_add ret (wrapping_shl mul_res (64 * i)) in
  let ret := foldl step ZERO [0; 1; 2] in
  let to_mul := low_u64 (wrapping_shr rhs 192) in
  let '(mul_res, overflow) := mul_u64 self to_mul in
  let ret_overflow := overflow in
  let '(sum, overflow) := overflowing_add ret mul_res in
  (sum, ret_overflow || overflow).

(** [ret[1 - (shift / 128)] |= 1 << (shift % 128)] *)
Definition set_bit (ret : u256) (shift : Z) : u256 :=
  if shift / 128 =? 0 then Pair (hi ret) (Z.lor (lo ret) (Z.shiftl 1 (shift mod 128)))
  else Pair (Z.lor (hi ret) (Z.shiftl 1 (shift mod 128))) (lo ret).

(** The long division, which runs for [shift], [shift - 1], ..., 0. *)
Fixpoint div_loop (shift : nat) (sub_copy shift_copy ret : u256) : u256 * u256 :=
  let '(ret, sub_copy) :=
    if leb shift_copy sub_copy
    then (set_bit ret (Z.of_nat shift), wrapping_sub sub_copy shift_copy)
    else (ret, sub_copy) in
  let shift_copy := wrapping_shr shift_copy 1 in
  match shift with
  | O => (ret, sub_copy)
  | S shift => div_loop shift sub_copy shift_copy ret
  end.

(** [None]: the assertion panics. *)
Definition div_rem (self rhs : u256) : option (u256 * u256) :=
  let my_bits := bits self in
  let your_bits := bits rhs in
  if your_bits =? 0 then None
  else if my_bits <? your_bits then Some (ZERO, self)
  else
    let shift := my_bits - your_bits in
    Some (div_loop (Z.to_nat shift) self (wrapping_shl rhs shift) ZERO).

(** The operators; the debug assertions on overflow are compiled out. *)
Definition add (self rhs : u256) : u256 := fst (overflowing_add self rhs).
Definition sub (self rhs : u256) : u256 := fst (overflowing_sub self rhs).
Definition mul (self rhs : u256) : u256 := fst (overflowing_mul self rhs).
Definition div (self rhs : u256) : option u256 := fst <$> div_rem self rhs.
Definition rem (self rhs : u256) : option u256 := snd <$> div_rem self rhs.

Definition inverse (self : u256) : option u256 :=
  if is_zero self then Some MAX
  else if is_one self then Some MAX
  else if is_max self then Some ONE
  else
    ret ← div (not self) (wrapping_inc self);
    Some (wrapping_inc ret).

(** [fmt_decimal]: the digits, most significant first; [buf] holds what has been
    written at the end of the 78-byte buffer.  [None]: the index underflows, or a
    division panics. *)
Fixpoint decimal_loop (i : nat) (cur : u256) (buf : list Z) : option (list Z) :=
  r ← rem cur (Pair 0 10);
  let digit := uwrap 8 (low_u128 r) in
  let buf := uwrap 8 (digit + 48) :: buf in
  cur ← div cur (Pair 0 10);
  if is_zero cur then Some buf
  else match i with
       | O => None
       | S i => decimal_loop i cur buf
       end.
Definition fmt_decimal (self : u256) : option (list Z) := decimal_loop 77 self [].
(** [fmt::Display] *)
Definition display (self : u256) : option (list Z) :=
  if is_zero self then Some [48] else fmt_decimal self.

End U256.

(** ** Targets and work *)

Module Target.

Definition ZERO : u256 := U256.ZERO.
Definition MAX : u256 := Pair (Z.shiftl 0x0ffff0 88) 0.
Definition MAX_ATTAINABLE_MAINNET : u256 := Pair (Z.shiftl 0x0ffff0 88) 0.
Definition MAX_ATTAINABLE_TESTNET : u256 := Pair (Z.shiftl 0x0fffff 88) 0.
Definition MAX_ATTAINABLE_REGTEST : u256 := Pair (Z.shiftl 0x7FFFFF00 96) 0.
Definition MAX_ATTAINABLE_SIGNET : u256 := Pair (Z.shiftl 0x0377ae00 80) 0.

Definition from_compact (c : Z) : u256 :=
  let bits := c in
  let '(mant, expt) :=
    let unshifted_expt := Z.shiftr bits 24 in
    if unshifted_expt <=? 3 then
      (Z.shiftr (Z.land bits 0xFFFFFF) (8 * (3 - unshifted_expt)), 0)
    else (Z.land bits 0xFFFFFF, 8 * (Z.shiftr bits 24 - 3)) in
  if 0x7FFFFF <? mant then ZERO else U256.wrapping_shl (U256.from mant) expt.

Definition to_compact_lossy (t : u256) : Z :=
  let size := (U256.bits t + 7) / 8 in
  let compact :=
    if size <=? 3 then uwrap 32 (uwrap 64 (Z.shiftl (U256.low_u64 t) (8 * (3 - size))))
    else U256.low_u32 (U256.wrapping_shr t (8 * (size - 3))) in
  let '(compact, size) :=
    if negb (Z.land compact 0x00800000 =? 0) then (Z.shiftr compact 8, size + 1) else (compact, size) in
  Z.lor compact (uwrap 32 (Z.shiftl size 24)).

Definition is_met_by (t : u256) (hash : list byte) : bool := U256.leb (U256.from_le_bytes hash) t.

Definition to_work (t : u256) : option u256 := U256.inverse t.

Definition min_transition_threshold (t : u256) : u256 := U256.wrapping_shr t 2.
Definition max_transition_threshold_unchecked (t : u256) : u256 := U256.wrapping_shl t 2.

End Target.

Module Work.
Definition to_target (w : u256) : option u256 := U256.inverse w.
Definition add (w rhs : u256) : u256 := U256.add w rhs.
Definition sub (w rhs : u256) : u256 := U256.sub w rhs.
End Work.

(** ** Network parameters *)

Inductive Network := Bitcoin | Testnet4 | Signet | Regtest.

Module Params.

Record Params := {
  network : Network;
  bip16_time : Z;
  bip34_height : Z;
  bip65_height : Z;
  bip66_height : Z;
  rule_change_activation_threshold : Z;
  miner_confirmation_window : Z;
  pow_limit : u256;
  max_attainable_target : u256;
  pow_target_spacing : Z;
  pow_target_timespan : Z;
  allow_min_difficulty_blocks : bool;
  no_pow_retargeting : bool }.

Definition MAINNET : Params := {|
  network := Bitcoin; bip16_time := 1333238400; bip34_height := 710000; bip65_height := 918684;
  bip66_height := 811879; rule_change_activation_threshold := 6048; miner_confirmation_window := 8064;
  pow_limit := Target.MAX_ATTAINABLE_MAINNET; max_attainable_target := Target.MAX_ATTAINABLE_MAINNET;
  pow_target_spacing := 150; pow_target_timespan := 150 * 2016;
  allow_min_difficulty_blocks := false; no_pow_retargeting := false |}.

Definition TESTNET4 : Params := {|
  network := Testnet4; bip16_time := 1333238400; bip34_height := 76; bip65_height := 76;
  bip66_height := 76; rule_change_activation_threshold := 1512; miner_confirmation_window := 2016;
  pow_limit := Target.MAX_ATTAINABLE_TESTNET; max_attainable_target := Target.MAX_ATTAINABLE_TESTNET;
  pow_target_spacing := 150; pow_target_timespan := 150 * 2016;
  allow_min_difficulty_blocks := true; no_pow_retargeting := false |}.

Definition SIGNET : Params := {|
  network := Signet; bip16_time := 1333238400; bip34_height := 1; bip65_height := 1;
  bip66_height := 1; rule_change_activation_threshold := 1916; miner_confirmation_window := 2016;
  pow_limit := Target.MAX_ATTAINABLE_SIGNET; max_attainable_target := Target.MAX_ATTAINABLE_SIGNET;
  pow_target_spacing := 10 * 60; pow_target_timespan := 14 * 24 * 60 * 60;
  allow_min_difficulty_blocks := false; no_pow_retargeting := false |}.

Definition REGTEST : Params := {|
  network := Regtest; bip16_time := 1333238400; bip34_height := 100000000; bip65_height := 1351;
  bip66_height := 1251; rule_change_activation_threshold := 108; miner_confirmation_window := 144;
  pow_limit := Target.MAX_ATTAINABLE_REGTEST; max_attainable_target := Target.MAX_ATTAINABLE_REGTEST;
  pow_target_spacing := 150; pow_target_timespan := 150 * 2016;
  allow_min_difficulty_blocks := true; no_pow_retargeting := true |}.

Definition new (n : Network) : Params :=
  match n with Bitcoin => MAINNET | Testnet4 => TESTNET4 | Signet => SIGNET | Regtest => REGTEST end.

(** [None]: division by zero. *)
Definition difficulty_adjustment_interval (p : Params) : option Z :=
  if pow_target_spacing p =? 0 then None else Some (pow_target_timespan p / pow_target_spacing p).

End Params.

(** ** Difficulty and retargeting *)

(** [None]: the assertion that the target is not zero panics. *)
Definition difficulty (t : u256) (p : Params.Params) : option Z :=
  if decide (t = U256.ZERO) then None
  else
    d ← U256.div (Params.max_attainable_target p) t;
    Some (U256.saturating_to_u128 d).

Definition max_transition_threshold (t : u256) (p : Params.Params) : u256 :=
  let a := Target.max_transition_threshold_unchecked t in
  let b := Params.max_attainable_target p in
  if U256.leb a b then a else b.

(** [u64::clamp] *)
Definition clamp (x min max : Z) : Z := if x <? min then min else if max <? x then max else x.

Definition from_next_work_required (last timespan : Z) (p : Params.Params) : option Z :=
  if Params.no_pow_retargeting p then Some last
  else
    let min_timespan := Z.shiftr (Params.pow_target_timespan p) 2 in
    let max_timespan := uwrap 64 (Z.shiftl (Params.pow_target_timespan p) 2) in
    let actual_timespan := clamp timespan min_timespan max_timespan in
    let prev_target := Target.from_compact last in
    let maximum_retarget := max_transition_threshold prev_target p in
    let retarget := prev_target in
    let retarget := U256.mul retarget (U256.from actual_timespan) in
    retarget ← U256.div retarget (U256.from (Params.pow_target_timespan p));
    if U256.leb maximum_retarget retarget then Some (Target.to_compact_lossy maximum_retarget)
    else Some (Target.to_compact_lossy retarget).

(** ** The value of a pair *)

Definition val (x : u256) : Z := hi x * 2 ^ 128 + lo x.
Definition u256_wf (x : u256) : Prop := urange 128 (hi x) ∧ urange 128 (lo x).

Lemma val_range x : u256_wf x → urange 256 (val x).
Proof.
  unfold u256_wf, urange, val. change (2 ^ 256) with (2 ^ 128 * 2 ^ 128). intros [H1 H2]. nia.
Qed.

Lemma val_inj x y : u256_wf x → u256_wf y → val x = val y → x = y.
Proof.
  unfold u256_wf, urange, val. destruct x as [xh xl], y as [yh yl]. cbn [hi lo].
  intros [] [] He. assert (xh = yh) as -> by lia. f_equal. lia.
Qed.

Lemma ltb_val x y : u256_wf x → u256_wf y → U256.ltb x y = (val x <? val y).
Proof. unfold u256_wf, urange, val, U256.ltb. intros [] []. lia. Qed.
Lemma leb_val x y : u256_wf x → u256_wf y → U256.leb x y = (val x <=? val y).
Proof. intros. unfold U256.leb. rewrite ltb_val by done. lia. Qed.

(** ** Addition, subtraction, negation *)

Lemma overflowing_add128_val a b :
  urange 128 a → urange 128 b →
  let r := U256.overflowing_add128 a b in
  urange 128 (fst r) ∧ a + b = fst r + b2z (snd r) * 2 ^ 128.
Proof.
  unfold urange, U256.overflowing_add128, uwrap. cbn [fst snd]. intros Ha Hb.
  pose proof (Z.mod_pos_bound (a + b) (2 ^ 128) ltac:(lia)). split; [done|].
  destruct (Z.leb_spec (2 ^ 128) (a + b)); unfold b2z.
  - assert ((a + b) mod 2 ^ 128 = a + b - 2 ^ 128) as -> by (symmetry; apply Z.mod_unique with 1; lia). lia.
  - rewrite Z.mod_small by lia. lia.
Qed.

Lemma overflowing_add_val x y :
  u256_wf x → u256_wf y →
  let r := U256.overflowing_add x y in
  u256_wf (fst r) ∧ val x + val y = val (fst r) + b2z (snd r) * 2 ^ 256.
Proof.
  intros [Hxh Hxl] [Hyh Hyl]. unfold U256.overflowing_add, val.
  pose proof (overflowing_add128_val _ _ Hxh Hyh) as H1. pose proof (overflowing_add128_val _ _ Hxl Hyl) as H2.
  destruct (U256.overflowing_add128 (hi x) (hi y)) as [high o1].
  destruct (U256.overflowing_add128 (lo x) (lo y)) as [low o2]. cbn [fst snd] in *.
  destruct H1 as [H1 E1], H2 as [H2 E2].
  assert (urange 128 1) as Hu1 by (unfold urange; lia).
  destruct o2; cbn [b2z] in *.
  - pose proof (overflowing_add128_val high 1 H1 Hu1) as [H3 E3].
    destruct (U256.overflowing_add128 high 1) as [high' o3]. cbn [fst snd hi lo] in *.
    split; [done|]. unfold urange in *. destruct o1, o3; cbn [orb b2z] in *; lia.
  - cbn [fst snd hi lo]. split; [done|]. unfold urange in *. destruct o1; cbn [b2z] in *; lia.
Qed.

Lemma mod_256 v k r : urange 256 r → v = k * 2 ^ 256 + r → r = v mod 2 ^ 256.
Proof. unfold urange. intros Hr ->. apply Z.mod_unique with k; lia. Qed.

Lemma wrapping_add_val x y :
  u256_wf x → u256_wf y →
  u256_wf (U256.wrapping_add x y) ∧ val (U256.wrapping_add x y) = (val x + val y) mod 2 ^ 256.
Proof.
  intros Hx Hy. destruct (overflowing_add_val x y Hx Hy) as [Hw He]. unfold U256.wrapping_add.
  split; [done|]. apply mod_256 with (b2z (snd (U256.overflowing_add x y))); [by apply val_range|lia].
Qed.

Lemma lnot_wrap x : urange 128 x → uwrap 128 (Z.lnot x) = 2 ^ 128 - 1 - x.
Proof.
  unfold urange, uwrap. intros Hx. symmetry. apply Z.mod_unique with (-1); [lia|].
  unfold Z.lnot. lia.
Qed.

Lemma not_val x : u256_wf x → u256_wf (U256.not x) ∧ val (U256.not x) = 2 ^ 256 - 1 - val x.
Proof.
  intros [Hh Hl]. unfold U256.not, u256_wf, val. cbn [hi lo]. rewrite !lnot_wrap by done.
  unfold urange in *. lia.
Qed.

Lemma ONE_wf : u256_wf U256.ONE.
Proof. split; unfold urange; cbn; lia. Qed.
Lemma ZERO_wf : u256_wf U256.ZERO.
Proof. split; unfold urange; cbn; lia. Qed.

Lemma wrapping_sub_val x y :
  u256_wf x → u256_wf y →
  u256_wf (U256.wrapping_sub x y) ∧ val (U256.wrapping_sub x y) = (val x - val y) mod 2 ^ 256.
Proof.
  intros Hx Hy. unfold U256.wrapping_sub, U256.overflowing_sub. cbn [fst].
  destruct (not_val y Hy) as [Hn En]. destruct (wrapping_add_val x _ Hx Hn) as [Ha Ea].
  destruct (wrapping_add_val _ _ Ha ONE_wf) as [Hr Er]. split; [done|]. rewrite Er, Ea, En.
  rewrite Zplus_mod_idemp_l. change (val U256.ONE) with 1.
  replace (val x + (2 ^ 256 - 1 - val y) + 1) with (val x - val y + 1 * 2 ^ 256) by lia.
  by rewrite Z.mod_add by lia.
Qed.

Lemma wrapping_inc_val x :
  u256_wf x → u256_wf (U256.wrapping_inc x) ∧ val (U256.wrapping_inc x) = (val x + 1) mod 2 ^ 256.
Proof.
  intros [Hh Hl]. assert (urange 128 1) as H1 by (unfold urange; lia).
  pose proof (overflowing_add128_val _ 1 Hl H1) as [Hlr El].
  pose proof (overflowing_add128_val _ 1 Hh H1) as [Hhr Eh].
  unfold U256.wrapping_inc, u256_wf, val, U256.overflowing_add128 in *. cbn [fst snd hi lo] in *.
  set (l := uwrap 128 (lo x + 1)) in *. set (h := uwrap 128 (hi x + 1)) in *.
  destruct (Z.leb_spec (2 ^ 128) (lo x + 1)), (Z.leb_spec (2 ^ 128) (hi x + 1)), (Z.eqb_spec l 0);
    cbn [b2z] in *; unfold urange in *; try lia;
    (split; [lia|]); first [rewrite Z.mod_small by lia; lia | apply Z.mod_unique with 1; lia].
Qed.

(** ** Shifts *)

(** The two halves of [2 ^ 128] around a shift of [b] bits. *)
Lemma pow_split b : 0 <= b <= 128 → 2 ^ 128 = 2 ^ b * 2 ^ (128 - b) ∧ 0 < 2 ^ b ∧ 0 < 2 ^ (128 - b).
Proof.
  intros Hb. split_and!; [|lia|lia]. rewrite <- Z.pow_add_r by lia. f_equal. lia.
Qed.

Lemma shl_low x b :
  0 <= b <= 128 → uwrap 128 (Z.shiftl x b) = 2 ^ b * (x mod 2 ^ (128 - b)).
Proof.
  intros Hb. destruct (pow_split b Hb) as (HP & HB & HC). unfold uwrap. rewrite HP.
  by rewrite Z.shiftl_mul_pow2, Z.mul_comm, Z.mul_mod_distr_l by lia.
Qed.

Lemma land_ff s : 0 <= s < 256 → Z.land s 255 = s.
Proof. intros. change 255 with (Z.ones 8). rewrite Z.land_ones by lia. apply Z.mod_small. lia. Qed.

Lemma wrapping_shl_val x s :
  u256_wf x → 0 <= s < 256 →
  u256_wf (U256.wrapping_shl x s) ∧ val (U256.wrapping_shl x s) = (val x * 2 ^ s) mod 2 ^ 256.
Proof.
  intros [Hh Hl] Hs. unfold U256.wrapping_shl. rewrite land_ff by done. cbv zeta.
  pose proof (Z.mod_pos_bound s 128 ltac:(lia)) as Hb0.
  destruct (Z.leb_spec 128 s).
  - assert (s mod 128 = s - 128) as -> by (symmetry; apply Z.mod_unique with 1; lia).
    unfold u256_wf, val. cbn [hi lo]. pose proof (uwrap_range 128 (Z.shiftl (lo x) (s - 128))) as Hu.
    split; [split; [apply Hu; lia|unfold urange; lia]|].
    unfold uwrap. rewrite Z.shiftl_mul_pow2 by lia.
    assert (2 ^ s = 2 ^ (s - 128) * 2 ^ 128) as -> by (rewrite <- Z.pow_add_r by lia; f_equal; lia).
    replace ((hi x * 2 ^ 128 + lo x) * (2 ^ (s - 128) * 2 ^ 128))
      with ((hi x * 2 ^ (s - 128)) * 2 ^ 256 + (lo x * 2 ^ (s - 128)) * 2 ^ 128) by lia.
    rewrite (Z.add_comm (_ * 2 ^ 256)), Z.mod_add by lia. change (2 ^ 256) with (2 ^ 128 * 2 ^ 128).
    rewrite Z.mul_mod_distr_r by lia. lia.
  - assert (s mod 128 = s) as -> by (apply Z.mod_small; lia).
    rewrite !shl_low by lia. destruct (pow_split s ltac:(lia)) as (HP & HB & HC).
    set (B := 2 ^ s) in *. set (C := 2 ^ (128 - s)) in *.
    pose proof (Z.div_mod (hi x) C ltac:(lia)) as Dh. pose proof (Z.mod_pos_bound (hi x) C HC) as Mh.
    pose proof (Z.div_mod (lo x) C ltac:(lia)) as Dl. pose proof (Z.mod_pos_bound (lo x) C HC) as Ml.
    assert (0 <= lo x / C < B) as Qd.
    { unfold urange in Hl. split; [apply Z.div_pos; lia|]. apply Z.div_lt_upper_bound; nia. }
    set (h1 := hi x / C) in *. set (h0 := hi x mod C) in *. set (d := lo x / C) in *. set (e := lo x mod C) in *.
    assert (B * h0 + d < 2 ^ 128) as Hhi by nia. assert (B * e < 2 ^ 128) as Hlo by nia.
    assert ((if 0 <? s then uwrap 128 (B * h0 + Z.shiftr (lo x) (128 - s)) else B * h0) = B * h0 + d) as ->.
    { destruct (Z.ltb_spec 0 s).
      - rewrite Z.shiftr_div_pow2 by lia. fold C. fold d. apply uwrap_small. unfold urange. nia.
      - assert (s = 0) as -> by lia. change B with 1 in *. lia. }
    unfold u256_wf, urange, val. cbn [hi lo]. split; [nia|].
    apply mod_256 with h1; [unfold urange; change (2 ^ 256) with (2 ^ 128 * 2 ^ 128); nia|].
    change (2 ^ 256) with (2 ^ 128 * 2 ^ 128). rewrite Dh, Dl, HP. ring.
Qed.

Lemma wrapping_shr_val x s :
  u256_wf x → 0 <= s < 256 →
  u256_wf (U256.wrapping_shr x s) ∧ val (U256.wrapping_shr x s) = val x / 2 ^ s.
Proof.
  intros [Hh Hl] Hs. unfold U256.wrapping_shr. rewrite land_ff by done. cbv zeta.
  pose proof (Z.mod_pos_bound s 128 ltac:(lia)) as Hb0. unfold urange in Hh, Hl.
  destruct (Z.leb_spec 128 s).
  - assert (s mod 128 = s - 128) as -> by (symmetry; apply Z.mod_unique with 1; lia).
    unfold u256_wf, urange, val. cbn [hi lo]. rewrite Z.shiftr_div_pow2 by lia.
    assert (2 ^ s = 2 ^ 128 * 2 ^ (s - 128)) as -> by (rewrite <- Z.pow_add_r by lia; f_equal; lia).
    rewrite <- Z.div_div, Z.div_add_l, (Z.div_small (lo x)), Z.add_0_r by lia.
    split; [|lia]. split; [lia|]. split; [apply Z.div_pos; lia|]. apply Z.div_lt_upper_bound; nia.
  - assert (s mod 128 = s) as -> by (apply Z.mod_small; lia).
    rewrite shl_low by lia. rewrite !Z.shiftr_div_pow2 by lia. replace (128 - (128 - s)) with s by lia.
    destruct (pow_split s ltac:(lia)) as (HP & HB & HC).
    set (B := 2 ^ s) in *. set (C := 2 ^ (128 - s)) in *.
    pose proof (Z.div_mod (hi x) B ltac:(lia)) as Dh. pose proof (Z.mod_pos_bound (hi x) B HB) as Mh.
    assert (0 <= hi x / B < 2 ^ 128) as Qh by (split; [apply Z.div_pos; lia|apply Z.div_lt_upper_bound; nia]).
    assert (0 <= lo x / B < C) as Qd by (split; [apply Z.div_pos; lia|apply Z.div_lt_upper_bound; nia]).
    set (h1 := hi x / B) in *. set (h0 := hi x mod B) in *.
    assert ((if 0 <? s then uwrap 128 (lo x / B + C * h0) else lo x / B) = lo x / B + C * h0) as ->.
    { destruct (Z.ltb_spec 0 s).
      - apply uwrap_small. unfold urange. nia.
      - assert (s = 0) as -> by lia. change B with 1 in *. lia. }
    unfold u256_wf, urange, val. cbn [hi lo]. split; [nia|].
    replace (hi x * 2 ^ 128 + lo x) with ((h1 * 2 ^ 128 + C * h0) * B + lo x) by nia.
    rewrite Z.div_add_l by lia. lia.
Qed.

(** ** Number of bits *)

Lemma bits_val x : u256_wf x → U256.bits x = if val x =? 0 then 0 else Z.log2 (val x) + 1.
Proof.
  intros [Hh Hl]. unfold U256.bits, U256.leading_zeros, val, urange in *.
  destruct (Z.ltb_spec 0 (hi x)).
  - rewrite (proj2 (Z.eqb_neq (hi x) 0)) by lia. rewrite (proj2 (Z.eqb_neq _ 0)) by lia.
    assert (Z.log2 (hi x * 2 ^ 128 + lo x) = Z.log2 (hi x) + 128) as ->; [|lia].
    pose proof (Z.log2_spec (hi x) ltac:(lia)) as Hs. pose proof (Z.log2_nonneg (hi x)).
    apply Z.log2_unique; [lia|]. rewrite <- Z.add_succ_l, !Z.pow_add_r by lia. lia.
  - assert (hi x = 0) as -> by lia. rewrite Z.mul_0_l, Z.add_0_l.
    destruct (Z.eqb_spec (lo x) 0); lia.
Qed.

Lemma bits_bound x :
  u256_wf x → 0 <= U256.bits x <= 256 ∧ val x < 2 ^ U256.bits x ∧
  (U256.bits x ≠ 0 → 2 ^ (U256.bits x - 1) <= val x) ∧ (U256.bits x = 0 ↔ val x = 0).
Proof.
  intros Hx. rewrite bits_val by done. pose proof (val_range x Hx) as Hv. unfold urange in Hv.
  destruct (Z.eqb_spec (val x) 0) as [->|].
  - split_and!; lia || done.
  - pose proof (Z.log2_spec (val x) ltac:(lia)) as Hs. pose proof (Z.log2_nonneg (val x)).
    assert (Z.log2 (val x) < 256) by (apply Z.log2_lt_pow2; lia).
    replace (Z.log2 (val x) + 1 - 1) with (Z.log2 (val x)) by lia.
    rewrite <- Z.add_1_r in Hs. split_and!; lia.
Qed.

(** ** Multiplication *)

Fixpoint words_val (ws : list Z) : Z :=
  match ws with [] => 0 | w :: ws => w + 2 ^ 64 * words_val ws end.

Lemma mul_words_val rhs ws carry :
  urange 64 rhs → urange 64 carry → Forall (urange 64) ws →
  let r := U256.mul_words rhs carry ws in
  length (fst r) = length ws ∧ Forall (urange 64) (fst r) ∧ urange 64 (snd r) ∧
  words_val (fst r) + 2 ^ (64 * Z.of_nat (length ws)) * snd r = rhs * words_val ws + carry.
Proof.
  intros Hr Hc Hws. revert carry Hc. induction Hws as [|w ws Hw Hws IH]; intros carry Hc; cbv zeta.
  - cbn [U256.mul_words fst snd length words_val]. split_and!; [done|constructor|done|]. cbn. lia.
  - cbn [U256.mul_words]. set (n := carry + rhs * w). unfold urange in *.
    assert (0 <= n < 2 ^ 128) as Hn by (subst n; nia).
    rewrite uwrap_small by (unfold urange; lia).
    assert (0 <= Z.shiftr n 64 < 2 ^ 64) as Hc'.
    { rewrite Z.shiftr_div_pow2 by lia. split; [apply Z.div_pos; lia|apply Z.div_lt_upper_bound; lia]. }
    destruct (IH _ Hc') as (Hl & Hf & Hs & He). cbv zeta in *.
    destruct (U256.mul_words rhs (Z.shiftr n 64) ws) as [ws' c']. cbn [fst snd length words_val] in *.
    split_and!; [by f_equal|constructor; [apply uwrap_range; lia|done]|lia|lia|].
    rewrite Nat2Z.inj_succ, Z.mul_succ_r, Z.add_comm, Z.pow_add_r in * by lia.
    rewrite Z.shiftr_div_pow2 in He by lia. unfold uwrap.
    pose proof (Z.div_mod n (2 ^ 64) ltac:(lia)). subst n. nia.
Qed.

Lemma split_64 x :
  urange 128 x → urange 64 (uwrap 64 x) ∧ urange 64 (uwrap 64 (Z.shiftr x 64)) ∧
  x = uwrap 64 x + 2 ^ 64 * uwrap 64 (Z.shiftr x 64).
Proof.
  unfold urange. intros Hx. rewrite Z.shiftr_div_pow2 by lia.
  assert (0 <= x / 2 ^ 64 < 2 ^ 64) by (split; [apply Z.div_pos; lia|apply Z.div_lt_upper_bound; lia]).
  rewrite (uwrap_small 64 (x / 2 ^ 64)) by done. unfold uwrap.
  pose proof (Z.mod_pos_bound x (2 ^ 64) ltac:(lia)). pose proof (Z.div_mod x (2 ^ 64) ltac:(lia)). lia.
Qed.

Lemma join_64 a b :
  urange 64 a → urange 64 b →
  Z.lor a (uwrap 128 (Z.shiftl b 64)) = a + 2 ^ 64 * b ∧ urange 128 (a + 2 ^ 64 * b).
Proof.
  unfold urange. intros Ha Hb. rewrite uwrap_small; [|unfold urange; rewrite Z.shiftl_mul_pow2; lia].
  rewrite Z.lor_comm, shiftl_lor_add by done. lia.
Qed.

Lemma mul_u64_val x m :
  u256_wf x → urange 64 m →
  let r := U256.mul_u64 x m in
  u256_wf (fst r) ∧ val (fst r) = (val x * m) mod 2 ^ 256 ∧
  snd r = (2 ^ 256 <=? val x * m).
Proof.
  intros [Hh Hl] Hm. cbv zeta. unfold U256.mul_u64.
  destruct (split_64 (lo x) Hl) as (L0 & L1 & EL). destruct (split_64 (hi x) Hh) as (H0 & H1 & EH).
  set (ws := [uwrap 64 (lo x); uwrap 64 (Z.shiftr (lo x) 64); uwrap 64 (hi x); uwrap 64 (Z.shiftr (hi x) 64)]).
  assert (Forall (urange 64) ws) as Hws by (repeat constructor; apply L0 || apply L1 || apply H0 || apply H1).
  pose proof (mul_words_val m ws 0 Hm ltac:(unfold urange; lia) Hws) as (Hlen & Hf & Hs & He). cbv zeta in *.
  destruct (U256.mul_words m 0 ws) as [ws' c]. cbn [fst snd] in *.
  destruct ws' as [|w0 [|w1 [|w2 [|w3 [|]]]]]; try discriminate Hlen. cbn [nth].
  apply Forall_cons in Hf as [F0 Hf]. apply Forall_cons in Hf as [F1 Hf]. apply Forall_cons in Hf as [F2 Hf].
  apply Forall_cons in Hf as [F3 _].
  destruct (join_64 w0 w1 F0 F1) as [-> J1]. destruct (join_64 w2 w3 F2 F3) as [-> J2].
  assert (val x = words_val ws) as Hv by (unfold val; cbn [ws words_val]; lia).
  change (2 ^ (64 * Z.of_nat (length ws))) with (2 ^ 256) in He.
  assert (words_val [w0; w1; w2; w3] = val (Pair (w2 + 2 ^ 64 * w3) (w0 + 2 ^ 64 * w1))) as Hr
    by (unfold val; cbn [words_val hi lo]; lia).
  assert (u256_wf (Pair (w2 + 2 ^ 64 * w3) (w0 + 2 ^ 64 * w1))) as Hwf by done.
  pose proof (val_range _ Hwf) as Hrange. unfold urange in *. rewrite Hr in He. rewrite Hv.
  split_and!; [done|apply mod_256 with c; [done|lia]|]. lia.
Qed.

Lemma ZERO_val : val U256.ZERO = 0.
Proof. done. Qed.

Lemma low_u64_val x : u256_wf x → U256.low_u64 x = val x mod 2 ^ 64 ∧ urange 64 (U256.low_u64 x).
Proof.
  intros [Hh Hl]. split; [|apply uwrap_range; lia]. unfold U256.low_u64, U256.low_u128, uwrap, val.
  change (2 ^ 128) with (2 ^ 64 * 2 ^ 64). rewrite Z.mul_assoc, Z.add_comm, Z.mod_add by lia. done.
Qed.

(** The [i]-th 64-bit digit of the right factor. *)
Definition digit64 (x : u256) (i : Z) : Z := (val x / 2 ^ (64 * i)) mod 2 ^ 64.

Lemma mul_step x y ret i :
  u256_wf x → u256_wf y → u256_wf ret → 0 <= i <= 2 →
  let r := U256.wrapping_add ret
    (U256.wrapping_shl (fst (U256.mul_u64 x (U256.low_u64 (U256.wrapping_shr y (64 * i))))) (64 * i)) in
  u256_wf r ∧ val r = (val ret + val x * digit64 y i * 2 ^ (64 * i)) mod 2 ^ 256.
Proof.
  intros Hx Hy Hret Hi. cbv zeta. destruct (wrapping_shr_val y (64 * i) Hy ltac:(lia)) as [Hsw Hsv].
  destruct (low_u64_val _ Hsw) as [Hlv Hlr]. rewrite Hsv in Hlv. fold (digit64 y i) in Hlv.
  destruct (mul_u64_val x _ Hx Hlr) as (Hmw & Hmv & _). rewrite Hlv in *.
  destruct (wrapping_shl_val _ (64 * i) Hmw ltac:(lia)) as [Hlw Hlsv].
  destruct (wrapping_add_val _ _ Hret Hlw) as [Haw Hav]. split; [done|].
  by rewrite Hav, Hlsv, Hmv, Z.mul_mod_idemp_l, Z.add_mod_idemp_r by lia.
Qed.

Lemma overflowing_mul_val x y :
  u256_wf x → u256_wf y → val y < 2 ^ 192 →
  let r := U256.overflowing_mul x y in
  u256_wf (fst r) ∧ val (fst r) = (val x * val y) mod 2 ^ 256 ∧ snd r = false.
Proof.
  intros Hx Hy Hlt. cbv zeta. unfold U256.overflowing_mul. cbn [foldl].
  destruct (mul_step x y U256.ZERO 0 Hx Hy ZERO_wf ltac:(lia)) as [W0 V0]. cbv zeta in *.
  set (r0 := U256.wrapping_add U256.ZERO _) in *.
  destruct (mul_step x y r0 1 Hx Hy W0 ltac:(lia)) as [W1 V1]. cbv zeta in *.
  set (r1 := U256.wrapping_add r0 _) in *.
  destruct (mul_step x y r1 2 Hx Hy W1 ltac:(lia)) as [W2 V2]. cbv zeta in *.
  set (r2 := U256.wrapping_add r1 _) in *.
  pose proof (val_range y Hy) as Hyr. unfold urange in Hyr.
  destruct (wrapping_shr_val y 192 Hy ltac:(lia)) as [Hsw Hsv].
  destruct (low_u64_val _ Hsw) as [Hlv Hlr]. rewrite Hsv, Z.div_small, Z.mod_0_l in Hlv by lia. 
  rewrite Hlv. destruct (mul_u64_val x 0 Hx ltac:(unfold urange; lia)) as (Hmw & Hmv & Hmo).
  destruct (U256.mul_u64 x 0) as [mres mo]. cbn [fst snd] in *. rewrite Z.mul_0_r in *.
  rewrite Z.mod_0_l in Hmv by lia. 
  destruct (overflowing_add_val r2 mres W2 Hmw) as [Hsumw Hsumv]. cbv zeta in *.
  destruct (U256.overflowing_add r2 mres) as [sum so]. cbn [fst snd] in *.
  pose proof (val_range _ W2) as R2. pose proof (val_range _ Hsumw) as Rs. unfold urange in *.
  assert (so = false) as -> by (destruct so; cbn [b2z] in Hsumv; [lia|done]).
  cbn [b2z] in Hsumv. split_and!; [done| |by subst mo].
  assert (val sum = val r2) as -> by lia.
  rewrite V0, ZERO_val, Z.add_0_l, Z.add_mod_idemp_l in V1 by lia.
  rewrite V1, Z.add_mod_idemp_l in V2 by lia. rewrite V2. f_equal.
  assert (val y = digit64 y 0 + digit64 y 1 * 2 ^ 64 + digit64 y 2 * 2 ^ 128) as Hdig.
  { unfold digit64. change (64 * 0) with 0. change (64 * 1) with 64. change (64 * 2) with 128.
    change (2 ^ 0) with 1. rewrite Z.div_1_r. change (2 ^ 128) with (2 ^ 64 * 2 ^ 64). rewrite <- Z.div_div by lia.
    pose proof (Z.div_mod (val y) (2 ^ 64) ltac:(lia)).
    pose proof (Z.div_mod (val y / 2 ^ 64) (2 ^ 64) ltac:(lia)).
    assert (0 <= val y / 2 ^ 64 / 2 ^ 64 < 2 ^ 64).
    { split; [apply Z.div_pos; [apply Z.div_pos|]; lia|]. do 2 (apply Z.div_lt_upper_bound; [lia|]). lia. }
    rewrite (Z.mod_small (val y / 2 ^ 64 / 2 ^ 64)) by lia. lia. }
  rewrite Hdig. change (64 * 0) with 0. change (64 * 1) with 64. change (64 * 2) with 128. lia.
Qed.

(** ** Division *)

Lemma set_bit_val x k :
  u256_wf x → 0 <= k < 256 → val x mod 2 ^ (k + 1) = 0 →
  u256_wf (U256.set_bit x k) ∧ val (U256.set_bit x k) = val x + 2 ^ k.
Proof.
  intros [Hh Hl] Hk Hm. apply Z.div_exact in Hm; [|lia]. unfold U256.set_bit, val, urange in *.
  generalize dependent ((hi x * 2 ^ 128 + lo x) / 2 ^ (k + 1)). intros q Hm.
  destruct (Z.eqb_spec (k / 128) 0) as [H0|H0].
  - assert (k < 128) by (apply Z.div_small_iff in H0; lia).
    rewrite Z.mod_small, Z.shiftl_1_l by lia.
    destruct (pow_split (k + 1) ltac:(lia)) as (HP & HB & HC).
    assert (lo x = 2 ^ (k + 1) * (q - hi x * 2 ^ (128 - (k + 1)))) as Hlo
      by (rewrite HP in Hm; lia).
    set (m := q - _) in Hlo.
    rewrite lor_pow2_add; [|lia|rewrite Hlo, Z.mul_comm; apply Z.mod_mul; lia].
    assert (2 ^ (k + 1) = 2 * 2 ^ k) as E by (rewrite Z.pow_add_r by lia; lia).
    unfold u256_wf, urange. cbn [hi lo]. split; [split; [done|]|lia].
    assert (m < 2 ^ (128 - (k + 1))) by nia. nia.
  - assert (128 <= k) by (apply Z.nlt_ge; intros Hn; apply H0, Z.div_small; lia).
    assert (k mod 128 = k - 128) as -> by (symmetry; apply Z.mod_unique with 1; lia).
    rewrite Z.shiftl_1_l.
    assert (2 ^ (k + 1) = 2 ^ (k - 128 + 1) * 2 ^ 128) as HE by (rewrite <- Z.pow_add_r by lia; f_equal; lia).
    rewrite HE in Hm.
    assert (lo x = 0) as Hlo by nia. assert (hi x = 2 ^ (k - 128 + 1) * q) as Hhi by nia.
    rewrite lor_pow2_add; [|lia|rewrite Hhi, Z.mul_comm; apply Z.mod_mul; lia].
    assert (2 ^ k = 2 ^ (k - 128) * 2 ^ 128) as Hk2 by (rewrite <- Z.pow_add_r by lia; f_equal; lia).
    destruct (pow_split (k - 128 + 1) ltac:(lia)) as (HP & HB & HC).
    assert (2 ^ (k - 128 + 1) = 2 * 2 ^ (k - 128)) as E by (rewrite Z.pow_add_r by lia; lia).
    unfold u256_wf, urange. cbn [hi lo]. split; [split; [|done]|lia].
    assert (q < 2 ^ (128 - (k - 128 + 1))) by nia. nia.
Qed.

(** The invariant of the long division: what is left is below the divisor shifted
    once more, and the quotient so far ends in zeros. *)
Lemma div_loop_val D n sub sc ret :
  0 < D → Z.of_nat n < 256 → u256_wf sub → u256_wf sc → u256_wf ret →
  val sc = D * 2 ^ Z.of_nat n → val sub < D * 2 ^ (Z.of_nat n + 1) →
  val ret mod 2 ^ (Z.of_nat n + 1) = 0 →
  let r := U256.div_loop n sub sc ret in
  u256_wf (fst r) ∧ u256_wf (snd r) ∧ val (fst r) = val ret + val sub / D ∧ val (snd r) = val sub mod D.
Proof.
  intros HD. revert sub sc ret. induction n as [|n IH]; intros sub sc ret Hn Hs Hsc Hret Esc Hlt Hm;
    cbn [U256.div_loop]; pose proof (val_range sub Hs) as Rs; pose proof (val_range sc Hsc) as Rsc;
    unfold urange in Rs, Rsc; rewrite leb_val by done;
    destruct (wrapping_sub_val sub sc Hs Hsc) as [Wd Vd];
    destruct (set_bit_val ret _ Hret (conj (Nat2Z.is_nonneg _) Hn) Hm) as [Wb Vb];
    destruct (Z.leb_spec (val sc) (val sub)) as [Hle|Hgt];
    try (rewrite Z.mod_small in Vd by lia).
  - cbn [fst snd]. rewrite Vb, Vd, Esc in *. cbn [Z.of_nat] in *. change (2 ^ 0) with 1 in *.
    change (2 ^ (0 + 1)) with 2 in *. split_and!; [done..| |].
    + f_equal. apply Z.div_unique with (val sub - D); lia.
    + symmetry. rewrite Z.mul_1_r. symmetry. apply Z.mod_unique with 1; lia.
  - cbn [fst snd]. rewrite Esc in *. cbn [Z.of_nat] in *. change (2 ^ 0) with 1 in *.
    rewrite Z.div_small, Z.mod_small by lia. split_and!; [done..|lia|done].
  - destruct (wrapping_shr_val sc 1 Hsc ltac:(lia)) as [Wh Vh].
    assert (2 ^ Z.of_nat (S n) = 2 * 2 ^ Z.of_nat n) as E2
      by (rewrite Nat2Z.inj_succ, Z.pow_succ_r by lia; done).
    assert (2 ^ (Z.of_nat n + 1) = 2 * 2 ^ Z.of_nat n) as E3 by (rewrite Z.pow_add_r by lia; lia).
    assert (2 ^ (Z.of_nat (S n) + 1) = 2 * (2 * 2 ^ Z.of_nat n)) as E4 by (rewrite Z.pow_add_r, E2 by lia; lia).
    rewrite E2, E3, E4 in *. change (2 ^ 1) with 2 in Vh.
    destruct (IH _ (U256.wrapping_shr sc 1) (U256.set_bit ret (Z.of_nat (S n))) ltac:(lia) Wd Wh Wb)
      as (H1 & H2 & H3 & H4).
    + rewrite Vh, Esc. symmetry. apply Z.div_unique with 0; lia.
    + rewrite Vd, Esc. lia.
    + rewrite Vb. apply Z.div_exact in Hm; [|lia]. rewrite Hm.
      set (q := val ret / _). replace (2 * (2 * 2 ^ Z.of_nat n) * q + 2 * 2 ^ Z.of_nat n)
        with ((2 * q + 1) * (2 * 2 ^ Z.of_nat n)) by lia. apply Z.mod_mul. lia.
    + cbv zeta. split_and!; [done..| |]; rewrite ?H3, ?H4, ?Vb, Vd, Esc.
      * replace (val sub - D * (2 * 2 ^ Z.of_nat n)) with (val sub + (- (2 * 2 ^ Z.of_nat n)) * D) by lia.
        rewrite Z.div_add by lia. lia.
      * replace (val sub - D * (2 * 2 ^ Z.of_nat n)) with (val sub + (- (2 * 2 ^ Z.of_nat n)) * D) by lia.
        by rewrite Z.mod_add by lia.
  - destruct (wrapping_shr_val sc 1 Hsc ltac:(lia)) as [Wh Vh].
    assert (2 ^ Z.of_nat (S n) = 2 * 2 ^ Z.of_nat n) as E2
      by (rewrite Nat2Z.inj_succ, Z.pow_succ_r by lia; done).
    assert (2 ^ (Z.of_nat n + 1) = 2 * 2 ^ Z.of_nat n) as E3 by (rewrite Z.pow_add_r by lia; lia).
    assert (2 ^ (Z.of_nat (S n) + 1) = 2 * (2 * 2 ^ Z.of_nat n)) as E4 by (rewrite Z.pow_add_r, E2 by lia; lia).
    rewrite E2, E4 in *. change (2 ^ 1) with 2 in Vh.
    apply IH; [lia|done..| | |].
    + rewrite Vh, Esc. symmetry. apply Z.div_unique with 0; lia.
    + rewrite E3. lia.
    + rewrite E3. apply Z.div_exact in Hm; [|lia]. rewrite Hm.
      replace (2 * (2 * 2 ^ Z.of_nat n) * (val ret / (2 * (2 * 2 ^ Z.of_nat n))))
        with ((2 * (val ret / (2 * (2 * 2 ^ Z.of_nat n)))) * (2 * 2 ^ Z.of_nat n)) by lia.
      apply Z.mod_mul. lia.
Qed.

Lemma div_rem_val x y :
  u256_wf x → u256_wf y →
  match U256.div_rem x y with
  | Some (q, r) => val y ≠ 0 ∧ u256_wf q ∧ u256_wf r ∧ val q = val x / val y ∧ val r = val x mod val y
  | None => val y = 0
  end.
Proof.
  intros Hx Hy. unfold U256.div_rem.
  destruct (bits_bound x Hx) as (Bx & Ux & Lx & Zx). destruct (bits_bound y Hy) as (By & Uy & Ly & Zy).
  pose proof (val_range x Hx) as Rx. pose proof (val_range y Hy) as Ry. unfold urange in Rx, Ry.
  destruct (Z.eqb_spec (U256.bits y) 0) as [E|E]; [by apply Zy|]. specialize (Ly E).
  assert (0 < val y) as Hy0 by lia.
  destruct (Z.ltb_spec (U256.bits x) (U256.bits y)).
  - assert (2 ^ U256.bits x <= 2 ^ (U256.bits y - 1)) by (apply Z.pow_le_mono_r; lia).
    split_and!; [lia|apply ZERO_wf|done| |]; rewrite ?Z.div_small, ?Z.mod_small by lia; done.
  - set (shift := U256.bits x - U256.bits y) in *.
    destruct (wrapping_shl_val y shift Hy ltac:(lia)) as [Ws Vs].
    assert (val y * 2 ^ shift < 2 ^ U256.bits x) as Hsh.
    { replace (U256.bits x) with (U256.bits y + shift) by lia. rewrite Z.pow_add_r by lia. nia. }
    assert (2 ^ U256.bits x <= 2 ^ 256) by (apply Z.pow_le_mono_r; lia).
    rewrite Z.mod_small in Vs by lia.
    pose proof (div_loop_val (val y) (Z.to_nat shift) x _ U256.ZERO Hy0 ltac:(lia) Hx Ws ZERO_wf) as Hd.
    rewrite Z2Nat.id in Hd by lia. specialize (Hd Vs). lapply Hd; [clear Hd; intros Hd|].
    2:{ assert (2 ^ U256.bits x = 2 ^ (U256.bits y - 1) * 2 ^ (shift + 1))
          by (rewrite <- Z.pow_add_r by lia; f_equal; lia). nia. }
    specialize (Hd eq_refl). cbv zeta in Hd. destruct (U256.div_loop _ _ _ _) as [q r]. cbn [fst snd] in Hd.
    rewrite ZERO_val in Hd. split_and!; [lia|apply Hd..|apply Hd].
Qed.

Lemma div_val x y :
  u256_wf x → u256_wf y → val y ≠ 0 →
  ∃ q, U256.div x y = Some q ∧ u256_wf q ∧ val q = val x / val y.
Proof.
  intros Hx Hy H0. pose proof (div_rem_val x y Hx Hy) as Hd. unfold U256.div.
  destruct (U256.div_rem x y) as [[q r]|]; [|done]. destruct Hd as (_ & ? & _ & ? & _). by exists q.
Qed.

Lemma rem_val x y :
  u256_wf x → u256_wf y → val y ≠ 0 →
  ∃ r, U256.rem x y = Some r ∧ u256_wf r ∧ val r = val x mod val y.
Proof.
  intros Hx Hy H0. pose proof (div_rem_val x y Hx Hy) as Hd. unfold U256.rem.
  destruct (U256.div_rem x y) as [[q r]|]; [|done]. destruct Hd as (_ & _ & ? & _ & ?). by exists r.
Qed.

(** ** Bytes *)

Lemma le_combine_halves a b :
  length a = 16%nat → le_combine (a ++ b) = le_combine b * 2 ^ 128 + le_combine a.
Proof.
  intros Ha. rewrite le_combine_app, Ha. change (8 * Z.of_nat 16) with 128.
  rewrite Z.lor_comm, shiftl_lor_add; [done|lia|].
  pose proof (le_combine_range a) as Hr. by rewrite Ha in Hr.
Qed.

Lemma from_le_bytes_val a :
  length a = 32%nat → u256_wf (U256.from_le_bytes a) ∧ val (U256.from_le_bytes a) = le_combine a.
Proof.
  intros Ha. assert (length (take 16 a) = 16%nat) as Ht by (rewrite length_take; lia).
  assert (length (drop 16 a) = 16%nat) as Hd by (rewrite length_drop; lia).
  unfold U256.from_le_bytes, u256_wf, val. cbn [hi lo]. split.
  - pose proof (le_combine_range (take 16 a)) as H1. pose proof (le_combine_range (drop 16 a)) as H2.
    rewrite Ht in H1. by rewrite Hd in H2.
  - rewrite <- le_combine_halves by done. by rewrite take_drop.
Qed.

Lemma bytes_roundtrip_u256 x :
  u256_wf x → U256.from_le_bytes (U256.to_le_bytes x) = x ∧ U256.from_be_bytes (U256.to_be_bytes x) = x.
Proof.
  intros [Hh Hl]. unfold U256.from_le_bytes, U256.to_le_bytes, U256.from_be_bytes, U256.to_be_bytes.
  rewrite !take_app_length', !drop_app_length' by (by rewrite ?length_le_split, ?length_be_split).
  rewrite !le_combine_split_u, !be_combine_split by done. by destruct x.
Qed.

(** ** Work *)

Lemma is_zero_val x : u256_wf x → U256.is_zero x = (val x =? 0).
Proof. unfold u256_wf, urange, U256.is_zero, val. intros []. lia. Qed.
Lemma is_one_val x : u256_wf x → U256.is_one x = (val x =? 1).
Proof. unfold u256_wf, urange, U256.is_one, val. intros []. lia. Qed.
Lemma is_max_val x : u256_wf x → U256.is_max x = (val x =? 2 ^ 256 - 1).
Proof. unfold u256_wf, urange, U256.is_max, val, U128_MAX. intros []. lia. Qed.
Lemma MAX_wf : u256_wf U256.MAX.
Proof. split; unfold urange; cbn; lia. Qed.

Lemma inverse_val x :
  u256_wf x →
  ∃ r, U256.inverse x = Some r ∧ u256_wf r ∧
    val r = if val x <=? 1 then 2 ^ 256 - 1 else 2 ^ 256 / (val x + 1).
Proof.
  intros Hx. pose proof (val_range x Hx) as Rx. unfold urange in Rx.
  unfold U256.inverse. rewrite is_zero_val, is_one_val, is_max_val by done.
  destruct (Z.eqb_spec (val x) 0) as [->|]; [exists U256.MAX; split_and!; [done|apply MAX_wf|done]|].
  destruct (Z.eqb_spec (val x) 1) as [->|]; [exists U256.MAX; split_and!; [done|apply MAX_wf|done]|].
  destruct (Z.leb_spec (val x) 1); [lia|].
  destruct (Z.eqb_spec (val x) (2 ^ 256 - 1)) as [->|]; [exists U256.ONE; split_and!; [done|apply ONE_wf|done]|].
  destruct (not_val x Hx) as [Hn En]. destruct (wrapping_inc_val x Hx) as [Hi Ei].
  rewrite Z.mod_small in Ei by lia.
  destruct (div_val _ _ Hn Hi ltac:(lia)) as (q & -> & Hq & Eq). cbn [mbind option_bind].
  destruct (wrapping_inc_val q Hq) as [Hr Er]. exists (U256.wrapping_inc q). split_and!; [done|done|].
  rewrite En, Ei in Eq. assert (2 ^ 256 / (val x + 1) = val q + 1) as Ediv.
  { rewrite Eq. rewrite <- Z.div_add by lia. f_equal. lia. }
  rewrite Er, Ediv. apply Z.mod_small. rewrite <- Ediv.
  split; [apply Z.div_pos; lia|apply Z.div_lt_upper_bound; lia].
Qed.

(** ** Decimal digits *)

Lemma low_u128_small x : u256_wf x → val x < 2 ^ 128 → U256.low_u128 x = val x.
Proof. unfold u256_wf, urange, U256.low_u128, val. intros []. lia. Qed.

(** The number that ASCII digits spell. *)
Definition decimal_value (ds : list Z) : Z := foldl (λ v d, 10 * v + (d - 48)) 0 ds.

Lemma decimal_value_snoc ds d : decimal_value (ds ++ [d]) = 10 * decimal_value ds + (d - 48).
Proof. unfold decimal_value. by rewrite foldl_app. Qed.

Definition is_digit (d : Z) : Prop := 48 <= d <= 57.

Lemma decimal_loop_spec i cur buf :
  u256_wf cur → val cur < 10 ^ (Z.of_nat i + 1) →
  ∃ ds, U256.decimal_loop i cur buf = Some (ds ++ buf) ∧ Forall is_digit ds ∧ decimal_value ds = val cur ∧
    ds ≠ [] ∧ (val cur ≠ 0 → head ds ≠ Some 48).
Proof.
  assert (u256_wf (Pair 0 10)) as H10 by (split; unfold urange; cbn; lia).
  revert cur buf. induction i as [|i IH]; intros cur buf Hc Hlt; pose proof (val_range cur Hc) as Rc;
    unfold urange in Rc; cbn [U256.decimal_loop];
    destruct (rem_val cur (Pair 0 10) Hc H10 ltac:(by vm_compute)) as (r & -> & Hr & Er);
    destruct (div_val cur (Pair 0 10) Hc H10 ltac:(by vm_compute)) as (q & -> & Hq & Eq);
    change (val (Pair 0 10)) with 10 in *; cbn [mbind option_bind];
    pose proof (Z.mod_pos_bound (val cur) 10 ltac:(lia)); pose proof (Z.div_mod (val cur) 10 ltac:(lia));
    rewrite (low_u128_small r) by (done || lia);
    rewrite (uwrap_small 8 (val r)), (uwrap_small 8 (val r + 48)) by (unfold urange; lia);
    rewrite is_zero_val by done; destruct (Z.eqb_spec (val q) 0) as [Eq0|Eq0].
  - exists [val r + 48]. unfold decimal_value. cbn. split_and!; [done|repeat constructor; unfold is_digit; lia|lia|done|].
    intros Hn [= Hh]. lia.
  - exfalso. change (10 ^ (Z.of_nat 0 + 1)) with 10 in Hlt. lia.
  - exists [val r + 48]. unfold decimal_value. cbn. split_and!; [done|repeat constructor; unfold is_digit; lia|lia|done|].
    intros Hn [= Hh]. lia.
  - destruct (IH q (val r + 48 :: buf) Hq) as (ds & Hd & Hf & Hv & Hne & Hh).
    + replace (Z.of_nat (S i) + 1) with (Z.succ (Z.of_nat i + 1)) in Hlt by lia.
      rewrite Z.pow_succ_r in Hlt by lia.
      rewrite Eq. apply Z.div_lt_upper_bound; lia.
    + exists (ds ++ [val r + 48]). rewrite Hd, <- app_assoc. split_and!; [done| | | |].
      * apply Forall_app. split; [done|]. repeat constructor; unfold is_digit; lia.
      * rewrite decimal_value_snoc. lia.
      * by destruct ds.
      * intros _. destruct ds as [|d ds]; [done|]. cbn in *. by apply Hh.
Qed.

Lemma display_spec x :
  u256_wf x →
  ∃ ds, U256.display x = Some ds ∧ Forall is_digit ds ∧ decimal_value ds = val x ∧
    (val x ≠ 0 → head ds ≠ Some 48) ∧ (val x = 0 → ds = [48]).
Proof.
  intros Hx. unfold U256.display. rewrite is_zero_val by done.
  destruct (Z.eqb_spec (val x) 0) as [E|E].
  - exists [48]. rewrite E. split_and!; [done|repeat constructor; unfold is_digit; lia|done|done|done].
  - pose proof (val_range x Hx) as Rx. unfold urange in Rx.
    destruct (decimal_loop_spec 77 x [] Hx) as (ds & Hd & Hf & Hv & Hne & Hh).
    { eapply Z.lt_trans; [apply Rx|]. reflexivity. }
    exists ds. rewrite app_nil_r in Hd. by split_and!.
Qed.

(** ** The compact encoding *)

(** The exponent and the mantissa of the compact form, in closed form: [e] bytes
    of which the mantissa has the top three, less one when its sign bit would be
    set. *)
Definition compact_exp (v : Z) : Z := if v =? 0 then 0 else (Z.log2 v + 1) / 8 + 1.
Definition compact_mant (v : Z) : Z :=
  let e := compact_exp v in
  if e <=? 3 then v * 2 ^ (8 * (3 - e)) else v / 2 ^ (8 * (e - 3)).

Lemma compact_mant_range v : urange 256 v → 0 <= compact_exp v <= 33 ∧ 0 <= compact_mant v < 2 ^ 23.
Proof.
  unfold urange, compact_mant, compact_exp. intros Hv.
  destruct (Z.eqb_spec v 0) as [->|]; [cbn; lia|].
  pose proof (Z.log2_spec v ltac:(lia)) as Hs. pose proof (Z.log2_nonneg v).
  assert (Z.log2 v < 256) by (apply Z.log2_lt_pow2; lia).
  pose proof (Z.div_mod (Z.log2 v + 1) 8 ltac:(lia)). pose proof (Z.mod_pos_bound (Z.log2 v + 1) 8 ltac:(lia)).
  set (l := Z.log2 v) in *. set (q := (l + 1) / 8) in *. split; [lia|].
  assert (2 ^ Z.succ l <= 2 ^ (8 * q + 7)) by (apply Z.pow_le_mono_r; lia).
  destruct (Z.leb_spec (q + 1) 3).
  - assert (2 ^ (8 * q + 7) * 2 ^ (8 * (3 - (q + 1))) = 2 ^ 23) by (rewrite <- Z.pow_add_r by lia; f_equal; lia).
    nia.
  - split; [apply Z.div_pos; lia|]. apply Z.div_lt_upper_bound; [lia|].
    rewrite <- Z.pow_add_r by lia. replace (8 * (q + 1 - 3) + 23) with (8 * q + 7) by lia. lia.
Qed.

(** Joining and splitting the two fields of a compact target. *)
Lemma compact_join m e :
  0 <= m < 2 ^ 24 → 0 <= e < 256 →
  Z.lor m (uwrap 32 (Z.shiftl e 24)) = m + e * 2 ^ 24 ∧ urange 32 (m + e * 2 ^ 24).
Proof.
  intros Hm He. unfold urange. rewrite uwrap_small by (unfold urange; rewrite Z.shiftl_mul_pow2; lia).
  rewrite Z.lor_comm, shiftl_lor_add by (unfold urange; lia). lia.
Qed.

Lemma compact_fields m e :
  0 <= m < 2 ^ 24 → Z.shiftr (m + e * 2 ^ 24) 24 = e ∧ Z.land (m + e * 2 ^ 24) 0xFFFFFF = m.
Proof.
  intros Hm. rewrite Z.shiftr_div_pow2 by lia. change 0xFFFFFF with (Z.ones 24).
  rewrite Z.land_ones, Z.div_add, Z.mod_add, Z.div_small, Z.mod_small by lia. lia.
Qed.

Lemma from_wf x : urange 128 x → u256_wf (U256.from x) ∧ val (U256.from x) = x.
Proof. intros Hx. split; [split; [unfold urange; cbn; lia|done]|]. unfold val. cbn. lia. Qed.

(** [from_compact] on each kind of compact value; the shift is taken modulo 256. *)
Lemma from_compact_val m e :
  0 <= m < 2 ^ 24 → 0 <= e < 256 →
  let t := Target.from_compact (m + e * 2 ^ 24) in
  u256_wf t ∧
  val t = (let mant := if e <=? 3 then m / 2 ^ (8 * (3 - e)) else m in
           let expt := if e <=? 3 then 0 else (8 * (e - 3)) mod 256 in
           if 0x7FFFFF <? mant then 0 else (mant * 2 ^ expt) mod 2 ^ 256).
Proof.
  intros Hm He. cbv zeta. unfold Target.from_compact.
  destruct (compact_fields m e Hm) as [-> ->].
  assert (∀ mant s, 0 <= mant < 2 ^ 24 → 0 <= s →
    u256_wf (if 0x7FFFFF <? mant then Target.ZERO else U256.wrapping_shl (U256.from mant) s) ∧
    val (if 0x7FFFFF <? mant then Target.ZERO else U256.wrapping_shl (U256.from mant) s)
    = if 0x7FFFFF <? mant then 0 else (mant * 2 ^ (s mod 256)) mod 2 ^ 256) as Hs.
  { intros mant s Hmant Hs0. case_if; [split; [apply ZERO_wf|done]|].
    assert (U256.wrapping_shl (U256.from mant) s = U256.wrapping_shl (U256.from mant) (s mod 256)) as ->.
    { unfold U256.wrapping_shl. change 255 with (Z.ones 8). rewrite !Z.land_ones by lia.
      change (2 ^ 8) with 256. by rewrite Z.mod_mod by lia. }
    destruct (from_wf mant) as [Hf Ef]; [unfold urange; lia|].
    destruct (wrapping_shl_val _ (s mod 256) Hf) as [Hw ->]; [apply Z.mod_pos_bound; lia|]. by rewrite Ef. }
  destruct (Z.leb_spec e 3).
  - rewrite Z.shiftr_div_pow2 by lia. apply (Hs _ 0); [|lia].
    split; [apply Z.div_pos; lia|]. apply Z.div_lt_upper_bound; [lia|]. nia.
  - apply (Hs m (8 * (e - 3))); lia.
Qed.

Lemma to_compact_closed t :
  u256_wf t → Target.to_compact_lossy t = compact_mant (val t) + compact_exp (val t) * 2 ^ 24.
Proof.
  intros Ht. pose proof (val_range t Ht) as Rv. pose proof (compact_mant_range _ Rv) as [He Hm].
  unfold Target.to_compact_lossy. rewrite bits_val by done. unfold urange in Rv.
  destruct (Z.eqb_spec (val t) 0) as [E|E].
  { unfold compact_mant, compact_exp. rewrite E. cbn [Z.eqb].
    change ((0 + 7) / 8) with 0. cbn [Z.leb Z.compare].
    rewrite (proj1 (low_u64_val t Ht)), E. reflexivity. }
  pose proof (Z.log2_spec (val t) ltac:(lia)) as Hs. pose proof (Z.log2_nonneg (val t)).
  assert (Z.log2 (val t) < 256) by (apply Z.log2_lt_pow2; lia).
  unfold compact_mant, compact_exp in *. rewrite (proj2 (Z.eqb_neq _ 0) E) in *.
  set (v := val t) in *. set (l := Z.log2 v) in *.
  set (size := (l + 1 + 7) / 8).
  pose proof (Z.div_mod (l + 1 + 7) 8 ltac:(lia)) as Ds. pose proof (Z.mod_pos_bound (l + 1 + 7) 8 ltac:(lia)).
  pose proof (Z.div_mod (l + 1) 8 ltac:(lia)) as Dq. pose proof (Z.mod_pos_bound (l + 1) 8 ltac:(lia)).
  fold size in Ds. set (q := (l + 1) / 8) in *.
  assert (1 <= size <= 32) as Hsize by lia.
  (* the three top bytes *)
  set (c0 := if size <=? 3 then v * 2 ^ (8 * (3 - size)) else v / 2 ^ (8 * (size - 3))).
  assert (2 ^ (l + 24 - 8 * size) <= c0 < 2 ^ (l + 25 - 8 * size)) as Hc0.
  { subst c0. destruct (Z.leb_spec size 3).
    - replace (l + 24 - 8 * size) with (l + 8 * (3 - size)) by lia.
      replace (l + 25 - 8 * size) with (Z.succ l + 8 * (3 - size)) by lia. rewrite !Z.pow_add_r by lia. nia.
    - split.
      + apply Z.div_le_lower_bound; [lia|]. rewrite <- Z.pow_add_r by lia.
        replace (8 * (size - 3) + (l + 24 - 8 * size)) with l by lia. lia.
      + apply Z.div_lt_upper_bound; [lia|]. rewrite <- Z.pow_add_r by lia.
        replace (8 * (size - 3) + (l + 25 - 8 * size)) with (Z.succ l) by lia. lia. }
  assert (0 <= c0 < 2 ^ 24) as Hc24.
  { assert (2 ^ (l + 25 - 8 * size) <= 2 ^ 24) by (apply Z.pow_le_mono_r; lia).
    assert (0 < 2 ^ (l + 24 - 8 * size)) by lia. lia. }
  assert ((if size <=? 3 then uwrap 32 (uwrap 64 (Z.shiftl (U256.low_u64 t) (8 * (3 - size))))
    else U256.low_u32 (U256.wrapping_shr t (8 * (size - 3)))) = c0) as ->.
  { subst c0. destruct (Z.leb_spec size 3).
    - rewrite (proj1 (low_u64_val t Ht)). fold v.
      assert (v < 2 ^ 24).
      { assert (2 ^ Z.succ l <= 2 ^ 24) by (apply Z.pow_le_mono_r; lia). lia. }
      rewrite (Z.mod_small v) by lia. rewrite Z.shiftl_mul_pow2 by lia.
      rewrite (uwrap_small 64), (uwrap_small 32) by (unfold urange; lia). done.
    - destruct (wrapping_shr_val t (8 * (size - 3)) Ht ltac:(lia)) as [Hw Ew]. fold v in Ew.
      unfold U256.low_u32. rewrite low_u128_small by (done || rewrite Ew; lia). rewrite Ew.
      apply uwrap_small. unfold urange. lia. }
  change 0x00800000 with (2 ^ 23). rewrite land_pow2_bit, negb_involutive by lia.
  assert (Z.testbit c0 23 = (2 ^ 23 <=? c0)) as ->.
  { rewrite Z.testbit_eqb by lia. destruct (Z.leb_spec (2 ^ 23) c0).
    - assert (c0 / 2 ^ 23 = 1) as -> by (symmetry; apply Z.div_unique with (c0 - 2 ^ 23); lia). done.
    - rewrite Z.div_small by lia. done. }
  (* the sign bit would be set exactly when the top byte is full *)
  assert (8 * size - 8 < l + 1 <= 8 * size) as Hls by lia.
  destruct (Z.leb_spec (2 ^ 23) c0) as [Hhigh|Hlow].
  - assert (l + 1 = 8 * size) as Hl.
    { apply Z.le_antisymm; [lia|]. apply Z.nlt_ge. intros Hlt.
      pose proof (Z.pow_le_mono_r 2 (l + 25 - 8 * size) 23). lia. }
    assert (q = size) as -> by (subst q; rewrite Hl, Z.mul_comm; apply Z.div_mul; lia).
    rewrite Z.shiftr_div_pow2 by lia.
    assert (c0 / 2 ^ 8 = if size + 1 <=? 3 then v * 2 ^ (8 * (3 - (size + 1))) else v / 2 ^ (8 * (size + 1 - 3))) as ->.
    { subst c0. destruct (Z.leb_spec size 3), (Z.leb_spec (size + 1) 3); try lia.
      - replace (8 * (3 - size)) with (8 * (3 - (size + 1)) + 8) by lia. rewrite Z.pow_add_r, Z.mul_assoc by lia.
        apply Z.div_mul. lia.
      - replace size with 3 by lia. rewrite Z.mul_1_r. done.
      - rewrite Z.div_div, <- Z.pow_add_r by lia. do 2 f_equal. lia. }
    refine (proj1 (compact_join _ _ _ _)); lia.
  - assert (l + 1 < 8 * size) as Hl.
    { apply Z.nle_gt. intros Hle. pose proof (Z.pow_le_mono_r 2 23 (l + 24 - 8 * size)). lia. }
    assert (q + 1 = size) as Hq by lia. rewrite Hq in *. fold c0. fold c0 in Hm.
    refine (proj1 (compact_join _ _ _ _)); lia.
Qed.

(** What a target becomes when it is encoded and decoded: its low bytes cleared. *)
Lemma compact_decoded t :
  u256_wf t →
  let k := 8 * Z.max 0 (compact_exp (val t) - 3) in
  let t' := Target.from_compact (Target.to_compact_lossy t) in
  u256_wf t' ∧ val t' = val t / 2 ^ k * 2 ^ k.
Proof.
  intros Ht. cbv zeta. rewrite to_compact_closed by done. pose proof (val_range t Ht) as Rv.
  pose proof (compact_mant_range _ Rv) as [He Hm]. unfold urange in Rv.
  destruct (from_compact_val (compact_mant (val t)) (compact_exp (val t)) ltac:(lia) ltac:(lia)) as [Hw Ev].
  split; [exact Hw|]. cbv zeta in Ev. rewrite Ev. clear Ev Hw. unfold compact_mant in *.
  set (e := compact_exp (val t)) in *. set (v := val t) in *. destruct (Z.leb_spec e 3).
  - rewrite Z.div_mul by lia. rewrite Z.max_l by lia. change (8 * 0) with 0. change (2 ^ 0) with 1.
    rewrite Z.div_1_r. change (2 ^ (0 mod 256)) with 1.
    assert (v < 2 ^ 23) by (assert (0 < 2 ^ (8 * (3 - e))) by lia; nia).
    destruct (Z.ltb_spec 0x7FFFFF v); [lia|]. change (2 ^ 0) with 1. rewrite !Z.mul_1_r. apply Z.mod_small. lia.
  - rewrite Z.max_r by lia. rewrite (Z.mod_small (8 * (e - 3))) by lia.
    destruct (Z.ltb_spec 0x7FFFFF (v / 2 ^ (8 * (e - 3)))); [lia|]. apply Z.mod_small.
    pose proof (Z.mul_div_le v (2 ^ (8 * (e - 3))) ltac:(lia)). nia.
Qed.

(** Clearing the low bytes keeps the exponent. *)
Lemma compact_exp_cleared v :
  0 <= v → let k := 8 * Z.max 0 (compact_exp v - 3) in compact_exp (v / 2 ^ k * 2 ^ k) = compact_exp v.
Proof.
  intros Hv. cbv zeta. unfold compact_exp. destruct (Z.eqb_spec v 0) as [->|]; [done|].
  pose proof (Z.log2_spec v ltac:(lia)) as Hs. pose proof (Z.log2_nonneg v).
  set (l := Z.log2 v) in *. set (k := 8 * Z.max 0 ((l + 1) / 8 + 1 - 3)).
  assert (0 <= k <= l) as Hk.
  { pose proof (Z.div_mod (l + 1) 8 ltac:(lia)). pose proof (Z.mod_pos_bound (l + 1) 8 ltac:(lia)).
    subst k. lia. }
  assert (2 ^ l = 2 ^ (l - k) * 2 ^ k) as El by (rewrite <- Z.pow_add_r by lia; f_equal; lia).
  assert (2 ^ (l - k) <= v / 2 ^ k) as Hlow by (apply Z.div_le_lower_bound; [lia|]; lia).
  pose proof (Z.mul_div_le v (2 ^ k) ltac:(lia)).
  assert (2 ^ l <= v / 2 ^ k * 2 ^ k) by (rewrite El; nia).
  assert (Z.log2 (v / 2 ^ k * 2 ^ k) = l) as -> by (apply Z.log2_unique; lia).
  by rewrite (proj2 (Z.eqb_neq _ 0)) by lia.
Qed.

(** ** Retargeting *)

Record params_wf (p : Params.Params) : Prop := {
  pwf_limit : u256_wf (Params.max_attainable_target p);
  pwf_timespan : 16 <= Params.pow_target_timespan p < 2 ^ 62 }.

Lemma mainnet_wf : params_wf Params.MAINNET.
Proof. constructor; [split; unfold urange|]; vm_compute; split; done. Qed.

Lemma to_compact_from_compact_wf last : urange 32 last → u256_wf (Target.from_compact last).
Proof.
  intros Hl. unfold urange in Hl.
  pose proof (Z.div_mod last (2 ^ 24) ltac:(lia)). pose proof (Z.mod_pos_bound last (2 ^ 24) ltac:(lia)) as Hm.
  assert (0 <= last / 2 ^ 24 < 256) by (split; [apply Z.div_pos; lia|apply Z.div_lt_upper_bound; lia]).
  replace last with (last mod 2 ^ 24 + last / 2 ^ 24 * 2 ^ 24) by lia.
  apply from_compact_val; lia.
Qed.

Lemma clamp_bounds x a b : a <= b → a <= clamp x a b <= b ∧ clamp x a b = Z.max a (Z.min x b).
Proof. unfold clamp. intros. repeat case_if; lia. Qed.

(** The timespan that counts. *)
Definition effective_timespan (timespan : Z) (p : Params.Params) : Z :=
  let t := Params.pow_target_timespan p in Z.max (t / 4) (Z.min timespan (4 * t)).

Lemma retarget_val last timespan p :
  urange 32 last → params_wf p → Params.no_pow_retargeting p = false →
  let prev := val (Target.from_compact last) in
  let actual := effective_timespan timespan p in
  prev * actual < 2 ^ 256 →
  ∃ t, from_next_work_required last timespan p = Some (Target.to_compact_lossy t) ∧ u256_wf t ∧
    val t = Z.min (prev * actual / Params.pow_target_timespan p) (val (Params.max_attainable_target p)).
Proof.
  intros Hlast [Hlim Hts] Hno. cbv zeta. intros Hov. unfold from_next_work_required. rewrite Hno. cbv zeta.
  set (ts := Params.pow_target_timespan p) in *.
  pose proof (to_compact_from_compact_wf last Hlast) as Hprev. set (prev := Target.from_compact last) in *.
  assert (uwrap 64 (Z.shiftl ts 2) = 4 * ts) as ->.
  { rewrite Z.shiftl_mul_pow2 by lia. rewrite uwrap_small by (unfold urange; lia). lia. }
  rewrite Z.shiftr_div_pow2 by lia. change (2 ^ 2) with 4.
  pose proof (Z.div_mod ts 4 ltac:(lia)). pose proof (Z.mod_pos_bound ts 4 ltac:(lia)).
  destruct (clamp_bounds timespan (ts / 4) (4 * ts) ltac:(lia)) as [Hclamp ->].
  unfold effective_timespan in Hov. fold ts in Hov. change (effective_timespan timespan p)
    with (Z.max (ts / 4) (Z.min timespan (4 * ts))). set (actual := Z.max _ _) in *.
  pose proof (val_range _ Hprev) as Rp. unfold urange in Rp.
  destruct (from_wf actual) as [Ha Ea]; [unfold urange; lia|].
  destruct (from_wf ts) as [Ht Et]; [unfold urange; lia|].
  destruct (overflowing_mul_val prev (U256.from actual) Hprev Ha ltac:(lia)) as (Hmw & Hmv & _).
  rewrite Ea, Z.mod_small in Hmv by nia.
  destruct (div_val _ _ Hmw Ht ltac:(lia)) as (q & Hq & Hqw & Hqv).
  unfold U256.mul. rewrite Hq. cbn [mbind option_bind]. rewrite Hmv, Et in Hqv.
  assert (u256_wf (max_transition_threshold prev p) ∧
    val (max_transition_threshold prev p) = Z.min (4 * val prev) (val (Params.max_attainable_target p))) as [Hxw Hxv].
  { unfold max_transition_threshold, Target.max_transition_threshold_unchecked.
    destruct (wrapping_shl_val prev 2 Hprev ltac:(lia)) as [Hsw Hsv].
    rewrite Z.mod_small in Hsv by nia. rewrite leb_val by done. rewrite Hsv.
    destruct (Z.leb_spec (val prev * 2 ^ 2) (val (Params.max_attainable_target p))); split; try done; lia. }
  assert (val prev * actual / ts <= 4 * val prev) as Hle
    by (apply Z.div_le_upper_bound; nia).
  rewrite leb_val by done. rewrite Hxv, Hqv.
  destruct (Z.leb_spec (Z.min (4 * val prev) (val (Params.max_attainable_target p))) (val prev * actual / ts)).
  - eexists. split_and!; [done|done|]. rewrite Hxv. lia.
  - eexists. split_and!; [done|done|]. rewrite Hqv. lia.
Qed.

(** ** Properties *)

(** The operations on pairs of 128-bit halves are arithmetic modulo [2 ^ 256]
    on the values the pairs stand for: addition with its carry, subtraction, the
    increment, complement, both shifts, the product with a 64-bit factor and its
    overflow flag, the product with a factor below [2 ^ 192], comparison and the
    two byte orders.  Every result is again a pair of 128-bit halves. *)
Theorem u256_arithmetic x y s m :
  u256_wf x → u256_wf y → 0 <= s < 256 → urange 64 m →
  (let '(r, o) := U256.overflowing_add x y in
     u256_wf r ∧ val x + val y = val r + b2z o * 2 ^ 256) ∧
  (let '(r, o) := U256.overflowing_sub x y in
     u256_wf r ∧ val r = (val x - val y) mod 2 ^ 256 ∧ o = (val x <? val y)) ∧
  (let '(r, o) := U256.mul_u64 x m in
     u256_wf r ∧ val r = (val x * m) mod 2 ^ 256 ∧ o = (2 ^ 256 <=? val x * m)) ∧
  (val y < 2 ^ 192 → val (U256.mul x y) = (val x * val y) mod 2 ^ 256) ∧
  val (U256.wrapping_inc x) = (val x + 1) mod 2 ^ 256 ∧ val (U256.not x) = 2 ^ 256 - 1 - val x ∧
  val (U256.wrapping_shl x s) = (val x * 2 ^ s) mod 2 ^ 256 ∧ val (U256.wrapping_shr x s) = val x / 2 ^ s ∧
  U256.leb x y = (val x <=? val y) ∧
  U256.from_le_bytes (U256.to_le_bytes x) = x ∧ U256.from_be_bytes (U256.to_be_bytes x) = x.
Proof.
  intros Hx Hy Hs Hm. pose proof (overflowing_add_val x y Hx Hy) as Ha.
  pose proof (wrapping_sub_val x y Hx Hy) as Hsub. pose proof (mul_u64_val x m Hx Hm) as Hmul.
  cbv zeta in *. unfold U256.wrapping_sub in Hsub.
  destruct (U256.overflowing_add x y), (U256.mul_u64 x m). unfold U256.overflowing_sub in *.
  cbn [fst snd] in *. split_and!; try (apply Ha || apply Hsub || apply Hmul).
  - by apply ltb_val.
  - intros Hlt. by apply overflowing_mul_val.
  - by apply wrapping_inc_val.
  - by apply not_val.
  - by apply wrapping_shl_val.
  - by apply wrapping_shr_val.
  - by apply leb_val.
  - by apply bytes_roundtrip_u256.
  - by apply bytes_roundtrip_u256.
Qed.

(** C10: the bitwise long division terminates with the quotient and the remainder,
    and panics on a zero divisor only; what is built on it: the work of a target is
    [2 ^ 256 / (target + 1)] (the maximum for targets 0 and 1), and printing spells
    the value in decimal without leading zeros, within the 78 bytes of the buffer. *)
Theorem u256_division x y :
  u256_wf x → u256_wf y →
  match U256.div_rem x y with
  | Some (q, r) => u256_wf q ∧ u256_wf r ∧ val x = val y * val q + val r ∧ val r < val y
  | None => val y = 0
  end ∧
  (∃ w, Target.to_work x = Some w ∧ u256_wf w ∧
     val w = if val x <=? 1 then 2 ^ 256 - 1 else 2 ^ 256 / (val x + 1)) ∧
  (∃ ds, U256.display x = Some ds ∧ Forall is_digit ds ∧ decimal_value ds = val x ∧
     (val x ≠ 0 → head ds ≠ Some 48) ∧ (val x = 0 → ds = [48])).
Proof.
  intros Hx Hy. split_and!; [|by apply inverse_val|by apply display_spec].
  pose proof (div_rem_val x y Hx Hy) as Hd. destruct (U256.div_rem x y) as [[q r]|]; [|done].
  destruct Hd as (H0 & Hq & Hr & Eq & Er). pose proof (val_range y Hy) as Ry. unfold urange in Ry.
  rewrite Eq, Er. split_and!; [done|done|apply Z.div_mod; done|apply Z.mod_pos_bound; lia].
Qed.

(** The compact encoding of a target.  Encoding and decoding clears the bytes
    below the three most significant ones (two, when the sign bit would be set) and
    nothing else, so that the result is never above the target; encoding again
    gives the same compact value, which fits 32 bits. *)
Theorem compact_roundtrip t :
  u256_wf t →
  let c := Target.to_compact_lossy t in
  let t' := Target.from_compact c in
  urange 32 c ∧ u256_wf t' ∧ val t' <= val t ∧ Target.to_compact_lossy t' = c ∧
  (let k := 8 * Z.max 0 (compact_exp (val t) - 3) in val t' = val t / 2 ^ k * 2 ^ k).
Proof.
  intros Ht. cbv zeta. pose proof (val_range t Ht) as Rv.
  pose proof (compact_mant_range _ Rv) as [He Hm]. destruct (compact_decoded t Ht) as [Hw Ev]. cbv zeta in Ev.
  pose proof (compact_exp_cleared (val t) (proj1 Rv)) as Hc. cbv zeta in Hc. rewrite <- Ev in Hc.
  set (t' := Target.from_compact (Target.to_compact_lossy t)) in *.
  rewrite (to_compact_closed t), (to_compact_closed t') by done.
  split_and!; [unfold urange; lia|done| |rewrite Hc; f_equal|done].
  - rewrite Ev. rewrite Z.mul_comm. apply Z.mul_div_le. lia.
  - unfold compact_mant. rewrite Hc, Ev. destruct (Z.leb_spec (compact_exp (val t)) 3).
    + rewrite Z.max_l by lia. change (2 ^ (8 * 0)) with 1. by rewrite Z.div_1_r, Z.mul_1_r.
    + rewrite Z.max_r by lia. apply Z.div_mul. lia.
Qed.

(** C11: the retargeting rule.  On a network that retargets, as long as the product of
    the last target and the timespan fits 256 bits, the next target is the last one scaled by the timespan,
    which counts for between a quarter and four times the expected one, capped by
    the limit of the network, in compact form. *)
Theorem retarget_spec last timespan p :
  urange 32 last → params_wf p → Params.no_pow_retargeting p = false →
  let prev := val (Target.from_compact last) in
  let expected := Params.pow_target_timespan p in
  let actual := Z.max (expected / 4) (Z.min timespan (4 * expected)) in
  prev * actual < 2 ^ 256 →
  ∃ t, from_next_work_required last timespan p = Some (Target.to_compact_lossy t) ∧ u256_wf t ∧
    val t = Z.min (prev * actual / expected) (val (Params.max_attainable_target p)).
Proof. apply retarget_val. Qed.

(** The difficulty is the number of times the target goes into the limit,
    saturated to 128 bits; the zero target is refused by a panic, and a hash meets
    the target exactly when it is not above it as a little-endian number. *)
Theorem difficulty_spec t p hash :
  u256_wf t → params_wf p → length hash = 32%nat →
  difficulty t p
  = (if val t =? 0 then None
     else Some (Z.min (val (Params.max_attainable_target p) / val t) (2 ^ 128 - 1))) ∧
  Target.is_met_by t hash = (le_combine hash <=? val t).
Proof.
  intros Ht [Hlim _] Hhash. destruct (from_le_bytes_val hash Hhash) as [Hhw Hhv]. split.
  2:{ unfold Target.is_met_by. by rewrite leb_val, Hhv. }
  unfold difficulty. destruct (Z.eqb_spec (val t) 0) as [E|E].
  - rewrite decide_True; [done|]. apply val_inj; [done|apply ZERO_wf|by rewrite E].
  - rewrite decide_False by (intros ->; by apply E).
    destruct (div_val _ t Hlim Ht E) as (q & -> & Hq & Eq). cbn [mbind option_bind]. f_equal.
    unfold U256.saturating_to_u128, U128_MAX.
    destruct (from_wf (2 ^ 128 - 1)) as [Hmw Hmv]; [unfold urange; lia|].
    rewrite ltb_val by done. rewrite Hmv, <- Eq.
    destruct (Z.ltb_spec (2 ^ 128 - 1) (val q)); [lia|]. rewrite low_u128_small by (done || lia). lia.
Qed.

(** ** Examples *)

Lemma small_wf h l : 0 <= h < 2 ^ 128 → 0 <= l < 2 ^ 128 → u256_wf (Pair h l).
Proof. done. Qed.

Lemma u256_arithmetic_witness :
  val (U256.wrapping_shl (Pair 1 5) 200) = (val (Pair 1 5) * 2 ^ 200) mod 2 ^ 256.
Proof.
  apply (u256_arithmetic (Pair 1 5) (Pair 0 7) 200 9);
    [apply small_wf; lia|apply small_wf; lia|lia|unfold urange; lia].
Defined.

Lemma u256_division_witness :
  match U256.div_rem (Pair 7 1) (Pair 0 10) with
  | Some (q, r) => u256_wf q ∧ u256_wf r ∧ val (Pair 7 1) = val (Pair 0 10) * val q + val r ∧ val r < val (Pair 0 10)
  | None => val (Pair 0 10) = 0
  end.
Proof. apply (u256_division (Pair 7 1) (Pair 0 10)); apply small_wf; lia. Defined.

Lemma compact_roundtrip_witness :
  Target.to_compact_lossy (Target.from_compact (Target.to_compact_lossy (Pair 5 0xabcdef))) =
  Target.to_compact_lossy (Pair 5 0xabcdef).
Proof. apply (compact_roundtrip (Pair 5 0xabcdef)). apply small_wf; lia. Defined.

Lemma retarget_spec_witness :
  ∃ t, from_next_work_required 0x1b0ffff0 604800 Params.MAINNET = Some (Target.to_compact_lossy t) ∧ u256_wf t ∧
    val t = Z.min (val (Target.from_compact 0x1b0ffff0) * 604800 / 302400) (val Target.MAX_ATTAINABLE_MAINNET).
Proof.
  apply (retarget_spec 0x1b0ffff0 604800 Params.MAINNET);
    [unfold urange; lia|apply mainnet_wf|done|by vm_compute].
Defined.

Lemma difficulty_spec_witness :
  difficulty (Pair 0x0ffff0 0) Params.MAINNET = Some (2 ^ 88).
Proof.
  rewrite (proj1 (difficulty_spec (Pair 0x0ffff0 0) Params.MAINNET (replicate 32 x00)
    ltac:(apply small_wf; lia) mainnet_wf eq_refl)). vm_compute. reflexivity.
Defined.

(** At the limit of the main network the product needs 257 bits: after a period of
    the longest timespan the target is not kept at the limit, but the wrapped
    product makes it harder by almost a half. *)
Theorem retarget_wraps :
  from_next_work_required 0x1e0ffff0 (4 * 302400) Params.MAINNET = Some 0x1e0884d0 ∧
  Target.to_compact_lossy Target.MAX_ATTAINABLE_MAINNET = 0x1e0ffff0.
Proof. split; vm_compute; reflexivity. Qed.

(** The product of the top word is not shifted into place, and overflow of the lower
    words is not reported. *)
Theorem overflowing_mul_top_word :
  U256.overflowing_mul U256.ONE (Pair (2 ^ 64) 0) = (U256.ONE, false) ∧
  U256.overflowing_mul (Pair 1 0) (Pair 1 0) = (U256.ZERO, false).
Proof. split; vm_compute; reflexivity. Qed.

(** The sign bit of the compact form is not seen when the exponent is below three,
    and exponents above 34 come back around: a shift by [8 * 32] is no shift. *)
Theorem from_compact_edges :
  Target.from_compact 0x02923456 = Pair 0 0x9234 ∧ Target.from_compact 0x23123456 = Pair 0 0x123456.
Proof. split; vm_compute; reflexivity. Qed.
