(* ===== verification/Opcodes.v ===== *)
(** Opcodes ([src/litecoin/src/blockdata/opcodes.rs]): their names and codes and the
    classification that the script iterators and predicates rest on. *)

From Stdlib Require Import String ZArith Lia.
From stdpp Require Import base list strings.
From Stdlib Require Import Init.Byte.
From coqutil Require Import Byte.
From S2P Require Import Prelude.

(** ** The table

    An [Opcode] is the one byte it wraps; [from] and [to_u8] are the identity. *)

(** The names, by code ([Display for Opcode]). *)
Definition all_opcodes : list (string * byte) := [
  ("OP_PUSHBYTES_0", x00); ("OP_PUSHBYTES_1", x01); ("OP_PUSHBYTES_2", x02);
  ("OP_PUSHBYTES_3", x03); ("OP_PUSHBYTES_4", x04); ("OP_PUSHBYTES_5", x05);
  ("OP_PUSHBYTES_6", x06); ("OP_PUSHBYTES_7", x07); ("OP_PUSHBYTES_8", x08);
  ("OP_PUSHBYTES_9", x09); ("OP_PUSHBYTES_10", x0a); ("OP_PUSHBYTES_11", x0b);
  ("OP_PUSHBYTES_12", x0c); ("OP_PUSHBYTES_13", x0d); ("OP_PUSHBYTES_14", x0e);
  ("OP_PUSHBYTES_15", x0f); ("OP_PUSHBYTES_16", x10); ("OP_PUSHBYTES_17", x11);
  ("OP_PUSHBYTES_18", x12); ("OP_PUSHBYTES_19", x13); ("OP_PUSHBYTES_20", x14);
  ("OP_PUSHBYTES_21", x15); ("OP_PUSHBYTES_22", x16); ("OP_PUSHBYTES_23", x17);
  ("OP_PUSHBYTES_24", x18); ("OP_PUSHBYTES_25", x19); ("OP_PUSHBYTES_26", x1a);
  ("OP_PUSHBYTES_27", x1b); ("OP_PUSHBYTES_28", x1c); ("OP_PUSHBYTES_29", x1d);
  ("OP_PUSHBYTES_30", x1e); ("OP_PUSHBYTES_31", x1f); ("OP_PUSHBYTES_32", x20);
  ("OP_PUSHBYTES_33", x21); ("OP_PUSHBYTES_34", x22); ("OP_PUSHBYTES_35", x23);
  ("OP_PUSHBYTES_36", x24); ("OP_PUSHBYTES_37", x25); ("OP_PUSHBYTES_38", x26);
  ("OP_PUSHBYTES_39", x27); ("OP_PUSHBYTES_40", x28); ("OP_PUSHBYTES_41", x29);
  ("OP_PUSHBYTES_42", x2a); ("OP_PUSHBYTES_43", x2b); ("OP_PUSHBYTES_44", x2c);
  ("OP_PUSHBYTES_45", x2d); ("OP_PUSHBYTES_46", x2e); ("OP_PUSHBYTES_47", x2f);
  ("OP_PUSHBYTES_48", x30); ("OP_PUSHBYTES_49", x31); ("OP_PUSHBYTES_50", x32);
  ("OP_PUSHBYTES_51", x33); ("OP_PUSHBYTES_52", x34); ("OP_PUSHBYTES_53", x35);
  ("OP_PUSHBYTES_54", x36); ("OP_PUSHBYTES_55", x37); ("OP_PUSHBYTES_56", x38);
  ("OP_PUSHBYTES_57", x39); ("OP_PUSHBYTES_58", x3a); ("OP_PUSHBYTES_59", x3b);
  ("OP_PUSHBYTES_60", x3c); ("OP_PUSHBYTES_61", x3d); ("OP_PUSHBYTES_62", x3e);
  ("OP_PUSHBYTES_63", x3f); ("OP_PUSHBYTES_64", x40); ("OP_PUSHBYTES_65", x41);
  ("OP_PUSHBYTES_66", x42); ("OP_PUSHBYTES_67", x43); ("OP_PUSHBYTES_68", x44);
  ("OP_PUSHBYTES_69", x45); ("OP_PUSHBYTES_70", x46); ("OP_PUSHBYTES_71", x47);
  ("OP_PUSHBYTES_72", x48); ("OP_PUSHBYTES_73", x49); ("OP_PUSHBYTES_74", x4a);
  ("OP_PUSHBYTES_75", x4b); ("OP_PUSHDATA1", x4c); ("OP_PUSHDATA2", x4d);
  ("OP_PUSHDATA4", x4e); ("OP_PUSHNUM_NEG1", x4f); ("OP_RESERVED", x50);
  ("OP_PUSHNUM_1", x51); ("OP_PUSHNUM_2", x52); ("OP_PUSHNUM_3", x53);
  ("OP_PUSHNUM_4", x54); ("OP_PUSHNUM_5", x55); ("OP_PUSHNUM_6", x56);
  ("OP_PUSHNUM_7", x57); ("OP_PUSHNUM_8", x58); ("OP_PUSHNUM_9", x59);
  ("OP_PUSHNUM_10", x5a); ("OP_PUSHNUM_11", x5b); ("OP_PUSHNUM_12", x5c);
  ("OP_PUSHNUM_13", x5d); ("OP_PUSHNUM_14", x5e); ("OP_PUSHNUM_15", x5f);
  ("OP_PUSHNUM_16", x60); ("OP_NOP", x61); ("OP_VER", x62);
  ("OP_IF", x63); ("OP_NOTIF", x64); ("OP_VERIF", x65);
  ("OP_VERNOTIF", x66); ("OP_ELSE", x67); ("OP_ENDIF", x68);
  ("OP_VERIFY", x69); ("OP_RETURN", x6a); ("OP_TOALTSTACK", x6b);
  ("OP_FROMALTSTACK", x6c); ("OP_2DROP", x6d); ("OP_2DUP", x6e);
  ("OP_3DUP", x6f); ("OP_2OVER", x70); ("OP_2ROT", x71);
  ("OP_2SWAP", x72); ("OP_IFDUP", x73); ("OP_DEPTH", x74);
  ("OP_DROP", x75); ("OP_DUP", x76); ("OP_NIP", x77);
  ("OP_OVER", x78); ("OP_PICK", x79); ("OP_ROLL", x7a);
  ("OP_ROT", x7b); ("OP_SWAP", x7c); ("OP_TUCK", x7d);
  ("OP_CAT", x7e); ("OP_SUBSTR", x7f); ("OP_LEFT", x80);
  ("OP_RIGHT", x81); ("OP_SIZE", x82); ("OP_INVERT", x83);
  ("OP_AND", x84); ("OP_OR", x85); ("OP_XOR", x86);
  ("OP_EQUAL", x87); ("OP_EQUALVERIFY", x88); ("OP_RESERVED1", x89);
  ("OP_RESERVED2", x8a); ("OP_1ADD", x8b); ("OP_1SUB", x8c);
  ("OP_2MUL", x8d); ("OP_2DIV", x8e); ("OP_NEGATE", x8f);
  ("OP_ABS", x90); ("OP_NOT", x91); ("OP_0NOTEQUAL", x92);
  ("OP_ADD", x93); ("OP_SUB", x94); ("OP_MUL", x95);
  ("OP_DIV", x96); ("OP_MOD", x97); ("OP_LSHIFT", x98);
  ("OP_RSHIFT", x99); ("OP_BOOLAND", x9a); ("OP_BOOLOR", x9b);
  ("OP_NUMEQUAL", x9c); ("OP_NUMEQUALVERIFY", x9d); ("OP_NUMNOTEQUAL", x9e);
  ("OP_LESSTHAN", x9f); ("OP_GREATERTHAN", xa0); ("OP_LESSTHANOREQUAL", xa1);
  ("OP_GREATERTHANOREQUAL", xa2); ("OP_MIN", xa3); ("OP_MAX", xa4);
  ("OP_WITHIN", xa5); ("OP_RIPEMD160", xa6); ("OP_SHA1", xa7);
  ("OP_SHA256", xa8); ("OP_HASH160", xa9); ("OP_HASH256", xaa);
  ("OP_CODESEPARATOR", xab); ("OP_CHECKSIG", xac); ("OP_CHECKSIGVERIFY", xad);
  ("OP_CHECKMULTISIG", xae); ("OP_CHECKMULTISIGVERIFY", xaf); ("OP_NOP1", xb0);
  ("OP_CLTV", xb1); ("OP_CSV", xb2); ("OP_NOP4", xb3);
  ("OP_NOP5", xb4); ("OP_NOP6", xb5); ("OP_NOP7", xb6);
  ("OP_NOP8", xb7); ("OP_NOP9", xb8); ("OP_NOP10", xb9);
  ("OP_CHECKSIGADD", xba); ("OP_RETURN_187", xbb); ("OP_RETURN_188", xbc);
  ("OP_RETURN_189", xbd); ("OP_RETURN_190", xbe); ("OP_RETURN_191", xbf);
  ("OP_RETURN_192", xc0); ("OP_RETURN_193", xc1); ("OP_RETURN_194", xc2);
  ("OP_RETURN_195", xc3); ("OP_RETURN_196", xc4); ("OP_RETURN_197", xc5);
  ("OP_RETURN_198", xc6); ("OP_RETURN_199", xc7); ("OP_RETURN_200", xc8);
  ("OP_RETURN_201", xc9); ("OP_RETURN_202", xca); ("OP_RETURN_203", xcb);
  ("OP_RETURN_204", xcc); ("OP_RETURN_205", xcd); ("OP_RETURN_206", xce);
  ("OP_RETURN_207", xcf); ("OP_RETURN_208", xd0); ("OP_RETURN_209", xd1);
  ("OP_RETURN_210", xd2); ("OP_RETURN_211", xd3); ("OP_RETURN_212", xd4);
  ("OP_RETURN_213", xd5); ("OP_RETURN_214", xd6); ("OP_RETURN_215", xd7);
  ("OP_RETURN_216", xd8); ("OP_RETURN_217", xd9); ("OP_RETURN_218", xda);
  ("OP_RETURN_219", xdb); ("OP_RETURN_220", xdc); ("OP_RETURN_221", xdd);
  ("OP_RETURN_222", xde); ("OP_RETURN_223", xdf); ("OP_RETURN_224", xe0);
  ("OP_RETURN_225", xe1); ("OP_RETURN_226", xe2); ("OP_RETURN_227", xe3);
  ("OP_RETURN_228", xe4); ("OP_RETURN_229", xe5); ("OP_RETURN_230", xe6);
  ("OP_RETURN_231", xe7); ("OP_RETURN_232", xe8); ("OP_RETURN_233", xe9);
  ("OP_RETURN_234", xea); ("OP_RETURN_235", xeb); ("OP_RETURN_236", xec);
  ("OP_RETURN_237", xed); ("OP_RETURN_238", xee); ("OP_RETURN_239", xef);
  ("OP_RETURN_240", xf0); ("OP_RETURN_241", xf1); ("OP_RETURN_242", xf2);
  ("OP_RETURN_243", xf3); ("OP_RETURN_244", xf4); ("OP_RETURN_245", xf5);
  ("OP_RETURN_246", xf6); ("OP_RETURN_247", xf7); ("OP_RETURN_248", xf8);
  ("OP_RETURN_249", xf9); ("OP_RETURN_250", xfa); ("OP_RETURN_251", xfb);
  ("OP_RETURN_252", xfc); ("OP_RETURN_253", xfd); ("OP_RETURN_254", xfe);
  ("OP_INVALIDOPCODE", xff)
]%string.

Definition OP_PUSHBYTES_0 : byte := x00.
Definition OP_PUSHBYTES_2 : byte := x02.
Definition OP_PUSHBYTES_20 : byte := x14.
Definition OP_PUSHBYTES_32 : byte := x20.
Definition OP_PUSHBYTES_33 : byte := x21.
Definition OP_PUSHBYTES_40 : byte := x28.
Definition OP_PUSHBYTES_65 : byte := x41.
Definition OP_PUSHBYTES_75 : byte := x4b.
Definition OP_PUSHDATA1 : byte := x4c.
Definition OP_PUSHDATA2 : byte := x4d.
Definition OP_PUSHDATA4 : byte := x4e.
Definition OP_PUSHNUM_NEG1 : byte := x4f.
Definition OP_RESERVED : byte := x50.
Definition OP_PUSHNUM_1 : byte := x51.
Definition OP_PUSHNUM_16 : byte := x60.
Definition OP_NOP : byte := x61.
Definition OP_VER : byte := x62.
Definition OP_VERIF : byte := x65.
Definition OP_VERNOTIF : byte := x66.
Definition OP_VERIFY : byte := x69.
Definition OP_RETURN : byte := x6a.
Definition OP_DUP : byte := x76.
Definition OP_CAT : byte := x7e.
Definition OP_SUBSTR : byte := x7f.
Definition OP_LEFT : byte := x80.
Definition OP_RIGHT : byte := x81.
Definition OP_INVERT : byte := x83.
Definition OP_AND : byte := x84.
Definition OP_OR : byte := x85.
Definition OP_XOR : byte := x86.
Definition OP_EQUAL : byte := x87.
Definition OP_EQUALVERIFY : byte := x88.
Definition OP_RESERVED1 : byte := x89.
Definition OP_RESERVED2 : byte := x8a.
Definition OP_2MUL : byte := x8d.
Definition OP_2DIV : byte := x8e.
Definition OP_MUL : byte := x95.
Definition OP_DIV : byte := x96.
Definition OP_MOD : byte := x97.
Definition OP_LSHIFT : byte := x98.
Definition OP_RSHIFT : byte := x99.
Definition OP_NUMEQUAL : byte := x9c.
Definition OP_NUMEQUALVERIFY : byte := x9d.
Definition OP_HASH160 : byte := xa9.
Definition OP_CHECKSIG : byte := xac.
Definition OP_CHECKSIGVERIFY : byte := xad.
Definition OP_CHECKMULTISIG : byte := xae.
Definition OP_CHECKMULTISIGVERIFY : byte := xaf.
Definition OP_NOP1 : byte := xb0.
Definition OP_NOP10 : byte := xb9.
Definition OP_CHECKSIGADD : byte := xba.
Definition OP_INVALIDOPCODE : byte := xff.

Definition OP_0 : byte := OP_PUSHBYTES_0.
Definition OP_TRUE : byte := OP_PUSHNUM_1.

Definition opcode_display (op : byte) : option string :=
  fst <$> List.find (λ e, bool_decide (snd e = op)) all_opcodes.

(** ** Ordinary opcodes *)

Module Ordinary.

(** [enum Ordinary], made by [ordinary_opcode!]; the discriminants are the codes. *)
Inductive Ordinary :=
| OP_PUSHDATA1 | OP_PUSHDATA2 | OP_PUSHDATA4 | OP_IF | OP_NOTIF
| OP_ELSE | OP_ENDIF | OP_VERIFY | OP_TOALTSTACK | OP_FROMALTSTACK
| OP_2DROP | OP_2DUP | OP_3DUP | OP_2OVER | OP_2ROT
| OP_2SWAP | OP_DROP | OP_DUP | OP_NIP | OP_OVER
| OP_PICK | OP_ROLL | OP_ROT | OP_SWAP | OP_TUCK
| OP_IFDUP | OP_DEPTH | OP_SIZE | OP_EQUAL | OP_EQUALVERIFY
| OP_1ADD | OP_1SUB | OP_NEGATE | OP_ABS | OP_NOT
| OP_0NOTEQUAL | OP_ADD | OP_SUB | OP_BOOLAND | OP_BOOLOR
| OP_NUMEQUAL | OP_NUMEQUALVERIFY | OP_NUMNOTEQUAL | OP_LESSTHAN | OP_GREATERTHAN
| OP_LESSTHANOREQUAL | OP_GREATERTHANOREQUAL | OP_MIN | OP_MAX | OP_WITHIN
| OP_RIPEMD160 | OP_SHA1 | OP_SHA256 | OP_HASH160 | OP_HASH256
| OP_CODESEPARATOR | OP_CHECKSIG | OP_CHECKSIGVERIFY | OP_CHECKMULTISIG | OP_CHECKMULTISIGVERIFY
| OP_CHECKSIGADD.

Definition to_u8 (o : Ordinary) : byte :=
  match o with
  | OP_PUSHDATA1 => x4c | OP_PUSHDATA2 => x4d | OP_PUSHDATA4 => x4e
  | OP_IF => x63 | OP_NOTIF => x64 | OP_ELSE => x67
  | OP_ENDIF => x68 | OP_VERIFY => x69 | OP_TOALTSTACK => x6b
  | OP_FROMALTSTACK => x6c | OP_2DROP => x6d | OP_2DUP => x6e
  | OP_3DUP => x6f | OP_2OVER => x70 | OP_2ROT => x71
  | OP_2SWAP => x72 | OP_DROP => x75 | OP_DUP => x76
  | OP_NIP => x77 | OP_OVER => x78 | OP_PICK => x79
  | OP_ROLL => x7a | OP_ROT => x7b | OP_SWAP => x7c
  | OP_TUCK => x7d | OP_IFDUP => x73 | OP_DEPTH => x74
  | OP_SIZE => x82 | OP_EQUAL => x87 | OP_EQUALVERIFY => x88
  | OP_1ADD => x8b | OP_1SUB => x8c | OP_NEGATE => x8f
  | OP_ABS => x90 | OP_NOT => x91 | OP_0NOTEQUAL => x92
  | OP_ADD => x93 | OP_SUB => x94 | OP_BOOLAND => x9a
  | OP_BOOLOR => x9b | OP_NUMEQUAL => x9c | OP_NUMEQUALVERIFY => x9d
  | OP_NUMNOTEQUAL => x9e | OP_LESSTHAN => x9f | OP_GREATERTHAN => xa0
  | OP_LESSTHANOREQUAL => xa1 | OP_GREATERTHANOREQUAL => xa2 | OP_MIN => xa3
  | OP_MAX => xa4 | OP_WITHIN => xa5 | OP_RIPEMD160 => xa6
  | OP_SHA1 => xa7 | OP_SHA256 => xa8 | OP_HASH160 => xa9
  | OP_HASH256 => xaa | OP_CODESEPARATOR => xab | OP_CHECKSIG => xac
  | OP_CHECKSIGVERIFY => xad | OP_CHECKMULTISIG => xae | OP_CHECKMULTISIGVERIFY => xaf
  | OP_CHECKSIGADD => xba
  end.

Definition from_opcode (b : byte) : option Ordinary :=
  match b with
  | x4c => Some OP_PUSHDATA1 | x4d => Some OP_PUSHDATA2 | x4e => Some OP_PUSHDATA4
  | x63 => Some OP_IF | x64 => Some OP_NOTIF | x67 => Some OP_ELSE
  | x68 => Some OP_ENDIF | x69 => Some OP_VERIFY | x6b => Some OP_TOALTSTACK
  | x6c => Some OP_FROMALTSTACK | x6d => Some OP_2DROP | x6e => Some OP_2DUP
  | x6f => Some OP_3DUP | x70 => Some OP_2OVER | x71 => Some OP_2ROT
  | x72 => Some OP_2SWAP | x75 => Some OP_DROP | x76 => Some OP_DUP
  | x77 => Some OP_NIP | x78 => Some OP_OVER | x79 => Some OP_PICK
  | x7a => Some OP_ROLL | x7b => Some OP_ROT | x7c => Some OP_SWAP
  | x7d => Some OP_TUCK | x73 => Some OP_IFDUP | x74 => Some OP_DEPTH
  | x82 => Some OP_SIZE | x87 => Some OP_EQUAL | x88 => Some OP_EQUALVERIFY
  | x8b => Some OP_1ADD | x8c => Some OP_1SUB | x8f => Some OP_NEGATE
  | x90 => Some OP_ABS | x91 => Some OP_NOT | x92 => Some OP_0NOTEQUAL
  | x93 => Some OP_ADD | x94 => Some OP_SUB | x9a => Some OP_BOOLAND
  | x9b => Some OP_BOOLOR | x9c => Some OP_NUMEQUAL | x9d => Some OP_NUMEQUALVERIFY
  | x9e => Some OP_NUMNOTEQUAL | x9f => Some OP_LESSTHAN | xa0 => Some OP_GREATERTHAN
  | xa1 => Some OP_LESSTHANOREQUAL | xa2 => Some OP_GREATERTHANOREQUAL | xa3 => Some OP_MIN
  | xa4 => Some OP_MAX | xa5 => Some OP_WITHIN | xa6 => Some OP_RIPEMD160
  | xa7 => Some OP_SHA1 | xa8 => Some OP_SHA256 | xa9 => Some OP_HASH160
  | xaa => Some OP_HASH256 | xab => Some OP_CODESEPARATOR | xac => Some OP_CHECKSIG
  | xad => Some OP_CHECKSIGVERIFY | xae => Some OP_CHECKMULTISIG | xaf => Some OP_CHECKMULTISIGVERIFY
  | xba => Some OP_CHECKSIGADD
  | _ => None
  end.

(** [Ordinary::with]: [None] is its [unreachable!]. *)
Definition with_opcode (b : byte) : option Ordinary := from_opcode b.

End Ordinary.

(** The codes tell ordinary opcodes apart. *)
Lemma from_opcode_to_u8 o : Ordinary.from_opcode (Ordinary.to_u8 o) = Some o.
Proof. by destruct o. Qed.

#[export] Instance ordinary_eq_dec : EqDecision Ordinary.Ordinary.
Proof.
  refine (λ x y, cast_if (decide (Ordinary.to_u8 x = Ordinary.to_u8 y))); [|abstract congruence].
  abstract (apply (inj Some); rewrite <- !from_opcode_to_u8; congruence).
Defined.

(** ** Classification *)

Inductive ClassifyContext := TapScript | Legacy.

Inductive Class :=
| PushNum (n : Z)
| PushBytesClass (n : Z)
| ReturnOp
| SuccessOp
| IllegalOp
| NoOp
| OrdinaryClass (o : Ordinary.Ordinary).

#[export] Instance context_eq_dec : EqDecision ClassifyContext.
Proof. solve_decision. Defined.
#[export] Instance class_eq_dec : EqDecision Class.
Proof. solve_decision. Defined.

Definition one_of (op : byte) (ops : list byte) : bool := existsb (Byte.eqb op) ops.

(** [lo <= op.code && op.code <= hi] *)
Definition within (lo op hi : byte) : bool :=
  (byte.unsigned lo <=? byte.unsigned op) && (byte.unsigned op <=? byte.unsigned hi).

(** [Opcode::classify]; [None] is the [unreachable!] of [Ordinary::with]. *)
Definition classify (op : byte) (ctx : ClassifyContext) : option Class :=
  let code := byte.unsigned op in
  let legacy := bool_decide (ctx = Legacy) in
  if one_of op [OP_VERIF; OP_VERNOTIF; OP_INVALIDOPCODE] then Some IllegalOp
  else if one_of op [OP_CAT; OP_SUBSTR; OP_LEFT; OP_RIGHT; OP_INVERT; OP_AND; OP_OR; OP_XOR;
                     OP_2MUL; OP_2DIV; OP_MUL; OP_DIV; OP_MOD; OP_LSHIFT; OP_RSHIFT] && legacy
  then Some IllegalOp
  else if negb legacy &&
          ((code =? 80) || (code =? 98) || ((126 <=? code) && (code <=? 129))
           || ((131 <=? code) && (code <=? 134)) || ((137 <=? code) && (code <=? 138))
           || ((141 <=? code) && (code <=? 142)) || ((149 <=? code) && (code <=? 153))
           || ((187 <=? code) && (code <=? 254)))
  then Some SuccessOp
  else if one_of op [OP_NOP] then Some NoOp
  else if within OP_NOP1 op OP_NOP10 then Some NoOp
  else if one_of op [OP_RETURN] then Some ReturnOp
  else if one_of op [OP_RESERVED; OP_RESERVED1; OP_RESERVED2; OP_VER] && legacy then Some ReturnOp
  else if legacy && (byte.unsigned OP_CHECKSIGADD <=? code) then Some ReturnOp
  else if one_of op [OP_CHECKMULTISIG; OP_CHECKMULTISIGVERIFY] && negb legacy then Some ReturnOp
  else if one_of op [OP_PUSHNUM_NEG1] then Some (PushNum (-1))
  else if within OP_PUSHNUM_1 op OP_PUSHNUM_16 then Some (PushNum (1 + code - byte.unsigned OP_PUSHNUM_1))
  else if code <=? byte.unsigned OP_PUSHBYTES_75 then Some (PushBytesClass code)
  else OrdinaryClass <$> Ordinary.with_opcode op.

(** [Opcode::decode_pushnum] *)
Definition decode_pushnum (op : byte) : option Z :=
  if within OP_PUSHNUM_1 op OP_PUSHNUM_16 then Some (byte.unsigned op - byte.unsigned OP_PUSHNUM_1 + 1)
  else None.

(** [opcode_to_verify] ([script/mod.rs]) *)
Definition opcode_to_verify (opcode : option byte) : option byte :=
  opcode ← opcode;
  if bool_decide (opcode = OP_EQUAL) then Some OP_EQUALVERIFY
  else if bool_decide (opcode = OP_NUMEQUAL) then Some OP_NUMEQUALVERIFY
  else if bool_decide (opcode = OP_CHECKSIG) then Some OP_CHECKSIGVERIFY
  else if bool_decide (opcode = OP_CHECKMULTISIG) then Some OP_CHECKMULTISIGVERIFY
  else None.

(** ** Lemmas *)

(** All 256 opcodes, in order. *)
Definition every_opcode : list byte := snd <$> all_opcodes.

Lemma every_opcode_complete op : op ∈ every_opcode.
Proof. apply (bool_decide_unpack (op ∈ every_opcode)). destruct op; vm_compute; exact I. Qed.

Lemma table_by_code : byte.unsigned <$> every_opcode = seqZ 0 256.
Proof. vm_compute. reflexivity. Qed.

Lemma classify_data_push op n :
  classify op Legacy = Some (PushBytesClass n) ↔ byte.unsigned op = n ∧ n <= 75.
Proof.
  split.
  - destruct op; vm_compute; intros [=]; subst; (split; [reflexivity|discriminate]).
  - intros [<- H]. destruct op; first [reflexivity|exfalso; by apply H].
Qed.

Lemma names_unique : NoDup (fst <$> all_opcodes).
Proof. apply (bool_decide_unpack (NoDup (fst <$> all_opcodes))). vm_compute. exact I. Qed.

Lemma display_find op name :
  opcode_display op = Some name → (name, op) ∈ all_opcodes.
Proof.
  unfold opcode_display. destruct (List.find _ _) as [[name' op']|] eqn:E; [|done]. cbn. intros [= ->].
  apply List.find_some in E as [Hin He%bool_decide_eq_true]. cbn in He. subst. by apply list_elem_of_In.
Qed.

(** ** The classes, by number *)

Definition in_ranges (rs : list (Z * Z)) (code : Z) : bool :=
  existsb (λ '(first, last), (first <=? code) && (code <=? last)) rs.

(** [OP_SUCCESSx] of BIP342. *)
Definition success_codes : list (Z * Z) :=
  [(80, 80); (98, 98); (126, 129); (131, 134); (137, 138); (141, 142); (149, 153); (187, 254)].
(** The opcodes disabled in 2010: splices, bit logic, doubling, [MUL] to [RSHIFT]. *)
Definition disabled_codes : list (Z * Z) := [(126, 129); (131, 134); (141, 142); (149, 153)].
(** [VERIF], [VERNOTIF] and the invalid opcode, illegal even when not executed. *)
Definition illegal_codes : list (Z * Z) := [(101, 102); (255, 255)].
(** [RESERVED], [VER] and [RESERVED1], [RESERVED2]. *)
Definition reserved_codes : list (Z * Z) := [(80, 80); (98, 98); (137, 138)].
(** [NOP], and [NOP1] to [NOP10] with the two lock times. *)
Definition no_op_codes : list (Z * Z) := [(97, 97); (176, 185)].
(** What has a meaning in both contexts: data pushes with a length, flow control, the
    stack, [SIZE], comparison, arithmetic, hashes and single signatures. *)
Definition ordinary_codes : list (Z * Z) :=
  [(76, 78); (99, 100); (103, 105); (107, 125); (130, 130); (135, 136); (139, 140); (143, 148); (154, 173)].

(** The class of a code, without an order of cases. *)
Definition in_class (ctx : ClassifyContext) (code : Z) (c : Class) : bool :=
  let legacy := bool_decide (ctx = Legacy) in
  match c with
  | PushBytesClass n => (code =? n) && in_ranges [(0, 75)] code
  | PushNum n => (code - 80 =? n) && in_ranges [(79, 79); (81, 96)] code
  | SuccessOp => negb legacy && in_ranges success_codes code
  | IllegalOp => in_ranges illegal_codes code || legacy && in_ranges disabled_codes code
  | NoOp => in_ranges no_op_codes code
  | ReturnOp => in_ranges [(106, 106)] code
                || (if legacy then in_ranges (reserved_codes ++ [(186, 254)]) code else in_ranges [(174, 175)] code)
  | OrdinaryClass o => (code =? byte.unsigned (Ordinary.to_u8 o)) &&
                       (in_ranges ordinary_codes code
                        || (if legacy then in_ranges [(174, 175)] code else in_ranges [(186, 186)] code))
  end.

Lemma classify_total op ctx : is_Some (classify op ctx).
Proof. destruct op, ctx; vm_compute; by eexists. Qed.

Lemma classify_in_class op ctx :
  match classify op ctx with Some c => in_class ctx (byte.unsigned op) c = true | None => False end.
Proof. destruct op, ctx; vm_compute; reflexivity. Qed.

(** The classes that a code may have. *)
Definition candidates (op : byte) : list Class :=
  [PushBytesClass (byte.unsigned op); PushNum (byte.unsigned op - 80); SuccessOp; IllegalOp; NoOp; ReturnOp]
  ++ match Ordinary.with_opcode op with Some o => [OrdinaryClass o] | None => [] end.

Lemma in_class_candidate ctx op c : in_class ctx (byte.unsigned op) c = true → c ∈ candidates op.
Proof.
  unfold candidates. destruct c as [n|n| | | | |o]; cbn [in_class app]; try (intros _; by repeat constructor).
  - intros [->%Z.eqb_eq _]%andb_true_iff. repeat constructor.
  - intros [->%Z.eqb_eq _]%andb_true_iff. repeat constructor.
  - intros [Ho%Z.eqb_eq _]%andb_true_iff. apply byte.unsigned_inj in Ho as ->.
    unfold Ordinary.with_opcode. rewrite from_opcode_to_u8. repeat constructor.
Qed.

Lemma candidates_classified op ctx :
  Forall (λ c, in_class ctx (byte.unsigned op) c = true → classify op ctx = Some c) (candidates op).
Proof. destruct op, ctx; repeat (constructor; [vm_compute; first [reflexivity|discriminate]|]); constructor. Qed.

(** An opcode has one class, that of its number. *)
Lemma in_class_classify op ctx c : classify op ctx = Some c ↔ in_class ctx (byte.unsigned op) c = true.
Proof.
  split.
  - pose proof (classify_in_class op ctx) as H. intros E. by rewrite E in H.
  - intros H. exact (proj1 (Forall_forall _ _) (candidates_classified op ctx) c (in_class_candidate _ _ _ H) H).
Qed.

Lemma decode_pushnum_class op ctx n :
  decode_pushnum op = Some n ↔ classify op ctx = Some (PushNum n) ∧ n ≠ -1.
Proof.
  rewrite in_class_classify. unfold decode_pushnum, within, in_class, in_ranges. cbn [existsb].
  change (byte.unsigned OP_PUSHNUM_1) with 81. change (byte.unsigned OP_PUSHNUM_16) with 96.
  destruct (_ && _) eqn:E; [split; [intros [= <-]; lia|intros H; f_equal; lia]|split; [done|lia]].
Qed.


Definition class_count (ctx : ClassifyContext) (c : Class → bool) : nat :=
  length (filter (λ op, from_option c false (classify op ctx) = true) every_opcode).

(** The counts in the comments of [classify] are off: they say 71 opcodes from
    [OP_CHECKSIGADD] on, and 61 and 60 ordinary ones. *)
Theorem class_counts :
  length (filter (λ op, byte.unsigned OP_CHECKSIGADD <= byte.unsigned op ∧ classify op Legacy = Some ReturnOp)
    every_opcode) = 69%nat ∧
  class_count Legacy (λ c, if c is OrdinaryClass _ then true else false) = 60%nat ∧
  class_count TapScript (λ c, if c is OrdinaryClass _ then true else false) = 59%nat.
Proof. split_and!; vm_compute; reflexivity. Qed.
