(* ===== verification/Script.v ===== *)
(** Scripts ([src/litecoin/src/blockdata/script/]): script numbers and the
    instruction iterators ([mod.rs], [instruction.rs]), the growing of scripts
    ([owned.rs], [push_bytes.rs]) and the [Builder] ([builder.rs]). *)

From Stdlib Require Import String ZArith Lia ZifyBool.
From stdpp Require Import base list.
From Stdlib Require Import Init.Byte.
From coqutil Require Import Byte Word.LittleEndianList.
From S2P Require Import Prelude Transaction Locktime Opcodes.

(** [Script] and [ScriptBuf] wrap their bytes. *)
Abbreviation script := (list byte) (only parsing).

Inductive ScriptError :=
| NonMinimalPush
| EarlyEndOfScript
| NumericOverflow
| UnknownSpentOutput (out : OutPoint)
| Serialization.

Inductive UintError := UintEarlyEndOfScript | UintNumericOverflow.

Definition script_error_of_uint (e : UintError) : ScriptError :=
  match e with
  | UintEarlyEndOfScript => EarlyEndOfScript
  | UintNumericOverflow => NumericOverflow
  end.

(** ** Script numbers *)

(** [out[len] = b; len += 1]: [out] holds the bytes written so far.  Past the end of
    the array of eight it panics. *)
Definition put (out : list byte) (b : Z) : option (list byte) :=
  if (length out <? 8)%nat then Some (out ++ [byte.of_Z b]) else None.

(** [while abs > 0xFF]; a [u64] has at most seven more bytes. *)
Fixpoint write_loop (fuel : nat) (abs : Z) (out : list byte) : option (Z * list byte) :=
  if 0xFF <? abs then
    match fuel with
    | O => None
    | S fuel =>
        out ← put out (Z.land abs 0xFF);
        write_loop fuel (Z.shiftr abs 8) out
    end
  else Some (abs, out).

(** [write_scriptint]: the bytes written. *)
Definition write_scriptint (n : Z) : option (list byte) :=
  if n =? 0 then Some []
  else
    let neg := n <? 0 in
    '(abs, out) ← write_loop 7 (Z.abs n) [];
    if negb (Z.land abs 0x80 =? 0) then
      out ← put out abs;
      put out (if neg then 0x80 else 0)
    else put out (Z.lor abs (if neg then 0x80 else 0)).

(** On at most four bytes nothing overflows the [i64]. *)
Definition scriptint_parse (v : list byte) : Z :=
  let '(ret, sh) := foldl (λ '(acc, sh) n, (acc + Z.shiftl (byte.unsigned n) sh, sh + 8)) (0, 0) v in
  if negb (Z.land (byte.unsigned (List.last v x00)) 0x80 =? 0)
  then - Z.land ret (Z.shiftl 1 (sh - 1) - 1)
  else ret.

Definition read_scriptint (v : list byte) : result ScriptError Z :=
  match last v with
  | None => Ok 0
  | Some l =>
      if (4 <? length v)%nat then Err NumericOverflow
      else if (Z.land (byte.unsigned l) 0x7f =? 0)
              && ((length v <=? 1)%nat
                  || (Z.land (byte.unsigned (nth (length v - 2) v x00)) 0x80 =? 0))
      then Err NonMinimalPush
      else Ok (scriptint_parse v)
  end.

Definition read_scriptint_non_minimal (v : list byte) : result ScriptError Z :=
  match v with
  | [] => Ok 0
  | _ => if (4 <? length v)%nat then Err NumericOverflow else Ok (scriptint_parse v)
  end.

Definition read_scriptbool (v : list byte) : bool :=
  match last v with
  | Some l =>
      negb ((Z.land (byte.unsigned l) (Z.lnot 0x80) =? 0)
            && forallb (λ b, byte.unsigned b =? 0) (take (length v - 1) v))
  | None => false
  end.

(** The loop of [read_uint_iter]: [i] bytes are read, [size] remain. *)
Fixpoint read_uint_loop (size : nat) (i ret : Z) (data : list byte) : result UintError Z * list byte :=
  match size, data with
  | S size, item :: data =>
      if i * 8 <? 64 then
        let ret' := uwrap 64 (Z.shiftl (byte.unsigned item) (i * 8)) + ret in
        if ret' <? 2 ^ 64 then read_uint_loop size (i + 1) ret' data
        else (Err UintNumericOverflow, data)
      else (Err UintNumericOverflow, data)
  | _, _ => (Ok ret, data)
  end.

Definition read_uint_iter (data : list byte) (size : nat) : result UintError Z * list byte :=
  if (length data <? size)%nat then (Err UintEarlyEndOfScript, data)
  else if U16_MAX / 8 <? Z.of_nat size then (Err UintNumericOverflow, data)
  else read_uint_loop size 0 0 data.

(** ** Pushed data *)

(** [PushBytes] is a byte slice below [2 ^ 32] bytes; the error holds the length. *)
Definition check_limit (len : Z) : result Z unit :=
  if len <? 0x100000000 then Ok tt else Err len.

Definition push_bytes_try_from (bytes : list byte) : result Z (list byte) :=
  let? _ := check_limit (Z.of_nat (length bytes)) in Ok bytes.

(** [PushBytesBuf]: the operations that can take it over the limit. *)
Definition pbb_push (buf : list byte) (b : byte) : result Z (list byte) :=
  let? _ := check_limit (Z.min (Z.of_nat (length buf) + 1) U64_MAX) in Ok (buf ++ [b]).

Definition pbb_extend_from_slice (buf bytes : list byte) : result Z (list byte) :=
  let? _ := check_limit (Z.min (Z.of_nat (length buf) + Z.of_nat (length bytes)) U64_MAX) in
  Ok (buf ++ bytes).

(** ** Instructions *)

Inductive Instruction :=
| PushBytes (bytes : list byte)
| Op (op : byte).

#[export] Instance instruction_eq_dec : EqDecision Instruction.
Proof. solve_decision. Defined.

Definition instruction_opcode (i : Instruction) : option byte :=
  match i with Op op => Some op | PushBytes _ => None end.

Definition instruction_push_bytes (i : Instruction) : option (list byte) :=
  match i with Op _ => None | PushBytes bytes => Some bytes end.

Definition script_num (i : Instruction) : option Z :=
  match i with
  | Op op =>
      let v := byte.unsigned op in
      if (0x51 <=? v) && (v <=? 0x60) then Some (v - 0x50)
      else if v =? 0x4f then Some (-1)
      else None
  | PushBytes bytes =>
      match read_scriptint_non_minimal bytes with Ok n => Some n | Err _ => None end
  end.

(** The iterator: the bytes still to be read. *)
Record Instructions := { data : list byte; enforce_minimal : bool }.

Definition with_data (self : Instructions) (d : list byte) : Instructions :=
  {| data := d; enforce_minimal := enforce_minimal self |}.

(** [self.data.nth(n)] *)
Definition data_nth (self : Instructions) (n : nat) : Instructions := with_data self (drop (S n) (data self)).

Definition kill (self : Instructions) : Instructions :=
  data_nth self (Nat.max (length (data self)) 1 - 1).

(** A call on the iterator: its result, if any, and the iterator after it. *)
Abbreviation item := (result ScriptError Instruction) (only parsing).

Definition take_slice_or_kill (self : Instructions) (len : Z) : result ScriptError (list byte) * Instructions :=
  let len := Z.to_nat len in
  if (len <=? length (data self))%nat then
    let slice := take len (data self) in
    (Ok slice, if (0 <? len)%nat then data_nth self (len - 1) else self)
  else (Err EarlyEndOfScript, kill self).

Definition map_push (r : result ScriptError (list byte) * Instructions) : option item * Instructions :=
  match r with
  | (Ok bytes, self) => (Some (Ok (PushBytes bytes)), self)
  | (Err e, self) => (Some (Err e), self)
  end.

Definition next_push_data_len (self : Instructions) (len : nat) (min_push_len : Z) : option item * Instructions :=
  match read_uint_iter (data self) len with
  | (Ok n, rest) =>
      let self := with_data self rest in
      if enforce_minimal self && (n <? min_push_len) then (Some (Err NonMinimalPush), kill self)
      else if U32_MAX <? n then (Some (Err NumericOverflow), self)
      else map_push (take_slice_or_kill self n)
  | (Err _, rest) => (Some (Err EarlyEndOfScript), kill (with_data self rest))
  end.

(** [Instructions::next] *)
Definition next (self : Instructions) : option item * Instructions :=
  match data self with
  | [] => (None, self)
  | b :: rest =>
      let self := with_data self rest in
      match classify b Legacy with
      | Some (PushBytesClass n) =>
          match enforce_minimal self, rest with
          | true, op_byte :: _ =>
              let op_byte := byte.unsigned op_byte in
              if (n =? 1) && ((op_byte =? 0x81) || ((0 <? op_byte) && (op_byte <=? 16)))
              then (Some (Err NonMinimalPush), kill self)
              else map_push (take_slice_or_kill self n)
          | _, [] =>
              if n =? 0 then (Some (Ok (PushBytes [])), self)
              else map_push (take_slice_or_kill self n)
          | _, _ => map_push (take_slice_or_kill self n)
          end
      | Some (OrdinaryClass Ordinary.OP_PUSHDATA1) => next_push_data_len self 1 76
      | Some (OrdinaryClass Ordinary.OP_PUSHDATA2) => next_push_data_len self 2 0x100
      | Some (OrdinaryClass Ordinary.OP_PUSHDATA4) => next_push_data_len self 4 0x10000
      | _ => (Some (Ok (Op b)), self)
      end
  end.

(** What a [for] loop sees: the items of at most [fuel] calls. *)
Fixpoint iterate (fuel : nat) (self : Instructions) : list item :=
  match fuel with
  | O => []
  | S fuel =>
      match next self with
      | (Some i, self) => i :: iterate fuel self
      | (None, _) => []
      end
  end.

Definition instructions_iter (s : script) : Instructions := {| data := s; enforce_minimal := false |}.
Definition instructions_minimal_iter (s : script) : Instructions := {| data := s; enforce_minimal := true |}.

(** There are no more items than bytes. *)
Definition items (self : Instructions) : list item := iterate (length (data self)) self.
Definition instructions (s : script) : list item := items (instructions_iter s).
Definition instructions_minimal (s : script) : list item := items (instructions_minimal_iter s).

(** [Instructions::size_hint] *)
Definition size_hint (self : Instructions) : Z * option Z :=
  if (length (data self) =? 0)%nat then (0, Some 0) else (1, Some (Z.of_nat (length (data self)))).

(** [InstructionIndices] *)
Record InstructionIndices := { inner : Instructions; pos : Z }.

Definition from_instructions (i : Instructions) : InstructionIndices := {| inner := i; pos := 0 |}.
Definition remaining_bytes (self : InstructionIndices) : Z := Z.of_nat (length (data (inner self))).

Definition next_with (next_fn : Instructions → option item * Instructions) (self : InstructionIndices)
    : option (result ScriptError (Z * Instruction)) * InstructionIndices :=
  let prev_remaining := remaining_bytes self in
  let prev_pos := pos self in
  match next_fn (inner self) with
  | (None, i) => (None, {| inner := i; pos := pos self |})
  | (Some instruction, i) =>
      let self := {| inner := i; pos := pos self |} in
      let consumed := prev_remaining - remaining_bytes self in
      (Some (let? ins := instruction in Ok (prev_pos, ins)),
       {| inner := i; pos := pos self + consumed |})
  end.

Definition indices_next (self : InstructionIndices) := next_with next self.

Fixpoint indices_iterate (fuel : nat) (self : InstructionIndices) : list (result ScriptError (Z * Instruction)) :=
  match fuel with
  | O => []
  | S fuel =>
      match indices_next self with
      | (Some i, self) => i :: indices_iterate fuel self
      | (None, _) => []
      end
  end.

Definition instruction_indices (s : script) : list (result ScriptError (Z * Instruction)) :=
  indices_iterate (length s) (from_instructions (instructions_iter s)).

Definition first_opcode (s : script) : option byte := head s.

Definition last_opcode (s : script) : option byte :=
  match last (instructions s) with Some (Ok (Op op)) => Some op | _ => None end.

Definition last_pushdata (s : script) : option (list byte) :=
  match last (instructions s) with Some (Ok (PushBytes bytes)) => Some bytes | _ => None end.

(** ** Growing scripts *)

Definition reserved_len_for_slice (len : Z) : Z :=
  len + (if len <=? 0x4b then 1 else if len <=? 0xff then 2 else if len <=? 0xffff then 3 else 5).

Definition script_serialized_len (i : Instruction) : Z :=
  match i with Op _ => 1 | PushBytes bytes => reserved_len_for_slice (Z.of_nat (length bytes)) end.

Definition push_opcode (s : script) (op : byte) : script := s ++ [op].

(** [push_slice_no_opt]; [None] is its panic, which the type [PushBytes] rules out. *)
Definition push_slice_no_opt (s : script) (bytes : list byte) : option script :=
  let n := Z.of_nat (length bytes) in
  prefix ←
    (if n <? byte.unsigned (Ordinary.to_u8 Ordinary.OP_PUSHDATA1) then Some [byte.of_Z n]
     else if n <? 0x100 then Some [Ordinary.to_u8 Ordinary.OP_PUSHDATA1; byte.of_Z n]
     else if n <? 0x10000 then
       Some [Ordinary.to_u8 Ordinary.OP_PUSHDATA2; byte.of_Z (n mod 0x100); byte.of_Z (n / 0x100)]
     else if n <? 0x100000000 then
       Some [Ordinary.to_u8 Ordinary.OP_PUSHDATA4; byte.of_Z (n mod 0x100);
             byte.of_Z ((n / 0x100) mod 0x100); byte.of_Z ((n / 0x10000) mod 0x100);
             byte.of_Z (n / 0x1000000)]
     else None);
  Some (s ++ prefix ++ bytes).

(** [push_slice] reserves capacity first, which does not show. *)
Definition push_slice (s : script) (bytes : list byte) : option script := push_slice_no_opt s bytes.

Definition push_instruction (s : script) (i : Instruction) : option script :=
  match i with Op op => Some (push_opcode s op) | PushBytes bytes => push_slice s bytes end.

Definition push_instruction_no_opt (s : script) (i : Instruction) : option script :=
  match i with Op op => Some (push_opcode s op) | PushBytes bytes => push_slice_no_opt s bytes end.

(** [ScriptBuf::extend] over an iterator of [iter] with the upper bound [max] as its
    size hint: up to five instructions are gathered first, and a wrong hint panics. *)
Definition extend (s : script) (iter : list Instruction) (max : option Z) : option script :=
  if from_option (λ max, max <? 6) false max then
    if (length iter <=? 5)%nat then foldl (λ s i, s ≫= λ s, push_instruction_no_opt s i) (Some s) iter
    else None
  else foldl (λ s i, s ≫= λ s, push_instruction s i) (Some s) iter.

(** [ScriptBuf::push_verify]; [Vec::pop] on an empty vector does nothing. *)
Definition push_verify (s : script) (last_opcode : option byte) : script :=
  match opcode_to_verify last_opcode with
  | Some opcode => push_opcode (take (length s - 1) s) opcode
  | None => push_opcode s OP_VERIFY
  end.

Definition scan_and_push_verify (s : script) : script := push_verify s (last_opcode s).

(** ** The builder *)

Module Builder.

Record Builder := { script_buf : script; last_op : option byte }.

Definition new : Builder := {| script_buf := []; last_op := None |}.

(** [impl From<Vec<u8>> for Builder] *)
Definition from (v : script) : Builder := {| script_buf := v; last_op := last_opcode v |}.

Definition push_opcode (self : Builder) (op : byte) : Builder :=
  {| script_buf := push_opcode (script_buf self) op; last_op := Some op |}.

Definition push_slice (self : Builder) (bytes : list byte) : option Builder :=
  s ← push_slice (script_buf self) bytes;
  Some {| script_buf := s; last_op := None |}.

Definition push_int_non_minimal (self : Builder) (n : Z) : option Builder :=
  buf ← write_scriptint n;
  push_slice self buf.

Definition push_int (self : Builder) (n : Z) : option Builder :=
  if (n =? -1) || ((1 <=? n) && (n <=? 16)) then
    Some (push_opcode self (byte.of_Z (uwrap 8 (n - 1 + byte.unsigned OP_TRUE))))
  else if n =? 0 then Some (push_opcode self OP_0)
  else push_int_non_minimal self n.

Definition push_verify (self : Builder) : Builder :=
  match opcode_to_verify (last_op self) with
  | Some opcode =>
      push_opcode {| script_buf := take (length (script_buf self) - 1) (script_buf self); last_op := last_op self |}
        opcode
  | None => push_opcode self OP_VERIFY
  end.

(** Public keys are given by their serialised bytes. *)
Definition push_key (self : Builder) (compressed : bool) (serialized serialized_uncompressed : list byte)
    : option Builder :=
  if compressed then push_slice self serialized else push_slice self serialized_uncompressed.

Definition push_lock_time (self : Builder) (lock_time : Absolute.LockTime) : option Builder :=
  push_int self (Absolute.to_consensus_u32 lock_time).

Definition push_sequence (self : Builder) (sequence : Z) : option Builder := push_int self sequence.

Definition into_script (self : Builder) : script := script_buf self.

End Builder.

(** ** Script numbers are sign and magnitude *)

(** The magnitude of the number with low bytes [u] and last byte [l], and its value. *)
Definition magnitude (u : list byte) (l : byte) : Z :=
  le_combine u + byte.unsigned l mod 128 * 2 ^ (8 * Z.of_nat (length u)).
Definition number (u : list byte) (l : byte) : Z :=
  if 128 <=? byte.unsigned l then - magnitude u l else magnitude u l.

(** No shorter string has the value: the last byte is more than a sign, or it keeps
    the top bit of the byte before from being one. *)
Definition minimal (u : list byte) (l : byte) : Prop :=
  byte.unsigned l mod 128 ≠ 0 ∨ ∃ u' c, u = u' ++ [c] ∧ 128 <= byte.unsigned c.

Definition number_encoded (n : Z) (v : list byte) : Prop :=
  (n = 0 ∧ v = []) ∨ ∃ u l, v = u ++ [l] ∧ number u l = n ∧ minimal u l.

Lemma land_sign b : Z.land (byte.unsigned b) 0x80 = if 128 <=? byte.unsigned b then 128 else 0.
Proof. by destruct b. Qed.
Lemma land_low b : Z.land (byte.unsigned b) 0x7f = byte.unsigned b mod 128.
Proof. by destruct b. Qed.
Lemma land_not_sign b : Z.land (byte.unsigned b) (Z.lnot 0x80) = byte.unsigned b mod 128.
Proof. by destruct b. Qed.
Lemma lor_sign b : byte.unsigned b < 128 → Z.lor (byte.unsigned b) 0x80 = byte.unsigned b + 128.
Proof. destruct b; (reflexivity || (intros H; by apply Z.ltb_lt in H)). Qed.

Lemma land_sign_Z a : urange 8 a → Z.land a 0x80 = if 128 <=? a then 128 else 0.
Proof. intros Ha. rewrite <- (byte_of_Z_u a Ha). apply land_sign. Qed.
Lemma lor_sign_Z a : 0 <= a < 128 → Z.lor a 0x80 = a + 128.
Proof.
  intros Ha. assert (byte.unsigned (byte.of_Z a) = a) as E by (apply byte_of_Z_u; unfold urange; lia).
  rewrite <- E. apply lor_sign. lia.
Qed.

Lemma parse_fold v acc sh :
  0 <= sh →
  foldl (λ '(acc, sh) n, (acc + Z.shiftl (byte.unsigned n) sh, sh + 8)) (acc, sh) v
  = (acc + le_combine v * 2 ^ sh, sh + 8 * Z.of_nat (length v)).
Proof.
  revert acc sh. induction v as [|b v IH]; intros acc sh Hsh; cbn [foldl length].
  - change (le_combine []) with 0. f_equal; lia.
  - rewrite IH, le_combine_cons, Z.shiftl_mul_pow2 by lia. f_equal; [|lia].
    rewrite (Z.pow_add_r 2 sh 8) by lia. ring.
Qed.

Lemma le_combine_snoc u l :
  le_combine (u ++ [l]) = le_combine u + byte.unsigned l * 2 ^ (8 * Z.of_nat (length u)).
Proof. by rewrite le_combine_app_add, le_combine_one. Qed.

Lemma scriptint_parse_number u l : scriptint_parse (u ++ [l]) = number u l.
Proof.
  unfold scriptint_parse, number, magnitude. rewrite parse_fold by lia. rewrite List.last_last.
  rewrite land_sign, length_app. cbn [length]. rewrite Z.add_0_l, Z.mul_1_r, le_combine_snoc.
  pose proof (le_combine_range u) as Hu. pose proof (urange_byte l) as Hl. unfold urange in *.
  set (k := 8 * Z.of_nat (length u)) in *. assert (0 < 2 ^ k) by lia.
  destruct (Z.leb_spec 128 (byte.unsigned l)); cbn [negb Z.eqb].
  - f_equal. replace (0 + 8 * _ - 1) with (k + 7) by lia.
    rewrite Z.shiftl_1_l, <- Z.sub_1_r, <- Z.ones_equiv || rewrite Z.shiftl_1_l.
    replace (2 ^ (k + 7) - 1) with (Z.ones (k + 7)) by (rewrite Z.ones_equiv; lia).
    rewrite Z.land_ones by lia. rewrite Z.pow_add_r by lia. symmetry. apply (Z.mod_unique _ _ 1); [|].
    + left. pose proof (Z.mod_pos_bound (byte.unsigned l) 128). nia.
    + assert (byte.unsigned l mod 128 = byte.unsigned l - 128) as ->
        by (symmetry; apply (Z.mod_unique _ _ 1); lia). lia.
  - rewrite Z.mod_small by lia. done.
Qed.

Lemma number_abs u l : Z.abs (number u l) = magnitude u l.
Proof.
  unfold number. assert (0 <= magnitude u l).
  { unfold magnitude. pose proof (le_combine_range u). unfold urange in *.
    pose proof (Z.mod_pos_bound (byte.unsigned l) 128). nia. }
  destruct (_ <=? _); lia.
Qed.

(** The length of a minimal encoding follows from the magnitude. *)
Lemma minimal_bounds u l :
  minimal u l →
  2 ^ (8 * Z.of_nat (length u)) <= 2 * magnitude u l ∧
  0 < magnitude u l < 2 ^ (8 * Z.of_nat (length u) + 7).
Proof.
  unfold magnitude. intros Hm. pose proof (le_combine_range u) as Hu. unfold urange in Hu.
  pose proof (Z.mod_pos_bound (byte.unsigned l) 128 ltac:(lia)) as Hl. rewrite Z.pow_add_r by lia.
  change (2 ^ 7) with 128. destruct Hm as [Hm|(u' & c & -> & Hc)].
  - set (k := 8 * Z.of_nat (length u)) in *. assert (0 < 2 ^ k) by lia. nia.
  - rewrite le_combine_snoc, length_app in *. cbn [length] in *.
    replace (8 * Z.of_nat (length u' + 1)) with (8 * Z.of_nat (length u') + 8) in * by lia.
    rewrite Z.pow_add_r in * by lia. change (2 ^ 8) with 256 in *.
    pose proof (le_combine_range u') as Hu'. unfold urange in *.
    set (k := 8 * Z.of_nat (length u')) in *. assert (0 < 2 ^ k) by lia. nia.
Qed.

Lemma minimal_length u l v m :
  minimal u l → minimal v m → magnitude u l = magnitude v m → (length u <= length v)%nat.
Proof.
  intros [H1 _]%minimal_bounds [_ H2]%minimal_bounds E. rewrite E in H1.
  destruct (Nat.le_gt_cases (length u) (length v)) as [|Hlt]; [done|exfalso].
  assert (2 ^ (8 * Z.of_nat (length v) + 8) <= 2 ^ (8 * Z.of_nat (length u)))
    by (apply Z.pow_le_mono_r; lia).
  assert (2 ^ (8 * Z.of_nat (length v) + 8) = 2 * 2 ^ (8 * Z.of_nat (length v) + 7))
    by (rewrite <- Z.pow_succ_r by lia; f_equal; lia).
  lia.
Qed.

Lemma number_encoded_inj n v w : number_encoded n v → number_encoded n w → v = w.
Proof.
  intros [[-> ->]|(u & l & -> & Hn & Hm)] [[? ->]|(u' & l' & -> & Hn' & Hm')]; subst.
  - done.
  - pose proof (number_abs u' l') as Ha. rewrite Hn' in Ha. apply minimal_bounds in Hm'. lia.
  - pose proof (number_abs u l) as Ha. apply minimal_bounds in Hm. lia.
  - pose proof (number_abs u l) as Ha. rewrite <- Hn', number_abs in Ha.
    assert (length u = length u') as Hlen.
    { apply Nat.le_antisymm; eapply minimal_length; eauto. }
    unfold number in Hn'. pose proof (minimal_bounds u l Hm). pose proof (minimal_bounds u' l' Hm').
    unfold magnitude in *. rewrite <- Hlen in *.
    pose proof (le_combine_range u) as Hu. pose proof (le_combine_range u') as Hu'. rewrite <- Hlen in Hu'.
    unfold urange in *. set (k := 8 * Z.of_nat (length u)) in *. assert (0 < 2 ^ k) by lia.
    assert (byte.unsigned l mod 128 = byte.unsigned l' mod 128) as Emod by nia.
    assert (le_combine u = le_combine u') as Elow by (rewrite Emod in Ha; lia).
    assert (u = u') as -> by (rewrite <- (le_split_le_combine _ u eq_refl), Elow, Hlen; by apply le_split_le_combine).
    do 2 f_equal. apply byte.unsigned_inj.
    pose proof (urange_byte l). pose proof (urange_byte l'). unfold urange, number, magnitude in *.
    pose proof (Z.div_mod (byte.unsigned l) 128). pose proof (Z.div_mod (byte.unsigned l') 128).
    destruct (Z.leb_spec 128 (byte.unsigned l)), (Z.leb_spec 128 (byte.unsigned l')); try lia.
Qed.

Lemma put_ok out b : (length out < 8)%nat → put out b = Some (out ++ [byte.of_Z b]).
Proof. intros. unfold put. by rewrite (proj2 (Nat.ltb_lt _ _)). Qed.

(** The loop writes the low bytes and leaves the top one. *)
Lemma write_loop_ok fuel abs out :
  0 < abs < 2 ^ (8 * (Z.of_nat fuel + 1)) → (length out + fuel <= 8)%nat →
  ∃ u a, write_loop fuel abs out = Some (a, out ++ u) ∧ 0 < a < 256 ∧ (length u <= fuel)%nat ∧
    abs = le_combine u + a * 2 ^ (8 * Z.of_nat (length u)).
Proof.
  revert abs out. induction fuel as [|fuel IH]; intros abs out Habs Hlen; cbn [write_loop];
    destruct (Z.ltb_spec 0xff abs) as [Hgt|Hle].
  - change (2 ^ (8 * (Z.of_nat 0 + 1))) with 256 in Habs. lia.
  - exists [], abs. rewrite app_nil_r. split_and!; [done|lia|lia|cbn; lia|change (abs = 0 + abs * 1); lia].
  - rewrite put_ok by lia. cbn [mbind option_bind].
    rewrite byte_of_Z_land255. rewrite Z.shiftr_div_pow2 by lia.
    replace (8 * (Z.of_nat (S fuel) + 1)) with (8 * (Z.of_nat fuel + 1) + 8) in Habs by lia.
    rewrite Z.pow_add_r in Habs by lia. change (2 ^ 8) with 256 in *.
    destruct (IH (abs / 256) (out ++ [byte.of_Z abs])) as (u & a & -> & Ha & Hu & E).
    + split; [apply Z.div_str_pos; lia|apply Z.div_lt_upper_bound; lia].
    + rewrite length_app. cbn. lia.
    + exists (byte.of_Z abs :: u), a. rewrite <- app_assoc. cbn [app length].
      split_and!; [done|lia|lia|lia|].
      rewrite le_combine_cons, byte.unsigned_of_Z. unfold byte.wrap. change (2 ^ 8) with 256.
      replace (8 * Z.of_nat (S (length u))) with (8 * Z.of_nat (length u) + 8) by lia.
      rewrite Z.pow_add_r by lia. change (2 ^ 8) with 256.
      rewrite (Z.div_mod abs 256) at 1 by lia. rewrite E. ring.
  - exists [], abs. rewrite app_nil_r. split_and!; [done|lia|lia|cbn; lia|change (abs = 0 + abs * 1); lia].
Qed.

Lemma number_low u a :
  0 < a < 128 →
  let m := le_combine u + a * 2 ^ (8 * Z.of_nat (length u)) in
  number u (byte.of_Z a) = m ∧ number u (byte.of_Z (a + 128)) = - m ∧
  minimal u (byte.of_Z a) ∧ minimal u (byte.of_Z (a + 128)).
Proof.
  intros Ha. cbv zeta. unfold number, magnitude, minimal. rewrite !byte_of_Z_u by (unfold urange; lia).
  assert ((a + 128) mod 128 = a) as -> by (symmetry; apply (Z.mod_unique _ _ 1); lia).
  rewrite (Z.mod_small a) by lia.
  destruct (Z.leb_spec 128 a), (Z.leb_spec 128 (a + 128)); lia.
Qed.

Lemma number_sign u (a : Z) (s : bool) :
  128 <= a < 256 →
  let m := le_combine u + a * 2 ^ (8 * Z.of_nat (length u)) in
  number (u ++ [byte.of_Z a]) (byte.of_Z (if s then 128 else 0)) = (if s then - m else m) ∧
  minimal (u ++ [byte.of_Z a]) (byte.of_Z (if s then 128 else 0)).
Proof.
  intros Ha. cbv zeta. unfold number, magnitude, minimal. rewrite le_combine_snoc.
  rewrite (byte_of_Z_u a) by (unfold urange; lia). split.
  - destruct s; rewrite byte_of_Z_u by (unfold urange; lia).
    + change (128 <=? 128) with true. change (128 mod 128) with 0. cbv iota. lia.
    + change (128 <=? 0) with false. change (0 mod 128) with 0. cbv iota. lia.
  - right. exists u, (byte.of_Z a). rewrite byte_of_Z_u by (unfold urange; lia). split; [done|lia].
Qed.

Lemma write_scriptint_encodes n :
  - 2 ^ 63 < n < 2 ^ 63 → ∃ v, write_scriptint n = Some v ∧ number_encoded n v.
Proof.
  intros Hn. unfold write_scriptint. destruct (Z.eqb_spec n 0) as [->|Hnz]; [exists []; split; [done|by left]|].
  destruct (write_loop_ok 7 (Z.abs n) []) as (u & a & -> & Ha & Hu & E); [lia|cbn; lia|].
  cbn [mbind option_bind app]. rewrite land_sign_Z by (unfold urange; lia).
  destruct (Z.leb_spec 128 a) as [Hs|Hs]; cbn [negb Z.eqb].
  - assert (length u < 7)%nat as Hu'.
    { destruct (Nat.lt_ge_cases (length u) 7) as [|Hge]; [done|exfalso].
      assert (2 ^ 56 <= 2 ^ (8 * Z.of_nat (length u))) by (apply Z.pow_le_mono_r; lia).
      pose proof (le_combine_range u). unfold urange in *. nia. }
    rewrite put_ok by lia. cbn [mbind option_bind]. rewrite put_ok by (rewrite length_app; cbn; lia).
    destruct (number_sign u a (n <? 0) ltac:(lia)) as [En Hmin]. cbv zeta in *.
    eexists. split; [done|]. right. eexists _, _. split; [done|]. split; [|done].
    rewrite En, <- E. destruct (Z.ltb_spec n 0); lia.
  - rewrite put_ok by lia. eexists. split; [done|]. right. eexists _, _. split; [done|].
    destruct (number_low u a ltac:(lia)) as (E1 & E2 & M1 & M2). cbv zeta in *.
    destruct (Z.ltb_spec n 0).
    + rewrite lor_sign_Z by lia. split; [lia|done].
    + rewrite Z.lor_0_r. split; [lia|done].
Qed.

Lemma read_scriptint_snoc u l :
  read_scriptint (u ++ [l])
  = if (4 <? length u + 1)%nat then Err NumericOverflow
    else if bool_decide (byte.unsigned l mod 128 ≠ 0) || (128 <=? byte.unsigned (List.last u x00))
    then Ok (number u l) else Err NonMinimalPush.
Proof.
  unfold read_scriptint. rewrite last_snoc, length_app, land_low, scriptint_parse_number. cbn [length].
  destruct (_ <? _)%nat; [done|].
  assert (((length u + 1 <=? 1)%nat || (Z.land (byte.unsigned (nth (length u + 1 - 2) (u ++ [l]) x00)) 0x80 =? 0))
    = negb (128 <=? byte.unsigned (List.last u x00))) as ->.
  { rewrite land_sign. destruct u as [|c u _] using rev_ind; [done|].
    rewrite List.last_last, length_app. cbn [length].
    replace (length u + 1 + 1 - 2)%nat with (length u) by lia.
    rewrite <- app_assoc, List.app_nth2, Nat.sub_diag by lia. cbn [nth app].
    destruct (Nat.leb_spec (length u + 1 + 1) 1); [lia|]. by destruct (_ <=? _). }
  destruct (Z.eqb_spec (byte.unsigned l mod 128) 0) as [E|E].
  - rewrite bool_decide_eq_false_2 by (intros H; by apply H). cbn. by destruct (_ <=? _).
  - by rewrite bool_decide_eq_true_2.
Qed.

Lemma minimal_decide u l :
  minimal u l ↔ bool_decide (byte.unsigned l mod 128 ≠ 0) || (128 <=? byte.unsigned (List.last u x00)) = true.
Proof.
  unfold minimal. rewrite orb_true_iff, bool_decide_eq_true, Z.leb_le. apply or_iff_compat_l.
  split; [intros (u' & c & -> & Hc); by rewrite List.last_last|].
  destruct u as [|c u _] using rev_ind; [done|]. rewrite List.last_last. eauto.
Qed.

(** What is read is what is encoded, up to four bytes. *)
Lemma read_scriptint_spec v n :
  read_scriptint v = Ok n ↔ number_encoded n v ∧ (length v <= 4)%nat.
Proof.
  destruct v as [|l u _] using rev_ind.
  - cbn. split; [intros [= <-]; split; [by left|lia]|].
    intros [[[-> _]|(u & l & E & _)] _]; [done|by destruct u].
  - rewrite read_scriptint_snoc, length_app. cbn [length]. destruct (Nat.ltb_spec 4 (length u + 1)).
    { split; [done|lia]. }
    pose proof (minimal_decide u l) as Hd. destruct (_ || _).
    + split.
      * intros [= <-]. split; [right; exists u, l; split_and!; [done|done|by apply Hd]|done].
      * intros [[[-> E]|(u' & l' & [<- [= <-]]%app_inj_tail & <- & _)] _]; [by destruct u|done].
    + split; [done|]. intros [[[-> E]|(u' & l' & [<- [= <-]]%app_inj_tail & <- & Hm)] _]; [by destruct u|].
      by apply Hd in Hm.
Qed.

(** ** One call of the iterator *)

(** The call as a function of the first byte and the rest: the item and what is left. *)
Definition push_at (n : Z) (rest : list byte) : item * list byte :=
  if n <=? Z.of_nat (length rest)
  then (Ok (PushBytes (take (Z.to_nat n) rest)), drop (Z.to_nat n) rest)
  else (Err EarlyEndOfScript, []).

Definition push_data (m : bool) (k : nat) (min_len : Z) (rest : list byte) : item * list byte :=
  if (length rest <? k)%nat then (Err EarlyEndOfScript, [])
  else
    let n := le_combine (take k rest) in
    if m && (n <? min_len) then (Err NonMinimalPush, []) else push_at n (drop k rest).

(** One byte that [OP_1NEGATE] or [OP_1] to [OP_16] would push. *)
Definition has_opcode (b : byte) : bool :=
  (byte.unsigned b =? 0x81) || ((0 <? byte.unsigned b) && (byte.unsigned b <=? 16)).

Definition parse_one (m : bool) (b : byte) (rest : list byte) : item * list byte :=
  let c := byte.unsigned b in
  if c <=? 75 then
    if m && (c =? 1) && from_option has_opcode false (head rest) then (Err NonMinimalPush, [])
    else push_at c rest
  else if c =? 76 then push_data m 1 76 rest
  else if c =? 77 then push_data m 2 0x100 rest
  else if c =? 78 then push_data m 4 0x10000 rest
  else (Ok (Op b), rest).

Lemma kill_eq self : kill self = with_data self [].
Proof.
  unfold kill, data_nth. f_equal. apply drop_ge. lia.
Qed.

Lemma map_push_take self n :
  0 <= n →
  map_push (take_slice_or_kill self n)
  = let '(r, d) := push_at n (data self) in (Some r, with_data self d).
Proof.
  intros Hn. unfold take_slice_or_kill, push_at.
  destruct (Nat.leb_spec (Z.to_nat n) (length (data self))), (Z.leb_spec n (Z.of_nat (length (data self)))); try lia.
  - unfold map_push. do 2 f_equal. destruct (Nat.ltb_spec 0 (Z.to_nat n)).
    + unfold data_nth. by replace (S (Z.to_nat n - 1)) with (Z.to_nat n) by lia.
    + replace (Z.to_nat n) with 0%nat by lia. by destruct self.
  - unfold map_push. by rewrite kill_eq.
Qed.

Lemma read_uint_loop_spec size data i ret :
  (size <= length data)%nat → 0 <= i → i + Z.of_nat size <= 8 → 0 <= ret < 2 ^ (8 * i) →
  read_uint_loop size i ret data
  = (Ok (ret + le_combine (take size data) * 2 ^ (8 * i)), drop size data).
Proof.
  revert data i ret. induction size as [|size IH]; intros data i ret Hlen Hi H8 Hret.
  - cbn [read_uint_loop take drop]. change (le_combine []) with 0.
    rewrite Z.mul_0_l, Z.add_0_r. by destruct data.
  - destruct data as [|b data]; cbn [length] in Hlen; [lia|]. cbn [read_uint_loop take drop].
    destruct (Z.ltb_spec (i * 8) 64); [|lia].
    pose proof (urange_byte b) as Hb. unfold urange in Hb.
    rewrite Z.shiftl_mul_pow2, (Z.mul_comm i 8) by lia.
    assert (0 < 2 ^ (8 * i)) by lia.
    assert (2 ^ (8 * i) * 2 ^ 8 <= 2 ^ 64) by (rewrite <- Z.pow_add_r by lia; apply Z.pow_le_mono_r; lia).
    rewrite uwrap_small by (unfold urange; nia).
    destruct (Z.ltb_spec (byte.unsigned b * 2 ^ (8 * i) + ret) (2 ^ 64)); [|nia].
    assert (2 ^ (8 * (i + 1)) = 2 ^ 8 * 2 ^ (8 * i)) as E
      by (rewrite <- Z.pow_add_r by lia; f_equal; lia).
    rewrite IH; [|lia|lia|lia|rewrite E; nia]. rewrite E, le_combine_cons. do 2 f_equal. ring.
Qed.

Lemma read_uint_iter_spec size data :
  (size <= 8)%nat →
  read_uint_iter data size
  = if (length data <? size)%nat then (Err UintEarlyEndOfScript, data)
    else (Ok (le_combine (take size data)), drop size data).
Proof.
  intros H8. unfold read_uint_iter, U16_MAX. destruct (Nat.ltb_spec (length data) size); [done|].
  change ((2 ^ 16 - 1) / 8) with 8191. destruct (Z.ltb_spec 8191 (Z.of_nat size)); [lia|].
  rewrite read_uint_loop_spec by (done || lia). change (2 ^ (8 * 0)) with 1. do 2 f_equal. lia.
Qed.

Lemma next_push_data_eq self k min_len :
  (k <= 4)%nat →
  next_push_data_len self k min_len
  = let '(r, d) := push_data (enforce_minimal self) k min_len (data self) in (Some r, with_data self d).
Proof.
  intros Hk. unfold next_push_data_len, push_data. rewrite read_uint_iter_spec by lia.
  destruct (Nat.ltb_spec (length (data self)) k); cbn [with_data enforce_minimal data].
  { by rewrite kill_eq. }
  destruct (_ && _); [by rewrite kill_eq|].
  pose proof (le_combine_range (take k (data self))) as Hr. rewrite length_take_le in Hr by lia.
  unfold urange in Hr. assert (2 ^ (8 * Z.of_nat k) <= 2 ^ 32) by (apply Z.pow_le_mono_r; lia).
  unfold U32_MAX. destruct (Z.ltb_spec (2 ^ 32 - 1) (le_combine (take k (data self)))); [lia|].
  rewrite map_push_take by lia. cbn [data]. by destruct (push_at _ _).
Qed.

Lemma classify_other b :
  75 < byte.unsigned b →
  match classify b Legacy with
  | Some (PushBytesClass _) => False
  | Some (OrdinaryClass Ordinary.OP_PUSHDATA1) => b = x4c
  | Some (OrdinaryClass Ordinary.OP_PUSHDATA2) => b = x4d
  | Some (OrdinaryClass Ordinary.OP_PUSHDATA4) => b = x4e
  | _ => 78 < byte.unsigned b
  end.
Proof. intros H. destruct b; first [by apply Z.ltb_lt in H|reflexivity]. Qed.

Lemma next_eq m b rest :
  next {| data := b :: rest; enforce_minimal := m |}
  = let '(r, d) := parse_one m b rest in (Some r, {| data := d; enforce_minimal := m |}).
Proof.
  unfold next, parse_one. cbn [data]. destruct (Z.leb_spec (byte.unsigned b) 75) as [Hc|Hc].
  - rewrite (proj2 (classify_data_push b _)) by done. cbn [enforce_minimal with_data].
    pose proof (map_push_take (with_data {| data := b :: rest; enforce_minimal := m |} rest)
      (byte.unsigned b) ltac:(pose proof (urange_byte b); unfold urange in *; lia)) as Hp.
    unfold with_data in *. cbn [data enforce_minimal] in *.
    destruct m, rest as [|op_byte rest]; cbn [head from_option andb];
      rewrite ?andb_false_r; fold (has_opcode op_byte) || idtac.
    + rewrite Hp. unfold push_at. destruct (Z.eqb_spec (byte.unsigned b) 0) as [->|]; [|done]. reflexivity.
    + unfold has_opcode. destruct (_ && _); [by rewrite kill_eq|]. by rewrite Hp.
    + rewrite Hp. unfold push_at. destruct (Z.eqb_spec (byte.unsigned b) 0) as [->|]; [|done]. reflexivity.
    + by rewrite Hp.
  - pose proof (classify_other b Hc) as Hk. destruct (classify b Legacy) as [[]|]; try done;
      try destruct o; subst; rewrite ?next_push_data_eq by lia; cbn [with_data data enforce_minimal];
      try reflexivity;
      destruct (Z.eqb_spec (byte.unsigned b) 76), (Z.eqb_spec (byte.unsigned b) 77),
        (Z.eqb_spec (byte.unsigned b) 78); try lia; reflexivity.
Qed.

(** ** Progress *)

Lemma push_at_split n rest r d :
  push_at n rest = (r, d) →
  (length d <= length rest)%nat ∧
  match r with
  | Ok i => ∃ seg, rest = seg ++ d ∧ ∀ t, push_at n (seg ++ t) = (Ok i, t)
  | Err _ => d = []
  end.
Proof.
  unfold push_at. destruct (Z.leb_spec n (Z.of_nat (length rest))); intros [= <- <-]; [|split; [cbn; lia|done]].
  rewrite length_drop. split; [lia|]. exists (take (Z.to_nat n) rest). split; [by rewrite take_drop|]. intros t.
  rewrite length_app, length_take. destruct (Z.leb_spec n (Z.of_nat (Z.to_nat n `min` length rest + length t))); [|lia].
  destruct (Z.le_gt_cases 0 n).
  - rewrite take_app_length', drop_app_length' by (rewrite length_take; lia). done.
  - replace (Z.to_nat n) with 0%nat by lia. done.
Qed.

Lemma push_data_split m k min_len rest r d :
  push_data m k min_len rest = (r, d) →
  (length d <= length rest)%nat ∧
  match r with
  | Ok i => ∃ seg, rest = seg ++ d ∧ ∀ t, push_data m k min_len (seg ++ t) = (Ok i, t)
  | Err _ => d = []
  end.
Proof.
  unfold push_data. destruct (Nat.ltb_spec (length rest) k) as [Hk|Hk]; [intros [= <- <-]; split; [cbn; lia|done]|].
  cbv zeta. destruct (m && _) eqn:Em; [intros [= <- <-]; split; [cbn; lia|done]|].
  intros [Hl Hr]%push_at_split. rewrite length_drop in Hl. split; [lia|]. destruct r as [i|]; [|done].
  destruct Hr as (seg & E & Hseg). exists (take k rest ++ seg). rewrite <- app_assoc, <- E, take_drop.
  split; [done|]. intros t. rewrite <- app_assoc.
  assert (length (take k rest) = k) as Ek by (rewrite length_take; lia).
  rewrite length_app, Ek. destruct (Nat.ltb_spec (k + length (seg ++ t)) k); [lia|].
  rewrite take_app_length', drop_app_length' by done. by rewrite Em, Hseg.
Qed.

(** An instruction is read from its own bytes, whatever follows; an error ends the
    iterator. *)
Lemma parse_one_split m b rest r d :
  parse_one m b rest = (r, d) →
  (length d <= length rest)%nat ∧
  match r with
  | Ok i => ∃ seg, rest = seg ++ d ∧ ∀ t, parse_one m b (seg ++ t) = (Ok i, t)
  | Err _ => d = []
  end.
Proof.
  unfold parse_one. destruct (Z.leb_spec (byte.unsigned b) 75) as [Hc|Hc].
  - destruct (m && (byte.unsigned b =? 1) && from_option has_opcode false (head rest)) eqn:Em;
      [intros [= <- <-]; split; [cbn; lia|done]|].
    intros Hp. apply push_at_split in Hp as Hs. destruct Hs as [Hl Hr]. split; [done|]. destruct r as [i|]; [|done].
    destruct Hr as (seg & E & Hseg). exists seg. split; [done|]. intros t. rewrite <- Hseg.
    destruct seg as [|x seg]; [|subst rest; cbn [head app from_option] in *; by rewrite Em].
    destruct (Z.eqb_spec (byte.unsigned b) 1) as [E1|]; [exfalso|by rewrite andb_false_r].
    specialize (Hseg []). rewrite E1 in Hseg. by cbn in Hseg.
  - repeat (destruct (_ =? _); [apply push_data_split|]). intros [= <- <-]. split; [lia|].
    exists []. split; [done|]. done.
Qed.

Definition at_ (m : bool) (d : list byte) : Instructions := {| data := d; enforce_minimal := m |}.

Lemma iterate_fuel m n d : (length d <= n)%nat → iterate n (at_ m d) = items (at_ m d).
Proof.
  unfold items, at_. cbn [data].
  assert (∀ k n d, (length d <= k)%nat → (length d <= n)%nat → iterate n (at_ m d) = iterate k (at_ m d)) as H.
  2:{ intros Hd. by apply H. }
  clear. induction k as [|k IH]; intros n d Hk Hn.
  { destruct d; [|cbn in Hk; lia]. by destruct n. }
  destruct d as [|b d]; [by destruct n|]. destruct n as [|n]; [cbn in Hn; lia|]. cbn [length] in *.
  cbn [iterate]. unfold at_. rewrite next_eq. destruct (parse_one m b d) as [r d'] eqn:E.
  apply parse_one_split in E as [Hl _]. f_equal. apply IH; lia.
Qed.

Lemma items_nil m : items (at_ m []) = [].
Proof. done. Qed.

Lemma items_cons m b rest :
  items (at_ m (b :: rest)) = let '(r, d) := parse_one m b rest in r :: items (at_ m d).
Proof.
  unfold items, at_ at 1. cbn [data length iterate]. unfold at_ at 1. rewrite next_eq.
  destruct (parse_one m b rest) as [r d] eqn:E. apply parse_one_split in E as [Hl _]. f_equal.
  by apply iterate_fuel.
Qed.

(** Induction along the iterator. *)
Lemma script_ind m (P : list byte → Prop) :
  P [] → (∀ b rest r d, parse_one m b rest = (r, d) → P d → P (b :: rest)) → ∀ s, P s.
Proof.
  intros Hnil Hcons s. remember (length s) as n eqn:Hn.
  assert (length s <= n)%nat as Hle by lia. clear Hn. revert s Hle.
  induction n as [|n IH]; intros [|b s] Hle; try done; cbn [length] in *; [lia|].
  destruct (parse_one m b s) as [r d] eqn:E. eapply Hcons; [exact E|].
  apply IH. apply parse_one_split in E as [Hl _]. lia.
Qed.

(** The iterator after [k] calls. *)
Definition advance (k : nat) (it : Instructions) : Instructions := Nat.iter k (λ it, snd (next it)) it.

Lemma advance_S k it : advance (S k) it = advance k (snd (next it)).
Proof. unfold advance. by rewrite Nat.iter_succ_r. Qed.

Lemma advance_end k m : advance k (at_ m []) = at_ m [].
Proof. induction k as [|k IH]; [done|]. by rewrite advance_S. Qed.

Lemma snd_next m b rest r d : parse_one m b rest = (r, d) → next (at_ m (b :: rest)) = (Some r, at_ m d).
Proof. unfold at_. rewrite next_eq. by intros ->. Qed.

(** The items are the results of the first calls; after them there are none. *)
Lemma items_calls m s k :
  fst (next (advance k (at_ m s))) = items (at_ m s) !! k.
Proof.
  revert k. induction s as [|b rest r d E IH] using (script_ind m); intros k.
  - by rewrite advance_end, items_nil.
  - rewrite items_cons, E. destruct k as [|k]; [unfold advance; cbn [Nat.iter nat_rect]; by erewrite snd_next|].
    rewrite advance_S. erewrite snd_next by done. apply IH.
Qed.

Lemma items_length m s : (length (items (at_ m s)) <= length s)%nat.
Proof.
  induction s as [|b rest r d E IH] using (script_ind m); [done|].
  rewrite items_cons, E. apply parse_one_split in E as [Hl _]. cbn [length]. lia.
Qed.

Lemma items_error_last m s k e :
  items (at_ m s) !! k = Some (Err e) → S k = length (items (at_ m s)).
Proof.
  revert k. induction s as [|b rest r d E IH] using (script_ind m); intros k; [done|].
  rewrite items_cons, E. apply parse_one_split in E as [_ Hr]. destruct k as [|k]; cbn [lookup list_lookup length].
  - intros [= ->]. rewrite Hr. done.
  - intros Hk%IH. by f_equal.
Qed.

(** The iterator with indices has the same items, each at the offset of what is left. *)
Lemma indices_items m s p n i :
  indices_iterate n {| inner := at_ m s; pos := p |} !! i
  = (λ r : item, let? ins := r in Ok (p + Z.of_nat (length s) - Z.of_nat (length (data (advance i (at_ m s)))), ins))
    <$> iterate n (at_ m s) !! i.
Proof.
  revert i p n. induction s as [|b rest r d E IH] using (script_ind m); intros i p n.
  { by destruct n. }
  destruct n as [|n]; [done|]. cbn [indices_iterate iterate].
  unfold indices_next, next_with. cbn [inner pos]. rewrite (snd_next _ _ _ _ _ E).
  destruct i as [|i].
  - cbn. f_equal. destruct r; cbn; [|done]. do 2 f_equal. lia.
  - cbn [lookup list_lookup]. unfold remaining_bytes. cbn [inner data at_].
    rewrite IH. rewrite advance_S, (snd_next _ _ _ _ _ E). cbn [snd].
    destruct (iterate n (at_ m d) !! i) as [[ins|e]|]; [|done|done].
    unfold fmap, option_fmap, option_map, result_bind. do 3 f_equal. lia.
Qed.

Lemma advance_suffix m s k : ∃ pre, s = pre ++ data (advance k (at_ m s)).
Proof.
  revert s. induction k as [|k IH]; intros s; [by exists []|]. destruct s as [|b rest]; [exists []; by rewrite advance_end|].
  rewrite advance_S. destruct (parse_one m b rest) as [r d] eqn:E. rewrite (snd_next _ _ _ _ _ E). cbn [snd].
  destruct (IH d) as [pre Hpre]. apply parse_one_split in E as [_ Hr]. destruct r as [i|e].
  - destruct Hr as (seg & -> & _). exists (b :: seg ++ pre). cbn [app]. by rewrite <- app_assoc, <- Hpre.
  - subst d. exists (b :: rest). rewrite advance_end. cbn [data at_]. by rewrite app_nil_r.
Qed.

(** ** Instructions and their bytes *)

Definition push_prefix (n : Z) : list byte :=
  if n <=? 75 then le_split 1 n
  else if n <? 0x100 then x4c :: le_split 1 n
  else if n <? 0x10000 then x4d :: le_split 2 n
  else x4e :: le_split 4 n.

Definition instruction_bytes (i : Instruction) : list byte :=
  match i with Op op => [op] | PushBytes bs => push_prefix (Z.of_nat (length bs)) ++ bs end.

(** What stands for itself in a script: an opcode that pushes no data, or data below
    [2 ^ 32] bytes.  The type [Opcode] also has the codes up to 78, which push what
    follows them: [Op] of such a code is no instruction that iteration gives. *)
Definition instruction_wf (i : Instruction) : Prop :=
  match i with Op op => 78 < byte.unsigned op | PushBytes bs => Z.of_nat (length bs) < 2 ^ 32 end.

(** Data with an opcode of its own is pushed by that. *)
Definition instruction_minimal (i : Instruction) : Prop :=
  instruction_wf i ∧ match i with PushBytes [b] => has_opcode b = false | _ => True end.

Lemma push_prefix_bytes n :
  0 <= n < 2 ^ 32 →
  (if n <? byte.unsigned (Ordinary.to_u8 Ordinary.OP_PUSHDATA1) then Some [byte.of_Z n]
     else if n <? 0x100 then Some [Ordinary.to_u8 Ordinary.OP_PUSHDATA1; byte.of_Z n]
     else if n <? 0x10000 then
       Some [Ordinary.to_u8 Ordinary.OP_PUSHDATA2; byte.of_Z (n mod 0x100); byte.of_Z (n / 0x100)]
     else if n <? 0x100000000 then
       Some [Ordinary.to_u8 Ordinary.OP_PUSHDATA4; byte.of_Z (n mod 0x100);
             byte.of_Z ((n / 0x100) mod 0x100); byte.of_Z ((n / 0x10000) mod 0x100);
             byte.of_Z (n / 0x1000000)]
     else None) = Some (push_prefix n).
Proof.
  intros Hn. unfold push_prefix. change (byte.unsigned _) with 76. cbn [Ordinary.to_u8].
  assert (∀ x y, x mod 2 ^ 8 = y mod 2 ^ 8 → byte.of_Z x = byte.of_Z y) as Hb by apply byte_of_Z_eq.
  change (2 ^ 8) with 256 in Hb.
  destruct (Z.ltb_spec n 76), (Z.leb_spec n 75); try lia; [done|].
  destruct (Z.ltb_spec n 0x100); [done|]. destruct (Z.ltb_spec n 0x10000).
  - change (le_split 2 n) with [byte.of_Z n; byte.of_Z (Z.shiftr n 8)].
    rewrite Z.shiftr_div_pow2 by lia. change (2 ^ 8) with 0x100.
    do 3 f_equal. apply Hb. by rewrite Z.mod_mod.
  - destruct (Z.ltb_spec n 0x100000000); [|lia].
    change (le_split 4 n) with [byte.of_Z n; byte.of_Z (Z.shiftr n 8); byte.of_Z (Z.shiftr (Z.shiftr n 8) 8);
      byte.of_Z (Z.shiftr (Z.shiftr (Z.shiftr n 8) 8) 8)].
    rewrite !Z.shiftr_div_pow2 by lia.
    change (2 ^ 8) with 0x100. rewrite !Z.div_div by lia. change (0x100 * 0x100) with 0x10000.
    change (0x10000 * 0x100) with 0x1000000.
    do 2 f_equal. f_equal; [apply Hb; by rewrite Z.mod_mod|]. f_equal; [apply Hb; by rewrite Z.mod_mod|].
    f_equal. apply Hb. by rewrite Z.mod_mod.
Qed.

Lemma push_slice_bytes s bs :
  Z.of_nat (length bs) < 2 ^ 32 → push_slice_no_opt s bs = Some (s ++ instruction_bytes (PushBytes bs)).
Proof.
  intros Hlen. unfold push_slice_no_opt. rewrite push_prefix_bytes by lia. reflexivity.
Qed.

Lemma push_slice_too_long s bs : 2 ^ 32 <= Z.of_nat (length bs) → push_slice_no_opt s bs = None.
Proof.
  intros Hlen. unfold push_slice_no_opt. change (byte.unsigned _) with 76.
  by rewrite !(proj2 (Z.ltb_ge _ _)) by lia.
Qed.

Lemma push_instruction_bytes s i :
  instruction_wf i →
  push_instruction s i = Some (s ++ instruction_bytes i) ∧
  push_instruction_no_opt s i = Some (s ++ instruction_bytes i).
Proof.
  destruct i; cbn [instruction_wf push_instruction push_instruction_no_opt]; intros Hwf; [|done].
  unfold push_slice. by rewrite push_slice_bytes.
Qed.

Lemma extend_bytes s ins max :
  Forall instruction_wf ins → (from_option (λ n, Z.of_nat (length ins) <= n) True max) →
  extend s ins max = Some (s ++ concat (instruction_bytes <$> ins)).
Proof.
  intros Hwf Hmax. unfold extend.
  assert (∀ f, (∀ s i, instruction_wf i → f s i = Some (s ++ instruction_bytes i)) →
    foldl (λ s i, s ≫= λ s, f s i) (Some s) ins = Some (s ++ concat (instruction_bytes <$> ins))) as Hfold.
  { clear Hmax. intros f Hf. revert s. induction Hwf as [|i ins Hi Hwf IH]; intros s; cbn; [by rewrite app_nil_r|].
    rewrite Hf by done. rewrite IH. by rewrite <- app_assoc. }
  destruct (from_option _ false max) eqn:E.
  - destruct max as [max|]; [|done]. cbn in *. destruct (Nat.leb_spec (length ins) 5); [|lia].
    apply Hfold. intros ???. by apply push_instruction_bytes.
  - apply Hfold. intros ???. by apply push_instruction_bytes.
Qed.

Lemma push_at_app n bs t : Z.of_nat (length bs) = n → push_at n (bs ++ t) = (Ok (PushBytes bs), t).
Proof.
  intros <-. unfold push_at. rewrite length_app, Nat2Z.id.
  destruct (Z.leb_spec (Z.of_nat (length bs)) (Z.of_nat (length bs + length t))); [|lia].
  by rewrite take_app_length, drop_app_length.
Qed.

Lemma push_data_app m k min_len bs t :
  let n := Z.of_nat (length bs) in
  n < 2 ^ (8 * Z.of_nat k) → (m = true → min_len <= n) →
  push_data m k min_len (le_split k n ++ bs ++ t) = (Ok (PushBytes bs), t).
Proof.
  cbv zeta. intros Hn Hmin. unfold push_data. rewrite length_app, length_le_split.
  destruct (Nat.ltb_spec (k + length (bs ++ t)) k); [lia|].
  rewrite take_app_length', drop_app_length' by (symmetry; apply length_le_split).
  rewrite le_combine_split_u by (unfold urange; lia).
  destruct m; cbn [andb]; [|by apply push_at_app].
  destruct (Z.ltb_spec (Z.of_nat (length bs)) min_len); [specialize (Hmin eq_refl); lia|]. by apply push_at_app.
Qed.

Lemma parse_instruction m i t :
  instruction_wf i → (m = true → instruction_minimal i) →
  ∃ b seg, instruction_bytes i = b :: seg ∧ parse_one m b (seg ++ t) = (Ok i, t).
Proof.
  destruct i as [bs|op]; cbn [instruction_bytes instruction_wf]; intros Hwf Hmin.
  - set (n := Z.of_nat (length bs)) in *. assert (0 <= n) by lia. unfold push_prefix.
    destruct (Z.leb_spec n 75); [|destruct (Z.ltb_spec n 0x100); [|destruct (Z.ltb_spec n 0x10000)]].
    + exists (byte.of_Z n), bs. split; [done|]. unfold parse_one. rewrite byte_of_Z_u by (unfold urange; lia).
      destruct (Z.leb_spec n 75); [|lia]. destruct (m && (n =? 1) && _) eqn:E; [exfalso|by apply push_at_app].
      destruct m; [|done]. destruct (Hmin eq_refl) as [_ Hm]. apply andb_true_iff in E as [E1%Z.eqb_eq E2].
      destruct bs as [|x [|]]; cbn in n; try (subst n; lia). cbn in E2. congruence.
    + exists x4c, (le_split 1 n ++ bs). split; [done|]. rewrite <- app_assoc.
      by apply (push_data_app m 1 76); [change (2 ^ _) with 0x100; lia|lia].
    + exists x4d, (le_split 2 n ++ bs). split; [done|]. rewrite <- app_assoc.
      by apply (push_data_app m 2 0x100); [change (2 ^ _) with 0x10000; lia|lia].
    + exists x4e, (le_split 4 n ++ bs). split; [done|]. rewrite <- app_assoc.
      by apply (push_data_app m 4 0x10000); [change (2 ^ _) with (2 ^ 32); lia|lia].
  - exists op, []. split; [done|]. unfold parse_one.
    destruct (Z.leb_spec (byte.unsigned op) 75); [lia|].
    destruct (Z.eqb_spec (byte.unsigned op) 76), (Z.eqb_spec (byte.unsigned op) 77),
      (Z.eqb_spec (byte.unsigned op) 78); (lia || done).
Qed.

Lemma push_at_inv n rest i d :
  0 <= n → push_at n rest = (Ok i, d) → ∃ bs, i = PushBytes bs ∧ Z.of_nat (length bs) = n ∧ rest = bs ++ d.
Proof.
  intros Hn. unfold push_at. destruct (Z.leb_spec n (Z.of_nat (length rest))); [|done]. intros [= <- <-].
  eexists. split; [done|]. rewrite length_take, take_drop. split; [lia|done].
Qed.

Lemma push_data_inv m k min_len rest i d :
  push_data m k min_len rest = (Ok i, d) →
  ∃ bs, i = PushBytes bs ∧ Z.of_nat (length bs) < 2 ^ (8 * Z.of_nat k) ∧
    (m = true → min_len <= Z.of_nat (length bs)) ∧ rest = le_split k (Z.of_nat (length bs)) ++ bs ++ d.
Proof.
  unfold push_data. destruct (Nat.ltb_spec (length rest) k) as [|Hk]; [done|]. cbv zeta.
  pose proof (le_combine_range (take k rest)) as Hr. rewrite length_take_le in Hr by done. unfold urange in Hr.
  destruct (m && _) eqn:E; [done|]. intros (bs & -> & Hlen & Hrest)%push_at_inv; [|lia].
  exists bs. rewrite Hlen. split_and!; [done|lia| |].
  - intros ->. cbn in E. by apply Z.ltb_ge in E.
  - rewrite le_split_le_combine by (rewrite length_take; lia). by rewrite <- Hrest, take_drop.
Qed.

Lemma parse_minimal_inv b rest i d :
  parse_one true b rest = (Ok i, d) → instruction_minimal i ∧ b :: rest = instruction_bytes i ++ d.
Proof.
  unfold parse_one. pose proof (urange_byte b) as Hb. unfold urange in Hb.
  destruct (Z.leb_spec (byte.unsigned b) 75) as [Hc|Hc].
  - destruct (true && _ && _) eqn:E; [done|]. intros (bs & -> & Hlen & ->)%push_at_inv; [|lia].
    split; [split; [cbn; lia|]|].
    + destruct bs as [|x [|]]; [done| |done]. cbn [length] in Hlen. rewrite <- Hlen in E. by cbn in E.
    + cbn [instruction_bytes]. unfold push_prefix. rewrite Hlen. destruct (Z.leb_spec (byte.unsigned b) 75); [|lia].
      change (le_split 1 (byte.unsigned b)) with [byte.of_Z (byte.unsigned b)]. by rewrite byte.of_Z_unsigned.
  - assert (∀ k min_len op, byte.unsigned b = byte.unsigned op →
      push_data true k min_len rest = (Ok i, d) → (k <= 4)%nat → 1 < min_len →
      (∀ n, min_len <= n < 2 ^ (8 * Z.of_nat k) → push_prefix n = op :: le_split k n) →
      instruction_minimal i ∧ b :: rest = instruction_bytes i ++ d) as Hdata.
    { intros k min_len op Hop (bs & -> & Hlt & Hmin & ->)%push_data_inv Hk Hm1 Hpre. specialize (Hmin eq_refl).
      assert (2 ^ (8 * Z.of_nat k) <= 2 ^ 32) by (apply Z.pow_le_mono_r; lia).
      apply byte.unsigned_inj in Hop as ->. split; [split; [cbn; lia|]|].
      - destruct bs as [|? []]; [done|cbn in Hmin; lia|done].
      - cbn [instruction_bytes]. rewrite Hpre by lia. cbn [app]. by rewrite <- app_assoc. }
    destruct (Z.eqb_spec (byte.unsigned b) 76) as [E|N76]; [|destruct (Z.eqb_spec (byte.unsigned b) 77) as [E|N77];
      [|destruct (Z.eqb_spec (byte.unsigned b) 78) as [E|N78]]].
    + intros Hp. apply (Hdata 1%nat 76 x4c); try done; [lia|]. intros n. change (2 ^ _) with 0x100. unfold push_prefix.
      destruct (Z.leb_spec n 75), (Z.ltb_spec n 0x100); (lia || done).
    + intros Hp. apply (Hdata 2%nat 0x100 x4d); try done; [lia|]. intros n. change (2 ^ _) with 0x10000. unfold push_prefix.
      destruct (Z.leb_spec n 75), (Z.ltb_spec n 0x100), (Z.ltb_spec n 0x10000); (lia || done).
    + intros Hp. apply (Hdata 4%nat 0x10000 x4e); try done. intros n. unfold push_prefix.
      destruct (Z.leb_spec n 75), (Z.ltb_spec n 0x100), (Z.ltb_spec n 0x10000); (lia || done).
    + intros [= <- <-]. split; [split; [change (78 < byte.unsigned b); lia|done]|done].
Qed.

(** ** Scripts as sequences of segments, one per instruction *)

Definition segment (m : bool) (i : Instruction) (bs : list byte) : Prop :=
  ∃ b seg, bs = b :: seg ∧ parse_one m b seg = (Ok i, []).

Lemma segment_app m i bs t :
  segment m i bs → ∃ b rest, bs ++ t = b :: rest ∧ parse_one m b rest = (Ok i, t).
Proof.
  intros (b & seg & -> & Hp). exists b, (seg ++ t). split; [done|].
  apply parse_one_split in Hp as [_ (seg' & -> & Hseg)]. by rewrite app_nil_r.
Qed.

Lemma items_segments m s ins :
  items (at_ m s) = Ok <$> ins ↔ ∃ segs, Forall2 (segment m) ins segs ∧ s = concat segs.
Proof.
  split.
  - revert ins. induction s as [|b rest r d E IH] using (script_ind m); intros ins.
    + rewrite items_nil. destruct ins; [|done]. intros _. by exists [].
    + rewrite items_cons, E. destruct ins as [|i ins]; [done|]. cbn. intros [= -> Hi].
      destruct (IH _ Hi) as (segs & Hsegs & ->). apply parse_one_split in E as [_ (seg & -> & Hseg)].
      exists ((b :: seg) :: segs). split; [|done]. constructor; [|done].
      exists b, seg. split; [done|]. by rewrite <- (app_nil_r seg), Hseg.
  - intros (segs & Hsegs & ->). induction Hsegs as [|i bs ins segs Hi Hsegs IH]; [done|].
    cbn [concat fmap list_fmap]. destruct (segment_app _ _ _ (concat segs) Hi) as (b & rest & -> & Hp).
    rewrite items_cons, Hp. by f_equal.
Qed.

Lemma segment_wf m i :
  instruction_wf i → (m = true → instruction_minimal i) → segment m i (instruction_bytes i).
Proof.
  intros Hwf Hm. destruct (parse_instruction m i [] Hwf Hm) as (b & seg & E & Hp).
  rewrite app_nil_r in Hp. by exists b, seg.
Qed.

Lemma segment_minimal i bs : segment true i bs ↔ instruction_minimal i ∧ bs = instruction_bytes i.
Proof.
  split.
  - intros (b & seg & -> & Hp). apply parse_minimal_inv in Hp. by rewrite app_nil_r in Hp.
  - intros [Hm ->]. apply segment_wf; [by destruct Hm|done].
Qed.

Lemma segments_wf m ins :
  Forall instruction_wf ins → (m = true → Forall instruction_minimal ins) →
  Forall2 (segment m) ins (instruction_bytes <$> ins).
Proof.
  induction ins as [|i ins IH]; intros Hwf Hm; cbn; constructor; inversion_clear Hwf.
  - apply segment_wf; [done|]. intros E. specialize (Hm E). by inversion_clear Hm.
  - apply IH; [done|]. intros E. specialize (Hm E). by inversion_clear Hm.
Qed.

Lemma parse_op_inv m b rest op d :
  parse_one m b rest = (Ok (Op op), d) → op = b ∧ d = rest ∧ 78 < byte.unsigned op.
Proof.
  unfold parse_one. destruct (Z.leb_spec (byte.unsigned b) 75).
  { destruct (_ && _); [done|]. intros (? & [=] & _)%push_at_inv. pose proof (urange_byte b). unfold urange in *. lia. }
  destruct (Z.eqb_spec (byte.unsigned b) 76); [by intros (? & [=] & _)%push_data_inv|].
  destruct (Z.eqb_spec (byte.unsigned b) 77); [by intros (? & [=] & _)%push_data_inv|].
  destruct (Z.eqb_spec (byte.unsigned b) 78); [by intros (? & [=] & _)%push_data_inv|].
  intros [= <- <-]. split_and!; (done || lia).
Qed.

Lemma segment_op m op bs : segment m (Op op) bs → bs = [op].
Proof. intros (b & seg & -> & (-> & <- & _)%parse_op_inv). done. Qed.

(** ** Growing keeps the instructions *)

Definition reads_as (s : script) (ins : list Instruction) : Prop := instructions s = Ok <$> ins.

Lemma reads_as_segments s ins :
  reads_as s ins ↔ ∃ segs, Forall2 (segment false) ins segs ∧ s = concat segs.
Proof. apply (items_segments false). Qed.

Lemma reads_as_nil : reads_as [] [].
Proof. done. Qed.

Lemma reads_as_push s ins i :
  reads_as s ins → instruction_wf i → reads_as (s ++ instruction_bytes i) (ins ++ [i]).
Proof.
  rewrite !reads_as_segments. intros (segs & Hsegs & ->) Hwf. exists (segs ++ [instruction_bytes i]). split.
  - apply Forall2_app; [done|]. constructor; [|constructor]. by apply segment_wf.
  - rewrite concat_app. cbn. by rewrite app_nil_r.
Qed.

(** The last instruction, if it is an opcode, is the last byte. *)
Lemma reads_as_pop s ins op :
  reads_as s (ins ++ [Op op]) → reads_as (take (length s - 1) s) ins ∧ s = take (length s - 1) s ++ [op].
Proof.
  rewrite reads_as_segments. intros (segs & (segs1 & segs2 & Hins & Hop & ->)%Forall2_app_inv_l & ->).
  apply Forall2_cons_inv_l in Hop as (seg & segs3 & Hseg & ->%Forall2_nil_inv_l & ->).
  apply segment_op in Hseg as ->. rewrite concat_app. cbn [concat]. rewrite app_nil_r, length_app. cbn [length].
  replace (length (concat segs1) + 1 - 1)%nat with (length (concat segs1)) by lia.
  rewrite take_app_length. split; [|done]. apply reads_as_segments. by exists segs1.
Qed.

Definition last_op_of (ins : list Instruction) : option byte := last ins ≫= instruction_opcode.

Lemma last_opcode_of s ins : reads_as s ins → last_opcode s = last_op_of ins.
Proof.
  unfold reads_as, last_opcode, last_op_of. intros ->. rewrite fmap_last.
  destruct (last ins) as [[]|]; done.
Qed.

(** The verify form of the last instruction. *)
Definition verified (ins : list Instruction) : list Instruction :=
  match opcode_to_verify (last_op_of ins) with
  | Some op => take (length ins - 1) ins ++ [Op op]
  | None => ins ++ [Op OP_VERIFY]
  end.

Lemma opcode_to_verify_wf o op : opcode_to_verify o = Some op → 78 < byte.unsigned op.
Proof.
  destruct o as [o|]; [|done]. cbn.
  repeat (destruct (bool_decide _); [intros [= <-]; apply Z.ltb_lt; reflexivity|]). done.
Qed.

Lemma push_verify_reads s ins o :
  reads_as s ins → opcode_to_verify o = opcode_to_verify (last_op_of ins) →
  reads_as (push_verify s o) (verified ins).
Proof.
  intros Hs Ho. unfold push_verify, verified. rewrite Ho. destruct (opcode_to_verify (last_op_of ins)) as [op|] eqn:E.
  - assert (78 < byte.unsigned op) as Hop by by apply opcode_to_verify_wf in E.
    unfold last_op_of in E. destruct ins as [|i ins _] using rev_ind; [done|]. rewrite last_snoc in E.
    destruct i as [|op']; [done|]. apply reads_as_pop in Hs as [Hs _].
    rewrite length_app. cbn [length]. replace (length ins + 1 - 1)%nat with (length ins) by lia.
    rewrite take_app_length. by apply (reads_as_push _ _ (Op op)).
  - apply (reads_as_push _ _ (Op OP_VERIFY)); [done|]. apply Z.ltb_lt. reflexivity.
Qed.

(** ** Histories of a builder *)

(** The instruction that an opcode pushed on its own is, and that of a number. *)
Definition op_instruction (op : byte) : Instruction := if bool_decide (op = OP_0) then PushBytes [] else Op op.
Definition op_wf (op : byte) : Prop := op = OP_0 ∨ 78 < byte.unsigned op.
Definition int_instruction (n : Z) (bs : list byte) : Instruction :=
  if n =? 0 then PushBytes []
  else if (n =? -1) || ((1 <=? n) && (n <=? 16)) then Op (byte.of_Z (0x50 + n))
  else PushBytes bs.

(** [built ins b]: the calls that made [b] pushed the instructions [ins].  The codes 1
    to 78 are not pushed as opcodes of their own ([op_wf]): they would make data of what
    is pushed next.  [push_key] is a call of [push_slice]; [push_lock_time] and
    [push_sequence] are calls of [push_int]. *)
Inductive built : list Instruction → Builder.Builder → Prop :=
| built_new : built [] Builder.new
| built_from v ins : reads_as v ins → built ins (Builder.from v)
| built_opcode ins b op :
    built ins b → op_wf op → built (ins ++ [op_instruction op]) (Builder.push_opcode b op)
| built_slice ins b bs b' :
    built ins b → Builder.push_slice b bs = Some b' → built (ins ++ [PushBytes bs]) b'
| built_int ins b n bs b' :
    built ins b → write_scriptint n = Some bs → Builder.push_int b n = Some b' →
    built (ins ++ [int_instruction n bs]) b'
| built_verify ins b : built ins b → built (verified ins) (Builder.push_verify b).

Lemma opcode_to_verify_op_0 : opcode_to_verify (Some OP_0) = None.
Proof. reflexivity. Qed.

Definition builder_ok (ins : list Instruction) (b : Builder.Builder) : Prop :=
  reads_as (Builder.script_buf b) ins ∧
  opcode_to_verify (Builder.last_op b) = opcode_to_verify (last_op_of ins).

Lemma ok_opcode ins b op :
  builder_ok ins b → op_wf op → builder_ok (ins ++ [op_instruction op]) (Builder.push_opcode b op).
Proof.
  intros [Hs Ho] Hop. unfold builder_ok, Builder.push_opcode, last_op_of, push_opcode, op_instruction. cbn.
  rewrite last_snoc. case_bool_decide as E.
  - subst op. split; [|reflexivity]. by apply (reads_as_push _ _ (PushBytes [])).
  - destruct Hop as [|Hop]; [done|]. split; [|done]. by apply (reads_as_push _ _ (Op op)).
Qed.

Lemma ok_slice ins b bs b' :
  builder_ok ins b → Builder.push_slice b bs = Some b' → builder_ok (ins ++ [PushBytes bs]) b'.
Proof.
  intros [Hs Ho]. unfold Builder.push_slice, push_slice.
  destruct (Z.lt_ge_cases (Z.of_nat (length bs)) (2 ^ 32)) as [Hlen|Hlen].
  - rewrite push_slice_bytes by done. cbn. intros [= <-]. split; cbn [Builder.script_buf Builder.last_op].
    + by apply (reads_as_push _ _ (PushBytes bs)).
    + unfold last_op_of. by rewrite last_snoc.
  - by rewrite push_slice_too_long.
Qed.

Lemma ok_int ins b n bs b' :
  builder_ok ins b → write_scriptint n = Some bs → Builder.push_int b n = Some b' →
  builder_ok (ins ++ [int_instruction n bs]) b'.
Proof.
  intros Hb Hn. unfold Builder.push_int, int_instruction. destruct (Z.eqb_spec n 0) as [->|Hnz].
  - cbn [Z.eqb Z.leb orb andb]. intros [= <-]. apply (ok_opcode _ _ OP_0); [done|by left].
  - destruct ((n =? -1) || _) eqn:E.
    + assert (n = -1 ∨ 1 <= n <= 16) as Hsmall by lia. intros [= <-]. change (byte.unsigned OP_TRUE) with 0x51.
      replace (n - 1 + 0x51) with (0x50 + n) by lia. rewrite uwrap_small by (unfold urange; lia).
      pose proof (byte_of_Z_u (0x50 + n) ltac:(unfold urange; lia)) as Hu.
      replace (Op (byte.of_Z (0x50 + n))) with (op_instruction (byte.of_Z (0x50 + n))).
      * apply ok_opcode; [done|]. right. rewrite Hu. lia.
      * unfold op_instruction. rewrite bool_decide_eq_false_2; [done|]. intros E0. rewrite E0 in Hu.
        change (byte.unsigned OP_0) with 0 in Hu. lia.
    + unfold Builder.push_int_non_minimal. rewrite Hn. apply ok_slice. done.
Qed.

Lemma push_verify_script b : Builder.script_buf (Builder.push_verify b) = push_verify (Builder.script_buf b) (Builder.last_op b).
Proof. unfold Builder.push_verify, push_verify. by destruct (opcode_to_verify _). Qed.

Lemma opcode_to_verify_idem o op : opcode_to_verify o = Some op → opcode_to_verify (Some op) = None.
Proof.
  destruct o as [o|]; [|done]. cbn [opcode_to_verify mbind option_bind].
  repeat (destruct (bool_decide _); [by intros [= <-]|]). done.
Qed.

Lemma ok_verify ins b : builder_ok ins b → builder_ok (verified ins) (Builder.push_verify b).
Proof.
  intros [Hs Ho]. split; [rewrite push_verify_script; by apply push_verify_reads|].
  unfold Builder.push_verify, verified, last_op_of. rewrite Ho. fold (last_op_of ins).
  destruct (opcode_to_verify (last_op_of ins)) eqn:E; by rewrite last_snoc.
Qed.

Lemma built_ok ins b : built ins b → builder_ok ins b.
Proof.
  induction 1 as [|v ins Hv|ins b op Hb IH Hop|ins b bs b' Hb IH Hs|ins b n bs b' Hb IH Hn Hi|ins b Hb IH].
  - by split.
  - split; [done|]. cbn. by rewrite (last_opcode_of _ _ Hv).
  - by apply ok_opcode.
  - by eapply ok_slice.
  - by eapply ok_int.
  - by apply ok_verify.
Qed.

Lemma encodes_short n v :
  number_encoded n v → ((length v <= 4)%nat ↔ Z.abs n < 2 ^ 31).
Proof.
  intros [[-> ->]|(u & l & -> & <- & Hm)]; [split; [lia|cbn; lia]|].
  rewrite number_abs, length_app. cbn [length]. apply minimal_bounds in Hm as [H1 [_ H2]]. split; intros Hlen.
  - assert (2 ^ (8 * Z.of_nat (length u) + 7) <= 2 ^ 31) by (apply Z.pow_le_mono_r; lia). lia.
  - destruct (Nat.le_gt_cases (length u + 1) 4); [done|exfalso].
    assert (2 ^ 32 <= 2 ^ (8 * Z.of_nat (length u))) by (apply Z.pow_le_mono_r; lia). lia.
Qed.

Lemma le_combine_zeros u : forallb (λ b, byte.unsigned b =? 0) u = true → le_combine u = 0.
Proof.
  induction u as [|b u IH]; [done|]. cbn [forallb]. intros [Hb%Z.eqb_eq Hu]%andb_true_iff.
  rewrite le_combine_cons, Hb, (IH Hu). done.
Qed.

Lemma read_scriptbool_encodes n v : number_encoded n v → read_scriptbool v = negb (n =? 0).
Proof.
  intros [[-> ->]|(u & l & -> & <- & Hm)]; [done|]. apply minimal_bounds in Hm as [_ [Hpos _]].
  unfold read_scriptbool. rewrite last_snoc, length_app, land_not_sign. cbn [length].
  replace (length u + 1 - 1)%nat with (length u) by lia. rewrite take_app_length.
  pose proof (number_abs u l). rewrite (proj2 (Z.eqb_neq (number u l) 0)) by lia.
  destruct (Z.eqb_spec (byte.unsigned l mod 128) 0) as [E|]; [|done].
  destruct (forallb _ u) eqn:Hz; [exfalso|done]. apply le_combine_zeros in Hz.
  unfold magnitude in Hpos. rewrite Hz, E in Hpos. lia.
Qed.

Lemma read_non_minimal_encodes n v :
  number_encoded n v → (length v <= 4)%nat → read_scriptint_non_minimal v = Ok n.
Proof.
  intros [[-> ->]|(u & l & -> & <- & _)] Hlen; [done|]. unfold read_scriptint_non_minimal.
  destruct (u ++ [l]) eqn:E; [by destruct u|]. rewrite <- E in *.
  rewrite (proj2 (Nat.ltb_ge _ _)) by done. by rewrite scriptint_parse_number.
Qed.

(** ** Properties *)

(** Script numbers.  Every [i64] but the least is written, in the only form
    that reads back as it; reading succeeds exactly below [2 ^ 31] in magnitude and
    reports an overflow above, the non-minimal reader agrees, and the boolean of
    the bytes is whether the number is zero.  The least [i64] panics, for its nine
    bytes do not fit the buffer. *)
Theorem scriptint_roundtrip n :
  srange 64 n →
  match write_scriptint n with
  | None => n = I64_MIN
  | Some v =>
      n ≠ I64_MIN ∧ read_scriptbool v = negb (n =? 0) ∧
      (if Z.abs n <? 2 ^ 31
       then read_scriptint v = Ok n ∧ read_scriptint_non_minimal v = Ok n
       else read_scriptint v = Err NumericOverflow) ∧
      (∀ w, read_scriptint w = Ok n → w = v)
  end.
Proof.
  unfold srange, I64_MIN. change (2 ^ (64 - 1)) with (2 ^ 63). intros Hn.
  destruct (Z.eq_dec n (- 2 ^ 63)) as [->|Hmin]; [vm_compute; reflexivity|].
  destruct (write_scriptint_encodes n ltac:(lia)) as (v & -> & Hv). split_and!; [done|by apply read_scriptbool_encodes| |].
  - pose proof (encodes_short n v Hv) as Hs. destruct (Z.ltb_spec (Z.abs n) (2 ^ 31)).
    + apply Hs in H. split; [by apply read_scriptint_spec|by apply read_non_minimal_encodes].
    + destruct Hv as [[-> ->]|(u & l & -> & <- & _)]; [cbn in *; lia|]. rewrite read_scriptint_snoc.
      rewrite length_app in Hs. cbn [length] in Hs. rewrite (proj2 (Nat.ltb_lt _ _)); [done|].
      apply Nat.lt_nge. rewrite Hs. lia.
  - intros w [Hw _]%read_scriptint_spec. by eapply number_encoded_inj.
Qed.

(** C18: the iterator always comes to an end.  It yields at most as many items as
    there are bytes, as its [size_hint] promises; the calls after the last item all
    yield none; an error is the last item; and the positions of the indices iterator
    are those at which the rest of the script is what the iterator still has. *)
Theorem iterator_ends m s :
  let it := {| data := s; enforce_minimal := m |} in
  let n := length (items it) in
  (∀ k, fst (next (advance k it)) = items it !! k) ∧
  (∀ k, (n <= k)%nat → fst (next (advance k it)) = None) ∧
  (fst (size_hint it) <= Z.of_nat n ∧ ∃ max, snd (size_hint it) = Some max ∧ Z.of_nat n <= max) ∧
  (∀ k e, items it !! k = Some (Err e) → S k = n) ∧
  (∀ k p i, indices_iterate (length s) (from_instructions it) !! k = Some (Ok (p, i)) →
     items it !! k = Some (Ok i) ∧ 0 <= p ∧ drop (Z.to_nat p) s = data (advance k it)).
Proof.
  cbv zeta. change {| data := s; enforce_minimal := m |} with (at_ m s). split_and!.
  - apply items_calls.
  - intros k Hk. rewrite items_calls. by apply lookup_ge_None_2.
  - unfold size_hint. cbn [data at_]. destruct s as [|b s]; [cbn; lia|]. cbn [length Nat.eqb fst].
    rewrite items_cons. destruct (parse_one m b s). cbn [length]. lia.
  - unfold size_hint. cbn [data at_]. pose proof (items_length m s). destruct s; cbn [length Nat.eqb snd] in *;
      (eexists; split; [done|lia]).
  - apply items_error_last.
  - intros k p i. unfold from_instructions. rewrite indices_items. fold (items (at_ m s)).
    change (iterate (length s) (at_ m s)) with (items (at_ m s)).
    destruct (items (at_ m s) !! k) as [[ins|e]|] eqn:E; cbn [fmap option_fmap option_map result_bind]; try done.
    intros [= <- <-]. split; [done|]. destruct (advance_suffix m s k) as [pre Hpre].
    assert (length s = length pre + length (data (advance k (at_ m s))))%nat as Hlen
      by (rewrite Hpre at 1; apply length_app).
    split; [lia|]. replace (Z.to_nat _) with (length pre) by lia. by rewrite Hpre at 1; rewrite drop_app_length.
Qed.

Lemma concat_instruction_length ins :
  Forall instruction_wf ins →
  Z.of_nat (length (concat (instruction_bytes <$> ins))) = foldr (λ i n, script_serialized_len i + n) 0 ins.
Proof.
  induction 1 as [|i ins Hi Hwf IH]; [done|]. cbn [fmap list_fmap concat foldr]. rewrite length_app, Nat2Z.inj_add, IH.
  f_equal. destruct i as [bs|op]; [|done]. cbn [instruction_bytes script_serialized_len] in *.
  unfold reserved_len_for_slice, push_prefix. rewrite length_app. set (n := Z.of_nat (length bs)) in *.
  destruct (Z.leb_spec n 75), (Z.leb_spec n 0xff), (Z.ltb_spec n 0x100), (Z.leb_spec n 0xffff),
    (Z.ltb_spec n 0x10000); try lia; cbn [length]; rewrite length_le_split; lia.
Qed.

(** C12: scripts and lists of instructions.  Growing an empty script by a list of
    instructions (opcodes that push no data, and data below [2 ^ 32] bytes), in either way that [extend] chooses by the size hint, gives a script
    of the announced length that is iterated as that list; and a script is iterated
    without an error under the minimal-push rule exactly when it is the one grown from
    the list, and no data in it has an opcode of its own. *)
Theorem instructions_roundtrip ins :
  (Forall instruction_wf ins →
   ∃ s, extend [] ins None = Some s ∧ instructions s = Ok <$> ins ∧
     Z.of_nat (length s) = foldr (λ i n, script_serialized_len i + n) 0 ins ∧
     ∀ max, Z.of_nat (length ins) <= max → extend [] ins (Some max) = Some s) ∧
  (∀ s, instructions_minimal s = Ok <$> ins ↔
        extend [] ins None = Some s ∧ Forall instruction_minimal ins).
Proof.
  split.
  - intros Hwf. exists (concat (instruction_bytes <$> ins)). split_and!.
    + by rewrite extend_bytes.
    + apply (items_segments false). exists (instruction_bytes <$> ins). split; [|done]. by apply segments_wf.
    + by apply concat_instruction_length.
    + intros max Hmax. by rewrite extend_bytes.
  - intros s. unfold instructions_minimal, instructions_minimal_iter.
    change {| data := s; enforce_minimal := true |} with (at_ true s). rewrite items_segments. split.
    + intros (segs & Hsegs & ->). assert (Forall instruction_minimal ins ∧ segs = instruction_bytes <$> ins) as [Hm ->].
      { induction Hsegs as [|i bs ins segs [Hi ->]%segment_minimal Hsegs [IH ->]]; [done|]. by split; [constructor|]. }
      split; [|done]. apply (extend_bytes [] ins None); [|done]. eapply Forall_impl; [exact Hm|]. by intros i [].
    + intros [Hs Hm]. assert (Forall instruction_wf ins) as Hwf by (eapply Forall_impl; [exact Hm|]; by intros i []).
      rewrite extend_bytes in Hs by done. injection Hs as <-. eexists. split; [|done]. by apply segments_wf.
Qed.

(** C13: what a builder has pushed is what its script says.  After any sequence of
    calls from [Builder::new], or from a script that iterates without an error, in
    which [push_opcode] is not given a data push (the codes 1 to 78), the script is
    iterated as the instructions pushed, in order; the opcode that the builder
    remembers serves [push_verify] as the scan of the whole script would, so the two
    ways of adding [OP_VERIFY] agree; and [push_verify] gives a builder of this kind
    again, of the instructions with the last one in its verify form.  Whatever the
    calls before, [push_opcode] appends its byte and [push_slice] the length and the
    data, or panics from [2 ^ 32] bytes on. *)
Theorem builder_invariant ins b :
  (built ins b →
     instructions (Builder.script_buf b) = Ok <$> ins ∧
     opcode_to_verify (Builder.last_op b) = opcode_to_verify (last_opcode (Builder.script_buf b)) ∧
     Builder.into_script (Builder.push_verify b) = scan_and_push_verify (Builder.into_script b) ∧
     instructions (Builder.into_script (Builder.push_verify b)) = Ok <$> verified ins ∧
     built (verified ins) (Builder.push_verify b)) ∧
  (∀ op, Builder.into_script (Builder.push_opcode b op) = Builder.into_script b ++ [op]) ∧
  (∀ bs, Builder.into_script <$> Builder.push_slice b bs =
     if Z.of_nat (length bs) <? 2 ^ 32
     then Some (Builder.into_script b ++ push_prefix (Z.of_nat (length bs)) ++ bs) else None).
Proof.
  split_and!.
  - intros Hb. pose proof (built_verify _ _ Hb) as Hv'. pose proof (built_ok _ _ Hv') as [Hv _].
    apply built_ok in Hb as [Hs Ho]. pose proof (last_opcode_of _ _ Hs) as Hl. rewrite Hl.
    split_and!; [done|done| |done|done].
    unfold Builder.into_script, scan_and_push_verify. rewrite push_verify_script, Hl.
    unfold push_verify. by rewrite Ho.
  - done.
  - intros bs. unfold Builder.push_slice, push_slice. destruct (Z.ltb_spec (Z.of_nat (length bs)) (2 ^ 32)).
    + by rewrite push_slice_bytes.
    + by rewrite push_slice_too_long.
Qed.

(** A data push pushed as an opcode makes data of the next one, and what the builder
    remembers is no longer what a scan finds. *)
Example push_opcode_of_a_data_push :
  let b := Builder.push_opcode (Builder.push_opcode (Builder.push_opcode Builder.new OP_PUSHBYTES_2) OP_DUP)
             OP_CHECKSIG in
  instructions (Builder.into_script b) = [Ok (PushBytes [OP_DUP; OP_CHECKSIG])] ∧
  Builder.into_script (Builder.push_verify b) = [OP_PUSHBYTES_2; OP_DUP; OP_CHECKSIGVERIFY] ∧
  scan_and_push_verify (Builder.into_script b) = [OP_PUSHBYTES_2; OP_DUP; OP_CHECKSIG; OP_VERIFY].
Proof. split_and!; vm_compute; reflexivity. Qed.

Lemma scriptint_roundtrip_witness :
  match write_scriptint (-300) with
  | None => -300 = I64_MIN
  | Some v =>
      -300 ≠ I64_MIN ∧ read_scriptbool v = negb (-300 =? 0) ∧
      (if Z.abs (-300) <? 2 ^ 31
       then read_scriptint v = Ok (-300) ∧ read_scriptint_non_minimal v = Ok (-300)
       else read_scriptint v = Err NumericOverflow) ∧
      (∀ w, read_scriptint w = Ok (-300) → w = v)
  end.
Proof. apply (scriptint_roundtrip (-300)). unfold srange. lia. Defined.

Definition sample_builder : Builder.Builder :=
  Builder.push_opcode (Builder.push_opcode Builder.new OP_DUP) OP_CHECKSIG.

Lemma builder_invariant_witness :
  Builder.into_script (Builder.push_verify sample_builder) = [OP_DUP; OP_CHECKSIGVERIFY] ∧
  Builder.into_script (Builder.push_verify sample_builder) = scan_and_push_verify [OP_DUP; OP_CHECKSIG].
Proof.
  split; [reflexivity|].
  apply (proj1 (builder_invariant ([] ++ [op_instruction OP_DUP] ++ [op_instruction OP_CHECKSIG]) sample_builder)).
  apply (built_opcode ([] ++ [op_instruction OP_DUP])); [apply (built_opcode []); [apply built_new|]|];
    right; apply Z.ltb_lt; reflexivity.
Defined.
