(* ===== verification/Templates.v ===== *)
(** What a script is ([src/litecoin/src/blockdata/script/]): witness versions and
    programs, the standard templates with their constructors ([owned.rs]) and
    predicates ([borrowed.rs]), dust limits, and the counting of signature operations
    in scripts and in transactions ([transaction.rs]). *)

From S2P Require Import Witness.
From Stdlib Require Import String ZArith Lia ZifyBool.
From stdpp Require Import base list.
From Stdlib Require Import Init.Byte.
From coqutil Require Import Byte Word.LittleEndianList.
From S2P Require Import Prelude Io Encode Units Locktime Mimblewimble Transaction Opcodes Script.

(** ** Witness versions *)

Inductive WitnessVersion :=
| V0 | V1 | V2 | V3 | V4 | V5 | V6 | V7 | V8 | V9 | V10 | V11 | V12 | V13 | V14 | V15 | V16.

#[export] Instance version_eq_dec : EqDecision WitnessVersion.
Proof. solve_decision. Defined.

Definition to_num (v : WitnessVersion) : Z :=
  match v with
  | V0 => 0 | V1 => 1 | V2 => 2 | V3 => 3 | V4 => 4 | V5 => 5 | V6 => 6 | V7 => 7 | V8 => 8
  | V9 => 9 | V10 => 10 | V11 => 11 | V12 => 12 | V13 => 13 | V14 => 14 | V15 => 15 | V16 => 16
  end.

(** [TryFrom<u8>]; the error is [TryFromError { invalid }]. *)
Definition version_try_from (no : Z) : result Z WitnessVersion :=
  match no with
  | 0 => Ok V0 | 1 => Ok V1 | 2 => Ok V2 | 3 => Ok V3 | 4 => Ok V4 | 5 => Ok V5 | 6 => Ok V6
  | 7 => Ok V7 | 8 => Ok V8 | 9 => Ok V9 | 10 => Ok V10 | 11 => Ok V11 | 12 => Ok V12
  | 13 => Ok V13 | 14 => Ok V14 | 15 => Ok V15 | 16 => Ok V16
  | invalid => Err invalid
  end.

Definition version_try_from_opcode (opcode : byte) : result Z WitnessVersion :=
  let v := byte.unsigned opcode in
  if v =? 0 then Ok V0
  else if (byte.unsigned OP_PUSHNUM_1 <=? v) && (v <=? byte.unsigned OP_PUSHNUM_16)
  then version_try_from (v - byte.unsigned OP_PUSHNUM_1 + 1)
  else Err v.

Inductive TryFromInstructionError := TryFrom (invalid : Z) | DataPush.

Definition version_try_from_instruction (i : Instruction) : result TryFromInstructionError WitnessVersion :=
  match i with
  | Op op => result_map_err TryFrom (version_try_from_opcode op)
  | PushBytes [] => Ok V0
  | PushBytes _ => Err DataPush
  end.

Definition version_opcode (v : WitnessVersion) : byte :=
  match v with
  | V0 => OP_PUSHBYTES_0
  | no => byte.of_Z (byte.unsigned OP_PUSHNUM_1 + to_num no - 1)
  end.

(** ** Witness programs *)

Definition MIN_SIZE : nat := 2.
Definition MAX_SIZE : nat := 40.
Definition P2A_PROGRAM : list byte := [byte.of_Z 78; byte.of_Z 115].

Record WitnessProgram := { version : WitnessVersion; program : list byte }.

Inductive ProgramError := InvalidLength (len : nat) | InvalidSegwitV0Length (len : nat).

Definition program_new (v : WitnessVersion) (bytes : list byte) : result ProgramError WitnessProgram :=
  let program_len := length bytes in
  if (program_len <? MIN_SIZE)%nat || (MAX_SIZE <? program_len)%nat then Err (InvalidLength program_len)
  else if bool_decide (v = V0) && (negb (program_len =? 20)%nat && negb (program_len =? 32)%nat)
  then Err (InvalidSegwitV0Length program_len)
  else Ok {| version := v; program := bytes |}.

(** From arrays of 20 and 32 bytes. *)
Definition program_p2wpkh (hash : list byte) : WitnessProgram := {| version := V0; program := hash |}.
Definition program_p2wsh (hash : list byte) : WitnessProgram := {| version := V0; program := hash |}.
Definition program_p2tr (key : list byte) : WitnessProgram := {| version := V1; program := key |}.
Definition program_p2a : WitnessProgram := {| version := V1; program := P2A_PROGRAM |}.

Definition program_is_p2wpkh (w : WitnessProgram) : bool :=
  bool_decide (version w = V0) && (length (program w) =? 20)%nat.
Definition program_is_p2wsh (w : WitnessProgram) : bool :=
  bool_decide (version w = V0) && (length (program w) =? 32)%nat.
Definition program_is_p2tr (w : WitnessProgram) : bool :=
  bool_decide (version w = V1) && (length (program w) =? 32)%nat.
Definition program_is_p2a (w : WitnessProgram) : bool :=
  bool_decide (version w = V1) && bool_decide (program w = P2A_PROGRAM).

(** ** Constructors of scripts

    Hashes are given by their bytes; pushing them goes through the builder, whose
    panic on four gigabytes is the [None]. *)

Definition new_p2pk (compressed : bool) (serialized serialized_uncompressed : list byte) : option script :=
  b ← Builder.push_key Builder.new compressed serialized serialized_uncompressed;
  Some (Builder.into_script (Builder.push_opcode b OP_CHECKSIG)).

Definition new_p2pkh (pubkey_hash : list byte) : option script :=
  b ← Builder.push_slice (Builder.push_opcode (Builder.push_opcode Builder.new OP_DUP) OP_HASH160) pubkey_hash;
  Some (Builder.into_script (Builder.push_opcode (Builder.push_opcode b OP_EQUALVERIFY) OP_CHECKSIG)).

Definition new_p2sh (script_hash : list byte) : option script :=
  b ← Builder.push_slice (Builder.push_opcode Builder.new OP_HASH160) script_hash;
  Some (Builder.into_script (Builder.push_opcode b OP_EQUAL)).

Definition new_witness_program_unchecked (v : WitnessVersion) (p : list byte) : option script :=
  b ← Builder.push_slice (Builder.push_opcode Builder.new (version_opcode v)) p;
  Some (Builder.into_script b).

Definition new_witness_program (w : WitnessProgram) : option script :=
  b ← Builder.push_slice (Builder.push_opcode Builder.new (version_opcode (version w))) (program w);
  Some (Builder.into_script b).

Definition new_p2wpkh (pubkey_hash : list byte) : option script := new_witness_program_unchecked V0 pubkey_hash.
Definition new_p2wsh (script_hash : list byte) : option script := new_witness_program_unchecked V0 script_hash.
Definition new_p2tr_tweaked (output_key : list byte) : option script := new_witness_program_unchecked V1 output_key.
Definition new_p2a : option script := new_witness_program_unchecked V1 P2A_PROGRAM.

Definition new_op_return (bytes : list byte) : option script :=
  b ← Builder.push_slice (Builder.push_opcode Builder.new OP_RETURN) bytes;
  Some (Builder.into_script b).

(** [ScriptBuf::p2wpkh_script_code] *)
Definition script_code_of (wpkh : list byte) : option script :=
  b ← Builder.push_slice (Builder.push_opcode (Builder.push_opcode Builder.new OP_DUP) OP_HASH160) wpkh;
  Some (Builder.into_script (Builder.push_opcode (Builder.push_opcode b OP_EQUALVERIFY) OP_CHECKSIG)).

(** ** Predicates

    The length is tested before any byte is read, so no index is out of range. *)

Definition byte_at (s : script) (i : nat) (b : byte) : bool := bool_decide (s !! i = Some b).

Definition witness_version (s : script) : option WitnessVersion :=
  let script_len := length s in
  if negb ((4 <=? script_len)%nat && (script_len <=? 42)%nat) then None
  else
    ver_opcode ← s !! 0%nat;
    push_opbyte ← byte.unsigned <$> s !! 1%nat;
    if (push_opbyte <? byte.unsigned OP_PUSHBYTES_2) || (byte.unsigned OP_PUSHBYTES_40 <? push_opbyte) then None
    else if negb (Z.of_nat script_len - 2 =? push_opbyte) then None
    else match version_try_from_opcode ver_opcode with Ok v => Some v | Err _ => None end.

Definition is_p2sh (s : script) : bool :=
  (length s =? 23)%nat && byte_at s 0 OP_HASH160 && byte_at s 1 OP_PUSHBYTES_20 && byte_at s 22 OP_EQUAL.

Definition is_p2pkh (s : script) : bool :=
  (length s =? 25)%nat && byte_at s 0 OP_DUP && byte_at s 1 OP_HASH160 && byte_at s 2 OP_PUSHBYTES_20
  && byte_at s 23 OP_EQUALVERIFY && byte_at s 24 OP_CHECKSIG.

Definition push_only_item (i : result ScriptError Instruction) : bool :=
  match i with
  | Err _ => false
  | Ok (PushBytes _) => true
  | Ok (Op op) => byte.unsigned op <=? 0x60
  end.
Definition is_push_only (s : script) : bool := forallb push_only_item (instructions s).

Definition p2pk_pubkey_bytes (s : script) : option (list byte) :=
  if (length s =? 67)%nat && (byte_at s 0 OP_PUSHBYTES_65 && byte_at s 66 OP_CHECKSIG)
  then Some (take 65 (drop 1 s))
  else if (length s =? 35)%nat && (byte_at s 0 OP_PUSHBYTES_33 && byte_at s 34 OP_CHECKSIG)
  then Some (take 33 (drop 1 s))
  else None.
Definition is_p2pk (s : script) : bool := bool_decide (is_Some (p2pk_pubkey_bytes s)).

(** The loop of [is_multisig] over the keys: [None] returns [false]; else the count,
    a [u8], and the items after the opcode or the error that ended it. *)
Fixpoint multisig_keys (num_pubkeys : Z) (insts : list (result ScriptError Instruction))
    : option (Z * list (result ScriptError Instruction)) :=
  match insts with
  | Ok (PushBytes _) :: insts => multisig_keys (uwrap 8 (num_pubkeys + 1)) insts
  | Ok (Op op) :: insts =>
      match decode_pushnum op with
      | Some pushnum => if negb (pushnum =? num_pubkeys) then None else Some (num_pubkeys, insts)
      | None => Some (num_pubkeys, insts)
      end
  | Err _ :: insts => Some (num_pubkeys, insts)
  | [] => Some (num_pubkeys, [])
  end.

Definition is_multisig (s : script) : bool :=
  match instructions s with
  | Ok (Op op) :: insts =>
      match decode_pushnum op with
      | None => false
      | Some required_sigs =>
          match multisig_keys 0 insts with
          | None => false
          | Some (num_pubkeys, insts) =>
              if num_pubkeys <? required_sigs then false
              else
                match insts with
                | Ok (Op op) :: insts => if negb (bool_decide (op = OP_CHECKMULTISIG)) then false
                                      else match insts with [] => true | _ => false end
                | _ => false
                end
          end
      end
  | _ => false
  end.

Definition is_witness_program (s : script) : bool := bool_decide (is_Some (witness_version s)).
Definition is_p2wsh (s : script) : bool :=
  (length s =? 34)%nat && bool_decide (witness_version s = Some V0) && byte_at s 1 OP_PUSHBYTES_32.
Definition is_p2wpkh (s : script) : bool :=
  (length s =? 22)%nat && bool_decide (witness_version s = Some V0) && byte_at s 1 OP_PUSHBYTES_20.
Definition is_p2tr (s : script) : bool :=
  (length s =? 34)%nat && bool_decide (witness_version s = Some V1) && byte_at s 1 OP_PUSHBYTES_32.
Definition is_op_return (s : script) : bool :=
  match s with b :: _ => bool_decide (b = OP_RETURN) | [] => false end.

Definition is_provably_unspendable (s : script) : bool :=
  match s with
  | b :: _ => bool_decide (classify b Legacy = Some ReturnOp) || bool_decide (classify b Legacy = Some IllegalOp)
  | [] => false
  end.

Definition p2wpkh_script_code (s : script) : option script :=
  if is_p2wpkh s then script_code_of (drop 2 s) else None.

Definition redeem_script (s : script) : option script :=
  if existsb (λ i : result ScriptError Instruction,
                match i with Ok i => bool_decide (instruction_push_bytes i = None) | Err _ => true end)
       (instructions s)
  then None
  else match last (instructions s) with Some (Ok (PushBytes b)) => Some b | _ => None end.

(** ** Dust *)

Definition DUST_RELAY_TX_FEE : Z := 3000.

(** The length of the serialised script, as [consensus_encode] returns it. *)
Definition encoded_len (s : script) : option Z :=
  match c_enc bytes s with Ok (n, _) => Some n | Err _ => None end.

Definition minimal_non_dust_inner (s : script) (dust_relay_fee : Z) : option Z :=
  size ←
    (if is_op_return s then Some 0
     else if is_witness_program s then n ← encoded_len s; Some (32 + 4 + 1 + (107 / 4) + 4 + 8 + n)
     else n ← encoded_len s; Some (32 + 4 + 1 + 107 + 4 + 8 + n));
  sats ← checked_u64 (dust_relay_fee * size);
  Some (sats / 1000).

Definition minimal_non_dust (s : script) : option Z := minimal_non_dust_inner s DUST_RELAY_TX_FEE.
(** The fee rate times four, in a [u64]. *)
Definition minimal_non_dust_custom (s : script) (dust_relay_fee : Z) : option Z :=
  minimal_non_dust_inner s (uwrap 64 (dust_relay_fee * 4)).

(** ** Signature operations *)

Definition is_checksig (op : byte) : bool := one_of op [OP_CHECKSIG; OP_CHECKSIGVERIFY].
Definition is_checkmultisig (op : byte) : bool := one_of op [OP_CHECKMULTISIG; OP_CHECKMULTISIGVERIFY].

Fixpoint sigops_loop (accurate : bool) (n : Z) (pushnum_cache : option Z)
    (insts : list (result ScriptError Instruction)) : Z :=
  match insts with
  | [] => n
  | Ok (Op opcode) :: insts =>
      if is_checksig opcode then sigops_loop accurate (uwrap 64 (n + 1)) pushnum_cache insts
      else if is_checkmultisig opcode then
        match accurate, pushnum_cache with
        | true, Some pushnum => sigops_loop accurate (uwrap 64 (n + pushnum)) pushnum_cache insts
        | _, _ => sigops_loop accurate (uwrap 64 (n + 20)) pushnum_cache insts
        end
      else sigops_loop accurate n (decode_pushnum opcode) insts
  | Ok (PushBytes _) :: insts => sigops_loop accurate n None insts
  | Err _ :: _ => n
  end.

Definition count_sigops_internal (s : script) (accurate : bool) : Z := sigops_loop accurate 0 None (instructions s).
Definition count_sigops (s : script) : Z := count_sigops_internal s true.
Definition count_sigops_legacy (s : script) : Z := count_sigops_internal s false.

(** [usize::saturating_add] and [saturating_mul] *)
Definition sat_add (x y : Z) : Z := Z.min (x + y) U64_MAX.
Definition sat_mul (x y : Z) : Z := Z.min (x * y) U64_MAX.

Section Sigops.
Context `{Mimblewimble.PublicKeys}.

Definition count_p2pk_p2pkh_sigops (tx : Transaction) : Z :=
  let count := foldl (λ count i, sat_add count (count_sigops_legacy (script_sig i))) 0 (input tx) in
  foldl (λ count o, sat_add count (count_sigops_legacy (script_pubkey o))) count (output tx).

(** The closure that looks up previous outputs is a function of the outpoint. *)
Definition p2sh_input_sigops (prevout : TxOut) (i : TxIn) : Z :=
  if is_p2sh (script_pubkey prevout) then
    match last_pushdata (script_sig i) with
    | Some redeem => sat_add 0 (count_sigops redeem)
    | None => 0
    end
  else 0.

Definition count_p2sh_sigops (tx : Transaction) (spent : OutPoint → option TxOut) : Z :=
  foldl (λ count i, match spent (previous_output i) with
                    | Some prevout => sat_add count (p2sh_input_sigops prevout i)
                    | None => count
                    end) 0 (input tx).

(** [None] is the panic of [Witness::last] on a corrupt index. *)
Definition witness_program_sigops (w : Witness) (witness_program : script) : option Z :=
  if is_p2wpkh witness_program then Some 1
  else if is_p2wsh witness_program then
    l ← Witness.last w;
    Some (from_option count_sigops 0 l)
  else Some 0.

Definition witness_input_sigops (prevout : TxOut) (i : TxIn) : option Z :=
  if is_witness_program (script_pubkey prevout) then
    witness_program_sigops (witness i) (script_pubkey prevout)
  else if is_p2sh (script_pubkey prevout) && is_push_only (script_sig i) then
    match last_pushdata (script_sig i) with
    | Some push_bytes => witness_program_sigops (witness i) push_bytes
    | None => Some 0
    end
  else Some 0.

Definition count_witness_sigops (tx : Transaction) (spent : OutPoint → option TxOut) : option Z :=
  foldl (λ count i,
    count ← count;
    match spent (previous_output i) with
    | Some prevout => n ← witness_input_sigops prevout i; Some (sat_add count n)
    | None => Some count
    end) (Some 0) (input tx).

Definition total_sigop_cost (tx : Transaction) (spent : OutPoint → option TxOut) : option Z :=
  let cost := sat_mul (count_p2pk_p2pkh_sigops tx) 4 in
  let cost := sat_add cost (sat_mul (count_p2sh_sigops tx spent) 4) in
  w ← count_witness_sigops tx spent;
  Some (sat_add cost w).

End Sigops.

(** ** Shapes *)

Lemma byte_at_true s i b : byte_at s i b = true ↔ s !! i = Some b.
Proof. apply bool_decide_eq_true. Qed.

(** A script with fixed ends around [n] bytes. *)
Definition framed (pre : script) (n : nat) (post s : script) : Prop :=
  ∃ mid, length mid = n ∧ s = pre ++ mid ++ post.

Lemma framed_lookup pre n post s :
  framed pre n post s ↔
  length s = (length pre + n + length post)%nat ∧
  (∀ i b, pre !! i = Some b → s !! i = Some b) ∧
  (∀ i b, post !! i = Some b → s !! (length pre + n + i)%nat = Some b).
Proof.
  split.
  - intros (mid & <- & ->). split_and!; [rewrite !length_app; lia|intros; by apply lookup_app_l_Some|].
    intros i b Hi. rewrite <- Nat.add_assoc, lookup_app_r by lia.
    rewrite lookup_app_r by lia. rewrite <- Hi. f_equal. lia.
  - intros (Hlen & Hpre & Hpost). exists (take n (drop (length pre) s)). split; [rewrite length_take, length_drop; lia|].
    assert (take (length pre) s = pre) as E1.
    { apply (list_eq_same_length _ _ (length pre)); [done|rewrite length_take; lia|].
      intros i x y _ Hx Hy. apply Hpre in Hy. rewrite lookup_take_lt in Hx; [congruence|].
      apply lookup_lt_Some in Hx. rewrite length_take in Hx. lia. }
    assert (drop (length pre + n) s = post) as E2.
    { apply (list_eq_same_length _ _ (length post)); [done|rewrite length_drop; lia|].
      intros i x y _ Hx Hy. apply Hpost in Hy. rewrite lookup_drop in Hx. congruence. }
    rewrite <- E2 at 1. rewrite <- E1 at 1. rewrite <- (take_drop (length pre) s) at 1. f_equal.
    rewrite <- (take_drop n (drop (length pre) s)) at 1. f_equal. by rewrite drop_drop.
Qed.

(** The predicates that compare bytes are [framed]. *)
Ltac frame_spec :=
  rewrite framed_lookup; cbn [length]; rewrite ?andb_true_iff, Nat.eqb_eq, ?byte_at_true;
  split;
  [ intros H; destruct_and? H; split_and!; [done| |];
    intros i b; destruct i as [|[|[|i]]]; cbn [lookup list_lookup]; intros [= <-]; assumption
  | intros (Hlen & Hpre & Hpost); split_and!; try exact Hlen;
    try (apply (Hpre 0%nat); reflexivity); try (apply (Hpre 1%nat); reflexivity);
    try (apply (Hpre 2%nat); reflexivity); try (apply (Hpost 0%nat); reflexivity);
    try (apply (Hpost 1%nat); reflexivity) ].

Lemma is_p2pkh_framed s :
  is_p2pkh s = true ↔ framed [OP_DUP; OP_HASH160; OP_PUSHBYTES_20] 20 [OP_EQUALVERIFY; OP_CHECKSIG] s.
Proof. unfold is_p2pkh. frame_spec. Qed.

Lemma is_p2sh_framed s :
  is_p2sh s = true ↔ framed [OP_HASH160; OP_PUSHBYTES_20] 20 [OP_EQUAL] s.
Proof. unfold is_p2sh. frame_spec. Qed.

Lemma p2pk_framed n s :
  (length s =? S (S n))%nat && (byte_at s 0 (byte.of_Z (Z.of_nat n)) && byte_at s (S n) OP_CHECKSIG) = true ↔
  framed [byte.of_Z (Z.of_nat n)] n [OP_CHECKSIG] s.
Proof.
  rewrite framed_lookup; cbn [length]; rewrite ?andb_true_iff, Nat.eqb_eq, ?byte_at_true. split.
  - intros (H1 & H2 & H3). split_and!; [lia| |]; intros i b; destruct i as [|i]; cbn [lookup list_lookup]; intros [= <-]; [done|].
    by replace (1 + n + 0)%nat with (S n) by lia.
  - intros (H1 & H2 & H3). split_and!; [lia|by apply (H2 0%nat)|].
    replace (S n) with (1 + n + 0)%nat by lia. by apply H3.
Qed.

Lemma framed_mid pre n post s : framed pre n post s → ∃ mid, mid = take n (drop (length pre) s) ∧ length mid = n ∧ s = pre ++ mid ++ post.
Proof.
  intros (mid & <- & ->). exists mid. split; [|done]. by rewrite drop_app_length, take_app_length.
Qed.

Lemma p2pk_pubkey_bytes_spec s k :
  p2pk_pubkey_bytes s = Some k ↔
  (length k = 65%nat ∨ length k = 33%nat) ∧ s = byte.of_Z (Z.of_nat (length k)) :: k ++ [OP_CHECKSIG].
Proof.
  unfold p2pk_pubkey_bytes. change OP_PUSHBYTES_65 with (byte.of_Z (Z.of_nat 65)).
  change OP_PUSHBYTES_33 with (byte.of_Z (Z.of_nat 33)).
  pose proof (p2pk_framed 65 s) as H65. pose proof (p2pk_framed 33 s) as H33. cbn [Nat.add] in *. split.
  - destruct (_ && _) eqn:E65; [|destruct ((length s =? 35)%nat && _) eqn:E33; [|done]]; intros [= <-].
    + destruct (framed_mid _ _ _ _ (proj1 H65 eq_refl)) as (mid & -> & Hlen & E). cbn [length] in *. rewrite Hlen. split; [by left|]. exact E.
    + destruct (framed_mid _ _ _ _ (proj1 H33 eq_refl)) as (mid & -> & Hlen & E). cbn [length] in *. rewrite Hlen. split; [by right|]. exact E.
  - intros [[Hlen|Hlen] ->]; rewrite Hlen in H65, H33 |- *.
    + rewrite (proj2 H65) by (by exists k). f_equal. apply (take_app_length' k [OP_CHECKSIG]). lia.
    + assert ((length (byte.of_Z (Z.of_nat 33) :: k ++ [OP_CHECKSIG]) =? 67)%nat = false) as ->
        by (cbn [length]; by rewrite length_app, Hlen).
      cbn [andb].
      rewrite (proj2 H33) by (by exists k). f_equal. apply (take_app_length' k [OP_CHECKSIG]). lia.
Qed.

(** ** Witness programs *)

Lemma version_opcode_inv v : version_try_from_opcode (version_opcode v) = Ok v.
Proof. by destruct v. Qed.

Lemma version_opcode_only b v : version_try_from_opcode b = Ok v → b = version_opcode v.
Proof. destruct b; first [discriminate|intros [= <-]; reflexivity]. Qed.

Definition program_length (p : list byte) : Prop := (2 <= length p <= 40)%nat.

Definition program_script (v : WitnessVersion) (p : list byte) : script :=
  version_opcode v :: byte.of_Z (Z.of_nat (length p)) :: p.

Lemma witness_version_spec s v :
  witness_version s = Some v ↔ ∃ p, program_length p ∧ s = program_script v p.
Proof.
  unfold witness_version, program_length, program_script. split.
  - destruct (_ && _) eqn:E; [|done]. apply andb_true_iff in E as [E1%Nat.leb_le E2%Nat.leb_le]. cbn [negb].
    destruct s as [|b0 [|b1 p]]; [done..|]. cbn [lookup list_lookup fmap option_fmap option_map mbind option_bind length] in *.
    change (byte.unsigned OP_PUSHBYTES_2) with 2. change (byte.unsigned OP_PUSHBYTES_40) with 40.
    destruct (_ || _) eqn:Er; [done|]. destruct (Z.eqb_spec (Z.of_nat (S (S (length p))) - 2) (byte.unsigned b1)) as [E|];
      [|done]. cbn [negb]. destruct (version_try_from_opcode b0) eqn:Hv; [|done]. intros [= ->].
    apply version_opcode_only in Hv as ->. exists p. split; [lia|].
    replace (Z.of_nat (length p)) with (byte.unsigned b1) by lia. by rewrite byte.of_Z_unsigned.
  - intros (p & Hp & ->). cbn [length lookup list_lookup fmap option_fmap option_map mbind option_bind].
    rewrite byte_of_Z_u by (unfold urange; lia). change (byte.unsigned OP_PUSHBYTES_2) with 2.
    change (byte.unsigned OP_PUSHBYTES_40) with 40.
    destruct (Nat.leb_spec 4 (S (S (length p)))), (Nat.leb_spec (S (S (length p))) 42); try lia. cbn [andb negb].
    destruct (Z.ltb_spec (Z.of_nat (length p)) 2), (Z.ltb_spec 40 (Z.of_nat (length p))); try lia. cbn [orb].
    destruct (Z.eqb_spec (Z.of_nat (S (S (length p))) - 2) (Z.of_nat (length p))); [|lia].
    by rewrite version_opcode_inv.
Qed.

Lemma push_slice_short b bs :
  (length bs <= 75)%nat →
  Builder.push_slice b bs
  = Some {| Builder.script_buf := Builder.script_buf b ++ byte.of_Z (Z.of_nat (length bs)) :: bs; Builder.last_op := None |}.
Proof.
  intros Hlen. unfold Builder.push_slice, push_slice. rewrite push_slice_bytes by lia.
  cbn [mbind option_bind instruction_bytes]. unfold push_prefix.
  by destruct (Z.leb_spec (Z.of_nat (length bs)) 75); [|lia].
Qed.

Lemma unchecked_short v p : (length p <= 75)%nat → new_witness_program_unchecked v p = Some (program_script v p).
Proof. intros Hp. unfold new_witness_program_unchecked. by rewrite push_slice_short. Qed.

Lemma sized_program s v n :
  (n <= 40)%nat → (2 <= n)%nat →
  ((length s =? S (S n))%nat && bool_decide (witness_version s = Some v) && byte_at s 1 (byte.of_Z (Z.of_nat n)) = true
   ↔ ∃ p, length p = n ∧ s = program_script v p).
Proof.
  intros Hn2 Hn40. rewrite !andb_true_iff, Nat.eqb_eq, bool_decide_eq_true, byte_at_true, witness_version_spec. split.
  - intros [[Hlen (p & _ & ->)] _]. exists p. cbn [program_script length] in Hlen. split; [lia|done].
  - intros (p & <- & ->). split_and!; [done| |done]. exists p. split; [unfold program_length; lia|done].
Qed.

(** ** Shapes exclude each other *)

Lemma instructions_cons b rest :
  instructions (b :: rest) = let '(r, d) := parse_one false b rest in r :: instructions d.
Proof. apply (items_cons false). Qed.

Lemma multisig_first b s : is_multisig (b :: s) = true → (0x51 <= byte.unsigned b <= 0x60).
Proof.
  unfold is_multisig. rewrite instructions_cons. destruct (parse_one false b s) as [[[bs|op]|e] d] eqn:E; [done| |done].
  apply parse_op_inv in E as (-> & _ & _). unfold decode_pushnum, within.
  change (byte.unsigned OP_PUSHNUM_1) with 0x51. change (byte.unsigned OP_PUSHNUM_16) with 0x60.
  destruct (Z.leb_spec 0x51 (byte.unsigned b)), (Z.leb_spec (byte.unsigned b) 0x60); (done || lia).
Qed.

Lemma program_instructions v p :
  (length p <= 75)%nat →
  instructions (program_script v p) = [Ok (op_instruction (version_opcode v)); Ok (PushBytes p)].
Proof.
  intros Hp. unfold program_script. rewrite instructions_cons.
  assert (∀ rest, parse_one false (version_opcode v) rest = (Ok (op_instruction (version_opcode v)), rest)) as ->
    by (intros rest; destruct v; [by apply (push_at_app 0 [])|done..]).
  rewrite instructions_cons. unfold parse_one. rewrite byte_of_Z_u by (unfold urange; lia). cbn [andb].
  destruct (Z.leb_spec (Z.of_nat (length p)) 75); [|lia].
  rewrite <- (app_nil_r p) at 2. by rewrite push_at_app.
Qed.

Lemma program_not_multisig v p : (length p <= 75)%nat → is_multisig (program_script v p) = false.
Proof.
  intros Hp. unfold is_multisig. rewrite program_instructions by done. unfold op_instruction.
  case_bool_decide; [done|]. destruct (decode_pushnum _) as [n|]; [|done]. cbn [multisig_keys]. by destruct (_ <? _).
Qed.

Definition first_is (s : script) (f : Z → bool) : bool := from_option (λ b, f (byte.unsigned b)) false (head s).

Lemma template_first s :
  (is_p2pk s = true → first_is s (λ b, (b =? 65) || (b =? 33)) = true) ∧
  (is_p2pkh s = true → first_is s (λ b, b =? 0x76) = true) ∧
  (is_p2sh s = true → first_is s (λ b, b =? 0xa9) = true) ∧
  (is_op_return s = true → first_is s (λ b, b =? 0x6a) = true) ∧
  (is_multisig s = true → first_is s (λ b, (0x51 <=? b) && (b <=? 0x60)) = true) ∧
  (is_witness_program s = true → first_is s (λ b, (b =? 0) || (0x51 <=? b) && (b <=? 0x60)) = true).
Proof.
  split_and!.
  - unfold is_p2pk. rewrite bool_decide_eq_true. intros [k ([Hk|Hk] & ->)%p2pk_pubkey_bytes_spec]; by rewrite Hk.
  - by intros (mid & _ & ->)%is_p2pkh_framed.
  - by intros (mid & _ & ->)%is_p2sh_framed.
  - destruct s as [|b s]; [done|]. cbn. by intros ->%bool_decide_eq_true.
  - destruct s as [|b s]; [done|]. intros H%multisig_first. cbn. lia.
  - unfold is_witness_program. rewrite bool_decide_eq_true. intros [v (p & _ & ->)%witness_version_spec]. by destruct v.
Qed.

Lemma witness_not_multisig s : is_witness_program s = true → is_multisig s = false.
Proof.
  unfold is_witness_program. rewrite bool_decide_eq_true. intros [v (p & [_ Hp] & ->)%witness_version_spec].
  apply program_not_multisig. lia.
Qed.

(** ** Counting signature operations as Core does *)

Abbreviation results := (list (result ScriptError Instruction)) (only parsing).

(** [CScript::GetSigOpCount] of Bitcoin Core: it keeps the last opcode, of every
    kind, and stops at a script that does not parse. *)
Fixpoint core_sigops (accurate : bool) (last_opcode : option byte) (insts : results) : Z :=
  match insts with
  | Ok i :: insts =>
      let op := instruction_opcode i in
      let count :=
        match op with
        | Some op =>
            if is_checksig op then 1
            else if is_checkmultisig op then
              (if accurate then from_option id 20 (last_opcode ≫= decode_pushnum) else 20)
            else 0
        | None => 0
        end in
      count + core_sigops accurate op insts
  | _ => 0
  end.

Definition core_count (accurate : bool) (s : script) : Z := core_sigops accurate None (instructions s).

(** No multisig check directly after a signature check. *)
Definition is_sig_check (i : result ScriptError Instruction) : bool :=
  match i with Ok (Op op) => is_checksig op || is_checkmultisig op | _ => false end.
Definition is_multisig_check (i : result ScriptError Instruction) : bool :=
  match i with Ok (Op op) => is_checkmultisig op | _ => false end.
Fixpoint separated (after_sig : bool) (insts : results) : bool :=
  match insts with
  | [] => true
  | i :: insts => negb (after_sig && is_multisig_check i) && separated (is_sig_check i) insts
  end.

Lemma decode_pushnum_range op n : decode_pushnum op = Some n → 1 <= n <= 16.
Proof.
  unfold decode_pushnum, within. change (byte.unsigned OP_PUSHNUM_1) with 0x51.
  change (byte.unsigned OP_PUSHNUM_16) with 0x60.
  destruct (Z.leb_spec 0x51 (byte.unsigned op)), (Z.leb_spec (byte.unsigned op) 0x60); cbn [andb]; try done.
  intros [= <-]. lia.
Qed.

Lemma sig_check_no_pushnum op : is_checksig op || is_checkmultisig op = true → decode_pushnum op = None.
Proof. destruct op; first [discriminate|reflexivity]. Qed.

(** The loop without wrapping. *)
Fixpoint sigops_sum (accurate : bool) (cache : option Z) (insts : results) : Z :=
  match insts with
  | Ok (Op op) :: insts =>
      if is_checksig op then 1 + sigops_sum accurate cache insts
      else if is_checkmultisig op then
        (if accurate then from_option id 20 cache else 20) + sigops_sum accurate cache insts
      else sigops_sum accurate (decode_pushnum op) insts
  | Ok (PushBytes _) :: insts => sigops_sum accurate None insts
  | _ => 0
  end.

Definition cache_ok (c : option Z) : Prop := from_option (λ n, 1 <= n <= 16) True c.

Lemma cache_decode op : cache_ok (decode_pushnum op).
Proof. destruct (decode_pushnum op) eqn:E; [by apply decode_pushnum_range in E|done]. Qed.

Lemma sigops_sum_range accurate cache insts :
  cache_ok cache → 0 <= sigops_sum accurate cache insts <= 20 * Z.of_nat (length insts).
Proof.
  revert cache. induction insts as [|[[bs|op]|e] insts IH]; intros cache Hc; cbn [sigops_sum length]; try lia.
  - specialize (IH None I). lia.
  - destruct (is_checksig op); [specialize (IH cache Hc); lia|]. destruct (is_checkmultisig op).
    + specialize (IH cache Hc). destruct accurate, cache as [n|]; cbn [from_option cache_ok id] in *; lia.
    + specialize (IH _ (cache_decode op)). lia.
Qed.

Lemma sigops_loop_sum accurate n cache insts :
  cache_ok cache → 0 <= n → n + 20 * Z.of_nat (length insts) < 2 ^ 64 →
  sigops_loop accurate n cache insts = n + sigops_sum accurate cache insts.
Proof.
  revert n cache. induction insts as [|[[bs|op]|e] insts IH]; intros n cache Hc Hn Hlen;
    cbn [sigops_loop sigops_sum length] in *; try lia.
  - apply IH; [done|lia|lia].
  - destruct (is_checksig op).
    + rewrite uwrap_small by (unfold urange; lia). rewrite IH by (done || lia). lia.
    + destruct (is_checkmultisig op); [|apply IH; [apply cache_decode|lia|lia]].
      destruct accurate, cache as [m|]; cbn [from_option id cache_ok] in *;
        (rewrite uwrap_small by (unfold urange; lia)); rewrite IH by (cbn; lia); lia.
Qed.

(** Against Core: equal in the legacy mode; in the accurate mode at most Core's count,
    for a number kept past a signature check counts less than twenty. *)
Lemma sigops_legacy cache last insts : sigops_sum false cache insts = core_sigops false last insts.
Proof.
  revert cache last. induction insts as [|[[bs|op]|e] insts IH]; intros cache last; cbn [sigops_sum core_sigops instruction_opcode]; try done.
  - by rewrite <- (IH None None).
  - destruct (is_checksig op); [by rewrite <- (IH cache (Some op))|].
    destruct (is_checkmultisig op); [by rewrite <- (IH cache (Some op))|]. by rewrite <- (IH (decode_pushnum op) (Some op)).
Qed.

Lemma sigops_accurate cache last insts :
  cache_ok cache → (last ≫= decode_pushnum = cache ∨ last ≫= decode_pushnum = None) →
  sigops_sum true cache insts <= core_sigops true last insts.
Proof.
  revert cache last. induction insts as [|[[bs|op]|e] insts IH]; intros cache last Hc Hl; cbn [sigops_sum core_sigops instruction_opcode]; try lia.
  - apply (IH None None I). by left.
  - destruct (is_checksig op) eqn:E1.
    { specialize (IH cache (Some op) Hc). cbn in IH. rewrite sig_check_no_pushnum in IH by (by rewrite E1).
      specialize (IH (or_intror eq_refl)). lia. }
    destruct (is_checkmultisig op) eqn:E2.
    + specialize (IH cache (Some op) Hc). cbn in IH. rewrite sig_check_no_pushnum in IH by (rewrite E2; apply orb_true_r).
      specialize (IH (or_intror eq_refl)). destruct Hl as [-> | ->]; [lia|]. cbn.
      destruct cache as [n|]; cbn [from_option cache_ok id] in *; lia.
    + rewrite Z.add_0_l. apply IH; [apply cache_decode|by left].
Qed.

Lemma sigops_accurate_eq after_sig cache last insts :
  (after_sig = false → last ≫= decode_pushnum = cache) → separated after_sig insts = true →
  sigops_sum true cache insts = core_sigops true last insts.
Proof.
  revert after_sig cache last. induction insts as [|[[bs|op]|e] insts IH]; intros after_sig cache last Hl Hs;
    cbn [sigops_sum core_sigops instruction_opcode separated is_sig_check is_multisig_check] in *; try done.
  - apply andb_true_iff in Hs as [_ Hs]. by rewrite (IH false None None).
  - apply andb_true_iff in Hs as [Hm Hs]. destruct (is_checksig op) eqn:E1.
    { by rewrite (IH true cache (Some op)). }
    destruct (is_checkmultisig op) eqn:E2.
    + destruct after_sig; [done|]. rewrite (Hl eq_refl). by rewrite (IH true cache (Some op)).
    + by rewrite (IH false (decode_pushnum op) (Some op)).
Qed.

Lemma core_accurate_le last insts : core_sigops true last insts <= core_sigops false last insts.
Proof.
  revert last. induction insts as [|[[bs|op]|e] insts IH]; intros last; cbn [core_sigops instruction_opcode]; try lia.
  - specialize (IH None). lia.
  - specialize (IH (Some op)). destruct (is_checksig op); [lia|]. destruct (is_checkmultisig op); [|lia].
    destruct (last ≫= decode_pushnum) as [n|] eqn:E; cbn [from_option id]; [|lia].
    destruct last as [l|]; [|done]. apply decode_pushnum_range in E. lia.
Qed.

Lemma core_sigops_nonneg accurate last insts : 0 <= core_sigops accurate last insts.
Proof.
  assert (0 <= core_sigops true last insts ∧ 0 <= core_sigops false last insts) as [H1 H2]; [|by destruct accurate].
  rewrite <- (sigops_legacy None last). pose proof (sigops_sum_range false None insts I).
  split; [|lia]. assert (cache_ok (last ≫= decode_pushnum)) as Hc by (destruct last; [apply cache_decode|done]).
  pose proof (sigops_accurate _ last insts Hc (or_introl eq_refl)). pose proof (sigops_sum_range true _ insts Hc). lia.
Qed.

Lemma instructions_length s : (length (instructions s) <= length s)%nat.
Proof. apply items_length. Qed.

Lemma count_internal s accurate :
  Z.of_nat (length s) < 2 ^ 59 → count_sigops_internal s accurate = sigops_sum accurate None (instructions s).
Proof.
  intros Hs. unfold count_sigops_internal. pose proof (instructions_length s).
  rewrite sigops_loop_sum; [lia|done|lia|lia].
Qed.

(** ** The cost of a transaction *)

Definition Zsum {A} (f : A → Z) (l : list A) : Z := foldr (λ a n, f a + n) 0 l.

Lemma foldl_sat_add {A} (f : A → Z) c l :
  0 <= c <= U64_MAX → (∀ a, 0 <= f a) →
  foldl (λ c a, sat_add c (f a)) c l = Z.min (c + Zsum f l) U64_MAX ∧ 0 <= Zsum f l.
Proof.
  intros Hc Hf. revert c Hc. induction l as [|a l IH]; intros c Hc; cbn [foldl Zsum foldr]; [lia|].
  pose proof (Hf a). destruct (IH (sat_add c (f a))) as [-> Hs]; [unfold sat_add, U64_MAX in *; lia|].
  fold (Zsum f l). unfold sat_add, U64_MAX in *. lia.
Qed.

Lemma count_internal_nonneg s accurate : 0 <= count_sigops_internal s accurate.
Proof.
  unfold count_sigops_internal. assert (∀ insts n cache, 0 <= n → cache_ok cache → 0 <= sigops_loop accurate n cache insts) as H.
  2:{ apply H; [lia|done]. }
  induction insts as [|[[bs|op]|e] insts IH]; intros n cache Hn Hc; cbn [sigops_loop]; try lia.
  - by apply IH.
  - assert (∀ x, 0 <= uwrap 64 x) as Hw by (intros; apply uwrap_range; lia).
    destruct (is_checksig op); [by apply IH|]. destruct (is_checkmultisig op); [|apply IH; [done|apply cache_decode]].
    destruct accurate, cache; by apply IH.
Qed.

Section Cost.
Context `{Mimblewimble.PublicKeys}.

(** What the previous output adds for an input. *)
Definition p2sh_part (spent : OutPoint → option TxOut) (i : TxIn) : Z :=
  from_option (λ o, p2sh_input_sigops o i) 0 (spent (previous_output i)).
Definition witness_part (spent : OutPoint → option TxOut) (i : TxIn) : option Z :=
  from_option (λ o, witness_input_sigops o i) (Some 0) (spent (previous_output i)).

Lemma p2sh_part_nonneg spent i : 0 <= p2sh_part spent i.
Proof.
  unfold p2sh_part. destruct (spent _) as [o|]; [|done]. cbn. unfold p2sh_input_sigops.
  destruct (is_p2sh _); [|done]. destruct (last_pushdata _) as [r|]; [|done].
  pose proof (count_internal_nonneg r true). unfold sat_add, count_sigops, U64_MAX. lia.
Qed.

Lemma witness_part_nonneg spent i n : witness_part spent i = Some n → 0 <= n.
Proof.
  unfold witness_part. destruct (spent _) as [o|]; [|by intros [= <-]]. cbn.
  assert (∀ w p m, witness_program_sigops w p = Some m → 0 <= m) as Hw.
  { intros w p m. unfold witness_program_sigops. destruct (is_p2wpkh p); [by intros [= <-]|].
    destruct (is_p2wsh p); [|by intros [= <-]]. destruct (Witness.last w) as [l|]; [|done]. intros [= <-].
    destruct l; [|done]. apply count_internal_nonneg. }
  unfold witness_input_sigops. destruct (is_witness_program _); [apply Hw|].
  destruct (_ && _); [|by intros [= <-]]. destruct (last_pushdata _); [apply Hw|by intros [= <-]].
Qed.

Lemma count_p2sh_sum spent tx :
  count_p2sh_sigops tx spent = Z.min (Zsum (p2sh_part spent) (input tx)) U64_MAX.
Proof.
  unfold count_p2sh_sigops. rewrite <- (Z.add_0_l (Zsum _ _)). rewrite <- (proj1 (foldl_sat_add (p2sh_part spent) 0 (input tx)
    ltac:(unfold U64_MAX; lia) (p2sh_part_nonneg spent))).
  assert (∀ l c, 0 <= c <= U64_MAX →
    foldl (λ count i, match spent (previous_output i) with
                      | Some prevout => sat_add count (p2sh_input_sigops prevout i) | None => count end) c l
    = foldl (λ c i, sat_add c (p2sh_part spent i)) c l) as E; [|apply E; unfold U64_MAX; lia].
  induction l as [|i l IH]; intros c Hc; [done|]. cbn [foldl]. pose proof (p2sh_part_nonneg spent i) as Hp.
  unfold p2sh_part at 2. destruct (spent _) as [o|] eqn:Eo; cbn [from_option].
  - apply IH. unfold p2sh_part in Hp. rewrite Eo in Hp. cbn in Hp. unfold sat_add, U64_MAX in *. lia.
  - replace (sat_add c 0) with c by (unfold sat_add; lia). by apply IH.
Qed.

Lemma count_witness_sum spent tx ws :
  mapM (witness_part spent) (input tx) = Some ws →
  count_witness_sigops tx spent = Some (Z.min (Zsum id ws) U64_MAX) ∧ 0 <= Zsum id ws.
Proof.
  unfold count_witness_sigops. intros Hws.
  assert (∀ l ws c, 0 <= c <= U64_MAX → mapM (witness_part spent) l = Some ws →
    foldl (λ count i, count ← count;
      match spent (previous_output i) with
      | Some prevout => n ← witness_input_sigops prevout i; Some (sat_add count n)
      | None => Some count end) (Some c) l = Some (Z.min (c + Zsum id ws) U64_MAX) ∧ 0 <= Zsum id ws) as E.
  2:{ destruct (E (input tx) ws 0 ltac:(unfold U64_MAX; lia) Hws) as [-> ?]. by rewrite Z.add_0_l. }
  clear. induction l as [|i l IH]; intros ws c Hc Hws.
  - injection Hws as <-. cbn. split; [f_equal; lia|done].
  - cbn [mapM] in Hws. destruct (witness_part spent i) as [w|] eqn:Ew; [|done]. cbn in Hws.
    destruct (mapM _ l) as [ws'|] eqn:El; [|done]. injection Hws as <-. cbn [foldl].
    pose proof (witness_part_nonneg _ _ _ Ew) as Hw.
    assert ((match spent (previous_output i) with
      | Some prevout => n ← witness_input_sigops prevout i; Some (sat_add c n)
      | None => Some c end) = Some (sat_add c w)) as Estep.
    { unfold witness_part in Ew. destruct (spent _); cbn in Ew; [by rewrite Ew|]. injection Ew as <-.
      f_equal. unfold sat_add. lia. }
    cbn [mbind option_bind]. rewrite Estep.
    destruct (IH ws' (sat_add c w)) as [-> Hs]; [unfold sat_add, U64_MAX in *; lia|done|].
    change (Zsum id (w :: ws')) with (w + Zsum id ws'). unfold sat_add, U64_MAX in *. split; [f_equal|]; lia.
Qed.

End Cost.

Lemma encoded_len_eq s :
  Z.of_nat (length s) < 2 ^ 64 → encoded_len s = Some (varint_size (Z.of_nat (length s)) + Z.of_nat (length s)).
Proof.
  intros Hs. unfold encoded_len. pose proof (bytes_encodes s Hs) as E. unfold encodes in E. rewrite E.
  by rewrite length_app, Nat2Z.inj_add, length_varint_bytes.
Qed.

Lemma framed_ends pre n post s : framed pre n post s ↔ ∃ mid, length mid = n ∧ s = pre ++ mid ++ post.
Proof. done. Qed.

Lemma template_p2pkh h s : length h = 20%nat →
  new_p2pkh h = Some s ↔ s = [OP_DUP; OP_HASH160; OP_PUSHBYTES_20] ++ h ++ [OP_EQUALVERIFY; OP_CHECKSIG].
Proof.
  intros Hh. unfold new_p2pkh. rewrite push_slice_short by lia. rewrite Hh.
  cbn [mbind option_bind]. unfold Builder.into_script, Builder.push_opcode, push_opcode. cbn [Builder.script_buf Builder.new].
  cbn [app]. rewrite <- !app_assoc. cbn [app]. split; [by intros [= <-]|by intros ->].
Qed.

Lemma template_p2sh h s : length h = 20%nat →
  new_p2sh h = Some s ↔ s = [OP_HASH160; OP_PUSHBYTES_20] ++ h ++ [OP_EQUAL].
Proof.
  intros Hh. unfold new_p2sh. rewrite push_slice_short by lia. rewrite Hh.
  cbn [mbind option_bind]. unfold Builder.into_script, Builder.push_opcode, push_opcode. cbn [Builder.script_buf Builder.new].
  cbn [app]. rewrite <- ?app_assoc. cbn [app]. split; [by intros [= <-]|by intros ->].
Qed.

Lemma template_p2pk c k s : (length k <= 75)%nat →
  new_p2pk c k k = Some s ↔ s = byte.of_Z (Z.of_nat (length k)) :: k ++ [OP_CHECKSIG].
Proof.
  intros Hk. unfold new_p2pk, Builder.push_key.
  assert ((if c then Builder.push_slice Builder.new k else Builder.push_slice Builder.new k) = Builder.push_slice Builder.new k) as ->
    by by destruct c.
  rewrite push_slice_short by lia. cbn [mbind option_bind]. unfold Builder.into_script, Builder.push_opcode, push_opcode.
  cbn [Builder.script_buf Builder.new app]. split; [by intros [= <-]|by intros ->].
Qed.

Lemma script_code_p2pkh h : script_code_of h = new_p2pkh h.
Proof. done. Qed.

Lemma sized_template s v n :
  (n <= 40)%nat → (2 <= n)%nat →
  ((length s =? S (S n))%nat && bool_decide (witness_version s = Some v) && byte_at s 1 (byte.of_Z (Z.of_nat n)) = true
   ↔ ∃ p, length p = n ∧ new_witness_program_unchecked v p = Some s).
Proof.
  intros Hn Hn2. rewrite sized_program by done. split; intros (p & Hp & Hs); exists p; (split; [done|]).
  - rewrite unchecked_short by lia. by rewrite Hs.
  - rewrite unchecked_short in Hs by lia. by injection Hs.
Qed.

Definition b2n (b : bool) : nat := if b then 1 else 0.

Lemma at_most_one s :
  (b2n (is_p2pk s) + b2n (is_p2pkh s) + b2n (is_p2sh s) + b2n (is_op_return s) + b2n (is_multisig s)
   + b2n (is_witness_program s) <= 1)%nat.
Proof.
  pose proof (witness_not_multisig s) as Hwm. destruct (template_first s) as (H1 & H2 & H3 & H4 & H5 & H6).
  unfold first_is, from_option in *. destruct (head s) as [b|].
  - destruct (is_p2pk s), (is_p2pkh s), (is_p2sh s), (is_op_return s), (is_multisig s), (is_witness_program s);
      cbn [b2n]; try lia;
      repeat match goal with H : true = true → _ |- _ => specialize (H eq_refl) end; try discriminate; lia.
  - destruct (is_p2pk s), (is_p2pkh s), (is_p2sh s), (is_op_return s), (is_multisig s), (is_witness_program s);
      cbn [b2n]; try lia;
      repeat match goal with H : true = true → _ |- _ => specialize (H eq_refl) end; discriminate.
Qed.

Lemma program_kinds v p :
  program_length p →
  let s := program_script v p in
  is_p2wpkh s = bool_decide (v = V0) && (length p =? 20)%nat ∧
  is_p2wsh s = bool_decide (v = V0) && (length p =? 32)%nat ∧
  is_p2tr s = bool_decide (v = V1) && (length p =? 32)%nat.
Proof.
  intros Hp s. assert (witness_version s = Some v) as Hv by (apply witness_version_spec; by exists p).
  assert (∀ n v', (n <= 40)%nat →
    (length s =? S (S n))%nat && bool_decide (witness_version s = Some v') && byte_at s 1 (byte.of_Z (Z.of_nat n))
    = bool_decide (v = v') && (length p =? n)%nat) as H.
  { intros n v' Hn. rewrite Hv. change (length s) with (S (S (length p))). cbn [Nat.eqb].
    rewrite (bool_decide_ext (Some v = Some v') (v = v')) by (split; congruence).
    destruct (Nat.eqb_spec (length p) n) as [E|]; [|by rewrite andb_false_r]. rewrite andb_true_r. cbn [andb].
    rewrite (proj2 (byte_at_true s 1 _)); [apply andb_true_r|]. by rewrite <- E. }
  split_and!; [apply (H 20%nat V0)|apply (H 32%nat V0)|apply (H 32%nat V1)]; lia.
Qed.

Lemma new_program_script w : (length (program w) <= 75)%nat →
  new_witness_program w = Some (program_script (version w) (program w)).
Proof. intros Hw. unfold new_witness_program. by rewrite push_slice_short. Qed.

Lemma program_new_spec v p :
  match program_new v p with
  | Ok w => w = {| version := v; program := p |} ∧ program_length p
  | Err (InvalidLength n) => n = length p ∧ (n < 2 ∨ 40 < n)%nat
  | Err (InvalidSegwitV0Length n) => n = length p ∧ v = V0 ∧ n ≠ 20%nat ∧ n ≠ 32%nat
  end.
Proof.
  unfold program_new, MIN_SIZE, MAX_SIZE, program_length.
  destruct (Nat.ltb_spec (length p) 2); [cbn; lia|]. destruct (Nat.ltb_spec 40 (length p)); [cbn; lia|]. cbn [orb].
  case_bool_decide; cbn [andb]; [|done].
  destruct (Nat.eqb_spec (length p) 20), (Nat.eqb_spec (length p) 32); cbn [negb andb]; try lia; by split_and!.
Qed.

Lemma dust_cost s rate :
  Z.of_nat (length s) < 2 ^ 62 →
  let size := varint_size (Z.of_nat (length s)) + Z.of_nat (length s) in
  let cost := if is_op_return s then 0 else if is_witness_program s then 75 + size else 156 + size in
  minimal_non_dust_inner s rate
  = if (0 <=? rate * cost) && (rate * cost <? 2 ^ 64) then Some (rate * cost / 1000) else None.
Proof.
  intros Hs size cost. unfold minimal_non_dust_inner. rewrite encoded_len_eq by lia. fold size.
  assert ((if is_op_return s then Some 0
     else if is_witness_program s then n ← Some size; Some (32 + 4 + 1 + (107 / 4) + 4 + 8 + n)
     else n ← Some size; Some (32 + 4 + 1 + 107 + 4 + 8 + n)) = Some cost) as ->
    by (unfold cost; destruct (is_op_return s), (is_witness_program s); reflexivity).
  cbn [mbind option_bind]. unfold checked_u64, U64_MAX.
  destruct (Z.leb_spec 0 (rate * cost)), (Z.leb_spec (rate * cost) (2 ^ 64 - 1)), (Z.ltb_spec (rate * cost) (2 ^ 64));
    try lia; done.
Qed.

Lemma framed_length pre n post s : framed pre n post s → length s = (length pre + n + length post)%nat.
Proof. intros H. by apply framed_lookup in H as (? & _ & _). Qed.

Lemma standard_lengths s :
  (is_p2pkh s = true → length s = 25%nat ∧ is_op_return s = false ∧ is_witness_program s = false) ∧
  (is_p2sh s = true → length s = 23%nat ∧ is_op_return s = false ∧ is_witness_program s = false) ∧
  (is_p2wpkh s = true → length s = 22%nat ∧ is_op_return s = false ∧ is_witness_program s = true) ∧
  (is_p2wsh s = true → length s = 34%nat ∧ is_op_return s = false ∧ is_witness_program s = true) ∧
  (is_p2tr s = true → length s = 34%nat ∧ is_op_return s = false ∧ is_witness_program s = true).
Proof.
  assert (∀ v n, (length s =? n)%nat && bool_decide (witness_version s = Some v) = true →
    length s = n ∧ is_op_return s = false ∧ is_witness_program s = true) as Hw.
  { intros v n [E%Nat.eqb_eq Hv%bool_decide_eq_true]%andb_true_iff. split; [done|].
    assert (is_witness_program s = true) as Hp by (apply bool_decide_eq_true; by exists v).
    pose proof (at_most_one s) as H1. rewrite Hp in H1. destruct (is_op_return s); [cbn in H1; lia|done]. }
  split_and!.
  - intros H. pose proof (at_most_one s) as H1. rewrite H in H1. apply is_p2pkh_framed, framed_length in H.
    destruct (is_op_return s), (is_witness_program s); cbn [b2n] in H1; try lia. done.
  - intros H. pose proof (at_most_one s) as H1. rewrite H in H1. apply is_p2sh_framed, framed_length in H.
    destruct (is_op_return s), (is_witness_program s); cbn [b2n] in H1; try lia. done.
  - intros [H _]%andb_true_iff. by apply (Hw V0).
  - intros [H _]%andb_true_iff. by apply (Hw V0).
  - intros [H _]%andb_true_iff. by apply (Hw V1).
Qed.

Lemma legacy_core s : Z.of_nat (length s) < 2 ^ 59 → count_sigops_legacy s = core_count false s.
Proof. intros Hs. unfold count_sigops_legacy. rewrite count_internal by done. apply sigops_legacy. Qed.

(** ** Properties *)

(** The script templates.  A script satisfies the predicate of a template exactly
    when the constructor makes it from a hash or key of the right length, no script
    is of two kinds (P2PK, P2PKH, P2SH, OP_RETURN, bare multisig, witness program; and
    of witness programs P2WPKH, P2WSH, P2TR), and the script code of a P2WPKH output is
    the P2PKH script of its program. *)
Theorem script_templates s :
  (is_p2pkh s = true ↔ ∃ h, length h = 20%nat ∧ new_p2pkh h = Some s) ∧
  (is_p2sh s = true ↔ ∃ h, length h = 20%nat ∧ new_p2sh h = Some s) ∧
  (∀ k, p2pk_pubkey_bytes s = Some k ↔
        (length k = 65%nat ∨ length k = 33%nat) ∧ new_p2pk (length k =? 33)%nat k k = Some s) ∧
  (is_p2wpkh s = true ↔ ∃ h, length h = 20%nat ∧ new_p2wpkh h = Some s) ∧
  (is_p2wsh s = true ↔ ∃ h, length h = 32%nat ∧ new_p2wsh h = Some s) ∧
  (is_p2tr s = true ↔ ∃ k, length k = 32%nat ∧ new_p2tr_tweaked k = Some s) ∧
  (b2n (is_p2pk s) + b2n (is_p2pkh s) + b2n (is_p2sh s) + b2n (is_op_return s) + b2n (is_multisig s)
   + b2n (is_witness_program s) <= 1)%nat ∧
  (b2n (is_p2wpkh s) + b2n (is_p2wsh s) + b2n (is_p2tr s) <= b2n (is_witness_program s))%nat ∧
  p2wpkh_script_code s = (if is_p2wpkh s then new_p2pkh (drop 2 s) else None).
Proof.
  split_and!.
  - rewrite is_p2pkh_framed. split; intros (h & Hh & Hs); exists h; (split; [done|]); by apply template_p2pkh.
  - rewrite is_p2sh_framed. split; intros (h & Hh & Hs); exists h; (split; [done|]); by apply template_p2sh.
  - intros k. rewrite p2pk_pubkey_bytes_spec. split; intros [Hk Hs]; (split; [done|]).
    + by apply template_p2pk; [lia|].
    + apply template_p2pk in Hs; [done|lia].
  - apply (sized_template s V0 20); lia.
  - apply (sized_template s V0 32); lia.
  - apply (sized_template s V1 32); lia.
  - apply at_most_one.
  - unfold is_p2wpkh, is_p2wsh, is_p2tr, is_witness_program.
    destruct (witness_version s) as [v|]; [|by rewrite !andb_false_r].
    rewrite (bool_decide_eq_true_2 (is_Some _)) by done.
    destruct (Nat.eqb_spec (length s) 22) as [->|_]; cbn [andb Nat.eqb b2n]; [destruct (_ && _); cbn; lia|].
    destruct (Nat.eqb_spec (length s) 34) as [_|_]; cbn [andb b2n]; [|lia].
    repeat case_bool_decide; cbn [andb b2n]; try congruence;
      try destruct (byte_at s 1 _); cbn; lia.
  - done.
Qed.

(** Witness programs.  [WitnessProgram::new] accepts 2 to 40 bytes, for version 0
    only 20 and 32, and says why it refuses others; the script of a program has its
    version and bytes and is of the kind of the program; conversely every script with
    a witness version is the script of its version and its bytes from the third on, its
    two instructions are the version (by the conversion from instructions, too) and
    the program. *)
Theorem witness_program_roundtrip v p :
  match program_new v p with
  | Ok w =>
      version w = v ∧ program w = p ∧ ∃ s, new_witness_program w = Some s ∧
        witness_version s = Some v ∧ drop 2 s = p ∧
        is_p2wpkh s = program_is_p2wpkh w ∧ is_p2wsh s = program_is_p2wsh w ∧ is_p2tr s = program_is_p2tr w
  | Err (InvalidLength n) => n = length p ∧ (n < 2 ∨ 40 < n)%nat
  | Err (InvalidSegwitV0Length n) => n = length p ∧ v = V0 ∧ n ≠ 20%nat ∧ n ≠ 32%nat
  end ∧
  (∀ s, witness_version s = Some v ∧ drop 2 s = p ↔
        (2 <= length p <= 40)%nat ∧ new_witness_program_unchecked v p = Some s) ∧
  (∀ s, witness_version s = Some v → ∃ i, instructions s = [Ok i; Ok (PushBytes (drop 2 s))] ∧
        version_try_from_instruction i = Ok v).
Proof.
  split_and!.
  - pose proof (program_new_spec v p) as H. destruct (program_new v p) as [w|e]; [|done]. destruct H as [-> Hp].
    split_and!; [done..|]. exists (program_script v p). destruct (program_kinds v p Hp) as (H1 & H2 & H3).
    split_and!; [|apply witness_version_spec; by exists p|done|done|done|done].
    apply new_program_script. cbn. destruct Hp. lia.
  - intros s. rewrite witness_version_spec. split.
    + intros [(p' & Hp & ->) <-]. split; [done|]. apply unchecked_short. destruct Hp. cbn [program_script drop]. lia.
    + intros [Hp Hs]. rewrite unchecked_short in Hs by lia. injection Hs as <-. split; [by exists p|done].
  - intros s (q & [_ Hq] & ->)%witness_version_spec. assert (length q <= 75)%nat as Hq' by lia.
    eexists. split; [exact (program_instructions v q Hq')|]. by destruct v.
Qed.

(** Dust.  The limit is the relay fee for the serialised output and an input that
    spends it: the values known for the standard templates, nothing for data outputs,
    and in general the product rounded down; it panics only when that exceeds 64
    bits. *)
Theorem dust_limits s rate :
  Z.of_nat (length s) < 2 ^ 62 → 0 <= rate < 2 ^ 62 →
  (is_p2pkh s = true → minimal_non_dust s = Some 546) ∧ (is_p2sh s = true → minimal_non_dust s = Some 540) ∧
  (is_p2wpkh s = true → minimal_non_dust s = Some 294) ∧ (is_p2wsh s = true → minimal_non_dust s = Some 330) ∧
  (is_p2tr s = true → minimal_non_dust s = Some 330) ∧ (is_op_return s = true → minimal_non_dust s = Some 0) ∧
  minimal_non_dust_custom s FeeRate.DUST = minimal_non_dust s ∧
  (let size := varint_size (Z.of_nat (length s)) + Z.of_nat (length s) in
   let cost := if is_op_return s then 0 else if is_witness_program s then 75 + size else 156 + size in
   minimal_non_dust_custom s rate
   = if 4 * rate * cost <? 2 ^ 64 then Some (4 * rate * cost / 1000) else None).
Proof.
  intros Hs Hr. destruct (standard_lengths s) as (H1 & H2 & H3 & H4 & H5). unfold minimal_non_dust, minimal_non_dust_custom.
  split_and!.
  1-5: intros H; first [apply H1 in H|apply H2 in H|apply H3 in H|apply H4 in H|apply H5 in H];
    destruct H as (E1 & E2 & E3); rewrite dust_cost, E1, E2, E3 by done; reflexivity.
  - intros H. by rewrite dust_cost, H by done.
  - reflexivity.
  - rewrite uwrap_small by (unfold urange; lia). rewrite dust_cost by done. cbv zeta.
    set (cost := if is_op_return s then _ else _).
    assert (0 <= cost).
    { unfold cost. pose proof (varint_size_pos (Z.of_nat (length s))). destruct (is_op_return s), (is_witness_program s); lia. }
    rewrite (Z.mul_comm rate 4). destruct (Z.leb_spec 0 (4 * rate * cost)); [done|nia].
Qed.

(** C16: signature operations.  The legacy count is that of Bitcoin Core for every
    script; the accurate count never exceeds Core's, and is Core's unless a multisig
    check directly follows another signature check. *)
Theorem sigops_as_core s :
  Z.of_nat (length s) < 2 ^ 59 →
  count_sigops_legacy s = core_count false s ∧
  0 <= count_sigops s <= core_count true s ∧ core_count true s <= core_count false s ∧
  (separated false (instructions s) = true → count_sigops s = core_count true s).
Proof.
  intros Hs. split; [by apply legacy_core|]. unfold count_sigops, core_count. rewrite !count_internal by done. split_and!.
  - by apply sigops_sum_range.
  - by apply sigops_accurate; [|left].
  - apply core_accurate_le.
  - intros Hsep. by eapply sigops_accurate_eq.
Qed.

(** The cost of a transaction: four times the legacy count of all its scripts and
    of the redeem scripts it reveals, and the witness counts once, saturated at 64 bits
    (exactly, though the sums saturate one by one); and the witness part of an input is
    one for P2WPKH, the count of the witness script for P2WSH, in the output or in
    a pushed redeem script, and nothing for other outputs. *)
Theorem sigop_cost `{Mimblewimble.PublicKeys} tx spent ws :
  mapM (witness_part spent) (input tx) = Some ws →
  Forall (λ i, Z.of_nat (length (script_sig i)) < 2 ^ 59) (input tx) →
  Forall (λ o, Z.of_nat (length (script_pubkey o)) < 2 ^ 59) (output tx) →
  let legacy := Zsum (λ i, core_count false (script_sig i)) (input tx)
                + Zsum (λ o, core_count false (script_pubkey o)) (output tx) in
  total_sigop_cost tx spent
  = Some (Z.min (4 * legacy + 4 * Zsum (p2sh_part spent) (input tx) + Zsum id ws) U64_MAX) ∧
  (∀ i o, spent (previous_output i) = Some o →
     witness_part spent i
     = (let program := if is_witness_program (script_pubkey o) then Some (script_pubkey o)
                       else if is_p2sh (script_pubkey o) && is_push_only (script_sig i)
                       then last_pushdata (script_sig i) else None in
        match program with
        | Some p => if is_p2wpkh p then Some 1
                    else if is_p2wsh p then from_option count_sigops 0 <$> Witness.last (witness i)
                    else Some 0
        | None => Some 0
        end)).
Proof.
  intros Hws Hin Hout legacy. split.
  - unfold total_sigop_cost. destruct (count_witness_sum spent tx ws Hws) as [-> Hw]. cbn [mbind option_bind].
    rewrite count_p2sh_sum. f_equal.
    assert (∀ {A} (f : A → script) l, Forall (λ a, Z.of_nat (length (f a)) < 2 ^ 59) l →
      Zsum (λ a, count_sigops_legacy (f a)) l = Zsum (λ a, core_count false (f a)) l) as Hcore.
    { intros A f l Hl. induction Hl as [|a l Ha Hl IH]; [done|]. cbn [Zsum foldr]. unfold Zsum in IH. rewrite IH.
      f_equal. by apply legacy_core. }
    assert (count_p2pk_p2pkh_sigops tx = Z.min legacy U64_MAX ∧ 0 <= legacy) as [-> Hl].
    { unfold count_p2pk_p2pkh_sigops.
      destruct (foldl_sat_add (λ i, count_sigops_legacy (script_sig i)) 0 (input tx)) as [-> H1];
        [unfold U64_MAX; lia|intros; apply count_internal_nonneg|].
      destruct (foldl_sat_add (λ o, count_sigops_legacy (script_pubkey o))
        (Z.min (0 + Zsum (λ i, count_sigops_legacy (script_sig i)) (input tx)) U64_MAX) (output tx)) as [-> H2];
        [unfold U64_MAX; lia|intros; apply count_internal_nonneg|].
      rewrite (Hcore _ _ _ Hin) in *. rewrite (Hcore _ _ _ Hout) in *. unfold legacy, U64_MAX in *. lia. }
    pose proof (foldl_sat_add (p2sh_part spent) 0 (input tx) ltac:(unfold U64_MAX; lia) (p2sh_part_nonneg spent)) as [_ Hp].
    unfold sat_add, sat_mul, U64_MAX in *. lia.
  - intros i o Ho. unfold witness_part, witness_input_sigops. rewrite Ho. cbn [from_option].
    destruct (is_witness_program _); [|destruct (_ && _); [destruct (last_pushdata _)|]]; try done;
      unfold witness_program_sigops; destruct (is_p2wpkh _); try done; destruct (is_p2wsh _); try done;
      by destruct (Witness.last _).
Qed.

(** ** Examples *)

(** Any opcode that is no number stands for the number of keys, and the [u8] that
    counts keys wraps. *)
Theorem multisig_without_count :
  is_multisig ([OP_PUSHNUM_1] ++ (OP_PUSHBYTES_33 :: replicate 33 x02) ++ [OP_CHECKSIG; OP_CHECKMULTISIG]) = true ∧
  is_multisig ([OP_PUSHNUM_1] ++ replicate 257 OP_0 ++ [OP_PUSHNUM_1; OP_CHECKMULTISIG]) = true.
Proof. split; vm_compute; reflexivity. Qed.

(** The number before a multisig check also serves the checks right after it. *)
Theorem sigops_stale_number :
  let s := [x52; OP_CHECKMULTISIG; OP_CHECKMULTISIG] in count_sigops s = 4 ∧ core_count true s = 22.
Proof. split; vm_compute; reflexivity. Qed.

(** The rate times four wraps where overflow is not checked: dust of nothing. *)
Theorem dust_rate_wraps : minimal_non_dust_custom [OP_DUP] (2 ^ 62) = Some 0.
Proof. vm_compute. reflexivity. Qed.

Definition sample_p2pkh : script :=
  [OP_DUP; OP_HASH160; OP_PUSHBYTES_20] ++ replicate 20 x07 ++ [OP_EQUALVERIFY; OP_CHECKSIG].

Lemma dust_limits_witness : minimal_non_dust sample_p2pkh = Some 546.
Proof.
  destruct (dust_limits sample_p2pkh 750) as [H _]; [reflexivity|lia|]. apply H. vm_compute. reflexivity.
Defined.

Definition two_of_three : script := [x52; OP_0; OP_0; OP_0; x53; OP_CHECKMULTISIG].

Lemma sigops_as_core_witness : count_sigops two_of_three = core_count true two_of_three ∧ core_count true two_of_three = 3.
Proof. split; [apply (sigops_as_core two_of_three)|]; vm_compute; reflexivity. Defined.

Definition sample_spend : Transaction (H := PlainKeys.plain_keys) :=
  {| Transaction.version := 2; lock_time := Absolute.Blocks 0;
     input := [{| previous_output := outpoint_null; script_sig := []; sequence := 0; witness := witness_new |}];
     output := [{| value := 1; script_pubkey := sample_p2pkh |}]; mw_tx := None; is_hog_ex := false |}.

Definition sample_p2wpkh : script := program_script V0 (replicate 20 x07).

Lemma sigop_cost_witness :
  total_sigop_cost (H := PlainKeys.plain_keys) sample_spend (λ _, Some {| value := 2; script_pubkey := sample_p2wpkh |})
  = Some (Z.min (4 * (0 + (1 + 0)) + 4 * 0 + Zsum id [1]) U64_MAX).
Proof.
  apply (sigop_cost (H := PlainKeys.plain_keys) sample_spend (λ _, Some {| value := 2; script_pubkey := sample_p2wpkh |}) [1]);
    [vm_compute; reflexivity|constructor; [reflexivity|constructor]|constructor; [reflexivity|constructor]].
Defined.
