(* ===== verification/Block.v ===== *)
(** Blocks ([src/litecoin/src/blockdata/block.rs]): headers with their proof of work,
    MWEB extension blocks, blocks with their commitments, sizes and height, and the
    [MerkleBlock] of [merkle_tree/block.rs]. *)

From S2P Require Import Witness.
From Stdlib Require Import String ZArith Lia ZifyBool.
From stdpp Require Import base list.
From Stdlib Require Import Init.Byte.
From coqutil Require Import Byte Word.LittleEndianList.
From S2P Require Import Prelude Io HashEngine Sha256 Encode Mimblewimble Units Locktime.
From S2P Require Import MerkleTree Pow Opcodes Script Transaction.

(** ** Headers *)

Module Header.

Record Header := {
  version : Z; prev_blockhash : list byte; merkle_root : list byte; time : Z; bits : Z; nonce : Z }.

Definition SIZE : Z := 4 + 32 + 32 + 4 + 4 + 4.

(** [impl_consensus_encoding!(Header, version, prev_blockhash, merkle_root, time, bits,
    nonce)]; [Version] and [CompactTarget] encode as the integers they wrap. *)
Definition header_encode (h : Header) : wr Z :=
  let len := 0 in
  let+ len := w_add len (c_enc i32 (version h)) in
  let+ len := w_add len (c_enc (array 32) (prev_blockhash h)) in
  let+ len := w_add len (c_enc (array 32) (merkle_root h)) in
  let+ len := w_add len (c_enc u32 (time h)) in
  let+ len := w_add len (c_enc u32 (bits h)) in
  let+ len := w_add len (c_enc u32 (nonce h)) in
  w_ret len.

Definition header_decode : rd Header :=
  let! version := c_dec i32 in
  let! prev_blockhash := c_dec (array 32) in
  let! merkle_root := c_dec (array 32) in
  let! time := c_dec u32 in
  let! bits := c_dec u32 in
  let! nonce := c_dec u32 in
  rd_ret {| version := version; prev_blockhash := prev_blockhash; merkle_root := merkle_root;
            time := time; bits := bits; nonce := nonce |}.

Definition header_decode_top : rd Header :=
  rd_take MAX_VEC_SIZE
    (let! version := c_dec_top i32 in
     let! prev_blockhash := c_dec_top (array 32) in
     let! merkle_root := c_dec_top (array 32) in
     let! time := c_dec_top u32 in
     let! bits := c_dec_top u32 in
     let! nonce := c_dec_top u32 in
     rd_ret {| version := version; prev_blockhash := prev_blockhash; merkle_root := merkle_root;
               time := time; bits := bits; nonce := nonce |}).

Definition header_codec : codec Header := Codec header_encode header_decode header_decode_top.

(** [None] is the panic of [expect("engines don't error")]. *)
Definition block_hash (h : Header) : option (list byte) := hash_written (c_enc header_codec h).

Definition target (h : Header) : u256 := Target.from_compact (bits h).

(** [Header::difficulty] *)
Definition header_difficulty (h : Header) (p : Params.Params) : option Z := difficulty (target h) p.

Definition work (h : Header) : option u256 := Target.to_work (target h).

Inductive ValidationError := BadProofOfWork | BadTarget.

Definition validate_pow (h : Header) (required_target : u256) : option (result ValidationError (list byte)) :=
  let target := target h in
  if negb (bool_decide (target = required_target)) then Some (Err BadTarget)
  else
    block_hash ← block_hash h;
    Some (if Target.is_met_by target block_hash then Ok block_hash else Err BadProofOfWork).

(** [Version] *)
Definition ONE : Z := 1.
Definition TWO : Z := 2.
Definition VERSION_BITS_MASK : Z := 0x1FFFFFFF.
Definition USE_VERSION_BITS : Z := 0x20000000.
Definition NO_SOFT_FORK_SIGNALLING : Z := swrap 32 USE_VERSION_BITS.

Definition is_signalling_soft_fork (v bit : Z) : bool :=
  if 28 <? bit then false
  else if negb (Z.land (uwrap 32 v) (uwrap 32 (Z.lnot VERSION_BITS_MASK)) =? USE_VERSION_BITS) then false
  else 0 <? Z.land (Z.land (uwrap 32 v) VERSION_BITS_MASK) (Z.shiftl 1 bit).

(** [CompactTarget::from_header_difficulty_adjustment]; the subtraction of the [u32]
    times wraps in a build without overflow checks. *)
Definition from_header_difficulty_adjustment (last_epoch_boundary current : Header) (p : Params.Params)
    : option Z :=
  let timespan := uwrap 32 (time current - time last_epoch_boundary) in
  from_next_work_required (bits current) timespan p.

End Header.

(** ** MWEB extension blocks *)

Record MwebBlockHeader := {
  height : Z; output_root : list byte; kernel_root : list byte; leafset_root : list byte;
  mweb_kernel_offset : list byte; mweb_stealth_offset : list byte;
  output_mmr_size : Z; kernel_mmr_size : Z }.

Definition mweb_header_encode (h : MwebBlockHeader) : wr Z :=
  let len := 0 in
  let+ len := w_add len (c_enc compact_codec (height h)) in
  let+ len := w_add len (c_enc (array 32) (output_root h)) in
  let+ len := w_add len (c_enc (array 32) (kernel_root h)) in
  let+ len := w_add len (c_enc (array 32) (leafset_root h)) in
  let+ len := w_add len (c_enc (array 32) (mweb_kernel_offset h)) in
  let+ len := w_add len (c_enc (array 32) (mweb_stealth_offset h)) in
  let+ len := w_add len (c_enc compact_codec (output_mmr_size h)) in
  let+ len := w_add len (c_enc compact_codec (kernel_mmr_size h)) in
  w_ret len.

Definition mweb_header_decode : rd MwebBlockHeader :=
  let! raw_height := c_dec compact_codec in
  let! height := (if raw_height <=? U32_MAX then rd_ret raw_height
                  else rd_err (ParseFailed "MwebBlockHeader height out of range")) in
  let! output_root := c_dec_top (array 32) in
  let! kernel_root := c_dec_top (array 32) in
  let! leafset_root := c_dec_top (array 32) in
  let! kernel_offset := c_dec_top (array 32) in
  let! stealth_offset := c_dec_top (array 32) in
  let! output_mmr_size := c_dec compact_codec in
  let! kernel_mmr_size := c_dec compact_codec in
  rd_ret {| height := height; output_root := output_root; kernel_root := kernel_root;
            leafset_root := leafset_root; mweb_kernel_offset := kernel_offset;
            mweb_stealth_offset := stealth_offset; output_mmr_size := output_mmr_size;
            kernel_mmr_size := kernel_mmr_size |}.

Definition mweb_header_codec : codec MwebBlockHeader := finite_codec mweb_header_encode mweb_header_decode.

Section Blocks.
Context `{PublicKeys}.

Record MwebBlock := { mweb_header : MwebBlockHeader; tx_body : TxBody }.

Definition mweb_block_encode (b : MwebBlock) : wr Z :=
  let len := 0 in
  let+ len := w_add len (c_enc mweb_header_codec (mweb_header b)) in
  let+ len := w_add len (c_enc body_codec (tx_body b)) in
  w_ret len.

Definition mweb_block_decode : rd MwebBlock :=
  let! header := c_dec mweb_header_codec in
  let! tx_body := c_dec body_codec in
  rd_ret {| mweb_header := header; tx_body := tx_body |}.

Definition mweb_block_codec : codec MwebBlock := finite_codec mweb_block_encode mweb_block_decode.

(** ** Blocks *)

Record Block := {
  header : Header.Header; txdata : list Transaction; mweb_block : option MwebBlock }.

Definition MWEB_VERSION_BIT : Z := 0x20000000.

Definition block_carries_mweb (version : Z) (txdata : list Transaction) : bool :=
  (2 <=? length txdata)%nat && negb (Z.land version MWEB_VERSION_BIT =? 0)
  && from_option is_hog_ex false (last txdata).

Definition write_mweb_block (b : Block) (len : Z) : wr Z :=
  if block_carries_mweb (Header.version (header b)) (txdata b) then
    match mweb_block b with
    | Some mw =>
        let+ len := w_add len (c_enc u8 1) in
        let+ len := w_add len (c_enc mweb_block_codec mw) in
        w_ret len
    | None =>
        let+ len := w_add len (c_enc u8 0) in
        w_ret len
    end
  else w_ret len.

Definition block_encode (b : Block) : wr Z :=
  let len := 0 in
  let+ len := w_add len (c_enc Header.header_codec (header b)) in
  let+ len := w_add len (c_enc (vec transaction_codec) (txdata b)) in
  write_mweb_block b len.

Definition read_mweb_block (version : Z) (txdata : list Transaction) : rd (option MwebBlock) :=
  if block_carries_mweb version txdata then
    let! present := c_dec u8 in
    if negb (present =? 0) then let! mw := c_dec mweb_block_codec in rd_ret (Some mw) else rd_ret None
  else rd_ret None.

Definition block_decode : rd Block :=
  let! header := c_dec Header.header_codec in
  let! txdata := c_dec (vec transaction_codec) in
  if existsb is_hog_ex (take (length txdata - 1) txdata)
  then rd_err (ParseFailed "HogEx must be the last transaction")
  else
    let! mweb_block := read_mweb_block (Header.version header) txdata in
    rd_ret {| header := header; txdata := txdata; mweb_block := mweb_block |}.

Definition block_codec : codec Block := finite_codec block_encode block_decode.

Definition block_hash (b : Block) : option (list byte) := Header.block_hash (header b).

(** The roots: the outer option is a panic while hashing, the inner one the result. *)
Definition compute_merkle_root (b : Block) : option (option node) :=
  hashes ← mapM compute_txid (txdata b);
  Some (calculate_root hashes).

Definition check_merkle_root (b : Block) : option bool :=
  root ← compute_merkle_root b;
  Some (match root with
        | Some merkle_root => bool_decide (Header.merkle_root (header b) = merkle_root)
        | None => false
        end).

Definition compute_witness_commitment (witness_root witness_reserved_value : list byte) : list byte :=
  let encoder := engine_default in
  let encoder := HashEngine.input encoder witness_root in
  let encoder := HashEngine.input encoder witness_reserved_value in
  sha256d_from_engine encoder.

Definition witness_hash (i : nat) (t : Transaction) : option node :=
  if (i =? 0)%nat then Some (replicate 32 x00) else compute_wtxid t.

Definition witness_root (b : Block) : option (option node) :=
  hashes ← mapM (λ '(i, t), witness_hash i t) (imap pair (txdata b));
  Some (calculate_root hashes).

Definition MAGIC : list byte := [x6a; x24; xaa; x21; xa9; xed].

Definition is_commitment (o : TxOut) : bool :=
  (38 <=? length (script_pubkey o))%nat && bool_decide (take 6 (script_pubkey o) = MAGIC).

(** [slice.iter().rposition(p)] *)
Definition rposition {A} (p : A → bool) (l : list A) : option nat :=
  match list_find (λ a, p a = true) (rev l) with
  | Some (i, _) => Some (length l - 1 - i)%nat
  | None => None
  end.

Definition check_witness_commitment (b : Block) : option bool :=
  if forallb (λ t, forallb (λ i, is_empty (witness i)) (Transaction.input t)) (txdata b) then Some true
  else
    match txdata b with
    | [] => Some false
    | coinbase :: _ =>
        if negb (is_coinbase coinbase) then Some false
        else
          match rposition is_commitment (output coinbase) with
          | None => Some false
          | Some pos =>
              o ← output coinbase !! pos;
              let commitment := take 32 (drop 6 (script_pubkey o)) in
              i ← Transaction.input coinbase !! 0%nat;
              witness_vec ← to_vec (witness i);
              match witness_vec with
              | [reserved] =>
                  if (length reserved =? 32)%nat then
                    root ← witness_root b;
                    Some (match root with
                          | Some root => bool_decide (commitment = compute_witness_commitment root reserved)
                          | None => false
                          end)
                  else Some false
              | _ => Some false
              end
          end
    end.

(** Sizes, as for transactions. *)
Definition block_base_size (b : Block) : Z :=
  let size := Header.SIZE in
  let size := size + varint_size (Z.of_nat (length (txdata b))) in
  size + zsum (map base_size (txdata b)).

Definition block_total_size (b : Block) : option Z :=
  let size := Header.SIZE in
  let size := size + varint_size (Z.of_nat (length (txdata b))) in
  txs ← mapM total_size (txdata b);
  Some (size + zsum txs).

Definition block_weight (b : Block) : option Z :=
  total ← block_total_size b;
  Some (block_base_size b * 3 + total).

Definition coinbase (b : Block) : option Transaction := head (txdata b).

Inductive Bip34Error :=
| Unsupported
| NotPresent
| UnexpectedPush (b : list byte)
| NegativeHeight.

Definition bip34_block_height (b : Block) : result Bip34Error Z :=
  if Header.version (header b) <? Header.TWO then Err Unsupported
  else
    let? cb := ok_or (coinbase b) NotPresent in
    let? input := ok_or (head (Transaction.input cb)) NotPresent in
    let? push := ok_or (fst (next (instructions_minimal_iter (script_sig input)))) NotPresent in
    let? push := result_map_err (λ _, NotPresent) push in
    match push with
    | PushBytes bs =>
        let? h := result_map_err (λ _, UnexpectedPush bs) (read_scriptint bs) in
        if h <? 0 then Err NegativeHeight else Ok (uwrap 64 h)
    | Op _ => Err NotPresent
    end.

(** ** Merkle blocks *)

Record MerkleBlock := { mb_header : Header.Header; txn : PartialMerkleTree }.

Definition from_header_txids_with_predicate (h : Header.Header) (block_txids : list node) (match_txids : node → bool)
    : option MerkleBlock :=
  let matches := map match_txids block_txids in
  pmt ← from_txids block_txids matches;
  Some {| mb_header := h; txn := pmt |}.

Definition from_block_with_predicate (b : Block) (match_txids : node → bool) : option MerkleBlock :=
  block_txids ← mapM compute_txid (txdata b);
  from_header_txids_with_predicate (header b) block_txids match_txids.

(** [MerkleBlock::extract_matches]: the matches and their indexes; the error of the
    root is [MerkleRootMismatch]. *)
Definition merkle_block_matches (mb : MerkleBlock) : result MerkleBlockError (list node * list Z) :=
  let? (merkle_root, matches, indexes) := extract_matches (txn mb) in
  if bool_decide (merkle_root = Header.merkle_root (mb_header mb)) then Ok (matches, indexes)
  else Err MerkleRootMismatch.

Definition merkle_block_encode (mb : MerkleBlock) : wr Z :=
  let+ n := c_enc Header.header_codec (mb_header mb) in
  w_add n (c_enc pmt_codec (txn mb)).

Definition merkle_block_decode : rd MerkleBlock :=
  let! header := c_dec_top Header.header_codec in
  let! txn := c_dec_top pmt_codec in
  rd_ret {| mb_header := header; txn := txn |}.

Definition merkle_block_codec : codec MerkleBlock := fixed_codec merkle_block_encode merkle_block_decode.

End Blocks.

(** ** The codecs *)

Record header_wf (h : Header.Header) : Prop := {
  hwf_version : srange 32 (Header.version h);
  hwf_prev : is_array 32 (Header.prev_blockhash h);
  hwf_root : is_array 32 (Header.merkle_root h);
  hwf_time : urange 32 (Header.time h);
  hwf_bits : urange 32 (Header.bits h);
  hwf_nonce : urange 32 (Header.nonce h) }.

#[export] Instance header_roundtrip : RoundTrip Header.header_codec header_wf.
Proof. intros [] []. cbn in *. seg_roundtrip. Qed.

#[export] Instance header_canonical : Canonical Header.header_codec header_wf.
Proof.
  intros s h rest Hd. change (c_dec Header.header_codec) with Header.header_decode in Hd.
  unfold Header.header_decode in Hd. inv_ok. canonical_fields. split; [by constructor|]. canonical_finish.
Qed.

#[export] Instance header_len : EncodeLen Header.header_codec.
Proof. intros h n bs. eapply wlen_start; [reflexivity|]. wlen_chain. Qed.

Lemma seg_bind_ret {A B} W (K : A → rd B) x y : seg W (K x) y → seg W (rd_bind (rd_ret x) K) y.
Proof. intros (bs & Hw & Hr). exists bs. split; [exact Hw|exact Hr]. Qed.

Record mweb_header_wf (h : MwebBlockHeader) : Prop := {
  mhwf_height : urange 32 (height h);
  mhwf_output : is_array 32 (output_root h);
  mhwf_kernel : is_array 32 (kernel_root h);
  mhwf_leafset : is_array 32 (leafset_root h);
  mhwf_koffset : is_array 32 (mweb_kernel_offset h);
  mhwf_soffset : is_array 32 (mweb_stealth_offset h);
  mhwf_osize : is_u64 (output_mmr_size h);
  mhwf_ksize : is_u64 (kernel_mmr_size h) }.

#[export] Instance mweb_header_roundtrip : RoundTrip mweb_header_codec mweb_header_wf.
Proof.
  intros [] []. cbn in *. assert (is_u64 height0) by (unfold is_u64, U64_MAX, urange in *; lia).
  eapply seg_start; [reflexivity|]. change (c_dec mweb_header_codec) with mweb_header_decode. unfold mweb_header_decode.
  eapply seg_bind; [seg_field|]. cbn [height]. destruct (Z.leb_spec height0 U32_MAX); [|unfold urange, U32_MAX in *; lia].
  apply seg_bind_ret. seg_chain.
Qed.

#[export] Instance mweb_header_canonical : Canonical mweb_header_codec mweb_header_wf.
Proof.
  intros s h rest Hd. change (c_dec mweb_header_codec) with mweb_header_decode in Hd. unfold mweb_header_decode in Hd.
  apply rd_bind_ok in Hd as (raw & s1 & Hraw & Hd). apply canonical in Hraw as (Hraw & b0 & He0 & ->).
  destruct (Z.leb_spec raw U32_MAX); [|done]. apply rd_bind_ok in Hd as (x & s2 & [= -> <-] & Hd). inv_ok.
  canonical_fields. split; [constructor; try done; unfold is_u64, U32_MAX, urange in *; cbn; lia|]. canonical_finish.
Qed.

#[export] Instance mweb_header_len : EncodeLen mweb_header_codec.
Proof. intros h n bs. eapply wlen_start; [reflexivity|]. wlen_chain. Qed.

(** A vector of a type with several encodings: what is decoded is well formed, and
    if the elements are of the kind that has one, the bytes are the encoding. *)
Lemma vec_decoded {A} (c : codec A) (wf P : A → Prop) :
  (∀ s x rest, c_dec c s = Ok (x, rest) → wf x ∧ (P x → ∃ bs, encodes c x bs ∧ s = bs ++ rest)) →
  ∀ s xs rest, c_dec (vec c) s = Ok (xs, rest) →
  vec_wf wf xs ∧ (Forall P xs → ∃ bs, encodes (vec c) xs bs ∧ s = bs ++ rest).
Proof.
  intros Hc.
  assert (∀ n s acc r rest len,
    nat_loop (λ st, (let! x := c_dec c in rd_ret (fst st ++ [x])) (snd st)) n (acc, s) = Ok (r, rest) →
    ∃ xs, r = acc ++ xs ∧ length xs = n ∧ Forall wf xs ∧
      (Forall P xs → ∃ bs, s = bs ++ rest ∧
        w_for (λ len x, w_add len (c_enc c x)) len xs = Ok (len + Z.of_nat (length bs), bs))) as Hloop.
  { induction n as [|n IH]; intros s acc r rest len; cbn.
    - intros [= <- <-]. exists []. rewrite app_nil_r. split_and!; try done. intros _. exists [].
      split; [done|]. cbn. by rewrite Z.add_0_r.
    - unfold rd_bind at 1. destruct (c_dec c s) as [[x s']|] eqn:Hx; [|done]. cbn. intros Hl.
      destruct (Hc _ _ _ Hx) as [Hwf Hcan].
      destruct (IH _ _ _ _ 0 Hl) as (xs & -> & <- & Hxs & _).
      exists (x :: xs). rewrite <- app_assoc. split_and!; [done|done|by constructor|].
      intros HP. apply Forall_cons in HP as [HPx HPxs]. destruct (Hcan HPx) as (b & He & ->).
      destruct (IH _ _ _ _ (len + Z.of_nat (length b)) Hl) as (xs' & Exs & _ & _ & Hf).
      apply app_inv_head in Exs as <-. destruct (Hf HPxs) as (bs & -> & Hw).
      exists (b ++ bs). rewrite <- app_assoc. split; [done|]. cbn [w_for].
      erewrite w_bind_of by eauto using w_add_of. do 2 f_equal. rewrite length_app. lia. }
  intros s xs rest Hd. cbn [c_dec vec finite_codec] in Hd. unfold vec_decode in Hd.
  apply rd_bind_ok in Hd as (n & s' & Hn & Hd). cbn [c_dec varint fixed_codec] in Hn.
  apply varint_decode_ok in Hn as [Hn ->]. rewrite rd_for_nat in Hd.
  destruct (Hloop _ _ _ _ _ (varint_size n) Hd) as (ys & -> & Hl & Hwf & Hcan). cbn [app].
  assert (Z.of_nat (length ys) = n) as <- by (unfold urange in Hn; lia).
  split; [split; [done|unfold urange in Hn; lia]|]. intros HP. destruct (Hcan HP) as (bs & -> & He).
  exists (varint_bytes (Z.of_nat (length ys)) ++ bs). rewrite app_assoc. split; [|done].
  apply encodes_intro with (n := varint_size (Z.of_nat (length ys)) + Z.of_nat (length bs)).
  - cbn [c_enc vec finite_codec]. unfold vec_encode. eapply w_bind_of; [|exact He].
    apply (w_add_of 0). by apply varint_encode_eq.
  - rewrite length_app, Nat2Z.inj_add, length_varint_bytes. done.
Qed.

Section Laws.
Context `{Hpk : PublicKeyLaws}.

Record mweb_block_wf (b : MwebBlock) : Prop := {
  mbwf_header : mweb_header_wf (mweb_header b);
  mbwf_body : body_wf (tx_body b) }.

#[export] Instance mweb_block_roundtrip : RoundTrip mweb_block_codec mweb_block_wf.
Proof. intros [] []. cbn in *. seg_roundtrip. Qed.

#[export] Instance mweb_block_canonical : Canonical mweb_block_codec mweb_block_wf.
Proof.
  intros s b rest Hd. change (c_dec mweb_block_codec) with mweb_block_decode in Hd. unfold mweb_block_decode in Hd.
  inv_ok. canonical_fields. split; [by constructor|]. canonical_finish.
Qed.

#[export] Instance mweb_block_len : EncodeLen mweb_block_codec.
Proof. intros b n bs. eapply wlen_start; [reflexivity|]. wlen_chain. Qed.

Record block_wf (b : Block) : Prop := {
  bwf_header : header_wf (header b);
  bwf_txs : vec_wf tx_wf (txdata b);
  bwf_hogex : existsb is_hog_ex (take (length (txdata b) - 1) (txdata b)) = false;
  bwf_mweb : match mweb_block b with
             | Some mw => block_carries_mweb (Header.version (header b)) (txdata b) = true ∧ mweb_block_wf mw
             | None => True
             end }.

Lemma seg_mweb_block b :
  block_wf b → seg (write_mweb_block b) (read_mweb_block (Header.version (header b)) (txdata b)) (mweb_block b).
Proof.
  intros [_ _ _ Hmw]. unfold read_mweb_block, write_mweb_block.
  destruct (block_carries_mweb _ _) eqn:Hc.
  - destruct (mweb_block b) as [mw|].
    + destruct Hmw as [_ Hmw]. eapply seg_bind; [apply (seg_enc u8 (urange 8)); unfold urange; lia|].
      change (negb (1 =? 0)) with true. cbv iota. eapply seg_bind; [by apply (seg_enc mweb_block_codec mweb_block_wf)|].
      apply seg_ret.
    + eapply seg_bind; [apply (seg_enc u8 (urange 8)); unfold urange; lia|]. apply seg_ret.
  - destruct (mweb_block b); [by destruct Hmw|]. apply seg_ret.
Qed.

#[export] Instance block_roundtrip : RoundTrip block_codec block_wf.
Proof.
  intros [h txs mw] Hb. pose proof Hb as [Hh Ht Hhog _]. cbn [header txdata] in Hh, Ht, Hhog.
  eapply seg_start; [reflexivity|].
  change (c_dec block_codec) with block_decode. unfold block_decode. cbn [header txdata].
  eapply seg_bind; [by apply (seg_enc Header.header_codec header_wf)|].
  eapply seg_bind; [by apply (seg_enc (vec transaction_codec) (vec_wf tx_wf))|].
  rewrite Hhog. apply (seg_map _ _ (λ m, {| header := h; txdata := txs; mweb_block := m |})).
  by apply seg_mweb_block.
Qed.

#[export] Instance block_len : EncodeLen block_codec.
Proof.
  intros b n bs. eapply wlen_start; [reflexivity|].
  apply (wlen_bind (λ len, _)); [wlen_chain|]. apply (wlen_bind (λ len, _)); [wlen_chain|].
  unfold write_mweb_block. apply wlen_if; [|wlen_chain]. destruct (mweb_block b); wlen_chain.
Qed.

(** Without MWEB transactions there is nothing after the transactions. *)
Definition plain (t : Transaction) : Prop := has_mweb t = false.

Lemma plain_carries v txs : Forall plain txs → block_carries_mweb v txs = false.
Proof.
  intros Htx. unfold block_carries_mweb. destruct (last txs) as [t|] eqn:E; [|by rewrite andb_false_r].
  apply last_Some_elem_of in E. rewrite Forall_forall in Htx. specialize (Htx t E). unfold plain, has_mweb in Htx.
  cbn [from_option]. destruct (is_hog_ex t); [by destruct (mw_tx t)|]. apply andb_false_r.
Qed.

Lemma block_decode_ok s b rest :
  block_decode s = Ok (b, rest) →
  block_wf b ∧ (Forall plain (txdata b) → ∃ bs, encodes block_codec b bs ∧ s = bs ++ rest).
Proof.
  unfold block_decode. intros Hd.
  apply rd_bind_ok in Hd as (h & s1 & Hh & Hd). apply canonical in Hh as (Hh & b0 & He0 & ->).
  apply rd_bind_ok in Hd as (txs & s2 & Ht & Hd).
  apply (vec_decoded transaction_codec tx_wf plain transaction_decode_ok) in Ht as [Ht Htcan].
  destruct (existsb _ _) eqn:Hhog; [done|]. apply rd_bind_ok in Hd as (mw & s3 & Hmw & [= <- <-]).
  unfold read_mweb_block in Hmw. split.
  - constructor; cbn [header txdata mweb_block]; try done.
    destruct (block_carries_mweb _ _) eqn:Hc; [|by injection Hmw as <- _].
    apply rd_bind_ok in Hmw as (p & s4 & _ & Hmw). destruct (negb _); [|by injection Hmw as <- _].
    apply rd_bind_ok in Hmw as (m & s5 & Hm & [= <- _]). by apply canonical in Hm as [Hm _].
  - cbn [txdata]. intros Hp. destruct (Htcan Hp) as (b1 & He1 & ->). rewrite plain_carries in Hmw by done.
    injection Hmw as <- <-. exists (b0 ++ b1). rewrite <- app_assoc. split; [|done].
    eapply wseg_start; [reflexivity|]. cbn [header txdata]. eapply wseg_bind; [by apply wseg_enc|].
    rewrite <- (app_nil_r b1). eapply wseg_bind; [by apply wseg_enc|].
    unfold write_mweb_block. cbn [header txdata]. rewrite plain_carries by done. apply wseg_ret.
Qed.

Lemma header_size h n bs : c_enc Header.header_codec h = Ok (n, bs) → header_wf h → n = 80.
Proof.
  intros Hn Hwf. destruct Hwf as [_ Hp Hr _ _ _]. change (c_enc Header.header_codec) with Header.header_encode in Hn.
  unfold Header.header_encode in Hn. inv_ok. unfold is_array in *. cbn in *. inv_ok. lia.
Qed.

Lemma txs_size txs n bs :
  Forall tx_wf txs → Forall plain txs → c_enc (vec transaction_codec) txs = Ok (n, bs) →
  ∃ sizes, mapM total_size txs = Some sizes ∧ n = varint_size (Z.of_nat (length txs)) + zsum sizes.
Proof.
  intros Hwf Hp Hn. cbn [c_enc vec finite_codec] in Hn. unfold vec_encode in Hn.
  apply w_bind_ok in Hn as (k & b1 & b2 & Hk & Hn & _). apply w_add_ok in Hk as (k' & Hk' & ->).
  assert (k' = varint_size (Z.of_nat (length txs))) as ->.
  { cbn [c_enc varint fixed_codec] in Hk'. unfold varint_encode, varint_size in *.
    repeat (case_if; try lia); cbn in Hk'; congruence. }
  rewrite Z.add_0_l in Hn. revert Hn. generalize (varint_size (Z.of_nat (length txs))) as len.
  revert n b2. clear Hk'. induction txs as [|t txs IH]; intros n b2 len Hn.
  - injection Hn as <- <-. exists []. split; [done|cbn; lia].
  - apply Forall_cons in Hwf as [Ht Hwf]. apply Forall_cons in Hp as [Hpt Hp]. cbn [w_for] in Hn. inv_ok.
    match goal with H : c_enc transaction_codec _ = _ |- _ =>
      pose proof (total_size_encoded _ _ _ Ht Hpt H) as Hsize; apply encode_len in H end.
    match goal with H : w_for _ _ _ = _ |- _ => apply (IH Hwf Hp) in H as (sizes & Hs & ->) end.
    eexists (_ :: sizes). cbn [mapM]. rewrite Hsize. cbn [mbind option_bind]. rewrite Hs.
    split; [reflexivity|]. cbn [zsum foldr]. unfold zsum. lia.
Qed.
End Laws.

(** ** Proof of work *)

Lemma header_encodes h :
  header_wf h → ∃ bs, encodes Header.header_codec h bs ∧ length bs = 80%nat ∧
    Header.block_hash h = Some (sha256d_hash bs).
Proof.
  intros Hh. destruct (roundtrip (c := Header.header_codec) h Hh) as (bs & He & _). exists bs. split; [done|].
  pose proof (header_size h _ bs He Hh). split; [lia|].
  unfold Header.block_hash. unfold encodes in He. by rewrite He.
Qed.

(** ** The height *)

(** The numbers that have an opcode of their own. *)
Definition opcode_number (h : Z) : Prop := h = -1 ∨ 1 <= h <= 16.

Lemma one_byte_opcode b : has_opcode b = true ↔ opcode_number (number [] b).
Proof. unfold opcode_number. destruct b; vm_compute; split; intros H; first [done|discriminate|left; reflexivity|right; split; discriminate|exfalso; destruct H as [H|[H1 H2]]; [discriminate H|first [by apply H1|by apply H2]]]. Qed.

Definition pushes (h : Z) (s : script) : Prop :=
  ∃ c t, Builder.push_int Builder.new h = Some c ∧ s = Builder.into_script c ++ t.

Definition parses (h : Z) (s : script) : Prop :=
  ∃ b rest v d, s = b :: rest ∧ parse_one true b rest = (Ok (PushBytes v), d) ∧ read_scriptint v = Ok h.

Lemma push_int_bytes h v :
  - 2 ^ 63 < h < 2 ^ 63 → ¬ opcode_number h → number_encoded h v → (length v <= 4)%nat →
  Builder.into_script <$> Builder.push_int Builder.new h = Some (instruction_bytes (PushBytes v)).
Proof.
  intros Hh Ho Hv Hl. unfold Builder.push_int, opcode_number in *.
  destruct (Z.eqb_spec h (-1)), (Z.leb_spec 1 h), (Z.leb_spec h 16); cbn [andb orb]; try lia;
    (destruct (Z.eqb_spec h 0) as [->|]; [by rewrite (number_encoded_inj 0 v [] Hv) by by left|]);
    destruct (write_scriptint_encodes h Hh) as (w & Hw & Hwe); rewrite <- (number_encoded_inj h v w Hv Hwe) in Hw;
    unfold Builder.push_int_non_minimal, Builder.push_slice, push_slice; rewrite Hw; cbn [mbind option_bind];
    rewrite push_slice_bytes by lia; done.
Qed.

Lemma number_single h v : number_encoded h v → (length v <= 4)%nat →
  (instruction_minimal (PushBytes v) ↔ ¬ opcode_number h).
Proof.
  intros Hv Hl. unfold instruction_minimal. cbn [instruction_wf]. unfold opcode_number.
  destruct v as [|b [|c v]].
  - destruct Hv as [[-> _]|(u & l & E & _)]; [|by destruct u]. split; [lia|]. intros _. split; [cbn; lia|done].
  - destruct Hv as [[_ E]|(u & l & E & <- & _)]; [done|]. destruct u; [|by destruct u]. injection E as <-.
    fold (opcode_number (number [] b)). rewrite <- one_byte_opcode, not_true_iff_false.
    split; [by intros []|]. intros ?. split; [cbn; lia|done].
  - split; [|intros _; split; [cbn in *; lia|done]]. intros _ Ho.
    destruct Hv as [[_ E]|(u & l & E & <- & Hm)]; [done|].
    apply minimal_bounds in Hm as [Hm _]. rewrite <- number_abs in Hm.
    assert (1 <= length u)%nat as Hu by (apply (f_equal length) in E; rewrite length_app in E; cbn in E; lia).
    assert (2 ^ 8 <= 2 ^ (8 * Z.of_nat (length u))) by (apply Z.pow_le_mono_r; lia). lia.
Qed.

Lemma parses_pushes h s :
  parses h s ↔ Z.abs h < 2 ^ 31 ∧ ¬ opcode_number h ∧ pushes h s.
Proof.
  split.
  - intros (b & rest & v & d & -> & [Hm Hs]%parse_minimal_inv & [Hv Hl]%read_scriptint_spec).
    assert (Z.abs h < 2 ^ 31) as Hh by by apply (encodes_short h v Hv).
    assert (¬ opcode_number h) as Ho by by apply (number_single h v Hv Hl). split_and!; [done..|].
    pose proof (push_int_bytes h v ltac:(lia) Ho Hv Hl) as Hp.
    destruct (Builder.push_int Builder.new h) as [c|] eqn:E; [|done]. injection Hp as Hp.
    exists c, d. by rewrite Hp.
  - intros (Hh & Ho & c & t & Hc & ->). destruct (write_scriptint_encodes h ltac:(lia)) as (v & _ & Hv).
    pose proof (proj2 (encodes_short h v Hv) Hh) as Hl.
    pose proof (push_int_bytes h v ltac:(lia) Ho Hv Hl) as Hp. rewrite Hc in Hp. injection Hp as ->.
    pose proof (proj2 (number_single h v Hv Hl) Ho) as Hm.
    change (push_prefix _ ++ v) with (instruction_bytes (PushBytes v)).
    destruct (parse_instruction true (PushBytes v) t ltac:(by destruct Hm) (λ _, Hm)) as (b & seg & -> & Hparse).
    exists b, (seg ++ t), v, t. split_and!; [done..|]. by apply read_scriptint_spec.
Qed.

(** The number that a script pushes first. *)
Definition first_number (s : script) : option Z :=
  match s with
  | [] => None
  | b :: rest =>
      match fst (parse_one true b rest) with
      | Ok (PushBytes v) => match read_scriptint v with Ok h => Some h | Err _ => None end
      | _ => None
      end
  end.

Lemma first_number_parses h s : first_number s = Some h ↔ parses h s.
Proof.
  unfold first_number, parses. split.
  - destruct s as [|b rest]; [done|]. destruct (parse_one true b rest) as [[[v|]|] d] eqn:Hp; cbn [fst]; try done.
    destruct (read_scriptint v) eqn:Hr; [|done]. intros [= ->]. by exists b, rest, v, d.
  - intros (b & rest & v & d & -> & Hp & Hr). rewrite Hp; cbn [fst]; by rewrite Hr.
Qed.

Section Facts.
Context `{PublicKeys}.

Definition coinbase_script (b : Block) : option script :=
  cb ← coinbase b; i ← head (Transaction.input cb); Some (script_sig i).

Lemma bip34_parses b h :
  Header.TWO <= Header.version (header b) →
  (bip34_block_height b = Ok h ↔ 0 <= h ∧ coinbase_script b ≫= first_number = Some h) ∧
  (bip34_block_height b = Err NegativeHeight ↔ ∃ h, h < 0 ∧ coinbase_script b ≫= first_number = Some h).
Proof.
  intros Hv. unfold bip34_block_height, coinbase_script. destruct (Z.ltb_spec (Header.version (header b)) Header.TWO); [lia|].
  assert (∀ e : Bip34Error, e ≠ NegativeHeight →
    (Err e = Ok h ↔ 0 <= h ∧ None = Some h) ∧ (@Err _ Z e = Err NegativeHeight ↔ ∃ h : Z, h < 0 ∧ None = Some h)) as Hnone.
  { intros e He. split; split; [done|by intros [_ ?]|congruence|by intros (? & _ & ?)]. }
  destruct (coinbase b) as [cb|]; [|by apply Hnone]. cbn [ok_or result_bind mbind option_bind].
  destruct (head _) as [i|]; [|by apply Hnone]. cbn [ok_or result_bind mbind option_bind]. unfold instructions_minimal_iter.
  destruct (script_sig i) as [|c rest]; [by apply Hnone|]. rewrite next_eq. cbn [first_number].
  destruct (parse_one true c rest) as [[[v|op]|e] d] eqn:Hp; cbn [fst ok_or result_bind result_map_err]; [|by apply Hnone..].
  destruct (read_scriptint v) as [n|e] eqn:Hn; cbn [result_map_err result_bind]; [|by apply Hnone].
  pose proof (proj1 (read_scriptint_spec v n) Hn) as [Hne Hl]. pose proof (proj1 (encodes_short n v Hne) Hl) as Habs.
  destruct (Z.ltb_spec n 0).
  - split; (split; [|]); try done; [|by exists n]. intros [? [= <-]]. lia.
  - rewrite uwrap_small by (unfold urange; lia). split; (split; [|]); try done.
    + by intros [= <-].
    + by intros [? [= <-]].
    + intros (m & ? & [= <-]). lia.
Qed.
End Facts.

(** ** The commitment to the witnesses *)

Lemma rposition_at {A} (p : A → bool) pre o post :
  p o = true → Forall (λ a, p a = false) post → rposition p (pre ++ o :: post) = Some (length pre).
Proof.
  intros Ho Hpost. unfold rposition.
  assert (list_find (λ a, p a = true) (rev (pre ++ o :: post)) = Some (length post, o)) as ->.
  { rewrite rev_app_distr. cbn [rev]. rewrite <- app_assoc. apply list_find_Some. split_and!; [|done|].
    - rewrite lookup_app_r by (rewrite length_rev; lia). by rewrite length_rev, Nat.sub_diag.
    - intros j y Hj Hlt. rewrite lookup_app_l in Hj by (rewrite length_rev; lia).
      apply list_elem_of_lookup_2, list_elem_of_In, in_rev, list_elem_of_In in Hj.
      rewrite Forall_forall in Hpost. by rewrite (Hpost y Hj). }
  rewrite length_app. cbn [length]. f_equal. lia.
Qed.

Lemma rposition_split {A} (p : A → bool) l :
  match rposition p l with
  | Some k => ∃ pre o post, l = pre ++ o :: post ∧ k = length pre ∧ p o = true ∧ Forall (λ a, p a = false) post
  | None => Forall (λ a, p a = false) l
  end.
Proof.
  induction l as [|a l IH]; [by constructor|].
  destruct (rposition p l) as [k|] eqn:E.
  - destruct IH as (pre & o & post & -> & -> & Ho & Hpost).
    change (a :: pre ++ o :: post) with ((a :: pre) ++ o :: post). rewrite rposition_at by done. by exists (a :: pre), o, post.
  - destruct (p a) eqn:Ha; [pose proof (rposition_at p [] a l Ha IH) as Hr; cbn [app length] in Hr; rewrite Hr; by exists [], a, l|].
    unfold rposition. assert (list_find (λ a, p a = true) (rev (a :: l)) = None) as ->; [|by constructor].
    apply list_find_None, Forall_forall. intros x Hx. apply list_elem_of_In, in_rev, list_elem_of_In in Hx.
    assert (Forall (λ a, p a = false) (a :: l)) as Hall by by constructor.
    rewrite Forall_forall in Hall. by rewrite (Hall x Hx).
Qed.

Lemma rposition_unique {A} (p : A → bool) pre o post pre' o' post' :
  p o = true → p o' = true → Forall (λ a, p a = false) post → Forall (λ a, p a = false) post' →
  pre ++ o :: post = pre' ++ o' :: post' → o' = o.
Proof.
  intros Ho Ho' Hp Hp' E. pose proof (rposition_at p pre o post Ho Hp) as Hr. rewrite E, rposition_at in Hr by done.
  injection Hr as Hr. apply app_inj_1 in E as [_ E]; congruence.
Qed.

(** The one element of 32 bytes that a coinbase witness has to be. *)
Lemma single_32 (ws : list (list byte)) :
  (∃ reserved, ws = [reserved] ∧ length reserved = 32%nat) ∨ ¬ (∃ reserved, ws = [reserved] ∧ length reserved = 32%nat).
Proof.
  destruct ws as [|w [|]]; [by right; intros (? & ? & _)| |by right; intros (? & ? & _)].
  destruct (decide (length w = 32%nat)); [by left; exists w|right]. by intros (? & [= <-] & ?).
Qed.

Lemma merkle_root_length h hs : is_node h → is_node (merkle_root (h :: hs)).
Proof.
  intros Hh. destruct hs as [|h' hs]; [done|]. unfold merkle_root.
  rewrite tree_height_half by (cbn; lia). rewrite subtree_S. apply parent_hash_node.
Qed.

Section Commitment.
Context `{Hpk : PublicKeyLaws}.

Lemma txid_total t : tx_wf t → is_Some (compute_txid t).
Proof.
  intros Ht. destruct (base_encode_ok t Ht) as (? & ? & ? & ? & ? & ? & ? & Hb & _).
  unfold compute_txid. rewrite Hb. by eexists.
Qed.

Lemma wtxid_total t : tx_wf t → is_Some (compute_wtxid t).
Proof.
  intros Ht. destruct (roundtrip (c := transaction_codec) t Ht) as (bs & He & _). unfold encodes in He.
  unfold compute_wtxid. rewrite He. by eexists.
Qed.

Lemma hashes_total (f : Transaction → option node) txs :
  (∀ t, tx_wf t → is_Some (f t)) → Forall tx_wf txs → ∃ hs, mapM f txs = Some hs.
Proof. intros Hf Ht. apply mapM_is_Some_2. eapply Forall_impl; [exact Ht|exact Hf]. Qed.

Lemma witness_hashes f ts :
  (∀ i (t : Transaction), ∃ n, f i t = (S n, t)) →
  mapM (λ '(i, t), witness_hash i t) (imap f ts) = mapM compute_wtxid ts.
Proof.
  revert f. induction ts as [|t ts IH]; intros f Hf; [done|]. rewrite imap_cons. cbn [mapM].
  destruct (Hf 0%nat t) as [n ->]. cbn [witness_hash Nat.eqb]. rewrite IH; [done|]. intros i u. apply (Hf (S i)).
Qed.

Lemma no_witnesses txs :
  (∀ t i, t ∈ txs → i ∈ Transaction.input t → is_empty (witness i) = true) ↔
  forallb (λ t, forallb (λ i, is_empty (witness i)) (Transaction.input t)) txs = true.
Proof.
  rewrite forallb_forall. setoid_rewrite forallb_forall. setoid_rewrite list_elem_of_In. naive_solver.
Qed.

Definition no_hash : node := replicate 32 x00.

Lemma witness_root_eq b t ts wtxids :
  txdata b = t :: ts → mapM compute_wtxid ts = Some wtxids →
  witness_root b = Some (Some (merkle_root (no_hash :: wtxids))).
Proof.
  intros Hb Hw. unfold witness_root. rewrite Hb, imap_cons. cbn [mapM].
  change (witness_hash 0 t) with (Some no_hash). cbn [mbind option_bind].
  rewrite witness_hashes by (intros; eexists; reflexivity). rewrite Hw.
  change (Some (calculate_root (no_hash :: wtxids)) = Some (Some (merkle_root (no_hash :: wtxids)))).
  by rewrite calculate_root_spec.
Qed.

Lemma witness_commitment_eq root reserved :
  is_node root → length reserved = 32%nat → compute_witness_commitment root reserved = sha256d_hash (root ++ reserved).
Proof.
  intros Hr Hl. rewrite <- (app_nil_r reserved) at 2. apply (sha256d_chunks [root; reserved]).
  unfold is_node in Hr. cbn [concat]. rewrite !length_app. cbn [length]. lia.
Qed.
End Commitment.

(** ** The transactions selected by a predicate *)

Lemma selected_filter (p : node → bool) pre l :
  ((pre ++ l) !!!.) <$> matched (map p (pre ++ l)) (length pre) (length l) = filter (λ h, p h = true) l.
Proof.
  revert pre. induction l as [|a l IH]; intros pre; [done|]. cbn [length].
  assert ((pre ++ a :: l) !! length pre = Some a) as Ha by by apply list_lookup_middle.
  rewrite (matched_S _ _ _ (p a)) by (change (map p ?l) with (p <$> l); rewrite list_lookup_fmap, Ha; done).
  specialize (IH (pre ++ [a])). rewrite length_app, <- app_assoc in IH. cbn [length app] in IH.
  rewrite Nat.add_1_r in IH. rewrite fmap_app, IH, filter_cons.
  destruct (p a) eqn:E; cbn [fmap list_fmap app]; [|done].
  by rewrite (list_lookup_total_correct _ _ _ Ha).
Qed.

Lemma merkle_block_built (b : Header.Header) txids (p : node → bool) :
  block_limit (length txids) → calculate_root txids = Some (Header.merkle_root b) →
  ∃ mb, from_header_txids_with_predicate b txids p = Some mb ∧ mb_header mb = b ∧
    merkle_block_matches mb =
      if distinct_siblings txids (map p txids) (tree_height (length txids)) 0
      then Ok (filter (λ h, p h = true) txids, Z.of_nat <$> selected (map p txids)) else Err IdenticalHashesFound.
Proof.
  intros Hlim Hroot. destruct (block_limit_fits _ Hlim) as (Hn & _ & _).
  assert (length (map p txids) = length txids) as Hlen by apply length_map.
  unfold from_header_txids_with_predicate. rewrite (from_txids_spec _ _ Hn Hlen). cbn [mbind option_bind].
  eexists. split_and!; [done..|]. unfold merkle_block_matches. cbn [txn mb_header].
  pose proof (extract_built txids (map p txids) 0 Hlim Hlen ltac:(lia)) as Hx.
  rewrite Nat.add_0_r in Hx. specialize (Hx eq_refl). rewrite app_nil_r in Hx.
  cbn [replicate] in Hx. rewrite Hx. unfold expected. destruct (distinct_siblings _ _ _ _); [|done].
  cbn [result_bind]. rewrite calculate_root_spec in Hroot.
  rewrite bool_decide_eq_true_2 by (destruct txids; congruence). do 2 f_equal.
  unfold selected. rewrite length_map. apply (selected_filter p []).
Qed.

(** ** Properties *)

Section Properties.
Context `{Hpk : PublicKeyLaws}.

(** C2: the block codec.  Every well-formed block, with its MWEB extension block if
    it has one, is serialised and deserialised as itself; what is deserialised is
    well formed: a HogEx transaction is the last one, and only a block that carries
    an extension block has one.  Without MWEB transactions the bytes consumed are
    the only encoding, and [total_size] is their number. *)
Theorem block_codec_spec (b : Block) s rest :
  (block_wf b → ∃ bs, encodes block_codec b bs ∧ (∀ rest, block_decode (bs ++ rest) = Ok (b, rest)) ∧
     (Forall plain (txdata b) → block_total_size b = Some (Z.of_nat (length bs)))) ∧
  (block_decode s = Ok (b, rest) →
     block_wf b ∧ (Forall plain (txdata b) → ∃ bs, encodes block_codec b bs ∧ s = bs ++ rest)).
Proof.
  split; [|apply block_decode_ok]. intros Hb. destruct (block_roundtrip b Hb) as (bs & He & Hd).
  exists bs. split_and!; [done|done|]. intros Hp. destruct Hb as [Hh [Ht _] _ _].
  pose proof He as Hn. unfold encodes in Hn. cbn [c_enc block_codec finite_codec] in Hn.
  unfold block_encode, write_mweb_block in Hn. rewrite plain_carries in Hn by done. inv_ok.
  match goal with H : c_enc Header.header_codec _ = _ |- _ => apply header_size in H as ->; [|done] end.
  match goal with H : c_enc (vec _) _ = _ |- _ => apply txs_size in H as (sizes & Hs & ->); [|done..] end.
  unfold block_total_size. rewrite Hs. cbn [mbind option_bind]. f_equal. change Header.SIZE with 80. lia.
Qed.

(** C8: [check_witness_commitment] decides BIP141's rule.  On a well-formed block it
    returns; the root is that of the witness identifiers with the coinbase's taken as
    zero; and the answer is yes just when no input has a witness, or the first
    transaction is a coinbase whose last commitment output holds the double SHA-256 of
    that root and of the reserved value, the one element, of 32 bytes, of its witness. *)
Theorem witness_commitment_spec (b : Block) :
  block_wf b →
  ∃ r, check_witness_commitment b = Some r ∧
  (r = true ↔
     (∀ t i, t ∈ txdata b → i ∈ Transaction.input t → is_empty (witness i) = true) ∨
     ∃ cb ts wtxids pre o post i reserved,
       txdata b = cb :: ts ∧ mapM compute_wtxid ts = Some wtxids ∧
       is_coinbase cb = true ∧ Transaction.input cb = [i] ∧ to_vec (witness i) = Some [reserved] ∧
       length reserved = 32%nat ∧
       output cb = pre ++ o :: post ∧ is_commitment o = true ∧ Forall (λ o, is_commitment o = false) post ∧
       take 32 (drop 6 (script_pubkey o)) = sha256d_hash (merkle_root (replicate 32 x00 :: wtxids) ++ reserved)).
Proof.
  intros [_ [Ht _] _ _]. unfold check_witness_commitment. setoid_rewrite no_witnesses.
  destruct (forallb _ (txdata b)) eqn:Hall; [exists true; split; [done|]; split; [by left|done]|].
  destruct (txdata b) as [|cb ts] eqn:Hb; [done|]. apply Forall_cons in Ht as [Hcb Hts].
  destruct (hashes_total compute_wtxid ts wtxid_total Hts) as [wtxids Hw].
  destruct (is_coinbase cb) eqn:Hc; cbn [negb].
  2:{ exists false. split; [done|]. split; [done|]. intros [?|(?&?&?&?&?&?&?&?&E&?&E'&_)]; [done|congruence]. }
  pose proof Hc as Hi. unfold is_coinbase in Hi. destruct (Transaction.input cb) as [|i [|]] eqn:Hin; try done. clear Hi.
  pose proof (rposition_split is_commitment (output cb)) as Hr. destruct (rposition _ _) as [pos|].
  2:{ exists false. split; [done|]. split; [done|]. intros [?|(?&?&?&?&o&?&?&?&[= <- <-]&_&_&_&_&_&E&E'&_)]; [done|].
      rewrite E, Forall_app, Forall_cons in Hr. destruct Hr as (_ & E'' & _). congruence. }
  destruct Hr as (pre & o & post & Hout & -> & Ho & Hpost).
  assert (output cb !! length pre = Some o) as -> by (rewrite Hout; by apply list_lookup_middle).
  pose proof (txwf_witness cb Hcb) as Hwit. rewrite Hin in Hwit. apply Forall_cons in Hwit as [(ws & Hwi & Hsz) _].
  cbn [mbind option_bind lookup list_lookup].
  assert (to_vec (witness i) = Some ws) as Hv
    by (rewrite Hwi; apply to_vec_repr; unfold small, U32_MAX, MAX_VEC_SIZE in *; lia).
  rewrite Hv. cbn [mbind option_bind].
  assert (∀ pre' o' post', output cb = pre' ++ o' :: post' → is_commitment o' = true →
    Forall (λ o, is_commitment o = false) post' → o' = o) as Huniq.
  { intros pre' o' post' E Ho' Hpost'. rewrite Hout in E. by eapply rposition_unique; [| | | |exact E]. }
  destruct (single_32 ws) as [(reserved & -> & Hl)|Hno].
  - rewrite Hl. cbn [Nat.eqb]. rewrite (witness_root_eq b cb ts wtxids Hb Hw). cbn [mbind option_bind].
    rewrite witness_commitment_eq by (done || by apply merkle_root_length). eexists. split; [done|].
    rewrite bool_decide_eq_true. split; [intros E; right; by exists cb, ts, wtxids, pre, o, post, i, reserved|].
    intros [|(cb' & ts' & wtxids' & pre' & o' & post' & i' & res' & [= <- <-] & Hw' & _ & Hin' & Hv' & _ & E & Ho' & Hpost' & Hc')]; [done|].
    rewrite Hin in Hin'. injection Hin' as <-.
    rewrite Hw in Hw'. injection Hw' as <-. rewrite Hv in Hv'. injection Hv' as <-.
    by rewrite <- (Huniq _ _ _ E Ho' Hpost').
  - exists false. split.
    + destruct ws as [|reserved [|]]; [done| |done]. destruct (Nat.eqb_spec (length reserved) 32); [|done].
      exfalso. apply Hno. by exists reserved.
    + split; [done|]. intros [|(?&?&?&?&?&?&i'&res&[= <- <-]&_&_&Hin'&Hv'&Hl&_)]; [done|].
      rewrite Hin in Hin'. injection Hin' as <-. rewrite Hv in Hv'. injection Hv' as ->. exfalso. apply Hno. by exists res.
Qed.

(** C9: a Merkle block proves that transactions are in a block.  For a block whose
    header has the right Merkle root and any predicate on the identifiers, the
    Merkle block is built, and gives back the identifiers that satisfy the predicate,
    in order, with their indexes (or it refuses a tree with identical siblings); and
    whatever Merkle block with this header and number of transactions a peer sends,
    what it matches is in the block at the index given, or a collision of double
    SHA-256 is at hand. *)
Theorem merkle_block_proof (b : Block) (p : node → bool) :
  block_wf b → block_limit (length (txdata b)) → check_merkle_root b = Some true →
  ∃ txids, mapM compute_txid (txdata b) = Some txids ∧
  (∃ mb, from_block_with_predicate b p = Some mb ∧ mb_header mb = header b ∧
     merkle_block_matches mb =
       if distinct_siblings txids (map p txids) (tree_height (length txids)) 0
       then Ok (filter (λ h, p h = true) txids, Z.of_nat <$> selected (map p txids)) else Err IdenticalHashesFound) ∧
  ∀ mb ms ixs, mb_header mb = header b → num_transactions (txn mb) = Z.of_nat (length (txdata b)) →
    merkle_block_matches mb = Ok (ms, ixs) →
    Forall2 (λ m i, 0 <= i ∧ ∃ t, txdata b !! Z.to_nat i = Some t ∧ compute_txid t = Some m) ms ixs ∨
    ∃ p q, p ∈ extract_pairs (txn mb) ∧ q ∈ root_pairs txids ∧ p ≠ q ∧
      parent_hash p.1 p.2 = parent_hash q.1 q.2.
Proof.
  intros [_ [Ht _] _ _] Hlim Hcheck. destruct (hashes_total compute_txid _ txid_total Ht) as [txids Htx].
  exists txids. pose proof (length_mapM _ _ _ Htx) as Hlen. rewrite Hlen in Hlim.
  unfold check_merkle_root, compute_merkle_root in Hcheck. rewrite Htx in Hcheck.
  cbn [mbind option_bind] in Hcheck.
  assert (calculate_root txids = Some (Header.merkle_root (header b))) as Hroot.
  { destruct (calculate_root txids); [|done]. injection Hcheck as E%bool_decide_eq_true. by rewrite E. }
  split_and!; [done| |].
  - unfold from_block_with_predicate. rewrite Htx. cbn [mbind option_bind]. by apply merkle_block_built.
  - intros mb ms ixs Hh Hnum Hm. unfold merkle_block_matches in Hm.
    destruct (extract_matches (txn mb)) as [[[root ms'] ixs']|] eqn:Hx; [|done]. cbn [result_bind] in Hm.
    destruct (bool_decide_reflect (root = Header.merkle_root (mb_header mb))) as [->|]; [|done]. injection Hm as <- <-.
    rewrite Hh in Hx. rewrite Hlen in Hnum. destruct (block_limit_fits _ Hlim) as (Hn & _ & _).
    destruct (extract_sound (txn mb) txids _ ms' ixs' Hn Hnum Hroot Hx) as [Hs|Hs]; [left|by right].
    eapply Forall2_impl; [exact Hs|]. intros m i [Hi Hl]. split; [done|].
    apply mapM_Some_1 in Htx. by destruct (Forall2_lookup_r _ _ _ _ _ Htx Hl) as (t & ? & ?); exists t.
Qed.

(** The height in the coinbase (BIP34).  From version 2 on, [bip34_block_height]
    returns a height just when it is 0 or from 17 up to [2 ^ 31 - 1] and the first
    input script of the first transaction starts with what the script builder pushes
    for it, and [NegativeHeight] just when it starts so for a number from -2 down;
    before, it is [Unsupported]. *)
Theorem bip34_height (b : Block) h :
  (Header.version (header b) < 2 → bip34_block_height b = Err Unsupported) ∧
  (2 <= Header.version (header b) →
   (bip34_block_height b = Ok h ↔
      (h = 0 ∨ 16 < h < 2 ^ 31) ∧ ∃ s, coinbase_script b = Some s ∧ pushes h s) ∧
   (bip34_block_height b = Err NegativeHeight ↔
      ∃ s h, - 2 ^ 31 < h < -1 ∧ coinbase_script b = Some s ∧ pushes h s)).
Proof.
  split.
  { intros Hv. unfold bip34_block_height. change Header.TWO with 2.
    by destruct (Z.ltb_spec (Header.version (header b)) 2); [|lia]. }
  intros Hv. destruct (bip34_parses b h Hv) as [H1 H2]. rewrite H1, H2.
  setoid_rewrite (bind_Some first_number). setoid_rewrite first_number_parses. setoid_rewrite parses_pushes.
  unfold opcode_number. split; split.
  - intros (Hh & s & Hs & Habs & Ho & Hp). split; [lia|by exists s].
  - intros (Hh & s & Hs & Hp). split; [lia|]. exists s. split_and!; (done || lia).
  - intros (k & Hk & s & Hs & Habs & Ho & Hp). exists s, k. split_and!; [lia|lia|done|done].
  - intros (s & k & Hk & Hs & Hp). exists k. split; [lia|]. exists s. split_and!; (done || lia).
Qed.

End Properties.

(** Proof of work.  The hash is the double SHA-256 of the 80 bytes of the header;
    [validate_pow] returns it if the target of the header is the one required and
    the hash, as a little-endian number, is at most that, and the error for the first
    of the two that fails otherwise; and the work of the header is [2 ^ 256] over the
    target plus one, with the largest number for the targets 0 and 1. *)
Theorem validate_pow_spec h required :
  header_wf h → u256_wf required →
  let target := Header.target h in
  ∃ bs, encodes Header.header_codec h bs ∧ length bs = 80%nat ∧ Header.block_hash h = Some (sha256d_hash bs) ∧
  Header.validate_pow h required =
    Some (if negb (val target =? val required) then Err Header.BadTarget
          else if le_combine (sha256d_hash bs) <=? val target then Ok (sha256d_hash bs)
          else Err Header.BadProofOfWork) ∧
  ∃ w, Header.work h = Some w ∧ val w = if val target <=? 1 then 2 ^ 256 - 1 else 2 ^ 256 / (val target + 1).
Proof.
  intros Hh Hreq target. destruct (header_encodes h Hh) as (bs & He & Hl & Hhash). exists bs. split_and!; [done..| |].
  - assert (u256_wf target) as Ht by (apply to_compact_from_compact_wf, Hh).
    unfold Header.validate_pow. fold target. destruct (Z.eqb_spec (val target) (val required)) as [E|E]; cbn [negb].
    + rewrite bool_decide_eq_true_2 by by apply val_inj. cbn [negb]. rewrite Hhash. cbn [mbind option_bind].
      unfold Target.is_met_by.
      destruct (from_le_bytes_val (sha256d_hash bs)) as [Hw Hv]; [apply length_sha256d_hash; lia|].
      by rewrite leb_val, Hv.
    + rewrite bool_decide_eq_false_2 by congruence. done.
  - destruct (inverse_val target) as (w & ? & ? & ?); [apply to_compact_from_compact_wf, Hh|]. by exists w.
Qed.

(** ** Findings *)

(** Times out of order: the [u32] subtraction wraps to a timespan near [2 ^ 32], and
    the target is raised as after the longest epoch instead of the shortest. *)
Theorem timespan_wraps first current p :
  Header.time current < Header.time first → urange 32 (Header.time first) → urange 32 (Header.time current) →
  Header.from_header_difficulty_adjustment first current p =
    from_next_work_required (Header.bits current) (2 ^ 32 + (Header.time current - Header.time first)) p.
Proof.
  intros Hlt Hf Hc. unfold Header.from_header_difficulty_adjustment, urange in *. f_equal.
  unfold uwrap. symmetry. apply (Z.mod_unique _ _ (-1)); lia.
Qed.

(** ** Examples *)

Definition sample_coinbase : Transaction (H := PlainKeys.plain_keys) :=
  {| version := 2; lock_time := Absolute.Blocks 0;
     input := [{| previous_output := {| txid := replicate 32 x00; vout := 0xffffffff |};
                  script_sig := [x03; x40; x42; x0f]; sequence := 0xffffffff; witness := repr [replicate 32 x07] |}];
     output := [{| value := 1000; script_pubkey := MAGIC ++ sha256d_hash (replicate 32 x00 ++ replicate 32 x07) |}];
     mw_tx := None; is_hog_ex := false |}.
Definition sample_header : Header.Header :=
  {| Header.version := 2; Header.prev_blockhash := replicate 32 x01;
     Header.merkle_root := default [] (compute_txid (H := PlainKeys.plain_keys) sample_coinbase);
     Header.time := 1700000000; Header.bits := 0x207fffff; Header.nonce := 5 |}.
Definition sample_block : Block (H := PlainKeys.plain_keys) :=
  {| header := sample_header; txdata := [sample_coinbase]; mweb_block := None |}.

Lemma sample_coinbase_wf : tx_wf (H := PlainKeys.plain_keys) sample_coinbase.
Proof.
  constructor; try (cbn; done).
  - split; [|cbn; lia]. constructor; [|constructor]. constructor; vm_compute; done.
  - constructor; [|constructor]. by exists [replicate 32 x07].
  - split; [|cbn; lia]. constructor; [|constructor]. constructor; vm_compute; done.
Qed.

Lemma sample_header_wf : header_wf sample_header.
Proof. constructor; vm_compute; done. Qed.

Lemma sample_block_wf : block_wf (H := PlainKeys.plain_keys) sample_block.
Proof.
  constructor; cbn [header txdata mweb_block sample_block]; [apply sample_header_wf| |reflexivity|done].
  split; [|cbn; lia]. constructor; [apply sample_coinbase_wf|constructor].
Qed.

Lemma block_codec_spec_witness :
  ∃ bs, encodes (block_codec (H := PlainKeys.plain_keys)) sample_block bs ∧
    block_total_size sample_block = Some (Z.of_nat (length bs)).
Proof.
  destruct (proj1 (block_codec_spec (Hpk := PlainKeys.plain_keys_laws) sample_block [] []) sample_block_wf)
    as (bs & He & _ & Hs).
  exists bs. split; [exact He|]. apply Hs. constructor; [reflexivity|constructor].
Defined.

Lemma witness_commitment_spec_witness :
  ∃ r, check_witness_commitment sample_block = Some r ∧
    (r = true → ∃ cb, txdata sample_block = [cb] ∧ is_coinbase cb = true).
Proof.
  destruct (witness_commitment_spec (Hpk := PlainKeys.plain_keys_laws) sample_block sample_block_wf) as (r & Hr & Hiff).
  exists r. split; [exact Hr|]. intros _. exists sample_coinbase. split; reflexivity.
Defined.

Example sample_commitment : check_witness_commitment sample_block = Some true.
Proof. vm_compute. reflexivity. Qed.

Lemma sample_merkle_root : check_merkle_root sample_block = Some true.
Proof. vm_compute. reflexivity. Qed.

Lemma merkle_block_proof_witness :
  ∃ mb, from_block_with_predicate sample_block (λ _, true) = Some mb ∧ mb_header mb = sample_header.
Proof.
  destruct (merkle_block_proof (H := PlainKeys.plain_keys) sample_block (λ _, true) sample_block_wf)
    as (txids & _ & (mb & Hmb & Hh & _) & _);
    [split; [cbn; lia|by vm_compute]|exact sample_merkle_root|].
  exists mb. split; [exact Hmb|exact Hh].
Defined.

Example sample_height : bip34_block_height sample_block = Ok 1000000.
Proof. vm_compute. reflexivity. Qed.

Lemma validate_pow_spec_witness :
  ∃ bs, length bs = 80%nat ∧ Header.validate_pow sample_header (Header.target sample_header) =
    Some (if le_combine (sha256d_hash bs) <=? val (Header.target sample_header) then Ok (sha256d_hash bs)
          else Err Header.BadProofOfWork).
Proof.
  destruct (validate_pow_spec sample_header (Header.target sample_header) sample_header_wf) as (bs & _ & Hl & _ & Hv & _).
  { apply to_compact_from_compact_wf, sample_header_wf. }
  rewrite Z.eqb_refl in Hv. exists bs. split; [exact Hl|exact Hv].
Defined.
