(* ===== verification/Taproot.v ===== *)
(** Taproot trees ([src/litecoin/src/taproot/mod.rs], [merkle_branch.rs]): leaf and
    branch hashes, the builder that takes the leaves in depth-first order, Huffman
    trees, spending information and control blocks. *)

From S2P Require Import Witness.
From Stdlib Require Import String ZArith Lia ZifyBool.
From stdpp Require Import base list sets.
From Stdlib Require Import Init.Byte.
From coqutil Require Import Byte Word.LittleEndianList.
From S2P Require Import Prelude Io Ordered HashEngine Sha256 Tagged Encode.

#[local] Set Warnings "-clear-no-such-hyp".

(** ** Hashes *)

Abbreviation hash := (list byte) (only parsing).
Abbreviation script := (list byte) (only parsing).

Definition TAP_LEAF : list byte := String.list_byte_of_string "TapLeaf".
Definition TAP_BRANCH : list byte := String.list_byte_of_string "TapBranch".
Definition TAP_TWEAK : list byte := String.list_byte_of_string "TapTweak".

(** Encoding into an engine; the encoders of bytes and scripts do not fail. *)
Definition engine_write {A} (e : HashEngine) (w : wr A) : HashEngine :=
  match w with Ok (_, bs) => HashEngine.input e bs | Err _ => e end.

(** [TapLeafHash::from_script], and as a node [TapNodeHash::from_script]. *)
Definition leaf_hash_from_script (s : script) (ver : LeafVersion) : hash :=
  let eng := tag_engine TAP_LEAF in
  let eng := engine_write eng (c_enc u8 (leaf_version_to_consensus ver)) in
  let eng := engine_write eng (c_enc bytes s) in
  from_engine eng.

Definition combine_node_hashes (a b : hash) : hash * bool :=
  let eng := tag_engine TAP_BRANCH in
  let eng :=
    if bytes_ltb a b then HashEngine.input (HashEngine.input eng a) b
    else HashEngine.input (HashEngine.input eng b) a in
  (from_engine eng, bytes_ltb a b).

Definition from_node_hashes (a b : hash) : hash := fst (combine_node_hashes a b).

(** ** Merkle branches *)

Definition TAPROOT_CONTROL_MAX_NODE_COUNT : nat := 128.
Definition TAPROOT_CONTROL_NODE_SIZE : nat := 32.
Definition TAPROOT_CONTROL_MAX_SIZE : Z :=
  TAPROOT_CONTROL_BASE_SIZE + Z.of_nat TAPROOT_CONTROL_NODE_SIZE * Z.of_nat TAPROOT_CONTROL_MAX_NODE_COUNT.

Inductive TaprootError :=
| InvalidMerkleBranchSize (size : nat)
| BranchTooDeep (depth : nat)
| InvalidTaprootLeafVersion (version : Z)
| InvalidControlBlockSize (size : nat)
| InvalidInternalKey.

Inductive TaprootBuilderError :=
| InvalidMerkleTreeDepth (depth : nat)
| NodeNotInDfsOrder
| OverCompleteTree
| EmptyTree.

Abbreviation branch := (list (list byte)) (only parsing).

(** [sl.chunks_exact(n)] *)
Fixpoint chunks_exact (fuel n : nat) (sl : list byte) : list (list byte) :=
  match fuel with
  | O => []
  | S fuel => if (length sl <? n)%nat then [] else take n sl :: chunks_exact fuel n (drop n sl)
  end.

Definition branch_decode (sl : list byte) : result TaprootError branch :=
  if negb (length sl mod TAPROOT_CONTROL_NODE_SIZE =? 0)%nat then Err (InvalidMerkleBranchSize (length sl))
  else if (TAPROOT_CONTROL_NODE_SIZE * TAPROOT_CONTROL_MAX_NODE_COUNT <? length sl)%nat
  then Err (BranchTooDeep (length sl / TAPROOT_CONTROL_NODE_SIZE))
  else Ok (chunks_exact (length sl) TAPROOT_CONTROL_NODE_SIZE sl).

Definition branch_from_collection (hashes : list hash) : result TaprootError branch :=
  if (TAPROOT_CONTROL_MAX_NODE_COUNT <? length hashes)%nat then Err (BranchTooDeep (length hashes))
  else Ok hashes.

Definition branch_encode (b : branch) : wr Z :=
  let+ _ := w_for (λ _ h, w_bytes h) tt b in
  w_ret (Z.of_nat (length b * TAPROOT_CONTROL_NODE_SIZE)).

Definition branch_serialize (b : branch) : list byte := concat b.

Definition branch_push (b : branch) (h : hash) : result TaprootBuilderError branch :=
  if (TAPROOT_CONTROL_MAX_NODE_COUNT <=? length b)%nat then Err (InvalidMerkleTreeDepth (length b))
  else Ok (b ++ [h]).

(** ** Nodes *)

Inductive TapLeaf :=
| LScript (s : script) (ver : LeafVersion)
| LHidden (h : hash).

Definition as_script (l : TapLeaf) : option (script * LeafVersion) :=
  match l with LScript s ver => Some (s, ver) | LHidden _ => None end.
Definition as_hidden (l : TapLeaf) : option hash :=
  match l with LScript _ _ => None | LHidden h => Some h end.

Record LeafNode := { leaf : TapLeaf; merkle_branch : branch }.

Definition leaf_new_script (s : script) (ver : LeafVersion) : LeafNode :=
  {| leaf := LScript s ver; merkle_branch := [] |}.

Definition leaf_node_hash (l : LeafNode) : hash :=
  match leaf l with LScript s ver => leaf_hash_from_script s ver | LHidden h => h end.

(** [None]: [expect("depth is guaranteed to fit in a u8")]. *)
Definition leaf_depth (l : LeafNode) : option Z :=
  if (length (merkle_branch l) <=? 255)%nat then Some (Z.of_nat (length (merkle_branch l))) else None.

Record NodeInfo := { node_hash : hash; leaves : list LeafNode; has_hidden_nodes : bool }.

Definition new_hidden_node (h : hash) : NodeInfo := {| node_hash := h; leaves := []; has_hidden_nodes := true |}.

Definition new_leaf_with_ver (s : script) (ver : LeafVersion) : NodeInfo :=
  {| node_hash := leaf_hash_from_script s ver; leaves := [leaf_new_script s ver]; has_hidden_nodes := false |}.

(** A loop of [combine]: the partner goes to the end of every branch. *)
Fixpoint push_partner (h : hash) (ls : list LeafNode) : result TaprootBuilderError (list LeafNode) :=
  match ls with
  | [] => Ok []
  | l :: ls =>
      let? b := branch_push (merkle_branch l) h in
      let? rest := push_partner h ls in
      Ok ({| leaf := leaf l; merkle_branch := b |} :: rest)
  end.

Definition combine (a b : NodeInfo) : result TaprootBuilderError NodeInfo :=
  let '(h, left_first) := combine_node_hashes (node_hash a) (node_hash b) in
  let '(a, b) := if left_first then (a, b) else (b, a) in
  let? a_leaves := push_partner (node_hash b) (leaves a) in
  let? b_leaves := push_partner (node_hash a) (leaves b) in
  Ok {| node_hash := h; leaves := a_leaves ++ b_leaves;
        has_hidden_nodes := has_hidden_nodes a || has_hidden_nodes b |}.

(** ** The builder *)

Record TaprootBuilder := { builder_branch : list (option NodeInfo) }.

Definition builder_new : TaprootBuilder := {| builder_branch := [] |}.

(** [while self.branch.len() == depth as usize + 1]; every round but the last lowers
    the depth. *)
Fixpoint insert_loop (depth : nat) (br : list (option NodeInfo)) (node : NodeInfo)
    : result TaprootBuilderError (list (option NodeInfo) * NodeInfo * nat) :=
  if (length br =? depth + 1)%nat then
    match last br with
    | Some (Some child) =>
        match depth with
        | O => Err OverCompleteTree
        | S depth =>
            let? node := combine node child in
            insert_loop depth (take (length br - 1) br) node
        end
    | _ => Ok (br, node, depth)
    end
  else Ok (br, node, depth).

Definition insert (self : TaprootBuilder) (node : NodeInfo) (depth : nat) : result TaprootBuilderError TaprootBuilder :=
  if (TAPROOT_CONTROL_MAX_NODE_COUNT <? depth)%nat then Err (InvalidMerkleTreeDepth depth)
  else if (depth + 1 <? length (builder_branch self))%nat then Err NodeNotInDfsOrder
  else
    let? (br, node, depth) := insert_loop depth (builder_branch self) node in
    let br := if (length br <? depth + 1)%nat then br ++ replicate (depth + 1 - length br) None else br in
    Ok {| builder_branch := <[depth := Some node]> br |}.

Definition add_leaf_with_ver (self : TaprootBuilder) (depth : nat) (s : script) (ver : LeafVersion) :=
  insert self (new_leaf_with_ver s ver) depth.
Definition add_leaf (self : TaprootBuilder) (depth : nat) (s : script) := add_leaf_with_ver self depth s TapScript.
Definition add_hidden_node (self : TaprootBuilder) (depth : nat) (h : hash) := insert self (new_hidden_node h) depth.

Definition is_finalizable (self : TaprootBuilder) : bool :=
  match builder_branch self with [Some _] => true | _ => false end.

Definition builder_has_hidden_nodes (self : TaprootBuilder) : bool :=
  existsb (from_option has_hidden_nodes false) (builder_branch self).

Inductive IncompleteBuilderError :=
| NotFinalized (builder : TaprootBuilder)
| HiddenParts (builder : TaprootBuilder).

Definition into_builder (e : IncompleteBuilderError) : TaprootBuilder :=
  match e with NotFinalized b | HiddenParts b => b end.

(** The outer [None] is a panic: [expect("invariant guarantees node info exists")]. *)
Definition try_into_node_info (self : TaprootBuilder) : option (result IncompleteBuilderError NodeInfo) :=
  match builder_branch self with
  | [o] => node ← o; Some (Ok node)
  | _ => Some (Err (NotFinalized self))
  end.

(** [TapTree] wraps a node without hidden parts. *)
Definition try_into_taptree (self : TaprootBuilder) : option (result IncompleteBuilderError NodeInfo) :=
  node ← try_into_node_info self;
  Some (let? node := node in
        if has_hidden_nodes node then Err (HiddenParts {| builder_branch := [Some node] |}) else Ok node).

(** *** Huffman trees *)

Definition leaf_version_cmp (v w : LeafVersion) : comparison :=
  match v, w with
  | TapScript, TapScript => Eq
  | TapScript, Future _ => Lt
  | Future _, TapScript => Gt
  | Future x, Future y => x ?= y
  end.

Definition tap_leaf_cmp (l k : TapLeaf) : comparison :=
  match l, k with
  | LScript s v, LScript t w => then_cmp (bytes_cmp s t) (leaf_version_cmp v w)
  | LScript _ _, LHidden _ => Lt
  | LHidden _, LScript _ _ => Gt
  | LHidden g, LHidden h => bytes_cmp g h
  end.

Definition branch_cmp : branch → branch → comparison := list_cmp bytes_cmp.

Definition leaf_node_cmp (l k : LeafNode) : comparison :=
  then_cmp (tap_leaf_cmp (leaf l) (leaf k)) (branch_cmp (merkle_branch l) (merkle_branch k)).

Definition bool_cmp (b c : bool) : comparison := b2z b ?= b2z c.

Definition node_info_cmp (a b : NodeInfo) : comparison :=
  then_cmp (bytes_cmp (node_hash a) (node_hash b))
    (then_cmp (list_cmp leaf_node_cmp (leaves a) (leaves b))
       (bool_cmp (has_hidden_nodes a) (has_hidden_nodes b))).

(** [(Reverse<u32>, NodeInfo)]: the greatest has the smallest weight. *)
Definition weighted_cmp (x y : Z * NodeInfo) : comparison :=
  then_cmp (fst y ?= fst x) (node_info_cmp (snd x) (snd y)).

(** [BinaryHeap::pop]: a greatest element, and the others. *)
Fixpoint heap_pop (heap : list (Z * NodeInfo)) : option ((Z * NodeInfo) * list (Z * NodeInfo)) :=
  match heap with
  | [] => None
  | x :: heap =>
      match heap_pop heap with
      | None => Some (x, [])
      | Some (m, rest) =>
          match weighted_cmp x m with Lt => Some (m, x :: rest) | _ => Some (x, heap) end
      end
  end.

(** [while node_weights.len() > 1]; every round removes an element. *)
Fixpoint huffman_loop (fuel : nat) (heap : list (Z * NodeInfo)) : result TaprootBuilderError (list (Z * NodeInfo)) :=
  match fuel with
  | O => Ok heap
  | S fuel =>
      match heap_pop heap with
      | Some ((p1, s1), heap1) =>
          match heap_pop heap1 with
          | Some ((p2, s2), heap2) =>
              let p := Z.min (p1 + p2) U32_MAX in
              let? node := combine s1 s2 in
              huffman_loop fuel ((p, node) :: heap2)
          | None => Ok heap
          end
      | None => Ok heap
      end
  end.

(** [None]: [expect("huffman tree algorithm is broken")]. *)
Definition with_huffman_tree (script_weights : list (Z * script)) : option (result TaprootBuilderError TaprootBuilder) :=
  let node_weights := map (λ '(p, s), (p, new_leaf_with_ver s TapScript)) script_weights in
  match node_weights with
  | [] => Some (Err EmptyTree)
  | _ =>
      match huffman_loop (length node_weights) node_weights with
      | Err e => Some (Err e)
      | Ok heap =>
          '((_, node), _) ← heap_pop heap;
          Some (Ok {| builder_branch := [Some node] |})
      end
  end.

(** ** Spending information

    X-only keys and scalars are those of [secp256k1]. *)

Class TaprootKeys := {
  XOnly : Type;
  Scalar : Type;
  xonly_from_slice : list byte → option XOnly;
  xonly_serialize : XOnly → list byte;
  scalar_from_be_bytes : list byte → option Scalar;
  xonly_add_tweak : XOnly → Scalar → option (XOnly * bool);
  xonly_tweak_add_check : XOnly → XOnly → bool → Scalar → bool }.

(** Documented: keys are 32 bytes, parsed back to the key, and the only ones that parse
    to it; the check accepts just the key and the parity that tweaking gives. *)
Class TaprootKeyLaws `{TaprootKeys} : Prop := {
  xonly_length k : length (xonly_serialize k) = 32%nat;
  xonly_parse k : xonly_from_slice (xonly_serialize k) = Some k;
  xonly_only bs k : length bs = 32%nat → xonly_from_slice bs = Some k → xonly_serialize k = bs;
  xonly_check k o p t : xonly_tweak_add_check k o p t = true ↔ xonly_add_tweak k t = Some (o, p) }.

(** A [BTreeSet] in its order, and a [BTreeMap]. *)
Fixpoint set_insert (b : branch) (s : list branch) : list branch :=
  match s with
  | [] => [b]
  | x :: s' => match branch_cmp b x with Lt => b :: s | Eq => s | Gt => x :: set_insert b s' end
  end.

Abbreviation script_map_t := (list ((script * LeafVersion) * list branch)) (only parsing).

#[export] Instance leaf_version_eq_dec : EqDecision LeafVersion.
Proof. solve_decision. Defined.

Definition map_get (k : script * LeafVersion) (m : script_map_t) : option (list branch) :=
  snd <$> List.find (λ e, bool_decide (fst e = k)) m.

Fixpoint map_insert (k : script * LeafVersion) (b : branch) (m : script_map_t) : script_map_t :=
  match m with
  | [] => [(k, set_insert b [])]
  | (k', s) :: m => if bool_decide (k' = k) then (k', set_insert b s) :: m else (k', s) :: map_insert k b m
  end.

(** [min_by] on the length: the first of the shortest. *)
Fixpoint min_by_len (best : branch) (s : list branch) : branch :=
  match s with
  | [] => best
  | x :: s => min_by_len (if (length x <? length best)%nat then x else best) s
  end.

Section SpendInfo.
Context `{TaprootKeys}.

Definition tap_tweak_hash (internal_key : XOnly) (merkle_root : option hash) : hash :=
  let eng := tag_engine TAP_TWEAK in
  let eng := HashEngine.input eng (xonly_serialize internal_key) in
  let eng := match merkle_root with Some h => HashEngine.input eng h | None => eng end in
  from_engine eng.

(** [None]: the panics of [to_scalar] and of [expect("Tap tweak failed")]. *)
Definition tap_tweak (internal_key : XOnly) (merkle_root : option hash) : option (XOnly * bool) :=
  tweak ← scalar_from_be_bytes (tap_tweak_hash internal_key merkle_root);
  xonly_add_tweak internal_key tweak.

Record TaprootSpendInfo := {
  internal_key : XOnly; merkle_root : option hash; output_key_parity : bool; output_key : XOnly;
  script_map : script_map_t }.

Definition new_key_spend (k : XOnly) (root : option hash) : option TaprootSpendInfo :=
  '(o, parity) ← tap_tweak k root;
  Some {| internal_key := k; merkle_root := root; output_key_parity := parity; output_key := o;
          script_map := [] |}.

Definition add_leaf_proof (m : script_map_t) (l : LeafNode) : script_map_t :=
  match leaf l with
  | LHidden _ => m
  | LScript s ver => map_insert (s, ver) (merkle_branch l) m
  end.

Definition from_node_info (k : XOnly) (node : NodeInfo) : option TaprootSpendInfo :=
  info ← new_key_spend k (Some (node_hash node));
  Some {| internal_key := internal_key info; merkle_root := merkle_root info;
          output_key_parity := output_key_parity info; output_key := output_key info;
          script_map := foldl add_leaf_proof (script_map info) (leaves node) |}.

(** [TaprootBuilder::finalize]; the outer [None] is a panic. *)
Definition finalize (self : TaprootBuilder) (k : XOnly) : option (result TaprootBuilder TaprootSpendInfo) :=
  match builder_branch self with
  | [] => Ok <$> new_key_spend k None
  | [o] => node ← o; Ok <$> from_node_info k node
  | _ => Some (Err self)
  end.

(** ** Control blocks *)

Record ControlBlock := {
  leaf_version : LeafVersion; cb_parity : bool; cb_internal_key : XOnly; cb_branch : branch }.

(** [None] is also the panic on an empty set, which the map never has. *)
Definition control_block (self : TaprootSpendInfo) (script_ver : script * LeafVersion) : option ControlBlock :=
  merkle_branch_set ← map_get script_ver (script_map self);
  match merkle_branch_set with
  | [] => None
  | b :: s =>
      let smallest := min_by_len b s in
      Some {| cb_internal_key := internal_key self; cb_parity := output_key_parity self;
              leaf_version := snd script_ver; cb_branch := smallest |}
  end.

Definition control_block_size (self : ControlBlock) : Z :=
  TAPROOT_CONTROL_BASE_SIZE + Z.of_nat TAPROOT_CONTROL_NODE_SIZE * Z.of_nat (length (cb_branch self)).

Definition control_block_decode (sl : list byte) : result TaprootError ControlBlock :=
  let base := Z.to_nat TAPROOT_CONTROL_BASE_SIZE in
  match sl with
  | first :: _ =>
      if (length sl <? base)%nat || negb ((length sl - base) mod TAPROOT_CONTROL_NODE_SIZE =? 0)%nat
      then Err (InvalidControlBlockSize (length sl))
      else
        let output_key_parity := negb (Z.land (byte.unsigned first) 1 =? 0) in
        let version := Z.land (byte.unsigned first) TAPROOT_LEAF_MASK in
        let? leaf_version := ok_or (leaf_version_from_consensus version) (InvalidTaprootLeafVersion version) in
        let? internal_key := ok_or (xonly_from_slice (take (base - 1) (drop 1 sl))) InvalidInternalKey in
        let? merkle_branch := branch_decode (drop base sl) in
        Ok {| leaf_version := leaf_version; cb_parity := output_key_parity;
              cb_internal_key := internal_key; cb_branch := merkle_branch |}
  | [] => Err (InvalidControlBlockSize (length sl))
  end.

Definition control_block_encode (self : ControlBlock) : wr Z :=
  let first_byte := Z.lor (b2z (cb_parity self)) (leaf_version_to_consensus (leaf_version self)) in
  let+ _ := w_bytes [byte.of_Z first_byte] in
  let+ _ := w_bytes (xonly_serialize (cb_internal_key self)) in
  let+ _ := branch_encode (cb_branch self) in
  w_ret (control_block_size self).

(** [None]: [expect("writers don't error")]. *)
Definition control_block_serialize (self : ControlBlock) : option (list byte) :=
  match control_block_encode self with Ok (_, bs) => Some bs | Err _ => None end.

(** [None]: the panic of [to_scalar]. *)
Definition verify_taproot_commitment (self : ControlBlock) (output_key : XOnly) (s : script) : option bool :=
  let curr_hash := leaf_hash_from_script s (leaf_version self) in
  let curr_hash := foldl from_node_hashes curr_hash (cb_branch self) in
  tweak ← scalar_from_be_bytes (tap_tweak_hash (cb_internal_key self) (Some curr_hash));
  Some (xonly_tweak_add_check (cb_internal_key self) output_key (cb_parity self) tweak).

End SpendInfo.

(** ** Trees: what the builder builds *)

Inductive tree :=
| TLeaf (l : TapLeaf)
| TNode (l r : tree).

Fixpoint height (t : tree) : nat :=
  match t with TLeaf _ => 0 | TNode l r => S (Nat.max (height l) (height r)) end.

(** The leaves with their depths, depth first. *)
Fixpoint dfs (d : nat) (t : tree) : list (nat * TapLeaf) :=
  match t with TLeaf l => [(d, l)] | TNode l r => dfs (S d) l ++ dfs (S d) r end.

Definition add_item (self : TaprootBuilder) (d : nat) (l : TapLeaf) : result TaprootBuilderError TaprootBuilder :=
  match l with
  | LScript s ver => add_leaf_with_ver self d s ver
  | LHidden h => add_hidden_node self d h
  end.

Fixpoint add_all (self : TaprootBuilder) (items : list (nat * TapLeaf)) : result TaprootBuilderError TaprootBuilder :=
  match items with
  | [] => Ok self
  | (d, l) :: items => let? self := add_item self d l in add_all self items
  end.

Definition leaf_info (l : TapLeaf) : NodeInfo :=
  match l with LScript s ver => new_leaf_with_ver s ver | LHidden h => new_hidden_node h end.

Definition extend_leaf (h : hash) (l : LeafNode) : LeafNode :=
  {| leaf := leaf l; merkle_branch := merkle_branch l ++ [h] |}.

(** [combine] where no branch is full. *)
Definition join (a b : NodeInfo) : NodeInfo :=
  let '(x, y) := if bytes_ltb (node_hash a) (node_hash b) then (a, b) else (b, a) in
  {| node_hash := from_node_hashes (node_hash a) (node_hash b);
     leaves := map (extend_leaf (node_hash y)) (leaves x) ++ map (extend_leaf (node_hash x)) (leaves y);
     has_hidden_nodes := has_hidden_nodes x || has_hidden_nodes y |}.

Fixpoint tree_node (t : tree) : NodeInfo :=
  match t with TLeaf l => leaf_info l | TNode l r => join (tree_node r) (tree_node l) end.

Lemma add_item_insert self d l : add_item self d l = insert self (leaf_info l) d.
Proof. by destruct l. Qed.

Lemma add_all_app self xs ys :
  add_all self (xs ++ ys) = let? self := add_all self xs in add_all self ys.
Proof.
  revert self. induction xs as [|[d l] xs IH]; intros self; [done|]. cbn [add_all app].
  destruct (add_item self d l); cbn [result_bind]; [apply IH|done].
Qed.

Lemma push_partner_ok h ls :
  Forall (λ l, length (merkle_branch l) < 128)%nat ls → push_partner h ls = Ok (map (extend_leaf h) ls).
Proof.
  induction 1 as [|l ls Hl _ IH]; [done|]. cbn [push_partner map]. unfold branch_push, TAPROOT_CONTROL_MAX_NODE_COUNT.
  destruct (Nat.leb_spec 128 (length (merkle_branch l))); [lia|]. cbn [result_bind]. by rewrite IH.
Qed.

Definition room (n : NodeInfo) : Prop := Forall (λ l, length (merkle_branch l) < 128)%nat (leaves n).

Lemma combine_join a b : room a → room b → combine a b = Ok (join a b).
Proof.
  intros Ha Hb. unfold combine, join, from_node_hashes, combine_node_hashes. cbn [fst].
  destruct (bytes_ltb (node_hash a) (node_hash b)); by rewrite !push_partner_ok.
Qed.

Lemma tree_node_branches t :
  Forall (λ l, length (merkle_branch l) <= height t)%nat (leaves (tree_node t)).
Proof.
  induction t as [[]|l IHl r IHr]; cbn [tree_node leaf_info leaves height]; try by repeat constructor.
  unfold join. destruct (bytes_ltb _ _); cbn [leaves]; rewrite Forall_app, !Forall_map; split;
    (eapply Forall_impl; [eassumption|]; intros lf; cbn [extend_leaf merkle_branch]; rewrite length_app; cbn; lia).
Qed.

Lemma tree_room t : (height t < 128)%nat → room (tree_node t).
Proof. intros Ht. eapply Forall_impl; [apply tree_node_branches|]. cbn. lia. Qed.

Lemma insert_loop_below d br n : (length br < d + 1)%nat → insert_loop d br n = Ok (br, n, d).
Proof. intros Hl. destruct d; cbn [insert_loop]; by rewrite (proj2 (Nat.eqb_neq _ _)) by lia. Qed.

(** Entries up to depth [d], the missing ones empty. *)
Definition filled (d : nat) (br : list (option NodeInfo)) : list (option NodeInfo) :=
  br ++ replicate (d - length br) None.

Lemma length_filled d br : (length br <= d)%nat → length (filled d br) = d.
Proof. intros. unfold filled. rewrite length_app, length_replicate. lia. Qed.

Lemma insert_below br n d :
  (d <= 128)%nat → (length br <= d)%nat →
  insert {| builder_branch := br |} n d = Ok {| builder_branch := filled d br ++ [Some n] |}.
Proof.
  intros Hd Hl. unfold insert, TAPROOT_CONTROL_MAX_NODE_COUNT. cbn [builder_branch].
  rewrite !(proj2 (Nat.ltb_ge _ _)) by lia. rewrite insert_loop_below by lia. cbn [result_bind].
  rewrite (proj2 (Nat.ltb_lt _ _)) by lia. do 2 f_equal. unfold filled.
  replace (d + 1 - length br)%nat with (d - length br + 1)%nat by lia. rewrite replicate_add, app_assoc.
  rewrite insert_app_r_alt by (rewrite length_app, length_replicate; lia). f_equal.
  rewrite length_app, length_replicate. by replace (d - _)%nat with 0%nat by lia.
Qed.

Lemma insert_at br n d :
  (d <= 128)%nat → length br = (d + 1)%nat →
  insert {| builder_branch := br |} n d =
    let? (br, n, d) := insert_loop d br n in
    Ok {| builder_branch := <[d := Some n]> (if (length br <? d + 1)%nat then br ++ replicate (d + 1 - length br) None else br) |}.
Proof.
  intros Hd Hl. unfold insert, TAPROOT_CONTROL_MAX_NODE_COUNT. cbn [builder_branch].
  by rewrite !(proj2 (Nat.ltb_ge _ _)) by lia.
Qed.

Lemma last_filled d br : (length br <= d)%nat → last (filled (d + 1) br) = Some None.
Proof.
  intros Hl. unfold filled. replace (d + 1 - length br)%nat with (d - length br + 1)%nat by lia.
  rewrite replicate_add, app_assoc. apply last_snoc.
Qed.

(** Joining with the left sibling on the stack is inserting the parent. *)
Lemma insert_sibling br nl nr d :
  (d < 128)%nat → (length br <= d + 1)%nat → room nl → room nr →
  insert {| builder_branch := filled (d + 1) br ++ [Some nl] |} nr (d + 1)
  = insert {| builder_branch := br |} (join nr nl) d.
Proof.
  intros Hd Hl Hnl Hnr. pose proof (length_filled (d + 1) br Hl) as Hf.
  rewrite insert_at by (rewrite ?length_app, ?Hf; cbn; lia).
  rewrite Nat.add_1_r at 1. cbn [insert_loop]. rewrite length_app, Hf. cbn [length].
  rewrite (proj2 (Nat.eqb_eq _ _)), last_snoc by lia. rewrite combine_join by done. cbn [result_bind].
  rewrite take_app_length' by lia. destruct (decide (length br = d + 1)%nat) as [E|E].
  - unfold filled. rewrite E, Nat.sub_diag. cbn [replicate]. rewrite app_nil_r. by rewrite insert_at by lia.
  - rewrite (insert_below br) by lia.
    assert (insert_loop d (filled (d + 1) br) (join nr nl) = Ok (filled (d + 1) br, join nr nl, d)) as ->.
    { assert (last (filled (d + 1) br) = Some None) as Hlast by (apply last_filled; lia).
      destruct d; cbn [insert_loop]; rewrite Hf, Hlast, Nat.eqb_refl; done. }
    cbn [result_bind]. rewrite Hf, Nat.ltb_irrefl. do 2 f_equal. unfold filled.
    replace (d + 1 - length br)%nat with (d - length br + 1)%nat by lia. rewrite replicate_add, app_assoc.
    rewrite insert_app_r_alt by (rewrite length_app, length_replicate; lia). f_equal.
    rewrite length_app, length_replicate. by replace (d - _)%nat with 0%nat by lia.
Qed.

(** Adding the leaves of a tree is inserting its node. *)
Lemma add_tree br t d :
  (length br <= d + 1)%nat → (d + height t <= 128)%nat →
  add_all {| builder_branch := br |} (dfs d t) = insert {| builder_branch := br |} (tree_node t) d.
Proof.
  revert br d. induction t as [l|l IHl r IHr]; intros br d Hl Hh; cbn [dfs tree_node height] in *.
  - cbn [add_all]. rewrite add_item_insert. by destruct (insert _ _ _).
  - rewrite add_all_app, IHl by lia. rewrite insert_below by lia. cbn [result_bind].
    pose proof (length_filled (S d) br ltac:(lia)) as Hf.
    rewrite IHr by (rewrite ?length_app, ?Hf; cbn; lia).
    replace (S d) with (d + 1)%nat in * by lia. apply insert_sibling; [lia|lia|..]; apply tree_room; lia.
Qed.

(** *** The stack of the builder *)

Definition nodes (ts : list (option tree)) : list (option NodeInfo) := fmap (M := option) tree_node <$> ts.

(** The leaves added so far, from the trees on the stack. *)
Fixpoint flat (i : nat) (ts : list (option tree)) : list (nat * TapLeaf) :=
  match ts with
  | [] => []
  | Some t :: ts => dfs i t ++ flat (S i) ts
  | None :: ts => flat (S i) ts
  end.

Definition bounded (i : nat) (ts : list (option tree)) : Prop :=
  ∀ k t, ts !! k = Some (Some t) → (i + k + height t <= 128)%nat.

Lemma flat_app i ts us : flat i (ts ++ us) = flat i ts ++ flat (i + length ts) us.
Proof.
  revert i. induction ts as [|[t|] ts IH]; intros i; cbn [app flat length].
  - by rewrite Nat.add_0_r.
  - rewrite IH, <- app_assoc. do 2 f_equal. f_equal. lia.
  - rewrite IH. do 2 f_equal. lia.
Qed.

Lemma flat_none i n : flat i (replicate n None) = [].
Proof. revert i. induction n as [|n IH]; intros i; [done|]. apply IH. Qed.

Lemma bounded_app i ts us : bounded i (ts ++ us) ↔ bounded i ts ∧ bounded (i + length ts) us.
Proof.
  unfold bounded. split.
  - intros H. split.
    + intros k t Hk. apply H. by apply lookup_app_l_Some.
    + intros k t Hk. specialize (H (length ts + k)%nat t). rewrite lookup_app_r in H by lia.
      replace (length ts + k - length ts)%nat with k in H by lia. specialize (H Hk). lia.
  - intros [H1 H2] k t [Hk|[Hle Hk]]%lookup_app_Some; [by apply H1|]. specialize (H2 _ _ Hk). lia.
Qed.

Lemma bounded_one i o : (∀ t, o = Some t → (i + height t <= 128)%nat) ↔ bounded i [o].
Proof.
  unfold bounded. split.
  - intros H [|k] t; [intros [= ->]; specialize (H t eq_refl); lia|done].
  - intros H t ->. specialize (H 0%nat t eq_refl). lia.
Qed.

Lemma bounded_none i n : bounded i (replicate n None).
Proof. intros k t [E _]%lookup_replicate. done. Qed.

Lemma length_nodes ts : length (nodes ts) = length ts.
Proof. apply length_fmap. Qed.

Lemma nodes_snoc ts o : nodes (ts ++ [o]) = nodes ts ++ [tree_node <$> o].
Proof. unfold nodes. by rewrite fmap_app. Qed.

Lemma take_nodes ts o : take (length (nodes (ts ++ [o])) - 1) (nodes (ts ++ [o])) = nodes ts.
Proof.
  rewrite nodes_snoc, length_app. cbn [length]. apply take_app_length'. lia.
Qed.

Lemma insert_loop_sound ts t d br n d' :
  insert_loop d (nodes ts) (tree_node t) = Ok (br, n, d') →
  (length ts <= d + 1)%nat → (d + height t <= 128)%nat → bounded 0 ts →
  ∃ ts' t', br = nodes ts' ∧ n = tree_node t' ∧ (d' + height t' <= 128)%nat ∧ bounded 0 ts' ∧
    flat 0 ts' ++ dfs d' t' = flat 0 ts ++ dfs d t ∧
    (length ts' <= d' ∨ length ts' = d' + 1 ∧ last ts' = Some None)%nat.
Proof.
  revert ts t. induction d as [d IH] using lt_wf_ind; intros ts t Hloop Hl Hh Hb.
  destruct (decide (length ts = d + 1)%nat) as [E|E].
  2:{ rewrite insert_loop_below in Hloop by (rewrite length_nodes; lia). injection Hloop as <- <- <-.
      exists ts, t. split_and!; try done. lia. }
  destruct ts as [|o ts _] using rev_ind; [cbn in E; lia|].
  assert (last (nodes (ts ++ [o])) = Some (tree_node <$> o)) as Hlast by (rewrite nodes_snoc; apply last_snoc).
  destruct o as [c|].
  - destruct d as [|d]; cbn [insert_loop] in Hloop;
      rewrite length_nodes, E, Hlast, Nat.eqb_refl in Hloop; cbn [fmap option_fmap option_map] in Hloop; [done|].
    apply bounded_app in Hb as [Hb Hc]. pose proof (proj2 (bounded_one _ _) Hc c eq_refl) as Hc'.
    rewrite length_app in E. cbn [length] in E. rewrite combine_join in Hloop by (apply tree_room; lia).
    cbn [result_bind] in Hloop. change (join (tree_node t) (tree_node c)) with (tree_node (TNode c t)) in Hloop.
    pose proof (take_nodes ts (Some c)) as Htake. rewrite length_nodes, length_app in Htake. cbn [length] in Htake.
    rewrite E in Htake. rewrite Htake in Hloop.
    apply IH in Hloop as (ts' & t' & ? & ? & ? & ? & Hf & ?); [|lia|lia|cbn [height]; lia|done].
    exists ts', t'. split_and!; try done. rewrite Hf, flat_app. cbn [flat dfs Nat.add]. rewrite app_nil_r, <- app_assoc.
    replace (length ts) with (S d) by lia. done.
  - assert (insert_loop d (nodes (ts ++ [None])) (tree_node t) = Ok (nodes (ts ++ [None]), tree_node t, d)) as Heq.
    { destruct d; cbn [insert_loop]; rewrite length_nodes, E, Hlast, Nat.eqb_refl; done. }
    rewrite Heq in Hloop. injection Hloop as <- <- <-. exists (ts ++ [None]), t. split_and!; try done.
    right. split; [done|apply last_snoc].
Qed.

(** What a successful insertion leaves. *)
Lemma insert_sound ts t d b :
  insert {| builder_branch := nodes ts |} (tree_node t) d = Ok b → (height t = 0)%nat → bounded 0 ts →
  ∃ ts' t', b = {| builder_branch := nodes (ts' ++ [Some t']) |} ∧ bounded 0 (ts' ++ [Some t']) ∧
    flat 0 (ts' ++ [Some t']) = flat 0 ts ++ dfs d t.
Proof.
  unfold insert, TAPROOT_CONTROL_MAX_NODE_COUNT. cbn [builder_branch]. intros Hi Ht Hb.
  destruct (Nat.ltb_spec 128 d); [done|]. rewrite length_nodes in Hi.
  destruct (Nat.ltb_spec (d + 1) (length ts)); [done|].
  destruct (insert_loop d (nodes ts) (tree_node t)) as [[[br n] d']|] eqn:Hloop; [|done]. cbn [result_bind] in Hi.
  apply insert_loop_sound in Hloop as (ts' & t' & -> & -> & Hh' & Hb' & Hf & Hlen); [|lia|lia|done].
  rewrite !length_nodes in Hi. injection Hi as <-. destruct Hlen as [Hlen|[Hlen Hlast]].
  - exists (ts' ++ replicate (d' - length ts') None), t'.
    assert (length (ts' ++ replicate (d' - length ts') None) = d') as El by (rewrite length_app, length_replicate; lia).
    rewrite (proj2 (Nat.ltb_lt _ _)) by lia. split_and!.
    + f_equal. unfold nodes. rewrite !fmap_app, fmap_replicate. cbn [fmap option_fmap option_map list_fmap].
      replace (d' + 1 - length ts')%nat with (d' - length ts' + 1)%nat by lia. rewrite replicate_add, app_assoc.
      rewrite insert_app_r_alt by (rewrite length_app, length_replicate, length_fmap; lia). f_equal.
      rewrite length_app, length_replicate, length_fmap. by replace (d' - _)%nat with 0%nat by lia.
    + apply bounded_app. rewrite El. split; [apply bounded_app; split; [done|apply bounded_none]|].
      apply bounded_one. intros ? [= <-]. done.
    + rewrite flat_app, El, flat_app, flat_none, app_nil_r. cbn [flat Nat.add]. by rewrite app_nil_r.
  - rewrite (proj2 (Nat.ltb_ge _ _)) by lia.
    destruct ts' as [|o ts' _] using rev_ind; [done|]. rewrite last_snoc in Hlast. injection Hlast as ->.
    rewrite length_app in Hlen. cbn [length] in Hlen. assert (d' = length ts') as -> by lia. exists ts', t'. split_and!.
    + f_equal. unfold nodes. rewrite !fmap_app. cbn [fmap option_fmap option_map list_fmap].
      rewrite insert_app_r_alt by (rewrite length_fmap; lia). rewrite length_fmap, Nat.sub_diag. done.
    + apply bounded_app in Hb' as [Hb' _]. apply bounded_app. split; [done|]. apply bounded_one. intros ? [= <-]. done.
    + rewrite <- Hf, !flat_app. cbn [flat Nat.add]. by rewrite !app_nil_r.
Qed.

Lemma add_all_sound items ts b :
  add_all {| builder_branch := nodes ts |} items = Ok b → bounded 0 ts →
  ∃ ts', b = {| builder_branch := nodes ts' |} ∧ bounded 0 ts' ∧ flat 0 ts' = flat 0 ts ++ items ∧
    (ts' = ts ∧ items = [] ∨ ∃ t, last ts' = Some (Some t)).
Proof.
  revert ts. induction items as [|[d l] items IH]; intros ts Ha Hb; cbn [add_all] in Ha.
  - injection Ha as <-. exists ts. rewrite app_nil_r. split_and!; try done. by left.
  - rewrite add_item_insert in Ha. destruct (insert _ _ _) as [b'|] eqn:Hi; [|done]. cbn [result_bind] in Ha.
    change (leaf_info l) with (tree_node (TLeaf l)) in Hi. apply insert_sound in Hi as (ts' & t' & -> & Hb' & Hf); [|done..].
    destruct (IH _ Ha Hb') as (ts'' & -> & Hb'' & Hf' & Hor). exists ts''. split_and!; [done|done| |].
    + rewrite Hf', Hf, <- app_assoc. done.
    + right. destruct Hor as [[-> _]|Hor]; [|done]. exists t'. apply last_snoc.
Qed.

(** ** Orders *)

Lemma branch_cmp_eq a b : branch_cmp a b = Eq → a = b.
Proof. apply list_cmp_eq, bytes_cmp_eq. Qed.

(** The two children are hashed in their order, so a proof does not say which is left. *)
Lemma from_node_hashes_comm a b : from_node_hashes a b = from_node_hashes b a.
Proof.
  unfold from_node_hashes, combine_node_hashes, bytes_ltb. cbn [fst]. rewrite (bytes_cmp_opp a b).
  destruct (bytes_cmp a b) eqn:E; cbn [CompOpp]; [by rewrite (bytes_cmp_eq _ _ E)|done..].
Qed.

(** ** Proofs of the leaves *)

(** The root that a leaf and its branch lead to. *)
Definition proof_root (l : LeafNode) : hash := foldl from_node_hashes (leaf_node_hash l) (merkle_branch l).

Lemma proof_root_extend h l : proof_root (extend_leaf h l) = from_node_hashes (proof_root l) h.
Proof. unfold proof_root. cbn [extend_leaf merkle_branch]. by rewrite foldl_app. Qed.

Definition proved (n : NodeInfo) : Prop := Forall (λ l, proof_root l = node_hash n) (leaves n).

Lemma join_proved a b : proved a → proved b → proved (join a b).
Proof.
  unfold proved, join. intros Ha Hb. destruct (bytes_ltb _ _); cbn [leaves node_hash];
    rewrite Forall_app, !Forall_map; split; (eapply Forall_impl; [eassumption|]); intros l Hl; cbv beta in *;
    rewrite proof_root_extend, Hl; first [done|apply from_node_hashes_comm].
Qed.

Lemma tree_proved t : proved (tree_node t).
Proof. induction t as [[]|]; cbn [tree_node]; [by repeat constructor..|by apply join_proved]. Qed.

Definition known (x : nat * TapLeaf) : Prop := is_Some (as_script x.2).
#[export] Instance known_dec x : Decision (known x).
Proof. unfold known. apply _. Defined.

Definition leaf_at (d : nat) (l : LeafNode) : nat * TapLeaf := ((d + length (merkle_branch l))%nat, leaf l).

Lemma leaf_at_extend d h ls : map (leaf_at d) (map (extend_leaf h) ls) = map (leaf_at (S d)) ls.
Proof.
  rewrite map_map. apply map_ext. intros l. unfold leaf_at, extend_leaf. cbn [merkle_branch leaf].
  rewrite length_app. cbn [length]. f_equal. lia.
Qed.

(** The leaves kept are the known ones, with branches as long as they are deep. *)
Lemma leaves_dfs t d : map (leaf_at d) (leaves (tree_node t)) ≡ₚ filter known (dfs d t).
Proof.
  revert d. induction t as [[s v|h]|l IHl r IHr]; intros d; cbn [tree_node dfs leaf_info leaves].
  - rewrite filter_cons, decide_True by by eexists. cbn. unfold leaf_at. cbn. by rewrite Nat.add_0_r.
  - rewrite filter_cons, decide_False by by intros []. done.
  - rewrite filter_app, <- IHl, <- IHr. unfold join. destruct (bytes_ltb _ _); cbn [leaves];
      rewrite map_app, !leaf_at_extend; [apply Permutation_app_comm|done].
Qed.

(** ** The map of proofs *)

Lemma set_insert_elem x b s : x ∈ set_insert b s ↔ x = b ∨ x ∈ s.
Proof.
  induction s as [|y s IH]; cbn [set_insert]; [set_solver|]. destruct (branch_cmp b y) eqn:E; [|set_solver|].
  - apply branch_cmp_eq in E as ->. set_solver.
  - rewrite elem_of_cons, IH. set_solver.
Qed.

Lemma map_get_insert k b m k' :
  map_get k' (map_insert k b m) = if bool_decide (k' = k) then Some (set_insert b (default [] (map_get k m))) else map_get k' m.
Proof.
  unfold map_get. induction m as [|[j s] m IH]; cbn [map_insert List.find fst].
  - repeat (case_bool_decide; subst; cbn [fmap option_fmap option_map snd from_option]); done.
  - destruct (decide (j = k)) as [->|Hj].
    + rewrite !(bool_decide_eq_true_2 (k = k)) by done. cbn [List.find fst fmap option_fmap option_map snd from_option].
      repeat (case_bool_decide; subst; cbn [fmap option_fmap option_map snd]); first [congruence|done].
    + rewrite !(bool_decide_eq_false_2 (j = k)) by done. cbn [List.find fst].
      destruct (decide (j = k')) as [->|Hk].
      * rewrite (bool_decide_eq_true_2 (k' = k')) by done. by rewrite bool_decide_eq_false_2 by congruence.
      * rewrite !(bool_decide_eq_false_2 (j = k')) by done. apply IH.
Qed.

Definition proofs_in (m : script_map_t) (k : script * LeafVersion) (b : branch) : Prop :=
  ∃ s, map_get k m = Some s ∧ b ∈ s.

Lemma proofs_insert m k b k' b' : proofs_in (map_insert k b m) k' b' ↔ proofs_in m k' b' ∨ k' = k ∧ b' = b.
Proof.
  unfold proofs_in. rewrite map_get_insert. case_bool_decide as E.
  - subst k'. split.
    + intros (s & [= <-] & [->|Hin]%set_insert_elem); [by right|left].
      destruct (map_get k m) as [s|]; [by exists s|]. by apply elem_of_nil in Hin.
    + intros H. eexists. split; [done|]. apply set_insert_elem. destruct H as [(s & -> & Hin)|[_ ->]]; [by right|by left].
  - split; [by left|]. intros [H|[]]; done.
Qed.

Lemma proofs_foldl m ls k b :
  proofs_in (foldl add_leaf_proof m ls) k b ↔
  proofs_in m k b ∨ ∃ l, l ∈ ls ∧ leaf l = LScript (fst k) (snd k) ∧ merkle_branch l = b.
Proof.
  revert m. induction ls as [|l ls IH]; intros m; cbn [foldl]; [set_solver|]. rewrite IH. unfold add_leaf_proof.
  destruct (leaf l) as [s v|h] eqn:El.
  - rewrite proofs_insert. split.
    + intros [[H|[-> ->]]|(l' & Hl' & E1 & E2)]; [by left|right; exists l; set_solver|right; exists l'; set_solver].
    + intros [H|(l' & [->|Hl']%elem_of_cons & E1 & E2)]; [by left; left| |by right; exists l'].
      left. right. rewrite El in E1. injection E1 as -> ->. by destruct k.
  - split; [intros [H|(l' & Hl' & E1 & E2)]; [by left|right; exists l'; set_solver]|].
    intros [H|(l' & [->|Hl']%elem_of_cons & E1 & E2)]; [by left|congruence|right; by exists l'].
Qed.

Lemma set_insert_nonempty b s : set_insert b s ≠ [].
Proof. destruct s as [|x s]; cbn; [done|]. by destruct (branch_cmp b x). Qed.

Definition no_empty (m : script_map_t) : Prop := ∀ k, map_get k m ≠ Some [].

Lemma foldl_no_empty m ls : no_empty m → no_empty (foldl add_leaf_proof m ls).
Proof.
  revert m. induction ls as [|l ls IH]; intros m Hm; [done|]. cbn [foldl]. apply IH. unfold add_leaf_proof.
  destruct (leaf l) as [s v|h]; [|done]. intros k. rewrite map_get_insert. case_bool_decide; [|apply Hm].
  intros [= Hn]. by apply set_insert_nonempty in Hn.
Qed.

Lemma min_by_len_spec best s :
  min_by_len best s ∈ best :: s ∧ Forall (λ x, length (min_by_len best s) <= length x)%nat (best :: s).
Proof.
  revert best. induction s as [|x s IH]; intros best; cbn [min_by_len]; [split; [set_solver|by repeat constructor]|].
  destruct (IH (if (length x <? length best)%nat then x else best)) as [Hin Hmin]. apply Forall_cons in Hmin as [H1 H2].
  destruct (Nat.ltb_spec (length x) (length best)); (split; [set_solver|]); repeat constructor; try done; lia.
Qed.

(** ** Control blocks and their bytes *)

Definition leaf_version_wf (v : LeafVersion) : Prop :=
  match v with TapScript => True | Future n => urange 8 n ∧ Z.odd n = false ∧ n ≠ 0x50 ∧ n ≠ 0xc0 end.

Definition branch_wf (b : branch) : Prop := Forall (λ h, length h = 32%nat) b ∧ (length b <= 128)%nat.

Lemma control_byte_split b :
  byte.of_Z (Z.lor (b2z (negb (Z.land (byte.unsigned b) 1 =? 0))) (Z.land (byte.unsigned b) TAPROOT_LEAF_MASK)) = b ∧
  urange 8 (Z.land (byte.unsigned b) TAPROOT_LEAF_MASK) ∧ Z.odd (Z.land (byte.unsigned b) TAPROOT_LEAF_MASK) = false.
Proof.
  split; [by destruct b|]. assert (0 <= Z.land (byte.unsigned b) TAPROOT_LEAF_MASK < 256 ∧
    Z.odd (Z.land (byte.unsigned b) TAPROOT_LEAF_MASK) = false) as []; [|done]. destruct b; vm_compute; intuition congruence.
Qed.

Lemma leaf_version_byte b v :
  leaf_version_from_consensus (Z.land (byte.unsigned b) TAPROOT_LEAF_MASK) = Some v →
  leaf_version_wf v ∧
  byte.of_Z (Z.lor (b2z (negb (Z.land (byte.unsigned b) 1 =? 0))) (leaf_version_to_consensus v)) = b.
Proof.
  destruct (control_byte_split b) as (Hb & Hr & Ho). unfold leaf_version_from_consensus, TAPROOT_LEAF_TAPSCRIPT in *.
  set (n := Z.land _ TAPROOT_LEAF_MASK) in *.
  destruct (Z.eqb_spec n 0xc0) as [E|E]; [intros [= <-]; cbn [leaf_version_to_consensus]; by rewrite E in Hb|].
  destruct (Z.eqb_spec n 0x50) as [E'|E']; [done|]. destruct (negb (Z.land n _ =? n)); [done|]. intros Hv. apply (inj Some) in Hv as <-. by split_and!.
Qed.

Lemma leaf_version_byte_of v p :
  leaf_version_wf v →
  let b := byte.of_Z (Z.lor (b2z p) (leaf_version_to_consensus v)) in
  negb (Z.land (byte.unsigned b) 1 =? 0) = p ∧
  leaf_version_from_consensus (Z.land (byte.unsigned b) TAPROOT_LEAF_MASK) = Some v.
Proof.
  destruct v as [|n]; cbn [leaf_version_wf leaf_version_to_consensus]; [by destruct p|]. intros (Hn & Hodd & H1 & H2).
  assert (∃ c, n = byte.unsigned c) as [c ->] by (exists (byte.of_Z n); by rewrite byte_of_Z_u).
  clear Hn. destruct c; first [by destruct p|by vm_compute in Hodd|by vm_compute in H1|by vm_compute in H2].
Qed.

Lemma chunks_exact_concat fuel b :
  Forall (λ h, length h = 32%nat) b → (length b < fuel)%nat → chunks_exact fuel 32 (concat b) = b.
Proof.
  intros Hb. revert fuel. induction Hb as [|h b Hh _ IH]; intros [|fuel] Hf; cbn [length] in *; try lia; [done|].
  cbn [chunks_exact concat]. rewrite length_app, Hh. destruct (Nat.ltb_spec (32 + length (concat b)) 32); [lia|].
  rewrite take_app_length', drop_app_length' by done. by rewrite IH by lia.
Qed.

Lemma chunks_exact_ok k fuel sl :
  length sl = (32 * k)%nat → (k < fuel)%nat →
  concat (chunks_exact fuel 32 sl) = sl ∧ Forall (λ h, length h = 32%nat) (chunks_exact fuel 32 sl) ∧
  length (chunks_exact fuel 32 sl) = k.
Proof.
  revert fuel sl. induction k as [|k IH]; intros [|fuel] sl Hl Hf; try lia; cbn [chunks_exact].
  - destruct sl; [by cbn|done].
  - destruct (Nat.ltb_spec (length sl) 32); [lia|].
    destruct (IH fuel (drop 32 sl)) as (H1 & H2 & H3); [rewrite length_drop; lia|lia|].
    cbn [concat length]. rewrite H1, take_drop, H3. split_and!; [done| |done].
    constructor; [rewrite length_take; lia|done].
Qed.

Lemma length_concat_nodes b : Forall (λ h : hash, length h = 32%nat) b → length (concat b) = (32 * length b)%nat.
Proof. induction 1 as [|h b Hh _ IH]; [done|]. cbn [concat length]. rewrite length_app. lia. Qed.

Lemma branch_decode_spec sl b : branch_decode sl = Ok b ↔ branch_wf b ∧ sl = concat b.
Proof.
  unfold branch_decode, TAPROOT_CONTROL_NODE_SIZE, TAPROOT_CONTROL_MAX_NODE_COUNT. split.
  - destruct (Nat.eqb_spec (length sl mod 32) 0) as [Hm|]; [|done]. cbn [negb].
    destruct (Nat.ltb_spec (32 * 128) (length sl)); [done|]. intros [= <-].
    pose proof (Nat.div_mod (length sl) 32 ltac:(lia)) as Hd.
    destruct (decide (length sl = 0)%nat) as [E|E]; [by destruct sl; [by repeat constructor|]|].
    destruct (chunks_exact_ok (length sl / 32) (length sl) sl) as (H1 & H2 & H3); [lia|lia|].
    split; [split; [done|lia]|done].
  - intros [[Hb Hl] ->]. pose proof (length_concat_nodes b Hb) as Hc. rewrite Hc.
    replace (32 * length b)%nat with (length b * 32)%nat at 1 by lia.
    rewrite Nat.Div0.mod_mul. cbn [Nat.eqb negb]. destruct (Nat.ltb_spec (32 * 128) (32 * length b)); [lia|].
    destruct b as [|h b]; [done|]. by rewrite chunks_exact_concat by (cbn [length]; try done; lia).
Qed.

Lemma branch_encode_eq (b : branch) :
  Forall (λ h, length h = 32%nat) b → branch_encode b = Ok (Z.of_nat (length (concat b)), concat b).
Proof.
  intros Hb. unfold branch_encode, TAPROOT_CONTROL_NODE_SIZE.
  assert (∀ b : branch, w_for (E := io_error) (λ _ h, w_bytes h) tt b = Ok (tt, concat b)) as Hw.
  { clear. induction b as [|h b IH]; [done|]. cbn [w_for]. unfold w_bytes at 1, w_bind. by rewrite IH. }
  rewrite Hw. cbn. rewrite app_nil_r, length_concat_nodes by done. do 2 f_equal. lia.
Qed.

Section Control.
Context `{Hlaws : TaprootKeyLaws}.

Definition control_block_wf (cb : ControlBlock) : Prop := leaf_version_wf (leaf_version cb) ∧ branch_wf (cb_branch cb).

Definition control_bytes (cb : ControlBlock) : list byte :=
  [byte.of_Z (Z.lor (b2z (cb_parity cb)) (leaf_version_to_consensus (leaf_version cb)))]
  ++ xonly_serialize (cb_internal_key cb) ++ concat (cb_branch cb).

Lemma control_block_serialize_eq cb :
  branch_wf (cb_branch cb) → control_block_serialize cb = Some (control_bytes cb) ∧
  Z.of_nat (length (control_bytes cb)) = control_block_size cb.
Proof.
  intros [Hb Hl]. split.
  - unfold control_block_serialize, control_block_encode. rewrite branch_encode_eq by done. cbn [w_bytes w_bind w_ret].
    unfold control_bytes. by rewrite app_nil_r.
  - unfold control_bytes, control_block_size. rewrite !length_app, xonly_length, length_concat_nodes by done.
    cbn [length]. unfold TAPROOT_CONTROL_BASE_SIZE, TAPROOT_CONTROL_NODE_SIZE. lia.
Qed.

Lemma control_block_decode_bytes cb : control_block_wf cb → control_block_decode (control_bytes cb) = Ok cb.
Proof.
  intros [Hv Hb]. destruct cb as [v p k b]. cbn [leaf_version cb_branch] in *.
  pose proof Hb as [Hb1 Hb2]. unfold control_bytes, control_block_decode. cbn [app leaf_version cb_parity cb_internal_key cb_branch].
  change (Z.to_nat TAPROOT_CONTROL_BASE_SIZE) with 33%nat. unfold TAPROOT_CONTROL_NODE_SIZE.
  destruct (leaf_version_byte_of v p Hv) as [Hp Hlv]. cbv zeta in *.
  set (first := byte.of_Z _) in *. cbn [length]. rewrite length_app, xonly_length, length_concat_nodes by done.
  destruct (Nat.ltb_spec (S (32 + 32 * length b)) 33); [lia|].
  replace (S (32 + 32 * length b) - 33)%nat with (length b * 32)%nat by lia. rewrite Nat.Div0.mod_mul. cbn [orb negb Nat.eqb].
  rewrite Hlv, Hp. cbn [ok_or result_bind]. change (33 - 1)%nat with 32%nat. cbn [drop]. rewrite drop_0.
  rewrite take_app_length' by (symmetry; apply xonly_length). rewrite xonly_parse. cbn [ok_or result_bind].
  rewrite drop_app_length' by (symmetry; apply xonly_length).
  by rewrite (proj2 (branch_decode_spec (concat b) b)).
Qed.

Lemma control_block_decode_ok bs cb :
  control_block_decode bs = Ok cb → control_block_wf cb ∧ bs = control_bytes cb.
Proof.
  unfold control_block_decode. destruct bs as [|first bs]; [done|]. change (Z.to_nat TAPROOT_CONTROL_BASE_SIZE) with 33%nat.
  destruct (Nat.ltb_spec (length (first :: bs)) 33) as [|Hl]; [done|]. cbn [orb].
  destruct (negb _); [done|]. cbn [length] in Hl. change (33 - 1)%nat with 32%nat. cbn [drop]. rewrite drop_0.
  destruct (leaf_version_from_consensus _) as [v|] eqn:Hv; [|done]. cbn [ok_or result_bind].
  destruct (xonly_from_slice _) as [k|] eqn:Hk; [|done]. cbn [ok_or result_bind].
  destruct (branch_decode _) as [b|] eqn:Hb; [|done]. cbn [result_bind]. intros [= <-].
  apply branch_decode_spec in Hb as [Hb Hdrop]. apply leaf_version_byte in Hv as [Hv Hfirst].
  apply xonly_only in Hk; [|rewrite length_take; lia].
  split; [done|]. unfold control_bytes. cbn [leaf_version cb_parity cb_internal_key cb_branch app].
  by rewrite Hfirst, Hk, <- Hdrop, take_drop.
Qed.
End Control.

(** ** The builder *)

Definition built (t : tree) : TaprootBuilder := {| builder_branch := [Some (tree_node t)] |}.

Lemma build_tree t : (height t <= 128)%nat → add_all builder_new (dfs 0 t) = Ok (built t).
Proof. intros Ht. unfold builder_new. rewrite add_tree by (cbn; lia). by rewrite insert_below by (cbn; lia). Qed.

Lemma built_only items b :
  add_all builder_new items = Ok b →
  try_into_node_info b ≠ None ∧
  (is_finalizable b = true → ∃ t, (height t <= 128)%nat ∧ items = dfs 0 t ∧ b = built t).
Proof.
  intros Ha. apply (add_all_sound items [] b) in Ha as (ts & -> & Hb & Hf & Hor); [|by intros k t Hk].
  cbn [flat app] in Hf. destruct ts as [|o [|o' ts]]; [by split| |by destruct o]. destruct Hor as [[Hts _]|[t Hlast]]; [done|].
  cbn in Hlast. injection Hlast as ->. split; [done|]. intros _. exists t. cbn [flat] in Hf. rewrite app_nil_r in Hf.
  split_and!; [|done|done]. by specialize (Hb 0%nat t eq_refl).
Qed.

(** C6: The builder implements trees given in depth-first order. Whatever tree has at most 128 levels, adding its
    leaves depth first with their depths succeeds and leaves exactly that tree (the
    same hash, leaves and proofs as combining its subtrees bottom up). Conversely, when any sequence of additions
    succeeds, taking the result does not panic, and the builder is finalizable only if
    the additions were the depth-first leaves of a tree of at most 128 levels, which is what it then
    holds. *)
Theorem builder_refines :
  (∀ t, (height t <= 128)%nat → add_all builder_new (dfs 0 t) = Ok {| builder_branch := [Some (tree_node t)] |}) ∧
  (∀ items b, add_all builder_new items = Ok b →
    try_into_node_info b ≠ None ∧
    (is_finalizable b = true →
      ∃ t, (height t <= 128)%nat ∧ items = dfs 0 t ∧ b = {| builder_branch := [Some (tree_node t)] |})).
Proof. split; [apply build_tree|apply built_only]. Qed.

(** ** Spending by script *)

Section Spend.
Context `{Hlaws : TaprootKeyLaws}.

(** The commitment is verified with the tweak that made the output key. *)
Lemma commitment_verified (k o : XOnly) p s l :
  leaf l = LScript (fst s) (snd s) → tap_tweak k (Some (proof_root l)) = Some (o, p) →
  verify_taproot_commitment
    {| leaf_version := snd s; cb_parity := p; cb_internal_key := k; cb_branch := merkle_branch l |} o (fst s) = Some true.
Proof.
  intros Hl. unfold tap_tweak, verify_taproot_commitment. cbn [leaf_version cb_parity cb_internal_key cb_branch].
  assert (proof_root l = foldl from_node_hashes (leaf_hash_from_script (fst s) (snd s)) (merkle_branch l)) as <-
    by (unfold proof_root, leaf_node_hash; by rewrite Hl).
  destruct (scalar_from_be_bytes _) as [tw|]; cbn [mbind option_bind]; [|done].
  intros Ht. f_equal. by apply xonly_check.
Qed.

Lemma finalized t k info :
  finalize (built t) k = Some (Ok info) →
  internal_key info = k ∧
  tap_tweak k (Some (node_hash (tree_node t))) = Some (output_key info, output_key_parity info) ∧
  script_map info = foldl add_leaf_proof [] (leaves (tree_node t)).
Proof.
  unfold finalize, built, from_node_info, new_key_spend. cbn [builder_branch mbind option_bind].
  destruct (tap_tweak _ _) as [[o p]|]; cbn; [|done]. intros Hi. apply (inj Some) in Hi.
  assert (∀ x y : TaprootSpendInfo, Ok (E := TaprootBuilder) x = Ok y → x = y) as Hinj by congruence.
  by apply Hinj in Hi as <-.
Qed.

Lemma finalize_some t k :
  is_Some (tap_tweak k (Some (node_hash (tree_node t)))) → ∃ info, finalize (built t) k = Some (Ok info).
Proof.
  unfold finalize, built, from_node_info, new_key_spend. cbn [builder_branch mbind option_bind].
  intros [[o p] ->]. by eexists.
Qed.

Lemma known_leaf t d l : l ∈ leaves (tree_node t) → ((d + length (merkle_branch l))%nat, leaf l) ∈ dfs d t.
Proof.
  intros Hin. assert (leaf_at d l ∈ filter known (dfs d t)) as Hf; [|by apply list_elem_of_filter in Hf as [_ ?]].
  rewrite <- leaves_dfs. by apply list_elem_of_fmap_2.
Qed.

Lemma leaf_known t d s v n :
  (n, LScript s v) ∈ dfs d t →
  ∃ l, l ∈ leaves (tree_node t) ∧ leaf l = LScript s v ∧ n = (d + length (merkle_branch l))%nat.
Proof.
  intros Hin. assert ((n, LScript s v) ∈ map (leaf_at d) (leaves (tree_node t))) as Hf.
  { rewrite leaves_dfs. apply list_elem_of_filter. split; [by eexists|done]. }
  apply list_elem_of_fmap in Hf as (l & E & Hl). unfold leaf_at in E. exists l. by injection E as -> ->.
Qed.

(** The branches kept for a script are those of its leaves. *)
Lemma branches_of t k info s v :
  finalize (built t) k = Some (Ok info) →
  match map_get (s, v) (script_map info) with
  | None => ∀ n, (n, LScript s v) ∉ dfs 0 t
  | Some bs =>
      bs ≠ [] ∧ ∀ b, b ∈ bs ↔ ∃ l, l ∈ leaves (tree_node t) ∧ leaf l = LScript s v ∧ merkle_branch l = b
  end.
Proof.
  intros (_ & _ & Hm)%finalized.
  assert (∀ b, proofs_in (script_map info) (s, v) b ↔
    ∃ l, l ∈ leaves (tree_node t) ∧ leaf l = LScript s v ∧ merkle_branch l = b) as Hp.
  { intros b. rewrite Hm, proofs_foldl. cbn [fst snd]. split; [intros [(? & [=] & _)|?]; done|by right]. }
  assert (no_empty (script_map info)) as Hne by (rewrite Hm; by apply foldl_no_empty).
  specialize (Hne (s, v)). unfold proofs_in in Hp. destruct (map_get _ _) as [bs|].
  - split; [congruence|]. intros b. rewrite <- Hp. split; [intros ?; by exists bs|by intros (? & [= <-] & ?)].
  - intros n (l & Hl & El & _)%leaf_known. destruct (proj2 (Hp (merkle_branch l))) as (? & ? & _); [by exists l|done].
Qed.

(** C7: Script spends. Of a tree that the builder finalized, a control block is given for exactly the scripts
    that are leaves of the tree with that leaf version (hidden leaves give none); the block commits to the
    output key, that is [verify_taproot_commitment] accepts it with the script, and its
    branch is the shortest, as long as the depth of the shallowest such leaf. *)
Theorem script_spend t k info s v :
  finalize {| builder_branch := [Some (tree_node t)] |} k = Some (Ok info) →
  (is_Some (control_block info (s, v)) ↔ ∃ d, (d, LScript s v) ∈ dfs 0 t) ∧
  (∀ cb, control_block info (s, v) = Some cb →
    verify_taproot_commitment cb (output_key info) s = Some true ∧
    (length (cb_branch cb), LScript s v) ∈ dfs 0 t ∧
    ∀ d, (d, LScript s v) ∈ dfs 0 t → (length (cb_branch cb) <= d)%nat).
Proof.
  intros Hfin. pose proof (branches_of t k info s v Hfin) as Hb. apply finalized in Hfin as (<- & Htw & _).
  unfold control_block. destruct (map_get _ _) as [bs|]; cbn [mbind option_bind].
  2:{ split; [|done]. split; [by intros []|]. intros [d Hd]. by destruct (Hb d). }
  destruct Hb as [Hne Hb]. destruct bs as [|b bs]; [done|]. destruct (min_by_len_spec b bs) as [Hin Hmin].
  apply Hb in Hin as (l & Hl & El & Hlb). split.
  - split; [|by eexists]. intros _. eexists. by rewrite <- El; apply known_leaf.
  - intros cb Hcb. apply (inj Some) in Hcb as <-. cbn [cb_branch snd]. rewrite <- Hlb. split_and!.
    + apply (commitment_verified _ _ _ (s, v) l); [done|]. rewrite <- Htw. do 2 f_equal.
      pose proof (tree_proved t) as Hpr. unfold proved in Hpr. rewrite Forall_forall in Hpr. by apply Hpr.
    + rewrite <- El. by apply (known_leaf t 0).
    + intros d (l' & Hl' & El' & ->)%leaf_known. cbn. rewrite Forall_forall in Hmin. rewrite Hlb. apply Hmin.
      apply Hb. by exists l'.
Qed.

(** Control block codec. A control block with an assignable leaf version (even, not the annex prefix) and at most
    128 nodes of 32 bytes is written in exactly [size] bytes and parsed back; bytes that are
    accepted are such a block's own bytes, so that no two byte strings parse to the same block. *)
Theorem control_block_roundtrip cb :
  (control_block_wf cb → ∃ bs,
    control_block_serialize cb = Some bs ∧ Z.of_nat (length bs) = control_block_size cb ∧
    control_block_decode bs = Ok cb) ∧
  (∀ bs, control_block_decode bs = Ok cb → control_block_wf cb ∧ control_block_serialize cb = Some bs).
Proof.
  split.
  - intros Hwf. destruct (control_block_serialize_eq cb (proj2 Hwf)) as [Hs Hl]. exists (control_bytes cb).
    split_and!; [done|done|by apply control_block_decode_bytes].
  - intros bs (Hwf & ->)%control_block_decode_ok. split; [done|]. by destruct (control_block_serialize_eq cb (proj2 Hwf)).
Qed.
End Spend.

(** ** Huffman trees *)

Lemma heap_pop_some x heap : ∃ m rest, heap_pop (x :: heap) = Some (m, rest) ∧ x :: heap ≡ₚ m :: rest.
Proof.
  revert x. induction heap as [|y heap IH]; intros x; [by exists x, []|].
  destruct (IH y) as (m & rest & Hp & Hm). change (heap_pop (x :: y :: heap)) with (match heap_pop (y :: heap) with
    | None => Some (x, [])
    | Some (m, rest) => match weighted_cmp x m with Lt => Some (m, x :: rest) | _ => Some (x, y :: heap) end end).
  rewrite Hp. destruct (weighted_cmp x m); eexists _, _; (split; [done|]); try done. rewrite Hm. constructor.
Qed.

Lemma push_partner_err h ls :
  push_partner h ls = Ok (map (extend_leaf h) ls) ∧ Forall (λ l, length (merkle_branch l) < 128)%nat ls ∨
  ∃ n, push_partner h ls = Err (InvalidMerkleTreeDepth n) ∧ (128 <= n)%nat.
Proof.
  induction ls as [|l ls IH]; [by left|]. cbn [push_partner map]. unfold branch_push, TAPROOT_CONTROL_MAX_NODE_COUNT.
  destruct (Nat.leb_spec 128 (length (merkle_branch l))); cbn [result_bind]; [right; by eexists|].
  destruct IH as [[-> Hall]|(n & -> & Hn)]; cbn [result_bind]; [left; by split; [|constructor]|right; by exists n].
Qed.

Lemma combine_cases a b :
  combine a b = Ok (join a b) ∧ room a ∧ room b ∨ ∃ n, combine a b = Err (InvalidMerkleTreeDepth n) ∧ (128 <= n)%nat.
Proof.
  unfold combine, join, combine_node_hashes, from_node_hashes, combine_node_hashes, room. cbn [fst].
  destruct (bytes_ltb _ _).
  - destruct (push_partner_err (node_hash b) (leaves a)) as [[-> Ha]|(n & -> & Hn)]; cbn [result_bind]; [|right; by exists n].
    destruct (push_partner_err (node_hash a) (leaves b)) as [[-> Hb]|(n & -> & Hn)]; cbn [result_bind]; [by left|right; by exists n].
  - destruct (push_partner_err (node_hash a) (leaves b)) as [[-> Ha]|(n & -> & Hn)]; cbn [result_bind]; [|right; by exists n].
    destruct (push_partner_err (node_hash b) (leaves a)) as [[-> Hb]|(n & -> & Hn)]; cbn [result_bind]; [by left|right; by exists n].
Qed.

Definition tree_leaves (t : tree) : list TapLeaf := map snd (dfs 0 t).

Lemma dfs_leaves d t : map snd (dfs d t) = tree_leaves t.
Proof.
  unfold tree_leaves. generalize 0%nat. revert d. induction t as [l|l IHl r IHr]; intros d d'; [done|].
  cbn [dfs]. rewrite !map_app. f_equal; [apply IHl|apply IHr].
Qed.

Lemma tree_leaves_node l r : tree_leaves (TNode l r) = tree_leaves l ++ tree_leaves r.
Proof. unfold tree_leaves at 1. cbn [dfs]. by rewrite map_app, !dfs_leaves. Qed.

Definition all_known (t : tree) : Prop := Forall (λ l, is_Some (as_script l)) (tree_leaves t).

Lemma dfs_deepest d t : ∃ l, ((d + height t)%nat, l) ∈ dfs d t.
Proof.
  revert d. induction t as [l|l IHl r IHr]; intros d; cbn [dfs height].
  - exists l. rewrite Nat.add_0_r. by left.
  - destruct (IHl (S d)) as [x Hx], (IHr (S d)) as [y Hy]. destruct (Nat.max_spec (height l) (height r)) as [[_ ->]|[_ ->]];
      [exists y|exists x]; rewrite Nat.add_succ_r; apply elem_of_app; [by right|by left].
Qed.

Lemma room_height t : all_known t → room (tree_node t) → (height t < 128)%nat.
Proof.
  intros Hk Hr. destruct (dfs_deepest 0 t) as [l Hl]. cbn [Nat.add] in Hl.
  assert (is_Some (as_script l)) as [[s v] Hs].
  { unfold all_known in Hk. rewrite Forall_forall in Hk. apply Hk. change l with (snd (height t, l)). by apply list_elem_of_fmap_2. }
  destruct l as [s' v'|]; [|done]. apply leaf_known in Hl as (l & Hl & _ & ->).
  unfold room in Hr. rewrite Forall_forall in Hr. by apply Hr.
Qed.

(** A forest with weights. *)
Definition weighted (f : list (Z * tree)) : list (Z * NodeInfo) := prod_map id tree_node <$> f.
Definition forest_leaves (f : list (Z * tree)) : list TapLeaf := f ≫= (λ x, tree_leaves x.2).
Definition forest_ok (f : list (Z * tree)) : Prop := Forall (λ x, all_known x.2 ∧ height x.2 <= 128)%nat f.

Lemma weighted_pop f m rest :
  weighted f ≡ₚ m :: rest → ∃ x g, f ≡ₚ x :: g ∧ m = (x.1, tree_node x.2) ∧ rest = weighted g.
Proof.
  intros Hp. symmetry in Hp. apply Permutation_map_inv in Hp as (g & Hg & Hp).
  destruct g as [|[w t] g]; [done|]. injection Hg as -> ->. exists (w, t), g. done.
Qed.

Lemma height_leaves t : (height t < length (tree_leaves t))%nat.
Proof.
  induction t as [l|l IHl r IHr]; [cbn; lia|]. rewrite tree_leaves_node, length_app. cbn [height]. lia.
Qed.

(** Joining two trees of a forest. *)
Lemma combine_trees t u :
  all_known t → all_known u → (height t <= 128)%nat → (height u <= 128)%nat →
  (combine (tree_node t) (tree_node u) = Ok (tree_node (TNode u t)) ∧
    all_known (TNode u t) ∧ (height (TNode u t) <= 128)%nat) ∨
  ∃ n, combine (tree_node t) (tree_node u) = Err (InvalidMerkleTreeDepth n) ∧ (129 < length (tree_leaves t) + length (tree_leaves u))%nat.
Proof.
  intros Ht Hu Hht Hhu. destruct (combine_cases (tree_node t) (tree_node u)) as [(Hc & Hrt & Hru)|(n & Hc & Hn)].
  - left. split; [done|]. apply room_height in Hrt, Hru; [|done..]. cbn [height]. split; [|lia].
    unfold all_known. rewrite tree_leaves_node. by apply Forall_app.
  - right. exists n. split; [done|]. pose proof (height_leaves t). pose proof (height_leaves u).
    destruct (decide (height t < 128 ∧ height u < 128)%nat) as [[Hlt Hlu]|]; [|lia].
    rewrite combine_join in Hc by by apply tree_room. done.
Qed.

#[export] Instance forest_ok_perm : Proper ((≡ₚ) ==> iff) forest_ok.
Proof. intros f g Hp. unfold forest_ok. by rewrite Hp. Qed.

#[export] Instance forest_leaves_perm : Proper ((≡ₚ) ==> (≡ₚ)) forest_leaves.
Proof. intros f g Hp. unfold forest_leaves. by rewrite Hp. Qed.

Lemma forest_leaves_cons x f : forest_leaves (x :: f) = tree_leaves x.2 ++ forest_leaves f.
Proof. done. Qed.

Lemma forest_pop x f :
  ∃ w t g, heap_pop (weighted (x :: f)) = Some ((w, tree_node t), weighted g) ∧ x :: f ≡ₚ (w, t) :: g ∧
    length f = length g.
Proof.
  destruct (heap_pop_some (x.1, tree_node x.2) (weighted f)) as (m & rest & Hp & Hperm).
  change (_ :: weighted f) with (weighted (x :: f)) in *.
  apply weighted_pop in Hperm as ([w t] & g & Hf & -> & ->). exists w, t, g. split_and!; [by rewrite Hp|done|].
  apply Permutation_length in Hf. by injection Hf.
Qed.

Lemma huffman_loop_spec fuel f :
  f ≠ [] → (length f <= fuel)%nat → forest_ok f →
  (∃ w t, huffman_loop fuel (weighted f) = Ok [(w, tree_node t)] ∧
    tree_leaves t ≡ₚ forest_leaves f ∧ (height t <= 128)%nat) ∨
  ∃ n, huffman_loop fuel (weighted f) = Err (InvalidMerkleTreeDepth n) ∧ (129 < length (forest_leaves f))%nat.
Proof.
  revert f. induction fuel as [|fuel IH]; intros [|x f] Hne Hl Hok; [done|cbn in Hl; lia|done|]. clear Hne.
  cbn [huffman_loop]. destruct (forest_pop x f) as (w1 & t1 & g & -> & Hf & Hlen). pose proof (forest_leaves_perm _ _ Hf) as HL. rewrite Hf in Hok.
  rewrite (forest_leaves_cons (w1, t1)) in HL. apply Forall_cons in Hok as [[Hk1 Hh1] Hok]. cbn [snd length] in *. destruct g as [|y g].
  - destruct f; [|done]. apply Permutation_singleton_r in Hf. injection Hf as ->. left.
    exists w1, t1. split_and!; [done| |done]. rewrite HL. cbn. by rewrite app_nil_r.
  - destruct (forest_pop y g) as (w2 & t2 & k & -> & Hg & Hlen2). rewrite (forest_leaves_perm _ _ Hg) in HL.
    apply (forest_ok_perm _ _ Hg) in Hok.
    rewrite (forest_leaves_cons (w2, t2)) in HL. apply Forall_cons in Hok as [[Hk2 Hh2] Hok]. cbn [snd length] in *.
    destruct (combine_trees t1 t2) as [(-> & Hka & Hha)|(n & -> & Hn)];
      [done..| |right; exists n; split; [done|rewrite HL, !length_app; lia]].
    cbn [result_bind]. set (p := Z.min (w1 + w2) U32_MAX).
    assert (forest_leaves ((p, TNode t2 t1) :: k) ≡ₚ forest_leaves (x :: f)) as Hfinal.
    { rewrite HL, forest_leaves_cons. cbn [snd]. rewrite tree_leaves_node, (Permutation_app_comm (tree_leaves t2)). by rewrite <- app_assoc. }
    destruct (IH ((p, TNode t2 t1) :: k)) as [(w & t & Hr & Hl' & Hh')|(n & Hr & Hn)]; [done|cbn [length]; lia|by constructor| |].
    + left. exists w, t. by rewrite <- Hfinal.
    + right. exists n. by rewrite <- Hfinal.
Qed.

(** Huffman trees. Without scripts the result is the error [EmptyTree]. Otherwise the construction never panics; a builder it
    returns holds exactly a tree of at most 128 levels whose leaves are the given scripts, as tapscript leaves, each as
    often as it was given; and it can only fail, with a depth error, for 130 scripts or more. *)
Theorem huffman_builds script_weights :
  match with_huffman_tree script_weights with
  | None => False
  | Some (Err EmptyTree) => script_weights = []
  | Some (Err (InvalidMerkleTreeDepth _)) => (130 <= length script_weights)%nat
  | Some (Err _) => False
  | Some (Ok b) =>
      ∃ t, b = {| builder_branch := [Some (tree_node t)] |} ∧ (height t <= 128)%nat ∧
        map snd (dfs 0 t) ≡ₚ map (λ '(_, s), LScript s TapScript) script_weights
  end.
Proof.
  unfold with_huffman_tree. set (f := map (λ '(p, s), (p, TLeaf (LScript s TapScript))) script_weights).
  assert (map (λ '(p, s), (p, new_leaf_with_ver s TapScript)) script_weights = weighted f) as ->.
  { unfold weighted, f. change (fmap ?g) with (map g). rewrite map_map. apply map_ext. by intros []. }
  assert (forest_leaves f = map (λ '(_, s), LScript s TapScript) script_weights) as Hfl.
  { unfold f. clear. induction script_weights as [|[p s] l IH]; [done|]. cbn [map]. by rewrite forest_leaves_cons, IH. }
  assert (length f = length script_weights) as Hlen by apply length_map. destruct script_weights as [|[p s] l]; [done|].
  assert (weighted f = (p, new_leaf_with_ver s TapScript) :: tail (weighted f)) as Hw by done.
  rewrite Hw. cbv iota. rewrite <- Hw.
  destruct (huffman_loop_spec (length (weighted f)) f) as [(w & t & -> & Hp & Hh)|(n & -> & Hn)].
  - done.
  - unfold weighted. by rewrite length_fmap.
  - unfold f, forest_ok. apply Forall_map, Forall_true. intros [p' s']. cbn. split; [|lia]. repeat constructor. by eexists.
  - cbn [heap_pop mbind option_bind]. exists t. split_and!; [done|done|]. by rewrite <- Hfl.
  - rewrite Hfl, length_map in Hn. lia.
Qed.

(** ** Hashes *)

Lemma length_varint_bytes_le n : (length (varint_bytes n) <= 9)%nat.
Proof. pose proof (length_varint_bytes n) as Hl. unfold varint_size in Hl. repeat case_if; lia. Qed.

Lemma leaf_hash_chunks s ver :
  fits_u64 s →
  leaf_hash_from_script s ver =
    from_engine (foldl HashEngine.input (tag_engine TAP_LEAF)
      [[byte.of_Z (leaf_version_to_consensus ver)]; varint_bytes (Z.of_nat (length s)) ++ s]).
Proof. intros Hs. unfold leaf_hash_from_script. by rewrite bytes_encodes. Qed.

Lemma branch_hash_chunks a b :
  from_node_hashes a b =
    from_engine (foldl HashEngine.input (tag_engine TAP_BRANCH) (if bytes_ltb a b then [a; b] else [b; a])).
Proof. unfold from_node_hashes, combine_node_hashes. cbn [fst]. by destruct (bytes_ltb a b). Qed.

Lemma tweak_hash_chunks `{TaprootKeys} k root :
  tap_tweak_hash k root =
    from_engine (foldl HashEngine.input (tag_engine TAP_TWEAK) (xonly_serialize k :: option_list root)).
Proof. by destruct root. Qed.

Lemma concat_option_list {A} (o : option (list A)) : concat (option_list o) = from_option id [] o.
Proof. destruct o; [apply app_nil_r|done]. Qed.

(** Tagged hashes of BIP341. A leaf hash is the BIP340 hash with tag [TapLeaf] of the version byte and the script with its
    compact size; a branch hash that with tag [TapBranch] of the two children, in their
    lexicographic order; a tweak hash that with tag [TapTweak] of the key and, where there is one, the root. *)
Theorem taproot_hashes `{TaprootKeyLaws} :
  (∀ s ver, Z.of_nat (length s) < 2 ^ 59 →
    leaf_hash_from_script s ver =
      sha256_spec (tag_prefix TAP_LEAF ++ [byte.of_Z (leaf_version_to_consensus ver)] ++
        varint_bytes (Z.of_nat (length s)) ++ s)) ∧
  (∀ a b, length a = 32%nat → length b = 32%nat →
    from_node_hashes a b =
      sha256_spec (tag_prefix TAP_BRANCH ++ if bytes_ltb a b then a ++ b else b ++ a)) ∧
  (∀ k root, match root with Some h => length h = 32%nat | None => True end →
    tap_tweak_hash k root = sha256_spec (tag_prefix TAP_TWEAK ++ xonly_serialize k ++ from_option id [] root)).
Proof.
  split_and!.
  - intros s ver Hl. rewrite leaf_hash_chunks by (unfold fits_u64; lia). rewrite tagged_chunks; [|done|].
    + cbn [concat]. by rewrite app_nil_r.
    + cbn [concat]. rewrite !length_app. pose proof (length_varint_bytes_le (Z.of_nat (length s))). cbn [length]. lia.
  - intros a b Ha Hb. rewrite branch_hash_chunks, tagged_chunks; [|done|].
    + destruct (bytes_ltb a b); cbn [concat]; by rewrite app_nil_r.
    + destruct (bytes_ltb a b); cbn [concat]; rewrite !length_app, Ha, Hb; done.
  - intros k root Hr. rewrite tweak_hash_chunks, tagged_chunks; [|done|]; cbn [concat]; rewrite concat_option_list; [done|].
    rewrite length_app, xonly_length. destruct root; cbn; [rewrite Hr|]; done.
Qed.

(** ** A concrete instance, and witnesses

    A key tweaked by [t] becomes [t] itself. *)

Module PlainTaprootKeys.
Definition key : Type := dsig (λ l : list byte, length l = 32%nat).
Definition to_key (bs : list byte) : option key :=
  match decide (length bs = 32%nat) with left H => Some (dexist bs H) | right _ => None end.
#[export] Instance keys : TaprootKeys := {
  XOnly := key;
  Scalar := list byte;
  xonly_from_slice := to_key;
  xonly_serialize k := `k;
  scalar_from_be_bytes := Some;
  xonly_add_tweak k t := o ← to_key t; Some (o, true);
  xonly_tweak_add_check k o p t := bool_decide ((o' ← to_key t; Some (o', true)) = Some (o, p)) }.

Lemma to_key_some bs (H : length bs = 32%nat) : to_key bs = Some (dexist bs H).
Proof. unfold to_key. destruct (decide _); [|done]. f_equal. by apply dsig_eq. Qed.

#[export] Instance keys_laws : TaprootKeyLaws.
Proof.
  split.
  - intros k. exact (proj2_dsig k).
  - intros k. cbn. rewrite (to_key_some (`k) (proj2_dsig k)). f_equal. by apply dsig_eq.
  - intros bs k Hl. cbn. rewrite (to_key_some bs Hl). by intros [= <-].
  - intros k o p t. apply bool_decide_eq_true.
Qed.

(** With these keys tweaking does not fail. *)
Lemma tweaks (k : key) root : is_Some (tap_tweak k root).
Proof.
  unfold tap_tweak. assert (length (tap_tweak_hash k root) = 32%nat) as Hl
    by (rewrite tweak_hash_chunks; apply length_tagged_chunks).
  revert Hl. generalize (tap_tweak_hash k root). intros bs Hl. cbn. rewrite (to_key_some bs Hl). by eexists.
Qed.

Lemma finalizes t (k : key) : ∃ info, finalize (built t) k = Some (Ok info).
Proof. apply finalize_some, tweaks. Qed.
End PlainTaprootKeys.

(** A tree with a hidden part and the same script twice. *)
Definition sample_tree : tree :=
  TNode (TNode (TLeaf (LScript [x51] TapScript)) (TLeaf (LHidden (replicate 32 x07)))) (TLeaf (LScript [x51] TapScript)).
Definition sample_key : XOnly (TaprootKeys := PlainTaprootKeys.keys) := dexist (replicate 32 x02) (eq_refl 32%nat).

Lemma script_spend_witness :
  ∃ info, finalize (H := PlainTaprootKeys.keys) {| builder_branch := [Some (tree_node sample_tree)] |} sample_key = Some (Ok info) ∧
    is_Some (control_block (H := PlainTaprootKeys.keys) info ([x51], TapScript)).
Proof.
  destruct (PlainTaprootKeys.finalizes sample_tree sample_key) as [info Hi]. exists info. split; [exact Hi|].
  apply (proj1 (script_spend (Hlaws := PlainTaprootKeys.keys_laws) sample_tree sample_key info [x51] TapScript Hi)).
  exists 1%nat. unfold sample_tree. cbn [dfs app]. do 2 right. left.
Defined.

Lemma control_block_roundtrip_witness :
  let cb := {| leaf_version := TapScript; cb_parity := true; cb_internal_key := sample_key; cb_branch := [replicate 32 x07] |} in
  ∃ bs, control_block_serialize (H := PlainTaprootKeys.keys) cb = Some bs ∧
    Z.of_nat (length bs) = control_block_size (H := PlainTaprootKeys.keys) cb ∧ control_block_decode (H := PlainTaprootKeys.keys) bs = Ok cb.
Proof.
  intros cb. apply (proj1 (control_block_roundtrip (Hlaws := PlainTaprootKeys.keys_laws) cb)).
  split; [exact I|]. split; [repeat constructor|cbn; lia].
Defined.

Lemma builder_refines_witness :
  add_all builder_new (dfs 0 sample_tree) = Ok {| builder_branch := [Some (tree_node sample_tree)] |}.
Proof. apply (proj1 builder_refines). cbn. lia. Defined.

Lemma taproot_hashes_witness :
  from_node_hashes (replicate 32 x01) (replicate 32 x02)
  = sha256_spec (tag_prefix TAP_BRANCH ++ replicate 32 x01 ++ replicate 32 x02).
Proof.
  apply (proj1 (proj2 (taproot_hashes (H0 := PlainTaprootKeys.keys_laws)))); reflexivity.
Defined.
