(* ===== verification/Sighash.v ===== *)
(** Signature hashes ([src/litecoin/src/crypto/sighash.rs]): hash types, the messages
    that legacy, segwit and taproot signatures sign, and the cache that shares their
    parts between inputs. *)

From S2P Require Import Witness.
From Stdlib Require Import String ZArith Lia ZifyBool.
From stdpp Require Import base list.
From Stdlib Require Import Init.Byte.
From coqutil Require Import Byte Word.LittleEndianList.
From S2P Require Import Prelude Io HashEngine Sha256 Tagged Encode Mimblewimble Locktime Transaction Script Templates Taproot.

(** ** Hash types *)

Definition InvalidSighashTypeError : Type := Z.
Definition NonStandardSighashTypeError : Type := Z.

(** The unrecognized string. *)
Definition SighashTypeParseError : Type := string.

Module Ecdsa.
Inductive EcdsaSighashType :=
| All | None | Single | AllPlusAnyoneCanPay | NonePlusAnyoneCanPay | SinglePlusAnyoneCanPay.

#[global] Instance ecdsa_sighash_type_eq_dec : EqDecision EcdsaSighashType.
Proof. solve_decision. Defined.

Definition to_u32 (self : EcdsaSighashType) : Z :=
  match self with
  | All => 0x01
  | None => 0x02
  | Single => 0x03
  | AllPlusAnyoneCanPay => 0x81
  | NonePlusAnyoneCanPay => 0x82
  | SinglePlusAnyoneCanPay => 0x83
  end.

Definition to_string (self : EcdsaSighashType) : string :=
  match self with
  | All => "SIGHASH_ALL"
  | None => "SIGHASH_NONE"
  | Single => "SIGHASH_SINGLE"
  | AllPlusAnyoneCanPay => "SIGHASH_ALL|SIGHASH_ANYONECANPAY"
  | NonePlusAnyoneCanPay => "SIGHASH_NONE|SIGHASH_ANYONECANPAY"
  | SinglePlusAnyoneCanPay => "SIGHASH_SINGLE|SIGHASH_ANYONECANPAY"
  end.

Definition from_str (s : string) : result SighashTypeParseError EcdsaSighashType :=
  if (s =? "SIGHASH_ALL")%string then Ok All
  else if (s =? "SIGHASH_NONE")%string then Ok None
  else if (s =? "SIGHASH_SINGLE")%string then Ok Single
  else if (s =? "SIGHASH_ALL|SIGHASH_ANYONECANPAY")%string then Ok AllPlusAnyoneCanPay
  else if (s =? "SIGHASH_NONE|SIGHASH_ANYONECANPAY")%string then Ok NonePlusAnyoneCanPay
  else if (s =? "SIGHASH_SINGLE|SIGHASH_ANYONECANPAY")%string then Ok SinglePlusAnyoneCanPay
  else Err s.

Definition split_anyonecanpay_flag (self : EcdsaSighashType) : EcdsaSighashType * bool :=
  match self with
  | All => (All, false)
  | None => (None, false)
  | Single => (Single, false)
  | AllPlusAnyoneCanPay => (All, true)
  | NonePlusAnyoneCanPay => (None, true)
  | SinglePlusAnyoneCanPay => (Single, true)
  end.

Definition is_single (self : EcdsaSighashType) : bool :=
  match self with Single | SinglePlusAnyoneCanPay => true | _ => false end.

Definition from_consensus (n : Z) : EcdsaSighashType :=
  let mask := Z.lor 0x1f 0x80 in
  let x := Z.land n mask in
  if x =? 0x01 then All
  else if x =? 0x02 then None
  else if x =? 0x03 then Single
  else if x =? 0x81 then AllPlusAnyoneCanPay
  else if x =? 0x82 then NonePlusAnyoneCanPay
  else if x =? 0x83 then SinglePlusAnyoneCanPay
  else if Z.land x 0x80 =? 0x80 then AllPlusAnyoneCanPay
  else All.

Definition from_standard (n : Z) : result NonStandardSighashTypeError EcdsaSighashType :=
  if n =? 0x01 then Ok All
  else if n =? 0x02 then Ok None
  else if n =? 0x03 then Ok Single
  else if n =? 0x81 then Ok AllPlusAnyoneCanPay
  else if n =? 0x82 then Ok NonePlusAnyoneCanPay
  else if n =? 0x83 then Ok SinglePlusAnyoneCanPay
  else Err n.
End Ecdsa.

Module Tap.
Inductive TapSighashType :=
| Default | All | None | Single | AllPlusAnyoneCanPay | NonePlusAnyoneCanPay | SinglePlusAnyoneCanPay.

#[global] Instance tap_sighash_type_eq_dec : EqDecision TapSighashType.
Proof. solve_decision. Defined.

(** [sighash_type as u8] *)
Definition to_u8 (self : TapSighashType) : Z :=
  match self with
  | Default => 0x00
  | All => 0x01
  | None => 0x02
  | Single => 0x03
  | AllPlusAnyoneCanPay => 0x81
  | NonePlusAnyoneCanPay => 0x82
  | SinglePlusAnyoneCanPay => 0x83
  end.

Definition to_string (self : TapSighashType) : string :=
  match self with
  | Default => "SIGHASH_DEFAULT"
  | All => "SIGHASH_ALL"
  | None => "SIGHASH_NONE"
  | Single => "SIGHASH_SINGLE"
  | AllPlusAnyoneCanPay => "SIGHASH_ALL|SIGHASH_ANYONECANPAY"
  | NonePlusAnyoneCanPay => "SIGHASH_NONE|SIGHASH_ANYONECANPAY"
  | SinglePlusAnyoneCanPay => "SIGHASH_SINGLE|SIGHASH_ANYONECANPAY"
  end.

Definition from_str (s : string) : result SighashTypeParseError TapSighashType :=
  if (s =? "SIGHASH_DEFAULT")%string then Ok Default
  else if (s =? "SIGHASH_ALL")%string then Ok All
  else if (s =? "SIGHASH_NONE")%string then Ok None
  else if (s =? "SIGHASH_SINGLE")%string then Ok Single
  else if (s =? "SIGHASH_ALL|SIGHASH_ANYONECANPAY")%string then Ok AllPlusAnyoneCanPay
  else if (s =? "SIGHASH_NONE|SIGHASH_ANYONECANPAY")%string then Ok NonePlusAnyoneCanPay
  else if (s =? "SIGHASH_SINGLE|SIGHASH_ANYONECANPAY")%string then Ok SinglePlusAnyoneCanPay
  else Err s.

Definition split_anyonecanpay_flag (self : TapSighashType) : TapSighashType * bool :=
  match self with
  | Default => (Default, false)
  | All => (All, false)
  | None => (None, false)
  | Single => (Single, false)
  | AllPlusAnyoneCanPay => (All, true)
  | NonePlusAnyoneCanPay => (None, true)
  | SinglePlusAnyoneCanPay => (Single, true)
  end.

Definition from_consensus_u8 (sighash_type : Z) : result InvalidSighashTypeError TapSighashType :=
  if sighash_type =? 0x00 then Ok Default
  else if sighash_type =? 0x01 then Ok All
  else if sighash_type =? 0x02 then Ok None
  else if sighash_type =? 0x03 then Ok Single
  else if sighash_type =? 0x81 then Ok AllPlusAnyoneCanPay
  else if sighash_type =? 0x82 then Ok NonePlusAnyoneCanPay
  else if sighash_type =? 0x83 then Ok SinglePlusAnyoneCanPay
  else Err sighash_type.

(** [From<EcdsaSighashType>] *)
Definition from_ecdsa (s : Ecdsa.EcdsaSighashType) : TapSighashType :=
  match s with
  | Ecdsa.All => All
  | Ecdsa.None => None
  | Ecdsa.Single => Single
  | Ecdsa.AllPlusAnyoneCanPay => AllPlusAnyoneCanPay
  | Ecdsa.NonePlusAnyoneCanPay => NonePlusAnyoneCanPay
  | Ecdsa.SinglePlusAnyoneCanPay => SinglePlusAnyoneCanPay
  end.
End Tap.

Abbreviation EcdsaSighashType := Ecdsa.EcdsaSighashType (only parsing).
Abbreviation TapSighashType := Tap.TapSighashType (only parsing).

(** ** Arguments and errors *)

Inductive Prevouts :=
| One (index : nat) (prevout : TxOut)
| All (prevouts : list TxOut).

Inductive PrevoutsIndexError := InvalidOneIndex | InvalidAllIndex.

(** The index and the length. *)
Definition InputsIndexError : Type := nat * nat.

Inductive TaprootError :=
| InputsIndex (e : InputsIndexError)
| SingleMissingOutput (input_index outputs_length : nat)
| PrevoutsSize
| PrevoutsIndex (e : PrevoutsIndexError)
| PrevoutsKind.

Inductive P2wpkhError :=
| WpkhSighash (e : InputsIndexError)
| NotP2wpkhScript.

Inductive AnnexError :=
| AnnexEmpty
| IncorrectPrefix (b : Z).

Inductive SigningDataError (E : Type) :=
| SdIo (e : io_error)
| Sighash (e : E).
Arguments SdIo {E} e.
Arguments Sighash {E} e.

(** An annex is kept with its prefix. *)
Definition annex_new (annex_bytes : list byte) : result AnnexError (list byte) :=
  match annex_bytes with
  | [] => Err AnnexEmpty
  | b :: _ => if Byte.eqb b TAPROOT_ANNEX_PREFIX then Ok annex_bytes else Err (IncorrectPrefix (byte.unsigned b))
  end.

Definition annex_encode (annex : list byte) : wr Z := consensus_encode_with_size annex.

(** [ScriptPath::leaf_hash] *)
Record ScriptPath := { sp_script : script; sp_leaf_version : LeafVersion }.
Definition with_defaults (s : script) : ScriptPath := {| sp_script := s; sp_leaf_version := TapScript |}.
Definition script_path_leaf_hash (p : ScriptPath) : list byte :=
  let enc := tag_engine TAP_LEAF in
  let enc := engine_write enc (c_enc u8 (leaf_version_to_consensus (sp_leaf_version p))) in
  let enc := engine_write enc (c_enc bytes (sp_script p)) in
  from_engine enc.

(** *** Prevouts *)

Definition check_all (self : Prevouts) (inputs : nat) : bool :=
  match self with All prevouts => (length prevouts =? inputs)%nat | One _ _ => true end.

Definition get_all (self : Prevouts) : option (list TxOut) :=
  match self with All prevouts => Some prevouts | One _ _ => None end.

Definition prevouts_get (self : Prevouts) (input_index : nat) : result PrevoutsIndexError TxOut :=
  match self with
  | One index prevout => if (input_index =? index)%nat then Ok prevout else Err InvalidOneIndex
  | All prevouts => ok_or (prevouts !! input_index) InvalidAllIndex
  end.

(** ** The cache *)

Record CommonCache := { cc_prevouts : list byte; cc_sequences : list byte; cc_outputs : list byte }.
Record SegwitCache := { sc_prevouts : list byte; sc_sequences : list byte; sc_outputs : list byte }.
Record TaprootCache := { tc_amounts : list byte; tc_script_pubkeys : list byte }.

(** [sha256::Hash::hash_again] *)
Definition hash_again (h : list byte) : list byte := sha256_hash h.

Definition UINT256_ONE : list byte := x01 :: replicate 31 x00.
Definition KEY_VERSION_0 : Z := 0.
Definition TAP_SIGHASH : list byte := String.list_byte_of_string "TapSighash".

Section Cache.
Context `{PublicKeys}.

Record SighashCache := {
  sc_tx : Transaction;
  sc_common : option CommonCache; sc_segwit : option SegwitCache; sc_taproot : option TaprootCache }.

Definition cache_new (tx : Transaction) : SighashCache :=
  {| sc_tx := tx; sc_common := None; sc_segwit := None; sc_taproot := None |}.

(** The closures of [get_or_insert_with]. *)
Definition compute_common (tx : Transaction) : CommonCache :=
  let '(enc_prevouts, enc_sequences) :=
    foldl (λ '(p, s) txin,
             (engine_write p (c_enc outpoint_codec (previous_output txin)),
              engine_write s (c_enc u32 (sequence txin))))
          (engine_default, engine_default) (input tx) in
  {| cc_prevouts := from_engine enc_prevouts;
     cc_sequences := from_engine enc_sequences;
     cc_outputs := from_engine (foldl (λ e txout, engine_write e (c_enc txout_codec txout)) engine_default (output tx)) |}.

Definition compute_taproot (prevouts : list TxOut) : TaprootCache :=
  let '(enc_amounts, enc_script_pubkeys) :=
    foldl (λ '(a, s) prevout,
             (engine_write a (c_enc u64 (value prevout)),
              engine_write s (c_enc bytes (script_pubkey prevout))))
          (engine_default, engine_default) prevouts in
  {| tc_amounts := from_engine enc_amounts; tc_script_pubkeys := from_engine enc_script_pubkeys |}.

(** *** Writing with the cache

    A step changes the cache, writes bytes and may fail. *)
Definition signing (E A : Type) : Type := SighashCache → SighashCache * list byte * result (SigningDataError E) A.

Definition s_ret {E A} (a : A) : signing E A := λ c, (c, [], Ok a).
Definition s_fail {E A} (e : E) : signing E A := λ c, (c, [], Err (Sighash e)).
Definition s_bind {E A B} (m : signing E A) (k : A → signing E B) : signing E B := λ c,
  let '(c, bs, r) := m c in
  match r with
  | Ok a => let '(c, bs', r) := k a c in (c, bs ++ bs', r)
  | Err e => (c, bs, Err e)
  end.
Definition s_get {E} : signing E Transaction := λ c, (c, [], Ok (sc_tx c)).
Definition s_lift {E A} (r : result E A) : signing E A :=
  match r with Ok a => s_ret a | Err e => s_fail e end.

(** [consensus_encode(writer)?] into a writer that does not fail. *)
Definition s_write {E A} (w : wr A) : signing E unit := λ c,
  match w with Ok (_, bs) => (c, bs, Ok tt) | Err e => (c, [], Err (SdIo e)) end.

Definition common_cache {E} : signing E CommonCache := λ c,
  match sc_common c with
  | Some cc => (c, [], Ok cc)
  | None =>
      let cc := compute_common (sc_tx c) in
      ({| sc_tx := sc_tx c; sc_common := Some cc; sc_segwit := sc_segwit c; sc_taproot := sc_taproot c |}, [], Ok cc)
  end.
End Cache.

Declare Scope signing_scope.
Notation "'do!' x ':=' m 'in' k" := (s_bind m (λ x, k)) (at level 10, x pattern, m at level 100, k at level 200) : signing_scope.
Notation "m ';;!' k" := (s_bind m (λ _, k)) (at level 100, right associativity) : signing_scope.
Open Scope signing_scope.

Section Signing.
Context `{PublicKeys}.

Definition segwit_cache {E} : signing E SegwitCache := λ c,
  match sc_segwit c with
  | Some sc => (c, [], Ok sc)
  | None =>
      (do! cc := common_cache in
       let sc := {| sc_prevouts := hash_again (cc_prevouts cc); sc_sequences := hash_again (cc_sequences cc);
                    sc_outputs := hash_again (cc_outputs cc) |} in
       λ c, ({| sc_tx := sc_tx c; sc_common := sc_common c; sc_segwit := Some sc; sc_taproot := sc_taproot c |}, [], Ok sc)) c
  end.

Definition taproot_cache {E} (prevouts : list TxOut) : signing E TaprootCache := λ c,
  match sc_taproot c with
  | Some tc => (c, [], Ok tc)
  | None =>
      let tc := compute_taproot prevouts in
      ({| sc_tx := sc_tx c; sc_common := sc_common c; sc_segwit := sc_segwit c; sc_taproot := Some tc |}, [], Ok tc)
  end.

(** *** Taproot *)

Definition taproot_encode_signing_data_to (input_index : nat) (prevouts : Prevouts) (annex : option (list byte))
    (leaf_hash_code_separator : option (list byte * Z)) (sighash_type : TapSighashType) : signing TaprootError unit :=
  do! tx := s_get in
  (if check_all prevouts (length (input tx)) then s_ret tt else s_fail PrevoutsSize) ;;!
  let '(sighash, anyone_can_pay) := Tap.split_anyonecanpay_flag sighash_type in
  s_write (c_enc u8 0) ;;!
  s_write (c_enc u8 (Tap.to_u8 sighash_type)) ;;!
  s_write (c_enc i32 (Transaction.version tx)) ;;!
  s_write (c_enc Absolute.lock_time_codec (lock_time tx)) ;;!
  (if negb anyone_can_pay then
     do! cc := common_cache in
     s_write (c_enc (array 32) (cc_prevouts cc)) ;;!
     do! ps := s_lift (ok_or (get_all prevouts) PrevoutsKind) in
     do! tc := taproot_cache ps in
     s_write (c_enc (array 32) (tc_amounts tc)) ;;!
     do! ps := s_lift (ok_or (get_all prevouts) PrevoutsKind) in
     do! tc := taproot_cache ps in
     s_write (c_enc (array 32) (tc_script_pubkeys tc)) ;;!
     do! cc := common_cache in
     s_write (c_enc (array 32) (cc_sequences cc))
   else s_ret tt) ;;!
  (if negb (bool_decide (sighash = Tap.None)) && negb (bool_decide (sighash = Tap.Single)) then
     do! cc := common_cache in
     s_write (c_enc (array 32) (cc_outputs cc))
   else s_ret tt) ;;!
  let spend_type := 0 in
  let spend_type := if bool_decide (is_Some annex) then Z.lor spend_type 1 else spend_type in
  let spend_type := if bool_decide (is_Some leaf_hash_code_separator) then Z.lor spend_type 2 else spend_type in
  s_write (c_enc u8 spend_type) ;;!
  (if anyone_can_pay then
     do! txin := s_lift (result_map_err InputsIndex (tx_in tx input_index)) in
     do! previous := s_lift (result_map_err PrevoutsIndex (prevouts_get prevouts input_index)) in
     s_write (c_enc outpoint_codec (previous_output txin)) ;;!
     s_write (c_enc u64 (value previous)) ;;!
     s_write (c_enc bytes (script_pubkey previous)) ;;!
     s_write (c_enc u32 (sequence txin))
   else s_write (c_enc u32 (uwrap 32 (Z.of_nat input_index)))) ;;!
  match annex with
  | Some annex => s_write (c_enc (array 32) (from_engine (engine_write engine_default (annex_encode annex))))
  | None => s_ret tt
  end ;;!
  (if bool_decide (sighash = Tap.Single) then
     do! txout := s_lift (ok_or (output tx !! input_index) (SingleMissingOutput input_index (length (output tx)))) in
     s_write (c_enc (array 32) (from_engine (engine_write engine_default (c_enc txout_codec txout))))
   else s_ret tt) ;;!
  match leaf_hash_code_separator with
  | Some (hash, code_separator_pos) =>
      s_write (c_enc (array 32) hash) ;;!
      s_write (c_enc u8 KEY_VERSION_0) ;;!
      s_write (c_enc u32 code_separator_pos)
  | None => s_ret tt
  end.

(** Hashing what is written; [None] is the panic of [unwrap_sighash] on an I/O error. *)
Definition hash_signing {E} (eng : HashEngine) (finish : HashEngine → list byte) (m : signing E unit) (c : SighashCache)
    : option (SighashCache * result E (list byte)) :=
  match m c with
  | (c, bs, Ok _) => Some (c, Ok (finish (HashEngine.input eng bs)))
  | (c, _, Err (Sighash e)) => Some (c, Err e)
  | (_, _, Err (SdIo _)) => None
  end.

Definition taproot_signature_hash (input_index : nat) (prevouts : Prevouts) (annex : option (list byte))
    (leaf_hash_code_separator : option (list byte * Z)) (sighash_type : TapSighashType) :=
  hash_signing (tag_engine TAP_SIGHASH) from_engine
    (taproot_encode_signing_data_to input_index prevouts annex leaf_hash_code_separator sighash_type).

Definition taproot_key_spend_signature_hash (input_index : nat) (prevouts : Prevouts) (sighash_type : TapSighashType) :=
  hash_signing (tag_engine TAP_SIGHASH) from_engine
    (taproot_encode_signing_data_to input_index prevouts None None sighash_type).

Definition taproot_script_spend_signature_hash (input_index : nat) (prevouts : Prevouts) (leaf_hash : list byte)
    (sighash_type : TapSighashType) :=
  hash_signing (tag_engine TAP_SIGHASH) from_engine
    (taproot_encode_signing_data_to input_index prevouts None (Some (leaf_hash, 0xFFFFFFFF)) sighash_type).

(** *** Segwit v0 *)

Definition all_zeros : list byte := replicate 32 x00.

Definition segwit_v0_encode_signing_data_to (input_index : nat) (script_code : script) (value : Z)
    (sighash_type : EcdsaSighashType) : signing InputsIndexError unit :=
  do! tx := s_get in
  let '(sighash, anyone_can_pay) := Ecdsa.split_anyonecanpay_flag sighash_type in
  s_write (c_enc i32 (Transaction.version tx)) ;;!
  (if negb anyone_can_pay then
     do! sc := segwit_cache in s_write (c_enc (array 32) (sc_prevouts sc))
   else s_write (c_enc (array 32) all_zeros)) ;;!
  (if negb anyone_can_pay && negb (bool_decide (sighash = Ecdsa.Single)) && negb (bool_decide (sighash = Ecdsa.None)) then
     do! sc := segwit_cache in s_write (c_enc (array 32) (sc_sequences sc))
   else s_write (c_enc (array 32) all_zeros)) ;;!
  (do! txin := s_lift (tx_in tx input_index) in
   s_write (c_enc outpoint_codec (previous_output txin)) ;;!
   s_write (c_enc bytes script_code) ;;!
   s_write (c_enc u64 value) ;;!
   s_write (c_enc u32 (sequence txin))) ;;!
  (if negb (bool_decide (sighash = Ecdsa.Single)) && negb (bool_decide (sighash = Ecdsa.None)) then
     do! sc := segwit_cache in s_write (c_enc (array 32) (sc_outputs sc))
   else
     match (if bool_decide (sighash = Ecdsa.Single) then output tx !! input_index else None) with
     | Some txout => s_write (w_bytes (sha256d_from_engine (engine_write engine_default (c_enc txout_codec txout))))
     | None => s_write (w_bytes all_zeros)
     end) ;;!
  s_write (c_enc Absolute.lock_time_codec (lock_time tx)) ;;!
  s_write (c_enc u32 (Ecdsa.to_u32 sighash_type)).

Definition p2wpkh_signature_hash (input_index : nat) (script_pubkey : script) (value : Z)
    (sighash_type : EcdsaSighashType) (c : SighashCache) : option (SighashCache * result P2wpkhError (list byte)) :=
  match p2wpkh_script_code script_pubkey with
  | None => Some (c, Err NotP2wpkhScript)
  | Some script_code =>
      '(c, r) ← hash_signing engine_default sha256d_from_engine
        (segwit_v0_encode_signing_data_to input_index script_code value sighash_type) c;
      Some (c, result_map_err WpkhSighash r)
  end.

Definition p2wsh_signature_hash (input_index : nat) (witness_script : script) (value : Z) (sighash_type : EcdsaSighashType) :=
  hash_signing engine_default sha256d_from_engine
    (segwit_v0_encode_signing_data_to input_index witness_script value sighash_type).

(** *** Legacy *)

Definition is_invalid_use_of_sighash_single (sighash : Z) (input_index outputs_len : nat) : bool :=
  let ty := Ecdsa.from_consensus sighash in
  Ecdsa.is_single ty && (outputs_len <=? input_index)%nat.

(** [encode_signing_data_to_inner], after the index has been checked. [None] is
    [unreachable!()]. *)
Definition legacy_tx (self : Transaction) (own : TxIn) (input_index : nat) (script_pubkey : script) (sighash_type : Z)
    : option Transaction :=
  let '(sighash, anyone_can_pay) := Ecdsa.split_anyonecanpay_flag (Ecdsa.from_consensus sighash_type) in
  let input :=
    if anyone_can_pay then
      [{| previous_output := previous_output own; script_sig := script_pubkey; sequence := sequence own;
          witness := witness_new |}]
    else
      imap (λ n input,
        {| previous_output := previous_output input;
           script_sig := if (n =? input_index)%nat then script_pubkey else [];
           sequence :=
             if negb (n =? input_index)%nat
                && (bool_decide (sighash = Ecdsa.Single) || bool_decide (sighash = Ecdsa.None))
             then 0 else sequence input;
           witness := witness_new |}) (input self) in
  output ←
    match sighash with
    | Ecdsa.All => Some (output self)
    | Ecdsa.Single =>
        Some (imap (λ n out, if (n =? input_index)%nat then out else txout_null) (take (input_index + 1) (output self)))
    | Ecdsa.None => Some []
    | _ => None
    end;
  Some {| Transaction.version := Transaction.version self; lock_time := lock_time self; input := input; output := output;
          mw_tx := None; is_hog_ex := false |}.

Inductive EncodeSigningDataResult (E : Type) :=
| SighashSingleBug
| WriteResult (r : result E unit).
#[global] Arguments SighashSingleBug {E}.
#[global] Arguments WriteResult {E} r.

Definition is_sighash_single_bug {E} (self : EncodeSigningDataResult E) : result E bool :=
  match self with
  | SighashSingleBug => Ok true
  | WriteResult (Ok _) => Ok false
  | WriteResult (Err e) => Err e
  end.

(** The bytes written, and the result; the outer [None] is a panic. *)
Definition legacy_encode_signing_data_to (c : SighashCache) (input_index : nat) (script_pubkey : script) (sighash_type : Z)
    : option (list byte * EncodeSigningDataResult (SigningDataError InputsIndexError)) :=
  match tx_in (sc_tx c) input_index with
  | Err e => Some ([], WriteResult (Err (Sighash e)))
  | Ok own =>
      if is_invalid_use_of_sighash_single sighash_type input_index (length (output (sc_tx c)))
      then Some ([], SighashSingleBug)
      else
        tx ← legacy_tx (sc_tx c) own input_index script_pubkey sighash_type;
        match (let+ _ := c_enc transaction_codec tx in c_enc (array 4) (le_split 4 sighash_type)) with
        | Ok (_, bs) => Some (bs, WriteResult (Ok tt))
        | Err e => Some ([], WriteResult (Err (SdIo e)))
        end
  end.

Definition legacy_signature_hash (c : SighashCache) (input_index : nat) (script_pubkey : script) (sighash_type : Z)
    : option (result InputsIndexError (list byte)) :=
  '(bs, r) ← legacy_encode_signing_data_to c input_index script_pubkey sighash_type;
  match is_sighash_single_bug r with
  | Ok true => Some (Ok UINT256_ONE)
  | Ok false => Some (Ok (sha256d_from_engine (HashEngine.input engine_default bs)))
  | Err (Sighash e) => Some (Err e)
  | Err (SdIo _) => None
  end.

(** [witness_mut], and writing through the reference it returns. *)
Definition witness_mut (c : SighashCache) (input_index : nat) (w : Witness) : option SighashCache :=
  txin ← input (sc_tx c) !! input_index;
  let tx := sc_tx c in
  Some {| sc_tx := {| Transaction.version := Transaction.version tx; lock_time := lock_time tx;
                      input := <[input_index := with_witness txin w]> (input tx);
                      output := output tx; mw_tx := mw_tx tx; is_hog_ex := is_hog_ex tx |};
          sc_common := sc_common c; sc_segwit := sc_segwit c; sc_taproot := sc_taproot c |}.
End Signing.

(** ** What the messages are

    The messages of BIP341 and BIP143 and of the legacy algorithm, on the bytes of the
    transaction, with the hash type read as bit flags. *)

Definition outpoint_bytes (o : OutPoint) : list byte := txid o ++ le_split 4 (vout o).
Definition script_bytes (s : list byte) : list byte := varint_bytes (Z.of_nat (length s)) ++ s.
Definition txout_bytes (o : TxOut) : list byte := le_split 8 (value o) ++ script_bytes (script_pubkey o).

Definition anyone_can_pay_flag (hash_type : Z) : bool := Z.testbit hash_type 7.
Definition none_flag (mask hash_type : Z) : bool := Z.land hash_type mask =? 2.
Definition single_flag (mask hash_type : Z) : bool := Z.land hash_type mask =? 3.

Section Messages.
Context `{PublicKeys}.

Definition version_bytes (t : Transaction) : list byte := le_split 4 (Transaction.version t).
Definition lock_time_bytes (t : Transaction) : list byte := le_split 4 (Absolute.to_consensus_u32 (lock_time t)).

Definition all_prevouts (t : Transaction) : list byte := concat (map (λ i, outpoint_bytes (previous_output i)) (input t)).
Definition all_sequences (t : Transaction) : list byte := concat (map (λ i, le_split 4 (sequence i)) (input t)).
Definition all_outputs (t : Transaction) : list byte := concat (map txout_bytes (output t)).
Definition all_amounts (ps : list TxOut) : list byte := concat (map (λ o, le_split 8 (value o)) ps).
Definition all_script_pubkeys (ps : list TxOut) : list byte := concat (map (λ o, script_bytes (script_pubkey o)) ps).

Definition bip341 (t : Transaction) (i : nat) (prevouts : Prevouts) (annex : option (list byte))
    (ext : option (list byte * Z)) (hash_type : Z) : result TaprootError (list byte) :=
  let anyone_can_pay := anyone_can_pay_flag hash_type in
  let none := none_flag 3 hash_type in
  let single := single_flag 3 hash_type in
  if negb (check_all prevouts (length (input t))) then Err PrevoutsSize
  else
    let? all :=
      (if anyone_can_pay then Ok []
       else let? ps := ok_or (get_all prevouts) PrevoutsKind in
            Ok (sha256_hash (all_prevouts t) ++ sha256_hash (all_amounts ps) ++
                sha256_hash (all_script_pubkeys ps) ++ sha256_hash (all_sequences t))) in
    let? own :=
      (if anyone_can_pay then
         let? txin := result_map_err InputsIndex (tx_in t i) in
         let? spent := result_map_err PrevoutsIndex (prevouts_get prevouts i) in
         Ok (outpoint_bytes (previous_output txin) ++ txout_bytes spent ++ le_split 4 (sequence txin))
       else Ok (le_split 4 (Z.of_nat i))) in
    let? out :=
      (if single then
         let? o := ok_or (output t !! i) (SingleMissingOutput i (length (output t))) in Ok (sha256_hash (txout_bytes o))
       else Ok []) in
    Ok ([x00] ++ [byte.of_Z hash_type] ++ version_bytes t ++ lock_time_bytes t ++ all
        ++ (if none || single then [] else sha256_hash (all_outputs t))
        ++ [byte.of_Z (2 * b2z (bool_decide (is_Some ext)) + b2z (bool_decide (is_Some annex)))] ++ own
        ++ from_option (λ a, sha256_hash (script_bytes a)) [] annex
        ++ out
        ++ from_option (λ '(leaf_hash, pos), leaf_hash ++ [x00] ++ le_split 4 pos) [] ext).

Definition bip143 (t : Transaction) (i : nat) (script_code : script) (value : Z) (hash_type : Z)
    : result InputsIndexError (list byte) :=
  let anyone_can_pay := anyone_can_pay_flag hash_type in
  let none := none_flag 0x1f hash_type in
  let single := single_flag 0x1f hash_type in
  let? txin := tx_in t i in
  Ok (version_bytes t
      ++ (if anyone_can_pay then all_zeros else sha256d_hash (all_prevouts t))
      ++ (if anyone_can_pay || none || single then all_zeros else sha256d_hash (all_sequences t))
      ++ outpoint_bytes (previous_output txin) ++ script_bytes script_code ++ le_split 8 value ++ le_split 4 (sequence txin)
      ++ (if none then all_zeros
          else if single then from_option (λ o, sha256d_hash (txout_bytes o)) all_zeros (output t !! i)
          else sha256d_hash (all_outputs t))
      ++ lock_time_bytes t ++ le_split 4 hash_type).

(** The reference client's serializer: without building a transaction. *)
Definition legacy_message (t : Transaction) (i : nat) (script_code : script) (hash_type : Z) : list byte :=
  let anyone_can_pay := anyone_can_pay_flag hash_type in
  let none := none_flag 0x1f hash_type in
  let single := single_flag 0x1f hash_type in
  let input_bytes n (txin : TxIn) :=
    outpoint_bytes (previous_output txin) ++ script_bytes (if (n =? i)%nat then script_code else [])
    ++ le_split 4 (if negb (n =? i)%nat && (none || single) then 0 else sequence txin) in
  let output_bytes n (o : TxOut) :=
    if single && negb (n =? i)%nat then txout_bytes txout_null else txout_bytes o in
  let n_outputs := if none then 0%nat else if single then (i + 1)%nat else length (output t) in
  version_bytes t
  ++ (if anyone_can_pay
      then varint_bytes 1 ++ from_option (input_bytes i) [] (input t !! i)
      else varint_bytes (Z.of_nat (length (input t))) ++ concat (imap input_bytes (input t)))
  ++ varint_bytes (Z.of_nat n_outputs) ++ concat (imap output_bytes (take n_outputs (output t)))
  ++ lock_time_bytes t ++ le_split 4 hash_type.

End Messages.

(** ** Encoders, and hashing with them *)

Definition writes {A} (w : wr A) (bs : list byte) : Prop := ∃ a, w = Ok (a, bs).

Lemma engine_writes {A} (w : wr A) bs e : writes w bs → engine_write e w = HashEngine.input e bs.
Proof. by intros [a ->]. Qed.

Lemma writes_bind {A B} (w : wr A) (k : A → wr B) bs bs' :
  writes w bs → (∀ a, writes (k a) bs') → writes (let+ x := w in k x) (bs ++ bs').
Proof. intros [a ->] Hk. destruct (Hk a) as [b Hb]. exists b. unfold w_bind. by rewrite Hb. Qed.

Lemma writes_add len (w : wr Z) bs : writes w bs → writes (w_add len w) bs.
Proof. intros [a ->]. eexists. unfold w_add, w_bind, w_ret. by rewrite app_nil_r. Qed.

Lemma writes_add_bind {B} len (w : wr Z) (k : Z → wr B) bs bs' :
  writes w bs → (∀ a, writes (k a) bs') → writes (let+ x := w_add len w in k x) (bs ++ bs').
Proof. intros Hw. by apply writes_bind, writes_add. Qed.

Lemma writes_ret {A} (a : A) : writes (w_ret a) [].
Proof. by eexists. Qed.

Lemma writes_uint n v : writes (c_enc (uint n) v) (le_split n v).
Proof. eexists. cbn. by rewrite app_nil_r. Qed.

Lemma writes_array n bs : writes (c_enc (array n) bs) bs.
Proof. eexists. cbn. by rewrite app_nil_r. Qed.

Lemma writes_script s : fits_u64 s → writes (c_enc bytes s) (script_bytes s).
Proof. intros Hs. eexists. by apply bytes_encodes. Qed.

Lemma writes_outpoint o : writes (c_enc outpoint_codec o) (outpoint_bytes o).
Proof.
  change (c_enc outpoint_codec o) with (outpoint_encode o). unfold outpoint_encode, outpoint_bytes. apply writes_add_bind; [apply writes_array|].
  intros a. apply writes_add, (writes_uint 4).
Qed.

Lemma writes_txout o : fits_u64 (script_pubkey o) → writes (c_enc txout_codec o) (txout_bytes o).
Proof.
  intros Ho. change (c_enc txout_codec o) with (txout_encode o). unfold txout_encode, txout_bytes. cbv zeta. apply writes_add_bind; [apply (writes_uint 8)|].
  intros a. rewrite <- (app_nil_r (script_bytes _)). apply writes_add_bind; [by apply writes_script|].
  intros b. apply writes_ret.
Qed.

Lemma foldl_writes {A} (f : A → wr Z) (g : A → list byte) l e :
  Forall (λ x, writes (f x) (g x)) l → foldl (λ e x, engine_write e (f x)) e l = foldl HashEngine.input e (map g l).
Proof.
  intros Hl. revert e. induction Hl as [|x l Hx _ IH]; intros e; [done|]. cbn [foldl map]. by rewrite (engine_writes _ _ _ Hx), IH.
Qed.

Lemma foldl_pair {A B X} (f : A → X → A) (g : B → X → B) l a b :
  foldl (λ '(a, b) x, (f a x, g b x)) (a, b) l = (foldl f a l, foldl g b l).
Proof. revert a b. induction l as [|x l IH]; intros a b; [done|]. cbn [foldl]. apply IH. Qed.

Lemma engine_write_hash {A} (w : wr A) bs : writes w bs → from_engine (engine_write engine_default w) = sha256_hash bs.
Proof.
  intros Hw. rewrite (engine_writes _ _ _ Hw). pose proof (sha256_pieces [bs]) as Hp. cbn [foldl concat] in Hp.
  by rewrite app_nil_r in Hp.
Qed.

(** ** Consistent caches *)

Section Consistent.
Context `{PublicKeys}.

Definition common_of (t : Transaction) : CommonCache :=
  {| cc_prevouts := sha256_hash (all_prevouts t); cc_sequences := sha256_hash (all_sequences t);
     cc_outputs := sha256_hash (all_outputs t) |}.
Definition segwit_of (t : Transaction) : SegwitCache :=
  {| sc_prevouts := sha256d_hash (all_prevouts t); sc_sequences := sha256d_hash (all_sequences t);
     sc_outputs := sha256d_hash (all_outputs t) |}.
Definition taproot_of (ps : list TxOut) : TaprootCache :=
  {| tc_amounts := sha256_hash (all_amounts ps); tc_script_pubkeys := sha256_hash (all_script_pubkeys ps) |}.

Definition script_fits (o : TxOut) : Prop := fits_u64 (script_pubkey o).

Lemma compute_common_eq t : Forall script_fits (output t) → compute_common t = common_of t.
Proof.
  intros Ho. unfold compute_common.
  rewrite (foldl_pair (λ p txin, engine_write p (c_enc outpoint_codec (previous_output txin)))
             (λ s txin, engine_write s (c_enc u32 (sequence txin)))).
  rewrite (foldl_writes (λ i, c_enc outpoint_codec (previous_output i)) (λ i, outpoint_bytes (previous_output i)))
    by (apply Forall_true; intros; apply writes_outpoint).
  rewrite (foldl_writes (λ i, c_enc u32 (sequence i)) (λ i, le_split 4 (sequence i)))
    by (apply Forall_true; intros; apply (writes_uint 4)).
  rewrite (foldl_writes (c_enc txout_codec) txout_bytes)
    by (eapply Forall_impl; [exact Ho|]; intros; by apply writes_txout).
  unfold common_of. by rewrite !sha256_pieces.
Qed.

Lemma compute_taproot_eq ps : Forall script_fits ps → compute_taproot ps = taproot_of ps.
Proof.
  intros Ho. unfold compute_taproot.
  rewrite (foldl_pair (λ a p, engine_write a (c_enc u64 (value p))) (λ s p, engine_write s (c_enc bytes (script_pubkey p)))).
  rewrite (foldl_writes (λ p, c_enc u64 (value p)) (λ o, le_split 8 (value o)))
    by (apply Forall_true; intros; apply (writes_uint 8)).
  rewrite (foldl_writes (λ p, c_enc bytes (script_pubkey p)) (λ o, script_bytes (script_pubkey o)))
    by (eapply Forall_impl; [exact Ho|]; intros; by apply writes_script).
  unfold taproot_of. by rewrite !sha256_pieces.
Qed.

(** Every part that is filled in has the value it stands for. *)
Record cache_ok (ps : list TxOut) (c : SighashCache) : Prop := {
  ok_fits : Forall script_fits (output (sc_tx c));
  ok_common : ∀ cc, sc_common c = Some cc → cc = common_of (sc_tx c);
  ok_segwit : ∀ sc, sc_segwit c = Some sc → sc = segwit_of (sc_tx c);
  ok_taproot : ∀ tc, sc_taproot c = Some tc → tc = taproot_of ps }.

(** With a consistent cache, and prevouts [ps], the step does what [w] does without one,
    and leaves the cache consistent. *)
Definition computes {E A} (ps : list TxOut) (t : Transaction) (m : signing E A) (w : writer (SigningDataError E) A) : Prop :=
  ∀ c, sc_tx c = t → cache_ok ps c →
    let '(c', bs, r) := m c in
    sc_tx c' = t ∧ cache_ok ps c' ∧
    match w with Ok (a, bs') => r = Ok a ∧ bs = bs' | Err e => r = Err e end.

Section Steps.
Context {E : Type} (ps : list TxOut) (t : Transaction).

Lemma computes_ret {A} (a : A) : computes (E := E) ps t (s_ret a) (w_ret a).
Proof. by intros c Ht Hc. Qed.

Lemma computes_lift {A} (r : result E A) :
  computes ps t (s_lift r) (match r with Ok a => w_ret a | Err e => Err (Sighash e) end).
Proof. by destruct r; intros c Ht Hc. Qed.

Lemma computes_fail {A} (e : E) : computes (A := A) ps t (s_fail e) (Err (Sighash e)).
Proof. by intros c Ht Hc. Qed.

Lemma computes_get : computes (E := E) ps t s_get (w_ret t).
Proof. by intros c <- Hc. Qed.

Lemma computes_write {A} (w : wr A) bs : writes w bs → computes (E := E) ps t (s_write w) (w_bytes bs).
Proof. intros [a ->] c Ht Hc. done. Qed.

Lemma computes_bind {A B} (m : signing E A) (k : A → signing E B) w v :
  computes ps t m w → (∀ a bs, w = Ok (a, bs) → computes ps t (k a) (v a)) → computes ps t (s_bind m k) (w_bind w v).
Proof.
  intros Hm Hk c Ht Hc. unfold s_bind, w_bind. specialize (Hm c Ht Hc). destruct (m c) as [[c' bs] r].
  destruct Hm as (Ht' & Hc' & Hr). destruct w as [[a bs']|e]; [destruct Hr as [-> ->]|by subst r].
  specialize (Hk a bs' eq_refl c' Ht' Hc'). destruct (k a c') as [[c'' bs''] r''].
  destruct Hk as (Ht'' & Hc'' & Hr). destruct (v a) as [[b bs]|e]; [by destruct Hr as [-> ->]|done].
Qed.

Lemma computes_if {A} (b : bool) (m n : signing E A) w v :
  computes ps t m w → computes ps t n v → computes ps t (if b then m else n) (if b then w else v).
Proof. by destruct b. Qed.

Lemma computes_common : computes (E := E) ps t common_cache (w_ret (common_of t)).
Proof.
  intros c <- Hc. unfold common_cache. destruct (sc_common c) as [cc|] eqn:Ec.
  - pose proof (ok_common _ _ Hc cc Ec) as ->. by split_and!.
  - destruct Hc as [Hf Hcm Hs Htp]. rewrite compute_common_eq by exact Hf. split_and!; [done| |done..].
    constructor; cbn [sc_tx sc_common sc_segwit sc_taproot]; [exact Hf| |exact Hs|exact Htp]. by intros ? [= <-].
Qed.

Lemma computes_segwit : computes (E := E) ps t segwit_cache (w_ret (segwit_of t)).
Proof.
  intros c Ht Hc. pose proof (computes_common c Ht Hc) as Hcm. unfold segwit_cache.
  destruct (sc_segwit c) as [sc|] eqn:Ec.
  - pose proof (ok_segwit _ _ Hc sc Ec) as ->. rewrite <- Ht. by split_and!.
  - unfold s_bind. destruct (common_cache c) as [[c' bs] r]. destruct Hcm as (Ht' & Hc' & -> & ->). cbn.
    destruct Hc' as [Hf Hcm Hs Htp].
    assert (segwit_of t = {| sc_prevouts := hash_again (sha256_hash (all_prevouts t));
      sc_sequences := hash_again (sha256_hash (all_sequences t)); sc_outputs := hash_again (sha256_hash (all_outputs t)) |}) as <-
      by (unfold segwit_of, hash_again; by rewrite !sha256d_hash_eq).
    split_and!; [done| |done..].
    constructor; cbn [sc_tx sc_common sc_segwit sc_taproot]; [exact Hf|exact Hcm| |exact Htp].
    rewrite Ht'. by intros ? [= <-].
Qed.

Lemma computes_taproot : Forall script_fits ps → computes (E := E) ps t (taproot_cache ps) (w_ret (taproot_of ps)).
Proof.
  intros Hps c <- Hc. unfold taproot_cache. destruct (sc_taproot c) as [tc|] eqn:Ec.
  - pose proof (ok_taproot _ _ Hc tc Ec) as ->. by split_and!.
  - rewrite compute_taproot_eq by exact Hps. destruct Hc as [Hf Hcm Hs Htp]. split_and!; [done| |done..].
    constructor; cbn [sc_tx sc_common sc_segwit sc_taproot]; [exact Hf|exact Hcm|exact Hs|]. by intros ? [= <-].
Qed.
End Steps.
End Consistent.

(** Steps of the same shape as the code; the writer that results is compared with the
    message afterwards. *)
Lemma computes_eq `{PublicKeys} {E A} ps t (m : signing E A) w v : computes ps t m w → w = v → computes ps t m v.
Proof. by intros Hm <-. Qed.

Lemma computes_option `{PublicKeys} {E A X} ps t (o : option X) (m : X → signing E A) n w v :
  (∀ x, o = Some x → computes ps t (m x) (w x)) → computes ps t n v →
  computes ps t (match o with Some x => m x | None => n end) (match o with Some x => w x | None => v end).
Proof. intros Hm Hn. destruct o; [by apply Hm|done]. Qed.

Lemma computes_pair `{PublicKeys} {E A X Y} ps t (p : X * Y) (m : X → Y → signing E A) w :
  (∀ x y, p = (x, y) → computes ps t (m x y) (w x y)) →
  computes ps t (let '(x, y) := p in m x y) (let '(x, y) := p in w x y).
Proof. intros Hm. destruct p. by apply Hm. Qed.

Lemma writes_u8 v : writes (c_enc u8 v) [byte.of_Z v].
Proof. by eexists. Qed.

Lemma writes_i32 v : writes (c_enc i32 v) (le_split 4 v).
Proof. eexists. cbn. by rewrite app_nil_r. Qed.

Lemma writes_lock_time l : writes (c_enc Absolute.lock_time_codec l) (le_split 4 (Absolute.to_consensus_u32 l)).
Proof. apply (writes_uint 4). Qed.

Ltac computes_step :=
  lazymatch goal with
  | |- computes _ _ (s_bind _ _) _ => eapply computes_bind; [|intros ? ? ?]
  | |- computes _ _ (s_ret _) _ => apply computes_ret
  | |- computes _ _ (s_fail _) _ => apply computes_fail
  | |- computes _ _ s_get _ => apply computes_get
  | |- computes _ _ (s_lift _) _ => apply computes_lift
  | |- computes _ _ common_cache _ => apply computes_common
  | |- computes _ _ segwit_cache _ => apply computes_segwit
  | |- computes _ _ (if _ then _ else _) _ => eapply computes_if
  | |- computes _ _ (s_write (c_enc (array _) _)) _ => eapply computes_write, writes_array
  | |- computes _ _ (match ?o with Some _ => _ | None => _ end) _ => eapply computes_option; [intros ? ?|]
  | |- computes _ _ (let '(_, _) := ?p in _) _ => eapply computes_pair; intros ? ? ?
  | |- computes _ _ (s_write (c_enc u8 _)) _ => eapply computes_write, writes_u8
  | |- computes _ _ (s_write (c_enc u32 _)) _ => eapply computes_write, (writes_uint 4)
  | |- computes _ _ (s_write (c_enc u64 _)) _ => eapply computes_write, (writes_uint 8)
  | |- computes _ _ (s_write (c_enc i32 _)) _ => eapply computes_write, writes_i32
  | |- computes _ _ (s_write (c_enc Absolute.lock_time_codec _)) _ => eapply computes_write, writes_lock_time
  | |- computes _ _ (s_write (c_enc outpoint_codec _)) _ => eapply computes_write, writes_outpoint
  end.

Section Refinement.
Context `{PublicKeys}.

Definition of_result {E} (r : result E (list byte)) : writer (SigningDataError E) unit :=
  match r with Ok bs => w_bytes bs | Err e => Err (Sighash e) end.

(** Prevouts that agree with those of the cache. *)
Definition prevouts_ok (ps : list TxOut) (prevouts : Prevouts) : Prop :=
  match prevouts with All ps' => ps' = ps | One _ o => script_fits o end.

Lemma computes_taproot_of {E : Type} ps ps' t :
  ps' = ps → Forall script_fits ps → computes (E := E) ps t (taproot_cache ps') (w_ret (taproot_of ps')).
Proof. intros -> Hps. by apply computes_taproot. Qed.

Lemma get_all_ok ps prevouts ps' bs :
  prevouts_ok ps prevouts →
  match ok_or (get_all prevouts) PrevoutsKind with
  | Ok a => w_ret a
  | Err e => Err (Sighash e)
  end = Ok (ps', bs) → ps' = ps.
Proof. destruct prevouts; cbn; [done|]. by intros -> [= <- _]. Qed.

Lemma prevouts_get_ok ps prevouts i o bs :
  Forall script_fits ps → prevouts_ok ps prevouts →
  match result_map_err PrevoutsIndex (prevouts_get prevouts i) with
  | Ok a => w_ret a
  | Err e => Err (Sighash e)
  end = Ok (o, bs) → script_fits o.
Proof.
  intros Hps. destruct prevouts as [n o'|ps']; cbn.
  - intros Ho. destruct (i =? n)%nat; cbn; [by intros [= <- _]|done].
  - intros ->. destruct (ps !! i) as [o'|] eqn:Ei; cbn; [|done]. intros [= <- _]. by eapply Forall_lookup_1.
Qed.

(** The split of the hash type is by its bits. *)
Lemma tap_flags ty :
  let '(sighash, anyone_can_pay) := Tap.split_anyonecanpay_flag ty in
  anyone_can_pay = anyone_can_pay_flag (Tap.to_u8 ty) ∧
  bool_decide (sighash = Tap.None) = none_flag 3 (Tap.to_u8 ty) ∧
  bool_decide (sighash = Tap.Single) = single_flag 3 (Tap.to_u8 ty).
Proof. by destruct ty. Qed.

Lemma taproot_refines ps t i prevouts annex ext ty :
  Forall script_fits ps → prevouts_ok ps prevouts → from_option fits_u64 True annex →
  Forall script_fits (output t) →
  computes ps t (taproot_encode_signing_data_to i prevouts annex ext ty)
    (of_result (bip341 t i prevouts annex ext (Tap.to_u8 ty))).
Proof.
  intros Hps Hpo Han Hout. unfold taproot_encode_signing_data_to.
  destruct (Tap.split_anyonecanpay_flag ty) as [sighash anyone_can_pay] eqn:Hsplit.
  eapply computes_eq.
  - repeat computes_step.
    + apply computes_taproot_of; [by eapply get_all_ok|done].
    + apply computes_taproot_of; [by eapply get_all_ok|done].
    + eapply computes_write, writes_script. eapply (prevouts_get_ok ps); eassumption.
  - pose proof (tap_flags ty) as Hf. rewrite Hsplit in Hf. destruct Hf as (Ha & Hn & Hs).
    unfold bip341. rewrite <- Ha, <- Hn, <- Hs.
    assert (∀ a, annex = Some a → from_engine (engine_write engine_default (annex_encode a)) = sha256_hash (script_bytes a)) as Hannex.
    { intros a ->. apply engine_write_hash, (writes_script a Han). }
    assert (∀ o, output t !! i = Some o →
      from_engine (engine_write engine_default (c_enc txout_codec o)) = sha256_hash (txout_bytes o)) as Houti.
    { intros o Ho. apply engine_write_hash, writes_txout. eapply (Forall_lookup_1 script_fits); eassumption. }
    clear Hsplit Ha Hn Hs Han Hout Hps Hpo. unfold tx_in.
    replace (le_split 4 (uwrap 32 (Z.of_nat i))) with (le_split 4 (Z.of_nat i)) by apply (le_split_mod _ 4).
    generalize (bool_decide (sighash = Tap.None)) (bool_decide (sighash = Tap.Single)). intros none single.
    assert ((if bool_decide (is_Some ext) then Z.lor (if bool_decide (is_Some annex) then Z.lor 0 1 else 0) 2
             else if bool_decide (is_Some annex) then Z.lor 0 1 else 0)
            = 2 * b2z (bool_decide (is_Some ext)) + b2z (bool_decide (is_Some annex))) as -> by by destruct annex, ext.
    change (byte.of_Z 0) with x00. change (byte.of_Z KEY_VERSION_0) with x00.
    generalize (2 * b2z (bool_decide (is_Some ext)) + b2z (bool_decide (is_Some annex))). intros spend_type.
    unfold common_of, taproot_of, txout_bytes, version_bytes, lock_time_bytes in *. revert Hannex Houti.
    generalize sha256_hash from_engine (@le_split). intros sha finish le Hannex Houti. cbn [w_bind w_ret]. destruct (check_all prevouts (length (input t))); cbn [negb]; [|done].
    destruct annex as [a|]; [specialize (Hannex a eq_refl); rewrite Hannex|];
    (destruct single; [destruct (output t !! i) as [o|]; [specialize (Houti o eq_refl)|]|]);
    (destruct anyone_can_pay; [destruct (input t !! i); [destruct (prevouts_get prevouts i)|]|destruct (get_all prevouts)]);
    destruct none; destruct ext as [[? ?]|].
    all: cbn [w_bind w_ret w_bytes ok_or result_map_err of_result negb andb orb from_option result_bind]; rewrite ?Houti.
    all: lazymatch goal with |- Err _ = Err _ => reflexivity | |- _ => idtac end.
    all: apply (f_equal (λ l, Ok (tt, l))); cbn [common_of taproot_of cc_prevouts cc_sequences cc_outputs tc_amounts tc_script_pubkeys].
    all: rewrite ?app_nil_r, <- ?app_assoc; cbn [app]; reflexivity.
Qed.

Lemma ecdsa_flags ty :
  let '(sighash, anyone_can_pay) := Ecdsa.split_anyonecanpay_flag ty in
  anyone_can_pay = anyone_can_pay_flag (Ecdsa.to_u32 ty) ∧
  bool_decide (sighash = Ecdsa.None) = none_flag 0x1f (Ecdsa.to_u32 ty) ∧
  bool_decide (sighash = Ecdsa.Single) = single_flag 0x1f (Ecdsa.to_u32 ty) ∧
  none_flag 0x1f (Ecdsa.to_u32 ty) && single_flag 0x1f (Ecdsa.to_u32 ty) = false.
Proof. by destruct ty. Qed.

Lemma engine_write_hash_d {A} (w : wr A) bs :
  writes w bs → sha256d_from_engine (engine_write engine_default w) = sha256d_hash bs.
Proof.
  intros Hw. rewrite sha256d_hash_eq, <- (engine_write_hash w bs Hw). reflexivity.
Qed.

Lemma segwit_refines ps t i script_code v ty :
  fits_u64 script_code → Forall script_fits (output t) →
  computes ps t (segwit_v0_encode_signing_data_to i script_code v ty)
    (of_result (bip143 t i script_code v (Ecdsa.to_u32 ty))).
Proof.
  intros Hsc Hout. unfold segwit_v0_encode_signing_data_to.
  destruct (Ecdsa.split_anyonecanpay_flag ty) as [sighash anyone_can_pay] eqn:Hsplit.
  eapply computes_eq.
  - repeat computes_step.
    + eapply computes_write, writes_script, Hsc.
    + eapply computes_write. by eexists.
    + eapply computes_write. by eexists.
  - pose proof (ecdsa_flags ty) as Hf. rewrite Hsplit in Hf. destruct Hf as (Ha & Hn & Hs & Hns).
    unfold bip143. rewrite <- Hn, <- Hs in Hns |- *. rewrite <- Ha.
    assert (∀ o, output t !! i = Some o →
      sha256d_from_engine (engine_write engine_default (c_enc txout_codec o)) = sha256d_hash (txout_bytes o)) as Houti.
    { intros o Ho. apply engine_write_hash_d, writes_txout. eapply (Forall_lookup_1 script_fits); eassumption. }
    clear Hsplit Ha Hn Hs Hout Hsc. unfold tx_in. revert Hns.
    generalize (bool_decide (sighash = Ecdsa.None)) (bool_decide (sighash = Ecdsa.Single)). intros none single Hns.
    unfold segwit_of, version_bytes, lock_time_bytes in *. revert Houti.
    generalize sha256d_hash sha256d_from_engine (@le_split) all_zeros. intros sha finish le zeros Houti. cbn [w_bind w_ret].
    destruct (input t !! i); [|destruct anyone_can_pay, none, single; reflexivity].
    destruct none, single; [done|..|destruct (output t !! i) as [o|]; [specialize (Houti o eq_refl)|]|]; destruct anyone_can_pay.
    all: cbn [w_bind w_ret w_bytes ok_or of_result negb andb orb from_option result_bind sc_prevouts sc_sequences sc_outputs].
    all: apply (f_equal (λ l, Ok (tt, l))); rewrite ?Houti, ?app_nil_r, <- ?app_assoc; reflexivity.
Qed.

(** *** Legacy *)

Definition txin_bytes (i : TxIn) : list byte :=
  outpoint_bytes (previous_output i) ++ script_bytes (script_sig i) ++ le_split 4 (sequence i).

Lemma writes_txin i : fits_u64 (script_sig i) → writes (c_enc txin_codec i) (txin_bytes i).
Proof.
  intros Hi. change (c_enc txin_codec i) with (txin_encode i). unfold txin_encode, txin_bytes. cbv zeta.
  apply writes_add_bind; [apply writes_outpoint|]. intros a. apply writes_add_bind; [by apply writes_script|]. intros b.
  rewrite <- (app_nil_r (le_split 4 _)). apply writes_add_bind; [apply (writes_uint 4)|]. intros c. apply writes_ret.
Qed.

Lemma writes_for {A} (f : A → wr Z) (g : A → list byte) l n :
  Forall (λ x, writes (f x) (g x)) l → writes (w_for (λ len x, w_add len (f x)) n l) (concat (map g l)).
Proof.
  intros Hl. revert n. induction Hl as [|x l Hx _ IH]; intros n; [apply writes_ret|]. cbn [w_for map concat].
  by apply writes_bind; [apply writes_add|].
Qed.

Lemma writes_vec {A} (c : codec A) (g : A → list byte) l :
  Z.of_nat (length l) < 2 ^ 64 → Forall (λ x, writes (c_enc c x) (g x)) l →
  writes (c_enc (vec c) l) (varint_bytes (Z.of_nat (length l)) ++ concat (map g l)).
Proof.
  intros Hl Hf. change (c_enc (vec c) l) with (vec_encode c l). unfold vec_encode. apply writes_add_bind.
  - eexists. apply varint_encode_eq. unfold urange. lia.
  - intros a. by apply writes_for.
Qed.

Lemma writes_legacy (t : Transaction) :
  mw_tx t = None → is_hog_ex t = false → input t ≠ [] → Forall (λ i, witness i = witness_new) (input t) →
  Z.of_nat (length (input t)) < 2 ^ 64 → Z.of_nat (length (output t)) < 2 ^ 64 →
  Forall (λ i, fits_u64 (script_sig i)) (input t) → Forall script_fits (output t) →
  writes (c_enc transaction_codec t)
    (version_bytes t ++ varint_bytes (Z.of_nat (length (input t))) ++ concat (map txin_bytes (input t)) ++
     varint_bytes (Z.of_nat (length (output t))) ++ concat (map txout_bytes (output t)) ++ lock_time_bytes t).
Proof.
  intros Hmw Hhog Hne Hw Hli Hlo Hi Ho. change (c_enc transaction_codec t) with (transaction_encode t).
  assert (has_mweb t = false) as Hmweb by (unfold has_mweb; by rewrite Hmw).
  assert (segwit_required t = false) as Hseg.
  { unfold segwit_required, has_witnesses, no_input. destruct (input t) as [|i ins]; [done|]. cbn [andb orb].
    rewrite orb_false_r. clear -Hw. induction Hw as [|j l Hj _ IH]; [done|]. cbn. by rewrite Hj, IH. }
  unfold transaction_encode, version_bytes, lock_time_bytes. cbv zeta. apply writes_add_bind; [apply writes_i32|]. intros a.
  rewrite !app_assoc. apply writes_bind; [|intros b; apply writes_add, writes_lock_time].
  unfold write_body. rewrite Hmweb, Hseg. cbn [negb andb]. unfold write_plain. rewrite <- !app_assoc, app_assoc.
  apply writes_add_bind; [|intros b; apply writes_add].
  - apply writes_vec; [done|]. eapply Forall_impl; [exact Hi|]. intros. by apply writes_txin.
  - apply writes_vec; [done|]. eapply Forall_impl; [exact Ho|]. intros. by apply writes_txout.
Qed.

(** Any 32-bit type splits by its bits, of which the low byte matters. *)
Lemma consensus_flags_byte b :
  let n := byte.unsigned b in
  let '(sighash, anyone_can_pay) := Ecdsa.split_anyonecanpay_flag (Ecdsa.from_consensus n) in
  anyone_can_pay = anyone_can_pay_flag n ∧
  sighash = (if none_flag 0x1f n then Ecdsa.None else if single_flag 0x1f n then Ecdsa.Single else Ecdsa.All) ∧
  Ecdsa.is_single (Ecdsa.from_consensus n) = single_flag 0x1f n.
Proof. by destruct b. Qed.

Lemma consensus_flags n :
  let '(sighash, anyone_can_pay) := Ecdsa.split_anyonecanpay_flag (Ecdsa.from_consensus n) in
  anyone_can_pay = anyone_can_pay_flag n ∧
  sighash = (if none_flag 0x1f n then Ecdsa.None else if single_flag 0x1f n then Ecdsa.Single else Ecdsa.All) ∧
  Ecdsa.is_single (Ecdsa.from_consensus n) = single_flag 0x1f n.
Proof.
  set (m := byte.unsigned (byte.of_Z n)). assert (m = Z.land n 255) as Hm
    by (unfold m; rewrite byte.unsigned_of_Z; symmetry; apply (Z.land_ones n 8); lia).
  assert (∀ k, Z.land 255 k = k → Z.land n k = Z.land m k) as Hand.
  { intros k Hk. by rewrite Hm, <- Z.land_assoc, Hk. }
  assert (Ecdsa.from_consensus n = Ecdsa.from_consensus m) as ->
    by (unfold Ecdsa.from_consensus; cbv zeta; by rewrite (Hand (Z.lor 31 128))).
  assert (anyone_can_pay_flag n = anyone_can_pay_flag m) as ->
    by (unfold anyone_can_pay_flag; by rewrite Hm, Z.land_spec, andb_true_r).
  unfold none_flag, single_flag. rewrite !(Hand 31) by done. apply consensus_flags_byte.
Qed.

Lemma legacy_inputs (t : Transaction) i sc (zeroed : bool) :
  concat (map txin_bytes (imap (λ n input,
    {| previous_output := previous_output input; script_sig := if (n =? i)%nat then sc else [];
       sequence := if negb (n =? i)%nat && zeroed then 0 else sequence input; witness := witness_new |}) (input t)))
  = concat (imap (λ n txin, outpoint_bytes (previous_output txin) ++ script_bytes (if (n =? i)%nat then sc else [])
      ++ le_split 4 (if negb (n =? i)%nat && zeroed then 0 else sequence txin)) (input t)).
Proof. f_equal. change (map txin_bytes) with (fmap (M := list) txin_bytes). by rewrite fmap_imap. Qed.

Lemma legacy_outputs i outs :
  concat (map txout_bytes (imap (λ n out, if (n =? i)%nat then out else txout_null) (take (i + 1) outs)))
  = concat (imap (λ n o, if negb (n =? i)%nat then txout_bytes txout_null else txout_bytes o) (take (i + 1) outs)).
Proof.
  f_equal. change (map txout_bytes) with (fmap (M := list) txout_bytes). rewrite fmap_imap. apply imap_ext.
  intros n o _. cbn. by destruct (n =? i)%nat.
Qed.

Lemma Forall_imap {A B} (P : B → Prop) (f : nat → A → B) l : (∀ n x, l !! n = Some x → P (f n x)) → Forall P (imap f l).
Proof.
  intros Hf. apply Forall_lookup. intros n y. rewrite list_lookup_imap. destruct (l !! n) eqn:El; [|done].
  cbn. intros [= <-]. by apply Hf.
Qed.

(** The inputs and the outputs that the legacy message signs. *)
Definition legacy_ins (t : Transaction) (own : TxIn) (i : nat) (sc : script) (acp zeroed : bool) : list TxIn :=
  if acp then
    [{| previous_output := previous_output own; script_sig := sc; sequence := sequence own; witness := witness_new |}]
  else
    imap (λ n input,
      {| previous_output := previous_output input; script_sig := if (n =? i)%nat then sc else [];
         sequence := if negb (n =? i)%nat && zeroed then 0 else sequence input; witness := witness_new |}) (input t).
Definition legacy_outs (t : Transaction) (i : nat) (none single : bool) : list TxOut :=
  if none then []
  else if single then imap (λ n out, if (n =? i)%nat then out else txout_null) (take (i + 1) (output t))
  else output t.

Lemma legacy_tx_eq (t : Transaction) own i sc n :
  let none := none_flag 0x1f n in
  let single := single_flag 0x1f n in
  legacy_tx t own i sc n =
    Some {| Transaction.version := Transaction.version t; lock_time := lock_time t;
            input := legacy_ins t own i sc (anyone_can_pay_flag n) (none || single); output := legacy_outs t i none single;
            mw_tx := None; is_hog_ex := false |}.
Proof.
  cbv zeta. unfold legacy_tx, legacy_ins, legacy_outs. pose proof (consensus_flags n) as Hf.
  destruct (Ecdsa.split_anyonecanpay_flag _) as [sighash acp]. destruct Hf as (<- & -> & _).
  destruct (none_flag 31 n), (single_flag 31 n); cbn [mbind option_bind orb]; destruct acp; reflexivity.
Qed.

Lemma legacy_ins_ok (t : Transaction) own i sc acp zeroed :
  tx_wf t → fits_u64 sc → input t !! i = Some own →
  legacy_ins t own i sc acp zeroed ≠ [] ∧
  Forall (λ i, witness i = witness_new) (legacy_ins t own i sc acp zeroed) ∧
  Z.of_nat (length (legacy_ins t own i sc acp zeroed)) < 2 ^ 64 ∧
  Forall (λ i, fits_u64 (script_sig i)) (legacy_ins t own i sc acp zeroed).
Proof.
  intros Hwf Hsc Hi. unfold legacy_ins. destruct acp; [by repeat constructor|].
  rewrite length_imap. destruct (txwf_input _ Hwf) as [_ Hl]. split_and!; [| |lia|].
  - destruct (input t); [done|]. done.
  - by apply Forall_imap.
  - apply Forall_imap. intros n x Hx. cbn. by destruct (n =? i)%nat.
Qed.

Lemma legacy_outs_ok (t : Transaction) i none single :
  tx_wf t →
  Z.of_nat (length (legacy_outs t i none single)) < 2 ^ 64 ∧ Forall script_fits (legacy_outs t i none single).
Proof.
  intros Hwf. destruct (txwf_output _ Hwf) as [Ho Hl].
  assert (Forall script_fits (output t)) as Hf by (eapply Forall_impl; [exact Ho|]; by intros o []).
  unfold legacy_outs. destruct none; [by repeat constructor|]. destruct single; [|by split].
  rewrite length_imap, length_take. split; [lia|]. apply Forall_imap. intros n x Hx.
  destruct (n =? i)%nat; [|done]. apply lookup_take_Some in Hx as [Hx _]. by eapply Forall_lookup_1.
Qed.

Lemma legacy_message_eq (t : Transaction) own i sc n :
  input t !! i = Some own → (single_flag 0x1f n = true → (i < length (output t))%nat) →
  let none := none_flag 0x1f n in
  let single := single_flag 0x1f n in
  let ins := legacy_ins t own i sc (anyone_can_pay_flag n) (none || single) in
  let outs := legacy_outs t i none single in
  (version_bytes t ++ varint_bytes (Z.of_nat (length ins)) ++ concat (map txin_bytes ins) ++
   varint_bytes (Z.of_nat (length outs)) ++ concat (map txout_bytes outs) ++ lock_time_bytes t) ++ le_split 4 n
  = legacy_message t i sc n.
Proof.
  intros Hi Hlen. cbv zeta. unfold legacy_message. cbv zeta.
  set (ins := legacy_ins _ _ _ _ _ _). set (outs := legacy_outs _ _ _ _). set (n_outs := if none_flag 31 n then _ else _).
  assert (varint_bytes (Z.of_nat (length outs)) ++ concat (map txout_bytes outs) = varint_bytes (Z.of_nat n_outs) ++
    concat (imap (λ n0 o, if single_flag 31 n && negb (n0 =? i)%nat then txout_bytes txout_null else txout_bytes o)
      (take n_outs (output t)))) as Houts.
  { unfold outs, n_outs, legacy_outs. destruct (none_flag 31 n); [done|]. destruct (single_flag 31 n); cbn [negb andb].
    - specialize (Hlen eq_refl). rewrite length_imap, length_take, legacy_outputs by done. by rewrite Nat.min_l by lia.
    - rewrite take_ge by lia. do 2 f_equal. symmetry. exact (imap_const txout_bytes (output t)). }
  rewrite <- !app_assoc. f_equal. rewrite (app_assoc (varint_bytes (Z.of_nat n_outs))), <- Houts, <- !app_assoc.
  rewrite (app_assoc (varint_bytes (Z.of_nat (length ins)))). f_equal. unfold ins, legacy_ins.
  destruct (anyone_can_pay_flag n); [|by rewrite length_imap, legacy_inputs].
  rewrite Hi. cbn [from_option map concat length]. rewrite Nat.eqb_refl. cbn [negb andb]. by rewrite app_nil_r.
Qed.

Lemma legacy_refines (c : SighashCache) i sc n :
  tx_wf (sc_tx c) → fits_u64 sc →
  legacy_encode_signing_data_to c i sc n =
    match input (sc_tx c) !! i with
    | None => Some ([], WriteResult (Err (Sighash (i, length (input (sc_tx c))))))
    | Some _ =>
        if single_flag 0x1f n && (length (output (sc_tx c)) <=? i)%nat then Some ([], SighashSingleBug)
        else Some (legacy_message (sc_tx c) i sc n, WriteResult (Ok tt))
    end.
Proof.
  intros Hwf Hsc. unfold legacy_encode_signing_data_to, tx_in, is_invalid_use_of_sighash_single. cbv zeta.
  destruct (input (sc_tx c) !! i) as [own|] eqn:Hi; cbn [ok_or]; [|done].
  pose proof (consensus_flags n) as Hf. destruct (Ecdsa.split_anyonecanpay_flag _) as [sighash acp]. destruct Hf as (_ & _ & ->).
  destruct (single_flag 0x1f n && _) eqn:Hbug; [done|]. rewrite legacy_tx_eq. cbn [mbind option_bind].
  rewrite <- (legacy_message_eq (sc_tx c) own i sc n Hi).
  2:{ intros Hs. rewrite Hs in Hbug. cbn [andb] in Hbug. by apply Nat.leb_gt. }
  set (t' := {| Transaction.version := _ |}).
  destruct (legacy_ins_ok (sc_tx c) own i sc (anyone_can_pay_flag n) (none_flag 31 n || single_flag 31 n) Hwf Hsc Hi)
    as (H1 & H2 & H3 & H4).
  destruct (legacy_outs_ok (sc_tx c) i (none_flag 31 n) (single_flag 31 n) Hwf) as [H5 H6].
  destruct (writes_legacy t' eq_refl eq_refl H1 H2 H3 H5 H4 H6) as [k ->]. cbn [w_bind].
  destruct (writes_array 4 (le_split 4 n)) as [k' ->]. reflexivity.
Qed.

(** ** Sequences of requests *)

(** What a caller may ask of a cache. *)
Inductive request :=
| RTaproot (i : nat) (prevouts : Prevouts) (annex : option (list byte)) (ext : option (list byte * Z)) (ty : TapSighashType)
| RKeySpend (i : nat) (prevouts : Prevouts) (ty : TapSighashType)
| RScriptSpend (i : nat) (prevouts : Prevouts) (leaf_hash : list byte) (ty : TapSighashType)
| RP2wpkh (i : nat) (script_pubkey : script) (value : Z) (ty : EcdsaSighashType)
| RP2wsh (i : nat) (witness_script : script) (value : Z) (ty : EcdsaSighashType)
| RLegacy (i : nat) (script_pubkey : script) (ty : Z)
| RWitness (i : nat) (w : Witness).

Inductive answer :=
| ATaproot (r : result TaprootError (list byte))
| AP2wpkh (r : result P2wpkhError (list byte))
| AInputs (r : result InputsIndexError (list byte))
| AWitness (written : bool).

Definition serve (r : request) (c : SighashCache) : option (SighashCache * answer) :=
  match r with
  | RTaproot i prevouts annex ext ty =>
      '(c, a) ← taproot_signature_hash i prevouts annex ext ty c; Some (c, ATaproot a)
  | RKeySpend i prevouts ty => '(c, a) ← taproot_key_spend_signature_hash i prevouts ty c; Some (c, ATaproot a)
  | RScriptSpend i prevouts leaf ty =>
      '(c, a) ← taproot_script_spend_signature_hash i prevouts leaf ty c; Some (c, ATaproot a)
  | RP2wpkh i s v ty => '(c, a) ← p2wpkh_signature_hash i s v ty c; Some (c, AP2wpkh a)
  | RP2wsh i s v ty => '(c, a) ← p2wsh_signature_hash i s v ty c; Some (c, AInputs a)
  | RLegacy i s ty => a ← legacy_signature_hash c i s ty; Some (c, AInputs a)
  | RWitness i w =>
      Some (match witness_mut c i w with Some c => (c, AWitness true) | None => (c, AWitness false) end)
  end.

Fixpoint serve_all (rs : list request) (c : SighashCache) : option (SighashCache * list answer) :=
  match rs with
  | [] => Some (c, [])
  | r :: rs => '(c, a) ← serve r c; '(c, l) ← serve_all rs c; Some (c, a :: l)
  end.

Definition result_map {E A B} (f : A → B) (r : result E A) : result E B := let? a := r in Ok (f a).

(** What the answers are, without a cache. *)
Definition respond (r : request) (t : Transaction) : answer :=
  let tap := result_map (tagged_hash TAP_SIGHASH) in
  match r with
  | RTaproot i prevouts annex ext ty => ATaproot (tap (bip341 t i prevouts annex ext (Tap.to_u8 ty)))
  | RKeySpend i prevouts ty => ATaproot (tap (bip341 t i prevouts None None (Tap.to_u8 ty)))
  | RScriptSpend i prevouts leaf ty => ATaproot (tap (bip341 t i prevouts None (Some (leaf, U32_MAX)) (Tap.to_u8 ty)))
  | RP2wpkh i s v ty =>
      AP2wpkh match p2wpkh_script_code s with
              | None => Err NotP2wpkhScript
              | Some sc => result_map_err WpkhSighash (result_map sha256d_hash (bip143 t i sc v (Ecdsa.to_u32 ty)))
              end
  | RP2wsh i s v ty => AInputs (result_map sha256d_hash (bip143 t i s v (Ecdsa.to_u32 ty)))
  | RLegacy i s n =>
      AInputs (if decide (i < length (input t))%nat then
                 if single_flag 0x1f n && (length (output t) <=? i)%nat then Ok UINT256_ONE
                 else Ok (sha256d_hash (legacy_message t i s n))
               else Err (i, length (input t)))
  | RWitness i w => AWitness (bool_decide (i < length (input t))%nat)
  end.

Definition request_ok (ps : list TxOut) (r : request) : Prop :=
  match r with
  | RTaproot _ prevouts annex _ _ => prevouts_ok ps prevouts ∧ from_option fits_u64 True annex
  | RKeySpend _ prevouts _ | RScriptSpend _ prevouts _ _ => prevouts_ok ps prevouts
  | RP2wsh _ s _ _ | RLegacy _ s _ => fits_u64 s
  | RP2wpkh _ _ _ _ => True
  | RWitness _ w => witness_wf w
  end.

Definition same_signed (i j : TxIn) : Prop := previous_output i = previous_output j ∧ sequence i = sequence j.

Lemma same_inputs (ins ins' : list TxIn) : map bare ins = map bare ins' → Forall2 same_signed ins ins'.
Proof.
  revert ins'. induction ins as [|i ins IH]; intros [|j ins'] Hb; try done. injection Hb as E1 _ E2 Hb.
  constructor; [|by apply IH]. by split.
Qed.

Lemma same_concat (f : TxIn → list byte) ins ins' :
  (∀ i j, same_signed i j → f i = f j) → Forall2 same_signed ins ins' → concat (map f ins) = concat (map f ins').
Proof. intros Hf. induction 1 as [|i j ins ins' Hij _ IH]; [done|]. cbn [map concat]. by rewrite (Hf i j), IH. Qed.

Lemma same_lookup ins ins' i :
  Forall2 same_signed ins ins' →
  match ins !! i, ins' !! i with
  | Some a, Some b => same_signed a b
  | None, None => True
  | _, _ => False
  end.
Proof.
  intros Hs. destruct (ins !! i) as [a|] eqn:Ea.
  - destruct (Forall2_lookup_l _ _ _ _ _ Hs Ea) as (b & -> & Hb). done.
  - apply lookup_ge_None in Ea. rewrite (Forall2_length _ _ _ Hs) in Ea. by rewrite (proj2 (lookup_ge_None _ _) Ea).
Qed.

Section Same.
Context (t u : Transaction) (Hsame : same_but_witnesses t u).

Lemma same_forall2 : Forall2 same_signed (input t) (input u).
Proof. apply same_inputs, Hsame. Qed.

Lemma same_length : length (input t) = length (input u).
Proof. apply (Forall2_length _ _ _ same_forall2). Qed.

Lemma same_pieces :
  version_bytes t = version_bytes u ∧ lock_time_bytes t = lock_time_bytes u ∧ all_prevouts t = all_prevouts u ∧
  all_sequences t = all_sequences u ∧ all_outputs t = all_outputs u ∧ output t = output u.
Proof.
  destruct Hsame as (Hv & Hl & _ & Ho & _). pose proof same_forall2 as Hf.
  unfold version_bytes, lock_time_bytes, all_outputs. rewrite Hv, Hl, Ho. split_and!; try done.
  - apply same_concat; [|done]. by intros i j [-> _].
  - apply same_concat; [|done]. by intros i j [_ ->].
Qed.

Lemma bip341_same i prevouts annex ext n : bip341 t i prevouts annex ext n = bip341 u i prevouts annex ext n.
Proof.
  destruct same_pieces as (Hv & Hl & Hp & Hs & Ha & Ho). unfold bip341, tx_in. rewrite Hv, Hl, Hp, Hs, Ha, Ho, same_length.
  pose proof (same_lookup _ _ i same_forall2) as Hi.
  destruct (input t !! i) as [a|], (input u !! i) as [b|]; [|done..]. destruct Hi as [E1 E2].
  cbn [ok_or result_map_err result_bind]. by rewrite E1, E2.
Qed.

Lemma bip143_same i sc v n : bip143 t i sc v n = bip143 u i sc v n.
Proof.
  destruct same_pieces as (Hv & Hl & Hp & Hs & Ha & Ho). unfold bip143, tx_in. rewrite Hv, Hl, Hp, Hs, Ha, Ho, same_length.
  pose proof (same_lookup _ _ i same_forall2) as Hi.
  destruct (input t !! i) as [a|], (input u !! i) as [b|]; [|done..]. destruct Hi as [E1 E2].
  cbn [ok_or result_bind]. by rewrite E1, E2.
Qed.

Lemma imap_same (f : nat → TxIn → list byte) ins ins' :
  (∀ n i j, same_signed i j → f n i = f n j) → Forall2 same_signed ins ins' → imap f ins = imap f ins'.
Proof.
  intros Hf Hs. revert f Hf. induction Hs as [|i j ins ins' Hij _ IH]; intros f Hf; [done|].
  rewrite !imap_cons, (Hf 0%nat i j Hij). f_equal. apply IH. intros n. apply Hf.
Qed.

Lemma legacy_same i sc n : legacy_message t i sc n = legacy_message u i sc n.
Proof.
  destruct same_pieces as (Hv & Hl & Hp & Hs & Ha & Ho). unfold legacy_message. cbv zeta. rewrite Hv, Hl, Ho, same_length.
  pose proof (same_lookup _ _ i same_forall2) as Hi. rewrite (imap_same _ (input t) (input u)); [|by intros k a b [-> ->]|apply same_forall2].
  do 2 f_equal. destruct (anyone_can_pay_flag n); [|done].
  destruct (input t !! i) as [a|], (input u !! i) as [b|]; [|done..]. cbn [from_option]. by destruct Hi as [-> ->].
Qed.

Lemma respond_same r : respond r t = respond r u.
Proof.
  destruct r; cbn [respond]; rewrite ?bip341_same, ?bip143_same, ?legacy_same, ?same_length; try done.
  - destruct (p2wpkh_script_code _); [|done]. by rewrite bip143_same.
  - destruct same_pieces as (_ & _ & _ & _ & _ & ->). done.
Qed.
End Same.

Section Serve.
Context `{!PublicKeyLaws} (ps : list TxOut) (Hps : Forall script_fits ps).

(** A cache that serves transaction [t]. *)
Record serving (t : Transaction) (c : SighashCache) : Prop := {
  sv_cache : cache_ok ps c;
  sv_wf : tx_wf (sc_tx c);
  sv_same : same_but_witnesses t (sc_tx c) }.

Lemma hash_computes {E} (t : Transaction) eng finish (m : signing E unit) (r : result E (list byte)) c :
  serving t c → computes ps (sc_tx c) m (of_result r) →
  ∃ c', hash_signing eng finish m c = Some (c', result_map (λ bs, finish (HashEngine.input eng bs)) r) ∧ serving t c'.
Proof.
  intros [Hc Hwf Hsame] Hm. specialize (Hm c eq_refl Hc). unfold hash_signing. destruct (m c) as [[c' bs] out].
  destruct Hm as (Ht & Hc' & Hr). exists c'. split; [|by constructor; [done|rewrite Ht..]].
  destruct r as [bs'|e]; cbn [of_result w_bytes] in Hr; [by destruct Hr as [-> ->]|by subst out].
Qed.

Lemma tap_hash bs : from_engine (HashEngine.input (tag_engine TAP_SIGHASH) bs) = tagged_hash TAP_SIGHASH bs.
Proof. reflexivity. Qed.

Lemma outputs_fit (t : Transaction) : tx_wf t → Forall script_fits (output t).
Proof. intros [_ _ _ _ [Ho _] _ _]. eapply Forall_impl; [exact Ho|]. by intros o []. Qed.

Lemma serve_taproot t c i prevouts annex ext ty :
  serving t c → prevouts_ok ps prevouts → from_option fits_u64 True annex →
  ∃ c', hash_signing (tag_engine TAP_SIGHASH) from_engine (taproot_encode_signing_data_to i prevouts annex ext ty) c
        = Some (c', result_map (tagged_hash TAP_SIGHASH) (bip341 t i prevouts annex ext (Tap.to_u8 ty))) ∧ serving t c'.
Proof.
  intros Hsv Hpo Han. rewrite (bip341_same t (sc_tx c) (sv_same _ _ Hsv)).
  apply (hash_computes t _ _ _ _ c Hsv). apply taproot_refines; try done. apply outputs_fit, Hsv.
Qed.

Lemma serve_segwit t c i sc v ty :
  serving t c → fits_u64 sc →
  ∃ c', hash_signing engine_default sha256d_from_engine (segwit_v0_encode_signing_data_to i sc v ty) c
        = Some (c', result_map sha256d_hash (bip143 t i sc v (Ecdsa.to_u32 ty))) ∧ serving t c'.
Proof.
  intros Hsv Hsc. rewrite (bip143_same t (sc_tx c) (sv_same _ _ Hsv)).
  change sha256d_hash with (λ bs, sha256d_from_engine (HashEngine.input engine_default bs)).
  apply (hash_computes t engine_default sha256d_from_engine _ _ c Hsv). apply segwit_refines; try done. apply outputs_fit, Hsv.
Qed.

Lemma serve_legacy t c i sc n :
  serving t c → fits_u64 sc →
  legacy_signature_hash c i sc n =
    Some (if decide (i < length (input t))%nat then
            if single_flag 0x1f n && (length (output t) <=? i)%nat then Ok UINT256_ONE
            else Ok (sha256d_hash (legacy_message t i sc n))
          else Err (i, length (input t))).
Proof.
  intros [_ Hwf Hsame] Hsc. unfold legacy_signature_hash.
  change sha256d_hash with (λ bs, sha256d_from_engine (HashEngine.input engine_default bs)).
  generalize sha256d_from_engine. intros finish. rewrite legacy_refines by done.
  rewrite (legacy_same _ _ Hsame), (same_length _ _ Hsame). destruct (same_pieces _ _ Hsame) as (_ & _ & _ & _ & _ & ->).
  destruct (input (sc_tx c) !! i) eqn:Hi.
  - rewrite decide_True by (by eapply lookup_lt_Some). destruct (single_flag 31 n && _); reflexivity.
  - rewrite decide_False by (apply lookup_ge_None in Hi; lia). done.
Qed.

Lemma p2wpkh_code_fits s sc : p2wpkh_script_code s = Some sc → fits_u64 sc.
Proof.
  unfold p2wpkh_script_code. destruct (is_p2wpkh s) eqn:Hp; [|done]. rewrite script_code_p2pkh.
  unfold is_p2wpkh in Hp. apply andb_true_iff in Hp as [[Hl _]%andb_true_iff _]. apply Nat.eqb_eq in Hl.
  intros Hsc. apply template_p2pkh in Hsc as ->; [|rewrite length_drop; lia].
  unfold fits_u64. rewrite !length_app, length_drop, Hl. cbn. lia.
Qed.

Lemma serve_witness t c i w :
  serving t c → witness_wf w →
  ∃ c', serve (RWitness i w) c = Some (c', AWitness (bool_decide (i < length (input t))%nat)) ∧ serving t c'.
Proof.
  intros Hsv Hw. cbn [serve]. unfold witness_mut. rewrite (same_length _ _ (sv_same _ _ Hsv)).
  destruct (input (sc_tx c) !! i) as [txin|] eqn:Hi; cbn [mbind option_bind].
  2:{ exists c. rewrite bool_decide_eq_false_2; [done|]. apply lookup_ge_None in Hi. lia. }
  eexists. rewrite bool_decide_eq_true_2 by by eapply lookup_lt_Some. split; [done|].
  destruct Hsv as [[Hf Hc Hs Ht] Hwf Hsame]. set (tx := {| Transaction.version := _ |}).
  assert (map bare (input (sc_tx c)) = map bare (input tx)) as Hbare.
  { unfold tx. cbn [input]. change (map bare) with (fmap (M := list) bare). rewrite list_fmap_insert. symmetry.
    apply list_insert_id. rewrite list_lookup_fmap, Hi. by destruct txin. }
  assert (same_but_witnesses (sc_tx c) tx) as Htx by (split_and!; [reflexivity|reflexivity|exact Hbare|reflexivity..]).
  assert (common_of (sc_tx c) = common_of tx ∧ segwit_of (sc_tx c) = segwit_of tx) as [Hcm Hsg].
  { destruct (same_pieces _ _ Htx) as (_ & _ & Hp & Hq & Ha & _). unfold common_of, segwit_of. rewrite Hp, Hq, Ha. split; reflexivity. }
  constructor.
  - constructor; cbn [sc_tx sc_common sc_segwit sc_taproot]; [exact Hf| | |exact Ht]; intros cc Hcc; fold tx.
    + apply (eq_trans (Hc cc Hcc)). exact Hcm.
    + apply (eq_trans (Hs cc Hcc)). exact Hsg.
  - destruct Hwf as [H1 H2 [H3 H3'] H4 H5 H6 H7]. cbn [sc_tx]. fold tx.
    constructor; [exact H1|exact H2| | |exact H5|exact H6|exact H7]; unfold tx; cbn [input].
    + split; [|by rewrite length_insert]. apply Forall_insert; [done|].
      destruct (Forall_lookup_1 _ _ _ _ H3 Hi). by constructor.
    + by apply Forall_insert.
  - cbn [sc_tx]. fold tx. destruct Hsame as (E1 & E2 & E3 & E4). exact (conj E1 (conj E2 (conj (eq_trans E3 Hbare) E4))).
Qed.

Lemma serve_ok t c r :
  serving t c → request_ok ps r → ∃ c', serve r c = Some (c', respond r t) ∧ serving t c'.
Proof.
  intros Hsv Hr. destruct r; cbn [request_ok serve respond] in *.
  - destruct Hr as [Hp Ha]. destruct (serve_taproot t c i prevouts annex ext ty Hsv Hp Ha) as (c' & E & Hc').
    exists c'. unfold taproot_signature_hash. by rewrite E.
  - destruct (serve_taproot t c i prevouts None None ty Hsv Hr I) as (c' & E & Hc').
    exists c'. unfold taproot_key_spend_signature_hash. by rewrite E.
  - destruct (serve_taproot t c i prevouts None (Some (leaf_hash, U32_MAX)) ty Hsv Hr I) as (c' & E & Hc').
    exists c'. unfold taproot_script_spend_signature_hash. change 0xFFFFFFFF with U32_MAX. by rewrite E.
  - unfold p2wpkh_signature_hash. destruct (p2wpkh_script_code script_pubkey) as [sc|] eqn:Hsc; [|by exists c].
    destruct (serve_segwit t c i sc value ty Hsv (p2wpkh_code_fits _ _ Hsc)) as (c' & E & Hc'). exists c'. by rewrite E.
  - destruct (serve_segwit t c i witness_script value ty Hsv Hr) as (c' & E & Hc'). exists c'.
    unfold p2wsh_signature_hash. by rewrite E.
  - exists c. by rewrite (serve_legacy t c i script_pubkey ty Hsv Hr).
  - by apply serve_witness.
Qed.
End Serve.

(** C5: The cache is transparent. Whatever signature hashes of a well-formed transaction are asked for, in any order and
    with witnesses written in between, none panics and each answer is that of the message of BIP341,
    BIP143 or the legacy algorithm, computed from the transaction without a cache: the tagged hash or double
    hash of those bytes, or the error for the first argument that does not fit (the legacy
    [SIGHASH_SINGLE] without an output gives the hash one). The transaction keeps everything but its
    witnesses. All requests with several prevouts give the same ones. *)
Theorem sighash_cache_transparent `{!PublicKeyLaws} t ps rs :
  tx_wf t → Forall txout_wf ps → Forall (request_ok ps) rs →
  ∃ c, serve_all rs (cache_new t) = Some (c, map (λ r, respond r t) rs) ∧ same_but_witnesses t (sc_tx c).
Proof.
  intros Hwf Hps Hrs. assert (Forall script_fits ps) as Hfit by (eapply Forall_impl; [exact Hps|]; by intros o []).
  assert (serving ps t (cache_new t)) as Hsv by (constructor; [constructor; try done; by apply outputs_fit|done|done]).
  revert Hsv. generalize (cache_new t). induction Hrs as [|r rs Hr _ IH]; intros c Hsv.
  - exists c. by destruct Hsv.
  - destruct (serve_ok ps Hfit t c r Hsv Hr) as (c' & E & Hsv'). destruct (IH c' Hsv') as (c'' & E' & Hsame).
    exists c''. cbn [serve_all map]. rewrite E. cbn [mbind option_bind]. rewrite E'. done.
Qed.
End Refinement.

(** Hash types. Bytes and strings of taproot types, and standard numbers and strings of ECDSA types, are read back, and
    nothing else is read; any 32-bit number read by the consensus rule gives the type with its
    [ANYONECANPAY] bit and with its low five bits, where only 2 and 3 differ from [ALL]. *)
Theorem sighash_types :
  (∀ n ty, Tap.from_consensus_u8 n = Ok ty ↔ n = Tap.to_u8 ty) ∧
  (∀ n ty, Ecdsa.from_standard n = Ok ty ↔ n = Ecdsa.to_u32 ty) ∧
  (∀ s ty, Tap.from_str s = Ok ty ↔ s = Tap.to_string ty) ∧
  (∀ s ty, Ecdsa.from_str s = Ok ty ↔ s = Ecdsa.to_string ty) ∧
  (∀ n, Ecdsa.split_anyonecanpay_flag (Ecdsa.from_consensus n) =
    (if Z.land n 0x1f =? 2 then Ecdsa.None else if Z.land n 0x1f =? 3 then Ecdsa.Single else Ecdsa.All, Z.testbit n 7)).
Proof.
  split_and!.
  - intros n ty. unfold Tap.from_consensus_u8. repeat case_if; split; intros E;
      first [injection E as <-; cbn; lia|destruct ty; cbn in *; (reflexivity || lia)|done].
  - intros n ty. unfold Ecdsa.from_standard. repeat case_if; split; intros E;
      first [injection E as <-; cbn; lia|destruct ty; cbn in *; (reflexivity || lia)|done].
  - intros s ty. split; [|intros ->; by destruct ty]. unfold Tap.from_str.
    repeat match goal with |- context [String.eqb s ?x] =>
      destruct (String.eqb_spec s x); [intros [= <-]; assumption|] end. done.
  - intros s ty. split; [|intros ->; by destruct ty]. unfold Ecdsa.from_str.
    repeat match goal with |- context [String.eqb s ?x] =>
      destruct (String.eqb_spec s x); [intros [= <-]; assumption|] end. done.
  - intros n. pose proof (consensus_flags n) as Hf. destruct (Ecdsa.split_anyonecanpay_flag _) as [ty acp].
    destruct Hf as (-> & -> & _). done.
Qed.

(** ** Witnesses and findings *)

Definition sample_requests : list request :=
  [RKeySpend 0 (All [sample_txout]) Tap.Default; RWitness 0 witness_new;
   RScriptSpend 0 (One 0 sample_txout) (replicate 32 x01) Tap.SinglePlusAnyoneCanPay; RLegacy 0 [x51] 3;
   RP2wsh 0 [x51] 5 Ecdsa.All].

Lemma sighash_cache_transparent_witness :
  ∃ c, serve_all (H := PlainKeys.plain_keys) sample_requests (cache_new (sample_tx (H := PlainKeys.plain_keys)))
       = Some (c, map (λ r, respond r (sample_tx (H := PlainKeys.plain_keys))) sample_requests) ∧
    same_but_witnesses (sample_tx (H := PlainKeys.plain_keys)) (sc_tx c).
Proof.
  apply (sighash_cache_transparent (H0 := PlainKeys.plain_keys_laws) sample_tx [sample_txout]).
  - apply sample_tx_wf.
  - repeat constructor; cbn; unfold urange, fits_u64; cbn; lia.
  - repeat constructor; cbn; try lia. by exists [].
Defined.

(** Two steps that do the same when the taproot part is [tc], and keep it. *)
Definition agree `{PublicKeys} {E A} (tc : TaprootCache) (m m' : signing E A) : Prop :=
  ∀ c, sc_taproot c = Some tc → m c = m' c ∧ sc_taproot (m c).1.1 = Some tc.

Lemma agree_bind `{PublicKeys} {E A B} tc (m m' : signing E A) (k k' : A → signing E B) :
  agree tc m m' → (∀ a, agree tc (k a) (k' a)) → agree tc (s_bind m k) (s_bind m' k').
Proof.
  intros Hm Hk c Hc. unfold s_bind. destruct (Hm c Hc) as [<- Hc']. destruct (m c) as [[c' bs] [a|e]]; [|done].
  cbn [fst] in Hc'. destruct (Hk a c' Hc') as [<- Hc'']. by destruct (k a c') as [[c'' bs'] r].
Qed.

Lemma agree_bind_ret `{PublicKeys} {E A B} tc a a' (k k' : A → signing E B) :
  agree tc (k a) (k' a') → agree tc (s_bind (s_ret a) k) (s_bind (s_ret a') k').
Proof.
  intros Hk c Hc. destruct (Hk c Hc) as [E1 E2]. unfold s_bind, s_ret. rewrite <- E1.
  by destruct (k a c) as [[c' bs] r].
Qed.

Lemma bind_get `{PublicKeys} {E A} (k : Transaction → signing E A) c : s_bind s_get k c = k (sc_tx c) c.
Proof. unfold s_bind. cbn. by destruct (k (sc_tx c) c) as [[c' bs] r]. Qed.

Ltac agree_step :=
  lazymatch goal with
  | |- agree _ (s_bind (s_ret _) _) _ => apply agree_bind_ret; cbv beta
  | |- agree _ (s_bind _ _) _ => apply agree_bind; [|intros ?]
  | |- agree _ (if ?b then _ else _) _ => destruct b
  | |- agree _ (match ?o with Some _ => _ | None => _ end) _ => destruct o
  | |- agree _ (let '(_, _) := ?p in _) _ => destruct p
  | |- agree _ (s_lift (ok_or ?o _)) _ => destruct o; cbn [ok_or s_lift]
  end.

(** A cache filled with some prevouts answers with them whatever prevouts come later. *)
Lemma stale_prevouts `{PublicKeys} c tc ps ps' i annex ext ty :
  sc_taproot c = Some tc → length ps = length (input (sc_tx c)) → length ps' = length (input (sc_tx c)) →
  anyone_can_pay_flag (Tap.to_u8 ty) = false →
  taproot_encode_signing_data_to i (All ps) annex ext ty c = taproot_encode_signing_data_to i (All ps') annex ext ty c.
Proof.
  intros Htc Hl Hl' Hacp. pose proof (tap_flags ty) as Hf. unfold taproot_encode_signing_data_to.
  destruct (Tap.split_anyonecanpay_flag ty) as [sighash acp]. destruct Hf as (-> & _ & _). rewrite Hacp, !bind_get.
  cbn [check_all get_all ok_or s_lift negb]. rewrite Hl, Hl', Nat.eqb_refl.
  assert (∀ m m' : signing TaprootError unit, agree tc m m' → m c = m' c) as Hagree by (intros m m' Hm; by apply Hm).
  apply Hagree. clear Hagree Htc Hl Hl' Hacp. generalize (sc_tx c). clear c. intros tx.
  repeat agree_step; intros c Hc.
  all: lazymatch goal with
       | |- context [s_write ?w] => split; [reflexivity|]; unfold s_write; destruct w as [[? ?]|]; exact Hc
       | |- context [common_cache] => split; [reflexivity|]; unfold common_cache; destruct (sc_common c); exact Hc
       | |- context [taproot_cache] => unfold taproot_cache; rewrite Hc; split; [reflexivity|exact Hc]
       | |- _ => split; [reflexivity|exact Hc]
       end.
Qed.

(** Without [ANYONECANPAY] the index is not looked up: an input that does not exist has a hash. *)
Lemma taproot_index_unchecked `{PublicKeys} (t : Transaction) ps i annex ext :
  length ps = length (input t) → ∃ m, bip341 t i (All ps) annex ext (Tap.to_u8 Tap.Default) = Ok m.
Proof.
  intros Hl. unfold bip341. cbn [check_all]. rewrite Hl, Nat.eqb_refl. cbn [negb].
  change (anyone_can_pay_flag (Tap.to_u8 Tap.Default)) with false. change (single_flag 3 (Tap.to_u8 Tap.Default)) with false.
  cbn [get_all ok_or result_bind]. eexists. reflexivity.
Qed.
