(* ===== verification/SipHash.v ===== *)
(** SipHash-2-4 ([src/hashes/src/siphash24.rs]): the streaming engine with its
    tail of unprocessed bytes, and that it computes the SipHash of everything it
    was given. *)

From Stdlib Require Import String ZArith Lia.
From stdpp Require Import base list.
From Stdlib Require Import Init.Byte.
From coqutil Require Import Byte Word.LittleEndianList.
From S2P Require Import Prelude.

Definition wrapping_add64 (x y : Z) : Z := uwrap 64 (x + y).
Definition rotate_left64 (x n : Z) : Z := Z.lor (uwrap 64 (Z.shiftl x n)) (Z.shiftr x (64 - n)).

Record State := { v0 : Z; v2 : Z; v1 : Z; v3 : Z }.

(** [compress!] *)
Definition sip_compress (state : State) : State :=
  let '{| v0 := v0; v1 := v1; v2 := v2; v3 := v3 |} := state in
  let v0 := wrapping_add64 v0 v1 in
  let v1 := rotate_left64 v1 13 in
  let v1 := Z.lxor v1 v0 in
  let v0 := rotate_left64 v0 32 in
  let v2 := wrapping_add64 v2 v3 in
  let v3 := rotate_left64 v3 16 in
  let v3 := Z.lxor v3 v2 in
  let v0 := wrapping_add64 v0 v3 in
  let v3 := rotate_left64 v3 21 in
  let v3 := Z.lxor v3 v0 in
  let v2 := wrapping_add64 v2 v1 in
  let v1 := rotate_left64 v1 17 in
  let v1 := Z.lxor v1 v2 in
  let v2 := rotate_left64 v2 32 in
  {| v0 := v0; v1 := v1; v2 := v2; v3 := v3 |}.

Record SipEngine := { k0 : Z; k1 : Z; sip_length : Z; state : State; tail : Z; ntail : nat }.

Definition initial (k0 k1 : Z) : State :=
  {| v0 := Z.lxor k0 0x736f6d6570736575; v1 := Z.lxor k1 0x646f72616e646f6d;
     v2 := Z.lxor k0 0x6c7967656e657261; v3 := Z.lxor k1 0x7465646279746573 |}.

Definition with_keys (k0 k1 : Z) : SipEngine :=
  {| k0 := k0; k1 := k1; sip_length := 0; state := initial k0 k1; tail := 0; ntail := 0 |}.

Definition c_rounds (state : State) : State := sip_compress (sip_compress state).
Definition d_rounds (state : State) : State := sip_compress (sip_compress (sip_compress (sip_compress state))).

Definition xor_v3 (m : Z) (s : State) : State := {| v0 := v0 s; v1 := v1 s; v2 := v2 s; v3 := Z.lxor (v3 s) m |}.
Definition xor_v0 (m : Z) (s : State) : State := {| v0 := Z.lxor (v0 s) m; v1 := v1 s; v2 := v2 s; v3 := v3 s |}.
Definition xor_v2 (m : Z) (s : State) : State := {| v0 := v0 s; v1 := v1 s; v2 := Z.lxor (v2 s) m; v3 := v3 s |}.

(** [load_int_le!] of an integer of [n] bytes *)
Definition load_int_le (n : nat) (buf : list byte) (i : nat) : Z := le_combine (take n (drop i buf)).

Definition u8to64_le (buf : list byte) (start len : nat) : Z :=
  let i := 0%nat in
  let out := 0 in
  let '(i, out) := if (i + 3 <? len)%nat then (i + 4, load_int_le 4 buf (start + i))%nat else (i, out) in
  let '(i, out) :=
    if (i + 1 <? len)%nat then ((i + 2)%nat, Z.lor out (uwrap 64 (Z.shiftl (load_int_le 2 buf (start + i)) (Z.of_nat i * 8)))) else (i, out) in
  if (i <? len)%nat then Z.lor out (uwrap 64 (Z.shiftl (load_int_le 1 buf (start + i)) (Z.of_nat i * 8))) else out.

(** [while i < len - left]: eight bytes at a time. *)
Fixpoint block_loop (fuel : nat) (msg : list byte) (i stop : nat) (s : State) : nat * State :=
  match fuel with
  | O => (i, s)
  | S fuel =>
      if (i <? stop)%nat then
        let mi := load_int_le 8 msg i in
        block_loop fuel msg (i + 8) stop (xor_v0 mi (c_rounds (xor_v3 mi s)))
      else (i, s)
  end.

Definition sip_input (e : SipEngine) (msg : list byte) : SipEngine :=
  let length := length msg in
  let sip_length := uwrap 64 (sip_length e + Z.of_nat length) in
  let rest (needed : nat) (s : State) :=
    let len := (length - needed)%nat in
    let left := Nat.land len 7 in
    let '(i, s) := block_loop len msg needed (len - left) s in
    {| k0 := k0 e; k1 := k1 e; sip_length := sip_length; state := s; tail := u8to64_le msg i left; ntail := left |} in
  if negb (Nat.eqb (ntail e) 0) then
    let needed := (8 - ntail e)%nat in
    let tail := Z.lor (tail e) (uwrap 64 (Z.shiftl (u8to64_le msg 0 (Nat.min length needed)) (8 * Z.of_nat (ntail e)))) in
    if (length <? needed)%nat then
      {| k0 := k0 e; k1 := k1 e; sip_length := sip_length; state := state e; tail := tail; ntail := (ntail e + length)%nat |}
    else rest needed (xor_v0 tail (c_rounds (xor_v3 tail (state e))))
  else rest 0%nat (state e).

Definition from_engine_to_u64 (e : SipEngine) : Z :=
  let b := Z.lor (uwrap 64 (Z.shiftl (Z.land (sip_length e) 0xff) 56)) (tail e) in
  let s := xor_v0 b (c_rounds (xor_v3 b (state e))) in
  let s := d_rounds (xor_v2 0xff s) in
  Z.lxor (Z.lxor (Z.lxor (v0 s) (v1 s)) (v2 s)) (v3 s).

Definition hash_to_u64_with_keys (k0 k1 : Z) (data : list byte) : Z := from_engine_to_u64 (sip_input (with_keys k0 k1) data).
Definition from_u64 (hash : Z) : list byte := le_split 8 hash.
Definition as_u64 (hash : list byte) : Z := le_combine hash.
Definition sip_from_engine (e : SipEngine) : list byte := from_u64 (from_engine_to_u64 e).
Definition hash_with_keys (k0 k1 : Z) (data : list byte) : list byte := sip_from_engine (sip_input (with_keys k0 k1) data).

(** ** Reference *)

(** A word of the message goes in around two rounds. *)
Definition sip_block (s : State) (m : Z) : State := xor_v0 m (c_rounds (xor_v3 m s)).

(** The whole words of a message, little-endian, and the last one with the length. *)
Definition word (msg : list byte) (i : nat) : Z := le_combine (take 8 (drop (8 * i) msg)).
Definition words (msg : list byte) : list Z := word msg <$> seq 0 (length msg / 8).
Definition last_word (msg : list byte) : Z :=
  le_combine (drop (8 * (length msg / 8)) msg) + 2 ^ 56 * (Z.of_nat (length msg) mod 256).

Definition siphash_spec (k0 k1 : Z) (msg : list byte) : Z :=
  let s := foldl sip_block (initial k0 k1) (words msg ++ [last_word msg]) in
  let s := d_rounds (xor_v2 0xff s) in
  Z.lxor (Z.lxor (Z.lxor (v0 s) (v1 s)) (v2 s)) (v3 s).

(** ** The engine and the message *)

Lemma le_combine_shift_small bs k :
  (length bs + k <= 8)%nat → uwrap 64 (Z.shiftl (le_combine bs) (8 * Z.of_nat k)) = Z.shiftl (le_combine bs) (8 * Z.of_nat k).
Proof.
  intros Hk. apply uwrap_small. unfold urange. rewrite Z.shiftl_mul_pow2 by lia.
  pose proof (le_combine_range bs) as [H1 H2]. split; [apply Z.mul_nonneg_nonneg; [done|apply Z.pow_nonneg; lia]|].
  eapply Z.lt_le_trans; [apply Z.mul_lt_mono_pos_r; [apply Z.pow_pos_nonneg; lia|exact H2]|].
  rewrite <- Z.pow_add_r by lia. apply Z.pow_le_mono_r; lia.
Qed.

(** Bytes shifted in after bytes. *)
Lemma le_combine_lor a b :
  (length a + length b <= 8)%nat →
  Z.lor (le_combine a) (uwrap 64 (Z.shiftl (le_combine b) (8 * Z.of_nat (length a)))) = le_combine (a ++ b).
Proof. intros Hl. rewrite le_combine_shift_small by lia. rewrite le_combine_app. do 2 f_equal. lia. Qed.

Lemma load_step l i n :
  (i + n <= 8)%nat → (i + n <= length l)%nat →
  Z.lor (le_combine (take i l)) (uwrap 64 (Z.shiftl (le_combine (take n (drop i l))) (Z.of_nat i * 8))) = le_combine (take (i + n) l).
Proof.
  intros H8 Hl. rewrite <- take_take_drop. replace (Z.of_nat i * 8) with (8 * Z.of_nat (length (take i l))) by (rewrite length_take; lia).
  apply le_combine_lor. rewrite !length_take, length_drop. lia.
Qed.

(** [u8to64_le] is the little-endian number of up to seven bytes. *)
Lemma u8to64_le_spec buf start len :
  (len < 8)%nat → (start + len <= length buf)%nat → u8to64_le buf start len = le_combine (take len (drop start buf)).
Proof.
  intros Hl Hb. unfold u8to64_le, load_int_le. set (l := drop start buf).
  assert (∀ n i, take n (drop (start + i) buf) = take n (drop i l)) as Hd by (intros; subst l; by rewrite drop_drop).
  assert (len <= length l)%nat as Hlen by (subst l; rewrite length_drop; lia).
  pose proof (λ n i, load_step l i n) as Hs. pose proof (λ n, load_step l 0 n : _ → _ → Z.lor 0 _ = _) as Hs0.
  do 8 (try destruct len as [|len]); try lia; cbn [Nat.add Nat.ltb Nat.leb]; rewrite ?Hd.
  - done.
  - by rewrite Hs0 by lia.
  - by rewrite Hs0 by lia.
  - rewrite Hs0 by lia. cbn [Nat.add]. by rewrite (Hs 1 2)%nat by lia.
  - by rewrite drop_0.
  - by rewrite drop_0, (Hs 1 4)%nat by lia.
  - by rewrite drop_0, (Hs 2 4)%nat by lia.
  - rewrite drop_0, (Hs 2 4)%nat by lia. cbn [Nat.add]. by rewrite (Hs 1 6)%nat by lia.
Qed.

(** *** The words of a message *)

Lemma words_app a b : (length a mod 8 = 0)%nat → words (a ++ b) = words a ++ words b.
Proof.
  intros Ha. pose proof (Nat.div_mod_eq (length a) 8) as Hd. rewrite Ha, Nat.add_0_r in Hd. set (n := (length a / 8)%nat) in *.
  unfold words. rewrite length_app. replace ((length a + length b) / 8)%nat with (n + length b / 8)%nat.
  2:{ rewrite Hd, (Nat.mul_comm 8), Nat.div_add_l by lia. done. }
  fold n. rewrite seq_app, fmap_app. f_equal.
  - apply list_fmap_ext. intros i x Hi. apply lookup_seq in Hi as [-> Hi]. unfold word. rewrite drop_app_le by lia.
    rewrite take_app_le; [done|]. rewrite length_drop. lia.
  - rewrite Nat.add_0_l. replace (seq n (length b / 8)) with (Nat.add n <$> seq 0 (length b / 8)) by (rewrite fmap_add_seq; f_equal; lia). rewrite <- list_fmap_compose. apply list_fmap_ext. intros i x _. change (word (a ++ b) (n + x) = word b x). unfold word.
    rewrite drop_app_ge by lia. do 3 f_equal. lia.
Qed.

Lemma words_short a : (length a < 8)%nat → words a = [].
Proof. intros Ha. unfold words. by rewrite Nat.div_small. Qed.

Lemma words_eight a : length a = 8%nat → words a = [le_combine a].
Proof. intros Ha. unfold words. rewrite Ha. change (word a <$> seq 0 (8 / 8)) with [word a 0]. unfold word. change (8 * 0)%nat with 0%nat. by rewrite drop_0, take_ge by lia. Qed.

(** The engine has been given exactly [m]. *)
Record sip_holds (a b : Z) (e : SipEngine) (m : list byte) : Prop := {
  sip_keys : k0 e = a ∧ k1 e = b;
  sip_len : sip_length e = uwrap 64 (Z.of_nat (length m));
  sip_state : state e = foldl sip_block (initial a b) (words m);
  sip_ntail : ntail e = (length m mod 8)%nat;
  sip_tail : tail e = le_combine (drop (8 * (length m / 8)) m) }.

Lemma with_keys_holds a b : sip_holds a b (with_keys a b) [].
Proof. by constructor. Qed.

(** The loop takes the whole words that are left. *)
Lemma block_loop_spec n fuel msg i stop s :
  (n <= fuel)%nat → (stop <= i + 8 * n < stop + 8)%nat → (i + 8 * n <= length msg)%nat →
  block_loop fuel msg i stop s = ((i + 8 * n)%nat, foldl sip_block s (words (take (8 * n) (drop i msg)))).
Proof.
  revert fuel i s. induction n as [|n IH]; intros fuel i s Hf Hs Hl.
  { rewrite Nat.mul_0_r, Nat.add_0_r in *. cbn [take words]. destruct fuel; cbn [block_loop]; [done|].
    by rewrite (proj2 (Nat.ltb_ge _ _)) by lia. }
  destruct fuel as [|fuel]; [lia|]. cbn [block_loop]. rewrite (proj2 (Nat.ltb_lt _ _)) by lia.
  rewrite IH by lia. f_equal; [lia|]. replace (8 * S n)%nat with (8 + 8 * n)%nat by lia.
  assert (length (take 8 (drop i msg)) = 8)%nat as E by (rewrite length_take, length_drop; lia).
  rewrite <- take_take_drop, words_app, foldl_app by (by rewrite E). rewrite (words_eight _ E), drop_drop. done.
Qed.

(** From a whole number of words on. *)
Lemma sip_rest a b e m msg needed :
  k0 e = a → k1 e = b → sip_length e = uwrap 64 (Z.of_nat (length m)) → (needed <= length msg)%nat → (needed < 8)%nat →
  let m' := m ++ take needed msg in
  (length m' mod 8 = 0)%nat →
  let left := Nat.land (length msg - needed) 7 in
  let '(i, s) := block_loop (length msg - needed) msg needed (length msg - needed - left) (foldl sip_block (initial a b) (words m')) in
  sip_holds a b
    {| k0 := k0 e; k1 := k1 e; sip_length := uwrap 64 (sip_length e + Z.of_nat (length msg)); state := s;
       tail := u8to64_le msg i left; ntail := left |} (m ++ msg).
Proof.
  intros Ha Hb Hl Hn Hn8 m' Hm left. set (len := (length msg - needed)%nat) in *.
  assert (left = len mod 8)%nat as Hleft by (apply (Nat.land_ones len 3)).
  pose proof (Nat.div_mod_eq len 8) as Hd. pose proof (Nat.mod_upper_bound len 8 ltac:(lia)) as Hm8.
  rewrite (block_loop_spec (len / 8)) by lia. rewrite Hleft.
  assert (m ++ msg = m' ++ drop needed msg) as Emsg by (subst m'; by rewrite <- app_assoc, take_drop).
  assert (length (m ++ msg) = length m' + len)%nat as Elen by (rewrite Emsg, length_app, length_drop; done).
  pose proof (Nat.div_mod_eq (length m') 8) as Hdm. rewrite Hm, Nat.add_0_r in Hdm.
  assert (length (m ++ msg) / 8 = length m' / 8 + len / 8)%nat as Ediv.
  { rewrite Elen, Hdm, (Nat.mul_comm 8), Nat.div_add_l by lia. rewrite <- (Nat.mul_comm 8), <- Hdm. done. }
  assert (length (m ++ msg) mod 8 = len mod 8)%nat as Emod.
  { rewrite Elen, Hdm, Nat.add_comm, (Nat.mul_comm 8), Nat.Div0.mod_add. done. }
  assert (drop needed msg = take (8 * (len / 8)) (drop needed msg) ++ drop (needed + 8 * (len / 8)) msg) as Esplit.
  { rewrite <- drop_drop. by rewrite take_drop. }
  assert (length (take (8 * (len / 8)) (drop needed msg)) = 8 * (len / 8))%nat as Et by (rewrite length_take, length_drop; lia).
  constructor; cbn [k0 k1 sip_length state ntail tail].
  - done.
  - rewrite Hl, length_app, Nat2Z.inj_add. unfold uwrap. by rewrite Zplus_mod_idemp_l.
  - rewrite <- foldl_app. f_equal. rewrite Emsg, words_app by done. f_equal. rewrite Esplit at 2.
    rewrite words_app by (by rewrite Et, Nat.mul_comm, Nat.Div0.mod_mul).
    rewrite (words_short (drop _ _)); [by rewrite app_nil_r|]. rewrite length_drop. lia.
  - by rewrite Emod.
  - rewrite u8to64_le_spec by lia. rewrite Ediv, Emsg, drop_app_ge by lia.
    replace (8 * (length m' / 8 + len / 8) - length m')%nat with (8 * (len / 8))%nat by lia. rewrite drop_drop.
    rewrite take_ge; [done|]. rewrite length_drop. lia.
Qed.

(** The buffered bytes and those that complete them. *)
Lemma tail_complete m msg n :
  (n <= length msg)%nat → (length m mod 8 + n <= 8)%nat → (n < 8)%nat →
  Z.lor (le_combine (drop (8 * (length m / 8)) m)) (uwrap 64 (Z.shiftl (u8to64_le msg 0 n) (8 * Z.of_nat (length m mod 8)))) =
  le_combine (drop (8 * (length m / 8)) (m ++ take n msg)).
Proof.
  intros Hn Hm H8. pose proof (Nat.div_mod_eq (length m) 8) as Hd. rewrite u8to64_le_spec by lia. rewrite drop_0.
  assert (length (drop (8 * (length m / 8)) m) = length m mod 8)%nat as E by (rewrite length_drop; lia).
  rewrite <- E, le_combine_lor; [by rewrite drop_app_le by lia|]. rewrite E, length_take. lia.
Qed.

Lemma take_words_mod (m : list byte) : (length (take (8 * (length m / 8)) m) mod 8 = 0)%nat.
Proof.
  pose proof (Nat.div_mod_eq (length m) 8). rewrite length_take, Nat.min_l, Nat.mul_comm, Nat.Div0.mod_mul by lia. done.
Qed.

(** Fewer bytes than complete a word stay in the tail. *)
Lemma sip_short a b e m msg :
  sip_holds a b e m → (length m mod 8 + length msg < 8)%nat →
  sip_holds a b
    {| k0 := k0 e; k1 := k1 e; sip_length := uwrap 64 (sip_length e + Z.of_nat (length msg)); state := state e;
       tail := le_combine (drop (8 * (length m / 8)) (m ++ msg)); ntail := (length m mod 8 + length msg)%nat |} (m ++ msg).
Proof.
  intros [[Hk0 Hk1] Hl Hs Hn Ht] Hlt. pose proof (Nat.div_mod_eq (length m) 8) as Hd.
  assert (length (m ++ msg) / 8 = length m / 8)%nat as Ediv.
  { symmetry. apply Nat.div_unique with (length m mod 8 + length msg)%nat; [lia|]. rewrite length_app. lia. }
  constructor; cbn [k0 k1 sip_length state ntail tail].
  - done.
  - rewrite Hl, length_app, Nat2Z.inj_add. unfold uwrap. by rewrite Zplus_mod_idemp_l.
  - rewrite Hs. f_equal. rewrite <- (take_drop (8 * (length m / 8)) m) at 1 2. rewrite <- app_assoc, !(words_app _ _ (take_words_mod m)).
    f_equal. rewrite !words_short; [done|rewrite length_app, length_drop; lia|rewrite length_drop; lia].
  - pose proof (Nat.div_mod_eq (length (m ++ msg)) 8) as Hd'. rewrite Ediv, length_app in Hd'. rewrite length_app. lia.
  - by rewrite Ediv.
Qed.

Lemma sip_input_holds a b e m msg : sip_holds a b e m → sip_holds a b (sip_input e msg) (m ++ msg).
Proof.
  intros He. pose proof He as [[Hk0 Hk1] Hl Hs Hn Ht]. unfold sip_input. pose proof (Nat.div_mod_eq (length m) 8) as Hd.
  pose proof (Nat.mod_upper_bound (length m) 8 ltac:(lia)) as Hm8. rewrite Hn.
  destruct (Nat.eqb_spec (length m mod 8) 0) as [E0|E0]; cbn [negb].
  - pose proof (sip_rest a b e m msg 0 Hk0 Hk1 Hl ltac:(lia) ltac:(lia)) as Hr. cbv zeta in Hr.
    rewrite take_0, app_nil_r, <- Hs in Hr. specialize (Hr E0). rewrite ?Nat.sub_0_r in *. by destruct (block_loop _ _ _ _ _).
  - set (r := (length m mod 8)%nat) in *. set (n := Nat.min (length msg) (8 - r)). rewrite Ht.
    pose proof (tail_complete m msg n ltac:(lia) ltac:(lia) ltac:(lia)) as Hc. fold r in Hc. rewrite Hc. clear Hc.
    destruct (Nat.ltb_spec (length msg) (8 - r)) as [Hlt|Hge]; subst n.
    + rewrite Nat.min_l, take_ge by lia. apply (sip_short _ _ _ _ _ He). fold r. lia.
    + rewrite Nat.min_r by lia. set (m' := m ++ take (8 - r) msg).
      assert (length m' = 8 * (length m / 8) + 8)%nat as Elen by (subst m'; rewrite length_app, length_take; lia).
      assert (length m' mod 8 = 0)%nat as E8.
      { rewrite Elen, <- (Nat.mul_succ_r 8), Nat.mul_comm, Nat.Div0.mod_mul. done. }
      pose proof (sip_rest a b e m msg (8 - r) Hk0 Hk1 Hl ltac:(lia) ltac:(lia) E8) as Hr. cbv zeta in Hr. fold m' in Hr.
      replace (foldl sip_block (initial a b) (words m'))
        with (sip_block (state e) (le_combine (drop (8 * (length m / 8)) m'))) in Hr; [unfold sip_block in Hr at 1; by destruct (block_loop _ _ _ _ _)|].
      rewrite Hs. rewrite <- (take_drop (8 * (length m / 8)) m') at 2. rewrite <- (take_drop (8 * (length m / 8)) m) at 1.
      assert (take (8 * (length m / 8)) m' = take (8 * (length m / 8)) m) as -> by (subst m'; rewrite take_app_le; [done|lia]).
      rewrite !(words_app _ _ (take_words_mod m)), !foldl_app.
      rewrite (words_short (drop _ m)), (words_eight (drop _ m')) by (rewrite length_drop; lia). done.
Qed.

Lemma sip_inputs_hold a b e m chunks : sip_holds a b e m → sip_holds a b (foldl sip_input e chunks) (m ++ concat chunks).
Proof.
  revert e m. induction chunks as [|c cs IH]; intros e m He; cbn [foldl concat]; [by rewrite app_nil_r|].
  rewrite app_assoc. apply IH. by apply sip_input_holds.
Qed.

(** The length byte stands above the tail. *)
Lemma last_word_spec m :
  Z.lor (uwrap 64 (Z.shiftl (Z.land (uwrap 64 (Z.of_nat (length m))) 0xff) 56)) (le_combine (drop (8 * (length m / 8)) m)) = last_word m.
Proof.
  unfold last_word. set (t := drop _ m). pose proof (Nat.div_mod_eq (length m) 8) as Hd. pose proof (Nat.mod_upper_bound (length m) 8 ltac:(lia)).
  assert (length t <= 7)%nat as Hlt by (subst t; rewrite length_drop; lia).
  change 0xff with (Z.ones 8). rewrite Z.land_ones by lia. unfold uwrap at 2.
  replace ((Z.of_nat (length m) mod 2 ^ 64) mod 2 ^ 8) with (Z.of_nat (length m) mod 256).
  2:{ change (2 ^ 64) with (256 * 2 ^ 56). change (2 ^ 8) with 256. rewrite Z.rem_mul_r by lia. rewrite (Z.mul_comm 256), Z.mod_add, Z.mod_mod by lia. done. }
  pose proof (Z.mod_pos_bound (Z.of_nat (length m)) 256 ltac:(lia)) as Hb. set (l := Z.of_nat (length m) mod 256) in *.
  rewrite uwrap_small by (unfold urange; rewrite Z.shiftl_mul_pow2 by lia; lia).
  rewrite shiftl_lor_add; [lia|lia|]. pose proof (le_combine_range t) as [H1 H2]. split; [done|].
  eapply Z.lt_le_trans; [exact H2|]. apply Z.pow_le_mono_r; lia.
Qed.

Lemma from_engine_to_u64_holds a b e m : sip_holds a b e m → from_engine_to_u64 e = siphash_spec a b m.
Proof.
  intros [_ Hl Hs _ Ht]. unfold from_engine_to_u64, siphash_spec. rewrite Hl, Ht, last_word_spec, foldl_app, <- Hs. done.
Qed.

Lemma hash_to_u64_spec a b m : hash_to_u64_with_keys a b m = siphash_spec a b m.
Proof. apply from_engine_to_u64_holds, (sip_input_holds a b _ []), with_keys_holds. Qed.

(** ** Properties *)

(** The engine computes SipHash-2-4. Whatever the pieces in which a message
    is given, finishing it gives the reference value of the whole message: two
    rounds per little-endian word, the rest below the length byte in a last
    word, four rounds at the end. In particular hashing in one call or in many
    is the same. *)
Theorem siphash_engine_correct a b chunks :
  from_engine_to_u64 (foldl sip_input (with_keys a b) chunks) = siphash_spec a b (concat chunks) ∧
  hash_to_u64_with_keys a b (concat chunks) = siphash_spec a b (concat chunks).
Proof.
  split; apply from_engine_to_u64_holds.
  - apply (sip_inputs_hold a b _ []), with_keys_holds.
  - apply (sip_input_holds a b _ []), with_keys_holds.
Qed.

(** A vector of the reference implementation: keys 0 to 15, message 0 to 14. *)
Example siphash_vector :
  hash_to_u64_with_keys 0x0706050403020100 0x0f0e0d0c0b0a0908 (byte.of_Z <$> seqZ 0 15) = 0xa129ca6149be45e5.
Proof. vm_compute. reflexivity. Qed.
