(* ===== verification/BitStream.v ===== *)
(** Bit streams and Golomb-Rice coding ([src/litecoin/src/bip158.rs]): the bitwise
    reader and writer, the most significant bit first, and the coding of numbers
    as a unary quotient and a binary remainder. *)

From Stdlib Require Import String ZArith Lia ZifyBool.
From stdpp Require Import base list sets.
From Stdlib Require Import Init.Byte.
From coqutil Require Import Byte Word.LittleEndianList.
From S2P Require Import Prelude Io.

(** ** The writer *)

(** The wrapped writer is a vector: [out] is what has been written to it. *)
Record BitStreamWriter := { wbuffer : Z; woffset : nat; out : list byte }.

Definition writer_new (out : list byte) : BitStreamWriter := {| wbuffer := 0; woffset := 0; out := out |}.

Definition flush (self : BitStreamWriter) : nat * BitStreamWriter :=
  if (0 <? woffset self)%nat then (1%nat, {| wbuffer := 0; woffset := 0; out := out self ++ [byte.of_Z (wbuffer self)] |})
  else (0%nat, self).

(** [while nbits > 0]: every round writes a bit. *)
Fixpoint bit_write_loop (fuel : nat) (self : BitStreamWriter) (data : Z) (nbits wrote : nat) : nat * BitStreamWriter :=
  match fuel with
  | O => (wrote, self)
  | S fuel =>
      if (0 <? nbits)%nat then
        let bits := Nat.min (8 - woffset self) nbits in
        let shifted := Z.shiftr (uwrap 64 (Z.shiftl data (64 - Z.of_nat nbits))) (64 - 8 + Z.of_nat (woffset self)) in
        let self := {| wbuffer := Z.lor (wbuffer self) (uwrap 8 shifted); woffset := woffset self + bits; out := out self |} in
        let nbits := (nbits - bits)%nat in
        if Nat.eqb (woffset self) 8 then
          let '(n, self) := flush self in bit_write_loop fuel self data nbits (wrote + n)
        else bit_write_loop fuel self data nbits wrote
      else (wrote, self)
  end.

Definition bit_write (self : BitStreamWriter) (data : Z) (nbits : nat) : result io_error (nat * BitStreamWriter) :=
  if (64 <? nbits)%nat then Err (IoError Other (Some "can not write more than 64 bits at once"%string))
  else Ok (bit_write_loop nbits self data nbits 0).

(** ** The reader *)

Record BitStreamReader := { rbuffer : Z; roffset : nat; stream : list byte }.

Definition reader_new (stream : list byte) : BitStreamReader := {| rbuffer := 0; roffset := 8; stream := stream |}.

(** [read_exact] of one byte from a slice. *)
Definition refill (self : BitStreamReader) : result io_error BitStreamReader :=
  if Nat.eqb (roffset self) 8 then
    match stream self with
    | [] => Err (err_of_kind UnexpectedEof)
    | b :: stream => Ok {| rbuffer := byte.unsigned b; roffset := 0; stream := stream |}
    end
  else Ok self.

Fixpoint read_loop (fuel : nat) (self : BitStreamReader) (data : Z) (nbits : nat) : result io_error (Z * BitStreamReader) :=
  match fuel with
  | O => Ok (data, self)
  | S fuel =>
      if (0 <? nbits)%nat then
        let? self := refill self in
        let bits := Nat.min (8 - roffset self) nbits in
        let data := uwrap 64 (Z.shiftl data (Z.of_nat bits)) in
        let data := Z.lor data (Z.shiftr (uwrap 8 (Z.shiftl (rbuffer self) (Z.of_nat (roffset self)))) (8 - Z.of_nat bits)) in
        read_loop fuel {| rbuffer := rbuffer self; roffset := roffset self + bits; stream := stream self |} data (nbits - bits)
      else Ok (data, self)
  end.

Definition bit_read (self : BitStreamReader) (nbits : nat) : result io_error (Z * BitStreamReader) :=
  if (64 <? nbits)%nat then Err (IoError Other (Some "can not read more than 64 bits at once"%string))
  else read_loop nbits self 0 nbits.

(** ** Golomb-Rice coding *)

(** The amount of a shift of a [u64] by [self.p]: a release build keeps the low six bits
    of it.  (A debug build panics from 64 on.) *)
Definition shift_amount (p : nat) : Z := Z.of_nat p mod 64.

(** [while q > 0]: up to 64 ones at a time. *)
Fixpoint ones_loop (fuel : nat) (writer : BitStreamWriter) (q : Z) (wrote : nat) : result io_error (nat * BitStreamWriter) :=
  match fuel with
  | O => Ok (wrote, writer)
  | S fuel =>
      if q >? 0 then
        let nbits := Z.min q 64 in
        let? (n, writer) := bit_write writer U64_MAX (Z.to_nat nbits) in
        ones_loop fuel writer (q - nbits) (wrote + n)
      else Ok (wrote, writer)
  end.

Definition golomb_rice_encode (p : nat) (writer : BitStreamWriter) (n : Z) : result io_error (nat * BitStreamWriter) :=
  let q := Z.shiftr n (shift_amount p) in
  let? (wrote, writer) := ones_loop (Z.to_nat q) writer q 0 in
  let? (w1, writer) := bit_write writer 0 1 in
  let? (w2, writer) := bit_write writer n p in
  Ok ((wrote + w1 + w2)%nat, writer).

(** [while reader.read(1)? == 1]: no more rounds than bits left. *)
Fixpoint unary_loop (fuel : nat) (reader : BitStreamReader) (q : Z) : result io_error (Z * BitStreamReader) :=
  match fuel with
  | O => Ok (q, reader)
  | S fuel =>
      let? (b, reader) := bit_read reader 1 in
      if b =? 1 then unary_loop fuel reader (uwrap 64 (q + 1)) else Ok (q, reader)
  end.

Definition golomb_rice_decode (p : nat) (reader : BitStreamReader) : result io_error (Z * BitStreamReader) :=
  let? (q, reader) := unary_loop (8 * length (stream reader) + 9) reader 0 in
  let? (r, reader) := bit_read reader p in
  Ok (uwrap 64 (uwrap 64 (Z.shiftl q (shift_amount p)) + r), reader).

(** ** Streams as lists of bits *)

(** The [n] lowest bits of a number, the most significant first. *)
Fixpoint bits_of (n : nat) (v : Z) : list bool :=
  match n with O => [] | S n => Z.testbit v (Z.of_nat n) :: bits_of n v end.

Definition bits_val (bs : list bool) : Z := foldl (λ v b, 2 * v + b2z b) 0 bs.

Definition byte_bits (bs : list byte) : list bool := bs ≫= (λ b, bits_of 8 (byte.unsigned b)).

(** What has been written, and what is left to read. *)
Definition wbits (w : BitStreamWriter) : list bool := byte_bits (out w) ++ take (woffset w) (bits_of 8 (wbuffer w)).
Definition rbits (r : BitStreamReader) : list bool := drop (roffset r) (bits_of 8 (rbuffer r)) ++ byte_bits (stream r).

Record writer_ok (w : BitStreamWriter) : Prop := {
  w_offset : (woffset w < 8)%nat;
  w_range : 0 <= wbuffer w < 256;
  w_low : ∀ i, 0 <= i < 8 - Z.of_nat (woffset w) → Z.testbit (wbuffer w) i = false }.

Record reader_ok (r : BitStreamReader) : Prop := {
  r_offset : (roffset r <= 8)%nat;
  r_range : 0 <= rbuffer r < 256 }.

Lemma length_bits_of n v : length (bits_of n v) = n.
Proof. induction n as [|n IH]; [done|]. cbn. by rewrite IH. Qed.

Lemma bits_of_ext n v w : (∀ i, 0 <= i < Z.of_nat n → Z.testbit v i = Z.testbit w i) → bits_of n v = bits_of n w.
Proof. induction n as [|n IH]; intros Hi; [done|]. cbn. rewrite (Hi (Z.of_nat n)) by lia. f_equal. apply IH. intros i ?. apply Hi. lia. Qed.

Lemma bits_of_app a b v : bits_of (a + b) v = bits_of a (Z.shiftr v (Z.of_nat b)) ++ bits_of b v.
Proof.
  induction a as [|a IH]; [done|]. cbn. rewrite IH, Z.shiftr_spec by lia. do 2 f_equal. lia.
Qed.

Lemma length_byte_bits bs : length (byte_bits bs) = (8 * length bs)%nat.
Proof. unfold byte_bits. induction bs as [|b bs IH]; [done|]. rewrite bind_cons, length_app, IH, length_bits_of. cbn. lia. Qed.

Lemma bits_val_acc bs v : foldl (λ v b, 2 * v + b2z b) v bs = v * 2 ^ Z.of_nat (length bs) + bits_val bs.
Proof.
  unfold bits_val. revert v. induction bs as [|b bs IH]; intros v; cbn [foldl length]; [cbn; lia|].
  rewrite IH, (IH (2 * 0 + b2z b)), Nat2Z.inj_succ, Z.pow_succ_r by lia. ring.
Qed.

Lemma bits_val_app a b : bits_val (a ++ b) = bits_val a * 2 ^ Z.of_nat (length b) + bits_val b.
Proof. unfold bits_val at 1. rewrite foldl_app. apply bits_val_acc. Qed.

Lemma bits_val_range bs : 0 <= bits_val bs < 2 ^ Z.of_nat (length bs).
Proof.
  induction bs as [|b bs IH] using rev_ind; [cbn; lia|]. rewrite bits_val_app, length_app, Nat2Z.inj_add, Z.pow_add_r by lia.
  change (Z.of_nat (length [b])) with 1. change (bits_val [b]) with (b2z b). unfold b2z. destruct b; lia.
Qed.

Lemma bits_val_one b : bits_val [b] = b2z b.
Proof. by destruct b. Qed.

Lemma b2z_testbit v i : 0 <= i → b2z (Z.testbit v i) = (v / 2 ^ i) mod 2.
Proof. intros Hi. rewrite <- Z.testbit_spec' by done. by destruct (Z.testbit v i). Qed.

Lemma bits_val_bits_of n v : bits_val (bits_of n v) = v mod 2 ^ Z.of_nat n.
Proof.
  induction n as [|n IH]; [cbn; by rewrite Z.mod_1_r|]. change (bits_of (S n) v) with ([Z.testbit v (Z.of_nat n)] ++ bits_of n v).
  assert (0 < 2 ^ Z.of_nat n) by (apply Z.pow_pos_nonneg; lia).
  rewrite bits_val_app, length_bits_of, IH, Nat2Z.inj_succ, Z.pow_succ_r, (Z.mul_comm 2) by lia.
  rewrite Z.rem_mul_r, bits_val_one, b2z_testbit by lia. lia.
Qed.

Lemma take_bits_of a b v : take a (bits_of (a + b) v) = bits_of a (Z.shiftr v (Z.of_nat b)).
Proof. rewrite bits_of_app, take_app_length'; [done|]. by rewrite length_bits_of. Qed.

Lemma drop_bits_of a b v : drop a (bits_of (a + b) v) = bits_of b v.
Proof. rewrite bits_of_app, drop_app_length'; [done|]. by rewrite length_bits_of. Qed.

Lemma lor_urange w x y : 0 <= w → urange w x → urange w y → urange w (Z.lor x y).
Proof.
  intros Hw [Hx1 Hx2] [Hy1 Hy2]. split; [by apply Z.lor_nonneg|]. destruct (Z.eq_dec x 0) as [->|Hx]; [by rewrite Z.lor_0_l|].
  destruct (Z.eq_dec y 0) as [->|Hy]; [by rewrite Z.lor_0_r|].
  assert (0 <= Z.lor x y) by (by apply Z.lor_nonneg). assert (Z.lor x y ≠ 0) by (intros [? ?]%Z.lor_eq_0_iff; done).
  apply Z.log2_lt_pow2; [lia|]. rewrite Z.log2_lor by lia. apply Z.max_lub_lt; apply Z.log2_lt_pow2; lia.
Qed.

(** ** Writing *)

Lemma writer_new_ok bs : writer_ok (writer_new bs) ∧ wbits (writer_new bs) = byte_bits bs.
Proof.
  split; [constructor; cbn [woffset wbuffer writer_new]; [lia|lia|intros; apply Z.bits_0]|].
  unfold wbits. cbn [out woffset writer_new take]. by rewrite app_nil_r.
Qed.

(** The bits that a round of the loop adds to the buffer. *)
Lemma shifted_bits data nbits off i :
  (0 < nbits <= 64)%nat → 0 <= i →
  Z.testbit (uwrap 8 (Z.shiftr (uwrap 64 (Z.shiftl data (64 - Z.of_nat nbits))) (64 - 8 + Z.of_nat off))) i =
  (i <? 8 - Z.of_nat off) && Z.testbit data (i + Z.of_nat off + Z.of_nat nbits - 8).
Proof.
  intros Hn Hi. unfold uwrap. destruct (Z.ltb_spec i 8).
  - rewrite Z.mod_pow2_bits_low by lia. rewrite Z.shiftr_spec by lia. destruct (Z.ltb_spec i (8 - Z.of_nat off)).
    + rewrite Z.mod_pow2_bits_low, Z.shiftl_spec by lia. cbn [andb]. f_equal. lia.
    + rewrite Z.mod_pow2_bits_high by lia. done.
  - rewrite Z.mod_pow2_bits_high by lia. destruct (Z.ltb_spec i (8 - Z.of_nat off)); [lia|done].
Qed.

Lemma write_round buffer off data nbits :
  (off < 8)%nat → 0 <= buffer < 256 → (∀ i, 0 <= i < 8 - Z.of_nat off → Z.testbit buffer i = false) → (0 < nbits <= 64)%nat →
  let bits := Nat.min (8 - off) nbits in
  let buffer' := Z.lor buffer (uwrap 8 (Z.shiftr (uwrap 64 (Z.shiftl data (64 - Z.of_nat nbits))) (64 - 8 + Z.of_nat off))) in
  0 <= buffer' < 256 ∧
  take (off + bits) (bits_of 8 buffer') = take off (bits_of 8 buffer) ++ take bits (bits_of nbits data) ∧
  (∀ i, 0 <= i < 8 - Z.of_nat (off + bits) → Z.testbit buffer' i = false).
Proof.
  intros Ho Hb Hlow Hn bits. set (x := uwrap 8 _). intros buffer'.
  assert (∀ i, 0 <= i → Z.testbit buffer' i =
    Z.testbit buffer i || ((i <? 8 - Z.of_nat off) && Z.testbit data (i + Z.of_nat off + Z.of_nat nbits - 8))) as Hbit.
  { intros i Hi. subst buffer' x. by rewrite Z.lor_spec, shifted_bits. }
  refine (conj _ (conj _ _)).
  - assert (0 <= x < 256) by (apply (Z.mod_pos_bound _ 256); lia). subst buffer'.
    apply (lor_urange 8); unfold urange; lia.
  - set (rest := (8 - off - bits)%nat). replace 8%nat with (off + bits + rest)%nat at 1 by lia. rewrite take_bits_of, bits_of_app. f_equal.
    + replace 8%nat with (off + (bits + rest))%nat by lia. rewrite take_bits_of. apply bits_of_ext. intros i Hi.
      rewrite !Z.shiftr_spec by lia. rewrite Hbit by lia. rewrite (proj2 (Z.ltb_ge _ _)) by lia. cbn [andb]. rewrite orb_false_r. f_equal. lia.
    + replace nbits with (bits + (nbits - bits))%nat at 1 by lia. rewrite take_bits_of. apply bits_of_ext. intros i Hi.
      rewrite !Z.shiftr_spec by lia. rewrite Hbit by lia. rewrite Hlow, (proj2 (Z.ltb_lt _ _)) by lia. cbn [andb orb]. f_equal. lia.
  - intros i Hi. rewrite Hbit, Hlow by lia. cbn [orb]. destruct (Z.ltb_spec i (8 - Z.of_nat off)); [|done]. cbn [andb].
    apply Z.testbit_neg_r. lia.
Qed.

Lemma flush_ok w :
  (woffset w = 8)%nat → 0 <= wbuffer w < 256 →
  flush w = (1%nat, {| wbuffer := 0; woffset := 0; out := out w ++ [byte.of_Z (wbuffer w)] |}) ∧
  byte_bits (out w ++ [byte.of_Z (wbuffer w)]) = wbits w.
Proof.
  intros Ho Hb. unfold flush, wbits. rewrite Ho. split; [done|]. unfold byte_bits. rewrite bind_app. f_equal.
  rewrite bind_cons, app_nil_r. rewrite byte_of_Z_u by done. by rewrite take_ge by (by rewrite length_bits_of).
Qed.

Lemma bit_write_loop_spec fuel w data nbits wrote :
  writer_ok w → (nbits <= fuel)%nat → (nbits <= 64)%nat →
  let '(wrote', w') := bit_write_loop fuel w data nbits wrote in
  writer_ok w' ∧ wbits w' = wbits w ++ bits_of nbits data ∧ (length (out w') + wrote = length (out w) + wrote')%nat.
Proof.
  revert w nbits wrote. induction fuel as [|fuel IH]; intros w nbits wrote Hw Hf H64; cbn [bit_write_loop].
  { assert (nbits = 0%nat) as -> by lia. cbn [bits_of]. by rewrite app_nil_r. }
  destruct (Nat.ltb_spec 0 nbits) as [Hn|Hn].
  2:{ assert (nbits = 0%nat) as -> by lia. cbn [bits_of]. by rewrite app_nil_r. }
  destruct Hw as [Ho Hb Hl]. pose proof (write_round (wbuffer w) (woffset w) data nbits Ho Hb Hl ltac:(lia)) as Hr. cbv zeta in Hr.
  set (bits := Nat.min (8 - woffset w) nbits) in *. set (buffer' := Z.lor _ _) in *. destruct Hr as (Hb' & Ht & Hl').
  cbn [woffset wbuffer]. set (w1 := {| wbuffer := buffer'; woffset := woffset w + bits; out := out w |}).
  assert (wbits w ++ bits_of nbits data = wbits w1 ++ bits_of (nbits - bits) data) as E.
  { unfold wbits at 2. cbn [w1 out woffset wbuffer]. rewrite Ht. unfold wbits. rewrite <- !app_assoc. do 2 f_equal.
    rewrite <- (take_drop bits (bits_of nbits data)) at 1. f_equal. replace nbits with (bits + (nbits - bits))%nat at 1 by lia. apply drop_bits_of. }
  rewrite E. destruct (Nat.eqb_spec (woffset w + bits) 8) as [E8|E8].
  - destruct (flush_ok w1 E8 Hb') as [-> Hfl]. specialize (IH {| wbuffer := 0; woffset := 0; out := out w1 ++ [byte.of_Z (wbuffer w1)] |} (nbits - bits)%nat (wrote + 1)%nat).
    destruct (bit_write_loop fuel _ _ _ _) as [wrote' w']. destruct IH as (H1 & H2 & H3); [|lia|lia|].
    + constructor; cbn [woffset wbuffer]; [lia|lia|intros; apply Z.bits_0].
    + split_and!; [done| |cbn [out w1] in H3; rewrite length_app in H3; cbn [length] in H3; lia].
      rewrite H2, <- Hfl. unfold wbits. cbn [out woffset take]. by rewrite app_nil_r.
  - specialize (IH w1 (nbits - bits)%nat wrote). destruct (bit_write_loop fuel _ _ _ _) as [wrote' w'].
    destruct IH as (H1 & H2 & H3); [|lia|lia|done]. constructor; cbn [w1 woffset wbuffer]; [lia|done|done].
Qed.

Lemma bit_write_spec w data nbits :
  writer_ok w → (nbits <= 64)%nat →
  ∃ n w', bit_write w data nbits = Ok (n, w') ∧ writer_ok w' ∧ wbits w' = wbits w ++ bits_of nbits data ∧
    length (out w') = (length (out w) + n)%nat.
Proof.
  intros Hw Hn. unfold bit_write. rewrite (proj2 (Nat.ltb_ge _ _)) by done.
  pose proof (bit_write_loop_spec nbits w data nbits 0 Hw ltac:(lia) Hn) as Hs. destruct (bit_write_loop _ _ _ _ _) as [n w'].
  destruct Hs as (H1 & H2 & H3). exists n, w'. split_and!; [done|done|done|lia].
Qed.

(** The last byte is filled up with zeros. *)
Lemma flush_spec w :
  writer_ok w →
  ∃ n w' pad, flush w = (n, w') ∧ byte_bits (out w') = wbits w ++ replicate pad false ∧ (pad < 8)%nat ∧
    length (out w') = (length (out w) + n)%nat.
Proof.
  intros [Ho Hb Hl]. unfold flush. destruct (Nat.ltb_spec 0 (woffset w)) as [Hp|Hp].
  - eexists _, _, (8 - woffset w)%nat. split; [done|]. cbn [out]. split_and!; [|lia|by rewrite length_app].
    unfold byte_bits, wbits. rewrite bind_app, <- app_assoc. f_equal. rewrite bind_cons, app_nil_r, byte_of_Z_u by done.
    replace 8%nat with (woffset w + (8 - woffset w))%nat at 1 2 by lia. rewrite take_bits_of, bits_of_app. f_equal.
    assert (∀ n, (∀ i, 0 <= i < Z.of_nat n → Z.testbit (wbuffer w) i = false) → bits_of n (wbuffer w) = replicate n false) as Hz.
    { induction n as [|n IHn]; intros Hi; [done|]. cbn. rewrite Hi, IHn by (intros; try apply Hi; lia). done. }
    apply Hz. intros i Hi. apply Hl. lia.
  - eexists _, _, 0%nat. split; [done|]. unfold wbits. assert (woffset w = 0%nat) as -> by lia. cbn [take replicate]. rewrite !app_nil_r.
    split_and!; [done|lia|lia].
Qed.

(** ** Reading *)

Lemma reader_new_ok bs : reader_ok (reader_new bs) ∧ rbits (reader_new bs) = byte_bits bs.
Proof. split; [constructor; cbn [roffset rbuffer reader_new]; lia|]. done. Qed.

(** The bits that a round of the loop takes out of the buffer. *)
Lemma read_round buffer off bits :
  0 <= buffer < 256 → (0 < bits)%nat → (off + bits <= 8)%nat →
  Z.shiftr (uwrap 8 (Z.shiftl buffer (Z.of_nat off))) (8 - Z.of_nat bits) = bits_val (take bits (drop off (bits_of 8 buffer))).
Proof.
  intros Hb Hn Ho. replace 8%nat with (off + (bits + (8 - off - bits)))%nat at 1 by lia. rewrite drop_bits_of, take_bits_of, bits_val_bits_of.
  apply Z.bits_inj'. intros i Hi. rewrite Z.shiftr_spec by done. unfold uwrap. destruct (Z.ltb_spec i (Z.of_nat bits)).
  - rewrite Z.mod_pow2_bits_low, Z.shiftl_spec, Z.mod_pow2_bits_low, Z.shiftr_spec by lia. f_equal. lia.
  - rewrite Z.mod_pow2_bits_high, Z.mod_pow2_bits_high by lia. done.
Qed.

Lemma refill_spec r :
  reader_ok r →
  match refill r with
  | Ok r' => reader_ok r' ∧ (roffset r' < 8)%nat ∧ rbits r' = rbits r
  | Err e => e = err_of_kind UnexpectedEof ∧ rbits r = []
  end.
Proof.
  intros [Ho Hb]. unfold refill. destruct (Nat.eqb_spec (roffset r) 8) as [E|E]; [|split_and!; [done|lia|done]].
  unfold rbits. rewrite E. destruct (stream r) as [|b bs]; [done|].
  split_and!; [constructor; cbn [roffset rbuffer]; [lia|apply byte.unsigned_range]|cbn [roffset]; lia|].
  cbn [roffset rbuffer stream]. by rewrite (drop_ge (bits_of 8 (rbuffer r))) by (by rewrite length_bits_of).
Qed.

Lemma read_nothing r data :
  reader_ok r →
  ∃ r', Ok (E := io_error) (data, r) = Ok (data * 2 ^ Z.of_nat 0 + bits_val (take 0 (rbits r)), r') ∧ reader_ok r' ∧ rbits r' = drop 0 (rbits r).
Proof.
  intros Hr. exists r. split_and!; [|done|done]. do 2 f_equal. change (2 ^ Z.of_nat 0) with 1. change (bits_val (take 0 _)) with 0. lia.
Qed.

Lemma read_loop_spec fuel r data nbits :
  reader_ok r → (nbits <= fuel)%nat → 0 <= data → (data + 1) * 2 ^ Z.of_nat nbits <= 2 ^ 64 →
  if (nbits <=? length (rbits r))%nat
  then ∃ r', read_loop fuel r data nbits = Ok (data * 2 ^ Z.of_nat nbits + bits_val (take nbits (rbits r)), r') ∧
         reader_ok r' ∧ rbits r' = drop nbits (rbits r)
  else read_loop fuel r data nbits = Err (err_of_kind UnexpectedEof).
Proof.
  revert r data nbits. induction fuel as [|fuel IH]; intros r data nbits Hr Hf Hd Hlt; cbn [read_loop].
  { assert (nbits = 0%nat) as -> by lia. by apply read_nothing. }
  destruct (Nat.ltb_spec 0 nbits) as [Hn|Hn].
  2:{ assert (nbits = 0%nat) as -> by lia. by apply read_nothing. }
  pose proof (refill_spec r Hr) as Hrf. destruct (refill r) as [r1|e]; cbn [result_bind].
  2:{ destruct Hrf as [-> Hnil]. rewrite Hnil. cbn [length]. rewrite (proj2 (Nat.leb_gt _ _)) by lia. done. }
  destruct Hrf as ([Ho Hb] & Hlt1 & E). rewrite <- E. set (bits := Nat.min (8 - roffset r1) nbits).
  rewrite read_round by lia. set (x := bits_val _).
  set (r2 := {| rbuffer := rbuffer r1; roffset := roffset r1 + bits; stream := stream r1 |}).
  assert (take bits (drop (roffset r1) (bits_of 8 (rbuffer r1))) = take bits (rbits r1) ∧ drop bits (rbits r1) = rbits r2) as [Ht Hdr].
  { unfold rbits. cbn [r2 rbuffer roffset stream].
    assert (bits <= length (drop (roffset r1) (bits_of 8 (rbuffer r1))))%nat by (rewrite length_drop, length_bits_of; lia).
    rewrite take_app_le, drop_app_le, drop_drop by done. done. }
  assert (0 <= x < 2 ^ Z.of_nat bits) as Hx.
  { subst x. pose proof (bits_val_range (take bits (drop (roffset r1) (bits_of 8 (rbuffer r1))))) as Hv.
    rewrite length_take, length_drop, length_bits_of, Nat.min_l in Hv by lia. done. }
  assert (2 ^ Z.of_nat nbits = 2 ^ Z.of_nat bits * 2 ^ Z.of_nat (nbits - bits)) as Hp by (rewrite <- Z.pow_add_r by lia; f_equal; lia).
  assert (0 < 2 ^ Z.of_nat bits ∧ 1 <= 2 ^ Z.of_nat (nbits - bits)) as [Hp1 Hp2].
  { split; [apply Z.pow_pos_nonneg; lia|]. apply (Z.pow_le_mono_r 2 0); lia. }
  assert (Z.lor (uwrap 64 (Z.shiftl data (Z.of_nat bits))) x = data * 2 ^ Z.of_nat bits + x) as ->.
  { rewrite uwrap_small by (unfold urange; rewrite Z.shiftl_mul_pow2 by lia; nia). by apply shiftl_lor_add; [lia|]. }
  specialize (IH r2 (data * 2 ^ Z.of_nat bits + x) (nbits - bits)%nat ltac:(constructor; cbn [r2 roffset rbuffer]; [lia|done]) ltac:(lia) ltac:(nia)).
  rewrite <- Hdr, length_drop in IH. specialize (IH ltac:(rewrite Hp in Hlt; nia)).
  assert (bits <= length (rbits r1))%nat as Hle.
  { unfold rbits. rewrite length_app, length_drop, length_bits_of. lia. }
  replace (nbits - bits <=? length (rbits r1) - bits)%nat with (nbits <=? length (rbits r1))%nat in IH by lia.
  destruct (Nat.leb_spec nbits (length (rbits r1))) as [Hl|Hl]; [|done]. destruct IH as (r' & -> & Hok & Hbits). exists r'. split_and!; [|done|].
  - do 2 f_equal. rewrite Hp. subst x. rewrite Ht.
    replace (take nbits (rbits r1)) with (take bits (rbits r1) ++ take (nbits - bits) (drop bits (rbits r1))) by (rewrite take_take_drop; f_equal; lia).
    rewrite bits_val_app, length_take, length_drop, Nat.min_l by lia. ring.
  - rewrite Hbits, drop_drop. f_equal. lia.
Qed.

(** [read] takes the next bits off the stream, or fails at its end. *)
Lemma bit_read_spec r nbits :
  reader_ok r → (nbits <= 64)%nat →
  if (nbits <=? length (rbits r))%nat
  then ∃ r', bit_read r nbits = Ok (bits_val (take nbits (rbits r)), r') ∧ reader_ok r' ∧ rbits r' = drop nbits (rbits r)
  else bit_read r nbits = Err (err_of_kind UnexpectedEof).
Proof.
  intros Hr Hn. unfold bit_read. rewrite (proj2 (Nat.ltb_ge _ _)) by done.
  assert ((0 + 1) * 2 ^ Z.of_nat nbits <= 2 ^ 64) as Hb.
  { rewrite Z.mul_1_l. apply Z.pow_le_mono_r; lia. }
  apply (read_loop_spec nbits r 0 nbits Hr ltac:(lia) ltac:(lia) Hb).
Qed.

(** ** Golomb-Rice coding *)

(** The code of a number. *)
Definition golomb (p : nat) (n : Z) : list bool :=
  replicate (Z.to_nat (n / 2 ^ Z.of_nat p)) true ++ [false] ++ bits_of p n.

Lemma bits_of_max n : (n <= 64)%nat → bits_of n U64_MAX = replicate n true.
Proof.
  intros Hn. induction n as [|n IH]; [done|]. cbn. rewrite IH by lia. f_equal. change U64_MAX with (Z.ones 64).
  apply Z.ones_spec_low. lia.
Qed.

Lemma ones_loop_spec fuel w q wrote :
  writer_ok w → 0 <= q <= Z.of_nat fuel →
  ∃ wrote' w', ones_loop fuel w q wrote = Ok (wrote', w') ∧ writer_ok w' ∧
    wbits w' = wbits w ++ replicate (Z.to_nat q) true ∧ (length (out w') + wrote = length (out w) + wrote')%nat.
Proof.
  revert w q wrote. induction fuel as [|fuel IH]; intros w q wrote Hw Hq; cbn [ones_loop].
  { assert (q = 0) as -> by lia. exists wrote, w. cbn. by rewrite app_nil_r. }
  destruct (Z.gtb_spec q 0) as [Hp|Hp].
  2:{ assert (q = 0) as -> by lia. exists wrote, w. cbn. by rewrite app_nil_r. }
  destruct (bit_write_spec w U64_MAX (Z.to_nat (Z.min q 64)) Hw ltac:(lia)) as (n & w1 & -> & Hw1 & Hb & Hl). cbn [result_bind].
  destruct (IH w1 (q - Z.min q 64) (wrote + n)%nat Hw1 ltac:(lia)) as (wrote' & w' & -> & Hw' & Hb' & Hl').
  exists wrote', w'. split_and!; [done|done| |lia]. rewrite Hb', Hb, bits_of_max, <- app_assoc, <- replicate_add by lia. do 2 f_equal. lia.
Qed.

Lemma shift_amount_small p : (p < 64)%nat → shift_amount p = Z.of_nat p.
Proof. intros Hp. apply Z.mod_small. lia. Qed.

Lemma golomb_encode_spec p w n :
  writer_ok w → (p < 64)%nat → 0 <= n →
  ∃ wrote w', golomb_rice_encode p w n = Ok (wrote, w') ∧ writer_ok w' ∧ wbits w' = wbits w ++ golomb p n ∧
    length (out w') = (length (out w) + wrote)%nat.
Proof.
  intros Hw Hp Hn. unfold golomb_rice_encode. rewrite shift_amount_small, Z.shiftr_div_pow2 by lia.
  assert (0 <= n / 2 ^ Z.of_nat p) by (apply Z.div_pos; [done|apply Z.pow_pos_nonneg; lia]).
  destruct (ones_loop_spec (Z.to_nat (n / 2 ^ Z.of_nat p)) w (n / 2 ^ Z.of_nat p) 0 Hw ltac:(lia)) as (n0 & w0 & -> & Hw0 & Hb0 & Hl0). cbn [result_bind].
  destruct (bit_write_spec w0 0 1 Hw0 ltac:(lia)) as (n1 & w1 & -> & Hw1 & Hb1 & Hl1). cbn [result_bind].
  destruct (bit_write_spec w1 n p Hw1 ltac:(lia)) as (n2 & w2 & -> & Hw2 & Hb2 & Hl2). cbn [result_bind].
  eexists _, _. split_and!; [done|done| |lia]. unfold golomb. rewrite Hb2, Hb1, Hb0, <- !app_assoc. done.
Qed.

(** Unary numbers: ones up to a zero. *)
Lemma unary_loop_spec fuel r q k rest :
  reader_ok r → rbits r = replicate k true ++ false :: rest → (k < fuel)%nat → 0 <= q → q + Z.of_nat k < 2 ^ 64 →
  ∃ r', unary_loop fuel r q = Ok (q + Z.of_nat k, r') ∧ reader_ok r' ∧ rbits r' = rest.
Proof.
  revert r q k. induction fuel as [|fuel IH]; intros r q k Hr Hb Hk Hq Hlt; [lia|]. cbn [unary_loop].
  pose proof (bit_read_spec r 1 Hr ltac:(lia)) as Hrd. rewrite Hb in Hrd. destruct k as [|k]; cbn [replicate app length] in Hrd.
  - destruct Hrd as (r' & -> & Hok & Hrest). cbn [result_bind]. exists r'. split_and!; [|done|done]. cbn. do 2 f_equal. lia.
  - destruct Hrd as (r' & -> & Hok & Hrest). cbn [result_bind]. change (bits_val (take 1 _) =? 1) with true. cbn iota.
    rewrite uwrap_small by (unfold urange; lia).
    destruct (IH r' (q + 1) k Hok) as (r'' & -> & H1 & H2); [done|lia|lia|lia|]. exists r''. split_and!; [|done|done]. do 2 f_equal. lia.
Qed.

Lemma unary_loop_end fuel r q k :
  reader_ok r → rbits r = replicate k true → (k < fuel)%nat → unary_loop fuel r q = Err (err_of_kind UnexpectedEof).
Proof.
  revert r q k. induction fuel as [|fuel IH]; intros r q k Hr Hb Hk; [lia|]. cbn [unary_loop].
  pose proof (bit_read_spec r 1 Hr ltac:(lia)) as Hrd. rewrite Hb in Hrd. destruct k as [|k]; cbn [replicate length] in Hrd.
  - change (1 <=? 0)%nat with false in Hrd. cbn iota in Hrd. by rewrite Hrd.
  - destruct Hrd as (r' & -> & Hok & Hrest). cbn [result_bind]. change (bits_val (take 1 _) =? 1) with true. cbn iota.
    apply (IH r' _ k); [done|done|lia].
Qed.

Lemma length_rbits r : (length (rbits r) <= 8 * length (stream r) + 8)%nat.
Proof. unfold rbits. rewrite length_app, length_drop, length_bits_of, length_byte_bits. lia. Qed.

Lemma golomb_decode_spec p r n rest :
  reader_ok r → (p < 64)%nat → 0 <= n < 2 ^ 64 → rbits r = golomb p n ++ rest →
  ∃ r', golomb_rice_decode p r = Ok (n, r') ∧ reader_ok r' ∧ rbits r' = rest.
Proof.
  intros Hr Hp Hn Hb. unfold golomb in Hb. rewrite <- !app_assoc in Hb. cbn [app] in Hb.
  assert (0 < 2 ^ Z.of_nat p) as Hp2 by (apply Z.pow_pos_nonneg; lia).
  pose proof (Z.div_mod n (2 ^ Z.of_nat p) ltac:(lia)) as Hdm. pose proof (Z.mod_pos_bound n (2 ^ Z.of_nat p) Hp2).
  set (q := n / 2 ^ Z.of_nat p) in *. assert (0 <= q <= n) by (subst q; split; [apply Z.div_pos; lia|apply Z.div_le_upper_bound; nia]).
  unfold golomb_rice_decode. rewrite shift_amount_small by done. pose proof (length_rbits r) as Hl. rewrite Hb, length_app, length_replicate in Hl. cbn [length] in Hl.
  destruct (unary_loop_spec (8 * length (stream r) + 9) r 0 (Z.to_nat q) (bits_of p n ++ rest) Hr Hb ltac:(lia) ltac:(lia) ltac:(lia))
    as (r1 & -> & Hr1 & Hb1). cbn [result_bind]. rewrite Z.add_0_l, Z2Nat.id by lia.
  pose proof (bit_read_spec r1 p Hr1 ltac:(lia)) as Hrd. rewrite Hb1, length_app, length_bits_of in Hrd.
  rewrite (proj2 (Nat.leb_le _ _)) in Hrd by lia. destruct Hrd as (r2 & -> & Hr2 & Hb2). cbn [result_bind]. exists r2.
  rewrite drop_app_length' in Hb2 by (by rewrite length_bits_of). split_and!; [|done|done].
  rewrite take_app_length' by (by rewrite length_bits_of). rewrite bits_val_bits_of, Z.shiftl_mul_pow2 by lia.
  rewrite (uwrap_small 64 (q * _)) by (unfold urange; nia). rewrite uwrap_small by (unfold urange; nia). do 2 f_equal. lia.
Qed.

(** With [p = 64] the shifts of a release build do nothing: the coder writes as many
    ones as the number says, and the decoder adds their count to the number. *)
Example golomb_of_64_bits :
  match golomb_rice_encode 64 (writer_new []) 1 with
  | Ok (_, w) => ∃ r, golomb_rice_decode 64 (reader_new (out (flush w).2)) = Ok (2, r)
  | Err _ => False
  end.
Proof. vm_compute. by eexists. Qed.
