(* ===== verification/Bip158.v ===== *)
(** Compact block filters ([src/litecoin/src/bip158.rs]): Golomb-coded sets, their
    writer and the two kinds of query, and the filters of blocks. *)

From S2P Require Import Witness.
From Stdlib Require Import String ZArith Lia ZifyBool.
From stdpp Require Import base list sets sorting.
From Stdlib Require Import Init.Byte.
From coqutil Require Import Byte Word.LittleEndianList.
From S2P Require Import Prelude Io Ordered HashEngine Sha256 SipHash BitStream Encode Mimblewimble Transaction Block Opcodes Script Templates.

#[local] Set Warnings "-clear-no-such-hyp".

Definition P : nat := 19.
Definition M : Z := 784931.

Inductive Error :=
| UtxoMissing (coin : OutPoint)
| Io (e : io_error).

(** ** Golomb-coded sets *)

Record GcsFilter := { key0 : Z; key1 : Z; param : nat }.

Definition gcs_hash (self : GcsFilter) (element : list byte) : Z := hash_to_u64_with_keys (key0 self) (key1 self) element.

(** [((hash as u128 * nm as u128) >> 64) as u64] *)
Definition map_to_range (hash nm : Z) : Z := uwrap 64 (Z.shiftr (hash * nm) 64).

Definition sort_unstable (l : list Z) : list Z := merge_sort Z.le l.

(** [Vec::dedup] *)
Fixpoint dedup (l : list Z) : list Z :=
  match l with
  | x :: ((y :: _) as l') => if x =? y then dedup l' else x :: dedup l'
  | _ => l
  end.

(** *** The reader *)

Record GcsFilterReader := { reader_filter : GcsFilter; reader_m : Z }.

(** The inner loop of the queries: go on while the element is below the query. *)
Inductive outcome :=
| Found (remaining : nat) (data : Z) (reader : BitStreamReader)
| Beyond (remaining : nat) (data : Z) (reader : BitStreamReader)
| Exhausted.

Fixpoint gcs_advance (p : nat) (remaining : nat) (data : Z) (reader : BitStreamReader) (q : Z) : result io_error outcome :=
  match data ?= q with
  | Eq => Ok (Found remaining data reader)
  | Gt => Ok (Beyond remaining data reader)
  | Lt =>
      match remaining with
      | O => Ok Exhausted
      | S remaining =>
          let? (d, reader) := golomb_rice_decode p reader in
          gcs_advance p remaining (uwrap 64 (data + d)) reader q
      end
  end.

Fixpoint any_loop (p : nat) (mapped : list Z) (remaining : nat) (data : Z) (reader : BitStreamReader) : result io_error bool :=
  match mapped with
  | [] => Ok false
  | q :: mapped =>
      let? o := gcs_advance p remaining data reader q in
      match o with
      | Found _ _ _ => Ok true
      | Exhausted => Ok false
      | Beyond remaining data reader => any_loop p mapped remaining data reader
      end
  end.

Fixpoint all_loop (p : nat) (mapped : list Z) (remaining : nat) (data : Z) (reader : BitStreamReader) : result io_error bool :=
  match mapped with
  | [] => Ok true
  | q :: mapped =>
      let? o := gcs_advance p remaining data reader q in
      match o with
      | Found remaining data reader => all_loop p mapped remaining data reader
      | Exhausted | Beyond _ _ _ => Ok false
      end
  end.

(** [Decodable::consensus_decode(reader).unwrap_or(VarInt(0))] *)
Definition read_count (content : list byte) : Z * list byte :=
  match varint_decode content with Ok (n, rest) => (n, rest) | Err _ => (0, content) end.

Definition gcs_match_any (self : GcsFilterReader) (content : list byte) (query : list (list byte)) : result Error bool :=
  let '(n_elements, rest) := read_count content in
  let nm := uwrap 64 (n_elements * reader_m self) in
  let mapped := sort_unstable (map (λ e, map_to_range (gcs_hash (reader_filter self) e) nm) query) in
  if bool_decide (mapped = []) then Ok false
  else if n_elements =? 0 then Ok false
  else
    let p := param (reader_filter self) in
    result_map_err Io
      (let? (data, reader) := golomb_rice_decode p (reader_new rest) in
       any_loop p mapped (Z.to_nat (n_elements - 1)) data reader).

Definition gcs_match_all (self : GcsFilterReader) (content : list byte) (query : list (list byte)) : result Error bool :=
  let '(n_elements, rest) := read_count content in
  let nm := uwrap 64 (n_elements * reader_m self) in
  let mapped := dedup (sort_unstable (map (λ e, map_to_range (gcs_hash (reader_filter self) e) nm) query)) in
  if bool_decide (mapped = []) then Ok true
  else if n_elements =? 0 then Ok false
  else
    let p := param (reader_filter self) in
    result_map_err Io
      (let? (data, reader) := golomb_rice_decode p (reader_new rest) in
       all_loop p mapped (Z.to_nat (n_elements - 1)) data reader).

(** *** The writer *)

Record GcsFilterWriter := { writer_filter : GcsFilter; written : list byte; elements : list (list byte); writer_m : Z }.

Definition gcs_writer_new (written : list byte) (k0 k1 m : Z) (p : nat) : GcsFilterWriter :=
  {| writer_filter := {| key0 := k0; key1 := k1; param := p |}; written := written; elements := []; writer_m := m |}.

Definition gcs_add_element (self : GcsFilterWriter) (element : list byte) : GcsFilterWriter :=
  if bool_decide (element = []) then self
  else {| writer_filter := writer_filter self; written := written self;
          elements := bset_insert element (elements self); writer_m := writer_m self |}.

Fixpoint write_deltas (p : nat) (mapped : list Z) (last : Z) (writer : BitStreamWriter) (wrote : nat) :
  result io_error (nat * BitStreamWriter) :=
  match mapped with
  | [] => Ok (wrote, writer)
  | data :: mapped =>
      let? (n, writer) := golomb_rice_encode p writer (data - last) in
      write_deltas p mapped data writer (wrote + n)
  end.

(** The number of bytes written, and the vector after them. *)
Definition gcs_finish (self : GcsFilterWriter) : result io_error (Z * list byte) :=
  let n := Z.of_nat (length (elements self)) in
  let nm := uwrap 64 (n * writer_m self) in
  let mapped := sort_unstable (map (λ e, map_to_range (gcs_hash (writer_filter self) e) nm) (elements self)) in
  let? (wrote, bs) := varint_encode n in
  let? (n, writer) := write_deltas (param (writer_filter self)) mapped 0 (writer_new (written self ++ bs)) 0 in
  let '(m, writer) := flush writer in
  Ok (wrote + Z.of_nat n + Z.of_nat m, out writer).

(** ** Filters of blocks *)

Record BlockFilter := { content : list byte }.

(** The keys of a block: the first two words of its hash. *)
Definition block_key (block_hash : list byte) (i : nat) : Z := le_combine (take 8 (drop (8 * i) block_hash)).

Definition block_filter_reader (block_hash : list byte) : GcsFilterReader :=
  {| reader_filter := {| key0 := block_key block_hash 0; key1 := block_key block_hash 1; param := P |}; reader_m := M |}.

Section Filters.
Context `{PublicKeys}.

Record BlockFilterWriter := { filter_block : Block; filter_writer : GcsFilterWriter }.

Definition block_filter_writer (out : list byte) (block : Block) : option BlockFilterWriter :=
  h ← block_hash block;
  Some {| filter_block := block; filter_writer := gcs_writer_new out (block_key h 0) (block_key h 1) M P |}.

Definition add_element (self : BlockFilterWriter) (data : list byte) : BlockFilterWriter :=
  {| filter_block := filter_block self; filter_writer := gcs_add_element (filter_writer self) data |}.

Definition add_output_scripts (self : BlockFilterWriter) : BlockFilterWriter :=
  foldl (λ self transaction,
    foldl (λ self output, if is_op_return (script_pubkey output) then self else add_element self (script_pubkey output))
      self (Transaction.output transaction))
    self (txdata (filter_block self)).

(** The loop over the scripts of the coins spent. *)
Fixpoint input_loop (script_for_coin : OutPoint → result Error (list byte)) (coins : list OutPoint) (self : BlockFilterWriter) :
  result Error BlockFilterWriter :=
  match coins with
  | [] => Ok self
  | coin :: coins =>
      match script_for_coin coin with
      | Ok script => input_loop script_for_coin coins (add_element self script)
      | Err e => Err e
      end
  end.

Definition spent_coins (b : Block) : list OutPoint :=
  drop 1 (txdata b) ≫= (λ t, map previous_output (Transaction.input t)).

Definition add_input_scripts (self : BlockFilterWriter) (script_for_coin : OutPoint → result Error (list byte)) :
  result Error BlockFilterWriter :=
  input_loop script_for_coin (spent_coins (filter_block self)) self.

Definition filter_finish (self : BlockFilterWriter) : result io_error (Z * list byte) := gcs_finish (filter_writer self).

Definition new_script_filter (block : Block) (script_for_coin : OutPoint → result Error (list byte)) :
  option (result Error BlockFilter) :=
  writer ← block_filter_writer [] block;
  let writer := add_output_scripts writer in
  Some (let? writer := add_input_scripts writer script_for_coin in
        let? (_, out) := result_map_err Io (filter_finish writer) in
        Ok {| content := out |}).

Definition filter_match_any (self : BlockFilter) (block_hash : list byte) (query : list (list byte)) : result Error bool :=
  gcs_match_any (block_filter_reader block_hash) (content self) query.
Definition filter_match_all (self : BlockFilter) (block_hash : list byte) (query : list (list byte)) : result Error bool :=
  gcs_match_all (block_filter_reader block_hash) (content self) query.

End Filters.

(** [FilterHash::filter_header] and [BlockFilter::filter_header] *)
Definition filter_hash_header (self previous_filter_header : list byte) : list byte := sha256d_hash (self ++ previous_filter_header).
Definition filter_header (self : BlockFilter) (previous_filter_header : list byte) : list byte :=
  filter_hash_header (sha256d_hash (content self)) previous_filter_header.

(** ** Sorting *)

Lemma sort_elem x l : x ∈ sort_unstable l ↔ x ∈ l.
Proof. unfold sort_unstable. by rewrite merge_sort_Permutation. Qed.

Lemma elem_sort x l : x ∈ sort_unstable l → x ∈ l.
Proof. apply sort_elem. Qed.

Lemma sort_sorted l : StronglySorted Z.le (sort_unstable l).
Proof. apply StronglySorted_merge_sort; [intros ????; lia|intros ??; lia]. Qed.

Lemma sort_length l : length (sort_unstable l) = length l.
Proof. unfold sort_unstable. by rewrite merge_sort_Permutation. Qed.

Lemma sort_nil l : sort_unstable l = [] ↔ l = [].
Proof. rewrite <- !length_zero_iff_nil. by rewrite sort_length. Qed.

Lemma dedup_cons x l : ∃ l', dedup (x :: l) = x :: l'.
Proof.
  revert x. induction l as [|y l IH]; intros x; [by exists []|]. change (dedup (x :: y :: l)) with (if x =? y then dedup (y :: l) else x :: dedup (y :: l)).
  destruct (Z.eqb_spec x y) as [->|]; [apply IH|by eexists].
Qed.

Lemma dedup_elem x l : x ∈ dedup l ↔ x ∈ l.
Proof.
  induction l as [|y l IH]; [done|]. destruct l as [|z l]; [done|].
  change (dedup (y :: z :: l)) with (if y =? z then dedup (z :: l) else y :: dedup (z :: l)).
  destruct (Z.eqb_spec y z) as [->|]; [|rewrite elem_of_cons, IH, (elem_of_cons (z :: l)); done]. rewrite IH. set_solver.
Qed.

Lemma dedup_sorted l : StronglySorted Z.le l → StronglySorted Z.le (dedup l).
Proof.
  induction 1 as [|x l Hl IH Hx]; [constructor|]. destruct l as [|y l]; [by repeat constructor|].
  change (dedup (x :: y :: l)) with (if x =? y then dedup (y :: l) else x :: dedup (y :: l)).
  destruct (x =? y); [done|]. constructor; [done|]. apply Forall_forall. intros z Hz. apply (proj1 (Forall_forall _ _) Hx). by apply dedup_elem.
Qed.

(** ** The bits of a filter *)

Fixpoint golombs (p : nat) (last : Z) (l : list Z) : list bool :=
  match l with [] => [] | x :: l => golomb p (x - last) ++ golombs p x l end.

(** Values in order, within 64 bits, none below [last]. *)
Definition ascending (last : Z) (l : list Z) : Prop := StronglySorted Z.le (last :: l) ∧ Forall (λ x, x < 2 ^ 64) l.

Lemma ascending_cons last x l : ascending last (x :: l) ↔ last <= x < 2 ^ 64 ∧ ascending x l.
Proof.
  unfold ascending. split.
  - intros [Hs Hf]. apply StronglySorted_inv in Hs as [Hs Hl]. apply Forall_cons in Hl as [Hl _]. apply Forall_cons in Hf as [Hx Hf]. done.
  - intros [Hx [Hs Hf]]. split; [|by constructor; [lia|]]. constructor; [done|]. apply StronglySorted_inv in Hs as [_ Hl].
    constructor; [lia|]. eapply Forall_impl; [exact Hl|]. cbn. lia.
Qed.

Lemma write_deltas_spec p l last w wrote :
  (p < 64)%nat → ascending last l → writer_ok w →
  ∃ wrote' w', write_deltas p l last w wrote = Ok (wrote', w') ∧ writer_ok w' ∧ wbits w' = wbits w ++ golombs p last l ∧
    (length (out w') + wrote = length (out w) + wrote')%nat.
Proof.
  intros Hp. revert last w wrote. induction l as [|x l IH]; intros last w wrote Ha Hw; cbn [write_deltas golombs].
  { exists wrote, w. by rewrite app_nil_r. }
  apply ascending_cons in Ha as [Hx Ha]. destruct (golomb_encode_spec p w (x - last) Hw Hp ltac:(lia)) as (n & w1 & -> & Hw1 & Hb1 & Hl1).
  cbn [result_bind]. destruct (IH x w1 (wrote + n)%nat Ha Hw1) as (wrote' & w' & -> & Hw' & Hb' & Hl').
  exists wrote', w'. split_and!; [done|done| |lia]. by rewrite Hb', Hb1, <- app_assoc.
Qed.

(** The reader stands before the deltas of [l], after the element [data]. *)
Definition holds (p : nat) (r : BitStreamReader) (data : Z) (l : list Z) : Prop :=
  reader_ok r ∧ ∃ pad, rbits r = golombs p data l ++ pad.

Lemma holds_next p r data x l :
  (p < 64)%nat → 0 <= data → ascending data (x :: l) → holds p r data (x :: l) →
  ∃ r', golomb_rice_decode p r = Ok (x - data, r') ∧ holds p r' x l.
Proof.
  intros Hp Hd [Hx _]%ascending_cons [Hr (pad & Hb)]. cbn [golombs] in Hb. rewrite <- app_assoc in Hb.
  destruct (golomb_decode_spec p r (x - data) (golombs p x l ++ pad) Hr Hp ltac:(lia) Hb) as (r' & E & Hr' & Hb').
  exists r'. split; [done|]. split; [done|by exists pad].
Qed.

(** The inner loop passes over what is below the query. *)
Lemma gcs_advance_spec p l data r q :
  (p < 64)%nat → 0 <= data → ascending data l → holds p r data l →
  match gcs_advance p (length l) data r q with
  | Ok Exhausted => Forall (λ x, x < q) (data :: l)
  | Ok (Found n d r') => ∃ a l', data :: l = a ++ d :: l' ∧ Forall (λ x, x < q) a ∧ d = q ∧ n = length l' ∧ holds p r' d l' ∧ ascending d l' ∧ 0 <= d
  | Ok (Beyond n d r') => ∃ a l', data :: l = a ++ d :: l' ∧ Forall (λ x, x < q) a ∧ q < d ∧ n = length l' ∧ holds p r' d l' ∧ ascending d l' ∧ 0 <= d
  | Err _ => False
  end.
Proof.
  intros Hp. revert data r. induction l as [|x l IH]; intros data r Hd Ha Hh; cbn [gcs_advance length];
    (destruct (Z.compare_spec data q) as [E|Hlt|Hgt]; [by eexists [], _| |by eexists [], _]).
  - by repeat constructor.
  - destruct (holds_next p r data x l Hp Hd Ha Hh) as (r' & -> & Hh'). cbn [result_bind]. apply ascending_cons in Ha as [Hx Ha].
    rewrite uwrap_small by (unfold urange; lia). replace (data + (x - data)) with x by lia.
    specialize (IH x r' ltac:(lia) Ha Hh'). destruct (gcs_advance p (length l) x r' q) as [[n d r''|n d r''|]|]; [| |by constructor|done].
    + destruct IH as (a & l' & E & Hf & H'). exists (data :: a), l'. rewrite E. split_and!; [done|by constructor|apply H'..].
    + destruct IH as (a & l' & E & Hf & H'). exists (data :: a), l'. rewrite E. split_and!; [done|by constructor|apply H'..].
Qed.

Definition mem (l : list Z) (q : Z) : bool := bool_decide (q ∈ l).

Lemma mem_skip a l qs q :
  Forall (λ x, x < q) a → Forall (Z.le q) qs → Forall (λ q, mem (a ++ l) q = mem l q) qs.
Proof.
  intros Ha Hq. eapply Forall_impl; [exact Hq|]. intros x Hx. cbn in Hx. unfold mem. apply bool_decide_ext.
  rewrite elem_of_app. split; [|by right]. intros [Hin|]; [|done]. eapply Forall_forall in Ha; [|exact Hin]. cbn in Ha. lia.
Qed.

Lemma existsb_ext_in {A} (f g : A → bool) l : Forall (λ x, f x = g x) l → existsb f l = existsb g l.
Proof. induction 1 as [|x l Hx _ IH]; [done|]. cbn. by rewrite Hx, IH. Qed.

Lemma forallb_ext_in {A} (f g : A → bool) l : Forall (λ x, f x = g x) l → forallb f l = forallb g l.
Proof. induction 1 as [|x l Hx _ IH]; [done|]. cbn. by rewrite Hx, IH. Qed.

Lemma below_not_mem l q : Forall (λ x, x < q) l → mem l q = false.
Proof. intros Hl. apply bool_decide_false. intros Hin. eapply Forall_forall in Hl; [|exact Hin]. cbn in Hl. lia. Qed.

Lemma ascending_above d l q : ascending d l → q < d → mem (d :: l) q = false.
Proof.
  intros [Hs _] Hq. apply bool_decide_false. intros Hin. apply StronglySorted_inv in Hs as [_ Hl].
  apply elem_of_cons in Hin as [->|Hin]; [lia|]. eapply Forall_forall in Hl; [|exact Hin]. cbn in Hl. lia.
Qed.

Lemma any_loop_spec p qs l data r :
  (p < 64)%nat → StronglySorted Z.le qs → 0 <= data → ascending data l → holds p r data l →
  any_loop p qs (length l) data r = Ok (existsb (mem (data :: l)) qs).
Proof.
  intros Hp Hs. revert l data r. induction Hs as [|q qs Hs IH Hq]; intros l data r Hd Ha Hh; [done|]. cbn [any_loop existsb].
  pose proof (gcs_advance_spec p l data r q Hp Hd Ha Hh) as Hadv. destruct (gcs_advance p (length l) data r q) as [[n d r'|n d r'|]|]; [| | |done].
  - destruct Hadv as (a & l' & E & Hf & -> & _). cbn [result_bind]. rewrite E. unfold mem at 1. rewrite bool_decide_true by set_solver. done.
  - destruct Hadv as (a & l' & E & Hf & Hqd & -> & Hh' & Ha' & Hd'). cbn [result_bind]. rewrite IH by done. rewrite E.
    assert (Forall (Z.le q) (q :: qs)) as Hqs by by constructor. pose proof (mem_skip a (d :: l') _ q Hf Hqs) as Hm.
    apply Forall_cons in Hm as [Hm Hms]. rewrite Hm, (ascending_above _ _ _ Ha' Hqd). cbn [orb]. f_equal. symmetry. by apply existsb_ext_in.
  - cbn [result_bind]. f_equal. symmetry. rewrite below_not_mem by done. cbn [orb].
    apply not_true_iff_false. intros (x & Hx & Hm)%existsb_exists. apply list_elem_of_In in Hx.
    rewrite below_not_mem in Hm; [done|]. eapply Forall_forall in Hq; [|exact Hx]. cbn in Hq. eapply Forall_impl; [exact Hadv|]. cbn. lia.
Qed.

Lemma all_loop_spec p qs l data r :
  (p < 64)%nat → StronglySorted Z.le qs → 0 <= data → ascending data l → holds p r data l →
  all_loop p qs (length l) data r = Ok (forallb (mem (data :: l)) qs).
Proof.
  intros Hp Hs. revert l data r. induction Hs as [|q qs Hs IH Hq]; intros l data r Hd Ha Hh; [done|]. cbn [all_loop forallb].
  pose proof (gcs_advance_spec p l data r q Hp Hd Ha Hh) as Hadv. destruct (gcs_advance p (length l) data r q) as [[n d r'|n d r'|]|]; [| | |done].
  - destruct Hadv as (a & l' & E & Hf & -> & -> & Hh' & Ha' & Hd'). cbn [result_bind]. rewrite IH by done. rewrite E.
    unfold mem at 2. rewrite bool_decide_true by set_solver. cbn [andb]. f_equal. symmetry. apply forallb_ext_in. by apply (mem_skip a _ _ q).
  - destruct Hadv as (a & l' & E & Hf & Hqd & -> & Hh' & Ha' & Hd'). cbn [result_bind]. rewrite E.
    assert (Forall (Z.le q) [q]) as Hqs by by repeat constructor. pose proof (mem_skip a (d :: l') _ q Hf Hqs) as Hm.
    apply Forall_cons in Hm as [Hm _]. by rewrite Hm, (ascending_above _ _ _ Ha' Hqd).
  - cbn [result_bind]. by rewrite below_not_mem.
Qed.

(** *** The bytes of a filter *)

Lemma bits_of_inj a b : bits_of 8 (byte.unsigned a) = bits_of 8 (byte.unsigned b) → a = b.
Proof.
  intros E. apply (f_equal bits_val) in E. rewrite !bits_val_bits_of in E. apply byte.unsigned_inj.
  pose proof (byte.unsigned_range a). pose proof (byte.unsigned_range b). rewrite !Z.mod_small in E by (cbn; lia). done.
Qed.

Lemma byte_bits_cons b bs : byte_bits (b :: bs) = bits_of 8 (byte.unsigned b) ++ byte_bits bs.
Proof. done. Qed.

Lemma byte_bits_prefix a l x : byte_bits l = byte_bits a ++ x → ∃ rest, l = a ++ rest ∧ byte_bits rest = x.
Proof.
  revert l. induction a as [|b a IH]; intros l E; [by exists l|]. destruct l as [|c l].
  - apply (f_equal length) in E. rewrite length_app, length_byte_bits in E. rewrite !length_byte_bits in E. cbn in E. lia.
  - rewrite !byte_bits_cons, <- app_assoc in E. apply app_inj_1 in E as [Hb E]; [|by rewrite !length_bits_of].
    apply bits_of_inj in Hb as ->. destruct (IH _ E) as (rest & -> & <-). by exists rest.
Qed.

(** *** Sets of elements *)

Lemma elements_elem w es e : e ∈ elements (foldl gcs_add_element w es) ↔ e ∈ elements w ∨ e ∈ es ∧ e ≠ [].
Proof.
  revert w. induction es as [|x es IH]; intros w; cbn [foldl]; [set_solver|]. rewrite IH. unfold gcs_add_element.
  case_bool_decide as Hx; [set_solver|]. cbn [elements]. rewrite bset_insert_elem. set_solver.
Qed.

Lemma elements_fields w es :
  let w' := foldl gcs_add_element w es in
  writer_filter w' = writer_filter w ∧ written w' = written w ∧ writer_m w' = writer_m w ∧
  (length (elements w') <= length (elements w) + length es)%nat.
Proof.
  revert w. induction es as [|x es IH]; intros w; cbn [foldl length]; [split_and!; (done || lia)|]. cbv zeta in IH.
  destruct (IH (gcs_add_element w x)) as (-> & -> & -> & Hl). unfold gcs_add_element in *.
  case_bool_decide; cbn [writer_filter written writer_m elements] in *; (split_and!; [done..|]); [lia|].
  enough (length (bset_insert x (elements w)) <= S (length (elements w)))%nat by lia. clear. induction (elements w) as [|y l IH]; cbn; [lia|].
  destruct (list_cmp _ _ _); cbn; lia.
Qed.

(** What finishing a writer leaves in a vector that was empty. *)
Lemma finish_spec w :
  written w = [] → (param (writer_filter w) < 64)%nat → Z.of_nat (length (elements w)) < 2 ^ 64 →
  let n := Z.of_nat (length (elements w)) in
  let mapped := sort_unstable (map (λ e, map_to_range (gcs_hash (writer_filter w) e) (uwrap 64 (n * writer_m w))) (elements w)) in
  ∃ rest pad, gcs_finish w = Ok (Z.of_nat (length (varint_bytes n ++ rest)), varint_bytes n ++ rest) ∧
    byte_bits rest = golombs (param (writer_filter w)) 0 mapped ++ pad ∧ ascending 0 mapped.
Proof.
  intros Hw Hp Hn n mapped. unfold gcs_finish. fold n. fold mapped. rewrite varint_encode_eq by (unfold urange; lia). cbn [result_bind].
  assert (ascending 0 mapped) as Ha.
  { assert (Forall (λ x, 0 <= x < 2 ^ 64) mapped) as Hr.
    { apply Forall_forall. intros x Hx%elem_sort. apply list_elem_of_fmap in Hx as (e & -> & _). apply (Z.mod_pos_bound _ (2 ^ 64)). lia. }
    split; [|eapply Forall_impl; [exact Hr|]; cbn; lia]. constructor; [apply sort_sorted|]. eapply Forall_impl; [exact Hr|]. cbn. lia. }
  destruct (writer_new_ok (written w ++ varint_bytes n)) as [Hok Hb]. rewrite Hw in *. cbn [app] in *.
  destruct (write_deltas_spec (param (writer_filter w)) mapped 0 _ 0 Hp Ha Hok) as (n1 & w1 & -> & Hw1 & Hb1 & Hl1). cbn [result_bind].
  destruct (flush_spec w1 Hw1) as (n2 & w2 & pad & -> & Hb2 & _ & Hl2). cbn [writer_new out] in Hl1.
  rewrite Hb1, Hb, <- app_assoc in Hb2. destruct (byte_bits_prefix _ _ _ Hb2) as (rest & E & Hrest).
  exists rest, (replicate pad false). rewrite <- E. split_and!; [|done|done]. do 2 f_equal.
  pose proof (length_varint_bytes n). rewrite Nat.add_0_r in Hl1. lia.
Qed.

Lemma existsb_sort {A} f (g : A → Z) l : existsb f (sort_unstable (map g l)) = existsb (λ a, f (g a)) l.
Proof.
  apply eq_true_iff_eq. rewrite !existsb_exists. setoid_rewrite <- list_elem_of_In. split.
  - intros (x & Hx%elem_sort & Hf). apply list_elem_of_fmap in Hx as (a & -> & Ha). by exists a.
  - intros (a & Ha & Hf). exists (g a). split; [|done]. apply sort_elem, list_elem_of_fmap. by exists a.
Qed.

Lemma forallb_sort {A} f (g : A → Z) l : forallb f (dedup (sort_unstable (map g l))) = forallb (λ a, f (g a)) l.
Proof.
  apply eq_true_iff_eq. rewrite !forallb_forall. setoid_rewrite <- list_elem_of_In. setoid_rewrite dedup_elem. setoid_rewrite sort_elem. split.
  - intros Hf a Ha. apply Hf, list_elem_of_fmap. by exists a.
  - intros Hf x (a & -> & Ha)%list_elem_of_fmap. by apply Hf.
Qed.

Lemma mem_sort {A} (g : A → Z) l q : mem (sort_unstable (map g l)) q = existsb (λ a, g a =? q) l.
Proof.
  apply eq_true_iff_eq. unfold mem. rewrite bool_decide_eq_true, sort_elem, existsb_exists, list_elem_of_fmap. setoid_rewrite <- list_elem_of_In. split.
  - intros (a & -> & Ha). exists a. split; [done|apply Z.eqb_refl].
  - intros (a & Ha & <-%Z.eqb_eq). by exists a.
Qed.

(** The answer of a filter holding [es] to one query. *)
Definition answers (f : GcsFilter) (m : Z) (es : list (list byte)) (q : list byte) : bool :=
  let nm := uwrap 64 (Z.of_nat (length es) * m) in
  existsb (λ e, map_to_range (gcs_hash f e) nm =? map_to_range (gcs_hash f q) nm) es.

Lemma match_content f m es rest pad :
  (param f < 64)%nat → Z.of_nat (length es) < 2 ^ 64 →
  let n := Z.of_nat (length es) in
  let mapped := sort_unstable (map (λ e, map_to_range (gcs_hash f e) (uwrap 64 (n * m))) es) in
  byte_bits rest = golombs (param f) 0 mapped ++ pad → ascending 0 mapped →
  ∀ query,
    gcs_match_any {| reader_filter := f; reader_m := m |} (varint_bytes n ++ rest) query = Ok (existsb (answers f m es) query) ∧
    gcs_match_all {| reader_filter := f; reader_m := m |} (varint_bytes n ++ rest) query = Ok (forallb (answers f m es) query).
Proof.
  intros Hp Hn n mapped Hb Ha query. unfold gcs_match_any, gcs_match_all, read_count.
  rewrite varint_decode_app by (unfold urange; lia). cbn [reader_filter reader_m]. set (nm := uwrap 64 (n * m)) in *.
  set (h := λ e, map_to_range (gcs_hash f e) nm) in *.
  assert (length mapped = length es) as Hlen by (subst mapped; by rewrite sort_length, length_map).
  destruct query as [|q qs]; [done|].
  assert (sort_unstable (map h (q :: qs)) ≠ []) as Hne by (by rewrite sort_nil).
  destruct (sort_unstable (map h (q :: qs))) as [|y ys] eqn:Es; [done|]. destruct (dedup_cons y ys) as [zs Ez].
  rewrite Ez. rewrite !bool_decide_false by done. rewrite <- Ez, <- Es.
  assert (∀ e, mem mapped (h e) = answers f m es e) as Hans by (intros e; subst mapped; apply mem_sort).
  destruct (Z.eqb_spec n 0) as [H0|H0].
  { assert (es = []) as -> by (apply nil_length_inv; lia). split; [|done]. f_equal. clear. by induction (q :: qs) as [|x l IH]. }
  destruct mapped as [|x l] eqn:Em; [cbn in Hlen; lia|]. cbn [length] in Hlen.
  destruct (reader_new_ok rest) as [Hrok Hrb].
  destruct (holds_next (param f) (reader_new rest) 0 x l Hp ltac:(lia) Ha) as (r & -> & Hr).
  { split; [done|]. exists pad. by rewrite Hrb. }
  cbn [result_bind]. rewrite Z.sub_0_r. apply ascending_cons in Ha as [Hx Ha].
  replace (Z.to_nat (n - 1)) with (length l) by lia.
  rewrite any_loop_spec, all_loop_spec by (done || apply sort_sorted || (apply dedup_sorted, sort_sorted) || lia).
  cbn [result_map_err]. rewrite existsb_sort, forallb_sort. split; f_equal.
  - apply existsb_ext_in. by apply Forall_forall.
  - apply forallb_ext_in. by apply Forall_forall.
Qed.

(** ** Filters of blocks *)

Section FilterLemmas.
Context `{PublicKeys}.

(** Adding scripts to the writer of a block. *)
Definition with_elements (w : BlockFilterWriter) (es : list (list byte)) : BlockFilterWriter :=
  {| filter_block := filter_block w; filter_writer := foldl gcs_add_element (filter_writer w) es |}.

Definition output_scripts (b : Block) : list (list byte) :=
  txdata b ≫= λ t, filter (λ s, is_op_return s = false) (map script_pubkey (Transaction.output t)).

Lemma with_elements_app w a b : with_elements w (a ++ b) = with_elements (with_elements w a) b.
Proof. unfold with_elements. cbn [filter_block filter_writer]. by rewrite foldl_app. Qed.

Lemma with_elements_nil w : with_elements w [] = w.
Proof. by destruct w. Qed.

Lemma add_output_scripts_spec w : add_output_scripts w = with_elements w (output_scripts (filter_block w)).
Proof.
  unfold add_output_scripts, output_scripts. assert (∀ w outs,
    foldl (λ self output, if is_op_return (script_pubkey output) then self else add_element self (script_pubkey output)) w outs =
    with_elements w (filter (λ s, is_op_return s = false) (map script_pubkey outs))) as Hin.
  { clear. intros w outs. revert w. induction outs as [|o outs IH]; intros w; cbn [foldl map]; [by rewrite filter_nil, with_elements_nil|].
    rewrite filter_cons. destruct (is_op_return (script_pubkey o)); cbn [decide]; [by rewrite decide_False by done|].
    rewrite decide_True by done. rewrite IH. done. }
  generalize (txdata (filter_block w)) as txs. intros txs. revert w. induction txs as [|t txs IH]; intros w; cbn [foldl]; [by destruct w|].
  rewrite Hin, IH, bind_cons, with_elements_app. done.
Qed.

(** The scripts of the coins, when they are all known. *)
Lemma input_loop_spec sfc coins w :
  match mapM (λ c, match sfc c with Ok s => Some s | Err _ => None end) coins with
  | Some scripts => input_loop sfc coins w = Ok (with_elements w scripts)
  | None => ∃ c e, c ∈ coins ∧ sfc c = Err e ∧ input_loop sfc coins w = Err e
  end.
Proof.
  revert w. induction coins as [|c coins IH]; intros w; cbn [mapM input_loop]; [by destruct w|].
  destruct (sfc c) as [s|e] eqn:E; cbn [mbind option_bind]; [|exists c, e; split_and!; [left|done|done]].
  specialize (IH (add_element w s)). destruct (mapM _ coins) as [scripts|].
  - cbn [mbind option_bind]. rewrite IH. done.
  - destruct IH as (c' & e & Hin & He & Hl). exists c', e. split_and!; [by right|done|done].
Qed.
End FilterLemmas.

(** ** Properties *)

(** The value of an element in a set of [n], by the reference SipHash. *)
Definition mapped_value (f : GcsFilter) (nm : Z) (e : list byte) : Z := map_to_range (siphash_spec (key0 f) (key1 f) e) nm.

Lemma mapped_value_eq f nm e : map_to_range (gcs_hash f e) nm = mapped_value f nm e.
Proof. unfold mapped_value, gcs_hash. by rewrite hash_to_u64_spec. Qed.

Definition contains (f : GcsFilter) (nm : Z) (es : list (list byte)) (q : list byte) : bool :=
  existsb (λ e, negb (bool_decide (e = [])) && (mapped_value f nm e =? mapped_value f nm q)) es.

Lemma contains_self f nm es q : q ∈ es → q ≠ [] → contains f nm es q = true.
Proof.
  intros Hin Hne. apply existsb_exists. exists q. split; [by apply list_elem_of_In|]. rewrite Z.eqb_refl. by destruct q.
Qed.

Lemma answers_contains f m es es' q :
  (∀ e, e ∈ es' ↔ e ∈ es ∧ e ≠ []) → answers f m es' q = contains f (uwrap 64 (Z.of_nat (length es') * m)) es q.
Proof.
  intros He. apply eq_true_iff_eq. unfold answers, contains. rewrite !existsb_exists. setoid_rewrite <- list_elem_of_In. split.
  - intros (e & [Hin Hne]%He & Hv). rewrite !mapped_value_eq in Hv. exists e. split; [done|]. by destruct e.
  - intros (e & Hin & [Hne Hv]%andb_prop). exists e. split; [apply He; split; [done|by destruct e]|]. by rewrite !mapped_value_eq.
Qed.

Lemma gcs_roundtrip f m es :
  (param f < 64)%nat → 0 < m → Z.of_nat (length es) * m < 2 ^ 64 →
  let w := foldl gcs_add_element (gcs_writer_new [] (key0 f) (key1 f) m (param f)) es in
  let nm := Z.of_nat (length (elements w)) * m in
  ∃ content, gcs_finish w = Ok (Z.of_nat (length content), content) ∧
    ∀ query, gcs_match_any {| reader_filter := f; reader_m := m |} content query = Ok (existsb (contains f nm es) query) ∧
      gcs_match_all {| reader_filter := f; reader_m := m |} content query = Ok (forallb (contains f nm es) query).
Proof.
  intros Hp Hm Hl w nm. destruct (elements_fields (gcs_writer_new [] (key0 f) (key1 f) m (param f)) es) as (Hf & Hw & Hwm & Hle).
  fold w in Hf, Hw, Hwm, Hle. cbn [writer_filter written writer_m elements gcs_writer_new length] in *. rewrite Nat.add_0_l in Hle.
  assert (writer_filter w = f) as Hff by (rewrite Hf; by destruct f).
  assert (Z.of_nat (length (elements w)) < 2 ^ 64) as H64 by nia.
  destruct (finish_spec w Hw ltac:(by rewrite Hff) H64) as (rest & pad & Hfin & Hb & Ha). rewrite Hff, Hwm in Hb, Ha.
  eexists. split; [exact Hfin|]. intros query. destruct (match_content f m (elements w) rest pad Hp H64 Hb Ha query) as [-> ->].
  assert (∀ q, answers f m (elements w) q = contains f nm es q) as Hans.
  { intros q. rewrite (answers_contains _ _ es); [by rewrite uwrap_small by (unfold urange; subst nm; nia)|].
    intros e. unfold w. rewrite elements_elem. cbn [elements gcs_writer_new]. set_solver. }
  split; f_equal; [apply existsb_ext_in|apply forallb_ext_in]; by apply Forall_forall.
Qed.

(** C21: a Golomb-coded set answers exactly. For a parameter below 64 (the shifts of
    [u64] by it) and a range that fits 64 bits, the filter written from a list of
    elements (duplicates and empty ones are dropped) reports the bytes it wrote,
    and both queries, which decode it once against the sorted queries, never fail
    on it and answer as if each query were compared with every element: it
    matches when some element has the same SipHash value in the range of the
    set. In particular there are no false negatives. *)
Theorem gcs_filter_exact f m es :
  (param f < 64)%nat → 0 < m → Z.of_nat (length es) * m < 2 ^ 64 →
  let w := foldl gcs_add_element (gcs_writer_new [] (key0 f) (key1 f) m (param f)) es in
  let nm := Z.of_nat (length (elements w)) * m in
  (∀ e, e ∈ elements w ↔ e ∈ es ∧ e ≠ []) ∧
  ∃ content, gcs_finish w = Ok (Z.of_nat (length content), content) ∧
    (∀ query, gcs_match_any {| reader_filter := f; reader_m := m |} content query = Ok (existsb (contains f nm es) query) ∧
       gcs_match_all {| reader_filter := f; reader_m := m |} content query = Ok (forallb (contains f nm es) query)) ∧
    (∀ q, q ∈ es → q ≠ [] → contains f nm es q = true).
Proof.
  intros Hp Hm Hl w nm. destruct (gcs_roundtrip f m es Hp Hm Hl) as (content & Hfin & Hq). fold w nm in Hfin, Hq.
  split; [intros e; unfold w; rewrite elements_elem; cbn [elements gcs_writer_new]; set_solver|].
  exists content. split; [exact Hfin|]. split; [exact Hq|]. intros q Hin Hne. by apply contains_self.
Qed.

Definition sample_filter : GcsFilter := {| key0 := 1; key1 := 2; param := 19 |}.

Lemma gcs_filter_exact_witness :
  ∃ content, gcs_finish (foldl gcs_add_element (gcs_writer_new [] 1 2 784931 19) [[x01]; [x02; x03]; [x01]; []]) = Ok (7, content) ∧
    gcs_match_any {| reader_filter := sample_filter; reader_m := 784931 |} content [[x05]; [x02; x03]] = Ok true ∧
    gcs_match_all {| reader_filter := sample_filter; reader_m := 784931 |} content [[x05]; [x02; x03]] = Ok false.
Proof.
  destruct (gcs_filter_exact sample_filter 784931 [[x01]; [x02; x03]; [x01]; []]) as (_ & content & Hfin & Hq & _);
    [vm_compute; lia|lia|vm_compute; reflexivity|].
  exists content. destruct (Hq [[x05]; [x02; x03]]) as [-> ->]. split; [|split; vm_compute; reflexivity].
  pose proof Hfin as Hfin'. vm_compute in Hfin'. injection Hfin' as _ <-. exact Hfin.
Defined.

Section FilterTheorems.
Context `{PublicKeys}.

(** The filter of a block. When the scripts of all the coins it spends are
    known, [new_script_filter] succeeds and the filter answers exactly for the
    scripts of its outputs that are not OP_RETURN and those of the coins spent
    from the second transaction on: no script of the block is missed, and a
    match is always explained by an equal hash value. When a script is not
    known, it fails with the error given for such a coin. *)
Theorem block_filter_exact b h sfc :
  block_hash b = Some h →
  let f := reader_filter (block_filter_reader h) in
  match mapM (λ c, match sfc c with Ok s => Some s | Err _ => None end) (spent_coins b) with
  | Some scripts =>
      let es := output_scripts b ++ scripts in
      Z.of_nat (length es) * M < 2 ^ 64 →
      ∃ filter nm, new_script_filter b sfc = Some (Ok filter) ∧
        (∀ query, filter_match_any filter h query = Ok (existsb (contains f nm es) query) ∧
           filter_match_all filter h query = Ok (forallb (contains f nm es) query)) ∧
        (∀ q, q ∈ es → q ≠ [] → contains f nm es q = true)
  | None => ∃ c e, c ∈ spent_coins b ∧ sfc c = Err e ∧ new_script_filter b sfc = Some (Err e)
  end.
Proof.
  intros Hh f. unfold new_script_filter, block_filter_writer, add_input_scripts. rewrite Hh. cbn [mbind option_bind].
  rewrite add_output_scripts_spec. cbn [filter_block with_elements].
  set (w := with_elements _ _). pose proof (input_loop_spec sfc (spent_coins b) w) as Hi.
  destruct (mapM _ (spent_coins b)) as [scripts|].
  - set (es := output_scripts b ++ scripts). intros Hl. rewrite Hi. cbn [result_bind]. subst w. rewrite <- with_elements_app. fold es. unfold filter_finish. cbn [with_elements filter_writer].
    destruct (gcs_roundtrip f M es ltac:(unfold f; cbn [block_filter_reader reader_filter param]; unfold P; lia) ltac:(done) Hl) as (content & Hfin & Hq). cbn [f reader_filter block_filter_reader key0 key1 param] in Hfin.
    rewrite Hfin. cbn [result_map_err result_bind]. eexists {| content := content |}, _. split; [done|]. split; [exact Hq|].
    intros q Hin Hne. by apply contains_self.
  - destruct Hi as (c & e & Hin & He & ->). exists c, e. done.
Qed.
End FilterTheorems.

Lemma block_filter_exact_witness :
  ∃ h filter, block_hash sample_block = Some h ∧
    new_script_filter sample_block (λ _, Err (UtxoMissing {| txid := []; vout := 0 |})) = Some (Ok filter) ∧
    filter_match_any filter h [] = Ok false.
Proof.
  destruct (header_encodes sample_header sample_header_wf) as (bs & _ & _ & Hh).
  pose proof (block_filter_exact (H := PlainKeys.plain_keys) sample_block _ (λ _, Err (UtxoMissing {| txid := []; vout := 0 |})) Hh) as Hf.
  cbv zeta in Hf. destruct (Hf ltac:(vm_compute; reflexivity)) as (filter & nm & Hn & Hq & _).
  exists (sha256d_hash bs), filter. split; [exact Hh|]. split; [exact Hn|]. rewrite (proj1 (Hq [])). reflexivity.
Defined.
