(* ===== verification/Bip152.v ===== *)
(** Compact blocks ([src/litecoin/src/bip152.rs]): prefilled transactions, short
    identifiers, the message made from a block, the request for missing
    transactions and its answer. *)

From S2P Require Import Witness.
From Stdlib Require Import String ZArith Lia ZifyBool.
From stdpp Require Import base list sorting.
From Stdlib Require Import Init.Byte.
From coqutil Require Import Byte Word.LittleEndianList.
From S2P Require Import Prelude Io HashEngine Sha256 SipHash Encode Mimblewimble Transaction Block.

Inductive Error := UnknownVersion | InvalidPrefill.

(** ** Short identifiers *)

(** The first sixteen bytes of the single SHA-256 of the header and the nonce;
    [None] is the panic of [expect("engines don't error")]. *)
Definition calculate_siphash_keys (header : Header.Header) (nonce : Z) : option (Z * Z) :=
  match (let+ _ := c_enc Header.header_codec header in c_enc u64 nonce) with
  | Ok (_, bs) =>
      let h := sha256_hash bs in
      Some (le_combine (take 8 h), le_combine (take 8 (drop 8 h)))
  | Err _ => None
  end.

Definition with_siphash_keys (txid : list byte) (siphash_keys : Z * Z) : list byte :=
  take 6 (hash_with_keys (fst siphash_keys) (snd siphash_keys) txid).

Definition short_id_codec : codec (list byte) := array 6.

(** ** The messages *)

Section Messages.
Context `{PublicKeys}.

Record PrefilledTransaction := { idx : Z; tx : Transaction }.

Definition prefilled_encode (p : PrefilledTransaction) : wr Z :=
  let+ len := w_add 0 (c_enc varint (idx p)) in w_add len (c_enc transaction_codec (tx p)).

Definition prefilled_decode : rd PrefilledTransaction :=
  let! idx := c_dec_top varint in
  let! idx := (if idx <=? 0xFFFF then rd_ret idx
               else rd_err (ParseFailed "BIP152 prefilled tx index out of bounds")) in
  let! tx := c_dec_top transaction_codec in
  rd_ret {| idx := idx; tx := tx |}.

Definition prefilled_codec : codec PrefilledTransaction := fixed_codec prefilled_encode prefilled_decode.

Record HeaderAndShortIds := {
  cmpct_header : Header.Header; cmpct_nonce : Z; short_ids : list (list byte);
  prefilled_txs : list PrefilledTransaction }.

Definition cmpct_encode (c : HeaderAndShortIds) : wr Z :=
  let len := 0 in
  let+ len := w_add len (c_enc Header.header_codec (cmpct_header c)) in
  let+ len := w_add len (c_enc u64 (cmpct_nonce c)) in
  let+ len := w_add len (c_enc (vec short_id_codec) (short_ids c)) in
  let+ len := w_add len (c_enc (vec prefilled_codec) (prefilled_txs c)) in
  w_ret len.

Definition cmpct_decode : rd HeaderAndShortIds :=
  let! header := c_dec Header.header_codec in
  let! nonce := c_dec u64 in
  let! short_ids := c_dec (vec short_id_codec) in
  let! prefilled_txs := c_dec (vec prefilled_codec) in
  rd_ret {| cmpct_header := header; cmpct_nonce := nonce; short_ids := short_ids; prefilled_txs := prefilled_txs |}.

Definition cmpct_decode_top : rd HeaderAndShortIds :=
  rd_take MAX_VEC_SIZE
    (let! header := c_dec_top Header.header_codec in
     let! nonce := c_dec_top u64 in
     let! short_ids := c_dec_top (vec short_id_codec) in
     let! prefilled_txs := c_dec_top (vec prefilled_codec) in
     rd_ret {| cmpct_header := header; cmpct_nonce := nonce; short_ids := short_ids;
               prefilled_txs := prefilled_txs |}).

Definition cmpct_codec : codec HeaderAndShortIds := Codec cmpct_encode cmpct_decode cmpct_decode_top.

(** *** [HeaderAndShortIds::from_block] *)

(** The transaction as version 1 sends it, without witnesses. *)
Definition strip_witnesses (t : Transaction) : Transaction :=
  {| Transaction.version := Transaction.version t; lock_time := lock_time t;
     input := map (λ i, with_witness i witness_new) (input t);
     output := output t; mw_tx := mw_tx t; is_hog_ex := is_hog_ex t |}.

(** What the two [match version] choose: 1 or, once the version is checked, 2. *)
Definition prefilled_form (version : Z) (t : Transaction) : Transaction :=
  if version =? 1 then strip_witnesses t else t.
Definition relay_id (version : Z) (t : Transaction) : option (list byte) :=
  if version =? 1 then compute_txid t else compute_wtxid t.

(** [for (idx, tx) in block.txdata.iter().enumerate()]: the rest of the prefill
    slice and the two vectors. *)
Fixpoint from_block_loop (version : Z) (siphash_keys : Z * Z) (txdata : list Transaction) (idx last_prefill : Z)
    (prefill : list Z) (prefilled : list PrefilledTransaction) (short_ids : list (list byte)) :
    option (list Z * list PrefilledTransaction * list (list byte)) :=
  match txdata with
  | [] => Some (prefill, prefilled, short_ids)
  | tx :: txdata =>
      let '(prefill, prefill_tx) :=
        if bool_decide (head prefill = Some idx) then (drop 1 prefill, true) else (prefill, idx =? 0) in
      if prefill_tx : bool then
        let diff_idx := idx - last_prefill in
        from_block_loop version siphash_keys txdata (idx + 1) (idx + 1) prefill
          (prefilled ++ [{| idx := uwrap 16 diff_idx; tx := prefilled_form version tx |}]) short_ids
      else
        id ← relay_id version tx;
        from_block_loop version siphash_keys txdata (idx + 1) last_prefill prefill prefilled
          (short_ids ++ [with_siphash_keys id siphash_keys])
  end.

(** [None] is a panic: of a hash engine, or of [block.txdata.len() - prefill.len()],
    which underflows (without overflow checks, the capacity it asks for is refused). *)
Definition from_block (block : Block) (nonce version : Z) (prefill : list Z) : option (result Error HeaderAndShortIds) :=
  if negb (version =? 1) && negb (version =? 2) then Some (Err UnknownVersion)
  else
    siphash_keys ← calculate_siphash_keys (header block) nonce;
    if (length (txdata block) <? length prefill)%nat then None
    else
      '(prefill, prefilled, short_ids) ← from_block_loop version siphash_keys (txdata block) 0 0 prefill [] [];
      Some (match prefill with
            | [] => Ok {| cmpct_header := header block; cmpct_nonce := nonce; short_ids := short_ids;
                          prefilled_txs := prefilled |}
            | _ => Err InvalidPrefill
            end).

(** *** [BlockTransactionsRequest] *)

Record BlockTransactionsRequest := { request_hash : list byte; indexes : list Z }.

(** The loop over the indexes.  [idx - last_idx] and [idx + 1] are not checked: they
    wrap in a release build (the documented panic is that of a debug build). *)
Fixpoint encode_indexes (len last_idx : Z) (indexes : list Z) : wr Z :=
  match indexes with
  | [] => w_ret len
  | idx :: indexes =>
      let+ len := w_add len (c_enc varint (uwrap 64 (idx - last_idx))) in
      encode_indexes len (uwrap 64 (idx + 1)) indexes
  end.

Definition request_encode (r : BlockTransactionsRequest) : wr Z :=
  let+ len := w_add 0 (c_enc (array 32) (request_hash r)) in
  let+ len := w_add len (c_enc varint (Z.of_nat (length (indexes r)))) in
  encode_indexes len 0 (indexes r).

Definition block_index_overflow : Encode.Error := ParseFailed "block index overflow".

(** One round of [for _ in 0..nb_indexes]. *)
Definition decode_index (st : list Z * Z) : rd (list Z * Z) :=
  let '(indexes, last_index) := st in
  let! differential := c_dec_top varint in
  if last_index + differential <=? U64_MAX then
    let last_index := last_index + differential in
    let indexes := indexes ++ [last_index] in
    if last_index + 1 <=? U64_MAX then rd_ret (indexes, last_index + 1) else rd_err block_index_overflow
  else rd_err block_index_overflow.

(** [tx_size]: [mem::size_of::<Transaction>()], which is the compiler's. *)
Definition request_decode (tx_size : Z) : rd BlockTransactionsRequest :=
  let! block_hash := c_dec_top (array 32) in
  let! nb_indexes := c_dec_top varint in
  let byte_size := nb_indexes * tx_size in
  if U64_MAX <? byte_size then rd_err (ParseFailed "Invalid length")
  else if MAX_VEC_SIZE <? byte_size then rd_err (OversizedVectorAllocation byte_size MAX_VEC_SIZE)
  else
    let! st := rd_for nb_indexes decode_index ([], 0) in
    rd_ret {| request_hash := block_hash; indexes := fst st |}.

(** *** [BlockTransactions] *)

Record BlockTransactions := { reply_hash : list byte; transactions : list Transaction }.

Fixpoint request_loop (txdata : list Transaction) (indexes : list Z) (txs : list Transaction) :
    result Z (list Transaction) :=
  match indexes with
  | [] => Ok txs
  | idx :: indexes =>
      if Z.of_nat (length txdata) <=? idx then Err idx
      else
        match txdata !! Z.to_nat idx with
        | Some tx => request_loop txdata indexes (txs ++ [tx])
        | None => Err idx
        end
  end.

(** The error is [TxIndexOutOfRangeError]. *)
Definition from_request (request : BlockTransactionsRequest) (block : Block) : result Z BlockTransactions :=
  let? txs := request_loop (txdata block) (indexes request) [] in
  Ok {| reply_hash := request_hash request; transactions := txs |}.

Definition reply_encode (r : BlockTransactions) : wr Z :=
  let len := 0 in
  let+ len := w_add len (c_enc (array 32) (reply_hash r)) in
  let+ len := w_add len (c_enc (vec transaction_codec) (transactions r)) in
  w_ret len.

Definition reply_decode : rd BlockTransactions :=
  let! block_hash := c_dec (array 32) in
  let! transactions := c_dec (vec transaction_codec) in
  rd_ret {| reply_hash := block_hash; transactions := transactions |}.

Definition reply_decode_top : rd BlockTransactions :=
  rd_take MAX_VEC_SIZE
    (let! block_hash := c_dec_top (array 32) in
     let! transactions := c_dec_top (vec transaction_codec) in
     rd_ret {| reply_hash := block_hash; transactions := transactions |}).

Definition reply_codec : codec BlockTransactions := Codec reply_encode reply_decode reply_decode_top.

End Messages.

(** ** Increasing indexes *)

Definition increasing (lo hi : Z) (l : list Z) : Prop := StronglySorted Z.lt l ∧ Forall (λ x, lo <= x < hi) l.

Lemma increasing_nil lo hi : increasing lo hi [].
Proof. split; constructor. Qed.

Lemma increasing_cons lo hi x l : increasing lo hi (x :: l) ↔ lo <= x < hi ∧ increasing (x + 1) hi l.
Proof.
  split.
  - intros [Hs Hf]. apply Forall_cons in Hf as [Hx Hf]. apply StronglySorted_inv in Hs as [Hs Hl].
    split; [done|]. split; [done|]. rewrite Forall_forall in Hl, Hf |- *. intros y Hy.
    specialize (Hl y Hy). specialize (Hf y Hy). cbn in Hf. lia.
  - intros [Hx [Hs Hf]]. split.
    + constructor; [done|]. eapply Forall_impl; [exact Hf|]. cbn. lia.
    + constructor; [done|]. eapply Forall_impl; [exact Hf|]. cbn. lia.
Qed.

Lemma increasing_weaken lo lo' hi l : lo' <= lo → increasing lo hi l → increasing lo' hi l.
Proof. intros Hlo [Hs Hf]. split; [done|]. eapply Forall_impl; [exact Hf|]. cbn. lia. Qed.

Lemma increasing_skip lo hi l : increasing lo hi l → head l ≠ Some lo → increasing (lo + 1) hi l.
Proof.
  destruct l as [|x l]; [intros; apply increasing_nil|]. rewrite !increasing_cons. cbn. intros [Hx Hl] Hne.
  split; [|done]. assert (x ≠ lo) by congruence. lia.
Qed.

Lemma increasing_empty lo hi l : hi <= lo → increasing lo hi l → l = [].
Proof. destruct l as [|x l]; [done|]. rewrite increasing_cons. lia. Qed.

(** *** The request *)

Section Requests.
Context `{PublicKeys}.

(** The differences that are written. *)
Fixpoint differences (last : Z) (l : list Z) : list Z :=
  match l with [] => [] | x :: l => uwrap 64 (x - last) :: differences (uwrap 64 (x + 1)) l end.

Lemma differences_range l last : Forall (urange 64) (differences last l).
Proof. revert last. induction l as [|x l IH]; intros last; constructor; [by apply uwrap_range|apply IH]. Qed.

Lemma encode_indexes_bytes l last len :
  let bs := concat (map varint_bytes (differences last l)) in
  encode_indexes len last l = Ok (len + Z.of_nat (length bs), bs).
Proof.
  revert last len. induction l as [|x l IH]; intros last len; [cbn; by rewrite Z.add_0_r|].
  cbn [encode_indexes differences map concat]. pose proof (uwrap_range 64 (x - last) ltac:(lia)) as Hd.
  erewrite w_bind_of; [|apply w_add_of, (varint_encodes _ Hd)|apply IH].
  by rewrite length_app, Nat2Z.inj_add, length_varint_bytes, Z.add_assoc.
Qed.

Lemma differences_increasing l last x :
  0 <= last → increasing last U64_MAX (x :: l) →
  uwrap 64 (x - last) = x - last ∧ uwrap 64 (x + 1) = x + 1 ∧ increasing (x + 1) U64_MAX l.
Proof.
  intros Hlast [Hx Hl]%increasing_cons. split_and!; [| |done]; apply uwrap_small; unfold urange, U64_MAX in *; lia.
Qed.

(** One round of the decoder on a difference. *)
Lemma decode_index_app acc last d rest :
  urange 64 d →
  decode_index (acc, last) (varint_bytes d ++ rest) =
    if last + d + 1 <=? U64_MAX then Ok ((acc ++ [last + d], last + d + 1), rest) else Err block_index_overflow.
Proof.
  intros Hd. unfold decode_index, rd_bind at 1. change (c_dec_top varint) with varint_decode.
  rewrite (varint_decode_app _ _ Hd). destruct (Z.leb_spec (last + d) U64_MAX), (Z.leb_spec (last + d + 1) U64_MAX); (done || lia).
Qed.

(** What the decoder makes of the differences of any indexes: the indexes when they
    are strictly increasing and below the greatest [u64], an error otherwise. *)
Lemma decode_differences l acc last rest :
  0 <= last → Forall (urange 64) l →
  let decoded := nat_loop (λ st, decode_index st.1 st.2) (length l)
    ((acc, last), concat (map varint_bytes (differences last l)) ++ rest) in
  (increasing last U64_MAX l → ∃ last', decoded = Ok ((acc ++ l, last'), rest)) ∧
  (¬ increasing last U64_MAX l → last <= U64_MAX → decoded = Err block_index_overflow).
Proof.
  revert last acc. induction l as [|x l IH]; intros last acc Hlast Hl.
  { split; [intros _; exists last; by rewrite app_nil_r|intros []; apply increasing_nil]. }
  apply Forall_cons in Hl as [Hx Hl]. cbn [length nat_loop differences map concat fst snd]. rewrite <- app_assoc.
  rewrite (decode_index_app _ _ _ _ (uwrap_range 64 (x - last) ltac:(lia))).
  destruct (decide (last <= x < U64_MAX)) as [Hb|Hb].
  - assert (uwrap 64 (x - last) = x - last ∧ uwrap 64 (x + 1) = x + 1) as [-> ->]
      by (split; apply uwrap_small; unfold urange, U64_MAX in *; lia).
    replace (last + (x - last)) with x by lia. destruct (Z.leb_spec (x + 1) U64_MAX); [|lia]. cbn [result_bind].
    rewrite increasing_cons. destruct (IH (x + 1) (acc ++ [x]) ltac:(lia) Hl) as [IH1 IH2]. split.
    + intros [_ Hi]. destruct (IH1 Hi) as (last' & ->). exists last'. by rewrite <- app_assoc.
    + intros Hi _. apply IH2; [|lia]. intros Hi'. by apply Hi.
  - split; [intros Hi; by apply increasing_cons in Hi as [? _]|]. intros _ Hmax.
    destruct (Z.leb_spec (last + uwrap 64 (x - last) + 1) U64_MAX) as [Hle|]; [exfalso|done].
    unfold uwrap, urange, U64_MAX in *. change (2 ^ 64) with 18446744073709551616 in *.
    destruct (Z.lt_ge_cases x last).
    + rewrite <- (Z_mod_plus_full _ 1), Z.mod_small in Hle by lia. lia.
    + rewrite Z.mod_small in Hle by lia. lia.
Qed.

Lemma decode_indexes_ok n acc last s st rest :
  0 <= last → nat_loop (λ st, decode_index st.1 st.2) n ((acc, last), s) = Ok (st, rest) →
  ∃ l, st.1 = acc ++ l ∧ length l = n ∧ increasing last U64_MAX l ∧
    s = concat (map varint_bytes (differences last l)) ++ rest.
Proof.
  revert acc last s. induction n as [|n IH]; intros acc last s Hlast Hd.
  - cbn in Hd. injection Hd as <- <-. exists []. rewrite app_nil_r. split_and!; try done. apply increasing_nil.
  - cbn [nat_loop fst snd] in Hd. destruct (decode_index _ _) as [[st' s']|] eqn:Hs; [|done]. cbn [result_bind] in Hd.
    unfold decode_index in Hs. apply rd_bind_ok in Hs as (d & s1 & Hv & Hs).
    change (c_dec_top varint) with varint_decode in Hv. apply varint_decode_ok in Hv as [Hr ->].
    destruct (Z.leb_spec (last + d) U64_MAX); [|done]. destruct (Z.leb_spec (last + d + 1) U64_MAX); [|done].
    injection Hs as <- <-. unfold urange in Hr.
    destruct (IH _ (last + d + 1) s1 ltac:(lia) Hd) as (l & -> & <- & Hi & ->).
    assert (increasing last U64_MAX (last + d :: l)) as Hil by (apply increasing_cons; split; [lia|done]).
    exists (last + d :: l). cbn [differences map concat]. rewrite <- !app_assoc.
    destruct (differences_increasing _ _ _ Hlast Hil) as (-> & -> & _).
    replace (last + d - last) with d by lia. by split_and!.
Qed.

(** The requests that have an encoding a peer accepts. *)
Definition request_wf (tx_size : Z) (r : BlockTransactionsRequest) : Prop :=
  is_array 32 (request_hash r) ∧ increasing 0 U64_MAX (indexes r) ∧
  Z.of_nat (length (indexes r)) * tx_size <= MAX_VEC_SIZE ∧ Z.of_nat (length (indexes r)) < 2 ^ 64.

Lemma read_hash s h rest : c_dec_top (array 32) s = Ok (h, rest) ↔ s = h ++ rest ∧ is_array 32 h.
Proof. apply read_slice_ok. lia. Qed.

Definition request_bytes (r : BlockTransactionsRequest) : list byte :=
  request_hash r ++ varint_bytes (Z.of_nat (length (indexes r))) ++ concat (map varint_bytes (differences 0 (indexes r))).

Lemma request_encode_bytes r :
  urange 64 (Z.of_nat (length (indexes r))) →
  request_encode r = Ok (Z.of_nat (length (request_bytes r)), request_bytes r).
Proof.
  intros Hu. unfold request_encode, request_bytes.
  eapply w_bind_of; [apply w_add_of; cbn; by rewrite app_nil_r|].
  eapply w_bind_of; [apply w_add_of; by apply varint_encode_eq|]. rewrite encode_indexes_bytes.
  rewrite !length_app, !Nat2Z.inj_add, length_varint_bytes. do 2 f_equal. lia.
Qed.

(** The decoder up to the indexes. *)
Lemma request_decode_indexes tx_size r rest :
  is_array 32 (request_hash r) → Z.of_nat (length (indexes r)) * tx_size <= MAX_VEC_SIZE →
  urange 64 (Z.of_nat (length (indexes r))) →
  request_decode tx_size (request_bytes r ++ rest) =
    result_bind (nat_loop (λ st, decode_index st.1 st.2) (length (indexes r))
      (([], 0), concat (map varint_bytes (differences 0 (indexes r))) ++ rest))
      (λ '(st, s), Ok ({| request_hash := request_hash r; indexes := st.1 |}, s)).
Proof.
  intros Hh Hc Hu. unfold request_decode, request_bytes, rd_bind at 1. rewrite <- !app_assoc.
  rewrite (proj2 (read_hash _ (request_hash r) _)) by done. unfold rd_bind at 1.
  change (c_dec_top varint) with varint_decode. rewrite (varint_decode_app _ _ Hu).
  destruct (Z.ltb_spec U64_MAX (Z.of_nat (length (indexes r)) * tx_size)); [unfold U64_MAX, MAX_VEC_SIZE in *; lia|].
  destruct (Z.ltb_spec MAX_VEC_SIZE (Z.of_nat (length (indexes r)) * tx_size)); [lia|].
  unfold rd_bind. by rewrite rd_for_nat, Nat2Z.id.
Qed.

(** Requests for the transactions of a compact block, with their differential
    indexes. A request whose indexes are strictly increasing and below [u64::MAX],
    and whose count the decoder allows, is written, and read back as itself; whatever
    is read is such a request, and the bytes consumed are its only encoding; and a
    request whose indexes are not so is written with wrapped differences, which the
    decoder refuses for the overflow. *)
Theorem request_codec_spec tx_size (r : BlockTransactionsRequest) s rest :
  (request_wf tx_size r → ∃ bs, request_encode r = Ok (Z.of_nat (length bs), bs) ∧
     ∀ rest, request_decode tx_size (bs ++ rest) = Ok (r, rest)) ∧
  (request_decode tx_size s = Ok (r, rest) →
     request_wf tx_size r ∧ ∃ bs, request_encode r = Ok (Z.of_nat (length bs), bs) ∧ s = bs ++ rest) ∧
  (is_array 32 (request_hash r) → Forall (urange 64) (indexes r) →
   Z.of_nat (length (indexes r)) * tx_size <= MAX_VEC_SIZE → Z.of_nat (length (indexes r)) < 2 ^ 64 →
   ¬ increasing 0 U64_MAX (indexes r) →
     ∃ bs, request_encode r = Ok (Z.of_nat (length bs), bs) ∧
       request_decode tx_size (bs ++ rest) = Err block_index_overflow).
Proof.
  split_and!.
  - intros (Hh & Hi & Hc & Hn). assert (urange 64 (Z.of_nat (length (indexes r)))) as Hu by (unfold urange; lia).
    exists (request_bytes r). split; [by apply request_encode_bytes|]. intros rest'.
    rewrite request_decode_indexes by done. assert (Forall (urange 64) (indexes r)) as Hr.
    { eapply Forall_impl; [apply Hi|]. unfold urange, U64_MAX. cbn. lia. }
    destruct (proj1 (decode_differences (indexes r) [] 0 rest' (Z.le_refl 0) Hr) Hi) as (last' & ->). by destruct r.
  - intros Hd. unfold request_decode in Hd. apply rd_bind_ok in Hd as (h & s1 & Hh & Hd).
    apply read_hash in Hh as [-> Hh]. apply rd_bind_ok in Hd as (n & s2 & Hn & Hd).
    change (c_dec_top varint) with varint_decode in Hn. apply varint_decode_ok in Hn as [Hn ->].
    destruct (Z.ltb_spec U64_MAX (n * tx_size)); [done|]. destruct (Z.ltb_spec MAX_VEC_SIZE (n * tx_size)); [done|].
    apply rd_bind_ok in Hd as (st & s3 & Hst & [= <- <-]). rewrite rd_for_nat in Hst.
    destruct (decode_indexes_ok _ _ _ _ _ _ (Z.le_refl 0) Hst) as (l & -> & Hl & Hi & ->).
    assert (Z.of_nat (length l) = n) as Hlen by (unfold urange in Hn; lia). subst n.
    cbn [app]. split; [split_and!; cbn [request_hash indexes]; [done..|unfold urange in Hn; lia]|].
    eexists. split; [by apply request_encode_bytes|]. unfold request_bytes. by rewrite <- !app_assoc.
  - intros Hh Hr Hc Hn Hi. assert (urange 64 (Z.of_nat (length (indexes r)))) as Hu by (unfold urange; lia).
    exists (request_bytes r). split; [by apply request_encode_bytes|]. rewrite request_decode_indexes by done.
    by rewrite (proj2 (decode_differences (indexes r) [] 0 rest (Z.le_refl 0) Hr) Hi).
Qed.
End Requests.

(** ** Compact blocks *)

Section Wire.
Context `{Hpk : PublicKeyLaws}.

Record prefilled_wf (p : PrefilledTransaction) : Prop := {
  pfwf_idx : 0 <= idx p <= 0xFFFF;
  pfwf_tx : tx_wf (tx p);
  pfwf_size : ∀ n bs, c_enc transaction_codec (tx p) = Ok (n, bs) → n <= MAX_VEC_SIZE }.

#[export] Instance prefilled_roundtrip : RoundTrip prefilled_codec prefilled_wf.
Proof.
  intros [i t] [Hi Ht Hs]. cbn [idx tx] in *.
  destruct (roundtrip (c := transaction_codec) t Ht) as (bs & He & Hr). specialize (Hs _ _ He).
  assert (urange 64 i) as Hu by (unfold urange; lia). exists (varint_bytes i ++ bs). split.
  - unfold encodes. cbn [c_enc prefilled_codec fixed_codec]. unfold prefilled_encode. cbn [idx tx].
    eapply w_bind_of; [apply w_add_of, (varint_encodes _ Hu)|]. erewrite w_add_of; [|exact He].
    by rewrite length_app, Nat2Z.inj_add, Z.add_0_l.
  - intros rest. change (c_dec prefilled_codec) with prefilled_decode. unfold prefilled_decode, rd_bind at 1.
    rewrite <- app_assoc. change (c_dec_top varint) with varint_decode. rewrite (varint_decode_app _ _ Hu).
    destruct (Z.leb_spec i 0xFFFF); [|lia]. unfold rd_bind at 1, rd_ret. unfold rd_bind.
    change (c_dec_top transaction_codec) with (rd_take MAX_VEC_SIZE (c_dec transaction_codec)).
    rewrite (reads_take _ _ _ MAX_VEC_SIZE Hr Hs). done.
Qed.

Record cmpct_wf (c : HeaderAndShortIds) : Prop := {
  cwf_header : header_wf (cmpct_header c);
  cwf_nonce : urange 64 (cmpct_nonce c);
  cwf_ids : vec_wf (is_array 6) (short_ids c);
  cwf_prefilled : vec_wf prefilled_wf (prefilled_txs c) }.

#[export] Instance cmpct_roundtrip : RoundTrip cmpct_codec cmpct_wf.
Proof. intros [] []. cbn in *. seg_roundtrip. Qed.

#[export] Instance reply_roundtrip : RoundTrip reply_codec (λ r, is_array 32 (reply_hash r) ∧ vec_wf tx_wf (transactions r)).
Proof. intros [] []. cbn in *. seg_roundtrip. Qed.

(** *** What is sent *)

Lemma strip_witnesses_wf t : tx_wf t → tx_wf (strip_witnesses t).
Proof.
  intros [Hv Hl [Hi Hn] Hw Ho Hm Hh]. constructor; cbn [strip_witnesses Transaction.version lock_time input output mw_tx is_hog_ex]; try done.
  - split; [|by rewrite length_map]. apply Forall_map. eapply Forall_impl; [exact Hi|]. by intros i [].
  - apply Forall_map, Forall_true. intros i. exists []. done.
Qed.

Lemma strip_witnesses_txid t : compute_txid (strip_witnesses t) = compute_txid t.
Proof.
  unfold compute_txid. f_equal. unfold base_encode. cbn [strip_witnesses Transaction.version lock_time input output].
  rewrite (vec_txin_bare (input t)). done.
Qed.

Lemma prefilled_form_txid v t : compute_txid (prefilled_form v t) = compute_txid t.
Proof. unfold prefilled_form. destruct (v =? 1); [apply strip_witnesses_txid|done]. Qed.

Lemma prefilled_form_wf v t : tx_wf t → tx_wf (prefilled_form v t).
Proof. unfold prefilled_form. destruct (v =? 1); [apply strip_witnesses_wf|done]. Qed.

Lemma relay_id_total v t : tx_wf t → is_Some (relay_id v t).
Proof. unfold relay_id. destruct (v =? 1); [apply txid_total|apply wtxid_total]. Qed.

Lemma siphash_keys_total h nonce :
  header_wf h → ∃ keys, calculate_siphash_keys h nonce = Some keys.
Proof.
  intros Hh. destruct (roundtrip (c := Header.header_codec) h Hh) as (bs & He & _).
  unfold calculate_siphash_keys. unfold encodes in He. rewrite He. by eexists.
Qed.

Lemma short_id_length id keys : is_array 6 (with_siphash_keys id keys).
Proof.
  unfold is_array, with_siphash_keys, hash_with_keys, sip_from_engine, from_u64. rewrite length_take, length_le_split. done.
Qed.

(** The prefill indexes that [n] transactions from index [idx] on leave over. *)
Fixpoint leftover (n : nat) (idx : Z) (prefill : list Z) : list Z :=
  match n with
  | O => prefill
  | S n => leftover n (idx + 1) (if bool_decide (head prefill = Some idx) then drop 1 prefill else prefill)
  end.

Lemma leftover_nil n idx prefill : leftover n idx prefill = [] ↔ increasing idx (idx + Z.of_nat n) prefill.
Proof.
  revert idx prefill. induction n as [|n IH]; intros idx prefill; cbn [leftover].
  - split; [intros ->; apply increasing_nil|apply increasing_empty; lia].
  - rewrite IH. replace (idx + 1 + Z.of_nat n) with (idx + Z.of_nat (S n)) by lia. case_bool_decide as Hh.
    + destruct prefill as [|x l]; [done|]. injection Hh as ->. cbn [drop]. rewrite increasing_cons. split; [|by intros []].
      intros Hl. split; [lia|done].
    + split; [apply increasing_weaken; lia|]. intros Hi. by apply increasing_skip.
Qed.

(** The receiver, as BIP 152 describes it: the prefilled transactions go to the
    positions their differences give, the others are found in [pool] by their short
    identifiers, in order. *)
Fixpoint rebuild (pool : list byte → option Transaction) (n : nat) (i last : Z) (prefilled : list PrefilledTransaction)
    (ids : list (list byte)) : option (list Transaction) :=
  match n with
  | O => match prefilled, ids with [], [] => Some [] | _, _ => None end
  | S n =>
      match prefilled, ids with
      | p :: ps, _ =>
          if i =? last + idx p then cons (tx p) <$> rebuild pool n (i + 1) (i + 1) ps ids
          else
            match ids with
            | id :: ids => t ← pool id; cons t <$> rebuild pool n (i + 1) last prefilled ids
            | [] => None
            end
      | [], id :: ids => t ← pool id; cons t <$> rebuild pool n (i + 1) last prefilled ids
      | [], [] => None
      end
  end.

Definition receive (pool : list byte → option Transaction) (c : HeaderAndShortIds) : option (list Transaction) :=
  rebuild pool (length (short_ids c) + length (prefilled_txs c)) 0 0 (prefilled_txs c) (short_ids c).

(** The pool holds the transactions, from index [i] on, that are not prefilled. *)
Definition pool_has (v : Z) (keys : Z * Z) (pool : list byte → option Transaction) (i : Z) (prefill : list Z)
    (txs : list Transaction) : Prop :=
  ∀ k t id, txs !! k = Some t → i + Z.of_nat k ≠ 0 → i + Z.of_nat k ∉ prefill → relay_id v t = Some id →
    pool (with_siphash_keys id keys) = Some t.

Lemma pool_has_tail v keys pool i prefill t txs :
  pool_has v keys pool i prefill (t :: txs) →
  pool_has v keys pool (i + 1) (if bool_decide (head prefill = Some i) then drop 1 prefill else prefill) txs.
Proof.
  intros Hp k u id Hk Hne Hin. replace (i + 1 + Z.of_nat k) with (i + Z.of_nat (S k)) in Hne, Hin by lia.
  apply (Hp (S k)); [done..|]. case_bool_decide as Hh; [|done]. destruct prefill as [|x l]; [done|].
  injection Hh as ->. cbn [drop] in Hin. intros [He|He]%elem_of_cons; [lia|done].
Qed.

Lemma rebuild_pool pool n i last P id I t rs :
  match P with p :: _ => i + 1 <= last + idx p | [] => True end → pool id = Some t →
  rebuild pool n (i + 1) last P I = Some rs → rebuild pool (S n) i last P (id :: I) = Some (t :: rs).
Proof.
  intros HP Ht Hr. cbn [rebuild]. destruct P as [|p P].
  - rewrite Ht. cbn [mbind option_bind]. by rewrite Hr.
  - destruct (Z.eqb_spec i (last + idx p)); [lia|]. rewrite Ht. cbn [mbind option_bind]. by rewrite Hr.
Qed.

(** What is received for [txs], from index [i] on: the form sent of what is prefilled. *)
Fixpoint received (v i : Z) (prefill : list Z) (txs : list Transaction) : list Transaction :=
  match txs with
  | [] => []
  | t :: txs => (if bool_decide (i = 0 ∨ i ∈ prefill) then prefilled_form v t else t) :: received v (i + 1) prefill txs
  end.

Lemma received_tail v i j prefill txs :
  i < j →
  received v j (if bool_decide (head prefill = Some i) then drop 1 prefill else prefill) txs = received v j prefill txs.
Proof.
  case_bool_decide as Hh; [|done]. destruct prefill as [|x l]; [done|]. injection Hh as ->. cbn [drop].
  revert j. induction txs as [|t txs IH]; intros j Hj; [done|]. cbn [received]. rewrite IH by lia. f_equal.
  rewrite (bool_decide_ext (j = 0 ∨ j ∈ l) (j = 0 ∨ j ∈ i :: l)); [done|]. rewrite elem_of_cons.
  split; [by intros [|]; auto|]. intros [|[|]]; auto; lia.
Qed.

Lemma received_lookup v i prefill txs k :
  received v i prefill txs !! k =
    (λ t, if bool_decide (i + Z.of_nat k = 0 ∨ i + Z.of_nat k ∈ prefill) then prefilled_form v t else t) <$> txs !! k.
Proof.
  revert i k. induction txs as [|t txs IH]; intros i k; [by rewrite lookup_nil|]. destruct k as [|k]; cbn [received lookup list_lookup].
  - by rewrite Z.add_0_r.
  - rewrite IH. by replace (i + 1 + Z.of_nat k) with (i + Z.of_nat (S k)) by lia.
Qed.

(** The prefilled transactions and short identifiers that the loop makes of [txs],
    from index [i] on. *)
Record block_parts (v : Z) (keys : Z * Z) (txs : list Transaction) (i last : Z) (prefill : list Z)
    (P : list PrefilledTransaction) (I : list (list byte)) : Prop := {
  bp_length : (length I + length P = length txs)%nat;
  bp_ids : Forall (is_array 6) I;
  bp_prefilled : Forall (λ p, 0 <= idx p <= 0xFFFF ∧ ∃ t, t ∈ txs ∧ tx p = prefilled_form v t) P;
  bp_first : match P with p :: _ => i <= last + idx p | [] => True end;
  bp_rebuild pool :
    increasing i (i + Z.of_nat (length txs)) prefill → pool_has v keys pool i prefill txs →
    rebuild pool (length txs) i last P I = Some (received v i prefill txs) }.

Lemma block_parts_prefilled v keys t txs i last prefill P I :
  0 <= last <= i → i <= 0xFFFF → head prefill = Some i ∨ i = 0 →
  block_parts v keys txs (i + 1) (i + 1) (if bool_decide (head prefill = Some i) then drop 1 prefill else prefill) P I →
  block_parts v keys (t :: txs) i last prefill ({| idx := uwrap 16 (i - last); tx := prefilled_form v t |} :: P) I.
Proof.
  intros Hi Hm Hpre [Hl HI HP Hf Hr]. assert (uwrap 16 (i - last) = i - last) as -> by (apply uwrap_small; unfold urange; lia).
  constructor; cbn [length idx tx].
  - lia.
  - done.
  - constructor; [cbn [idx tx]; split; [lia|]; exists t; split; [by left|done]|]. eapply Forall_impl; [exact HP|].
    intros p (Hp & u & Hu & He). split; [done|]. exists u. split; [by right|done].
  - lia.
  - intros pool Hinc Hpool. cbn [rebuild idx received]. destruct (Z.eqb_spec i (last + (i - last))); [|lia].
    rewrite (bool_decide_eq_true_2 (i = 0 ∨ i ∈ prefill)).
    2:{ destruct Hpre as [Hh|]; [right|by left]. destruct prefill; [done|]. injection Hh as ->. by left. }
    rewrite <- (received_tail v i (i + 1) prefill) by lia. rewrite Hr; [done| |by eapply pool_has_tail].
    replace (i + 1 + Z.of_nat (length txs)) with (i + Z.of_nat (S (length txs))) by lia. case_bool_decide as Hh; [|by apply increasing_skip].
    destruct prefill as [|x l]; [done|]. injection Hh as ->. by apply increasing_cons in Hinc as [_ Hinc].
Qed.

Lemma block_parts_short v keys t txs i last prefill id P I :
  head prefill ≠ Some i → i ≠ 0 → relay_id v t = Some id →
  block_parts v keys txs (i + 1) last prefill P I →
  block_parts v keys (t :: txs) i last prefill P (with_siphash_keys id keys :: I).
Proof.
  intros Hh Hi Hid [Hl HI HP Hf Hr]. constructor; cbn [length].
  - lia.
  - constructor; [apply short_id_length|done].
  - eapply Forall_impl; [exact HP|]. intros p (Hp & u & Hu & He). split; [done|]. exists u. split; [by right|done].
  - destruct P; [done|lia].
  - intros pool Hinc Hpool. pose proof (increasing_skip _ _ _ Hinc Hh) as Hinc'.
    assert (i ∉ prefill) as Hin.
    { destruct Hinc' as [_ Hall]. rewrite Forall_forall in Hall. intros Hin%Hall. cbn in Hin. lia. }
    cbn [received]. rewrite bool_decide_eq_false_2 by (by intros [|]). apply rebuild_pool; [done| |].
    + apply (Hpool 0%nat); [done|lia|by rewrite Z.add_0_r|done].
    + apply Hr; [|apply pool_has_tail in Hpool; by rewrite bool_decide_eq_false_2 in Hpool].
      by replace (i + 1 + Z.of_nat (length txs)) with (i + Z.of_nat (S (length txs))) by lia.
Qed.

Lemma from_block_loop_spec v keys txs i last prefill pre ids :
  Forall tx_wf txs → 0 <= last <= i → i + Z.of_nat (length txs) <= 0x10000 →
  ∃ P I, from_block_loop v keys txs i last prefill pre ids = Some (leftover (length txs) i prefill, pre ++ P, ids ++ I) ∧
    block_parts v keys txs i last prefill P I.
Proof.
  revert i last prefill pre ids. induction txs as [|t txs IH]; intros i last prefill pre ids Htx Hi Hn.
  - exists [], []. rewrite !app_nil_r. split; [done|]. by constructor.
  - apply Forall_cons in Htx as [Ht Htx]. cbn [from_block_loop length leftover] in *.
    set (prefill' := if bool_decide (head prefill = Some i) then drop 1 prefill else prefill) in *.
    destruct (bool_decide (head prefill = Some i) || (i =? 0)) eqn:Hpre.
    + destruct (IH (i + 1) (i + 1) prefill' (pre ++ [{| idx := uwrap 16 (i - last); tx := prefilled_form v t |}]) ids
        Htx ltac:(lia) ltac:(lia)) as (P & I & He & Hp). eexists (_ :: P), I. split.
      * rewrite <- app_assoc in He. cbn [app] in He. rewrite <- He. unfold prefill'.
        case_bool_decide; [done|]. cbn [orb] in Hpre. by rewrite Hpre.
      * apply orb_true_iff in Hpre as [Hh%bool_decide_eq_true|H0]; (apply block_parts_prefilled; [lia|lia|by left + (right; lia)|exact Hp]).
    + apply orb_false_iff in Hpre as [Hh H0]. unfold prefill'. rewrite Hh, H0. apply bool_decide_eq_false in Hh.
      destruct (relay_id_total v t Ht) as (id & Hid). rewrite Hid. cbn [mbind option_bind].
      destruct (IH (i + 1) last prefill pre (ids ++ [with_siphash_keys id keys]) Htx ltac:(lia) ltac:(lia)) as (P & I & He & Hp).
      exists P, (with_siphash_keys id keys :: I). rewrite <- app_assoc in He. split; [exact He|].
      apply block_parts_short; [done|lia|done..].
Qed.

Lemma prefilled_parts_wf v P txs :
  Forall tx_wf txs →
  Forall (λ t, ∀ n bs, c_enc transaction_codec (prefilled_form v t) = Ok (n, bs) → n <= MAX_VEC_SIZE) txs →
  Forall (λ p, 0 <= idx p <= 0xFFFF ∧ ∃ t, t ∈ txs ∧ tx p = prefilled_form v t) P → Forall prefilled_wf P.
Proof.
  rewrite !Forall_forall. intros Hw Hs HP p Hp. destruct (HP p Hp) as (Hi & t & Ht & He).
  constructor; [done|rewrite He; by apply prefilled_form_wf, Hw|rewrite He; by apply Hs].
Qed.

Lemma strip_witnesses_same t :
  same_but_witnesses t (strip_witnesses t) ∧ Forall (λ i, witness i = witness_new) (input (strip_witnesses t)).
Proof.
  split; [|by apply Forall_map, Forall_true]. split_and!; try done. cbn [strip_witnesses input]. by rewrite map_map.
Qed.

Lemma received_spec v prefill txs :
  v = 1 ∨ v = 2 →
  map compute_txid (received v 0 prefill txs) = map compute_txid txs ∧ (v = 2 → received v 0 prefill txs = txs) ∧
  ∀ k t, txs !! k = Some t → ∃ t', received v 0 prefill txs !! k = Some t' ∧ same_but_witnesses t t' ∧
    (if bool_decide (v = 1 ∧ (k = 0%nat ∨ Z.of_nat k ∈ prefill))
     then Forall (λ i, witness i = witness_new) (input t') else t' = t).
Proof.
  intros Hv. split_and!.
  - generalize 0. induction txs as [|t txs IH]; intros i; [done|]. cbn [received map]. rewrite IH. f_equal.
    case_bool_decide; [apply prefilled_form_txid|done].
  - intros ->. generalize 0. induction txs as [|t txs IH]; intros i; [done|]. cbn [received]. rewrite IH. by case_bool_decide.
  - intros k t Hk. rewrite received_lookup, Hk. cbn [fmap option_fmap option_map]. eexists. split; [done|].
    rewrite Z.add_0_l, (bool_decide_ext (Z.of_nat k = 0 ∨ Z.of_nat k ∈ prefill) (k = 0%nat ∨ Z.of_nat k ∈ prefill))
      by apply or_iff_compat_r, (Nat2Z.inj_iff k 0).
    unfold prefilled_form. destruct Hv as [-> | ->]; cbn [Z.eqb Pos.eqb].
    + rewrite (bool_decide_ext (1 = 1 ∧ _) (k = 0%nat ∨ Z.of_nat k ∈ prefill)) by tauto.
      case_bool_decide; [apply strip_witnesses_same|by split_and!].
    + rewrite (bool_decide_eq_false_2 (2 = 1 ∧ _)) by lia. case_bool_decide; by split_and!.
Qed.

(** C22: compact blocks. On a well-formed block of at most 2^16 transactions,
    [from_block] fails exactly when the prefill indexes are not strictly increasing
    indexes of the block: with [InvalidPrefill] when there are no more of them than
    transactions, and with a panic when there are. Otherwise the message is one that
    is decoded as itself (its transactions within the decoder's limit), and a peer
    that has the transactions not prefilled rebuilds the block's transactions from
    it: the very ones, but that in version 1 the first and the prefilled ones come
    with empty witnesses and are otherwise the same (their inputs, outputs, MWEB data
    and HogEx flag), so that their identifiers are. *)
Theorem compact_block_spec b nonce v prefill :
  header_wf (header b) → Forall tx_wf (txdata b) → Z.of_nat (length (txdata b)) <= 0x10000 →
  urange 64 nonce → (v = 1 ∨ v = 2) →
  match from_block b nonce v prefill with
  | None => (length (txdata b) < length prefill)%nat
  | Some (Err e) =>
      e = InvalidPrefill ∧ (length prefill <= length (txdata b))%nat ∧
      ¬ increasing 0 (Z.of_nat (length (txdata b))) prefill
  | Some (Ok c) =>
      increasing 0 (Z.of_nat (length (txdata b))) prefill ∧
      cmpct_header c = header b ∧ cmpct_nonce c = nonce ∧
      (Forall (λ t, ∀ n bs, c_enc transaction_codec (prefilled_form v t) = Ok (n, bs) → n <= MAX_VEC_SIZE) (txdata b) →
        ∃ bs, encodes cmpct_codec c bs ∧ reads (c_dec cmpct_codec) bs c) ∧
      ∃ keys, calculate_siphash_keys (header b) nonce = Some keys ∧
        ∀ pool, pool_has v keys pool 0 prefill (txdata b) →
          ∃ txs, receive pool c = Some txs ∧ map compute_txid txs = map compute_txid (txdata b) ∧
            (v = 2 → txs = txdata b) ∧
            ∀ k t, txdata b !! k = Some t → ∃ t', txs !! k = Some t' ∧ same_but_witnesses t t' ∧
              (if bool_decide (v = 1 ∧ (k = 0%nat ∨ Z.of_nat k ∈ prefill))
               then Forall (λ i, witness i = witness_new) (input t') else t' = t)
  end.
Proof.
  intros Hh Ht Hn Hnonce Hv. unfold from_block.
  replace (negb (v =? 1) && negb (v =? 2)) with false by (destruct Hv as [-> | ->]; done).
  destruct (siphash_keys_total (header b) nonce Hh) as (keys & Hk). rewrite Hk. cbn [mbind option_bind].
  destruct (Nat.ltb_spec (length (txdata b)) (length prefill)) as [|Hlen]; [done|].
  destruct (from_block_loop_spec v keys (txdata b) 0 0 prefill [] [] Ht ltac:(done) ltac:(lia)) as (P & I & -> & Hp).
  cbn [mbind option_bind app]. destruct (leftover _ _ _) as [|x l] eqn:Hl.
  - apply leftover_nil in Hl. destruct Hp as [Hc HI HP _ Hr].
    split_and!; [exact Hl|done|done| |].
    + intros Hs. apply (roundtrip (c := cmpct_codec)). constructor; cbn [cmpct_header cmpct_nonce short_ids prefilled_txs]; [done..| |].
      * split; [done|lia].
      * split; [by eapply prefilled_parts_wf|lia].
    + exists keys. split; [done|]. intros pool Hpool. exists (received v 0 prefill (txdata b)).
      unfold receive. cbn [short_ids prefilled_txs]. rewrite Hc. split; [by apply Hr|]. apply received_spec, Hv.
  - split_and!; [done|done|]. intros Hi. by rewrite (proj2 (leftover_nil _ _ _) Hi) in Hl.
Qed.

Lemma request_loop_spec (txs : list Transaction) l acc :
  Forall (urange 64) l →
  match request_loop txs l acc with
  | Ok ts => ∃ rs, ts = acc ++ rs ∧ Forall2 (λ i t, txs !! Z.to_nat i = Some t) l rs
  | Err e => ∃ a c, l = a ++ e :: c ∧ Forall (λ i, i < Z.of_nat (length txs)) a ∧ Z.of_nat (length txs) <= e
  end.
Proof.
  revert acc. induction l as [|i l IH]; intros acc Hl; cbn [request_loop].
  - exists []. by rewrite app_nil_r.
  - apply Forall_cons in Hl as [Hi Hl]. unfold urange in Hi. destruct (Z.leb_spec (Z.of_nat (length txs)) i).
    + exists [], l. by split_and!.
    + destruct (lookup_lt_is_Some_2 txs (Z.to_nat i)) as (t & Ht); [lia|]. rewrite Ht.
      specialize (IH (acc ++ [t]) Hl). destruct (request_loop _ _ _) as [ts|e].
      * destruct IH as (rs & -> & HF). exists (t :: rs). rewrite <- app_assoc. split; [done|]. by constructor.
      * destruct IH as (a & c & -> & Ha & He). exists (i :: a), c. split_and!; [done| |done]. by constructor.
Qed.

(** Answers to requests: the answer names the block the request names and holds
    the transactions at the requested indexes, in order; the error is the first index
    that is out of the block's range. *)
Lemma from_request_spec r b :
  Forall (urange 64) (indexes r) →
  match from_request r b with
  | Ok reply => reply_hash reply = request_hash r ∧
      Forall2 (λ i t, txdata b !! Z.to_nat i = Some t) (indexes r) (transactions reply)
  | Err e => ∃ before after, indexes r = before ++ e :: after ∧
      Forall (λ i, i < Z.of_nat (length (txdata b))) before ∧ Z.of_nat (length (txdata b)) <= e
  end.
Proof.
  intros Hr. unfold from_request. pose proof (request_loop_spec (txdata b) (indexes r) [] Hr) as Hl.
  destruct (request_loop _ _ _) as [ts|e]; [|done]. destruct Hl as (rs & -> & HF). by split.
Qed.
End Wire.

(** ** Examples *)

Lemma compact_block_spec_witness :
  ∃ c keys, from_block sample_block 7 2 [0] = Some (Ok c) ∧ calculate_siphash_keys (header sample_block) 7 = Some keys ∧
    (∃ txs, receive (λ _, None) c = Some txs ∧ txs = txdata sample_block) ∧
    from_block sample_block 7 2 [0; 0] = None.
Proof.
  assert (Forall (tx_wf (H := PlainKeys.plain_keys)) (txdata sample_block)) as Ht
    by (constructor; [apply sample_coinbase_wf|constructor]).
  pose proof (compact_block_spec (Hpk := PlainKeys.plain_keys_laws) sample_block 7 2 [0] sample_header_wf Ht
    ltac:(cbn; lia) ltac:(unfold urange; lia) ltac:(by right)) as Hc.
  pose proof (compact_block_spec (Hpk := PlainKeys.plain_keys_laws) sample_block 7 2 [0; 0] sample_header_wf Ht
    ltac:(cbn; lia) ltac:(unfold urange; lia) ltac:(by right)) as Hc'.
  destruct (from_block sample_block 7 2 [0]) as [[c|e]|].
  - destruct Hc as (_ & _ & _ & _ & keys & Hk & Hr). exists c, keys. split; [reflexivity|]. split; [exact Hk|]. split.
    + destruct (Hr (λ _, None)) as (txs & He & _ & Heq & _).
      * intros k t id Hlk Hne _ _. destruct k as [|k]; [lia|]. discriminate Hlk.
      * exists txs. split; [exact He|]. by apply Heq.
    + destruct (from_block sample_block 7 2 [0; 0]) as [[c'|e]|].
      * destruct Hc' as (Hi & _). apply increasing_cons in Hi as [_ Hi]. apply increasing_cons in Hi as [Hi _]. lia.
      * destruct Hc' as (_ & Hl & _). cbn in Hl. lia.
      * reflexivity.
  - destruct Hc as (_ & _ & Hn). destruct Hn. apply increasing_cons. split; [cbn; lia|apply increasing_nil].
  - cbn in Hc. lia.
Defined.

Lemma request_codec_spec_witness :
  ∃ bs, request_encode {| request_hash := replicate 32 x00; indexes := [0; 5; 6] |} = Ok (Z.of_nat (length bs), bs) ∧
    request_decode 200 bs = Ok ({| request_hash := replicate 32 x00; indexes := [0; 5; 6] |}, []).
Proof.
  destruct (proj1 (request_codec_spec 200 {| request_hash := replicate 32 x00; indexes := [0; 5; 6] |} [] [])) as (bs & He & Hd).
  - split_and!; [reflexivity| |cbn; unfold MAX_VEC_SIZE; lia|cbn; lia].
    repeat (apply increasing_cons; split; [unfold U64_MAX; lia|]). apply increasing_nil.
  - exists bs. split; [exact He|]. rewrite <- (Hd []), app_nil_r. reflexivity.
Defined.
