(* ===== verification/Text.v ===== *)
(** Text: numbers written in a base, and Rust's [&str] as a list of Unicode
    scalar values with the byte positions of UTF-8; the parts of [core::str] and
    of integer parsing and printing that the code uses. *)

From Stdlib Require Import String ZArith Lia ZifyBool.
From stdpp Require Import base list sets.
From Stdlib Require Import Init.Byte.
From coqutil Require Import Byte.
From S2P Require Import Prelude Units.

(** ** Numbers and digits *)

(** Digits in base [b], the first the most significant. *)
Definition num (b : Z) (ds : list Z) : Z := foldl (λ n d, n * b + d) 0 ds.
Definition digits (b : Z) (ds : list Z) : Prop := Forall (λ d, 0 <= d < b) ds.

Lemma foldl_num b ds n : foldl (λ n d, n * b + d) n ds = n * b ^ Z.of_nat (length ds) + num b ds.
Proof.
  unfold num. revert n. induction ds as [|d ds IH]; intros n; cbn [foldl length]; [cbn; lia|].
  rewrite IH, (IH (0 * b + d)). rewrite Nat2Z.inj_succ, Z.pow_succ_r by lia. ring.
Qed.

Lemma num_cons b d ds : num b (d :: ds) = d * b ^ Z.of_nat (length ds) + num b ds.
Proof. unfold num at 1. cbn [foldl]. by rewrite foldl_num. Qed.

Lemma num_snoc b d ds : num b (ds ++ [d]) = num b ds * b + d.
Proof. unfold num. by rewrite foldl_app. Qed.

Lemma num_app b ds es : num b (ds ++ es) = num b ds * b ^ Z.of_nat (length es) + num b es.
Proof. unfold num at 1. rewrite foldl_app. apply foldl_num. Qed.

Lemma num_zeros b k ds : num b (replicate k 0 ++ ds) = num b ds.
Proof. induction k as [|k IH]; [done|]. cbn [replicate app]. rewrite num_cons, IH. lia. Qed.

Lemma num_bound b ds : 1 < b → digits b ds → 0 <= num b ds < b ^ Z.of_nat (length ds).
Proof.
  intros Hb. induction 1 as [|d ds Hd _ IH]; [cbn; lia|]. rewrite num_cons. cbn [length].
  rewrite Nat2Z.inj_succ, Z.pow_succ_r by lia. nia.
Qed.

(** Without leading zeros a number has one form. *)
Definition no_lead (ds : list Z) : Prop := match ds with d :: _ => d ≠ 0 | [] => True end.

Lemma num_lead b d ds : 1 < b → digits b (d :: ds) → d ≠ 0 → b ^ Z.of_nat (length ds) <= num b (d :: ds).
Proof.
  intros Hb Hd Hn. apply Forall_cons in Hd as [Hd Hds]. pose proof (num_bound b ds Hb Hds). rewrite num_cons. nia.
Qed.

Lemma num_inj b ds es : 1 < b → digits b ds → digits b es → length ds = length es → num b ds = num b es → ds = es.
Proof.
  intros Hb Hds. revert es. induction Hds as [|d ds Hd Hds IH]; intros [|e es] Hes Hl; try done.
  injection Hl as Hl. apply Forall_cons in Hes as [He Hes]. rewrite !num_cons, Hl. intros Hn.
  pose proof (num_bound b ds Hb Hds) as B1. pose proof (num_bound b es Hb Hes) as B2. rewrite Hl in B1.
  assert (d = e) as -> by nia. f_equal. apply IH; [done|done|lia].
Qed.

Lemma num_canonical b ds es :
  1 < b → digits b ds → digits b es → no_lead ds → no_lead es → num b ds = num b es → ds = es.
Proof.
  intros Hb Hds Hes Hld Hle Hn. apply (num_inj b); try done.
  destruct (Nat.lt_trichotomy (length ds) (length es)) as [Hlt|[?|Hlt]]; [exfalso|done|exfalso].
  - destruct es as [|e es]; [cbn in Hlt; lia|]. pose proof (num_lead b e es Hb Hes Hle). pose proof (num_bound b ds Hb Hds).
    cbn [length] in Hlt. assert (b ^ Z.of_nat (length ds) <= b ^ Z.of_nat (length es)) by (apply Z.pow_le_mono_r; lia). lia.
  - destruct ds as [|d ds]; [cbn in Hlt; lia|]. pose proof (num_lead b d ds Hb Hds Hld). pose proof (num_bound b es Hb Hes).
    cbn [length] in Hlt. assert (b ^ Z.of_nat (length es) <= b ^ Z.of_nat (length ds)) by (apply Z.pow_le_mono_r; lia). lia.
Qed.

(** ** Strings *)

(** A [char] is its scalar value, a [&str] the list of its characters. *)
Definition str (s : string) : list Z := map byte.unsigned (String.list_byte_of_string s).

Definition len_utf8 (c : Z) : nat := if c <? 0x80 then 1 else if c <? 0x800 then 2 else if c <? 0x10000 then 3 else 4.

(** [str::len] *)
Fixpoint str_len (s : list Z) : nat := match s with [] => O | c :: s => (len_utf8 c + str_len s)%nat end.

(** [str::find]: the byte position of the first match. *)
Fixpoint str_find (p : Z → bool) (s : list Z) : option nat :=
  match s with
  | [] => None
  | c :: s => if p c then Some O else i ← str_find p s; Some (len_utf8 c + i)%nat
  end.

(** [s[..n]] and [s[n..]]: [None] is the panic of an index outside the string or inside a character. *)
Fixpoint slice_to (s : list Z) (n : nat) : option (list Z) :=
  match n, s with
  | O, _ => Some []
  | S _, [] => None
  | S _, c :: s => if (n <? len_utf8 c)%nat then None else r ← slice_to s (n - len_utf8 c); Some (c :: r)
  end.
Fixpoint slice_from (s : list Z) (n : nat) : option (list Z) :=
  match n, s with
  | O, _ => Some s
  | S _, [] => None
  | S _, c :: s => if (n <? len_utf8 c)%nat then None else slice_from s (n - len_utf8 c)
  end.

(** [str::char_indices] *)
Fixpoint char_indices_from (i : nat) (s : list Z) : list (nat * Z) :=
  match s with [] => [] | c :: s => (i, c) :: char_indices_from (i + len_utf8 c) s end.
Definition char_indices (s : list Z) : list (nat * Z) := char_indices_from 0 s.

Definition is_digit (c : Z) : bool := (48 <=? c) && (c <=? 57).

(** [i64::from_str]: an optional sign, then digits; [None] for any of its errors. *)
Definition parse_digits (sign : Z) (ds : list Z) : option Z :=
  match ds with
  | [] => None
  | _ => foldl (λ acc c,
      n ← acc;
      if is_digit c then n ← checked_i64 (n * 10); checked_i64 (n + sign * (c - 48)) else None) (Some 0) ds
  end.
Definition parse_i64 (s : list Z) : option Z :=
  match s with
  | 43 :: ds => parse_digits 1 ds
  | 45 :: ds => parse_digits (-1) ds
  | ds => parse_digits 1 ds
  end.

(** [u32::from_str]: an optional plus sign, then digits. *)
Definition checked_u32 (n : Z) : option Z := if n <=? U32_MAX then Some n else None.
Definition u32_digit (acc : option Z) (c : Z) : option Z :=
  n ← acc; if is_digit c then n ← checked_u32 (n * 10); checked_u32 (n + (c - 48)) else None.
Definition parse_u32_digits (ds : list Z) : option Z :=
  match ds with
  | [] => None
  | _ => foldl u32_digit (Some 0) ds
  end.
Definition parse_u32 (s : list Z) : option Z :=
  match s with
  | 43 :: ds => parse_u32_digits ds
  | ds => parse_u32_digits ds
  end.

(** [str::split] at a character: one piece more than there are separators. *)
Fixpoint str_split (sep : Z) (s : list Z) : list (list Z) :=
  match s with
  | [] => [[]]
  | c :: s =>
      if c =? sep then [] :: str_split sep s
      else match str_split sep s with p :: ps => (c :: p) :: ps | [] => [[c]] end
  end.

(** [Display] of a [u64]. Twenty digits are enough. *)
Fixpoint dec_loop (fuel : nat) (n : Z) : list Z :=
  match fuel with
  | O => []
  | S fuel => if n <? 10 then [48 + n] else dec_loop fuel (n / 10) ++ [48 + n mod 10]
  end.
Definition dec (n : Z) : list Z := dec_loop 20 n.

(** *** Strings, split and cut *)

Lemma len_utf8_pos c : (1 <= len_utf8 c)%nat.
Proof. unfold len_utf8. repeat case_match; lia. Qed.

Lemma len_utf8_ascii c : c < 0x80 → len_utf8 c = 1%nat.
Proof. intros. unfold len_utf8. by rewrite (proj2 (Z.ltb_lt _ _)). Qed.

Lemma str_len_app a b : str_len (a ++ b) = (str_len a + str_len b)%nat.
Proof. induction a as [|c a IH]; [done|]. cbn. rewrite IH. lia. Qed.

Lemma str_len_ascii s : Forall (λ c, c < 0x80) s → str_len s = length s.
Proof. induction 1 as [|c s Hc _ IH]; [done|]. cbn. rewrite IH, len_utf8_ascii by done. done. Qed.

Lemma str_len_ge s : (length s <= str_len s)%nat.
Proof. induction s as [|c s IH]; [done|]. cbn. pose proof (len_utf8_pos c). lia. Qed.

Lemma str_find_app (p : Z → bool) a c b : Forall (λ x, p x = false) a → p c = true → str_find p (a ++ c :: b) = Some (str_len a).
Proof. intros Ha Hc. induction Ha as [|x a Hx _ IH]; cbn; [by rewrite Hc|]. rewrite Hx, IH. done. Qed.

Lemma str_find_none (p : Z → bool) a : Forall (λ x, p x = false) a → str_find p a = None.
Proof. induction 1 as [|x a Hx _ IH]; [done|]. cbn. by rewrite Hx, IH. Qed.

Lemma str_find_cases (p : Z → bool) s :
  Forall (λ x, p x = false) s ∨ ∃ a c b, s = a ++ c :: b ∧ Forall (λ x, p x = false) a ∧ p c = true.
Proof.
  induction s as [|x s IH]; [by left|]. destruct (p x) eqn:Ex; [right; by exists [], x, s|].
  destruct IH as [H|(a & c & b & -> & Ha & Hc)]; [left; by constructor|].
  right. exists (x :: a), c, b. split_and!; [done|by constructor|done].
Qed.

Lemma slice_to_app a b : slice_to (a ++ b) (str_len a) = Some a.
Proof.
  induction a as [|c a IH]; [by destruct b|]. cbn [app str_len]. pose proof (len_utf8_pos c).
  destruct (len_utf8 c + str_len a)%nat as [|n] eqn:E; [lia|]. cbn [slice_to]. rewrite <- E.
  rewrite (proj2 (Nat.ltb_ge _ _)) by lia. replace (len_utf8 c + str_len a - len_utf8 c)%nat with (str_len a) by lia.
  by rewrite IH.
Qed.

Lemma slice_to_all a : slice_to a (str_len a) = Some a.
Proof. rewrite <- (app_nil_r a) at 1. apply slice_to_app. Qed.

Lemma slice_from_app a b : slice_from (a ++ b) (str_len a) = Some b.
Proof.
  induction a as [|c a IH]; [by destruct b|]. cbn [app str_len]. pose proof (len_utf8_pos c).
  destruct (len_utf8 c + str_len a)%nat as [|n] eqn:E; [lia|]. cbn [slice_from]. rewrite <- E.
  rewrite (proj2 (Nat.ltb_ge _ _)) by lia. by replace (len_utf8 c + str_len a - len_utf8 c)%nat with (str_len a) by lia.
Qed.

Lemma char_indices_snd i s : map snd (char_indices_from i s) = s.
Proof. revert i. induction s as [|c s IH]; intros i; [done|]. cbn. by rewrite IH. Qed.

Lemma find_none_snd (p : Z → bool) l : List.find (λ '(_, d), p d) l = None ↔ Forall (λ d, p d = false) (map (@snd nat Z) l).
Proof.
  split.
  - intros Hf. apply Forall_fmap, Forall_forall. intros [i d] Hin. apply (List.find_none _ _ Hf (i, d)). by apply list_elem_of_In.
  - induction l as [|[i d] l IH]; [done|]. cbn. intros [Hd Hl]%Forall_cons. rewrite Hd. by apply IH.
Qed.

(** *** Decimal digits *)

Definition dvals (s : list Z) : list Z := map (λ c, c - 48) s.
Definition all_digits (s : list Z) : Prop := Forall (λ c, is_digit c = true) s.
Definition dnum (s : list Z) : Z := num 10 (dvals s).

Lemma dvals_digits s : all_digits s → digits 10 (dvals s).
Proof. intros Hs. apply Forall_fmap. eapply Forall_impl; [exact Hs|]. unfold is_digit. intros c Hc. cbn. lia. Qed.

Lemma dnum_cons c s : dnum (c :: s) = (c - 48) * 10 ^ Z.of_nat (length s) + dnum s.
Proof. unfold dnum. cbn [dvals map]. rewrite num_cons. unfold dvals. by rewrite length_map. Qed.

Lemma dnum_app a b : dnum (a ++ b) = dnum a * 10 ^ Z.of_nat (length b) + dnum b.
Proof. unfold dnum, dvals. rewrite map_app, num_app. by rewrite length_map. Qed.

Lemma dnum_bound s : all_digits s → 0 <= dnum s < 10 ^ Z.of_nat (length s).
Proof. intros Hs%dvals_digits. apply num_bound in Hs; [|lia]. unfold dvals in *. by rewrite length_map in Hs. Qed.

Definition zero_str (n : nat) : list Z := replicate n 48.

Lemma zero_str_digits n : all_digits (zero_str n).
Proof. by apply Forall_replicate. Qed.

Lemma zero_str_length n : length (zero_str n) = n.
Proof. apply length_replicate. Qed.

Lemma dnum_zero_str n : dnum (zero_str n) = 0.
Proof. induction n as [|n IH]; [done|]. cbn [zero_str replicate]. rewrite dnum_cons. unfold zero_str in IH. lia. Qed.

Lemma zero_str_eq s : Forall (λ c, c = 48) s → s = zero_str (length s).
Proof. induction 1 as [|c s -> _ IH]; [done|]. cbn. by rewrite IH at 1. Qed.

Lemma dnum_zero s : all_digits s → dnum s = 0 → s = zero_str (length s).
Proof.
  induction 1 as [|c s Hc Hs IH]; [done|]. rewrite dnum_cons. intros H0. pose proof (dnum_bound s Hs). unfold is_digit in Hc.
  assert (0 < 10 ^ Z.of_nat (length s)) by (apply Z.pow_pos_nonneg; lia).
  assert (c = 48) as -> by nia. cbn. f_equal. apply IH. lia.
Qed.

Lemma all_digits_ascii s : all_digits s → Forall (λ c, c < 0x80) s.
Proof. intros Hs. eapply Forall_impl; [exact Hs|]. unfold is_digit. cbn. lia. Qed.

Lemma str_len_digits s : all_digits s → str_len s = length s.
Proof. intros Hs. by apply str_len_ascii, all_digits_ascii. Qed.

Lemma dec_loop_spec fuel n :
  0 <= n < 10 ^ Z.of_nat fuel →
  all_digits (dec_loop fuel n) ∧ dnum (dec_loop fuel n) = n ∧
  (length (dec_loop fuel n) <= fuel)%nat ∧ ((0 < fuel)%nat → (0 < length (dec_loop fuel n))%nat).
Proof.
  revert n. induction fuel as [|fuel IH]; intros n Hn; [cbn in *; split_and!; [constructor|lia..]|].
  rewrite Nat2Z.inj_succ, Z.pow_succ_r in Hn by lia. cbn [dec_loop]. destruct (Z.ltb_spec n 10).
  - split_and!; [constructor; [unfold is_digit; lia|constructor]|unfold dnum; cbn; lia|cbn; lia|cbn; lia].
  - pose proof (Z.div_mod n 10 ltac:(lia)). pose proof (Z.mod_pos_bound n 10 ltac:(lia)).
    destruct (IH (n / 10)) as (J1 & J2 & J3 & J4); [split; [apply Z.div_pos; lia|apply Z.div_lt_upper_bound; lia]|].
    split_and!.
    + apply Forall_app_2; [done|]. constructor; [unfold is_digit; lia|constructor].
    + rewrite dnum_app, J2. unfold dnum. cbn [dvals map num foldl length]. lia.
    + rewrite length_app. cbn. lia.
    + rewrite length_app. cbn. lia.
Qed.

Lemma dec_spec n : 0 <= n <= U64_MAX → all_digits (dec n) ∧ dnum (dec n) = n ∧ (length (dec n) <= 20)%nat ∧ (0 < length (dec n))%nat.
Proof.
  unfold U64_MAX. intros Hn. unfold dec. destruct (dec_loop_spec 20 n) as (? & ? & ? & H); [cbn in *; lia|].
  split_and!; [done..|]. apply H. lia.
Qed.

(** *** [parse_i64] *)

Lemma parse_digits_fold sign ds v w :
  foldl (λ acc c, n ← acc; if is_digit c then n ← checked_i64 (n * 10); checked_i64 (n + sign * (c - 48)) else None) (Some v) ds = Some w →
  all_digits ds ∧ w = v * 10 ^ Z.of_nat (length ds) + sign * dnum ds.
Proof.
  revert v. induction ds as [|c ds IH]; intros v; [intros [= <-]; split; [constructor|cbn; unfold dnum; cbn; lia]|].
  cbn [foldl mbind option_bind]. destruct (is_digit c) eqn:Ec.
  2:{ intros H. exfalso. clear - H. induction ds; [done|by apply IHds]. }
  destruct (checked_i64 (v * 10)) as [n|] eqn:E1; cbn [mbind option_bind].
  2:{ intros H. exfalso. clear - H. induction ds; [done|by apply IHds]. }
  apply checked_i64_Some in E1 as [_ ->]. destruct (checked_i64 (v * 10 + _)) as [n|] eqn:E1.
  2:{ intros H. exfalso. clear - H. induction ds; [done|by apply IHds]. }
  apply checked_i64_Some in E1 as [_ ->]. intros [Hd ->]%IH. split; [by constructor|].
  rewrite dnum_cons. cbn [length]. rewrite Nat2Z.inj_succ, Z.pow_succ_r by lia. ring.
Qed.

Lemma parse_digits_zeros sign n : parse_digits sign (zero_str (S n)) = Some 0.
Proof.
  unfold parse_digits. change (zero_str (S n)) with (48 :: zero_str n). cbv beta iota. change (48 :: zero_str n) with (zero_str (S n)).
  induction (S n) as [|m IH]; [done|]. unfold zero_str in *. cbn [replicate foldl]. etrans; [|exact IH]. f_equal.
  cbn -[checked_i64]. rewrite Z.mul_0_r. done.
Qed.

Lemma parse_digits_zero sign ds : (sign = 1 ∨ sign = -1) → parse_digits sign ds = Some 0 → ∃ n, ds = zero_str (S n).
Proof.
  intros Hs. unfold parse_digits. destruct ds as [|c ds]; [done|]. intros [Hd Hv]%parse_digits_fold.
  exists (length ds). apply (dnum_zero _ Hd). lia.
Qed.

Lemma sign_cases (sg : list Z) : sg ∈ [[]; [43]; [45]] ↔ sg = [] ∨ sg = [43] ∨ sg = [45].
Proof. rewrite !elem_of_cons, elem_of_nil. tauto. Qed.

(** The integers that parse as zero. *)
Lemma parse_i64_zero s : parse_i64 s = Some 0 ↔ ∃ sg n, sg ∈ [[]; [43]; [45]] ∧ s = sg ++ zero_str (S n).
Proof.
  split.
  - intros Hp.
    assert ((∃ ds, s = 43 :: ds ∧ parse_digits 1 ds = Some 0) ∨ (∃ ds, s = 45 :: ds ∧ parse_digits (-1) ds = Some 0) ∨ parse_digits 1 s = Some 0) as Hc.
    { unfold parse_i64 in Hp. repeat case_match; subst; eauto. }
    destruct Hc as [(ds & -> & H)|[(ds & -> & H)|H]]; (apply parse_digits_zero in H as [n ->]; [|lia]).
    + exists [43], n. split; [apply sign_cases; tauto|done].
    + exists [45], n. split; [apply sign_cases; tauto|done].
    + exists [], n. split; [apply sign_cases; tauto|done].
  - intros (sg & n & Hsg & ->).
    apply sign_cases in Hsg as [-> | [-> | ->]].
    + change (parse_i64 ([] ++ zero_str (S n))) with (parse_digits 1 (zero_str (S n))). apply parse_digits_zeros.
    + change (parse_i64 ([43] ++ zero_str (S n))) with (parse_digits 1 (zero_str (S n))). apply parse_digits_zeros.
    + change (parse_i64 ([45] ++ zero_str (S n))) with (parse_digits (-1) (zero_str (S n))). apply parse_digits_zeros.
Qed.

(** *** [parse_u32], [str_split] *)

Lemma parse_u32_fold_none ds :
  foldl u32_digit None ds = None.
Proof. by induction ds. Qed.

Lemma parse_u32_fold ds v :
  0 <= v →
  foldl u32_digit (Some v) ds =
  if bool_decide (all_digits ds ∧ (v * 10 ^ Z.of_nat (length ds) + dnum ds <= U32_MAX ∨ ds = [])) then Some (v * 10 ^ Z.of_nat (length ds) + dnum ds) else None.
Proof.
  revert v. induction ds as [|c ds IH]; intros v Hv.
  - rewrite bool_decide_eq_true_2 by (split; [constructor|by right]). cbn. unfold dnum. cbn. f_equal. lia.
  - cbn [foldl]. unfold u32_digit at 2. cbn [mbind option_bind]. destruct (is_digit c) eqn:Ec.
    2:{ rewrite parse_u32_fold_none, bool_decide_eq_false_2; [done|]. intros [Hd _]. apply Forall_cons in Hd as [Hd _]. congruence. }
    assert (0 <= c - 48 <= 9) as Hc by (unfold is_digit in Ec; lia).
    assert (∀ (Hd : all_digits ds), dnum (c :: ds) = (c - 48) * 10 ^ Z.of_nat (length ds) + dnum ds ∧ 0 <= dnum ds ∧ 1 <= 10 ^ Z.of_nat (length ds)) as Hn.
    { intros Hd. rewrite dnum_cons. pose proof (dnum_bound ds Hd). assert (0 < 10 ^ Z.of_nat (length ds)) by (apply Z.pow_pos_nonneg; lia). lia. }
    assert (all_digits (c :: ds) ∧ (v * 10 ^ Z.of_nat (length (c :: ds)) + dnum (c :: ds) <= U32_MAX ∨ c :: ds = []) → v * 10 + (c - 48) <= U32_MAX) as Hno.
    { intros [Hd Hle]. apply Forall_cons in Hd as [_ Hd]. destruct Hle as [Hle|]; [|done].
      destruct (Hn Hd) as (Hn1 & Hn2 & Hn3). cbn [length] in Hle. rewrite Nat2Z.inj_succ, Z.pow_succ_r in Hle by lia. nia. }
    unfold checked_u32. destruct (Z.leb_spec (v * 10) U32_MAX); cbn [mbind option_bind].
    2:{ rewrite parse_u32_fold_none. rewrite bool_decide_eq_false_2; [done|]. intros ?%Hno. lia. }
    destruct (Z.leb_spec (v * 10 + (c - 48)) U32_MAX).
    2:{ rewrite parse_u32_fold_none. rewrite bool_decide_eq_false_2; [done|]. intros ?%Hno. lia. }
    rewrite IH by lia. cbn [length]. rewrite Nat2Z.inj_succ, Z.pow_succ_r by lia.
    replace (v * (10 * 10 ^ Z.of_nat (length ds)) + dnum (c :: ds)) with ((v * 10 + (c - 48)) * 10 ^ Z.of_nat (length ds) + dnum ds) by (rewrite dnum_cons; ring).
    erewrite bool_decide_ext; [done|]. unfold all_digits. rewrite Forall_cons. split.
    + intros [Hd Hle]. split; [done|]. left. destruct Hle as [|Hle]; [done|]. subst ds. unfold dnum. cbn. lia.
    + intros [[_ Hd] [Hle|]]; [|done]. split; [done|]. by left.
Qed.

Lemma parse_u32_digits_spec ds n : parse_u32_digits ds = Some n ↔ ds ≠ [] ∧ all_digits ds ∧ dnum ds = n ∧ n <= U32_MAX.
Proof.
  unfold parse_u32_digits. destruct ds as [|c ds]; [by split; [|intros [? _]]|]. rewrite parse_u32_fold by done.
  rewrite Z.mul_0_l, Z.add_0_l. case_bool_decide as Hd.
  - destruct Hd as [Hd [Hle|]]; [|done]. split; [intros [= <-]; done|]. by intros (_ & _ & -> & _).
  - split; [done|]. intros (_ & Hd' & <- & Hle). destruct Hd. split; [done|by left].
Qed.

(** The texts of a 32-bit number. *)
Lemma parse_u32_spec s n :
  parse_u32 s = Some n ↔ ∃ ds, (s = ds ∨ s = 43 :: ds) ∧ ds ≠ [] ∧ all_digits ds ∧ dnum ds = n ∧ n <= U32_MAX.
Proof.
  split.
  - intros Hp. assert (parse_u32_digits s = Some n ∨ ∃ ds, s = 43 :: ds ∧ parse_u32_digits ds = Some n) as [H|(ds & -> & H)].
    { unfold parse_u32 in Hp. repeat case_match; subst; eauto. }
    + apply parse_u32_digits_spec in H. exists s. split; [by left|done].
    + apply parse_u32_digits_spec in H. exists ds. split; [by right|done].
  - intros (ds & Hs & Hne & Hd & Hn & Hle). destruct Hs as [-> | ->]; [|by apply parse_u32_digits_spec].
    destruct ds as [|c ds]; [done|]. assert (c ≠ 43) as Hc.
    { apply Forall_cons in Hd as [Hc _]. unfold is_digit in Hc. lia. }
    transitivity (parse_u32_digits (c :: ds)); [|by apply parse_u32_digits_spec].
    unfold parse_u32. repeat case_match; done.
Qed.

Lemma str_split_no sep s : Forall (λ c, c ≠ sep) s → str_split sep s = [s].
Proof.
  induction 1 as [|c s Hc _ IH]; [done|]. cbn. by rewrite (proj2 (Z.eqb_neq c sep) Hc), IH.
Qed.

Lemma str_split_app sep s t : Forall (λ c, c ≠ sep) s → str_split sep (s ++ sep :: t) = s :: str_split sep t.
Proof.
  induction 1 as [|c s Hc _ IH]; cbn; [by rewrite Z.eqb_refl|]. by rewrite (proj2 (Z.eqb_neq c sep) Hc), IH.
Qed.
