(* ===== verification/Utf8.v ===== *)
(** UTF-8, which Rust's strings are held in, and the strings of the wire
    ([String] and [Cow<str>] of [src/litecoin/src/consensus/encode.rs]). *)

From Stdlib Require Import String ZArith Lia ZifyBool.
From stdpp Require Import base list.
From Stdlib Require Import Init.Byte.
From coqutil Require Import Byte Word.LittleEndianList.
From S2P Require Import Prelude Io Encode Text.

(** ** UTF-8 *)

(** The Unicode scalar values, which are Rust's [char]s. *)
Definition is_scalar (c : Z) : bool := ((0 <=? c) && (c <? 0xD800)) || ((0xE000 <=? c) && (c <=? 0x10FFFF)).

Definition cont (x : Z) : byte := byte.of_Z (0x80 + x mod 64).

(** [char::encode_utf8] *)
Definition encode_char (c : Z) : list byte :=
  match len_utf8 c with
  | 1%nat => [byte.of_Z c]
  | 2%nat => [byte.of_Z (0xC0 + c / 64); cont c]
  | 3%nat => [byte.of_Z (0xE0 + c / 64 / 64); cont (c / 64); cont c]
  | _ => [byte.of_Z (0xF0 + c / 64 / 64 / 64); cont (c / 64 / 64); cont (c / 64); cont c]
  end.

(** [str::as_bytes] *)
Definition as_bytes (s : list Z) : list byte := s ≫= encode_char.

Definition uncont (b : byte) : option Z :=
  if byte.unsigned b / 64 =? 2 then Some (byte.unsigned b mod 64) else None.

(** A sequence of the length its first byte announces; the shortest form of a
    scalar value. *)
Definition decode_char (bs : list byte) : option (Z * list byte) :=
  match bs with
  | [] => None
  | b :: bs =>
      let x := byte.unsigned b in
      if x <? 0x80 then Some (x, bs)
      else if x <? 0xC0 then None
      else if x <? 0xE0 then
        match bs with
        | b1 :: bs =>
            y1 ← uncont b1;
            let c := (x - 0xC0) * 64 + y1 in
            if (len_utf8 c =? 2)%nat then Some (c, bs) else None
        | _ => None
        end
      else if x <? 0xF0 then
        match bs with
        | b1 :: b2 :: bs =>
            y1 ← uncont b1; y2 ← uncont b2;
            let c := ((x - 0xE0) * 64 + y1) * 64 + y2 in
            if (len_utf8 c =? 3)%nat && is_scalar c then Some (c, bs) else None
        | _ => None
        end
      else if x <? 0xF8 then
        match bs with
        | b1 :: b2 :: b3 :: bs =>
            y1 ← uncont b1; y2 ← uncont b2; y3 ← uncont b3;
            let c := (((x - 0xF0) * 64 + y1) * 64 + y2) * 64 + y3 in
            if (len_utf8 c =? 4)%nat && is_scalar c then Some (c, bs) else None
        | _ => None
        end
      else None
  end.

(** [String::from_utf8]; a character for every byte of fuel. *)
Fixpoint from_utf8_loop (fuel : nat) (bs : list byte) : option (list Z) :=
  match bs, fuel with
  | [], _ => Some []
  | _, O => None
  | bs, S fuel => '(c, bs) ← decode_char bs; s ← from_utf8_loop fuel bs; Some (c :: s)
  end.
Definition from_utf8 (bs : list byte) : option (list Z) := from_utf8_loop (length bs) bs.

Definition is_str (s : list Z) : Prop := Forall (λ c, is_scalar c = true) s.

Lemma is_scalar_range c : is_scalar c = true → 0 <= c < 0x110000.
Proof. unfold is_scalar. lia. Qed.

Lemma length_encode_char c : length (encode_char c) = len_utf8 c.
Proof. unfold encode_char, len_utf8. by repeat case_match. Qed.

Lemma length_as_bytes s : length (as_bytes s) = str_len s.
Proof. induction s as [|c s IH]; [done|]. cbn. rewrite length_app, length_encode_char. fold (as_bytes s). by rewrite IH. Qed.

Lemma as_bytes_app a b : as_bytes (a ++ b) = as_bytes a ++ as_bytes b.
Proof. apply bind_app. Qed.

Lemma cont_range x : 0 <= 0x80 + x mod 64 < 256.
Proof. pose proof (Z.mod_pos_bound x 64 ltac:(lia)). lia. Qed.

Lemma uncont_cont x : uncont (cont x) = Some (x mod 64).
Proof.
  unfold uncont, cont. pose proof (Z.mod_pos_bound x 64 ltac:(lia)).
  rewrite byte_of_Z_u by (unfold urange; lia).
  replace ((0x80 + x mod 64) / 64) with 2 by (Z.div_mod_to_equations; lia). cbn [Z.eqb Pos.eqb].
  f_equal. Z.div_mod_to_equations; lia.
Qed.

Lemma uncont_ok b y : uncont b = Some y → 0 <= y < 64 ∧ b = cont y.
Proof.
  unfold uncont. case_match eqn:Hb; [|done]. intros [= <-]. apply Z.eqb_eq in Hb.
  split; [apply Z.mod_pos_bound; lia|]. unfold cont. apply byte_eq_of_unsigned.
  pose proof (byte.unsigned_range b). rewrite byte_of_Z_u; unfold urange; Z.div_mod_to_equations; lia.
Qed.

Lemma cont_eq x y : x mod 64 = y mod 64 → cont x = cont y.
Proof. unfold cont. by intros ->. Qed.

Lemma len_utf8_cases c :
  (len_utf8 c = 1%nat ∧ c < 0x80) ∨ (len_utf8 c = 2%nat ∧ 0x80 <= c < 0x800) ∨
  (len_utf8 c = 3%nat ∧ 0x800 <= c < 0x10000) ∨ (len_utf8 c = 4%nat ∧ 0x10000 <= c).
Proof. unfold len_utf8. repeat case_match; lia. Qed.

(** The first byte of a sequence of two, three or four. *)
Lemma lead x lo hi : urange 8 x → lo <= x < hi → lo <= byte.unsigned (byte.of_Z x) < hi ∧ byte.unsigned (byte.of_Z x) = x.
Proof. intros Hx ?. by rewrite byte_of_Z_u. Qed.

(** Comparisons of the byte [x] are decided by the bounds in the context. *)
Ltac test_byte := repeat match goal with |- context [?a <? ?b] =>
  first [rewrite (proj2 (Z.ltb_lt a b)) by lia|rewrite (proj2 (Z.ltb_ge a b)) by lia] end.

Lemma decode_encode_char c rest : is_scalar c = true → decode_char (encode_char c ++ rest) = Some (c, rest).
Proof.
  intros Hc. pose proof (is_scalar_range c Hc) as Hr. unfold encode_char.
  destruct (len_utf8_cases c) as [[Hl Hb]|[[Hl Hb]|[[Hl Hb]|[Hl Hb]]]]; rewrite Hl; cbn [app]; unfold decode_char;
    rewrite byte_of_Z_u by (unfold urange; Z.div_mod_to_equations; lia);
    (assert (0 <= c / 64 / 64 / 64 < 8) as Hq by (Z.div_mod_to_equations; lia));
    rewrite ?uncont_cont; cbn [mbind option_bind].
  - by test_byte.
  - assert (2 <= c / 64 < 32) by (Z.div_mod_to_equations; lia). test_byte.
    replace ((0xC0 + c / 64 - 0xC0) * 64 + c mod 64) with c by (Z.div_mod_to_equations; lia). by rewrite Hl.
  - assert (0 <= c / 64 / 64 < 16) by (Z.div_mod_to_equations; lia). test_byte.
    replace (((0xE0 + c / 64 / 64 - 0xE0) * 64 + (c / 64) mod 64) * 64 + c mod 64) with c by (Z.div_mod_to_equations; lia).
    by rewrite Hl, Hc.
  - test_byte.
    replace ((((0xF0 + c / 64 / 64 / 64 - 0xF0) * 64 + (c / 64 / 64) mod 64) * 64 + (c / 64) mod 64) * 64 + c mod 64)
      with c by (Z.div_mod_to_equations; lia).
    by rewrite Hl, Hc.
Qed.

(** The bytes of a code point put together from the payload [y] of its last byte. *)
Lemma shift_div a y : 0 <= y < 64 → (a * 64 + y) / 64 = a.
Proof. intros. Z.div_mod_to_equations; lia. Qed.
Lemma shift_cont a y : 0 <= y < 64 → cont (a * 64 + y) = cont y.
Proof. intros. apply cont_eq. Z.div_mod_to_equations; lia. Qed.

Lemma byte_lead b k : byte.of_Z (k + (byte.unsigned b - k)) = b.
Proof. rewrite Zplus_minus. apply byte.of_Z_unsigned. Qed.

Lemma uncont_bind {A} b (k : Z → option A) r : uncont b ≫= k = Some r → ∃ y, 0 <= y < 64 ∧ b = cont y ∧ k y = Some r.
Proof.
  destruct (uncont b) as [y|] eqn:Hy; [|done]. cbn [mbind option_bind]. apply uncont_ok in Hy as [Hy ->]. by exists y.
Qed.

Lemma decode_char_ok bs c rest : decode_char bs = Some (c, rest) → is_scalar c = true ∧ bs = encode_char c ++ rest.
Proof.
  destruct bs as [|b bs]; [done|]. unfold decode_char. pose proof (byte.unsigned_range b) as Hb.
  repeat case_match; try done; intros Hd;
    repeat (apply uncont_bind in Hd as (?y & ? & -> & Hd)); revert Hd.
  all: try (case_match eqn:Hl; [|done]); intros [= <- <-]; try (apply andb_prop in Hl as [Hl Hs]); try apply Nat.eqb_eq in Hl.
  all: unfold encode_char; try rewrite Hl; rewrite ?shift_div, ?shift_cont by done; rewrite ?byte_lead; try done.
  - split; [unfold is_scalar; lia|]. rewrite len_utf8_ascii by lia. cbn. by rewrite byte.of_Z_unsigned.
  - split; [|done]. unfold is_scalar. destruct (len_utf8_cases ((byte.unsigned b - 0xC0) * 64 + y)); lia.
Qed.

Lemma from_utf8_loop_as_bytes s fuel : (str_len s <= fuel)%nat → is_str s → from_utf8_loop fuel (as_bytes s) = Some s.
Proof.
  revert fuel. induction s as [|c s IH]; intros fuel Hf Hs; [by destruct fuel|]. apply Forall_cons in Hs as [Hc Hs].
  cbn [str_len] in Hf. pose proof (len_utf8_pos c). destruct fuel as [|fuel]; [lia|].
  cbn [as_bytes mbind list_bind]. fold (as_bytes s).
  assert (∃ b l, encode_char c = b :: l) as (b & l & Hb).
  { pose proof (length_encode_char c). destruct (encode_char c); [cbn in *; lia|by eexists _, _]. }
  pose proof (decode_encode_char c (as_bytes s) Hc) as Hd. rewrite Hb in Hd |- *. cbn [app from_utf8_loop] in Hd |- *.
  rewrite Hd. cbn [mbind option_bind]. rewrite IH by (done || lia). done.
Qed.

Lemma from_utf8_loop_ok fuel bs s : from_utf8_loop fuel bs = Some s → is_str s ∧ bs = as_bytes s.
Proof.
  revert bs s. induction fuel as [|fuel IH]; intros [|b bs] s; cbn [from_utf8_loop];
    [intros [= <-]; by split; [constructor|]|done|intros [= <-]; by split; [constructor|]|].
  destruct (decode_char _) as [[c rest]|] eqn:Hd; [|done]. cbn [mbind option_bind].
  destruct (from_utf8_loop fuel rest) as [s'|] eqn:Hs; [|done]. intros [= <-].
  apply decode_char_ok in Hd as [Hc ->]. apply IH in Hs as [Hs ->]. split; [by constructor|done].
Qed.

(** The strings are the byte strings that [from_utf8] takes. *)
Lemma from_utf8_as_bytes s : is_str s → from_utf8 (as_bytes s) = Some s.
Proof. unfold from_utf8. rewrite length_as_bytes. by apply from_utf8_loop_as_bytes. Qed.
Lemma from_utf8_ok bs s : from_utf8 bs = Some s → is_str s ∧ bs = as_bytes s.
Proof. apply from_utf8_loop_ok. Qed.

(** ** Strings on the wire *)

(** [impl Encodable for String] and for [Cow<'static, str>]. *)
Definition string_encode (s : list Z) : wr Z :=
  let b := as_bytes s in
  let+ vi_len := c_enc varint (Z.of_nat (length b)) in
  let+ _ := emit_slice b in
  w_ret (vi_len + Z.of_nat (length b)).

Definition string_decode : rd (list Z) :=
  let! v := c_dec_top bytes in
  rd_lift (ok_or (from_utf8 v) (ParseFailed "String was not valid UTF8")).

Definition string_codec : codec (list Z) := fixed_codec string_encode string_decode.

(** What can be sent: the reader of the bytes stops at [MAX_VEC_SIZE]. *)
Definition string_wf (s : list Z) : Prop :=
  is_str s ∧ Z.of_nat (str_len s) + varint_size (Z.of_nat (str_len s)) <= MAX_VEC_SIZE.

Lemma string_encode_bytes s : string_encode s = c_enc bytes (as_bytes s).
Proof. reflexivity. Qed.

#[export] Instance string_roundtrip : RoundTrip string_codec string_wf.
Proof.
  intros s [Hs Hl]. rewrite <- length_as_bytes in Hl.
  assert (fits_u64 (as_bytes s)) as Hf.
  { unfold fits_u64, MAX_VEC_SIZE in *. pose proof (varint_size_pos (Z.of_nat (length (as_bytes s)))). lia. }
  destruct (roundtrip (c := bytes) (as_bytes s) Hf) as (bs & He & Hr). exists bs. split; [exact He|]. intros rest.
  assert (Z.of_nat (length bs) <= MAX_VEC_SIZE) as Hb.
  { pose proof (bytes_encodes _ Hf) as He'. unfold encodes in He, He'. rewrite He in He'. injection He' as _ ->.
    rewrite length_app, Nat2Z.inj_add, length_varint_bytes. lia. }
  cbn [c_dec string_codec fixed_codec]. unfold string_decode, rd_bind.
  change (c_dec_top bytes) with (rd_take MAX_VEC_SIZE (c_dec bytes)). rewrite (reads_take _ _ _ _ Hr Hb).
  by rewrite from_utf8_as_bytes.
Qed.

#[export] Instance string_canonical : Canonical string_codec string_wf.
Proof.
  intros b s rest Hd. change (c_dec string_codec) with string_decode in Hd. unfold string_decode in Hd.
  apply rd_bind_ok in Hd as (v & b1 & Hv & Hd). change (c_dec_top bytes) with (rd_take MAX_VEC_SIZE (c_dec bytes)) in Hv.
  destruct (parses_take (c_dec bytes) fits_u64 (encodes bytes) MAX_VEC_SIZE _ _ _ ltac:(unfold MAX_VEC_SIZE; lia) Hv) as (Hf & bs & He & Hl & ->).
  unfold rd_lift in Hd. destruct (from_utf8 v) as [s'|] eqn:Hs; [|done]. injection Hd as <- <-.
  apply from_utf8_ok in Hs as [Hs ->]. split; [|by exists bs]. split; [done|].
  pose proof (bytes_encodes _ Hf) as He'. unfold encodes in He, He'. rewrite He in He'. injection He' as _ ->.
  rewrite length_app, Nat2Z.inj_add, length_varint_bytes, length_as_bytes in Hl. lia.
Qed.

#[export] Instance string_len : EncodeLen string_codec.
Proof. intros s n bs. apply (encode_len (c := bytes)). Qed.
