(* ===== verification/Base58.v ===== *)
(** Base-58 ([src/base58/src/lib.rs]): encoding and decoding, with and without a
    checksum. Strings are their bytes. *)

From Stdlib Require Import String ZArith Lia ZifyBool.
From stdpp Require Import base list.
From Stdlib Require Import Init.Byte.
From coqutil Require Import Byte Word.LittleEndianList.
From S2P Require Import Prelude Text HashEngine Sha256.

Definition BASE58_CHARS : list byte :=
  String.list_byte_of_string "123456789ABCDEFGHJKLMNPQRSTUVWXYZabcdefghijkmnopqrstuvwxyz".

Definition BASE58_DIGITS : list (option Z) :=
  let N := @None Z in
  [N; N; N; N; N; N; N; N;
   N; N; N; N; N; N; N; N;
   N; N; N; N; N; N; N; N;
   N; N; N; N; N; N; N; N;
   N; N; N; N; N; N; N; N;
   N; N; N; N; N; N; N; N;
   N; Some 0; Some 1; Some 2; Some 3; Some 4; Some 5; Some 6;
   Some 7; Some 8; N; N; N; N; N; N;
   N; Some 9; Some 10; Some 11; Some 12; Some 13; Some 14; Some 15;
   Some 16; N; Some 17; Some 18; Some 19; Some 20; Some 21; N;
   Some 22; Some 23; Some 24; Some 25; Some 26; Some 27; Some 28; Some 29;
   Some 30; Some 31; Some 32; N; N; N; N; N;
   N; Some 33; Some 34; Some 35; Some 36; Some 37; Some 38; Some 39;
   Some 40; Some 41; Some 42; Some 43; N; Some 44; Some 45; Some 46;
   Some 47; Some 48; Some 49; Some 50; Some 51; Some 52; Some 53; Some 54;
   Some 55; Some 56; Some 57; N; N; N; N; N].

Inductive Error :=
| Decode (invalid : byte)
| IncorrectChecksum (incorrect expected : Z)
| TooShort (length : nat).

(** ** Decoding *)

(** [for d256 in scratch.iter_mut().rev()]: from the last byte to the first; the carry stays below 58. *)
Fixpoint mul_add (scratch : list byte) (carry : Z) : list byte * Z :=
  match scratch with
  | [] => ([], carry)
  | d256 :: scratch =>
      let '(scratch, carry) := mul_add scratch carry in
      let carry := carry + byte.unsigned d256 * 58 in
      (byte.of_Z carry :: scratch, carry / 256)
  end.

(** [None] is the panic of [assert_eq!(carry, 0)]. *)
Fixpoint decode_loop (data scratch : list byte) : option (result Error (list byte)) :=
  match data with
  | [] => Some (Ok scratch)
  | d58 :: data =>
      match BASE58_DIGITS !! Z.to_nat (byte.unsigned d58) with
      | None | Some None => Some (Err (Decode d58))
      | Some (Some digit) =>
          let '(scratch, carry) := mul_add scratch digit in
          if carry =? 0 then decode_loop data scratch else None
      end
  end.

Fixpoint take_while {A} (p : A → bool) (l : list A) : list A :=
  match l with [] => [] | x :: l => if p x then x :: take_while p l else [] end.
Fixpoint skip_while {A} (p : A → bool) (l : list A) : list A :=
  match l with [] => [] | x :: l' => if p x then skip_while p l' else l end.

Definition decode (data : list byte) : option (result Error (list byte)) :=
  r ← decode_loop data (replicate (1 + length data * 11 / 15) x00);
  Some (let? scratch := r in
        let ret := map (λ _, x00) (take_while (λ x, Byte.eqb x x31) data) in
        Ok (ret ++ skip_while (λ x, byte.unsigned x =? 0) scratch)).

Definition decode_check (data : list byte) : option (result Error (list byte)) :=
  r ← decode data;
  Some (let? ret := r in
        if (length ret <? 4)%nat then Err (TooShort (length ret))
        else
          let check_start := (length ret - 4)%nat in
          let hash_check := take 4 (sha256d_hash (take check_start ret)) in
          let data_check := drop check_start ret in
          let expected := le_combine hash_check in
          let actual := le_combine data_check in
          if negb (actual =? expected) then Err (IncorrectChecksum actual expected)
          else Ok (take check_start ret)).

(** ** Encoding *)

(** [SmallVec]: the first 100 elements are on the stack. *)
Record SmallVec := { sv_len : nat; sv_stack : list Z; sv_heap : list Z }.

Definition sv_new : SmallVec := {| sv_len := 0; sv_stack := replicate 100 0; sv_heap := [] |}.

Definition sv_push (self : SmallVec) (val : Z) : SmallVec :=
  if (sv_len self <? 100)%nat then
    {| sv_len := sv_len self + 1; sv_stack := <[sv_len self := val]> (sv_stack self); sv_heap := sv_heap self |}
  else {| sv_len := sv_len self; sv_stack := sv_stack self; sv_heap := sv_heap self ++ [val] |}.

Definition sv_iter (self : SmallVec) : list Z := take (sv_len self) (sv_stack self) ++ sv_heap self.

(** [for ch in ret.iter_mut()], over a slice of the digits. *)
Fixpoint digits_loop (chs : list Z) (carry : Z) : list Z * Z :=
  match chs with
  | [] => ([], carry)
  | ch :: chs =>
      let new_ch := ch * 256 + carry in
      let '(chs, carry) := digits_loop chs (new_ch / 58) in
      (new_ch mod 58 :: chs, carry)
  end.

(** The stack is visited, then the heap. *)
Definition sv_update (self : SmallVec) (carry : Z) : SmallVec * Z :=
  let '(front, carry) := digits_loop (take (sv_len self) (sv_stack self)) carry in
  let '(heap, carry) := digits_loop (sv_heap self) carry in
  ({| sv_len := sv_len self; sv_stack := front ++ drop (sv_len self) (sv_stack self); sv_heap := heap |}, carry).

(** [while carry > 0]: the carry gets smaller each time. *)
Fixpoint push_carry (fuel : nat) (ret : SmallVec) (carry : Z) : SmallVec :=
  match fuel with
  | O => ret
  | S fuel => if carry >? 0 then push_carry fuel (sv_push ret (carry mod 58)) (carry / 58) else ret
  end.

Fixpoint format_loop (data : list byte) (leading_zero_count : nat) (leading_zeroes : bool) (ret : SmallVec) : nat * SmallVec :=
  match data with
  | [] => (leading_zero_count, ret)
  | d256 :: data =>
      let carry := byte.unsigned d256 in
      let '(leading_zero_count, leading_zeroes) :=
        if leading_zeroes && (carry =? 0) then (S leading_zero_count, true) else (leading_zero_count, false) in
      let '(ret, carry) := sv_update ret carry in
      let ret := push_carry (Z.to_nat carry) ret carry in
      format_loop data leading_zero_count leading_zeroes ret
  end.

Fixpoint push_zeros (n : nat) (ret : SmallVec) : SmallVec :=
  match n with O => ret | S n => push_zeros n (sv_push ret 0) end.

(** [None] is the panic of an index out of range. *)
Definition format_iter (data : list byte) : option (list byte) :=
  let '(leading_zero_count, ret) := format_loop data 0 true sv_new in
  let ret := push_zeros leading_zero_count ret in
  mapM (λ ch, BASE58_CHARS !! Z.to_nat ch) (rev (sv_iter ret)).

Definition encode_iter (data : list byte) : option (list byte) := format_iter data.
Definition encode (data : list byte) : option (list byte) := encode_iter data.
Definition encode_check (data : list byte) : option (list byte) :=
  encode_iter (data ++ take 4 (sha256d_hash data)).
Definition encode_check_to_fmt (data : list byte) : option (list byte) :=
  format_iter (data ++ take 4 (sha256d_hash data)).

(** ** The tables *)

Definition digit_of (c : byte) : option Z := mjoin (BASE58_DIGITS !! Z.to_nat (byte.unsigned c)).
Definition char_of (d : Z) : option byte := BASE58_CHARS !! Z.to_nat d.

Lemma digit_char c d : digit_of c = Some d → 0 <= d < 58 ∧ char_of d = Some c.
Proof. destruct c; vm_compute; first [discriminate|intros [= <-]; repeat split; (reflexivity || discriminate)]. Qed.

Lemma char_digit d c : 0 <= d < 58 → char_of d = Some c → digit_of c = Some d.
Proof.
  intros Hd. rewrite <- (Z2Nat.id d) by lia. assert (Z.to_nat d < 58)%nat as Hn by lia. revert Hn.
  unfold char_of. rewrite Nat2Z.id. generalize (Z.to_nat d). clear. intros n Hn.
  do 58 (destruct n as [|n]; [intros [= <-]; reflexivity|]). lia.
Qed.

Lemma char_some d : 0 <= d < 58 → ∃ c, char_of d = Some c.
Proof. intros Hd. destruct (char_of d) eqn:E; [by eexists|]. apply lookup_ge_None in E. cbn in E. lia. Qed.

Lemma one_digit c : Byte.eqb c x31 = true ↔ digit_of c = Some 0.
Proof. by destruct c. Qed.

(** ** Decoding *)

Definition bytes_num (bs : list byte) : Z := num 256 (map byte.unsigned bs).

Lemma bytes_digits bs : digits 256 (map byte.unsigned bs).
Proof. apply Forall_map, Forall_true. intros b. apply byte.unsigned_range. Qed.

Lemma mul_add_spec scratch carry :
  0 <= carry < 58 →
  let '(scratch', carry') := mul_add scratch carry in
  length scratch' = length scratch ∧ 0 <= carry' < 58 ∧
  carry' * 256 ^ Z.of_nat (length scratch) + bytes_num scratch' = bytes_num scratch * 58 + carry.
Proof.
  intros Hc. induction scratch as [|d s IH]; [cbn; lia|]. cbn [mul_add]. destruct (mul_add s carry) as [s' c].
  destruct IH as (Hl & Hc' & Hn). unfold bytes_num in *. cbn [map length]. rewrite !num_cons, !length_map, Hl.
  rewrite byte.unsigned_of_Z. unfold byte.wrap. change (2 ^ 8) with 256.
  pose proof (byte.unsigned_range d). set (x := c + byte.unsigned d * 58).
  pose proof (Z.div_mod x 256 ltac:(lia)). pose proof (Z.mod_pos_bound x 256 ltac:(lia)).
  split_and!; [done|nia|nia|]. rewrite Nat2Z.inj_succ, Z.pow_succ_r by lia. nia.
Qed.

(** The buffer is large enough: [58 ^ 15 <= 256 ^ 11]. *)
Lemma capacity n : 58 ^ Z.of_nat n <= 256 ^ Z.of_nat (1 + n * 11 / 15).
Proof.
  assert (∀ q r, (r < 15)%nat → 58 ^ Z.of_nat (15 * q + r) <= 256 ^ Z.of_nat (1 + (15 * q + r) * 11 / 15)) as Hqr.
  { intros q r Hr. replace ((15 * q + r) * 11)%nat with (11 * q * 15 + r * 11)%nat by lia.
    rewrite Nat.div_add_l by lia. replace (1 + (11 * q + r * 11 / 15))%nat with (11 * q + (1 + r * 11 / 15))%nat by lia.
    rewrite !Nat2Z.inj_add, !Nat2Z.inj_mul, !Z.pow_add_r, !Z.pow_mul_r by lia.
    apply Z.mul_le_mono_nonneg; [apply Z.pow_nonneg; lia|apply Z.pow_le_mono_l; lia|lia|].
    do 15 (destruct r as [|r]; [vm_compute; discriminate|]). lia. }
  rewrite (Nat.div_mod_eq n 15). apply Hqr. apply Nat.mod_upper_bound. lia.
Qed.

Lemma decode_loop_spec data scratch :
  (bytes_num scratch + 1) * 58 ^ Z.of_nat (length data) <= 256 ^ Z.of_nat (length scratch) →
  match mapM digit_of data with
  | Some ds => ∃ scratch', decode_loop data scratch = Some (Ok scratch') ∧
      bytes_num scratch' = bytes_num scratch * 58 ^ Z.of_nat (length ds) + num 58 ds
  | None => ∃ c, c ∈ data ∧ digit_of c = None ∧ decode_loop data scratch = Some (Err (Decode c))
  end.
Proof.
  revert scratch. induction data as [|c data IH]; intros scratch Hb; [exists scratch; split; [done|cbn; lia]|].
  cbn [mapM decode_loop]. destruct (digit_of c) as [d|] eqn:Hdc; cbn [mbind option_bind].
  2:{ exists c. split_and!; [left|done|]. unfold digit_of in Hdc. by destruct (BASE58_DIGITS !! _) as [[d|]|]. }
  assert (BASE58_DIGITS !! Z.to_nat (byte.unsigned c) = Some (Some d)) as ->.
  { unfold digit_of in Hdc. destruct (BASE58_DIGITS !! _) as [[d'|]|]; try done. by injection Hdc as ->. }
  apply digit_char in Hdc as [Hr _].
  pose proof (mul_add_spec scratch d Hr) as Hm. destruct (mul_add scratch d) as [s' c']. destruct Hm as (Hl & Hc & Hn).
  cbn [length] in Hb. rewrite Nat2Z.inj_succ, Z.pow_succ_r in Hb by lia.
  pose proof (num_bound 256 _ ltac:(lia) (bytes_digits s')) as B1. rewrite length_map, Hl in B1. fold (bytes_num s') in B1.
  pose proof (num_bound 256 _ ltac:(lia) (bytes_digits scratch)) as B2. fold (bytes_num scratch) in B2.
  assert (1 <= 58 ^ Z.of_nat (length data)) as Hp by (apply (Z.pow_le_mono_r 58 0); lia).
  assert (c' = 0) as -> by nia. cbn [Z.eqb]. rewrite Z.mul_0_l, Z.add_0_l in Hn.
  specialize (IH s'). rewrite Hl, Hn in IH. specialize (IH ltac:(nia)).
  destruct (mapM digit_of data) as [ds|].
  - destruct IH as (s'' & E & Hs''). exists s''. split; [done|]. rewrite Hs'', num_cons. cbn [length mret option_ret].
    rewrite Nat2Z.inj_succ, Z.pow_succ_r by lia. ring.
  - destruct IH as (x & Hx & Hdx & E). exists x. split_and!; [by right|done|done].
Qed.

Lemma bytes_num_zeros k bs : bytes_num (replicate k x00 ++ bs) = bytes_num bs.
Proof. unfold bytes_num. rewrite map_app. change (map byte.unsigned) with (fmap (M := list) byte.unsigned) at 1. rewrite fmap_replicate. apply num_zeros. Qed.

Definition byte_zero (b : byte) : bool := byte.unsigned b =? 0.

Lemma byte_zero_eq b : byte_zero b = true ↔ b = x00.
Proof. by destruct b. Qed.

(** Leading zeros and the rest. *)
Lemma split_zeros bs : ∃ z rest, bs = replicate z x00 ++ rest ∧ no_lead (map byte.unsigned rest) ∧ skip_while byte_zero bs = rest.
Proof.
  induction bs as [|b bs (z & rest & -> & Hn & Hs)]; [by exists 0%nat, []|]. cbn [skip_while].
  destruct (byte_zero b) eqn:Eb.
  - apply byte_zero_eq in Eb as ->. by exists (S z), rest.
  - eexists 0%nat, _. split_and!; [done| |done]. cbn. unfold byte_zero in Eb. lia.
Qed.

Lemma skip_zeros_num bs rest :
  no_lead (map byte.unsigned rest) → bytes_num bs = bytes_num rest → skip_while byte_zero bs = rest.
Proof.
  intros Hn He. destruct (split_zeros bs) as (z & rest' & -> & Hn' & Hs). rewrite Hs. rewrite bytes_num_zeros in He.
  pose proof (num_canonical 256 _ _ ltac:(lia) (bytes_digits rest') (bytes_digits rest) Hn' Hn He) as Hm.
  revert Hm. clear. revert rest. induction rest' as [|b l IH]; intros [|c k]; try done. cbn. intros [= Hb Hl].
  by rewrite (byte.unsigned_inj _ _ Hb), (IH _ Hl).
Qed.

(** Characters and digits, as lists. *)
Lemma chars_digits s ds : mapM digit_of s = Some ds → digits 58 ds ∧ mapM char_of ds = Some s.
Proof.
  revert ds. induction s as [|c s IH]; intros ds; cbn [mapM]; [intros [= <-]; split; [constructor|done]|].
  destruct (digit_of c) as [d|] eqn:Ed; [|done]. cbn [mbind option_bind]. destruct (mapM digit_of s) as [ds'|]; [|done].
  intros [= <-]. apply digit_char in Ed as [Hd Ec]. destruct (IH ds' eq_refl) as [Hds E]. split; [by constructor|].
  cbn [mapM]. rewrite Ec. cbn [mbind option_bind]. by rewrite E.
Qed.

Lemma digits_chars ds : digits 58 ds → ∃ s, mapM char_of ds = Some s ∧ mapM digit_of s = Some ds.
Proof.
  induction 1 as [|d ds Hd _ (s & E & E')]; [by exists []|]. destruct (char_some d Hd) as [c Ec]. exists (c :: s).
  cbn [mapM]. rewrite Ec, (char_digit d c Hd Ec). cbn [mbind option_bind]. by rewrite E, E'.
Qed.

Definition zeros (ds : list Z) : nat := length (take_while (Z.eqb 0) ds).

Lemma zeros_app k ds : no_lead ds → zeros (replicate k 0 ++ ds) = k.
Proof.
  intros Hn. induction k as [|k IH]; [|unfold zeros in *; cbn; by rewrite IH].
  destruct ds as [|d ds]; [done|]. unfold zeros. cbn [replicate app take_while]. by rewrite (proj2 (Z.eqb_neq 0 d)) by (cbn in Hn; lia).
Qed.

Lemma zeros_split ds : ∃ ds', ds = replicate (zeros ds) 0 ++ ds' ∧ no_lead ds'.
Proof.
  induction ds as [|d ds (ds' & E & Hn)]; [by exists []|]. unfold zeros in *. cbn [take_while].
  destruct (Z.eqb_spec 0 d) as [<-|Hd]; [|exists (d :: ds); split; [done|cbn; lia]].
  exists ds'. split; [|done]. cbn [length replicate app]. by rewrite <- E.
Qed.

Lemma ones_zeros s ds : mapM digit_of s = Some ds → length (take_while (λ x, Byte.eqb x x31) s) = zeros ds.
Proof.
  revert ds. induction s as [|c s IH]; intros ds; cbn [mapM]; [by intros [= <-]|].
  destruct (digit_of c) as [d|] eqn:Ed; [|done]. cbn [mbind option_bind]. destruct (mapM digit_of s) as [ds'|]; [|done].
  intros [= <-]. unfold zeros in *. cbn [take_while]. specialize (IH ds' eq_refl). pose proof (one_digit c) as H1.
  destruct (Byte.eqb c x31).
  - destruct H1 as [H1 _]. specialize (H1 eq_refl). rewrite Ed in H1. injection H1 as ->. cbn [Z.eqb length]. by rewrite IH.
  - destruct (Z.eqb_spec 0 d) as [<-|]; [|done]. exfalso. enough (false = true) by done. apply H1. done.
Qed.

Lemma bytes_zeros bs : length (take_while byte_zero bs) = zeros (map byte.unsigned bs).
Proof.
  unfold zeros. induction bs as [|b bs IH]; [done|]. cbn [take_while map]. unfold byte_zero at 1. rewrite Z.eqb_sym.
  destruct (0 =? byte.unsigned b); [cbn [length]; by rewrite IH|done].
Qed.

Lemma map_const_zeros {A} (l : list A) : map (λ _, x00) l = replicate (length l) x00.
Proof. induction l as [|x l IH]; [done|]. cbn. by rewrite IH. Qed.

(** What [decode] computes. *)
Lemma decode_spec s :
  match mapM digit_of s with
  | Some ds => ∃ rest, decode s = Some (Ok (replicate (zeros ds) x00 ++ rest)) ∧
      no_lead (map byte.unsigned rest) ∧ bytes_num rest = num 58 ds
  | None => ∃ c, c ∈ s ∧ digit_of c = None ∧ decode s = Some (Err (Decode c))
  end.
Proof.
  unfold decode. pose proof (decode_loop_spec s (replicate (1 + length s * 11 / 15) x00)) as Hd.
  assert (bytes_num (replicate (1 + length s * 11 / 15) x00) = 0) as H0.
  { rewrite <- (app_nil_r (replicate _ x00)). by rewrite bytes_num_zeros. }
  rewrite H0 in Hd. rewrite length_replicate in Hd. pose proof (capacity (length s)) as Hc. specialize (Hd ltac:(lia)).
  destruct (mapM digit_of s) as [ds|] eqn:Em.
  - destruct Hd as (s' & -> & Hn). rewrite Z.mul_0_l, Z.add_0_l in Hn. cbn [mbind option_bind].
    destruct (split_zeros s') as (z & rest & E & Hl & Hs). exists rest. change (λ x, byte.unsigned x =? 0) with byte_zero.
    cbn [result_bind]. rewrite Hs, map_const_zeros, (ones_zeros _ _ Em). split_and!; [done|done|]. rewrite <- Hn, E. by rewrite bytes_num_zeros.
  - destruct Hd as (c & Hc' & Hdc & ->). exists c. done.
Qed.

(** ** Encoding *)

Definition lnum (ds : list Z) : Z := num 58 (rev ds).

Lemma lnum_cons d ds : lnum (d :: ds) = lnum ds * 58 + d.
Proof. unfold lnum. cbn [rev]. apply num_snoc. Qed.

Lemma lnum_snoc ds d : lnum (ds ++ [d]) = d * 58 ^ Z.of_nat (length ds) + lnum ds.
Proof. unfold lnum. rewrite rev_app_distr. cbn [rev app]. by rewrite num_cons, length_rev. Qed.

(** The fields agree with each other. *)
Definition sv_wf (self : SmallVec) : Prop :=
  length (sv_stack self) = 100%nat ∧ (sv_len self <= 100)%nat ∧ ((sv_len self < 100)%nat → sv_heap self = []).

Lemma sv_push_spec self val : sv_wf self → sv_wf (sv_push self val) ∧ sv_iter (sv_push self val) = sv_iter self ++ [val].
Proof.
  intros (Hs & Hl & Hh). unfold sv_push. destruct (Nat.ltb_spec (sv_len self) 100) as [Hlt|Hge].
  - specialize (Hh Hlt). split; [split_and!; cbn; [by rewrite length_insert|lia|done]|]. unfold sv_iter. cbn.
    rewrite Hh, !app_nil_r. rewrite Nat.add_1_r. erewrite take_S_r; [|apply list_lookup_insert_eq; lia].
    by rewrite take_insert_ge by lia.
  - split; [split_and!; cbn; [done|done|lia]|]. unfold sv_iter. cbn. by rewrite app_assoc.
Qed.

Lemma digits_loop_app a b carry :
  digits_loop (a ++ b) carry =
  (let '(a', carry) := digits_loop a carry in let '(b', carry) := digits_loop b carry in (a' ++ b', carry)).
Proof.
  revert carry. induction a as [|x a IH]; intros carry; cbn [app digits_loop]; [by destruct (digits_loop b carry)|].
  rewrite IH. destruct (digits_loop a _) as [a' c]. by destruct (digits_loop b c).
Qed.

Lemma digits_loop_length a carry : length (digits_loop a carry).1 = length a.
Proof.
  revert carry. induction a as [|x a IH]; intros carry; [done|]. cbn [digits_loop].
  specialize (IH ((x * 256 + carry) / 58)). destruct (digits_loop a _). cbn in *. by rewrite IH.
Qed.

Lemma sv_update_spec self carry :
  sv_wf self →
  sv_wf (sv_update self carry).1 ∧
  (sv_iter (sv_update self carry).1, (sv_update self carry).2) = digits_loop (sv_iter self) carry.
Proof.
  intros (Hs & Hl & Hh). unfold sv_update, sv_iter. rewrite digits_loop_app.
  pose proof (digits_loop_length (take (sv_len self) (sv_stack self)) carry) as Hf.
  destruct (digits_loop (take _ _) carry) as [f c]. cbn in Hf. rewrite length_take, Hs, Nat.min_l in Hf by lia.
  pose proof (digits_loop_length (sv_heap self) c) as Hp. destruct (digits_loop (sv_heap self) c) as [h c']. cbn in Hp.
  cbn. split.
  - split_and!; cbn; [rewrite length_app, length_drop; lia|done|]. intros H. rewrite (Hh H) in Hp. by destruct h.
  - by rewrite take_app_length' by lia.
Qed.

Lemma digits_loop_spec chs carry :
  digits 58 chs → 0 <= carry < 256 →
  let '(chs', carry') := digits_loop chs carry in
  digits 58 chs' ∧ 0 <= carry' < 256 ∧ length chs' = length chs ∧
  lnum chs' + carry' * 58 ^ Z.of_nat (length chs) = lnum chs * 256 + carry.
Proof.
  intros Hd. revert carry. induction Hd as [|d ds Hd Hds IH]; intros carry Hc; [cbn; repeat split; try lia; constructor|].
  cbn [digits_loop]. pose proof (Z.div_mod (d * 256 + carry) 58 ltac:(lia)) as Hdm.
  pose proof (Z.mod_pos_bound (d * 256 + carry) 58 ltac:(lia)).
  specialize (IH ((d * 256 + carry) / 58) ltac:(nia)). destruct (digits_loop ds _) as [chs' c'].
  destruct IH as (H1 & H2 & H3 & H4). split_and!; [by constructor|lia|lia|cbn; by rewrite H3|].
  rewrite !lnum_cons. cbn [length]. rewrite Nat2Z.inj_succ, Z.pow_succ_r by lia. nia.
Qed.

(** No digit is wasted. *)
Definition minimal (ds : list Z) : Prop := 58 ^ Z.of_nat (length ds) <= Z.max 1 (58 * lnum ds).

Lemma minimal_no_lead ds : digits 58 ds → minimal ds → no_lead (rev ds).
Proof.
  intros Hd. unfold minimal, lnum. rewrite <- (length_rev ds). assert (digits 58 (rev ds)) as Hr by (by apply Forall_rev).
  destruct (rev ds) as [|d l]; [done|]. cbn [no_lead]. intros Hm ->. apply Forall_cons in Hr as [_ Hl].
  pose proof (num_bound 58 l ltac:(lia) Hl). rewrite num_cons in Hm. cbn [length] in Hm.
  rewrite Nat2Z.inj_succ, Z.pow_succ_r in Hm by lia. lia.
Qed.

Lemma push_carry_spec fuel ret carry :
  sv_wf ret → digits 58 (sv_iter ret) → 0 <= carry <= Z.of_nat fuel → (carry = 0 → minimal (sv_iter ret)) →
  let ret' := push_carry fuel ret carry in
  sv_wf ret' ∧ digits 58 (sv_iter ret') ∧ minimal (sv_iter ret') ∧
  lnum (sv_iter ret') = lnum (sv_iter ret) + carry * 58 ^ Z.of_nat (length (sv_iter ret)).
Proof.
  revert ret carry. induction fuel as [|fuel IH]; intros ret carry Hw Hd Hc Hm; cbn [push_carry].
  { assert (carry = 0) as -> by lia. split_and!; auto; lia. }
  destruct (Z.gtb_spec carry 0) as [Hp|Hp]; [|assert (carry = 0) as -> by lia; split_and!; auto; lia].
  pose proof (Z.div_mod carry 58 ltac:(lia)) as Hdm. pose proof (Z.mod_pos_bound carry 58 ltac:(lia)).
  destruct (sv_push_spec ret (carry mod 58) Hw) as [Hw' Hi]. cbv zeta in IH.
  specialize (IH (sv_push ret (carry mod 58)) (carry / 58) Hw'). rewrite Hi in IH.
  pose proof (num_bound 58 (rev (sv_iter ret)) ltac:(lia) (Forall_rev Hd)) as Hb. fold (lnum (sv_iter ret)) in Hb.
  destruct IH as (H1 & H2 & H3 & H4).
  - apply Forall_app_2; [exact Hd|]. constructor; [lia|constructor].
  - split; [apply Z.div_pos; lia|]. assert (carry / 58 < carry) by (apply Z.div_lt; lia). lia.
  - intros H0. unfold minimal. rewrite lnum_snoc, length_app, Nat2Z.inj_add, Z.pow_add_r by lia. cbn [length]. rewrite Z.pow_1_r. nia.
  - split_and!; try done. rewrite H4, lnum_snoc, length_app, Nat2Z.inj_add, Z.pow_add_r by lia. cbn [length]. rewrite Z.pow_1_r. nia.
Qed.

Lemma bytes_num_cons b bs : bytes_num (b :: bs) = byte.unsigned b * 256 ^ Z.of_nat (length bs) + bytes_num bs.
Proof. unfold bytes_num. cbn [map]. by rewrite num_cons, length_map. Qed.

Lemma format_loop_spec data z lz ret :
  sv_wf ret → digits 58 (sv_iter ret) → minimal (sv_iter ret) →
  let '(z', ret') := format_loop data z lz ret in
  z' = (z + if lz then length (take_while byte_zero data) else 0)%nat ∧
  sv_wf ret' ∧ digits 58 (sv_iter ret') ∧ minimal (sv_iter ret') ∧
  lnum (sv_iter ret') = lnum (sv_iter ret) * 256 ^ Z.of_nat (length data) + bytes_num data.
Proof.
  revert z lz ret. induction data as [|b data IH]; intros z lz ret Hw Hd Hm.
  { cbn. split_and!; [destruct lz; lia|done|done|done|lia]. }
  cbn [format_loop take_while length]. change (byte.unsigned b =? 0) with (byte_zero b).
  pose proof (byte.unsigned_range b) as Hb. destruct (sv_update_spec ret (byte.unsigned b) Hw) as [Hw1 Hu].
  pose proof (digits_loop_spec _ _ Hd Hb) as Hl. rewrite <- Hu in Hl.
  destruct (sv_update ret (byte.unsigned b)) as [ret1 carry]. cbn [fst snd] in *. destruct Hl as (Hd1 & Hc1 & Hl1 & Hn1).
  pose proof (push_carry_spec (Z.to_nat carry) ret1 carry Hw1 Hd1 ltac:(lia)) as Hp. cbv zeta in Hp.
  destruct Hp as (Hw2 & Hd2 & Hm2 & Hn2).
  { intros ->. unfold minimal in *. rewrite Hl1. pose proof (num_bound 58 _ ltac:(lia) (Forall_rev Hd)) as B. fold (lnum (sv_iter ret)) in B. lia. }
  rewrite Hl1 in Hn2.
  set (st := if lz && byte_zero b then (S z, true) else (z, false)). specialize (IH st.1 st.2 _ Hw2 Hd2 Hm2).
  subst st. destruct (lz && byte_zero b) eqn:E; cbn [fst snd] in IH; (destruct (format_loop data _ _ _) as [z' ret']);
    destruct IH as (-> & H1 & H2 & H3 & H4); split_and!; try done.
  - apply andb_true_iff in E as [-> ->]. cbn [length]. lia.
  - rewrite H4, bytes_num_cons, Hn2, Hn1, Nat2Z.inj_succ, Z.pow_succ_r by lia. ring.
  - destruct lz; [|lia]. cbn in E. rewrite E. cbn. lia.
  - rewrite H4, bytes_num_cons, Hn2, Hn1, Nat2Z.inj_succ, Z.pow_succ_r by lia. ring.
Qed.

Lemma push_zeros_iter n ret : sv_wf ret → sv_iter (push_zeros n ret) = sv_iter ret ++ replicate n 0.
Proof.
  revert ret. induction n as [|n IH]; intros ret Hw; cbn [push_zeros]; [by rewrite app_nil_r|].
  destruct (sv_push_spec ret 0 Hw) as [Hw' Hi]. rewrite (IH _ Hw'), Hi, <- app_assoc. done.
Qed.

(** What [encode] computes. *)
Lemma encode_spec data :
  ∃ ds, digits 58 ds ∧ no_lead ds ∧ num 58 ds = bytes_num data ∧
    encode data = mapM char_of (replicate (zeros (map byte.unsigned data)) 0 ++ ds).
Proof.
  unfold encode, encode_iter, format_iter. pose proof (format_loop_spec data 0 true sv_new) as Hf.
  destruct (format_loop data 0 true sv_new) as [z ret]. destruct Hf as (-> & Hw & Hd & Hm & Hn).
  - split_and!; cbn; [reflexivity|lia|reflexivity].
  - constructor.
  - vm_compute. discriminate.
  - exists (rev (sv_iter ret)). split_and!; [by apply Forall_rev|by apply minimal_no_lead|exact Hn|].
    rewrite (push_zeros_iter _ _ Hw), rev_app_distr, (rev_alt (replicate _ _)). change (rev_append ?l []) with (reverse l). by rewrite reverse_replicate, bytes_zeros.
Qed.

(** ** Round trips *)

(** Encoding a decoded string and decoding an encoded one. *)
Lemma encode_decode d : ∃ s, encode d = Some s ∧ decode s = Some (Ok d).
Proof.
  destruct (encode_spec d) as (ds & Hds & Hl & Hn & He).
  assert (digits 58 (replicate (zeros (map byte.unsigned d)) 0 ++ ds)) as Hz.
  { apply Forall_app. split; [|done]. apply Forall_replicate. lia. }
  destruct (digits_chars _ Hz) as (s & Es & Es'). exists s. split; [congruence|].
  pose proof (decode_spec s) as Hd. rewrite Es', zeros_app, num_zeros, Hn in Hd by done.
  destruct Hd as (rest & -> & Hr & Hrn). do 2 f_equal.
  destruct (split_zeros d) as (z & rest' & -> & Hr' & _). rewrite bytes_num_zeros in Hrn.
  rewrite map_app. change (map byte.unsigned (replicate z x00)) with (byte.unsigned <$> replicate z x00).
  rewrite fmap_replicate. change (byte.unsigned x00) with 0. rewrite zeros_app by done. f_equal.
  rewrite <- (skip_zeros_num rest' rest Hr (eq_sym Hrn)). by apply skip_zeros_num.
Qed.

Lemma decode_encode s d : decode s = Some (Ok d) → encode d = Some s.
Proof.
  intros Hd. pose proof (decode_spec s) as Hs. destruct (mapM digit_of s) as [ds|] eqn:Em.
  2:{ destruct Hs as (c & _ & _ & Hs). congruence. }
  destruct Hs as (rest & Hs & Hr & Hrn). rewrite Hs in Hd. injection Hd as <-.
  destruct (chars_digits _ _ Em) as [Hds Hc]. destruct (encode_spec (replicate (zeros ds) x00 ++ rest)) as (es & Hes & Hl & Hn & ->).
  rewrite map_app. change (map byte.unsigned (replicate ?z x00)) with (byte.unsigned <$> replicate z x00).
  rewrite fmap_replicate. change (byte.unsigned x00) with 0. rewrite zeros_app by done. rewrite <- Hc. f_equal.
  destruct (zeros_split ds) as (ds' & E & Hl'). rewrite E at 2. f_equal.
  rewrite bytes_num_zeros, Hrn, E, num_zeros in Hn. rewrite E in Hds. apply Forall_app in Hds as [_ Hds].
  by apply (num_canonical 58).
Qed.

(** The alphabet is the characters that stand for a digit. *)
Lemma char_digit_of c : c ∈ BASE58_CHARS ↔ is_Some (digit_of c).
Proof.
  split.
  - intros (i & Hi)%list_elem_of_lookup. pose proof (lookup_lt_Some _ _ _ Hi) as Hl. cbn in Hl.
    exists (Z.of_nat i). apply char_digit; [lia|]. unfold char_of. by rewrite Nat2Z.id.
  - intros [d (Hd & Hc)%digit_char]. by eapply list_elem_of_lookup_2.
Qed.

Lemma alphabet s : Forall (.∈ BASE58_CHARS) s ↔ is_Some (mapM digit_of s).
Proof. rewrite mapM_is_Some. apply Forall_iff. intros c. apply char_digit_of. Qed.

(** The checksum, and what [decode_check] makes of a decoded string. *)
Definition checksum (bs : list byte) : list byte := take 4 (sha256d_hash bs).

Lemma checksum_length bs : length (checksum bs) = 4%nat.
Proof. unfold checksum. rewrite length_take, length_sha256d_hash_any. reflexivity. Qed.

Lemma decode_check_split s p c :
  decode s = Some (Ok (p ++ c)) → length c = 4%nat →
  decode_check s =
    Some (if le_combine c =? le_combine (checksum p) then Ok p
          else Err (IncorrectChecksum (le_combine c) (le_combine (checksum p)))).
Proof.
  intros Hd Hc. unfold decode_check. rewrite Hd. cbn [mbind option_bind result_bind]. rewrite length_app, Hc.
  rewrite (proj2 (Nat.ltb_ge (length p + 4) 4)) by lia. replace (length p + 4 - 4)%nat with (length p) by lia.
  rewrite take_app_length, drop_app_length. fold (checksum p). f_equal. destruct (_ =? _); reflexivity.
Qed.

Lemma decode_check_cases s :
  (∃ c, decode s = Some (Err (Decode c)) ∧ decode_check s = Some (Err (Decode c))) ∨
  (∃ d, decode s = Some (Ok d) ∧ (length d < 4)%nat ∧ decode_check s = Some (Err (TooShort (length d)))) ∨
  (∃ p c, decode s = Some (Ok (p ++ c)) ∧ length c = 4%nat ∧ decode_check s =
     Some (if le_combine c =? le_combine (checksum p) then Ok p
           else Err (IncorrectChecksum (le_combine c) (le_combine (checksum p))))).
Proof.
  assert (∃ r, decode s = Some r ∧ ∀ e, r = Err e → ∃ c, e = Decode c) as ([d|e] & Hd & He).
  { pose proof (decode_spec s) as Hs. destruct (mapM digit_of s).
    - destruct Hs as (rest & -> & _). by eexists.
    - destruct Hs as (c & _ & _ & ->). eexists. split; [done|]. intros e [= <-]. by exists c. }
  - destruct (Nat.lt_ge_cases (length d) 4) as [Hlt|Hge]; right; [left|right].
    + exists d. split_and!; [done|done|]. unfold decode_check. rewrite Hd. cbn [mbind option_bind result_bind].
      rewrite (proj2 (Nat.ltb_lt _ _) Hlt). reflexivity.
    + exists (take (length d - 4) d), (drop (length d - 4) d). rewrite <- (take_drop (length d - 4) d) in Hd.
      assert (length (drop (length d - 4) d) = 4%nat) as Hc by (rewrite length_drop; lia).
      split_and!; [exact Hd|exact Hc|]. by apply decode_check_split.
  - destruct (He e eq_refl) as [c ->]. left. exists c. split; [done|]. unfold decode_check. rewrite Hd. reflexivity.
Qed.

(** Base-58 is a bijection between byte strings and strings over its
    alphabet: [encode] never indexes outside its table and [decode] never trips
    its assertion that the buffer is large enough; decoding what was encoded
    gives the bytes back, every string that decodes is the encoding of what it
    decodes to (leading ones and zeros included, whether or not the digits
    overflow the stack part of the small vector), and [decode] fails exactly on
    a string with a byte outside the alphabet, which it reports. *)
Theorem base58_bijection :
  (∀ d, ∃ s, encode d = Some s ∧ decode s = Some (Ok d)) ∧
  (∀ s d, decode s = Some (Ok d) ↔ encode d = Some s) ∧
  (∀ s, (∃ d, decode s = Some (Ok d)) ↔ Forall (.∈ BASE58_CHARS) s) ∧
  (∀ s, ¬ (Forall (.∈ BASE58_CHARS) s) → ∃ c, c ∈ s ∧ (c ∉ BASE58_CHARS) ∧ decode s = Some (Err (Decode c))).
Proof.
  split; [apply encode_decode|]. split; [|split].
  - intros s d. split; [apply decode_encode|]. intros He. destruct (encode_decode d) as (s' & He' & Hd). congruence.
  - intros s. pose proof (decode_spec s) as Hs. rewrite alphabet. destruct (mapM digit_of s) as [ds|].
    + destruct Hs as (rest & -> & _). split; [by eexists|by eexists].
    + destruct Hs as (c & _ & _ & ->). split; [by intros [? ?]|by intros [? ?]].
  - intros s. rewrite alphabet. pose proof (decode_spec s) as Hs. destruct (mapM digit_of s) as [ds|].
    + intros Hn. exfalso. apply Hn. by eexists.
    + destruct Hs as (c & Hc & Hd & Hs). intros _. exists c. split_and!; [done| |done]. rewrite char_digit_of, Hd. by intros [? ?].
Qed.

Lemma encode_check_decodes d : ∃ s, encode_check d = Some s ∧ decode_check s = Some (Ok d).
Proof.
  change (encode_check d) with (encode (d ++ checksum d)).
  destruct (encode_decode (d ++ checksum d)) as (s & He & Hd). exists s. split; [exact He|].
  rewrite (decode_check_split _ _ _ Hd (checksum_length d)), Z.eqb_refl. reflexivity.
Qed.

Lemma decode_check_encodes s d : decode_check s = Some (Ok d) → encode_check d = Some s.
Proof.
  intros Hd. destruct (decode_check_cases s) as [(e & H1 & H2)|[(d' & H1 & H2 & H3)|(p & c & H1 & Hc & H2)]]; [congruence..|].
  rewrite H2 in Hd. destruct (Z.eqb_spec (le_combine c) (le_combine (checksum p))) as [E|]; [|discriminate].
  injection Hd as ->. apply le_combine_inj in E; [|rewrite checksum_length; exact Hc]. subst c.
  change (encode_check d) with (encode (d ++ checksum d)). apply decode_encode. exact H1.
Qed.

(** Base58check round-trips both ways: the encoding of any bytes decodes to
    them; a string that decodes is the encoding of what it decodes to, so no
    other text is accepted for the same payload; and a string of the alphabet
    that fails is reported as too short when it holds fewer than four bytes, else
    with the checksum it has and the one it should have, which differ. *)
Theorem base58check_roundtrip :
  (∀ d, ∃ s, encode_check d = Some s ∧ decode_check s = Some (Ok d)) ∧
  (∀ s d, decode_check s = Some (Ok d) → encode_check d = Some s) ∧
  (∀ s n, decode_check s = Some (Err (TooShort n)) ↔ ∃ d, decode s = Some (Ok d) ∧ length d = n ∧ (n < 4)%nat) ∧
  (∀ s a e, decode_check s = Some (Err (IncorrectChecksum a e)) ↔
     ∃ p check, decode s = Some (Ok (p ++ check)) ∧ length check = 4%nat ∧
       a = le_combine check ∧ e = le_combine (take 4 (sha256d_hash p)) ∧ a ≠ e).
Proof.
  split; [|split; [|split]].
  - apply encode_check_decodes.
  - apply decode_check_encodes.
  - intros s n. destruct (decode_check_cases s) as [(e & H1 & H2)|[(d' & H1 & H2 & H3)|(p & c & H1 & Hc & H2)]].
    + rewrite H1, H2. split; [congruence|]. intros (? & ? & _). congruence.
    + rewrite H1, H3. split; [intros [= <-]; by exists d'|]. intros (? & [= <-] & <- & _). reflexivity.
    + rewrite H2. split; [destruct (_ =? _); discriminate|]. intros (x & E & <- & Hl). rewrite H1 in E.
      injection E as <-. rewrite length_app, Hc in Hl. lia.
  - intros s a e. destruct (decode_check_cases s) as [(x & H1 & H2)|[(d' & H1 & H2 & H3)|(p & c & H1 & Hc & H2)]].
    + rewrite H1, H2. split; [congruence|]. intros (? & ? & ? & _). congruence.
    + rewrite H1, H3. split; [congruence|]. intros (p & c & E & Hc & _). injection E as ->. rewrite length_app, Hc in H2. lia.
    + rewrite H2, H1. fold (checksum p). split.
      * destruct (Z.eqb_spec (le_combine c) (le_combine (checksum p))); [discriminate|]. intros [= <- <-]. by exists p, c.
      * intros (p' & c' & E & Hc' & -> & -> & Hne). injection E as E. apply app_inj_2 in E as [-> ->]; [|congruence].
        fold (checksum p') in *. apply Z.eqb_neq in Hne as ->. reflexivity.
Qed.

Lemma base58_bijection_witness :
  encode [x00; x0d; x24] = Some [x31; x32; x31; x31] ∧ decode [x31; x32; x31; x31] = Some (Ok [x00; x0d; x24]) ∧
  (∃ c, c ∈ [x31; x30] ∧ (c ∉ BASE58_CHARS) ∧ decode [x31; x30] = Some (Err (Decode c))).
Proof.
  assert (encode [x00; x0d; x24] = Some [x31; x32; x31; x31]) as He by (vm_compute; reflexivity).
  split; [exact He|]. split; [apply base58_bijection; exact He|].
  apply base58_bijection. rewrite alphabet. intros [ds Hds]. vm_compute in Hds. discriminate.
Defined.

Lemma base58check_roundtrip_witness :
  decode_check [x32; x32] = Some (Err (TooShort 1)) ∧ (∃ s, encode_check [x00; x01] = Some s ∧ decode_check s = Some (Ok [x00; x01])).
Proof.
  split; [|apply base58check_roundtrip]. apply base58check_roundtrip. exists [x3b].
  split; [vm_compute; reflexivity|]. split; [reflexivity|lia].
Defined.
