(* ===== verification/AmountText.v ===== *)
(** Amounts as text ([src/units/src/amount.rs]): denominations, parsing of
    decimal strings into satoshis and printing with precision, sign and padding. *)

From Stdlib Require Import String ZArith Lia ZifyBool.
From stdpp Require Import base list sets.
From Stdlib Require Import Init.Byte.
From coqutil Require Import Byte.
From S2P Require Import Prelude Units Text.

Open Scope list_scope.

(** ** Denominations *)

Inductive Denomination :=
| Bitcoin | CentiBitcoin | MilliBitcoin | MicroBitcoin | NanoBitcoin | PicoBitcoin | Bit | Satoshi | MilliSatoshi.

#[export] Instance Denomination_eq_dec : EqDecision Denomination.
Proof. solve_decision. Defined.

(** An [i8]. *)
Definition precision (self : Denomination) : Z :=
  match self with
  | Bitcoin => -8
  | CentiBitcoin => -6
  | MilliBitcoin => -5
  | MicroBitcoin => -2
  | NanoBitcoin => 1
  | PicoBitcoin => 4
  | Bit => -2
  | Satoshi => 0
  | MilliSatoshi => 3
  end.

Definition as_str (self : Denomination) : list Z :=
  str (match self with
      | Bitcoin => "BTC"
      | CentiBitcoin => "cBTC"
      | MilliBitcoin => "mBTC"
      | MicroBitcoin => "uBTC"
      | NanoBitcoin => "nBTC"
      | PicoBitcoin => "pBTC"
      | Bit => "bits"
      | Satoshi => "satoshi"
      | MilliSatoshi => "msat"
      end)%string.

Definition one_of (s : list Z) (l : list string) : bool := existsb (λ x, bool_decide (s = str x)) l.

Definition forms (s : list Z) : option Denomination :=
  if one_of s ["BTC"; "btc"]%string then Some Bitcoin
  else if one_of s ["cBTC"; "cbtc"]%string then Some CentiBitcoin
  else if one_of s ["mBTC"; "mbtc"]%string then Some MilliBitcoin
  else if one_of s ["uBTC"; "ubtc"]%string then Some MicroBitcoin
  else if one_of s ["nBTC"; "nbtc"]%string then Some NanoBitcoin
  else if one_of s ["pBTC"; "pbtc"]%string then Some PicoBitcoin
  else if one_of s ["bit"; "bits"; "BIT"; "BITS"]%string then Some Bit
  else if one_of s ["SATOSHI"; "satoshi"; "SATOSHIS"; "satoshis"; "SAT"; "sat"; "SATS"; "sats"]%string then Some Satoshi
  else if one_of s ["mSAT"; "msat"; "mSATs"; "msats"]%string then Some MilliSatoshi
  else None.

Definition CONFUSING_FORMS : list string :=
  ["Msat"; "Msats"; "MSAT"; "MSATS"; "MSat"; "MSats"; "MBTC"; "Mbtc"; "PBTC"]%string.

(** ** Errors *)

Inductive ParseDenominationError :=
| Unknown (s : list Z)
| PossiblyConfusing (s : list Z).

Inductive MissingDigitsKind := Empty | OnlyMinusSign.

Module ParseAmountError.
Inductive ParseAmountError :=
| OutOfRange (e : OutOfRangeError)
| TooPrecise (position : nat)
| MissingDigits (kind : MissingDigitsKind)
| InputTooLarge (len : nat)
| InvalidCharacter (invalid_char : Z) (position : nat).
End ParseAmountError.

Module Inner.
Inductive InnerParseError :=
| Overflow (is_negative : bool)
| TooPrecise (position : nat)
| MissingDigits (kind : MissingDigitsKind)
| InputTooLarge (len : nat)
| InvalidCharacter (invalid_char : Z) (position : nat).

Definition convert (self : InnerParseError) (is_signed : bool) : ParseAmountError.ParseAmountError :=
  match self with
  | Overflow is_negative => ParseAmountError.OutOfRange (OutOfRange is_signed (negb is_negative))
  | TooPrecise error => ParseAmountError.TooPrecise error
  | MissingDigits error => ParseAmountError.MissingDigits error
  | InputTooLarge len => ParseAmountError.InputTooLarge len
  | InvalidCharacter c p => ParseAmountError.InvalidCharacter c p
  end.
End Inner.
Import Inner.

Inductive ParseError :=
| AmountError (e : ParseAmountError.ParseAmountError)
| DenominationError (e : ParseDenominationError)
| MissingDenomination.

Definition too_big (is_signed : bool) : OutOfRangeError := OutOfRange is_signed true.
Definition too_small : OutOfRangeError := OutOfRange true false.
Definition negative : OutOfRangeError := OutOfRange false false.

Definition valid_range (self : OutOfRangeError) : Z * Z :=
  match self with
  | OutOfRange true _ => (I64_MIN, I64_MAX)
  | OutOfRange false _ => (0, U64_MAX)
  end.

Definition denomination_from_str (s : list Z) : result ParseDenominationError Denomination :=
  if one_of s CONFUSING_FORMS then Err (PossiblyConfusing s) else ok_or (forms s) (Unknown s).

(** ** Parsing *)

Definition DOT : Z := 46.
Definition MINUS : Z := 45.
Definition not_zero (d : Z) : bool := negb (d =? 48).

(** [None] is a panic: an index outside a string or inside a character. *)
Definition is_too_precise (s : list Z) (precision : nat) : option (option nat) :=
  match str_find (Z.eqb DOT) s with
  | Some pos =>
      if (pos <=? precision)%nat then Some (Some 0%nat)
      else
        before ← slice_to s pos;
        match List.find (λ '(_, d), not_zero d) (take precision (rev (char_indices before))) with
        | Some (i, _) => Some (Some i)
        | None =>
            after ← slice_from s (pos + 1);
            Some (match List.find (λ '(_, d), not_zero d) (char_indices after) with
                  | Some (i, _) => Some (i + pos + 1)%nat
                  | None => None
                  end)
        end
  | None =>
      if (str_len s <=? precision)%nat then Some (Some 0%nat)
      else Some (option_map fst (List.find (λ '(_, d), not_zero d) (take precision (rev (char_indices s)))))
  end.

Definition INPUT_STRING_LEN_LIMIT : nat := 50.

(** The loop over the characters; [break] ends it. *)
Fixpoint value_loop (max_decimals : Z) (is_negative : bool) (cs : list (nat * Z)) (decimals : option Z) (value : Z) :
  result InnerParseError (option Z * Z) :=
  match cs with
  | [] => Ok (decimals, value)
  | (i, c) :: cs =>
      let position := (i + if is_negative then 1 else 0)%nat in
      if is_digit c then
        match checked_u64 (10 * value) with
        | None => Err (Overflow is_negative)
        | Some val =>
            match checked_u64 (val + (c - 48)) with
            | None => Err (Overflow is_negative)
            | Some value =>
                match decimals with
                | None => value_loop max_decimals is_negative cs None value
                | Some d => if d <? max_decimals then value_loop max_decimals is_negative cs (Some (d + 1)) value
                            else Err (TooPrecise position)
                end
            end
        end
      else if c =? DOT then
        match decimals with
        | None => if max_decimals <=? 0 then Ok (None, value) else value_loop max_decimals is_negative cs (Some 0) value
        | Some _ => Err (InvalidCharacter DOT position)
        end
      else Err (InvalidCharacter c position)
  end.

(** [for _ in 0..scale_factor] *)
Fixpoint scale_loop (scale_factor : nat) (is_negative : bool) (value : Z) : result InnerParseError Z :=
  match scale_factor with
  | O => Ok value
  | S n => match checked_u64 (10 * value) with
           | Some v => scale_loop n is_negative v
           | None => Err (Overflow is_negative)
           end
  end.

Definition parse_value (s : list Z) (is_negative : bool) (max_decimals : Z) : result InnerParseError (bool * Z) :=
  let? st := value_loop max_decimals is_negative (char_indices s) None 0 in
  let '(decimals, value) := st in
  let scale_factor := max_decimals - default 0 decimals in
  let? value := scale_loop (Z.to_nat scale_factor) is_negative value in
  Ok (is_negative, value).

(** The string after its sign, in one denomination. *)
Definition parse_magnitude (s : list Z) (is_negative : bool) (denom : Denomination) : option (result InnerParseError (bool * Z)) :=
  let precision_diff := - precision denom in
  if precision_diff <=? 0 then
    let last_n := Z.to_nat (Z.abs precision_diff) in
    too_precise ← is_too_precise s last_n;
    match too_precise with
    | Some position =>
        Some (if bool_decide (parse_i64 s = Some 0) then Ok (is_negative, 0)
              else Err (TooPrecise (position + if is_negative then 1 else 0)%nat))
    | None =>
        let stop := default (str_len s) (str_find (Z.eqb DOT) s) in
        if (stop <? last_n)%nat then None
        else s ← slice_to s (stop - last_n); Some (parse_value s is_negative 0)
    end
  else Some (parse_value s is_negative precision_diff).

Definition parse_signed_to_satoshi (s : list Z) (denom : Denomination) : option (result InnerParseError (bool * Z)) :=
  if bool_decide (s = []) then Some (Err (MissingDigits Empty))
  else if (INPUT_STRING_LEN_LIMIT <? str_len s)%nat then Some (Err (InputTooLarge (str_len s)))
  else
    let is_negative := match s with c :: _ => c =? MINUS | [] => false end in
    if is_negative && (str_len s =? 1)%nat then Some (Err (MissingDigits OnlyMinusSign))
    else
      s ← if is_negative then slice_from s 1 else Some s;
      parse_magnitude s is_negative denom.

Module Amounts.
Definition from_str_in (s : list Z) (denom : Denomination) : option (result ParseAmountError.ParseAmountError Z) :=
  r ← parse_signed_to_satoshi s denom;
  Some (let? p := result_map_err (λ error, convert error false) r in
        let '(neg, satoshi) := p in
        if (neg : bool) then Err (ParseAmountError.OutOfRange negative) else Ok satoshi).
End Amounts.

Module SignedAmounts.
Definition from_str_in (s : list Z) (denom : Denomination) : option (result ParseAmountError.ParseAmountError Z) :=
  r ← parse_signed_to_satoshi s denom;
  Some (let? p := result_map_err (λ error, convert error true) r in
        match p with
        | (false, sat) => if I64_MAX <? sat then Err (ParseAmountError.OutOfRange (too_big true)) else Ok (swrap 64 sat)
        | (true, sat) =>
            if sat =? Z.abs I64_MIN then Ok I64_MIN
            else if Z.abs I64_MIN <? sat then Err (ParseAmountError.OutOfRange too_small)
            else Ok (- swrap 64 sat)
        end).
End SignedAmounts.

(** [char::is_alphabetic] is a table of Unicode, with the letters of ASCII below 128. *)
Section Split.
Variable is_alphabetic : Z → bool.

Definition split_amount_and_denomination (s : list Z) : option (result ParseError (list Z * Denomination)) :=
  match match str_find (Z.eqb 32) s with
        | Some i => Some (i, (i + 1)%nat)
        | None => i ← str_find is_alphabetic s; Some (i, i)
        end with
  | None => Some (Err MissingDenomination)
  | Some (i, j) =>
      amt ← slice_to s i;
      rest ← slice_from s j;
      Some (let? denom := result_map_err DenominationError (denomination_from_str rest) in Ok (amt, denom))
  end.

(** [T::from_str_with_denomination] of both types, by the type's [from_str_in]. *)
Definition from_str_with_denomination
    (from_str_in : list Z → Denomination → option (result ParseAmountError.ParseAmountError Z)) (s : list Z) :
  option (result ParseError Z) :=
  r ← split_amount_and_denomination s;
  match r with
  | Err e => Some (Err e)
  | Ok (amt, denom) => r ← from_str_in amt denom; Some (result_map_err AmountError r)
  end.
End Split.

(** ** Printing *)

Inductive Alignment := Left | Right | Center.

Record FormatOptions := {
  fill : Z;
  align : option Alignment;
  width : option nat;
  opt_precision : option nat;
  sign_plus : bool;
  sign_aware_zero_pad : bool;
}.

Definition options_default : FormatOptions :=
  {| fill := 32; align := None; width := None; opt_precision := None; sign_plus := false; sign_aware_zero_pad := false |}.

(** The loop of [dec_width]: a [u64] has at most twenty digits. *)
Fixpoint dec_width_loop (fuel : nat) (num : Z) (width : nat) : nat :=
  match fuel with
  | O => width
  | S fuel => let num := num / 10 in if num =? 0 then width else dec_width_loop fuel num (width + 1)
  end.
Definition dec_width (num : Z) : nat := dec_width_loop 20 num 1.

(** [while num_after_decimal_point % 10 == 0]: the number is not zero and has at most [norm_nb_decimals] digits. *)
Fixpoint strip_zeros (fuel : nat) (norm_nb_decimals : nat) (num_after_decimal_point : Z) : nat * Z :=
  match fuel with
  | O => (norm_nb_decimals, num_after_decimal_point)
  | S fuel =>
      if num_after_decimal_point mod 10 =? 0 then strip_zeros fuel (norm_nb_decimals - 1) (num_after_decimal_point / 10)
      else (norm_nb_decimals, num_after_decimal_point)
  end.

(** [{:0width$}] *)
Definition pad_zero (width : nat) (s : list Z) : list Z := replicate (width - length s) 48 ++ s.

(** The normalised number: the integer part, the zeros after it, the decimals
    and their count, the zeros at the end. *)
Definition normalize (satoshi : Z) (denom : Denomination) (options : FormatOptions) : Z * nat * Z * nat * nat :=
  let requested := default 0%nat (opt_precision options) in
  match precision denom ?= 0 with
  | Gt => (satoshi, if satoshi >? 0 then Z.to_nat (precision denom) else 0%nat, 0, 0%nat, requested)
  | Lt =>
      let precision := Z.abs (precision denom) in
      let divisor := 10 ^ precision in
      let after := satoshi mod divisor in
      let '(nb, after) := if after =? 0 then (0%nat, 0) else strip_zeros (Z.to_nat precision) (Z.to_nat precision) after in
      (satoshi / divisor, 0%nat, after, nb, (requested - nb)%nat)
  | Eq => (satoshi, 0%nat, 0, 0%nat, requested)
  end.

(** The padding on either side of a number [num_width] wide. *)
Definition padding (num_width : nat) (options : FormatOptions) : nat * nat :=
  let width := default 0%nat (width options) in
  match (num_width <? width)%nat, sign_aware_zero_pad options, default Right (align options) with
  | false, _, _ => (0, 0)%nat
  | true, true, _ | true, false, Right => (width - num_width, 0)%nat
  | true, false, Left => (0, width - num_width)%nat
  | true, false, Center => ((width - num_width) / 2, (width - num_width + 1) / 2)%nat
  end.

Definition num_width (satoshi : Z) (neg : bool) (denom : Denomination) (show_denom : bool) (options : FormatOptions) : nat :=
  let '(before, exp, after, nb, trailing) := normalize satoshi denom options in
  let total_decimals := (nb + trailing)%nat in
  ((if (0 <? total_decimals)%nat then 1 + total_decimals else 0) + (dec_width before + exp)
   + (if sign_plus options || neg then 1 else 0)
   + (if show_denom then length (as_str denom) + 1 else 0))%nat.

(** What is written; writing to a string does not fail. *)
Definition fmt_satoshi_in (satoshi : Z) (negative : bool) (denom : Denomination) (show_denom : bool) (options : FormatOptions) :
  list Z :=
  let '(before, exp, after, nb, trailing) := normalize satoshi denom options in
  let total_decimals := (nb + trailing)%nat in
  let '(left_pad, pad_right) := padding (num_width satoshi negative denom show_denom options) options in
  (if sign_aware_zero_pad options then [] else replicate left_pad (fill options))
  ++ (if negative then [MINUS] else if sign_plus options then [43] else [])
  ++ (if sign_aware_zero_pad options then replicate left_pad 48 else [])
  ++ dec before
  ++ replicate exp 48
  ++ (if (0 <? total_decimals)%nat then [DOT] else [])
  ++ (if (0 <? nb)%nat then pad_zero nb (dec after) else [])
  ++ replicate trailing 48
  ++ (if show_denom then 32 :: as_str denom else [])
  ++ replicate pad_right (fill options).

Definition ONE_BTC : Z := 100000000.

Module AmountPrint.
Definition fmt_value_in (self : Z) (denom : Denomination) : list Z := fmt_satoshi_in self false denom false options_default.
Definition to_string_in (self : Z) (denom : Denomination) : list Z := fmt_value_in self denom.
Definition to_string_with_denomination (self : Z) (denom : Denomination) : list Z :=
  fmt_value_in self denom ++ 32 :: as_str denom.
(** [impl Display for Amount], by the options of the formatter. *)
Definition fmt (self : Z) (options : FormatOptions) : list Z :=
  let options :=
    match opt_precision options with
    | None => if negb (self mod ONE_BTC =? 0)
              then {| fill := fill options; align := align options; width := width options; opt_precision := Some 8%nat;
                      sign_plus := sign_plus options; sign_aware_zero_pad := sign_aware_zero_pad options |}
              else options
    | Some _ => options
    end in
  fmt_satoshi_in self false Bitcoin true options.
End AmountPrint.

Module SignedAmountPrint.
Definition fmt_value_in (self : Z) (denom : Denomination) : list Z :=
  fmt_satoshi_in (SignedAmount.unsigned_abs self) (SignedAmount.is_negative self) denom false options_default.
Definition to_string_in (self : Z) (denom : Denomination) : list Z := fmt_value_in self denom.
Definition to_string_with_denomination (self : Z) (denom : Denomination) : list Z :=
  fmt_value_in self denom ++ 32 :: as_str denom.
Definition fmt (self : Z) : list Z := fmt_value_in self Bitcoin ++ 32 :: as_str Bitcoin.
End SignedAmountPrint.

(** ** [Display] *)

Inductive DisplayStyle :=
| FixedDenomination (denomination : Denomination) (show_denomination : bool)
| DynamicDenomination.

Record Display := { sats_abs : Z; is_negative : bool; style : DisplayStyle }.

Definition display_in (sats : Z) (denomination : Denomination) : Display :=
  {| sats_abs := Z.abs sats; is_negative := sats <? 0; style := FixedDenomination denomination false |}.
Definition display_dynamic (sats : Z) : Display :=
  {| sats_abs := Z.abs sats; is_negative := sats <? 0; style := DynamicDenomination |}.
Definition show_denomination (self : Display) : Display :=
  {| sats_abs := sats_abs self; is_negative := is_negative self;
     style := match style self with
              | FixedDenomination denomination _ => FixedDenomination denomination true
              | DynamicDenomination => DynamicDenomination
              end |}.
Definition display_fmt (self : Display) (options : FormatOptions) : list Z :=
  match style self with
  | FixedDenomination denomination show => fmt_satoshi_in (sats_abs self) (is_negative self) denomination show options
  | DynamicDenomination =>
      if ONE_BTC <=? sats_abs self then fmt_satoshi_in (sats_abs self) (is_negative self) Bitcoin true options
      else fmt_satoshi_in (sats_abs self) (is_negative self) Satoshi true options
  end.

(** [CheckedSum::checked_sum] *)
Definition checked_sum (checked_add : Z → Z → option Z) (items : list Z) : option Z :=
  match items with
  | [] => Some 0
  | first :: items => foldl (λ acc item, acc ← acc; checked_add acc item) (Some first) items
  end.

(** ** What a decimal string means *)

(** [decimal k body v]: without its sign the string stands for [v] satoshis in a
    unit of [10 ^ k] satoshis. A unit above a satoshi takes up to [k] decimals; a
    unit below takes integers whose last [- k] digits are zero and decimals that
    are zero, and the short forms of zero that [i64::from_str] knows. *)
Inductive decimal (k : Z) : list Z → Z → Prop :=
| decimal_int I : 0 < k → all_digits I → decimal k I (dnum I * 10 ^ k)
| decimal_frac I F :
    0 < k → all_digits I → all_digits F → Z.of_nat (length F) <= k →
    decimal k (I ++ DOT :: F) (dnum (I ++ F) * 10 ^ (k - Z.of_nat (length F)))
| coarse_int I : k <= 0 → I ≠ [] → all_digits I → decimal k (I ++ zero_str (Z.to_nat (- k))) (dnum I)
| coarse_frac I f :
    k <= 0 → I ≠ [] → all_digits I → decimal k (I ++ zero_str (Z.to_nat (- k)) ++ DOT :: zero_str f) (dnum I)
| coarse_zero sg z :
    k <= 0 → sg ∈ [[]; [43]; [MINUS]] → Z.of_nat (length sg + S z) <= - k → decimal k (sg ++ zero_str (S z)) 0.

(** *** The loops *)

Lemma char_indices_app i a b : char_indices_from i (a ++ b) = char_indices_from i a ++ char_indices_from (i + str_len a) b.
Proof.
  revert i. induction a as [|c a IH]; intros i; cbn [app char_indices_from str_len]; [by rewrite Nat.add_0_r|].
  rewrite IH. by replace (i + len_utf8 c + str_len a)%nat with (i + (len_utf8 c + str_len a))%nat by lia.
Qed.

Lemma scale_loop_spec n neg v :
  0 <= v → scale_loop n neg v = if v * 10 ^ Z.of_nat n <=? U64_MAX then Ok (v * 10 ^ Z.of_nat n)
                                else match n with O => Ok v | _ => Err (Overflow neg) end.
Proof.
  revert v. induction n as [|n IH]; intros v Hv; [cbn [scale_loop]; change (10 ^ Z.of_nat 0) with 1; rewrite Z.mul_1_r; by destruct (v <=? U64_MAX)|].
  cbn [scale_loop]. rewrite Nat2Z.inj_succ, Z.pow_succ_r, Z.mul_assoc, (Z.mul_comm v 10) by lia.
  assert (1 <= 10 ^ Z.of_nat n) by (apply (Z.pow_le_mono_r 10 0); lia).
  destruct (checked_u64 (10 * v)) as [w|] eqn:E.
  - apply checked_u64_Some in E as [Hw ->]. rewrite IH by lia. destruct (Z.leb_spec (10 * v * 10 ^ Z.of_nat n) U64_MAX) as [|Hgt]; [done|].
    destruct n; [|done]. cbn in Hgt. lia.
  - apply checked_u64_None in E. rewrite (proj2 (Z.leb_gt _ _)) by nia. done.
Qed.

(** What the loop does with decimals that have been counted: [Some d] becomes [Some (d + n)]. *)
Definition count (n : nat) (decimals : option Z) : option Z := option_map (λ d, d + Z.of_nat n) decimals.
Definition fits (k : Z) (n : nat) (decimals : option Z) : Prop :=
  match decimals with Some d => d + Z.of_nat n <= k | None => True end.

Lemma count_O decimals : count 0 decimals = decimals.
Proof. destruct decimals as [d|]; [|done]. cbn. f_equal. lia. Qed.

Lemma value_loop_digits k neg i cs rest decimals v :
  all_digits cs → 0 <= v <= U64_MAX → fits k (length cs) decimals →
  value_loop k neg (char_indices_from i cs ++ rest) decimals v =
  if v * 10 ^ Z.of_nat (length cs) + dnum cs <=? U64_MAX
  then value_loop k neg rest (count (length cs) decimals) (v * 10 ^ Z.of_nat (length cs) + dnum cs)
  else Err (Overflow neg).
Proof.
  intros Hd. revert i decimals v. induction Hd as [|c cs Hc Hcs IH]; intros i decimals v Hv Hf.
  { cbn [char_indices_from app length]. unfold dnum. cbn [dvals map num foldl Z.of_nat]. rewrite Z.pow_0_r, count_O.
    replace (v * 1 + 0) with v by lia. by rewrite (proj2 (Z.leb_le _ _)) by lia. }
  cbn [char_indices_from app value_loop length]. rewrite Hc, dnum_cons, Nat2Z.inj_succ, Z.pow_succ_r by lia.
  pose proof (dnum_bound cs Hcs) as Hb. assert (1 <= 10 ^ Z.of_nat (length cs)) as Hp by (apply (Z.pow_le_mono_r 10 0); lia).
  unfold is_digit in Hc. destruct (checked_u64 (10 * v)) as [w|] eqn:E.
  2:{ apply checked_u64_None in E. by rewrite (proj2 (Z.leb_gt _ _)) by nia. }
  apply checked_u64_Some in E as [_ ->]. destruct (checked_u64 (10 * v + (c - 48))) as [w|] eqn:E.
  2:{ apply checked_u64_None in E. by rewrite (proj2 (Z.leb_gt _ _)) by nia. }
  apply checked_u64_Some in E as [Hw ->].
  replace (v * (10 * 10 ^ Z.of_nat (length cs)) + ((c - 48) * 10 ^ Z.of_nat (length cs) + dnum cs))
    with ((10 * v + (c - 48)) * 10 ^ Z.of_nat (length cs) + dnum cs) by ring.
  destruct decimals as [d|]; cbn [fits length] in Hf.
  - rewrite (proj2 (Z.ltb_lt d k)) by lia. rewrite IH; [|done|cbn; lia].
    replace (count (length cs) (Some (d + 1))) with (count (S (length cs)) (Some d)) by (cbn; f_equal; lia). done.
  - rewrite IH by done. done.
Qed.

(** Any string the loop takes is digits, in which one dot may stand when decimals are allowed. *)
Lemma value_loop_tail k neg i cs d v dec' v' :
  0 <= d <= k → value_loop k neg (char_indices_from i cs) (Some d) v = Ok (dec', v') →
  all_digits cs ∧ d + Z.of_nat (length cs) <= k.
Proof.
  revert i d v. induction cs as [|c cs IH]; intros i d v Hd; [intros _; split; [constructor|cbn; lia]|].
  cbn [char_indices_from value_loop]. destruct (is_digit c) eqn:Ec; [|by case_match].
  destruct (checked_u64 _); [|done]. destruct (checked_u64 _); [|done]. destruct (Z.ltb_spec d k); [|done].
  intros H'%IH; [|lia]. destruct H'. split; [by constructor|cbn; lia].
Qed.

Lemma value_loop_head k neg i cs v dec' v' :
  0 <= k → value_loop k neg (char_indices_from i cs) None v = Ok (dec', v') →
  all_digits cs ∨ ∃ I F, cs = I ++ DOT :: F ∧ all_digits I ∧ (0 < k → all_digits F ∧ Z.of_nat (length F) <= k).
Proof.
  revert i v. induction cs as [|c cs IH]; intros i v Hk; [left; constructor|].
  cbn [char_indices_from value_loop]. destruct (is_digit c) eqn:Ec.
  - destruct (checked_u64 _); [|done]. destruct (checked_u64 _); [|done].
    intros [H|(I & F & -> & HI & HF)]%IH; [left; by constructor| |done]. right. exists (c :: I), F. split_and!; [done|by constructor|done].
  - destruct (Z.eqb_spec c DOT) as [->|]; [|done]. intros H. right. exists [], cs. split_and!; [done|constructor|].
    intros Hk'. rewrite (proj2 (Z.leb_gt k 0)) in H by lia. apply value_loop_tail in H; [|lia]. by rewrite Z.add_0_l in H.
Qed.

(** *** The value of a number without its sign *)

Lemma le_mul_one a p : 0 <= a → 1 <= p → a <= a * p.
Proof. nia. Qed.

Lemma parse_value_int I neg k :
  0 <= k → all_digits I →
  parse_value I neg k = if dnum I * 10 ^ k <=? U64_MAX then Ok (neg, dnum I * 10 ^ k) else Err (Overflow neg).
Proof.
  intros Hk HI. unfold parse_value, char_indices. pose proof (dnum_bound I HI).
  assert (1 <= 10 ^ k) by (apply (Z.pow_le_mono_r 10 0); lia).
  rewrite <- (app_nil_r (char_indices_from 0 I)). rewrite value_loop_digits by done.
  rewrite Z.mul_0_l, Z.add_0_l. destruct (Z.leb_spec (dnum I) U64_MAX).
  - cbn [value_loop result_bind count option_map default]. cbn [default from_option]. rewrite Z.sub_0_r, scale_loop_spec, Z2Nat.id by lia.
    destruct (Z.leb_spec (dnum I * 10 ^ k) U64_MAX) as [|Hgt]; [done|]. destruct (Z.to_nat k) eqn:E; [|done].
    assert (k = 0) as -> by lia. cbn in Hgt. lia.
  - rewrite (proj2 (Z.leb_gt _ _)) by nia. done.
Qed.

Lemma parse_value_frac I F neg k :
  0 < k → all_digits I → all_digits F → Z.of_nat (length F) <= k →
  parse_value (I ++ DOT :: F) neg k =
  if dnum (I ++ F) * 10 ^ (k - Z.of_nat (length F)) <=? U64_MAX
  then Ok (neg, dnum (I ++ F) * 10 ^ (k - Z.of_nat (length F))) else Err (Overflow neg).
Proof.
  intros Hk HI HF Hl. unfold parse_value, char_indices. pose proof (dnum_bound I HI). pose proof (dnum_bound F HF).
  assert (1 <= 10 ^ (k - Z.of_nat (length F))) by (apply (Z.pow_le_mono_r 10 0); lia).
  assert (1 <= 10 ^ Z.of_nat (length F)) by (apply (Z.pow_le_mono_r 10 0); lia).
  rewrite char_indices_app, value_loop_digits, Z.mul_0_l, Z.add_0_l by done. rewrite dnum_app.
  set (e := 10 ^ (k - _)) in *. set (p := 10 ^ Z.of_nat (length F)) in *.
  destruct (Z.leb_spec (dnum I) U64_MAX).
  2:{ pose proof (le_mul_one (dnum I) p). pose proof (le_mul_one (dnum I * p + dnum F) e).
      rewrite (proj2 (Z.leb_gt _ _)) by lia. done. }
  cbn [char_indices_from value_loop count option_map]. change (is_digit DOT) with false. cbn iota.
  change (DOT =? DOT) with true. cbn iota. rewrite (proj2 (Z.leb_gt k 0)) by lia.
  rewrite <- (app_nil_r (char_indices_from _ F)). rewrite value_loop_digits by (done || cbn; lia). fold p.
  destruct (Z.leb_spec (dnum I * p + dnum F) U64_MAX).
  - cbn [value_loop result_bind count option_map]. cbn [default from_option]. rewrite scale_loop_spec by nia.
    unfold id. rewrite Z.add_0_l, Z2Nat.id by lia. fold e.
    destruct (Z.leb_spec ((dnum I * p + dnum F) * e) U64_MAX) as [|Hgt]; [done|]. destruct (Z.to_nat _) eqn:E; [|done].
    assert (k - Z.of_nat (length F) = 0) as E0 by lia. subst e. rewrite E0 in Hgt. cbn in Hgt. lia.
  - pose proof (le_mul_one (dnum I * p + dnum F) e). rewrite (proj2 (Z.leb_gt _ _)) by lia. done.
Qed.

Lemma parse_value_ok s neg k r :
  0 <= k → parse_value s neg k = Ok r →
  all_digits s ∨ ∃ I F, s = I ++ DOT :: F ∧ all_digits I ∧ (0 < k → all_digits F ∧ Z.of_nat (length F) <= k).
Proof.
  intros Hk. unfold parse_value. destruct (value_loop _ _ _ _ _) as [[dec' v']|] eqn:E; [|done]. intros _.
  by eapply value_loop_head.
Qed.

(** *** Too many digits *)

Lemma not_zero_false l : Forall (λ d, not_zero d = false) l ↔ l = zero_str (length l).
Proof.
  split.
  - intros Hl. apply zero_str_eq. eapply Forall_impl; [exact Hl|]. unfold not_zero. cbn. lia.
  - intros ->. by apply Forall_replicate.
Qed.

Lemma last_zeros a n :
  List.find (λ '(_, d), not_zero d) (take n (rev (char_indices a))) = None ↔
  ∃ I m, a = I ++ zero_str m ∧ (m = n ∨ (m ≤ n)%nat ∧ I = []).
Proof.
  rewrite find_none_snd. change (map (@snd nat Z) (take n (rev (char_indices a)))) with ((@snd nat Z) <$> take n (rev (char_indices a))).
  rewrite fmap_take. change ((@snd nat Z) <$> rev (char_indices a)) with (map (@snd nat Z) (rev (char_indices a))).
  rewrite map_rev. unfold char_indices. rewrite char_indices_snd. split.
  - intros Hz%not_zero_false. exists (rev (drop n (rev a))), (length (take n (rev a))). split.
    + rewrite <- (rev_involutive a) at 1. rewrite <- (take_drop n (rev a)) at 1. rewrite rev_app_distr. f_equal.
      rewrite Hz at 1. unfold zero_str. rewrite rev_alt. apply reverse_replicate.
    + rewrite length_take, length_rev. destruct (Nat.le_gt_cases n (length a)); [left; lia|right].
      split; [lia|]. by rewrite drop_ge by (rewrite length_rev; lia).
  - intros (I & m & -> & Hm). rewrite rev_app_distr. unfold zero_str at 1. rewrite rev_alt. change (rev_append ?l []) with (reverse l).
    rewrite reverse_replicate. destruct Hm as [->|[Hm ->]].
    + rewrite take_app_length' by (by rewrite length_replicate). by apply Forall_replicate.
    + rewrite app_nil_r, take_ge by (rewrite length_replicate; lia). by apply Forall_replicate.
Qed.

Lemma zero_str_len m : str_len (zero_str m) = m.
Proof. rewrite str_len_digits by apply zero_str_digits. apply length_replicate. Qed.

Definition no_dot (s : list Z) : Prop := Forall (λ c, (DOT =? c) = false) s.

Lemma no_dot_zeros I m : no_dot (I ++ zero_str m) ↔ no_dot I.
Proof. unfold no_dot. rewrite Forall_app. split; [by intros []|]. intros; split; [done|]. by apply Forall_replicate. Qed.

Lemma no_dot_head a b s t : no_dot a → no_dot b → a ++ DOT :: s = b ++ DOT :: t → a = b ∧ s = t.
Proof.
  revert b. induction a as [|x a IH]; intros [|y b] Ha Hb; [by intros [= ->]| | |].
  - intros [= <- _]. by apply Forall_cons in Hb as [? _].
  - intros [= -> _]. by apply Forall_cons in Ha as [? _].
  - intros [= -> Hs]. apply Forall_cons in Ha as [_ Ha]. apply Forall_cons in Hb as [_ Hb]. by destruct (IH b Ha Hb Hs) as [-> ->].
Qed.

Lemma no_dot_in a s : ¬ no_dot (a ++ DOT :: s).
Proof. intros [_ [H _]%Forall_cons]%Forall_app. done. Qed.

(** [is_too_precise], without positions. *)
Lemma is_too_precise_int s n :
  no_dot s → is_too_precise s n = Some None ↔
  (n < str_len s)%nat ∧ List.find (λ '(_, d), not_zero d) (take n (rev (char_indices s))) = None.
Proof.
  intros Hs. unfold is_too_precise. rewrite str_find_none by done. destruct (Nat.leb_spec (str_len s) n); [split; [done|lia]|].
  destruct (List.find _ _); split; (done || by intros []).
Qed.

Lemma is_too_precise_frac a b n :
  no_dot a → is_too_precise (a ++ DOT :: b) n = Some None ↔
  ((n < str_len a)%nat ∧ List.find (λ '(_, d), not_zero d) (take n (rev (char_indices a))) = None) ∧ b = zero_str (length b).
Proof.
  intros Ha. unfold is_too_precise. rewrite str_find_app by (done || apply Z.eqb_refl).
  destruct (Nat.leb_spec (str_len a) n); [split; [done|lia]|]. rewrite slice_to_app. cbn [mbind option_bind].
  destruct (List.find _ (take _ _)) as [[]|]; [split; [done|by intros ((_ & ?) & _)]|].
  replace (a ++ DOT :: b) with ((a ++ [DOT]) ++ b) by (by rewrite <- app_assoc).
  replace (str_len a + 1)%nat with (str_len (a ++ [DOT])) by (by rewrite str_len_app).
  rewrite slice_from_app. cbn [mbind option_bind]. rewrite <- not_zero_false.
  pose proof (find_none_snd not_zero (char_indices b)) as Hb. unfold char_indices in Hb. rewrite char_indices_snd in Hb. fold (char_indices b) in Hb.
  rewrite <- Hb. destruct (List.find _ (char_indices b)) as [[]|]; split; (done || by intros (_ & ?)).
Qed.

Lemma is_too_precise_some s n : is_Some (is_too_precise s n).
Proof.
  unfold is_too_precise. destruct (str_find_cases (Z.eqb DOT) s) as [Hs|(a & c & b & -> & Ha & Hc)].
  - rewrite str_find_none by done. case_match; by eexists.
  - apply Z.eqb_eq in Hc as <-. rewrite str_find_app by (done || apply Z.eqb_refl).
    case_match; [by eexists|]. rewrite slice_to_app. cbn [mbind option_bind]. case_match; [case_match; by eexists|].
    replace (a ++ DOT :: b) with ((a ++ [DOT]) ++ b) by (by rewrite <- app_assoc).
    replace (str_len a + 1)%nat with (str_len (a ++ [DOT])) by (by rewrite str_len_app).
    rewrite slice_from_app. by eexists.
Qed.

(** A string that is not too precise splits around the digits it loses. *)
Lemma cut_zeros a n :
  ((n < str_len a)%nat ∧ List.find (λ '(_, d), not_zero d) (take n (rev (char_indices a))) = None) ↔
  ∃ I, I ≠ [] ∧ a = I ++ zero_str n.
Proof.
  rewrite last_zeros. split.
  - intros (Hlt & I & m & -> & Hm). rewrite str_len_app, zero_str_len in Hlt. destruct Hm as [->|[Hm ->]]; [|cbn in Hlt; lia].
    exists I. split; [intros ->; cbn in Hlt; lia|done].
  - intros (I & HI & ->). assert (0 < length I)%nat by (destruct I; [done|cbn; lia]). pose proof (str_len_ge I).
    rewrite str_len_app, zero_str_len. split; [lia|]. exists I, n. split; [done|by left].
Qed.

Lemma is_too_precise_none s n :
  is_too_precise s n = Some None ↔
  ∃ I, I ≠ [] ∧ no_dot I ∧ (s = I ++ zero_str n ∨ ∃ f, s = (I ++ zero_str n) ++ DOT :: zero_str f).
Proof.
  destruct (str_find_cases (Z.eqb DOT) s) as [Hs|(a & c & b & -> & Ha & Hc)].
  - rewrite is_too_precise_int, cut_zeros by done. split.
    + intros (I & HI & ->). exists I. split_and!; [done|by eapply no_dot_zeros|by left].
    + intros (I & HI & Hd & [->|(f & ->)]); [by exists I|]. by apply no_dot_in in Hs.
  - apply Z.eqb_eq in Hc as <-. rewrite is_too_precise_frac, cut_zeros by done. split.
    + intros ((I & HI & ->) & Hb). exists I. split_and!; [done|by eapply no_dot_zeros|]. right. exists (length b). by rewrite <- Hb.
    + intros (I & HI & Hd & [Hs|(f & Hs)]); apply (no_dot_zeros I n) in Hd.
      * rewrite <- Hs in Hd. by apply no_dot_in in Hd.
      * destruct (no_dot_head _ _ _ _ Ha Hd Hs) as [-> ->]. split; [by exists I|]. unfold zero_str. by rewrite length_replicate.
Qed.

(** *** The string after its sign *)

Definition power (d : Denomination) : Z := - precision d.

Lemma all_digits_no_dot s : all_digits s → no_dot s.
Proof. intros Hs. eapply Forall_impl; [exact Hs|]. intros c Hc. unfold is_digit, DOT in *. cbv beta in *. lia. Qed.

Lemma cut_at s I n :
  no_dot I → (s = I ++ zero_str n ∨ ∃ f, s = (I ++ zero_str n) ++ DOT :: zero_str f) →
  let stop := default (str_len s) (str_find (Z.eqb DOT) s) in
  (stop <? n)%nat = false ∧ slice_to s (stop - n) = Some I.
Proof.
  intros HI Hs stop. apply (no_dot_zeros I n) in HI.
  assert (stop = str_len I + n)%nat as ->.
  { subst stop. destruct Hs as [->|(f & ->)].
    - rewrite str_find_none by done. cbn. by rewrite str_len_app, zero_str_len.
    - rewrite str_find_app by (done || apply Z.eqb_refl). cbn. by rewrite str_len_app, zero_str_len. }
  split; [apply Nat.ltb_ge; lia|]. replace (str_len I + n - n)%nat with (str_len I) by lia.
  destruct Hs as [->|(f & ->)]; rewrite <- ?app_assoc; apply slice_to_app.
Qed.

(** The value of the integer part of a coarse number. *)
Lemma parse_coarse s I neg d :
  power d <= 0 → I ≠ [] → no_dot I →
  (s = I ++ zero_str (Z.to_nat (- power d)) ∨ ∃ f, s = (I ++ zero_str (Z.to_nat (- power d))) ++ DOT :: zero_str f) →
  parse_magnitude s neg d = Some (parse_value I neg 0).
Proof.
  intros Hk HI Hd Hs. unfold parse_magnitude. fold (power d). rewrite (proj2 (Z.leb_le _ _)) by done.
  rewrite Z.abs_neq by done. rewrite (proj2 (is_too_precise_none s _)) by by exists I. cbn [mbind option_bind].
  destruct (cut_at s I _ Hd Hs) as [-> ->]. done.
Qed.

Lemma parse_zero s neg d :
  power d <= 0 → is_too_precise s (Z.to_nat (- power d)) ≠ Some None →
  (∃ p, parse_magnitude s neg d = Some (if bool_decide (parse_i64 s = Some 0) then Ok (neg, 0) else Err (TooPrecise p))).
Proof.
  intros Hk Ht. unfold parse_magnitude. fold (power d). rewrite (proj2 (Z.leb_le _ _)) by done. rewrite Z.abs_neq by done.
  destruct (is_too_precise_some s (Z.to_nat (- power d))) as [[p|] E]; rewrite E in *; [|done]. cbn [mbind option_bind]. by eexists.
Qed.

Lemma parse_fine s neg d : 0 < power d → parse_magnitude s neg d = Some (parse_value s neg (power d)).
Proof. intros Hk. unfold parse_magnitude. fold (power d). by rewrite (proj2 (Z.leb_gt _ _)). Qed.

Lemma decimal_parse s neg d v :
  decimal (power d) s v → parse_magnitude s neg d = Some (if v <=? U64_MAX then Ok (neg, v) else Err (Overflow neg)).
Proof.
  destruct 1 as [I Hk HI|I F Hk HI HF Hl|I Hk Hn HI|I f Hk Hn HI|sg z Hk Hsg Hl].
  - rewrite parse_fine, parse_value_int by (done || lia). done.
  - rewrite parse_fine, parse_value_frac by (done || lia). done.
  - rewrite (parse_coarse _ I), parse_value_int, Z.pow_0_r, Z.mul_1_r by (done || lia || by apply all_digits_no_dot || by left). done.
  - rewrite (parse_coarse _ I), parse_value_int, Z.pow_0_r, Z.mul_1_r by
      (done || lia || by apply all_digits_no_dot || by (right; exists f; rewrite <- app_assoc)). done.
  - destruct (parse_zero (sg ++ zero_str (S z)) neg d) as [p ->]; [done| |].
    + intros (I & HI & _ & Hs)%is_too_precise_none. assert (0 < length I)%nat by (destruct I; [done|cbn; lia]).
      assert (length (sg ++ zero_str (S z)) = length sg + S z)%nat as E by (by rewrite length_app, zero_str_length).
      destruct Hs as [Hs|(f & Hs)]; rewrite Hs in E; rewrite !length_app, zero_str_length in E; cbn in *; lia.
    + rewrite bool_decide_true; [done|]. apply parse_i64_zero. by exists sg, z.
Qed.

Lemma parse_decimal s neg d r :
  parse_magnitude s neg d = Some (Ok r) → ∃ v, decimal (power d) s v ∧ v <= U64_MAX ∧ r = (neg, v).
Proof.
  intros Hp. enough (∃ v, decimal (power d) s v) as [v Hv].
  { exists v. split; [done|]. rewrite (decimal_parse _ neg _ _ Hv) in Hp. destruct (Z.leb_spec v U64_MAX); [|done]. by injection Hp as <-. }
  destruct (Z.lt_ge_cases 0 (power d)) as [Hk|Hk].
  - rewrite parse_fine in Hp by done. injection Hp as Hp. apply parse_value_ok in Hp as [Hd|(I & F & -> & HI & HF)]; [| |lia].
    + eexists. by apply decimal_int.
    + destruct (HF Hk). eexists. by apply decimal_frac.
  - destruct (is_too_precise_some s (Z.to_nat (- power d))) as [[p|] E].
    + destruct (parse_zero s neg d) as [q Hq]; [done|by rewrite E|]. rewrite Hq in Hp. case_bool_decide as Hz; [|done].
      apply parse_i64_zero in Hz as (sg & z & Hsg & ->). exists 0. apply coarse_zero; [done|done|].
      destruct (Z.le_gt_cases (Z.of_nat (length sg + S z)) (- power d)) as [|Hlt]; [done|exfalso].
      assert (length sg <= 1)%nat by (apply sign_cases in Hsg as [-> | [-> | ->]]; cbn; lia).
      enough (is_too_precise (sg ++ zero_str (S z)) (Z.to_nat (- power d)) = Some None) by congruence.
      apply is_too_precise_none. set (n := Z.to_nat (- power d)) in *. exists (sg ++ zero_str (S z - n)). split_and!.
      * intros [-> Hz]%app_eq_nil. cbn [length] in *. apply (f_equal length) in Hz. rewrite zero_str_length in Hz. cbn in Hz. lia.
      * apply no_dot_zeros. apply sign_cases in Hsg as [-> | [-> | ->]]; unfold no_dot; by repeat constructor.
      * left. rewrite <- app_assoc. f_equal. unfold zero_str. rewrite <- replicate_add. f_equal. lia.
    + apply is_too_precise_none in E as (I & HI & Hd & Hs). rewrite (parse_coarse _ I) in Hp by done. injection Hp as Hp.
      apply parse_value_ok in Hp as [HI'|(J & F & -> & _ & _)]; [| |lia].
      * destruct Hs as [->|(f & ->)]; [eexists; by apply coarse_int|]. exists (dnum I). rewrite <- app_assoc. by apply coarse_frac.
      * by apply no_dot_in in Hd.
Qed.

Lemma parse_total s neg d : is_Some (parse_magnitude s neg d).
Proof.
  destruct (Z.lt_ge_cases 0 (power d)) as [Hk|Hk]; [rewrite parse_fine by done; by eexists|].
  destruct (is_too_precise_some s (Z.to_nat (- power d))) as [[p|] E].
  - destruct (parse_zero s neg d) as [q ->]; [done|by rewrite E|by eexists].
  - apply is_too_precise_none in E as (I & HI & Hd & Hs). rewrite (parse_coarse _ I) by done. by eexists.
Qed.

(** *** With the sign *)

Definition sign (neg : bool) : list Z := if neg then [MINUS] else [].

Lemma parse_signed_of neg body d :
  body ≠ [] → (neg = false → head body ≠ Some MINUS) → (str_len (sign neg ++ body) <= 50)%nat →
  parse_signed_to_satoshi (sign neg ++ body) d = parse_magnitude body neg d.
Proof.
  intros Hb Hh Hl. unfold parse_signed_to_satoshi, INPUT_STRING_LEN_LIMIT.
  rewrite bool_decide_false by (destruct neg; [done|exact Hb]). rewrite (proj2 (Nat.ltb_ge _ _)) by done.
  destruct neg; cbn [sign app] in *.
  - change (MINUS =? MINUS) with true. cbn [andb str_len]. change (len_utf8 MINUS) with 1%nat.
    assert (0 < length body)%nat by (destruct body; [done|cbn; lia]). pose proof (str_len_ge body).
    rewrite (proj2 (Nat.eqb_neq _ _)) by lia. by rewrite (slice_from_app [MINUS] body : slice_from (MINUS :: body) 1 = _).
  - destruct body as [|c body]; [done|]. specialize (Hh eq_refl). destruct (Z.eqb_spec c MINUS) as [->|]; [done|]. done.
Qed.

Lemma parse_signed_ok s d r :
  parse_signed_to_satoshi s d = Some (Ok r) →
  ∃ neg body, s = sign neg ++ body ∧ body ≠ [] ∧ (neg = false → head body ≠ Some MINUS) ∧ (str_len s <= 50)%nat ∧
    parse_magnitude body neg d = Some (Ok r).
Proof.
  intros Hp. pose proof Hp as Hp'. unfold parse_signed_to_satoshi in Hp'. case_bool_decide as Hs; [done|].
  unfold INPUT_STRING_LEN_LIMIT in Hp'. destruct (Nat.ltb_spec 50 (str_len s)); [done|]. destruct s as [|c s]; [done|].
  destruct (Z.eqb_spec c MINUS) as [->|Hc].
  - destruct s as [|x s]; [done|].
    exists true, (x :: s). split_and!; [done|done|done|done|]. rewrite <- (parse_signed_of true); done.
  - exists false, (c :: s). split_and!; [done|done|by intros _ [=]|done|]. rewrite <- (parse_signed_of false); try done. by intros _ [=].
Qed.

Lemma parse_signed_total s d : is_Some (parse_signed_to_satoshi s d).
Proof.
  unfold parse_signed_to_satoshi. case_bool_decide; [by eexists|]. case_match; [by eexists|]. destruct s as [|c s]; [done|].
  destruct (Z.eqb_spec c MINUS) as [->|].
  - case_match; [by eexists|]. rewrite (slice_from_app [MINUS] s : slice_from (MINUS :: s) 1 = _). apply parse_total.
  - apply parse_total.
Qed.

(** *** Printing *)

Lemma dec_loop_short fuel m n : 0 <= n < 10 ^ Z.of_nat (S m) → (length (dec_loop fuel n) <= S m)%nat.
Proof.
  revert m n. induction fuel as [|fuel IH]; intros m n Hn; [cbn; lia|]. cbn [dec_loop]. destruct (Z.ltb_spec n 10); [cbn; lia|].
  destruct m as [|m]; [cbn in Hn; lia|]. rewrite (Nat2Z.inj_succ (S m)), Z.pow_succ_r in Hn by lia.
  rewrite length_app. cbn [length]. specialize (IH m (n / 10)).
  assert (0 <= n / 10 < 10 ^ Z.of_nat (S m)); [split; [apply Z.div_pos; lia|apply Z.div_lt_upper_bound; lia]|]. specialize (IH ltac:(done)). lia.
Qed.

Lemma dec_short m n : 0 <= n < 10 ^ Z.of_nat m → (0 < m)%nat → (length (dec n) <= m)%nat.
Proof. intros Hn Hm. destruct m as [|m]; [lia|]. by apply dec_loop_short. Qed.

Lemma dec_width_loop_spec fuel n w :
  0 <= n < 10 ^ Z.of_nat fuel → dec_width_loop fuel n (S w) = (w + Nat.max 1 (length (dec_loop fuel n)))%nat.
Proof.
  revert n w. induction fuel as [|fuel IH]; intros n w Hn; [cbn; lia|]. cbn [dec_width_loop dec_loop].
  rewrite Nat2Z.inj_succ, Z.pow_succ_r in Hn by lia. destruct (Z.ltb_spec n 10).
  - rewrite Z.div_small by lia. cbn. lia.
  - pose proof (Z.div_le_lower_bound n 10 1 ltac:(lia) ltac:(lia)). rewrite (proj2 (Z.eqb_neq _ _)) by lia.
    rewrite Nat.add_1_r, IH by (split; [apply Z.div_pos; lia|apply Z.div_lt_upper_bound; lia]).
    assert (0 <= n / 10 < 10 ^ Z.of_nat fuel) as Hr by (split; [apply Z.div_pos; lia|apply Z.div_lt_upper_bound; lia]).
    destruct (dec_loop_spec fuel (n / 10) Hr) as (_ & _ & _ & Hp). destruct fuel as [|fuel]; [cbn in Hr; lia|].
    specialize (Hp ltac:(lia)). rewrite length_app. cbn [length]. lia.
Qed.

Lemma dec_width_spec n : 0 <= n <= U64_MAX → dec_width n = length (dec n).
Proof.
  intros Hn. destruct (dec_spec n Hn) as (_ & _ & _ & Hl). unfold dec_width, dec in *. unfold U64_MAX in Hn.
  rewrite dec_width_loop_spec by (cbn in *; lia). lia.
Qed.

Lemma strip_zeros_spec nb a :
  0 < a < 10 ^ Z.of_nat nb →
  let '(nb', a') := strip_zeros nb nb a in
  (nb' <= nb)%nat ∧ 0 < a' < 10 ^ Z.of_nat nb' ∧ a = a' * 10 ^ Z.of_nat (nb - nb').
Proof.
  revert a. induction nb as [|nb IH]; intros a Ha; [cbn in Ha; lia|]. cbn [strip_zeros].
  destruct (Z.eqb_spec (a mod 10) 0) as [H0|].
  - pose proof (Z.div_mod a 10 ltac:(lia)) as Hd. rewrite Nat2Z.inj_succ, Z.pow_succ_r in Ha by lia.
    replace (S nb - 1)%nat with nb by lia. specialize (IH (a / 10) ltac:(lia)). destruct (strip_zeros nb nb (a / 10)) as [nb' a'].
    destruct IH as (Hl & Hr & E). split_and!; [lia|lia|lia|]. replace (S nb - nb')%nat with (S (nb - nb')) by lia.
    rewrite Nat2Z.inj_succ, Z.pow_succ_r by lia. lia.
  - rewrite Nat.sub_diag. cbn [Z.of_nat]. rewrite Z.pow_0_r. split_and!; lia.
Qed.

Lemma pad_zero_spec nb a :
  0 <= a <= U64_MAX → a < 10 ^ Z.of_nat nb → (0 < nb)%nat →
  all_digits (pad_zero nb (dec a)) ∧ dnum (pad_zero nb (dec a)) = a ∧ length (pad_zero nb (dec a)) = nb.
Proof.
  intros Ha Hb Hn. destruct (dec_spec a Ha) as (Hd & He & _ & _). pose proof (dec_short nb a ltac:(lia) Hn) as Hs.
  unfold pad_zero. change (replicate ?n 48) with (zero_str n). split_and!.
  - apply Forall_app_2; [apply zero_str_digits|done].
  - rewrite dnum_app, dnum_zero_str. lia.
  - rewrite length_app, zero_str_length. lia.
Qed.

Definition requested (o : FormatOptions) : nat := default 0%nat (opt_precision o).

Lemma normalize_spec sat d o :
  0 <= sat <= U64_MAX →
  let '(before, exp, after, nb, trailing) := normalize sat d o in
  trailing = (requested o - nb)%nat ∧ 0 <= before <= sat ∧ 0 <= after <= sat ∧
  (power d <= 0 → before = sat ∧ nb = 0%nat ∧ exp = if sat >? 0 then Z.to_nat (- power d) else 0%nat) ∧
  (0 < power d → exp = 0%nat ∧ Z.of_nat nb <= power d ∧ before = sat / 10 ^ power d ∧
     (nb = 0%nat → sat mod 10 ^ power d = 0) ∧
     ((0 < nb)%nat → 0 < after < 10 ^ Z.of_nat nb ∧ sat mod 10 ^ power d = after * 10 ^ (power d - Z.of_nat nb))).
Proof.
  intros Hs. unfold normalize, power. fold (requested o). destruct (Z.compare_spec (precision d) 0) as [E|E|E].
  - rewrite E. split_and!; try lia. intros _. by destruct (sat >? 0).
  - rewrite Z.abs_neq by lia. set (k := - precision d) in *. assert (0 < k) as Hk by lia. assert (0 < 10 ^ k) as Hp by (apply Z.pow_pos_nonneg; lia).
    pose proof (Z.div_mod sat (10 ^ k) ltac:(lia)) as Hd. pose proof (Z.mod_pos_bound sat (10 ^ k) Hp) as Hm.
    assert (0 <= sat / 10 ^ k) by (apply Z.div_pos; lia). assert (sat / 10 ^ k <= sat) by (apply Z.div_le_upper_bound; nia).
    assert (sat mod 10 ^ k <= sat) by (apply Z.mod_le; lia).
    destruct (Z.eqb_spec (sat mod 10 ^ k) 0) as [E0|]; [split_and!; try lia; intros _; split_and!; lia|].
    pose proof (strip_zeros_spec (Z.to_nat k) (sat mod 10 ^ k)) as Hz. rewrite Z2Nat.id in Hz by lia. specialize (Hz ltac:(lia)).
    destruct (strip_zeros _ _ _) as [nb a]. destruct Hz as (Hl & Hr & E'). 
    assert (1 <= 10 ^ Z.of_nat (Z.to_nat k - nb)) as Hp' by (apply (Z.pow_le_mono_r 10 0); lia).
    pose proof (le_mul_one a _ ltac:(lia) Hp').
    split_and!; try lia. intros _. split_and!; try lia; [by intros ->; cbn in Hr; lia|]. intros _. split; [lia|]. rewrite E'. do 2 f_equal. lia.
  - replace (- - precision d) with (precision d) by lia. split_and!; lia.
Qed.

(** The number without sign, unit and padding. *)
Definition number (sat : Z) (d : Denomination) (o : FormatOptions) : list Z :=
  let '(before, exp, after, nb, trailing) := normalize sat d o in
  dec before ++ replicate exp 48 ++ (if (0 <? nb + trailing)%nat then [DOT] else [])
  ++ (if (0 <? nb)%nat then pad_zero nb (dec after) else []) ++ replicate trailing 48.

Definition decimal_char (c : Z) : bool := is_digit c || (c =? DOT).

(** The precision asked for is one that the unit has. *)
Definition representable (d : Denomination) (o : FormatOptions) : Prop :=
  if 0 <? power d then Z.of_nat (requested o) <= power d else requested o = 0%nat.

(** The decimals of a printed number. *)
Lemma decimals_spec sat d o before exp after nb trailing :
  0 <= sat <= U64_MAX → normalize sat d o = (before, exp, after, nb, trailing) →
  let F := (if (0 <? nb)%nat then pad_zero nb (dec after) else []) ++ zero_str trailing in
  all_digits F ∧ length F = (nb + trailing)%nat ∧
  (0 < power d → Z.of_nat (nb + trailing) <= power d → dnum F * 10 ^ (power d - Z.of_nat (nb + trailing)) = sat mod 10 ^ power d).
Proof.
  intros Hs En F. pose proof (normalize_spec sat d o Hs) as Hn. rewrite En in Hn. destruct Hn as (Ht & Hb & Ha & Hc & Hf).
  destruct (Nat.ltb_spec 0 nb) as [Hnb|Hnb].
  - assert (0 < power d) as Hk.
    { destruct (Z.lt_ge_cases 0 (power d)) as [|Hk]; [done|]. destruct (Hc Hk) as (_ & -> & _). lia. }
    destruct (Hf Hk) as (_ & Hl & _ & _ & Hv). destruct (Hv Hnb) as [Hr Hm].
    destruct (pad_zero_spec nb after ltac:(lia) ltac:(lia) Hnb) as (Hd & He & Hlen). subst F. split_and!.
    + apply Forall_app_2; [done|apply zero_str_digits].
    + by rewrite length_app, zero_str_length, Hlen.
    + intros _ Hle. rewrite dnum_app, dnum_zero_str, He, zero_str_length, Hm.
      rewrite Z.add_0_r, <- Z.mul_assoc, <- Z.pow_add_r by lia. do 2 f_equal. lia.
  - assert (nb = 0%nat) as -> by lia. subst F. cbn [app Nat.add]. split_and!; [apply zero_str_digits|by rewrite zero_str_length|].
    intros Hk _. destruct (Hf Hk) as (_ & _ & _ & H0 & _). rewrite dnum_zero_str, H0 by done. lia.
Qed.

Lemma number_decimal sat d o : 0 <= sat <= U64_MAX → representable d o → decimal (power d) (number sat d o) sat.
Proof.
  intros Hs Hr. unfold number. destruct (normalize sat d o) as [[[[before exp] after] nb] trailing] eqn:En.
  pose proof (normalize_spec sat d o Hs) as Hn. rewrite En in Hn. destruct Hn as (Ht & Hb & Ha & Hc & Hf).
  destruct (decimals_spec _ _ _ _ _ _ _ _ Hs En) as (HF & HlF & HvF). change (replicate ?n 48) with (zero_str n).
  destruct (dec_spec before ltac:(lia)) as (Hd & He & _ & Hne). unfold representable in Hr.
  destruct (Z.ltb_spec 0 (power d)) as [Hk|Hk].
  - destruct (Hf Hk) as (-> & Hl & -> & H0 & _). pose proof (Z.div_mod sat (10 ^ power d)) as Hdm.
    assert (0 < 10 ^ power d) by (apply Z.pow_pos_nonneg; lia). specialize (Hdm ltac:(lia)). specialize (HvF Hk ltac:(lia)).
    destruct (Nat.ltb_spec 0 (nb + trailing)) as [Hp|Hp].
    + replace sat with (dnum (dec (sat / 10 ^ power d) ++ ((if (0 <? nb)%nat then pad_zero nb (dec after) else []) ++ zero_str trailing)) *
        10 ^ (power d - Z.of_nat (length ((if (0 <? nb)%nat then pad_zero nb (dec after) else []) ++ zero_str trailing)))) at 2.
      * apply decimal_frac; try done. lia.
      * rewrite dnum_app, He, HlF, Z.mul_add_distr_r, HvF, <- Z.mul_assoc, <- Z.pow_add_r by lia.
        replace (Z.of_nat (nb + trailing) + (power d - Z.of_nat (nb + trailing))) with (power d) by lia. lia.
    + assert (nb = 0%nat ∧ trailing = 0%nat) as [-> ->] by lia. cbn [Nat.ltb Nat.leb app zero_str replicate]. rewrite app_nil_r.
      replace sat with (dnum (dec (sat / 10 ^ power d)) * 10 ^ power d) at 2 by (rewrite He; specialize (H0 eq_refl); lia). by apply decimal_int.
  - destruct (Hc ltac:(lia)) as (-> & -> & ->). rewrite Hr in Ht. cbn in Ht. subst trailing. cbn [Nat.ltb Nat.leb Nat.add app zero_str replicate]. rewrite !app_nil_r.
    destruct (Z.gtb_spec sat 0) as [Hp|Hp].
    + rewrite <- He at 2. apply coarse_int; [lia|intros E; rewrite E in Hne; cbn in Hne; lia|done].
    + assert (sat = 0) as -> by lia. change (dec 0) with (zero_str 1). cbn [replicate]. rewrite app_nil_r.
      destruct (Z.eq_dec (power d) 0) as [E|E].
      * rewrite E. apply (coarse_int 0 (zero_str 1)); [lia|done|apply zero_str_digits].
      * apply (coarse_zero _ [] 0); [lia|left|cbn; lia].
Qed.

Lemma precision_range d : -4 <= power d <= 8.
Proof. destruct d; vm_compute; split; discriminate. Qed.

Lemma number_chars sat d o :
  0 <= sat <= U64_MAX → representable d o →
  Forall (λ c, decimal_char c = true) (number sat d o) ∧ number sat d o ≠ [] ∧ (length (number sat d o) <= 33)%nat.
Proof.
  intros Hs Hr. unfold number. destruct (normalize sat d o) as [[[[before exp] after] nb] trailing] eqn:En.
  pose proof (normalize_spec sat d o Hs) as Hn. rewrite En in Hn. destruct Hn as (Ht & Hb & Ha & Hc & Hf).
  destruct (decimals_spec _ _ _ _ _ _ _ _ Hs En) as (HF & HlF & _). change (replicate ?n 48) with (zero_str n).
  destruct (dec_spec before ltac:(lia)) as (Hd & He & Hl & Hne). unfold representable in Hr. pose proof (precision_range d).
  assert (∀ s, all_digits s → Forall (λ c, decimal_char c = true) s) as Hw.
  { intros s H'. eapply Forall_impl; [exact H'|]. unfold decimal_char. intros c Hx. cbv beta in *. by rewrite Hx. }
  split_and!.
  - repeat apply Forall_app_2; [by apply Hw|apply Hw, zero_str_digits| |by apply Hw; apply Forall_app in HF as [HF _]|apply Hw, zero_str_digits].
    repeat case_match; repeat constructor.
  - intros [E _]%app_eq_nil. rewrite E in Hne. cbn in Hne. lia.
  - rewrite !length_app, zero_str_length. rewrite length_app in HlF.
    destruct (Z.ltb_spec 0 (power d)) as [Hk|Hk]; [destruct (Hf Hk) as (-> & ? & _)|destruct (Hc ltac:(lia)) as (-> & -> & ->)];
      repeat case_match; cbn [length] in *; lia.
Qed.

Lemma fmt_unpadded sat neg d show o :
  width o = None →
  fmt_satoshi_in sat neg d show o =
  (if neg then [MINUS] else if sign_plus o then [43] else []) ++ number sat d o ++ (if show then 32 :: as_str d else []).
Proof.
  intros Hw. unfold fmt_satoshi_in, number. destruct (normalize sat d o) as [[[[before exp] after] nb] trailing].
  unfold padding. rewrite Hw. cbn [default from_option]. replace (_ <? _)%nat with false by (symmetry; by apply Nat.ltb_ge, Nat.le_0_l).
  cbn [replicate app]. rewrite app_nil_r, <- !app_assoc. by destruct (sign_aware_zero_pad o).
Qed.

(** Parsing what was printed, sign and number. *)
Lemma parse_number neg sat d o :
  0 <= sat <= U64_MAX → representable d o →
  parse_signed_to_satoshi (sign neg ++ number sat d o) d = Some (Ok (neg, sat)).
Proof.
  intros Hs Hr. destruct (number_chars sat d o Hs Hr) as (Hc & Hn & Hl).
  rewrite parse_signed_of; [|done| |].
  - rewrite (decimal_parse _ _ _ _ (number_decimal sat d o Hs Hr)), (proj2 (Z.leb_le _ _)) by lia. done.
  - intros _. destruct (number sat d o) as [|c l]; [done|]. apply Forall_cons in Hc as [Hc _]. by intros [= ->].
  - rewrite str_len_ascii.
    + rewrite length_app. destruct neg; cbn; lia.
    + apply Forall_app_2; [destruct neg; repeat constructor|]. eapply Forall_impl; [exact Hc|].
      unfold decimal_char, is_digit, DOT. intros c Hx. cbv beta in *. lia.
Qed.

Lemma denomination_as_str d : denomination_from_str (as_str d) = Ok d.
Proof. destruct d; vm_compute; reflexivity. Qed.

Lemma as_str_head d : ∃ c l, as_str d = c :: l ∧ 97 <= Z.lor c 32 <= 122.
Proof. destruct d; (eexists _, _; split; [vm_compute; reflexivity|vm_compute; split; discriminate]). Qed.

(** A number with its unit after a space, or right after. *)
Definition plain_char (c : Z) : bool := decimal_char c || (c =? MINUS).

Section SplitLemmas.
Variable is_alphabetic : Z → bool.
Hypothesis Hascii : ∀ c, 0 <= c < 128 → is_alphabetic c = (97 <=? Z.lor c 32) && (Z.lor c 32 <=? 122).

Lemma plain_not_space n : Forall (λ c, plain_char c = true) n → Forall (λ c, (32 =? c) = false) n.
Proof. intros Hn. eapply Forall_impl; [exact Hn|]. unfold plain_char, decimal_char, is_digit, DOT, MINUS. intros c Hc. cbv beta in *. lia. Qed.

Lemma plain_not_alphabetic n : Forall (λ c, plain_char c = true) n → Forall (λ c, is_alphabetic c = false) n.
Proof.
  intros Hn. eapply Forall_impl; [exact Hn|]. intros c Hc. cbv beta in Hc. unfold plain_char, decimal_char, is_digit, DOT, MINUS in Hc.
  assert (c ∈ seqZ 45 13) as Hin by (apply elem_of_seqZ; lia). rewrite Hascii by lia.
  change (seqZ 45 13) with [45;46;47;48;49;50;51;52;53;54;55;56;57] in Hin. rewrite !elem_of_cons, elem_of_nil in Hin.
  repeat destruct Hin as [->|Hin]; try reflexivity. done.
Qed.

Lemma split_space n d :
  Forall (λ c, plain_char c = true) n → split_amount_and_denomination is_alphabetic (n ++ 32 :: as_str d) = Some (Ok (n, d)).
Proof.
  intros Hn%plain_not_space. unfold split_amount_and_denomination. rewrite str_find_app by done.
  rewrite slice_to_app. cbn [mbind option_bind]. replace (n ++ 32 :: as_str d) with ((n ++ [32]) ++ as_str d) by (by rewrite <- app_assoc).
  replace (str_len n + 1)%nat with (str_len (n ++ [32])) by (by rewrite str_len_app). rewrite slice_from_app. cbn [mbind option_bind].
  by rewrite denomination_as_str.
Qed.

Lemma split_joined n d :
  Forall (λ c, plain_char c = true) n → split_amount_and_denomination is_alphabetic (n ++ as_str d) = Some (Ok (n, d)).
Proof.
  intros Hn. destruct (as_str_head d) as (c & l & E & Hc). unfold split_amount_and_denomination. rewrite str_find_none.
  2:{ apply Forall_app_2; [by apply plain_not_space|]. destruct d; vm_compute; repeat constructor. }
  rewrite E, str_find_app; [|by apply plain_not_alphabetic|].
  2:{ assert (0 <= c < 128) by (destruct d; vm_compute in E; injection E as <- _; lia). rewrite Hascii by done. lia. }
  cbn [mbind option_bind]. rewrite slice_to_app, slice_from_app, <- E. cbn [mbind option_bind]. by rewrite denomination_as_str.
Qed.
End SplitLemmas.

Lemma number_plain neg sat d o :
  0 <= sat <= U64_MAX → representable d o → Forall (λ c, plain_char c = true) (sign neg ++ number sat d o).
Proof.
  intros Hs Hr. destruct (number_chars sat d o Hs Hr) as (Hc & _). apply Forall_app_2; [destruct neg; repeat constructor|].
  eapply Forall_impl; [exact Hc|]. unfold plain_char. intros c Hx. cbv beta in *. by rewrite Hx.
Qed.

(** The two [from_str_in] from the parsed sign and magnitude. *)
Lemma amount_of_parse s d a : parse_signed_to_satoshi s d = Some (Ok (false, a)) → Amounts.from_str_in s d = Some (Ok a).
Proof. unfold Amounts.from_str_in. by intros ->. Qed.

Lemma signed_of_parse s d neg v :
  0 <= v → parse_signed_to_satoshi s d = Some (Ok (neg, v)) →
  SignedAmounts.from_str_in s d =
  Some (let a := if neg then - v else v in
        if bool_decide (I64_MIN <= a <= I64_MAX) then Ok a
        else Err (ParseAmountError.OutOfRange (if neg then too_small else too_big true))).
Proof.
  intros Hv. unfold SignedAmounts.from_str_in. intros ->. cbn [mbind option_bind result_map_err result_bind]. f_equal. cbv zeta.
  change (Z.abs I64_MIN) with (2 ^ 63). unfold I64_MAX, I64_MIN. destruct neg.
  - destruct (Z.eqb_spec v (2 ^ 63)) as [->|]; [done|]. destruct (Z.ltb_spec (2 ^ 63) v).
    + rewrite bool_decide_false by lia. done.
    + rewrite bool_decide_true by lia. rewrite swrap_small by (unfold srange; lia). done.
  - destruct (Z.ltb_spec (2 ^ 63 - 1) v).
    + rewrite bool_decide_false by lia. done.
    + rewrite bool_decide_true by lia. rewrite swrap_small by (unfold srange; lia). done.
Qed.

Lemma from_str_split is_alphabetic from s n d r :
  split_amount_and_denomination is_alphabetic s = Some (Ok (n, d)) → from n d = Some (Ok r) →
  from_str_with_denomination is_alphabetic from s = Some (Ok r).
Proof. intros Hs Hf. unfold from_str_with_denomination. rewrite Hs. cbn [mbind option_bind]. by rewrite Hf. Qed.

Lemma decimal_nonneg k s v : decimal k s v → 0 <= v.
Proof.
  destruct 1 as [I Hk HI|I F Hk HI HF Hl|I Hk Hn HI|I f Hk Hn HI|sg z Hk Hsg Hl].
  - pose proof (dnum_bound I HI). assert (0 <= 10 ^ k) by (apply Z.pow_nonneg; lia). nia.
  - assert (all_digits (I ++ F)) as HIF by by apply Forall_app_2. pose proof (dnum_bound _ HIF).
    assert (0 <= 10 ^ (k - Z.of_nat (length F))) by (apply Z.pow_nonneg; lia). nia.
  - by apply dnum_bound.
  - by apply dnum_bound.
  - done.
Qed.

Lemma representable_default d : representable d options_default.
Proof. unfold representable, requested. cbn. destruct (Z.ltb_spec 0 (power d)); [lia|done]. Qed.

Lemma amount_printed a d :
  0 <= a <= U64_MAX →
  AmountPrint.to_string_in a d = sign false ++ number a d options_default ∧
  Amounts.from_str_in (AmountPrint.to_string_in a d) d = Some (Ok a) ∧
  Forall (λ c, plain_char c = true) (AmountPrint.to_string_in a d).
Proof.
  intros Ha. pose proof (representable_default d) as Hr.
  assert (AmountPrint.to_string_in a d = sign false ++ number a d options_default) as E.
  { unfold AmountPrint.to_string_in, AmountPrint.fmt_value_in. rewrite fmt_unpadded by done. cbn [sign_plus options_default]. by rewrite app_nil_r. }
  rewrite E. split_and!; [done|apply amount_of_parse; by apply parse_number|by apply number_plain].
Qed.

Lemma amount_displayed a :
  0 <= a <= U64_MAX →
  ∃ n, AmountPrint.fmt a options_default = n ++ 32 :: as_str Bitcoin ∧
    Amounts.from_str_in n Bitcoin = Some (Ok a) ∧ Forall (λ c, plain_char c = true) n.
Proof.
  intros Ha. unfold AmountPrint.fmt. cbn [opt_precision options_default].
  set (o := if negb _ then _ else _). assert (representable Bitcoin o ∧ width o = None ∧ sign_plus o = false) as (Hr & Hw & Hp).
  { subst o. destruct (negb _); split_and!; vm_compute; (done || discriminate). }
  exists (sign false ++ number a Bitcoin o). split_and!.
  - by rewrite fmt_unpadded, Hp by done.
  - apply amount_of_parse. by apply parse_number.
  - by apply number_plain.
Qed.

Lemma signed_printed a d :
  I64_MIN <= a <= I64_MAX →
  SignedAmounts.from_str_in (SignedAmountPrint.to_string_in a d) d = Some (Ok a) ∧
  Forall (λ c, plain_char c = true) (SignedAmountPrint.to_string_in a d).
Proof.
  intros Ha. pose proof (representable_default d) as Hr. assert (0 <= Z.abs a <= U64_MAX) as Hu by (unfold I64_MIN, I64_MAX, U64_MAX in *; lia).
  assert (SignedAmountPrint.to_string_in a d = sign (a <? 0) ++ number (Z.abs a) d options_default) as ->.
  { unfold SignedAmountPrint.to_string_in, SignedAmountPrint.fmt_value_in. rewrite fmt_unpadded by done. cbn [sign_plus options_default]. by rewrite app_nil_r. }
  split; [|by apply number_plain]. erewrite signed_of_parse; [|apply Hu|by apply parse_number].
  cbv zeta. replace (if a <? 0 then - Z.abs a else Z.abs a) with a by (destruct (Z.ltb_spec a 0); lia). by rewrite bool_decide_true.
Qed.

(** The same options without a width. *)
Definition unpadded (o : FormatOptions) : FormatOptions :=
  {| fill := fill o; align := align o; width := None; opt_precision := opt_precision o;
     sign_plus := sign_plus o; sign_aware_zero_pad := sign_aware_zero_pad o |}.

Lemma padding_spec n o :
  let '(l, r) := padding n o in
  (l + r = default 0 (width o) - n)%nat ∧
  (sign_aware_zero_pad o = true → l = (default 0 (width o) - n)%nat ∧ r = 0%nat) ∧
  (sign_aware_zero_pad o = false →
     l = match default Right (align o) with
         | Right => default 0 (width o) - n | Left => 0 | Center => (default 0 (width o) - n) / 2 end)%nat.
Proof.
  unfold padding. set (w := default 0%nat (width o)).
  pose proof (Nat.div_mod_eq (w - n) 2). pose proof (Nat.mod_upper_bound (w - n) 2 ltac:(lia)).
  pose proof (Nat.div_mod_eq (w - n + 1) 2). pose proof (Nat.mod_upper_bound (w - n + 1) 2 ltac:(lia)).
  destruct (Nat.ltb_spec n w).
  - destruct (sign_aware_zero_pad o); [split_and!; (done || lia)|]. destruct (default Right (align o)); split_and!; (done || lia).
  - replace (w - n)%nat with 0%nat by lia. split_and!; [done|done|]. by destruct (default Right (align o)).
Qed.

Lemma num_width_spec sat neg d show o :
  0 <= sat <= U64_MAX → num_width sat neg d show o = length (fmt_satoshi_in sat neg d show (unpadded o)).
Proof.
  intros Hs. rewrite fmt_unpadded by done. unfold num_width, number. change (normalize sat d (unpadded o)) with (normalize sat d o).
  destruct (normalize sat d o) as [[[[before exp] after] nb] trailing] eqn:En. pose proof (normalize_spec sat d o Hs) as Hn. rewrite En in Hn.
  destruct Hn as (_ & Hb & _). destruct (decimals_spec _ _ _ _ _ _ _ _ Hs En) as (_ & Hl & _). rewrite length_app, zero_str_length in Hl.
  rewrite dec_width_spec by lia. rewrite !length_app, !length_replicate. cbn [sign_plus unpadded].
  destruct neg, (sign_plus o), show, (0 <? nb + trailing)%nat eqn:E; cbn [orb length]; try (apply Nat.ltb_ge in E); lia.
Qed.

(** Sign, padding and the rest. *)
Lemma fmt_parts sat neg d show o :
  0 <= sat <= U64_MAX →
  let text := fmt_satoshi_in sat neg d show (unpadded o) in
  let lr := padding (length text) o in
  ∃ sg rest, sg = (if neg then [MINUS] else if sign_plus o then [43] else []) ∧ text = sg ++ rest ∧
    fmt_satoshi_in sat neg d show o =
      (if sign_aware_zero_pad o then [] else replicate lr.1 (fill o)) ++ sg ++
      (if sign_aware_zero_pad o then replicate lr.1 48 else []) ++ rest ++ replicate lr.2 (fill o) ∧
    num_width sat neg d show o = length text.
Proof.
  intros Hs text lr. exists (if neg then [MINUS] else if sign_plus o then [43] else []), (number sat d o ++ (if show then 32 :: as_str d else [])).
  split; [done|]. split; [subst text; by rewrite fmt_unpadded|]. split; [|by apply num_width_spec].
  subst lr text. rewrite <- num_width_spec by done. unfold fmt_satoshi_in, number.
  destruct (normalize sat d o) as [[[[before exp] after] nb] trailing]. destruct (padding _ o) as [l r]. cbn [fst snd]. by rewrite <- !app_assoc.
Qed.

(** ** Properties *)

(** C20: amounts are parsed exactly. Parsing never panics (no slice inside a
    character, no subtraction below zero). Of at most fifty bytes that are a
    decimal number of the unit ([decimal]: no more decimals than the unit has,
    below a satoshi only zeros), the result is the sign and the number of
    satoshis when it fits 64 bits and an overflow otherwise, whatever the order
    of multiplications; and nothing else is accepted. *)
Theorem parse_amount_spec d :
  (∀ s, is_Some (parse_signed_to_satoshi s d)) ∧
  (∀ neg body v, body ≠ [] → (neg = false → head body ≠ Some MINUS) → (str_len (sign neg ++ body) <= 50)%nat →
     decimal (power d) body v →
     parse_signed_to_satoshi (sign neg ++ body) d = Some (if v <=? U64_MAX then Ok (neg, v) else Err (Overflow neg))) ∧
  (∀ s neg v, parse_signed_to_satoshi s d = Some (Ok (neg, v)) →
     0 <= v <= U64_MAX ∧ (str_len s <= 50)%nat ∧
     ∃ body, s = sign neg ++ body ∧ body ≠ [] ∧ decimal (power d) body v).
Proof.
  split; [intros s; apply parse_signed_total|]. split.
  - intros neg body v Hb Hh Hl Hd. rewrite parse_signed_of by done. by apply decimal_parse.
  - intros s neg v (neg' & body & -> & Hb & Hh & Hl & Hp)%parse_signed_ok.
    apply parse_decimal in Hp as (v' & Hd & Hv & [= -> ->]). split_and!; [by eapply decimal_nonneg|done|done|].
    by exists body.
Qed.

Lemma parse_amount_spec_witness :
  parse_signed_to_satoshi (str "-12.5") MicroBitcoin = Some (Ok (true, 1250)) ∧
  parse_signed_to_satoshi (str "184467440737.09551616") Bitcoin = Some (Err (Overflow false)) ∧
  (∃ body, str "7000.0" = sign false ++ body ∧ body ≠ [] ∧ decimal (power MilliSatoshi) body 7).
Proof.
  split_and!.
  - apply (proj1 (proj2 (parse_amount_spec MicroBitcoin)) true (str "12.5") 1250); [done|done|vm_compute; lia|].
    apply (decimal_frac (power MicroBitcoin) (str "12") (str "5")); [done|by repeat constructor|by repeat constructor|vm_compute; discriminate].
  - apply (proj1 (proj2 (parse_amount_spec Bitcoin)) false (str "184467440737.09551616") 18446744073709551616);
      [done|done|vm_compute; lia|].
    apply (decimal_frac (power Bitcoin) (str "184467440737") (str "09551616")); [done|by repeat constructor|by repeat constructor|vm_compute; discriminate].
  - apply (proj2 (proj2 (parse_amount_spec MilliSatoshi)) (str "7000.0") false 7). vm_compute. reflexivity.
Defined.

(** What is printed parses back: an amount printed in any unit parses in that
    unit to itself; with the unit's name, after a space or right after the
    number, it parses as an amount with its denomination; and so does the
    default display in bitcoin, for both amount types over their whole range,
    the least signed amount included. *)
Theorem amount_text_roundtrip is_alphabetic d :
  (∀ c, 0 <= c < 128 → is_alphabetic c = (97 <=? Z.lor c 32) && (Z.lor c 32 <=? 122)) →
  (∀ a, 0 <= a <= U64_MAX →
     let s := AmountPrint.to_string_in a d in
     Amounts.from_str_in s d = Some (Ok a) ∧
     (∀ t, t = AmountPrint.to_string_with_denomination a d ∨ t = s ++ as_str d ∨ t = AmountPrint.fmt a options_default →
        from_str_with_denomination is_alphabetic Amounts.from_str_in t = Some (Ok a))) ∧
  (∀ a, I64_MIN <= a <= I64_MAX →
     let s := SignedAmountPrint.to_string_in a d in
     SignedAmounts.from_str_in s d = Some (Ok a) ∧
     (∀ t, t = SignedAmountPrint.to_string_with_denomination a d ∨ t = s ++ as_str d ∨ t = SignedAmountPrint.fmt a →
        from_str_with_denomination is_alphabetic SignedAmounts.from_str_in t = Some (Ok a))).
Proof.
  intros Hascii. split.
  - intros a Ha s. pose proof (amount_printed a d Ha) as (E & Hp & Hc). subst s. split; [exact Hp|]. intros t [->|[->| ->]].
    + by eapply from_str_split; [apply split_space|].
    + by eapply from_str_split; [by apply split_joined|].
    + destruct (amount_displayed a Ha) as (n & -> & Hpn & Hcn). by eapply from_str_split; [apply split_space|].
  - intros a Ha s. pose proof (signed_printed a d Ha) as (Hp & Hc). subst s. split; [exact Hp|]. intros t [->|[->| ->]].
    + by eapply from_str_split; [apply split_space|].
    + by eapply from_str_split; [by apply split_joined|].
    + destruct (signed_printed a Bitcoin Ha) as (Hp' & Hc'). by eapply from_str_split; [apply split_space|].
Qed.

Definition ascii_alphabetic (c : Z) : bool := (97 <=? Z.lor c 32) && (Z.lor c 32 <=? 122).

Lemma amount_text_roundtrip_witness :
  from_str_with_denomination ascii_alphabetic SignedAmounts.from_str_in (str "-92233720368.54775808 BTC") = Some (Ok I64_MIN) ∧
  Amounts.from_str_in (str "1230000") PicoBitcoin = Some (Ok 123).
Proof.
  destruct (amount_text_roundtrip ascii_alphabetic PicoBitcoin (λ c _, eq_refl)) as [Ha Hs]. split.
  - apply (Hs I64_MIN); [split; vm_compute; discriminate|]. right. right. vm_compute. reflexivity.
  - apply (Ha 123); split; vm_compute; discriminate.
Defined.

(** Padding. A printed amount is exactly as wide as asked for, or as wide as
    its unpadded text when that is wider: the computed width of the number is
    its real length. Without zero-padding the text stands unchanged between fill
    characters, all on the left when right-aligned, on the right when
    left-aligned, and split evenly with the odd one on the right when centred;
    with zero-padding the zeros go between the sign and the digits. *)
Theorem fmt_width sat neg d show o :
  0 <= sat <= U64_MAX →
  let text := fmt_satoshi_in sat neg d show (unpadded o) in
  let missing := (default 0 (width o) - length text)%nat in
  length (fmt_satoshi_in sat neg d show o) = Nat.max (default 0%nat (width o)) (length text) ∧
  (if sign_aware_zero_pad o
   then ∃ sg digits, text = sg ++ digits ∧ (length sg <= 1)%nat ∧ sg = (if neg then [MINUS] else if sign_plus o then [43] else []) ∧
          fmt_satoshi_in sat neg d show o = sg ++ zero_str missing ++ digits
   else ∃ left, fmt_satoshi_in sat neg d show o = replicate left (fill o) ++ text ++ replicate (missing - left) (fill o) ∧
          left = match default Right (align o) with Right => missing | Left => 0%nat | Center => (missing / 2)%nat end).
Proof.
  intros Hs text missing. destruct (fmt_parts sat neg d show o Hs) as (sg & rest & Hsg & Ht & Hf & Hw).
  fold text in Ht, Hf, Hw. fold missing in Hf. pose proof (padding_spec (length text) o) as Hp. fold missing in Hp.
  destruct (padding (length text) o) as [l r]. cbn [fst snd] in Hf. destruct Hp as (Hlr & Hz & Hn).
  assert (missing + length text = Nat.max (default 0%nat (width o)) (length text))%nat as Hm by (subst missing; lia).
  rewrite Hf, Ht. destruct (sign_aware_zero_pad o).
  - rewrite (proj1 (Hz eq_refl)), (proj2 (Hz eq_refl)) in *. rewrite <- Ht. split.
    + rewrite <- Hm, Ht. cbn [replicate app]. rewrite !length_app, length_replicate. cbn. lia.
    + exists sg, rest. split_and!; [done|subst sg; destruct neg, (sign_plus o); cbn; lia|done|]. cbn [replicate app]. by rewrite app_nil_r.
  - rewrite <- Ht. cbn [app]. split.
    + rewrite <- Hm, Ht. rewrite !length_app, !length_replicate. lia.
    + exists l. rewrite (Hn eq_refl). split; [|done]. rewrite Ht, <- app_assoc. do 2 f_equal. rewrite <- (Hn eq_refl). do 2 f_equal. lia.
Qed.

Lemma fmt_width_witness :
  let o := {| fill := 42; align := Some Center; width := Some 8%nat; opt_precision := Some 1%nat; sign_plus := true; sign_aware_zero_pad := false |} in
  length (fmt_satoshi_in 100 false MicroBitcoin false o) = 8%nat ∧ fmt_satoshi_in 100 false MicroBitcoin false o = str "**+1.0**".
Proof.
  intros o. split; [|vm_compute; reflexivity].
  rewrite (proj1 (fmt_width 100 false MicroBitcoin false o ltac:(unfold U64_MAX; lia))). vm_compute. reflexivity.
Defined.

(** Strings taken or refused against what their errors and comments say. *)
Example lenient_zero :
  parse_signed_to_satoshi (str "--0") MilliSatoshi = Some (Ok (true, 0)) ∧
  parse_signed_to_satoshi (str "+0") PicoBitcoin = Some (Ok (false, 0)) ∧
  parse_signed_to_satoshi (str "--0") Satoshi = Some (Err (InvalidCharacter MINUS 1)) ∧
  parse_signed_to_satoshi (str "0.0") MilliSatoshi = Some (Err (TooPrecise 0)).
Proof. repeat split; vm_compute; reflexivity. Qed.

Example mixed_case_denomination :
  denomination_from_str (str "Btc") = Err (Unknown (str "Btc")) ∧ denomination_from_str (str "Sat") = Err (Unknown (str "Sat")).
Proof. split; vm_compute; reflexivity. Qed.
