(* ===== verification/Keys.v ===== *)
(** Keys and signatures ([src/litecoin/src/crypto/key.rs], [ecdsa.rs], [taproot.rs],
    [taproot/serialized_signature.rs]): the two forms of a public key, private keys
    in wallet import format, signatures with their hash types. The curve is the
    secp256k1 library, a parameter. *)

From Stdlib Require Import String ZArith Lia ZifyBool.
From stdpp Require Import base list.
From Stdlib Require Import Init.Byte.
From coqutil Require Import Byte Word.LittleEndianList.
From S2P Require Import Prelude Io Ordered HashEngine Sha256 Encode Mimblewimble Base58 Sighash.

(** ** The library

    Besides the compressed public keys of [PublicKeys]: uncompressed keys, secret
    keys and the two kinds of signature, parsed and serialised. *)
Class Secp256k1 `{PublicKeys} := {
  PublicKey_serialize_uncompressed : PublicKey → list byte;
  PublicKey_ordered :: Ordered PublicKey;
  SecretKey : Type;
  SecretKey_from_slice : list byte → option SecretKey;
  SecretKey_bytes : SecretKey → list byte;
  EcdsaSig : Type;
  EcdsaSig_from_der : list byte → option EcdsaSig;
  EcdsaSig_serialize_der : EcdsaSig → list byte;
  SchnorrSig : Type;
  SchnorrSig_from_slice : list byte → option SchnorrSig;
  SchnorrSig_serialize : SchnorrSig → list byte }.

(** Documented: a compressed key starts with 0x02 or 0x03; an uncompressed key is 65 bytes, the first 0x04; secret keys are 32
    bytes and schnorr signatures 64, each parsed back and the only bytes that parse to
    it; a DER signature has at most 72 bytes, and is parsed back. *)
Class Secp256k1Laws `{Secp256k1} : Prop := {
  pk_prefix k : ∃ bs, PublicKey_serialize k = x02 :: bs ∨ PublicKey_serialize k = x03 :: bs;
  pk_uncompressed k : ∃ bs, PublicKey_serialize_uncompressed k = x04 :: bs ∧ length bs = 64%nat;
  pk_parse_uncompressed k : PublicKey_from_slice (PublicKey_serialize_uncompressed k) = Some k;
  sk_length k : length (SecretKey_bytes k) = 32%nat;
  sk_parse k : SecretKey_from_slice (SecretKey_bytes k) = Some k;
  sk_only bs k : length bs = 32%nat → SecretKey_from_slice bs = Some k → SecretKey_bytes k = bs;
  der_length s : (length (EcdsaSig_serialize_der s) <= 72)%nat;
  der_parse s : EcdsaSig_from_der (EcdsaSig_serialize_der s) = Some s;
  schnorr_length s : length (SchnorrSig_serialize s) = 64%nat;
  schnorr_parse s : SchnorrSig_from_slice (SchnorrSig_serialize s) = Some s;
  schnorr_only bs s : length bs = 64%nat → SchnorrSig_from_slice bs = Some s → SchnorrSig_serialize s = bs }.

(** ** Public keys *)

Inductive FromSliceError :=
| InvalidKeyPrefix (prefix : Z)
| Secp256k1Error
| InvalidLength (len : nat).

Section Keys.
Context `{Secp256k1}.

Record BitcoinKey := { compressed : bool; inner : PublicKey }.

Definition key_new (key : PublicKey) : BitcoinKey := {| compressed := true; inner := key |}.
Definition key_new_uncompressed (key : PublicKey) : BitcoinKey := {| compressed := false; inner := key |}.

(** [with_serialized] of the identity. *)
Definition key_serialized (self : BitcoinKey) : list byte :=
  if compressed self then PublicKey_serialize (inner self) else PublicKey_serialize_uncompressed (inner self).

Definition key_write_into (self : BitcoinKey) : wr unit := w_bytes (key_serialized self).

(** [None]: the panic of [expect("vecs don't error")]. *)
Definition key_to_bytes (self : BitcoinKey) : option (list byte) :=
  match key_write_into self with Ok (_, buf) => Some buf | Err _ => None end.

Definition key_to_sort_key (self : BitcoinKey) : list byte :=
  if compressed self then PublicKey_serialize (inner self) else PublicKey_serialize_uncompressed (inner self).

Definition key_from_slice (data : list byte) : result FromSliceError BitcoinKey :=
  let? compressed :=
    (if (length data =? 33)%nat then Ok true
     else if (length data =? 65)%nat then Ok false
     else Err (InvalidLength (length data))) in
  let first := default x00 (head data) in
  if negb compressed && negb (bool_decide (first = x04)) then Err (InvalidKeyPrefix (byte.unsigned first))
  else
    let? inner := ok_or (PublicKey_from_slice data) Secp256k1Error in
    Ok {| compressed := compressed; inner := inner |}.

Definition invalid_data : io_error := {| kind := InvalidData; payload := None |}.

(** Two reads: the first byte tells the length. *)
Definition key_read_from : reader io_error BitcoinKey :=
  let! first := rd_exact (err_of_kind UnexpectedEof) 1 in
  let len := if match first with b :: _ => byte.unsigned b <? 4 | [] => true end then 33 else 65 in
  let! rest := rd_exact (err_of_kind UnexpectedEof) (len - 1) in
  rd_lift (result_map_err (λ _, invalid_data) (key_from_slice (first ++ rest))).

(** The derived [Ord]: the flag, then the key. *)
Definition key_cmp (a b : BitcoinKey) : comparison :=
  then_cmp (b2z (compressed a) ?= b2z (compressed b)) (cmp (inner a) (inner b)).

(** [CompressedPublicKey] *)
Definition compressed_from_slice (data : list byte) : option PublicKey := PublicKey_from_slice data.
Definition compressed_to_bytes (self : PublicKey) : list byte := PublicKey_serialize self.
Definition compressed_write_into (self : PublicKey) : wr unit := w_bytes (compressed_to_bytes self).
Definition compressed_read_from : reader io_error PublicKey :=
  let! bytes := rd_exact (err_of_kind UnexpectedEof) 33 in
  rd_lift (ok_or (compressed_from_slice bytes) invalid_data).
Definition compressed_try_from (value : BitcoinKey) : option PublicKey :=
  if compressed value then Some (inner value) else None.

(** ** Private keys *)

Inductive NetworkKind := Main | Test.

Definition is_mainnet (n : NetworkKind) : bool := match n with Main => true | Test => false end.

Inductive FromWifError :=
| WifBase58 (e : Base58.Error)
| InvalidBase58PayloadLength (length : nat)
| InvalidAddressVersion (invalid : Z)
| WifSecp256k1.

Record PrivateKey := { priv_compressed : bool; network : NetworkKind; secret : SecretKey }.

Definition priv_new (key : SecretKey) (network : NetworkKind) : PrivateKey :=
  {| priv_compressed := true; network := network; secret := key |}.
Definition priv_new_uncompressed (key : SecretKey) (network : NetworkKind) : PrivateKey :=
  {| priv_compressed := false; network := network; secret := key |}.
Definition priv_to_bytes (self : PrivateKey) : list byte := SecretKey_bytes (secret self).
Definition priv_from_slice (data : list byte) (network : NetworkKind) : option PrivateKey :=
  k ← SecretKey_from_slice data; Some (priv_new k network).

Definition fmt_wif (self : PrivateKey) : option (list byte) :=
  let ret := byte.of_Z (if is_mainnet (network self) then 176 else 239) :: SecretKey_bytes (secret self) in
  if priv_compressed self then encode_check (ret ++ [x01]) else encode_check ret.

(** [None]: a panic of the decoder. *)
Definition from_wif (wif : list byte) : option (result FromWifError PrivateKey) :=
  data ← decode_check wif;
  Some
    (let? data := result_map_err WifBase58 data in
     let? compressed :=
       (if (length data =? 33)%nat then Ok false
        else if (length data =? 34)%nat then Ok true
        else Err (InvalidBase58PayloadLength (length data))) in
     let first := byte.unsigned (default x00 (head data)) in
     let? network :=
       (if first =? 176 then Ok Main else if first =? 239 then Ok Test else Err (InvalidAddressVersion first)) in
     let? inner := ok_or (SecretKey_from_slice (take 32 (drop 1 data))) WifSecp256k1 in
     Ok {| priv_compressed := compressed; network := network; secret := inner |}).

(** ** ECDSA signatures *)

Definition MAX_SIG_LEN : nat := 73.

Inductive EcdsaError :=
| EcdsaSighash (e : NonStandardSighashTypeError)
| EmptySignature
| EcdsaSecp256k1.

Record EcdsaSignature := { ecdsa_signature : EcdsaSig; ecdsa_sighash_type : EcdsaSighashType }.

Definition ecdsa_sighash_all (s : EcdsaSig) : EcdsaSignature :=
  {| ecdsa_signature := s; ecdsa_sighash_type := Ecdsa.All |}.

(** [split_last] *)
Definition split_last {A} (l : list A) : option (A * list A) :=
  x ← last l; Some (x, take (length l - 1) l).

Definition ecdsa_from_slice (sl : list byte) : result EcdsaError EcdsaSignature :=
  let? (sighash_type, sig) := ok_or (split_last sl) EmptySignature in
  let? sighash_type := result_map_err EcdsaSighash (Ecdsa.from_standard (byte.unsigned sighash_type)) in
  let? signature := ok_or (EcdsaSig_from_der sig) EcdsaSecp256k1 in
  Ok {| ecdsa_signature := signature; ecdsa_sighash_type := sighash_type |}.

Definition ecdsa_to_vec (self : EcdsaSignature) : list byte :=
  EcdsaSig_serialize_der (ecdsa_signature self) ++ [byte.of_Z (Ecdsa.to_u32 (ecdsa_sighash_type self))].

(** A signature in a buffer of a fixed size. *)
Record SerializedSignature := { sig_data : list byte; sig_len : nat }.

(** [Deref] *)
Definition serialized_slice (self : SerializedSignature) : list byte := take (sig_len self) (sig_data self).

(** [None]: a slice or an index out of the buffer. *)
Definition ecdsa_serialize (self : EcdsaSignature) : option SerializedSignature :=
  let buf := replicate MAX_SIG_LEN x00 in
  let signature := EcdsaSig_serialize_der (ecdsa_signature self) in
  if (length signature <? MAX_SIG_LEN)%nat then
    let buf := write_at 0 signature buf in
    let buf := <[length signature := byte.of_Z (Ecdsa.to_u32 (ecdsa_sighash_type self))]> buf in
    Some {| sig_data := buf; sig_len := length signature + 1 |}
  else None.

(** ** Taproot signatures *)

Definition MAX_LEN : nat := 65.

Inductive SigFromSliceError :=
| TapSighash (e : InvalidSighashTypeError)
| TapSecp256k1
| InvalidSignatureSize (len : nat).

Record TaprootSignature := { schnorr_signature : SchnorrSig; tap_sighash_type : TapSighashType }.

Definition tap_from_slice (sl : list byte) : result SigFromSliceError TaprootSignature :=
  if (length sl =? 64)%nat then
    let? signature := ok_or (SchnorrSig_from_slice sl) TapSecp256k1 in
    Ok {| schnorr_signature := signature; tap_sighash_type := Tap.Default |}
  else if (length sl =? 65)%nat then
    match split_last sl with
    | Some (sighash_type, signature) =>
        let? sighash_type := result_map_err TapSighash (Tap.from_consensus_u8 (byte.unsigned sighash_type)) in
        let? signature := ok_or (SchnorrSig_from_slice signature) TapSecp256k1 in
        Ok {| schnorr_signature := signature; tap_sighash_type := sighash_type |}
    | None => Err (InvalidSignatureSize (length sl))
    end
  else Err (InvalidSignatureSize (length sl)).

Definition tap_to_vec (self : TaprootSignature) : list byte :=
  let ser_sig := SchnorrSig_serialize (schnorr_signature self) in
  if bool_decide (tap_sighash_type self = Tap.Default) then ser_sig
  else ser_sig ++ [byte.of_Z (Tap.to_u8 (tap_sighash_type self))].

(** [from_raw_parts]; [None] is its assertion. *)
Definition from_raw_parts (data : list byte) (len : nat) : option SerializedSignature :=
  if (len <=? MAX_LEN)%nat then Some {| sig_data := data; sig_len := len |} else None.

Definition tap_serialize (self : TaprootSignature) : option SerializedSignature :=
  let buf := replicate MAX_LEN x00 in
  let buf := write_at 0 (SchnorrSig_serialize (schnorr_signature self)) buf in
  if bool_decide (tap_sighash_type self = Tap.Default) then from_raw_parts buf 64
  else from_raw_parts (<[64%nat := byte.of_Z (Tap.to_u8 (tap_sighash_type self))]> buf) 65.

Definition to_signature (self : SerializedSignature) : result SigFromSliceError TaprootSignature :=
  tap_from_slice (serialized_slice self).
Definition from_signature (sig : TaprootSignature) : option SerializedSignature := tap_serialize sig.

End Keys.

(** ** Properties *)

Section Laws.
Context `{Hsecp : Secp256k1, Hpk : !PublicKeyLaws, Hlaws : !Secp256k1Laws}.

Lemma key_from_slice_serialized k : key_from_slice (key_serialized k) = Ok k.
Proof.
  destruct k as [[] k]; unfold key_serialized, key_from_slice; cbn [compressed inner].
  - rewrite pk_length. cbn [Nat.eqb result_bind negb andb]. by rewrite pk_parse_serialize.
  - pose proof (pk_parse_uncompressed k) as Hp. destruct (pk_uncompressed k) as (bs & Hb & Hl). rewrite Hb in *.
    cbn [length head default]. rewrite Hl. cbn [Nat.eqb result_bind negb andb bool_decide]. by rewrite Hp.
Qed.

Lemma key_serialized_head k :
  ∃ b bs, key_serialized k = b :: bs ∧ (byte.unsigned b <? 4) = compressed k ∧ length bs = if compressed k then 32%nat else 64%nat.
Proof.
  destruct k as [[] k]; unfold key_serialized; cbn [compressed inner].
  - pose proof (pk_length k) as Hl. destruct (pk_prefix k) as (bs & [Hb | Hb]); rewrite Hb in *; eexists _, _;
      (split; [reflexivity|]); (split; [reflexivity|]); cbn in Hl; lia.
  - destruct (pk_uncompressed k) as (bs & -> & Hl). by eexists _, _.
Qed.

Lemma key_read_from_app k rest : key_read_from (key_serialized k ++ rest) = Ok (k, rest).
Proof.
  destruct (key_serialized_head k) as (b & bs & He & Hb & Hl). unfold key_read_from. rewrite He. cbn [app]. unfold rd_bind at 1.
  rewrite (rd_exact_app _ 1 [b] (bs ++ rest) eq_refl). rewrite Hb. unfold rd_bind at 1.
  rewrite rd_exact_app by (rewrite Hl; by destruct (compressed k)). cbn [app]. rewrite <- He. unfold rd_lift.
  by rewrite key_from_slice_serialized.
Qed.

Lemma split_last_app {A} (l : list A) x : split_last (l ++ [x]) = Some (x, l).
Proof.
  unfold split_last. rewrite last_snoc. cbn [mbind option_bind]. rewrite length_app. cbn [length].
  rewrite Nat.add_sub, take_app_length. done.
Qed.

Lemma split_last_some {A} (l : list A) x r : split_last l = Some (x, r) → l = r ++ [x].
Proof.
  destruct l as [|y l _] using rev_ind; [done|]. rewrite split_last_app. by intros [= -> ->].
Qed.

Lemma from_standard_to_u32 ty :
  Ecdsa.from_standard (byte.unsigned (byte.of_Z (Ecdsa.to_u32 ty))) = Ok ty.
Proof. by destruct ty. Qed.

Lemma from_consensus_to_u8 ty : Tap.from_consensus_u8 (byte.unsigned (byte.of_Z (Tap.to_u8 ty))) = Ok ty.
Proof. by destruct ty. Qed.

Lemma to_u8_from_consensus b ty : Tap.from_consensus_u8 (byte.unsigned b) = Ok ty → byte.of_Z (Tap.to_u8 ty) = b.
Proof.
  intros E. rewrite <- (byte.of_Z_unsigned b). f_equal. unfold Tap.from_consensus_u8 in E. repeat case_if; simplify_eq; cbn; lia.
Qed.

(** The bytes of a taproot signature of 65 bytes. *)
Lemma tap_from_slice_65 sig b :
  length sig = 64%nat →
  tap_from_slice (sig ++ [b]) =
    (let? ty := result_map_err TapSighash (Tap.from_consensus_u8 (byte.unsigned b)) in
     let? s := ok_or (SchnorrSig_from_slice sig) TapSecp256k1 in
     Ok {| schnorr_signature := s; tap_sighash_type := ty |}).
Proof. intros Hl. unfold tap_from_slice. rewrite length_app, Hl. cbn [length Nat.add Nat.eqb]. by rewrite split_last_app. Qed.

Lemma tap_to_vec_from_slice s : tap_from_slice (tap_to_vec s) = Ok s.
Proof.
  destruct s as [s ty]. unfold tap_to_vec. cbn [schnorr_signature tap_sighash_type].
  pose proof (schnorr_length s) as Hl. case_bool_decide as Ht.
  - subst ty. unfold tap_from_slice. rewrite Hl. cbn [Nat.eqb]. by rewrite schnorr_parse.
  - rewrite tap_from_slice_65 by done. rewrite from_consensus_to_u8. cbn [result_map_err result_bind]. by rewrite schnorr_parse.
Qed.

(** What parses to a signature: its serialisation, or, when the hash type is the
    default one, also the form with an explicit zero byte. *)
Lemma tap_from_slice_ok sl s :
  tap_from_slice sl = Ok s ↔ sl = tap_to_vec s ∨ (tap_sighash_type s = Tap.Default ∧ sl = tap_to_vec s ++ [x00]).
Proof.
  split.
  - unfold tap_from_slice. destruct (Nat.eqb_spec (length sl) 64) as [Hl|_].
    + destruct (SchnorrSig_from_slice sl) as [sig|] eqn:Hs; [|done]. intros [= <-]. left. unfold tap_to_vec.
      cbn [schnorr_signature tap_sighash_type]. rewrite bool_decide_eq_true_2 by done. by rewrite (schnorr_only sl).
    + destruct (Nat.eqb_spec (length sl) 65) as [Hl|_]; [|done].
      destruct (split_last sl) as [[b sig]|] eqn:Hsp; [|done]. apply split_last_some in Hsp as ->.
      rewrite length_app in Hl. cbn in Hl. assert (length sig = 64%nat) as Hlen by lia.
      destruct (Tap.from_consensus_u8 (byte.unsigned b)) as [ty|] eqn:Hty; [|done]. cbn [result_map_err result_bind].
      destruct (SchnorrSig_from_slice sig) as [sg|] eqn:Hs; [|done]. intros [= <-]. unfold tap_to_vec.
      cbn [schnorr_signature tap_sighash_type]. apply to_u8_from_consensus in Hty as <-. rewrite (schnorr_only sig) by done.
      case_bool_decide as Hd; [right; subst ty; done|by left].
  - intros [-> | [Hd ->]]; [apply tap_to_vec_from_slice|]. destruct s as [s ty]. cbn [tap_sighash_type] in Hd. subst ty.
    unfold tap_to_vec. cbn [schnorr_signature tap_sighash_type]. rewrite bool_decide_eq_true_2 by done.
    rewrite tap_from_slice_65 by apply schnorr_length. cbn [byte.unsigned]. rewrite schnorr_parse. done.
Qed.
End Laws.

Section WriteAt.
Context {A : Type}.

Lemma write_at_start (bs buf : list A) : write_at 0 bs buf = bs ++ drop (length bs) buf.
Proof. done. Qed.

Lemma take_insert_end (bs buf : list A) x :
  (length bs < length buf)%nat → take (length bs + 1) (<[length bs := x]> (write_at 0 bs buf)) = bs ++ [x].
Proof.
  intros Hl. rewrite write_at_start. destruct (drop (length bs) buf) as [|y l] eqn:Hd.
  - apply (f_equal length) in Hd. rewrite length_drop in Hd. cbn in Hd. lia.
  - replace (<[length bs := x]> (bs ++ y :: l)) with (bs ++ x :: l).
    + rewrite take_app_add. done.
    + rewrite <- (Nat.add_0_r (length bs)). rewrite insert_app_r. done.
Qed.
End WriteAt.

Section Theorems.
Context `{Hsecp : Secp256k1, Hpk : !PublicKeyLaws, Hlaws : !Secp256k1Laws}.

(** *** Wallet import format *)

Definition wif_version (n : NetworkKind) : byte := byte.of_Z (if is_mainnet n then 176 else 239).

Definition suffix_length (k : PrivateKey) : nat := if priv_compressed k then 1 else 0.

Lemma from_wif_payload s k suffix :
  decode_check s = Some (Ok (wif_version (network k) :: SecretKey_bytes (secret k) ++ suffix)) →
  length suffix = suffix_length k → from_wif s = Some (Ok k).
Proof.
  intros Hs Hl. unfold from_wif. rewrite Hs. cbn [mbind option_bind result_map_err result_bind]. f_equal.
  destruct k as [c n sk]; cbn [network secret priv_compressed suffix_length] in *.
  cbn [length head default drop]. rewrite length_app, sk_length, Hl, drop_0, take_app_length' by (by rewrite sk_length).
  rewrite sk_parse. unfold suffix_length. cbn [priv_compressed]. by destruct c, n.
Qed.

Lemma from_wif_ok s k :
  from_wif s = Some (Ok k) →
  ∃ suffix, decode_check s = Some (Ok (wif_version (network k) :: SecretKey_bytes (secret k) ++ suffix)) ∧
    length suffix = suffix_length k.
Proof.
  unfold from_wif. destruct (decode_check s) as [[data|e]|]; [|done..]. cbn [mbind option_bind result_map_err result_bind].
  intros Hw. exists (drop 33 data). destruct data as [|b data]; [done|].
  assert (∃ c, (if (length (b :: data) =? 33)%nat then Ok false else if (length (b :: data) =? 34)%nat then Ok true
    else Err (InvalidBase58PayloadLength (length (b :: data)))) = Ok c ∧ length data = if c : bool then 33%nat else 32%nat) as (c & Hc & Hl).
  { revert Hw. cbn [length]. destruct (Nat.eqb_spec (S (length data)) 33); [intros _; exists false; split; [done|lia]|].
    destruct (Nat.eqb_spec (S (length data)) 34); [intros _; exists true; split; [done|lia]|done]. }
  rewrite Hc in Hw. cbn [result_bind head default drop] in Hw |- *. rewrite drop_0 in Hw.
  destruct (if byte.unsigned b =? 176 then _ else _) as [n|] eqn:Hn; [|done]. cbn [result_bind] in Hw. unfold id in Hn.
  destruct (SecretKey_from_slice (take 32 data)) as [sk|] eqn:Hsk; [|done]. injection Hw as <-.
  cbn [network secret suffix_length priv_compressed].
  assert (wif_version n = b) as ->.
  { rewrite <- (byte.of_Z_unsigned b). unfold wif_version. f_equal.
    destruct (Z.eqb_spec (byte.unsigned b) 176); [injection Hn as <-; cbn; lia|].
    destruct (Z.eqb_spec (byte.unsigned b) 239); [injection Hn as <-; cbn; lia|done]. }
  rewrite (sk_only (take 32 data)) by (done || (rewrite length_take; destruct c; lia)).
  rewrite take_drop. split; [done|]. unfold suffix_length. cbn [priv_compressed]. rewrite length_drop. destruct c; lia.
Qed.

Lemma fmt_wif_payload k :
  fmt_wif k = encode_check (wif_version (network k) :: SecretKey_bytes (secret k) ++ (if priv_compressed k then [x01] else [])).
Proof. unfold fmt_wif. destruct (priv_compressed k); [done|]. by rewrite app_nil_r. Qed.

(** Wallet import format. Every private key is printed, and what is printed is
    parsed back to it, with its network and its form. What parses to a key is the
    base58check text of its version byte, its 32 bytes and, for a compressed key,
    one more byte, whatever it is: the parser does not look at it. *)
Theorem wif_roundtrip (k : PrivateKey) s :
  (∃ s, fmt_wif k = Some s ∧ from_wif s = Some (Ok k)) ∧
  (from_wif s = Some (Ok k) ↔
    ∃ suffix, encode_check (wif_version (network k) :: SecretKey_bytes (secret k) ++ suffix) = Some s ∧
      length suffix = suffix_length k).
Proof.
  split.
  - rewrite fmt_wif_payload.
    destruct (encode_check_decodes (wif_version (network k) :: SecretKey_bytes (secret k) ++ (if priv_compressed k then [x01] else [])))
      as (s' & He & Hd). exists s'. split; [done|]. eapply from_wif_payload; [exact Hd|]. unfold suffix_length. by destruct (priv_compressed k).
  - split.
    + intros (suffix & Hd & Hl)%from_wif_ok. exists suffix. split; [by apply decode_check_encodes|done].
    + intros (suffix & He & Hl). destruct (encode_check_decodes (wif_version (network k) :: SecretKey_bytes (secret k) ++ suffix)) as (s' & He' & Hd).
      rewrite He in He'. injection He' as <-. by eapply from_wif_payload.
Qed.

Lemma ecdsa_vec_roundtrip e : ecdsa_from_slice (ecdsa_to_vec e) = Ok e.
Proof.
  destruct e as [sg ty]. unfold ecdsa_from_slice, ecdsa_to_vec. cbn [ecdsa_signature ecdsa_sighash_type].
  rewrite split_last_app. cbn [ok_or result_bind]. rewrite from_standard_to_u32. cbn [result_map_err result_bind].
  by rewrite der_parse.
Qed.

(** Signatures with their hash types. ECDSA signatures parse back from their
    bytes, and the buffer of 73 bytes holds them. Taproot signatures parse back too,
    and their buffer of 65 bytes gives the same bytes; what parses to one is its
    serialisation or, with the default hash type, the same with an explicit zero. *)
Theorem signature_codecs (e : EcdsaSignature) (t : TaprootSignature) sl :
  ecdsa_from_slice (ecdsa_to_vec e) = Ok e ∧
  (∃ b, ecdsa_serialize e = Some b ∧ serialized_slice b = ecdsa_to_vec e ∧ (sig_len b <= MAX_SIG_LEN)%nat) ∧
  (∃ b, tap_serialize t = Some b ∧ serialized_slice b = tap_to_vec t ∧ to_signature b = Ok t) ∧
  (tap_from_slice sl = Ok t ↔ sl = tap_to_vec t ∨ (tap_sighash_type t = Tap.Default ∧ sl = tap_to_vec t ++ [x00])).
Proof.
  split_and!.
  - apply ecdsa_vec_roundtrip.
  - unfold ecdsa_serialize, serialized_slice, ecdsa_to_vec. pose proof (der_length (ecdsa_signature e)).
    destruct (Nat.ltb_spec (length (EcdsaSig_serialize_der (ecdsa_signature e))) MAX_SIG_LEN); [|unfold MAX_SIG_LEN in *; lia].
    eexists. split; [done|]. cbn [sig_len sig_data]. split; [|unfold MAX_SIG_LEN in *; lia]. apply take_insert_end.
    rewrite length_replicate. unfold MAX_SIG_LEN in *. lia.
  - unfold to_signature, tap_serialize. pose proof (schnorr_length (schnorr_signature t)) as Hl.
    assert (∃ b, (if bool_decide (tap_sighash_type t = Tap.Default)
        then from_raw_parts (write_at 0 (SchnorrSig_serialize (schnorr_signature t)) (replicate MAX_LEN x00)) 64
        else from_raw_parts (<[64%nat:=byte.of_Z (Tap.to_u8 (tap_sighash_type t))]>
          (write_at 0 (SchnorrSig_serialize (schnorr_signature t)) (replicate MAX_LEN x00))) 65) = Some b ∧
        serialized_slice b = tap_to_vec t) as (b & -> & Hs).
    { unfold tap_to_vec. case_bool_decide; eexists; (split; [reflexivity|]); unfold serialized_slice; cbn [sig_len sig_data].
      - rewrite write_at_start. apply take_app_length'. done.
      - rewrite <- Hl, <- Nat.add_1_r. apply take_insert_end.
        rewrite Hl, length_replicate. unfold MAX_LEN. lia. }
    exists b. split_and!; [done|done|]. rewrite Hs. apply tap_to_vec_from_slice.
  - apply tap_from_slice_ok.
Qed.

(** Public keys: both forms parse back, from a slice and from a stream, where the
    first byte tells the form; keys sort as their serialisations, the compressed ones
    first. *)
Lemma public_key_roundtrip (k k' : BitcoinKey) rest :
  key_to_bytes k = Some (key_serialized k) ∧
  key_from_slice (key_serialized k) = Ok k ∧ key_read_from (key_serialized k ++ rest) = Ok (k, rest) ∧
  (compressed k = true → compressed k' = false → bytes_cmp (key_to_sort_key k) (key_to_sort_key k') = Lt) ∧
  (key_to_sort_key k = key_to_sort_key k' → k = k').
Proof.
  split_and!; [done|apply key_from_slice_serialized|apply key_read_from_app| |].
  - intros Hc Hc'. change (key_to_sort_key k) with (key_serialized k). change (key_to_sort_key k') with (key_serialized k').
    destruct (key_serialized_head k) as (b & bs & -> & Hb & _), (key_serialized_head k') as (b' & bs' & -> & Hb' & _).
    unfold bytes_cmp. cbn [list_cmp]. unfold byte_cmp. rewrite Hc in Hb. rewrite Hc' in Hb'.
    by rewrite (proj2 (Z.compare_lt_iff _ _)) by lia.
  - change (key_to_sort_key k) with (key_serialized k). change (key_to_sort_key k') with (key_serialized k').
    intros He. pose proof (key_from_slice_serialized k) as H1. rewrite He, key_from_slice_serialized in H1. by injection H1.
Qed.
End Theorems.

(** ** An instance

    Byte strings in place of the points, scalars and signatures of the library. *)
Module PlainSecp.
Definition fixed (n : nat) : Type := dsig (λ l : list byte, length l = n).
Definition to_fixed (n : nat) (bs : list byte) : option (fixed n) :=
  match decide (length bs = n) with left H => Some (dexist bs H) | right _ => None end.

Definition repeated (n : nat) (b : byte) : fixed n := dexist (replicate n b) (length_replicate n b).

Lemma to_fixed_bytes n (k : fixed n) : to_fixed n (`k) = Some k.
Proof.
  unfold to_fixed. destruct (decide _) as [H|H]; [|by destruct (H (proj2_dsig k))]. f_equal. by apply dsig_eq.
Qed.

Lemma to_fixed_only n bs (k : fixed n) : to_fixed n bs = Some k → `k = bs.
Proof. unfold to_fixed. destruct (decide _); [|done]. by intros [= <-]. Qed.

Definition key : Type := bool * fixed 32.
Definition prefix (odd : bool) : byte := if odd then x03 else x02.
Definition parse_prefix (b : byte) : option bool :=
  if bool_decide (b = x02) then Some false else if bool_decide (b = x03) then Some true else None.

#[export] Instance plain_keys : PublicKeys := {
  PublicKey := key;
  PublicKey_from_slice bs :=
    match bs with
    | b :: bs =>
        if (length bs =? 32)%nat then odd ← parse_prefix b; x ← to_fixed 32 bs; Some (odd, x)
        else if bool_decide (b = x04) then
          odd ← parse_prefix (default x00 (last bs)); x ← to_fixed 32 (take 32 bs); Some (odd, x)
        else None
    | [] => None
    end;
  PublicKey_serialize k := prefix (fst k) :: proj1_sig (snd k) }.

Lemma parse_prefix_prefix odd : parse_prefix (prefix odd) = Some odd.
Proof. by destruct odd. Qed.

#[export] Instance plain_keys_laws : PublicKeyLaws.
Proof.
  split.
  - intros [odd x]. cbn. by rewrite (proj2_dsig x).
  - intros [odd x]. cbn [PublicKey_from_slice PublicKey_serialize plain_keys fst snd]. rewrite (proj2_dsig x).
    cbn [Nat.eqb]. rewrite parse_prefix_prefix. cbn [mbind option_bind]. by rewrite to_fixed_bytes.
  - intros [|b bs] k Hl; [done|]. cbn [PublicKey_from_slice plain_keys]. injection Hl as Hl. rewrite Hl. cbn [Nat.eqb].
    destruct (parse_prefix b) as [odd|] eqn:Hp; [|done]. destruct (to_fixed 32 bs) as [x|] eqn:Hx; [|done].
    intros [= <-]. cbn. rewrite (to_fixed_only _ _ _ Hx). f_equal. revert Hp. unfold parse_prefix. repeat case_bool_decide; intros; by simplify_eq.
Qed.

Definition key_bytes (k : key) : list byte := prefix (fst k) :: proj1_sig (snd k).
Lemma key_bytes_inj k k' : key_bytes k = key_bytes k' → k = k'.
Proof.
  destruct k as [[] x], k' as [[] y]; intros [= He]; f_equal; by apply dsig_eq.
Qed.

#[export] Instance plain_secp : Secp256k1 := {
  PublicKey_serialize_uncompressed k := x04 :: proj1_sig (snd k) ++ replicate 31 x00 ++ [prefix (fst k)];
  PublicKey_ordered := inj_ordered key_bytes key_bytes_inj;
  SecretKey := fixed 32; SecretKey_from_slice := to_fixed 32; SecretKey_bytes k := `k;
  EcdsaSig := fixed 70; EcdsaSig_from_der := to_fixed 70; EcdsaSig_serialize_der s := `s;
  SchnorrSig := fixed 64; SchnorrSig_from_slice := to_fixed 64; SchnorrSig_serialize s := `s }.

#[export] Instance plain_secp_laws : Secp256k1Laws.
Proof.
  split.
  - intros [[] x]; cbn; eexists; eauto.
  - intros k. eexists. split; [done|]. rewrite length_app, (proj2_dsig (snd k)). done.
  - intros [odd x]. cbn [PublicKey_from_slice PublicKey_serialize_uncompressed plain_keys plain_secp fst snd].
    rewrite length_app, (proj2_dsig x). cbn [length app replicate Nat.add Nat.eqb bool_decide]. cbn.
    rewrite last_app. cbn. rewrite parse_prefix_prefix. cbn [mbind option_bind].
    rewrite take_app_length' by by rewrite (proj2_dsig x). by rewrite to_fixed_bytes.
  - intros k. apply (proj2_dsig k).
  - apply to_fixed_bytes.
  - intros bs k _. apply to_fixed_only.
  - intros s. cbn. rewrite (proj2_dsig s). lia.
  - apply to_fixed_bytes.
  - intros s. apply (proj2_dsig s).
  - apply to_fixed_bytes.
  - intros bs k _. apply to_fixed_only.
Qed.
End PlainSecp.

#[local] Existing Instances PlainSecp.plain_keys PlainSecp.plain_keys_laws PlainSecp.plain_secp PlainSecp.plain_secp_laws.

Definition sample_secret : PrivateKey :=
  {| priv_compressed := true; network := Main; secret := PlainSecp.repeated 32 x07 |}.

Lemma wif_roundtrip_witness :
  ∃ s s', fmt_wif sample_secret = Some s ∧ from_wif s = Some (Ok sample_secret) ∧
    s' ≠ s ∧ from_wif s' = Some (Ok sample_secret).
Proof.
  destruct (wif_roundtrip sample_secret []) as [(s & Hf & Hs) _].
  destruct (encode_check_decodes (wif_version Main :: replicate 32 x07 ++ [x02])) as (s' & He & Hd).
  exists s, s'. split; [exact Hf|]. split; [exact Hs|]. split.
  - intros ->. destruct (encode_check_decodes (wif_version Main :: replicate 32 x07 ++ [x01])) as (s'' & He' & Hd').
    rewrite fmt_wif_payload in Hf. cbn [sample_secret priv_compressed network secret] in Hf.
    change (encode_check (wif_version Main :: replicate 32 x07 ++ [x01]) = Some s) in Hf. rewrite He' in Hf. injection Hf as ->.
    rewrite Hd in Hd'. discriminate Hd'.
  - apply (proj2 (wif_roundtrip sample_secret s')). exists [x02]. split; [exact He|reflexivity].
Defined.

Lemma signature_codecs_witness :
  let t := {| schnorr_signature := PlainSecp.repeated 64 x05 : SchnorrSig; tap_sighash_type := Tap.Default |} in
  tap_from_slice (replicate 64 x05) = Ok t ∧ tap_from_slice (replicate 64 x05 ++ [x00]) = Ok t.
Proof.
  intros t. pose (e := {| ecdsa_signature := PlainSecp.repeated 70 x05 : EcdsaSig; ecdsa_sighash_type := Ecdsa.All |}).
  split.
  - apply (signature_codecs e t (replicate 64 x05)). left. reflexivity.
  - apply (signature_codecs e t (replicate 64 x05 ++ [x00])). right. split; reflexivity.
Defined.
