(* ===== verification/Bip32.v ===== *)
(** Hierarchical keys ([src/litecoin/src/bip32.rs]): child numbers, derivation paths
    and their text, the 78 bytes and the base-58 text of extended keys. *)

From Stdlib Require Import String ZArith Lia ZifyBool.
From stdpp Require Import base list.
From Stdlib Require Import Init.Byte.
From coqutil Require Import Byte Word.LittleEndianList.
From S2P Require Import Prelude Io Ordered HashEngine Sha256 Encode Mimblewimble Text Base58 Sighash Keys.

Definition VERSION_BYTES_MAINNET_PUBLIC : list byte := [x04; x88; xb2; x1e].
Definition VERSION_BYTES_MAINNET_PRIVATE : list byte := [x04; x88; xad; xe4].
Definition VERSION_BYTES_TESTNETS_PUBLIC : list byte := [x04; x35; x87; xcf].
Definition VERSION_BYTES_TESTNETS_PRIVATE : list byte := [x04; x35; x83; x94].

Inductive Error :=
| CannotDeriveFromHardenedKey
| MaximumDepthExceeded
| SecpError
| InvalidChildNumber (n : Z)
| InvalidChildNumberFormat
| InvalidDerivationPathFormat
| UnknownVersion (bytes : list byte)
| WrongExtendedKeyLength (len : nat)
| Base58 (e : Base58.Error)
| InvalidPublicKeyHexLength (len : nat)
| InvalidBase58PayloadLength (length : nat).

(** ** Child numbers *)

Inductive ChildNumber :=
| Normal (index : Z)
| Hardened (index : Z).

Definition from_normal_idx (index : Z) : result Error ChildNumber :=
  if Z.land index (Z.shiftl 1 31) =? 0 then Ok (Normal index) else Err (InvalidChildNumber index).
Definition from_hardened_idx (index : Z) : result Error ChildNumber :=
  if Z.land index (Z.shiftl 1 31) =? 0 then Ok (Hardened index) else Err (InvalidChildNumber index).

Definition is_hardened (self : ChildNumber) : bool := match self with Hardened _ => true | Normal _ => false end.
Definition is_normal (self : ChildNumber) : bool := negb (is_hardened self).

(** [None]: the addition overflows. *)
Definition increment (self : ChildNumber) : option (result Error ChildNumber) :=
  match self with
  | Normal idx => if idx + 1 <=? U32_MAX then Some (from_normal_idx (idx + 1)) else None
  | Hardened idx => if idx + 1 <=? U32_MAX then Some (from_hardened_idx (idx + 1)) else None
  end.

(** [From<u32>] and [From<ChildNumber> for u32] *)
Definition from_u32 (number : Z) : ChildNumber :=
  if negb (Z.land number (Z.shiftl 1 31) =? 0) then Hardened (Z.lxor number (Z.shiftl 1 31)) else Normal number.
Definition child_to_u32 (cnum : ChildNumber) : Z :=
  match cnum with Normal index => index | Hardened index => Z.lor index (Z.shiftl 1 31) end.

(** [Display], and with the alternate form. *)
Definition child_fmt (alt : bool) (self : ChildNumber) : list Z :=
  match self with
  | Hardened index => dec index ++ (if alt then str "h" else str "'")
  | Normal index => dec index
  end.

(** [None]: the panic of a slice inside a character. *)
Definition child_from_str (inp : list Z) : option (result Error ChildNumber) :=
  let is_hardened := match last inp with Some l => (l =? 39) || (l =? 104) | None => false end in
  if is_hardened : bool then
    s ← slice_to inp (str_len inp - 1);
    Some (let? n := ok_or (parse_u32 s) InvalidChildNumberFormat in from_hardened_idx n)
  else Some (let? n := ok_or (parse_u32 inp) InvalidChildNumberFormat in from_normal_idx n).

(** ** Derivation paths *)

Definition DerivationPath : Type := list ChildNumber.

Definition path_child (self : DerivationPath) (cn : ChildNumber) : DerivationPath := self ++ [cn].
Definition path_extend (self path : DerivationPath) : DerivationPath := self ++ path.
Definition to_u32_vec (self : DerivationPath) : list Z := map child_to_u32 self.

(** [parts.map(str::parse).collect()]: the first error ends it. *)
Fixpoint parse_parts (parts : list (list Z)) : option (result Error DerivationPath) :=
  match parts with
  | [] => Some (Ok [])
  | p :: parts =>
      r ← child_from_str p;
      match r with
      | Ok c => rest ← parse_parts parts; Some (let? rest := rest in Ok (c :: rest))
      | Err e => Some (Err e)
      end
  end.

Definition strip_prefix (pre s : list Z) : option (list Z) :=
  if bool_decide (take (length pre) s = pre) then Some (drop (length pre) s) else None.

Definition path_from_str (path : list Z) : option (result Error DerivationPath) :=
  if bool_decide (path = []) || bool_decide (path = str "m") || bool_decide (path = str "m/") then Some (Ok [])
  else
    let path := default path (strip_prefix (str "m/") path) in
    parse_parts (str_split 47 path).

Definition path_fmt (alt : bool) (self : DerivationPath) : list Z :=
  match self with
  | [] => []
  | first_element :: iter => child_fmt alt first_element ++ concat (map (λ cn, str "/" ++ child_fmt alt cn) iter)
  end.

(** [DerivationPathIterator]: the next child, and whether there is one more. *)
Record PathIterator := { path_base : DerivationPath; next_child : option ChildNumber }.

Definition start_from (path : DerivationPath) (start : ChildNumber) : PathIterator :=
  {| path_base := path; next_child := Some start |}.

Definition path_next (self : PathIterator) : option (option (DerivationPath * PathIterator)) :=
  match next_child self with
  | None => Some None
  | Some ret =>
      next ← increment ret;
      let next := match next with Ok c => Some c | Err _ => None end in
      Some (Some (path_child (path_base self) ret, {| path_base := path_base self; next_child := next |}))
  end.

Definition Fingerprint : Type := list byte.
Definition KeySource : Type := Fingerprint * DerivationPath.

(** ** Extended keys *)

Section Extended.
Context `{Secp256k1}.

Record Xpriv := {
  xpriv_network : NetworkKind; xpriv_depth : Z; xpriv_parent : Fingerprint; xpriv_child : ChildNumber;
  private_key : SecretKey; xpriv_chain : list byte }.
Record Xpub := {
  xpub_network : NetworkKind; xpub_depth : Z; xpub_parent : Fingerprint; xpub_child : ChildNumber;
  public_key : PublicKey; xpub_chain : list byte }.

Definition slice (bs : list byte) (a b : nat) : list byte := take (b - a) (drop a bs).

Definition to_priv (self : Xpriv) : PrivateKey :=
  {| priv_compressed := true; network := xpriv_network self; secret := private_key self |}.

Definition xpriv_decode (data : list byte) : result Error Xpriv :=
  if negb (length data =? 78)%nat then Err (WrongExtendedKeyLength (length data))
  else
    let? network :=
      (if bool_decide (take 4 data = VERSION_BYTES_MAINNET_PRIVATE) then Ok Main
       else if bool_decide (take 4 data = VERSION_BYTES_TESTNETS_PRIVATE) then Ok Test
       else Err (UnknownVersion (take 4 data))) in
    let? private_key := ok_or (SecretKey_from_slice (slice data 46 78)) SecpError in
    Ok {| xpriv_network := network; xpriv_depth := le_combine (slice data 4 5); xpriv_parent := slice data 5 9;
          xpriv_child := from_u32 (be_combine (slice data 9 13)); private_key := private_key;
          xpriv_chain := slice data 13 45 |}.

Definition xpriv_encode (self : Xpriv) : list byte :=
  (match xpriv_network self with Main => VERSION_BYTES_MAINNET_PRIVATE | Test => VERSION_BYTES_TESTNETS_PRIVATE end)
  ++ [byte.of_Z (xpriv_depth self)] ++ xpriv_parent self ++ be_split 4 (child_to_u32 (xpriv_child self))
  ++ xpriv_chain self ++ [x00] ++ SecretKey_bytes (private_key self).

Definition xpub_decode (data : list byte) : result Error Xpub :=
  if negb (length data =? 78)%nat then Err (WrongExtendedKeyLength (length data))
  else
    let? network :=
      (if bool_decide (take 4 data = VERSION_BYTES_MAINNET_PUBLIC) then Ok Main
       else if bool_decide (take 4 data = VERSION_BYTES_TESTNETS_PUBLIC) then Ok Test
       else Err (UnknownVersion (take 4 data))) in
    let? public_key := ok_or (PublicKey_from_slice (slice data 45 78)) SecpError in
    Ok {| xpub_network := network; xpub_depth := le_combine (slice data 4 5); xpub_parent := slice data 5 9;
          xpub_child := from_u32 (be_combine (slice data 9 13)); public_key := public_key;
          xpub_chain := slice data 13 45 |}.

Definition xpub_encode (self : Xpub) : list byte :=
  (match xpub_network self with Main => VERSION_BYTES_MAINNET_PUBLIC | Test => VERSION_BYTES_TESTNETS_PUBLIC end)
  ++ [byte.of_Z (xpub_depth self)] ++ xpub_parent self ++ be_split 4 (child_to_u32 (xpub_child self))
  ++ xpub_chain self ++ PublicKey_serialize (public_key self).

(** [Display] and [FromStr]; [None] is a panic of the base-58 functions. *)
Definition xpriv_fmt (self : Xpriv) : option (list byte) := encode_check_to_fmt (xpriv_encode self).
Definition xpub_fmt (self : Xpub) : option (list byte) := encode_check_to_fmt (xpub_encode self).

Definition xpriv_from_str (inp : list byte) : option (result Error Xpriv) :=
  data ← decode_check inp;
  Some (let? data := result_map_err Base58 data in
        if negb (length data =? 78)%nat then Err (InvalidBase58PayloadLength (length data)) else xpriv_decode data).
Definition xpub_from_str (inp : list byte) : option (result Error Xpub) :=
  data ← decode_check inp;
  Some (let? data := result_map_err Base58 data in
        if negb (length data =? 78)%nat then Err (InvalidBase58PayloadLength (length data)) else xpub_decode data).

End Extended.

(** ** Child numbers and paths *)

Definition child_wf (c : ChildNumber) : Prop := match c with Normal i | Hardened i => 0 <= i < 2 ^ 31 end.

Lemma high_bit n : 0 <= n < 2 ^ 32 → (Z.land n (Z.shiftl 1 31) =? 0) = (n <? 2 ^ 31).
Proof.
  intros Hn. change (Z.shiftl 1 31) with (2 ^ 31). rewrite land_pow2_bit by lia.
  rewrite Z.testbit_eqb by lia. destruct (Z.ltb_spec n (2 ^ 31)).
  - rewrite Z.div_small by lia. done.
  - replace (n / 2 ^ 31) with 1; [done|]. apply (Z.div_unique _ _ _ (n - 2 ^ 31)); lia.
Qed.

Lemma from_u32_spec n :
  0 <= n < 2 ^ 32 → from_u32 n = if n <? 2 ^ 31 then Normal n else Hardened (n - 2 ^ 31).
Proof.
  intros Hn. unfold from_u32. rewrite high_bit by done. destruct (Z.ltb_spec n (2 ^ 31)); cbn [negb]; [done|]. f_equal.
  change (Z.shiftl 1 31) with (2 ^ 31). rewrite <- (Z.sub_add (2 ^ 31) n) at 1.
  replace (n - 2 ^ 31 + 2 ^ 31) with (Z.lor (Z.shiftl 1 31) (n - 2 ^ 31)).
  2:{ rewrite shiftl_lor_add by (unfold urange; lia). lia. }
  apply Z.bits_inj'. intros k Hk. rewrite Z.lxor_spec, Z.lor_spec. change (Z.shiftl 1 31) with (2 ^ 31).
  rewrite Z.pow2_bits_eqb by lia. destruct (Z.eqb_spec 31 k) as [<-|].
  - rewrite (testbit_above _ 31) by (unfold urange; lia). done.
  - cbn. by rewrite xorb_false_r.
Qed.

Lemma child_to_u32_spec c : child_wf c → child_to_u32 c = match c with Normal i => i | Hardened i => 2 ^ 31 + i end.
Proof.
  destruct c as [i|i]; cbn [child_wf child_to_u32]; [done|]. intros Hi. rewrite Z.lor_comm, shiftl_lor_add by (unfold urange; lia). lia.
Qed.

Lemma child_u32_roundtrip c : child_wf c → 0 <= child_to_u32 c < 2 ^ 32 ∧ from_u32 (child_to_u32 c) = c.
Proof.
  intros Hc. rewrite child_to_u32_spec by done. destruct c as [i|i]; cbn [child_wf] in Hc; (split; [lia|]); rewrite from_u32_spec by lia.
  - destruct (Z.ltb_spec i (2 ^ 31)); [done|lia].
  - destruct (Z.ltb_spec (2 ^ 31 + i) (2 ^ 31)); [lia|]. f_equal. lia.
Qed.

Lemma u32_child_roundtrip n : 0 <= n < 2 ^ 32 → child_wf (from_u32 n) ∧ child_to_u32 (from_u32 n) = n.
Proof.
  intros Hn. rewrite from_u32_spec by done. destruct (Z.ltb_spec n (2 ^ 31)).
  - split; [cbn; lia|done].
  - split; [cbn; lia|]. rewrite child_to_u32_spec by (cbn; lia). lia.
Qed.

(** *** Text *)

Lemma high_bit_clear i : 0 <= i < 2 ^ 31 → (Z.land i (Z.shiftl 1 31) =? 0) = true.
Proof. intros Hi. rewrite high_bit by lia. lia. Qed.

Lemma dec_nonempty i : 0 <= i < 2 ^ 31 → dec i ≠ [].
Proof. intros Hi He. destruct (dec_spec i) as (_ & _ & _ & Hp); [unfold U64_MAX; lia|]. rewrite He in Hp. cbn in Hp. lia. Qed.

Lemma parse_u32_dec i : 0 <= i < 2 ^ 31 → parse_u32 (dec i) = Some i.
Proof.
  intros Hi. destruct (dec_spec i) as (Hd & Hn & _ & Hp); [unfold U64_MAX; lia|]. apply parse_u32_spec. exists (dec i).
  split_and!; [by left|by apply dec_nonempty|done|done|unfold U32_MAX; lia].
Qed.

Definition is_mark (l : Z) : bool := (l =? 39) || (l =? 104).

Lemma last_digit ds l : all_digits ds → last ds = Some l → is_mark l = false.
Proof.
  intros Hd Hl. apply last_Some in Hl as (ds' & ->). apply Forall_app in Hd as [_ Hd]. apply Forall_cons in Hd as [Hd _].
  unfold is_digit in Hd. unfold is_mark. lia.
Qed.

(** A hardened number is its digits and a mark. *)
Lemma child_from_str_mark s l :
  is_mark l = true →
  child_from_str (s ++ [l]) = Some (let? n := ok_or (parse_u32 s) InvalidChildNumberFormat in from_hardened_idx n).
Proof.
  intros Hl. unfold child_from_str. rewrite last_snoc. unfold is_mark in Hl. rewrite Hl.
  rewrite str_len_app. cbn [str_len]. rewrite len_utf8_ascii by lia. rewrite Nat.add_0_r, Nat.add_sub, slice_to_app. done.
Qed.

Lemma child_from_str_plain s :
  match last s with Some l => is_mark l | None => false end = false →
  child_from_str s = Some (let? n := ok_or (parse_u32 s) InvalidChildNumberFormat in from_normal_idx n).
Proof. intros Hs. unfold child_from_str. unfold is_mark in Hs. by rewrite Hs. Qed.

Lemma child_text alt c : child_wf c → child_from_str (child_fmt alt c) = Some (Ok c).
Proof.
  destruct c as [i|i]; cbn [child_wf child_fmt]; intros Hi.
  - rewrite child_from_str_plain.
    + rewrite parse_u32_dec by done. cbn [ok_or result_bind]. unfold from_normal_idx. by rewrite high_bit_clear.
    + destruct (last (dec i)) as [l|] eqn:Hl; [|done]. eapply last_digit; [|exact Hl]. apply dec_spec. unfold U64_MAX. lia.
  - assert (child_from_str (dec i ++ (if alt then str "h" else str "'")) =
      Some (let? n := ok_or (parse_u32 (dec i)) InvalidChildNumberFormat in from_hardened_idx n)) as ->
      by (destruct alt; by apply child_from_str_mark).
    rewrite parse_u32_dec by done. cbn [ok_or result_bind]. unfold from_hardened_idx. by rewrite high_bit_clear.
Qed.

Lemma child_from_str_ok s c :
  child_from_str s = Some (Ok c) →
  child_wf c ∧ ∃ t, parse_u32 t = Some (match c with Normal i | Hardened i => i end) ∧
    s = t ++ (if is_hardened c then default [] ((λ l, [l]) <$> last s) else []).
Proof.
  intros Hs. assert (∃ n, (s = s ∧ c = Normal n ∧ parse_u32 s = Some n ∨ ∃ t l, s = t ++ [l] ∧ c = Hardened n ∧ parse_u32 t = Some n) ∧
    (Z.land n (Z.shiftl 1 31) =? 0) = true) as (n & Hc & Hn).
  { destruct (match last s with Some l => is_mark l | None => false end) eqn:Hm.
    - destruct (last s) as [l|] eqn:Hl; [|done]. apply last_Some in Hl as (t & ->). rewrite child_from_str_mark in Hs by done.
      destruct (parse_u32 t) as [n|] eqn:Hp; [|done]. cbn [ok_or result_bind] in Hs. unfold from_hardened_idx in Hs.
      destruct (Z.land n _ =? 0) eqn:E; [|done]. injection Hs as <-. exists n. split; [right; by exists t, l|done].
    - rewrite child_from_str_plain in Hs by done.
      destruct (parse_u32 s) as [n|] eqn:Hp; [|done]. cbn [ok_or result_bind] in Hs. unfold from_normal_idx in Hs.
      destruct (Z.land n _ =? 0) eqn:E; [|done]. injection Hs as <-. exists n. split; [by left|done]. }
  assert (∀ t, parse_u32 t = Some n → 0 <= n < 2 ^ 31) as Hr.
  { intros t (ds & _ & _ & Hd & Hv & Hle)%parse_u32_spec. pose proof (dnum_bound ds Hd). unfold U32_MAX in Hle.
    rewrite high_bit in Hn by lia. lia. }
  destruct Hc as [(_ & -> & Hp)|(t & l & -> & -> & Hp)]; (split; [by eapply Hr|]).
  - exists s. by rewrite app_nil_r.
  - exists t. rewrite last_snoc. done.
Qed.

Lemma dec_no_slash alt c : child_wf c → Forall (λ x, x ≠ 47) (child_fmt alt c) ∧ child_fmt alt c ≠ [].
Proof.
  assert (∀ i, 0 <= i < 2 ^ 31 → Forall (λ x, x ≠ 47) (dec i) ∧ dec i ≠ []) as Hdec.
  { intros i Hi. destruct (dec_spec i) as (Hd & _ & _ & Hp); [unfold U64_MAX; lia|]. split; [|by apply dec_nonempty].
    eapply Forall_impl; [exact Hd|]. unfold is_digit. cbn. lia. }
  destruct c as [i|i]; cbn [child_wf child_fmt]; intros Hi; [by apply Hdec|]. destruct (Hdec i Hi) as [H1 H2]. split.
  - apply Forall_app_2; [done|]. destruct alt; repeat constructor; done.
  - by destruct (dec i).
Qed.

Lemma path_split alt c path :
  Forall child_wf (c :: path) → str_split 47 (path_fmt alt (c :: path)) = map (child_fmt alt) (c :: path).
Proof.
  revert c. induction path as [|d path IH]; intros c [Hc Hp]%Forall_cons; cbn [path_fmt map concat].
  - rewrite app_nil_r, str_split_no by by apply dec_no_slash. done.
  - change (str "/") with [47]. cbn [app]. rewrite str_split_app by by apply dec_no_slash. f_equal. apply (IH d Hp).
Qed.

Lemma parse_parts_text alt path : Forall child_wf path → parse_parts (map (child_fmt alt) path) = Some (Ok path).
Proof.
  induction 1 as [|c path Hc _ IH]; [done|]. cbn [map parse_parts]. rewrite child_text by done. cbn [mbind option_bind].
  by rewrite IH.
Qed.

Lemma path_first alt c path :
  child_wf c → ∃ d s, path_fmt alt (c :: path) = d :: s ∧ is_digit d = true.
Proof.
  intros Hc. cbn [path_fmt]. assert (∃ d s, child_fmt alt c = d :: s ∧ is_digit d = true) as (d & s & -> & Hd); [|by eexists _, _].
  assert (∀ i t, 0 <= i < 2 ^ 31 → ∃ d s, dec i ++ t = d :: s ∧ is_digit d = true) as Hdec.
  { intros i t Hi. destruct (dec_spec i) as (Hd & _ & _ & Hp); [unfold U64_MAX; lia|]. destruct (dec i) as [|d s]; [cbn in Hp; lia|].
    apply Forall_cons in Hd as [Hd _]. by eexists _, _. }
  destruct c as [i|i]; cbn [child_wf child_fmt] in *; [|by apply Hdec]. rewrite <- (app_nil_r (dec i)). by apply Hdec.
Qed.

Lemma parse_parts_wf parts path : parse_parts parts = Some (Ok path) → Forall child_wf path ∧ length path = length parts.
Proof.
  revert path. induction parts as [|p parts IH]; intros path; cbn [parse_parts]; [intros [= <-]; by split|].
  destruct (child_from_str p) as [[c|e]|] eqn:Hp; [|done..]. cbn [mbind option_bind].
  destruct (parse_parts parts) as [[rest|e]|]; [|done..]. cbn [mbind option_bind result_bind]. intros [= <-].
  destruct (IH rest eq_refl) as [H1 H2]. apply child_from_str_ok in Hp as [Hc _]. split; [by constructor|]. cbn. by rewrite H2.
Qed.

Lemma parse_parts_total parts : is_Some (parse_parts parts).
Proof.
  induction parts as [|p parts [r IH]]; cbn [parse_parts]; [by eexists|].
  assert (is_Some (child_from_str p)) as [[c|e] ->]; [|cbn [mbind option_bind]; rewrite IH; cbn; by eexists|cbn; by eexists].
  destruct (match last p with Some l => is_mark l | None => false end) eqn:Hm; [|rewrite child_from_str_plain by done; by eexists].
  destruct (last p) as [l|] eqn:Hl; [|done]. apply last_Some in Hl as (t & ->). rewrite child_from_str_mark by done. by eexists.
Qed.

(** Derivation paths. Printed in either form, with or without the leading m,
    a path parses to itself; parsing never panics, and gives only child numbers
    whose index is below 2^31, so that they convert to 32-bit numbers and back. *)
Theorem path_text_roundtrip alt path s :
  (Forall child_wf path →
    path_from_str (path_fmt alt path) = Some (Ok path) ∧
    path_from_str (str "m/" ++ path_fmt alt path) = Some (Ok path) ∧
    map from_u32 (to_u32_vec path) = path) ∧
  is_Some (path_from_str s) ∧
  (path_from_str s = Some (Ok path) → Forall child_wf path).
Proof.
  split; [|split].
  - intros Hp. assert (map from_u32 (to_u32_vec path) = path) as Hu.
    { unfold to_u32_vec. rewrite map_map. clear s. induction Hp as [|c path Hc _ IH]; [done|]. cbn [map].
      by rewrite (proj2 (child_u32_roundtrip c Hc)), IH. }
    destruct path as [|c path]; [done|]. pose proof (path_split alt c path Hp) as Hs.
    pose proof (parse_parts_text alt (c :: path) Hp) as Hparse. apply Forall_cons in Hp as [Hc Hp].
    destruct (path_first alt c path Hc) as (d & t & Ht & Hd). rewrite Ht in *.
    assert (d ≠ 109) as Hm by (unfold is_digit in Hd; lia). split_and!; [| |done].
    + unfold path_from_str. rewrite !bool_decide_eq_false_2 by (cbn; congruence). cbn [orb].
      unfold strip_prefix. rewrite bool_decide_eq_false_2 by (cbn; congruence). cbn [default]. unfold id. by rewrite Hs.
    + unfold path_from_str. rewrite !bool_decide_eq_false_2 by (cbn; congruence). cbn [orb].
      unfold strip_prefix. rewrite bool_decide_eq_true_2 by done. cbn [default]. unfold id.
      rewrite drop_app_length, Hs. exact Hparse.
  - unfold path_from_str. destruct (_ || _); [by eexists|]. apply parse_parts_total.
  - unfold path_from_str. destruct (_ || _); [intros [= <-]; constructor|]. intros Hp. by apply parse_parts_wf in Hp as [? _].
Qed.

(** ** Extended keys *)

Lemma slice_step data a b : (a <= b)%nat → drop a data = slice data a b ++ drop b data.
Proof. intros Hab. unfold slice. rewrite <- (take_drop (b - a) (drop a data)) at 1. rewrite drop_drop. do 2 f_equal. lia. Qed.

(** The fields of the 78 bytes. *)
Lemma key_fields data :
  length data = 78%nat →
  data = take 4 data ++ slice data 4 5 ++ slice data 5 9 ++ slice data 9 13 ++ slice data 13 45 ++ slice data 45 78.
Proof.
  intros Hl. rewrite <- (take_drop 4 data) at 1. f_equal. rewrite (slice_step data 4 5), (slice_step data 5 9),
    (slice_step data 9 13), (slice_step data 13 45), (slice_step data 45 78) by lia.
  rewrite (drop_ge data 78) by lia. by rewrite app_nil_r.
Qed.

Lemma slice_at pre x post : slice (pre ++ x ++ post) (length pre) (length pre + length x) = x.
Proof. unfold slice. rewrite drop_app_length. replace (length pre + length x - length pre)%nat with (length x) by lia. apply take_app_length. Qed.

Lemma key_slices v d p c h k :
  length v = 4%nat → length d = 1%nat → length p = 4%nat → length c = 4%nat → length h = 32%nat → length k = 33%nat →
  let data := v ++ d ++ p ++ c ++ h ++ k in
  length data = 78%nat ∧ take 4 data = v ∧ slice data 4 5 = d ∧ slice data 5 9 = p ∧ slice data 9 13 = c ∧
  slice data 13 45 = h ∧ slice data 45 78 = k.
Proof.
  intros Hv Hd Hp Hc Hh Hk data. split_and!.
  - unfold data. rewrite !length_app, Hv, Hd, Hp, Hc, Hh, Hk. done.
  - unfold data. apply take_app_length'. done.
  - replace 5%nat with (length v + length d)%nat by lia. rewrite <- Hv. apply slice_at.
  - pose proof (slice_at (v ++ d) p (c ++ h ++ k)) as H. rewrite length_app, Hv, Hd, Hp, <- app_assoc in H. exact H.
  - pose proof (slice_at (v ++ d ++ p) c (h ++ k)) as H. rewrite !length_app, Hv, Hd, Hp, Hc, <- !app_assoc in H. exact H.
  - pose proof (slice_at (v ++ d ++ p ++ c) h k) as H. rewrite !length_app, Hv, Hd, Hp, Hc, Hh, <- !app_assoc in H. exact H.
  - pose proof (slice_at (v ++ d ++ p ++ c ++ h) k []) as H. rewrite !length_app, Hv, Hd, Hp, Hc, Hh, Hk, app_nil_r, <- !app_assoc in H.
    exact H.
Qed.

Lemma list_insert_at {A} (l r : list A) x y n : length l = n → <[n := y]> (l ++ [x] ++ r) = l ++ y :: r.
Proof. intros <-. rewrite <- (Nat.add_0_r (length l)), insert_app_r. done. Qed.

Section ExtendedLaws.
Context `{Hsecp : Keys.Secp256k1, Hpk : !PublicKeyLaws, Hlaws : !Secp256k1Laws}.

Definition xkey_wf (depth : Z) (parent : Fingerprint) (child : ChildNumber) (chain : list byte) : Prop :=
  urange 8 depth ∧ length parent = 4%nat ∧ child_wf child ∧ length chain = 32%nat.
Definition xpub_wf (k : Xpub) : Prop := xkey_wf (xpub_depth k) (xpub_parent k) (xpub_child k) (xpub_chain k).
Definition xpriv_wf (k : Xpriv) : Prop := xkey_wf (xpriv_depth k) (xpriv_parent k) (xpriv_child k) (xpriv_chain k).

Lemma child_bytes c : child_wf c → from_u32 (be_combine (be_split 4 (child_to_u32 c))) = c.
Proof.
  intros Hc. destruct (child_u32_roundtrip c Hc) as [Hr Hu]. rewrite be_combine_split by (unfold urange; exact Hr). exact Hu.
Qed.

Lemma bytes_child data :
  length data = 4%nat → child_wf (from_u32 (be_combine data)) ∧ be_split 4 (child_to_u32 (from_u32 (be_combine data))) = data.
Proof.
  intros Hl. pose proof (be_combine_range data) as Hr. rewrite Hl in Hr. unfold urange in Hr.
  destruct (u32_child_roundtrip (be_combine data)) as [Hw Hu]; [exact Hr|]. split; [done|]. rewrite Hu. by apply be_split_combine.
Qed.

Lemma xpub_decode_encode k : xpub_wf k → xpub_decode (xpub_encode k) = Ok k.
Proof.
  intros (Hd & Hp & Hc & Hh). unfold xpub_encode.
  assert (length (match xpub_network k with Main => VERSION_BYTES_MAINNET_PUBLIC | Test => VERSION_BYTES_TESTNETS_PUBLIC end) = 4%nat)
    as Hv by by destruct (xpub_network k).
  destruct (key_slices _ [byte.of_Z (xpub_depth k)] (xpub_parent k) (be_split 4 (child_to_u32 (xpub_child k))) (xpub_chain k)
    (PublicKey_serialize (public_key k)) Hv eq_refl Hp (length_be_split _ _) Hh (pk_length _)) as (Hl & H1 & H2 & H3 & H4 & H5 & H6).
  unfold xpub_decode. rewrite Hl, H1, H2, H3, H4, H5, H6. cbn [Nat.eqb negb]. rewrite pk_parse_serialize, child_bytes by done.
  rewrite le_combine_one, byte_of_Z_u by done. by destruct k as [[]].
Qed.

Lemma xpriv_decode_bytes k b :
  xpriv_wf k →
  xpriv_decode ((match xpriv_network k with Main => VERSION_BYTES_MAINNET_PRIVATE | Test => VERSION_BYTES_TESTNETS_PRIVATE end)
    ++ [byte.of_Z (xpriv_depth k)] ++ xpriv_parent k ++ be_split 4 (child_to_u32 (xpriv_child k))
    ++ xpriv_chain k ++ b :: SecretKey_bytes (private_key k)) = Ok k.
Proof.
  intros (Hd & Hp & Hc & Hh).
  assert (length (match xpriv_network k with Main => VERSION_BYTES_MAINNET_PRIVATE | Test => VERSION_BYTES_TESTNETS_PRIVATE end) = 4%nat)
    as Hv by by destruct (xpriv_network k).
  assert (length (b :: SecretKey_bytes (private_key k)) = 33%nat) as Hk by (cbn; by rewrite sk_length).
  destruct (key_slices _ [byte.of_Z (xpriv_depth k)] (xpriv_parent k) (be_split 4 (child_to_u32 (xpriv_child k))) (xpriv_chain k)
    (b :: SecretKey_bytes (private_key k)) Hv eq_refl Hp (length_be_split _ _) Hh Hk) as (Hl & H1 & H2 & H3 & H4 & H5 & H6).
  set (data := _ ++ _) in *. assert (slice data 46 78 = SecretKey_bytes (private_key k)) as H7.
  { unfold slice in *. apply (f_equal (drop 1)) in H6. cbn [drop] in H6. rewrite drop_0 in H6. rewrite <- H6.
    change (78 - 45)%nat with (1 + 32)%nat. rewrite <- take_drop_commute, drop_drop. done. }
  unfold xpriv_decode. rewrite Hl, H1, H2, H3, H4, H5, H7. cbn [Nat.eqb negb]. rewrite sk_parse, child_bytes by done.
  rewrite le_combine_one, byte_of_Z_u by done. clear. by destruct k as [[]].
Qed.

Lemma version_of (main test : list byte) data n e :
  (if bool_decide (take 4 data = main) then Ok Main else if bool_decide (take 4 data = test) then Ok Test else Err e) = (Ok n : result Error _) →
  take 4 data = match n with Main => main | Test => test end.
Proof. repeat case_bool_decide; by intros [= <-]. Qed.

Lemma depth_byte data : length data = 78%nat → urange 8 (le_combine (slice data 4 5)) ∧ [byte.of_Z (le_combine (slice data 4 5))] = slice data 4 5.
Proof.
  intros Hl. assert (length (slice data 4 5) = 1%nat) as Hs by (unfold slice; rewrite length_take, length_drop; lia).
  destruct (slice data 4 5) as [|b [|]]; [done| |done]. rewrite le_combine_one, byte.of_Z_unsigned. split; [apply urange_byte|done].
Qed.

Lemma slice_length data a b : length data = 78%nat → (a <= b <= 78)%nat → length (slice data a b) = (b - a)%nat.
Proof. intros Hl Hab. unfold slice. rewrite length_take, length_drop. lia. Qed.

Lemma xpub_encode_decode data k : xpub_decode data = Ok k → xpub_wf k ∧ xpub_encode k = data.
Proof.
  unfold xpub_decode. destruct (Nat.eqb_spec (length data) 78) as [Hl|]; [|done]. cbn [negb].
  destruct (if bool_decide (take 4 data = VERSION_BYTES_MAINNET_PUBLIC) then _ else _) as [n|] eqn:Hv; [|done].
  apply version_of in Hv. cbn [result_bind]. destruct (PublicKey_from_slice (slice data 45 78)) as [pk|] eqn:Hk; [|done].
  cbn [ok_or result_bind]. intros [= <-]. destruct (bytes_child (slice data 9 13)) as [Hc Hcb]; [apply slice_length; lia|].
  destruct (depth_byte data Hl) as [Hd Hdb]. split.
  - split_and!; [done|apply slice_length; lia|done|apply slice_length; lia].
  - unfold xpub_encode. cbn [xpub_network xpub_depth xpub_parent xpub_child public_key xpub_chain].
    rewrite <- Hv, Hdb, Hcb, (pk_serialize_parse _ _ (slice_length data 45 78 Hl ltac:(lia)) Hk). symmetry. by apply key_fields.
Qed.

Lemma xpriv_encode_decode data k :
  xpriv_decode data = Ok k → xpriv_wf k ∧ xpriv_encode k = take 45 data ++ x00 :: drop 46 data ∧ length data = 78%nat.
Proof.
  unfold xpriv_decode. destruct (Nat.eqb_spec (length data) 78) as [Hl|]; [|done]. cbn [negb].
  destruct (if bool_decide (take 4 data = VERSION_BYTES_MAINNET_PRIVATE) then _ else _) as [n|] eqn:Hv; [|done].
  apply version_of in Hv. cbn [result_bind]. destruct (SecretKey_from_slice (slice data 46 78)) as [sk|] eqn:Hk; [|done].
  cbn [ok_or result_bind]. intros [= <-]. destruct (bytes_child (slice data 9 13)) as [Hc Hcb]; [apply slice_length; lia|].
  destruct (depth_byte data Hl) as [Hd Hdb]. split; [|split; [|exact Hl]].
  - split_and!; [done|apply slice_length; lia|done|apply slice_length; lia].
  - unfold xpriv_encode. cbn [xpriv_network xpriv_depth xpriv_parent xpriv_child private_key xpriv_chain].
    rewrite <- Hv, Hdb, Hcb, (sk_only _ _ (slice_length data 46 78 Hl ltac:(lia)) Hk).
    assert (drop 46 data = slice data 46 78) as -> by (unfold slice; rewrite take_ge; [done|rewrite length_drop; lia]).
    assert (take 45 data = take 4 data ++ slice data 4 5 ++ slice data 5 9 ++ slice data 9 13 ++ slice data 13 45) as ->.
    { pose proof (key_fields data Hl) as Hf. rewrite !app_assoc in Hf. rewrite !app_assoc. rewrite Hf at 1. apply take_app_length'.
      rewrite !length_app, !slice_length, length_take by lia. lia. }
    rewrite <- !app_assoc. done.
Qed.

(** The serialised forms of extended keys. Public and private keys decode from
    their 78 bytes and from their base-58 text. The bytes of a public key are the only
    ones that decode to it; those of a private key are, up to the byte before the
    secret, which must be zero but is not looked at. *)
Theorem extended_key_codecs (pub : Xpub) (priv : Xpriv) data b :
  (xpub_wf pub → xpub_decode (xpub_encode pub) = Ok pub ∧
     ∃ s, xpub_fmt pub = Some s ∧ xpub_from_str s = Some (Ok pub)) ∧
  (xpub_decode data = Ok pub → xpub_wf pub ∧ xpub_encode pub = data) ∧
  (xpriv_wf priv → xpriv_decode (xpriv_encode priv) = Ok priv ∧
     xpriv_decode (<[45%nat := b]> (xpriv_encode priv)) = Ok priv ∧
     ∃ s, xpriv_fmt priv = Some s ∧ xpriv_from_str s = Some (Ok priv)) ∧
  (xpriv_decode data = Ok priv → xpriv_wf priv ∧ xpriv_encode priv = take 45 data ++ x00 :: drop 46 data).
Proof.
  split_and!.
  - intros Hwf. split; [by apply xpub_decode_encode|]. destruct (encode_check_decodes (xpub_encode pub)) as (s & He & Hd).
    exists s. split; [exact He|]. unfold xpub_from_str. rewrite Hd. cbn [mbind option_bind result_map_err result_bind].
    pose proof (xpub_decode_encode _ Hwf) as Hdec. unfold xpub_decode in Hdec. destruct (negb _) eqn:E; [done|].
    f_equal. by apply xpub_decode_encode.
  - apply xpub_encode_decode.
  - intros Hwf. pose proof (xpriv_decode_bytes priv x00 Hwf) as H0. pose proof (xpriv_decode_bytes priv b Hwf) as Hb.
    change (xpriv_decode (xpriv_encode priv) = Ok priv) in H0. split_and!; [done| |].
    + rewrite <- Hb. f_equal. destruct Hwf as (Hd & Hp & Hc & Hh). unfold xpriv_encode.
      assert (length (match xpriv_network priv with Main => VERSION_BYTES_MAINNET_PRIVATE | Test => VERSION_BYTES_TESTNETS_PRIVATE end) = 4%nat)
        as Hv by by destruct (xpriv_network priv).
      rewrite !app_assoc. rewrite <- (app_assoc _ [x00]). apply list_insert_at.
      rewrite !length_app, Hv, Hp, Hh, length_be_split. done.
    + destruct (encode_check_decodes (xpriv_encode priv)) as (s & He & Hd).
      exists s. split; [exact He|]. unfold xpriv_from_str. rewrite Hd. cbn [mbind option_bind result_map_err result_bind].
      pose proof H0 as Hdec. unfold xpriv_decode in Hdec. destruct (negb _) eqn:E; [done|]. by f_equal.
  - intros Hd. apply xpriv_encode_decode in Hd as (? & ? & _). done.
Qed.
End ExtendedLaws.

(** ** Examples *)

#[local] Existing Instances PlainSecp.plain_keys PlainSecp.plain_keys_laws PlainSecp.plain_secp PlainSecp.plain_secp_laws.

Lemma path_text_roundtrip_witness :
  path_from_str (str "m/84'/0'/1") = Some (Ok [Hardened 84; Hardened 0; Normal 1]) ∧
  path_fmt true [Hardened 84; Hardened 0; Normal 1] = str "84h/0h/1".
Proof.
  split; [|reflexivity].
  apply (proj1 (path_text_roundtrip false [Hardened 84; Hardened 0; Normal 1] [])).
  repeat constructor; cbn; lia.
Defined.

Definition sample_xpriv : Xpriv :=
  {| xpriv_network := Main; xpriv_depth := 3; xpriv_parent := [x01; x02; x03; x04]; xpriv_child := Hardened 7;
     private_key := PlainSecp.repeated 32 x09; xpriv_chain := replicate 32 x0a |}.
Definition sample_xpub : Xpub :=
  {| xpub_network := Main; xpub_depth := 3; xpub_parent := [x01; x02; x03; x04]; xpub_child := Normal 7;
     public_key := (true, PlainSecp.repeated 32 x09) : PublicKey; xpub_chain := replicate 32 x0a |}.

Lemma extended_key_codecs_witness :
  xpub_decode (xpub_encode sample_xpub) = Ok sample_xpub ∧
  xpriv_decode (<[45%nat := x01]> (xpriv_encode sample_xpriv)) = Ok sample_xpriv.
Proof.
  destruct (extended_key_codecs sample_xpub sample_xpriv [] x01) as (H1 & _ & H2 & _). split.
  - apply H1. unfold xpub_wf, xpriv_wf, xkey_wf, urange. split_and!; first [reflexivity | cbn; lia].
  - apply H2. unfold xpub_wf, xpriv_wf, xkey_wf, urange. split_and!; first [reflexivity | cbn; lia].
Defined.
