(* ===== verification/Derive.v ===== *)
(** The derivation of extended keys ([src/litecoin/src/bip32.rs]): master keys, children of
    private and of public keys, paths, identifiers and fingerprints. *)

From Stdlib Require Import String ZArith Lia ZifyBool.
From stdpp Require Import base list.
From Stdlib Require Import Init.Byte.
From coqutil Require Import Byte Word.LittleEndianList.
From S2P Require Import Prelude Io Ordered HashEngine Sha256 Hashes Encode Mimblewimble Text Base58 Sighash Keys Bip32.

(** ** The library

    The group: the public key of a secret key, and adding a secret key, taken as a number,
    to a secret key or, as a multiple of the generator, to a public key. *)
Class KeyArith `{Secp256k1} := {
  public_key_of : SecretKey → PublicKey;
  secret_negate : SecretKey → SecretKey;
  secret_add_tweak : SecretKey → SecretKey → option SecretKey;
  public_add_exp_tweak : PublicKey → SecretKey → option PublicKey }.

(** Documented: both sums fail exactly when they are zero, and the public key of a sum is the
    sum with the public key. *)
Class KeyArithLaws `{KeyArith} : Prop := {
  add_tweak_public tweak k :
    public_add_exp_tweak (public_key_of k) tweak = option_map public_key_of (secret_add_tweak tweak k) }.

Section Derive.
Context `{Secp256k1, !KeyArith}.

(** ** Master keys *)

(** [HmacEngine::new], [input] for each piece, [Hmac::from_engine]; [None] is the panic of
    the constructor. *)
Definition hmac_sha512 (key : list byte) (pieces : list (list byte)) : option (list byte) :=
  e ← hmac_new (H := sha512_fn) key; Some (hmac_from_engine (foldl hmac_input e pieces)).

(** [from_hmac] *)
Definition chain_code_from_hmac (hmac : list byte) : list byte := drop 32 hmac.

Definition BITCOIN_SEED : list byte := String.list_byte_of_string "Bitcoin seed".

Definition new_master (network : NetworkKind) (seed : list byte) : option (result Error Xpriv) :=
  hmac_result ← hmac_sha512 BITCOIN_SEED [seed];
  Some (let? child_number := from_normal_idx 0 in
        let? private_key := ok_or (SecretKey_from_slice (take 32 hmac_result)) SecpError in
        Ok {| xpriv_network := network; xpriv_depth := 0; xpriv_parent := replicate 4 x00; xpriv_child := child_number;
              private_key := private_key; xpriv_chain := chain_code_from_hmac hmac_result |}).

(** ** Identifiers *)

Definition xpub_identifier (self : Xpub) : list byte :=
  hash160_from_engine (HashEngine.input engine_default (PublicKey_serialize (public_key self))).
Definition xpub_fingerprint (self : Xpub) : Fingerprint := take 4 (xpub_identifier self).

Definition from_priv (sk : Xpriv) : Xpub :=
  {| xpub_network := xpriv_network sk; xpub_depth := xpriv_depth sk; xpub_parent := xpriv_parent sk; xpub_child := xpriv_child sk;
     public_key := public_key_of (private_key sk); xpub_chain := xpriv_chain sk |}.

Definition xpriv_identifier (self : Xpriv) : list byte := xpub_identifier (from_priv self).
Definition xpriv_fingerprint (self : Xpriv) : Fingerprint := take 4 (xpriv_identifier self).

(** ** Private children *)

Definition checked_depth (depth : Z) : result Error Z := if depth + 1 <=? 255 then Ok (depth + 1) else Err MaximumDepthExceeded.

(** [None]: the panics of [expect]. *)
Definition ckd_priv (self : Xpriv) (i : ChildNumber) : option (result Error Xpriv) :=
  let data :=
    match i with
    | Normal _ => [PublicKey_serialize (public_key_of (private_key self))]
    | Hardened _ => [[x00]; SecretKey_bytes (private_key self)]
    end in
  hmac_result ← hmac_sha512 (xpriv_chain self) (data ++ [be_split 4 (child_to_u32 i)]);
  sk ← SecretKey_from_slice (take 32 hmac_result);
  tweaked ← secret_add_tweak sk (private_key self);
  Some (let? depth := checked_depth (xpriv_depth self) in
        Ok {| xpriv_network := xpriv_network self; xpriv_depth := depth; xpriv_parent := xpriv_fingerprint self; xpriv_child := i;
              private_key := tweaked; xpriv_chain := chain_code_from_hmac hmac_result |}).

Fixpoint derive_priv (self : Xpriv) (path : DerivationPath) : option (result Error Xpriv) :=
  match path with
  | [] => Some (Ok self)
  | cnum :: path =>
      sk ← ckd_priv self cnum;
      match sk with Ok sk => derive_priv sk path | Err e => Some (Err e) end
  end.

(** ** Public children *)

Definition ckd_pub_tweak (self : Xpub) (i : ChildNumber) : option (result Error (SecretKey * list byte)) :=
  match i with
  | Hardened _ => Some (Err CannotDeriveFromHardenedKey)
  | Normal n =>
      hmac_result ← hmac_sha512 (xpub_chain self) [PublicKey_serialize (public_key self); be_split 4 n];
      Some (let? private_key := ok_or (SecretKey_from_slice (take 32 hmac_result)) SecpError in
            Ok (private_key, chain_code_from_hmac hmac_result))
  end.

Definition ckd_pub (self : Xpub) (i : ChildNumber) : option (result Error Xpub) :=
  tweak ← ckd_pub_tweak self i;
  Some (let? (sk, chain_code) := tweak in
        let? tweaked := ok_or (public_add_exp_tweak (public_key self) sk) SecpError in
        let? depth := checked_depth (xpub_depth self) in
        Ok {| xpub_network := xpub_network self; xpub_depth := depth; xpub_parent := xpub_fingerprint self; xpub_child := i;
              public_key := tweaked; xpub_chain := chain_code |}).

Fixpoint derive_pub (self : Xpub) (path : DerivationPath) : option (result Error Xpub) :=
  match path with
  | [] => Some (Ok self)
  | cnum :: path =>
      pk ← ckd_pub self cnum;
      match pk with Ok pk => derive_pub pk path | Err e => Some (Err e) end
  end.
End Derive.

(** ** What is hashed *)

(** HMAC-SHA512 of RFC 2104. *)
Definition hmac512 (key m : list byte) : list byte := hmac_spec (H := sha512_fn) key m.

Lemma hmac_sha512_eq key pieces : hmac_sha512 key pieces = Some (hmac512 key (concat pieces)).
Proof. apply hmac_engine_spec; try done. rewrite fn_hash_sha512, length_sha512. done. Qed.

Lemma length_hmac512 key m : length (hmac512 key m) = 64%nat.
Proof. unfold hmac512, hmac_spec. rewrite fn_hash_sha512. apply length_sha512. Qed.

Section DeriveLaws.
Context `{Secp256k1, !KeyArith, !KeyArithLaws}.

(** The children of BIP 32: of the data, the left half is added to the key and the right half is the chain code. *)
Definition child_data (self : Xpriv) (i : ChildNumber) : list byte :=
  match i with
  | Normal _ => PublicKey_serialize (public_key_of (private_key self))
  | Hardened _ => x00 :: SecretKey_bytes (private_key self)
  end ++ be_split 4 (child_to_u32 i).

Lemma ckd_priv_eq self i :
  ckd_priv self i =
  (let I := hmac512 (xpriv_chain self) (child_data self i) in
   sk ← SecretKey_from_slice (take 32 I);
   tweaked ← secret_add_tweak sk (private_key self);
   Some (let? depth := checked_depth (xpriv_depth self) in
         Ok {| xpriv_network := xpriv_network self; xpriv_depth := depth; xpriv_parent := xpriv_fingerprint self; xpriv_child := i;
               private_key := tweaked; xpriv_chain := drop 32 I |})).
Proof.
  unfold ckd_priv. rewrite hmac_sha512_eq. cbn [mbind option_bind].
  assert (concat ((match i with Normal _ => [PublicKey_serialize (public_key_of (private_key self))]
                   | Hardened _ => [[x00]; SecretKey_bytes (private_key self)] end) ++ [be_split 4 (child_to_u32 i)])
          = child_data self i) as ->; [|done].
  unfold child_data. destruct i; cbn; by rewrite ?app_nil_r.
Qed.

Lemma ckd_pub_eq self n :
  ckd_pub self (Normal n) =
  (let I := hmac512 (xpub_chain self) (PublicKey_serialize (public_key self) ++ be_split 4 n) in
   Some (let? sk := ok_or (SecretKey_from_slice (take 32 I)) SecpError in
         let? tweaked := ok_or (public_add_exp_tweak (public_key self) sk) SecpError in
         let? depth := checked_depth (xpub_depth self) in
         Ok {| xpub_network := xpub_network self; xpub_depth := depth; xpub_parent := xpub_fingerprint self; xpub_child := Normal n;
               public_key := tweaked; xpub_chain := drop 32 I |})).
Proof.
  unfold ckd_pub, ckd_pub_tweak. rewrite hmac_sha512_eq. cbn [concat]. rewrite app_nil_r. cbn [mbind option_bind].
  by destruct (SecretKey_from_slice _).
Qed.

(** A normal child of the public key is the public key of the child. *)
Lemma ckd_commutes self n :
  match ckd_priv self (Normal n) with
  | Some r => ckd_pub (from_priv self) (Normal n) = Some (result_map from_priv r)
  | None => ckd_pub (from_priv self) (Normal n) = Some (Err SecpError)
  end.
Proof.
  rewrite ckd_priv_eq, ckd_pub_eq. cbv zeta. unfold child_data.
  change (public_key (from_priv self)) with (public_key_of (private_key self)). cbn [child_to_u32].
  change (xpub_chain (from_priv self)) with (xpriv_chain self).
  set (I := hmac512 _ _). destruct (SecretKey_from_slice (take 32 I)) as [sk|]; [|done]. cbn [ok_or result_bind mbind option_bind].
  rewrite add_tweak_public. destruct (secret_add_tweak sk (private_key self)) as [t|]; [|done].
  cbn [option_map ok_or result_bind mbind option_bind]. change (xpub_depth (from_priv self)) with (xpriv_depth self).
  by destruct (checked_depth (xpriv_depth self)).
Qed.

Lemma derive_priv_app self p q :
  derive_priv self (p ++ q) = (r ← derive_priv self p; match r with Ok k => derive_priv k q | Err e => Some (Err e) end).
Proof.
  revert self. induction p as [|c p IH]; intros self; [done|]. cbn [app derive_priv].
  destruct (ckd_priv self c) as [[k|e]|]; cbn [mbind option_bind]; [apply IH|done|done].
Qed.

Lemma derive_pub_app self p q :
  derive_pub self (p ++ q) = (r ← derive_pub self p; match r with Ok k => derive_pub k q | Err e => Some (Err e) end).
Proof.
  revert self. induction p as [|c p IH]; intros self; [done|]. cbn [app derive_pub].
  destruct (ckd_pub self c) as [[k|e]|]; cbn [mbind option_bind]; [apply IH|done|done].
Qed.

Lemma checked_depth_ok d d' : checked_depth d = Ok d' → d' = d + 1 ∧ d + 1 <= 255.
Proof. unfold checked_depth. destruct (Z.leb_spec (d + 1) 255); [by intros [= <-]|done]. Qed.

(** A child is well formed, so that it can be written and read back. *)
Lemma ckd_priv_wf self i k : xpriv_wf self → child_wf i → ckd_priv self i = Some (Ok k) → xpriv_wf k ∧ xpriv_depth k = xpriv_depth self + 1.
Proof.
  intros (Hd & _) Hi. rewrite ckd_priv_eq. cbv zeta.
  pose proof (length_hmac512 (xpriv_chain self) (child_data self i)) as Hh.
  destruct (SecretKey_from_slice _); [|done]. cbn [mbind option_bind]. destruct (secret_add_tweak _ _); [|done]. cbn [mbind option_bind].
  destruct (checked_depth _) as [d|] eqn:Hc; [|done]. intros [= <-]. apply checked_depth_ok in Hc as [-> Hc].
  split; [|done]. unfold xpriv_wf, xkey_wf. cbn [xpriv_depth xpriv_parent xpriv_child xpriv_chain]. unfold urange in *. split_and!; [lia|lia| |done|].
  - unfold xpriv_fingerprint, xpriv_identifier, xpub_identifier. rewrite length_take. fold (hash160 (PublicKey_serialize (public_key (from_priv self)))).
    rewrite length_hash160. done.
  - rewrite length_drop, Hh. done.
Qed.

Lemma derive_priv_wf self path k :
  xpriv_wf self → Forall child_wf path → derive_priv self path = Some (Ok k) → xpriv_wf k ∧ xpriv_depth k = xpriv_depth self + Z.of_nat (length path).
Proof.
  revert self. induction path as [|c path IH]; intros self Hw Hp; cbn [derive_priv]; [intros [= <-]; split; [done|cbn; lia]|].
  apply Forall_cons in Hp as [Hc Hp]. destruct (ckd_priv self c) as [[k'|e]|] eqn:Hk; cbn [mbind option_bind]; [|done|done].
  intros Hd. destruct (ckd_priv_wf self c k' Hw Hc Hk) as [Hw' Hd']. apply IH in Hd as [H1' H2']; [|done|done]. split; [done|].
  cbn [length]. lia.
Qed.

(** C23: along a path without hardened children, deriving the public key of a private key gives
    the public key of the derived one, and fails with the same error; where the private side
    panics, on a hash that is not a key or a sum that is zero, the public one reports an error
    of the library. A hardened child of a public key is refused. *)
Theorem derive_commutes (sk : Xpriv) (path : DerivationPath) :
  (Forall (λ c, is_hardened c = false) path →
   match derive_priv sk path with
   | Some r => derive_pub (from_priv sk) path = Some (result_map from_priv r)
   | None => derive_pub (from_priv sk) path = Some (Err SecpError)
   end) ∧
  (∀ xpub n, ckd_pub xpub (Hardened n) = Some (Err CannotDeriveFromHardenedKey)).
Proof.
  split; [|done]. revert sk. induction path as [|c path IH]; intros sk Hp; [done|]. apply Forall_cons in Hp as [Hc Hp].
  destruct c as [n|n]; [|done]. pose proof (ckd_commutes sk n) as Hk. cbn [derive_priv derive_pub].
  destruct (ckd_priv sk (Normal n)) as [[k|e]|]; cbn [mbind option_bind]; rewrite Hk; cbn [mbind option_bind result_map result_bind]; [|done|done].
  by apply IH.
Qed.

(** A child is the one of BIP 32: HMAC-SHA512 under the chain code of the parent key, public
    or, for a hardened child, private with a zero byte, and of the number; the left half is added
    to the key and the right half is the new chain code; the child records the fingerprint of its
    parent, its number and one more level, and the 256th level is an error. Paths compose, and
    what is derived is well formed, so that its serialised form is read back. *)
Theorem derivation_spec (self : Xpriv) (i : ChildNumber) (p q : DerivationPath) :
  ckd_priv self i =
  (let I := hmac512 (xpriv_chain self) (child_data self i) in
   sk ← SecretKey_from_slice (take 32 I);
   tweaked ← secret_add_tweak sk (private_key self);
   Some (if xpriv_depth self <? 255
         then Ok {| xpriv_network := xpriv_network self; xpriv_depth := xpriv_depth self + 1;
                    xpriv_parent := take 4 (hash160 (PublicKey_serialize (public_key_of (private_key self)))); xpriv_child := i;
                    private_key := tweaked; xpriv_chain := drop 32 I |}
         else Err MaximumDepthExceeded)) ∧
  derive_priv self (p ++ q) = (r ← derive_priv self p; match r with Ok k => derive_priv k q | Err e => Some (Err e) end) ∧
  (∀ k, xpriv_wf self → Forall child_wf p → derive_priv self p = Some (Ok k) →
     xpriv_wf k ∧ xpriv_depth k = xpriv_depth self + Z.of_nat (length p)).
Proof.
  split_and!; [|apply derive_priv_app|intros k; by apply derive_priv_wf].
  rewrite ckd_priv_eq. cbv zeta. destruct (SecretKey_from_slice _) as [sk|]; [|done]. cbn [mbind option_bind].
  destruct (secret_add_tweak sk _); [|done]. cbn [mbind option_bind]. unfold checked_depth.
  destruct (Z.leb_spec (xpriv_depth self + 1) 255), (Z.ltb_spec (xpriv_depth self) 255); try lia; reflexivity.
Qed.
End DeriveLaws.

(** Keys whose sum is bit by bit. *)
Module PlainArith.
Definition xor_fixed (a b : PlainSecp.fixed 32) : option (PlainSecp.fixed 32) :=
  PlainSecp.to_fixed 32 (zip_with byte_xor (proj1_sig a) (proj1_sig b)).
#[export] Instance arith : KeyArith (H0 := PlainSecp.plain_secp) := {
  public_key_of (sk : PlainSecp.fixed 32) := (false, sk);
  secret_negate sk := sk;
  secret_add_tweak tweak sk := xor_fixed tweak sk;
  public_add_exp_tweak '(odd, x) tweak := y ← xor_fixed tweak x; Some (odd, y) }.
#[export] Instance arith_laws : KeyArithLaws (H0 := PlainSecp.plain_secp).
Proof. split. intros tweak k. cbn. by destruct (xor_fixed tweak k). Qed.
End PlainArith.

#[local] Existing Instances PlainSecp.plain_keys PlainSecp.plain_secp PlainArith.arith PlainArith.arith_laws.

Definition sample_master : Xpriv :=
  {| xpriv_network := Main; xpriv_depth := 0; xpriv_parent := replicate 4 x00; xpriv_child := Normal 0;
     private_key := PlainSecp.repeated 32 x07; xpriv_chain := replicate 32 x01 |}.

Lemma derives_check : match derive_priv sample_master [Hardened 44; Normal 2] with Some (Ok _) => true | _ => false end = true.
Proof. vm_compute. reflexivity. Qed.

Lemma derives_normal_check : match derive_priv sample_master [Normal 1] with Some (Ok _) => true | _ => false end = true.
Proof. vm_compute. reflexivity. Qed.

Lemma sample_master_wf : xpriv_wf sample_master.
Proof. unfold xpriv_wf, xkey_wf, urange. cbn. split_and!; try reflexivity; lia. Qed.

Lemma derive_commutes_witness :
  ∃ k, derive_pub (from_priv sample_master) [Normal 1] = Some (Ok (from_priv k)).
Proof.
  assert (Forall (λ c, is_hardened c = false) [Normal 1]) as Hn by (constructor; [reflexivity|constructor]).
  pose proof (proj1 (derive_commutes sample_master [Normal 1]) Hn) as Hd.
  pose proof derives_normal_check as Hs. revert Hd Hs. generalize (derive_pub (from_priv sample_master) [Normal 1]).
  destruct (derive_priv sample_master [Normal 1]) as [[k|e]|]; intros o Hd Hs; [|discriminate Hs..]. exists k. exact Hd.
Defined.

Lemma derivation_spec_witness :
  match derive_priv sample_master [Hardened 44; Normal 2] with Some (Ok k) => xpriv_depth k = 2 | _ => False end.
Proof.
  destruct (derivation_spec sample_master (Normal 0) [Hardened 44; Normal 2] []) as (_ & _ & Hw).
  assert (Forall child_wf [Hardened 44; Normal 2]) as Hp by (repeat constructor; cbn; lia).
  pose proof derives_check as Hs. revert Hw Hs.
  destruct (derive_priv sample_master [Hardened 44; Normal 2]) as [[k|e]|]; intros Hw Hs; [|discriminate Hs..].
  destruct (Hw k sample_master_wf Hp eq_refl) as [_ Hd]. exact Hd.
Defined.
