(* ===== verification/Network.v ===== *)
(** Networks ([src/litecoin/src/network.rs]), their magic bytes ([p2p/mod.rs], [Magic]), the
    constants of the chain and the genesis blocks ([blockdata/constants.rs]). *)

From S2P Require Import Witness.
From Stdlib Require Import String ZArith Lia.
From stdpp Require Import base list strings.
From Stdlib Require Import Init.Byte.
From coqutil Require Import Byte Word.LittleEndianList.
From S2P Require Import Prelude Io HashEngine Sha256 Encode Mimblewimble Locktime Pow Opcodes Script Transaction Block Keys.

#[export] Instance network_eq_dec : EqDecision Network.
Proof. solve_decision. Defined.

Definition all_networks : list Network := [Bitcoin; Testnet4; Signet; Regtest].

Lemma all_networks_spec n : n ∈ all_networks.
Proof. destruct n; repeat constructor. Qed.

(** [impl From<Network> for NetworkKind] *)
Definition network_kind (n : Network) : NetworkKind :=
  match n with Bitcoin => Main | Testnet4 | Signet | Regtest => Test end.

(** ** Names *)

Definition to_core_arg (self : Network) : string :=
  match self with Bitcoin => "main" | Testnet4 => "test" | Signet => "signet" | Regtest => "regtest" end.

Inductive ParseNetworkError := UnknownNetwork (s : string).

Definition from_core_arg (core_arg : string) : result ParseNetworkError Network :=
  if bool_decide (core_arg = "main") then Ok Bitcoin
  else if bool_decide (core_arg ∈ ["test"; "testnet4"]) then Ok Testnet4
  else if bool_decide (core_arg = "signet") then Ok Signet
  else if bool_decide (core_arg = "regtest") then Ok Regtest
  else Err (UnknownNetwork core_arg).

Definition as_display_str (self : Network) : string :=
  match self with Bitcoin => "litecoin" | Testnet4 => "testnet" | Signet => "signet" | Regtest => "regtest" end.

(** [impl FromStr for Network] *)
Definition network_from_str (s : string) : result ParseNetworkError Network :=
  if bool_decide (s ∈ ["litecoin"; "bitcoin"]) then Ok Bitcoin
  else if bool_decide (s ∈ ["testnet"; "testnet4"]) then Ok Testnet4
  else if bool_decide (s = "signet") then Ok Signet
  else if bool_decide (s = "regtest") then Ok Regtest
  else Err (UnknownNetwork s).

(** ** Magic bytes *)

Module Magic.

Definition BITCOIN : list byte := [xfb; xc0; xb6; xdb].
Definition TESTNET4 : list byte := [xfd; xd2; xc8; xf1].
Definition SIGNET : list byte := [x0a; x03; xcf; x40].
Definition REGTEST : list byte := [xfa; xbf; xb5; xda].

(** [impl From<Network> for Magic] *)
Definition of_network (n : Network) : list byte :=
  match n with Bitcoin => BITCOIN | Testnet4 => TESTNET4 | Signet => SIGNET | Regtest => REGTEST end.

Inductive UnknownMagicError := UnknownMagic (magic : list byte).

(** [impl TryFrom<Magic> for Network] *)
Definition to_network (magic : list byte) : result UnknownMagicError Network :=
  if bool_decide (magic = BITCOIN) then Ok Bitcoin
  else if bool_decide (magic = TESTNET4) then Ok Testnet4
  else if bool_decide (magic = SIGNET) then Ok Signet
  else if bool_decide (magic = REGTEST) then Ok Regtest
  else Err (UnknownMagic magic).

Definition from_params (params : Params.Params) : list byte := of_network (Params.network params).

Definition magic_codec : codec (list byte) := array 4.

End Magic.

(** ** Chain hashes *)

Module ChainHash.

Definition bytes_of (l : list Z) : list byte := map byte.of_Z l.

Definition BITCOIN : list byte := bytes_of [
  0xe2; 0xbf; 0x04; 0x7e; 0x7e; 0x5a; 0x19; 0x1a; 0xa4; 0xef; 0x34; 0xd3; 0x14; 0x97; 0x9d; 0xc9;
  0x98; 0x6e; 0x0f; 0x19; 0x25; 0x1e; 0xda; 0xba; 0x59; 0x40; 0xfd; 0x1f; 0xe3; 0x65; 0xa7; 0x12].
Definition TESTNET4 : list byte := bytes_of [
  0xa0; 0x29; 0x3e; 0x4e; 0xeb; 0x3d; 0xa6; 0xe6; 0xf5; 0x6f; 0x81; 0xed; 0x59; 0x5f; 0x57; 0x88;
  0x0d; 0x1a; 0x21; 0x56; 0x9e; 0x13; 0xee; 0xfd; 0xd9; 0x51; 0x28; 0x4b; 0x5a; 0x62; 0x66; 0x49].
Definition SIGNET : list byte := bytes_of [
  246; 30; 238; 59; 99; 163; 128; 164; 119; 160; 99; 175; 50; 178; 187; 201; 124; 159; 249;
  240; 31; 44; 66; 37; 233; 115; 152; 129; 8; 0; 0; 0].
Definition REGTEST : list byte := bytes_of [
  0xf9; 0x16; 0xc4; 0x56; 0xfc; 0x51; 0xdf; 0x62; 0x78; 0x85; 0xd7; 0xd6; 0x74; 0xed; 0x02; 0xdc;
  0x88; 0xa2; 0x25; 0xad; 0xb3; 0xf0; 0x2a; 0xd1; 0x3e; 0xb4; 0x93; 0x8f; 0xf3; 0x27; 0x08; 0x53].

Definition using_genesis_block_const (network : Network) : list byte :=
  match network with Bitcoin => BITCOIN | Testnet4 => TESTNET4 | Signet => SIGNET | Regtest => REGTEST end.

Definition using_genesis_block (params : Params.Params) : list byte :=
  match Params.network params with
  | Bitcoin => BITCOIN | Testnet4 => TESTNET4 | Signet => SIGNET | Regtest => REGTEST
  end.

Inductive UnknownChainHashError := UnknownChainHash (chain_hash : list byte).

(** [impl TryFrom<ChainHash> for Network] *)
Definition to_network (chain_hash : list byte) : result UnknownChainHashError Network :=
  if bool_decide (chain_hash = BITCOIN) then Ok Bitcoin
  else if bool_decide (chain_hash = TESTNET4) then Ok Testnet4
  else if bool_decide (chain_hash = SIGNET) then Ok Signet
  else if bool_decide (chain_hash = REGTEST) then Ok Regtest
  else Err (UnknownChainHash chain_hash).

End ChainHash.

(** ** The genesis blocks *)

Definition PUBKEY_ADDRESS_PREFIX_MAIN : Z := 48.
Definition SCRIPT_ADDRESS_PREFIX_MAIN : Z := 50.
Definition PUBKEY_ADDRESS_PREFIX_TEST : Z := 111.
Definition SCRIPT_ADDRESS_PREFIX_TEST : Z := 58.
Definition MAX_SCRIPT_ELEMENT_SIZE : Z := 520.

Definition GENESIS_OUTPUT_PK : list byte := map byte.of_Z [
  0x04;
  0x01; 0x84; 0x71; 0x0f; 0xa6; 0x89; 0xad; 0x50; 0x23; 0x69; 0x0c; 0x80; 0xf3; 0xa4; 0x9c; 0x8f;
  0x13; 0xf8; 0xd4; 0x5b; 0x8c; 0x85; 0x7f; 0xbc; 0xbc; 0x8b; 0xc4; 0xa8; 0xe4; 0xd3; 0xeb; 0x4b;
  0x10; 0xf4; 0xd4; 0x60; 0x4f; 0xa0; 0x8d; 0xce; 0x60; 0x1a; 0xaf; 0x0f; 0x47; 0x02; 0x16; 0xfe;
  0x1b; 0x51; 0x85; 0x0b; 0x4a; 0xcf; 0x21; 0xb1; 0x79; 0xc4; 0x50; 0x70; 0xac; 0x7b; 0x03; 0xa9].

(** The three escapes of the source are the bytes of the apostrophe. *)
Definition GENESIS_MESSAGE : list byte :=
  String.list_byte_of_string "NY Times 05/Oct/2011 Steve Jobs, Apple" ++ [xe2; x80; x99] ++
  String.list_byte_of_string "s Visionary, Dies at 56".

Section Genesis.
Context `{PublicKeys}.

(** [None]: a panic of the builder or of a hash engine. *)
Definition bitcoin_genesis_tx : option Transaction :=
  b ← Builder.push_int Builder.new 486604799;
  b ← Builder.push_int_non_minimal b 4;
  b ← Builder.push_slice b GENESIS_MESSAGE;
  let in_script := Builder.into_script b in
  b ← Builder.push_slice Builder.new GENESIS_OUTPUT_PK;
  let out_script := Builder.into_script (Builder.push_opcode b OP_CHECKSIG) in
  Some {| Transaction.version := 1; lock_time := Absolute.Blocks 0;
          input := [{| previous_output := outpoint_null; script_sig := in_script; sequence := Sequence.MAX;
                       witness := witness_new |}];
          output := [{| value := 50 * 100000000; script_pubkey := out_script |}];
          mw_tx := None; is_hog_ex := false |}.

Definition genesis_header (merkle_root : list byte) (time bits nonce : Z) : Header.Header :=
  {| Header.version := 1; Header.prev_blockhash := replicate 32 x00; Header.merkle_root := merkle_root;
     Header.time := time; Header.bits := bits; Header.nonce := nonce |}.

Definition genesis_block (params : Params.Params) : option Block :=
  tx ← bitcoin_genesis_tx;
  merkle_root ← compute_txid tx;
  Some {| header :=
            match Params.network params with
            | Bitcoin => genesis_header merkle_root 1317972665 0x1e0ffff0 2084524493
            | Testnet4 => genesis_header merkle_root 1486949366 0x1e0ffff0 293345
            | Signet => genesis_header merkle_root 1598918400 0x1e0377ae 52613770
            | Regtest => genesis_header merkle_root 1296688602 0x207fffff 0
            end;
          txdata := [tx]; mweb_block := None |}.
End Genesis.

(** ** Names and identifiers *)

(** The names [from_str] and [from_core_arg] take for a network. *)
Definition names (n : Network) : list string :=
  match n with
  | Bitcoin => ["litecoin"; "bitcoin"] | Testnet4 => ["testnet"; "testnet4"]
  | Signet => ["signet"] | Regtest => ["regtest"]
  end.
Definition core_args (n : Network) : list string :=
  match n with
  | Bitcoin => ["main"] | Testnet4 => ["test"; "testnet4"] | Signet => ["signet"] | Regtest => ["regtest"]
  end.

(** A chain of comparisons with constants, and membership in a list of them. *)
Ltac chain H :=
  repeat (case_bool_decide; [injection H as <-; subst; (assumption || by repeat constructor)|]); discriminate H.
Ltac members H :=
  cbn in H; rewrite ?elem_of_cons, elem_of_nil in H;
  repeat match goal with H : _ ∨ _ |- _ => destruct H end; subst; try done; reflexivity.

Lemma network_from_str_iff s n : network_from_str s = Ok n ↔ s ∈ names n.
Proof.
  unfold network_from_str, names. split; intros H; [chain H|]. destruct n; members H.
Qed.

Lemma from_core_arg_iff s n : from_core_arg s = Ok n ↔ s ∈ core_args n.
Proof.
  unfold from_core_arg, core_args. split; intros H; [chain H|]. destruct n; members H.
Qed.

Lemma magic_iff m n : Magic.to_network m = Ok n ↔ m = Magic.of_network n.
Proof.
  unfold Magic.to_network, Magic.of_network. split.
  - intros H. repeat (case_bool_decide; [by injection H as <-|]). discriminate H.
  - intros ->. by destruct n.
Qed.

Lemma chain_hash_iff h n : ChainHash.to_network h = Ok n ↔ h = ChainHash.using_genesis_block_const n.
Proof.
  unfold ChainHash.to_network, ChainHash.using_genesis_block_const. split.
  - intros H. repeat (case_bool_decide; [by injection H as <-|]). discriminate H.
  - intros ->. destruct n; vm_compute; reflexivity.
Qed.

(** The names, core arguments, magic bytes and chain hashes each determine the network: what
    is printed is read back, each reader takes exactly the listed forms, and no two networks
    share one; the chain hash and the magic bytes by parameters are those of their network. *)
Theorem network_identifiers (n : Network) :
  (∀ s, network_from_str s = Ok n ↔ s ∈ names n) ∧ as_display_str n ∈ names n ∧
  (∀ s, from_core_arg s = Ok n ↔ s ∈ core_args n) ∧ to_core_arg n ∈ core_args n ∧
  (∀ m, Magic.to_network m = Ok n ↔ m = Magic.of_network n) ∧
  (∀ h, ChainHash.to_network h = Ok n ↔ h = ChainHash.using_genesis_block_const n) ∧
  Magic.from_params (Params.new n) = Magic.of_network n ∧
  ChainHash.using_genesis_block (Params.new n) = ChainHash.using_genesis_block_const n.
Proof.
  split_and!; [intros s; apply network_from_str_iff|destruct n; repeat constructor|intros s; apply from_core_arg_iff| |
    intros m; apply magic_iff|intros h; apply chain_hash_iff|by destruct n|by destruct n].
  destruct n; repeat constructor.
Qed.

(** ** The genesis blocks *)

Section GenesisLaws.
Context `{PublicKeys}.

Definition genesis_script_sig : list byte := [x04; xff; xff; x00; x1d; x01; x04; x40] ++ GENESIS_MESSAGE.

Definition genesis_tx : Transaction :=
  {| Transaction.version := 1; lock_time := Absolute.Blocks 0;
     input := [{| previous_output := outpoint_null; script_sig := genesis_script_sig; sequence := U32_MAX;
                  witness := witness_new |}];
     output := [{| value := 5000000000; script_pubkey := x41 :: GENESIS_OUTPUT_PK ++ [xac] |}];
     mw_tx := None; is_hog_ex := false |}.

Lemma genesis_tx_eq : bitcoin_genesis_tx = Some genesis_tx.
Proof. vm_compute. reflexivity. Qed.

Definition genesis_merkle_root : list byte := rev (map byte.of_Z [
  0x97; 0xdd; 0xfb; 0xba; 0xe6; 0xbe; 0x97; 0xfd; 0x6c; 0xdf; 0x3e; 0x7c; 0xa1; 0x32; 0x32; 0xa3;
  0xaf; 0xff; 0x23; 0x53; 0xe2; 0x9b; 0xad; 0xfa; 0xb7; 0xf7; 0x30; 0x11; 0xed; 0xd4; 0xce; 0xd9]).

Lemma genesis_txid_eq : compute_txid genesis_tx = Some genesis_merkle_root.
Proof. vm_compute. reflexivity. Qed.

Lemma genesis_tx_wf : tx_wf genesis_tx.
Proof.
  constructor; try (cbn; done).
  - split; [|cbn; lia]. constructor; [|constructor]. constructor; vm_compute; done.
  - constructor; [|constructor]. by exists [].
  - split; [|cbn; lia]. constructor; [|constructor]. constructor; vm_compute; done.
Qed.

(** The header of each network's genesis block. *)
Definition header_with (merkle_root : list byte) (n : Network) : Header.Header :=
  match n with
  | Bitcoin => genesis_header merkle_root 1317972665 0x1e0ffff0 2084524493
  | Testnet4 => genesis_header merkle_root 1486949366 0x1e0ffff0 293345
  | Signet => genesis_header merkle_root 1598918400 0x1e0377ae 52613770
  | Regtest => genesis_header merkle_root 1296688602 0x207fffff 0
  end.
Definition header_of : Network → Header.Header := header_with genesis_merkle_root.

Lemma genesis_block_with n tx root :
  bitcoin_genesis_tx = Some tx → compute_txid tx = Some root →
  genesis_block (Params.new n) = Some {| header := header_with root n; txdata := [tx]; mweb_block := None |}.
Proof.
  intros Htx Hroot. unfold genesis_block. rewrite Htx. cbn [mbind option_bind]. rewrite Hroot.
  by destruct n.
Qed.

Lemma genesis_block_eq n :
  genesis_block (Params.new n) = Some {| header := header_of n; txdata := [genesis_tx]; mweb_block := None |}.
Proof. exact (genesis_block_with n _ _ genesis_tx_eq genesis_txid_eq). Qed.

Lemma genesis_checked n :
  check_merkle_root {| header := header_of n; txdata := [genesis_tx]; mweb_block := None |} = Some true.
Proof. destruct n; vm_compute; reflexivity. Qed.

Lemma genesis_hash n :
  ∃ h, Header.block_hash (header_of n) = Some h ∧ (h = ChainHash.using_genesis_block_const n ↔ n ≠ Signet).
Proof.
  assert (bool_decide (Header.block_hash (header_of n) = Some (ChainHash.using_genesis_block_const n))
          = negb (bool_decide (n = Signet))) as Hc by (destruct n; vm_compute; reflexivity).
  destruct (Header.block_hash (header_of n)) as [h|] eqn:Hh.
  - exists h. split; [done|]. case_bool_decide as H1; case_bool_decide as H2; try discriminate Hc; split; congruence.
  - assert (is_Some (Header.block_hash (header_of n))) as [? Hs] by (destruct n; vm_compute; by eexists). congruence.
Qed.

Lemma header_of_target n : U256.leb (Header.target (header_of n)) (Params.pow_limit (Params.new n)) = true.
Proof. destruct n; vm_compute; reflexivity. Qed.

Lemma header_of_wf n : header_wf (header_of n).
Proof. destruct n; constructor; vm_compute; done. Qed.

(** The genesis block of every network is a well-formed block with one coinbase transaction
    and the Merkle root of that transaction; its target is within the limit of the network;
    and its hash is the network's chain hash, except on signet, whose chain hash is that of
    Bitcoin's genesis block. *)
Theorem genesis_blocks (n : Network) :
  ∃ b h, genesis_block (Params.new n) = Some b ∧ block_wf b ∧
    (∃ tx, txdata b = [tx] ∧ is_coinbase tx = true) ∧ check_merkle_root b = Some true ∧
    U256.leb (Header.target (header b)) (Params.pow_limit (Params.new n)) = true ∧
    block_hash b = Some h ∧ (h = ChainHash.using_genesis_block_const n ↔ n ≠ Signet).
Proof.
  destruct (genesis_hash n) as (h & Hh & Hiff).
  exists {| header := header_of n; txdata := [genesis_tx]; mweb_block := None |}, h.
  split_and!; [apply genesis_block_eq| |exists genesis_tx; split; reflexivity|apply genesis_checked|apply header_of_target|exact Hh|exact Hiff].
  constructor; cbn [header txdata mweb_block]; [apply header_of_wf| |reflexivity|done].
  split; [|cbn; lia]. constructor; [apply genesis_tx_wf|constructor].
Qed.
End GenesisLaws.
