(* ===== verification/P2p.v ===== *)
(** Peers ([src/litecoin/src/p2p/mod.rs], [p2p/address.rs]): service flags, the network
    addresses of the protocol's two versions and the socket addresses they stand for. *)

From Stdlib Require Import String ZArith Lia ZifyBool.
From stdpp Require Import base list.
From Stdlib Require Import Init.Byte.
From coqutil Require Import Byte Word.LittleEndianList.
From S2P Require Import Prelude Io Encode Units Text.

Definition PROTOCOL_VERSION : Z := 70001.

(** ** Service flags *)

Module ServiceFlags.

Definition NONE : Z := 0.
Definition NETWORK : Z := Z.shiftl 1 0.
Definition GETUTXO : Z := Z.shiftl 1 1.
Definition BLOOM : Z := Z.shiftl 1 2.
Definition WITNESS : Z := Z.shiftl 1 3.
Definition COMPACT_FILTERS : Z := Z.shiftl 1 6.
Definition NETWORK_LIMITED : Z := Z.shiftl 1 10.
Definition P2P_V2 : Z := Z.shiftl 1 11.

(** The flags after the call, which are also what it returns. *)
Definition add (self other : Z) : Z := Z.lor self other.
Definition remove (self other : Z) : Z := Z.lxor self other.
Definition has (self flags : Z) : bool := Z.lor self flags =? self.

(** [write_flag!]: the text, the flags left and whether nothing was written yet. *)
Definition write_flag (st : list Z * Z * bool) (flag : Z * string) : list Z * Z * bool :=
  let '(out, flags, first) := st in
  if has flags (fst flag) then
    ((if first then out else out ++ str "|") ++ str (snd flag), remove flags (fst flag), false)
  else st.

(** [{:x}] of a [u64]; sixteen digits are enough. *)
Definition hex_digit (d : Z) : Z := if d <? 10 then 48 + d else 87 + d.
Fixpoint hex_loop (fuel : nat) (n : Z) : list Z :=
  match fuel with
  | O => []
  | S fuel => if n <? 16 then [hex_digit n] else hex_loop fuel (n / 16) ++ [hex_digit (n mod 16)]
  end.

Definition flag_names : list (Z * string) :=
  [(NETWORK, "NETWORK"); (GETUTXO, "GETUTXO"); (BLOOM, "BLOOM"); (WITNESS, "WITNESS");
   (COMPACT_FILTERS, "COMPACT_FILTERS"); (NETWORK_LIMITED, "NETWORK_LIMITED"); (P2P_V2, "P2P_V2")]%string.

(** [impl fmt::Display for ServiceFlags] *)
Definition display (self : Z) : list Z :=
  if self =? NONE then str "ServiceFlags(NONE)"
  else
    let '(out, flags, first) := foldl write_flag (str "ServiceFlags(", self, true) flag_names in
    let out := if flags =? NONE then out else (if first then out else out ++ str "|") ++ str "0x" ++ hex_loop 16 flags in
    out ++ str ")".

(** [impl Encodable], [impl Decodable]. *)
Definition service_flags_codec : codec Z := u64.

End ServiceFlags.

(** ** Socket addresses of [std::net] *)

(** The octets of an [Ipv4Addr], the segments of an [Ipv6Addr]. *)
Inductive SocketAddr :=
| V4 (ip : list byte) (port : Z)
| V6 (ip : list Z) (port flowinfo scope_id : Z).

Definition to_be_bytes (x : Z) : list byte := be_split 2 x.

(** [Ipv4Addr::to_ipv6_mapped().segments()] *)
Definition to_ipv6_mapped (ip : list byte) : list Z :=
  [0; 0; 0; 0; 0; 0xffff; be_combine (take 2 ip); be_combine (drop 2 ip)].

(** [Ipv6Addr::to_ipv4], for mapped and for compatible addresses. *)
Definition to_ipv4 (ip : list Z) : option (list byte) :=
  match ip with
  | [a; b; c; d; e; f; ab; cd] =>
      if (a =? 0) && (b =? 0) && (c =? 0) && (d =? 0) && (e =? 0) && ((f =? 0) || (f =? 0xffff))
      then Some (to_be_bytes ab ++ to_be_bytes cd) else None
  | _ => None
  end.

(** [Ipv6Addr::octets] *)
Definition octets (ip : list Z) : list byte := ip ≫= to_be_bytes.

(** ** Addresses *)

Record Address := { services : Z; address : list Z; port : Z }.

Definition ONION : list Z := [0xFD87; 0xD87E; 0xEB43].

Definition address_new (socket : SocketAddr) (services : Z) : Address :=
  let '(address, port) :=
    match socket with
    | V4 ip port => (to_ipv6_mapped ip, port)
    | V6 ip port _ _ => (ip, port)
    end in
  {| services := services; address := address; port := port |}.

(** The error is [io::ErrorKind::AddrNotAvailable]. *)
Inductive SocketError := AddrNotAvailable.

Definition address_socket_addr (self : Address) : result SocketError SocketAddr :=
  let addr := address self in
  if bool_decide (take 3 addr = ONION) then Err AddrNotAvailable
  else
    match to_ipv4 addr with
    | Some ipv4 => Ok (V4 ipv4 (port self))
    | None => Ok (V6 addr (port self) 0 0)
    end.

(** A big-endian [u16]. *)
Definition write_be_u16 (len word : Z) : wr Z := let+ _ := w_bytes (to_be_bytes word) in w_ret (len + 2).

Fixpoint write_words (len : Z) (words : list Z) : wr Z :=
  match words with
  | [] => w_ret len
  | word :: words => let+ len := write_be_u16 len word in write_words len words
  end.

Definition address_encode (self : Address) : wr Z :=
  let+ len := w_add 0 (c_enc ServiceFlags.service_flags_codec (services self)) in
  let+ len := write_words len (address self) in
  write_be_u16 len (port self).

(** [read_be_address] *)
Fixpoint read_words (n : nat) (address : list Z) : rd (list Z) :=
  match n with
  | O => rd_ret address
  | S n =>
      let! buf := read_slice 2 in
      read_words n (address ++ [be_combine buf])
  end.
Definition read_be_address : rd (list Z) := read_words 8 [].

(** [u16::swap_bytes] *)
Definition swap_bytes (x : Z) : Z := Z.lor (Z.shiftl (Z.land x 0xff) 8) (Z.shiftr x 8).

Definition read_port : rd Z := let! port := c_dec_top u16 in rd_ret (swap_bytes port).

Definition address_decode : rd Address :=
  let! services := c_dec_top ServiceFlags.service_flags_codec in
  let! address := read_be_address in
  let! port := read_port in
  rd_ret {| services := services; address := address; port := port |}.

Definition address_codec : codec Address := fixed_codec address_encode address_decode.

(** ** BIP 155 addresses *)

Inductive AddrV2 :=
| Ipv4 (ip : list byte)
| Ipv6 (ip : list Z)
| TorV2 (id : list byte)
| TorV3 (pubkey : list byte)
| I2p (hash : list byte)
| Cjdns (ip : list Z)
| Unknown (network : Z) (bytes : list byte).

Definition encode_addr (network : Z) (bytes : list byte) : wr Z :=
  let+ a := c_enc u8 network in
  let+ b := c_enc varint (Z.of_nat (length bytes)) in
  let len := a + b + Z.of_nat (length bytes) in
  let+ _ := emit_slice bytes in
  w_ret len.

Definition addr_v2_encode (self : AddrV2) : wr Z :=
  match self with
  | Ipv4 addr => encode_addr 1 addr
  | Ipv6 addr => encode_addr 2 (octets addr)
  | TorV2 bytes => encode_addr 3 bytes
  | TorV3 bytes => encode_addr 4 bytes
  | I2p bytes => encode_addr 5 bytes
  | Cjdns addr => encode_addr 6 (octets addr)
  | Unknown network bytes => encode_addr network bytes
  end.

(** [if len != n { return Err(..) }] *)
Definition expect_len (len n : Z) (message : string) : rd unit :=
  if negb (len =? n) then rd_err (ParseFailed message) else rd_ret tt.

Definition addr_v2_decode : rd AddrV2 :=
  let! network_id := c_dec_top u8 in
  let! len := c_dec_top varint in
  if 512 <? len then rd_err (ParseFailed "IP must be <= 512 bytes")
  else
    match network_id with
    | 1 =>
        let! _ := expect_len len 4 "Invalid IPv4 address" in
        let! addr := c_dec_top (array 4) in
        rd_ret (Ipv4 addr)
    | 2 =>
        let! _ := expect_len len 16 "Invalid IPv6 address" in
        let! addr := read_be_address in
        if bool_decide (take 3 addr = ONION) then rd_err (ParseFailed "OnionCat address sent with IPv6 network id")
        else if bool_decide (take 6 addr = [0; 0; 0; 0; 0; 0xffff]) then
          rd_err (ParseFailed "IPV4 wrapped address sent with IPv6 network id")
        else rd_ret (Ipv6 addr)
    | 3 =>
        let! _ := expect_len len 10 "Invalid TorV2 address" in
        let! id := c_dec_top (array 10) in
        rd_ret (TorV2 id)
    | 4 =>
        let! _ := expect_len len 32 "Invalid TorV3 address" in
        let! pubkey := c_dec_top (array 32) in
        rd_ret (TorV3 pubkey)
    | 5 =>
        let! _ := expect_len len 32 "Invalid I2P address" in
        let! hash := c_dec_top (array 32) in
        rd_ret (I2p hash)
    | 6 =>
        let! _ := expect_len len 16 "Invalid CJDNS address" in
        let! addr := read_be_address in
        if negb (Z.shiftr (hd 0 addr) 8 =? 0xFC) then rd_err (ParseFailed "Invalid CJDNS address")
        else rd_ret (Cjdns addr)
    | _ =>
        let! addr := read_slice len in
        rd_ret (Unknown network_id addr)
    end.

Definition addr_v2_codec : codec AddrV2 := fixed_codec addr_v2_encode addr_v2_decode.

Record AddrV2Message := { m_time : Z; m_services : Z; m_addr : AddrV2; m_port : Z }.

Definition v2_socket_addr (self : AddrV2Message) : result SocketError SocketAddr :=
  match m_addr self with
  | Ipv4 addr => Ok (V4 addr (m_port self))
  | Ipv6 addr => Ok (V6 addr (m_port self) 0 0)
  | _ => Err AddrNotAvailable
  end.

Definition v2_encode (self : AddrV2Message) : wr Z :=
  let len := 0 in
  let+ len := w_add len (c_enc u32 (m_time self)) in
  let+ len := w_add len (c_enc varint (m_services self)) in
  let+ len := w_add len (c_enc addr_v2_codec (m_addr self)) in
  write_be_u16 len (m_port self).

Definition v2_decode : rd AddrV2Message :=
  let! time := c_dec_top u32 in
  let! services := c_dec_top varint in
  let! addr := c_dec_top addr_v2_codec in
  let! port := read_port in
  rd_ret {| m_time := time; m_services := services; m_addr := addr; m_port := port |}.

Definition v2_codec : codec AddrV2Message := fixed_codec v2_encode v2_decode.

(** ** Words and ports *)

Lemma swap_bytes_combine bs : length bs = 2%nat → swap_bytes (le_combine bs) = be_combine bs.
Proof.
  destruct bs as [|b0 [|b1 [|]]]; try done. intros _. unfold swap_bytes, be_combine. cbn [rev app].
  rewrite !le_combine_cons. change (le_combine []) with 0.
  pose proof (byte.unsigned_range b0). pose proof (byte.unsigned_range b1).
  change 0xff with (Z.ones 8). rewrite Z.land_ones, Z.shiftr_div_pow2, shiftl_lor_add by (try lia; unfold urange; Z.div_mod_to_equations; lia).
  Z.div_mod_to_equations; lia.
Qed.

Lemma length_to_be_bytes w : length (to_be_bytes w) = 2%nat.
Proof. apply length_be_split. Qed.

Lemma read_port_iff s p rest : read_port s = Ok (p, rest) ↔ urange 16 p ∧ s = to_be_bytes p ++ rest.
Proof.
  unfold read_port, rd_bind. change (c_dec_top u16) with (read_uint 2). unfold read_uint, rd_bind, read_slice. split.
  - intros H. destruct (rd_exact _ _ s) as [[bs r]|] eqn:Hs; [|done]. cbn in H. injection H as <- <-.
    apply rd_exact_ok in Hs as [-> Hl]; [|lia]. assert (length bs = 2%nat) as Hl' by lia.
    rewrite swap_bytes_combine by done. split; [|unfold to_be_bytes; by rewrite be_split_combine].
    pose proof (be_combine_range bs) as Hr. by rewrite Hl' in Hr.
  - intros [Hp ->]. rewrite rd_exact_app by (by rewrite length_to_be_bytes). cbn.
    rewrite swap_bytes_combine by apply length_to_be_bytes. unfold to_be_bytes. by rewrite be_combine_split.
Qed.

Lemma wseg_be_u16 w : wseg (λ len, write_be_u16 len w) (to_be_bytes w).
Proof. intros len. unfold write_be_u16, w_bytes, w_bind, w_ret. by rewrite app_nil_r, length_to_be_bytes. Qed.

Lemma length_octets ws : Z.of_nat (length (octets ws)) = 2 * Z.of_nat (length ws).
Proof.
  induction ws as [|w ws IH]; [done|]. change (octets (w :: ws)) with (to_be_bytes w ++ octets ws).
  rewrite length_app, length_to_be_bytes. cbn [length]. lia.
Qed.

Lemma wseg_words ws : wseg (λ len, write_words len ws) (octets ws).
Proof.
  induction ws as [|w ws IH]; [apply wseg_ret|]. change (octets (w :: ws)) with (to_be_bytes w ++ octets ws).
  cbn [write_words]. apply wseg_bind; [apply wseg_be_u16|exact IH].
Qed.

Definition is_ip6 (ws : list Z) : Prop := length ws = 8%nat ∧ Forall (urange 16) ws.

Lemma read_words_iff n acc s ws rest :
  read_words n acc s = Ok (ws, rest) ↔
  ∃ l, ws = acc ++ l ∧ length l = n ∧ Forall (urange 16) l ∧ s = octets l ++ rest.
Proof.
  revert acc s. induction n as [|n IH]; intros acc s; cbn [read_words].
  - split; [intros [= <- <-]; exists []; rewrite app_nil_r; by repeat constructor|].
    intros ([|] & -> & Hl & _ & ->); [|done]. by rewrite app_nil_r.
  - unfold rd_bind, read_slice. split.
    + intros H. destruct (rd_exact _ _ s) as [[bs r]|] eqn:Hs; [|done]. apply rd_exact_ok in Hs as [-> Hl]; [|lia].
      assert (length bs = 2%nat) as Hl' by lia. apply IH in H as (l & -> & <- & Hf & ->).
      exists (be_combine bs :: l). rewrite <- app_assoc. split_and!; [done|done| |].
      * constructor; [|done]. pose proof (be_combine_range bs) as Hr. by rewrite Hl' in Hr.
      * change (octets (be_combine bs :: l)) with (to_be_bytes (be_combine bs) ++ octets l).
        unfold to_be_bytes. by rewrite be_split_combine, app_assoc.
    + intros ([|w l] & -> & Hl & Hf & ->); [done|]. injection Hl as Hl. apply Forall_cons in Hf as [Hw Hf].
      change (octets (w :: l)) with (to_be_bytes w ++ octets l). rewrite <- app_assoc.
      rewrite rd_exact_app by (by rewrite length_to_be_bytes). unfold to_be_bytes at 1. rewrite be_combine_split by done.
      apply IH. exists l. by rewrite <- app_assoc.
Qed.

Lemma read_be_address_iff s ws rest : read_be_address s = Ok (ws, rest) ↔ is_ip6 ws ∧ s = octets ws ++ rest.
Proof.
  unfold read_be_address, is_ip6. rewrite read_words_iff. split.
  - intros (l & -> & Hl & Hf & ->). done.
  - intros ((Hl & Hf) & ->). by exists ws.
Qed.

(** ** The codecs *)

Record address_wf (a : Address) : Prop := {
  awf_services : urange 64 (services a);
  awf_address : is_ip6 (address a);
  awf_port : urange 16 (port a) }.

#[export] Instance address_roundtrip : RoundTrip address_codec address_wf.
Proof.
  intros [sv ad pt] [Hs Ha Hp]. cbn [services address port] in *. eapply (seg_start address_codec); [reflexivity|].
  cbn [services address port]. change (c_dec address_codec) with address_decode. unfold address_decode.
  eapply seg_bind; [exact (seg_enc_top u64 (urange 64) sv Hs)|].
  eapply seg_bind.
  { exists (octets ad). split; [apply wseg_words|]. intros rest. by apply read_be_address_iff. }
  eapply seg_last; [|by intros rest]. exists (to_be_bytes pt). split; [apply wseg_be_u16|]. intros rest. by apply read_port_iff.
Qed.

#[export] Instance address_canonical : Canonical address_codec address_wf.
Proof.
  intros s a rest Hd. change (c_dec address_codec) with address_decode in Hd. unfold address_decode in Hd.
  apply rd_bind_ok in Hd as (sv & s1 & Hs & Hd). apply rd_bind_ok in Hd as (ad & s2 & Ha & Hd).
  apply rd_bind_ok in Hd as (pt & s3 & Hp & [= <- <-]).
  apply (canonical_top u64 (urange 64)) in Hs as (Hs & b1 & He & ->).
  apply read_be_address_iff in Ha as [Ha ->]. apply read_port_iff in Hp as [Hp ->]. split; [done|].
  exists (b1 ++ octets ad ++ to_be_bytes pt). rewrite <- !app_assoc. split; [|done].
  eapply wseg_start; [reflexivity|]. apply wseg_bind; [by apply wseg_enc|].
  apply wseg_bind; [apply wseg_words|apply wseg_be_u16].
Qed.

Lemma wlen_wseg W bs : wseg W bs → wlen W.
Proof. intros Hw len n b. rewrite Hw. by intros [= <- <-]. Qed.

#[export] Instance address_len : EncodeLen address_codec.
Proof.
  intros a n bs. eapply wlen_start; [reflexivity|]. apply wlen_bind; [apply (wlen_enc u64)|].
  apply wlen_bind; [eapply wlen_wseg, wseg_words|eapply wlen_wseg, wseg_be_u16].
Qed.

(** What can be sent and accepted under each of the network identifiers. *)
Definition addr_v2_wf (a : AddrV2) : Prop :=
  match a with
  | Ipv4 ip => is_array 4 ip
  | Ipv6 ip => is_ip6 ip ∧ take 3 ip ≠ ONION ∧ take 6 ip ≠ [0; 0; 0; 0; 0; 0xffff]
  | TorV2 id => is_array 10 id
  | TorV3 key => is_array 32 key
  | I2p hash => is_array 32 hash
  | Cjdns ip => is_ip6 ip ∧ Z.shiftr (hd 0 ip) 8 = 0xFC
  | Unknown network bs => urange 8 network ∧ ¬ 1 <= network <= 6 ∧ Z.of_nat (length bs) <= 512
  end.

(** The identifier and the bytes of an address. *)
Definition addr_v2_parts (a : AddrV2) : Z * list byte :=
  match a with
  | Ipv4 ip => (1, ip) | Ipv6 ip => (2, octets ip) | TorV2 id => (3, id) | TorV3 key => (4, key)
  | I2p hash => (5, hash) | Cjdns ip => (6, octets ip) | Unknown network bs => (network, bs)
  end.

Definition addr_v2_bytes (a : AddrV2) : list byte :=
  byte.of_Z (fst (addr_v2_parts a)) :: varint_bytes (Z.of_nat (length (snd (addr_v2_parts a)))) ++ snd (addr_v2_parts a).

Lemma is_ip6_octets ip : is_ip6 ip → Z.of_nat (length (octets ip)) = 16.
Proof. intros [Hl _]. rewrite length_octets, Hl. done. Qed.

Lemma addr_v2_parts_wf a : addr_v2_wf a → urange 8 (fst (addr_v2_parts a)) ∧ Z.of_nat (length (snd (addr_v2_parts a))) <= 512.
Proof.
  destruct a as [ip|ip|id|key|hash|ip|network bs]; cbn; intros Hw;
    [| |  | | | |destruct Hw as (Hn & _ & Hl); done].
  all: try match goal with H : is_ip6 _ ∧ _ |- _ => destruct H as [H _]; apply is_ip6_octets in H end; unfold is_array, urange in *; lia.
Qed.

Lemma encode_addr_eq network bs :
  Z.of_nat (length bs) <= 512 →
  encode_addr network bs =
  Ok (1 + varint_size (Z.of_nat (length bs)) + Z.of_nat (length bs), byte.of_Z network :: varint_bytes (Z.of_nat (length bs)) ++ bs).
Proof.
  intros Hl. unfold encode_addr. change (c_enc varint) with varint_encode. rewrite varint_encode_eq by (unfold urange; lia).
  cbn. by rewrite app_nil_r.
Qed.

Lemma addr_v2_encodes a : addr_v2_wf a → encodes addr_v2_codec a (addr_v2_bytes a).
Proof.
  intros Hw. destruct (addr_v2_parts_wf a Hw) as [_ Hl].
  apply encodes_intro with
    (n := 1 + varint_size (Z.of_nat (length (snd (addr_v2_parts a)))) + Z.of_nat (length (snd (addr_v2_parts a)))).
  - change (c_enc addr_v2_codec a) with (addr_v2_encode a).
    destruct a; cbn [addr_v2_encode addr_v2_parts fst snd] in *; unfold addr_v2_bytes; cbn [addr_v2_parts fst snd]; by apply encode_addr_eq.
  - unfold addr_v2_bytes. cbn [length]. rewrite length_app, Nat2Z.inj_succ, Nat2Z.inj_add, length_varint_bytes. lia.
Qed.

Lemma expect_len_iff len n message s u rest : expect_len len n message s = Ok (u, rest) ↔ len = n ∧ rest = s.
Proof. unfold expect_len. destruct (Z.eqb_spec len n); cbn; split; [by intros [= <- <-]|by intros [_ ->]; destruct u|done|by intros [? _]]. Qed.

(** The branch of a network identifier. *)
Lemma network_cases {A} (x1 x2 x3 x4 x5 x6 d : A) (n : Z) :
  ¬ 1 <= n <= 6 → match n with 1 => x1 | 2 => x2 | 3 => x3 | 4 => x4 | 5 => x5 | 6 => x6 | _ => d end = d.
Proof. intros Hn. destruct n as [|p|p]; [done| |done]. do 3 (try (destruct p as [p|p|]; [| |])); (reflexivity || lia). Qed.

Lemma read_array_iff k s bs rest : 0 <= k → c_dec_top (array k) s = Ok (bs, rest) ↔ is_array k bs ∧ s = bs ++ rest.
Proof.
  intros Hk. change (c_dec_top (array k)) with (read_slice k). rewrite read_slice_ok by done. unfold is_array. split; intros [? ?]; by split.
Qed.

Lemma read_array_app k bs rest : is_array k bs → c_dec_top (array k) (bs ++ rest) = Ok (bs, rest).
Proof. intros Hb. apply read_array_iff; [unfold is_array in Hb; lia|done]. Qed.

Lemma addr_v2_decode_ok s a rest : addr_v2_decode s = Ok (a, rest) → addr_v2_wf a ∧ s = addr_v2_bytes a ++ rest.
Proof.
  unfold addr_v2_decode. intros Hd. apply rd_bind_ok in Hd as (id & s1 & Hid & Hd).
  apply (canonical_top u8 (urange 8)) in Hid as (Hr & b0 & He0 & ->).
  assert (b0 = [byte.of_Z id]) as -> by (unfold encodes in He0; cbn in He0; congruence). clear He0.
  apply rd_bind_ok in Hd as (len & s2 & Hlen & Hd). change (c_dec_top varint) with varint_decode in Hlen.
  apply varint_decode_ok in Hlen as [Hu ->]. destruct (Z.ltb_spec 512 len) as [|Hmax]; [done|].
  assert (∀ a bs, addr_v2_parts a = (id, bs) → Z.of_nat (length bs) = len → s2 = bs ++ rest →
    [byte.of_Z id] ++ varint_bytes len ++ s2 = addr_v2_bytes a ++ rest) as Hbytes.
  { intros a' bs Ha <- ->. unfold addr_v2_bytes. rewrite Ha. cbn. by rewrite <- app_assoc. }
  destruct (decide (1 <= id <= 6)) as [Hk|Hk].
  - assert (id = 1 ∨ id = 2 ∨ id = 3 ∨ id = 4 ∨ id = 5 ∨ id = 6) as Hc by lia.
    destruct Hc as [-> |[-> |[-> |[-> |[-> | ->]]]]]; apply rd_bind_ok in Hd as (u & s3 & Hx & Hd);
      apply expect_len_iff in Hx as [-> ->]; apply rd_bind_ok in Hd as (x & s4 & Hx & Hd);
      first [apply read_array_iff in Hx as [Hx ->]; [|lia]|apply read_be_address_iff in Hx as [Hx ->]].
    1,3,4,5: injection Hd as <- <-; split; [exact Hx|]; eapply Hbytes; [done|exact Hx|done].
    + case_bool_decide as H1; [done|]. case_bool_decide as H2; [done|]. injection Hd as <- <-. split; [done|].
      eapply Hbytes; [done|by apply is_ip6_octets|done].
    + destruct (Z.eqb_spec (Z.shiftr (hd 0 x) 8) 0xFC) as [H1|]; [|done]. injection Hd as <- <-. split; [done|].
      eapply Hbytes; [done|by apply is_ip6_octets|done].
  - rewrite network_cases in Hd by done. apply rd_bind_ok in Hd as (x & s4 & Hx & [= <- <-]).
    apply read_slice_ok in Hx as [-> Hx]; [|unfold urange in Hu; lia]. split; [split_and!; [done|done|lia]|]. by eapply Hbytes.
Qed.

Lemma addr_v2_decode_app a rest : addr_v2_wf a → addr_v2_decode (addr_v2_bytes a ++ rest) = Ok (a, rest).
Proof.
  intros Hw. destruct (addr_v2_parts_wf a Hw) as [Hid Hl]. unfold addr_v2_bytes, addr_v2_decode.
  rewrite <- app_comm_cons, <- app_assoc. unfold rd_bind at 1. change (c_dec_top u8) with read_u8. rewrite read_u8_cons, byte_of_Z_u by done.
  unfold rd_bind at 1. change (c_dec_top varint) with varint_decode. rewrite varint_decode_app by (unfold urange; lia).
  destruct (Z.ltb_spec 512 (Z.of_nat (length (addr_v2_parts a).2))); [lia|].
  assert (∀ n m u s, Z.of_nat (length (addr_v2_parts a).2) = n →
    expect_len (Z.of_nat (length (addr_v2_parts a).2)) n m s = Ok (u, s)) as He by (intros; by apply expect_len_iff).
  destruct a as [ip|ip|id|key|hash|ip|network bs]; cbn [addr_v2_parts fst snd addr_v2_wf] in *; unfold rd_bind.
  1,3,4,5: rewrite (He _ _ tt) by done; by rewrite (read_array_app _ _ _ Hw).
  - destruct Hw as (H6 & H1 & H2). rewrite (He _ _ tt) by by apply is_ip6_octets.
    rewrite (proj2 (read_be_address_iff _ ip rest)) by by split. by rewrite !bool_decide_eq_false_2.
  - destruct Hw as (H6 & H1). rewrite (He _ _ tt) by by apply is_ip6_octets.
    rewrite (proj2 (read_be_address_iff _ ip rest)) by by split. by rewrite H1.
  - destruct Hw as (_ & Hn & _). rewrite network_cases by done. by rewrite (proj2 (read_slice_ok (Z.of_nat (length bs)) _ bs rest (Zle_0_nat _)) (conj eq_refl eq_refl)).
Qed.

#[export] Instance addr_v2_roundtrip : RoundTrip addr_v2_codec addr_v2_wf.
Proof.
  intros a Ha. exists (addr_v2_bytes a). split; [by apply addr_v2_encodes|]. intros rest. by apply addr_v2_decode_app.
Qed.

#[export] Instance addr_v2_canonical : Canonical addr_v2_codec addr_v2_wf.
Proof.
  intros s a rest Hd. apply addr_v2_decode_ok in Hd as [Ha ->]. split; [done|]. exists (addr_v2_bytes a).
  split; [by apply addr_v2_encodes|done].
Qed.

#[export] Instance addr_v2_len : EncodeLen addr_v2_codec.
Proof.
  assert (∀ network bs n out, encode_addr network bs = Ok (n, out) → n = Z.of_nat (length out)) as He.
  { intros network bs n out. unfold encode_addr, emit_slice. intros H. inv_ok.
    repeat match goal with H : c_enc _ _ = _ |- _ => apply encode_len in H end. rewrite !length_app. cbn. lia. }
  intros a n bs. change (c_enc addr_v2_codec a) with (addr_v2_encode a). destruct a; apply He.
Qed.

Record v2_wf (m : AddrV2Message) : Prop := {
  v2wf_time : urange 32 (m_time m);
  v2wf_services : urange 64 (m_services m);
  v2wf_addr : addr_v2_wf (m_addr m);
  v2wf_port : urange 16 (m_port m) }.

#[export] Instance v2_roundtrip : RoundTrip v2_codec v2_wf.
Proof.
  intros [t sv ad pt] [Ht Hs Ha Hp]. cbn [m_time m_services m_addr m_port] in *. eapply (seg_start v2_codec); [reflexivity|].
  cbn [m_time m_services m_addr m_port]. change (c_dec v2_codec) with v2_decode. unfold v2_decode.
  eapply seg_bind; [seg_field|]. eapply seg_bind; [seg_field|]. eapply seg_bind; [seg_field|].
  eapply seg_last; [|by intros rest]. exists (to_be_bytes pt). split; [apply wseg_be_u16|]. intros rest. by apply read_port_iff.
Qed.

#[export] Instance v2_canonical : Canonical v2_codec v2_wf.
Proof.
  intros s m rest Hd. change (c_dec v2_codec) with v2_decode in Hd. unfold v2_decode in Hd.
  apply rd_bind_ok in Hd as (t & s1 & Ht & Hd). apply rd_bind_ok in Hd as (sv & s2 & Hs & Hd).
  apply rd_bind_ok in Hd as (ad & s3 & Ha & Hd). apply rd_bind_ok in Hd as (pt & s4 & Hp & [= <- <-]).
  apply read_port_iff in Hp as [Hp ->].
  apply (canonical_top u32 (urange 32)) in Ht as (Ht & b1 & He1 & ->).
  apply (canonical_top varint (urange 64)) in Hs as (Hs & b2 & He2 & ->).
  apply (canonical_top addr_v2_codec addr_v2_wf) in Ha as (Ha & b3 & He3 & ->).
  split; [by constructor|]. exists (b1 ++ b2 ++ b3 ++ to_be_bytes pt). rewrite <- !app_assoc. split; [|done].
  eapply wseg_start; [reflexivity|]. do 3 (apply wseg_bind; [by apply wseg_enc|]). apply wseg_be_u16.
Qed.

#[export] Instance v2_len : EncodeLen v2_codec.
Proof.
  intros m n bs. eapply wlen_start; [reflexivity|]. do 3 (apply wlen_bind; [apply wlen_enc, _|]).
  eapply wlen_wseg, wseg_be_u16.
Qed.

(** ** Properties *)

(** The socket addresses of [std]. *)
Definition socket_wf (s : SocketAddr) : Prop :=
  match s with
  | V4 ip port => is_array 4 ip ∧ urange 16 port
  | V6 ip port _ _ => is_ip6 ip ∧ urange 16 port
  end.

Lemma mapped_back ip : is_array 4 ip → to_ipv4 (to_ipv6_mapped ip) = Some ip ∧ is_ip6 (to_ipv6_mapped ip).
Proof.
  unfold is_array. destruct ip as [|a [|b [|c [|d [|]]]]]; cbn [length]; intros; try lia. unfold to_ipv6_mapped. cbn [take drop firstn skipn].
  split.
  - cbn [to_ipv4 Z.eqb Pos.eqb andb orb]. unfold to_be_bytes. by rewrite !be_split_combine.
  - split; [done|]. assert (urange 16 0 ∧ urange 16 0xffff) as [? ?] by (unfold urange; lia).
    pose proof (be_combine_range [a; b] : urange 16 _). pose proof (be_combine_range [c; d] : urange 16 _).
    repeat (apply Forall_cons_2; [assumption|]). apply Forall_nil_2.
Qed.

(** Values with an encoding are read back from it, and what is read has its bytes as its encoding. *)
Lemma codec_exact {A} (c : codec A) (wf : A → Prop) `{!RoundTrip c wf, !Canonical c wf} x s :
  (wf x → ∃ bs, encodes c x bs ∧ deserialize c bs = Ok x) ∧ (deserialize c s = Ok x → wf x ∧ encodes c x s).
Proof.
  split.
  - intros Hx. destruct (roundtrip x Hx) as (bs & He & Hr). exists bs. split; [done|].
    apply deserialize_ok. pose proof (Hr []) as Hr'. by rewrite app_nil_r in Hr'.
  - rewrite deserialize_ok. intros Hd. apply canonical in Hd as (Hw & bs & He & ->). split; [done|]. by rewrite app_nil_r.
Qed.

(** C29: the addresses of peers. Both kinds of address message are read back as they were written,
    and what is read is well formed and its bytes are its only encoding: under each identifier
    of BIP 155 the address has its length, an IPv6 address is neither OnionCat nor mapped IPv4,
    a CJDNS address starts with 0xFC, an unknown one has at most 512 bytes. The address made
    from a socket gives that socket back, except that OnionCat is refused, that IPv6 addresses
    in [::/96] and mapped ones come back as IPv4, and that the flow and the scope are dropped. *)
Theorem address_codecs (a : Address) (m : AddrV2Message) (s : list byte) (sock : SocketAddr) (sv : Z) :
  (address_wf a → ∃ bs, encodes address_codec a bs ∧ deserialize address_codec bs = Ok a) ∧
  (deserialize address_codec s = Ok a → address_wf a ∧ encodes address_codec a s) ∧
  (v2_wf m → ∃ bs, encodes v2_codec m bs ∧ deserialize v2_codec bs = Ok m) ∧
  (deserialize v2_codec s = Ok m → v2_wf m ∧ encodes v2_codec m s) ∧
  (socket_wf sock →
     address_socket_addr (address_new sock sv) =
     match sock with
     | V4 ip port => Ok (V4 ip port)
     | V6 ip port _ _ =>
         if bool_decide (take 3 ip = ONION) then Err AddrNotAvailable
         else match to_ipv4 ip with Some ip4 => Ok (V4 ip4 port) | None => Ok (V6 ip port 0 0) end
     end).
Proof.
  destruct (codec_exact address_codec address_wf a s) as [H1 H2]. destruct (codec_exact v2_codec v2_wf m s) as [H3 H4].
  split_and!; try done. destruct sock as [ip pt|ip pt fl sc]; [|done]. intros [Hip _]. unfold address_socket_addr.
  cbn [address_new address port]. destruct (mapped_back ip Hip) as [-> _]. done.
Qed.

(** The bits of service flags: adding is union, having is inclusion, and removing flags that
    are all there is difference. *)
Lemma service_flags_bits self other :
  (∀ i, Z.testbit (ServiceFlags.add self other) i = Z.testbit self i || Z.testbit other i) ∧
  (ServiceFlags.has self other = true ↔ ∀ i, Z.testbit other i = true → Z.testbit self i = true) ∧
  (ServiceFlags.has self other = true → ServiceFlags.remove self other = Z.ldiff self other).
Proof.
  unfold ServiceFlags.add, ServiceFlags.has, ServiceFlags.remove.
  assert ((Z.lor self other =? self) = true ↔ ∀ i, Z.testbit other i = true → Z.testbit self i = true) as Hh.
  { rewrite Z.eqb_eq. split.
    - intros <- i Hi. by rewrite Z.lor_spec, Hi, orb_true_r.
    - intros Hi. apply Z.bits_inj. intros i. rewrite Z.lor_spec. specialize (Hi i).
      destruct (Z.testbit self i), (Z.testbit other i); try done. by discriminate Hi. }
  split_and!; [intros i; apply Z.lor_spec|exact Hh|]. rewrite Hh. intros Hi. apply Z.bits_inj. intros i. specialize (Hi i).
  rewrite Z.lxor_spec, Z.ldiff_spec. destruct (Z.testbit self i), (Z.testbit other i); try done. by discriminate Hi.
Qed.

Example service_flags_shown :
  ServiceFlags.display (ServiceFlags.add ServiceFlags.WITNESS 0xf0) = str "ServiceFlags(WITNESS|COMPACT_FILTERS|0xb0)" ∧
  ServiceFlags.display (ServiceFlags.add (ServiceFlags.add ServiceFlags.WITNESS ServiceFlags.BLOOM) ServiceFlags.NETWORK)
    = str "ServiceFlags(NETWORK|BLOOM|WITNESS)" ∧
  ServiceFlags.display 0 = str "ServiceFlags(NONE)".
Proof. by split_and!. Qed.

(** Removing a flag that is not there adds it. *)
Example remove_adds :
  ServiceFlags.has ServiceFlags.NETWORK ServiceFlags.BLOOM = false ∧
  ServiceFlags.has (ServiceFlags.remove ServiceFlags.NETWORK ServiceFlags.BLOOM) ServiceFlags.BLOOM = true.
Proof. done. Qed.

(** The loopback address of IPv6 becomes an address of IPv4. *)
Example loopback_becomes_v4 :
  address_socket_addr (address_new (V6 [0; 0; 0; 0; 0; 0; 0; 1] 8333 0 0) 0) = Ok (V4 [x00; x00; x00; x01] 8333).
Proof. done. Qed.

Definition sample_address : Address := {| services := 1; address := to_ipv6_mapped [x7b; xff; x00; x64]; port := 833 |}.
Definition sample_v2 : AddrV2Message := {| m_time := 0x4966bc61; m_services := 1; m_addr := Unknown 170 [xab; xcd]; m_port := 8333 |}.

Lemma address_codecs_witness :
  deserialize v2_codec (default [] (match serialize v2_codec sample_v2 with Ok bs => Some bs | Err _ => None end)) = Ok sample_v2 ∧
  (∃ bs, encodes address_codec sample_address bs ∧ deserialize address_codec bs = Ok sample_address) ∧
  address_socket_addr sample_address = Ok (V4 [x7b; xff; x00; x64] 833).
Proof.
  destruct (address_codecs sample_address sample_v2 [] (V4 [x7b; xff; x00; x64] 833) 1) as (H1 & _ & H3 & _ & H5).
  split_and!.
  - destruct H3 as (bs & He & Hd).
    { constructor; cbn; unfold urange; (split; (done || lia)) || (split_and!; try done; lia). }
    unfold serialize. unfold encodes in He. rewrite He. exact Hd.
  - apply H1. constructor; [by unfold urange|apply mapped_back; done|by unfold urange].
  - apply H5. split; [done|by unfold urange].
Defined.
