(* ===== verification/Messages.v ===== *)
(** Network messages ([src/litecoin/src/p2p/message.rs] and the files of the single
    messages): inventories, requests, versions, rejections, filters, compact blocks, and the
    envelope with magic bytes, command and checksum. *)

From S2P Require Import Witness.
From Stdlib Require Import String ZArith Lia ZifyBool.
From stdpp Require Import base list strings.
From Stdlib Require Import Init.Byte.
From coqutil Require Import Byte Word.LittleEndianList.
From S2P Require Import Prelude Io HashEngine Sha256 Encode Mimblewimble Units MerkleTree Transaction Block Bip152.
From S2P Require Import Text Utf8 Network P2p.

Definition MAX_MSG_SIZE : Z := 5000000.

(** [impl_consensus_encoding!]: the fields one after the other, by the decoder's own method;
    the one for readers that may be infinite takes at most [MAX_VEC_SIZE] bytes. *)
Definition struct_codec {A} (enc : A → wr Z) (dec : (∀ B, codec B → rd B) → rd A) : codec A :=
  Codec enc (dec (λ B, c_dec (A := B))) (rd_take MAX_VEC_SIZE (dec (λ B, c_dec_top (A := B)))).

(** [tuple_encode!] for pairs. *)
Definition pair_codec {A B} (ca : codec A) (cb : codec B) : codec (A * B) :=
  fixed_codec
    (λ p, let+ len := w_add 0 (c_enc ca (fst p)) in w_add len (c_enc cb (snd p)))
    (let! a := c_dec_top ca in let! b := c_dec_top cb in rd_ret (a, b)).

Definition hash_codec : codec (list byte) := array 32.

(** ** [message_blockdata.rs] *)

Inductive Inventory :=
| InvError
| InvTransaction (t : list byte)
| InvBlock (b : list byte)
| InvCompactBlock (b : list byte)
| InvWTx (w : list byte)
| InvWitnessTransaction (t : list byte)
| InvWitnessBlock (b : list byte)
| InvUnknown (inv_type : Z) (hash : list byte).

Definition network_hash (self : Inventory) : option (list byte) :=
  match self with
  | InvError => None
  | InvTransaction h | InvBlock h | InvCompactBlock h | InvWTx h | InvWitnessTransaction h | InvWitnessBlock h
  | InvUnknown _ h => Some h
  end.

Definition encode_inv (code : Z) (item : list byte) : wr Z :=
  let+ len := c_enc u32 code in w_add len (c_enc hash_codec item).

Definition inventory_encode (self : Inventory) : wr Z :=
  match self with
  | InvError => encode_inv 0 (replicate 32 x00)
  | InvTransaction t => encode_inv 1 t
  | InvBlock b => encode_inv 2 b
  | InvCompactBlock b => encode_inv 4 b
  | InvWTx w => encode_inv 5 w
  | InvWitnessTransaction t => encode_inv 0x40000001 t
  | InvWitnessBlock b => encode_inv 0x40000002 b
  | InvUnknown t d => encode_inv t d
  end.

Definition inventory_decode : rd Inventory :=
  let! inv_type := c_dec_top u32 in
  let hash (K : list byte → Inventory) := let! h := c_dec_top hash_codec in rd_ret (K h) in
  match inv_type with
  | 0 => rd_ret InvError
  | 1 => hash InvTransaction
  | 2 => hash InvBlock
  | 4 => hash InvCompactBlock
  | 5 => hash InvWTx
  | 0x40000001 => hash InvWitnessTransaction
  | 0x40000002 => hash InvWitnessBlock
  | tp => hash (InvUnknown tp)
  end.

Definition inventory_codec : codec Inventory := fixed_codec inventory_encode inventory_decode.

(** [GetBlocksMessage] and [GetHeadersMessage], which have the same fields. *)
Record GetBlocksMessage := { gb_version : Z; locator_hashes : list (list byte); gb_stop_hash : list byte }.

Definition get_blocks_new (locator_hashes : list (list byte)) (stop_hash : list byte) : GetBlocksMessage :=
  {| gb_version := PROTOCOL_VERSION; locator_hashes := locator_hashes; gb_stop_hash := stop_hash |}.

Definition get_blocks_encode (self : GetBlocksMessage) : wr Z :=
  let len := 0 in
  let+ len := w_add len (c_enc u32 (gb_version self)) in
  let+ len := w_add len (c_enc (vec hash_codec) (locator_hashes self)) in
  let+ len := w_add len (c_enc hash_codec (gb_stop_hash self)) in
  w_ret len.

Definition get_blocks_decode (m : ∀ B, codec B → rd B) : rd GetBlocksMessage :=
  let! version := m _ u32 in
  let! locator_hashes := m _ (vec hash_codec) in
  let! stop_hash := m _ hash_codec in
  rd_ret {| gb_version := version; locator_hashes := locator_hashes; gb_stop_hash := stop_hash |}.

Definition get_blocks_codec : codec GetBlocksMessage := struct_codec get_blocks_encode get_blocks_decode.

(** ** [message_network.rs] *)

Record VersionMessage := {
  vm_version : Z; vm_services : Z; vm_timestamp : Z; vm_receiver : Address; vm_sender : Address; vm_nonce : Z;
  vm_user_agent : list Z; vm_start_height : Z; vm_relay : bool }.

Definition version_new (services timestamp : Z) (receiver sender : Address) (nonce : Z) (user_agent : list Z)
    (start_height : Z) : VersionMessage :=
  {| vm_version := PROTOCOL_VERSION; vm_services := services; vm_timestamp := timestamp; vm_receiver := receiver;
     vm_sender := sender; vm_nonce := nonce; vm_user_agent := user_agent; vm_start_height := start_height;
     vm_relay := false |}.

Definition version_encode (self : VersionMessage) : wr Z :=
  let len := 0 in
  let+ len := w_add len (c_enc u32 (vm_version self)) in
  let+ len := w_add len (c_enc u64 (vm_services self)) in
  let+ len := w_add len (c_enc i64 (vm_timestamp self)) in
  let+ len := w_add len (c_enc address_codec (vm_receiver self)) in
  let+ len := w_add len (c_enc address_codec (vm_sender self)) in
  let+ len := w_add len (c_enc u64 (vm_nonce self)) in
  let+ len := w_add len (c_enc string_codec (vm_user_agent self)) in
  let+ len := w_add len (c_enc i32 (vm_start_height self)) in
  let+ len := w_add len (c_enc bool_codec (vm_relay self)) in
  w_ret len.

Definition version_decode (m : ∀ B, codec B → rd B) : rd VersionMessage :=
  let! version := m _ u32 in
  let! services := m _ u64 in
  let! timestamp := m _ i64 in
  let! receiver := m _ address_codec in
  let! sender := m _ address_codec in
  let! nonce := m _ u64 in
  let! user_agent := m _ string_codec in
  let! start_height := m _ i32 in
  let! relay := m _ bool_codec in
  rd_ret {| vm_version := version; vm_services := services; vm_timestamp := timestamp; vm_receiver := receiver;
            vm_sender := sender; vm_nonce := nonce; vm_user_agent := user_agent; vm_start_height := start_height;
            vm_relay := relay |}.

Definition version_codec : codec VersionMessage := struct_codec version_encode version_decode.

Inductive RejectReason := Malformed | Invalid | Obsolete | Duplicate | NonStandard | Dust | Fee | Checkpoint.

(** The discriminants of the enumeration. *)
Definition reason_code (r : RejectReason) : Z :=
  match r with
  | Malformed => 0x01 | Invalid => 0x10 | Obsolete => 0x11 | Duplicate => 0x12
  | NonStandard => 0x40 | Dust => 0x41 | Fee => 0x42 | Checkpoint => 0x43
  end.

Definition reason_encode (self : RejectReason) : wr Z := let+ _ := w_bytes [byte.of_Z (reason_code self)] in w_ret 1.

Definition reason_decode : rd RejectReason :=
  let! code := read_u8 in
  match code with
  | 0x01 => rd_ret Malformed | 0x10 => rd_ret Invalid | 0x11 => rd_ret Obsolete | 0x12 => rd_ret Duplicate
  | 0x40 => rd_ret NonStandard | 0x41 => rd_ret Dust | 0x42 => rd_ret Fee | 0x43 => rd_ret Checkpoint
  | _ => rd_err (ParseFailed "unknown reject code")
  end.

Definition reason_codec : codec RejectReason := fixed_codec reason_encode reason_decode.

Record Reject := { rj_message : list Z; rj_ccode : RejectReason; rj_reason : list Z; rj_hash : list byte }.

Definition reject_encode (self : Reject) : wr Z :=
  let len := 0 in
  let+ len := w_add len (c_enc string_codec (rj_message self)) in
  let+ len := w_add len (c_enc reason_codec (rj_ccode self)) in
  let+ len := w_add len (c_enc string_codec (rj_reason self)) in
  let+ len := w_add len (c_enc hash_codec (rj_hash self)) in
  w_ret len.

Definition reject_decode (m : ∀ B, codec B → rd B) : rd Reject :=
  let! message := m _ string_codec in
  let! ccode := m _ reason_codec in
  let! reason := m _ string_codec in
  let! hash := m _ hash_codec in
  rd_ret {| rj_message := message; rj_ccode := ccode; rj_reason := reason; rj_hash := hash |}.

Definition reject_codec : codec Reject := struct_codec reject_encode reject_decode.

(** ** [message_bloom.rs] *)

Inductive BloomFlags := BloomNone | BloomAll | PubkeyOnly.

Definition bloom_flags_encode (self : BloomFlags) : wr Z :=
  let+ _ := w_bytes [match self with BloomNone => x00 | BloomAll => x01 | PubkeyOnly => x02 end] in w_ret 1.

Definition bloom_flags_decode : rd BloomFlags :=
  let! flag := read_u8 in
  match flag with
  | 0 => rd_ret BloomNone | 1 => rd_ret BloomAll | 2 => rd_ret PubkeyOnly
  | _ => rd_err (ParseFailed "unknown bloom flag")
  end.

Definition bloom_flags_codec : codec BloomFlags := fixed_codec bloom_flags_encode bloom_flags_decode.

Record FilterLoad := { fl_filter : list byte; fl_hash_funcs : Z; fl_tweak : Z; fl_flags : BloomFlags }.

Definition filter_load_encode (self : FilterLoad) : wr Z :=
  let len := 0 in
  let+ len := w_add len (c_enc bytes (fl_filter self)) in
  let+ len := w_add len (c_enc u32 (fl_hash_funcs self)) in
  let+ len := w_add len (c_enc u32 (fl_tweak self)) in
  let+ len := w_add len (c_enc bloom_flags_codec (fl_flags self)) in
  w_ret len.

Definition filter_load_decode (m : ∀ B, codec B → rd B) : rd FilterLoad :=
  let! filter := m _ bytes in
  let! hash_funcs := m _ u32 in
  let! tweak := m _ u32 in
  let! flags := m _ bloom_flags_codec in
  rd_ret {| fl_filter := filter; fl_hash_funcs := hash_funcs; fl_tweak := tweak; fl_flags := flags |}.

Definition filter_load_codec : codec FilterLoad := struct_codec filter_load_encode filter_load_decode.

(** A struct with one field: its [consensus_encode] adds the length of the field to zero. *)
Definition newtype_codec {A B} (unwrap : A → B) (wrap : B → A) (c : codec B) : codec A :=
  struct_codec (λ x, let+ len := w_add 0 (c_enc c (unwrap x)) in w_ret len) (λ m, let! x := m _ c in rd_ret (wrap x)).

Record FilterAdd := { fa_data : list byte }.
Definition filter_add_codec : codec FilterAdd := newtype_codec fa_data Build_FilterAdd bytes.

(** ** [message_filter.rs] *)

(** [GetCFilters] and [GetCFHeaders], which have the same fields. *)
Record GetCFilters := { gf_filter_type : Z; gf_start_height : Z; gf_stop_hash : list byte }.

Definition get_cfilters_encode (self : GetCFilters) : wr Z :=
  let len := 0 in
  let+ len := w_add len (c_enc u8 (gf_filter_type self)) in
  let+ len := w_add len (c_enc u32 (gf_start_height self)) in
  let+ len := w_add len (c_enc hash_codec (gf_stop_hash self)) in
  w_ret len.
Definition get_cfilters_decode (m : ∀ B, codec B → rd B) : rd GetCFilters :=
  let! filter_type := m _ u8 in
  let! start_height := m _ u32 in
  let! stop_hash := m _ hash_codec in
  rd_ret {| gf_filter_type := filter_type; gf_start_height := start_height; gf_stop_hash := stop_hash |}.
Definition get_cfilters_codec : codec GetCFilters := struct_codec get_cfilters_encode get_cfilters_decode.

Record CFilter := { cf_filter_type : Z; cf_block_hash : list byte; cf_filter : list byte }.

Definition cfilter_encode (self : CFilter) : wr Z :=
  let len := 0 in
  let+ len := w_add len (c_enc u8 (cf_filter_type self)) in
  let+ len := w_add len (c_enc hash_codec (cf_block_hash self)) in
  let+ len := w_add len (c_enc bytes (cf_filter self)) in
  w_ret len.
Definition cfilter_decode (m : ∀ B, codec B → rd B) : rd CFilter :=
  let! filter_type := m _ u8 in
  let! block_hash := m _ hash_codec in
  let! filter := m _ bytes in
  rd_ret {| cf_filter_type := filter_type; cf_block_hash := block_hash; cf_filter := filter |}.
Definition cfilter_codec : codec CFilter := struct_codec cfilter_encode cfilter_decode.

Record CFHeaders := {
  ch_filter_type : Z; ch_stop_hash : list byte; ch_previous_filter_header : list byte; ch_filter_hashes : list (list byte) }.

Definition cfheaders_encode (self : CFHeaders) : wr Z :=
  let len := 0 in
  let+ len := w_add len (c_enc u8 (ch_filter_type self)) in
  let+ len := w_add len (c_enc hash_codec (ch_stop_hash self)) in
  let+ len := w_add len (c_enc hash_codec (ch_previous_filter_header self)) in
  let+ len := w_add len (c_enc (vec hash_codec) (ch_filter_hashes self)) in
  w_ret len.
Definition cfheaders_decode (m : ∀ B, codec B → rd B) : rd CFHeaders :=
  let! filter_type := m _ u8 in
  let! stop_hash := m _ hash_codec in
  let! previous_filter_header := m _ hash_codec in
  let! filter_hashes := m _ (vec hash_codec) in
  rd_ret {| ch_filter_type := filter_type; ch_stop_hash := stop_hash;
            ch_previous_filter_header := previous_filter_header; ch_filter_hashes := filter_hashes |}.
Definition cfheaders_codec : codec CFHeaders := struct_codec cfheaders_encode cfheaders_decode.

Record GetCFCheckpt := { gc_filter_type : Z; gc_stop_hash : list byte }.

Definition get_cfcheckpt_encode (self : GetCFCheckpt) : wr Z :=
  let len := 0 in
  let+ len := w_add len (c_enc u8 (gc_filter_type self)) in
  let+ len := w_add len (c_enc hash_codec (gc_stop_hash self)) in
  w_ret len.
Definition get_cfcheckpt_decode (m : ∀ B, codec B → rd B) : rd GetCFCheckpt :=
  let! filter_type := m _ u8 in
  let! stop_hash := m _ hash_codec in
  rd_ret {| gc_filter_type := filter_type; gc_stop_hash := stop_hash |}.
Definition get_cfcheckpt_codec : codec GetCFCheckpt := struct_codec get_cfcheckpt_encode get_cfcheckpt_decode.

Record CFCheckpt := { cc_filter_type : Z; cc_stop_hash : list byte; cc_filter_headers : list (list byte) }.

Definition cfcheckpt_encode (self : CFCheckpt) : wr Z :=
  let len := 0 in
  let+ len := w_add len (c_enc u8 (cc_filter_type self)) in
  let+ len := w_add len (c_enc hash_codec (cc_stop_hash self)) in
  let+ len := w_add len (c_enc (vec hash_codec) (cc_filter_headers self)) in
  w_ret len.
Definition cfcheckpt_decode (m : ∀ B, codec B → rd B) : rd CFCheckpt :=
  let! filter_type := m _ u8 in
  let! stop_hash := m _ hash_codec in
  let! filter_headers := m _ (vec hash_codec) in
  rd_ret {| cc_filter_type := filter_type; cc_stop_hash := stop_hash; cc_filter_headers := filter_headers |}.
Definition cfcheckpt_codec : codec CFCheckpt := struct_codec cfcheckpt_encode cfcheckpt_decode.

(** ** [message_compact_blocks.rs] *)

Record SendCmpct := { sc_send_compact : bool; sc_version : Z }.

Definition send_cmpct_encode (self : SendCmpct) : wr Z :=
  let len := 0 in
  let+ len := w_add len (c_enc bool_codec (sc_send_compact self)) in
  let+ len := w_add len (c_enc u64 (sc_version self)) in
  w_ret len.
Definition send_cmpct_decode (m : ∀ B, codec B → rd B) : rd SendCmpct :=
  let! send_compact := m _ bool_codec in
  let! version := m _ u64 in
  rd_ret {| sc_send_compact := send_compact; sc_version := version |}.
Definition send_cmpct_codec : codec SendCmpct := struct_codec send_cmpct_encode send_cmpct_decode.

Section Messages.
Context `{PublicKeys}.

Record CmpctBlock := { compact_block : HeaderAndShortIds }.
Definition cmpct_block_codec : codec CmpctBlock := newtype_codec compact_block Build_CmpctBlock cmpct_codec.

Record GetBlockTxn := { txs_request : BlockTransactionsRequest }.

Definition get_block_txn_encode (self : GetBlockTxn) : wr Z :=
  w_add 0 (request_encode (txs_request self)).
Definition get_block_txn_decode (tx_size : Z) : rd GetBlockTxn :=
  let! txs_request := request_decode tx_size in rd_ret {| txs_request := txs_request |}.

Record BlockTxn := { block_transactions : BlockTransactions }.
Definition block_txn_codec : codec BlockTxn := newtype_codec block_transactions Build_BlockTxn reply_codec.

(** ** [message.rs] *)

(** *** Commands *)

(** [try_from_static_cow]; the error is [CommandStringError]. *)
Definition command_try_from (cow : list Z) : result (list Z) (list Z) :=
  if (12 <? str_len cow)%nat then Err cow else Ok cow.

(** [None]: copying more than twelve bytes into the array panics. *)
Definition command_encode (self : list Z) : wr (option Z) :=
  let strbytes := as_bytes self in
  if (length strbytes <=? 12)%nat then
    let+ n := c_enc (array 12) (strbytes ++ replicate (12 - length strbytes) x00) in w_ret (Some n)
  else w_ret None.

Definition command_decode : rd (list Z) :=
  let! rawbytes := c_dec_top (array 12) in
  rd_ret (omap (λ u, if 0 <? byte.unsigned u then Some (byte.unsigned u) else None) rawbytes).

(** *** Payloads *)

Inductive NetworkMessage :=
| MVersion (m : VersionMessage) | MVerack | MAddr (l : list (Z * Address)) | MInv (l : list Inventory)
| MGetData (l : list Inventory) | MNotFound (l : list Inventory) | MGetBlocks (m : GetBlocksMessage)
| MGetHeaders (m : GetBlocksMessage) | MMemPool | MTx (t : Transaction) | MBlock (b : Block)
| MHeaders (l : list Header.Header) | MSendHeaders | MGetAddr | MPing (nonce : Z) | MPong (nonce : Z)
| MMerkleBlock (m : MerkleBlock) | MFilterLoad (m : FilterLoad) | MFilterAdd (m : FilterAdd) | MFilterClear
| MGetCFilters (m : GetCFilters) | MCFilter (m : CFilter) | MGetCFHeaders (m : GetCFilters) | MCFHeaders (m : CFHeaders)
| MGetCFCheckpt (m : GetCFCheckpt) | MCFCheckpt (m : CFCheckpt) | MSendCmpct (m : SendCmpct) | MCmpctBlock (m : CmpctBlock)
| MGetBlockTxn (m : GetBlockTxn) | MBlockTxn (m : BlockTxn) | MAlert (l : list byte) | MReject (m : Reject)
| MFeeFilter (fee : Z) | MWtxidRelay | MAddrV2 (l : list AddrV2Message) | MSendAddrV2
| MUnknown (command : list Z) (payload : list byte).

Definition cmd (self : NetworkMessage) : string :=
  match self with
  | MVersion _ => "version" | MVerack => "verack" | MAddr _ => "addr" | MInv _ => "inv" | MGetData _ => "getdata"
  | MNotFound _ => "notfound" | MGetBlocks _ => "getblocks" | MGetHeaders _ => "getheaders" | MMemPool => "mempool"
  | MTx _ => "tx" | MBlock _ => "block" | MHeaders _ => "headers" | MSendHeaders => "sendheaders" | MGetAddr => "getaddr"
  | MPing _ => "ping" | MPong _ => "pong" | MMerkleBlock _ => "merkleblock" | MFilterLoad _ => "filterload"
  | MFilterAdd _ => "filteradd" | MFilterClear => "filterclear" | MGetCFilters _ => "getcfilters" | MCFilter _ => "cfilter"
  | MGetCFHeaders _ => "getcfheaders" | MCFHeaders _ => "cfheaders" | MGetCFCheckpt _ => "getcfcheckpt"
  | MCFCheckpt _ => "cfcheckpt" | MSendCmpct _ => "sendcmpct" | MCmpctBlock _ => "cmpctblock"
  | MGetBlockTxn _ => "getblocktxn" | MBlockTxn _ => "blocktxn" | MAlert _ => "alert" | MReject _ => "reject"
  | MFeeFilter _ => "feefilter" | MWtxidRelay => "wtxidrelay" | MAddrV2 _ => "addrv2" | MSendAddrV2 => "sendaddrv2"
  | MUnknown _ _ => "unknown"
  end.

(** [None]: the [expect] panics. *)
Definition command (self : NetworkMessage) : option (list Z) :=
  match self with
  | MUnknown c _ => Some c
  | _ => match command_try_from (str (cmd self)) with Ok c => Some c | Err _ => None end
  end.

(** [HeaderSerializationWrapper] *)
Definition headers_encode (self : list Header.Header) : wr Z :=
  let+ len := w_add 0 (c_enc varint (Z.of_nat (length self))) in
  w_for (λ len header, let+ len := w_add len (c_enc Header.header_codec header) in w_add len (c_enc u8 0)) len self.

(** [HeaderDeserializationWrapper], for finite readers. *)
Definition headers_decode : rd (list Header.Header) :=
  let! len := c_dec_top varint in
  rd_for len (λ ret,
    let! header := c_dec_top Header.header_codec in
    let ret := ret ++ [header] in
    let! count := c_dec_top u8 in
    if negb (count =? 0) then rd_err (ParseFailed "Headers message should not contain transactions")
    else rd_ret ret) [].

(** [impl Encodable for NetworkMessage] *)
Definition payload_encode (self : NetworkMessage) : wr (option Z) :=
  let ok (w : wr Z) : wr (option Z) := let+ n := w in w_ret (Some n) in
  match self with
  | MVersion dat => ok (c_enc version_codec dat)
  | MAddr dat => ok (c_enc (vec (pair_codec u32 address_codec)) dat)
  | MInv dat | MGetData dat | MNotFound dat => ok (c_enc (vec inventory_codec) dat)
  | MGetBlocks dat | MGetHeaders dat => ok (c_enc get_blocks_codec dat)
  | MTx dat => ok (c_enc transaction_codec dat)
  | MBlock dat => ok (c_enc block_codec dat)
  | MHeaders dat => ok (headers_encode dat)
  | MPing dat | MPong dat => ok (c_enc u64 dat)
  | MMerkleBlock dat => ok (c_enc merkle_block_codec dat)
  | MFilterLoad dat => ok (c_enc filter_load_codec dat)
  | MFilterAdd dat => ok (c_enc filter_add_codec dat)
  | MGetCFilters dat | MGetCFHeaders dat => ok (c_enc get_cfilters_codec dat)
  | MCFilter dat => ok (c_enc cfilter_codec dat)
  | MCFHeaders dat => ok (c_enc cfheaders_codec dat)
  | MGetCFCheckpt dat => ok (c_enc get_cfcheckpt_codec dat)
  | MCFCheckpt dat => ok (c_enc cfcheckpt_codec dat)
  | MSendCmpct dat => ok (c_enc send_cmpct_codec dat)
  | MCmpctBlock dat => ok (c_enc cmpct_block_codec dat)
  | MGetBlockTxn dat => ok (get_block_txn_encode dat)
  | MBlockTxn dat => ok (c_enc block_txn_codec dat)
  | MAlert dat => ok (c_enc bytes dat)
  | MReject dat => ok (c_enc reject_codec dat)
  | MFeeFilter dat => ok (c_enc i64 dat)
  | MAddrV2 dat => ok (c_enc (vec v2_codec) dat)
  | MVerack | MSendHeaders | MMemPool | MGetAddr | MWtxidRelay | MFilterClear | MSendAddrV2 => ok (w_ret 0)
  | MUnknown _ data => ok (c_enc bytes data)
  end.

(** *** The envelope *)

Record RawNetworkMessage := { raw_magic : list byte; raw_payload : NetworkMessage; payload_len : Z; raw_checksum : list byte }.

(** [None]: a panic of the payload's encoder or of [u32::try_from(payload_len).expect(..)]. *)
Definition raw_new (magic : list byte) (payload : NetworkMessage) : option RawNetworkMessage :=
  match payload_encode payload with
  | Ok (Some payload_len, engine) =>
      if payload_len <=? U32_MAX then
        Some {| raw_magic := magic; raw_payload := payload; payload_len := payload_len;
                raw_checksum := take 4 (sha256d_hash engine) |}
      else None
  | _ => None
  end.

(** After a panic nothing more is written. *)
Definition then_encode (w : wr (option Z)) (len : Z) (k : Z → wr (option Z)) : wr (option Z) :=
  let+ n := w in match n with Some n => k (len + n) | None => w_ret None end.

Definition raw_encode (self : RawNetworkMessage) : wr (option Z) :=
  let+ len := w_add 0 (c_enc Magic.magic_codec (raw_magic self)) in
  match command (raw_payload self) with
  | None => w_ret None
  | Some command =>
      then_encode (command_encode command) len (λ len,
        let+ len := w_add len (c_enc u32 (payload_len self)) in
        let+ len := w_add len (c_enc (array 4) (raw_checksum self)) in
        then_encode (payload_encode (raw_payload self)) len (λ len, w_ret (Some len)))
  end.

(** The arms of [match &cmd.0[..]]: a command and the reader of its payload. *)
Definition arms (tx_size : Z) : list (string * rd NetworkMessage) :=
  let field {A} (c : codec A) (K : A → NetworkMessage) : rd NetworkMessage := let! x := c_dec c in rd_ret (K x) in
  [("version", field version_codec MVersion); ("verack", rd_ret MVerack);
   ("addr", field (vec (pair_codec u32 address_codec)) MAddr); ("inv", field (vec inventory_codec) MInv);
   ("getdata", field (vec inventory_codec) MGetData); ("notfound", field (vec inventory_codec) MNotFound);
   ("getblocks", field get_blocks_codec MGetBlocks); ("getheaders", field get_blocks_codec MGetHeaders);
   ("mempool", rd_ret MMemPool); ("block", field block_codec MBlock);
   ("headers", let! x := headers_decode in rd_ret (MHeaders x)); ("sendheaders", rd_ret MSendHeaders);
   ("getaddr", rd_ret MGetAddr); ("ping", field u64 MPing); ("pong", field u64 MPong);
   ("merkleblock", field merkle_block_codec MMerkleBlock); ("filterload", field filter_load_codec MFilterLoad);
   ("filteradd", field filter_add_codec MFilterAdd); ("filterclear", rd_ret MFilterClear);
   ("tx", field transaction_codec MTx); ("getcfilters", field get_cfilters_codec MGetCFilters);
   ("cfilter", field cfilter_codec MCFilter); ("getcfheaders", field get_cfilters_codec MGetCFHeaders);
   ("cfheaders", field cfheaders_codec MCFHeaders); ("getcfcheckpt", field get_cfcheckpt_codec MGetCFCheckpt);
   ("cfcheckpt", field cfcheckpt_codec MCFCheckpt); ("reject", field reject_codec MReject);
   ("alert", field bytes MAlert); ("feefilter", field i64 MFeeFilter); ("sendcmpct", field send_cmpct_codec MSendCmpct);
   ("cmpctblock", field cmpct_block_codec MCmpctBlock);
   ("getblocktxn", let! x := get_block_txn_decode tx_size in rd_ret (MGetBlockTxn x));
   ("blocktxn", field block_txn_codec MBlockTxn); ("wtxidrelay", rd_ret MWtxidRelay);
   ("addrv2", field (vec v2_codec) MAddrV2); ("sendaddrv2", rd_ret MSendAddrV2)]%string.

(** What follows the value in [mem_d] is not looked at. *)
Definition payload_decode (tx_size : Z) (cmd : list Z) (raw_payload : list byte) : result Encode.Error NetworkMessage :=
  match List.find (λ '(name, _), bool_decide (cmd = str name)) (arms tx_size) with
  | Some (_, arm) => let? (payload, _) := arm raw_payload in Ok payload
  | None => Ok (MUnknown cmd raw_payload)
  end.

Definition raw_decode (tx_size : Z) : rd RawNetworkMessage :=
  let! magic := c_dec Magic.magic_codec in
  let! cmd := command_decode in
  let! checked_data := checked_data_decode in
  let checksum := Encode.checksum checked_data in
  let raw_payload := data checked_data in
  let payload_len := uwrap 32 (Z.of_nat (length raw_payload)) in
  let! payload := rd_lift (payload_decode tx_size cmd raw_payload) in
  rd_ret {| raw_magic := magic; raw_payload := payload; payload_len := payload_len; raw_checksum := checksum |}.

Definition raw_decode_top (tx_size : Z) : rd RawNetworkMessage := rd_take MAX_MSG_SIZE (raw_decode tx_size).

End Messages.

(** ** Well-formed messages *)

Definition hashes_wf : list (list byte) → Prop := vec_wf (is_array 32).

(** The decoder of a struct, with its decoder unfolded. *)
Lemma seg_struct {A} (enc : A → wr Z) (dec : (∀ B, codec B → rd B) → rd A) w K x :
  enc x = w_bind (w_add 0 w) K → seg (λ len, w_bind (w_add len w) K) (dec (λ B, c_dec (A := B))) x →
  ∃ bs, encodes (struct_codec enc dec) x bs ∧ reads (c_dec (struct_codec enc dec)) bs x.
Proof. intros He Hs. exact (seg_start (struct_codec enc dec) w K x He Hs). Qed.

Ltac struct_roundtrip := pose proof I; eapply seg_struct; [reflexivity|]; cbv beta; seg_chain.

#[export] Instance newtype_roundtrip {A B} (unwrap : A → B) (wrap : B → A) (c : codec B) wf `{!RoundTrip c wf} :
  (∀ x, wrap (unwrap x) = x) → RoundTrip (newtype_codec unwrap wrap c) (λ x, wf (unwrap x)).
Proof.
  intros Hw x Hx. eapply seg_struct; [reflexivity|]. eapply seg_bind; [by eapply (seg_enc c wf)|]. rewrite Hw. apply seg_ret.
Qed.

#[export] Instance pair_roundtrip {A B} (ca : codec A) (cb : codec B) wa wb
    `{!RoundTrip ca wa, !RoundTrip cb wb, !TopIsFinite ca, !TopIsFinite cb} :
  RoundTrip (pair_codec ca cb) (λ p, wa (fst p) ∧ wb (snd p)).
Proof.
  intros [a b] [Ha Hb]. cbn [fst snd] in *. eapply seg_start; [reflexivity|]. cbn [fst snd].
  eapply seg_bind; [by apply (seg_enc_top ca wa)|]. eapply seg_last; [by apply (seg_enc_top cb wb)|done].
Qed.

Record get_blocks_wf (m : GetBlocksMessage) : Prop := {
  gbwf_version : urange 32 (gb_version m);
  gbwf_hashes : hashes_wf (locator_hashes m);
  gbwf_stop : is_array 32 (gb_stop_hash m) }.

#[export] Instance get_blocks_roundtrip : RoundTrip get_blocks_codec get_blocks_wf.
Proof. intros [] []. cbn in *. struct_roundtrip. Qed.

Record version_wf (m : VersionMessage) : Prop := {
  vwf_version : urange 32 (vm_version m);
  vwf_services : urange 64 (vm_services m);
  vwf_timestamp : srange 64 (vm_timestamp m);
  vwf_receiver : address_wf (vm_receiver m);
  vwf_sender : address_wf (vm_sender m);
  vwf_nonce : urange 64 (vm_nonce m);
  vwf_user_agent : string_wf (vm_user_agent m);
  vwf_start_height : srange 32 (vm_start_height m) }.

#[export] Instance version_roundtrip : RoundTrip version_codec version_wf.
Proof. intros [] []. cbn [vm_version vm_services vm_timestamp vm_receiver vm_sender vm_nonce vm_user_agent vm_start_height] in *. struct_roundtrip. Qed.

(** An enumeration written as one byte. *)
Lemma reads_u8 {A} (k : Z → rd A) b x : k (byte.unsigned b) = rd_ret x → reads (rd_bind read_u8 k) [b] x.
Proof. intros Hk rest. unfold rd_bind. cbn [app]. by rewrite read_u8_cons, Hk. Qed.

#[export] Instance reason_roundtrip : RoundTrip reason_codec (λ _, True).
Proof.
  intros r _. exists [byte.of_Z (reason_code r)]. split; [by destruct r|]. apply reads_u8. destruct r; reflexivity.
Qed.

Record reject_wf (m : Reject) : Prop := {
  rwf_message : string_wf (rj_message m);
  rwf_reason : string_wf (rj_reason m);
  rwf_hash : is_array 32 (rj_hash m) }.

#[export] Instance reject_roundtrip : RoundTrip reject_codec reject_wf.
Proof. intros [] []. cbn [rj_message rj_ccode rj_reason rj_hash] in *. struct_roundtrip. Qed.

#[export] Instance bloom_flags_roundtrip : RoundTrip bloom_flags_codec (λ _, True).
Proof.
  intros f _. exists [match f with BloomNone => x00 | BloomAll => x01 | PubkeyOnly => x02 end].
  split; [by destruct f|]. apply reads_u8. destruct f; reflexivity.
Qed.

Record filter_load_wf (m : FilterLoad) : Prop := {
  flwf_filter : fits_u64 (fl_filter m);
  flwf_hash_funcs : urange 32 (fl_hash_funcs m);
  flwf_tweak : urange 32 (fl_tweak m) }.

#[export] Instance filter_load_roundtrip : RoundTrip filter_load_codec filter_load_wf.
Proof. intros [] []. cbn [fl_filter fl_hash_funcs fl_tweak fl_flags] in *. struct_roundtrip. Qed.

#[export] Instance filter_add_roundtrip : RoundTrip filter_add_codec (λ m, fits_u64 (fa_data m)).
Proof. apply newtype_roundtrip; [apply _|by intros []]. Qed.

Definition get_cfilters_wf (m : GetCFilters) : Prop :=
  urange 8 (gf_filter_type m) ∧ urange 32 (gf_start_height m) ∧ is_array 32 (gf_stop_hash m).
#[export] Instance get_cfilters_roundtrip : RoundTrip get_cfilters_codec get_cfilters_wf.
Proof. intros [] (? & ? & ?). cbn [gf_filter_type gf_start_height gf_stop_hash] in *. struct_roundtrip. Qed.

Definition cfilter_wf (m : CFilter) : Prop :=
  urange 8 (cf_filter_type m) ∧ is_array 32 (cf_block_hash m) ∧ fits_u64 (cf_filter m).
#[export] Instance cfilter_roundtrip : RoundTrip cfilter_codec cfilter_wf.
Proof. intros [] (? & ? & ?). cbn [cf_filter_type cf_block_hash cf_filter] in *. struct_roundtrip. Qed.

Definition cfheaders_wf (m : CFHeaders) : Prop :=
  urange 8 (ch_filter_type m) ∧ is_array 32 (ch_stop_hash m) ∧ is_array 32 (ch_previous_filter_header m) ∧
  hashes_wf (ch_filter_hashes m).
#[export] Instance cfheaders_roundtrip : RoundTrip cfheaders_codec cfheaders_wf.
Proof.
  intros [] (? & ? & ? & ?). cbn [ch_filter_type ch_stop_hash ch_previous_filter_header ch_filter_hashes] in *.
  struct_roundtrip.
Qed.

Definition get_cfcheckpt_wf (m : GetCFCheckpt) : Prop := urange 8 (gc_filter_type m) ∧ is_array 32 (gc_stop_hash m).
#[export] Instance get_cfcheckpt_roundtrip : RoundTrip get_cfcheckpt_codec get_cfcheckpt_wf.
Proof. intros [] (? & ?). cbn [gc_filter_type gc_stop_hash] in *. struct_roundtrip. Qed.

Definition cfcheckpt_wf (m : CFCheckpt) : Prop :=
  urange 8 (cc_filter_type m) ∧ is_array 32 (cc_stop_hash m) ∧ hashes_wf (cc_filter_headers m).
#[export] Instance cfcheckpt_roundtrip : RoundTrip cfcheckpt_codec cfcheckpt_wf.
Proof. intros [] (? & ? & ?). cbn [cc_filter_type cc_stop_hash cc_filter_headers] in *. struct_roundtrip. Qed.

#[export] Instance send_cmpct_roundtrip : RoundTrip send_cmpct_codec (λ m, urange 64 (sc_version m)).
Proof. intros [] ?. cbn [sc_send_compact sc_version] in *. struct_roundtrip. Qed.

(** An inventory that is read back: the error entry is written with a hash that is not read,
    and the types that have a name are not unknown. *)
Definition inv_wf (i : Inventory) : Prop :=
  match i with
  | InvError => False
  | InvTransaction h | InvBlock h | InvCompactBlock h | InvWTx h | InvWitnessTransaction h | InvWitnessBlock h =>
      is_array 32 h
  | InvUnknown t h => urange 32 t ∧ (t ∉ [0; 1; 2; 4; 5; 0x40000001; 0x40000002]) ∧ is_array 32 h
  end.

(** The branch of an inventory type. *)
Definition inv_type_branch {A} (x0 x1 x2 x4 x5 y1 y2 d : A) (n : Z) : A :=
  match n with
  | 0 => x0 | 1 => x1 | 2 => x2 | 4 => x4 | 5 => x5 | 0x40000001 => y1 | 0x40000002 => y2 | _ => d
  end.

Lemma inv_type_other {A} (x0 x1 x2 x4 x5 y1 y2 d : A) n :
  n ∉ [0; 1; 2; 4; 5; 0x40000001; 0x40000002] → inv_type_branch x0 x1 x2 x4 x5 y1 y2 d n = d.
Proof.
  intros Hn. unfold inv_type_branch. rewrite !not_elem_of_cons in Hn. destruct Hn as (H0 & H1 & H2 & H4 & H5 & H6 & H7 & _).
  destruct n as [|p|p]; [done| |done].
  do 31 (try (destruct p as [p|p|]); try congruence; try reflexivity).
Qed.

Lemma inventory_hash_reads (K : list byte → Inventory) h rest :
  is_array 32 h → (let! h := c_dec_top hash_codec in rd_ret (K h)) (h ++ rest) = Ok (K h, rest).
Proof. intros Hh. unfold rd_bind, hash_codec. by rewrite (read_array_app _ _ _ Hh). Qed.

Lemma encode_inv_eq t h : urange 32 t → is_array 32 h → encode_inv t h = Ok (36, le_split 4 t ++ h).
Proof.
  unfold is_array. intros Ht Hh. unfold encode_inv, w_add, w_bind, hash_codec. cbn. by rewrite !app_nil_r, Hh.
Qed.

Ltac named_inventory Hr Hd Ht t h K :=
  apply (Hr t h _ K); [apply Ht; repeat constructor|done|done| |done];
  intros s; rewrite Hd by (apply Ht; repeat constructor); reflexivity.

#[export] Instance inventory_roundtrip : RoundTrip inventory_codec inv_wf.
Proof.
  assert (∀ t h i (K : list byte → Inventory), urange 32 t → is_array 32 h → inventory_encode i = encode_inv t h →
    (∀ s, inventory_decode (le_split 4 t ++ s) = (let! h := c_dec_top hash_codec in rd_ret (K h)) s) → K h = i →
    ∃ bs, encodes inventory_codec i bs ∧ reads (c_dec inventory_codec) bs i) as Hr.
  { intros t h i K Ht Hh He Hd <-. exists (le_split 4 t ++ h). split.
    - apply encodes_intro with (n := 36); [by rewrite <- (encode_inv_eq t h Ht Hh)|].
      rewrite length_app, length_le_split. unfold is_array in Hh. lia.
    - intros rest. rewrite <- app_assoc. change (c_dec inventory_codec) with inventory_decode. rewrite Hd.
      by apply inventory_hash_reads. }
  assert (∀ t s, urange 32 t → inventory_decode (le_split 4 t ++ s) =
    inv_type_branch (rd_ret InvError) (let! h := c_dec_top hash_codec in rd_ret (InvTransaction h))
      (let! h := c_dec_top hash_codec in rd_ret (InvBlock h)) (let! h := c_dec_top hash_codec in rd_ret (InvCompactBlock h))
      (let! h := c_dec_top hash_codec in rd_ret (InvWTx h)) (let! h := c_dec_top hash_codec in rd_ret (InvWitnessTransaction h))
      (let! h := c_dec_top hash_codec in rd_ret (InvWitnessBlock h)) (let! h := c_dec_top hash_codec in rd_ret (InvUnknown t h))
      t s) as Hd.
  { intros t s Ht. unfold inventory_decode, rd_bind at 1. change (c_dec_top u32) with (read_uint 4). by rewrite read_uint_app. }
  assert (∀ t, t ∈ [1; 2; 4; 5; 0x40000001; 0x40000002] → urange 32 t) as Ht.
  { intros t Ht. rewrite !elem_of_cons, elem_of_nil in Ht. unfold urange. lia. }
  intros [|h|h|h|h|h|h|t h] Hw; cbn [inv_wf] in Hw; [done| | | | | |
    |destruct Hw as (Hu & Hn & Hh); apply (Hr t h _ (InvUnknown t)); [done|done|done| |done];
     intros s; rewrite Hd by done; by rewrite inv_type_other].
  - named_inventory Hr Hd Ht 1 h InvTransaction.
  - named_inventory Hr Hd Ht 2 h InvBlock.
  - named_inventory Hr Hd Ht 4 h InvCompactBlock.
  - named_inventory Hr Hd Ht 5 h InvWTx.
  - named_inventory Hr Hd Ht 0x40000001 h InvWitnessTransaction.
  - named_inventory Hr Hd Ht 0x40000002 h InvWitnessBlock.
Qed.

(** ** Payloads *)

Section Laws.
Context `{Hpk : PublicKeyLaws}.

Lemma header_top_reads h bs : header_wf h → encodes Header.header_codec h bs → reads (c_dec_top Header.header_codec) bs h.
Proof.
  intros Hh He. destruct (roundtrip (c := Header.header_codec) h Hh) as (bs' & He' & Hr). unfold encodes in He, He'.
  assert (bs' = bs) as -> by congruence. pose proof (header_size h _ _ He Hh).
  change (c_dec_top Header.header_codec) with (rd_take MAX_VEC_SIZE (c_dec Header.header_codec)).
  apply reads_take; [exact Hr|unfold MAX_VEC_SIZE; lia].
Qed.

(** A Merkle block whose tree the reader takes in one piece. *)
Definition merkle_block_wf (mb : MerkleBlock) : Prop :=
  header_wf (mb_header mb) ∧ pmt_wf (txn mb) ∧
  ∀ n bs, c_enc pmt_codec (txn mb) = Ok (n, bs) → n <= MAX_VEC_SIZE.

#[export] Instance merkle_block_roundtrip : RoundTrip merkle_block_codec merkle_block_wf.
Proof.
  intros [h t] (Hh & Ht & Hs). cbn [mb_header txn] in *.
  destruct (roundtrip (c := Header.header_codec) h Hh) as (b1 & He1 & _).
  destruct (roundtrip (c := pmt_codec) t Ht) as (b2 & He2 & Hr2). specialize (Hs _ _ He2). exists (b1 ++ b2). split.
  - unfold encodes. change (c_enc merkle_block_codec) with merkle_block_encode. unfold merkle_block_encode. cbn [mb_header txn].
    eapply w_bind_of; [exact He1|]. erewrite w_add_of; [|exact He2]. by rewrite length_app, Nat2Z.inj_add.
  - intros rest. change (c_dec merkle_block_codec) with merkle_block_decode. unfold merkle_block_decode, rd_bind.
    rewrite <- app_assoc, (header_top_reads h b1 Hh He1).
    change (c_dec_top pmt_codec) with (rd_take MAX_VEC_SIZE (c_dec pmt_codec)). by rewrite (reads_take _ _ _ _ Hr2 Hs).
Qed.

#[export] Instance cmpct_block_roundtrip : RoundTrip cmpct_block_codec (λ m, cmpct_wf (compact_block m)).
Proof. apply newtype_roundtrip; [apply _|by intros []]. Qed.

#[export] Instance block_txn_roundtrip :
  RoundTrip block_txn_codec (λ m, is_array 32 (reply_hash (block_transactions m)) ∧ vec_wf tx_wf (transactions (block_transactions m))).
Proof. apply (newtype_roundtrip _ _ _ (λ r, is_array 32 (reply_hash r) ∧ vec_wf tx_wf (transactions r))). by intros []. Qed.

(** One round of the loop over the headers. *)
Definition headers_step (ret : list Header.Header) : rd (list Header.Header) :=
  let! header := c_dec_top Header.header_codec in
  let ret := ret ++ [header] in
  let! count := c_dec_top u8 in
  if negb (count =? 0) then rd_err (ParseFailed "Headers message should not contain transactions")
  else rd_ret ret.

Lemma headers_loop hs :
  Forall header_wf hs → ∃ bs,
    wseg (λ len, w_for (λ len header, let+ len := w_add len (c_enc Header.header_codec header) in w_add len (c_enc u8 0)) len hs) bs ∧
    ∀ ret rest, nat_loop (λ st, headers_step st.1 st.2) (length hs) (ret, bs ++ rest) = Ok (ret ++ hs, rest).
Proof.
  induction 1 as [|h hs Hh _ (bs & Hw & Hr)]; [exists []; split; [apply wseg_ret|intros; cbn; by rewrite app_nil_r]|].
  destruct (roundtrip (c := Header.header_codec) h Hh) as (b & He & _). exists ((b ++ [x00]) ++ bs). split.
  - cbn [w_for]. apply (wseg_bind (λ len, let+ len := w_add len (c_enc Header.header_codec h) in w_add len (c_enc u8 0))); [|exact Hw].
    apply wseg_bind; [by apply wseg_enc|]. by apply wseg_enc.
  - intros ret rest. cbn [length nat_loop]. unfold headers_step at 1, rd_bind. cbn [fst snd].
    rewrite <- !app_assoc, (header_top_reads h b Hh He). change (c_dec_top u8) with read_u8. cbn [app].
    rewrite read_u8_cons. change (byte.unsigned x00) with 0. cbn [Z.eqb negb rd_ret result_bind].
    rewrite Hr. by rewrite <- app_assoc.
Qed.

Lemma headers_roundtrip hs :
  vec_wf header_wf hs → ∃ bs, headers_encode hs = Ok (Z.of_nat (length bs), bs) ∧ reads headers_decode bs hs.
Proof.
  intros [Hf Hn]. destruct (headers_loop hs Hf) as (bs & Hw & Hr). assert (urange 64 (Z.of_nat (length hs))) as Hu by (unfold urange; lia).
  exists (varint_bytes (Z.of_nat (length hs)) ++ bs). split.
  - unfold headers_encode. eapply w_bind_of; [apply w_add_of, (varint_encodes _ Hu)|]. rewrite Hw.
    by rewrite length_app, Nat2Z.inj_add.
  - intros rest. unfold headers_decode, rd_bind at 1. change (c_dec_top varint) with varint_decode.
    rewrite <- app_assoc, (varint_decode_app _ _ Hu). fold headers_step. rewrite rd_for_nat, Nat2Z.id. exact (Hr [] rest).
Qed.

(** The messages that are read back from what is written for them. *)
Definition message_wf (tx_size : Z) (m : NetworkMessage) : Prop :=
  match m with
  | MVersion m => version_wf m
  | MAddr l => vec_wf (λ p, urange 32 (fst p) ∧ address_wf (snd p)) l
  | MInv l | MGetData l | MNotFound l => vec_wf inv_wf l
  | MGetBlocks m | MGetHeaders m => get_blocks_wf m
  | MTx t => tx_wf t
  | MBlock b => block_wf b
  | MHeaders l => vec_wf header_wf l
  | MPing n | MPong n => urange 64 n
  | MMerkleBlock mb => merkle_block_wf mb
  | MFilterLoad m => filter_load_wf m
  | MFilterAdd m => fits_u64 (fa_data m)
  | MGetCFilters m | MGetCFHeaders m => get_cfilters_wf m
  | MCFilter m => cfilter_wf m
  | MCFHeaders m => cfheaders_wf m
  | MGetCFCheckpt m => get_cfcheckpt_wf m
  | MCFCheckpt m => cfcheckpt_wf m
  | MSendCmpct m => urange 64 (sc_version m)
  | MCmpctBlock m => cmpct_wf (compact_block m)
  | MGetBlockTxn m => request_wf tx_size (txs_request m)
  | MBlockTxn m => is_array 32 (reply_hash (block_transactions m)) ∧ vec_wf tx_wf (transactions (block_transactions m))
  | MAlert l => fits_u64 l
  | MReject m => reject_wf m
  | MFeeFilter fee => srange 64 fee
  | MAddrV2 l => vec_wf v2_wf l
  | MVerack | MMemPool | MSendHeaders | MGetAddr | MFilterClear | MWtxidRelay | MSendAddrV2 => True
  | MUnknown _ _ => False
  end.
End Laws.
