(* ===== verification/Envelope.v ===== *)
(** What the envelope of a network message carries: well-formed messages are read back, what
    is accepted has the right checksum, and the messages that are not read back. *)

From S2P Require Import Witness.
From Stdlib Require Import String ZArith Lia ZifyBool.
From stdpp Require Import base list strings.
From Stdlib Require Import Init.Byte.
From coqutil Require Import Byte Word.LittleEndianList.
From S2P Require Import Prelude Io HashEngine Sha256 Encode Mimblewimble Units MerkleTree Transaction Block Bip152.
From S2P Require Import Text Utf8 Network P2p Messages.

(** ** Commands *)

(** The arm of a command that occurs once. *)
Lemma find_arm {A} (l : list (string * A)) k v :
  NoDup (map (λ p, str (fst p)) l) → (k, v) ∈ l → List.find (λ '(name, _), bool_decide (str k = str name)) l = Some (k, v).
Proof.
  induction l as [|[k' v'] l IH]; intros Hd Hin; [by apply elem_of_nil in Hin|]. cbn [map fst] in Hd.
  apply NoDup_cons in Hd as [Hk Hd]. cbn [List.find]. apply elem_of_cons in Hin as [[= -> ->]|Hin]; [by rewrite bool_decide_eq_true_2|].
  rewrite bool_decide_eq_false_2; [by apply IH|]. intros Heq. apply Hk. rewrite <- Heq.
  apply (list_elem_of_fmap_2 (λ p, str (fst p)) l (k, v)) in Hin. exact Hin.
Qed.

Lemma arms_names `{PublicKeys} tx_size : NoDup (map (λ p, str (fst p)) (arms tx_size)).
Proof.
  assert (map (λ p, str (fst p)) (arms tx_size) = map str (map fst (arms tx_size))) as -> by (by rewrite map_map).
  cbn [arms map fst]. apply (bool_decide_unpack _). vm_compute. exact I.
Qed.

Section Envelope.
Context `{Hpk : PublicKeyLaws}.

Lemma payload_decode_arm tx_size name (arm : rd NetworkMessage) s m rest :
  (name, arm) ∈ arms tx_size → arm s = Ok (m, rest) → payload_decode tx_size (str name) s = Ok m.
Proof.
  intros Hin Ha. unfold payload_decode. rewrite (find_arm _ name arm (arms_names tx_size) Hin). by rewrite Ha.
Qed.

(** An arm that reads one field, and one that reads nothing. *)
Lemma field_arm {A} (c : codec A) (wf : A → Prop) `{!RoundTrip c wf} tx_size name (K : A → NetworkMessage) x :
  (name, let! x := c_dec c in rd_ret (K x)) ∈ arms tx_size → wf x →
  ∃ bs, (let+ n := c_enc c x in w_ret (Some n)) = Ok (Some (Z.of_nat (length bs)), bs) ∧
    ∀ rest, payload_decode tx_size (str name) (bs ++ rest) = Ok (K x).
Proof.
  intros Hin Hx. destruct (roundtrip x Hx) as (bs & He & Hr). exists bs. split.
  - unfold encodes in He. rewrite He. unfold w_bind, w_ret. by rewrite app_nil_r.
  - intros rest. eapply payload_decode_arm; [exact Hin|]. unfold rd_bind. by rewrite Hr.
Qed.

Lemma unit_arm tx_size name x :
  (name, rd_ret x) ∈ arms tx_size →
  ∃ bs, (let+ n := w_ret 0 in w_ret (Some n) : wr (option Z)) = Ok (Some (Z.of_nat (length bs)), bs) ∧
    ∀ rest, payload_decode tx_size (str name) (bs ++ rest) = Ok x.
Proof. intros Hin. exists []. split; [done|]. intros rest. by eapply payload_decode_arm. Qed.

Ltac in_arms := unfold arms; repeat first [apply list_elem_of_here|apply list_elem_of_further].

(** Every well-formed message is written, and read under its command whatever follows. *)
Lemma payload_roundtrip tx_size m :
  message_wf tx_size m → ∃ bs, payload_encode m = Ok (Some (Z.of_nat (length bs)), bs) ∧
    ∀ rest, payload_decode tx_size (str (cmd m)) (bs ++ rest) = Ok m.
Proof.
  destruct m; cbn [message_wf payload_encode cmd]; intros Hw;
    try (apply unit_arm; in_arms);
    try (eapply (field_arm _ _); [in_arms|exact Hw]).
  - destruct (headers_roundtrip l Hw) as (bs & He & Hr). exists bs. split; [rewrite He; unfold w_bind, w_ret; by rewrite app_nil_r|].
    intros rest. eapply payload_decode_arm; [in_arms|]. unfold rd_bind. by rewrite Hr.
  - destruct (proj1 (request_codec_spec tx_size (txs_request m) [] []) Hw) as (bs & He & Hr). exists bs. split.
    + unfold get_block_txn_encode. rewrite (w_add_of _ _ _ _ He). unfold w_bind, w_ret. by rewrite app_nil_r.
    + intros rest. eapply payload_decode_arm; [in_arms|]. unfold get_block_txn_decode, rd_bind. rewrite Hr. by destruct m.
  - done.
Qed.

(** *** The command in twelve bytes *)

Definition plain_command (s : list Z) : Prop := Forall (λ c, 0 < c < 0x80) s ∧ (length s <= 12)%nat.

Lemma as_bytes_plain s : Forall (λ c, 0 < c < 0x80) s → as_bytes s = map byte.of_Z s.
Proof.
  induction 1 as [|c s Hc _ IH]; [done|]. cbn [map as_bytes mbind list_bind]. fold (as_bytes s). rewrite IH.
  unfold encode_char. rewrite len_utf8_ascii by lia. done.
Qed.

Definition command_bytes (s : list Z) : list byte := map byte.of_Z s ++ replicate (12 - length s) x00.

Lemma command_encode_plain s : plain_command s → command_encode s = Ok (Some 12, command_bytes s).
Proof.
  intros [Hs Hl]. unfold command_encode. rewrite (as_bytes_plain s Hs), length_map.
  destruct (Nat.leb_spec (length s) 12); [|lia]. unfold command_bytes. cbn -[Nat.sub replicate].
  rewrite !app_nil_r, length_app, length_map, length_replicate. by replace (length s + (12 - length s))%nat with 12%nat by lia.
Qed.

Lemma length_command_bytes s : plain_command s → length (command_bytes s) = 12%nat.
Proof. intros [_ Hl]. unfold command_bytes. rewrite length_app, length_map, length_replicate. lia. Qed.

Lemma command_decode_plain s rest : plain_command s → command_decode (command_bytes s ++ rest) = Ok (s, rest).
Proof.
  intros Hp. unfold command_decode, rd_bind.
  rewrite (read_array_app 12) by (unfold is_array; by rewrite length_command_bytes).
  unfold rd_ret. do 2 f_equal. destruct Hp as [Hs _]. unfold command_bytes. rewrite omap_app.
  assert (∀ n, omap (λ u, if 0 <? byte.unsigned u then Some (byte.unsigned u) else None) (replicate n x00) = []) as ->
    by (induction n; done).
  rewrite app_nil_r. induction Hs as [|c s Hc _ IH]; [done|]. cbn [map omap list_omap].
  rewrite byte_of_Z_u by (unfold urange; lia). destruct (Z.ltb_spec 0 c); [|lia]. by f_equal.
Qed.

Lemma command_known tx_size m : message_wf tx_size m → command m = Some (str (cmd m)) ∧ plain_command (str (cmd m)).
Proof.
  intros Hw. assert (bool_decide (plain_command (str (cmd m))) = true) as Hp by (destruct m; vm_compute; reflexivity).
  split; [by destruct m|]. by apply bool_decide_eq_true in Hp.
Qed.

(** *** The envelope *)

(** The bytes of a message. *)
Definition raw_bytes (magic cmd payload : list byte) : list byte :=
  magic ++ cmd ++ le_split 4 (Z.of_nat (length payload)) ++ sha2_checksum payload ++ payload.

Lemma length_sum p : length (sha2_checksum p) = 4%nat.
Proof. unfold sha2_checksum. rewrite length_take, length_sha256d_hash_any. done. Qed.

Lemma then_encode_of w n b1 len k r b2 :
  w = Ok (Some n, b1) → k (len + n) = Ok (r, b2) → then_encode w len k = Ok (r, b1 ++ b2).
Proof. intros -> Hk. unfold then_encode. by eapply w_bind_of. Qed.

Lemma raw_encode_bytes magic m c p n :
  is_array 4 magic → command m = Some c → plain_command c → payload_encode m = Ok (Some n, p) →
  n = Z.of_nat (length p) →
  raw_encode {| raw_magic := magic; raw_payload := m; payload_len := n; raw_checksum := sha2_checksum p |}
  = Ok (Some (Z.of_nat (length (raw_bytes magic (command_bytes c) p))), raw_bytes magic (command_bytes c) p).
Proof.
  intros Hm Hc Hp He Hn. unfold raw_encode. cbn [raw_magic raw_payload payload_len raw_checksum]. rewrite Hc.
  assert (encodes (array 4) magic magic) as Hem by (unfold encodes; cbn; by rewrite app_nil_r).
  assert (encodes (array 4) (sha2_checksum p) (sha2_checksum p)) as Hes by (unfold encodes; cbn; by rewrite app_nil_r).
  assert (encodes u32 n (le_split 4 n)) as Hel by (unfold encodes; cbn; by rewrite app_nil_r).
  unfold raw_bytes. subst n. eapply w_bind_of; [apply w_add_of, Hem|].
  eapply then_encode_of; [by apply command_encode_plain|]. eapply w_bind_of; [apply w_add_of, Hel|].
  eapply w_bind_of; [apply w_add_of, Hes|].
  rewrite !length_app, !Nat2Z.inj_add, length_command_bytes, length_le_split by done.
  unfold then_encode. rewrite He. unfold w_bind, w_ret. rewrite app_nil_r. do 3 f_equal. lia.
Qed.

Lemma checked_data_reads p rest :
  Z.of_nat (length p) <= U32_MAX →
  checked_data_decode (le_split 4 (Z.of_nat (length p)) ++ sha2_checksum p ++ p ++ rest) = Ok (checked_data_new p, rest).
Proof.
  intros Hl. unfold checked_data_decode, rd_bind. cbn [c_dec u32 uint fixed_codec array].
  rewrite read_uint_app by (unfold urange, U32_MAX in *; lia).
  unfold read_slice at 1. rewrite rd_exact_app by (by rewrite length_sum).
  rewrite read_bytes_eq by (unfold MAX_VEC_SIZE; lia). unfold read_slice. rewrite rd_exact_app by done.
  rewrite decide_False by (intros Hn; by apply Hn). done.
Qed.

Lemma raw_decode_bytes tx_size magic c m p rest :
  is_array 4 magic → plain_command c → Z.of_nat (length p) <= U32_MAX → payload_decode tx_size c p = Ok m →
  raw_decode tx_size (raw_bytes magic (command_bytes c) p ++ rest)
  = Ok ({| raw_magic := magic; raw_payload := m; payload_len := Z.of_nat (length p); raw_checksum := sha2_checksum p |}, rest).
Proof.
  intros Hm Hc Hl Hd. unfold raw_decode, raw_bytes. rewrite <- !app_assoc. unfold rd_bind at 1.
  change (c_dec Magic.magic_codec) with (c_dec_top (array 4)). rewrite (read_array_app _ _ _ Hm).
  unfold rd_bind at 1. rewrite (command_decode_plain c _ Hc). unfold rd_bind at 1. rewrite (checked_data_reads p rest Hl).
  cbn [Encode.data Encode.checksum checked_data_new]. unfold rd_bind, rd_lift. rewrite Hd. unfold rd_ret.
  by rewrite uwrap_small by (unfold urange, U32_MAX in *; lia).
Qed.

(** The payload is of the kind that the command names. *)
Lemma payload_kind tx_size c p m :
  payload_decode tx_size c p = Ok m → command m = Some c ∧ (m = MUnknown c p ∨ c = str (cmd m)).
Proof.
  unfold payload_decode. destruct (List.find _ _) as [[name arm]|] eqn:Hf; [|intros [= <-]; by split; [|left]].
  apply find_some in Hf as [Hin Heq]. apply bool_decide_eq_true in Heq as ->. unfold arms in Hin. cbn [In] in Hin. intros Hd.
  repeat (destruct Hin as [[= <- <-]|Hin]; [|]); [..|done];
    unfold rd_bind, rd_ret in Hd; cbn [result_bind] in Hd; repeat (case_match; try done); injection Hd as <-; by split; [|right].
Qed.

Lemma command_decode_ok s c rest :
  command_decode s = Ok (c, rest) → ∃ cb, s = cb ++ rest ∧ length cb = 12%nat ∧
    c = omap (λ u, if 0 <? byte.unsigned u then Some (byte.unsigned u) else None) cb.
Proof.
  unfold command_decode. intros Hd. apply rd_bind_ok in Hd as (cb & s1 & Hc & [= <- <-]).
  apply read_array_iff in Hc as [Hl ->]; [|lia]. exists cb. unfold is_array in Hl. split_and!; [done|lia|done].
Qed.

Lemma checked_data_ok s cd rest :
  checked_data_decode s = Ok (cd, rest) →
  s = le_split 4 (Z.of_nat (length (Encode.data cd))) ++ sha2_checksum (Encode.data cd) ++ Encode.data cd ++ rest ∧
  Encode.checksum cd = sha2_checksum (Encode.data cd) ∧ urange 32 (Z.of_nat (length (Encode.data cd))).
Proof.
  unfold checked_data_decode. intros Hd. apply rd_bind_ok in Hd as (n & s1 & Hn & Hd). apply rd_bind_ok in Hd as (cs & s2 & Hcs & Hd).
  apply rd_bind_ok in Hd as (d & s3 & Hp & Hd). change (c_dec u32) with (read_uint 4) in Hn. apply read_uint_ok in Hn as [Hn ->].
  apply (read_array_iff 4) in Hcs as [Hc ->]; [|lia]. unfold urange in Hn.
  rewrite read_bytes_eq in Hp by (unfold MAX_VEC_SIZE; lia). apply read_slice_ok in Hp as [-> Hl]; [|lia].
  case_decide as Hx; [done|]. injection Hd as <- <-. cbn [Encode.data Encode.checksum]. rewrite Hl.
  destruct (decide (sha2_checksum d = cs)) as [->|]; [|done]. split_and!; [done|done|]. unfold urange. lia.
Qed.

(** C27: a well-formed message, of any kind with a name, whose payload's length fits 32 bits,
    goes over the wire: [new] computes its
    length and checksum, the encoder writes the twenty-four bytes of the header and the payload,
    and the decoder, whatever follows, gives the same message back; the one for endless readers
    does so up to five million bytes. *)
Theorem message_roundtrip tx_size magic (m : NetworkMessage) rest :
  is_array 4 magic → message_wf tx_size m → (∀ n bs, payload_encode m = Ok (Some n, bs) → n <= U32_MAX) →
  ∃ raw p, raw_new magic m = Some raw ∧ raw_payload raw = m ∧ raw_magic raw = magic ∧
    let bs := raw_bytes magic (command_bytes (str (cmd m))) p in
    raw_encode raw = Ok (Some (Z.of_nat (length bs)), bs) ∧ length bs = (24 + length p)%nat ∧
    raw_decode tx_size (bs ++ rest) = Ok (raw, rest) ∧
    (Z.of_nat (length bs) <= MAX_MSG_SIZE → raw_decode_top tx_size (bs ++ rest) = Ok (raw, rest)).
Proof.
  intros Hm Hw Hmax. destruct (payload_roundtrip tx_size m Hw) as (p & He & Hd). specialize (Hmax _ _ He).
  destruct (command_known tx_size m Hw) as [Hc Hp].
  exists {| raw_magic := magic; raw_payload := m; payload_len := Z.of_nat (length p); raw_checksum := sha2_checksum p |}, p.
  assert (∀ rest, raw_decode tx_size (raw_bytes magic (command_bytes (str (cmd m))) p ++ rest)
    = Ok ({| raw_magic := magic; raw_payload := m; payload_len := Z.of_nat (length p); raw_checksum := sha2_checksum p |}, rest)) as Hr.
  { intros rest'. apply raw_decode_bytes; [done|done|done|]. rewrite <- (app_nil_r p). apply Hd. }
  cbv zeta. split_and!; [|done|done|by apply raw_encode_bytes| |apply Hr|].
  - unfold raw_new. rewrite He. by rewrite (proj2 (Z.leb_le _ _) Hmax).
  - unfold raw_bytes. rewrite !length_app, length_command_bytes, length_le_split, length_sum by done. unfold is_array in Hm. lia.
  - intros Hl. exact (reads_take _ _ _ MAX_MSG_SIZE Hr Hl rest).
Qed.

(** C28: whatever message is accepted carries the checksum of its payload: the bytes read are the
    magic, twelve bytes of command, the length, the first four bytes of the double SHA-256 of the
    payload, and the payload; the command is those of the twelve bytes that are not zero; the
    value is the one that the command's decoder reads off the payload, of the kind the command
    names, or, for other commands, the payload itself. *)
Theorem message_accepted tx_size s (raw : RawNetworkMessage) rest :
  raw_decode tx_size s = Ok (raw, rest) →
  ∃ cb p, s = raw_bytes (raw_magic raw) cb p ++ rest ∧ is_array 4 (raw_magic raw) ∧ length cb = 12%nat ∧
    payload_len raw = Z.of_nat (length p) ∧ raw_checksum raw = sha2_checksum p ∧
    let c := omap (λ u, if 0 <? byte.unsigned u then Some (byte.unsigned u) else None) cb in
    payload_decode tx_size c p = Ok (raw_payload raw) ∧ command (raw_payload raw) = Some c ∧
    (raw_payload raw = MUnknown c p ∨ c = str (cmd (raw_payload raw))).
Proof.
  unfold raw_decode. intros Hd. apply rd_bind_ok in Hd as (magic & s1 & Hm & Hd). apply rd_bind_ok in Hd as (c & s2 & Hc & Hd).
  apply rd_bind_ok in Hd as (cd & s3 & Hcd & Hd). apply rd_bind_ok in Hd as (m & s4 & Hp & [= <- <-]).
  apply (read_array_iff 4) in Hm as [Hm ->]; [|lia]. apply command_decode_ok in Hc as (cb & -> & Hl & Hc).
  apply checked_data_ok in Hcd as (-> & Hs & Hu). unfold rd_lift in Hp.
  destruct (payload_decode tx_size c (Encode.data cd)) as [m'|] eqn:Hd; [|done]. injection Hp as <- <-.
  cbn [raw_magic raw_payload payload_len raw_checksum]. exists cb, (Encode.data cd). rewrite <- Hc.
  destruct (payload_kind _ _ _ _ Hd) as [H1 H2].
  split_and!; try done; [unfold raw_bytes; by rewrite <- !app_assoc|by apply uwrap_small].
Qed.
End Envelope.

(** ** What is not read back *)

Section NotReadBack.
Context `{PublicKeys}.

(** The decoder of an unknown message takes the payload as it is; the encoder writes it with its
    length in front, so that the payload grows with every hop. *)
Theorem unknown_grows tx_size c p rest :
  fits_u64 p → ¬ c ∈ map (λ q, str (fst q)) (arms tx_size) →
  payload_decode tx_size c p = Ok (MUnknown c p) ∧
  payload_encode (MUnknown c p) = Ok (Some (varint_size (Z.of_nat (length p)) + Z.of_nat (length p)), varint_bytes (Z.of_nat (length p)) ++ p) ∧
  payload_decode tx_size c (varint_bytes (Z.of_nat (length p)) ++ p ++ rest) = Ok (MUnknown c (varint_bytes (Z.of_nat (length p)) ++ p ++ rest)).
Proof.
  intros Hp Hc. assert (∀ q, payload_decode tx_size c q = Ok (MUnknown c q)) as Hd.
  { intros q. unfold payload_decode. destruct (List.find _ _) as [[name arm]|] eqn:Hf; [|done].
    apply find_some in Hf as [Hin Heq]. apply bool_decide_eq_true in Heq as ->. destruct Hc.
    apply list_elem_of_In, in_map_iff. by exists (name, arm). }
  split_and!; [apply Hd| |apply Hd]. cbn [payload_encode]. pose proof (bytes_encodes p Hp) as He. unfold encodes in He. rewrite He.
  unfold w_bind, w_ret. rewrite app_nil_r, length_app, Nat2Z.inj_add, length_varint_bytes. done.
Qed.

(** The error entry of an inventory is written with a hash of zeros, which its decoder leaves
    in the stream: the block after it is read as a second error. *)
Example error_entry_misread :
  match serialize (vec inventory_codec) [InvError; InvBlock (replicate 32 x01)] with
  | Ok bs => deserialize_partial (vec inventory_codec) bs = Ok ([InvError; InvError], 9)
  | Err _ => False
  end.
Proof. vm_compute. reflexivity. Qed.

(** Twelve bytes from 0x80 up are twelve characters and twenty-four bytes: what was received
    cannot be sent on without a panic. *)
Example command_panics :
  command_decode (replicate 12 xff) = Ok (replicate 12 255, []) ∧
  command_encode (replicate 12 255) = Ok (None, []) ∧ command_try_from (replicate 12 255) = Err (replicate 12 255).
Proof. vm_compute. done. Qed.

(** A [verack] with a payload is accepted, keeps the length and checksum of the payload, and is
    written without it, as a message that its reader refuses. *)
Example trailing_payload :
  let s := raw_bytes [xfb; xc0; xb6; xdb] (command_bytes (str "verack")) [x07] in
  match raw_decode 200 s with
  | Ok (raw, _) =>
      raw_payload raw = MVerack ∧ payload_len raw = 1 ∧
      match raw_encode raw with
      | Ok (Some _, bs) => is_ok (raw_decode 200 bs) = false
      | _ => False
      end
  | Err _ => False
  end.
Proof. vm_compute. done. Qed.
End NotReadBack.

(** ** Examples *)

Definition sample_reject : Reject :=
  {| rj_message := str "tx"; rj_ccode := Duplicate; rj_reason := str "txn-mempool-conflict"; rj_hash := replicate 32 x05 |}.

Lemma sample_reject_wf : reject_wf sample_reject.
Proof. constructor; [split; [|vm_compute; done]; by repeat constructor|split; [|vm_compute; done]; by repeat constructor|done]. Qed.

Lemma message_roundtrip_witness :
  ∃ raw p, raw_new (H := PlainKeys.plain_keys) Magic.BITCOIN (MReject sample_reject) = Some raw ∧
    raw_decode 200 (raw_bytes Magic.BITCOIN (command_bytes (str "reject")) p ++ [x00]) = Ok (raw, [x00]).
Proof.
  destruct (message_roundtrip (Hpk := PlainKeys.plain_keys_laws) 200 Magic.BITCOIN (MReject sample_reject) [x00])
    as (raw & p & Hn & _ & _ & _ & _ & Hd & _).
  - reflexivity.
  - exact sample_reject_wf.
  - assert (match payload_encode (H := PlainKeys.plain_keys) (MReject sample_reject) with Ok (Some n, _) => n <=? U32_MAX | _ => false end
            = true) as Hs by (vm_compute; reflexivity).
    intros n bs He. rewrite He in Hs. by apply Z.leb_le.
  - exists raw, p. split; [exact Hn|exact Hd].
Defined.

Lemma message_accepted_witness :
  ∃ raw, raw_decode (H := PlainKeys.plain_keys) 200
      (raw_bytes Magic.BITCOIN (command_bytes (str "ping")) (le_split 8 77)) = Ok (raw, []) ∧
    raw_checksum raw = sha2_checksum (le_split 8 77).
Proof.
  assert (∃ raw, raw_decode (H := PlainKeys.plain_keys) 200
    (raw_bytes Magic.BITCOIN (command_bytes (str "ping")) (le_split 8 77)) = Ok (raw, []) ∧ payload_len raw = 8) as (raw & Hr & Hl).
  { eexists. split; [vm_compute; reflexivity|reflexivity]. }
  exists raw. split; [exact Hr|]. destruct (message_accepted _ _ _ _ Hr) as (cb & p & Hs & Hm & Hc & Hpl & Hck & _).
  rewrite Hck. f_equal. rewrite app_nil_r in Hs. unfold raw_bytes in Hs.
  assert (length p = 8%nat) as Hp by lia.
  rewrite !app_assoc in Hs. apply app_inj_2 in Hs as [_ Hs]; [done|by rewrite Hp, length_le_split].
Defined.

Lemma unknown_grows_witness :
  payload_decode (H := PlainKeys.plain_keys) 200 (str "feature") ([x02] ++ [x01; x02] ++ []) = Ok (MUnknown (str "feature") [x02; x01; x02]).
Proof.
  apply (unknown_grows (H := PlainKeys.plain_keys) 200 (str "feature") [x01; x02] []); [done|].
  change (¬ str "feature" ∈ map str (map fst (arms (H := PlainKeys.plain_keys) 200))).
  apply (bool_decide_eq_false_1 _). vm_compute. reflexivity.
Defined.
