(* ===== verification/Bech32.v ===== *)
(** The bech32 crate, a parameter of the addresses: its operations, what they are
    documented to do, and BIP 173 as a concrete instance. *)

From Stdlib Require Import String ZArith Lia ZifyBool.
From stdpp Require Import base list.
From Stdlib Require Import Init.Byte.
From coqutil Require Import Byte.
From S2P Require Import Prelude Text.

Inductive Checksum := Bech32 | Bech32m.
#[export] Instance checksum_eq_dec : EqDecision Checksum.
Proof. solve_decision. Defined.

(** Text is the bytes of a [&str]. *)
Definition text (s : string) : list byte := String.list_byte_of_string s.

(** [char::to_ascii_uppercase] *)
Definition to_ascii_uppercase (c : byte) : byte :=
  let x := byte.unsigned c in if (97 <=? x) && (x <=? 122) then byte.of_Z (x - 32) else c.

(** Human-readable parts with their equality; strings split into human-readable part and
    symbols, whose checksum is tested and removed; bytes and groups of five bits; and
    [iter.with_checksum::<Ck>(&hrp).with_witness_version(fe).bytes()]. *)
Class Bech32Crate := {
  Hrp : Type;
  hrp_parse_unchecked : list byte → Hrp;
  hrp_eqb : Hrp → Hrp → bool;
  hrp_to_lowercase : Hrp → list byte;
  UncheckedHrpstring : Type;
  unchecked_new : list byte → option UncheckedHrpstring;
  unchecked_hrp : UncheckedHrpstring → Hrp;
  has_valid_checksum : Checksum → UncheckedHrpstring → bool;
  remove_checksum : Checksum → UncheckedHrpstring → list Z;
  bytes_to_fes : list byte → list Z;
  fes_to_bytes : list Z → list byte;
  encode_chars : Checksum → Hrp → Z → list Z → list byte }.

(** Human-readable parts in use: lower-case letters. *)
Definition hrp_plain (h : list byte) : Prop := h ≠ [] ∧ (length h <= 83)%nat ∧ Forall (λ c, 97 <= byte.unsigned c <= 122) h.

Definition is_fe (v : Z) : Prop := 0 <= v < 32.

(** Documented: bytes become as few groups as hold them, and back; human-readable parts
    are compared ignoring case; what is encoded (1023 characters at most), in either
    case, is split into what it was made of and has the checksum it was made with, not
    the other. *)
Class Bech32Laws `{Bech32Crate} : Prop := {
  fes_bytes bs : fes_to_bytes (bytes_to_fes bs) = bs;
  fes_range bs : Forall is_fe (bytes_to_fes bs);
  fes_length bs : (5 * length (bytes_to_fes bs) <= 8 * length bs + 4)%nat;
  encode_parsed (upper : bool) ck h v fes : hrp_plain h → is_fe v → Forall is_fe fes →
    (length h + 1 + 1 + length fes + 6 <= 1023)%nat →
    let s := encode_chars ck (hrp_parse_unchecked h) v fes in
    ∃ u, unchecked_new (if upper then map to_ascii_uppercase s else s) = Some u ∧
      (∀ h', hrp_plain h' → hrp_eqb (unchecked_hrp u) (hrp_parse_unchecked h') = bool_decide (h = h')) ∧
      (∀ ck', has_valid_checksum ck' u = bool_decide (ck = ck')) ∧
      remove_checksum ck u = v :: fes }.

(** ** BIP 173 and BIP 350 *)

Module Bip173.

Definition CHARSET : list byte := text "qpzry9x8gf2tvdw0s3jn54khce6mua7l".

Definition is_upper (c : byte) : bool := (65 <=? byte.unsigned c) && (byte.unsigned c <=? 90).
Definition is_lower (c : byte) : bool := (97 <=? byte.unsigned c) && (byte.unsigned c <=? 122).
Definition to_lower (c : byte) : byte := if is_upper c then byte.of_Z (byte.unsigned c + 32) else c.

Definition fe_of (c : byte) : option Z :=
  (λ x, Z.of_nat (fst x)) <$> list_find (λ x, x = to_lower c) CHARSET.
Definition char_of (v : Z) : byte := default x00 (CHARSET !! Z.to_nat v).

(** Bits, the most significant first. *)
Definition bits (n : nat) (v : Z) : list bool := map (λ i, Z.testbit v (Z.of_nat i)) (rev (seq 0 n)).
Definition from_bits (bs : list bool) : Z := num 2 (map Z.b2z bs).

(** Groups of [n] bits; the last one padded with zeros, or dropped. *)
Fixpoint groups (n fuel : nat) (bs : list bool) : list (list bool) :=
  match fuel with
  | O => []
  | S fuel => match bs with [] => [] | _ => take n bs :: groups n fuel (drop n bs) end
  end.
Definition padded (n : nat) (g : list bool) : list bool := g ++ replicate (n - length g) false.

Definition bytes_bits (bs : list byte) : list bool := concat (map (λ b, bits 8 (byte.unsigned b)) bs).
Definition fes_bits (fes : list Z) : list bool := concat (map (bits 5) fes).

Definition to_fes (bs : list byte) : list Z :=
  let l := bytes_bits bs in map (λ g, from_bits (padded 5 g)) (groups 5 (length l) l).
Definition to_bytes (fes : list Z) : list byte :=
  let l := fes_bits fes in
  map (λ g, byte.of_Z (from_bits g)) (filter (λ g, length g = 8%nat) (groups 8 (length l) l)).

(** The checksum is a remainder, computed symbol by symbol. *)
Definition generator (t : Z) : Z :=
  foldr Z.lxor 0 (map (λ x : Z * Z, if Z.testbit t (fst x) then snd x else 0)
    [(0, 0x3b6a57b2); (1, 0x26508e6d); (2, 0x1ea119fa); (3, 0x3d4233dd); (4, 0x2a1462b3)]).
Definition step (c v : Z) : Z :=
  Z.lxor (Z.lxor (Z.shiftl (Z.land c (Z.ones 25)) 5) v) (generator (Z.shiftr c 25)).
Definition polymod (values : list Z) : Z := foldl step 1 values.

Definition target (ck : Checksum) : Z := match ck with Bech32 => 1 | Bech32m => 0x2bc830a3 end.

Definition hrp_expand (h : list byte) : list Z :=
  map (λ c, Z.shiftr (byte.unsigned (to_lower c)) 5) h ++ [0] ++ map (λ c, Z.land (byte.unsigned (to_lower c)) 31) h.

Definition digits_of (m : Z) : list Z := map (λ i, Z.land (Z.shiftr m (5 * Z.of_nat i)) 31) (rev (seq 0 6)).

Definition checksum (ck : Checksum) (h : list byte) (fes : list Z) : list Z :=
  digits_of (Z.lxor (polymod (hrp_expand h ++ fes ++ replicate 6 0)) (target ck)).

Definition encode (ck : Checksum) (h : list byte) (v : Z) (fes : list Z) : list byte :=
  map to_lower h ++ text "1" ++ map char_of ((v :: fes) ++ checksum ck h (v :: fes)).

(** At the last separator. *)
Definition split_last_one (s : list byte) : option (list byte * list byte) :=
  '(i, _) ← list_find (λ c, c = x31) (rev s);
  Some (take (length s - S i) s, drop (length s - i) s).

Definition parse (s : list byte) : option (list byte * list Z) :=
  '(h, d) ← split_last_one s;
  if forallb (negb ∘ is_upper) s || forallb (negb ∘ is_lower) s then
    if (1 <=? length h)%nat && (length h <=? 83)%nat && forallb (λ c, (33 <=? byte.unsigned c) && (byte.unsigned c <=? 126)) h then
      fes ← mapM fe_of d; Some (h, fes)
    else None
  else None.

#[export] Instance crate : Bech32Crate := {
  Hrp := list byte;
  hrp_parse_unchecked h := h;
  hrp_eqb h h' := bool_decide (map to_lower h = map to_lower h');
  hrp_to_lowercase := map to_lower;
  UncheckedHrpstring := list byte * list Z;
  unchecked_new := parse;
  unchecked_hrp := fst;
  has_valid_checksum ck u :=
    (6 <=? length (snd u))%nat && (length (fst u) + 1 + length (snd u) <=? 1023)%nat
    && (polymod (hrp_expand (fst u) ++ snd u) =? target ck);
  remove_checksum ck u := take (length (snd u) - 6) (snd u);
  bytes_to_fes := to_fes;
  fes_to_bytes := to_bytes;
  encode_chars := encode }.

(** *** Groups of bits *)

Lemma length_bits n v : length (bits n v) = n.
Proof. unfold bits. by rewrite length_map, length_rev, length_seq. Qed.

Lemma bits_S n v : bits (S n) v = Z.testbit v (Z.of_nat n) :: bits n v.
Proof. unfold bits. rewrite seq_S, rev_app_distr. reflexivity. Qed.

Lemma bits_digits bs : digits 2 (map Z.b2z bs).
Proof. apply Forall_map, Forall_true. intros []; cbn; lia. Qed.

Lemma from_bits_range bs : 0 <= from_bits bs < 2 ^ Z.of_nat (length bs).
Proof. unfold from_bits. pose proof (num_bound 2 _ ltac:(lia) (bits_digits bs)) as H. by rewrite length_map in H. Qed.

Lemma from_bits_bits n v : from_bits (bits n v) = v mod 2 ^ Z.of_nat n.
Proof.
  unfold from_bits. induction n as [|n IH]; [by rewrite Z.mod_1_r|]. rewrite bits_S. cbn [map]. rewrite num_cons, IH, length_map, length_bits.
  rewrite Nat2Z.inj_succ, Z.pow_succ_r, (Z.mul_comm 2) by lia. rewrite Z.rem_mul_r by lia. rewrite Z.testbit_spec' by lia. ring.
Qed.

Lemma from_bits_inj bs cs : length bs = length cs → from_bits bs = from_bits cs → bs = cs.
Proof.
  intros Hl E. apply num_inj in E; [|lia|apply bits_digits|apply bits_digits|by rewrite !length_map].
  revert cs Hl E. induction bs as [|b bs IH]; intros [|c cs] Hl E; try done. injection Hl as Hl. injection E as Eb E.
  f_equal; [by destruct b, c|by apply IH].
Qed.

Lemma bits_from_bits n bs : length bs = n → bits n (from_bits bs) = bs.
Proof.
  intros Hn. apply from_bits_inj; [by rewrite length_bits|]. rewrite from_bits_bits, <- Hn. apply Z.mod_small, from_bits_range.
Qed.

Lemma groups_padded n fuel bs : (0 < n)%nat → (length bs <= fuel)%nat →
  ∃ k, (k < n)%nat ∧ concat (map (padded n) (groups n fuel bs)) = bs ++ replicate k false ∧
    (n * length (groups n fuel bs) = length bs + k)%nat ∧ Forall (λ g, length (padded n g) = n) (groups n fuel bs).
Proof.
  intros Hn. revert bs. induction fuel as [|fuel IH]; intros bs Hl.
  { destruct bs; [|cbn in Hl; lia]. exists 0%nat. cbn. split_and!; [lia|done|lia|constructor]. }
  destruct bs as [|b bs]; [exists 0%nat; cbn; split_and!; [lia|done|lia|constructor]|].
  cbn [groups map concat length]. assert (length (padded n (take n (b :: bs))) = n) as Hp.
  { unfold padded. rewrite length_app, length_replicate, length_take. lia. }
  destruct (Nat.le_gt_cases (length (b :: bs)) n) as [Hle|Hgt].
  - rewrite (drop_ge (b :: bs)) by done. rewrite (take_ge (b :: bs)) in * by done. exists (n - length (b :: bs))%nat.
    assert (groups n fuel [] = []) as -> by by destruct fuel. cbn [map concat length]. rewrite app_nil_r.
    split_and!; [cbn; lia|done|cbn in *; lia|]. by repeat constructor.
  - destruct (IH (drop n (b :: bs))) as (k & Hk & Hc & Hg & Hf); [rewrite length_drop; cbn in *; lia|].
    exists k. rewrite Hc, Nat.mul_succ_r, Hg, length_drop. split_and!; [done| |cbn in *; lia|by constructor].
    unfold padded. rewrite length_take, (Nat.min_l n) by lia. rewrite Nat.sub_diag. cbn [replicate]. rewrite app_nil_r.
    by rewrite app_assoc, take_drop.
Qed.

(** Whole groups are found again, and what is left over is dropped. *)
Lemma groups_whole n fuel gs rest : Forall (λ g : list bool, length g = n) gs → (length rest < n)%nat →
  (length (concat gs ++ rest) <= fuel)%nat → filter (λ g, length g = n) (groups n fuel (concat gs ++ rest)) = gs.
Proof.
  intros Hgs Hr. revert fuel. induction Hgs as [|g gs Hg _ IH]; intros fuel Hf; cbn [concat app] in *.
  - destruct fuel as [|fuel]; [done|]. cbn [groups]. destruct rest as [|b rest]; [done|].
    rewrite (take_ge (b :: rest)), (drop_ge (b :: rest)) by lia. rewrite filter_cons_False by lia. by destruct fuel.
  - rewrite <- app_assoc in *. rewrite length_app in Hf. destruct fuel as [|fuel]; [lia|]. cbn [groups].
    destruct (g ++ concat gs ++ rest) as [|b l] eqn:E; [apply app_eq_nil in E as [-> _]; cbn in *; lia|]. rewrite <- E.
    rewrite take_app_length', drop_app_length' by done.
    rewrite filter_cons_True by done. f_equal. apply IH. lia.
Qed.

Lemma byte_bits_groups bs : Forall (λ g : list bool, length g = 8%nat) (map (λ b, bits 8 (byte.unsigned b)) bs).
Proof. apply Forall_map, Forall_true. intros b. apply length_bits. Qed.

Lemma fes_bits_to_fes bs : ∃ k, (k < 5)%nat ∧ fes_bits (to_fes bs) = bytes_bits bs ++ replicate k false ∧
  (5 * length (to_fes bs) = length (bytes_bits bs) + k)%nat ∧ Forall is_fe (to_fes bs).
Proof.
  unfold fes_bits, to_fes. destruct (groups_padded 5 (length (bytes_bits bs)) (bytes_bits bs)) as (k & Hk & Hc & Hl & Hf); [lia|lia|].
  exists k. rewrite <- Hc, length_map, map_map. split_and!; [done| |done|].
  - f_equal. clear Hc Hl. induction Hf as [|g gs Hg _ IH]; [done|]. cbn [map]. by rewrite IH, bits_from_bits.
  - apply Forall_map. eapply Forall_impl; [exact Hf|]. intros g Hg. pose proof (from_bits_range (padded 5 g)) as Hr. by rewrite Hg in Hr.
Qed.

Lemma length_bytes_bits bs : length (bytes_bits bs) = (8 * length bs)%nat.
Proof.
  unfold bytes_bits. induction bs as [|b bs IH]; [done|]. cbn [map concat length]. rewrite length_app, IH, length_bits. lia.
Qed.

Lemma to_bytes_to_fes bs : to_bytes (to_fes bs) = bs.
Proof.
  unfold to_bytes. destruct (fes_bits_to_fes bs) as (k & Hk & -> & _). unfold bytes_bits.
  rewrite groups_whole; [|apply byte_bits_groups|rewrite length_replicate; lia|done].
  rewrite map_map. rewrite <- (map_id bs) at 2. apply map_ext. intros b. rewrite from_bits_bits.
  rewrite Z.mod_small by (pose proof (byte.unsigned_range b); cbn; lia). apply byte.of_Z_unsigned.
Qed.

(** *** The checksum *)

Ltac xor_bits := apply Z.bits_inj'; intros i Hi;
  repeat first [rewrite Z.lxor_spec | rewrite Z.land_spec | rewrite Z.bits_0];
  repeat match goal with |- context [Z.testbit ?a i] => destruct (Z.testbit a i) end; reflexivity.

Lemma land_ones_small e : 0 <= e < 2 ^ 25 → Z.land e (Z.ones 25) = e ∧ Z.shiftr e 25 = 0.
Proof. intros He. rewrite Z.land_ones, Z.shiftr_div_pow2 by lia. split; [by apply Z.mod_small|by apply Z.div_small]. Qed.

(** A change of the state or the symbol goes through a step, until it reaches the top. *)
Lemma step_linear c e v w : 0 <= e < 2 ^ 25 →
  step (Z.lxor c e) (Z.lxor v w) = Z.lxor (step c v) (Z.lxor (Z.shiftl e 5) w).
Proof.
  intros He. unfold step. destruct (land_ones_small e He) as [E1 E2]. rewrite Z.shiftr_lxor, E2, Z.lxor_0_r.
  assert (Z.land (Z.lxor c e) (Z.ones 25) = Z.lxor (Z.land c (Z.ones 25)) e) as ->.
  { rewrite <- E1 at 2. xor_bits. }
  rewrite Z.shiftl_lxor. xor_bits.
Qed.

Definition shift_in (e d : Z) : Z := Z.lxor (Z.shiftl e 5) d.

Lemma shift_in_eq e d : 0 <= e → is_fe d → shift_in e d = 32 * e + d.
Proof.
  intros He [Hd Hd']. unfold shift_in. rewrite <- Z.add_nocarry_lxor.
  - rewrite Z.shiftl_mul_pow2 by lia. lia.
  - apply Z.bits_inj'. intros i Hi. rewrite Z.land_spec, Z.bits_0, Z.shiftl_spec by lia.
    destruct (Z.ltb_spec i 5) as [Hlt|Hge]; [by rewrite Z.testbit_neg_r by lia|].
    rewrite (Z.bits_above_log2 d i); [apply andb_false_r|lia|].
    destruct (Z.eq_dec d 0) as [->|]; [cbn; lia|]. apply Z.log2_lt_pow2; [lia|].
    assert (2 ^ 5 <= 2 ^ i) by (apply Z.pow_le_mono_r; lia). lia.
Qed.

Lemma foldl_shift_in ds e : 0 <= e → Forall is_fe ds → foldl shift_in e ds = foldl (λ e d, 32 * e + d) e ds.
Proof.
  intros He Hds. revert e He. induction Hds as [|d ds Hd _ IH]; intros e He; [done|]. cbn [foldl].
  rewrite shift_in_eq by done. apply IH. unfold is_fe in Hd. lia.
Qed.

Lemma digits_of_eq m : 0 <= m < 2 ^ 30 → Forall is_fe (digits_of m) ∧ foldl shift_in 0 (digits_of m) = m.
Proof.
  intros Hm. unfold digits_of. change 31 with (Z.ones 5).
  assert (∀ i, Z.land (Z.shiftr m (5 * Z.of_nat i)) (Z.ones 5) = m / 32 ^ Z.of_nat i mod 32) as H.
  { intros i. rewrite Z.land_ones, Z.shiftr_div_pow2 by lia. by rewrite Z.pow_mul_r by lia. }
  assert (∀ i, is_fe (m / 32 ^ Z.of_nat i mod 32)) as Hf by (intros i; apply Z.mod_pos_bound; lia).
  rewrite (map_ext _ _ H). assert (Forall is_fe (map (λ i, m / 32 ^ Z.of_nat i mod 32) (rev (seq 0 6)))) as Hds
    by apply Forall_map, Forall_true, Hf.
  split; [exact Hds|]. rewrite foldl_shift_in by done. clear H Hf Hds.
  change (rev (seq 0 6)) with [5%nat; 4%nat; 3%nat; 2%nat; 1%nat; 0%nat]. cbn [map foldl].
  change (32 ^ Z.of_nat 5) with 33554432. change (32 ^ Z.of_nat 4) with 1048576. change (32 ^ Z.of_nat 3) with 32768.
  change (32 ^ Z.of_nat 2) with 1024. change (32 ^ Z.of_nat 1) with 32. change (32 ^ Z.of_nat 0) with 1. change (2 ^ 30) with 1073741824 in Hm.
  Z.to_euclidean_division_equations. lia.
Qed.

Lemma lxor_range a b : 0 <= a < 2 ^ 30 → 0 <= b < 2 ^ 30 → 0 <= Z.lxor a b < 2 ^ 30.
Proof.
  intros Ha Hb. assert (0 <= Z.lxor a b) as H0 by (apply Z.lxor_nonneg; lia). split; [done|].
  destruct (Z.eq_dec (Z.lxor a b) 0) as [->|Hn]; [lia|]. apply Z.log2_lt_pow2; [lia|].
  eapply Z.le_lt_trans; [apply Z.log2_lxor; lia|]. apply Z.max_lub_lt.
  - destruct (Z.eq_dec a 0) as [->|]; [reflexivity|]. apply Z.log2_lt_pow2; lia.
  - destruct (Z.eq_dec b 0) as [->|]; [reflexivity|]. apply Z.log2_lt_pow2; lia.
Qed.

Lemma generator_range t : 0 <= generator t < 2 ^ 30.
Proof.
  unfold generator. cbn [map foldr fst snd].
  repeat apply lxor_range; try (destruct (Z.testbit _ _)); split; try lia; reflexivity.
Qed.

Lemma step_range c v : 0 <= v < 32 → 0 <= step c v < 2 ^ 30.
Proof.
  intros Hv. unfold step. apply lxor_range; [apply lxor_range|apply generator_range].
  - rewrite Z.land_ones, Z.shiftl_mul_pow2 by lia. pose proof (Z.mod_pos_bound c (2 ^ 25)). lia.
  - lia.
Qed.

Lemma polymod_range l : Forall is_fe l → 0 <= polymod l < 2 ^ 30.
Proof.
  unfold polymod. assert (0 <= 1 < 2 ^ 30) as H1 by lia. revert H1. generalize 1. intros c Hc Hl.
  revert c Hc. induction Hl as [|v l Hv _ IH]; intros c Hc; [done|]. cbn [foldl]. by apply IH, step_range.
Qed.

(** Six symbols at the end change the remainder by their number. *)
Lemma foldl_step_linear ds c e k : (k + length ds <= 6)%nat → 0 <= e < 2 ^ (5 * Z.of_nat k) → Forall is_fe ds →
  foldl step (Z.lxor c e) ds = Z.lxor (foldl step c (replicate (length ds) 0)) (foldl shift_in e ds).
Proof.
  intros Hk He Hds. revert c e k Hk He. induction Hds as [|d ds Hd _ IH]; intros c e k Hk He; [done|].
  cbn [foldl length replicate] in *. rewrite <- (Z.lxor_0_l d) at 1. rewrite step_linear.
  - fold (shift_in e d). apply (IH _ _ (S k)); [lia|]. rewrite shift_in_eq by (lia || done). unfold is_fe in Hd.
    replace (5 * Z.of_nat (S k)) with (5 + 5 * Z.of_nat k) by lia. rewrite Z.pow_add_r by lia. lia.
  - split; [lia|]. eapply Z.lt_le_trans; [apply He|]. apply Z.pow_le_mono_r; lia.
Qed.

Lemma polymod_checksum ck h fes :
  Forall is_fe (hrp_expand h ++ fes) → polymod (hrp_expand h ++ fes ++ checksum ck h fes) = target ck.
Proof.
  intros Hf. unfold checksum. set (t := target ck). rewrite !(app_assoc (hrp_expand h)).
  set (l := hrp_expand h ++ fes) in *. assert (0 <= polymod (l ++ replicate 6 0) < 2 ^ 30) as Hp.
  { apply polymod_range, Forall_app. split; [done|]. apply Forall_replicate. unfold is_fe. lia. }
  assert (0 <= t < 2 ^ 30) as Ht by (unfold t; destruct ck; cbn; lia).
  destruct (digits_of_eq (Z.lxor (polymod (l ++ replicate 6 0)) t)) as [Hd Hs]; [by apply lxor_range|].
  unfold polymod in *. rewrite foldl_app. rewrite <- (Z.lxor_0_r (foldl step 1 l)).
  rewrite (foldl_step_linear _ _ 0 0); [|cbn; lia|cbn; lia|done]. rewrite Hs.
  change (length (digits_of _)) with 6%nat. rewrite <- foldl_app. by rewrite <- Z.lxor_assoc, Z.lxor_nilpotent, Z.lxor_0_l.
Qed.

(** *** Characters *)

Definition in_case (upper : bool) (s : list byte) : list byte := if upper then map to_ascii_uppercase s else s.
Definition case_char (upper : bool) (c : byte) : byte := if upper then to_ascii_uppercase c else c.
Definition wrong_case (upper : bool) (c : byte) : bool := if upper then is_lower c else is_upper c.

Lemma in_case_map upper s : in_case upper s = map (case_char upper) s.
Proof. destruct upper; [done|]. symmetry. apply map_id. Qed.

Definition symbol_ok (upper : bool) (i : nat) : bool :=
  let c := case_char upper (char_of (Z.of_nat i)) in
  bool_decide (fe_of c = Some (Z.of_nat i)) && negb (bool_decide (c = x31)) && negb (wrong_case upper c).

Lemma symbols_ok : forallb (symbol_ok false) (seq 0 32) && forallb (symbol_ok true) (seq 0 32) = true.
Proof. vm_compute. reflexivity. Qed.

Lemma symbol_char upper v : is_fe v →
  let c := case_char upper (char_of v) in fe_of c = Some v ∧ c ≠ x31 ∧ wrong_case upper c = false.
Proof.
  intros Hv c. assert (symbol_ok upper (Z.to_nat v) = true) as H.
  { pose proof symbols_ok as [H1 H2]%andb_true_iff. rewrite forallb_forall in H1, H2. unfold is_fe in Hv.
    destruct upper; [apply H2|apply H1]; apply in_seq; lia. }
  unfold symbol_ok in H. rewrite Z2Nat.id in H by (unfold is_fe in Hv; lia). fold c in H.
  apply andb_true_iff in H as [[H1%bool_decide_eq_true H2%negb_true_iff]%andb_true_iff H3%negb_true_iff].
  apply bool_decide_eq_false in H2. done.
Qed.

Lemma letter_char upper c : 97 <= byte.unsigned c <= 122 →
  let c' := case_char upper c in
  to_lower c' = c ∧ wrong_case upper c' = false ∧ (33 <=? byte.unsigned c') && (byte.unsigned c' <=? 126) = true.
Proof. destruct upper, c; try (intros Hc; exfalso; cbn in Hc; lia); intros _; vm_compute; split_and!; reflexivity. Qed.

Lemma map_in_case_lower upper h : Forall (λ c, 97 <= byte.unsigned c <= 122) h → map to_lower (in_case upper h) = h.
Proof.
  rewrite in_case_map, map_map. induction 1 as [|c h Hc _ IH]; [done|]. cbn [map].
  rewrite IH. f_equal. by apply letter_char.
Qed.

Lemma map_lower h : Forall (λ c, 97 <= byte.unsigned c <= 122) h → map to_lower h = h.
Proof. apply (map_in_case_lower false). Qed.

Lemma hrp_expand_case upper h : Forall (λ c, 97 <= byte.unsigned c <= 122) h → hrp_expand (in_case upper h) = hrp_expand h.
Proof.
  intros Hh. assert (∀ (f : byte → Z) l, map (λ c, f (to_lower c)) l = map f (map to_lower l)) as E by (intros; by rewrite map_map).
  unfold hrp_expand. rewrite !(E (λ c, Z.shiftr (byte.unsigned c) 5)), !(E (λ c, Z.land (byte.unsigned c) 31)).
  by rewrite map_in_case_lower, map_lower.
Qed.

Lemma hrp_expand_fe h : Forall (λ c, 97 <= byte.unsigned c <= 122) h → Forall is_fe (hrp_expand h).
Proof.
  intros Hh. unfold hrp_expand. rewrite !Forall_app, !Forall_map. split_and!.
  - apply Forall_true. intros c. rewrite Z.shiftr_div_pow2 by lia. pose proof (byte.unsigned_range (to_lower c)). unfold is_fe.
    split; [apply Z.div_pos; lia|apply Z.div_lt_upper_bound; lia].
  - repeat constructor; unfold is_fe; lia.
  - apply Forall_true. intros c. change 31 with (Z.ones 5). rewrite Z.land_ones by lia. apply Z.mod_pos_bound. lia.
Qed.

Lemma split_at_one h d : x31 ∉ d → split_last_one (h ++ [x31] ++ d) = Some (h, d).
Proof.
  intros Hd. unfold split_last_one. rewrite !rev_app_distr. cbn [rev app].
  assert (list_find (λ c, c = x31) (rev d) = None) as E.
  { apply list_find_None, Forall_forall. intros c Hc ->. apply Hd. apply list_elem_of_In, in_rev, list_elem_of_In, Hc. }
  rewrite <- app_assoc, (list_find_app_r _ _ _ E). cbn [app list_find]. rewrite decide_True by done. cbn [fmap option_fmap option_map prod_map mbind option_bind].
  rewrite length_rev, !length_app. cbn [length Nat.add fst]. f_equal. f_equal.
  - apply take_app_length'. lia.
  - change (x31 :: d) with ([x31] ++ d). rewrite app_assoc. apply drop_app_length'. rewrite length_app. cbn [length]. lia.
Qed.

Lemma mapM_symbols upper l : Forall is_fe l → mapM fe_of (in_case upper (map char_of l)) = Some l.
Proof.
  rewrite in_case_map. induction 1 as [|v l Hv _ IH]; [done|]. cbn [map mapM].
  destruct (symbol_char upper v Hv) as (-> & _). cbn [mbind option_bind]. by rewrite IH.
Qed.

Lemma one_case upper s : Forall (λ c, wrong_case upper c = false) s →
  forallb (negb ∘ is_upper) s || forallb (negb ∘ is_lower) s = true.
Proof.
  intros Hs. assert (forallb (negb ∘ wrong_case upper) s = true) as E.
  { apply forallb_forall. intros c Hc. rewrite Forall_forall in Hs. cbn. by rewrite Hs by by apply list_elem_of_In. }
  apply orb_true_iff. destruct upper; [right|left]; exact E.
Qed.

Lemma parse_encode upper ck h v fes : hrp_plain h → is_fe v → Forall is_fe fes →
  parse (in_case upper (encode ck h v fes)) = Some (in_case upper h, (v :: fes) ++ checksum ck h (v :: fes)).
Proof.
  intros (Hne & Hlen & Hh) Hv Hfes. set (l := (v :: fes) ++ checksum ck h (v :: fes)).
  assert (Forall is_fe l) as Hl.
  { apply Forall_app. split; [by constructor|]. unfold checksum. apply digits_of_eq, lxor_range.
    - apply polymod_range. rewrite !Forall_app. split_and!; [by apply hrp_expand_fe|by constructor|]. apply Forall_replicate. unfold is_fe. lia.
    - destruct ck; cbn; lia. }
  assert (in_case upper (encode ck h v fes) = in_case upper h ++ [x31] ++ in_case upper (map char_of l)) as ->.
  { unfold encode. rewrite map_lower by done. fold l. rewrite !in_case_map, !map_app. by destruct upper. }
  assert (Forall (λ c, c ≠ x31 ∧ wrong_case upper c = false) (in_case upper (map char_of l))) as Hc.
  { rewrite in_case_map, !Forall_map. eapply Forall_impl; [exact Hl|]. intros w Hw. by apply symbol_char. }
  assert (Forall (λ c, wrong_case upper c = false ∧ (33 <=? byte.unsigned c) && (byte.unsigned c <=? 126) = true) (in_case upper h)) as Hhc.
  { rewrite in_case_map, Forall_map. eapply Forall_impl; [exact Hh|]. intros c Hcc. by apply letter_char. }
  unfold parse. rewrite split_at_one.
  2:{ rewrite Forall_forall in Hc. intros Hin. by apply Hc in Hin as [? _]. }
  cbn [mbind option_bind]. rewrite (one_case upper).
  2:{ rewrite !Forall_app. split_and!; [eapply Forall_impl; [exact Hhc|by intros ? [? _]]|by destruct upper; repeat constructor|].
      eapply Forall_impl; [exact Hc|by intros ? [_ ?]]. }
  assert (length (in_case upper h) = length h) as El by (rewrite in_case_map; apply length_map). rewrite El.
  rewrite (proj2 (Nat.leb_le 1 (length h))) by (destruct h; [done|cbn; lia]). rewrite (proj2 (Nat.leb_le _ _) Hlen).
  assert (forallb (λ c, (33 <=? byte.unsigned c) && (byte.unsigned c <=? 126)) (in_case upper h) = true) as ->.
  { apply forallb_forall. intros c Hcc. rewrite Forall_forall in Hhc. apply Hhc. by apply list_elem_of_In. }
  cbn [andb]. rewrite mapM_symbols by done. reflexivity.
Qed.

#[export] Instance laws : Bech32Laws (H := crate).
Proof.
  split.
  - apply to_bytes_to_fes.
  - intros bs. destruct (fes_bits_to_fes bs) as (k & _ & _ & _ & Hf). exact Hf.
  - intros bs. destruct (fes_bits_to_fes bs) as (k & Hk & _ & Hl & _). rewrite length_bytes_bits in Hl. cbn. lia.
  - intros upper ck h v fes Hh Hv Hfes Hlen s. exists (in_case upper h, (v :: fes) ++ checksum ck h (v :: fes)).
    pose proof Hh as (_ & _ & Hl). split_and!.
    + exact (parse_encode upper ck h v fes Hh Hv Hfes).
    + intros h' (_ & _ & Hl'). cbn. by rewrite map_in_case_lower, map_lower.
    + intros ck'. cbn [has_valid_checksum crate fst snd].
      assert (Forall is_fe (hrp_expand h ++ v :: fes)) as Hf by (apply Forall_app; split; [by apply hrp_expand_fe|by constructor]).
      rewrite hrp_expand_case, polymod_checksum by done.
      assert (length (in_case upper h) = length h) as -> by (rewrite in_case_map; apply length_map).
      rewrite length_app. change (length (checksum _ _ _)) with 6%nat. cbn [length].
      rewrite (proj2 (Nat.leb_le 6 _)), (proj2 (Nat.leb_le _ 1023)) by lia. by destruct ck, ck'.
    + cbn [remove_checksum crate snd]. rewrite length_app. change (length (checksum _ _ _)) with 6%nat.
      rewrite Nat.add_sub. apply take_app_length.
Qed.

End Bip173.
