(* ===== verification/Addresses.v ===== *)
(** Addresses ([src/litecoin/src/address/mod.rs], [address/error.rs]): what an address pays
    to, its text in base 58 or bech32, the script it stands for, and the network it is valid
    on. The bech32 crate and the curve are parameters. *)

From S2P Require Import Witness.
From Stdlib Require Import String ZArith Lia ZifyBool.
From stdpp Require Import base list.
From Stdlib Require Import Init.Byte.
From coqutil Require Import Byte Word.LittleEndianList.
From S2P Require Import Prelude Io Ordered HashEngine Sha256 Hashes Encode Mimblewimble Pow Opcodes Script Templates Taproot.
From S2P Require Import Text Base58 Keys Network Bech32.

(** ** Human-readable parts *)

Definition HRP_LTC `{Bech32Crate} : Hrp := hrp_parse_unchecked (text "ltc").
Definition HRP_TLTC `{Bech32Crate} : Hrp := hrp_parse_unchecked (text "tltc").
Definition HRP_RLTC `{Bech32Crate} : Hrp := hrp_parse_unchecked (text "rltc").
Definition HRP_LTCMWEB `{Bech32Crate} : Hrp := hrp_parse_unchecked (text "ltcmweb").
Definition HRP_TMWEB `{Bech32Crate} : Hrp := hrp_parse_unchecked (text "tmweb").

(** ** Types *)

Inductive AddressType := TP2pkh | TP2sh | TP2wpkh | TP2wsh | TP2tr | TP2a | TMweb.

Definition address_type_display (t : AddressType) : list byte :=
  text (match t with
        | TP2pkh => "p2pkh" | TP2sh => "p2sh" | TP2wpkh => "p2wpkh" | TP2wsh => "p2wsh" | TP2tr => "p2tr"
        | TP2a => "p2a" | TMweb => "mweb"
        end)%string.

(** The error is [UnknownAddressTypeError(s)]. *)
Definition address_type_from_str (s : list byte) : result (list byte) AddressType :=
  if bool_decide (s = text "p2pkh") then Ok TP2pkh
  else if bool_decide (s = text "p2sh") then Ok TP2sh
  else if bool_decide (s = text "p2wpkh") then Ok TP2wpkh
  else if bool_decide (s = text "p2wsh") then Ok TP2wsh
  else if bool_decide (s = text "p2tr") then Ok TP2tr
  else if bool_decide (s = text "p2a") then Ok TP2a
  else if bool_decide (s = text "mweb") then Ok TMweb
  else Err s.

Inductive KnownHrp := Mainnet | Testnets | RegtestHrp.
#[export] Instance known_hrp_eq_dec : EqDecision KnownHrp.
Proof. solve_decision. Defined.

#[export] Instance network_kind_eq_dec : EqDecision NetworkKind.
Proof. solve_decision. Defined.

Definition from_network (network : Network) : KnownHrp :=
  match network with Bitcoin => Mainnet | Testnet4 | Signet => Testnets | Regtest => RegtestHrp end.

(** [AddressInner] *)
Inductive Address :=
| P2pkh (hash : list byte) (network : NetworkKind)
| P2sh (hash : list byte) (network : NetworkKind)
| Segwit (program : WitnessProgram) (hrp : KnownHrp)
| Mweb (scan spend : list byte) (network : NetworkKind).

Inductive AddressData :=
| DP2pkh (pubkey_hash : list byte)
| DP2sh (script_hash : list byte)
| DSegwit (witness_program : WitnessProgram)
| DMweb (scan spend : list byte).

Inductive FromScriptError := UnrecognizedScript | FromWitnessProgram (e : ProgramError) | FromWitnessVersion (invalid : Z).
Inductive P2shError := ExcessiveScriptSize.

Inductive ParseError :=
| ParseBase58 (e : Base58.Error)
| ParseBech32
| ParseWitnessVersion (invalid : Z)
| ParseWitnessProgram (e : ProgramError)
| UnknownHrp (hrp : list byte)
| LegacyAddressTooLong (length : nat)
| ParsePayloadLength (length : nat)
| InvalidLegacyPrefix (invalid : Z)
| NetworkValidation (required : Network) (address : Address).

(** ** Witness programs in bech32 *)

Definition litecoin_uses_bech32 (version : WitnessVersion) : bool :=
  match version with V0 | V8 | V9 => true | _ => false end.

Section Addresses.
Context `{Bech32Crate}.

Definition mweb_hrp_for (network : NetworkKind) : Hrp := match network with Main => HRP_LTCMWEB | Test => HRP_TMWEB end.

Definition to_hrp (self : KnownHrp) : Hrp :=
  match self with Mainnet => HRP_LTC | Testnets => HRP_TLTC | RegtestHrp => HRP_RLTC end.

(** The error is [UnknownHrpError]. *)
Definition from_hrp (hrp : Hrp) : result (list byte) KnownHrp :=
  if hrp_eqb hrp HRP_LTC then Ok Mainnet
  else if hrp_eqb hrp HRP_TLTC then Ok Testnets
  else if hrp_eqb hrp HRP_RLTC then Ok RegtestHrp
  else Err (hrp_to_lowercase hrp).

Definition litecoin_segwit_encode_lower (hrp : Hrp) (version : WitnessVersion) (program : list byte) : list byte :=
  let iter := bytes_to_fes program in
  if litecoin_uses_bech32 version then encode_chars Bech32 hrp (to_num version) iter
  else encode_chars Bech32m hrp (to_num version) iter.

Definition litecoin_segwit_encode_upper (hrp : Hrp) (version : WitnessVersion) (program : list byte) : list byte :=
  let iter := bytes_to_fes program in
  if litecoin_uses_bech32 version then map to_ascii_uppercase (encode_chars Bech32 hrp (to_num version) iter)
  else map to_ascii_uppercase (encode_chars Bech32m hrp (to_num version) iter).

Definition litecoin_segwit_decode (s : list byte) : option (Hrp * WitnessVersion * list byte) :=
  unchecked ← unchecked_new s;
  let hrp := unchecked_hrp unchecked in
  let valid_bech32 := has_valid_checksum Bech32 unchecked in
  let valid_bech32m := has_valid_checksum Bech32m unchecked in
  if negb valid_bech32 && negb valid_bech32m then None
  else
    checked ← (if valid_bech32 then u ← unchecked_new s; Some (remove_checksum Bech32 u)
               else u ← unchecked_new s; Some (remove_checksum Bech32m u));
    match checked with
    | [] => None
    | version_fe :: fes =>
        let program := fes_to_bytes fes in
        match version_try_from version_fe with
        | Err _ => None
        | Ok version =>
            let expected_bech32 := litecoin_uses_bech32 version in
            if expected_bech32 && negb valid_bech32 then None
            else if negb expected_bech32 && negb valid_bech32m then None
            else Some (hrp, version, program)
        end
    end.

(** ** MWEB addresses in bech32 *)

Context `{PublicKeys}.

Definition litecoin_mweb_decode (s : list byte) : option (list byte * list byte * NetworkKind) :=
  unchecked ← unchecked_new s;
  let hrp := unchecked_hrp unchecked in
  network ← (if hrp_eqb hrp HRP_LTCMWEB then Some Main else if hrp_eqb hrp HRP_TMWEB then Some Test else None);
  if negb (has_valid_checksum Bech32 unchecked) then None
  else
    u ← unchecked_new s;
    match remove_checksum Bech32 u with
    | [] => None
    | version :: fes =>
        if negb (version =? 0) then None
        else
          let bytes := fes_to_bytes fes in
          if negb (length bytes =? 66)%nat then None
          else
            let scan := take 33 bytes in
            let spend := drop 33 bytes in
            _ ← PublicKey_from_slice scan;
            _ ← PublicKey_from_slice spend;
            Some (scan, spend, network)
    end.

(** ** Text *)

(** [impl fmt::Display for AddressInner], alternate for [{:#}]; [None] is a panic of the base-58
    encoder. *)
Definition display (alternate : bool) (self : Address) : option (list byte) :=
  match self with
  | P2pkh hash network =>
      let prefix := match network with Main => PUBKEY_ADDRESS_PREFIX_MAIN | Test => PUBKEY_ADDRESS_PREFIX_TEST end in
      encode_check_to_fmt (byte.of_Z prefix :: hash)
  | P2sh hash network =>
      let prefix := match network with Main => SCRIPT_ADDRESS_PREFIX_MAIN | Test => SCRIPT_ADDRESS_PREFIX_TEST end in
      encode_check_to_fmt (byte.of_Z prefix :: hash)
  | Segwit w hrp =>
      let hrp := to_hrp hrp in
      Some (if alternate then litecoin_segwit_encode_upper hrp (Templates.version w) (program w)
            else litecoin_segwit_encode_lower hrp (Templates.version w) (program w))
  | Mweb scan spend network =>
      let payload := scan ++ spend in
      let hrp := mweb_hrp_for network in
      let bytes := encode_chars Bech32 hrp 0 (bytes_to_fes payload) in
      Some (if alternate then map to_ascii_uppercase bytes else bytes)
  end.

(** [to_qr_uri] *)
Definition to_qr_uri (self : Address) : option (list byte) :=
  a ← display true self; Some (text "litecoin:" ++ a).

(** The prefixes of base-58 addresses, old ones included. *)
Definition legacy_inner (prefix : byte) (data : list byte) : result ParseError Address :=
  let p := byte.unsigned prefix in
  if p =? PUBKEY_ADDRESS_PREFIX_MAIN then Ok (P2pkh data Main)
  else if p =? PUBKEY_ADDRESS_PREFIX_TEST then Ok (P2pkh data Test)
  else if p =? SCRIPT_ADDRESS_PREFIX_MAIN then Ok (P2sh data Main)
  else if p =? SCRIPT_ADDRESS_PREFIX_TEST then Ok (P2sh data Test)
  else if p =? 0x05 then Ok (P2sh data Main)
  else if p =? 0xc4 then Ok (P2sh data Test)
  else Err (InvalidLegacyPrefix p).

(** [impl FromStr for Address<NetworkUnchecked>]; [None] is a panic of the base-58 decoder. *)
Definition address_from_str (s : list byte) : option (result ParseError Address) :=
  match litecoin_mweb_decode s with
  | Some (scan, spend, network) => Some (Ok (Mweb scan spend network))
  | None =>
      match litecoin_segwit_decode s with
      | Some (hrp, version, data) =>
          Some (let? program := result_map_err ParseWitnessProgram (program_new version data) in
                let? hrp := result_map_err UnknownHrp (from_hrp hrp) in
                Ok (Segwit program hrp))
      | None =>
          if (50 <? length s)%nat then Some (Err (LegacyAddressTooLong (length s)))
          else
            data ← decode_check s;
            match data with
            | Err e => Some (Err (ParseBase58 e))
            | Ok data =>
                if negb (length data =? 21)%nat then Some (Err (ParsePayloadLength (length s)))
                else match data with prefix :: data => Some (legacy_inner prefix data) | [] => None end
            end
      end
  end.

(** ** Networks *)

Definition is_valid_for_network (self : Address) (n : Network) : bool :=
  match self with
  | P2pkh _ network => bool_decide (network = network_kind n)
  | P2sh _ network => bool_decide (network = network_kind n)
  | Segwit _ hrp => bool_decide (hrp = from_network n)
  | Mweb _ _ network => bool_decide (network = network_kind n)
  end.

Definition require_network (self : Address) (required : Network) : result ParseError Address :=
  if is_valid_for_network self required then Ok self else Err (NetworkValidation required self).
End Addresses.

(** ** Hashes of keys and scripts *)

(** [Script::script_hash] and [wscript_hash]. *)
Definition script_hash (s : script) : list byte := hash160 s.
Definition wscript_hash (s : script) : list byte := sha256_hash s.

(** ** Addresses of keys and scripts *)

Definition p2pkh (hash : list byte) (network : NetworkKind) : Address := P2pkh hash network.

Definition p2sh_from_hash (hash : list byte) (network : NetworkKind) : Address := P2sh hash network.

Definition p2sh (s : script) (network : NetworkKind) : result P2shError Address :=
  if MAX_SCRIPT_ELEMENT_SIZE <? Z.of_nat (length s) then Err ExcessiveScriptSize
  else
    let hash := script_hash s in
    Ok (p2sh_from_hash hash network).

Definition from_witness_program (program : WitnessProgram) (hrp : KnownHrp) : Address := Segwit program hrp.

Definition p2wsh (s : script) (hrp : KnownHrp) : Address :=
  let program := program_p2wsh (wscript_hash s) in
  from_witness_program program hrp.

(** [None] is a panic of the builder. *)
Definition p2shwsh (s : script) (network : NetworkKind) : option Address :=
  b ← Builder.push_int Builder.new 0;
  b ← Builder.push_slice b (wscript_hash s);
  let hash := script_hash (Builder.script_buf b) in
  Some (p2sh_from_hash hash network).

Definition address_type (self : Address) : option AddressType :=
  match self with
  | P2pkh _ _ => Some TP2pkh
  | P2sh _ _ => Some TP2sh
  | Segwit w _ =>
      if program_is_p2wpkh w then Some TP2wpkh
      else if program_is_p2wsh w then Some TP2wsh
      else if program_is_p2tr w then Some TP2tr
      else if program_is_p2a w then Some TP2a
      else None
  | Mweb _ _ _ => Some TMweb
  end.

Definition to_address_data (self : Address) : AddressData :=
  match self with
  | P2pkh hash _ => DP2pkh hash
  | P2sh hash _ => DP2sh hash
  | Segwit w _ => DSegwit w
  | Mweb scan spend _ => DMweb scan spend
  end.

Definition address_pubkey_hash (self : Address) : option (list byte) :=
  match self with P2pkh hash _ => Some hash | _ => None end.

Definition address_script_hash (self : Address) : option (list byte) :=
  match self with P2sh hash _ => Some hash | _ => None end.

Definition address_witness_program (self : Address) : option WitnessProgram :=
  match self with Segwit w _ => Some w | _ => None end.

Definition is_spend_standard (self : Address) : bool := bool_decide (is_Some (address_type self)).

(** ** Scripts *)

(** [None] is the panic of [expect]. *)
Definition from_script (s : script) (params : Params.Params) : option (result FromScriptError Address) :=
  let network := Params.network params in
  if is_p2pkh s then Some (Ok (p2pkh (take 20 (drop 3 s)) (network_kind network)))
  else if is_p2sh s then Some (Ok (p2sh_from_hash (take 20 (drop 2 s)) (network_kind network)))
  else if is_witness_program s then
    opcode ← head s;
    Some (let? version := result_map_err FromWitnessVersion (version_try_from_opcode opcode) in
          let? program := result_map_err FromWitnessProgram (program_new version (drop 2 s)) in
          Ok (from_witness_program program (from_network network)))
  else Some (Err UnrecognizedScript).

Definition script_pubkey (self : Address) : option script :=
  match self with
  | P2pkh hash _ => new_p2pkh hash
  | P2sh hash _ => new_p2sh hash
  | Segwit w _ => new_witness_program_unchecked (Templates.version w) (program w)
  | Mweb _ _ _ => Some []
  end.

Definition matches_script_pubkey (self : Address) (s : script) : bool :=
  match self with
  | P2pkh hash _ => if is_p2pkh s then bool_decide (take 20 (drop 3 s) = hash) else false
  | P2sh hash _ => if is_p2sh s then bool_decide (take 20 (drop 2 s) = hash) else false
  | Segwit w _ => if is_witness_program s then bool_decide (drop 2 s = program w) else false
  | Mweb _ _ _ => false
  end.

Definition payload_as_bytes (self : Address) : list byte :=
  match self with
  | P2sh hash _ => hash
  | P2pkh hash _ => hash
  | Segwit w _ => program w
  | Mweb scan _ _ => scan
  end.

Definition segwit_redeem_hash (pubkey_hash : list byte) : list byte :=
  let sha_engine := engine_default in
  let sha_engine := HashEngine.input sha_engine [x00; byte.of_Z 20] in
  let sha_engine := HashEngine.input sha_engine pubkey_hash in
  hash160_from_engine sha_engine.

Section OfKeys.
Context `{Secp256k1}.

Definition key_pubkey_hash (self : BitcoinKey) : list byte := hash160 (key_serialized self).

(** [None] is [UncompressedPublicKeyError]. *)
Definition key_wpubkey_hash (self : BitcoinKey) : option (list byte) :=
  if compressed self then Some (hash160 (PublicKey_serialize (inner self))) else None.

Definition compressed_pubkey_hash (self : PublicKey) : list byte := hash160 (compressed_to_bytes self).
Definition compressed_wpubkey_hash (self : PublicKey) : list byte := hash160 (compressed_to_bytes self).

Definition p2wpkh (pk : PublicKey) (hrp : KnownHrp) : Address :=
  let program := program_p2wpkh (compressed_wpubkey_hash pk) in
  from_witness_program program hrp.

Definition p2shwpkh (pk : PublicKey) (network : NetworkKind) : option Address :=
  b ← Builder.push_int Builder.new 0;
  b ← Builder.push_slice b (compressed_wpubkey_hash pk);
  let hash := script_hash (Builder.script_buf b) in
  Some (p2sh_from_hash hash network).

Definition mweb (scan spend : PublicKey) (network : NetworkKind) : Address :=
  Mweb (PublicKey_serialize scan) (PublicKey_serialize spend) network.

Context `{TaprootKeys}.

Definition p2tr_tweaked (output_key : XOnly) (hrp : KnownHrp) : Address :=
  let program := program_p2tr (xonly_serialize output_key) in
  from_witness_program program hrp.

(** [None] is the panic of the tweak. *)
Definition p2tr (internal_key : XOnly) (merkle_root : option Taproot.hash) (hrp : KnownHrp) : option Address :=
  '(output_key, _) ← tap_tweak internal_key merkle_root;
  let program := program_p2tr (xonly_serialize output_key) in
  Some (from_witness_program program hrp).

(** [XOnlyPublicKey::from] of the library. *)
Variable XOnly_from : PublicKey → XOnly.

Definition is_related_to_pubkey (self : Address) (pubkey : BitcoinKey) : bool :=
  let pubkey_hash := key_pubkey_hash pubkey in
  let payload := payload_as_bytes self in
  let xonly_pubkey := XOnly_from (inner pubkey) in
  bool_decide (pubkey_hash = payload) || bool_decide (xonly_serialize xonly_pubkey = payload)
  || bool_decide (segwit_redeem_hash pubkey_hash = payload).

Definition is_related_to_xonly_pubkey (self : Address) (xonly_pubkey : XOnly) : bool :=
  bool_decide (xonly_serialize xonly_pubkey = payload_as_bytes self).
End OfKeys.

(** ** Scripts: proofs *)

Definition address_wf `{PublicKeys} (a : Address) : Prop :=
  match a with
  | P2pkh hash _ | P2sh hash _ => length hash = 20%nat
  | Segwit w _ => program_new (Templates.version w) (program w) = Ok w
  | Mweb scan spend _ =>
      length scan = 33%nat ∧ length spend = 33%nat ∧
      is_Some (PublicKey_from_slice scan) ∧ is_Some (PublicKey_from_slice spend)
  end.

(** The address of the same script on another network. *)
Definition on_network (n : Network) (a : Address) : Address :=
  match a with
  | P2pkh hash _ => P2pkh hash (network_kind n)
  | P2sh hash _ => P2sh hash (network_kind n)
  | Segwit w _ => Segwit w (from_network n)
  | Mweb scan spend _ => Mweb scan spend (network_kind n)
  end.

Lemma program_new_ok v p w : program_new v p = Ok w → w = {| Templates.version := v; program := p |} ∧ program_length p.
Proof. intros Hw. pose proof (program_new_spec v p) as Hs. by rewrite Hw in Hs. Qed.

Lemma p2pkh_slice h post : length h = 20%nat → take 20 (drop 3 ([OP_DUP; OP_HASH160; OP_PUSHBYTES_20] ++ h ++ post)) = h.
Proof. intros Hh. change (take 20 (h ++ post) = h). rewrite <- Hh. apply take_app_length. Qed.

Lemma p2sh_slice h post : length h = 20%nat → take 20 (drop 2 ([OP_HASH160; OP_PUSHBYTES_20] ++ h ++ post)) = h.
Proof. intros Hh. change (take 20 (h ++ post) = h). rewrite <- Hh. apply take_app_length. Qed.

(** A script is of one kind at most. *)
Lemma address_kinds s :
  (is_p2pkh s = true → is_p2sh s = false ∧ is_witness_program s = false) ∧
  (is_p2sh s = true → is_p2pkh s = false ∧ is_witness_program s = false) ∧
  (is_witness_program s = true → is_p2pkh s = false ∧ is_p2sh s = false).
Proof.
  pose proof (at_most_one s) as H. destruct (is_p2pkh s), (is_p2sh s), (is_witness_program s); cbn [b2n] in H;
    split_and!; intros ?; split; done || lia.
Qed.

Lemma is_p2pkh_script h s : length h = 20%nat → new_p2pkh h = Some s → is_p2pkh s = true ∧ take 20 (drop 3 s) = h.
Proof.
  intros Hh Hs. apply template_p2pkh in Hs; [|done]. subst s. split; [|by apply p2pkh_slice].
  apply is_p2pkh_framed. exists h. by split.
Qed.

Lemma is_p2sh_script h s : length h = 20%nat → new_p2sh h = Some s → is_p2sh s = true ∧ take 20 (drop 2 s) = h.
Proof.
  intros Hh Hs. apply template_p2sh in Hs; [|done]. subst s. split; [|by apply p2sh_slice].
  apply is_p2sh_framed. exists h. by split.
Qed.

Lemma is_program_script v p : program_length p →
  let s := program_script v p in
  new_witness_program_unchecked v p = Some s ∧ is_witness_program s = true ∧ head s = Some (version_opcode v) ∧ drop 2 s = p.
Proof.
  intros Hp. split_and!; try done.
  - apply unchecked_short. unfold program_length in Hp. lia.
  - apply bool_decide_eq_true. exists v. apply witness_version_spec. by exists p.
Qed.

(** The script of an address, by cases. *)
Lemma script_pubkey_inv `{PublicKeys} a s : address_wf a → script_pubkey a = Some s →
  match a with
  | P2pkh h _ => is_p2pkh s = true ∧ take 20 (drop 3 s) = h
  | P2sh h _ => is_p2sh s = true ∧ take 20 (drop 2 s) = h
  | Segwit w _ => is_witness_program s = true ∧ s = program_script (Templates.version w) (program w) ∧ program_length (program w)
  | Mweb _ _ _ => s = []
  end.
Proof.
  destruct a as [h n|h n|w n|x y n]; cbn [address_wf script_pubkey]; intros Ha.
  - by apply is_p2pkh_script.
  - by apply is_p2sh_script.
  - apply program_new_ok in Ha as [_ Hp]. destruct (is_program_script (Templates.version w) _ Hp) as (-> & Hw & _).
    by intros [= <-].
  - by intros [= <-].
Qed.

Lemma script_pubkey_some `{PublicKeys} a : address_wf a → is_Some (script_pubkey a).
Proof.
  destruct a as [h n|h n|w n|x y n]; cbn [address_wf script_pubkey]; intros Ha.
  - eexists. by apply template_p2pkh.
  - eexists. by apply template_p2sh.
  - apply program_new_ok in Ha as [_ Hp]. destruct (is_program_script (Templates.version w) _ Hp) as (-> & _). done.
  - done.
Qed.

(** [from_script], by the kind of the script. *)
Lemma from_script_cases s params :
  let n := Params.network params in
  (∃ h, length h = 20%nat ∧ new_p2pkh h = Some s ∧ from_script s params = Some (Ok (P2pkh h (network_kind n)))) ∨
  (∃ h, length h = 20%nat ∧ new_p2sh h = Some s ∧ from_script s params = Some (Ok (P2sh h (network_kind n)))) ∨
  (∃ v p, program_length p ∧ s = program_script v p ∧
     from_script s params = Some (result_bind (result_map_err FromWitnessProgram (program_new v p))
                                    (λ w, Ok (Segwit w (from_network n))))) ∨
  (is_p2pkh s = false ∧ is_p2sh s = false ∧ is_witness_program s = false ∧ from_script s params = Some (Err UnrecognizedScript)).
Proof.
  intros n. unfold from_script. destruct (is_p2pkh s) eqn:E1.
  { left. apply is_p2pkh_framed in E1 as (h & Hh & ->). exists h. rewrite p2pkh_slice by done.
    split_and!; [done|by apply template_p2pkh|done]. }
  right. destruct (is_p2sh s) eqn:E2.
  { left. apply is_p2sh_framed in E2 as (h & Hh & ->). exists h. rewrite p2sh_slice by done.
    split_and!; [done|by apply template_p2sh|done]. }
  right. destruct (is_witness_program s) eqn:E3; [|by right]. left.
  apply bool_decide_eq_true in E3 as [v Hv]. apply witness_version_spec in Hv as (p & Hp & ->). exists v, p.
  split_and!; [done..|]. destruct (is_program_script v p Hp) as (_ & _ & Hh & Hd). rewrite Hh, Hd. cbn [mbind option_bind].
  by rewrite version_opcode_inv.
Qed.

Lemma valid_on_network n a : is_valid_for_network (on_network n a) n = true.
Proof. destruct a; by apply bool_decide_eq_true_2. Qed.

Lemma valid_is_on_network n a : is_valid_for_network a n = true ↔ on_network n a = a.
Proof.
  destruct a; cbn; rewrite bool_decide_eq_true; split; try congruence; by intros ->.
Qed.

Lemma from_script_total s params : is_Some (from_script s params).
Proof. destruct (from_script_cases s params) as [(?&?&?&->)|[(?&?&?&->)|[(?&?&?&?&->)|(?&?&?&->)]]]; done. Qed.

Lemma from_script_ok `{PublicKeys} s params a : from_script s params = Some (Ok a) →
  address_wf a ∧ is_valid_for_network a (Params.network params) = true ∧ script_pubkey a = Some s.
Proof.
  destruct (from_script_cases s params) as [(h&Hh&Hs&->)|[(h&Hh&Hs&->)|[(v&p&Hp&Hs&->)|(?&?&?&->)]]]; intros E; try discriminate.
  - injection E as <-. split_and!; [done|by apply bool_decide_eq_true|done].
  - injection E as <-. split_and!; [done|by apply bool_decide_eq_true|done].
  - destruct (program_new v p) as [w|] eqn:Ew; [|discriminate]. injection E as <-.
    pose proof (program_new_ok _ _ _ Ew) as [-> _]. split_and!; [exact Ew|by apply bool_decide_eq_true|].
    rewrite Hs. by apply is_program_script.
Qed.

Lemma from_script_err s params e : from_script s params = Some (Err e) ↔
  e = UnrecognizedScript ∧ is_p2pkh s = false ∧ is_p2sh s = false ∧ is_witness_program s = false ∨
  ∃ p, program_length p ∧ length p ≠ 20%nat ∧ length p ≠ 32%nat ∧ s = program_script V0 p ∧
       e = FromWitnessProgram (InvalidSegwitV0Length (length p)).
Proof.
  destruct (address_kinds s) as (K1 & K2 & K3).
  assert (∀ v p, program_length p → s = program_script v p → is_witness_program s = true) as Hw
    by (intros v p Hp ->; by apply is_program_script).
  destruct (from_script_cases s params) as [(h&Hh&Hs&->)|[(h&Hh&Hs&->)|[(v&p&Hp&Hs&->)|(H1&H2&H3&->)]]].
  - apply is_p2pkh_script in Hs as [Hs _]; [|done]. destruct (K1 Hs) as [_ K]. split; [discriminate|].
    intros [(_&?&_)|(p&Hp&_&_&E&_)]; [congruence|]. rewrite (Hw _ _ Hp E) in K. discriminate.
  - apply is_p2sh_script in Hs as [Hs _]; [|done]. destruct (K2 Hs) as [_ K]. split; [discriminate|].
    intros [(_&_&?&_)|(p&Hp&_&_&E&_)]; [congruence|]. rewrite (Hw _ _ Hp E) in K. discriminate.
  - pose proof (program_new_spec v p) as Hn. pose proof (Hw v p Hp Hs) as Hws. split.
    + destruct (program_new v p) as [w|[k|k]]; cbn [result_map_err result_bind]; intros E; [discriminate| |].
      * unfold program_length in Hp. lia.
      * destruct Hn as (-> & -> & H20 & H32). injection E as <-. right. by exists p.
    + intros [(_&_&_&?)|(p'&_&H20&H32&E&->)]; [congruence|]. rewrite Hs in E. injection E as Ev _ ->.
      assert (v = V0) as -> by (destruct v; vm_compute in Ev; congruence).
      destruct (program_new V0 p') as [w|[k|k]] eqn:En; cbn [result_map_err result_bind].
      * exfalso. unfold program_new in En. destruct (_ || _); [discriminate|]. rewrite bool_decide_eq_true_2 in En by done.
        rewrite (proj2 (Nat.eqb_neq _ _) H20), (proj2 (Nat.eqb_neq _ _) H32) in En. discriminate.
      * unfold program_length in Hp. lia.
      * destruct Hn as (-> & _). done.
  - split; [intros [= <-]; by left|]. intros [(->&_)|(p&Hp&_&_&E&_)]; [done|]. rewrite (Hw _ _ Hp E) in H3. discriminate.
Qed.

Lemma script_pubkey_from `{PublicKeys} a s params :
  address_wf a → address_type a ≠ Some TMweb → script_pubkey a = Some s →
  from_script s params = Some (Ok (on_network (Params.network params) a)).
Proof.
  intros Ha Ht Hs. pose proof (script_pubkey_inv a s Ha Hs) as Hi. destruct (address_kinds s) as (_ & K2 & K3).
  unfold from_script. destruct a as [h n|h n|w n|x y n]; cbn [on_network].
  - by destruct Hi as [-> ->].
  - destruct Hi as [E ->]. destruct (K2 E) as [-> _]. by rewrite E.
  - destruct Hi as (E & -> & Hp). destruct (K3 E) as [-> ->]. rewrite E. cbn [program_script head mbind option_bind].
    rewrite version_opcode_inv. cbn [result_map_err result_bind]. change (drop 2 (program_script _ ?p)) with p.
    cbn [address_wf] in Ha. by rewrite Ha.
  - by destruct Ht.
Qed.

Lemma script_pubkey_kind `{PublicKeys} a s :
  address_wf a → address_type a ≠ Some TMweb → script_pubkey a = Some s →
  matches_script_pubkey a s = true ∧
  (address_type a = Some TP2pkh ↔ is_p2pkh s = true) ∧ (address_type a = Some TP2sh ↔ is_p2sh s = true) ∧
  (address_type a = Some TP2wpkh ↔ is_p2wpkh s = true) ∧ (address_type a = Some TP2wsh ↔ is_p2wsh s = true) ∧
  (address_type a = Some TP2tr ↔ is_p2tr s = true).
Proof.
  intros Ha Ht Hs. pose proof (script_pubkey_inv a s Ha Hs) as Hi. destruct (address_kinds s) as (K1 & K2 & K3).
  assert (is_witness_program s = false → is_p2wpkh s = false ∧ is_p2wsh s = false ∧ is_p2tr s = false) as Hnw.
  { unfold is_witness_program, is_p2wpkh, is_p2wsh, is_p2tr. rewrite bool_decide_eq_false, <- eq_None_not_Some.
    intros ->. by rewrite !bool_decide_eq_false_2, !andb_false_r by done. }
  destruct a as [h n|h n|w n|x y n]; cbn [matches_script_pubkey address_type] in *.
  - destruct Hi as [E Hd]. destruct (K1 E) as [E2 E3]. destruct (Hnw E3) as (-> & -> & ->). rewrite E, E2.
    split; [by apply bool_decide_eq_true|]. split_and!; split; congruence.
  - destruct Hi as [E Hd]. destruct (K2 E) as [E2 E3]. destruct (Hnw E3) as (-> & -> & ->). rewrite E, E2.
    split; [by apply bool_decide_eq_true|]. split_and!; split; congruence.
  - destruct Hi as (E & -> & Hp). destruct (K3 E) as [-> ->]. rewrite E. destruct (program_kinds (Templates.version w) _ Hp) as (-> & -> & ->).
    split; [by apply bool_decide_eq_true|]. unfold program_is_p2wpkh, program_is_p2wsh, program_is_p2tr.
    destruct (program_is_p2a w); repeat case_bool_decide; try congruence; cbn [andb];
      destruct (Nat.eqb_spec (length (program w)) 20), (Nat.eqb_spec (length (program w)) 32); try lia;
      split_and!; split; congruence.
  - by destruct Ht.
Qed.

Lemma script_pubkey_p2a `{PublicKeys} a s :
  address_wf a → address_type a ≠ Some TMweb → script_pubkey a = Some s →
  address_type a = Some TP2a ↔ s = program_script V1 P2A_PROGRAM.
Proof.
  intros Ha Ht Hs. pose proof (script_pubkey_inv a s Ha Hs) as Hi. destruct (address_kinds s) as (K1 & K2 & _).
  assert (is_witness_program (program_script V1 P2A_PROGRAM) = true) as Hw by reflexivity.
  destruct a as [h n|h n|w n|x y n]; cbn [address_type] in *.
  - destruct Hi as [E _]. destruct (K1 E) as [_ E3]. split; [done|]. intros ->. congruence.
  - destruct Hi as [E _]. destruct (K2 E) as [_ E3]. split; [done|]. intros ->. congruence.
  - destruct Hi as (_ & -> & _). unfold program_is_p2wpkh, program_is_p2wsh, program_is_p2tr, program_is_p2a. split.
    + repeat case_bool_decide; cbn [andb]; repeat (destruct (_ =? _)%nat); try discriminate; congruence.
    + intros E. injection E as Ev _ ->. assert (Templates.version w = V1) as -> by (destruct (Templates.version w); vm_compute in Ev; congruence).
      reflexivity.
  - by destruct Ht.
Qed.

(** C32: Addresses and scripts.  [Address::from_script] never panics; an address it
    returns is well formed, valid for the network asked for, and has that script as its
    [script_pubkey]; it refuses exactly the scripts that are of none of the three
    kinds, and version-0 witness programs of neither 20 nor 32 bytes, with their
    length.  Conversely a well-formed address has a script, which
    [matches_script_pubkey] accepts and [from_script] takes back to the address on the
    network given; the type of the address is the kind of its script.  An MWEB address
    has the empty script and matches none. *)
Theorem address_script `{PublicKeys} s params :
  let n := Params.network params in
  is_Some (from_script s params) ∧
  (∀ a, from_script s params = Some (Ok a) →
     address_wf a ∧ is_valid_for_network a n = true ∧ script_pubkey a = Some s) ∧
  (∀ e, from_script s params = Some (Err e) ↔
     e = UnrecognizedScript ∧ is_p2pkh s = false ∧ is_p2sh s = false ∧ is_witness_program s = false ∨
     ∃ p, program_length p ∧ length p ≠ 20%nat ∧ length p ≠ 32%nat ∧ s = program_script V0 p ∧
          e = FromWitnessProgram (InvalidSegwitV0Length (length p))) ∧
  (∀ a, address_wf a → address_type a ≠ Some TMweb → script_pubkey a = Some s →
     from_script s params = Some (Ok (on_network n a)) ∧ matches_script_pubkey a s = true ∧
     (address_type a = Some TP2pkh ↔ is_p2pkh s = true) ∧ (address_type a = Some TP2sh ↔ is_p2sh s = true) ∧
     (address_type a = Some TP2wpkh ↔ is_p2wpkh s = true) ∧ (address_type a = Some TP2wsh ↔ is_p2wsh s = true) ∧
     (address_type a = Some TP2tr ↔ is_p2tr s = true) ∧
     (address_type a = Some TP2a ↔ s = program_script V1 P2A_PROGRAM)) ∧
  (∀ a, address_wf a → is_Some (script_pubkey a)) ∧
  (∀ a, address_type a = Some TMweb → script_pubkey a = Some [] ∧ matches_script_pubkey a s = false).
Proof.
  intros n. split_and!.
  - apply from_script_total.
  - apply from_script_ok.
  - apply from_script_err.
  - intros a Ha Ht Hs. split; [by apply script_pubkey_from|].
    destruct (script_pubkey_kind a s Ha Ht Hs) as (? & ? & ? & ? & ? & ?). split_and!; try done; by apply script_pubkey_p2a.
  - apply script_pubkey_some.
  - intros [h k|h k|w k|x y k]; cbn [address_type]; try discriminate; [|done].
    repeat (destruct (_ : bool); [discriminate|]). discriminate.
Qed.

(** [matches_script_pubkey] compares programs without their versions: a taproot address
    matches the script of the program of version 0 with the same bytes, which it does
    not create. *)
Example matches_other_version :
  let a := Segwit {| Templates.version := V1; program := replicate 32 x07 |} Mainnet in
  let s := program_script V0 (replicate 32 x07) in
  matches_script_pubkey a s = true ∧ bool_decide (script_pubkey a = Some s) = false.
Proof. vm_compute. done. Qed.

(** ** Addresses of keys and scripts: proofs *)

Lemma length_wscript_hash s : length (wscript_hash s) = 32%nat.
Proof.
  unfold wscript_hash. rewrite <- (app_nil_r s). change (s ++ []) with (concat [s]). rewrite <- sha256_pieces.
  by apply length_from_engine, Sha256.length_input.
Qed.

(** What [push_int(0).push_slice(p)] builds is the script of a program of version 0. *)
Lemma v0_builder p : (length p <= 75)%nat →
  ∃ b, Builder.push_int Builder.new 0 = Some b ∧
       Builder.push_slice b p = Some {| Builder.script_buf := program_script V0 p; Builder.last_op := None |}.
Proof. intros Hp. eexists. split; [reflexivity|]. by apply push_slice_short. Qed.

Lemma v0_address p : length p = 20%nat ∨ length p = 32%nat →
  program_new V0 p = Ok {| Templates.version := V0; program := p |}.
Proof. unfold program_new. by intros [-> | ->]. Qed.

Lemma segwit_redeem_script p : length p = 20%nat → segwit_redeem_hash p = script_hash (program_script V0 p).
Proof.
  intros Hp. unfold segwit_redeem_hash, script_hash, hash160, hash160_from_engine, program_script. rewrite Hp.
  change (HashEngine.input (HashEngine.input engine_default ?a) ?b) with (foldl HashEngine.input engine_default [a; b]).
  rewrite sha256_pieces. cbn [concat]. by rewrite app_nil_r.
Qed.

(** The nested addresses are the P2SH addresses of the scripts of the native ones. *)
Lemma nested_address p n hrp : length p = 20%nat ∨ length p = 32%nat →
  let s := program_script V0 p in
  script_pubkey (Segwit {| Templates.version := V0; program := p |} hrp) = Some s ∧ p2sh s n = Ok (P2sh (script_hash s) n).
Proof.
  intros Hp s. split; [apply unchecked_short; cbn; lia|]. unfold p2sh.
  destruct (Z.ltb_spec MAX_SCRIPT_ELEMENT_SIZE (Z.of_nat (length s))) as [Hl|]; [|done].
  unfold s, MAX_SCRIPT_ELEMENT_SIZE, program_script in Hl. cbn [length] in Hl. lia.
Qed.

Lemma v0_nested p n : (length p <= 75)%nat →
  (b ← Builder.push_int Builder.new 0;
   b ← Builder.push_slice b p;
   Some (p2sh_from_hash (script_hash (Builder.script_buf b)) n)) = Some (P2sh (script_hash (program_script V0 p)) n).
Proof.
  intros Hp. destruct (v0_builder p Hp) as (b & -> & E). cbn [mbind option_bind]. rewrite E. cbn [mbind option_bind Builder.script_buf].
  reflexivity.
Qed.

Section KeyAddresses.
Context `{Secp256k1} `{!PublicKeyLaws} `{TaprootKeyLaws}.

Lemma p2shwpkh_eq pk n : p2shwpkh pk n = Some (P2sh (script_hash (program_script V0 (compressed_wpubkey_hash pk))) n).
Proof. unfold p2shwpkh. apply v0_nested. unfold compressed_wpubkey_hash. rewrite length_hash160. lia. Qed.

Lemma p2shwsh_eq s n : p2shwsh s n = Some (P2sh (script_hash (program_script V0 (wscript_hash s))) n).
Proof. unfold p2shwsh. apply v0_nested. rewrite length_wscript_hash. lia. Qed.

Lemma related_hash XOnly_from a (key : BitcoinKey) :
  payload_as_bytes a = key_pubkey_hash key ∨ payload_as_bytes a = segwit_redeem_hash (key_pubkey_hash key) →
  is_related_to_pubkey XOnly_from a key = true.
Proof.
  unfold is_related_to_pubkey. intros [-> | ->].
  - by rewrite (bool_decide_eq_true_2 (key_pubkey_hash key = _)).
  - by rewrite (bool_decide_eq_true_2 (segwit_redeem_hash _ = _)), orb_true_r.
Qed.

Lemma p2tr_iff k root hrp a :
  p2tr k root hrp = Some a ↔ ∃ o parity, tap_tweak k root = Some (o, parity) ∧ a = p2tr_tweaked o hrp.
Proof.
  unfold p2tr. destruct (tap_tweak k root) as [[o q]|]; cbn [mbind option_bind].
  - split; [intros [= <-]; by exists o, q|]. by intros (? & ? & [= <- <-] & ->).
  - split; [done|]. by intros (? & ? & ? & _).
Qed.

Lemma mweb_wf pk spend n : address_wf (mweb pk spend n).
Proof. cbn [address_wf mweb]. by rewrite !pk_length, !pk_parse_serialize. Qed.

Lemma p2sh_limit s n : p2sh s n = if (length s <=? 520)%nat then Ok (p2sh_from_hash (hash160 s) n) else Err ExcessiveScriptSize.
Proof.
  unfold p2sh, script_hash. generalize (hash160 s). intros bs. unfold MAX_SCRIPT_ELEMENT_SIZE.
  destruct (Z.ltb_spec 520 (Z.of_nat (length s))), (Nat.leb_spec (length s) 520); try lia; reflexivity.
Qed.

Lemma wpubkey_program pk : length (compressed_wpubkey_hash pk) = 20%nat ∧ key_pubkey_hash (key_new pk) = compressed_wpubkey_hash pk.
Proof. split; [apply length_hash160|done]. Qed.

Lemma segwit_type hash hrp : length hash = 20%nat ∨ length hash = 32%nat →
  address_type (Segwit (program_p2wpkh hash) hrp) = Some (if (length hash =? 20)%nat then TP2wpkh else TP2wsh).
Proof.
  intros Hh. cbn [address_type]. unfold program_is_p2wpkh, program_is_p2wsh. cbn [program_p2wpkh Templates.version program].
  rewrite (bool_decide_eq_true_2 (V0 = V0)) by done. by destruct Hh as [-> | ->].
Qed.

Lemma taproot_address k hrp : address_wf (p2tr_tweaked k hrp) ∧ address_type (p2tr_tweaked k hrp) = Some TP2tr.
Proof.
  unfold p2tr_tweaked, from_witness_program, program_p2tr. pose proof (xonly_length k) as Hk.
  revert Hk. generalize (xonly_serialize k). intros p Hp. split.
  - cbn [address_wf Templates.version program]. unfold program_new. by rewrite Hp.
  - cbn [address_type]. unfold program_is_p2wpkh, program_is_p2wsh, program_is_p2tr. cbn [Templates.version program].
    rewrite (bool_decide_eq_false_2 (V1 = V0)), (bool_decide_eq_true_2 (V1 = V1)) by done. by rewrite Hp.
Qed.

(** Addresses of keys and scripts.  Each constructor makes a well-formed address of
    its kind: P2PKH and P2WPKH of a key; P2SH of a script of at most 520 bytes and of no
    longer one; P2WSH; P2TR of an output key, and of an internal key the one of the
    tweaked key; MWEB.  The nested addresses are the P2SH addresses of the scripts of
    the native ones.  A key is related to its P2PKH, P2WPKH and nested addresses, and
    among x-only keys just the output key is related to a taproot address. *)
Theorem key_addresses (XOnly_from : PublicKey → XOnly) (key : BitcoinKey) (pk spend : PublicKey) (k : XOnly) s n hrp :
  (let a := p2pkh (key_pubkey_hash key) n in address_wf a ∧ is_related_to_pubkey XOnly_from a key = true) ∧
  (let a := p2wpkh pk hrp in
   address_wf a ∧ address_type a = Some TP2wpkh ∧ is_related_to_pubkey XOnly_from a (key_new pk) = true ∧
   ∃ redeem nested, script_pubkey a = Some redeem ∧ p2sh redeem n = Ok nested ∧ p2shwpkh pk n = Some nested ∧
     address_wf nested ∧ is_related_to_pubkey XOnly_from nested (key_new pk) = true) ∧
  (let a := p2wsh s hrp in
   address_wf a ∧ address_type a = Some TP2wsh ∧
   ∃ redeem nested, script_pubkey a = Some redeem ∧ p2sh redeem n = Ok nested ∧ p2shwsh s n = Some nested ∧ address_wf nested) ∧
  (p2sh s n = if (length s <=? 520)%nat then Ok (p2sh_from_hash (hash160 s) n) else Err ExcessiveScriptSize) ∧
  address_wf (p2sh_from_hash (hash160 s) n) ∧
  (let a := p2tr_tweaked k hrp in
   address_wf a ∧ address_type a = Some TP2tr ∧ (∀ k', is_related_to_xonly_pubkey a k' = true ↔ k' = k)) ∧
  (∀ root a, p2tr k root hrp = Some a ↔ ∃ o parity, tap_tweak k root = Some (o, parity) ∧ a = p2tr_tweaked o hrp) ∧
  address_wf (mweb pk spend n).
Proof.
  destruct (wpubkey_program pk) as [Hpk Ek]. pose proof (length_wscript_hash s) as Hs. cbv zeta.
  split_and!; try apply taproot_address; try apply length_hash160.
  - apply related_hash. by left.
  - apply v0_address. by left.
  - pose proof (segwit_type (compressed_wpubkey_hash pk) hrp (or_introl Hpk)) as E. rewrite Hpk in E. exact E.
  - apply related_hash. left. by rewrite Ek.
  - destruct (nested_address (compressed_wpubkey_hash pk) n hrp (or_introl Hpk)) as [HA HB].
    do 2 eexists. split_and!; [exact HA|exact HB|apply p2shwpkh_eq|apply length_hash160|].
    apply related_hash. right. rewrite Ek. symmetry. by apply segwit_redeem_script.
  - apply v0_address. by right.
  - pose proof (segwit_type (wscript_hash s) hrp (or_intror Hs)) as E. rewrite Hs in E. exact E.
  - destruct (nested_address (wscript_hash s) n hrp (or_intror Hs)) as [HA HB].
    do 2 eexists. split_and!; [exact HA|exact HB|apply p2shwsh_eq|apply length_hash160].
  - apply p2sh_limit.
  - intros k'. unfold is_related_to_xonly_pubkey. rewrite bool_decide_eq_true. split; [|by intros ->].
    intros E%(f_equal xonly_from_slice). cbn [p2tr_tweaked from_witness_program payload_as_bytes program_p2tr program] in E.
    rewrite !xonly_parse in E. by injection E.
  - intros root a. apply p2tr_iff.
  - apply mweb_wf.
Qed.
End KeyAddresses.

(** ** Text: proofs *)

Lemma encode_length b bs s : b ≠ x00 → (length bs <= 30)%nat → encode (b :: bs) = Some s → (length s <= 50)%nat.
Proof.
  intros Hb Hl He. destruct (encode_spec (b :: bs)) as (ds & Hds & Hlead & Hn & E). rewrite He in E.
  assert (zeros (map byte.unsigned (b :: bs)) = 0%nat) as Hz.
  { cbn [map]. unfold zeros. cbn [take_while]. destruct (Z.eqb_spec 0 (byte.unsigned b)); [|done].
    destruct Hb. apply byte_zero_eq. unfold byte_zero. by apply Z.eqb_eq. }
  rewrite Hz in E. cbn [replicate app] in E. symmetry in E. apply length_mapM in E. rewrite <- E.
  destruct ds as [|d ds]; [cbn; lia|]. pose proof (num_lead 58 d ds ltac:(lia) Hds Hlead) as H1.
  pose proof (num_bound 256 _ ltac:(lia) (bytes_digits (b :: bs))) as [_ H2]. fold (bytes_num (b :: bs)) in H2. rewrite <- Hn in H2.
  rewrite length_map in H2. cbn [length] in *. apply le_n_S. apply Nat.nlt_ge. intros Hgt.
  assert (256 ^ Z.of_nat (S (length bs)) <= 256 ^ 31) by (apply Z.pow_le_mono_r; lia).
  assert (58 ^ 50 <= 58 ^ Z.of_nat (length ds)) by (apply Z.pow_le_mono_r; lia).
  assert (256 ^ 31 <= 58 ^ 50) by (vm_compute; discriminate). lia.
Qed.

Lemma legacy_text (p : Z) data : 0 < p < 256 → length data = 20%nat →
  ∃ s, encode_check_to_fmt (byte.of_Z p :: data) = Some s ∧ decode_check s = Some (Ok (byte.of_Z p :: data)) ∧ (length s <= 50)%nat.
Proof.
  intros Hp Hd. destruct (encode_check_decodes (byte.of_Z p :: data)) as (s & He & Hs). exists s. split_and!; [exact He|exact Hs|].
  apply (encode_length (byte.of_Z p) (data ++ checksum (byte.of_Z p :: data))); [| |exact He].
  - intros E%(f_equal byte.unsigned). rewrite byte_of_Z_u in E by (unfold urange; lia). change (byte.unsigned x00) with 0 in E. lia.
  - rewrite length_app, checksum_length. lia.
Qed.

Definition hrp_name (self : KnownHrp) : list byte :=
  text (match self with Mainnet => "ltc" | Testnets => "tltc" | RegtestHrp => "rltc" end)%string.

Definition mweb_name (network : NetworkKind) : list byte :=
  text (match network with Main => "ltcmweb" | Test => "tmweb" end)%string.

Ltac plain_name := split; [discriminate|]; split; [apply Nat.leb_le; reflexivity|]; apply Forall_forall; intros c Hc;
  repeat (apply elem_of_cons in Hc as [-> | Hc]; [vm_compute; split; discriminate|]); by apply elem_of_nil in Hc.

Lemma hrp_name_plain hrp : hrp_plain (hrp_name hrp).
Proof. destruct hrp; plain_name. Qed.

Lemma mweb_name_plain network : hrp_plain (mweb_name network).
Proof. destruct network; plain_name. Qed.

Section TextProofs.
Context `{Bech32Laws} `{PublicKeys}.

Definition in_case (upper : bool) (s : list byte) : list byte := if upper then map to_ascii_uppercase s else s.

Definition checksum_for (version : WitnessVersion) : Checksum := if litecoin_uses_bech32 version then Bech32 else Bech32m.

Definition segwit_text (upper : bool) (w : WitnessProgram) (hrp : KnownHrp) : list byte :=
  in_case upper (encode_chars (checksum_for (Templates.version w)) (hrp_parse_unchecked (hrp_name hrp))
                   (to_num (Templates.version w)) (bytes_to_fes (program w))).

Definition mweb_text (upper : bool) (payload : list byte) (network : NetworkKind) : list byte :=
  in_case upper (encode_chars Bech32 (hrp_parse_unchecked (mweb_name network)) 0 (bytes_to_fes payload)).

Lemma display_segwit upper w hrp : display upper (Segwit w hrp) = Some (segwit_text upper w hrp).
Proof.
  cbn [display]. unfold litecoin_segwit_encode_upper, litecoin_segwit_encode_lower, segwit_text, in_case, checksum_for.
  assert (to_hrp hrp = hrp_parse_unchecked (hrp_name hrp)) as -> by by destruct hrp.
  by destruct upper, (litecoin_uses_bech32 _).
Qed.

Lemma display_mweb upper scan spend network : display upper (Mweb scan spend network) = Some (mweb_text upper (scan ++ spend) network).
Proof.
  cbn [display]. unfold mweb_text, in_case. by destruct upper, network.
Qed.

(** What the text of an address is, by its kind: the base-58-check of a prefix and the
    hash; the old checksum for witness versions 0, 8 and 9, the new one for the others;
    the old one with version 0 for the two keys of MWEB. *)
Definition is_text_of (a : Address) (s : list byte) : Prop :=
  match a with
  | P2pkh h network => encode_check (byte.of_Z (match network with Main => 48 | Test => 111 end) :: h) = Some s
  | P2sh h network => encode_check (byte.of_Z (match network with Main => 50 | Test => 58 end) :: h) = Some s
  | Segwit w hrp =>
      let version := to_num (Templates.version w) in
      s = encode_chars (if bool_decide (version ∈ [0; 8; 9]) then Bech32 else Bech32m)
            (hrp_parse_unchecked (hrp_name hrp)) version (bytes_to_fes (program w))
  | Mweb scan spend network => s = encode_chars Bech32 (hrp_parse_unchecked (mweb_name network)) 0 (bytes_to_fes (scan ++ spend))
  end.

(** The text with the checksum that its version does not have. *)
Definition wrong_checksum_text (w : WitnessProgram) (hrp : KnownHrp) : list byte :=
  let version := to_num (Templates.version w) in
  encode_chars (if bool_decide (version ∈ [0; 8; 9]) then Bech32m else Bech32)
    (hrp_parse_unchecked (hrp_name hrp)) version (bytes_to_fes (program w)).

Lemma checksum_for_number v : checksum_for v = if bool_decide (to_num v ∈ [0; 8; 9]) then Bech32 else Bech32m.
Proof. by destruct v. Qed.

Lemma to_num_fe v : is_fe (to_num v) ∧ version_try_from (to_num v) = Ok v.
Proof. destruct v; (split; [|reflexivity]); unfold is_fe; cbn; lia. Qed.

(** What was encoded is split into what it was made of. *)
Lemma text_parsed upper ck h v p : hrp_plain h → (length h <= 10)%nat → is_fe v → (length p <= 66)%nat →
  ∃ u, unchecked_new (in_case upper (encode_chars ck (hrp_parse_unchecked h) v (bytes_to_fes p))) = Some u ∧
    (∀ h', hrp_plain h' → hrp_eqb (unchecked_hrp u) (hrp_parse_unchecked h') = bool_decide (h = h')) ∧
    (∀ ck', has_valid_checksum ck' u = bool_decide (ck = ck')) ∧ remove_checksum ck u = v :: bytes_to_fes p.
Proof.
  intros Hh Hl Hv Hp. apply (encode_parsed upper); [done|done|apply fes_range|]. pose proof (fes_length p). lia.
Qed.

Lemma from_hrp_name (u : UncheckedHrpstring) hrp :
  (∀ h', hrp_plain h' → hrp_eqb (unchecked_hrp u) (hrp_parse_unchecked h') = bool_decide (hrp_name hrp = h')) →
  from_hrp (unchecked_hrp u) = Ok hrp.
Proof.
  intros Hu. unfold from_hrp, HRP_LTC, HRP_TLTC, HRP_RLTC.
  change (text "ltc") with (hrp_name Mainnet). change (text "tltc") with (hrp_name Testnets).
  change (text "rltc") with (hrp_name RegtestHrp). rewrite !Hu by apply hrp_name_plain. by destruct hrp.
Qed.

Lemma segwit_decoded upper w hrp : (length (program w) <= 40)%nat →
  litecoin_mweb_decode (segwit_text upper w hrp) = None ∧
  ∃ h, litecoin_segwit_decode (segwit_text upper w hrp) = Some (h, Templates.version w, program w) ∧ from_hrp h = Ok hrp.
Proof.
  intros Hp. destruct (to_num_fe (Templates.version w)) as [Hv Hn].
  destruct (text_parsed upper (checksum_for (Templates.version w)) (hrp_name hrp) (to_num (Templates.version w)) (program w))
    as (u & Hu & Hh & Hc & Hr); [apply hrp_name_plain|by destruct hrp; cbn; lia|done|lia|].
  fold (segwit_text upper w hrp) in Hu. split.
  - unfold litecoin_mweb_decode. rewrite Hu. cbn [mbind option_bind]. unfold HRP_LTCMWEB, HRP_TMWEB.
    change (text "ltcmweb") with (mweb_name Main). change (text "tmweb") with (mweb_name Test).
    rewrite !Hh by apply mweb_name_plain. by destruct hrp.
  - exists (unchecked_hrp u). split; [|by apply from_hrp_name]. unfold litecoin_segwit_decode. rewrite Hu.
    cbn [mbind option_bind]. rewrite !Hc. unfold checksum_for in *. destruct (litecoin_uses_bech32 (Templates.version w)) eqn:E.
    + change (bool_decide (Bech32 = Bech32)) with true. cbn [negb andb mbind option_bind]. rewrite Hr, Hn, fes_bytes, E. done.
    + change (bool_decide (Bech32m = Bech32)) with false. change (bool_decide (Bech32m = Bech32m)) with true.
      cbn [negb andb mbind option_bind]. rewrite Hr, Hn, fes_bytes, E. done.
Qed.

Lemma mweb_decoded upper scan spend network :
  address_wf (Mweb scan spend network) →
  litecoin_mweb_decode (mweb_text upper (scan ++ spend) network) = Some (scan, spend, network).
Proof.
  intros (Hs & Hd & [k1 E1] & [k2 E2]).
  destruct (text_parsed upper Bech32 (mweb_name network) 0 (scan ++ spend)) as (u & Hu & Hh & Hc & Hr);
    [apply mweb_name_plain|by destruct network; cbn; lia|unfold is_fe; lia|rewrite length_app; lia|].
  fold (mweb_text upper (scan ++ spend) network) in Hu. unfold litecoin_mweb_decode. rewrite Hu. cbn [mbind option_bind].
  unfold HRP_LTCMWEB, HRP_TMWEB. change (text "ltcmweb") with (mweb_name Main). change (text "tmweb") with (mweb_name Test).
  rewrite !Hh by apply mweb_name_plain. rewrite Hc. change (bool_decide (Bech32 = Bech32)) with true.
  assert ((if bool_decide (mweb_name network = mweb_name Main) then Some Main
           else if bool_decide (mweb_name network = mweb_name Test) then Some Test else None) = Some network) as ->
    by by destruct network.
  cbn [negb mbind option_bind]. rewrite Hr. cbn [Z.eqb negb]. rewrite fes_bytes, length_app, Hs, Hd. cbn [Nat.add Nat.eqb negb].
  rewrite <- Hs, take_app_length, drop_app_length. by rewrite E1, E2.
Qed.

Lemma wrong_checksum_refused upper w hrp :
  (length (program w) <= 40)%nat → litecoin_segwit_decode (in_case upper (wrong_checksum_text w hrp)) = None.
Proof.
  intros Hp. destruct (to_num_fe (Templates.version w)) as [Hv Hn]. unfold wrong_checksum_text.
  set (ck := if bool_decide _ then Bech32m else Bech32).
  destruct (text_parsed upper ck (hrp_name hrp) (to_num (Templates.version w)) (program w))
    as (u & Hu & _ & Hc & Hr); [apply hrp_name_plain|by destruct hrp; cbn; lia|done|lia|].
  unfold litecoin_segwit_decode. cbv zeta. rewrite Hu. cbn [mbind option_bind]. rewrite !Hc.
  assert (litecoin_uses_bech32 (Templates.version w) = bool_decide (to_num (Templates.version w) ∈ [0; 8; 9])) as E
    by by destruct (Templates.version w).
  subst ck. destruct (bool_decide (to_num (Templates.version w) ∈ [0; 8; 9])).
  - change (bool_decide (Bech32m = Bech32)) with false. change (bool_decide (Bech32m = Bech32m)) with true.
    cbn [negb andb mbind option_bind]. by rewrite Hr, Hn, E.
  - change (bool_decide (Bech32 = Bech32)) with true. change (bool_decide (Bech32 = Bech32m)) with false.
    cbn [negb andb mbind option_bind]. by rewrite Hr, Hn, E.
Qed.

Definition is_legacy (a : Address) : bool := match a with P2pkh _ _ | P2sh _ _ => true | _ => false end.

Lemma display_text upper a : address_wf a →
  ∃ s, is_text_of a s ∧ display upper a = Some (in_case (upper && negb (is_legacy a)) s).
Proof.
  assert (∀ d, ∃ s, encode_check d = Some s ∧ encode_check_to_fmt d = Some s) as Hc.
  { intros d. destruct (encode_check_decodes d) as (s & He & _). exists s. split; exact He. }
  destruct a as [h n|h n|w hrp|x y n]; intros Ha.
  - destruct n; [destruct (Hc (byte.of_Z 48 :: h)) as (s & He & Hf)|destruct (Hc (byte.of_Z 111 :: h)) as (s & He & Hf)];
      exists s; (split; [exact He|]); cbn [is_legacy negb]; rewrite andb_false_r; exact Hf.
  - destruct n; [destruct (Hc (byte.of_Z 50 :: h)) as (s & He & Hf)|destruct (Hc (byte.of_Z 58 :: h)) as (s & He & Hf)];
      exists s; (split; [exact He|]); cbn [is_legacy negb]; rewrite andb_false_r; exact Hf.
  - eexists. split; [reflexivity|]. rewrite display_segwit, <- checksum_for_number. by rewrite andb_true_r.
  - eexists. split; [reflexivity|]. rewrite display_mweb. by rewrite andb_true_r.
Qed.

Lemma display_legacy upper a : is_legacy a = true → address_wf a →
  ∃ s p data, display upper a = Some s ∧ decode_check s = Some (Ok (byte.of_Z p :: data)) ∧ (length s <= 50)%nat ∧
    length data = 20%nat ∧ legacy_inner (byte.of_Z p) data = Ok a.
Proof.
  assert (∀ p data, 0 < p < 256 → length data = 20%nat → legacy_inner (byte.of_Z p) data = Ok a →
    display upper a = encode_check_to_fmt (byte.of_Z p :: data) →
    ∃ s p data, display upper a = Some s ∧ decode_check s = Some (Ok (byte.of_Z p :: data)) ∧ (length s <= 50)%nat ∧
      length data = 20%nat ∧ legacy_inner (byte.of_Z p) data = Ok a) as Hgo.
  { intros p data Hp Hd Hi Ha. destruct (legacy_text p data Hp Hd) as (s & He & Hs & Hl). exists s, p, data.
    rewrite Ha, He. done. }
  destruct a as [h [|]|h [|]|w n|x y n]; cbn [is_legacy address_wf]; try done; intros _ Hh.
  - apply (Hgo PUBKEY_ADDRESS_PREFIX_MAIN h); done.
  - apply (Hgo PUBKEY_ADDRESS_PREFIX_TEST h); done.
  - apply (Hgo SCRIPT_ADDRESS_PREFIX_MAIN h); done.
  - apply (Hgo SCRIPT_ADDRESS_PREFIX_TEST h); done.
Qed.

Lemma legacy_from_str s a p data : litecoin_mweb_decode s = None → litecoin_segwit_decode s = None →
  decode_check s = Some (Ok (p :: data)) → (length s <= 50)%nat → length data = 20%nat → legacy_inner p data = Ok a →
  address_from_str s = Some (Ok a).
Proof.
  intros Hm Hw Hs Hl Hd Hi. unfold address_from_str. rewrite Hm, Hw, (proj2 (Nat.ltb_ge _ _) Hl), Hs.
  cbn [mbind option_bind length]. rewrite Hd. cbn [Nat.eqb negb]. by rewrite Hi.
Qed.

Lemma legacy_inner_ok p data a : legacy_inner p data = Ok a →
  is_legacy a = true ∧ payload_as_bytes a = data.
Proof. unfold legacy_inner. by repeat (case_match; [intros [= <-]; done|]). Qed.

(** [from_str], by what decodes. *)
Lemma from_str_cases s :
  (∃ scan spend network, litecoin_mweb_decode s = Some (scan, spend, network) ∧ address_from_str s = Some (Ok (Mweb scan spend network))) ∨
  litecoin_mweb_decode s = None ∧
  ((∃ h v p, litecoin_segwit_decode s = Some (h, v, p) ∧ address_from_str s = Some
     (result_bind (result_map_err ParseWitnessProgram (program_new v p)) (λ w,
      result_bind (result_map_err UnknownHrp (from_hrp h)) (λ hrp, Ok (Segwit w hrp))))) ∨
   litecoin_segwit_decode s = None ∧
   ((50 < length s)%nat ∧ address_from_str s = Some (Err (LegacyAddressTooLong (length s))) ∨
    (∃ e, decode_check s = Some (Err e) ∧ address_from_str s = Some (Err (ParseBase58 e))) ∨
    (∃ data, decode_check s = Some (Ok data) ∧ length data ≠ 21%nat ∧ address_from_str s = Some (Err (ParsePayloadLength (length s)))) ∨
    (∃ p data, decode_check s = Some (Ok (p :: data)) ∧ length data = 20%nat ∧ address_from_str s = Some (legacy_inner p data)))).
Proof.
  unfold address_from_str. destruct (litecoin_mweb_decode s) as [[[x y] n]|]; [left; by exists x, y, n|right; split; [done|]].
  destruct (litecoin_segwit_decode s) as [[[h v] q]|]; [left; by exists h, v, q|right; split; [done|]].
  destruct (Nat.ltb_spec 50 (length s)) as [Hl|Hl]; [left; done|right].
  assert (is_Some (decode_check s)) as [r Hr]
    by (destruct (decode_check_cases s) as [(?&_&->)|[(?&_&_&->)|(?&?&_&_&->)]]; done).
  rewrite Hr. cbn [mbind option_bind]. destruct r as [data|e]; [right|left; by exists e].
  destruct (Nat.eqb_spec (length data) 21) as [E|E]; cbn [negb]; [right|left; by exists data].
  destruct data as [|b data]; [discriminate|]. injection E as E. exists b, data. done.
Qed.

Ltac from_str_split s :=
  destruct (from_str_cases s) as
    [(x&y&k&Hm&E)|[Hm [(h&v&p&Hw&E)|[Hw [[Hl E]|[(err&Hd&E)|[(d&Hd&Hl&E)|(p&d&Hd&Hl&E)]]]]]]]; rewrite E; clear E.

Lemma mweb_decode_wf s scan spend network :
  litecoin_mweb_decode s = Some (scan, spend, network) → address_wf (Mweb scan spend network).
Proof.
  unfold litecoin_mweb_decode. destruct (unchecked_new s) as [u|]; [|discriminate]. cbn [mbind option_bind].
  destruct (if hrp_eqb _ _ then _ else _) as [k|]; [|discriminate]. cbn [mbind option_bind].
  destruct (negb _); [discriminate|]. destruct (remove_checksum _ _) as [|v fes]; [discriminate|]. destruct (negb _); [discriminate|].
  destruct (Nat.eqb_spec (length (fes_to_bytes fes)) 66) as [E|]; [|discriminate]. cbn [negb].
  destruct (PublicKey_from_slice (take 33 _)) as [a|] eqn:Ea; [|discriminate]. cbn [mbind option_bind].
  destruct (PublicKey_from_slice (drop 33 _)) as [b|] eqn:Eb; [|discriminate]. cbn [mbind option_bind].
  intros [= <- <- <-]. cbn [address_wf]. rewrite length_take, length_drop, E, Ea, Eb. done.
Qed.

Lemma display_from_str a upper s : address_wf a → display upper a = Some s →
  (is_legacy a = true → litecoin_mweb_decode s = None ∧ litecoin_segwit_decode s = None) → address_from_str s = Some (Ok a).
Proof.
  intros Ha Hs Hnone. destruct (is_legacy a) eqn:E.
  - destruct (display_legacy upper a E Ha) as (s' & p & data & Hs' & Hd & Hl & Hdl & Hi).
    assert (s' = s) as -> by congruence. destruct (Hnone eq_refl) as [Hm Hw]. by apply (legacy_from_str s a (byte.of_Z p) data).
  - destruct a as [h n|h n|w hrp|x y n]; try discriminate.
    + rewrite display_segwit in Hs. injection Hs as <-. pose proof (program_new_ok _ _ _ Ha) as [_ Hp]. unfold program_length in Hp.
      destruct (segwit_decoded upper w hrp ltac:(lia)) as (Hm & h & Hw & Hh). unfold address_from_str.
      rewrite Hm, Hw. cbn [address_wf] in Ha. by rewrite Ha, Hh.
    + rewrite display_mweb in Hs. injection Hs as <-. unfold address_from_str. by rewrite (mweb_decoded upper x y n Ha).
Qed.

(** C30: Addresses in text.  Every well-formed address is displayed, in lower or upper
    case, without a panic, and the text parses back to it: bech32 for the witness
    versions 0, 8 and 9 and for MWEB, bech32m for the other versions, base 58 with the
    prefix of the kind and network for the two old kinds, which have one case and whose
    text must not happen to be a bech32 string with a valid checksum.  A witness program
    with the other one of the two checksums is not read as one. *)
Theorem address_text_roundtrip a (upper : bool) : address_wf a →
  (∃ s, is_text_of a s ∧ display upper a = Some (in_case (upper && negb (is_legacy a)) s)) ∧
  (∀ s, display upper a = Some s →
    (upper = true → to_qr_uri a = Some (text "litecoin:" ++ s)) ∧
    ((is_legacy a = true → litecoin_mweb_decode s = None ∧ litecoin_segwit_decode s = None) →
     address_from_str s = Some (Ok a))) ∧
  (∀ w hrp, a = Segwit w hrp → litecoin_segwit_decode (in_case upper (wrong_checksum_text w hrp)) = None).
Proof.
  intros Ha. split_and!; [by apply display_text| |].
  - intros s Hs. split; [intros ->; unfold to_qr_uri; by rewrite Hs|]. by apply (display_from_str a upper).
  - intros w hrp ->. pose proof (program_new_ok _ _ _ Ha) as [_ Hp]. apply wrong_checksum_refused. unfold program_length in Hp. lia.
Qed.

Lemma from_str_total s : is_Some (address_from_str s).
Proof. from_str_split s; done. Qed.

Lemma program_new_wf v p w hrp : program_new v p = Ok w → address_wf (Segwit w hrp).
Proof. intros E. pose proof (program_new_ok _ _ _ E) as [-> _]. exact E. Qed.

Lemma legacy_inner_wf p d a : legacy_inner p d = Ok a → length d = 20%nat → address_wf a.
Proof. intros Ha Hd. destruct (legacy_inner_ok _ _ _ Ha) as [Hl Hp]. destruct a; cbn in *; congruence. Qed.

Lemma from_str_wf s a : address_from_str s = Some (Ok a) → address_wf a.
Proof.
  from_str_split s; intros Ha; try discriminate.
  - injection Ha as <-. by apply (mweb_decode_wf s).
  - destruct (program_new v p) as [w|] eqn:Ew; [|discriminate]. cbn [result_map_err result_bind] in Ha.
    destruct (from_hrp h); [|discriminate]. injection Ha as <-. by apply (program_new_wf v p).
  - injection Ha as Ha. by apply (legacy_inner_wf p d).
Qed.

Lemma legacy_prefixes p d a : legacy_inner p d = Ok a →
  byte.unsigned p ∈ [PUBKEY_ADDRESS_PREFIX_MAIN; PUBKEY_ADDRESS_PREFIX_TEST; SCRIPT_ADDRESS_PREFIX_MAIN;
                     SCRIPT_ADDRESS_PREFIX_TEST; 0x05; 0xc4].
Proof.
  unfold legacy_inner. rewrite !elem_of_cons.
  repeat match goal with |- (if byte.unsigned p =? ?q then _ else _) = _ → _ =>
           destruct (Z.eqb_spec (byte.unsigned p) q) as [E|_]; [rewrite E; intros _; tauto|] end. discriminate.
Qed.

Lemma from_str_legacy s a : address_from_str s = Some (Ok a) → is_legacy a = true →
  ∃ prefix, encode_check (prefix :: payload_as_bytes a) = Some s ∧ legacy_inner prefix (payload_as_bytes a) = Ok a ∧
    byte.unsigned prefix ∈ [PUBKEY_ADDRESS_PREFIX_MAIN; PUBKEY_ADDRESS_PREFIX_TEST; SCRIPT_ADDRESS_PREFIX_MAIN;
                            SCRIPT_ADDRESS_PREFIX_TEST; 0x05; 0xc4].
Proof.
  from_str_split s; intros Ha Hl'; try discriminate.
  - injection Ha as <-. discriminate.
  - destruct (program_new v p); [|discriminate]. cbn [result_map_err result_bind] in Ha.
    destruct (from_hrp h); [|discriminate]. injection Ha as <-. discriminate.
  - injection Ha as Ha. destruct (legacy_inner_ok _ _ _ Ha) as [_ Hp]. exists p. rewrite Hp. split_and!; [|exact Ha|].
    + by apply decode_check_encodes.
    + by apply (legacy_prefixes p d a).
Qed.

Lemma legacy_inner_err p d e : legacy_inner p d = Err e → e = InvalidLegacyPrefix (byte.unsigned p).
Proof. unfold legacy_inner. repeat (case_match; [discriminate|]). by intros [= <-]. Qed.

Lemma require_network_eq a n :
  (on_network n a = a → require_network a n = Ok a) ∧ (on_network n a ≠ a → require_network a n = Err (NetworkValidation n a)).
Proof.
  unfold require_network. rewrite <- valid_is_on_network. destruct (is_valid_for_network a n); split; done.
Qed.

Lemma from_str_err s e : address_from_str s = Some (Err e) → litecoin_mweb_decode s = None ∧
  match e with
  | ParseWitnessProgram e => ∃ h v p, litecoin_segwit_decode s = Some (h, v, p) ∧ program_new v p = Err e
  | UnknownHrp e => ∃ h v p, litecoin_segwit_decode s = Some (h, v, p) ∧ from_hrp h = Err e
  | LegacyAddressTooLong n => litecoin_segwit_decode s = None ∧ n = length s ∧ (50 < n)%nat
  | ParseBase58 e => litecoin_segwit_decode s = None ∧ decode_check s = Some (Err e)
  | ParsePayloadLength _ => litecoin_segwit_decode s = None ∧ ∃ d, decode_check s = Some (Ok d) ∧ length d ≠ 21%nat
  | InvalidLegacyPrefix p => litecoin_segwit_decode s = None ∧ ∃ d, decode_check s = Some (Ok (byte.of_Z p :: d)) ∧ length d = 20%nat
  | ParseBech32 | ParseWitnessVersion _ | NetworkValidation _ _ => False
  end.
Proof.
  from_str_split s; intros Ha; try discriminate; (split; [done|]).
  - destruct (program_new v p) as [w|e'] eqn:Ew; cbn [result_map_err result_bind] in Ha.
    + destruct (from_hrp h) as [hrp|e'] eqn:Eh; [discriminate|]. injection Ha as <-. by exists h, v, p.
    + injection Ha as <-. by exists h, v, p.
  - by injection Ha as <-.
  - by injection Ha as <-.
  - injection Ha as <-. split; [done|]. by exists d.
  - injection Ha as Ha. apply legacy_inner_err in Ha as ->. split; [done|]. exists d. by rewrite byte.of_Z_unsigned.
Qed.
(** The number in that error is the length of the text, and not, as its documentation
    says, that of the bytes decoded. *)
Lemma payload_length_of_text s n : address_from_str s = Some (Err (ParsePayloadLength n)) → n = length s.
Proof.
  from_str_split s; try discriminate.
  - destruct (program_new v p); cbn [result_map_err result_bind]; [|discriminate]. by destruct (from_hrp h).
  - by intros [= <-].
  - intros [= E]. by apply legacy_inner_err in E.
Qed.
End TextProofs.


(** C31: What parses.  [Address::from_str] never panics.  An address it returns is well
    formed, and when it is of an old kind the text is the base-58-check encoding of its
    prefix, one of the six known, and its hash.  A text with a valid bech32 checksum and
    a witness version fails only for its program's length or its human-readable part; any
    other for being longer than 50 bytes, which the error reports, or for base 58, for
    bytes that are not 21, or for the prefix it reports.  (The number that the error for
    the bytes carries is not part of this.)  [require_network] then returns the address
    unchanged exactly when it is an address of the network asked for. *)
Theorem address_parsed `{Bech32Crate} `{PublicKeys} s :
  is_Some (address_from_str s) ∧
  (∀ a, address_from_str s = Some (Ok a) → address_wf a ∧
     (is_legacy a = true → ∃ prefix, encode_check (prefix :: payload_as_bytes a) = Some s ∧
        legacy_inner prefix (payload_as_bytes a) = Ok a ∧
        byte.unsigned prefix ∈ [PUBKEY_ADDRESS_PREFIX_MAIN; PUBKEY_ADDRESS_PREFIX_TEST; SCRIPT_ADDRESS_PREFIX_MAIN;
                                SCRIPT_ADDRESS_PREFIX_TEST; 0x05; 0xc4]) ∧
     (∀ n, (on_network n a = a → require_network a n = Ok a) ∧
           (on_network n a ≠ a → require_network a n = Err (NetworkValidation n a)))) ∧
  (∀ e, address_from_str s = Some (Err e) → litecoin_mweb_decode s = None ∧
     match e with
     | ParseWitnessProgram e => ∃ h v p, litecoin_segwit_decode s = Some (h, v, p) ∧ program_new v p = Err e
     | UnknownHrp e => ∃ h v p, litecoin_segwit_decode s = Some (h, v, p) ∧ from_hrp h = Err e
     | LegacyAddressTooLong n => litecoin_segwit_decode s = None ∧ n = length s ∧ (50 < n)%nat
     | ParseBase58 e => litecoin_segwit_decode s = None ∧ decode_check s = Some (Err e)
     | ParsePayloadLength _ => litecoin_segwit_decode s = None ∧ ∃ d, decode_check s = Some (Ok d) ∧ length d ≠ 21%nat
     | InvalidLegacyPrefix p => litecoin_segwit_decode s = None ∧ ∃ d, decode_check s = Some (Ok (byte.of_Z p :: d)) ∧ length d = 20%nat
     | ParseBech32 | ParseWitnessVersion _ | NetworkValidation _ _ => False
     end).
Proof.
  split; [|split].
  - apply from_str_total.
  - intros a Ha. split; [by apply from_str_wf in Ha|]. split; [by apply from_str_legacy|]. intros n. apply require_network_eq.
  - apply from_str_err.
Qed.

(** ** Concrete addresses

    BIP 173 for the crate and byte strings for the keys. *)

Definition sample_segwit : Address :=
  Segwit {| Templates.version := V0;
            program := map byte.of_Z [0x75; 0x1e; 0x76; 0xe8; 0x19; 0x91; 0x96; 0xd4; 0x54; 0x94; 0x1c; 0x45; 0xd1; 0xb3; 0xa3;
                                      0x23; 0xf1; 0x43; 0x3b; 0xd6] |} Mainnet.

Definition sample_legacy : Address :=
  P2pkh (map byte.of_Z [0x13; 0xc6; 0x0d; 0x8e; 0x68; 0xd7; 0x34; 0x9f; 0x5b; 0x4c; 0xa3; 0x62; 0xc3; 0x95; 0x4b; 0x15; 0x04;
                        0x50; 0x61; 0xb1]) Main.

Definition legacy_string : list byte := text "LM2WMpR1Rp6j3Sa59cMXMs1SPzj9eXpGc1".

(** The addresses of the documentation. *)
Example sample_texts :
  display (H := Bip173.crate) false sample_segwit = Some (text "ltc1qw508d6qejxtdg4y5r3zarvary0c5xw7kgmn4n9") ∧
  to_qr_uri (H := Bip173.crate) sample_segwit = Some (text "litecoin:LTC1QW508D6QEJXTDG4Y5R3ZARVARY0C5XW7KGMN4N9") ∧
  display (H := Bip173.crate) false sample_legacy = Some legacy_string.
Proof. vm_compute. done. Qed.

Lemma legacy_not_bech32 :
  litecoin_mweb_decode (H := Bip173.crate) (H0 := PlainSecp.plain_keys) legacy_string = None ∧
  litecoin_segwit_decode (H := Bip173.crate) legacy_string = None.
Proof. vm_compute. done. Qed.

Lemma address_text_roundtrip_witness :
  (∃ s, display (H := Bip173.crate) true sample_segwit = Some s ∧
     address_from_str (H := Bip173.crate) (H0 := PlainSecp.plain_keys) s = Some (Ok sample_segwit)) ∧
  address_from_str (H := Bip173.crate) (H0 := PlainSecp.plain_keys) legacy_string = Some (Ok sample_legacy).
Proof.
  split.
  - destruct (address_text_roundtrip (H := Bip173.crate) (H0 := Bip173.laws) (H1 := PlainSecp.plain_keys) sample_segwit true eq_refl)
      as ((s & _ & Hs) & Hp & _). eexists. split; [exact Hs|]. apply (Hp _ Hs). intros E. discriminate E.
  - destruct (address_text_roundtrip (H := Bip173.crate) (H0 := Bip173.laws) (H1 := PlainSecp.plain_keys) sample_legacy false eq_refl)
      as (_ & Hp & _). apply (Hp _ (proj2 (proj2 sample_texts))). intros _. exact legacy_not_bech32.
Defined.

(** An address of another chain: the human-readable part is not known. *)
Definition foreign_string : list byte := text "bc1qw508d6qejxtdg4y5r3zarvary0c5xw7kv8f3t4".

Lemma legacy_accepted :
  address_from_str (H := Bip173.crate) (H0 := PlainSecp.plain_keys) legacy_string = Some (Ok sample_legacy).
Proof. vm_compute. reflexivity. Qed.

Lemma foreign_refused :
  address_from_str (H := Bip173.crate) (H0 := PlainSecp.plain_keys) foreign_string = Some (Err (UnknownHrp (text "bc"))).
Proof. vm_compute. reflexivity. Qed.

Lemma address_parsed_witness :
  (∃ prefix, encode_check (prefix :: payload_as_bytes sample_legacy) = Some legacy_string) ∧
  require_network sample_legacy Bitcoin = Ok sample_legacy ∧
  require_network sample_legacy Regtest = Err (NetworkValidation Regtest sample_legacy) ∧
  ∃ h v p, litecoin_segwit_decode (H := Bip173.crate) foreign_string = Some (h, v, p).
Proof.
  destruct (address_parsed (H := Bip173.crate) (H0 := PlainSecp.plain_keys) legacy_string) as (_ & Hok & _).
  destruct (Hok sample_legacy legacy_accepted) as (_ & Hl & Hn). split; [|split; [|split]].
  - destruct (Hl eq_refl) as (prefix & E & _). exists prefix. exact E.
  - apply Hn. reflexivity.
  - apply Hn. intros E. discriminate E.
  - destruct (address_parsed (H := Bip173.crate) (H0 := PlainSecp.plain_keys) foreign_string) as (_ & _ & Herr).
    destruct (proj2 (Herr _ foreign_refused)) as (h & v & p & E & _). exists h, v, p. exact E.
Defined.

Lemma address_script_witness :
  let s := program_script V1 (replicate 32 x07) in
  from_script s (Params.new Regtest) = Some (Ok (Segwit {| Templates.version := V1; program := replicate 32 x07 |} RegtestHrp)) ∧
  from_script (program_script V0 [x01; x02]) (Params.new Bitcoin) = Some (Err (FromWitnessProgram (InvalidSegwitV0Length 2))).
Proof.
  intros s. split.
  - apply (proj1 (proj2 (proj2 (proj2 (address_script (H := PlainSecp.plain_keys) s (Params.new Regtest)))))
             (Segwit {| Templates.version := V1; program := replicate 32 x07 |} Mainnet)); [reflexivity|discriminate|reflexivity].
  - apply (address_script (H := PlainSecp.plain_keys)). right. exists [x01; x02].
    split; [unfold program_length; cbn; lia|]. split; [discriminate|]. split; [discriminate|]. split; reflexivity.
Defined.

Lemma key_addresses_witness :
  let pk : PublicKey (PublicKeys := PlainSecp.plain_keys) := (true, PlainSecp.repeated 32 x07) in
  ∃ redeem nested, script_pubkey (p2wpkh pk Mainnet) = Some redeem ∧ p2sh redeem Main = Ok nested ∧ p2shwpkh pk Main = Some nested.
Proof.
  intros pk.
  pose proof (key_addresses (H := PlainSecp.plain_keys) (H0 := PlainSecp.plain_secp) (H1 := PlainSecp.plain_keys_laws)
    (H2 := PlainTaprootKeys.keys) (H3 := PlainTaprootKeys.keys_laws)
    (λ _, sample_key) (key_new pk) pk pk sample_key [] Main Mainnet) as (_ & (_ & _ & _ & redeem & nested & H1 & H2 & H3 & _) & _).
  exists redeem, nested. split; [exact H1|]. split; [exact H2|exact H3].
Defined.

(** Bits of padding are not looked at: a text with one more group than the program needs,
    and a checksum for it, is read as the same address. *)
Example padding_ignored :
  let w := {| Templates.version := V0; program := replicate 20 x07 |} in
  let s := encode_chars (Bech32Crate := Bip173.crate) Bech32 (text "ltc") 0 (Bip173.to_fes (replicate 20 x07) ++ [31]) in
  address_from_str (H := Bip173.crate) (H0 := PlainSecp.plain_keys) s = Some (Ok (Segwit w Mainnet)) ∧
  bool_decide (display (H := Bip173.crate) false (Segwit w Mainnet) = Some s) = false.
Proof. vm_compute. done. Qed.

(** The payload of an MWEB address is the scan key alone. *)
Example mweb_payload (scan spend : list byte) n : payload_as_bytes (Mweb scan spend n) = scan.
Proof. reflexivity. Qed.
