(* ===== verification/Psbt.v ===== *)
(** Partially signed transactions, the common part ([src/litecoin/src/psbt/raw.rs],
    [macros.rs], [map/mod.rs], [error.rs] and the values of [serialize.rs]): raw keys
    and pairs, the error type, the macros that read and write the fields of a map, the
    loop that decodes a map. *)

From S2P Require Import Witness.
From Stdlib Require Import String ZArith Lia ZifyBool.
From stdpp Require Import base list.
From Stdlib Require Import Init.Byte.
From coqutil Require Import Byte Word.LittleEndianList.
From S2P Require Import Prelude Io Ordered HashEngine Sha256 Encode Mimblewimble Transaction Script Templates.
From S2P Require Import Taproot Sighash Keys Bip32.

(** ** Raw pairs *)

Module Raw.

Record Key := { type_value : Z; key : list byte }.
Record Pair := { pair_key : Key; value : list byte }.
Record ProprietaryKey := { prefix : list byte; subtype : Z; prop_key : list byte }.

(** The derived orders. *)
#[export] Instance key_ordered : Ordered Key.
Proof. refine (inj_ordered (λ k, (type_value k, key k)) _). by intros [] [] [= -> ->]. Defined.
#[export] Instance proprietary_ordered : Ordered ProprietaryKey.
Proof. refine (inj_ordered (λ k, (prefix k, (subtype k, prop_key k))) _). by intros [] [] [= -> -> ->]. Defined.

(** [Serialize for Key] and for [Pair]; [None]: [expect("in-memory writers don't error")]. *)
Definition key_encode (k : Key) : wr Z :=
  let+ _ := c_enc varint (Z.of_nat (length (key k)) + 1) in
  let+ _ := c_enc u8 (type_value k) in
  w_for (λ _ b, c_enc u8 (byte.unsigned b)) 0 (key k).

Definition key_serialize (k : Key) : option (list byte) :=
  match key_encode k with Ok (_, buf) => Some buf | Err _ => None end.

Definition pair_serialize (p : Pair) : option (list byte) :=
  k ← key_serialize (pair_key p);
  match c_enc bytes (value p) with Ok (_, v) => Some (k ++ v) | Err _ => None end.

Definition proprietary_encode (k : ProprietaryKey) : wr Z :=
  let+ len := w_add 0 (c_enc bytes (prefix k)) in
  let len := len + 1 in
  let+ _ := emit_u8 (subtype k) in
  let+ _ := w_bytes (prop_key k) in
  w_ret (len + Z.of_nat (length (prop_key k))).

(** [read_to_limit] of 1024 bytes on a slice takes that many, or all there are. *)
Definition proprietary_decode : rd ProprietaryKey :=
  let! prefix := c_dec_top bytes in
  let! subtype := read_u8 in
  let! key := (λ s, Ok (take 1024 s, drop 1024 s)) in
  rd_ret {| prefix := prefix; subtype := subtype; prop_key := key |}.

Definition proprietary_codec : codec ProprietaryKey := fixed_codec proprietary_encode proprietary_decode.

(** [to_key]; [None]: the [expect] of [serialize]. *)
Definition to_key (k : ProprietaryKey) : option Key :=
  match Encode.serialize proprietary_codec k with
  | Ok bs => Some {| type_value := 0xFC; key := bs |}
  | Err _ => None
  end.

End Raw.

Import Raw.

(** ** Errors *)

Inductive PsbtHash := PsbtRipemd | PsbtSha256 | PsbtHash160 | PsbtHash256.

Section Errors.
Context `{Secp256k1}.

Inductive Error :=
| InvalidMagic
| MissingUtxo
| InvalidSeparator
| PsbtUtxoOutOfbounds
| InvalidKey (k : Key)
| InvalidProprietaryKey
| DuplicateKey (k : Key)
| UnsignedTxHasScriptSigs
| UnsignedTxHasScriptWitnesses
| UnsupportedMwebOrHogEx
| IncompleteMwebMaps (s : string)
| MustHaveUnsignedTx
| NoMorePairs
| UnexpectedUnsignedTx (expected actual : Transaction)
| NonStandardSighashType (ty : Z)
| InvalidHash (expected got : nat)
| InvalidPreimageHashPair (hash_type : PsbtHash) (preimage hash : list byte)
| CombineInconsistentKeySources (xpub : Xpub)
| ConsensusEncoding (e : Encode.Error)
| NegativeFee
| FeeOverflow
| InvalidPublicKey (e : FromSliceError)
| InvalidSecp256k1PublicKey
| InvalidXOnlyPublicKey
| InvalidEcdsaSignature (e : EcdsaError)
| InvalidTaprootSignature (e : SigFromSliceError)
| InvalidControlBlock
| InvalidLeafVersion
| TaprootTree (s : string)
| TapTree (e : IncompleteBuilderError)
| XPubKey (s : string)
| Version (s : string)
| PartialDataConsumption
| PsbtIo (e : io_error).

Definition prd (A : Type) : Type := reader Error A.

(** The [?] on a consensus decoder: [From<encode::Error>]. *)
Definition consensus {A} (m : rd A) : prd A := λ s, result_map_err ConsensusEncoding (m s).

(** ** Reading raw pairs *)

Definition key_decode : prd Key :=
  let! byte_size := consensus (c_dec_top varint) in
  if byte_size =? 0 then rd_err NoMorePairs
  else
    let key_byte_size := byte_size - 1 in
    if MAX_VEC_SIZE <? key_byte_size then
      rd_err (ConsensusEncoding (OversizedVectorAllocation key_byte_size MAX_VEC_SIZE))
    else
      let! type_value := consensus (c_dec_top u8) in
      let! key := rd_for key_byte_size (λ key, let! b := consensus (c_dec_top u8) in rd_ret (key ++ [byte.of_Z b])) [] in
      rd_ret {| type_value := type_value; key := key |}.

Definition pair_decode : prd Pair :=
  let! key := key_decode in
  let! value := consensus (c_dec_top bytes) in
  rd_ret {| pair_key := key; value := value |}.

(** [Deserialize for Pair]: what follows the pair is not looked at. *)
Definition pair_deserialize (bs : list byte) : result Error Pair :=
  let? (p, _) := pair_decode bs in Ok p.

(** [TryFrom<Key> for ProprietaryKey] *)
Definition try_from_key (k : Key) : result Error ProprietaryKey :=
  if negb (type_value k =? 0xFC) then Err InvalidProprietaryKey
  else result_map_err ConsensusEncoding (Encode.deserialize proprietary_codec (key k)).

End Errors.

(** ** Values: the [Serialize] and [Deserialize] traits

    [None] of [ser] is a panic of the encoder. *)
Class PsbtValue `{Secp256k1} (A : Type) := {
  ser : A → option (list byte);
  de : list byte → result Error A }.

(** What is well formed is serialised, and parsed back. *)
Class PsbtRoundTrip `{Secp256k1} (A : Type) `{!PsbtValue A} (wf : A → Prop) : Prop :=
  de_ser x : wf x → ∃ bs, ser x = Some bs ∧ de bs = Ok x.

(** ** Maps

    A field of a map: how to read it and how to replace it. *)
Record field (M A : Type) := Field { get : M → A; set : A → M → M }.
Arguments Field {M A}.
Arguments get {M A} _ _.
Arguments set {M A} _ _ _.

Class FieldLaws {M A} (f : field M A) : Prop := {
  get_set a m : get f (set f a m) = a;
  set_set a b m : set f a (set f b m) = set f a m;
  set_get m : set f (get f m) m = m }.

Section Macros.
Context `{Secp256k1} {M : Type}.

(** [impl_psbt_insert_pair!] of a field without a key. *)
Definition insert_unkeyed {A} `{!PsbtValue A} (f : field M (option A)) (raw_key : Key) (raw_value : list byte) (slf : M) :
    result Error M :=
  match key raw_key with
  | [] =>
      match get f slf with
      | None => let? val := de raw_value in Ok (set f (Some val) slf)
      | Some _ => Err (DuplicateKey raw_key)
      end
  | _ => Err (InvalidKey raw_key)
  end.

(** [impl_psbt_insert_pair!] of a map. *)
Definition insert_keyed {K A} `{!Ordered K, !PsbtValue K, !PsbtValue A} (f : field M (list (K * A))) (raw_key : Key)
    (raw_value : list byte) (slf : M) : result Error M :=
  match key raw_key with
  | [] => Err (InvalidKey raw_key)
  | _ =>
      let? key_val := de (A := K) (key raw_key) in
      match bmap_get key_val (get f slf) with
      | None => let? val := de raw_value in Ok (set f (bmap_insert key_val val (get f slf)) slf)
      | Some _ => Err (DuplicateKey raw_key)
      end
  end.

(** The arms for proprietary and unknown keys, alike in the three maps. *)
Definition insert_proprietary (f : field M (list (ProprietaryKey * list byte))) (raw_key : Key) (raw_value : list byte) (slf : M) :
    result Error M :=
  let? key := try_from_key raw_key in
  match bmap_get key (get f slf) with
  | None => Ok (set f (bmap_insert key raw_value (get f slf)) slf)
  | Some _ => Err (DuplicateKey raw_key)
  end.
Definition insert_unknown (f : field M (list (Key * list byte))) (raw_key : Key) (raw_value : list byte) (slf : M) :
    result Error M :=
  match bmap_get raw_key (get f slf) with
  | None => Ok (set f (bmap_insert raw_key raw_value (get f slf)) slf)
  | Some _ => Err (DuplicateKey raw_key)
  end.

(** [impl_psbt_get_pair!]; [None]: a panic of a serialisation. *)
Definition push_unkeyed {A} `{!PsbtValue A} (f : field M (option A)) (ty : Z) (slf : M) : option (list Pair) :=
  match get f slf with
  | Some a => v ← ser a; Some [{| pair_key := {| type_value := ty; key := [] |}; value := v |}]
  | None => Some []
  end.
Definition push_map {K A} `{!PsbtValue K, !PsbtValue A} (f : field M (list (K * A))) (ty : Z) (slf : M) : option (list Pair) :=
  mapM (λ '(k, a), kb ← ser (A := K) k; v ← ser a; Some {| pair_key := {| type_value := ty; key := kb |}; value := v |})
    (get f slf).
Definition push_proprietary (f : field M (list (ProprietaryKey * list byte))) (slf : M) : option (list Pair) :=
  mapM (λ '(k, v), k ← to_key k; Some {| pair_key := k; value := v |}) (get f slf).
Definition push_unknown (f : field M (list (Key * list byte))) (slf : M) : option (list Pair) :=
  Some ((λ '(k, v), {| pair_key := k; value := v |}) <$> get f slf).

(** [combine!] *)
Definition combine_field {A} (f : field M (option A)) (slf other : M) : M :=
  match get f slf, get f other with
  | None, Some a => set f (Some a) slf
  | _, _ => slf
  end.
(** [self.field.extend(other.field)] *)
Definition extend_field {K A} `{!Ordered K} (f : field M (list (K * A))) (slf other : M) : M :=
  set f (bmap_extend (get f slf) (get f other)) slf.

(** [Map::serialize_map] *)
Definition serialize_pairs (ps : list Pair) : option (list byte) :=
  bss ← mapM pair_serialize ps; Some (concat bss ++ [x00]).

(** [impl_psbtmap_decoding!]: a round takes at least one byte, or fails, so as many
    rounds as there are bytes, and one, are enough. [NoMorePairs] leaves the reader
    after the zero byte, the one encoding of a zero length. *)
Fixpoint decode_loop (insert_pair : Pair → M → result Error M) (fuel : nat) (rv : M) : prd M :=
  λ s,
    match fuel with
    | O => Err (PsbtIo (err_of_kind UnexpectedEof))
    | S fuel =>
        match pair_decode s with
        | Ok (p, s') => let? rv := insert_pair p rv in decode_loop insert_pair fuel rv s'
        | Err NoMorePairs => Ok (rv, drop 1 s)
        | Err e => Err e
        end
    end.

Definition decode_map (insert_pair : Pair → M → result Error M) (default : M) : prd M :=
  λ s, decode_loop insert_pair (S (length s)) default s.

End Macros.

(** ** Raw pairs, read and written *)

Section RawLaws.
Context `{Secp256k1}.

Definition key_bytes (k : Key) : list byte :=
  varint_bytes (Z.of_nat (length (key k)) + 1) ++ byte.of_Z (type_value k) :: key k.
Definition pair_bytes (p : Pair) : list byte :=
  key_bytes (pair_key p) ++ varint_bytes (Z.of_nat (length (value p))) ++ value p.

(** The pairs a decoder accepts: the key's length is bounded, and the value with its
    length prefix is read through a [Take] of the same size. *)
Record pair_wf (p : Pair) : Prop := {
  pwf_type : urange 8 (type_value (pair_key p));
  pwf_key : Z.of_nat (length (key (pair_key p))) <= MAX_VEC_SIZE;
  pwf_value : varint_size (Z.of_nat (length (value p))) + Z.of_nat (length (value p)) <= MAX_VEC_SIZE }.

Lemma w_for_key_bytes bs acc : ∃ n, w_for (λ _ b, c_enc u8 (byte.unsigned b)) acc bs = (Ok (n, bs) : wr Z).
Proof.
  revert acc. induction bs as [|b bs IH]; intros acc; [by eexists|]. cbn [w_for]. destruct (IH 1) as (n & Hn). exists n.
  eapply (w_bind_of _ _ 1 [b] n bs); [|exact Hn]. cbn. by rewrite byte.of_Z_unsigned.
Qed.

Lemma key_serialize_eq k :
  Z.of_nat (length (key k)) <= MAX_VEC_SIZE → key_serialize k = Some (key_bytes k).
Proof.
  intros Hl. unfold key_serialize, key_encode, key_bytes.
  assert (urange 64 (Z.of_nat (length (key k)) + 1)) as Hu by (unfold urange, MAX_VEC_SIZE in *; lia).
  destruct (w_for_key_bytes (key k) 0) as (n & Hn).
  erewrite w_bind_of; [|by apply varint_encode_eq|]; [reflexivity|].
  eapply (w_bind_of _ _ 1 [byte.of_Z (type_value k)]); [reflexivity|exact Hn].
Qed.

Lemma consensus_ok {A} (m : rd A) s x rest : consensus m s = Ok (x, rest) ↔ m s = Ok (x, rest).
Proof. unfold consensus. destruct (m s) as [[y r]|e]; cbn; split; congruence. Qed.

Lemma key_bytes_loop bs acc rest :
  nat_loop (λ st, (let! b := consensus (c_dec_top u8) in rd_ret (fst st ++ [byte.of_Z b])) (snd st)) (length bs) (acc, bs ++ rest)
  = Ok (acc ++ bs, rest).
Proof.
  revert acc. induction bs as [|b bs IH]; intros acc; cbn [length nat_loop fst snd]; [by rewrite app_nil_r|].
  unfold rd_bind at 1. cbn [app]. change (c_dec_top u8) with read_u8. unfold consensus at 1. rewrite read_u8_cons.
  cbn [result_map_err rd_ret result_bind]. rewrite byte.of_Z_unsigned, IH, <- app_assoc. done.
Qed.

Lemma key_bytes_loop_ok n acc s key rest :
  nat_loop (λ st, (let! b := consensus (c_dec_top u8) in rd_ret (fst st ++ [byte.of_Z b])) (snd st)) n (acc, s) = Ok (key, rest) →
  ∃ bs, key = acc ++ bs ∧ length bs = n ∧ s = bs ++ rest.
Proof.
  revert acc s. induction n as [|n IH]; intros acc s; cbn [nat_loop fst snd].
  - intros [= <- <-]. exists []. by rewrite app_nil_r.
  - unfold rd_bind at 1. destruct (consensus _ s) as [[b s']|] eqn:Hb; [|done]. cbn [rd_ret result_bind]. intros Hl.
    apply consensus_ok, read_u8_ok in Hb. destruct Hb as (c & -> & ->).
    apply IH in Hl as (bs & -> & <- & ->). exists (c :: bs). rewrite <- app_assoc. cbn [app]. rewrite byte.of_Z_unsigned. done.
Qed.

Lemma key_decode_app k rest :
  urange 8 (type_value k) → Z.of_nat (length (key k)) <= MAX_VEC_SIZE → key_decode (key_bytes k ++ rest) = Ok (k, rest).
Proof.
  intros Ht Hl. destruct k as [ty bs]; cbn [type_value key] in *. unfold key_decode, key_bytes. cbn [type_value key].
  assert (urange 64 (Z.of_nat (length bs) + 1)) as Hu by (unfold urange, MAX_VEC_SIZE in *; lia).
  unfold rd_bind at 1. rewrite <- app_assoc. unfold consensus at 1. change (c_dec_top varint) with varint_decode.
  rewrite (varint_decode_app _ _ Hu). cbn [result_map_err].
  destruct (Z.eqb_spec (Z.of_nat (length bs) + 1) 0); [lia|]. replace (Z.of_nat (length bs) + 1 - 1) with (Z.of_nat (length bs)) by lia.
  destruct (Z.ltb_spec MAX_VEC_SIZE (Z.of_nat (length bs))); [lia|]. unfold rd_bind at 1. cbn [app].
  unfold consensus at 1. change (c_dec_top u8) with read_u8 at 1. rewrite read_u8_cons. cbn [result_map_err].
  rewrite byte_of_Z_u by done. unfold rd_bind at 1. rewrite rd_for_nat, Nat2Z.id. setoid_rewrite (key_bytes_loop bs [] rest). done.
Qed.

Lemma key_decode_ok s k rest :
  key_decode s = Ok (k, rest) →
  urange 8 (type_value k) ∧ Z.of_nat (length (key k)) <= MAX_VEC_SIZE ∧ s = key_bytes k ++ rest.
Proof.
  unfold key_decode. intros (n & s1 & Hn & Hd)%rd_bind_ok. apply consensus_ok in Hn.
  change (c_dec_top varint) with varint_decode in Hn. apply varint_decode_ok in Hn as [Hu ->]. unfold urange in Hu.
  destruct (Z.eqb_spec n 0); [done|]. destruct (Z.ltb_spec MAX_VEC_SIZE (n - 1)); [done|].
  apply rd_bind_ok in Hd as (ty & s2 & Ht & Hd). apply consensus_ok, read_u8_ok in Ht as (b & -> & ->).
  apply rd_bind_ok in Hd as (bs & s3 & Hb & [= <- <-]). rewrite rd_for_nat in Hb. apply key_bytes_loop_ok in Hb as (bs' & -> & Hl & ->).
  cbn [app type_value key]. split_and!; [apply urange_byte|lia|]. unfold key_bytes. cbn [type_value key].
  rewrite byte.of_Z_unsigned, <- app_assoc. replace (Z.of_nat (length bs') + 1) with n by lia. done.
Qed.

Lemma key_bytes_loop_end n acc s :
  nat_loop (λ st, (let! b := consensus (c_dec_top u8) in rd_ret (fst st ++ [byte.of_Z b])) (snd st)) n (acc, s) ≠ Err NoMorePairs.
Proof.
  revert acc s. induction n as [|n IH]; intros acc s; [done|]. cbn [nat_loop fst snd]. unfold rd_bind at 1.
  unfold consensus at 1. destruct (c_dec_top u8 s) as [[b s']|]; [|done]. cbn. apply IH.
Qed.

Lemma key_decode_end s : key_decode s = Err NoMorePairs ↔ head s = Some x00.
Proof.
  unfold key_decode, rd_bind at 1. split.
  - destruct (consensus (c_dec_top varint) s) as [[n s1]|e] eqn:Hn; [|intros [= ->]; unfold consensus in Hn; by destruct (c_dec_top varint s)].
    apply consensus_ok in Hn. change (c_dec_top varint) with varint_decode in Hn. apply varint_decode_ok in Hn as [_ ->].
    destruct (Z.eqb_spec n 0) as [-> | ]; [done|]. destruct (MAX_VEC_SIZE <? n - 1); [done|].
    assert (∀ (m : rd Z), consensus m s1 ≠ Err NoMorePairs) as Hne.
    { intros m. unfold consensus. by destruct (m s1). }
    unfold rd_bind at 1. intros Hd. exfalso. destruct (consensus (c_dec_top u8) s1) as [[ty s2]|e] eqn:Ht; [|by injection Hd as ->; destruct (Hne (c_dec_top u8))].
    unfold rd_bind in Hd at 1. destruct (rd_for _ _ _ s2) as [[bs s3]|e] eqn:Hf; [done|]. injection Hd as ->.
    rewrite rd_for_nat in Hf. by apply key_bytes_loop_end in Hf.
  - destruct s as [|b s]; [done|]. intros [= ->]. unfold consensus at 1. change (c_dec_top varint) with varint_decode.
    change (x00 :: s) with (varint_bytes 0 ++ s). by rewrite varint_decode_app.
Qed.

Lemma pair_serialize_eq p : pair_wf p → pair_serialize p = Some (pair_bytes p).
Proof.
  intros [_ Hk Hv]. unfold pair_serialize, pair_bytes. rewrite key_serialize_eq by done. cbn [mbind option_bind].
  rewrite (bytes_encodes (value p)); [done|]. pose proof (varint_size_pos (Z.of_nat (length (value p)))).
  unfold fits_u64, MAX_VEC_SIZE in *. lia.
Qed.

Lemma pair_decode_app p rest : pair_wf p → pair_decode (pair_bytes p ++ rest) = Ok (p, rest).
Proof.
  intros [Ht Hk Hv]. unfold pair_decode, pair_bytes, rd_bind at 1. rewrite <- app_assoc, key_decode_app by done.
  unfold rd_bind at 1. unfold consensus. change (c_dec_top bytes) with (rd_take MAX_VEC_SIZE (c_dec bytes)).
  assert (fits_u64 (value p)) as Hf.
  { pose proof (varint_size_pos (Z.of_nat (length (value p)))). unfold fits_u64, MAX_VEC_SIZE in *. lia. }
  destruct (roundtrip (c := bytes) (value p) Hf) as (bs & He & Hr). pose proof (bytes_encodes (value p) Hf) as He'.
  unfold encodes in He, He'. rewrite He in He'. injection He' as _ Hb.
  subst bs. rewrite (reads_take _ _ _ MAX_VEC_SIZE Hr); [by destruct p|]. rewrite length_app, Nat2Z.inj_add, length_varint_bytes. done.
Qed.

Lemma pair_decode_ok s p rest : pair_decode s = Ok (p, rest) → pair_wf p ∧ s = pair_bytes p ++ rest.
Proof.
  unfold pair_decode. intros (k & s1 & Hk & Hd)%rd_bind_ok. apply key_decode_ok in Hk as (Ht & Hl & ->).
  apply rd_bind_ok in Hd as (v & s2 & Hv & [= <- <-]). apply consensus_ok in Hv.
  change (c_dec_top bytes) with (rd_take MAX_VEC_SIZE (c_dec bytes)) in Hv. assert (0 <= MAX_VEC_SIZE) as HM by (unfold MAX_VEC_SIZE; lia).
  destruct (parses_take (c_dec bytes) fits_u64 (encodes bytes) _ _ _ _ HM Hv) as (Hf & bs & He & Hb & ->).
  pose proof (bytes_encodes v Hf) as He'. unfold encodes in He, He'. rewrite He in He'. injection He' as _ ->.
  rewrite length_app, Nat2Z.inj_add, length_varint_bytes in Hb. split; [by constructor|]. unfold pair_bytes. cbn [pair_key value].
  by rewrite <- !app_assoc.
Qed.

Lemma pair_decode_end s : pair_decode s = Err NoMorePairs ↔ head s = Some x00.
Proof.
  rewrite <- key_decode_end. unfold pair_decode, rd_bind at 1. destruct (key_decode s) as [[k s1]|e]; [|split; by intros [= ->]].
  split; [|done]. unfold rd_bind, consensus. by destruct (c_dec_top bytes s1) as [[]|].
Qed.

(** ** Maps, read and written *)

Context {M : Type}.

(** The pairs inserted one after the other. *)
Fixpoint insert_all (insert_pair : Pair → M → result Error M) (ps : list Pair) (m : M) : result Error M :=
  match ps with
  | [] => Ok m
  | p :: ps => let? m := insert_pair p m in insert_all insert_pair ps m
  end.

Lemma insert_all_app ins ps qs m :
  insert_all ins (ps ++ qs) m = let? m := insert_all ins ps m in insert_all ins qs m.
Proof. revert m. induction ps as [|p ps IH]; intros m; [done|]. cbn [app insert_all]. destruct (ins p m); [apply IH|done]. Qed.

Definition map_bytes (ps : list Pair) : list byte := concat (map pair_bytes ps) ++ [x00].

Lemma serialize_pairs_eq ps : Forall pair_wf ps → serialize_pairs ps = Some (map_bytes ps).
Proof.
  intros Hps. unfold serialize_pairs, map_bytes.
  assert (mapM pair_serialize ps = Some (map pair_bytes ps)) as ->; [|done].
  induction Hps as [|p ps Hp _ IH]; [done|]. cbn [mapM map]. rewrite pair_serialize_eq by done. cbn [mbind option_bind]. by rewrite IH.
Qed.

Lemma map_bytes_length ps : (length ps < length (map_bytes ps))%nat.
Proof.
  unfold map_bytes. rewrite length_app. cbn [length]. induction ps as [|p ps IH]; [cbn; lia|]. cbn [map concat length].
  rewrite length_app. unfold pair_bytes at 1, key_bytes. rewrite !length_app. cbn [length]. lia.
Qed.

(** A map is decoded just when it is a series of pairs, a zero byte after them, that
    are all inserted. *)
Lemma decode_map_ok ins d s m rest :
  decode_map ins d s = Ok (m, rest) ↔
  ∃ ps, Forall pair_wf ps ∧ s = map_bytes ps ++ rest ∧ insert_all ins ps d = Ok m.
Proof.
  unfold decode_map. split.
  - generalize (S (length s)) as fuel. intros fuel. revert d s. induction fuel as [|fuel IH]; intros d s; [done|].
    cbn [decode_loop]. destruct (pair_decode s) as [[p s']|e] eqn:Hp.
    + apply pair_decode_ok in Hp as [Hwf ->]. destruct (ins p d) as [d'|] eqn:Hi; [|done]. cbn [result_bind].
      intros (ps & Hps & -> & Ha)%IH. exists (p :: ps). split_and!; [by constructor| |cbn; by rewrite Hi].
      unfold map_bytes. cbn [map concat]. by rewrite <- !app_assoc.
    + destruct e; try done. intros [= <- <-]. apply pair_decode_end in Hp. destruct s as [|b s]; [done|].
      injection Hp as ->. exists []. by split_and!.
  - intros (ps & Hps & -> & Ha).
    assert (length ps < S (length (map_bytes ps ++ rest)))%nat as Hf.
    { rewrite length_app. pose proof (map_bytes_length ps). lia. }
    revert Hf. generalize (S (length (map_bytes ps ++ rest))) as fuel. intros fuel. revert d Ha fuel.
    induction Hps as [|p ps Hp Hps IH]; intros d Ha fuel Hf; (destruct fuel as [|fuel]; [lia|]); cbn [decode_loop].
    + rewrite (proj2 (pair_decode_end _)) by done. cbn in Ha. injection Ha as ->. done.
    + unfold map_bytes. cbn [map concat]. rewrite <- !app_assoc, pair_decode_app by done.
      cbn [insert_all] in Ha. destruct (ins p d) as [d'|]; [|done]. cbn [result_bind] in Ha |- *.
      specialize (IH d' Ha fuel ltac:(cbn in Hf; lia)). unfold map_bytes in IH. by rewrite <- app_assoc in IH.
Qed.
End RawLaws.

(** A projection and its update, from the eta-expansion of the record. *)
Ltac field_of eta proj :=
  let e := eval cbv beta delta [eta] in eta in
  match eval pattern proj in e with
  | ?F _ => let upd := eval cbv beta in (λ a m, F (λ _, a) m) in exact (Field proj upd)
  end.
Ltac field_laws := split; [reflexivity|reflexivity|by intros []].

(** ** Segments of a map

    The pairs of one field, inserted in a map where the field is still empty, set it. *)
Section Segments.
Context `{Secp256k1} {M : Type} (ins : Pair → M → result Error M).

(** What the dispatch on the type byte does. *)
Definition handles (ty : Z) (op : Key → list byte → M → result Error M) : Prop :=
  ∀ k v m, type_value k = ty → ins {| pair_key := k; value := v |} m = op k v m.

(** The pairs of [o] take [acc] to [acc']. *)
Definition segment (o : option (list Pair)) (acc acc' : M) : Prop :=
  ∃ ps, o = Some ps ∧ insert_all ins ps acc = Ok acc'.

(** [get_pairs] collects the fields in order. *)
Definition push_all (os : list (option (list Pair))) : option (list Pair) :=
  foldr (λ o rest, ps ← o; qs ← rest; Some (ps ++ qs)) (Some []) os.

Lemma segment_nil acc : segment (push_all []) acc acc.
Proof. by exists []. Qed.

Lemma segment_cons o os acc acc' acc'' :
  segment o acc acc' → segment (push_all os) acc' acc'' → segment (push_all (o :: os)) acc acc''.
Proof.
  intros (ps & -> & Hp) (qs & Hq & Hq'). exists (ps ++ qs). cbn [push_all foldr]. unfold push_all in Hq. rewrite Hq.
  split; [done|]. by rewrite insert_all_app, Hp.
Qed.

Lemma segment_unkeyed {A} `{!PsbtValue A} (f : field M (option A)) wf ty m acc :
  PsbtRoundTrip A wf → FieldLaws f → handles ty (insert_unkeyed f) →
  (∀ a, get f m = Some a → wf a) → get f acc = None →
  segment (push_unkeyed f ty m) acc (set f (get f m) acc).
Proof.
  intros Hrt Hf Hh Hwf Hacc. unfold segment, push_unkeyed. destruct (get f m) as [a|] eqn:Ha.
  - destruct (de_ser a (Hwf a eq_refl)) as (bs & Hs & Hd). rewrite Hs. eexists. split; [done|].
    cbn [insert_all]. rewrite Hh by done. unfold insert_unkeyed. cbn [key]. by rewrite Hacc, Hd.
  - exists []. split; [done|]. cbn. by rewrite <- Hacc, set_get.
Qed.

Lemma bmap_fresh {K V} `{Ordered K} pre k (v : V) l :
  bmap_wf (pre ++ (k, v) :: l) → bmap_get k pre = None ∧ bmap_insert k v pre = pre ++ [(k, v)].
Proof.
  intros (_ & _ & Hlt)%bmap_wf_app. split; [|apply bmap_insert_last; intros j w Hj; eapply Hlt; [done|left]].
  assert (∀ j w, (j, w) ∈ pre → cmp j k = Lt) as Hall by (intros j w Hj; eapply Hlt; [done|left]).
  clear Hlt. induction pre as [|[j w] pre IH]; [done|]. cbn. rewrite decide_False.
  - apply IH. intros. eapply Hall. right. done.
  - intros ->. pose proof (Hall k w ltac:(left)) as Hk. by rewrite cmp_refl in Hk.
Qed.

(** A map, entry by entry. *)
Lemma segment_entries {K V} `{Ordered K} (f : field M (list (K * V))) (mk : K * V → option Pair) l acc :
  FieldLaws f → bmap_wf l → get f acc = [] →
  (∀ k v, (k, v) ∈ l → ∃ p, mk (k, v) = Some p ∧
    ∀ m, bmap_get k (get f m) = None → ins p m = Ok (set f (bmap_insert k v (get f m)) m)) →
  segment (mapM mk l) acc (set f l acc).
Proof.
  intros Hf Hwf Hacc Hmk.
  assert (∀ l' pre m, pre ++ l' = l → get f m = pre → segment (mapM mk l') m (set f l m)) as Hgen; [|by apply (Hgen l [])].
  induction l' as [|[k v] l' IH]; intros pre m Hl Hm; cbn [mapM].
  - rewrite app_nil_r in Hl. exists []. split; [done|]. cbn. by rewrite <- Hl, <- Hm, set_get.
  - destruct (Hmk k v) as (p & -> & Hp); [rewrite <- Hl; apply elem_of_app; right; left|].
    destruct (bmap_fresh pre k v l') as [Hn Hi]; [by rewrite Hl|].
    destruct (IH (pre ++ [(k, v)]) (set f (pre ++ [(k, v)]) m)) as (ps & Hps & Ha); [by rewrite <- app_assoc|apply get_set|].
    exists (p :: ps). cbn [mbind option_bind]. rewrite Hps. split; [done|].
    cbn [insert_all]. rewrite Hp by (by rewrite Hm). rewrite Hm, Hi. cbn [result_bind]. rewrite Ha. by rewrite set_set.
Qed.

Lemma segment_map {K A} `{!Ordered K, !PsbtValue K, !PsbtValue A} (f : field M (list (K * A))) wfk wfa ty m acc :
  PsbtRoundTrip K wfk → PsbtRoundTrip A wfa → FieldLaws f → handles ty (insert_keyed f) →
  (∀ k, ser (A := K) k ≠ Some []) →
  Forall (λ e, wfk (fst e) ∧ wfa (snd e)) (get f m) → bmap_wf (get f m) → get f acc = [] →
  segment (push_map f ty m) acc (set f (get f m) acc).
Proof.
  intros Hk Ha Hf Hh Hne Hwf Hm Hacc. unfold push_map. apply segment_entries; [done..|].
  intros k v Hin. rewrite Forall_forall in Hwf. destruct (Hwf (k, v) Hin) as [Hwk Hwv]. cbn [fst snd] in *.
  destruct (de_ser k Hwk) as (kb & Hks & Hkd), (de_ser v Hwv) as (vb & Hvs & Hvd). rewrite Hks, Hvs. eexists. split; [done|].
  intros m' Hg. rewrite Hh by done. unfold insert_keyed. cbn [key]. specialize (Hne k).
  destruct kb as [|b kb]; [done|]. rewrite Hkd. cbn [result_bind]. by rewrite Hg, Hvd.
Qed.

Lemma segment_unknown (f : field M (list (Key * list byte))) m acc :
  FieldLaws f → bmap_wf (get f m) → get f acc = [] →
  (∀ k v, (k, v) ∈ get f m → ∀ m', ins {| pair_key := k; value := v |} m' = insert_unknown f k v m') →
  segment (push_unknown f m) acc (set f (get f m) acc).
Proof.
  intros Hf Hm Hacc Hh. unfold push_unknown.
  assert (mapM (λ '(k, v), Some {| pair_key := k; value := v |}) (get f m)
          = Some ((λ '(k, v), {| pair_key := k; value := v |}) <$> get f m)) as <-.
  { clear. induction (get f m) as [|[k v] l IH]; [done|]. cbn [mapM]. cbn. by rewrite IH. }
  apply segment_entries; [done..|]. intros k v Hin. eexists. split; [done|]. intros m' Hg. rewrite (Hh k v Hin).
  unfold insert_unknown. by rewrite Hg.
Qed.

(** A proprietary key of at most 1024 further bytes is read back. *)
Record prop_key_wf (k : ProprietaryKey) : Prop := {
  pk_prefix_fits : varint_size (Z.of_nat (length (prefix k))) + Z.of_nat (length (prefix k)) <= MAX_VEC_SIZE;
  pk_subtype : urange 8 (subtype k);
  pk_key : (length (prop_key k) <= 1024)%nat }.

Lemma to_key_roundtrip k : prop_key_wf k → ∃ k', to_key k = Some k' ∧ type_value k' = 0xFC ∧ try_from_key k' = Ok k.
Proof.
  intros [Hp Hs Hk]. assert (fits_u64 (prefix k)) as Hf.
  { pose proof (varint_size_pos (Z.of_nat (length (prefix k)))). unfold fits_u64, MAX_VEC_SIZE in *. lia. }
  pose proof (bytes_encodes (prefix k) Hf) as He. set (pb := varint_bytes (Z.of_nat (length (prefix k))) ++ prefix k) in *.
  assert (c_enc proprietary_codec k
          = Ok (Z.of_nat (length pb) + 1 + Z.of_nat (length (prop_key k)), pb ++ [byte.of_Z (subtype k)] ++ prop_key k)) as Henc.
  { cbn [proprietary_codec fixed_codec c_enc]. unfold proprietary_encode, w_add. rewrite He. cbn. by rewrite !app_nil_r. }
  unfold to_key, Encode.serialize. rewrite Henc. eexists. split; [done|]. split; [done|].
  unfold try_from_key. cbn [type_value key]. rewrite Z.eqb_refl. cbn [negb].
  assert (deserialize proprietary_codec (pb ++ [byte.of_Z (subtype k)] ++ prop_key k) = Ok k) as ->; [|done].
  apply deserialize_ok. cbn [proprietary_codec fixed_codec c_dec]. unfold proprietary_decode, rd_bind at 1.
  destruct (roundtrip (c := bytes) (prefix k) Hf) as (bs & He' & Hr). unfold encodes in He, He'. rewrite He in He'. injection He' as _ <-.
  change (c_dec_top bytes) with (rd_take MAX_VEC_SIZE (c_dec bytes)).
  rewrite (reads_take _ _ _ MAX_VEC_SIZE Hr) by (subst pb; rewrite length_app, Nat2Z.inj_add, length_varint_bytes; done).
  unfold rd_bind at 1. cbn [app]. rewrite read_u8_cons, byte_of_Z_u by done. unfold rd_bind.
  rewrite take_ge, drop_ge by done. by destruct k.
Qed.

Lemma segment_proprietary (f : field M (list (ProprietaryKey * list byte))) m acc :
  FieldLaws f → handles 0xFC (insert_proprietary f) →
  Forall (λ e, prop_key_wf (fst e)) (get f m) → bmap_wf (get f m) → get f acc = [] →
  segment (push_proprietary f m) acc (set f (get f m) acc).
Proof.
  intros Hf Hh Hwf Hm Hacc. unfold push_proprietary. apply segment_entries; [done..|].
  intros k v Hin. rewrite Forall_forall in Hwf. destruct (to_key_roundtrip k (Hwf (k, v) Hin)) as (k' & -> & Hty & Ht).
  eexists. split; [done|]. intros m' Hg. rewrite Hh by done. unfold insert_proprietary. rewrite Ht. cbn [result_bind]. by rewrite Hg.
Qed.
End Segments.

(** ** Maps: what is written is read, what is read is well formed *)

Section MapCodec.
Context `{Secp256k1} {M : Type} (ins : Pair → M → result Error M).

Lemma segment_roundtrip o d m :
  segment ins o d m →
  ∃ ps, o = Some ps ∧
    (Forall pair_wf ps → ∃ bs, (ps ← o; serialize_pairs ps) = Some bs ∧ ∀ rest, decode_map ins d (bs ++ rest) = Ok (m, rest)).
Proof.
  intros (ps & -> & Ha). exists ps. split; [done|]. intros Hps. exists (map_bytes ps). cbn [mbind option_bind].
  rewrite serialize_pairs_eq by done. split; [done|]. intros rest. apply decode_map_ok. by exists ps.
Qed.

Lemma decode_map_invariant (P : M → Prop) d s m rest :
  P d → (∀ p m m', P m → pair_wf p → ins p m = Ok m' → P m') → decode_map ins d s = Ok (m, rest) →
  P m ∧ ∃ ps, Forall pair_wf ps ∧ s = map_bytes ps ++ rest ∧ insert_all ins ps d = Ok m.
Proof.
  intros Hd Hins (ps & Hps & -> & Ha)%decode_map_ok. split; [|by exists ps]. revert d Hd Ha.
  induction Hps as [|p ps Hp _ IH]; intros d Hd Ha; cbn [insert_all] in Ha; [by injection Ha as <-|].
  destruct (ins p d) as [d'|] eqn:Hi; [|done]. eapply IH; [|exact Ha]. by eapply Hins.
Qed.

Lemma insert_unkeyed_ok {A} `{!PsbtValue A} (f : field M (option A)) k v m m' :
  insert_unkeyed f k v m = Ok m' → key k = [] ∧ get f m = None ∧ ∃ x, de v = Ok x ∧ m' = set f (Some x) m.
Proof.
  unfold insert_unkeyed. destruct (key k); [|done]. destruct (get f m); [done|].
  destruct (de v) as [x|]; [|done]. intros [= <-]. split_and!; [done|done|by exists x].
Qed.

Lemma insert_keyed_ok {K A} `{!Ordered K, !PsbtValue K, !PsbtValue A} (f : field M (list (K * A))) k v m m' :
  insert_keyed f k v m = Ok m' →
  ∃ x y, de (key k) = Ok x ∧ de v = Ok y ∧ bmap_get x (get f m) = None ∧ m' = set f (bmap_insert x y (get f m)) m.
Proof.
  unfold insert_keyed. destruct (key k) as [|b kb] eqn:Ek; [done|]. rewrite <- Ek. clear Ek.
  destruct (de (key k)) as [x|]; [|done]. cbn [result_bind]. destruct (bmap_get x _) eqn:Hg; [done|].
  destruct (de v) as [y|]; [|done]. intros [= <-]. exists x, y. by split_and!.
Qed.

Lemma insert_proprietary_ok (f : field M (list (ProprietaryKey * list byte))) k v m m' :
  insert_proprietary f k v m = Ok m' →
  ∃ x, try_from_key k = Ok x ∧ bmap_get x (get f m) = None ∧ m' = set f (bmap_insert x v (get f m)) m.
Proof.
  unfold insert_proprietary. destruct (try_from_key k) as [x|]; [|done]. cbn [result_bind].
  destruct (bmap_get x _) eqn:Hg; [done|]. intros [= <-]. exists x. by split_and!.
Qed.

Lemma insert_unknown_ok (f : field M (list (Key * list byte))) k v m m' :
  insert_unknown f k v m = Ok m' → bmap_get k (get f m) = None ∧ m' = set f (bmap_insert k v (get f m)) m.
Proof. unfold insert_unknown. destruct (bmap_get k _) eqn:Hg; [done|]. by intros [= <-]. Qed.

Lemma try_from_key_wf k x : try_from_key k = Ok x → prop_key_wf x.
Proof.
  unfold try_from_key. destruct (negb _); [done|]. destruct (Encode.deserialize _ _) as [y|] eqn:Hd; [|done]. intros [= <-].
  apply deserialize_ok in Hd. cbn [c_dec proprietary_codec fixed_codec] in Hd. unfold proprietary_decode in Hd.
  apply rd_bind_ok in Hd as (pre & s1 & Hp & Hd). apply rd_bind_ok in Hd as (st & s2 & Hs & Hd). unfold rd_bind in Hd. injection Hd as <- Hdrop.
  change (c_dec_top bytes) with (rd_take MAX_VEC_SIZE (c_dec bytes)) in Hp. assert (0 <= MAX_VEC_SIZE) as HM by (unfold MAX_VEC_SIZE; lia).
  destruct (parses_take (c_dec bytes) fits_u64 (encodes bytes) _ _ _ _ HM Hp) as (Hf & bs & He & Hb & _).
  pose proof (bytes_encodes pre Hf) as He'. unfold encodes in He, He'. rewrite He in He'. injection He' as _ ->.
  rewrite length_app, Nat2Z.inj_add, length_varint_bytes in Hb.
  apply read_u8_ok in Hs as (b & -> & ->). split; cbn [prefix subtype prop_key]; [done|apply urange_byte|].
  rewrite length_take. lia.
Qed.

Lemma bmap_insert_Forall {K V} `{Ordered K} (P : K * V → Prop) k v l : P (k, v) → Forall P l → Forall P (bmap_insert k v l).
Proof.
  intros Hkv. induction 1 as [|[j w] l Hj Hl IH]; cbn [bmap_insert]; [by repeat constructor|].
  destruct (cmp k j); repeat constructor; done.
Qed.

Lemma bmap_insert_inv {K V} `{Ordered K} (P : K * V → Prop) k v l :
  P (k, v) → bmap_wf l ∧ Forall P l → bmap_wf (bmap_insert k v l) ∧ Forall P (bmap_insert k v l).
Proof. intros Hkv [Hl HP]. split; [by apply bmap_insert_wf|by apply bmap_insert_Forall]. Qed.
End MapCodec.

(** The side conditions of the segments of a field. *)
Ltac handled := intros [? ?] ? ? Hty; cbn in Hty; subst; reflexivity.
Ltac seg_unkeyed := eapply segment_unkeyed; [apply _|field_laws|handled| |reflexivity].
Ltac seg_map := eapply segment_map; [apply _|apply _|field_laws|handled| | |done|reflexivity].
