(* ===== verification/PsbtValues.v ===== *)
(** The values of a partially signed transaction ([src/litecoin/src/psbt/serialize.rs]
    and [PsbtSighashType] of [map/input.rs]): how each is written in a pair and read
    back. *)

From S2P Require Import Witness.
From Stdlib Require Import String ZArith Lia ZifyBool.
From stdpp Require Import base list.
From Stdlib Require Import Init.Byte.
From coqutil Require Import Byte Word.LittleEndianList.
From S2P Require Import Prelude Io Ordered HashEngine Sha256 Encode Mimblewimble Transaction Script Templates.
From S2P Require Import Taproot Sighash Keys Bip32 Psbt.

(** [impl_psbt_de_serialize!]: the consensus encoding. *)
Definition consensus_value `{Secp256k1} {A} (c : codec A) : PsbtValue A := {|
  ser x := match Encode.serialize c x with Ok bs => Some bs | Err _ => None end;
  de bs := result_map_err ConsensusEncoding (Encode.deserialize c bs) |}.

(** [impl_psbt_hash_de_serialize!]: [n] bytes. *)
Definition hash_value `{Secp256k1} (n : nat) : PsbtValue (list byte) := {|
  ser := Some;
  de bs := if (length bs =? n)%nat then Ok bs else Err (InvalidHash n (length bs)) |}.

Section Values.
Context `{Secp256k1, TaprootKeys}.

(** [ScriptBuf] and [Vec<u8>] *)
#[export] Instance bytes_value : PsbtValue (list byte) := {| ser := Some; de bs := Ok bs |}.

#[export] Instance tx_value : PsbtValue Transaction := consensus_value transaction_codec.
#[export] Instance txout_value : PsbtValue TxOut := consensus_value txout_codec.
#[export] Instance witness_value : PsbtValue Witness := consensus_value witness_codec.

#[export] Instance public_key_value : PsbtValue BitcoinKey := {|
  ser := key_to_bytes;
  de bs := result_map_err InvalidPublicKey (key_from_slice bs) |}.

#[export] Instance secp_key_value : PsbtValue PublicKey := {|
  ser k := Some (PublicKey_serialize k);
  de bs := ok_or (PublicKey_from_slice bs) InvalidSecp256k1PublicKey |}.

Definition ecdsa_error (e : EcdsaError) : Error :=
  match e with
  | EcdsaSighash ty => NonStandardSighashType ty
  | _ => InvalidEcdsaSignature e
  end.

#[export] Instance ecdsa_value : PsbtValue EcdsaSignature := {|
  ser s := Some (ecdsa_to_vec s);
  de bs := result_map_err ecdsa_error (ecdsa_from_slice bs) |}.

Definition tap_sig_error (e : SigFromSliceError) : Error :=
  match e with
  | TapSighash ty => NonStandardSighashType ty
  | _ => InvalidTaprootSignature e
  end.

#[export] Instance tap_sig_value : PsbtValue TaprootSignature := {|
  ser s := Some (tap_to_vec s);
  de bs := result_map_err tap_sig_error (tap_from_slice bs) |}.

Definition io_eof : Error := PsbtIo (err_of_kind UnexpectedEof).

Definition key_source_ser (k : KeySource) : list byte :=
  fst k ++ (snd k ≫= λ cnum, le_split 4 (child_to_u32 cnum)).

(** [while !d.is_empty()]: a round takes four bytes. *)
Fixpoint key_source_loop (fuel : nat) (dpath : DerivationPath) (d : list byte) : result Error DerivationPath :=
  match fuel, d with
  | S fuel, _ :: _ =>
      let? (index, d) := consensus (c_dec_top u32) d in
      key_source_loop fuel (dpath ++ [from_u32 index]) d
  | _, _ => Ok dpath
  end.

Definition key_source_de (bytes : list byte) : result Error KeySource :=
  if (length bytes <? 4)%nat then Err io_eof
  else
    let fprint := take 4 bytes in
    let? dpath := key_source_loop (length bytes) [] (drop 4 bytes) in
    Ok (fprint, dpath).

#[export] Instance key_source_value : PsbtValue KeySource := {| ser k := Some (key_source_ser k); de := key_source_de |}.

Record PsbtSighashType := { sighash_inner : Z }.

#[export] Instance sighash_type_value : PsbtValue PsbtSighashType := {|
  ser t := match Encode.serialize u32 (sighash_inner t) with Ok bs => Some bs | Err _ => None end;
  de bs := let? raw := result_map_err ConsensusEncoding (Encode.deserialize u32 bs) in Ok {| sighash_inner := raw |} |}.

Definition psbt_ecdsa_hash_ty (t : PsbtSighashType) := Ecdsa.from_standard (sighash_inner t).
Definition psbt_taproot_hash_ty (t : PsbtSighashType) : result InvalidSighashTypeError TapSighashType :=
  if 0xff <? sighash_inner t then Err (sighash_inner t)
  else Tap.from_consensus_u8 (uwrap 8 (sighash_inner t)).

#[export] Instance xonly_value : PsbtValue XOnly := {|
  ser k := Some (xonly_serialize k);
  de bs := ok_or (xonly_from_slice bs) InvalidXOnlyPublicKey |}.

#[export] Instance xonly_leaf_value : PsbtValue (XOnly * list byte) := {|
  ser p := Some (xonly_serialize (fst p) ++ snd p);
  de bs :=
    if (length bs <? 32)%nat then Err io_eof
    else
      let? a := de (A := XOnly) (take 32 bs) in
      let? b := de (PsbtValue := hash_value 32) (drop 32 bs) in
      Ok (a, b) |}.

#[export] Instance control_block_value : PsbtValue ControlBlock := {|
  ser := control_block_serialize;
  de bs := result_map_err (λ _, InvalidControlBlock) (control_block_decode bs) |}.

#[export] Instance leaf_script_value : PsbtValue (list byte * LeafVersion) := {|
  ser p := Some (fst p ++ [byte.of_Z (leaf_version_to_consensus (snd p))]);
  de bs :=
    match split_last bs with
    | None => Err io_eof
    | Some (v, s) =>
        let? leaf_ver := ok_or (leaf_version_from_consensus (byte.unsigned v)) InvalidLeafVersion in
        Ok (s, leaf_ver)
    end |}.

Definition leaf_hashes : codec (list (list byte)) := vec (array 32).

#[export] Instance key_origin_value : PsbtValue (list (list byte) * KeySource) := {|
  ser p :=
    match c_enc leaf_hashes (fst p) with
    | Ok (_, buf) => Some (buf ++ key_source_ser (snd p))
    | Err _ => None
    end;
  de bs :=
    let? (leafhash_vec, consumed) := result_map_err ConsensusEncoding (deserialize_partial leaf_hashes bs) in
    let? key_source := key_source_de (drop (Z.to_nat consumed) bs) in
    Ok (leafhash_vec, key_source) |}.

(** ** Trees of scripts *)

Definition leaf_entry (l : LeafNode) (s : list byte) (ver : LeafVersion) : option (list byte) :=
  match c_enc Encode.bytes s with
  | Ok (_, script_bytes) =>
      Some (byte.of_Z (uwrap 8 (Z.of_nat (length (merkle_branch l))))
        :: byte.of_Z (leaf_version_to_consensus ver) :: script_bytes)
  | Err _ => None
  end.

(** [script_leaves] leaves out the hidden ones. *)
Definition tap_tree_ser (n : NodeInfo) : option (list byte) :=
  bss ← mapM (λ l, match leaf l with LScript s ver => leaf_entry l s ver | LHidden _ => Some [] end) (leaves n);
  Some (concat bss).

(** A round takes at least the depth byte. *)
Fixpoint tap_tree_loop (fuel : nat) (builder : TaprootBuilder) (bytes_iter : list byte) : result Error TaprootBuilder :=
  match fuel, bytes_iter with
  | S fuel, depth :: bytes_iter =>
      match bytes_iter with
      | [] => Err (TaprootTree "Invalid Taproot Builder")
      | version :: bytes_iter =>
          let? (s, consumed) := result_map_err ConsensusEncoding (deserialize_partial Encode.bytes bytes_iter) in
          let bytes_iter := drop (Z.to_nat consumed) bytes_iter in
          let? leaf_version := ok_or (leaf_version_from_consensus (byte.unsigned version)) InvalidLeafVersion in
          let? builder :=
            result_map_err (λ _, TaprootTree "Tree not in DFS order")
              (add_leaf_with_ver builder (Z.to_nat (byte.unsigned depth)) s leaf_version) in
          tap_tree_loop fuel builder bytes_iter
      end
  | _, _ => Ok builder
  end.

(** The panic of [try_into_taptree] does not happen ([tap_tree_no_panic]); it would
    be reported as an unfinished builder here. *)
Definition tap_tree_de (bytes : list byte) : result Error NodeInfo :=
  let? builder := tap_tree_loop (length bytes) builder_new bytes in
  result_map_err TapTree (default (Err (NotFinalized builder)) (try_into_taptree builder)).

#[export] Instance tap_tree_value : PsbtValue NodeInfo := {| ser := tap_tree_ser; de := tap_tree_de |}.

End Values.

(** ** Round trips *)

(** What is parsed is well formed. *)
Class PsbtSound `{Secp256k1} (A : Type) `{!PsbtValue A} (wf : A → Prop) : Prop :=
  de_wf bs x : de bs = Ok x → wf x.

Section RoundTrips.
Context `{Secp256k1Laws, !PublicKeyLaws, TaprootKeyLaws}.

Lemma consensus_roundtrip {A} (c : codec A) wf `{!RoundTrip c wf} : PsbtRoundTrip (PsbtValue0 := consensus_value c) A wf.
Proof.
  intros x Hx. destruct (roundtrip x Hx) as (bs & He & _). exists bs. cbn [ser de consensus_value].
  assert (Encode.serialize c x = Ok bs) as Hs by (unfold Encode.serialize; by rewrite He). rewrite Hs. split; [done|].
  by rewrite (deserialize_serialize c wf x bs Hx Hs).
Qed.

Lemma consensus_sound {A} (c : codec A) (wf : A → Prop) :
  (∀ s x rest, c_dec c s = Ok (x, rest) → wf x) → PsbtSound (PsbtValue0 := consensus_value c) A wf.
Proof.
  intros Hc bs x. cbn [de consensus_value]. destruct (Encode.deserialize c bs) as [y|] eqn:Hd; [|done]. intros [= <-].
  apply deserialize_ok in Hd. by eapply Hc.
Qed.

#[export] Instance hash_roundtrip n : PsbtRoundTrip (PsbtValue0 := hash_value n) (list byte) (λ h, length h = n).
Proof. intros h Hl. exists h. cbn [ser de hash_value]. by rewrite Hl, Nat.eqb_refl. Qed.

#[export] Instance hash_sound n : PsbtSound (PsbtValue0 := hash_value n) (list byte) (λ h, length h = n).
Proof. intros bs x. cbn [de hash_value]. destruct (Nat.eqb_spec (length bs) n); [|done]. by intros [= <-]. Qed.

#[export] Instance bytes_psbt_roundtrip : PsbtRoundTrip (list byte) (λ _, True).
Proof. intros x _. by exists x. Qed.
#[export] Instance bytes_psbt_sound : PsbtSound (list byte) (λ _, True).
Proof. done. Qed.

#[export] Instance tx_psbt_roundtrip : PsbtRoundTrip Transaction tx_wf.
Proof. apply consensus_roundtrip, _. Qed.
#[export] Instance tx_psbt_sound : PsbtSound Transaction tx_wf.
Proof. apply consensus_sound. intros s x rest Hd. by destruct (transaction_decode_ok _ _ _ Hd). Qed.
#[export] Instance txout_psbt_roundtrip : PsbtRoundTrip TxOut txout_wf.
Proof. apply consensus_roundtrip, _. Qed.
#[export] Instance txout_psbt_sound : PsbtSound TxOut txout_wf.
Proof. apply consensus_sound. intros s x rest Hd. by destruct (canonical _ _ _ Hd). Qed.
#[export] Instance witness_psbt_roundtrip : PsbtRoundTrip Witness witness_wf.
Proof. apply consensus_roundtrip, _. Qed.
#[export] Instance witness_psbt_sound : PsbtSound Witness witness_wf.
Proof. apply consensus_sound. intros s x rest Hd. by destruct (canonical _ _ _ Hd). Qed.

#[export] Instance public_key_psbt : PsbtRoundTrip BitcoinKey (λ _, True).
Proof. intros k _. exists (key_serialized k). split; [done|]. cbn [de public_key_value]. by rewrite key_from_slice_serialized. Qed.
#[export] Instance public_key_psbt_sound : PsbtSound BitcoinKey (λ _, True).
Proof. done. Qed.

#[export] Instance secp_key_psbt : PsbtRoundTrip PublicKey (λ _, True).
Proof. intros k _. eexists. split; [done|]. cbn [de secp_key_value]. by rewrite pk_parse_serialize. Qed.
#[export] Instance secp_key_psbt_sound : PsbtSound PublicKey (λ _, True).
Proof. done. Qed.

#[export] Instance ecdsa_psbt : PsbtRoundTrip EcdsaSignature (λ _, True).
Proof. intros s _. eexists. split; [done|]. cbn [de ecdsa_value]. by rewrite ecdsa_vec_roundtrip. Qed.
#[export] Instance ecdsa_psbt_sound : PsbtSound EcdsaSignature (λ _, True).
Proof. done. Qed.

#[export] Instance tap_sig_psbt : PsbtRoundTrip TaprootSignature (λ _, True).
Proof. intros s _. eexists. split; [done|]. cbn [de tap_sig_value]. by rewrite tap_to_vec_from_slice. Qed.
#[export] Instance tap_sig_psbt_sound : PsbtSound TaprootSignature (λ _, True).
Proof. done. Qed.

Definition key_source_wf (k : KeySource) : Prop := length (fst k) = 4%nat ∧ Forall child_wf (snd k).

Lemma key_source_loop_bytes path fuel acc :
  Forall child_wf path → (4 * length path <= fuel)%nat →
  key_source_loop fuel acc (path ≫= λ cnum, le_split 4 (child_to_u32 cnum)) = Ok (acc ++ path).
Proof.
  intros Hp. revert fuel acc. induction Hp as [|c path Hc _ IH]; intros fuel acc Hf; [destruct fuel; by rewrite app_nil_r|].
  destruct fuel as [|fuel]; [cbn in Hf; lia|]. cbn [mbind list_bind]. destruct (child_u32_roundtrip c Hc) as [Hr Hu].
  pose proof (read_uint_app 4 (child_to_u32 c) (path ≫= λ cnum, le_split 4 (child_to_u32 cnum)) Hr) as Hd.
  destruct (le_split 4 (child_to_u32 c) ++ _) as [|b l] eqn:El.
  { apply (f_equal length) in El. rewrite length_app, length_le_split in El. done. }
  cbn [key_source_loop]. unfold consensus. change (c_dec_top u32) with (read_uint 4). rewrite Hd. cbn [result_map_err result_bind].
  rewrite IH by (cbn in Hf; lia). by rewrite Hu, <- app_assoc.
Qed.

Lemma length_path_bytes (path : DerivationPath) : length (path ≫= λ cnum, le_split 4 (child_to_u32 cnum)) = (4 * length path)%nat.
Proof. induction path as [|c path IH]; [done|]. rewrite bind_cons, length_app, length_le_split, IH. cbn. lia. Qed.

Lemma key_source_de_ser k : key_source_wf k → key_source_de (key_source_ser k) = Ok k.
Proof.
  destruct k as [fp path]. intros [Hf Hp]. unfold key_source_de, key_source_ser. cbn [fst snd] in *.
  rewrite length_app, Hf, length_path_bytes. destruct (Nat.ltb_spec (4 + 4 * length path) 4); [lia|].
  rewrite drop_app_length', take_app_length' by done. rewrite key_source_loop_bytes by (done || lia). done.
Qed.

#[export] Instance key_source_psbt : PsbtRoundTrip KeySource key_source_wf.
Proof. intros k Hk. eexists. split; [done|]. by apply key_source_de_ser. Qed.

Lemma key_source_loop_wf fuel acc d path :
  key_source_loop fuel acc d = Ok path → Forall child_wf acc → Forall child_wf path.
Proof.
  revert acc d. induction fuel as [|fuel IH]; intros acc d; [by intros [= <-]|]. destruct d as [|b d]; [by intros [= <-]|].
  cbn [key_source_loop]. destruct (consensus (c_dec_top u32) (b :: d)) as [[n d']|] eqn:Hd; [|done]. cbn [result_bind]. intros Hl Ha.
  apply consensus_ok in Hd. change (c_dec_top u32) with (read_uint 4) in Hd. apply read_uint_ok in Hd as [Hn _].
  apply IH in Hl; [done|]. apply Forall_app. split; [done|]. constructor; [|done]. by apply u32_child_roundtrip.
Qed.

Lemma key_source_de_wf bs k : key_source_de bs = Ok k → key_source_wf k.
Proof.
  unfold key_source_de. destruct (Nat.ltb_spec (length bs) 4); [done|].
  destruct (key_source_loop _ _ _) as [path|] eqn:Hl; [|done]. intros [= <-]. split; cbn [fst snd]; [rewrite length_take; lia|].
  by eapply key_source_loop_wf.
Qed.

#[export] Instance key_source_sound : PsbtSound KeySource key_source_wf.
Proof. exact key_source_de_wf. Qed.

Definition sighash_type_wf (t : PsbtSighashType) : Prop := urange 32 (sighash_inner t).

#[export] Instance sighash_type_psbt : PsbtRoundTrip PsbtSighashType sighash_type_wf.
Proof.
  intros t Ht. destruct (consensus_roundtrip u32 (urange 32) (sighash_inner t) Ht) as (bs & Hs & Hd). exists bs.
  cbn [ser de consensus_value sighash_type_value] in *. destruct (Encode.deserialize u32 bs); [|done]. injection Hd as ->. by destruct t.
Qed.
#[export] Instance sighash_type_sound : PsbtSound PsbtSighashType sighash_type_wf.
Proof.
  intros bs t. cbn [de sighash_type_value]. destruct (Encode.deserialize u32 bs) as [n|] eqn:Hd; [|done]. intros [= <-].
  apply deserialize_ok in Hd. by destruct (canonical _ _ _ Hd).
Qed.

#[export] Instance xonly_psbt : PsbtRoundTrip XOnly (λ _, True).
Proof. intros k _. eexists. split; [done|]. cbn [de xonly_value]. by rewrite xonly_parse. Qed.
#[export] Instance xonly_sound : PsbtSound XOnly (λ _, True).
Proof. done. Qed.

#[export] Instance xonly_leaf_psbt : PsbtRoundTrip (XOnly * list byte) (λ p, length (snd p) = 32%nat).
Proof.
  intros [k h] Hl. cbn [snd] in Hl. eexists. split; [done|]. cbn [ser de xonly_leaf_value fst snd].
  rewrite length_app, xonly_length, Hl. cbn [Nat.add Nat.ltb Nat.leb].
  rewrite take_app_length', drop_app_length' by (by rewrite xonly_length). cbn [de xonly_value hash_value]. rewrite xonly_parse.
  cbn [ok_or result_bind]. by rewrite Hl.
Qed.
#[export] Instance xonly_leaf_sound : PsbtSound (XOnly * list byte) (λ p, length (snd p) = 32%nat).
Proof.
  intros bs [k h]. cbn [de xonly_leaf_value xonly_value hash_value]. destruct (length bs <? 32)%nat; [done|].
  destruct (xonly_from_slice (take 32 bs)); [|done]. cbn [ok_or result_bind].
  destruct (Nat.eqb_spec (length (drop 32 bs)) 32); [|done]. by intros [= <- <-].
Qed.

#[export] Instance control_block_psbt : PsbtRoundTrip ControlBlock control_block_wf.
Proof.
  intros cb Hcb. exists (control_bytes cb). cbn [ser de control_block_value].
  rewrite control_block_decode_bytes by done. split; [|done]. apply control_block_serialize_eq, Hcb.
Qed.
#[export] Instance control_block_sound : PsbtSound ControlBlock control_block_wf.
Proof.
  intros bs cb. cbn [de control_block_value]. destruct (control_block_decode bs) as [x|] eqn:Hd; [|done]. intros [= <-].
  by apply control_block_decode_ok in Hd as [? _].
Qed.

Lemma version_roundtrip v :
  leaf_version_wf v → leaf_version_from_consensus (byte.unsigned (byte.of_Z (leaf_version_to_consensus v))) = Some v.
Proof.
  destruct v as [|n]; [done|]. intros (Hn & Hodd & Ha & Hb). cbn [leaf_version_to_consensus].
  assert (∃ c, n = byte.unsigned c) as [c ->] by (exists (byte.of_Z n); by rewrite byte_of_Z_u).
  clear Hn. destruct c; first [done|by vm_compute in Hodd|by vm_compute in Ha|by vm_compute in Hb].
Qed.

Lemma version_wf b v : leaf_version_from_consensus (byte.unsigned b) = Some v → leaf_version_wf v.
Proof. destruct b; intros [= <-]; first [exact I|by vm_compute]. Qed.

#[export] Instance leaf_script_psbt : PsbtRoundTrip (list byte * LeafVersion) (λ p, leaf_version_wf (snd p)).
Proof.
  intros [s v] Hv. eexists. split; [done|]. cbn [ser de leaf_script_value fst snd] in *.
  by rewrite split_last_app, version_roundtrip.
Qed.
#[export] Instance leaf_script_sound : PsbtSound (list byte * LeafVersion) (λ p, leaf_version_wf (snd p)).
Proof.
  intros bs [s v]. cbn [de leaf_script_value]. destruct (split_last bs) as [[b r]|]; [|done].
  destruct (leaf_version_from_consensus _) as [w|] eqn:Hv; [|done]. intros [= <- <-]. by eapply version_wf.
Qed.

(** Keys of maps are not empty. *)
Lemma pk_ser_some (k : PublicKey) : ser k ≠ Some [].
Proof. intros [= He]. pose proof (pk_length k) as Hl. by rewrite He in Hl. Qed.
Lemma xonly_ser_some (k : XOnly) : ser k ≠ Some [].
Proof. intros [= He]. pose proof (xonly_length k) as Hl. by rewrite He in Hl. Qed.

Definition key_origin_wf (p : list (list byte) * KeySource) : Prop :=
  vec_wf (is_array 32) (fst p) ∧ key_source_wf (snd p).

#[export] Instance key_origin_psbt : PsbtRoundTrip (list (list byte) * KeySource) key_origin_wf.
Proof.
  intros [hs k] [Hh Hk]. cbn [fst snd] in *. destruct (roundtrip (c := leaf_hashes) hs Hh) as (bs & He & Hr).
  exists (bs ++ key_source_ser k). cbn [ser de key_origin_value fst snd]. unfold encodes in He. rewrite He. split; [done|].
  unfold deserialize_partial. rewrite Hr. cbn [result_map_err result_bind].
  replace (Z.to_nat _) with (length bs) by (rewrite length_app; lia). rewrite drop_app_length. by rewrite key_source_de_ser.
Qed.
#[export] Instance key_origin_sound : PsbtSound (list (list byte) * KeySource) key_origin_wf.
Proof.
  intros bs [hs k]. cbn [de key_origin_value]. unfold deserialize_partial.
  destruct (c_dec leaf_hashes bs) as [[xs rest]|] eqn:Hd; [|done]. cbn [result_map_err result_bind].
  destruct (key_source_de _) as [ks|] eqn:Hk; [|done]. intros [= <- <-].
  destruct (canonical (c := leaf_hashes) _ _ _ Hd) as [Hwf _]. split; [done|]. by eapply key_source_de_wf.
Qed.
End RoundTrips.

(** ** Trees of scripts, read back *)

Section TapTrees.
Context `{Secp256k1}.

Definition tap_leaf_wf (l : TapLeaf) : Prop :=
  match l with LScript s ver => fits_u64 s ∧ leaf_version_wf ver | LHidden _ => False end.

Fixpoint tree_wf (t : tree) : Prop :=
  match t with TLeaf l => tap_leaf_wf l | TNode l r => tree_wf l ∧ tree_wf r end.

(** What a builder makes of scripts. *)
Definition tap_tree_wf (n : NodeInfo) : Prop := ∃ t, n = tree_node t ∧ (height t <= 128)%nat ∧ tree_wf t.

(** The children in the order in which the node keeps their leaves. *)
Fixpoint sorted (t : tree) : tree :=
  match t with
  | TLeaf l => TLeaf l
  | TNode l r =>
      if bytes_ltb (node_hash (tree_node r)) (node_hash (tree_node l)) then TNode (sorted r) (sorted l)
      else TNode (sorted l) (sorted r)
  end.

Lemma bytes_ltb_swap a b : bytes_ltb a b = true → bytes_ltb b a = false.
Proof. unfold bytes_ltb. rewrite (bytes_cmp_opp a b). by destruct (bytes_cmp a b). Qed.

Lemma join_comm a b : bytes_ltb (node_hash a) (node_hash b) = true → join b a = join a b.
Proof.
  intros Hlt. unfold join. rewrite Hlt, (bytes_ltb_swap _ _ Hlt). by rewrite from_node_hashes_comm.
Qed.

Lemma tree_node_sorted t : tree_node (sorted t) = tree_node t.
Proof.
  induction t as [l|l IHl r IHr]; [done|]. cbn [sorted].
  destruct (bytes_ltb _ _) eqn:E; cbn [tree_node]; rewrite IHl, IHr; [|done]. by apply join_comm.
Qed.

Lemma height_sorted t : height (sorted t) = height t.
Proof. induction t as [l|l IHl r IHr]; [done|]. cbn [sorted]. destruct (bytes_ltb _ _); cbn [height]; lia. Qed.

Lemma sorted_wf t : tree_wf t → tree_wf (sorted t).
Proof. induction t as [l|l IHl r IHr]; [done|]. cbn [sorted tree_wf]. intros []. destruct (bytes_ltb _ _); cbn [tree_wf]; auto. Qed.

Lemma dfs_shift t d : dfs (S d) t = map (λ '(k, l), (S k, l)) (dfs d t).
Proof. revert d. induction t as [l|l IHl r IHr]; intros d; [done|]. cbn [dfs]. by rewrite map_app, IHl, IHr. Qed.

Definition depth_item (l : LeafNode) : nat * TapLeaf := (length (merkle_branch l), leaf l).

Lemma items_extend h ls : map depth_item (map (extend_leaf h) ls) = map (λ '(k, l), (S k, l)) (map depth_item ls).
Proof.
  rewrite !map_map. apply map_ext. intros l. unfold depth_item. cbn [extend_leaf merkle_branch leaf]. rewrite length_app. cbn. f_equal. lia.
Qed.

Lemma tree_items t : tree_wf t → map depth_item (leaves (tree_node t)) = dfs 0 (sorted t).
Proof.
  induction t as [[s v|h]|l IHl r IHr]; [done|done|]. cbn [tree_wf sorted]. intros [Hl Hr]. cbn [tree_node]. unfold join.
  destruct (bytes_ltb (node_hash (tree_node r)) (node_hash (tree_node l))); cbn [leaves dfs];
    by rewrite map_app, !items_extend, IHl, IHr, <- !dfs_shift.
Qed.

Lemma tree_shown t : tree_wf t → has_hidden_nodes (tree_node t) = false.
Proof.
  induction t as [[s v|h]|l IHl r IHr]; [done|done|]. intros [Hl Hr]. cbn [tree_node]. unfold join.
  destruct (bytes_ltb _ _); cbn [has_hidden_nodes]; by rewrite IHl, IHr.
Qed.

Lemma tree_wf_dfs t d : tree_wf t ↔ Forall (λ e, tap_leaf_wf (snd e)) (dfs d t).
Proof.
  revert d. induction t as [l|l IHl r IHr]; intros d; cbn [tree_wf dfs]; [by rewrite Forall_singleton|].
  by rewrite Forall_app, (IHl (S d)), (IHr (S d)).
Qed.

(** The bytes of a leaf. *)
Definition item_bytes (e : nat * TapLeaf) : list byte :=
  match snd e with
  | LScript s ver =>
      byte.of_Z (Z.of_nat (fst e)) :: byte.of_Z (leaf_version_to_consensus ver) :: varint_bytes (Z.of_nat (length s)) ++ s
  | LHidden _ => []
  end.

Lemma dfs_depths t d : Forall (λ e, (fst e <= d + height t)%nat) (dfs d t).
Proof.
  revert d. induction t as [l|l IHl r IHr]; intros d; cbn [dfs height]; [repeat constructor; cbn; lia|].
  apply Forall_app. split; (eapply Forall_impl; [eauto|]); cbn; lia.
Qed.

Lemma leaf_entry_eq l s ver :
  leaf l = LScript s ver → fits_u64 s → (length (merkle_branch l) <= 128)%nat →
  leaf_entry l s ver = Some (item_bytes (depth_item l)).
Proof.
  intros El Hs Hb. unfold leaf_entry, item_bytes, depth_item. cbn [fst snd]. rewrite El. pose proof (bytes_encodes s Hs) as He.
  unfold encodes in He. by rewrite He, uwrap_small by (unfold urange; lia).
Qed.

Lemma tap_tree_ser_eq t :
  tree_wf t → (height t <= 128)%nat → tap_tree_ser (tree_node t) = Some (concat (map item_bytes (dfs 0 (sorted t)))).
Proof.
  intros Hwf Hh. unfold tap_tree_ser. rewrite <- (tree_items t Hwf).
  assert (Forall (λ l, tap_leaf_wf (leaf l) ∧ (length (merkle_branch l) <= 128)%nat) (leaves (tree_node t))) as Hls.
  { apply Forall_and. split.
    - pose proof (proj1 (tree_wf_dfs _ 0) (sorted_wf t Hwf)) as Hd. rewrite <- (tree_items t Hwf), Forall_map in Hd. exact Hd.
    - eapply Forall_impl; [apply tree_node_branches|]. cbn. lia. }
  assert (∀ ls, Forall (λ l, tap_leaf_wf (leaf l) ∧ (length (merkle_branch l) <= 128)%nat) ls →
    mapM (λ l, match leaf l with LScript s ver => leaf_entry l s ver | LHidden _ => Some [] end) ls
    = Some (map item_bytes (map depth_item ls))) as Hm; [|by rewrite Hm].
  clear. induction 1 as [|l ls [Hl Hb] _ IH]; [done|]. cbn [mapM map]. rewrite IH. destruct (leaf l) as [s v|h] eqn:El; [|done].
  by rewrite (leaf_entry_eq l s v El (proj1 Hl) Hb).
Qed.

(** Reading is adding the leaves in order. *)
Lemma tap_tree_loop_items items fuel b :
  Forall (λ e, tap_leaf_wf (snd e) ∧ (fst e <= 128)%nat) items → (length (concat (map item_bytes items)) <= fuel)%nat →
  tap_tree_loop fuel b (concat (map item_bytes items))
  = result_map_err (λ _, TaprootTree "Tree not in DFS order") (add_all b items).
Proof.
  intros Hi. revert fuel b. induction Hi as [|[d l] items [Hl Hd] _ IH]; intros fuel b Hf; [by destruct fuel|].
  destruct l as [s v|h]; [|done]. destruct Hl as [Hs Hv]. cbn [fst snd] in Hd.
  cbn [map concat add_all add_item] in *.
  change (item_bytes (d, LScript s v)) with (byte.of_Z (Z.of_nat d) :: byte.of_Z (leaf_version_to_consensus v) :: varint_bytes (Z.of_nat (length s)) ++ s) in *.
  cbn [app] in *.
  destruct fuel as [|fuel]; [cbn in Hf; lia|]. cbn [tap_tree_loop]. unfold deserialize_partial.
  destruct (roundtrip (c := Encode.bytes) s Hs) as (bs & He & Hr). pose proof (bytes_encodes s Hs) as He'.
  unfold encodes in He, He'. rewrite He in He'. injection He' as _ Hb. rewrite <- Hb in *.
  rename bs into sb. rewrite (Hr (concat (map item_bytes items))). cbn [result_map_err result_bind].
  set (r := concat (map item_bytes items)) in *.
  replace (Z.to_nat (Z.of_nat (length (sb ++ r)) - Z.of_nat (length r))) with (length sb) by (rewrite length_app; lia).
  rewrite drop_app_length, version_roundtrip by done.
  cbn [ok_or result_bind]. rewrite byte_of_Z_u, Nat2Z.id by (unfold urange; lia).
  destruct (add_leaf_with_ver b d s v) as [b'|]; [|done]. cbn [result_map_err result_bind].
  apply IH. cbn [length] in Hf. rewrite length_app in Hf. lia.
Qed.

Lemma tap_tree_de_ser t :
  tree_wf t → (height t <= 128)%nat → tap_tree_de (concat (map item_bytes (dfs 0 (sorted t)))) = Ok (tree_node t).
Proof.
  intros Hwf Hh. pose proof (sorted_wf t Hwf) as Hs. unfold tap_tree_de.
  rewrite tap_tree_loop_items; [|apply Forall_and; split; [by apply tree_wf_dfs|]|done].
  2:{ eapply Forall_impl; [apply dfs_depths|]. cbn. rewrite height_sorted. lia. }
  unfold builder_new. rewrite add_tree by (rewrite ?height_sorted; cbn; lia). rewrite insert_below by (cbn; lia).
  cbn [result_map_err result_bind filled length Nat.sub replicate app]. rewrite tree_node_sorted.
  unfold try_into_taptree, try_into_node_info. cbn [builder_branch mbind option_bind default result_bind]. by rewrite tree_shown.
Qed.

Lemma tap_tree_loop_sound fuel b bs b' :
  tap_tree_loop fuel b bs = Ok b' → ∃ items, add_all b items = Ok b' ∧ Forall (λ e, tap_leaf_wf (snd e)) items.
Proof.
  revert b bs. induction fuel as [|fuel IH]; intros b bs; [intros [= <-]; by exists []|].
  destruct bs as [|d [|v bs]]; cbn [tap_tree_loop]; [intros [= <-]; by exists []|done|].
  unfold deserialize_partial. destruct (c_dec Encode.bytes bs) as [[s rest]|] eqn:Hd; [|done]. cbn [result_map_err result_bind].
  destruct (leaf_version_from_consensus _) as [ver|] eqn:Hv; [|done]. cbn [ok_or result_bind].
  destruct (add_leaf_with_ver b _ s ver) as [b1|] eqn:Ha; [|done]. cbn [result_map_err result_bind].
  intros (items & Hi & Hw)%IH. exists ((Z.to_nat (byte.unsigned d), LScript s ver) :: items). split.
  - cbn [add_all add_item]. by rewrite Ha.
  - constructor; [|done]. split; [by destruct (canonical _ _ _ Hd)|by eapply version_wf].
Qed.

(** [expect("invariant guarantees node info exists")] *)
Lemma tap_tree_no_panic bs b : tap_tree_loop (length bs) builder_new bs = Ok b → is_Some (try_into_taptree b).
Proof.
  intros (items & Ha & _)%tap_tree_loop_sound.
  destruct (add_all_sound items [] b Ha) as (ts & -> & _ & _ & Hor); [by intros ??|].
  unfold try_into_taptree, try_into_node_info. cbn [builder_branch].
  destruct ts as [|o [|o' ts]]; cbn [nodes fmap list_fmap]; [by eexists| |by eexists].
  destruct Hor as [[Hn _]|(t & [= ->])]; [done|]. cbn. by case_match; eexists.
Qed.

Lemma tap_tree_de_sound bs n : tap_tree_de bs = Ok n → tap_tree_wf n.
Proof.
  unfold tap_tree_de. destruct (tap_tree_loop _ _ _) as [b|] eqn:Hl; [|done]. cbn [result_bind].
  apply tap_tree_loop_sound in Hl as (items & Ha & Hw).
  destruct (add_all_sound items [] b Ha) as (ts & -> & Hb & Hf & Hor); [by intros ??|].
  unfold try_into_taptree, try_into_node_info. cbn [builder_branch].
  destruct ts as [|o [|o' ts]]; cbn [nodes fmap list_fmap]; [done| |done].
  destruct Hor as [[Hn _]|(t & [= ->])]; [done|]. cbn [fmap option_fmap option_map mbind option_bind default result_bind].
  destruct (has_hidden_nodes (tree_node t)); [done|]. intros [= <-]. exists t. split; [done|].
  specialize (Hb 0%nat t eq_refl). cbn [flat Nat.add app] in Hf, Hb. rewrite app_nil_r in Hf. split; [lia|].
  apply (tree_wf_dfs t 0). by rewrite Hf.
Qed.

#[export] Instance tap_tree_psbt : PsbtRoundTrip NodeInfo tap_tree_wf.
Proof.
  intros n (t & -> & Hh & Ht). eexists. cbn [ser de tap_tree_value]. rewrite tap_tree_ser_eq by done. split; [done|].
  by apply tap_tree_de_ser.
Qed.
#[export] Instance tap_tree_sound : PsbtSound NodeInfo tap_tree_wf.
Proof. exact tap_tree_de_sound. Qed.
End TapTrees.

(** An order of the keys of the example instance. *)
Definition plain_xonly_ordered : Ordered (XOnly (TaprootKeys := PlainTaprootKeys.keys)).
Proof. refine (inj_ordered (λ k : PlainTaprootKeys.key, `k) _). intros x y Hxy. by apply dsig_eq. Defined.
