(* ===== verification/PsbtMweb.v ===== *)
(** The Litecoin extension of partially signed transactions ([src/litecoin/src/psbt/mweb]):
    the fields of an input, an output and a kernel of the extension block, as pairs and
    back, their combination, and the assembly of the extension transaction. *)

From S2P Require Import Witness.
From Stdlib Require Import String ZArith Lia ZifyBool.
From stdpp Require Import base list.
From Stdlib Require Import Init.Byte.
From coqutil Require Import Byte Word.LittleEndianList.
From S2P Require Import Prelude Io Ordered HashEngine Sha256 Encode Mimblewimble Transaction Script Templates.
From S2P Require Import Taproot Sighash Keys Bip32 Psbt PsbtValues.
Import Raw.

(** ** Key types *)

Definition MWEB_TX_OFFSET_TYPE : Z := 0x90.
Definition MWEB_TX_STEALTH_OFFSET_TYPE : Z := 0x91.
Definition MWEB_KERNEL_COUNT_TYPE : Z := 0x92.
Definition MWEB_GLOBAL_KERNEL_FIELD_TYPE : Z := 0x93.
Definition MWEB_GLOBAL_OUTPUT_FIELD_TYPE : Z := 0x94.

Definition MWEB_SPENT_OUTPUT_ID_TYPE : Z := 0x90.
Definition MWEB_SPENT_OUTPUT_COMMIT_TYPE : Z := 0x91.
Definition MWEB_SPENT_OUTPUT_PUBKEY_TYPE : Z := 0x92.
Definition MWEB_INPUT_PUBKEY_TYPE : Z := 0x93.
Definition MWEB_INPUT_FEATURES_TYPE : Z := 0x94.
Definition MWEB_INPUT_SIGNATURE_TYPE : Z := 0x95.
Definition MWEB_ADDRESS_INDEX_TYPE : Z := 0x96.
Definition MWEB_INPUT_AMOUNT_TYPE : Z := 0x97.
Definition MWEB_SHARED_SECRET_TYPE : Z := 0x98.
Definition MWEB_KEY_EXCHANGE_PUBKEY_TYPE : Z := 0x99.
Definition MWEB_MASTER_SCAN_KEY_ORIGIN_TYPE : Z := 0x9A.
Definition MWEB_MASTER_SPEND_KEY_ORIGIN_TYPE : Z := 0x9B.
Definition MWEB_INPUT_EXTRA_DATA_TYPE : Z := 0x9C.

Definition MWEB_STEALTH_ADDRESS_OUTPUT_TYPE : Z := 0x90.
Definition MWEB_COMMIT_OUTPUT_TYPE : Z := 0x91.
Definition MWEB_FEATURES_OUTPUT_TYPE : Z := 0x92.
Definition MWEB_SENDER_PUBKEY_OUTPUT_TYPE : Z := 0x93.
Definition MWEB_OUTPUT_PUBKEY_OUTPUT_TYPE : Z := 0x94.
Definition MWEB_STANDARD_FIELDS_OUTPUT_TYPE : Z := 0x95.
Definition MWEB_RANGE_PROOF_OUTPUT_TYPE : Z := 0x96.
Definition MWEB_SIGNATURE_OUTPUT_TYPE : Z := 0x97.
Definition MWEB_EXTRA_DATA_OUTPUT_TYPE : Z := 0x98.

Definition MWEB_KERNEL_EXCESS_COMMIT_TYPE : Z := 0.
Definition MWEB_KERNEL_STEALTH_COMMIT_TYPE : Z := 1.
Definition MWEB_KERNEL_FEE_TYPE : Z := 2.
Definition MWEB_KERNEL_PEGIN_AMOUNT_TYPE : Z := 3.
Definition MWEB_KERNEL_PEGOUT_TYPE : Z := 4.
Definition MWEB_KERNEL_LOCK_HEIGHT_TYPE : Z := 5.
Definition MWEB_KERNEL_FEATURES_TYPE : Z := 6.
Definition MWEB_KERNEL_EXTRA_DATA_TYPE : Z := 7.
Definition MWEB_KERNEL_SIGNATURE_TYPE : Z := 8.

(** [if let Some(x) = self.field { pairs.push(..) }]: type, key data, value. *)
Definition kv : Type := Z * list byte * list byte.
Definition opt_kv {A} (ty : Z) (enc : A → list byte * list byte) (o : option A) : list kv :=
  match o with Some a => [(ty, fst (enc a), snd (enc a))] | None => [] end.
(** A value without key data. *)
Definition plain {A} (f : A → list byte) (a : A) : list byte * list byte := ([], f a).

(** [if self.field.is_none() { self.field = other.field }] *)
Definition merge_field {M A} (f : field M (option A)) (slf other : M) : M :=
  match get f slf with None => set f (get f other) slf | Some _ => slf end.

(** ** Outputs *)

Record MwebOutput := {
  mo_stealth_address : option (list byte); mo_commit : option (list byte); mo_features : option byte;
  mo_sender_pubkey : option (list byte); mo_output_pubkey : option (list byte);
  mo_standard_fields : option (list byte); mo_range_proof : option (list byte);
  mo_signature : option (list byte); mo_extra_data : option (list byte) }.

Definition output_default : MwebOutput :=
  {| mo_stealth_address := None; mo_commit := None; mo_features := None; mo_sender_pubkey := None;
     mo_output_pubkey := None; mo_standard_fields := None; mo_range_proof := None; mo_signature := None;
     mo_extra_data := None |}.

Definition output_eta (m : MwebOutput) : MwebOutput :=
  {| mo_stealth_address := mo_stealth_address m; mo_commit := mo_commit m; mo_features := mo_features m;
     mo_sender_pubkey := mo_sender_pubkey m; mo_output_pubkey := mo_output_pubkey m;
     mo_standard_fields := mo_standard_fields m; mo_range_proof := mo_range_proof m;
     mo_signature := mo_signature m; mo_extra_data := mo_extra_data m |}.

Definition mo_stealth_address_f : field MwebOutput (option (list byte)) := ltac:(field_of output_eta mo_stealth_address).
Definition mo_commit_f : field MwebOutput (option (list byte)) := ltac:(field_of output_eta mo_commit).
Definition mo_features_f : field MwebOutput (option byte) := ltac:(field_of output_eta mo_features).
Definition mo_sender_pubkey_f : field MwebOutput (option (list byte)) := ltac:(field_of output_eta mo_sender_pubkey).
Definition mo_output_pubkey_f : field MwebOutput (option (list byte)) := ltac:(field_of output_eta mo_output_pubkey).
Definition mo_standard_fields_f : field MwebOutput (option (list byte)) := ltac:(field_of output_eta mo_standard_fields).
Definition mo_range_proof_f : field MwebOutput (option (list byte)) := ltac:(field_of output_eta mo_range_proof).
Definition mo_signature_f : field MwebOutput (option (list byte)) := ltac:(field_of output_eta mo_signature).
Definition mo_extra_data_f : field MwebOutput (option (list byte)) := ltac:(field_of output_eta mo_extra_data).

Module Output.

(** The key data is empty everywhere. *)
Definition to_pairs (self : MwebOutput) : list kv :=
  opt_kv MWEB_STEALTH_ADDRESS_OUTPUT_TYPE (plain id) (mo_stealth_address self) ++
  opt_kv MWEB_COMMIT_OUTPUT_TYPE (plain id) (mo_commit self) ++
  opt_kv MWEB_FEATURES_OUTPUT_TYPE (plain (λ f, [f])) (mo_features self) ++
  opt_kv MWEB_SENDER_PUBKEY_OUTPUT_TYPE (plain id) (mo_sender_pubkey self) ++
  opt_kv MWEB_OUTPUT_PUBKEY_OUTPUT_TYPE (plain id) (mo_output_pubkey self) ++
  opt_kv MWEB_STANDARD_FIELDS_OUTPUT_TYPE (plain id) (mo_standard_fields self) ++
  opt_kv MWEB_RANGE_PROOF_OUTPUT_TYPE (plain id) (mo_range_proof self) ++
  opt_kv MWEB_SIGNATURE_OUTPUT_TYPE (plain id) (mo_signature self) ++
  opt_kv MWEB_EXTRA_DATA_OUTPUT_TYPE (plain id) (mo_extra_data self).

Definition apply_field (self : MwebOutput) (field_ty : Z) (value : list byte) : MwebOutput :=
  if field_ty =? MWEB_STEALTH_ADDRESS_OUTPUT_TYPE then set mo_stealth_address_f (Some value) self
  else if (field_ty =? MWEB_COMMIT_OUTPUT_TYPE) && (length value =? 33)%nat then set mo_commit_f (Some value) self
  else if (field_ty =? MWEB_FEATURES_OUTPUT_TYPE) && negb (length value =? 0)%nat then set mo_features_f (head value) self
  else if field_ty =? MWEB_SENDER_PUBKEY_OUTPUT_TYPE then set mo_sender_pubkey_f (Some value) self
  else if field_ty =? MWEB_OUTPUT_PUBKEY_OUTPUT_TYPE then set mo_output_pubkey_f (Some value) self
  else if field_ty =? MWEB_STANDARD_FIELDS_OUTPUT_TYPE then set mo_standard_fields_f (Some value) self
  else if field_ty =? MWEB_RANGE_PROOF_OUTPUT_TYPE then set mo_range_proof_f (Some value) self
  else if field_ty =? MWEB_SIGNATURE_OUTPUT_TYPE then set mo_signature_f (Some value) self
  else if field_ty =? MWEB_EXTRA_DATA_OUTPUT_TYPE then set mo_extra_data_f (Some value) self
  else self.

Definition from_pairs (pairs : list (Z * list byte)) : MwebOutput :=
  foldl (λ out p, apply_field out (fst p) (snd p)) output_default pairs.

Definition is_field (ty : Z) : bool := (MWEB_STEALTH_ADDRESS_OUTPUT_TYPE <=? ty) && (ty <=? MWEB_EXTRA_DATA_OUTPUT_TYPE).

Definition from_unknown_map (unknown : list (Key * list byte)) : MwebOutput :=
  foldl (λ out e,
    match key (fst e) with
    | [] => if is_field (type_value (fst e)) then apply_field out (type_value (fst e)) (snd e) else out
    | _ => out
    end) output_default unknown.

Definition combine (self other : MwebOutput) : MwebOutput :=
  let self := merge_field mo_stealth_address_f self other in
  let self := merge_field mo_commit_f self other in
  let self := merge_field mo_features_f self other in
  let self := merge_field mo_sender_pubkey_f self other in
  let self := merge_field mo_output_pubkey_f self other in
  let self := merge_field mo_standard_fields_f self other in
  let self := merge_field mo_range_proof_f self other in
  let self := merge_field mo_signature_f self other in
  merge_field mo_extra_data_f self other.

End Output.

(** ** Inputs *)

Section Maps.
Context `{Secp256k1}.

Record MwebInput := {
  mi_output_id : option (list byte); mi_commit : option (list byte); mi_output_pubkey : option (list byte);
  mi_input_pubkey : option (list byte); mi_features : option byte; mi_signature : option (list byte);
  mi_address_index : option Z; mi_amount : option Z; mi_shared_secret : option (list byte);
  mi_key_exchange_pubkey : option (list byte); mi_master_scan_key_origin : option (PublicKey * KeySource);
  mi_master_spend_key_origin : option (PublicKey * KeySource); mi_extra_data : option (list byte) }.

Definition input_default : MwebInput :=
  {| mi_output_id := None; mi_commit := None; mi_output_pubkey := None; mi_input_pubkey := None; mi_features := None;
     mi_signature := None; mi_address_index := None; mi_amount := None; mi_shared_secret := None;
     mi_key_exchange_pubkey := None; mi_master_scan_key_origin := None; mi_master_spend_key_origin := None;
     mi_extra_data := None |}.

Definition input_eta (m : MwebInput) : MwebInput :=
  {| mi_output_id := mi_output_id m; mi_commit := mi_commit m; mi_output_pubkey := mi_output_pubkey m;
     mi_input_pubkey := mi_input_pubkey m; mi_features := mi_features m; mi_signature := mi_signature m;
     mi_address_index := mi_address_index m; mi_amount := mi_amount m; mi_shared_secret := mi_shared_secret m;
     mi_key_exchange_pubkey := mi_key_exchange_pubkey m; mi_master_scan_key_origin := mi_master_scan_key_origin m;
     mi_master_spend_key_origin := mi_master_spend_key_origin m; mi_extra_data := mi_extra_data m |}.

Definition mi_output_id_f : field MwebInput (option (list byte)) := ltac:(field_of input_eta mi_output_id).
Definition mi_commit_f : field MwebInput (option (list byte)) := ltac:(field_of input_eta mi_commit).
Definition mi_output_pubkey_f : field MwebInput (option (list byte)) := ltac:(field_of input_eta mi_output_pubkey).
Definition mi_input_pubkey_f : field MwebInput (option (list byte)) := ltac:(field_of input_eta mi_input_pubkey).
Definition mi_features_f : field MwebInput (option byte) := ltac:(field_of input_eta mi_features).
Definition mi_signature_f : field MwebInput (option (list byte)) := ltac:(field_of input_eta mi_signature).
Definition mi_address_index_f : field MwebInput (option Z) := ltac:(field_of input_eta mi_address_index).
Definition mi_amount_f : field MwebInput (option Z) := ltac:(field_of input_eta mi_amount).
Definition mi_shared_secret_f : field MwebInput (option (list byte)) := ltac:(field_of input_eta mi_shared_secret).
Definition mi_key_exchange_pubkey_f : field MwebInput (option (list byte)) := ltac:(field_of input_eta mi_key_exchange_pubkey).
Definition mi_master_scan_key_origin_f : field MwebInput (option (PublicKey * KeySource)) := ltac:(field_of input_eta mi_master_scan_key_origin).
Definition mi_master_spend_key_origin_f : field MwebInput (option (PublicKey * KeySource)) := ltac:(field_of input_eta mi_master_spend_key_origin).
Definition mi_extra_data_f : field MwebInput (option (list byte)) := ltac:(field_of input_eta mi_extra_data).

Definition origin_kv (o : PublicKey * KeySource) : list byte * list byte :=
  (PublicKey_serialize (fst o), key_source_ser (snd o)).

Definition input_to_kv_pairs (self : MwebInput) : list kv :=
  opt_kv MWEB_SPENT_OUTPUT_ID_TYPE (plain id) (mi_output_id self) ++
  opt_kv MWEB_SPENT_OUTPUT_COMMIT_TYPE (plain id) (mi_commit self) ++
  opt_kv MWEB_SPENT_OUTPUT_PUBKEY_TYPE (plain id) (mi_output_pubkey self) ++
  opt_kv MWEB_INPUT_PUBKEY_TYPE (plain id) (mi_input_pubkey self) ++
  opt_kv MWEB_INPUT_FEATURES_TYPE (plain (λ f, [f])) (mi_features self) ++
  opt_kv MWEB_INPUT_SIGNATURE_TYPE (plain id) (mi_signature self) ++
  opt_kv MWEB_ADDRESS_INDEX_TYPE (plain (le_split 4)) (mi_address_index self) ++
  opt_kv MWEB_INPUT_AMOUNT_TYPE (plain (le_split 8)) (mi_amount self) ++
  opt_kv MWEB_SHARED_SECRET_TYPE (plain id) (mi_shared_secret self) ++
  opt_kv MWEB_KEY_EXCHANGE_PUBKEY_TYPE (plain id) (mi_key_exchange_pubkey self) ++
  opt_kv MWEB_MASTER_SCAN_KEY_ORIGIN_TYPE origin_kv (mi_master_scan_key_origin self) ++
  opt_kv MWEB_MASTER_SPEND_KEY_ORIGIN_TYPE origin_kv (mi_master_spend_key_origin self) ++
  opt_kv MWEB_INPUT_EXTRA_DATA_TYPE (plain id) (mi_extra_data self).

Definition input_to_pairs (self : MwebInput) : list (Z * list byte) :=
  map (λ '(ty, _, val), (ty, val)) (List.filter (λ '(_, key, _), (length key =? 0)%nat) (input_to_kv_pairs self)).

(** What does not parse is left out. *)
Definition set_origin (f : field MwebInput (option (PublicKey * KeySource))) (self : MwebInput) (key_data value : list byte) : MwebInput :=
  match PublicKey_from_slice key_data with
  | Some pk => match key_source_de value with Ok ks => set f (Some (pk, ks)) self | Err _ => self end
  | None => self
  end.

Definition apply_kv_field (self : MwebInput) (field_ty : Z) (key_data value : list byte) : MwebInput :=
  let no_key := (length key_data =? 0)%nat in
  let len n := (length value =? n)%nat in
  if (field_ty =? MWEB_SPENT_OUTPUT_ID_TYPE) && no_key && len 32%nat then set mi_output_id_f (Some value) self
  else if (field_ty =? MWEB_SPENT_OUTPUT_COMMIT_TYPE) && no_key && len 33%nat then set mi_commit_f (Some value) self
  else if (field_ty =? MWEB_SPENT_OUTPUT_PUBKEY_TYPE) && no_key then set mi_output_pubkey_f (Some value) self
  else if (field_ty =? MWEB_INPUT_PUBKEY_TYPE) && no_key then set mi_input_pubkey_f (Some value) self
  else if (field_ty =? MWEB_INPUT_FEATURES_TYPE) && no_key && negb (len 0%nat) then set mi_features_f (head value) self
  else if (field_ty =? MWEB_INPUT_SIGNATURE_TYPE) && no_key then set mi_signature_f (Some value) self
  else if (field_ty =? MWEB_ADDRESS_INDEX_TYPE) && no_key && len 4%nat then set mi_address_index_f (Some (le_combine value)) self
  else if (field_ty =? MWEB_INPUT_AMOUNT_TYPE) && no_key && len 8%nat then set mi_amount_f (Some (le_combine value)) self
  else if (field_ty =? MWEB_SHARED_SECRET_TYPE) && no_key && len 32%nat then set mi_shared_secret_f (Some value) self
  else if (field_ty =? MWEB_KEY_EXCHANGE_PUBKEY_TYPE) && no_key then set mi_key_exchange_pubkey_f (Some value) self
  else if field_ty =? MWEB_MASTER_SCAN_KEY_ORIGIN_TYPE then set_origin mi_master_scan_key_origin_f self key_data value
  else if field_ty =? MWEB_MASTER_SPEND_KEY_ORIGIN_TYPE then set_origin mi_master_spend_key_origin_f self key_data value
  else if (field_ty =? MWEB_INPUT_EXTRA_DATA_TYPE) && no_key then set mi_extra_data_f (Some value) self
  else self.

Definition input_apply_field (self : MwebInput) (field_ty : Z) (value : list byte) : MwebInput :=
  apply_kv_field self field_ty [] value.

Definition input_from_pairs (pairs : list (Z * list byte)) : MwebInput :=
  foldl (λ out p, input_apply_field out (fst p) (snd p)) input_default pairs.
Definition input_from_kv_pairs (pairs : list kv) : MwebInput :=
  foldl (λ out '(ty, key, val), apply_kv_field out ty key val) input_default pairs.

Definition is_input_field (ty : Z) : bool := (MWEB_SPENT_OUTPUT_ID_TYPE <=? ty) && (ty <=? MWEB_INPUT_EXTRA_DATA_TYPE).

Definition input_from_unknown_map (unknown : list (Key * list byte)) : MwebInput :=
  foldl (λ out e,
    if is_input_field (type_value (fst e)) then apply_kv_field out (type_value (fst e)) (key (fst e)) (snd e) else out)
    input_default unknown.

Definition input_combine (self other : MwebInput) : MwebInput :=
  let self := merge_field mi_output_id_f self other in
  let self := merge_field mi_commit_f self other in
  let self := merge_field mi_output_pubkey_f self other in
  let self := merge_field mi_input_pubkey_f self other in
  let self := merge_field mi_features_f self other in
  let self := merge_field mi_signature_f self other in
  let self := merge_field mi_address_index_f self other in
  let self := merge_field mi_amount_f self other in
  let self := merge_field mi_shared_secret_f self other in
  let self := merge_field mi_key_exchange_pubkey_f self other in
  let self := merge_field mi_master_scan_key_origin_f self other in
  let self := merge_field mi_master_spend_key_origin_f self other in
  merge_field mi_extra_data_f self other.

Definition validate_key_origins (self : MwebInput) : result Error unit :=
  let has_scan := bool_decide (is_Some (mi_master_scan_key_origin self)) in
  let has_spend := bool_decide (is_Some (mi_master_spend_key_origin self)) in
  let has_idx := bool_decide (is_Some (mi_address_index self)) in
  if has_scan && has_spend && has_idx then Ok tt
  else if negb has_scan && negb has_spend && negb has_idx then Ok tt
  else Err (IncompleteMwebMaps "incomplete MWEB key origins (need scan, spend, and address index)").

(** ** Kernels *)

Record MwebKernel := {
  mk_excess_commit : option (list byte); mk_stealth_commit : option (list byte); mk_fee : option Z;
  mk_pegin_amount : option Z; mk_pegouts : list (list byte); mk_lock_height : option Z; mk_features : option byte;
  mk_extra_data : option (list byte); mk_signature : option (list byte); mk_unknowns : list (list byte * list byte) }.

Definition kernel_default : MwebKernel :=
  {| mk_excess_commit := None; mk_stealth_commit := None; mk_fee := None; mk_pegin_amount := None; mk_pegouts := [];
     mk_lock_height := None; mk_features := None; mk_extra_data := None; mk_signature := None; mk_unknowns := [] |}.

Definition kernel_eta (m : MwebKernel) : MwebKernel :=
  {| mk_excess_commit := mk_excess_commit m; mk_stealth_commit := mk_stealth_commit m; mk_fee := mk_fee m;
     mk_pegin_amount := mk_pegin_amount m; mk_pegouts := mk_pegouts m; mk_lock_height := mk_lock_height m;
     mk_features := mk_features m; mk_extra_data := mk_extra_data m; mk_signature := mk_signature m;
     mk_unknowns := mk_unknowns m |}.

Definition mk_excess_commit_f : field MwebKernel (option (list byte)) := ltac:(field_of kernel_eta mk_excess_commit).
Definition mk_stealth_commit_f : field MwebKernel (option (list byte)) := ltac:(field_of kernel_eta mk_stealth_commit).
Definition mk_fee_f : field MwebKernel (option Z) := ltac:(field_of kernel_eta mk_fee).
Definition mk_pegin_amount_f : field MwebKernel (option Z) := ltac:(field_of kernel_eta mk_pegin_amount).
Definition mk_pegouts_f : field MwebKernel (list (list byte)) := ltac:(field_of kernel_eta mk_pegouts).
Definition mk_lock_height_f : field MwebKernel (option Z) := ltac:(field_of kernel_eta mk_lock_height).
Definition mk_features_f : field MwebKernel (option byte) := ltac:(field_of kernel_eta mk_features).
Definition mk_extra_data_f : field MwebKernel (option (list byte)) := ltac:(field_of kernel_eta mk_extra_data).
Definition mk_signature_f : field MwebKernel (option (list byte)) := ltac:(field_of kernel_eta mk_signature).
Definition mk_unknowns_f : field MwebKernel (list (list byte * list byte)) := ltac:(field_of kernel_eta mk_unknowns).

(** The index of a pegout is one byte: it wraps around. *)
Definition pegout_kvs (ps : list (list byte)) : list kv :=
  imap (λ i p, (MWEB_KERNEL_PEGOUT_TYPE, [byte.of_Z (uwrap 8 (Z.of_nat i))], p)) ps.

Definition kernel_to_kv_pairs (self : MwebKernel) : list kv :=
  opt_kv MWEB_KERNEL_EXCESS_COMMIT_TYPE (plain id) (mk_excess_commit self) ++
  opt_kv MWEB_KERNEL_STEALTH_COMMIT_TYPE (plain id) (mk_stealth_commit self) ++
  opt_kv MWEB_KERNEL_FEE_TYPE (plain (le_split 8)) (mk_fee self) ++
  opt_kv MWEB_KERNEL_PEGIN_AMOUNT_TYPE (plain (le_split 8)) (mk_pegin_amount self) ++
  pegout_kvs (mk_pegouts self) ++
  opt_kv MWEB_KERNEL_LOCK_HEIGHT_TYPE (plain (le_split 4)) (mk_lock_height self) ++
  opt_kv MWEB_KERNEL_FEATURES_TYPE (plain (λ f, [f])) (mk_features self) ++
  opt_kv MWEB_KERNEL_EXTRA_DATA_TYPE (plain id) (mk_extra_data self) ++
  opt_kv MWEB_KERNEL_SIGNATURE_TYPE (plain id) (mk_signature self).

Definition kernel_to_pairs (self : MwebKernel) : list (Z * list byte) :=
  map (λ '(ty, _, val), (ty, val)) (kernel_to_kv_pairs self).

(** [while pegouts.len() <= idx { pegouts.push(Vec::new()) }], then the entry is set. *)
Definition set_pegout (idx : nat) (value : list byte) (ps : list (list byte)) : list (list byte) :=
  <[idx := value]> (ps ++ replicate (S idx - length ps) []).

Definition kernel_apply_field (self : MwebKernel) (field_ty : Z) (key_data value : list byte) : MwebKernel :=
  let len n := (length value =? n)%nat in
  if (field_ty =? MWEB_KERNEL_EXCESS_COMMIT_TYPE) && len 33%nat then set mk_excess_commit_f (Some value) self
  else if field_ty =? MWEB_KERNEL_STEALTH_COMMIT_TYPE then set mk_stealth_commit_f (Some value) self
  else if (field_ty =? MWEB_KERNEL_FEE_TYPE) && len 8%nat then set mk_fee_f (Some (le_combine value)) self
  else if (field_ty =? MWEB_KERNEL_PEGIN_AMOUNT_TYPE) && len 8%nat then set mk_pegin_amount_f (Some (le_combine value)) self
  else if field_ty =? MWEB_KERNEL_PEGOUT_TYPE then
    let idx := match key_data with [] => length (mk_pegouts self) | b :: _ => Z.to_nat (byte.unsigned b) end in
    set mk_pegouts_f (set_pegout idx value (mk_pegouts self)) self
  else if (field_ty =? MWEB_KERNEL_LOCK_HEIGHT_TYPE) && len 4%nat then set mk_lock_height_f (Some (le_combine value)) self
  else if (field_ty =? MWEB_KERNEL_FEATURES_TYPE) && negb (len 0%nat) then set mk_features_f (head value) self
  else if field_ty =? MWEB_KERNEL_EXTRA_DATA_TYPE then set mk_extra_data_f (Some value) self
  else if (field_ty =? MWEB_KERNEL_SIGNATURE_TYPE) && len 64%nat then set mk_signature_f (Some value) self
  else self.

Definition kernel_from_pairs (pairs : list (Z * list byte)) : MwebKernel :=
  foldl (λ out p, kernel_apply_field out (fst p) [] (snd p)) kernel_default pairs.

(** [if self.list.is_empty() { self.list = other.list }] *)
Definition merge_list {M A} (f : field M (list A)) (slf other : M) : M :=
  match get f slf with [] => set f (get f other) slf | _ => slf end.

Definition kernel_combine (self other : MwebKernel) : MwebKernel :=
  let self := merge_field mk_excess_commit_f self other in
  let self := merge_field mk_stealth_commit_f self other in
  let self := merge_field mk_fee_f self other in
  let self := merge_field mk_pegin_amount_f self other in
  let self := merge_list mk_pegouts_f self other in
  let self := merge_field mk_lock_height_f self other in
  let self := merge_field mk_features_f self other in
  let self := merge_field mk_extra_data_f self other in
  let self := merge_field mk_signature_f self other in
  merge_list mk_unknowns_f self other.

(** *** The map of one kernel *)

Definition ltcd_insert (p : Pair) (out : MwebKernel) : result Error MwebKernel :=
  let k := pair_key p in
  if type_value k <=? MWEB_KERNEL_SIGNATURE_TYPE then Ok (kernel_apply_field out (type_value k) (key k) (Raw.value p))
  else
    let full_key := byte.of_Z (type_value k) :: key k in
    Ok (set mk_unknowns_f (mk_unknowns out ++ [(full_key, Raw.value p)]) out).

(** What follows the zero byte is not looked at. *)
Definition deserialize_ltcd_map (data : list byte) : result Error MwebKernel :=
  let? (out, _) := decode_map ltcd_insert kernel_default data in Ok out.

Definition ltcd_pairs (self : MwebKernel) : list Pair :=
  map (λ '(ty, suffix, value), {| pair_key := {| type_value := ty; key := suffix |}; Raw.value := value |})
    (kernel_to_kv_pairs self) ++
  omap (λ '(full_key, value),
    match full_key with
    | [] => None
    | t :: key => Some {| pair_key := {| type_value := byte.unsigned t; key := key |}; Raw.value := value |}
    end) (mk_unknowns self).

Definition serialize_ltcd_map (self : MwebKernel) : option (list byte) := serialize_pairs (ltcd_pairs self).

Definition pegout_coin_from_psbt_value (raw : list byte) : result Error PegOutCoin :=
  if (length raw <? 8)%nat then Err (IncompleteMwebMaps "kernel pegout value too short")
  else
    let amount := swrap 64 (le_combine (take 8 raw)) in
    let? script_pub_key := result_map_err ConsensusEncoding (Encode.deserialize Encode.bytes (drop 8 raw)) in
    Ok {| amount := amount; script_pub_key := script_pub_key |}.

(** [None]: a panic of the serialisation of the script. *)
Definition pegout_psbt_value (coin : PegOutCoin) : option (list byte) :=
  match Encode.serialize Encode.bytes (script_pub_key coin) with
  | Ok s => Some (le_split 8 (uwrap 64 (amount coin)) ++ s)
  | Err _ => None
  end.

(** ** Assembly *)

Definition wire_input_from_map (inp : MwebInput) : result Error Mimblewimble.Input :=
  let? output_id := ok_or (mi_output_id inp) (IncompleteMwebMaps "input map missing output_id") in
  let? commitment := ok_or (mi_commit inp) (IncompleteMwebMaps "input map missing commit") in
  let features := from_option byte.unsigned 0 (mi_features inp) in
  let? output_pubkey := ok_or (mi_output_pubkey inp) (IncompleteMwebMaps "input map missing output_pubkey") in
  let? output_public_key := ok_or (PublicKey_from_slice output_pubkey) InvalidSecp256k1PublicKey in
  let? input_public_key :=
    match mi_input_pubkey inp with
    | Some b => let? k := ok_or (PublicKey_from_slice b) InvalidSecp256k1PublicKey in Ok (Some k)
    | None => Ok None
    end in
  let? sig := ok_or (mi_signature inp) (IncompleteMwebMaps "input map missing signature") in
  if negb (length sig =? 64)%nat then Err (IncompleteMwebMaps "input signature must be 64 bytes")
  else
    Ok {| i_features := features; i_output_id := output_id; i_commitment := commitment;
          i_input_public_key := input_public_key; i_output_public_key := output_public_key;
          i_extra_data := default [] (mi_extra_data inp); i_signature := sig |}.

Definition wire_output_from_map (out : MwebOutput) : result Error Mimblewimble.Output :=
  let? commitment := ok_or (mo_commit out) (IncompleteMwebMaps "output map missing commit") in
  let? sender := ok_or (mo_sender_pubkey out) (IncompleteMwebMaps "output map missing sender_pubkey") in
  let? sender_public_key := ok_or (PublicKey_from_slice sender) InvalidSecp256k1PublicKey in
  let? receiver := ok_or (mo_output_pubkey out) (IncompleteMwebMaps "output map missing output_pubkey") in
  let? receiver_public_key := ok_or (PublicKey_from_slice receiver) InvalidSecp256k1PublicKey in
  let features := from_option byte.unsigned 0 (mo_features out) in
  let? standard_fields :=
    match mo_standard_fields out with
    | Some blob =>
        if (33 + 1 + 8 + 16 <=? length blob)%nat then
          let? ke := ok_or (PublicKey_from_slice (take 33 blob)) InvalidSecp256k1PublicKey in
          Ok (Some {| key_exchange_pubkey := ke; view_tag := byte.unsigned (List.nth 33 blob x00);
                      masked_value := le_combine (take 8 (drop 34 blob)); masked_nonce := take 16 (drop 42 blob) |})
        else Ok None
    | None => Ok None
    end in
  let? rp := ok_or (mo_range_proof out) (IncompleteMwebMaps "output map missing range_proof") in
  if negb (length rp =? 675)%nat then Err (IncompleteMwebMaps "range_proof must be 675 bytes")
  else
    let? sig := ok_or (mo_signature out) (IncompleteMwebMaps "output map missing signature") in
    if negb (length sig =? 64)%nat then Err (IncompleteMwebMaps "output signature must be 64 bytes")
    else
      Ok {| o_commitment := commitment; o_sender_public_key := sender_public_key;
            o_receiver_public_key := receiver_public_key;
            o_message := {| m_features := features; m_standard_fields := standard_fields;
                            m_extra_data := default [] (mo_extra_data out) |};
            o_range_proof := rp; o_signature := sig |}.

(** A loop that stops at the first error. *)
Fixpoint try_map {A B} (f : A → result Error B) (xs : list A) : result Error (list B) :=
  match xs with
  | [] => Ok []
  | x :: xs => let? y := f x in let? ys := try_map f xs in Ok (y :: ys)
  end.

Definition wire_kernel_from_map (k : MwebKernel) : result Error Kernel :=
  let? excess := ok_or (mk_excess_commit k) (IncompleteMwebMaps "kernel map missing excess") in
  let? signature := ok_or (mk_signature k) (IncompleteMwebMaps "kernel map missing signature") in
  let? pegouts := try_map pegout_coin_from_psbt_value (mk_pegouts k) in
  let? stealth_excess :=
    match mk_stealth_commit k with
    | Some b => let? k := ok_or (PublicKey_from_slice b) InvalidSecp256k1PublicKey in Ok (Some k)
    | None => Ok None
    end in
  Ok {| k_features := from_option byte.unsigned 0 (mk_features k); k_fee := swrap 64 <$> mk_fee k;
        k_pegin := swrap 64 <$> mk_pegin_amount k; k_pegouts := pegouts; k_lock_height := mk_lock_height k;
        k_stealth_excess := stealth_excess; k_extra_data := default [] (mk_extra_data k); k_excess := excess;
        k_signature := signature |}.

Definition assemble_mw_tx (koff soff : list byte) (inputs : list MwebInput) (outputs : list MwebOutput)
    (kernels : list MwebKernel) : result Error MwTransaction :=
  let? wire_inputs := try_map wire_input_from_map inputs in
  let? wire_outputs := try_map wire_output_from_map outputs in
  let? wire_kernels := try_map wire_kernel_from_map kernels in
  Ok {| kernel_offset := koff; stealth_offset := soff;
        body := {| b_inputs := wire_inputs; b_outputs := wire_outputs; b_kernels := wire_kernels |} |}.

End Maps.

(** The loops that push such triples as pairs. *)
Definition kv_pair (e : kv) : Pair := {| pair_key := {| type_value := fst (fst e); key := snd (fst e) |}; Raw.value := snd e |}.
Definition push_kvs (kvs : list kv) : option (list Pair) := Some (map kv_pair kvs).

(** ** Pairs, read back *)

Section FoldPairs.
Context {M : Type} (apply : M → kv → M).

(** The pair of an optional field sets it where it was empty. *)
Lemma fold_opt {A} (f : field M (option A)) ty enc (o : option A) rest acc :
  FieldLaws f → get f acc = None →
  (∀ a, o = Some a → apply acc (ty, fst (enc a), snd (enc a)) = set f (Some a) acc) →
  foldl apply acc (opt_kv ty enc o ++ rest) = foldl apply (set f o acc) rest.
Proof.
  intros Hf Hacc Ha. destruct o as [a|]; cbn [opt_kv app foldl]; [by rewrite Ha|]. by rewrite <- Hacc, set_get.
Qed.
End FoldPairs.

(** The pairs of the extension's map inside another map. *)
Lemma segment_kvs `{Secp256k1} {M W} (ins : Pair → M → result Error M) (f : field M W) (apply : W → kv → W) kvs acc :
  FieldLaws f → (∀ e m, e ∈ kvs → ins (kv_pair e) m = Ok (set f (apply (get f m) e) m)) →
  segment ins (push_kvs kvs) acc (set f (foldl apply (get f acc) kvs) acc).
Proof.
  intros Hf Hins. exists (map kv_pair kvs). split; [done|]. revert acc.
  induction kvs as [|e kvs IH]; intros acc; cbn [map insert_all foldl]; [by rewrite set_get|].
  rewrite Hins by left. cbn [result_bind]. rewrite IH by (intros; apply Hins; by right). by rewrite get_set, set_set.
Qed.

Lemma segment_kvs_back `{Secp256k1} {M W} (ins : Pair → M → result Error M) (f : field M W) (apply : W → kv → W) kvs acc d w :
  FieldLaws f → (∀ e m, e ∈ kvs → ins (kv_pair e) m = Ok (set f (apply (get f m) e) m)) → get f acc = d → foldl apply d kvs = w →
  segment ins (push_kvs kvs) acc (set f w acc).
Proof. intros Hf Hins <- <-. by apply segment_kvs. Qed.

Definition opt_len (n : nat) (o : option (list byte)) : Prop := ∀ v, o = Some v → length v = n.

Definition mweb_output_wf (m : MwebOutput) : Prop := opt_len 33 (mo_commit m).

(** The lemma for one field after the other; [tac] proves what a value does. *)
Ltac fold_fields fs tac :=
  lazymatch fs with
  | (?fs, ?f) => fold_fields fs tac; rewrite (fold_opt _ f); [|field_laws|reflexivity|tac]
  | ?f => rewrite (fold_opt _ f); [|field_laws|reflexivity|tac]
  end.

Definition output_apply (m : MwebOutput) (e : kv) : MwebOutput := Output.apply_field m (fst (fst e)) (snd e).

Lemma output_pairs_back m : mweb_output_wf m → foldl output_apply output_default (Output.to_pairs m) = m.
Proof.
  intros Hc. rewrite <- (app_nil_r (Output.to_pairs m)). unfold Output.to_pairs. rewrite <- !app_assoc. unfold output_default.
  fold_fields (mo_stealth_address_f, mo_commit_f, mo_features_f, mo_sender_pubkey_f, mo_output_pubkey_f,
    mo_standard_fields_f, mo_range_proof_f, mo_signature_f, mo_extra_data_f)
    ltac:(intros a Ha; unfold output_apply, Output.apply_field; cbn [fst snd plain id]; rewrite ?(Hc a Ha); reflexivity).
  by destruct m.
Qed.

Section MapLaws.
Context `{Secp256k1Laws, !PublicKeyLaws}.

Definition origin_wf (o : option (PublicKey * KeySource)) : Prop := ∀ p, o = Some p → key_source_wf (snd p).

Record mweb_input_wf (m : MwebInput) : Prop := {
  miwf_id : opt_len 32 (mi_output_id m);
  miwf_commit : opt_len 33 (mi_commit m);
  miwf_index : ∀ i, mi_address_index m = Some i → urange 32 i;
  miwf_amount : ∀ a, mi_amount m = Some a → urange 64 a;
  miwf_secret : opt_len 32 (mi_shared_secret m);
  miwf_scan : origin_wf (mi_master_scan_key_origin m);
  miwf_spend : origin_wf (mi_master_spend_key_origin m) }.

Definition input_apply (m : MwebInput) (e : kv) : MwebInput := apply_kv_field m (fst (fst e)) (snd (fst e)) (snd e).

Lemma set_origin_back f m p : key_source_wf (snd p) → set_origin f m (PublicKey_serialize (fst p)) (key_source_ser (snd p)) = set f (Some p) m.
Proof. intros Hp. unfold set_origin. rewrite pk_parse_serialize, key_source_de_ser by done. by destruct p. Qed.

Lemma le_back n z : urange (8 * Z.of_nat n) z → le_combine (le_split n z) = z.
Proof. intros Hz. rewrite le_combine_split, Z.mul_comm. by apply uwrap_small. Qed.

Ltac by_value Ea := match goal with H : _ |- _ => exact (H _ Ea) end.
Ltac input_value :=
  let a := fresh in let Ea := fresh in
  intros a Ea; unfold input_apply, apply_kv_field; cbn [fst snd plain origin_kv id];
  first
    [ lazymatch goal with |- _ = set ?f (Some ?p) ?m =>
        transitivity (set_origin f m (PublicKey_serialize (fst p)) (key_source_ser (snd p)));
        [reflexivity|apply set_origin_back; by_value Ea] end
    | rewrite length_le_split, le_back by by_value Ea; reflexivity
    | match goal with H : opt_len _ _ |- _ => rewrite (H a Ea); reflexivity end
    | reflexivity ].

Lemma input_pairs_back m : mweb_input_wf m → foldl input_apply input_default (input_to_kv_pairs m) = m.
Proof.
  intros [Hid Hc Hi Ha Hs Hscan Hspend]. rewrite <- (app_nil_r (input_to_kv_pairs m)). unfold input_to_kv_pairs. rewrite <- !app_assoc.
  fold_fields (mi_output_id_f, mi_commit_f, mi_output_pubkey_f, mi_input_pubkey_f, mi_features_f, mi_signature_f,
    mi_address_index_f, mi_amount_f, mi_shared_secret_f, mi_key_exchange_pubkey_f, mi_master_scan_key_origin_f,
    mi_master_spend_key_origin_f, mi_extra_data_f) input_value.
  by destruct m.
Qed.

(** *** Kernels *)

Record mweb_kernel_wf (m : MwebKernel) : Prop := {
  mkwf_excess : opt_len 33 (mk_excess_commit m);
  mkwf_fee : ∀ x, mk_fee m = Some x → urange 64 x;
  mkwf_pegin : ∀ x, mk_pegin_amount m = Some x → urange 64 x;
  mkwf_pegouts : (length (mk_pegouts m) <= 256)%nat;
  mkwf_lock : ∀ x, mk_lock_height m = Some x → urange 32 x;
  mkwf_signature : opt_len 64 (mk_signature m) }.

Definition kernel_apply (m : MwebKernel) (e : kv) : MwebKernel := kernel_apply_field m (fst (fst e)) (snd (fst e)) (snd e).

Lemma set_pegout_end pre v : set_pegout (length pre) v pre = pre ++ [v].
Proof.
  unfold set_pegout. replace (S (length pre) - length pre)%nat with 1%nat by lia.
  by rewrite insert_app_r_alt, Nat.sub_diag by lia.
Qed.

Lemma pegouts_back ps rest acc :
  mk_pegouts acc = [] → (length ps <= 256)%nat →
  foldl kernel_apply acc (pegout_kvs ps ++ rest) = foldl kernel_apply (set mk_pegouts_f ps acc) rest.
Proof.
  intros Ha Hl. rewrite foldl_app. f_equal. unfold pegout_kvs.
  assert (∀ ps pre acc, mk_pegouts acc = pre → (length (pre ++ ps) <= 256)%nat →
    foldl kernel_apply acc (imap (λ i p, (MWEB_KERNEL_PEGOUT_TYPE, [byte.of_Z (uwrap 8 (Z.of_nat (length pre + i)))], p)) ps)
    = set mk_pegouts_f (pre ++ ps) acc) as Hgen; [|by apply (Hgen ps [])].
  clear. induction ps as [|p ps IH]; intros pre acc Hacc Hl.
  - cbn. rewrite app_nil_r, <- Hacc. by destruct acc.
  - rewrite length_app in Hl. cbn [length] in Hl. cbn [imap foldl]. rewrite Nat.add_0_r.
    assert (kernel_apply acc (MWEB_KERNEL_PEGOUT_TYPE, [byte.of_Z (uwrap 8 (Z.of_nat (length pre)))], p)
            = set mk_pegouts_f (pre ++ [p]) acc) as ->.
    { transitivity (set mk_pegouts_f (set_pegout (Z.to_nat (byte.unsigned (byte.of_Z (uwrap 8 (Z.of_nat (length pre)))))) p (mk_pegouts acc)) acc);
        [reflexivity|]. rewrite uwrap_small by (unfold urange; lia). rewrite byte_of_Z_u, Nat2Z.id by (unfold urange; lia).
      by rewrite Hacc, set_pegout_end. }
    rewrite (imap_ext _ (λ i q, (MWEB_KERNEL_PEGOUT_TYPE, [byte.of_Z (uwrap 8 (Z.of_nat (length (pre ++ [p]) + i)))], q))).
    + rewrite (IH (pre ++ [p])) by (rewrite ?length_app; cbn; lia || done). rewrite <- app_assoc. reflexivity.
    + intros i q _. cbn. do 6 f_equal. rewrite length_app. cbn. lia.
Qed.

Ltac kernel_value :=
  let a := fresh in let Ea := fresh in
  intros a Ea; unfold kernel_apply, kernel_apply_field; cbn [fst snd plain id];
  first
    [ rewrite length_le_split, le_back by by_value Ea; reflexivity
    | match goal with H : opt_len _ _ |- _ => rewrite (H a Ea); reflexivity end
    | reflexivity ].

Lemma kernel_pairs_back m :
  mweb_kernel_wf m → foldl kernel_apply kernel_default (kernel_to_kv_pairs m) = set mk_unknowns_f [] m.
Proof.
  intros [He Hf Hp Hpo Hlk Hs]. rewrite <- (app_nil_r (kernel_to_kv_pairs m)). unfold kernel_to_kv_pairs. rewrite <- !app_assoc.
  fold_fields (mk_excess_commit_f, mk_stealth_commit_f, mk_fee_f, mk_pegin_amount_f) kernel_value.
  rewrite pegouts_back by (reflexivity || done).
  fold_fields (mk_lock_height_f, mk_features_f, mk_extra_data_f, mk_signature_f) kernel_value.
  by destruct m.
Qed.
End MapLaws.

(** ** Combination *)

Section Combine.
Context {M A : Type}.

Lemma merge_field_eq (f : field M (option A)) `{!FieldLaws f} a b : merge_field f a b = set f (get f a ∪ get f b) a.
Proof.
  unfold merge_field. destruct (get f a) as [x|] eqn:E; [|by destruct (get f b)].
  assert (Some x ∪ get f b = get f a) as -> by (rewrite E; by destruct (get f b)). by rewrite set_get.
Qed.

Lemma combine_field_eq (f : field M (option A)) `{!FieldLaws f} a b : combine_field f a b = set f (get f a ∪ get f b) a.
Proof.
  unfold combine_field. destruct (get f a) as [x|] eqn:E.
  - assert (Some x ∪ get f b = get f a) as -> by (rewrite E; by destruct (get f b)). by rewrite set_get.
  - destruct (get f b) as [y|]; [done|]. change (None ∪ None : option A) with (None : option A). by rewrite <- E, set_get.
Qed.

(** The first list that is not empty. *)
Definition list_or (x y : list A) : list A := match x with [] => y | _ => x end.

Lemma merge_list_eq (f : field M (list A)) `{!FieldLaws f} a b : merge_list f a b = set f (list_or (get f a) (get f b)) a.
Proof. unfold merge_list, list_or. destruct (get f a) eqn:E; [done|]. by rewrite <- E, set_get. Qed.

Lemma option_or_assoc (x y z : option A) : x ∪ (y ∪ z) = x ∪ y ∪ z.
Proof. by destruct x, y, z. Qed.
Lemma option_or_idem (x : option A) : x ∪ x = x.
Proof. by destruct x. Qed.
Lemma option_or_none (x : option A) : x ∪ None = x.
Proof. by destruct x. Qed.
Lemma option_none_or (x : option A) : None ∪ x = x.
Proof. by destruct x. Qed.
Lemma list_or_assoc (x y z : list A) : list_or x (list_or y z) = list_or (list_or x y) z.
Proof. by destruct x, y, z. Qed.
Lemma list_or_idem (x : list A) : list_or x x = x.
Proof. by destruct x. Qed.
Lemma list_or_nil (x : list A) : list_or x [] = x.
Proof. by destruct x. Qed.
End Combine.

Definition output_or (a b : MwebOutput) : MwebOutput :=
  {| mo_stealth_address := mo_stealth_address a ∪ mo_stealth_address b; mo_commit := mo_commit a ∪ mo_commit b;
     mo_features := mo_features a ∪ mo_features b; mo_sender_pubkey := mo_sender_pubkey a ∪ mo_sender_pubkey b;
     mo_output_pubkey := mo_output_pubkey a ∪ mo_output_pubkey b;
     mo_standard_fields := mo_standard_fields a ∪ mo_standard_fields b;
     mo_range_proof := mo_range_proof a ∪ mo_range_proof b; mo_signature := mo_signature a ∪ mo_signature b;
     mo_extra_data := mo_extra_data a ∪ mo_extra_data b |}.

Lemma output_combine_or a b : Output.combine a b = output_or a b.
Proof. unfold Output.combine. cbv zeta. rewrite !merge_field_eq by field_laws. reflexivity. Qed.

Section CombineMaps.
Context `{Secp256k1}.

Definition input_or (a b : MwebInput) : MwebInput :=
  {| mi_output_id := mi_output_id a ∪ mi_output_id b; mi_commit := mi_commit a ∪ mi_commit b;
     mi_output_pubkey := mi_output_pubkey a ∪ mi_output_pubkey b; mi_input_pubkey := mi_input_pubkey a ∪ mi_input_pubkey b;
     mi_features := mi_features a ∪ mi_features b; mi_signature := mi_signature a ∪ mi_signature b;
     mi_address_index := mi_address_index a ∪ mi_address_index b; mi_amount := mi_amount a ∪ mi_amount b;
     mi_shared_secret := mi_shared_secret a ∪ mi_shared_secret b;
     mi_key_exchange_pubkey := mi_key_exchange_pubkey a ∪ mi_key_exchange_pubkey b;
     mi_master_scan_key_origin := mi_master_scan_key_origin a ∪ mi_master_scan_key_origin b;
     mi_master_spend_key_origin := mi_master_spend_key_origin a ∪ mi_master_spend_key_origin b;
     mi_extra_data := mi_extra_data a ∪ mi_extra_data b |}.

Lemma input_combine_or a b : input_combine a b = input_or a b.
Proof. unfold input_combine. cbv zeta. rewrite !merge_field_eq by field_laws. reflexivity. Qed.

Definition kernel_or (a b : MwebKernel) : MwebKernel :=
  {| mk_excess_commit := mk_excess_commit a ∪ mk_excess_commit b; mk_stealth_commit := mk_stealth_commit a ∪ mk_stealth_commit b;
     mk_fee := mk_fee a ∪ mk_fee b; mk_pegin_amount := mk_pegin_amount a ∪ mk_pegin_amount b;
     mk_pegouts := list_or (mk_pegouts a) (mk_pegouts b); mk_lock_height := mk_lock_height a ∪ mk_lock_height b;
     mk_features := mk_features a ∪ mk_features b; mk_extra_data := mk_extra_data a ∪ mk_extra_data b;
     mk_signature := mk_signature a ∪ mk_signature b; mk_unknowns := list_or (mk_unknowns a) (mk_unknowns b) |}.

Lemma kernel_combine_or a b : kernel_combine a b = kernel_or a b.
Proof. unfold kernel_combine. cbv zeta. rewrite !merge_field_eq, !merge_list_eq by field_laws. reflexivity. Qed.
End CombineMaps.

(** ** Theorems *)

Section Theorems.
Context `{Secp256k1Laws, !PublicKeyLaws}.

Lemma kernel_kv_types m : Forall (λ e : kv, 0 <= fst (fst e) <= MWEB_KERNEL_SIGNATURE_TYPE) (kernel_to_kv_pairs m).
Proof.
  unfold kernel_to_kv_pairs, pegout_kvs. repeat (apply Forall_app; split);
    lazymatch goal with
    | |- Forall _ (opt_kv _ _ ?o) => destruct o; repeat constructor; done
    | _ => apply Forall_forall; intros e (i & p & -> & _)%elem_of_lookup_imap; done
    end.
Qed.

Lemma ltcd_insert_kvs kvs acc :
  Forall (λ e : kv, 0 <= fst (fst e) <= MWEB_KERNEL_SIGNATURE_TYPE) kvs →
  insert_all ltcd_insert (map kv_pair kvs) acc = Ok (foldl kernel_apply acc kvs).
Proof.
  intros Hk. revert acc. induction Hk as [|e kvs He _ IH]; intros acc; [done|]. cbn [map insert_all foldl].
  unfold ltcd_insert at 1. cbn [pair_key kv_pair type_value]. rewrite (proj2 (Z.leb_le _ _)) by lia. cbn [result_bind]. apply IH.
Qed.

(** Unknown pairs have a key, of a type that is not a kernel field. *)
Definition unknown_wf (e : list byte * list byte) : Prop :=
  ∃ t key, fst e = t :: key ∧ MWEB_KERNEL_SIGNATURE_TYPE < byte.unsigned t.

Lemma ltcd_insert_unknowns us acc :
  Forall unknown_wf us →
  insert_all ltcd_insert
    (omap (λ '(full_key, value),
       match full_key with
       | [] => None
       | t :: key => Some {| pair_key := {| type_value := byte.unsigned t; key := key |}; Raw.value := value |}
       end) us) acc
  = Ok (set mk_unknowns_f (mk_unknowns acc ++ us) acc).
Proof.
  intros Hu. revert acc. induction Hu as [|[fk v] us (t & k & Hfk & Ht) _ IH]; intros acc.
  - cbn. rewrite app_nil_r. by destruct acc.
  - cbn [fst] in Hfk. subst fk. cbn [omap list_omap]. cbn [insert_all]. unfold ltcd_insert at 1. cbn [pair_key type_value key].
    rewrite (proj2 (Z.leb_gt _ _)) by done. cbn [result_bind]. rewrite IH. rewrite byte.of_Z_unsigned.
    cbn [mk_unknowns_f set mk_unknowns Raw.value]. by rewrite <- app_assoc.
Qed.

(** The maps of the extension block are read back from the pairs that hold them:
    outputs and inputs with commitments of 33 bytes, identifiers and secrets of 32,
    indexes and amounts in their range and well-formed key origins; a kernel with at most
    256 pegouts comes back from its own map, its unknown pairs included, whatever follows
    the map. *)
Theorem mweb_maps_roundtrip (o : MwebOutput) (i : MwebInput) (k : MwebKernel) rest :
  mweb_output_wf o → mweb_input_wf i → mweb_kernel_wf k → Forall unknown_wf (mk_unknowns k) → Forall pair_wf (ltcd_pairs k) →
  Output.from_pairs (map (λ e, (fst (fst e), snd e)) (Output.to_pairs o)) = o ∧
  input_from_kv_pairs (input_to_kv_pairs i) = i ∧
  ∃ bs, serialize_ltcd_map k = Some bs ∧ deserialize_ltcd_map (bs ++ rest) = Ok k.
Proof.
  intros Ho Hi Hk Hu Hp. split_and!.
  - unfold Output.from_pairs. rewrite <- (output_pairs_back o Ho) at 2. generalize output_default as acc.
    induction (Output.to_pairs o) as [|e kvs IH]; intros acc; [done|]. apply IH.
  - rewrite <- (input_pairs_back i Hi) at 2. unfold input_from_kv_pairs. generalize input_default as acc.
    induction (input_to_kv_pairs i) as [|[[ty kd] v] kvs IH]; intros acc; [done|]. apply IH.
  - unfold serialize_ltcd_map, deserialize_ltcd_map. rewrite serialize_pairs_eq by done. eexists. split; [done|].
    assert (insert_all ltcd_insert (ltcd_pairs k) kernel_default = Ok k) as Ha.
    { unfold ltcd_pairs. replace (map _ (kernel_to_kv_pairs k)) with (map kv_pair (kernel_to_kv_pairs k))
        by (apply map_ext; by intros [[] ]).
      rewrite insert_all_app, ltcd_insert_kvs by apply kernel_kv_types. cbn [result_bind].
      rewrite ltcd_insert_unknowns, kernel_pairs_back by done. by destruct k. }
    by rewrite (proj2 (decode_map_ok ltcd_insert kernel_default _ k rest)) by eauto.
Qed.

(** Combining two maps of the extension block keeps what is there and takes what is
    missing from the other: the empty map changes nothing, a map combined with itself is
    itself, and three maps combine to the same in both groupings. *)
Theorem mweb_combine_laws (a b c : MwebOutput) (x y z : MwebInput) (k l m : MwebKernel) :
  (Output.combine a output_default = a ∧ Output.combine output_default a = a ∧ Output.combine a a = a ∧
   Output.combine a (Output.combine b c) = Output.combine (Output.combine a b) c) ∧
  (input_combine x input_default = x ∧ input_combine input_default x = x ∧ input_combine x x = x ∧
   input_combine x (input_combine y z) = input_combine (input_combine x y) z) ∧
  (kernel_combine k kernel_default = k ∧ kernel_combine kernel_default k = k ∧ kernel_combine k k = k ∧
   kernel_combine k (kernel_combine l m) = kernel_combine (kernel_combine k l) m).
Proof.
  rewrite !output_combine_or, !input_combine_or, !kernel_combine_or. split_and!.
  all: lazymatch goal with |- _ = ?v => try (is_var v; destruct v) end.
  all: unfold output_or, input_or, kernel_or, output_default, input_default, kernel_default; cbn -[union].
  all: f_equal; by rewrite ?option_or_none, ?option_none_or, ?option_or_idem, ?option_or_assoc, ?list_or_nil, ?list_or_idem, ?list_or_assoc.
Qed.
End Theorems.

#[local] Existing Instances PlainSecp.plain_keys PlainSecp.plain_keys_laws PlainSecp.plain_secp PlainSecp.plain_secp_laws.

Definition sample_output : MwebOutput :=
  set mo_commit_f (Some (x02 :: replicate 32 x00)) (set mo_features_f (Some x01) (set mo_signature_f (Some (replicate 64 x55)) output_default)).
Definition sample_input : MwebInput :=
  set mi_output_id_f (Some (replicate 32 x09)) (set mi_amount_f (Some 50000) (set mi_address_index_f (Some 2)
    (set mi_master_scan_key_origin_f (Some ((true, PlainSecp.repeated 32 x07), (replicate 4 x11, [Hardened 0; Hardened 100])))
       input_default))).
Definition sample_kernel : MwebKernel :=
  set mk_fee_f (Some 10000) (set mk_pegouts_f [replicate 14 x01; []] (set mk_lock_height_f (Some 150)
    (set mk_unknowns_f [([xfc; x00; x01], [x70])] kernel_default))).

Lemma mweb_maps_roundtrip_witness :
  Output.from_pairs (map (λ e, (fst (fst e), snd e)) (Output.to_pairs sample_output)) = sample_output ∧
  input_from_kv_pairs (input_to_kv_pairs sample_input) = sample_input ∧
  ∃ bs, serialize_ltcd_map sample_kernel = Some bs ∧ deserialize_ltcd_map (bs ++ [x07]) = Ok sample_kernel.
Proof.
  apply (mweb_maps_roundtrip sample_output sample_input sample_kernel [x07]).
  - by intros v [= <-].
  - split; try done; cbn; try by intros ? [= <-].
    intros ? [= <-]. split; [done|]. by repeat constructor.
  - split; try done; cbn; try (intros ? [= <-]; done). lia.
  - repeat constructor. by exists xfc, [x00; x01].
  - repeat constructor; done.
Defined.
