(* ===== verification/PsbtOutput.v ===== *)
(** The output maps of a partially signed transaction
    ([src/litecoin/src/psbt/map/output.rs]): the pairs of an output, their insertion,
    the combination of two maps of the same output. *)

From S2P Require Import Witness.
From Stdlib Require Import String ZArith Lia ZifyBool.
From stdpp Require Import base list.
From Stdlib Require Import Init.Byte.
From coqutil Require Import Byte Word.LittleEndianList.
From S2P Require Import Prelude Io Ordered HashEngine Sha256 Encode Mimblewimble Transaction Script Templates.
From S2P Require Import Taproot Sighash Keys Bip32 Psbt PsbtValues PsbtMweb.
Import Raw.

Definition PSBT_OUT_REDEEM_SCRIPT : Z := 0x00.
Definition PSBT_OUT_WITNESS_SCRIPT : Z := 0x01.
Definition PSBT_OUT_BIP32_DERIVATION : Z := 0x02.
Definition PSBT_OUT_TAP_INTERNAL_KEY : Z := 0x05.
Definition PSBT_OUT_TAP_TREE : Z := 0x06.
Definition PSBT_OUT_TAP_BIP32_DERIVATION : Z := 0x07.
Definition PSBT_OUT_PROPRIETARY : Z := 0xFC.

Section Output.
Context `{Secp256k1, TaprootKeys, !Ordered XOnly}.

(** [struct Output]; the maps are lists in increasing order of their keys. *)
Record PsbtOutput := {
  out_redeem_script : option (list byte); out_witness_script : option (list byte);
  out_bip32_derivation : list (PublicKey * KeySource); out_tap_internal_key : option XOnly;
  out_tap_tree : option NodeInfo; out_tap_key_origins : list (XOnly * (list (list byte) * KeySource));
  out_proprietary : list (ProprietaryKey * list byte); out_unknown : list (Key * list byte); out_mweb : MwebOutput }.

Definition psbt_output_default : PsbtOutput :=
  {| out_redeem_script := None; out_witness_script := None; out_bip32_derivation := []; out_tap_internal_key := None;
     out_tap_tree := None; out_tap_key_origins := []; out_proprietary := []; out_unknown := []; out_mweb := output_default |}.

Definition psbt_output_eta (m : PsbtOutput) : PsbtOutput :=
  {| out_redeem_script := out_redeem_script m; out_witness_script := out_witness_script m;
     out_bip32_derivation := out_bip32_derivation m; out_tap_internal_key := out_tap_internal_key m;
     out_tap_tree := out_tap_tree m; out_tap_key_origins := out_tap_key_origins m;
     out_proprietary := out_proprietary m; out_unknown := out_unknown m; out_mweb := out_mweb m |}.

Definition out_redeem_script_f : field PsbtOutput (option (list byte)) := ltac:(field_of psbt_output_eta out_redeem_script).
Definition out_witness_script_f : field PsbtOutput (option (list byte)) := ltac:(field_of psbt_output_eta out_witness_script).
Definition out_bip32_derivation_f : field PsbtOutput (list (PublicKey * KeySource)) := ltac:(field_of psbt_output_eta out_bip32_derivation).
Definition out_tap_internal_key_f : field PsbtOutput (option XOnly) := ltac:(field_of psbt_output_eta out_tap_internal_key).
Definition out_tap_tree_f : field PsbtOutput (option NodeInfo) := ltac:(field_of psbt_output_eta out_tap_tree).
Definition out_tap_key_origins_f : field PsbtOutput (list (XOnly * (list (list byte) * KeySource))) :=
  ltac:(field_of psbt_output_eta out_tap_key_origins).
Definition out_proprietary_f : field PsbtOutput (list (ProprietaryKey * list byte)) := ltac:(field_of psbt_output_eta out_proprietary).
Definition out_unknown_f : field PsbtOutput (list (Key * list byte)) := ltac:(field_of psbt_output_eta out_unknown).
Definition out_mweb_f : field PsbtOutput MwebOutput := ltac:(field_of psbt_output_eta out_mweb).

(** [insert_pair] *)
Definition output_insert_pair (pair : Pair) (self : PsbtOutput) : result Error PsbtOutput :=
  let raw_key := pair_key pair in
  let raw_value := Raw.value pair in
  let ty := type_value raw_key in
  if ty =? PSBT_OUT_REDEEM_SCRIPT then insert_unkeyed out_redeem_script_f raw_key raw_value self
  else if ty =? PSBT_OUT_WITNESS_SCRIPT then insert_unkeyed out_witness_script_f raw_key raw_value self
  else if ty =? PSBT_OUT_BIP32_DERIVATION then insert_keyed out_bip32_derivation_f raw_key raw_value self
  else if ty =? PSBT_OUT_PROPRIETARY then insert_proprietary out_proprietary_f raw_key raw_value self
  else if ty =? PSBT_OUT_TAP_INTERNAL_KEY then insert_unkeyed out_tap_internal_key_f raw_key raw_value self
  else if ty =? PSBT_OUT_TAP_TREE then insert_unkeyed out_tap_tree_f raw_key raw_value self
  else if ty =? PSBT_OUT_TAP_BIP32_DERIVATION then insert_keyed out_tap_key_origins_f raw_key raw_value self
  else if Output.is_field ty then
    match key raw_key with
    | [] => Ok (set out_mweb_f (Output.apply_field (out_mweb self) ty raw_value) self)
    | _ => Err (InvalidKey raw_key)
    end
  else insert_unknown out_unknown_f raw_key raw_value self.

(** [get_pairs] *)
Definition output_get_pairs (self : PsbtOutput) : option (list Pair) :=
  push_all
    [push_unkeyed out_redeem_script_f PSBT_OUT_REDEEM_SCRIPT self;
     push_unkeyed out_witness_script_f PSBT_OUT_WITNESS_SCRIPT self;
     push_map out_bip32_derivation_f PSBT_OUT_BIP32_DERIVATION self;
     push_unkeyed out_tap_internal_key_f PSBT_OUT_TAP_INTERNAL_KEY self;
     push_unkeyed out_tap_tree_f PSBT_OUT_TAP_TREE self;
     push_map out_tap_key_origins_f PSBT_OUT_TAP_BIP32_DERIVATION self;
     push_kvs (Output.to_pairs (out_mweb self));
     push_proprietary out_proprietary_f self;
     push_unknown out_unknown_f self].

(** [serialize_map] and [decode] *)
Definition psbt_output_serialize (self : PsbtOutput) : option (list byte) := ps ← output_get_pairs self; serialize_pairs ps.
Definition psbt_output_decode : prd PsbtOutput := decode_map output_insert_pair psbt_output_default.

Definition output_combine (self other : PsbtOutput) : PsbtOutput :=
  let self := extend_field out_bip32_derivation_f self other in
  let self := extend_field out_proprietary_f self other in
  let self := extend_field out_unknown_f self other in
  let self := extend_field out_tap_key_origins_f self other in
  let self := set out_mweb_f (Output.combine (out_mweb self) (out_mweb other)) self in
  let self := combine_field out_redeem_script_f self other in
  let self := combine_field out_witness_script_f self other in
  let self := combine_field out_tap_internal_key_f self other in
  combine_field out_tap_tree_f self other.

(** The types that [insert_pair] knows. *)
Definition output_known (ty : Z) : bool :=
  (ty =? PSBT_OUT_REDEEM_SCRIPT) || (ty =? PSBT_OUT_WITNESS_SCRIPT) || (ty =? PSBT_OUT_BIP32_DERIVATION) ||
  (ty =? PSBT_OUT_PROPRIETARY) || (ty =? PSBT_OUT_TAP_INTERNAL_KEY) || (ty =? PSBT_OUT_TAP_TREE) ||
  (ty =? PSBT_OUT_TAP_BIP32_DERIVATION) || Output.is_field ty.

(** What a decoder makes, and what is written and read back. *)
Record psbt_output_wf (m : PsbtOutput) : Prop := {
  owf_derivation : bmap_wf (out_bip32_derivation m) ∧ Forall (λ e, key_source_wf (snd e)) (out_bip32_derivation m);
  owf_tree : ∀ n, out_tap_tree m = Some n → tap_tree_wf n;
  owf_origins : bmap_wf (out_tap_key_origins m) ∧ Forall (λ e, key_origin_wf (snd e)) (out_tap_key_origins m);
  owf_proprietary : bmap_wf (out_proprietary m) ∧ Forall (λ e, prop_key_wf (fst e)) (out_proprietary m);
  owf_unknown : bmap_wf (out_unknown m) ∧ Forall (λ e, output_known (type_value (fst e)) = false) (out_unknown m);
  owf_mweb : mweb_output_wf (out_mweb m) }.

End Output.

Section OutputLaws.
Context `{Secp256k1Laws, !PublicKeyLaws, TaprootKeyLaws, !Ordered XOnly}.

Lemma output_kv_types m : Forall (λ e : kv, Output.is_field (fst (fst e)) = true ∧ snd (fst e) = []) (Output.to_pairs m).
Proof. unfold Output.to_pairs. repeat (apply Forall_app; split); match goal with |- Forall _ (opt_kv _ _ ?o) => destruct o; by repeat constructor end. Qed.

Lemma output_field_range ty : Output.is_field ty = true ↔ 0x90 <= ty <= 0x98.
Proof. unfold Output.is_field. rewrite andb_true_iff, !Z.leb_le. done. Qed.

Lemma output_insert_mweb e m :
  Output.is_field (fst (fst e)) = true ∧ snd (fst e) = [] →
  output_insert_pair (kv_pair e) m = Ok (set out_mweb_f (output_apply (get out_mweb_f m) e) m).
Proof.
  destruct e as [[ty kd] v]. cbn [fst snd]. intros [Hty ->]. unfold output_insert_pair. cbn [kv_pair pair_key type_value fst snd].
  rewrite Hty. apply output_field_range in Hty. unfold PSBT_OUT_REDEEM_SCRIPT, PSBT_OUT_WITNESS_SCRIPT, PSBT_OUT_BIP32_DERIVATION,
    PSBT_OUT_PROPRIETARY, PSBT_OUT_TAP_INTERNAL_KEY, PSBT_OUT_TAP_TREE, PSBT_OUT_TAP_BIP32_DERIVATION.
  rewrite !(proj2 (Z.eqb_neq _ _)) by lia. done.
Qed.

Lemma output_insert_unknown k v m :
  output_known (type_value k) = false →
  output_insert_pair {| pair_key := k; Raw.value := v |} m = insert_unknown out_unknown_f k v m.
Proof.
  unfold output_known. rewrite !orb_false_iff. intros [[[[[[[H1' H2'] H3'] H4'] H5'] H6'] H7'] H8'].
  unfold output_insert_pair. cbn [pair_key]. by rewrite H1', H2', H3', H4', H5', H6', H7', H8'.
Qed.

(** The pairs of a well-formed output are inserted one after the other. *)
Lemma output_pairs_segment m :
  psbt_output_wf m → segment output_insert_pair (output_get_pairs m) psbt_output_default m.
Proof.
  intros [[Hd1 Hd2] Ht [Ho1 Ho2] [Hp1 Hp2] [Hu1 Hu2] Hm].
  enough (segment output_insert_pair (output_get_pairs m) psbt_output_default
    (set out_unknown_f (out_unknown m) (set out_proprietary_f (out_proprietary m) (set out_mweb_f (out_mweb m)
    (set out_tap_key_origins_f (out_tap_key_origins m) (set out_tap_tree_f (out_tap_tree m)
    (set out_tap_internal_key_f (out_tap_internal_key m) (set out_bip32_derivation_f (out_bip32_derivation m)
    (set out_witness_script_f (out_witness_script m) (set out_redeem_script_f (out_redeem_script m) psbt_output_default))))))))))
    as Hs by (by destruct m).
  unfold output_get_pairs.
  eapply segment_cons; [seg_unkeyed; done|]. eapply segment_cons; [seg_unkeyed; done|].
  eapply segment_cons; [seg_map; [apply pk_ser_some|eapply Forall_impl; [exact Hd2|done]]|].
  eapply segment_cons; [seg_unkeyed; done|]. eapply segment_cons; [seg_unkeyed; exact Ht|].
  eapply segment_cons; [seg_map; [apply xonly_ser_some|]|].
  { eapply Forall_impl; [exact Ho2|done]. }
  eapply segment_cons.
  { eapply (segment_kvs_back _ out_mweb_f output_apply); [field_laws| |reflexivity|by apply output_pairs_back].
    intros e m' He. apply output_insert_mweb. revert e He. apply Forall_forall, output_kv_types. }
  eapply segment_cons; [apply (segment_proprietary _ out_proprietary_f); [field_laws|handled|done..]|].
  eapply segment_cons; [|apply segment_nil].
  apply (segment_unknown _ out_unknown_f); [field_laws|done..|]. intros k v Hin m'. apply output_insert_unknown.
  rewrite Forall_forall in Hu2. exact (Hu2 _ Hin).
Qed.

Lemma apply_field_wf m ty v : mweb_output_wf m → mweb_output_wf (Output.apply_field m ty v).
Proof.
  intros Hm. unfold Output.apply_field. repeat case_match; try exact Hm.
  intros c [= <-]. bool_lia.
Qed.

Lemma output_insert_wf p m m' : psbt_output_wf m → output_insert_pair p m = Ok m' → psbt_output_wf m'.
Proof.
  intros [Hd Ht Ho Hp Hu Hm]. destruct p as [k v]. unfold output_insert_pair. cbn [pair_key Raw.value].
  destruct (Z.eqb_spec (type_value k) PSBT_OUT_REDEEM_SCRIPT) as [|E1]; [intros (_ & _ & x & _ & ->)%insert_unkeyed_ok; by split|].
  destruct (Z.eqb_spec (type_value k) PSBT_OUT_WITNESS_SCRIPT) as [|E2]; [intros (_ & _ & x & _ & ->)%insert_unkeyed_ok; by split|].
  destruct (Z.eqb_spec (type_value k) PSBT_OUT_BIP32_DERIVATION) as [|E3].
  { intros (x & y & _ & Hy & _ & ->)%insert_keyed_ok. apply key_source_sound in Hy. split; try done. by apply bmap_insert_inv. }
  destruct (Z.eqb_spec (type_value k) PSBT_OUT_PROPRIETARY) as [|E4].
  { intros (x & Hx & _ & ->)%insert_proprietary_ok. apply try_from_key_wf in Hx. split; try done. by apply bmap_insert_inv. }
  destruct (Z.eqb_spec (type_value k) PSBT_OUT_TAP_INTERNAL_KEY) as [|E5]; [intros (_ & _ & x & _ & ->)%insert_unkeyed_ok; by split|].
  destruct (Z.eqb_spec (type_value k) PSBT_OUT_TAP_TREE) as [|E6].
  { intros (_ & _ & x & Hx & ->)%insert_unkeyed_ok. apply tap_tree_sound in Hx. split; try done. by intros n [= <-]. }
  destruct (Z.eqb_spec (type_value k) PSBT_OUT_TAP_BIP32_DERIVATION) as [|E7].
  { intros (x & y & _ & Hy & _ & ->)%insert_keyed_ok. apply key_origin_sound in Hy. split; try done. by apply bmap_insert_inv. }
  destruct (Output.is_field (type_value k)) eqn:E8.
  { destruct (key k); [|done]. intros [= <-]. split; try done. by apply apply_field_wf. }
  intros (_ & ->)%insert_unknown_ok. split; try done. apply bmap_insert_inv; [|done]. unfold output_known. cbn [fst].
  by rewrite !(proj2 (Z.eqb_neq _ _)), E8 by done.
Qed.

(** *** Combination *)

Definition psbt_output_or (a b : PsbtOutput) : PsbtOutput :=
  {| out_redeem_script := out_redeem_script a ∪ out_redeem_script b;
     out_witness_script := out_witness_script a ∪ out_witness_script b;
     out_bip32_derivation := bmap_extend (out_bip32_derivation a) (out_bip32_derivation b);
     out_tap_internal_key := out_tap_internal_key a ∪ out_tap_internal_key b;
     out_tap_tree := out_tap_tree a ∪ out_tap_tree b;
     out_tap_key_origins := bmap_extend (out_tap_key_origins a) (out_tap_key_origins b);
     out_proprietary := bmap_extend (out_proprietary a) (out_proprietary b);
     out_unknown := bmap_extend (out_unknown a) (out_unknown b);
     out_mweb := output_or (out_mweb a) (out_mweb b) |}.

Lemma output_combine_eq a b : output_combine a b = psbt_output_or a b.
Proof.
  unfold output_combine. cbv zeta. rewrite !combine_field_eq by field_laws. rewrite output_combine_or. reflexivity.
Qed.

(** The maps are in order. *)
Record output_maps_wf (m : PsbtOutput) : Prop := {
  omw_derivation : bmap_wf (out_bip32_derivation m); omw_origins : bmap_wf (out_tap_key_origins m);
  omw_proprietary : bmap_wf (out_proprietary m); omw_unknown : bmap_wf (out_unknown m) }.

(** ** Theorems *)

(** A well-formed output map is written as pairs that are inserted back one after
    the other, so that it is decoded from what is serialised, whatever follows; and all
    that is decoded is well formed and comes from pairs, each read once, up to the zero
    byte. *)
Theorem output_map_codec (m : PsbtOutput) (s rest : list byte) :
  (psbt_output_wf m →
   ∃ ps, output_get_pairs m = Some ps ∧
     (Forall pair_wf ps → ∃ bs, psbt_output_serialize m = Some bs ∧ ∀ rest, psbt_output_decode (bs ++ rest) = Ok (m, rest))) ∧
  (psbt_output_decode s = Ok (m, rest) →
   psbt_output_wf m ∧
   ∃ ps, Forall pair_wf ps ∧ s = map_bytes ps ++ rest ∧ insert_all output_insert_pair ps psbt_output_default = Ok m).
Proof.
  split.
  - intros Hm. exact (segment_roundtrip _ _ _ _ (output_pairs_segment m Hm)).
  - apply decode_map_invariant; [by split|]. intros p m1 m2 Hm _. by apply output_insert_wf.
Qed.

(** Combining two maps of an output keeps the fields that are there and adds those
    that are missing, and joins the collections, where the second map wins: the empty map
    changes nothing, a map combined with itself is itself, and three maps combine to the
    same in both groupings. *)
Theorem output_combine_laws (a b c : PsbtOutput) :
  output_maps_wf a → output_maps_wf b → output_maps_wf c →
  output_combine a psbt_output_default = a ∧ output_combine psbt_output_default a = a ∧ output_combine a a = a ∧
  output_combine a (output_combine b c) = output_combine (output_combine a b) c ∧
  output_maps_wf (output_combine a b) ∧
  (∀ k, bmap_get k (out_unknown (output_combine a b)) =
     match bmap_get k (out_unknown b) with Some v => Some v | None => bmap_get k (out_unknown a) end).
Proof.
  intros [] [] []. rewrite !output_combine_eq. split_and!.
  5: by split; apply bmap_extend_wf.
  5: intros k; by apply bmap_get_extend.
  all: destruct a; unfold psbt_output_or, output_or, psbt_output_default, output_default; cbn -[union bmap_extend] in *.
  all: f_equal; rewrite ?option_or_none, ?option_none_or, ?option_or_idem, ?option_or_assoc; try done.
  all: try (by apply bmap_extend_nil); try (by apply bmap_extend_idem); try (by apply bmap_extend_assoc).
  all: match goal with |- _ = ?v => try (is_var v; destruct v) end; cbn -[union]; f_equal;
    by rewrite ?option_or_none, ?option_none_or, ?option_or_idem, ?option_or_assoc.
Qed.
End OutputLaws.

#[local] Existing Instances PlainSecp.plain_keys PlainSecp.plain_keys_laws PlainSecp.plain_secp PlainSecp.plain_secp_laws.
#[local] Existing Instances PlainTaprootKeys.keys PlainTaprootKeys.keys_laws.

#[local] Existing Instance plain_xonly_ordered.

Definition sample_tap_tree : tree := TNode (TLeaf (LScript [x51] TapScript)) (TLeaf (LScript [x52] TapScript)).

(** A witness script, a tree of two leaves, a derivation and an unknown pair. *)
Definition sample_psbt_output : PsbtOutput :=
  set out_witness_script_f (Some [x51]) (set out_bip32_derivation_f [((true, PlainSecp.repeated 32 x07), (replicate 4 x11, [Hardened 0]))]
    (set out_tap_tree_f (Some (tree_node sample_tap_tree))
       (set out_unknown_f [({| type_value := 0x0f; key := [x01] |}, [x02; x03])] psbt_output_default))).

Lemma sample_psbt_output_maps : output_maps_wf sample_psbt_output.
Proof. by split. Qed.

Lemma output_combine_laws_witness :
  output_combine sample_psbt_output (output_combine psbt_output_default sample_psbt_output) =
  output_combine (output_combine sample_psbt_output psbt_output_default) sample_psbt_output.
Proof.
  apply (output_combine_laws sample_psbt_output psbt_output_default sample_psbt_output);
    [apply sample_psbt_output_maps|by split|apply sample_psbt_output_maps].
Defined.

Lemma sample_psbt_output_wf : psbt_output_wf sample_psbt_output.
Proof.
  split.
  - by split; repeat constructor.
  - change (out_tap_tree sample_psbt_output) with (Some (tree_node sample_tap_tree)).
    intros n <-%(inj Some). exists sample_tap_tree. split; [reflexivity|]. split; [cbn; lia|]. by repeat constructor.
  - split; constructor.
  - split; constructor.
  - split; repeat constructor.
  - intros ? [=].
Qed.

Lemma output_map_codec_witness :
  ∃ bs, psbt_output_serialize sample_psbt_output = Some bs ∧ ∀ rest, psbt_output_decode (bs ++ rest) = Ok (sample_psbt_output, rest).
Proof.
  destruct (proj1 (output_map_codec sample_psbt_output [] []) sample_psbt_output_wf) as (ps & Hps & Hwf).
  apply Hwf. vm_compute in Hps. injection Hps as <-. repeat constructor; done.
Defined.
