(* ===== verification/PsbtInput.v ===== *)
(** The input maps of a partially signed transaction
    ([src/litecoin/src/psbt/map/input.rs]): the pairs of an input, their insertion, the
    combination of two maps of the same input. *)

From S2P Require Import Witness.
From Stdlib Require Import String ZArith Lia ZifyBool.
From stdpp Require Import base list.
From Stdlib Require Import Init.Byte.
From coqutil Require Import Byte Word.LittleEndianList.
From S2P Require Import Prelude Io Ordered HashEngine Sha256 Hashes Encode Mimblewimble Locktime Transaction Script Templates.
From S2P Require Import Taproot Sighash Keys Bip32 Psbt PsbtValues PsbtMweb.
Import Raw.

Definition PSBT_IN_NON_WITNESS_UTXO : Z := 0x00.
Definition PSBT_IN_WITNESS_UTXO : Z := 0x01.
Definition PSBT_IN_PARTIAL_SIG : Z := 0x02.
Definition PSBT_IN_SIGHASH_TYPE : Z := 0x03.
Definition PSBT_IN_REDEEM_SCRIPT : Z := 0x04.
Definition PSBT_IN_WITNESS_SCRIPT : Z := 0x05.
Definition PSBT_IN_BIP32_DERIVATION : Z := 0x06.
Definition PSBT_IN_FINAL_SCRIPTSIG : Z := 0x07.
Definition PSBT_IN_FINAL_SCRIPTWITNESS : Z := 0x08.
Definition PSBT_IN_RIPEMD160 : Z := 0x0A.
Definition PSBT_IN_SHA256 : Z := 0x0B.
Definition PSBT_IN_HASH160 : Z := 0x0C.
Definition PSBT_IN_HASH256 : Z := 0x0D.
Definition PSBT_IN_TAP_KEY_SIG : Z := 0x13.
Definition PSBT_IN_TAP_SCRIPT_SIG : Z := 0x14.
Definition PSBT_IN_TAP_LEAF_SCRIPT : Z := 0x15.
Definition PSBT_IN_TAP_BIP32_DERIVATION : Z := 0x16.
Definition PSBT_IN_TAP_INTERNAL_KEY : Z := 0x17.
Definition PSBT_IN_TAP_MERKLE_ROOT : Z := 0x18.
Definition PSBT_IN_PROPRIETARY : Z := 0xFC.

Section Input.
Context `{Secp256k1, TaprootKeys, !Ordered XOnly}.

(** The derived orders of the keys of its maps. *)
#[export] Instance bitcoin_key_ordered : Ordered BitcoinKey.
Proof. refine (inj_ordered (λ k, (b2z (compressed k), inner k)) _). intros [[] i] [[] j]; intros [=]; by subst. Defined.
#[export] Instance leaf_version_ordered : Ordered LeafVersion.
Proof. refine (inj_ordered (λ v, match v with TapScript => (0, 0) | Future n => (1, n) end) _). intros [] []; intros [=]; by subst. Defined.
#[export] Instance control_block_ordered : Ordered ControlBlock.
Proof.
  refine (inj_ordered (λ cb, (leaf_version cb, (b2z (cb_parity cb), (cb_internal_key cb, cb_branch cb)))) _).
  intros [? [] ? ?] [? [] ? ?]; intros [=]; by subst.
Defined.

(** [struct Input]; the maps are lists in increasing order of their keys. *)
Record PsbtInput := {
  in_non_witness_utxo : option Transaction;
  in_witness_utxo : option TxOut;
  in_partial_sigs : list (BitcoinKey * EcdsaSignature);
  in_sighash_type : option PsbtSighashType;
  in_redeem_script : option (list byte);
  in_witness_script : option (list byte);
  in_bip32_derivation : list (PublicKey * KeySource);
  in_final_script_sig : option (list byte);
  in_final_script_witness : option Witness;
  in_ripemd160_preimages : list (list byte * list byte);
  in_sha256_preimages : list (list byte * list byte);
  in_hash160_preimages : list (list byte * list byte);
  in_hash256_preimages : list (list byte * list byte);
  in_tap_key_sig : option TaprootSignature;
  in_tap_script_sigs : list ((XOnly * list byte) * TaprootSignature);
  in_tap_scripts : list (ControlBlock * (list byte * LeafVersion));
  in_tap_key_origins : list (XOnly * (list (list byte) * KeySource));
  in_tap_internal_key : option XOnly;
  in_tap_merkle_root : option (list byte);
  in_proprietary : list (ProprietaryKey * list byte);
  in_unknown : list (Key * list byte);
  in_mweb : MwebInput }.

Definition psbt_input_default : PsbtInput :=
  {| in_non_witness_utxo := None;
     in_witness_utxo := None;
     in_partial_sigs := [];
     in_sighash_type := None;
     in_redeem_script := None;
     in_witness_script := None;
     in_bip32_derivation := [];
     in_final_script_sig := None;
     in_final_script_witness := None;
     in_ripemd160_preimages := [];
     in_sha256_preimages := [];
     in_hash160_preimages := [];
     in_hash256_preimages := [];
     in_tap_key_sig := None;
     in_tap_script_sigs := [];
     in_tap_scripts := [];
     in_tap_key_origins := [];
     in_tap_internal_key := None;
     in_tap_merkle_root := None;
     in_proprietary := [];
     in_unknown := [];
     in_mweb := input_default |}.

Definition psbt_input_eta (m : PsbtInput) : PsbtInput :=
  {| in_non_witness_utxo := in_non_witness_utxo m;
     in_witness_utxo := in_witness_utxo m;
     in_partial_sigs := in_partial_sigs m;
     in_sighash_type := in_sighash_type m;
     in_redeem_script := in_redeem_script m;
     in_witness_script := in_witness_script m;
     in_bip32_derivation := in_bip32_derivation m;
     in_final_script_sig := in_final_script_sig m;
     in_final_script_witness := in_final_script_witness m;
     in_ripemd160_preimages := in_ripemd160_preimages m;
     in_sha256_preimages := in_sha256_preimages m;
     in_hash160_preimages := in_hash160_preimages m;
     in_hash256_preimages := in_hash256_preimages m;
     in_tap_key_sig := in_tap_key_sig m;
     in_tap_script_sigs := in_tap_script_sigs m;
     in_tap_scripts := in_tap_scripts m;
     in_tap_key_origins := in_tap_key_origins m;
     in_tap_internal_key := in_tap_internal_key m;
     in_tap_merkle_root := in_tap_merkle_root m;
     in_proprietary := in_proprietary m;
     in_unknown := in_unknown m;
     in_mweb := in_mweb m |}.

Definition in_non_witness_utxo_f : field PsbtInput (option Transaction) := ltac:(field_of psbt_input_eta in_non_witness_utxo).
Definition in_witness_utxo_f : field PsbtInput (option TxOut) := ltac:(field_of psbt_input_eta in_witness_utxo).
Definition in_partial_sigs_f : field PsbtInput (list (BitcoinKey * EcdsaSignature)) := ltac:(field_of psbt_input_eta in_partial_sigs).
Definition in_sighash_type_f : field PsbtInput (option PsbtSighashType) := ltac:(field_of psbt_input_eta in_sighash_type).
Definition in_redeem_script_f : field PsbtInput (option (list byte)) := ltac:(field_of psbt_input_eta in_redeem_script).
Definition in_witness_script_f : field PsbtInput (option (list byte)) := ltac:(field_of psbt_input_eta in_witness_script).
Definition in_bip32_derivation_f : field PsbtInput (list (PublicKey * KeySource)) := ltac:(field_of psbt_input_eta in_bip32_derivation).
Definition in_final_script_sig_f : field PsbtInput (option (list byte)) := ltac:(field_of psbt_input_eta in_final_script_sig).
Definition in_final_script_witness_f : field PsbtInput (option Witness) := ltac:(field_of psbt_input_eta in_final_script_witness).
Definition in_ripemd160_preimages_f : field PsbtInput (list (list byte * list byte)) := ltac:(field_of psbt_input_eta in_ripemd160_preimages).
Definition in_sha256_preimages_f : field PsbtInput (list (list byte * list byte)) := ltac:(field_of psbt_input_eta in_sha256_preimages).
Definition in_hash160_preimages_f : field PsbtInput (list (list byte * list byte)) := ltac:(field_of psbt_input_eta in_hash160_preimages).
Definition in_hash256_preimages_f : field PsbtInput (list (list byte * list byte)) := ltac:(field_of psbt_input_eta in_hash256_preimages).
Definition in_tap_key_sig_f : field PsbtInput (option TaprootSignature) := ltac:(field_of psbt_input_eta in_tap_key_sig).
Definition in_tap_script_sigs_f : field PsbtInput (list ((XOnly * list byte) * TaprootSignature)) := ltac:(field_of psbt_input_eta in_tap_script_sigs).
Definition in_tap_scripts_f : field PsbtInput (list (ControlBlock * (list byte * LeafVersion))) := ltac:(field_of psbt_input_eta in_tap_scripts).
Definition in_tap_key_origins_f : field PsbtInput (list (XOnly * (list (list byte) * KeySource))) := ltac:(field_of psbt_input_eta in_tap_key_origins).
Definition in_tap_internal_key_f : field PsbtInput (option XOnly) := ltac:(field_of psbt_input_eta in_tap_internal_key).
Definition in_tap_merkle_root_f : field PsbtInput (option (list byte)) := ltac:(field_of psbt_input_eta in_tap_merkle_root).
Definition in_proprietary_f : field PsbtInput (list (ProprietaryKey * list byte)) := ltac:(field_of psbt_input_eta in_proprietary).
Definition in_unknown_f : field PsbtInput (list (Key * list byte)) := ltac:(field_of psbt_input_eta in_unknown).
Definition in_mweb_f : field PsbtInput (MwebInput) := ltac:(field_of psbt_input_eta in_mweb).

Definition ecdsa_hash_ty (self : PsbtInput) : result NonStandardSighashTypeError EcdsaSighashType :=
  match in_sighash_type self with Some t => psbt_ecdsa_hash_ty t | None => Ok Ecdsa.All end.
Definition taproot_hash_ty (self : PsbtInput) : result InvalidSighashTypeError TapSighashType :=
  match in_sighash_type self with Some t => psbt_taproot_hash_ty t | None => Ok Tap.Default end.

(** [psbt_insert_hash_pair] for a hash function of [n] bytes. *)
Definition psbt_insert_hash_pair (hash : list byte → list byte) (n : nat) (hash_type : PsbtHash)
    (f : field PsbtInput (list (list byte * list byte))) (raw_key : Key) (raw_value : list byte) (self : PsbtInput) :
    result Error PsbtInput :=
  match key raw_key with
  | [] => Err (InvalidKey raw_key)
  | _ =>
      let? key_val := de (PsbtValue := hash_value n) (key raw_key) in
      match bmap_get key_val (get f self) with
      | None =>
          let? val := de raw_value in
          if bool_decide (hash val = key_val) then Ok (set f (bmap_insert key_val val (get f self)) self)
          else Err (InvalidPreimageHashPair hash_type val key_val)
      | Some _ => Err (DuplicateKey raw_key)
      end
  end.

(** [MWEB_INPUT_FIELD_MIN..=MWEB_INPUT_FIELD_MAX] *)
Definition is_origin (ty : Z) : bool := (ty =? MWEB_MASTER_SCAN_KEY_ORIGIN_TYPE) || (ty =? MWEB_MASTER_SPEND_KEY_ORIGIN_TYPE).

(** [insert_pair] *)
Definition input_insert_pair (pair : Pair) (self : PsbtInput) : result Error PsbtInput :=
  let raw_key := pair_key pair in
  let raw_value := Raw.value pair in
  let ty := type_value raw_key in
  if ty =? PSBT_IN_NON_WITNESS_UTXO then insert_unkeyed in_non_witness_utxo_f raw_key raw_value self
  else if ty =? PSBT_IN_WITNESS_UTXO then insert_unkeyed in_witness_utxo_f raw_key raw_value self
  else if ty =? PSBT_IN_PARTIAL_SIG then insert_keyed in_partial_sigs_f raw_key raw_value self
  else if ty =? PSBT_IN_SIGHASH_TYPE then insert_unkeyed in_sighash_type_f raw_key raw_value self
  else if ty =? PSBT_IN_REDEEM_SCRIPT then insert_unkeyed in_redeem_script_f raw_key raw_value self
  else if ty =? PSBT_IN_WITNESS_SCRIPT then insert_unkeyed in_witness_script_f raw_key raw_value self
  else if ty =? PSBT_IN_BIP32_DERIVATION then insert_keyed in_bip32_derivation_f raw_key raw_value self
  else if ty =? PSBT_IN_FINAL_SCRIPTSIG then insert_unkeyed in_final_script_sig_f raw_key raw_value self
  else if ty =? PSBT_IN_FINAL_SCRIPTWITNESS then insert_unkeyed in_final_script_witness_f raw_key raw_value self
  else if ty =? PSBT_IN_RIPEMD160 then
    psbt_insert_hash_pair Ripemd160.hash 20 PsbtRipemd in_ripemd160_preimages_f raw_key raw_value self
  else if ty =? PSBT_IN_SHA256 then psbt_insert_hash_pair sha256_hash 32 PsbtSha256 in_sha256_preimages_f raw_key raw_value self
  else if ty =? PSBT_IN_HASH160 then psbt_insert_hash_pair hash160 20 PsbtHash160 in_hash160_preimages_f raw_key raw_value self
  else if ty =? PSBT_IN_HASH256 then psbt_insert_hash_pair sha256d_hash 32 PsbtHash256 in_hash256_preimages_f raw_key raw_value self
  else if ty =? PSBT_IN_TAP_KEY_SIG then insert_unkeyed in_tap_key_sig_f raw_key raw_value self
  else if ty =? PSBT_IN_TAP_SCRIPT_SIG then insert_keyed in_tap_script_sigs_f raw_key raw_value self
  else if ty =? PSBT_IN_TAP_LEAF_SCRIPT then insert_keyed in_tap_scripts_f raw_key raw_value self
  else if ty =? PSBT_IN_TAP_BIP32_DERIVATION then insert_keyed in_tap_key_origins_f raw_key raw_value self
  else if ty =? PSBT_IN_TAP_INTERNAL_KEY then insert_unkeyed in_tap_internal_key_f raw_key raw_value self
  else if ty =? PSBT_IN_TAP_MERKLE_ROOT then insert_unkeyed (PsbtValue0 := hash_value 32) in_tap_merkle_root_f raw_key raw_value self
  else if ty =? PSBT_IN_PROPRIETARY then insert_proprietary in_proprietary_f raw_key raw_value self
  else if is_input_field ty then
    match is_origin ty, key raw_key with
    | true, [] => Err (InvalidKey raw_key)
    | false, _ :: _ => Err (InvalidKey raw_key)
    | _, k => Ok (set in_mweb_f (apply_kv_field (in_mweb self) ty k raw_value) self)
    end
  else insert_unknown in_unknown_f raw_key raw_value self.

(** [get_pairs] *)
Definition input_get_pairs (self : PsbtInput) : option (list Pair) :=
  push_all
    [push_unkeyed in_non_witness_utxo_f PSBT_IN_NON_WITNESS_UTXO self;
     push_unkeyed in_witness_utxo_f PSBT_IN_WITNESS_UTXO self;
     push_map in_partial_sigs_f PSBT_IN_PARTIAL_SIG self;
     push_unkeyed in_sighash_type_f PSBT_IN_SIGHASH_TYPE self;
     push_unkeyed in_redeem_script_f PSBT_IN_REDEEM_SCRIPT self;
     push_unkeyed in_witness_script_f PSBT_IN_WITNESS_SCRIPT self;
     push_map in_bip32_derivation_f PSBT_IN_BIP32_DERIVATION self;
     push_unkeyed in_final_script_sig_f PSBT_IN_FINAL_SCRIPTSIG self;
     push_unkeyed in_final_script_witness_f PSBT_IN_FINAL_SCRIPTWITNESS self;
     push_map (PsbtValue0 := hash_value 20) in_ripemd160_preimages_f PSBT_IN_RIPEMD160 self;
     push_map (PsbtValue0 := hash_value 32) in_sha256_preimages_f PSBT_IN_SHA256 self;
     push_map (PsbtValue0 := hash_value 20) in_hash160_preimages_f PSBT_IN_HASH160 self;
     push_map (PsbtValue0 := hash_value 32) in_hash256_preimages_f PSBT_IN_HASH256 self;
     push_unkeyed in_tap_key_sig_f PSBT_IN_TAP_KEY_SIG self;
     push_map in_tap_script_sigs_f PSBT_IN_TAP_SCRIPT_SIG self;
     push_map in_tap_scripts_f PSBT_IN_TAP_LEAF_SCRIPT self;
     push_map in_tap_key_origins_f PSBT_IN_TAP_BIP32_DERIVATION self;
     push_unkeyed in_tap_internal_key_f PSBT_IN_TAP_INTERNAL_KEY self;
     push_unkeyed (PsbtValue0 := hash_value 32) in_tap_merkle_root_f PSBT_IN_TAP_MERKLE_ROOT self;
     push_kvs (input_to_kv_pairs (in_mweb self));
     push_proprietary in_proprietary_f self;
     push_unknown in_unknown_f self].

(** [serialize_map] and [decode] *)
Definition psbt_input_serialize (self : PsbtInput) : option (list byte) := ps ← input_get_pairs self; serialize_pairs ps.
Definition psbt_input_decode : prd PsbtInput := decode_map input_insert_pair psbt_input_default.

(** A witness output replaces the transaction. *)
Definition combine_witness_utxo (self other : PsbtInput) : PsbtInput :=
  match in_witness_utxo self, in_witness_utxo other with
  | None, Some witness_utxo => set in_non_witness_utxo_f None (set in_witness_utxo_f (Some witness_utxo) self)
  | _, _ => self
  end.

(** [Input::combine]: the type of the signatures is that of the first. *)
Definition psbt_input_combine (self other : PsbtInput) : PsbtInput :=
  let self := combine_field in_non_witness_utxo_f self other in
  let self := combine_witness_utxo self other in
  let self := extend_field in_partial_sigs_f self other in
  let self := extend_field in_bip32_derivation_f self other in
  let self := extend_field in_ripemd160_preimages_f self other in
  let self := extend_field in_sha256_preimages_f self other in
  let self := extend_field in_hash160_preimages_f self other in
  let self := extend_field in_hash256_preimages_f self other in
  let self := extend_field in_tap_script_sigs_f self other in
  let self := extend_field in_tap_scripts_f self other in
  let self := extend_field in_tap_key_origins_f self other in
  let self := extend_field in_proprietary_f self other in
  let self := extend_field in_unknown_f self other in
  let self := set in_mweb_f (input_combine (in_mweb self) (in_mweb other)) self in
  let self := combine_field in_redeem_script_f self other in
  let self := combine_field in_witness_script_f self other in
  let self := combine_field in_final_script_sig_f self other in
  let self := combine_field in_final_script_witness_f self other in
  let self := combine_field in_tap_key_sig_f self other in
  let self := combine_field in_tap_internal_key_f self other in
  combine_field in_tap_merkle_root_f self other.

(** The types that [insert_pair] knows. *)
Definition input_types : list Z :=
  [PSBT_IN_NON_WITNESS_UTXO; PSBT_IN_WITNESS_UTXO; PSBT_IN_PARTIAL_SIG; PSBT_IN_SIGHASH_TYPE; PSBT_IN_REDEEM_SCRIPT;
   PSBT_IN_WITNESS_SCRIPT; PSBT_IN_BIP32_DERIVATION; PSBT_IN_FINAL_SCRIPTSIG; PSBT_IN_FINAL_SCRIPTWITNESS; PSBT_IN_RIPEMD160;
   PSBT_IN_SHA256; PSBT_IN_HASH160; PSBT_IN_HASH256; PSBT_IN_TAP_KEY_SIG; PSBT_IN_TAP_SCRIPT_SIG; PSBT_IN_TAP_LEAF_SCRIPT;
   PSBT_IN_TAP_BIP32_DERIVATION; PSBT_IN_TAP_INTERNAL_KEY; PSBT_IN_TAP_MERKLE_ROOT; PSBT_IN_PROPRIETARY].
Definition input_known (ty : Z) : bool := existsb (Z.eqb ty) input_types || is_input_field ty.

(** The preimages of a map match the hashes. *)
Definition preimages_wf (hash : list byte → list byte) (n : nat) (l : list (list byte * list byte)) : Prop :=
  bmap_wf l ∧ Forall (λ e, length (fst e) = n ∧ hash (snd e) = fst e) l.

(** What a decoder makes, and what is written and read back. *)
Record psbt_input_wf (m : PsbtInput) : Prop := {
  iwf_non_witness : ∀ t, in_non_witness_utxo m = Some t → tx_wf t;
  iwf_witness_utxo : ∀ o, in_witness_utxo m = Some o → txout_wf o;
  iwf_sigs : bmap_wf (in_partial_sigs m);
  iwf_sighash : ∀ t, in_sighash_type m = Some t → sighash_type_wf t;
  iwf_derivation : bmap_wf (in_bip32_derivation m) ∧ Forall (λ e, key_source_wf (snd e)) (in_bip32_derivation m);
  iwf_witness : ∀ w, in_final_script_witness m = Some w → witness_wf w;
  iwf_ripemd : preimages_wf Ripemd160.hash 20 (in_ripemd160_preimages m);
  iwf_sha256 : preimages_wf sha256_hash 32 (in_sha256_preimages m);
  iwf_hash160 : preimages_wf hash160 20 (in_hash160_preimages m);
  iwf_hash256 : preimages_wf sha256d_hash 32 (in_hash256_preimages m);
  iwf_script_sigs : bmap_wf (in_tap_script_sigs m) ∧ Forall (λ e, length (snd (fst e)) = 32%nat) (in_tap_script_sigs m);
  iwf_scripts : bmap_wf (in_tap_scripts m) ∧
    Forall (λ e, control_block_wf (fst e) ∧ leaf_version_wf (snd (snd e))) (in_tap_scripts m);
  iwf_origins : bmap_wf (in_tap_key_origins m) ∧ Forall (λ e, key_origin_wf (snd e)) (in_tap_key_origins m);
  iwf_root : ∀ h, in_tap_merkle_root m = Some h → length h = 32%nat;
  iwf_proprietary : bmap_wf (in_proprietary m) ∧ Forall (λ e, prop_key_wf (fst e)) (in_proprietary m);
  iwf_unknown : bmap_wf (in_unknown m) ∧ Forall (λ e, input_known (type_value (fst e)) = false) (in_unknown m);
  iwf_mweb : mweb_input_wf (in_mweb m) }.

End Input.

Section InputLaws.
Context `{Secp256k1Laws, !PublicKeyLaws, TaprootKeyLaws, !Ordered XOnly}.

(** *** Preimages *)

Lemma segment_preimages hash n hash_type ty f m acc :
  FieldLaws f → handles input_insert_pair ty (psbt_insert_hash_pair hash n hash_type f) → (0 < n)%nat →
  preimages_wf hash n (get f m) → get f acc = [] →
  segment input_insert_pair (push_map (PsbtValue0 := hash_value n) f ty m) acc (set f (get f m) acc).
Proof.
  intros Hf Hh Hn [Hm Hp] Hacc. unfold push_map. eapply (segment_entries _ f); [done..|].
  intros h v Hin. rewrite Forall_forall in Hp. destruct (Hp (h, v) Hin) as [Hl Hv]. cbn [fst snd] in *.
  eexists. split; [done|]. intros m' Hg. rewrite Hh by done. unfold psbt_insert_hash_pair. cbn [key].
  destruct h as [|b h]; [cbn in Hl; lia|]. cbn [de hash_value]. rewrite Hl, Nat.eqb_refl. cbn [result_bind]. rewrite Hg.
  cbn [de bytes_value result_bind]. by rewrite bool_decide_true.
Qed.

Lemma psbt_insert_hash_pair_ok hash n hash_type f k v m m' :
  psbt_insert_hash_pair hash n hash_type f k v m = Ok m' →
  ∃ h, length h = n ∧ hash v = h ∧ bmap_get h (get f m) = None ∧ m' = set f (bmap_insert h v (get f m)) m.
Proof.
  unfold psbt_insert_hash_pair. destruct (key k) as [|b kb] eqn:Ek; [done|]. rewrite <- Ek. clear Ek. cbn [de hash_value bytes_value].
  destruct (Nat.eqb_spec (length (key k)) n) as [Hl|]; [|done]. cbn [result_bind]. destruct (bmap_get _ _) eqn:Hg; [done|].
  case_bool_decide as Hv; [|done]. intros [= <-]. by exists (key k).
Qed.

Lemma preimages_insert hash n h v l :
  length h = n → hash v = h → preimages_wf hash n l → preimages_wf hash n (bmap_insert h v l).
Proof. intros Hl Hv [Hm Hp]. by apply bmap_insert_inv. Qed.

(** *** The dispatch *)

Lemma input_field_range ty : is_input_field ty = true ↔ 0x90 <= ty <= 0x9c.
Proof. unfold is_input_field. rewrite andb_true_iff, !Z.leb_le. done. Qed.

Lemma input_insert_skip k v m :
  existsb (Z.eqb (type_value k)) input_types = false →
  input_insert_pair {| pair_key := k; Raw.value := v |} m =
  if is_input_field (type_value k) then
    match is_origin (type_value k), key k with
    | true, [] => Err (InvalidKey k)
    | false, _ :: _ => Err (InvalidKey k)
    | _, kd => Ok (set in_mweb_f (apply_kv_field (in_mweb m) (type_value k) kd v) m)
    end
  else insert_unknown in_unknown_f k v m.
Proof.
  unfold input_types. cbn [existsb]. rewrite !orb_false_iff. intros Hall. unfold input_insert_pair. cbn [pair_key Raw.value].
  repeat match type of Hall with ?a = false ∧ _ => let Ha := fresh in destruct Hall as [Ha Hall]; rewrite Ha; clear Ha end. done.
Qed.

Lemma input_kv_types m :
  Forall (λ e : kv, is_input_field (fst (fst e)) = true ∧ (is_origin (fst (fst e)) = true ↔ snd (fst e) ≠ [])) (input_to_kv_pairs m).
Proof.
  unfold input_to_kv_pairs. repeat (apply Forall_app; split);
    match goal with |- Forall _ (opt_kv _ _ ?o) => destruct o as [a|]; [|constructor] end; constructor; try constructor; try done.
  all: split; [intros Ho He|intros Hne]; try done.
  all: cbn [opt_kv fst snd origin_kv] in He; pose proof (pk_length (fst a)) as Hl; by rewrite He in Hl.
Qed.

Lemma input_insert_mweb e m :
  is_input_field (fst (fst e)) = true ∧ (is_origin (fst (fst e)) = true ↔ snd (fst e) ≠ []) →
  input_insert_pair (kv_pair e) m = Ok (set in_mweb_f (input_apply (get in_mweb_f m) e) m).
Proof.
  destruct e as [[ty kd] v]. cbn [fst snd]. intros [Hty Ho]. unfold kv_pair. cbn [fst snd]. rewrite input_insert_skip.
  - cbn [type_value key]. rewrite Hty. unfold input_apply. cbn [fst snd]. destruct (is_origin ty), kd; try done.
    + by destruct (proj1 Ho eq_refl).
    + exfalso. assert (false = true) by (by apply Ho). done.
  - apply input_field_range in Hty. cbn [type_value]. unfold input_types. cbn [existsb].
    rewrite !orb_false_iff, !Z.eqb_neq. cbv. lia.
Qed.

Lemma input_insert_unknown k v m :
  input_known (type_value k) = false →
  input_insert_pair {| pair_key := k; Raw.value := v |} m = insert_unknown in_unknown_f k v m.
Proof. unfold input_known. intros [Ht Hf]%orb_false_iff. rewrite input_insert_skip by done. by rewrite Hf. Qed.

(** Keys that are not empty. *)
Lemma bitcoin_key_ser_some (k : BitcoinKey) : ser k ≠ Some [].
Proof.
  change (ser k) with (Some (key_serialized k)). intros [= He]. unfold key_serialized in He. destruct (compressed k).
  - pose proof (pk_length (inner k)) as Hl. by rewrite He in Hl.
  - destruct (pk_uncompressed (inner k)) as (bs & Hb & _). by rewrite He in Hb.
Qed.
Lemma xonly_leaf_ser_some (k : XOnly * list byte) : ser k ≠ Some [].
Proof. intros [= He]. pose proof (xonly_length (fst k)) as Hl. apply app_eq_nil in He as [He _]. by rewrite He in Hl. Qed.
Lemma control_block_ser_some (cb : ControlBlock) : ser cb ≠ Some [].
Proof.
  cbn [ser control_block_value]. unfold control_block_serialize, control_block_encode. cbn [w_bytes w_bind w_ret].
  by destruct (branch_encode (cb_branch cb)) as [[]|].
Qed.

(** The pairs of a well-formed input are inserted one after the other. *)
Lemma input_pairs_segment m :
  psbt_input_wf m → segment input_insert_pair (input_get_pairs m) psbt_input_default m.
Proof.
  intros [Ht Ho Hs Hsty [Hd1 Hd2] Hw Hr Hsha Hh160 Hh256 [Hss1 Hss2] [Hsc1 Hsc2] [Ho1 Ho2] Hroot [Hp1 Hp2] [Hu1 Hu2] Hm].
  enough (segment input_insert_pair (input_get_pairs m) psbt_input_default
    (set in_unknown_f (in_unknown m) (set in_proprietary_f (in_proprietary m) (set in_mweb_f (in_mweb m)
    (set in_tap_merkle_root_f (in_tap_merkle_root m) (set in_tap_internal_key_f (in_tap_internal_key m) (set in_tap_key_origins_f (in_tap_key_origins m)
    (set in_tap_scripts_f (in_tap_scripts m) (set in_tap_script_sigs_f (in_tap_script_sigs m) (set in_tap_key_sig_f (in_tap_key_sig m)
    (set in_hash256_preimages_f (in_hash256_preimages m) (set in_hash160_preimages_f (in_hash160_preimages m) (set in_sha256_preimages_f (in_sha256_preimages m)
    (set in_ripemd160_preimages_f (in_ripemd160_preimages m) (set in_final_script_witness_f (in_final_script_witness m) (set in_final_script_sig_f (in_final_script_sig m)
    (set in_bip32_derivation_f (in_bip32_derivation m) (set in_witness_script_f (in_witness_script m) (set in_redeem_script_f (in_redeem_script m)
    (set in_sighash_type_f (in_sighash_type m) (set in_partial_sigs_f (in_partial_sigs m) (set in_witness_utxo_f (in_witness_utxo m)
    (set in_non_witness_utxo_f (in_non_witness_utxo m) psbt_input_default))))))))))))))))))))))) as Hseg by (by destruct m).
  unfold input_get_pairs.
  eapply segment_cons; [seg_unkeyed; exact Ht|]. eapply segment_cons; [seg_unkeyed; exact Ho|].
  eapply segment_cons; [seg_map; [apply bitcoin_key_ser_some|by apply Forall_true]|].
  eapply segment_cons; [seg_unkeyed; exact Hsty|]. do 2 (eapply segment_cons; [seg_unkeyed; done|]).
  eapply segment_cons; [seg_map; [apply pk_ser_some|eapply Forall_impl; [exact Hd2|done]]|].
  eapply segment_cons; [seg_unkeyed; done|]. eapply segment_cons; [seg_unkeyed; exact Hw|].
  do 4 (eapply segment_cons; [eapply segment_preimages; [field_laws|handled|lia|eassumption|reflexivity]|]).
  eapply segment_cons; [seg_unkeyed; done|].
  eapply segment_cons; [seg_map; [apply xonly_leaf_ser_some|eapply Forall_impl; [exact Hss2|done]]|].
  eapply segment_cons; [seg_map; [apply control_block_ser_some|exact Hsc2]|].
  eapply segment_cons; [seg_map; [apply xonly_ser_some|eapply Forall_impl; [exact Ho2|done]]|].
  eapply segment_cons; [seg_unkeyed; done|].
  eapply segment_cons; [eapply segment_unkeyed; [apply hash_roundtrip|field_laws|handled|exact Hroot|reflexivity]|].
  eapply segment_cons.
  { eapply (segment_kvs_back _ in_mweb_f input_apply); [field_laws| |reflexivity|by apply input_pairs_back].
    intros e m' He. apply input_insert_mweb. revert e He. apply Forall_forall, input_kv_types. }
  eapply segment_cons; [apply (segment_proprietary _ in_proprietary_f); [field_laws|handled|done..]|].
  eapply segment_cons; [|apply segment_nil].
  apply (segment_unknown _ in_unknown_f); [field_laws|done..|]. intros k v Hin m'. apply input_insert_unknown.
  rewrite Forall_forall in Hu2. exact (Hu2 _ Hin).
Qed.

(** What [insert_pair] leaves well formed, one operation after the other. *)
Ltac insert_case :=
  lazymatch goal with
  | |- insert_unkeyed _ _ _ _ = _ → _ =>
      intros (_ & _ & x & Hx & ->)%insert_unkeyed_ok; split; try done; intros ? [= <-]; exact (de_wf _ _ Hx)
  | |- insert_keyed _ _ _ _ = _ → _ =>
      intros (x & y & Hx & Hy & _ & ->)%insert_keyed_ok; apply de_wf in Hx; apply de_wf in Hy;
      split; try done; first [by apply bmap_insert_inv|by apply bmap_insert_wf]
  | |- insert_proprietary _ _ _ _ = _ → _ =>
      intros (x & Hx & _ & ->)%insert_proprietary_ok; apply try_from_key_wf in Hx; split; try done; by apply bmap_insert_inv
  | |- psbt_insert_hash_pair _ _ _ _ _ _ _ = _ → _ =>
      intros (h & Hl & Hh & _ & ->)%psbt_insert_hash_pair_ok; split; try done; by apply preimages_insert
  end.

Lemma le_combine_urange n v w : length v = n → w = 8 * Z.of_nat n → urange w (le_combine v).
Proof. intros <- ->. apply le_combine_bound. Qed.

Lemma apply_kv_field_wf m ty kd v : mweb_input_wf m → mweb_input_wf (apply_kv_field m ty kd v).
Proof.
  intros Hm. unfold apply_kv_field, set_origin. cbv zeta. repeat case_match; try exact Hm.
  all: destruct Hm; split; try done; intros ? [= <-]; try bool_lia; cbn [snd].
  1-2: eapply le_combine_urange; [by apply Nat.eqb_eq|reflexivity].
  all: by eapply key_source_de_wf.
Qed.

Lemma input_insert_wf p m m' : psbt_input_wf m → input_insert_pair p m = Ok m' → psbt_input_wf m'.
Proof.
  intros [Ht Ho Hs Hsty Hd Hw Hr Hsha Hh160 Hh256 Hss Hsc Hor Hroot Hp Hu Hm]. destruct p as [k v].
  unfold input_insert_pair. cbn [pair_key Raw.value].
  do 20 match goal with |- (if type_value k =? ?c then _ else _) = _ → _ =>
    destruct (Z.eqb_spec (type_value k) c); [insert_case|] end.
  destruct (is_input_field (type_value k)) eqn:Hf.
  - destruct (is_origin _), (key k); try done; intros [= <-]; split; try done; by apply apply_kv_field_wf.
  - intros (_ & ->)%insert_unknown_ok. split; try done. apply bmap_insert_inv; [|done]. unfold input_known, input_types. cbn [fst existsb].
    by rewrite !(proj2 (Z.eqb_neq _ _)), Hf by done.
Qed.

(** *** Combination *)

(** Taking the witness output of the other removes the transaction. *)
Definition non_witness_or (a b : PsbtInput) : option Transaction :=
  match in_witness_utxo a, in_witness_utxo b with
  | None, Some _ => None
  | _, _ => in_non_witness_utxo a ∪ in_non_witness_utxo b
  end.

Definition psbt_input_or (a b : PsbtInput) : PsbtInput :=
  {| in_non_witness_utxo := non_witness_or a b;
     in_witness_utxo := in_witness_utxo a ∪ in_witness_utxo b;
     in_partial_sigs := bmap_extend (in_partial_sigs a) (in_partial_sigs b);
     in_sighash_type := in_sighash_type a;
     in_redeem_script := in_redeem_script a ∪ in_redeem_script b;
     in_witness_script := in_witness_script a ∪ in_witness_script b;
     in_bip32_derivation := bmap_extend (in_bip32_derivation a) (in_bip32_derivation b);
     in_final_script_sig := in_final_script_sig a ∪ in_final_script_sig b;
     in_final_script_witness := in_final_script_witness a ∪ in_final_script_witness b;
     in_ripemd160_preimages := bmap_extend (in_ripemd160_preimages a) (in_ripemd160_preimages b);
     in_sha256_preimages := bmap_extend (in_sha256_preimages a) (in_sha256_preimages b);
     in_hash160_preimages := bmap_extend (in_hash160_preimages a) (in_hash160_preimages b);
     in_hash256_preimages := bmap_extend (in_hash256_preimages a) (in_hash256_preimages b);
     in_tap_key_sig := in_tap_key_sig a ∪ in_tap_key_sig b;
     in_tap_script_sigs := bmap_extend (in_tap_script_sigs a) (in_tap_script_sigs b);
     in_tap_scripts := bmap_extend (in_tap_scripts a) (in_tap_scripts b);
     in_tap_key_origins := bmap_extend (in_tap_key_origins a) (in_tap_key_origins b);
     in_tap_internal_key := in_tap_internal_key a ∪ in_tap_internal_key b;
     in_tap_merkle_root := in_tap_merkle_root a ∪ in_tap_merkle_root b;
     in_proprietary := bmap_extend (in_proprietary a) (in_proprietary b);
     in_unknown := bmap_extend (in_unknown a) (in_unknown b);
     in_mweb := input_or (in_mweb a) (in_mweb b) |}.

Lemma combine_witness_utxo_eq a b :
  combine_witness_utxo a b =
  set in_non_witness_utxo_f
    (match in_witness_utxo a, in_witness_utxo b with None, Some _ => None | _, _ => in_non_witness_utxo a end)
    (set in_witness_utxo_f (in_witness_utxo a ∪ in_witness_utxo b) a).
Proof. unfold combine_witness_utxo. destruct a as [? [?|]], b as [? [?|]]; reflexivity. Qed.

Lemma psbt_input_combine_eq a b : psbt_input_combine a b = psbt_input_or a b.
Proof.
  unfold psbt_input_combine. cbv zeta. rewrite !combine_field_eq by field_laws. rewrite combine_witness_utxo_eq, input_combine_or. reflexivity.
Qed.

(** The maps are in order. *)
Record input_maps_wf (m : PsbtInput) : Prop := {
  imw_partial_sigs : bmap_wf (in_partial_sigs m);
  imw_bip32_derivation : bmap_wf (in_bip32_derivation m);
  imw_ripemd160_preimages : bmap_wf (in_ripemd160_preimages m);
  imw_sha256_preimages : bmap_wf (in_sha256_preimages m);
  imw_hash160_preimages : bmap_wf (in_hash160_preimages m);
  imw_hash256_preimages : bmap_wf (in_hash256_preimages m);
  imw_tap_script_sigs : bmap_wf (in_tap_script_sigs m);
  imw_tap_scripts : bmap_wf (in_tap_scripts m);
  imw_tap_key_origins : bmap_wf (in_tap_key_origins m);
  imw_proprietary : bmap_wf (in_proprietary m);
  imw_unknown : bmap_wf (in_unknown m) }.

Lemma psbt_input_combine_idem m : input_maps_wf m → psbt_input_combine m m = m.
Proof.
  intros []. rewrite psbt_input_combine_eq. destruct m as [].
  unfold psbt_input_or, input_or, non_witness_or. cbn -[union bmap_extend] in *.
  f_equal; rewrite ?option_or_idem; try done; try (by apply bmap_extend_idem).
  all: match goal with
       | |- match ?w with _ => _ end = _ => by destruct w
       | |- _ = ?v => destruct v; cbn -[union]; f_equal; by rewrite ?option_or_idem
       end.
Qed.

(** ** Theorems *)

(** C26: A well-formed input map is written as pairs that are inserted back one after the
    other, so that it is decoded from what is serialised, whatever follows, as long as
    its pairs have the sizes that a decoder takes; and all that is decoded is well formed, the preimages matching their hashes, and comes from pairs,
    each read once, up to the zero byte. *)
Theorem input_map_codec (m : PsbtInput) (s rest : list byte) :
  (psbt_input_wf m →
   ∃ ps, input_get_pairs m = Some ps ∧
     (Forall pair_wf ps → ∃ bs, psbt_input_serialize m = Some bs ∧ ∀ rest, psbt_input_decode (bs ++ rest) = Ok (m, rest))) ∧
  (psbt_input_decode s = Ok (m, rest) →
   psbt_input_wf m ∧
   ∃ ps, Forall pair_wf ps ∧ s = map_bytes ps ++ rest ∧ insert_all input_insert_pair ps psbt_input_default = Ok m).
Proof.
  split.
  - intros Hm. exact (segment_roundtrip _ _ _ _ (input_pairs_segment m Hm)).
  - apply decode_map_invariant; [by split|]. intros p m1 m2 Hm _. by apply input_insert_wf.
Qed.

(** Combining two maps of an input keeps the fields that are there and adds those that
    are missing, and joins the collections: combining with the empty map or with itself
    changes nothing, and apart from the transaction spent, three maps combine to the same
    in both groupings. That transaction is dropped when the witness output is taken from
    the other map, so that it depends on the grouping. *)
Theorem input_combine_laws (a b c : PsbtInput) :
  input_maps_wf a → input_maps_wf b → input_maps_wf c →
  let abc := psbt_input_combine (psbt_input_combine a b) c in
  let abc' := psbt_input_combine a (psbt_input_combine b c) in
  psbt_input_combine a psbt_input_default = a ∧ psbt_input_combine a a = a ∧
  set in_non_witness_utxo_f None abc' = set in_non_witness_utxo_f None abc ∧
  (in_witness_utxo a = None → is_Some (in_witness_utxo b) →
   in_non_witness_utxo (psbt_input_combine a b) = None ∧ in_non_witness_utxo abc = in_non_witness_utxo c ∧
   in_non_witness_utxo abc' = None) ∧
  input_maps_wf (psbt_input_combine a b).
Proof.
  intros [] [] []. cbv zeta. rewrite !psbt_input_combine_eq. split_and!.
  5: by split; apply bmap_extend_wf.
  4: { unfold psbt_input_or, non_witness_or. cbn -[union]. intros -> [u ->]. split_and!; [done| |by destruct (in_witness_utxo c)].
       change (None ∪ Some u) with (Some u). cbn -[union]. by rewrite option_none_or. }
  all: destruct a; unfold psbt_input_or, input_or, psbt_input_default, input_default, non_witness_or; cbn -[union bmap_extend] in *.
  all: f_equal; rewrite ?option_or_none, ?option_or_idem, ?option_or_assoc; try done.
  all: try (by apply bmap_extend_idem); try (by apply bmap_extend_assoc).
  all: match goal with
       | |- match ?w with _ => _ end = _ => by destruct w
       | |- _ = ?v => try (is_var v; destruct v); cbn -[union]; f_equal; by rewrite ?option_or_none, ?option_or_idem, ?option_or_assoc
       end.
Qed.
End InputLaws.

#[local] Existing Instances PlainSecp.plain_keys PlainSecp.plain_keys_laws PlainSecp.plain_secp PlainSecp.plain_secp_laws.
#[local] Existing Instances PlainTaprootKeys.keys PlainTaprootKeys.keys_laws.

#[local] Existing Instance plain_xonly_ordered.

(** The hash of the bytes 1 and 2. *)
Definition sample_hash : list byte :=
  [xa1; x28; x71; xfe; xe2; x10; xfb; x86; x19; x29; x1e; xae; xa1; x94; x58; x1c; xbd; x25; x31; xe4; xb2; x37;
    x59; xd2; x25; xf6; x80; x69; x23; xf6; x32; x22].

(** A spent output with its redeem script, the preimage of a hash, the tree it commits
    to, and a pair of the extension block. *)
Definition sample_psbt_input : PsbtInput :=
  set in_witness_utxo_f (Some {| Transaction.value := 5000; script_pubkey := [x51] |}) (set in_sighash_type_f (Some {| sighash_inner := 1 |})
    (set in_redeem_script_f (Some [x51]) (set in_sha256_preimages_f [(sample_hash, [x01; x02])]
       (set in_tap_merkle_root_f (Some (replicate 32 x05)) (set in_mweb_f (set mi_amount_f (Some 7) input_default) psbt_input_default))))).
Definition sample_non_witness : PsbtInput :=
  set in_non_witness_utxo_f (Some {| Transaction.version := 2; lock_time := Absolute.Blocks 0; input := []; output := []; mw_tx := None; is_hog_ex := false |}) psbt_input_default.

Lemma input_combine_laws_witness :
  in_non_witness_utxo (psbt_input_combine sample_non_witness (psbt_input_combine sample_psbt_input sample_non_witness)) = None.
Proof.
  destruct (input_combine_laws sample_non_witness sample_psbt_input sample_non_witness) as (_ & _ & _ & Hu & _); [by split..|].
  destruct (Hu eq_refl ltac:(by eexists)) as (_ & _ & Hn). exact Hn.
Defined.

Lemma sample_psbt_input_wf : psbt_input_wf sample_psbt_input.
Proof.
  split; try (by split); try done; try (by intros ? [= <-]).
  - split; [by split|]. constructor; [|constructor]. split; [reflexivity|]. by vm_compute.
  - split; try done; by intros ? [= <-].
Qed.

Lemma input_map_codec_witness :
  ∃ bs, psbt_input_serialize sample_psbt_input = Some bs ∧ ∀ rest, psbt_input_decode (bs ++ rest) = Ok (sample_psbt_input, rest).
Proof.
  destruct (proj1 (input_map_codec sample_psbt_input [] []) sample_psbt_input_wf) as (ps & Hps & Hwf).
  apply Hwf. vm_compute in Hps. injection Hps as <-. repeat constructor; done.
Defined.
