(* ===== verification/PsbtGlobal.v ===== *)
(** The global map of a partially signed transaction
    ([src/litecoin/src/psbt/map/global.rs], with [Psbt] of [psbt/mod.rs] and
    [ensure_index] of [psbt/mweb/mod.rs]): its pairs, and how it is decoded. *)

From S2P Require Import Witness.
From Stdlib Require Import String ZArith Lia ZifyBool.
From stdpp Require Import base list.
From Stdlib Require Import Init.Byte.
From coqutil Require Import Byte Word.LittleEndianList.
From S2P Require Import Prelude Io Ordered HashEngine Sha256 Encode Mimblewimble Locktime Transaction Script Templates.
From S2P Require Import Taproot Sighash Keys Bip32 Psbt PsbtValues PsbtMweb PsbtOutput PsbtInput.
Import Raw.

Definition PSBT_GLOBAL_UNSIGNED_TX : Z := 0x00.
Definition PSBT_GLOBAL_XPUB : Z := 0x01.
Definition PSBT_GLOBAL_VERSION : Z := 0xFB.
Definition PSBT_GLOBAL_PROPRIETARY : Z := 0xFC.

(** [while vec.len() <= index { vec.push(T::default()) }] *)
Definition ensure_index {T} (d : T) (index : nat) (vec : list T) : list T := vec ++ replicate (S index - length vec) d.

Section Global.
Context `{Secp256k1, TaprootKeys, !Ordered XOnly}.

(** The derived order of extended keys. *)
#[export] Instance network_ordered : Ordered NetworkKind.
Proof. refine (inj_ordered (λ n, match n with Main => 0 | Test => 1 end) _). intros [] []; intros [=]; done. Defined.
#[export] Instance child_ordered : Ordered ChildNumber.
Proof. refine (inj_ordered (λ c, match c with Normal i => (0, i) | Hardened i => (1, i) end) _). intros [] []; intros [=]; by subst. Defined.
#[export] Instance xpub_ordered : Ordered Xpub.
Proof.
  refine (inj_ordered (λ k, (xpub_network k, (xpub_depth k, (xpub_parent k, (xpub_child k, (public_key k, xpub_chain k)))))) _).
  intros [] []; intros [=]; by subst.
Defined.

(** [struct Psbt] *)
Record Psbt := {
  unsigned_tx : Transaction; psbt_version : Z; psbt_xpub : list (Xpub * KeySource);
  psbt_proprietary : list (ProprietaryKey * list byte); psbt_unknown : list (Key * list byte);
  psbt_inputs : list PsbtInput; psbt_outputs : list PsbtOutput;
  mweb_tx_offset : option (list byte); mweb_stealth_offset : option (list byte);
  mweb_kernels : list MwebKernel; mweb_inputs : list MwebInput; mweb_outputs : list MwebOutput }.

Definition psbt_eta (m : Psbt) : Psbt :=
  {| unsigned_tx := unsigned_tx m; psbt_version := psbt_version m; psbt_xpub := psbt_xpub m;
     psbt_proprietary := psbt_proprietary m; psbt_unknown := psbt_unknown m; psbt_inputs := psbt_inputs m;
     psbt_outputs := psbt_outputs m; mweb_tx_offset := mweb_tx_offset m; mweb_stealth_offset := mweb_stealth_offset m;
     mweb_kernels := mweb_kernels m; mweb_inputs := mweb_inputs m; mweb_outputs := mweb_outputs m |}.

Definition psbt_version_f : field Psbt Z := ltac:(field_of psbt_eta psbt_version).
Definition psbt_xpub_f : field Psbt (list (Xpub * KeySource)) := ltac:(field_of psbt_eta psbt_xpub).
Definition psbt_proprietary_f : field Psbt (list (ProprietaryKey * list byte)) := ltac:(field_of psbt_eta psbt_proprietary).
Definition psbt_unknown_f : field Psbt (list (Key * list byte)) := ltac:(field_of psbt_eta psbt_unknown).
Definition psbt_inputs_f : field Psbt (list PsbtInput) := ltac:(field_of psbt_eta psbt_inputs).
Definition psbt_outputs_f : field Psbt (list PsbtOutput) := ltac:(field_of psbt_eta psbt_outputs).
Definition mweb_tx_offset_f : field Psbt (option (list byte)) := ltac:(field_of psbt_eta mweb_tx_offset).
Definition mweb_stealth_offset_f : field Psbt (option (list byte)) := ltac:(field_of psbt_eta mweb_stealth_offset).
Definition mweb_kernels_f : field Psbt (list MwebKernel) := ltac:(field_of psbt_eta mweb_kernels).
Definition mweb_inputs_f : field Psbt (list MwebInput) := ltac:(field_of psbt_eta mweb_inputs).
Definition mweb_outputs_f : field Psbt (list MwebOutput) := ltac:(field_of psbt_eta mweb_outputs).

(** ** The pairs *)

(** [encode::serialize]; [None] is its panic. *)
Definition serialized {A} (c : codec A) (x : A) : option (list byte) :=
  match Encode.serialize c x with Ok bs => Some bs | Err _ => None end.

(** Written field by field, so that there is no witness. *)
Definition unsigned_tx_serialize (t : Transaction) : option (list byte) :=
  v ← serialized i32 (Transaction.version t);
  i ← serialized (vec txin_codec) (input t);
  o ← serialized (vec txout_codec) (output t);
  l ← serialized Absolute.lock_time_codec (lock_time t);
  Some (v ++ i ++ o ++ l).

Definition plain_pair (ty : Z) (v : list byte) : Pair := {| pair_key := {| type_value := ty; key := [] |}; Raw.value := v |}.

Definition push_tx (t : Transaction) : option (list Pair) :=
  v ← unsigned_tx_serialize t; Some [plain_pair PSBT_GLOBAL_UNSIGNED_TX v].

Definition push_xpubs (l : list (Xpub * KeySource)) : option (list Pair) :=
  mapM (λ '(xpub, ks),
    Some {| pair_key := {| type_value := PSBT_GLOBAL_XPUB; key := xpub_encode xpub |}; Raw.value := key_source_ser ks |}) l.

Definition push_version (v : Z) : option (list Pair) :=
  Some (if 0 <? v then [plain_pair PSBT_GLOBAL_VERSION (le_split 4 v)] else []).

Definition push_offset (ty : Z) (o : option (list byte)) : option (list Pair) :=
  Some (match o with Some off => [plain_pair ty off] | None => [] end).

Definition push_count {A} (l : list A) : option (list Pair) :=
  Some (match l with [] => [] | _ => [plain_pair MWEB_KERNEL_COUNT_TYPE (le_split 4 (uwrap 32 (Z.of_nat (length l))))] end).

(** The maps of the extension block, one after the other: the index of each is in the keys. *)
Definition index_bytes (i : nat) : list byte := le_split 4 (uwrap 32 (Z.of_nat i)).
Definition push_indexed {W} (mk : nat → kv → Pair) (to_kvs : W → list kv) (ws : list W) : option (list Pair) :=
  Some (concat (imap (λ i w, map (mk i) (to_kvs w)) ws)).

Definition kernel_pair (i : nat) (e : kv) : Pair :=
  {| pair_key := {| type_value := MWEB_GLOBAL_KERNEL_FIELD_TYPE;
                    key := index_bytes i ++ byte.of_Z (fst (fst e)) :: snd (fst e) |}; Raw.value := snd e |}.
Definition input_pair (i : nat) (e : kv) : Pair :=
  {| pair_key := {| type_value := fst (fst e); key := index_bytes i ++ snd (fst e) |}; Raw.value := snd e |}.
Definition output_pair (i : nat) (e : kv) : Pair :=
  {| pair_key := {| type_value := MWEB_GLOBAL_OUTPUT_FIELD_TYPE; key := index_bytes i ++ [byte.of_Z (fst (fst e))] |};
     Raw.value := snd e |}.

(** [get_pairs] *)
Definition global_get_pairs (self : Psbt) : option (list Pair) :=
  push_all
    [push_tx (unsigned_tx self);
     push_xpubs (psbt_xpub self);
     push_version (psbt_version self);
     push_offset MWEB_TX_OFFSET_TYPE (mweb_tx_offset self);
     push_offset MWEB_TX_STEALTH_OFFSET_TYPE (mweb_stealth_offset self);
     push_count (mweb_kernels self);
     push_indexed kernel_pair kernel_to_kv_pairs (mweb_kernels self);
     push_indexed input_pair input_to_kv_pairs (mweb_inputs self);
     push_indexed output_pair Output.to_pairs (mweb_outputs self);
     push_proprietary psbt_proprietary_f self;
     push_unknown psbt_unknown_f self].

Definition global_serialize (self : Psbt) : option (list byte) := ps ← global_get_pairs self; serialize_pairs ps.

(** ** Decoding *)

(** The variables of [decode_global]. *)
Record Globals := {
  gl_tx : option Transaction; gl_version : option Z; gl_xpub : list (Xpub * KeySource);
  gl_proprietary : list (ProprietaryKey * list byte); gl_unknown : list (Key * list byte);
  gl_tx_offset : option (list byte); gl_stealth_offset : option (list byte);
  gl_kernels : list MwebKernel; gl_inputs : list MwebInput; gl_outputs : list MwebOutput }.

Definition globals_default : Globals :=
  {| gl_tx := None; gl_version := None; gl_xpub := []; gl_proprietary := []; gl_unknown := []; gl_tx_offset := None;
     gl_stealth_offset := None; gl_kernels := []; gl_inputs := []; gl_outputs := [] |}.

Definition globals_eta (m : Globals) : Globals :=
  {| gl_tx := gl_tx m; gl_version := gl_version m; gl_xpub := gl_xpub m; gl_proprietary := gl_proprietary m;
     gl_unknown := gl_unknown m; gl_tx_offset := gl_tx_offset m; gl_stealth_offset := gl_stealth_offset m;
     gl_kernels := gl_kernels m; gl_inputs := gl_inputs m; gl_outputs := gl_outputs m |}.

Definition gl_tx_f : field Globals (option Transaction) := ltac:(field_of globals_eta gl_tx).
Definition gl_version_f : field Globals (option Z) := ltac:(field_of globals_eta gl_version).
Definition gl_xpub_f : field Globals (list (Xpub * KeySource)) := ltac:(field_of globals_eta gl_xpub).
Definition gl_proprietary_f : field Globals (list (ProprietaryKey * list byte)) := ltac:(field_of globals_eta gl_proprietary).
Definition gl_unknown_f : field Globals (list (Key * list byte)) := ltac:(field_of globals_eta gl_unknown).
Definition gl_tx_offset_f : field Globals (option (list byte)) := ltac:(field_of globals_eta gl_tx_offset).
Definition gl_stealth_offset_f : field Globals (option (list byte)) := ltac:(field_of globals_eta gl_stealth_offset).
Definition gl_kernels_f : field Globals (list MwebKernel) := ltac:(field_of globals_eta gl_kernels).
Definition gl_inputs_f : field Globals (list MwebInput) := ltac:(field_of globals_eta gl_inputs).
Definition gl_outputs_f : field Globals (list MwebOutput) := ltac:(field_of globals_eta gl_outputs).

(** The four fields, in the order in which they are written. *)
Definition unsigned_tx_decode : rd Transaction :=
  let! version := c_dec_top i32 in
  let! input := c_dec_top (vec txin_codec) in
  let! output := c_dec_top (vec txout_codec) in
  let! lock_time := c_dec_top Absolute.lock_time_codec in
  rd_ret {| Transaction.version := version; lock_time := lock_time; input := input; output := output;
            mw_tx := None; is_hog_ex := false |}.

Definition insert_tx (k : Key) (v : list byte) (g : Globals) : result Error Globals :=
  match key k with
  | [] =>
      match gl_tx g with
      | None =>
          let? (tx, rest) := consensus unsigned_tx_decode v in
          match rest with [] => Ok (set gl_tx_f (Some tx) g) | _ => Err PartialDataConsumption end
      | Some _ => Err (DuplicateKey k)
      end
  | _ => Err (InvalidKey k)
  end.

(** [while let Ok(index) = u32::consensus_decode(&mut decoder)]: a round takes four bytes. *)
Fixpoint xpub_path_loop (fuel : nat) (path : DerivationPath) (d : list byte) : DerivationPath :=
  match fuel with
  | O => path
  | S fuel =>
      match c_dec_top u32 d with
      | Ok (index, d) => xpub_path_loop fuel (path ++ [from_u32 index]) d
      | Err _ => path
      end
  end.

(** The length is checked, so that there is a fingerprint to read. *)
Definition insert_xpub (k : Key) (v : list byte) (g : Globals) : result Error Globals :=
  match key k with
  | [] => Err (XPubKey "Xpub global key must contain serialized Xpub data")
  | kd =>
      let? xpub :=
        result_map_err (λ _, XPubKey "Can't deserialize ExtendedPublicKey from global XPUB key data") (xpub_decode kd) in
      if (length v =? 0)%nat || negb (length v mod 4 =? 0)%nat then
        Err (XPubKey "Incorrect length of global xpub derivation data")
      else
        let derivation := xpub_path_loop (length v) [] (drop 4 v) in
        match bmap_get xpub (gl_xpub g) with
        | Some _ => Err (XPubKey "Repeated global xpub key")
        | None => Ok (set gl_xpub_f (bmap_insert xpub (take 4 v, derivation) (gl_xpub g)) g)
        end
  end.

Definition insert_version (k : Key) (v : list byte) (g : Globals) : result Error Globals :=
  match key k with
  | [] =>
      match gl_version g with
      | None =>
          if negb (length v =? 4)%nat then Err (Version "invalid global version value length (must be 4 bytes)")
          else
            let? (version, _) := consensus (c_dec_top u32) v in
            if version =? 0 then Ok (set gl_version_f (Some version) g)
            else Err (Version "PSBT versions greater than 0 are not supported")
      | Some _ => Err (DuplicateKey k)
      end
  | _ => Err (InvalidKey k)
  end.

Definition insert_offset (f : field Globals (option (list byte))) (k : Key) (v : list byte) (g : Globals) : result Error Globals :=
  match get f g with
  | Some _ => Err (DuplicateKey k)
  | None => if negb (length v =? 32)%nat then Err (InvalidKey k) else Ok (set f (Some v) g)
  end.

(** [ensure_index(&mut vec, idx); vec[idx].apply(..)] *)
Definition apply_indexed {W} (f : field Globals (list W)) (d : W) (idx : nat) (apply : W → W) (g : Globals) : Globals :=
  set f (alter apply idx (ensure_index d idx (get f g))) g.

Definition key_index (kd : list byte) : nat := Z.to_nat (le_combine (take 4 kd)).

Definition global_insert (pair : Pair) (g : Globals) : result Error Globals :=
  let k := pair_key pair in
  let v := Raw.value pair in
  let ty := type_value k in
  let kd := key k in
  let no_key := (length kd =? 0)%nat in
  if ty =? PSBT_GLOBAL_UNSIGNED_TX then insert_tx k v g
  else if ty =? PSBT_GLOBAL_XPUB then insert_xpub k v g
  else if ty =? PSBT_GLOBAL_VERSION then insert_version k v g
  else if ty =? PSBT_GLOBAL_PROPRIETARY then insert_proprietary gl_proprietary_f k v g
  else if (ty =? MWEB_TX_OFFSET_TYPE) && no_key then insert_offset gl_tx_offset_f k v g
  else if (ty =? MWEB_TX_STEALTH_OFFSET_TYPE) && no_key then insert_offset gl_stealth_offset_f k v g
  else if (ty =? MWEB_KERNEL_COUNT_TYPE) && no_key then
    if negb (length v =? 4)%nat then Err (InvalidKey k) else Ok g
  else if (ty =? MWEB_GLOBAL_KERNEL_FIELD_TYPE) && (5 <=? length kd)%nat then
    let field_ty := byte.unsigned (nth 4 kd x00) in
    Ok (apply_indexed gl_kernels_f kernel_default (key_index kd) (λ w, kernel_apply_field w field_ty (drop 5 kd) v) g)
  else if (ty =? MWEB_GLOBAL_OUTPUT_FIELD_TYPE) && (length kd =? 5)%nat then
    let field_ty := byte.unsigned (nth 4 kd x00) in
    Ok (apply_indexed gl_outputs_f output_default (key_index kd) (λ w, Output.apply_field w field_ty v) g)
  else if is_input_field ty && (4 <=? length kd)%nat then
    Ok (apply_indexed gl_inputs_f input_default (key_index kd) (λ w, apply_kv_field w ty (drop 4 kd) v) g)
  else insert_unknown gl_unknown_f k v g.

Definition psbt_of_globals (tx : Transaction) (g : Globals) : Psbt :=
  {| unsigned_tx := tx; psbt_version := default 0 (gl_version g); psbt_xpub := gl_xpub g;
     psbt_proprietary := gl_proprietary g; psbt_unknown := gl_unknown g; psbt_inputs := []; psbt_outputs := [];
     mweb_tx_offset := gl_tx_offset g; mweb_stealth_offset := gl_stealth_offset g;
     mweb_kernels := gl_kernels g; mweb_inputs := gl_inputs g; mweb_outputs := gl_outputs g |}.

(** The map is read through a [Take]. *)
Definition decode_global : prd Psbt := λ s,
  let? (g, rest) := rd_take MAX_VEC_SIZE (decode_map global_insert globals_default) s in
  match gl_tx g with
  | Some tx => Ok (psbt_of_globals tx g, rest)
  | None => Err MustHaveUnsignedTx
  end.

End Global.

(** ** What is written is read *)

Section Indexed.
Context `{Secp256k1} {M W : Type} (ins : Pair → M → result Error M).
Context (f : field M (list W)) (d : W) (apply : W → kv → W) (mk : nat → kv → Pair) (to_kvs : W → list kv).
Hypothesis laws : FieldLaws f.

Definition at_index (i : nat) (e : kv) (m : M) : M := set f (alter (λ w, apply w e) i (ensure_index d i (get f m))) m.

Lemma ensure_index_pad l k : ensure_index d (length l + k) l = (l ++ replicate k d) ++ [d].
Proof.
  unfold ensure_index. replace (S (length l + k) - length l)%nat with (S k) by lia.
  by rewrite replicate_S_end, app_assoc.
Qed.

Lemma ensure_index_there i l : (i < length l)%nat → ensure_index d i l = l.
Proof. intros Hi. unfold ensure_index. replace (S i - length l)%nat with 0%nat by lia. apply app_nil_r. Qed.

Lemma alter_last (g : W → W) l w : alter g (length l) (l ++ [w]) = l ++ [g w].
Proof. rewrite alter_app_r_alt, Nat.sub_diag by lia. done. Qed.

(** The pairs of one more map, once it is there. *)
Lemma insert_there kvs l w m :
  (∀ e m, e ∈ kvs → ins (mk (length l) e) m = Ok (at_index (length l) e m)) → get f m = l ++ [w] →
  insert_all ins (map (mk (length l)) kvs) m = Ok (set f (l ++ [foldl apply w kvs]) m).
Proof.
  revert w m. induction kvs as [|e kvs IH]; intros w m Hins Hm; cbn [map insert_all foldl]; [by rewrite <- Hm, set_get|].
  rewrite Hins by left. cbn [result_bind]. rewrite (IH (apply w e)).
  - unfold at_index. by rewrite set_set.
  - intros; apply Hins; by right.
  - unfold at_index. rewrite get_set, Hm, ensure_index_there by (rewrite length_app; cbn; lia). apply alter_last.
Qed.

(** The list so far, but for empty maps at its end. *)
Definition padded (l pre : list W) : Prop :=
  ∃ k, pre = l ++ replicate k d ∧ (∀ w, last pre = Some w → to_kvs w ≠ [] → k = 0%nat).

Lemma insert_map pre l w m :
  (∀ e m, e ∈ to_kvs w → ins (mk (length pre) e) m = Ok (at_index (length pre) e m)) →
  foldl apply d (to_kvs w) = w → get f m = l → padded l pre →
  ∃ l', insert_all ins (map (mk (length pre)) (to_kvs w)) m = Ok (set f l' m) ∧ padded l' (pre ++ [w]).
Proof.
  intros Hins Hw Hm (k & -> & Hk). destruct (to_kvs w) as [|e kvs] eqn:Ekv.
  - cbn in Hw. subst w. exists l. cbn. split; [by rewrite <- Hm, set_get|]. exists (S k). rewrite replicate_S_end, app_assoc.
    split; [done|]. intros w. rewrite last_snoc. by intros [= <-].
  - exists ((l ++ replicate k d) ++ [w]). split; [|exists 0%nat; split; [cbn; by rewrite app_nil_r|done]]. cbn [map insert_all].
    rewrite Hins by left. cbn [result_bind foldl] in *. rewrite (insert_there kvs (l ++ replicate k d) (apply d e)).
    + rewrite Hw. unfold at_index. by rewrite set_set.
    + intros; apply Hins; by right.
    + unfold at_index. rewrite get_set, Hm. rewrite length_app, length_replicate, ensure_index_pad.
      replace (length l + k)%nat with (length (l ++ replicate k d)) by (by rewrite length_app, length_replicate). apply alter_last.
Qed.

Lemma segment_indexed ws acc :
  get f acc = [] →
  (∀ i w e m, ws !! i = Some w → e ∈ to_kvs w → ins (mk i e) m = Ok (at_index i e m)) →
  Forall (λ w, foldl apply d (to_kvs w) = w) ws → (∀ w, last ws = Some w → to_kvs w ≠ []) →
  segment ins (push_indexed mk to_kvs ws) acc (set f ws acc).
Proof.
  intros Hacc Hins Hws Hlast. eexists. split; [reflexivity|].
  assert (∀ post pre l m, pre ++ post = ws → get f m = l → padded l pre →
    ∃ l', insert_all ins (concat (imap (λ i w, map (mk (length pre + i)) (to_kvs w)) post)) m = Ok (set f l' m) ∧ padded l' ws) as Hgen.
  { induction post as [|w post IH]; intros pre l m Hpre Hm Hl.
    - rewrite app_nil_r in Hpre. subst ws. exists l. cbn. split; [by rewrite <- Hm, set_get|done].
    - assert (ws !! length pre = Some w) as Hw by (by rewrite <- Hpre, list_lookup_middle).
      destruct (insert_map pre l w m) as (l1 & Hi & Hp1); [intros; by eapply Hins| |done|done|].
      { rewrite Forall_forall in Hws. apply Hws. by eapply list_elem_of_lookup_2. }
      destruct (IH (pre ++ [w]) l1 (set f l1 m)) as (l2 & Hi2 & Hp2); [by rewrite <- app_assoc|by rewrite get_set|done|].
      exists l2. split; [|done]. cbn [imap concat]. rewrite Nat.add_0_r, insert_all_app, Hi. cbn [result_bind].
      rewrite set_set in Hi2. rewrite <- Hi2. do 2 f_equal. apply imap_ext. intros i x _. cbn. rewrite length_app. cbn. do 2 f_equal. lia. }
  destruct (Hgen ws [] [] acc eq_refl Hacc) as (l & Hi & k & Hk & Hk0); [by exists 0%nat|]. cbn [length Nat.add] in Hi.
  rewrite Hi. do 2 f_equal. destruct (last ws) as [w|] eqn:Hw.
  - rewrite (Hk0 w eq_refl (Hlast w eq_refl)), app_nil_r in Hk. done.
  - apply last_None in Hw as ->. symmetry in Hk. by apply app_eq_nil in Hk as [-> _].
Qed.
End Indexed.

Section GlobalLaws.
Context `{Secp256k1Laws, !PublicKeyLaws, TaprootKeyLaws, !Ordered XOnly}.

(** *** The transaction *)

Record unsigned_tx_wf (t : Transaction) : Prop := {
  utwf_version : srange 32 (Transaction.version t);
  utwf_input : vec_wf txin_bare_wf (input t);
  utwf_output : vec_wf txout_wf (output t);
  utwf_lock_time : Absolute.lock_time_wf (lock_time t);
  utwf_plain : mw_tx t = None ∧ is_hog_ex t = false;
  utwf_size : ∀ bs, unsigned_tx_serialize t = Some bs → Z.of_nat (length bs) <= MAX_VEC_SIZE }.

Lemma serialized_roundtrip {A} (c : codec A) wf `{!RoundTrip c wf} x :
  wf x → ∃ bs, serialized c x = Some bs ∧ reads (c_dec c) bs x.
Proof.
  intros Hx. destruct (roundtrip x Hx) as (bs & He & Hr). exists bs. split; [|done].
  unfold serialized, Encode.serialize. unfold encodes in He. by rewrite He.
Qed.

Lemma unsigned_tx_roundtrip t :
  unsigned_tx_wf t → ∃ bs, unsigned_tx_serialize t = Some bs ∧ unsigned_tx_decode bs = Ok (t, []).
Proof.
  intros [Hv Hi Ho Hl [Hm Hh] Hs]. unfold unsigned_tx_serialize in *.
  destruct (serialized_roundtrip i32 (srange 32) _ Hv) as (vb & Ev & Rv).
  destruct (serialized_roundtrip (vec txin_codec) _ _ Hi) as (ib & Ei & Ri).
  destruct (serialized_roundtrip (vec txout_codec) _ _ Ho) as (ob & Eo & Ro).
  destruct (serialized_roundtrip Absolute.lock_time_codec _ _ Hl) as (lb & El & Rl).
  rewrite Ev, Ei, Eo, El in *. cbn [mbind option_bind] in *. eexists. split; [done|]. specialize (Hs _ eq_refl).
  rewrite !length_app in Hs. unfold unsigned_tx_decode, rd_bind.
  change (c_dec_top i32) with (c_dec i32). rewrite Rv. change (c_dec_top (vec txin_codec)) with (rd_take MAX_VEC_SIZE (c_dec (vec txin_codec))).
  change (c_dec_top (vec txout_codec)) with (rd_take MAX_VEC_SIZE (c_dec (vec txout_codec))).
  rewrite (reads_take _ ib _ MAX_VEC_SIZE Ri), (reads_take _ ob _ MAX_VEC_SIZE Ro) by lia.
  rewrite (top_is_finite (c := Absolute.lock_time_codec)). rewrite <- (app_nil_r lb), Rl. destruct t; cbn in *. by subst.
Qed.

(** *** The segments *)

Lemma segment_one {M} (ins : Pair → M → result Error M) p acc acc' : ins p acc = Ok acc' → segment ins (Some [p]) acc acc'.
Proof. intros Hi. exists [p]. split; [done|]. cbn. by rewrite Hi. Qed.

Lemma segment_none {M} (ins : Pair → M → result Error M) acc : segment ins (Some []) acc acc.
Proof. by exists []. Qed.

Lemma segment_tx t acc :
  unsigned_tx_wf t → gl_tx acc = None → segment global_insert (push_tx t) acc (set gl_tx_f (Some t) acc).
Proof.
  intros Ht Hacc. destruct (unsigned_tx_roundtrip t Ht) as (bs & Hs & Hd). unfold push_tx. rewrite Hs. cbn [mbind option_bind].
  apply segment_one. change (global_insert _ acc) with (insert_tx {| type_value := PSBT_GLOBAL_UNSIGNED_TX; key := [] |} bs acc).
  unfold insert_tx, consensus. cbn [key]. rewrite Hacc, Hd. done.
Qed.

Lemma xpub_path_loop_bytes path fuel acc :
  Forall child_wf path → (4 * length path < fuel)%nat →
  xpub_path_loop fuel acc (path ≫= λ cnum, le_split 4 (child_to_u32 cnum)) = acc ++ path.
Proof.
  intros Hp. revert fuel acc. induction Hp as [|c path Hc _ IH]; intros [|fuel] acc Hf; try (cbn in Hf; lia); [by rewrite app_nil_r|].
  cbn [mbind list_bind xpub_path_loop]. destruct (child_u32_roundtrip c Hc) as [Hr Hu].
  change (c_dec_top u32) with (read_uint 4). rewrite read_uint_app by done. rewrite IH by (cbn in Hf; lia). by rewrite Hu, <- app_assoc.
Qed.

Lemma xpub_encode_length k : xpub_wf k → length (xpub_encode k) = 78%nat.
Proof.
  intros (_ & Hp & _ & Hh). unfold xpub_encode. rewrite !length_app, Hp, length_be_split, Hh, pk_length.
  by destruct (xpub_network k).
Qed.

Lemma segment_xpubs l acc :
  bmap_wf l → Forall (λ e, xpub_wf (fst e) ∧ key_source_wf (snd e)) l → gl_xpub acc = [] →
  segment global_insert (push_xpubs l) acc (set gl_xpub_f l acc).
Proof.
  intros Hm Hl Hacc. unfold push_xpubs. eapply (segment_entries _ gl_xpub_f); [field_laws|done..|].
  intros xpub ks Hin. rewrite Forall_forall in Hl. destruct (Hl _ Hin) as [Hx [Hf Hc]]. cbn [fst snd] in *. eexists. split; [done|].
  intros m Hg. set (k := {| type_value := PSBT_GLOBAL_XPUB; key := xpub_encode xpub |}).
  change (global_insert _ m) with (insert_xpub k (key_source_ser ks) m). unfold insert_xpub. pose proof (xpub_encode_length xpub Hx) as Hlen.
  pose proof (xpub_decode_encode xpub Hx) as Hd. cbn [k key]. destruct (xpub_encode xpub) as [|b kd] eqn:Ek; [done|].
  rewrite Hd. cbn [result_map_err result_bind].
  assert (length (key_source_ser ks) = 4 * (1 + length (snd ks)))%nat as Hs.
  { unfold key_source_ser. rewrite length_app, Hf, length_path_bytes. lia. }
  rewrite Hs. rewrite (proj2 (Nat.eqb_neq _ 0)) by lia. rewrite Nat.mul_comm, Nat.Div0.mod_mul, Nat.eqb_refl. cbn [negb orb].
  change (gl_xpub m) with (get gl_xpub_f m). rewrite Hg. unfold key_source_ser.
  rewrite drop_app_length', take_app_length' by done. rewrite xpub_path_loop_bytes by (done || lia). by destruct ks.
Qed.

Lemma segment_offset f ty o acc :
  FieldLaws f → (∀ v g, global_insert (plain_pair ty v) g = insert_offset f {| type_value := ty; key := [] |} v g) →
  (∀ v, o = Some v → length v = 32%nat) → get f acc = None →
  segment global_insert (push_offset ty o) acc (set f o acc).
Proof.
  intros Hf Hi Hl Hacc. unfold push_offset. destruct o as [v|]; [|rewrite <- Hacc, set_get; apply segment_none].
  apply segment_one. rewrite Hi. unfold insert_offset. by rewrite Hacc, (Hl v eq_refl).
Qed.

Lemma segment_count {A} (l : list A) acc : segment global_insert (push_count l) acc acc.
Proof.
  unfold push_count. destruct l as [|a l]; [apply segment_none|]. apply segment_one.
  assert (∀ v, length v = 4%nat → global_insert (plain_pair MWEB_KERNEL_COUNT_TYPE v) acc = Ok acc) as Hi; [|apply Hi, length_le_split].
  intros v Hv. unfold global_insert. cbn. by rewrite Hv.
Qed.

Lemma key_index_bytes i rest : (Z.of_nat i < 2 ^ 32) → key_index (index_bytes i ++ rest) = i.
Proof.
  intros Hi. unfold key_index, index_bytes. rewrite take_app_length' by (by rewrite length_le_split).
  rewrite uwrap_small by (unfold urange; lia). rewrite le_back by (unfold urange; lia). lia.
Qed.

Lemma global_kernel_pair i e g :
  (Z.of_nat i < 2 ^ 32) → 0 <= fst (fst e) <= MWEB_KERNEL_SIGNATURE_TYPE →
  global_insert (kernel_pair i e) g = Ok (at_index gl_kernels_f kernel_default kernel_apply i e g).
Proof.
  destruct e as [[ty kd] v]. cbn [fst snd]. intros Hi Hty. unfold global_insert, kernel_pair. cbn [pair_key type_value key fst snd Raw.value].
  rewrite key_index_bytes by done. unfold index_bytes. set (ib := le_split 4 _). assert (length ib = 4%nat) as Hl by apply length_le_split.
  destruct ib as [|b0 [|b1 [|b2 [|b3 [|]]]]]; try done. cbn [app nth drop length Nat.leb andb]. rewrite drop_0.
  rewrite byte_of_Z_u by (unfold urange, MWEB_KERNEL_SIGNATURE_TYPE in *; lia). reflexivity.
Qed.

Lemma global_output_pair i e g :
  (Z.of_nat i < 2 ^ 32) → Output.is_field (fst (fst e)) = true ∧ snd (fst e) = [] →
  global_insert (output_pair i e) g = Ok (at_index gl_outputs_f output_default output_apply i e g).
Proof.
  destruct e as [[ty kd] v]. cbn [fst snd]. intros Hi [Hty ->]. apply output_field_range in Hty.
  unfold global_insert, output_pair. cbn [pair_key type_value key fst snd Raw.value].
  rewrite key_index_bytes by done. unfold index_bytes. set (ib := le_split 4 _). assert (length ib = 4%nat) as Hl by apply length_le_split.
  destruct ib as [|b0 [|b1 [|b2 [|b3 [|]]]]]; try done. cbn [app nth drop length Nat.leb Nat.eqb andb].
  rewrite byte_of_Z_u by (unfold urange; lia). reflexivity.
Qed.

Lemma global_input_pair i e g :
  (Z.of_nat i < 2 ^ 32) → is_input_field (fst (fst e)) = true ∧ (is_origin (fst (fst e)) = true ↔ snd (fst e) ≠ []) →
  global_insert (input_pair i e) g = Ok (at_index gl_inputs_f input_default input_apply i e g).
Proof.
  destruct e as [[ty kd] v]. cbn [fst snd]. intros Hi [Hty Ho]. apply input_field_range in Hty as Hr.
  unfold global_insert, input_pair. cbn [pair_key type_value key fst snd Raw.value]. rewrite key_index_bytes by done.
  assert (length (index_bytes i) = 4%nat) as Hl by apply length_le_split. rewrite length_app, (drop_app_length' _ _ 4) by done. rewrite Hl.
  unfold PSBT_GLOBAL_UNSIGNED_TX, PSBT_GLOBAL_XPUB, PSBT_GLOBAL_VERSION, PSBT_GLOBAL_PROPRIETARY.
  destruct (Z.eqb_spec ty 0x00); [lia|]. destruct (Z.eqb_spec ty 0x01); [lia|].
  destruct (Z.eqb_spec ty 0xFB); [lia|]. destruct (Z.eqb_spec ty 0xFC); [lia|].
  assert (is_origin ty = false → (4 + length kd =? 5)%nat = false ∧ (5 <=? 4 + length kd)%nat = false) as Hk.
  { intros Ho'. destruct kd as [|b kd]; [done|]. exfalso. rewrite (proj2 Ho) in Ho' by done. done. }
  assert ((ty =? MWEB_GLOBAL_KERNEL_FIELD_TYPE) && (5 <=? 4 + length kd)%nat = false) as ->.
  { destruct (Z.eqb_spec ty MWEB_GLOBAL_KERNEL_FIELD_TYPE) as [->|]; [|done]. by destruct (Hk eq_refl). }
  assert ((ty =? MWEB_GLOBAL_OUTPUT_FIELD_TYPE) && (4 + length kd =? 5)%nat = false) as ->.
  { destruct (Z.eqb_spec ty MWEB_GLOBAL_OUTPUT_FIELD_TYPE) as [->|]; [|done]. by destruct (Hk eq_refl). }
  rewrite Hty. cbn [Nat.add Nat.eqb Nat.leb]. rewrite !andb_false_r. reflexivity.
Qed.

(** The keys that [decode_global] does not leave to the unknown ones. *)
Definition global_known (k : Key) : bool :=
  let ty := type_value k in
  let no_key := (length (key k) =? 0)%nat in
  (ty =? PSBT_GLOBAL_UNSIGNED_TX) || (ty =? PSBT_GLOBAL_XPUB) || (ty =? PSBT_GLOBAL_VERSION) || (ty =? PSBT_GLOBAL_PROPRIETARY) ||
  ((ty =? MWEB_TX_OFFSET_TYPE) && no_key) || ((ty =? MWEB_TX_STEALTH_OFFSET_TYPE) && no_key) ||
  ((ty =? MWEB_KERNEL_COUNT_TYPE) && no_key) || ((ty =? MWEB_GLOBAL_KERNEL_FIELD_TYPE) && (5 <=? length (key k))%nat) ||
  ((ty =? MWEB_GLOBAL_OUTPUT_FIELD_TYPE) && (length (key k) =? 5)%nat) || (is_input_field ty && (4 <=? length (key k))%nat).

Lemma global_insert_unknown k v m :
  global_known k = false → global_insert {| pair_key := k; Raw.value := v |} m = insert_unknown gl_unknown_f k v m.
Proof.
  unfold global_known. cbv zeta. rewrite !orb_false_iff. intros [[[[[[[[[E1 E2] E3] E4] E5] E6] E7] E8] E9] E10].
  unfold global_insert. cbn [pair_key Raw.value]. cbv zeta. by rewrite E1, E2, E3, E4, E5, E6, E7, E8, E9, E10.
Qed.

(** A list of maps that is written in full: the last of them has a field. *)
Record indexed_wf {W} (wf : W → Prop) (to_kvs : W → list kv) (ws : list W) : Prop := {
  ixwf_maps : Forall wf ws;
  ixwf_last : ∀ w, last ws = Some w → to_kvs w ≠ [];
  ixwf_count : Z.of_nat (length ws) <= 2 ^ 32 }.

Record psbt_global_wf (m : Psbt) : Prop := {
  gwf_tx : unsigned_tx_wf (unsigned_tx m);
  gwf_version : psbt_version m = 0;
  gwf_xpub : bmap_wf (psbt_xpub m) ∧ Forall (λ e, xpub_wf (fst e) ∧ key_source_wf (snd e)) (psbt_xpub m);
  gwf_proprietary : bmap_wf (psbt_proprietary m) ∧ Forall (λ e, prop_key_wf (fst e)) (psbt_proprietary m);
  gwf_unknown : bmap_wf (psbt_unknown m) ∧ Forall (λ e, global_known (fst e) = false) (psbt_unknown m);
  gwf_tx_offset : opt_len 32 (mweb_tx_offset m);
  gwf_stealth_offset : opt_len 32 (mweb_stealth_offset m);
  gwf_kernels : indexed_wf (λ k, mweb_kernel_wf k ∧ mk_unknowns k = []) kernel_to_kv_pairs (mweb_kernels m);
  gwf_inputs : indexed_wf mweb_input_wf input_to_kv_pairs (mweb_inputs m);
  gwf_outputs : indexed_wf mweb_output_wf Output.to_pairs (mweb_outputs m) }.

(** What the pairs of a map are decoded to. *)
Definition globals_of (m : Psbt) : Globals :=
  {| gl_tx := Some (unsigned_tx m); gl_version := None; gl_xpub := psbt_xpub m; gl_proprietary := psbt_proprietary m;
     gl_unknown := psbt_unknown m; gl_tx_offset := mweb_tx_offset m; gl_stealth_offset := mweb_stealth_offset m;
     gl_kernels := mweb_kernels m; gl_inputs := mweb_inputs m; gl_outputs := mweb_outputs m |}.

Lemma segment_maps {W} (f : field Globals (list W)) d apply mk to_kvs (wf : W → Prop) (P : kv → Prop) ws acc :
  FieldLaws f → get f acc = [] → indexed_wf wf to_kvs ws →
  (∀ i e g, Z.of_nat i < 2 ^ 32 → P e → global_insert (mk i e) g = Ok (at_index f d apply i e g)) →
  (∀ w, wf w → Forall P (to_kvs w) ∧ foldl apply d (to_kvs w) = w) →
  segment global_insert (push_indexed mk to_kvs ws) acc (set f ws acc).
Proof.
  intros Hf Hacc [Hm Hl Hc] Hins Hwf. eapply (segment_indexed _ f d apply); [done|done| | |done].
  - intros i w e m Hw He. apply Hins; [apply lookup_lt_Some in Hw; lia|].
    assert (wf w) as Hww by (rewrite Forall_forall in Hm; apply Hm; by eapply list_elem_of_lookup_2).
    destruct (Hwf w Hww) as [HP _]. rewrite Forall_forall in HP. by apply HP.
  - eapply Forall_impl; [exact Hm|]. intros w Hw. by apply Hwf.
Qed.

Lemma global_pairs_segment m :
  psbt_global_wf m → segment global_insert (global_get_pairs m) globals_default (globals_of m).
Proof.
  intros [Ht Hv [Hx1 Hx2] [Hp1 Hp2] [Hu1 Hu2] Hto Hso Hk Hi Ho].
  enough (segment global_insert (global_get_pairs m) globals_default
    (set gl_unknown_f (psbt_unknown m) (set gl_proprietary_f (psbt_proprietary m) (set gl_outputs_f (mweb_outputs m)
    (set gl_inputs_f (mweb_inputs m) (set gl_kernels_f (mweb_kernels m) (set gl_stealth_offset_f (mweb_stealth_offset m)
    (set gl_tx_offset_f (mweb_tx_offset m) (set gl_xpub_f (psbt_xpub m) (set gl_tx_f (Some (unsigned_tx m)) globals_default))))))))))
    as Hs by done.
  unfold global_get_pairs. change (push_proprietary psbt_proprietary_f m) with (push_proprietary gl_proprietary_f (globals_of m)).
  change (push_unknown psbt_unknown_f m) with (push_unknown gl_unknown_f (globals_of m)).
  eapply segment_cons; [by apply segment_tx|]. eapply segment_cons; [by apply segment_xpubs|].
  eapply segment_cons; [unfold push_version; rewrite Hv; apply segment_none|].
  eapply segment_cons; [by apply (segment_offset gl_tx_offset_f); [field_laws|..]|].
  eapply segment_cons; [by apply (segment_offset gl_stealth_offset_f); [field_laws|..]|].
  eapply segment_cons; [apply segment_count|].
  eapply segment_cons.
  { eapply (segment_maps gl_kernels_f); [field_laws|reflexivity|exact Hk|apply global_kernel_pair|].
    intros w [Hw Hn]. split; [apply kernel_kv_types|]. rewrite kernel_pairs_back by done. destruct w; cbn in *. by subst. }
  eapply segment_cons.
  { eapply (segment_maps gl_inputs_f); [field_laws|reflexivity|exact Hi|apply global_input_pair|].
    intros w Hw. split; [apply input_kv_types|by apply input_pairs_back]. }
  eapply segment_cons.
  { eapply (segment_maps gl_outputs_f); [field_laws|reflexivity|exact Ho|apply global_output_pair|].
    intros w Hw. split; [apply output_kv_types|by apply output_pairs_back]. }
  eapply segment_cons; [apply (segment_proprietary _ gl_proprietary_f); [field_laws|handled|done..]|].
  eapply segment_cons; [|apply segment_nil].
  apply (segment_unknown _ gl_unknown_f); [field_laws|done..|]. intros k v Hin m'. apply global_insert_unknown.
  rewrite Forall_forall in Hu2. exact (Hu2 _ Hin).
Qed.

(** Without the maps of the inputs and outputs, which are not in the global map. *)
Definition global_part (m : Psbt) : Psbt := set psbt_inputs_f [] (set psbt_outputs_f [] m).

Lemma decode_global_serialize m :
  psbt_global_wf m →
  ∃ ps, global_get_pairs m = Some ps ∧
    (Forall pair_wf ps → Z.of_nat (length (map_bytes ps)) <= MAX_VEC_SIZE →
     global_serialize m = Some (map_bytes ps) ∧ ∀ rest, decode_global (map_bytes ps ++ rest) = Ok (global_part m, rest)).
Proof.
  intros Hm. destruct (global_pairs_segment m Hm) as (ps & Hps & Ha). exists ps. split; [done|]. intros Hw Hl.
  unfold global_serialize. rewrite Hps. cbn [mbind option_bind]. rewrite serialize_pairs_eq by done. split; [done|].
  assert (reads (decode_map global_insert globals_default) (map_bytes ps) (globals_of m)) as Hr.
  { intros rest. apply decode_map_ok. by exists ps. }
  intros rest. unfold decode_global. rewrite (reads_take _ _ _ MAX_VEC_SIZE Hr) by done. cbn [result_bind gl_tx globals_of].
  unfold psbt_of_globals, global_part. cbn. by rewrite <- (gwf_version m Hm).
Qed.

(** What is decoded: the transaction and the maps are well formed; the maps of the
    extension block need not be written back in full. *)
Record globals_wf (g : Globals) : Prop := {
  glwf_tx : ∀ t, gl_tx g = Some t → unsigned_tx_wf t;
  glwf_version : ∀ v, gl_version g = Some v → v = 0;
  glwf_xpub : bmap_wf (gl_xpub g) ∧ Forall (λ e, xpub_wf (fst e) ∧ key_source_wf (snd e)) (gl_xpub g);
  glwf_proprietary : bmap_wf (gl_proprietary g) ∧ Forall (λ e, prop_key_wf (fst e)) (gl_proprietary g);
  glwf_unknown : bmap_wf (gl_unknown g) ∧ Forall (λ e, global_known (fst e) = false) (gl_unknown g);
  glwf_tx_offset : opt_len 32 (gl_tx_offset g);
  glwf_stealth_offset : opt_len 32 (gl_stealth_offset g);
  glwf_inputs : Forall mweb_input_wf (gl_inputs g);
  glwf_outputs : Forall mweb_output_wf (gl_outputs g) }.

Lemma serialized_of {A} (c : codec A) x bs : encodes c x bs → serialized c x = Some bs.
Proof. unfold encodes, serialized, Encode.serialize. by intros ->. Qed.

Lemma top_canonical {A} (c : codec A) (wf : A → Prop) s x rest `{!Canonical c wf} :
  c_dec_top c = rd_take MAX_VEC_SIZE (c_dec c) ∨ c_dec_top c = c_dec c → c_dec_top c s = Ok (x, rest) →
  wf x ∧ ∃ bs, serialized c x = Some bs ∧ s = bs ++ rest.
Proof.
  intros [-> | ->] Hd.
  - assert (0 <= MAX_VEC_SIZE) as HM by (unfold MAX_VEC_SIZE; lia).
    destruct (parses_take (c_dec c) wf (encodes c) _ _ _ _ HM Hd) as (Hw & bs & He & _ & ->).
    split; [done|]. exists bs. split; [by apply serialized_of|done].
  - destruct (canonical _ _ _ Hd) as (Hw & bs & He & ->). split; [done|]. exists bs. split; [by apply serialized_of|done].
Qed.

Lemma unsigned_tx_decode_ok v t :
  unsigned_tx_decode v = Ok (t, []) → Z.of_nat (length v) <= MAX_VEC_SIZE → unsigned_tx_wf t ∧ unsigned_tx_serialize t = Some v.
Proof.
  unfold unsigned_tx_decode. intros (ver & s1 & Hv & Hd)%rd_bind_ok Hl.
  apply rd_bind_ok in Hd as (ins & s2 & Hi & Hd). apply rd_bind_ok in Hd as (outs & s3 & Ho & Hd).
  apply rd_bind_ok in Hd as (lock & s4 & Hk & [= <- ->]).
  destruct (top_canonical i32 (srange 32) _ _ _ ltac:(by right) Hv) as (Wv & vb & Ev & ->).
  destruct (top_canonical (vec txin_codec) _ _ _ _ ltac:(by left) Hi) as (Wi & ib & Ei & ->).
  destruct (top_canonical (vec txout_codec) _ _ _ _ ltac:(by left) Ho) as (Wo & ob & Eo & ->).
  destruct (top_canonical Absolute.lock_time_codec _ _ _ _ ltac:(right; apply top_is_finite) Hk) as (Wk & lb & Ek & ->).
  rewrite app_nil_r in *.
  assert (∀ t, Transaction.version t = ver → input t = ins → output t = outs → lock_time t = lock →
    unsigned_tx_serialize t = Some (vb ++ ib ++ ob ++ lb)) as Hs.
  { intros t <- <- <- <-. unfold unsigned_tx_serialize. by rewrite Ev, Ei, Eo, Ek. }
  split; [|by apply Hs]. split; try done. intros bs Hbs. rewrite Hs in Hbs by done. by injection Hbs as <-.
Qed.

Lemma xpub_path_loop_wf fuel acc d : Forall child_wf acc → Forall child_wf (xpub_path_loop fuel acc d).
Proof.
  revert acc d. induction fuel as [|fuel IH]; intros acc d Ha; [done|]. cbn [xpub_path_loop].
  destruct (c_dec_top u32 d) as [[n d']|] eqn:Hd; [|done]. change (c_dec_top u32) with (read_uint 4) in Hd. apply read_uint_ok in Hd as [Hn _].
  apply IH. apply Forall_app. split; [done|]. constructor; [|done]. by apply u32_child_roundtrip.
Qed.

Lemma apply_indexed_wf {W} (wf : W → Prop) d idx g l :
  wf d → (∀ w, wf w → wf (g w)) → Forall wf l → Forall wf (alter g idx (ensure_index d idx l)).
Proof.
  intros Hd Hg Hl. assert (Forall wf (ensure_index d idx l)) as He.
  { unfold ensure_index. apply Forall_app. split; [done|]. by apply Forall_replicate. }
  apply Forall_alter; [done|]. intros x _ Hx. by apply Hg.
Qed.

Lemma insert_tx_wf k v g g' :
  globals_wf g → Z.of_nat (length v) <= MAX_VEC_SIZE → insert_tx k v g = Ok g' → globals_wf g'.
Proof.
  intros [] Hl. unfold insert_tx. destruct (key k); [|done]. destruct (gl_tx g); [done|].
  destruct (consensus unsigned_tx_decode v) as [[t [|]]|] eqn:Hd; [|done|done]. intros [= <-]. apply consensus_ok in Hd.
  split; try done. intros t' [= <-]. by apply unsigned_tx_decode_ok in Hd as [? _].
Qed.

Lemma insert_xpub_wf k v g g' : globals_wf g → insert_xpub k v g = Ok g' → globals_wf g'.
Proof.
  intros []. unfold insert_xpub. destruct (key k) as [|b kd]; [done|]. destruct (xpub_decode (b :: kd)) as [xpub|] eqn:Hx; [|done].
  cbn [result_map_err result_bind]. destruct (_ || _) eqn:Hl; [done|]. destruct (bmap_get xpub (gl_xpub g)); [done|]. intros [= <-].
  apply xpub_encode_decode in Hx as [Hx _]. split; try done. apply bmap_insert_inv; [|done]. split; [done|]. split.
  - cbn [fst snd]. rewrite length_take. apply orb_false_iff in Hl as [Hl1%Nat.eqb_neq Hl2%negb_false_iff%Nat.eqb_eq].
    pose proof (Nat.div_mod_eq (length v) 4). lia.
  - by apply xpub_path_loop_wf.
Qed.

Lemma insert_version_wf k v g g' : globals_wf g → insert_version k v g = Ok g' → globals_wf g'.
Proof.
  intros []. unfold insert_version. destruct (key k); [|done]. destruct (gl_version g); [done|]. destruct (negb _); [done|].
  destruct (consensus (c_dec_top u32) v) as [[n r]|]; [|done]. cbn [result_bind]. destruct (Z.eqb_spec n 0) as [->|]; [|done].
  intros [= <-]. split; try done. by intros ? [= <-].
Qed.

Lemma insert_offset_ok f k v g g' : insert_offset f k v g = Ok g' → length v = 32%nat ∧ g' = set f (Some v) g.
Proof.
  unfold insert_offset. destruct (get f g); [done|]. destruct (Nat.eqb_spec (length v) 32); [|done]. by intros [= <-].
Qed.

Lemma global_insert_wf p g g' : globals_wf g → pair_wf p → global_insert p g = Ok g' → globals_wf g'.
Proof.
  intros Hg Hp. destruct p as [k v]. destruct Hp as [_ _ Hl]. cbn [pair_key Raw.value] in Hl.
  pose proof (varint_size_pos (Z.of_nat (length v))). unfold global_insert. cbn [pair_key Raw.value].
  destruct (type_value k =? PSBT_GLOBAL_UNSIGNED_TX) eqn:E1; [apply insert_tx_wf; [done|lia]|].
  destruct (type_value k =? PSBT_GLOBAL_XPUB) eqn:E2; [by apply insert_xpub_wf|].
  destruct (type_value k =? PSBT_GLOBAL_VERSION) eqn:E3; [by apply insert_version_wf|]. destruct Hg.
  destruct (type_value k =? PSBT_GLOBAL_PROPRIETARY) eqn:E4.
  { intros (x & Hx & _ & ->)%insert_proprietary_ok. apply try_from_key_wf in Hx. split; try done. by apply bmap_insert_inv. }
  destruct ((type_value k =? MWEB_TX_OFFSET_TYPE) && _) eqn:E5.
  { intros [Hv ->]%insert_offset_ok. split; try done. by intros ? [= <-]. }
  destruct ((type_value k =? MWEB_TX_STEALTH_OFFSET_TYPE) && _) eqn:E6.
  { intros [Hv ->]%insert_offset_ok. split; try done. by intros ? [= <-]. }
  destruct ((type_value k =? MWEB_KERNEL_COUNT_TYPE) && _) eqn:E7; [destruct (negb _); [done|]; by intros [= <-]|].
  destruct ((type_value k =? MWEB_GLOBAL_KERNEL_FIELD_TYPE) && _) eqn:E8; [by intros [= <-]|].
  destruct ((type_value k =? MWEB_GLOBAL_OUTPUT_FIELD_TYPE) && _) eqn:E9.
  { intros [= <-]. split; try done. apply apply_indexed_wf; [done| |done]. intros w. apply apply_field_wf. }
  destruct (is_input_field (type_value k) && _) eqn:E10.
  { intros [= <-]. split; try done. apply apply_indexed_wf; [done| |done]. intros w. apply apply_kv_field_wf. }
  intros (_ & ->)%insert_unknown_ok. split; try done. apply bmap_insert_inv; [|done].
  unfold global_known. cbn [fst]. cbv zeta. by rewrite E1, E2, E3, E4, E5, E6, E7, E8, E9, E10.
Qed.

Lemma decode_global_ok s m rest :
  decode_global s = Ok (m, rest) →
  ∃ g, globals_wf g ∧ gl_tx g = Some (unsigned_tx m) ∧ m = psbt_of_globals (unsigned_tx m) g ∧
  ∃ ps, Forall pair_wf ps ∧ s = map_bytes ps ++ rest ∧ insert_all global_insert ps globals_default = Ok g.
Proof.
  unfold decode_global. destruct (rd_take _ _ s) as [[g r]|] eqn:Hr; [|done]. cbn [result_bind].
  destruct (gl_tx g) as [t|] eqn:Ht; [|done]. intros [= <- <-]. unfold rd_take in Hr.
  destruct (decode_map _ _ (take _ s)) as [[g' r']|] eqn:Hd; [|done]. injection Hr as -> <-.
  apply (decode_map_invariant _ globals_wf) in Hd as (Hg & ps & Hps & Hs & Hi); [|by split|intros; by eapply global_insert_wf].
  exists g. split_and!; [done|done|done|]. exists ps. split_and!; [done| |done].
  by rewrite app_assoc, <- Hs, take_drop.
Qed.
End GlobalLaws.
