(* ===== verification/PsbtTx.v ===== *)
(** Partially signed transactions as a whole ([src/litecoin/src/psbt/mod.rs] and [Psbt] of
    [serialize.rs]): their codec, the checks of the unsigned transaction, the fee and the
    extraction of the transaction. *)

From S2P Require Import Witness.
From Stdlib Require Import String ZArith Lia ZifyBool.
From stdpp Require Import base list.
From Stdlib Require Import Init.Byte.
From coqutil Require Import Byte Word.LittleEndianList.
From S2P Require Import Prelude Io Ordered HashEngine Sha256 Encode Mimblewimble Units Locktime Transaction Script Templates.
From S2P Require Import Taproot Sighash Keys Bip32 Psbt PsbtValues PsbtMweb PsbtOutput PsbtInput PsbtGlobal.
Import Raw.

(** ** Equality of transactions, as derived *)

Section Equality.
Context `{Secp256k1}.

#[export] Instance public_key_eq_dec : EqDecision PublicKey := ordered_eq_dec.
#[export] Instance standard_fields_eq_dec : EqDecision OutputMessageStandardFields.
Proof. solve_decision. Defined.
#[export] Instance output_message_eq_dec : EqDecision OutputMessage.
Proof. solve_decision. Defined.
#[export] Instance mw_input_eq_dec : EqDecision Mimblewimble.Input.
Proof. solve_decision. Defined.
#[export] Instance mw_output_eq_dec : EqDecision Mimblewimble.Output.
Proof. solve_decision. Defined.
#[export] Instance pegout_eq_dec : EqDecision PegOutCoin.
Proof. solve_decision. Defined.
#[export] Instance kernel_eq_dec : EqDecision Kernel.
Proof. solve_decision. Defined.
#[export] Instance tx_body_eq_dec : EqDecision TxBody.
Proof. solve_decision. Defined.
#[export] Instance mw_tx_eq_dec : EqDecision MwTransaction.
Proof. solve_decision. Defined.
#[export] Instance lock_time_eq_dec : EqDecision Absolute.LockTime.
Proof. solve_decision. Defined.
#[export] Instance witness_eq_dec : EqDecision Witness.
Proof. solve_decision. Defined.
#[export] Instance txin_eq_dec : EqDecision TxIn.
Proof. solve_decision. Defined.
#[export] Instance txout_eq_dec : EqDecision TxOut.
Proof. solve_decision. Defined.
#[export] Instance transaction_eq_dec : EqDecision Transaction.
Proof. solve_decision. Defined.
#[export] Instance child_eq_dec : EqDecision ChildNumber.
Proof. solve_decision. Defined.
#[export] Instance path_eq_dec : EqDecision DerivationPath := list_eq_dec.
End Equality.

Section PsbtTx.
Context `{Secp256k1, TaprootKeys, !Ordered XOnly}.

(** ** The codec *)

Definition PSBT_MAGIC : list byte := [x70; x73; x62; x74].
Definition PSBT_SEPARATOR : byte := xff.

(** [serialize]; [None] is a panic of the encoders. *)
Definition psbt_serialize (self : Psbt) : option (list byte) :=
  global ← global_serialize self;
  inputs ← mapM psbt_input_serialize (psbt_inputs self);
  outputs ← mapM psbt_output_serialize (psbt_outputs self);
  Some (PSBT_MAGIC ++ [PSBT_SEPARATOR] ++ global ++ concat inputs ++ concat outputs).

Fixpoint check_inputs (ins : list TxIn) : result Error unit :=
  match ins with
  | [] => Ok tt
  | txin :: ins =>
      match script_sig txin with
      | _ :: _ => Err UnsignedTxHasScriptSigs
      | [] => if negb (Witness.is_empty (witness txin)) then Err UnsignedTxHasScriptWitnesses else check_inputs ins
      end
  end.

Definition unsigned_tx_checks (self : Psbt) : result Error unit :=
  let tx := unsigned_tx self in
  if bool_decide (is_Some (mw_tx tx)) || is_hog_ex tx then Err UnsupportedMwebOrHogEx
  else check_inputs (input tx).

(** [deserialize_from_reader] *)
Definition psbt_read : prd Psbt :=
  let! magic := consensus (c_dec_top (array 4)) in
  if negb (bool_decide (magic = PSBT_MAGIC)) then rd_err InvalidMagic
  else
    let! separator := consensus (c_dec_top u8) in
    if negb (separator =? byte.unsigned PSBT_SEPARATOR) then rd_err InvalidSeparator
    else
      let! global := decode_global in
      let! _ := (λ s, let? _ := unsigned_tx_checks global in Ok (tt, s)) in
      let! inputs := rd_for (Z.of_nat (length (input (unsigned_tx global))))
                       (λ l, let! i := psbt_input_decode in rd_ret (l ++ [i])) [] in
      let! outputs := rd_for (Z.of_nat (length (output (unsigned_tx global))))
                        (λ l, let! o := psbt_output_decode in rd_ret (l ++ [o])) [] in
      rd_ret (set psbt_outputs_f outputs (set psbt_inputs_f inputs global)).

(** [deserialize]: what follows is not looked at. *)
Definition psbt_deserialize (bytes : list byte) : result Error Psbt := let? (p, _) := psbt_read bytes in Ok p.

Definition from_unsigned_tx (tx : Transaction) : result Error Psbt :=
  let psbt :=
    {| psbt_inputs := replicate (length (input tx)) psbt_input_default;
       psbt_outputs := replicate (length (output tx)) psbt_output_default;
       unsigned_tx := tx; psbt_xpub := []; psbt_version := 0; psbt_proprietary := []; psbt_unknown := [];
       mweb_tx_offset := None; mweb_stealth_offset := None; mweb_kernels := []; mweb_inputs := []; mweb_outputs := [] |} in
  let? _ := unsigned_tx_checks psbt in Ok psbt.

(** ** Values and fees *)

Definition funding_utxo (tx_input : TxIn) (psbt_input : PsbtInput) : result Error TxOut :=
  match in_witness_utxo psbt_input, in_non_witness_utxo psbt_input with
  | Some witness_utxo, _ => Ok witness_utxo
  | None, Some non_witness_utxo =>
      ok_or (output non_witness_utxo !! Z.to_nat (vout (previous_output tx_input))) PsbtUtxoOutOfbounds
  | None, None => Err MissingUtxo
  end.

(** [None] is the panic of [assert_eq!]. *)
Definition iter_funding_utxos (self : Psbt) : option (list (result Error TxOut)) :=
  if (length (psbt_inputs self) =? length (input (unsigned_tx self)))%nat then
    Some (zip_with funding_utxo (input (unsigned_tx self)) (psbt_inputs self))
  else None.

Fixpoint sum_utxos (inputs : Z) (utxos : list (result Error TxOut)) : result Error Z :=
  match utxos with
  | [] => Ok inputs
  | utxo :: utxos =>
      let? utxo := utxo in
      let? inputs := ok_or (checked_u64 (inputs + Transaction.value utxo)) FeeOverflow in
      sum_utxos inputs utxos
  end.

Definition psbt_fee (self : Psbt) : option (result Error Z) :=
  utxos ← iter_funding_utxos self;
  Some (let? inputs := sum_utxos 0 utxos in
        let? outputs := sum_utxos 0 (map Ok (output (unsigned_tx self))) in
        ok_or (checked_u64 (inputs - outputs)) NegativeFee).

(** ** Extraction *)

Definition with_script_sig (i : TxIn) (s : list byte) : TxIn :=
  {| previous_output := previous_output i; script_sig := s; sequence := sequence i; witness := witness i |}.
Definition with_inputs (t : Transaction) (ins : list TxIn) (mw : option MwTransaction) : Transaction :=
  {| Transaction.version := Transaction.version t; lock_time := lock_time t; input := ins; output := output t;
     mw_tx := mw; is_hog_ex := is_hog_ex t |}.

(** [iter_mut().zip(..)]: the inputs without a map stay as they are. *)
Fixpoint finalize_inputs (ins : list TxIn) (maps : list PsbtInput) : list TxIn :=
  match ins, maps with
  | vin :: ins, psbtin :: maps =>
      with_witness (with_script_sig vin (default [] (in_final_script_sig psbtin)))
        (default witness_new (in_final_script_witness psbtin)) :: finalize_inputs ins maps
  | _, _ => ins
  end.

Definition internal_extract_tx (self : Psbt) : Transaction :=
  let tx := unsigned_tx self in with_inputs tx (finalize_inputs (input tx) (psbt_inputs self)) (mw_tx tx).

Inductive ExtractTxError :=
| AbsurdFeeRate (fee_rate : Z) (tx : Transaction)
| MissingInputValue (tx : Transaction)
| SendingTooMuch (psbt : Psbt).

Definition FEE_RATE_MAX : Z := U64_MAX.
Definition DEFAULT_MAX_FEE_RATE : Z := 25000 * (1000 / 4).

(** [None]: the panics of the fee, of the weight and of [unreachable!()], which an output
    index out of bounds reaches. *)
Definition extract_tx_with_fee_rate_limit (self : Psbt) (max_fee_rate : Z) : option (result ExtractTxError Transaction) :=
  fee ← psbt_fee self;
  let tx := internal_extract_tx self in
  match fee with
  | Ok fee =>
      wu ← weight tx;
      let fee_rate := Z.min (fee * 1000) U64_MAX / wu in
      Some (if max_fee_rate <? fee_rate then Err (AbsurdFeeRate fee_rate tx) else Ok tx)
  | Err MissingUtxo => Some (Err (MissingInputValue tx))
  | Err NegativeFee => Some (Err (SendingTooMuch self))
  | Err FeeOverflow => Some (Err (AbsurdFeeRate FEE_RATE_MAX tx))
  | Err _ => None
  end.
Definition extract_tx (self : Psbt) := extract_tx_with_fee_rate_limit self DEFAULT_MAX_FEE_RATE.
Definition extract_tx_unchecked_fee_rate (self : Psbt) : Transaction := internal_extract_tx self.

(** The maps of the extension block: those of the global map, else those of the inputs
    when one of them has an output. *)
Definition extension_inputs (self : Psbt) : list MwebInput :=
  match mweb_inputs self with
  | _ :: _ => mweb_inputs self
  | [] =>
      if existsb (λ i, bool_decide (is_Some (mi_output_id (in_mweb i)))) (psbt_inputs self)
      then map in_mweb (psbt_inputs self) else []
  end.
Definition extension_outputs (self : Psbt) : list MwebOutput :=
  match mweb_outputs self with
  | _ :: _ => mweb_outputs self
  | [] =>
      if existsb (λ o, bool_decide (is_Some (mo_commit (out_mweb o)))) (psbt_outputs self)
      then map out_mweb (psbt_outputs self) else []
  end.

Definition extract_tx_with_mweb (self : Psbt) : result Error Transaction :=
  let? kernel_offset := ok_or (mweb_tx_offset self) (IncompleteMwebMaps "missing mweb_tx_offset") in
  let? stealth_offset := ok_or (mweb_stealth_offset self) (IncompleteMwebMaps "missing mweb_stealth_offset") in
  let? mw := assemble_mw_tx kernel_offset stealth_offset (extension_inputs self) (extension_outputs self) (mweb_kernels self) in
  let tx := unsigned_tx self in
  Ok (with_inputs tx (finalize_inputs (input tx) (psbt_inputs self)) (Some mw)).
End PsbtTx.

(** ** The codec *)

Section ReadMaps.
Context `{Secp256k1} {A : Type} (dec : prd A).

Definition read_one (l : list A) : prd (list A) := let! x := dec in rd_ret (l ++ [x]).

Lemma read_all xs bss acc rest :
  Forall2 (λ x bs, ∀ rest, dec (bs ++ rest) = Ok (x, rest)) xs bss →
  nat_loop (λ st, read_one (fst st) (snd st)) (length xs) (acc, concat bss ++ rest) = Ok (acc ++ xs, rest).
Proof.
  intros Hxs. revert acc. induction Hxs as [|x bs xs bss Hx _ IH]; intros acc; cbn [concat length nat_loop fst snd app]; [by rewrite app_nil_r|].
  unfold read_one at 1, rd_bind. rewrite <- app_assoc, Hx. cbn [rd_ret result_bind]. rewrite IH. by rewrite <- app_assoc.
Qed.

Lemma read_all_ok (P : A → Prop) n acc s xs rest :
  (∀ s x rest, dec s = Ok (x, rest) → P x) → nat_loop (λ st, read_one (fst st) (snd st)) n (acc, s) = Ok (xs, rest) →
  Forall P acc → Forall P xs ∧ length xs = (length acc + n)%nat.
Proof.
  intros HP. revert acc s. induction n as [|n IH]; intros acc s; cbn [nat_loop fst snd].
  - intros [= <- <-] Ha. split; [done|lia].
  - unfold read_one at 1, rd_bind. destruct (dec s) as [[x s']|] eqn:Hd; [|done]. cbn [rd_ret result_bind]. intros Hl Ha.
    apply IH in Hl as [Hx Hn]; [|apply Forall_app; split; [done|]; constructor; [by eapply HP|done]].
    rewrite length_app in Hn. cbn in Hn. split; [done|lia].
Qed.
End ReadMaps.

Section PsbtLaws.
Context `{Secp256k1Laws, !PublicKeyLaws, TaprootKeyLaws, !Ordered XOnly}.

(** What is written in full. *)
Record psbt_wf (m : Psbt) : Prop := {
  pswf_global : psbt_global_wf m;
  pswf_inputs : Forall psbt_input_wf (psbt_inputs m);
  pswf_outputs : Forall psbt_output_wf (psbt_outputs m);
  pswf_inputs_len : length (psbt_inputs m) = length (input (unsigned_tx m));
  pswf_outputs_len : length (psbt_outputs m) = length (output (unsigned_tx m));
  pswf_checks : unsigned_tx_checks m = Ok tt }.

(** The pairs are within the sizes that a decoder takes. *)
Definition pairs_fit (o : option (list Pair)) : Prop := ∀ ps, o = Some ps → Forall pair_wf ps.
Record psbt_fits (m : Psbt) : Prop := {
  psf_global : pairs_fit (global_get_pairs m);
  psf_size : ∀ ps, global_get_pairs m = Some ps → Z.of_nat (length (map_bytes ps)) <= MAX_VEC_SIZE;
  psf_inputs : Forall (λ i, pairs_fit (input_get_pairs i)) (psbt_inputs m);
  psf_outputs : Forall (λ o, pairs_fit (output_get_pairs o)) (psbt_outputs m) }.

(** What a decoder makes. *)
Record psbt_decoded (m : Psbt) : Prop := {
  psd_global : ∃ g, globals_wf g ∧ gl_tx g = Some (unsigned_tx m) ∧ global_part m = psbt_of_globals (unsigned_tx m) g;
  psd_inputs : Forall psbt_input_wf (psbt_inputs m);
  psd_outputs : Forall psbt_output_wf (psbt_outputs m);
  psd_inputs_len : length (psbt_inputs m) = length (input (unsigned_tx m));
  psd_outputs_len : length (psbt_outputs m) = length (output (unsigned_tx m));
  psd_checks : unsigned_tx_checks m = Ok tt }.

Lemma serialize_maps {A} (get_pairs : A → option (list Pair)) (ins : Pair → A → result Error A) d xs :
  Forall (λ x, segment ins (get_pairs x) d x ∧ pairs_fit (get_pairs x)) xs →
  ∃ bss, mapM (λ x, ps ← get_pairs x; serialize_pairs ps) xs = Some bss ∧
    Forall2 (λ x bs, ∀ rest, decode_map ins d (bs ++ rest) = Ok (x, rest)) xs bss.
Proof.
  induction 1 as [|x xs [Hs Hf] _ (bss & Hm & Hb)]; [by exists []|].
  destruct (segment_roundtrip _ _ _ _ Hs) as (ps & Hps & Hr). destruct (Hr (Hf ps Hps)) as (bs & Hbs & Hd).
  exists (bs :: bss). split; [|by constructor]. cbn [mapM]. rewrite Hbs. cbn [mbind option_bind]. by rewrite Hm.
Qed.

Lemma checks_global_part m : unsigned_tx_checks (global_part m) = unsigned_tx_checks m.
Proof. done. Qed.

(** The parts of what is read. *)
Lemma psbt_read_ok s m rest :
  psbt_read s = Ok (m, rest) ↔
  ∃ g s1 ins s2 outs, s = PSBT_MAGIC ++ PSBT_SEPARATOR :: drop 5 s ∧ decode_global (drop 5 s) = Ok (g, s1) ∧
    unsigned_tx_checks g = Ok tt ∧
    nat_loop (λ st, read_one psbt_input_decode (fst st) (snd st)) (length (input (unsigned_tx g))) ([], s1) = Ok (ins, s2) ∧
    nat_loop (λ st, read_one psbt_output_decode (fst st) (snd st)) (length (output (unsigned_tx g))) ([], s2) = Ok (outs, rest) ∧
    m = set psbt_outputs_f outs (set psbt_inputs_f ins g).
Proof.
  unfold psbt_read. rewrite rd_bind_ok. setoid_rewrite consensus_ok. change (c_dec_top (array 4)) with (read_slice 4). split.
  - intros (magic & s1 & [-> Hl]%read_slice_ok & Hr); [|done]. case_bool_decide as Hm; [|done]. subst magic.
    apply rd_bind_ok in Hr as (sep & s2 & Hs & Hr). apply consensus_ok, read_u8_ok in Hs as (b & -> & ->).
    destruct (Z.eqb_spec (byte.unsigned b) (byte.unsigned PSBT_SEPARATOR)) as [Hb%byte.unsigned_inj|]; [subst b|done].
    apply rd_bind_ok in Hr as (g & s3 & Hg & Hr). apply rd_bind_ok in Hr as ([] & s4 & Hc & Hr).
    destruct (unsigned_tx_checks g) as [[]|] eqn:Hch; [|done]. injection Hc as <-.
    apply rd_bind_ok in Hr as (ins & s5 & Hi & Hr). apply rd_bind_ok in Hr as (outs & s6 & Ho & [= <- <-]).
    rewrite rd_for_nat, Nat2Z.id in Hi. rewrite rd_for_nat, Nat2Z.id in Ho. by exists g, s3, ins, s5, outs.
  - intros (g & s1 & ins & s2 & outs & Hs & Hg & Hc & Hi & Ho & ->). exists PSBT_MAGIC, (PSBT_SEPARATOR :: drop 5 s).
    split; [by apply read_slice_ok|]. rewrite bool_decide_true by done. cbn [negb].
    apply rd_bind_ok. exists (byte.unsigned PSBT_SEPARATOR), (drop 5 s). split; [apply consensus_ok, read_u8_cons|].
    rewrite Z.eqb_refl. cbn [negb]. apply rd_bind_ok. exists g, s1. split; [done|]. apply rd_bind_ok. exists tt, s1.
    rewrite Hc. split; [done|]. apply rd_bind_ok. exists ins, s2. rewrite rd_for_nat, Nat2Z.id. split; [done|].
    apply rd_bind_ok. exists outs, rest. rewrite rd_for_nat, Nat2Z.id. done.
Qed.

Lemma psbt_read_serialize m :
  psbt_wf m → psbt_fits m → ∃ bs, psbt_serialize m = Some bs ∧ ∀ rest, psbt_read (bs ++ rest) = Ok (m, rest).
Proof.
  intros [Hg Hi Ho Hil Hol Hc] [Fg Fs Fi Fo]. destruct (decode_global_serialize m Hg) as (ps & Hps & Hd).
  destruct (Hd (Fg ps Hps) (Fs ps Hps)) as [Hser Hdec].
  destruct (serialize_maps input_get_pairs input_insert_pair psbt_input_default (psbt_inputs m)) as (ibs & Hib & Hi2).
  { eapply Forall_impl; [apply Forall_and; split; [exact Hi|exact Fi]|]. intros x [Hx Hf]. split; [by apply input_pairs_segment|done]. }
  destruct (serialize_maps output_get_pairs output_insert_pair psbt_output_default (psbt_outputs m)) as (obs & Hob & Ho2).
  { eapply Forall_impl; [apply Forall_and; split; [exact Ho|exact Fo]|]. intros x [Hx Hf]. split; [by apply output_pairs_segment|done]. }
  exists (PSBT_MAGIC ++ [PSBT_SEPARATOR] ++ map_bytes ps ++ concat ibs ++ concat obs). split.
  - unfold psbt_serialize. rewrite Hser. cbn [mbind option_bind]. unfold psbt_input_serialize, psbt_output_serialize. by rewrite Hib, Hob.
  - intros rest. rewrite <- !app_assoc. cbn [app PSBT_MAGIC]. eapply psbt_read_ok. exists (global_part m).
    eexists _, (psbt_inputs m), _, (psbt_outputs m). split_and!; [reflexivity|apply Hdec|done| | |by destruct m].
    + change (unsigned_tx (global_part m)) with (unsigned_tx m). rewrite <- Hil. apply (read_all _ _ ibs []). exact Hi2.
    + change (unsigned_tx (global_part m)) with (unsigned_tx m). rewrite <- Hol. apply (read_all _ _ obs []). exact Ho2.
Qed.

Lemma psbt_deserialize_decoded s m : psbt_deserialize s = Ok m → psbt_decoded m.
Proof.
  unfold psbt_deserialize. destruct (psbt_read s) as [[m' rest]|] eqn:Hr; [|done]. intros [= ->].
  apply psbt_read_ok in Hr as (g & s1 & ins & s2 & outs & _ & Hg & Hc & Hi & Ho & ->).
  apply decode_global_ok in Hg as (gl & Hgl & Ht & Heq & _).
  apply (read_all_ok _ psbt_input_wf) in Hi as [Hi Hil];
    [|intros ? ? ? Hd; apply (decode_map_invariant _ psbt_input_wf) in Hd as [? _]; [done|by split|intros ? ? ? ? _; by apply input_insert_wf]|done].
  apply (read_all_ok _ psbt_output_wf) in Ho as [Ho Hol];
    [|intros ? ? ? Hd; apply (decode_map_invariant _ psbt_output_wf) in Hd as [? _]; [done|by split|intros ? ? ? ? _; by apply output_insert_wf]|done].
  split; try done. exists gl. split_and!; [done|done|]. rewrite Heq. done.
Qed.

(** ** Theorems on the codec *)

(** C33: A well-formed partially signed transaction, whose pairs and global map have the
    sizes that a decoder takes, is deserialised from what it is serialised to, whatever
    follows; and what is deserialised has a map for each input and
    output of its transaction, which is unsigned; its global map and those of its inputs and
    outputs are well formed. *)
Theorem psbt_codec (m : Psbt) (s : list byte) :
  (psbt_wf m → psbt_fits m →
   ∃ bs, psbt_serialize m = Some bs ∧ ∀ rest, psbt_read (bs ++ rest) = Ok (m, rest) ∧ psbt_deserialize (bs ++ rest) = Ok m) ∧
  (psbt_deserialize s = Ok m → psbt_decoded m).
Proof.
  split; [|apply psbt_deserialize_decoded]. intros Hm Hf. destruct (psbt_read_serialize m Hm Hf) as (bs & Hs & Hr).
  exists bs. split; [done|]. intros rest. split; [done|]. unfold psbt_deserialize. by rewrite Hr.
Qed.
End PsbtLaws.

(** ** Values, fees and the extracted transaction *)

Section Fees.
Context `{Secp256k1, TaprootKeys, !Ordered XOnly}.

Definition total (outs : list TxOut) : Z := zsum (map Transaction.value outs).
Definition amounts_wf (outs : list TxOut) : Prop := Forall (λ o, urange 64 (Transaction.value o)) outs.

(** What the inputs spend, as far as the maps say. *)
Definition funding (m : Psbt) : list (result Error TxOut) := zip_with funding_utxo (input (unsigned_tx m)) (psbt_inputs m).

Lemma total_nonneg outs : amounts_wf outs → 0 <= total outs.
Proof.
  induction 1 as [|o outs Ho _ IH]; [done|]. unfold urange in Ho.
  change (total (o :: outs)) with (Transaction.value o + total outs). lia.
Qed.

Lemma sum_utxos_app acc outs rest :
  0 <= acc <= U64_MAX → amounts_wf outs →
  sum_utxos acc (map Ok outs ++ rest) = if U64_MAX <? acc + total outs then Err FeeOverflow else sum_utxos (acc + total outs) rest.
Proof.
  intros Hacc Houts. revert acc Hacc. induction Houts as [|o outs Ho Houts IH]; intros acc Hacc.
  - unfold total. cbn [map app zsum foldr]. rewrite Z.add_0_r. destruct (Z.ltb_spec U64_MAX acc); [lia|done].
  - cbn [map app sum_utxos result_bind]. apply total_nonneg in Houts as Hn. unfold urange in Ho.
    change (total (o :: outs)) with (Transaction.value o + total outs). rewrite Z.add_assoc.
    destruct (checked_u64 (acc + Transaction.value o)) as [v|] eqn:Hv; cbn [ok_or result_bind].
    + apply checked_u64_Some in Hv as [Hv ->]. by apply IH.
    + apply checked_u64_None in Hv. destruct (Z.ltb_spec U64_MAX (acc + Transaction.value o + total outs)); [done|lia].
Qed.

Lemma sum_utxos_total outs :
  amounts_wf outs → sum_utxos 0 (map Ok outs) = if U64_MAX <? total outs then Err FeeOverflow else Ok (total outs).
Proof. intros Houts. pose proof (sum_utxos_app 0 outs [] ltac:(done) Houts) as Hs. by rewrite app_nil_r in Hs. Qed.

(** The output that an input spends: of its map, else of the transaction in its map. *)
Lemma funding_ok i p o :
  funding_utxo i p = Ok o ↔
  in_witness_utxo p = Some o ∨
  in_witness_utxo p = None ∧ ∃ t, in_non_witness_utxo p = Some t ∧ output t !! Z.to_nat (vout (previous_output i)) = Some o.
Proof.
  unfold funding_utxo. destruct (in_witness_utxo p) as [w|].
  - split; [intros [= ->]; by left|]. by intros [[= ->]|[? _]].
  - destruct (in_non_witness_utxo p) as [t|]; [|split; [done|by intros [|(_ & t & ? & _)]]].
    destruct (output t !! _) as [x|] eqn:E; cbn [ok_or].
    + split; [intros [= ->]; right; split; [done|]; by exists t|]. intros [|(_ & t' & [= <-] & Ho)]; congruence.
    + split; [done|]. intros [|(_ & t' & [= <-] & Ho)]; congruence.
Qed.

Lemma funding_missing i p :
  funding_utxo i p = Err MissingUtxo ↔ in_witness_utxo p = None ∧ in_non_witness_utxo p = None.
Proof.
  unfold funding_utxo. destruct (in_witness_utxo p); [by split; [|intros []]|].
  destruct (in_non_witness_utxo p) as [t|]; [|done]. destruct (output t !! _); by split; [|intros []].
Qed.

Lemma psbt_fee_eq m :
  length (psbt_inputs m) = length (input (unsigned_tx m)) →
  psbt_fee m = Some (let? inputs := sum_utxos 0 (funding m) in
                     let? outputs := sum_utxos 0 (map Ok (output (unsigned_tx m))) in
                     ok_or (checked_u64 (inputs - outputs)) NegativeFee).
Proof. intros Hl. unfold psbt_fee, iter_funding_utxos. by rewrite (proj2 (Nat.eqb_eq _ _) Hl). Qed.

(** The fee when all that is spent is known. *)
Definition fee_of (ins outs : Z) : result Error Z :=
  if U64_MAX <? ins then Err FeeOverflow
  else if U64_MAX <? outs then Err FeeOverflow
  else if ins <? outs then Err NegativeFee
  else Ok (ins - outs).

Lemma psbt_fee_known m spent :
  length (psbt_inputs m) = length (input (unsigned_tx m)) → funding m = map Ok spent → amounts_wf spent →
  amounts_wf (output (unsigned_tx m)) →
  psbt_fee m = Some (fee_of (total spent) (total (output (unsigned_tx m)))).
Proof.
  intros Hl Hf Hs Ho. rewrite psbt_fee_eq by done. rewrite Hf, !sum_utxos_total by done. unfold fee_of. f_equal.
  destruct (U64_MAX <? total spent) eqn:Hu; cbn [result_bind]; [done|].
  destruct (U64_MAX <? total (output (unsigned_tx m))); cbn [result_bind]; [done|].
  apply total_nonneg in Hs, Ho. apply Z.ltb_ge in Hu. unfold checked_u64.
  destruct (Z.ltb_spec (total spent) (total (output (unsigned_tx m)))).
  - rewrite (proj2 (Z.leb_gt 0 _)) by lia. done.
  - rewrite (proj2 (Z.leb_le 0 _)), (proj2 (Z.leb_le _ U64_MAX)) by lia. done.
Qed.

Lemma sum_utxos_ok acc us v :
  0 <= acc <= U64_MAX → sum_utxos acc us = Ok v → ∃ outs, us = map Ok outs ∧ v = acc + total outs ∧ 0 <= v <= U64_MAX.
Proof.
  revert acc. induction us as [|[o|e] us IH]; intros acc Hacc; cbn [sum_utxos result_bind].
  - intros [= <-]. exists []. split_and!; [done|unfold total; cbn; lia|lia|lia].
  - destruct (checked_u64 (acc + Transaction.value o)) as [a|] eqn:Ha; cbn [ok_or result_bind]; [|done].
    apply checked_u64_Some in Ha as [Ha ->]. intros (outs & -> & -> & Hv)%IH; [|done]. exists (o :: outs).
    change (total (o :: outs)) with (Transaction.value o + total outs). split_and!; [done|lia|lia|lia].
  - done.
Qed.

Lemma map_ok_inj {E} (xs ys : list TxOut) : map (@Ok E TxOut) xs = map Ok ys → xs = ys.
Proof. revert ys. induction xs as [|x xs IH]; intros [|y ys]; try done. cbn [map]. intros [= <- Hm]. by rewrite (IH ys Hm). Qed.

Lemma psbt_fee_ok m fee :
  psbt_fee m = Some (Ok fee) →
  ∃ spent, funding m = map Ok spent ∧ fee = total spent - total (output (unsigned_tx m)) ∧
    0 <= fee ∧ total spent <= U64_MAX ∧ 0 <= total (output (unsigned_tx m)).
Proof.
  unfold psbt_fee, iter_funding_utxos. case_match; [|done]. cbn [mbind option_bind]. fold (funding m). intros Hf.
  apply (inj Some) in Hf. destruct (sum_utxos 0 (funding m)) as [ins|] eqn:Hi; cbn [result_bind] in Hf; [|done].
  destruct (sum_utxos 0 (map Ok _)) as [outs|] eqn:Ho; cbn [result_bind] in Hf; [|done].
  apply sum_utxos_ok in Hi as (spent & -> & -> & Hs); [|done].
  apply sum_utxos_ok in Ho as (sent & Hm & -> & Ht); [|done].
  apply map_ok_inj in Hm as <-. destruct (checked_u64 _) as [v|] eqn:Hv; [|done]. apply checked_u64_Some in Hv as [Hv ->].
  injection Hf as <-. exists spent. split_and!; [done|lia|lia|lia|lia].
Qed.

Lemma psbt_fee_error m before e after :
  length (psbt_inputs m) = length (input (unsigned_tx m)) →
  funding m = map Ok before ++ Err e :: after → amounts_wf before →
  psbt_fee m = Some (Err (if U64_MAX <? total before then FeeOverflow else e)).
Proof.
  intros Hl Hf Hb. rewrite psbt_fee_eq, Hf, sum_utxos_app by done. rewrite Z.add_0_l. by destruct (U64_MAX <? total before).
Qed.

(** C34: The fee panics when there is not a map for each input; it is the exact difference
    of the values spent and sent when all the outputs spent are known, [FeeOverflow] when
    one of the sums overflows and [NegativeFee] when more is sent than spent; when the
    first input whose output is not known has neither an output nor a transaction in its
    map, it is [MissingUtxo], unless the sum overflows before; and there is no fee when
    any input's output is not known.  An output is known when the map has it, or else the
    transaction that has it at the index spent. *)
Theorem psbt_fee_spec (m : Psbt) :
  (psbt_fee m = None ↔ length (psbt_inputs m) ≠ length (input (unsigned_tx m))) ∧
  (length (psbt_inputs m) = length (input (unsigned_tx m)) →
   (∀ spent, funding m = map Ok spent → amounts_wf spent → amounts_wf (output (unsigned_tx m)) →
      psbt_fee m = Some (fee_of (total spent) (total (output (unsigned_tx m))))) ∧
   (∀ before after, funding m = map Ok before ++ Err MissingUtxo :: after → amounts_wf before →
      psbt_fee m = Some (Err (if U64_MAX <? total before then FeeOverflow else MissingUtxo))) ∧
   (∀ fee, psbt_fee m = Some (Ok fee) → ∃ spent, funding m = map Ok spent)) ∧
  (∀ i p o, funding_utxo i p = Ok o ↔
     in_witness_utxo p = Some o ∨
     in_witness_utxo p = None ∧
       ∃ t, in_non_witness_utxo p = Some t ∧ output t !! Z.to_nat (vout (previous_output i)) = Some o) ∧
  (∀ i p, funding_utxo i p = Err MissingUtxo ↔ in_witness_utxo p = None ∧ in_non_witness_utxo p = None).
Proof.
  split_and!; [|intros Hl; split_and!|exact funding_ok|exact funding_missing].
  - unfold psbt_fee, iter_funding_utxos. destruct (Nat.eqb_spec (length (psbt_inputs m)) (length (input (unsigned_tx m)))); naive_solver.
  - intros. by apply psbt_fee_known.
  - intros before after Hf Hb. by apply (psbt_fee_error m before MissingUtxo after).
  - intros fee (spent & Hs & _)%psbt_fee_ok. by exists spent.
Qed.

(** An output index outside of the transaction that is spent has an error of its own,
    where the documentation of [fee] announces [MissingUtxo]. *)
Lemma psbt_fee_out_of_bounds m before after :
  length (psbt_inputs m) = length (input (unsigned_tx m)) →
  funding m = map Ok before ++ Err PsbtUtxoOutOfbounds :: after → amounts_wf before → total before <= U64_MAX →
  psbt_fee m = Some (Err PsbtUtxoOutOfbounds).
Proof. intros Hl Hf Hb Ht. rewrite (psbt_fee_error m before _ after) by done. by rewrite (proj2 (Z.ltb_ge _ _)) by done. Qed.
End Fees.

(** *** The extracted transaction *)

Section Extraction.
Context `{Secp256k1, TaprootKeys, !Ordered XOnly}.

(** An input with the data of its map. *)
Definition finalized (vin : TxIn) (p : PsbtInput) : TxIn :=
  {| previous_output := previous_output vin; script_sig := default [] (in_final_script_sig p); sequence := sequence vin;
     witness := default witness_new (in_final_script_witness p) |}.

Lemma finalize_inputs_zip ins maps :
  length maps = length ins → finalize_inputs ins maps = zip_with finalized ins maps.
Proof.
  revert maps. induction ins as [|vin ins IH]; intros [|p maps]; try done. cbn [finalize_inputs zip_with length].
  intros [= Hl]. by rewrite IH.
Qed.

(** Signing with witnesses alone leaves what the identifier commits to. *)
Lemma finalize_inputs_bare ins maps :
  Forall (λ i, script_sig i = []) ins → Forall (λ p, in_final_script_sig p = None) maps →
  map bare (finalize_inputs ins maps) = map bare ins.
Proof.
  intros Hi. revert maps. induction Hi as [|vin ins Hv _ IH]; intros maps Hp; [done|].
  destruct Hp as [|p maps Hp Hps]; [done|]. cbn [finalize_inputs map]. rewrite IH by done. f_equal.
  unfold bare, with_witness, with_script_sig. cbn. by rewrite Hp, Hv.
Qed.

Lemma check_inputs_ok ins :
  check_inputs ins = Ok tt ↔ Forall (λ i, script_sig i = [] ∧ Witness.is_empty (witness i) = true) ins.
Proof.
  induction ins as [|i ins IH]; cbn [check_inputs]; [done|]. rewrite Forall_cons.
  destruct (script_sig i); [|by split; [done|intros [[? ?] ?]]].
  destruct (Witness.is_empty (witness i)); cbn [negb]; [rewrite IH; naive_solver|by split; [done|intros [[? ?] ?]]].
Qed.

Lemma unsigned_checks_ok m :
  unsigned_tx_checks m = Ok tt ↔
  mw_tx (unsigned_tx m) = None ∧ is_hog_ex (unsigned_tx m) = false ∧
  Forall (λ i, script_sig i = [] ∧ Witness.is_empty (witness i) = true) (input (unsigned_tx m)).
Proof.
  unfold unsigned_tx_checks. destruct (mw_tx (unsigned_tx m)); cbn; [split; [done|by intros [? _]]|].
  destruct (is_hog_ex (unsigned_tx m)); cbn; [split; [done|by intros (_ & ? & _)]|]. rewrite check_inputs_ok. naive_solver.
Qed.

(** An output index outside of the transaction that is spent reaches [unreachable!()]. *)
Lemma extract_out_of_bounds_panics m max_fee_rate before after :
  length (psbt_inputs m) = length (input (unsigned_tx m)) →
  funding m = map Ok before ++ Err PsbtUtxoOutOfbounds :: after → amounts_wf before → total before <= U64_MAX →
  extract_tx_with_fee_rate_limit m max_fee_rate = None.
Proof.
  intros Hl Hf Hb Ht. unfold extract_tx_with_fee_rate_limit. rewrite psbt_fee_eq, Hf, sum_utxos_app by done.
  rewrite Z.add_0_l. by destruct (Z.ltb_spec U64_MAX (total before)); [lia|].
Qed.

(** The limit on a rate that saturates. *)
Lemma saturated_rate fee wu max :
  0 < wu → Z.min (fee * 1000) U64_MAX / wu <= max →
  fee * 1000 < (max + 1) * wu ∨ U64_MAX <= fee * 1000 ∧ U64_MAX < (max + 1) * wu.
Proof.
  intros Hwu Hmax. destruct (Z.le_gt_cases U64_MAX (fee * 1000)) as [Hsat|Hsat].
  - rewrite Z.min_r in Hmax by done. pose proof (Z.mul_succ_div_gt U64_MAX wu Hwu). right. split; [done|nia].
  - rewrite Z.min_l in Hmax by lia. pose proof (Z.mul_succ_div_gt (fee * 1000) wu Hwu). left. nia.
Qed.

(** C35: A transaction that is extracted under a limit on its fee rate is the unsigned
    transaction with the final script and witness of each map and nothing else changed; all
    it spends is known and at least what it sends, and its fee, in thousandths per weight
    unit rounded down, is within the limit as long as the fee does not saturate: as long as
    the limit, times the weight, is within 64 bits, as it is up to the default limit for
    any weight up to [2 ^ 41].  (Beyond, a fee whose thousandfold saturates may pass.)  When
    only witnesses are added its identifier is that of the unsigned one. *)
Theorem extract_tx_safe (m : Psbt) (max_fee_rate : Z) (tx : Transaction) :
  extract_tx_with_fee_rate_limit m max_fee_rate = Some (Ok tx) →
  length (psbt_inputs m) = length (input (unsigned_tx m)) ∧
  tx = with_inputs (unsigned_tx m) (zip_with finalized (input (unsigned_tx m)) (psbt_inputs m)) (mw_tx (unsigned_tx m)) ∧
  (∃ spent wu, let fee := total spent - total (output tx) in
     funding m = map Ok spent ∧ psbt_fee m = Some (Ok fee) ∧ 0 <= fee ∧ total spent <= U64_MAX ∧ weight tx = Some wu ∧ 0 < wu ∧
     (fee * 1000 < (max_fee_rate + 1) * wu ∨ U64_MAX <= fee * 1000 ∧ U64_MAX < (max_fee_rate + 1) * wu) ∧
     ((max_fee_rate + 1) * wu <= U64_MAX → fee * 1000 < (max_fee_rate + 1) * wu) ∧
     (max_fee_rate <= DEFAULT_MAX_FEE_RATE → wu <= 2 ^ 41 → fee * 1000 < (max_fee_rate + 1) * wu)) ∧
  (unsigned_tx_checks m = Ok tt → Forall (λ p, in_final_script_sig p = None) (psbt_inputs m) →
   compute_txid tx = compute_txid (unsigned_tx m)).
Proof.
  unfold extract_tx_with_fee_rate_limit. destruct (psbt_fee m) as [fee|] eqn:Hf; [|done]. cbn [mbind option_bind].
  destruct fee as [fee|[]]; try done. destruct (weight (internal_extract_tx m)) as [wu|] eqn:Hw; [|done]. cbn [mbind option_bind].
  case_match eqn:Hmax; [done|]. intros [= <-]. apply Z.ltb_ge in Hmax.
  assert (length (psbt_inputs m) = length (input (unsigned_tx m))) as Hl.
  { unfold psbt_fee, iter_funding_utxos in Hf. destruct (Nat.eqb_spec (length (psbt_inputs m)) (length (input (unsigned_tx m)))); done. }
  split; [done|]. split; [unfold internal_extract_tx; by rewrite finalize_inputs_zip|]. split.
  - pose proof Hf as (spent & Hs & -> & Hp & Hu & Ho)%psbt_fee_ok. apply weight_pos in Hw as Hwu. exists spent, wu. cbv zeta.
    change (output (internal_extract_tx m)) with (output (unsigned_tx m)).
    apply (saturated_rate _ _ _ Hwu) in Hmax.
    split_and!; [done|done|done|done|done|done|exact Hmax|by intros Hlim; destruct Hmax as [|[_ ?]]; [|lia]|].
    intros Hdef Hbig. destruct Hmax as [|[_ Hmax]]; [done|].
    change DEFAULT_MAX_FEE_RATE with 6250000 in Hdef. change (2 ^ 41) with 2199023255552 in Hbig.
    assert ((max_fee_rate + 1) * wu <= 6250001 * wu) by (apply Z.mul_le_mono_nonneg_r; lia). unfold U64_MAX in Hmax. lia.
  - intros (_ & _ & Hi)%unsigned_checks_ok Hn. apply compute_txid_base_view. unfold base_view, internal_extract_tx. cbn [with_inputs input Transaction.version output lock_time].
    rewrite finalize_inputs_bare; [done| |done]. eapply Forall_impl; [exact Hi|]. by intros ? [? _].
Qed.
End Extraction.

#[local] Existing Instances PlainSecp.plain_keys PlainSecp.plain_keys_laws PlainSecp.plain_secp PlainSecp.plain_secp_laws.
#[local] Existing Instances PlainTaprootKeys.keys PlainTaprootKeys.keys_laws.

#[local] Existing Instance plain_xonly_ordered.

Definition sample_unsigned_txin : TxIn :=
  {| previous_output := {| txid := replicate 32 x07; vout := 1 |}; script_sig := []; sequence := 0xfffffffd; witness := witness_new |}.
Definition sample_unsigned_tx : Transaction :=
  {| Transaction.version := 2; lock_time := Absolute.Blocks 100; input := [sample_unsigned_txin];
     output := [{| Transaction.value := 1000; script_pubkey := [x51] |}]; mw_tx := None; is_hog_ex := false |}.

(** One input, which spends 5000, one output, an unknown pair and an extension output. *)
Definition sample_psbt : Psbt :=
  {| psbt_inputs := [sample_psbt_input]; psbt_outputs := [sample_psbt_output];
     unsigned_tx := sample_unsigned_tx; psbt_xpub := []; psbt_version := 0; psbt_proprietary := [];
     psbt_unknown := [({| type_value := 0x0f; key := [x01] |}, [x02; x03])];
     mweb_tx_offset := Some (replicate 32 x09); mweb_stealth_offset := None; mweb_kernels := []; mweb_inputs := []; mweb_outputs := [] |}.

Lemma sample_psbt_wf : psbt_wf sample_psbt.
Proof.
  split; [|apply Forall_singleton, sample_psbt_input_wf|apply Forall_singleton, sample_psbt_output_wf|reflexivity..].
  split; try (by split); try done; try (by intros ? [= <-]); try (by repeat constructor).
  split; try done; try (by split; repeat constructor).
  intros bs Hbs. vm_compute in Hbs. by injection Hbs as <-.
Qed.

Lemma sample_psbt_fits : psbt_fits sample_psbt.
Proof.
  split; [|intros ps Hps; vm_compute in Hps; by injection Hps as <-|apply Forall_singleton|apply Forall_singleton].
  all: intros ps Hps; vm_compute in Hps; injection Hps as <-; repeat constructor; done.
Qed.

Lemma psbt_codec_witness :
  ∃ bs, psbt_serialize sample_psbt = Some bs ∧
    ∀ rest, psbt_read (bs ++ rest) = Ok (sample_psbt, rest) ∧ psbt_deserialize (bs ++ rest) = Ok sample_psbt.
Proof. exact (proj1 (psbt_codec sample_psbt []) sample_psbt_wf sample_psbt_fits). Defined.

Lemma psbt_fee_spec_witness : psbt_fee sample_psbt = Some (Ok 4000).
Proof.
  destruct (proj1 (proj2 (psbt_fee_spec sample_psbt)) eq_refl) as [Hf _].
  apply (Hf [{| Transaction.value := 5000; script_pubkey := [x51] |}]); [reflexivity|by repeat constructor..].
Defined.

Lemma extract_tx_safe_witness :
  extract_tx_with_fee_rate_limit sample_psbt 20000 = Some (Ok (internal_extract_tx sample_psbt)) ∧
  compute_txid (internal_extract_tx sample_psbt) = compute_txid sample_unsigned_tx.
Proof.
  assert (extract_tx_with_fee_rate_limit sample_psbt 20000 = Some (Ok (internal_extract_tx sample_psbt))) as He by (vm_compute; reflexivity).
  split; [exact He|]. apply (extract_tx_safe sample_psbt 20000 _ He); [reflexivity|apply Forall_singleton; reflexivity].
Defined.

(** A fee whose thousandfold saturates passes a limit that it exceeds: all the money that
    64 bits count, against a limit of [10 ^ 17]. *)
Example saturated_fee_rate :
  let spent := {| Transaction.value := U64_MAX; script_pubkey := [x51] |} in
  let m := set psbt_inputs_f [set in_witness_utxo_f (Some spent) sample_psbt_input] sample_psbt in
  psbt_fee m = Some (Ok (U64_MAX - 1000)) ∧
  extract_tx_with_fee_rate_limit m (10 ^ 17) = Some (Ok (internal_extract_tx m)) ∧
  match weight (internal_extract_tx m) with Some wu => 10 ^ 17 <? (U64_MAX - 1000) * 1000 / wu | None => false end = true.
Proof. split_and!; vm_compute; reflexivity. Qed.
