(* ===== verification/PsbtCombine.v ===== *)
(** The combination of two partially signed transactions ([combine] of
    [src/litecoin/src/psbt/mod.rs]): the derivation kept for a key that both know, the maps
    joined field by field, and the panics on the way. *)

From S2P Require Import Witness.
From Stdlib Require Import String ZArith Lia ZifyBool.
From stdpp Require Import base list.
From Stdlib Require Import Init.Byte.
From coqutil Require Import Byte Word.LittleEndianList.
From S2P Require Import Prelude Io Ordered HashEngine Sha256 Encode Mimblewimble Units Locktime Transaction Script Templates.
From S2P Require Import Taproot Sighash Keys Bip32 Psbt PsbtValues PsbtMweb PsbtOutput PsbtInput PsbtGlobal PsbtTx.
Import Raw.

Section PsbtCombine.
Context `{Secp256k1, TaprootKeys, !Ordered XOnly}.

(** ** Combination *)

(** The derivation that is kept, or a conflict; [None] is the panic of the slice
    [derivation1[derivation1.len() - derivation2.len()..]] when the first is shorter. *)
Definition merge_source (mine theirs : KeySource) : option (option KeySource) :=
  let '(fingerprint1, derivation1) := theirs in
  let '(fingerprint2, derivation2) := mine in
  let len1 := length derivation1 in
  let len2 := length derivation2 in
  if (bool_decide (derivation1 = derivation2) && bool_decide (fingerprint1 = fingerprint2)) ||
     ((len1 <? len2)%nat && bool_decide (derivation1 = drop (len2 - len1) derivation2)) then Some (Some mine)
  else if (len1 <? len2)%nat then None
  else if bool_decide (derivation2 = drop (len1 - len2) derivation1) then Some (Some theirs)
  else Some None.

Fixpoint merge_xpubs (mine theirs : list (Xpub * KeySource)) : option (list (Xpub * KeySource) * result Error unit) :=
  match theirs with
  | [] => Some (mine, Ok tt)
  | (xpub, source) :: theirs =>
      match bmap_get xpub mine with
      | None => merge_xpubs (bmap_insert xpub source mine) theirs
      | Some own =>
          kept ← merge_source own source;
          match kept with
          | Some kept => merge_xpubs (bmap_insert xpub kept mine) theirs
          | None => Some (mine, Err (CombineInconsistentKeySources xpub))
          end
      end
  end.

(** [for (i, other) in other.into_iter().enumerate() { ensure_index(vec, i); vec[i].combine(other) }] *)
Definition combine_indexed {W} (d : W) (combine : W → W → W) (mine theirs : list W) : list W :=
  foldl (λ l '(i, w), alter (λ m, combine m w) i (ensure_index d i l)) mine (imap pair theirs).

(** [iter_mut().zip(..)] *)
Fixpoint combine_zip {W} (combine : W → W → W) (mine theirs : list W) : list W :=
  match mine, theirs with
  | a :: mine, b :: theirs => combine a b :: combine_zip combine mine theirs
  | _, _ => mine
  end.

(** The state after the call, and its result. *)
Definition psbt_combine (self other : Psbt) : option (Psbt * result Error unit) :=
  if negb (bool_decide (unsigned_tx self = unsigned_tx other)) then
    Some (self, Err (UnexpectedUnsignedTx (unsigned_tx self) (unsigned_tx other)))
  else
    let self := set psbt_version_f (Z.max (psbt_version self) (psbt_version other)) self in
    '(xpub, r) ← merge_xpubs (psbt_xpub self) (psbt_xpub other);
    let self := set psbt_xpub_f xpub self in
    match r with
    | Err e => Some (self, Err e)
    | Ok _ =>
        let self := extend_field psbt_proprietary_f self other in
        let self := extend_field psbt_unknown_f self other in
        let self := merge_field mweb_tx_offset_f self other in
        let self := merge_field mweb_stealth_offset_f self other in
        let self := set mweb_kernels_f (combine_indexed kernel_default kernel_combine (mweb_kernels self) (mweb_kernels other)) self in
        let self := set mweb_inputs_f (combine_indexed input_default input_combine (mweb_inputs self) (mweb_inputs other)) self in
        let self := set mweb_outputs_f (combine_indexed output_default Output.combine (mweb_outputs self) (mweb_outputs other)) self in
        let self := set psbt_inputs_f (combine_zip psbt_input_combine (psbt_inputs self) (psbt_inputs other)) self in
        let self := set psbt_outputs_f (combine_zip output_combine (psbt_outputs self) (psbt_outputs other)) self in
        Some (self, Ok tt)
    end.

End PsbtCombine.

(** ** Derivations *)

Section Sources.
Implicit Types mine theirs s : KeySource.

Lemma drop_suffix {A} (x y : list A) :
  (length x ≤ length y)%nat → x = drop (length y - length x) y ↔ x `suffix_of` y.
Proof.
  intros Hl. split.
  - intros Hx. exists (take (length y - length x) y). rewrite Hx at 2. by rewrite take_drop.
  - intros [k ->]. rewrite length_app.
    replace (length k + length x - length x)%nat with (length k) by lia. by rewrite drop_app_length.
Qed.

Lemma merge_source_same s : merge_source s s = Some (Some s).
Proof. destruct s as [f d]. unfold merge_source. by rewrite (bool_decide_true (d = d)), (bool_decide_true (f = f)). Qed.

(** Of two derivations of a key, one that ends in the other is kept, the longer of the two,
    and the second at equal paths; when the first is not longer and not a suffix there is a
    conflict; when the first is longer and the second not a suffix of it, the slice panics. *)
Theorem merge_source_spec (mine theirs : KeySource) :
  (merge_source mine theirs = None ↔ (length (snd theirs) < length (snd mine))%nat ∧ ¬ snd theirs `suffix_of` snd mine) ∧
  (merge_source mine theirs = Some None ↔
     (length (snd mine) <= length (snd theirs))%nat ∧ ¬ snd mine `suffix_of` snd theirs) ∧
  (∀ kept, merge_source mine theirs = Some (Some kept) →
     (kept = mine ∨ kept = theirs) ∧ snd mine `suffix_of` snd kept ∧ snd theirs `suffix_of` snd kept ∧
     (snd mine = snd theirs → kept = theirs)).
Proof.
  destruct mine as [f2 d2], theirs as [f1 d1]. unfold merge_source. cbn [snd].
  destruct (Nat.ltb_spec (length d1) (length d2)) as [Hl|Hl]; cbn [andb].
  - rewrite (bool_decide_false (d1 = d2)) by (intros ->; lia). cbn [andb orb].
    pose proof (drop_suffix d1 d2 ltac:(lia)) as Hs. case_bool_decide as Hd; rewrite Hs in Hd.
    + split_and!; [split; [done|tauto]|split; [done|lia]|]. intros ? [= <-]. cbn. split_and!; [by left|done|done|intros ->; lia].
    + split_and!; [done|split; [done|lia]|done].
  - rewrite orb_false_r. pose proof (drop_suffix d2 d1 Hl) as Hs.
    destruct (bool_decide (d1 = d2) && bool_decide (f1 = f2)) eqn:He.
    + apply andb_prop in He as [->%bool_decide_eq_true ->%bool_decide_eq_true].
      split_and!; [split; [done|lia]|split; [done|by intros [_ []]]|]. intros ? [= <-]. cbn. split_and!; [by left|done..].
    + clear He. case_bool_decide as Hd; rewrite Hs in Hd.
      * split_and!; [split; [done|lia]|split; [done|tauto]|]. intros ? [= <-]. cbn. split_and!; [by right|done..].
      * split_and!; [split; [done|lia]|done|done].
Qed.
(** The rule that the comment in [combine] states: derivations of a key are compatible
    when they are equal, or when the shorter path is a strict suffix of the longer one;
    the longer one is chosen. *)
Definition strict_suffix (x y : DerivationPath) : Prop := x `suffix_of` y ∧ (length x < length y)%nat.
Definition compatible (mine theirs : KeySource) : Prop :=
  mine = theirs ∨ strict_suffix (snd mine) (snd theirs) ∨ strict_suffix (snd theirs) (snd mine).
Definition longest (mine theirs : KeySource) : KeySource :=
  if (length (snd mine) <? length (snd theirs))%nat then theirs else mine.

Lemma merge_compatible mine theirs : compatible mine theirs → merge_source mine theirs = Some (Some (longest mine theirs)).
Proof.
  destruct mine as [f2 d2], theirs as [f1 d1]. unfold longest. cbn [snd]. intros [[= -> ->]|[[Hs Hl]|[Hs Hl]]]; cbn [snd] in *.
  - rewrite merge_source_same. by destruct (_ <? _)%nat.
  - rewrite (proj2 (Nat.ltb_lt _ _) Hl). unfold merge_source. rewrite (proj2 (Nat.ltb_ge (length d1) (length d2))) by lia.
    rewrite (bool_decide_false (d1 = d2)) by (intros ->; lia). cbn [andb orb].
    by rewrite bool_decide_true by (apply drop_suffix; [lia|done]).
  - rewrite (proj2 (Nat.ltb_ge (length d2) (length d1))) by lia. unfold merge_source. rewrite (proj2 (Nat.ltb_lt _ _) Hl).
    rewrite (bool_decide_true (d1 = drop _ _)) by (apply drop_suffix; [lia|done]). by rewrite orb_true_r.
Qed.

(** What is kept otherwise has equal paths. *)
Lemma merge_incompatible mine theirs kept :
  merge_source mine theirs = Some (Some kept) → compatible mine theirs ∨ snd mine = snd theirs ∧ fst mine ≠ fst theirs.
Proof.
  destruct mine as [f2 d2], theirs as [f1 d1]. unfold merge_source, compatible, strict_suffix. cbn [fst snd].
  destruct (Nat.ltb_spec (length d1) (length d2)) as [Hl|Hl]; cbn [andb].
  - rewrite (bool_decide_false (d1 = d2)) by (intros ->; lia). cbn [andb orb]. case_bool_decide as Hd; [|done].
    intros _. left; right; right. by split; [apply drop_suffix; [lia|]|].
  - rewrite orb_false_r. destruct (bool_decide (d1 = d2) && bool_decide (f1 = f2)) eqn:He.
    { apply andb_prop in He as [->%bool_decide_eq_true ->%bool_decide_eq_true]. by left; left. }
    destruct (decide (d2 = drop (length d1 - length d2) d1)) as [Hd|Hd]; [|by rewrite (bool_decide_false _ Hd)].
    intros _. pose proof (proj1 (drop_suffix d2 d1 Hl) Hd) as Hs.
    destruct (decide (length d2 < length d1)%nat); [by left; right; left|]. right.
    assert (d2 = d1) as -> by (destruct Hs as [[|x k] ->]; [done|rewrite length_app in *; cbn in *; lia]).
    split; [done|]. intros ->. by rewrite !bool_decide_true in He.
Qed.
End Sources.

Section CombineLaws.
Context `{Secp256k1Laws, !PublicKeyLaws, TaprootKeyLaws, !Ordered XOnly}.

(** *** The keys of both *)

Definition both (P : Xpub → KeySource → KeySource → Prop) (mine theirs : list (Xpub * KeySource)) : Prop :=
  ∃ x own source, bmap_get x mine = Some own ∧ bmap_get x theirs = Some source ∧ P x own source.

Lemma both_cons (P : Xpub → KeySource → KeySource → Prop) mine theirs x source kept :
  bmap_wf mine → bmap_wf ((x, source) :: theirs) →
  both P (bmap_insert x kept mine) theirs → both P mine ((x, source) :: theirs).
Proof.
  intros Hm [Hx Ht] (y & o & s & Ho & Hs & HP). rewrite bmap_get_insert in Ho by done.
  destruct (decide (y = x)) as [->|Hy]; [by rewrite above_get in Hs|]. exists y, o, s. cbn [bmap_get]. by rewrite decide_False.
Qed.

(** What becomes of the key [x]. *)
Definition keeps (mine theirs r : list (Xpub * KeySource)) (x : Xpub) : Prop :=
  match bmap_get x mine, bmap_get x theirs with
  | Some own, Some source => ∃ kept, merge_source own source = Some (Some kept) ∧ bmap_get x r = Some kept
  | Some own, None => bmap_get x r = Some own
  | None, source => bmap_get x r = source
  end.

Definition xpubs_post (mine theirs : list (Xpub * KeySource)) (o : option (list (Xpub * KeySource) * result Error unit)) : Prop :=
  match o with
  | Some (r, Ok _) => bmap_wf r ∧ ∀ x, keeps mine theirs r x
  | Some (r, Err e) => bmap_wf r ∧ both (λ x own source, e = CombineInconsistentKeySources x ∧ merge_source own source = Some None) mine theirs
  | None => both (λ _ own source, merge_source own source = None) mine theirs
  end.

(** One key more. *)
Lemma xpubs_post_step mine theirs x source kept o :
  bmap_wf mine → bmap_wf ((x, source) :: theirs) →
  match bmap_get x mine with Some own => merge_source own source = Some (Some kept) | None => kept = source end →
  xpubs_post (bmap_insert x kept mine) theirs o → xpubs_post mine ((x, source) :: theirs) o.
Proof.
  intros Hm Ht Hk. pose proof Ht as [Hx _]. destruct o as [[r [[]|e]]|]; cbn [xpubs_post].
  - intros [Hr Hg]. split; [done|]. intros y. specialize (Hg y). unfold keeps in *. rewrite bmap_get_insert in Hg by done.
    cbn [bmap_get]. destruct (decide (y = x)) as [->|Hy].
    + rewrite (above_get x theirs) in Hg by done. rewrite decide_True by done.
      destruct (bmap_get x mine) as [own|]; [by exists kept|by subst kept].
    + by rewrite decide_False by congruence.
  - intros [Hr Hb]. split; [done|]. by eapply both_cons.
  - intros Hb. by eapply both_cons.
Qed.

Lemma merge_xpubs_spec mine theirs :
  bmap_wf mine → bmap_wf theirs → xpubs_post mine theirs (merge_xpubs mine theirs).
Proof.
  revert mine. induction theirs as [|[x source] theirs IH]; intros mine Hm Ht; cbn [merge_xpubs].
  { split; [done|]. intros x. unfold keeps. cbn [bmap_get]. by destruct (bmap_get x mine). }
  pose proof Ht as [Hx Ht']. destruct (bmap_get x mine) as [own|] eqn:Ho.
  - destruct (merge_source own source) as [[kept|]|] eqn:Hs; cbn [mbind option_bind].
    + apply (xpubs_post_step mine theirs x source kept); [done..|by rewrite Ho|]. by apply IH; [apply bmap_insert_wf|].
    + split; [done|]. exists x, own, source. cbn [bmap_get]. by rewrite decide_True.
    + exists x, own, source. cbn [bmap_get]. by rewrite decide_True.
  - apply (xpubs_post_step mine theirs x source source); [done..|by rewrite Ho|]. by apply IH; [apply bmap_insert_wf|].
Qed.

Lemma bmap_insert_get k v (m : list (Xpub * KeySource)) : bmap_wf m → bmap_get k m = Some v → bmap_insert k v m = m.
Proof.
  intros Hm Hg. apply bmap_ext; [by apply bmap_insert_wf|done|]. intros j. rewrite bmap_get_insert by done.
  by destruct (decide (j = k)) as [->|].
Qed.

Lemma merge_xpubs_same m : bmap_wf m → merge_xpubs m m = Some (m, Ok tt).
Proof.
  intros Hm. assert (∀ l, bmap_wf l → (∀ x s, bmap_get x l = Some s → bmap_get x m = Some s) → merge_xpubs m l = Some (m, Ok tt)) as Hl; [|by apply Hl].
  induction l as [|[x s] l IH]; intros Hl Hin; [done|]. destruct Hl as [Hx Hw]. cbn [merge_xpubs]. pose proof (Hin x s) as Hs. cbn [bmap_get] in Hs.
  rewrite decide_True in Hs by done. rewrite (Hs eq_refl), merge_source_same. cbn [mbind option_bind].
  rewrite bmap_insert_get by auto. apply IH; [done|]. intros y t Hy. apply Hin. cbn [bmap_get].
  rewrite decide_False; [done|]. intros <-. by rewrite above_get in Hy.
Qed.

(** *** Lists of maps *)

Section Indexed.
Context {W : Type} (d : W) (f : W → W → W).

Lemma lookup_snoc (l : list W) b i : (l ++ [b]) !! i = if decide (i = length l) then Some b else l !! i.
Proof.
  destruct (decide (i = length l)) as [->|Hi]; [by rewrite list_lookup_middle|].
  destruct (decide (i < length l)%nat); [by rewrite lookup_app_l|].
  rewrite !lookup_ge_None_2; [done|lia|rewrite length_app; cbn; lia].
Qed.

Lemma lookup_ensure_index (l : list W) k i :
  (k <= length l)%nat → ensure_index d k l !! i = if decide (i = length l ∧ k = length l) then Some d else l !! i.
Proof.
  intros Hk. unfold ensure_index. destruct (decide (k = length l)) as [->|Hn].
  - replace (S (length l) - length l)%nat with 1%nat by lia. change (replicate 1 d) with [d]. rewrite lookup_snoc.
    destruct (decide (i = length l)), (decide (i = length l ∧ length l = length l)); tauto.
  - replace (S k - length l)%nat with 0%nat by lia. rewrite app_nil_r, decide_False by tauto. done.
Qed.

Lemma combine_indexed_lookup mine theirs :
  length (combine_indexed d f mine theirs) = Nat.max (length mine) (length theirs) ∧
  ∀ i, combine_indexed d f mine theirs !! i =
    match theirs !! i with Some b => Some (f (default d (mine !! i)) b) | None => mine !! i end.
Proof.
  induction theirs as [|b theirs [IHl IH]] using rev_ind; [split; [cbn; lia|done]|].
  unfold combine_indexed. rewrite imap_app, foldl_app. cbn [imap foldl].
  rewrite Nat.add_0_r. fold (combine_indexed d f mine theirs).
  split.
  { rewrite length_alter. unfold ensure_index. rewrite !length_app, length_replicate, IHl. cbn. lia. }
  intros i. rewrite lookup_snoc. destruct (decide (i = length theirs)) as [->|Hi].
  - rewrite list_lookup_alter, decide_True by done. rewrite lookup_ensure_index, IH by lia. rewrite (lookup_ge_None_2 theirs) by lia.
    destruct (decide _) as [[Hl _]|Hl].
    + by rewrite (lookup_ge_None_2 mine) by lia.
    + destruct (lookup_lt_is_Some_2 mine (length theirs)) as [a ->]; [lia|done].
  - rewrite list_lookup_alter_ne, lookup_ensure_index by lia. rewrite decide_False by lia. apply IH.
Qed.

Lemma combine_indexed_same l : (∀ w, f w w = w) → combine_indexed d f l l = l.
Proof. intros Hf. apply list_eq. intros i. rewrite (proj2 (combine_indexed_lookup l l)). destruct (l !! i); [cbn; by rewrite Hf|done]. Qed.

Lemma combine_zip_lookup mine theirs i :
  combine_zip f mine theirs !! i =
  match mine !! i, theirs !! i with Some a, Some b => Some (f a b) | a, _ => a end.
Proof.
  revert theirs i. induction mine as [|a mine IH]; intros [|b theirs] [|i]; try done; cbn [combine_zip lookup list_lookup].
  - by destruct (mine !! i).
  - apply IH.
Qed.

Lemma combine_zip_same (P : W → Prop) l : (∀ w, P w → f w w = w) → Forall P l → combine_zip f l l = l.
Proof. intros Hf. induction 1; [done|]. cbn. f_equal; auto. Qed.
End Indexed.

(** *** The whole *)

(** The maps of a partially signed transaction are in order. *)
Record psbt_maps_wf (m : Psbt) : Prop := {
  pmw_xpub : bmap_wf (psbt_xpub m);
  pmw_proprietary : bmap_wf (psbt_proprietary m);
  pmw_unknown : bmap_wf (psbt_unknown m);
  pmw_inputs : Forall input_maps_wf (psbt_inputs m);
  pmw_outputs : Forall output_maps_wf (psbt_outputs m) }.

(** What two of them of the same transaction combine to, with the keys [xpub]. *)
Definition combined (a b : Psbt) (xpub : list (Xpub * KeySource)) : Psbt :=
  {| psbt_inputs := combine_zip psbt_input_combine (psbt_inputs a) (psbt_inputs b);
     psbt_outputs := combine_zip output_combine (psbt_outputs a) (psbt_outputs b);
     unsigned_tx := unsigned_tx a; psbt_xpub := xpub; psbt_version := Z.max (psbt_version a) (psbt_version b);
     psbt_proprietary := bmap_extend (psbt_proprietary a) (psbt_proprietary b);
     psbt_unknown := bmap_extend (psbt_unknown a) (psbt_unknown b);
     mweb_tx_offset := mweb_tx_offset a ∪ mweb_tx_offset b; mweb_stealth_offset := mweb_stealth_offset a ∪ mweb_stealth_offset b;
     mweb_kernels := combine_indexed kernel_default kernel_combine (mweb_kernels a) (mweb_kernels b);
     mweb_inputs := combine_indexed input_default input_combine (mweb_inputs a) (mweb_inputs b);
     mweb_outputs := combine_indexed output_default Output.combine (mweb_outputs a) (mweb_outputs b) |}.

Lemma psbt_combine_eq a b :
  psbt_combine a b =
  if decide (unsigned_tx a = unsigned_tx b) then
    '(xpub, r) ← merge_xpubs (psbt_xpub a) (psbt_xpub b);
    Some (match r with
          | Ok _ => (combined a b xpub, Ok tt)
          | Err e => (set psbt_xpub_f xpub (set psbt_version_f (Z.max (psbt_version a) (psbt_version b)) a), Err e)
          end)
  else Some (a, Err (UnexpectedUnsignedTx (unsigned_tx a) (unsigned_tx b))).
Proof.
  unfold psbt_combine. destruct (decide (unsigned_tx a = unsigned_tx b)) as [Ht|Ht].
  2: by rewrite bool_decide_false.
  rewrite bool_decide_true by done. cbn [negb].
  change (psbt_xpub (set psbt_version_f _ a)) with (psbt_xpub a).
  destruct (merge_xpubs (psbt_xpub a) (psbt_xpub b)) as [[xpub [[]|e]]|]; [|done..]. cbn [mbind option_bind].
  cbv zeta. rewrite !merge_field_eq by field_laws. destruct a, b. done.
Qed.

Lemma combine_zip_length {W} (f : W → W → W) mine theirs : length (combine_zip f mine theirs) = length mine.
Proof. revert theirs. induction mine as [|x mine IH]; intros [|y theirs]; try done. cbn. by rewrite IH. Qed.

Lemma combine_zip_Forall {W} (P : W → Prop) (f : W → W → W) mine theirs :
  (∀ x y, P x → P y → P (f x y)) → Forall P mine → Forall P theirs → Forall P (combine_zip f mine theirs).
Proof.
  intros Hf Hm. revert theirs. induction Hm as [|x mine Hx Hm IH]; intros theirs Ht; [by constructor|].
  destruct Ht as [|y theirs Hy Ht]; cbn; constructor; auto.
Qed.

Lemma psbt_combine_same m : psbt_maps_wf m → psbt_combine m m = Some (m, Ok tt).
Proof.
  intros [Hx Hp Hu Hi Ho]. rewrite psbt_combine_eq, decide_True, merge_xpubs_same by done. cbn [mbind option_bind].
  do 2 f_equal. unfold combined. rewrite Z.max_id, !option_or_idem, !bmap_extend_idem by done.
  rewrite (combine_zip_same _ input_maps_wf), (combine_zip_same _ output_maps_wf); [|..].
  - rewrite !combine_indexed_same; [by destruct m|..].
    all: intros w; pose proof mweb_combine_laws as Hl.
    + by destruct (Hl w w w input_default input_default input_default kernel_default kernel_default kernel_default) as ((_ & _ & E & _) & _).
    + by destruct (Hl output_default output_default output_default w w w kernel_default kernel_default kernel_default) as (_ & (_ & _ & E & _) & _).
    + by destruct (Hl output_default output_default output_default input_default input_default input_default w w w) as (_ & _ & (_ & _ & E & _)).
  - intros w Hw. by destruct (output_combine_laws w w w Hw Hw Hw) as (_ & _ & E & _).
  - done.
  - apply psbt_input_combine_idem.
  - done.
Qed.

(** ** Theorems *)

(** Some key of both has derivations that are not compatible. *)
Lemma both_incompatible (P : Xpub → KeySource → KeySource → Prop) mine theirs :
  (∀ x own source, bmap_get x mine = Some own → bmap_get x theirs = Some source → compatible own source) →
  (∀ x own source, P x own source → ∀ kept, merge_source own source ≠ Some (Some kept)) → ¬ both P mine theirs.
Proof. intros Hc HP (x & own & source & Ho & Hs & H'). eapply HP; [exact H'|]. by eapply merge_compatible, Hc. Qed.


(** C37: Combining keeps the maps in order, a map for each input and output, the checks of
    the unsigned transaction, and what is there already: combined with itself, a partially
    signed transaction is unchanged. *)
Theorem psbt_combine_preserves (a b c : Psbt) (r : result Error unit) :
  psbt_maps_wf a → psbt_maps_wf b → psbt_combine a b = Some (c, r) →
  psbt_maps_wf c ∧ unsigned_tx c = unsigned_tx a ∧ unsigned_tx_checks c = unsigned_tx_checks a ∧
  length (psbt_inputs c) = length (psbt_inputs a) ∧ length (psbt_outputs c) = length (psbt_outputs a) ∧
  psbt_version a <= psbt_version c ∧ psbt_combine c c = Some (c, Ok tt).
Proof.
  intros Ha Hb Hc.
  assert (psbt_maps_wf c ∧ unsigned_tx c = unsigned_tx a ∧ unsigned_tx_checks c = unsigned_tx_checks a ∧
    length (psbt_inputs c) = length (psbt_inputs a) ∧ length (psbt_outputs c) = length (psbt_outputs a) ∧
    psbt_version a <= psbt_version c) as (Hw & ? & ? & ? & ? & ?).
  2: split_and!; try done; by apply psbt_combine_same.
  rewrite psbt_combine_eq in Hc. destruct (decide _) as [Ht|Ht]; [|by injection Hc as <- _].
  pose proof (merge_xpubs_spec (psbt_xpub a) (psbt_xpub b) (pmw_xpub _ Ha) (pmw_xpub _ Hb)) as Hm.
  destruct (merge_xpubs _ _) as [[xpub [[]|e]]|]; [| |done]; cbn [mbind option_bind xpubs_post] in Hc, Hm.
  - apply (inj Some) in Hc. injection Hc as <- _. destruct Hm as [Hm _], Ha, Hb.
    split; [|split_and!; [done|done|apply combine_zip_length|apply combine_zip_length|apply Z.le_max_l]].
    split; [done|by apply bmap_extend_wf|by apply bmap_extend_wf|..]; apply combine_zip_Forall; try done.
    + intros x y [] []. rewrite psbt_input_combine_eq. by split; apply bmap_extend_wf.
    + intros x y [] []. rewrite output_combine_eq. by split; apply bmap_extend_wf.
  - apply (inj Some) in Hc. injection Hc as <- _. destruct Hm as [Hm _], Ha.
    split; [by destruct a|]. destruct a. split_and!; try done. apply Z.le_max_l.
Qed.
End CombineLaws.

#[local] Existing Instances PlainSecp.plain_keys PlainSecp.plain_keys_laws PlainSecp.plain_secp PlainSecp.plain_secp_laws.
#[local] Existing Instances PlainTaprootKeys.keys PlainTaprootKeys.keys_laws.

#[local] Existing Instance plain_xonly_ordered.

Lemma merge_source_spec_witness :
  merge_source (replicate 4 x11, [Normal 7]) (replicate 4 x22, [Hardened 0; Normal 7]) =
    Some (Some (replicate 4 x22, [Hardened 0; Normal 7])) ∧
  [Normal 7] `suffix_of` [Hardened 0; Normal 7].
Proof.
  assert (merge_source (replicate 4 x11, [Normal 7]) (replicate 4 x22, [Hardened 0; Normal 7]) =
    Some (Some (replicate 4 x22, [Hardened 0; Normal 7]))) as Hm by (vm_compute; reflexivity).
  split; [exact Hm|]. destruct (merge_source_spec (replicate 4 x11, [Normal 7]) (replicate 4 x22, [Hardened 0; Normal 7])) as (_ & _ & Hk).
  destruct (Hk _ Hm) as (_ & Hs & _). exact Hs.
Defined.

Lemma sample_psbt_maps : psbt_maps_wf sample_psbt.
Proof. split; [done|done|by split|apply Forall_singleton; by split|apply Forall_singleton; by split]. Qed.

(** The sample with another pair at its unknown key. *)
Definition sample_other : Psbt := set psbt_unknown_f [({| type_value := 0x0f; key := [x01] |}, [x04])] sample_psbt.

Lemma sample_other_maps : psbt_maps_wf sample_other.
Proof. split; [done|done|by split|apply Forall_singleton; by split|apply Forall_singleton; by split]. Qed.


Lemma psbt_combine_preserves_witness : psbt_combine sample_other sample_other = Some (sample_other, Ok tt).
Proof.
  assert (psbt_combine sample_other sample_other = Some (sample_other, Ok tt)) as Hc by (apply psbt_combine_same, sample_other_maps).
  by destruct (psbt_combine_preserves _ _ _ _ sample_other_maps sample_other_maps Hc) as (_ & _ & _ & _ & _ & _ & E).
Defined.

(** Combining is not commutative: the unknown pairs of the argument win. *)
Lemma psbt_combine_order :
  option_map (λ c, psbt_unknown (fst c)) (psbt_combine sample_psbt sample_other) ≠
  option_map (λ c, psbt_unknown (fst c)) (psbt_combine sample_other sample_psbt).
Proof. rewrite !psbt_combine_eq, !decide_True by reflexivity. vm_compute. discriminate. Qed.

(** Equal paths with different fingerprints, where the comment in [combine] reports an
    error: the derivation of the argument is kept. *)
Example equal_paths_other_fingerprint :
  merge_source (replicate 4 x11, [Normal 7]) (replicate 4 x22, [Normal 7]) = Some (Some (replicate 4 x22, [Normal 7])).
Proof. vm_compute. reflexivity. Qed.
