(* ===== verification/PsbtSign.v ===== *)
(** Signing a partially signed transaction ([src/litecoin/src/psbt/mod.rs]): the output that
    an input spends and its type, the message to sign, and the signatures that [sign] adds
    with the keys it is given. *)

From S2P Require Import Witness.
From Stdlib Require Import String ZArith Lia ZifyBool.
From stdpp Require Import base list.
From Stdlib Require Import Init.Byte.
From coqutil Require Import Byte Word.LittleEndianList.
From S2P Require Import Prelude Io Ordered HashEngine Sha256 Tagged Encode Mimblewimble Units Locktime Transaction Opcodes Script Templates.
From S2P Require Import Taproot Sighash Keys Bip32 Psbt PsbtValues PsbtMweb PsbtOutput PsbtInput PsbtGlobal PsbtTx.
Import Raw.

(** ** Errors and types *)

Inductive IndexOutOfBoundsError :=
| IndexInputs (index len : nat)
| IndexTxInput (index len : nat).

Inductive SignError :=
| SignIndexOutOfBounds (e : IndexOutOfBoundsError)
| SignInvalidSighashType
| MissingInputUtxo
| MissingRedeemScript
| MissingSpendUtxo
| MissingWitnessScript
| MismatchedAlgoKey
| NotEcdsa
| NotWpkh
| SegwitV0Sighash (e : InputsIndexError)
| P2wpkhSighash (e : P2wpkhError)
| SignTaprootError (e : Sighash.TaprootError)
| UnknownOutputType
| KeyNotFound
| WrongSigningAlgorithm
| Unsupported.

Inductive OutputType := Bare | Wpkh | Wsh | ShWpkh | ShWsh | Sh | Tr.

Inductive SigningAlgorithm := AlgoEcdsa | AlgoSchnorr.
#[export] Instance signing_algorithm_eq_dec : EqDecision SigningAlgorithm.
Proof. solve_decision. Defined.

(** [OutputType::signing_algorithm] *)
Definition type_algorithm (self : OutputType) : SigningAlgorithm :=
  match self with
  | Bare | Wpkh | Wsh | ShWpkh | ShWsh | Sh => AlgoEcdsa
  | Tr => AlgoSchnorr
  end.

(** Results of code that may panic, which is [None]. *)
Notation panics A := (option (result SignError A)).
Definition pr_bind {A B} (m : panics A) (k : A → panics B) : panics B :=
  match m with Some (Ok a) => k a | Some (Err e) => Some (Err e) | None => None end.
Notation "'let&' x ':=' m 'in' k" := (pr_bind m (λ x, k)) (at level 10, x pattern, m at level 100, k at level 200).
Definition pr_ok {A} (a : A) : panics A := Some (Ok a).
Definition pr_err {A} (e : SignError) : panics A := Some (Err e).

Section PsbtSign.
Context `{Secp256k1, TaprootKeys, !Ordered XOnly}.

(** ** What is spent *)

Definition check_index_is_within_bounds (self : Psbt) (input_index : nat) : result IndexOutOfBoundsError unit :=
  if (length (psbt_inputs self) <=? input_index)%nat then Err (IndexInputs input_index (length (psbt_inputs self)))
  else if (length (input (unsigned_tx self)) <=? input_index)%nat then
    Err (IndexTxInput input_index (length (input (unsigned_tx self))))
  else Ok tt.

Definition checked_input (self : Psbt) (input_index : nat) : panics PsbtInput :=
  let& _ := Some (result_map_err SignIndexOutOfBounds (check_index_is_within_bounds self input_index)) in
  i ← psbt_inputs self !! input_index; pr_ok i.

Definition spend_utxo (self : Psbt) (input_index : nat) : panics TxOut :=
  let& inp := checked_input self input_index in
  match in_witness_utxo inp, in_non_witness_utxo inp with
  | Some witness_utxo, _ => pr_ok witness_utxo
  | None, Some non_witness_utxo =>
      txin ← input (unsigned_tx self) !! input_index;
      utxo ← output non_witness_utxo !! Z.to_nat (vout (previous_output txin));
      pr_ok utxo
  | None, None => pr_err MissingSpendUtxo
  end.

Definition output_type (self : Psbt) (input_index : nat) : panics OutputType :=
  let& inp := checked_input self input_index in
  let& utxo := spend_utxo self input_index in
  let spk := script_pubkey utxo in
  let redeem p := from_option p false (in_redeem_script inp) in
  if negb (is_witness_program spk || is_p2sh spk) then pr_ok Bare
  else if is_p2wpkh spk then pr_ok Wpkh
  else if is_p2wsh spk then pr_ok Wsh
  else if is_p2sh spk then
    if redeem is_p2wpkh then pr_ok ShWpkh else if redeem is_p2wsh then pr_ok ShWsh else pr_ok Sh
  else if is_p2tr spk then pr_ok Tr
  else pr_err UnknownOutputType.

Definition signing_algorithm (self : Psbt) (input_index : nat) : panics SigningAlgorithm :=
  let& ot := output_type self input_index in pr_ok (type_algorithm ot).

(** ** The message to sign *)

(** A computation with the cache. *)
Definition cached (A : Type) : Type := SighashCache → option (SighashCache * result SignError A).
Definition cd_lift {A} (m : panics A) : cached A := λ c, match m with Some r => Some (c, r) | None => None end.
Definition cd_bind {A B} (m : cached A) (k : A → cached B) : cached B := λ c,
  '(c, r) ← m c; match r with Ok a => k a c | Err e => Some (c, Err e) end.
Definition cd_call {E A} (into : E → SignError) (m : SighashCache → option (SighashCache * result E A)) : cached A := λ c,
  '(c, r) ← m c; Some (c, result_map_err into r).

Definition sighash_ecdsa (self : Psbt) (input_index : nat) : cached (list byte * EcdsaSighashType) :=
  cd_bind (cd_lift (let& algorithm := signing_algorithm self input_index in
                    if negb (bool_decide (algorithm = AlgoEcdsa)) then pr_err WrongSigningAlgorithm
                    else
                      let& inp := checked_input self input_index in
                      let& utxo := spend_utxo self input_index in
                      let& hash_ty := Some (result_map_err (λ _, SignInvalidSighashType) (ecdsa_hash_ty inp)) in
                      let& ot := output_type self input_index in
                      pr_ok (inp, utxo, hash_ty, ot)))
  (λ '(inp, utxo, hash_ty, ot),
     let spk := script_pubkey utxo in
     (** [expect] *)
     let legacy s : cached (list byte) := λ c,
       r ← legacy_signature_hash c input_index s (Ecdsa.to_u32 hash_ty);
       match r with Ok h => Some (c, Ok h) | Err _ => None end in
     let p2wpkh s := cd_call P2wpkhSighash (p2wpkh_signature_hash input_index s (Transaction.value utxo) hash_ty) in
     cd_bind
       match ot with
       | Bare => legacy spk
       | Sh =>
           cd_bind (cd_lift (Some (ok_or (in_redeem_script inp) MissingRedeemScript))) legacy
       | Wpkh => p2wpkh spk
       | ShWpkh => cd_bind (cd_lift (redeem_script ← in_redeem_script inp; pr_ok redeem_script)) p2wpkh
       | Wsh | ShWsh =>
           cd_bind (cd_lift (Some (ok_or (in_witness_script inp) MissingWitnessScript)))
             (λ witness_script,
                cd_call SegwitV0Sighash (p2wsh_signature_hash input_index witness_script (Transaction.value utxo) hash_ty))
       | Tr => cd_lift (pr_err Unsupported)
       end
       (λ h, cd_lift (pr_ok (h, hash_ty)))).

(** [self.spend_utxo(i).ok()] for every map. *)
Definition spend_utxos (self : Psbt) : option (list (option TxOut)) :=
  mapM (λ i, match spend_utxo self i with Some (Ok utxo) => Some (Some utxo) | Some (Err _) => Some None | None => None end)
    (seq 0 (length (psbt_inputs self))).

Definition taproot_prevouts (self : Psbt) (input_index : nat) (hash_ty : TapSighashType) : panics Prevouts :=
  utxos ← spend_utxos self;
  let is_anyone_can_pay := negb (Z.land (Tap.to_u8 hash_ty) 0x80 =? 0) in
  if is_anyone_can_pay then
    utxo ← utxos !! input_index;
    let& utxo := Some (ok_or utxo MissingSpendUtxo) in pr_ok (One input_index utxo)
  else if forallb (λ u, bool_decide (is_Some u)) utxos then pr_ok (All (omap id utxos))
  else pr_err MissingSpendUtxo.

Definition sighash_taproot (self : Psbt) (input_index : nat) (leaf_hash : option (list byte)) :
    cached (list byte * TapSighashType) :=
  cd_bind (cd_lift (let& algorithm := signing_algorithm self input_index in
                    if negb (bool_decide (algorithm = AlgoSchnorr)) then pr_err WrongSigningAlgorithm
                    else
                      let& inp := checked_input self input_index in
                      let& ot := output_type self input_index in
                      match ot with
                      | Tr =>
                          let& hash_ty := Some (result_map_err (λ _, SignInvalidSighashType)
                             (psbt_taproot_hash_ty (default {| sighash_inner := Tap.to_u8 Tap.Default |} (in_sighash_type inp)))) in
                          let& prev_outs := taproot_prevouts self input_index hash_ty in
                          pr_ok (hash_ty, prev_outs)
                      | _ => pr_err Unsupported
                      end))
  (λ '(hash_ty, prev_outs),
     cd_bind
       (cd_call SignTaprootError
          match leaf_hash with
          | Some leaf_hash => taproot_script_spend_signature_hash input_index prev_outs leaf_hash hash_ty
          | None => taproot_key_spend_signature_hash input_index prev_outs hash_ty
          end)
       (λ h, cd_lift (pr_ok (h, hash_ty)))).
End PsbtSign.

(** ** Kinds of outputs *)

Section Kinds.
Implicit Types s spk : script.

Lemma p2wpkh_program s : is_p2wpkh s = true ↔ ∃ p, length p = 20%nat ∧ s = program_script V0 p.
Proof. apply (sized_program s V0 20); lia. Qed.
Lemma p2wsh_program s : is_p2wsh s = true ↔ ∃ p, length p = 32%nat ∧ s = program_script V0 p.
Proof. apply (sized_program s V0 32); lia. Qed.
Lemma p2tr_program s : is_p2tr s = true ↔ ∃ p, length p = 32%nat ∧ s = program_script V1 p.
Proof. apply (sized_program s V1 32); lia. Qed.
Lemma witness_program_iff s : is_witness_program s = true ↔ ∃ v p, program_length p ∧ s = program_script v p.
Proof.
  unfold is_witness_program. rewrite bool_decide_eq_true. split.
  - intros [v Hv]. exists v. by apply witness_version_spec.
  - intros (v & Hp). exists v. by apply witness_version_spec.
Qed.

Definition p2sh_script (h : list byte) : script := [OP_HASH160; OP_PUSHBYTES_20] ++ h ++ [OP_EQUAL].
Lemma p2sh_program s : is_p2sh s = true ↔ ∃ h, length h = 20%nat ∧ s = p2sh_script h.
Proof. apply is_p2sh_framed. Qed.

Lemma p2sh_not_program s : is_p2sh s = true → is_witness_program s = false.
Proof. intros Hs. pose proof (at_most_one s) as Ho. rewrite Hs in Ho. destruct (is_witness_program s); [cbn in Ho; lia|done]. Qed.

(** The kind of a script that is spent, with the redeem script of the map. *)
Definition type_of spk (redeem_script : option script) : result SignError OutputType :=
  if negb (is_witness_program spk || is_p2sh spk) then Ok Bare
  else if is_p2wpkh spk then Ok Wpkh
  else if is_p2wsh spk then Ok Wsh
  else if is_p2sh spk then
    if from_option is_p2wpkh false redeem_script then Ok ShWpkh
    else if from_option is_p2wsh false redeem_script then Ok ShWsh else Ok Sh
  else if is_p2tr spk then Ok Tr
  else Err UnknownOutputType.

(** The same by the bytes of the scripts. *)
Inductive spends spk (redeem_script : option script) : OutputType → Prop :=
| spends_bare :
    (∀ h, length h = 20%nat → spk ≠ p2sh_script h) → (∀ v p, program_length p → spk ≠ program_script v p) →
    spends spk redeem_script Bare
| spends_wpkh h : length h = 20%nat → spk = program_script V0 h → spends spk redeem_script Wpkh
| spends_wsh h : length h = 32%nat → spk = program_script V0 h → spends spk redeem_script Wsh
| spends_tr k : length k = 32%nat → spk = program_script V1 k → spends spk redeem_script Tr
| spends_sh_wpkh h r :
    length h = 20%nat → spk = p2sh_script h → length r = 20%nat → redeem_script = Some (program_script V0 r) →
    spends spk redeem_script ShWpkh
| spends_sh_wsh h r :
    length h = 20%nat → spk = p2sh_script h → length r = 32%nat → redeem_script = Some (program_script V0 r) →
    spends spk redeem_script ShWsh
| spends_sh h :
    length h = 20%nat → spk = p2sh_script h →
    (∀ r, length r = 20%nat ∨ length r = 32%nat → redeem_script ≠ Some (program_script V0 r)) →
    spends spk redeem_script Sh.

Lemma type_of_program v p r :
  program_length p →
  type_of (program_script v p) r =
  if bool_decide (v = V0) && (length p =? 20)%nat then Ok Wpkh
  else if bool_decide (v = V0) && (length p =? 32)%nat then Ok Wsh
  else if bool_decide (v = V1) && (length p =? 32)%nat then Ok Tr
  else Err UnknownOutputType.
Proof.
  intros Hp. assert (is_witness_program (program_script v p) = true) as Hw by (apply witness_program_iff; eauto).
  unfold type_of. rewrite Hw. destruct (program_kinds v p Hp) as (-> & -> & ->). cbn [orb negb].
  destruct (is_p2sh (program_script v p)) eqn:Hs; [|done]. by rewrite (p2sh_not_program _ Hs) in Hw.
Qed.

Lemma type_of_p2sh h r :
  length h = 20%nat →
  type_of (p2sh_script h) r =
  if from_option is_p2wpkh false r then Ok ShWpkh else if from_option is_p2wsh false r then Ok ShWsh else Ok Sh.
Proof.
  intros Hh. assert (is_p2sh (p2sh_script h) = true) as Hs by (apply p2sh_program; eauto).
  unfold type_of. rewrite Hs, (p2sh_not_program _ Hs). cbn [orb negb].
  assert (is_p2wpkh (p2sh_script h) = false ∧ is_p2wsh (p2sh_script h) = false) as [-> ->]; [|done].
  unfold is_p2wpkh, is_p2wsh, p2sh_script. rewrite !length_app, Hh. done.
Qed.

Lemma type_of_spends spk r ot : type_of spk r = Ok ot ↔ spends spk r ot.
Proof.
  split.
  - intros Ht. destruct (is_witness_program spk) eqn:Hw; [|destruct (is_p2sh spk) eqn:Hs].
    + apply witness_program_iff in Hw as (v & p & Hp & ->). rewrite type_of_program in Ht by done.
      destruct (bool_decide (v = V0) && (length p =? 20)%nat) eqn:E1.
      { injection Ht as <-. apply andb_prop in E1 as [->%bool_decide_eq_true E%Nat.eqb_eq]. by eapply spends_wpkh. }
      destruct (bool_decide (v = V0) && (length p =? 32)%nat) eqn:E2.
      { injection Ht as <-. apply andb_prop in E2 as [->%bool_decide_eq_true E%Nat.eqb_eq]. by eapply spends_wsh. }
      destruct (bool_decide (v = V1) && (length p =? 32)%nat) eqn:E3; [|done].
      injection Ht as <-. apply andb_prop in E3 as [->%bool_decide_eq_true E%Nat.eqb_eq]. by eapply spends_tr.
    + apply p2sh_program in Hs as (h & Hh & ->). rewrite type_of_p2sh in Ht by done.
      destruct r as [r|]; cbn [from_option] in Ht; [|injection Ht as <-; eapply spends_sh; [done|done|by intros ? _]].
      destruct (is_p2wpkh r) eqn:E1; [injection Ht as <-; apply p2wpkh_program in E1 as (p & Hp & ->); by apply (spends_sh_wpkh _ _ h p)|].
      destruct (is_p2wsh r) eqn:E2; [injection Ht as <-; apply p2wsh_program in E2 as (p & Hp & ->); by apply (spends_sh_wsh _ _ h p)|].
      injection Ht as <-. eapply spends_sh; [done|done|]. intros p [Hp|Hp] [= ->].
      * by rewrite (proj2 (p2wpkh_program _)) in E1 by eauto.
      * by rewrite (proj2 (p2wsh_program _)) in E2 by eauto.
    + unfold type_of in Ht. rewrite Hw, Hs in Ht. injection Ht as <-. apply spends_bare.
      * intros h Hh ->. by rewrite (proj2 (p2sh_program _)) in Hs by eauto.
      * intros v p Hp ->. by rewrite (proj2 (witness_program_iff _)) in Hw by eauto.
  - destruct 1 as [Hs Hw|h Hh ->|h Hh ->|k Hk ->|h p Hh -> Hp ->|h p Hh -> Hp ->|h Hh -> Hr].
    + unfold type_of. destruct (is_witness_program spk) eqn:E1; [apply witness_program_iff in E1 as (? & ? & ? & ?); naive_solver|].
      destruct (is_p2sh spk) eqn:E2; [apply p2sh_program in E2 as (? & ? & ?); naive_solver|]. done.
    + rewrite type_of_program by (unfold program_length; lia). by rewrite Hh.
    + rewrite type_of_program by (unfold program_length; lia). by rewrite Hh.
    + rewrite type_of_program by (unfold program_length; lia). by rewrite Hk.
    + rewrite type_of_p2sh by done. cbn [from_option]. by rewrite (proj2 (p2wpkh_program _)) by eauto.
    + rewrite type_of_p2sh by done. cbn [from_option]. destruct (program_kinds V0 p) as (-> & -> & _); [unfold program_length; lia|].
      by rewrite Hp.
    + rewrite type_of_p2sh by done. destruct r as [r|]; [|done]. cbn [from_option].
      destruct (is_p2wpkh r) eqn:E1; [apply p2wpkh_program in E1 as (p & Hp & ->); exfalso; eapply Hr; eauto|].
      destruct (is_p2wsh r) eqn:E2; [apply p2wsh_program in E2 as (p & Hp & ->); exfalso; eapply Hr; eauto|done].
Qed.

Lemma type_of_unknown spk r e :
  type_of spk r = Err e ↔ e = UnknownOutputType ∧ ∃ v p, program_length p ∧ spk = program_script v p ∧
    ¬ (v = V0 ∧ (length p = 20%nat ∨ length p = 32%nat)) ∧ ¬ (v = V1 ∧ length p = 32%nat).
Proof.
  split.
  - intros Ht. destruct (is_witness_program spk) eqn:Hw; [|destruct (is_p2sh spk) eqn:Hs].
    + apply witness_program_iff in Hw as (v & p & Hp & ->). rewrite type_of_program in Ht by done.
      destruct (bool_decide_reflect (v = V0)), (bool_decide_reflect (v = V1)), (Nat.eqb_spec (length p) 20), (Nat.eqb_spec (length p) 32);
        cbn [andb] in Ht; try done; injection Ht as <-; (split; [done|]); exists v, p; (split_and!; [done|done|tauto|tauto]).
    + apply p2sh_program in Hs as (h & Hh & ->). rewrite type_of_p2sh in Ht by done. by repeat case_match.
    + unfold type_of in Ht. by rewrite Hw, Hs in Ht.
  - intros (-> & v & p & Hp & -> & H0 & H1). rewrite type_of_program by done.
    destruct (bool_decide_reflect (v = V0)), (bool_decide_reflect (v = V1)), (Nat.eqb_spec (length p) 20), (Nat.eqb_spec (length p) 32);
      cbn [andb]; try done; tauto.
Qed.
End Kinds.

(** ** The messages *)

Section SignMessages.
Context `{Secp256k1, TaprootKeys, !Ordered XOnly, !PublicKeyLaws}.
Implicit Types (self : Psbt) (i : nat) (utxo : TxOut).

Lemma check_index_ok self i :
  check_index_is_within_bounds self i = Ok tt ↔ (i < length (psbt_inputs self))%nat ∧ (i < length (input (unsigned_tx self)))%nat.
Proof. unfold check_index_is_within_bounds. repeat case_match; bool_lia; split; try done; lia. Qed.

Lemma spend_utxo_ok self i utxo :
  spend_utxo self i = Some (Ok utxo) ↔
  ∃ inp txin, psbt_inputs self !! i = Some inp ∧ input (unsigned_tx self) !! i = Some txin ∧ funding_utxo txin inp = Ok utxo.
Proof.
  unfold spend_utxo, checked_input, funding_utxo. destruct (check_index_is_within_bounds self i) as [[]|e] eqn:Hc.
  - apply check_index_ok in Hc as [[inp Hi]%lookup_lt_is_Some [txin Ht]%lookup_lt_is_Some]. rewrite Hi, Ht.
    cbn [result_map_err pr_bind mbind option_bind pr_ok].
    destruct (in_witness_utxo inp) eqn:Hw; [|destruct (in_non_witness_utxo inp) as [t|] eqn:Hn].
    + split; [intros [= <-]|intros (? & ? & [= <-] & [= <-] & E)]; [exists inp, txin; by rewrite Hw|by rewrite Hw in E; injection E as <-].
    + destruct (output t !! _) as [u|] eqn:Hu; cbn [mbind option_bind]; (split; [intros [= <-]|intros (? & ? & [= <-] & [= <-] & E)]).
      * exists inp, txin. by rewrite Hw, Hn, Hu.
      * rewrite Hw, Hn, Hu in E. by injection E as <-.
      * rewrite Hw, Hn, Hu in E. done.
    + split; [done|intros (? & ? & [= <-] & [= <-] & E)]. by rewrite Hw, Hn in E.
  - split; [done|]. intros (inp & txin & Hi%lookup_lt_Some & Ht%lookup_lt_Some & _).
    by rewrite (proj2 (check_index_ok self i)) in Hc by done.
Qed.

Lemma checked_input_eq self i inp utxo :
  spend_utxo self i = Some (Ok utxo) → psbt_inputs self !! i = Some inp → checked_input self i = Some (Ok inp).
Proof.
  intros (? & txin & _ & Ht & _)%spend_utxo_ok Hi. unfold checked_input.
  rewrite (proj2 (check_index_ok self i)) by (split; by eapply lookup_lt_Some). cbn. by rewrite Hi.
Qed.

Lemma output_type_eq self i inp utxo :
  spend_utxo self i = Some (Ok utxo) → psbt_inputs self !! i = Some inp →
  output_type self i = Some (type_of (script_pubkey utxo) (in_redeem_script inp)).
Proof.
  intros Hu Hi. unfold output_type. rewrite (checked_input_eq self i inp utxo), Hu by done. cbn [pr_bind]. unfold type_of.
  by repeat case_match.
Qed.

(** The kind of output that an input spends, by the bytes of the script spent and of the
    redeem script: exactly one kind fits, or the script is a witness program of a version and
    length that has none; an index without a map or without an input is an error. *)
Theorem output_type_spec (self : Psbt) (i : nat) :
  (∀ inp utxo, spend_utxo self i = Some (Ok utxo) → psbt_inputs self !! i = Some inp →
     ∃ r, output_type self i = Some r ∧
       (∀ ot, r = Ok ot ↔ spends (script_pubkey utxo) (in_redeem_script inp) ot) ∧
       (∀ e, r = Err e ↔ e = UnknownOutputType ∧ ∃ v p, program_length p ∧ script_pubkey utxo = program_script v p ∧
          ¬ (v = V0 ∧ (length p = 20%nat ∨ length p = 32%nat)) ∧ ¬ (v = V1 ∧ length p = 32%nat))) ∧
  ((length (psbt_inputs self) <= i)%nat →
     output_type self i = Some (Err (SignIndexOutOfBounds (IndexInputs i (length (psbt_inputs self)))))) ∧
  ((length (input (unsigned_tx self)) <= i < length (psbt_inputs self))%nat →
     output_type self i = Some (Err (SignIndexOutOfBounds (IndexTxInput i (length (input (unsigned_tx self))))))).
Proof.
  split_and!.
  - intros inp utxo Hu Hi. exists (type_of (script_pubkey utxo) (in_redeem_script inp)). split; [by apply output_type_eq|].
    split; intros; [apply type_of_spends|apply type_of_unknown].
  - intros Hi. unfold output_type, checked_input, check_index_is_within_bounds. by rewrite (proj2 (Nat.leb_le _ _) Hi).
  - intros [Hi Hj]. unfold output_type, checked_input, check_index_is_within_bounds.
    by rewrite (proj2 (Nat.leb_gt _ _) Hj), (proj2 (Nat.leb_le _ _) Hi).
Qed.

(** The script that a P2WPKH signature commits to. *)
Definition wpkh_code (spk : script) : script := [OP_DUP; OP_HASH160; OP_PUSHBYTES_20] ++ drop 2 spk ++ [OP_EQUALVERIFY; OP_CHECKSIG].

Lemma p2wpkh_script_code_eq spk : is_p2wpkh spk = true → p2wpkh_script_code spk = Some (wpkh_code spk).
Proof.
  intros Hp. unfold p2wpkh_script_code. rewrite Hp, script_code_p2pkh. apply template_p2pkh; [|done].
  unfold is_p2wpkh in Hp. apply andb_true_iff in Hp as [[Hl _]%andb_true_iff _]. apply Nat.eqb_eq in Hl.
  rewrite length_drop. lia.
Qed.

(** What an ECDSA signature of an input signs. *)
Definition legacy_digest (t : Transaction) i (code : script) (hash_ty : Z) : list byte :=
  if single_flag 0x1f hash_ty && (length (output t) <=? i)%nat then UINT256_ONE
  else sha256d_hash (legacy_message t i code hash_ty).
Definition segwit_digest (t : Transaction) i (code : script) (value hash_ty : Z) : result SignError (list byte) :=
  result_map_err SegwitV0Sighash (result_map sha256d_hash (bip143 t i code value hash_ty)).

Definition ecdsa_digest (t : Transaction) i (inp : PsbtInput) utxo (ot : OutputType) (hash_ty : Z) : result SignError (list byte) :=
  let spk := script_pubkey utxo in
  let segwit code := segwit_digest t i code (Transaction.value utxo) hash_ty in
  match ot with
  | Bare => Ok (legacy_digest t i spk hash_ty)
  | Sh => let? redeem := ok_or (in_redeem_script inp) MissingRedeemScript in Ok (legacy_digest t i redeem hash_ty)
  | Wpkh => segwit (wpkh_code spk)
  | ShWpkh => segwit (wpkh_code (default [] (in_redeem_script inp)))
  | Wsh | ShWsh => let? witness_script := ok_or (in_witness_script inp) MissingWitnessScript in segwit witness_script
  | Tr => Err WrongSigningAlgorithm
  end.

Definition fits_opt (o : option script) : Prop := ∀ s, o = Some s → fits_u64 s.
Record scripts_fit (inp : PsbtInput) utxo : Prop := {
  sf_spk : fits_u64 (script_pubkey utxo);
  sf_redeem : fits_opt (in_redeem_script inp);
  sf_witness : fits_opt (in_witness_script inp) }.

Section Served.
Context (ps : list TxOut) (Hps : Forall script_fits ps) (t : Transaction).

Lemma call_p2wpkh c i spk value ty :
  serving ps t c → is_p2wpkh spk = true → (i < length (input t))%nat →
  ∃ c', cd_call P2wpkhSighash (p2wpkh_signature_hash i spk value ty) c =
    Some (c', segwit_digest t i (wpkh_code spk) value (Ecdsa.to_u32 ty)) ∧ serving ps t c'.
Proof.
  intros Hc Hs Hi. destruct (serve_ok ps Hps t c (RP2wpkh i spk value ty) Hc I) as (c' & He & Hc'). exists c'. split; [|done].
  cbn [serve respond] in He. unfold cd_call. destruct (p2wpkh_signature_hash i spk value ty c) as [[c1 r]|]; [|done].
  cbn [mbind option_bind] in *. rewrite p2wpkh_script_code_eq in He by done. injection He as -> ->.
  do 2 f_equal. unfold segwit_digest, bip143, tx_in. apply lookup_lt_is_Some in Hi as [txin Hi]. rewrite Hi. done.
Qed.

Lemma call_p2wsh c i s value ty :
  serving ps t c → fits_u64 s →
  ∃ c', cd_call SegwitV0Sighash (p2wsh_signature_hash i s value ty) c =
    Some (c', segwit_digest t i s value (Ecdsa.to_u32 ty)) ∧ serving ps t c'.
Proof.
  intros Hc Hs. destruct (serve_ok ps Hps t c (RP2wsh i s value ty) Hc Hs) as (c' & He & Hc'). exists c'. split; [|done].
  cbn [serve respond] in He. unfold cd_call. destruct (p2wsh_signature_hash i s value ty c) as [[c1 r]|]; [|done].
  cbn [mbind option_bind] in *. by injection He as -> ->.
Qed.

Lemma call_legacy c i s ty :
  serving ps t c → fits_u64 s → (i < length (input t))%nat →
  legacy_signature_hash c i s ty = Some (Ok (legacy_digest t i s ty)).
Proof.
  intros Hc Hs Hi. rewrite (serve_legacy ps t c i s ty Hc Hs), decide_True by done. unfold legacy_digest.
  by destruct (single_flag 31 ty && _).
Qed.
End Served.

(** The digest and the hash type, or why there is none. *)
Definition ecdsa_message self i (inp : PsbtInput) utxo : result SignError (list byte * EcdsaSighashType) :=
  let? ot := type_of (script_pubkey utxo) (in_redeem_script inp) in
  match ot with
  | Tr => Err WrongSigningAlgorithm
  | _ =>
      let? ty := result_map_err (λ _, SignInvalidSighashType) (ecdsa_hash_ty inp) in
      let? h := ecdsa_digest (unsigned_tx self) i inp utxo ot (Ecdsa.to_u32 ty) in Ok (h, ty)
  end.

Lemma sighash_ecdsa_ok self i inp utxo ps c :
  Forall script_fits ps → serving ps (unsigned_tx self) c → scripts_fit inp utxo →
  spend_utxo self i = Some (Ok utxo) → psbt_inputs self !! i = Some inp →
  ∃ c', serving ps (unsigned_tx self) c' ∧ sighash_ecdsa self i c = Some (c', ecdsa_message self i inp utxo).
Proof.
  intros Hps Hc [Fs Fr Fw] Hu Hi. pose proof Hu as (? & txin & _ & Ht%lookup_lt_Some & _)%spend_utxo_ok.
  unfold ecdsa_message, sighash_ecdsa, signing_algorithm.
  rewrite (output_type_eq self i inp utxo), (checked_input_eq self i inp utxo), Hu by done.
  destruct (type_of (script_pubkey utxo) (in_redeem_script inp)) as [ot|e] eqn:Hot; cbn [pr_bind pr_ok]; [|by exists c].
  destruct (ecdsa_hash_ty inp) as [ty|e] eqn:Hty.
  2: { exists c. split; [done|]. by destruct ot. }
  assert (∀ A (f : _ → cached A), ot ≠ Tr → cd_bind (cd_lift (if negb (bool_decide (type_algorithm ot = AlgoEcdsa))
      then pr_err WrongSigningAlgorithm else pr_ok (inp, utxo, ty, ot))) f c = f (inp, utxo, ty, ot) c) as Hstart by by destruct ot.
  assert (∀ c' (r : result SignError (list byte)) (m : cached (list byte)), serving ps (unsigned_tx self) c' → m c = Some (c', r) →
    ∃ c'0, serving ps (unsigned_tx self) c'0 ∧
      cd_bind m (λ h, cd_lift (pr_ok (h, ty))) c = Some (c'0, let? h := r in Ok (h, ty))) as Hend.
  { intros c' r m Hc' Hm. exists c'. split; [done|]. unfold cd_bind. rewrite Hm. by destruct r. }
  cbn [result_map_err]. apply type_of_spends in Hot.
  destruct Hot as [_ _|h Hh Hs|h Hh Hs|k _ _|h r _ _ Hr Hrs|h r _ _ _ _|h _ _ _].
  4: by exists c.
  all: rewrite Hstart by done; cbn [ecdsa_digest result_bind]; cbv zeta.
  - eapply (Hend c (Ok _)); [done|]. by rewrite (call_legacy ps (unsigned_tx self) c i _ _ Hc Fs Ht).
  - destruct (call_p2wpkh ps Hps (unsigned_tx self) c i (script_pubkey utxo) (Transaction.value utxo) ty Hc) as (c' & E & Hc');
      [apply p2wpkh_program; by eexists|done|]. eapply (Hend c'); [done|exact E].
  - destruct (in_witness_script inp) as [w|] eqn:Hw; [|exists c; split; [exact Hc|reflexivity]]. 
    destruct (call_p2wsh ps Hps (unsigned_tx self) c i w (Transaction.value utxo) ty Hc (Fw w eq_refl)) as (c' & E & Hc'). eapply (Hend c'); [done|exact E].
  - rewrite Hrs. cbn [default from_option id].
    destruct (call_p2wpkh ps Hps (unsigned_tx self) c i (program_script V0 r) (Transaction.value utxo) ty Hc) as (c' & E & Hc');
      [apply p2wpkh_program; by eexists|done|]. eapply (Hend c'); [done|exact E].
  - destruct (in_witness_script inp) as [w|] eqn:Hw; [|exists c; split; [exact Hc|reflexivity]].
    destruct (call_p2wsh ps Hps (unsigned_tx self) c i w (Transaction.value utxo) ty Hc (Fw w eq_refl)) as (c' & E & Hc'). eapply (Hend c'); [done|exact E].
  - destruct (in_redeem_script inp) as [s|] eqn:Hs; [|exists c; split; [exact Hc|reflexivity]]. eapply (Hend c (Ok _)); [done|].
    unfold cd_bind at 1, cd_lift at 1. cbn [ok_or mbind option_bind].
    by rewrite (call_legacy ps (unsigned_tx self) c i _ _ Hc (Fr s eq_refl) Ht).
Qed.

(** *** Taproot *)

Lemma spend_utxos_at self us i utxo : spend_utxos self = Some us → spend_utxo self i = Some (Ok utxo) → us !! i = Some (Some utxo).
Proof.
  unfold spend_utxos. intros Hus%mapM_Some Hu. pose proof Hu as (inp & _ & Hi%lookup_lt_Some & _)%spend_utxo_ok.
  destruct (Forall2_lookup_l _ _ _ i i Hus) as (o & Ho & He); [by apply lookup_seq_lt|]. cbv beta in He. by rewrite Hu in He; injection He as <-.
Qed.

Lemma hash_ty_default inp :
  psbt_taproot_hash_ty (default {| sighash_inner := Tap.to_u8 Tap.Default |} (in_sighash_type inp)) = taproot_hash_ty inp.
Proof. unfold taproot_hash_ty. by destruct (in_sighash_type inp). Qed.

(** The outputs that the message commits to. *)
Definition prevouts_of (us : list (option TxOut)) i utxo (ty : TapSighashType) : result SignError Prevouts :=
  if anyone_can_pay_flag (Tap.to_u8 ty) then Ok (One i utxo)
  else if forallb (λ u, bool_decide (is_Some u)) us then Ok (All (omap id us)) else Err MissingSpendUtxo.

Lemma taproot_prevouts_eq self us i utxo ty :
  spend_utxos self = Some us → spend_utxo self i = Some (Ok utxo) →
  taproot_prevouts self i ty = Some (prevouts_of us i utxo ty).
Proof.
  intros Hus Hu. unfold taproot_prevouts, prevouts_of. rewrite Hus. cbn [mbind option_bind]. rewrite (spend_utxos_at self us i utxo) by done.
  assert (negb (Z.land (Tap.to_u8 ty) 0x80 =? 0) = anyone_can_pay_flag (Tap.to_u8 ty)) as -> by by destruct ty.
  destruct (anyone_can_pay_flag _); [done|]. by destruct (forallb _ us).
Qed.

(** The digest and the hash type, or why there is none. *)
Definition taproot_message self i (leaf_hash : option (list byte)) (inp : PsbtInput) utxo (us : list (option TxOut)) :
    result SignError (list byte * TapSighashType) :=
  let? ot := type_of (script_pubkey utxo) (in_redeem_script inp) in
  match ot with
  | Tr =>
      let? ty := result_map_err (λ _, SignInvalidSighashType) (taproot_hash_ty inp) in
      let? prevouts := prevouts_of us i utxo ty in
      let? h := result_map_err SignTaprootError (result_map (tagged_hash TAP_SIGHASH)
                  (bip341 (unsigned_tx self) i prevouts None (option_map (λ leaf, (leaf, U32_MAX)) leaf_hash) (Tap.to_u8 ty))) in
      Ok (h, ty)
  | _ => Err WrongSigningAlgorithm
  end.

(** The outputs [ps] of the cache are those of the maps, when all are known. *)
Definition prevouts_agree (us : list (option TxOut)) (ps : list TxOut) : Prop :=
  forallb (λ u, bool_decide (is_Some u)) us = true → omap id us = ps.

Lemma sighash_taproot_ok self i leaf_hash inp utxo us ps c :
  Forall script_fits ps → serving ps (unsigned_tx self) c → spend_utxos self = Some us → script_fits utxo → prevouts_agree us ps →
  spend_utxo self i = Some (Ok utxo) → psbt_inputs self !! i = Some inp →
  ∃ c', serving ps (unsigned_tx self) c' ∧ sighash_taproot self i leaf_hash c = Some (c', taproot_message self i leaf_hash inp utxo us).
Proof.
  intros Hps Hc Hus Hfit Hall Hu Hi. unfold prevouts_agree in Hall. unfold taproot_message, sighash_taproot, signing_algorithm.
  rewrite (output_type_eq self i inp utxo), (checked_input_eq self i inp utxo) by done.
  destruct (type_of (script_pubkey utxo) (in_redeem_script inp)) as [[]|e]; try by exists c. cbn [pr_bind pr_ok type_algorithm result_bind].
  rewrite bool_decide_true by done. cbn [negb]. rewrite hash_ty_default.
  destruct (taproot_hash_ty inp) as [ty|e]; [|by exists c]. cbn [result_map_err result_bind pr_bind].
  rewrite (taproot_prevouts_eq self us i utxo) by done.
  assert (∀ prevouts, prevouts_of us i utxo ty = Ok prevouts → prevouts_ok ps prevouts) as Hok.
  { unfold prevouts_of. destruct (anyone_can_pay_flag _); [by intros ? [= <-]|].
    destruct (forallb _ us); [|done]. intros ? [= <-]. by apply Hall. }
  destruct (prevouts_of us i utxo ty) as [prevouts|e]; [|by exists c]. specialize (Hok _ eq_refl).
  assert (∃ c', serving ps (unsigned_tx self) c' ∧
    cd_call SignTaprootError match leaf_hash with
      | Some leaf_hash => taproot_script_spend_signature_hash i prevouts leaf_hash ty
      | None => taproot_key_spend_signature_hash i prevouts ty end c =
    Some (c', result_map_err SignTaprootError (result_map (tagged_hash TAP_SIGHASH)
      (bip341 (unsigned_tx self) i prevouts None (option_map (λ leaf, (leaf, U32_MAX)) leaf_hash) (Tap.to_u8 ty))))) as (c' & Hc' & E).
  { destruct leaf_hash as [leaf|].
    - destruct (serve_taproot ps Hps (unsigned_tx self) c i prevouts None (Some (leaf, U32_MAX)) ty Hc Hok I) as (c' & E & Hc').
      exists c'. split; [done|]. unfold cd_call, taproot_script_spend_signature_hash. change 0xFFFFFFFF with U32_MAX. by rewrite E.
    - destruct (serve_taproot ps Hps (unsigned_tx self) c i prevouts None None ty Hc Hok I) as (c' & E & Hc').
      exists c'. split; [done|]. unfold cd_call, taproot_key_spend_signature_hash. by rewrite E. }
  exists c'. split; [done|]. unfold cd_bind at 1, cd_lift at 1. cbn [pr_bind pr_ok bool_decide negb mbind option_bind].
  unfold cd_bind. cbn. rewrite E. cbn [mbind option_bind]. by destruct (result_map_err SignTaprootError _).
Qed.

(** The messages to sign. For an input whose output is known there is no panic, whatever
    the cache served before. [sighash_ecdsa] gives the legacy digest of the script spent or of
    the redeem script, or the BIP143 digest of the P2PKH script of the program or of the
    witness script, by the kind of the output and the hash type of the map; [sighash_taproot]
    the BIP341 digest, of the key or, given a leaf, of the script, committing to the one output
    spent when anyone can pay and else to all of them, which must be known. A missing script,
    a non-standard hash type and an output of the other algorithm are errors. *)
Theorem sighash_messages (self : Psbt) (i : nat) (leaf_hash : option (list byte)) (inp : PsbtInput) (utxo : TxOut)
    (us : list (option TxOut)) (ps : list TxOut) (c : SighashCache) :
  Forall script_fits ps → serving ps (unsigned_tx self) c → scripts_fit inp utxo → spend_utxos self = Some us → prevouts_agree us ps →
  spend_utxo self i = Some (Ok utxo) → psbt_inputs self !! i = Some inp →
  (∃ c', serving ps (unsigned_tx self) c' ∧ sighash_ecdsa self i c = Some (c', ecdsa_message self i inp utxo)) ∧
  (∃ c', serving ps (unsigned_tx self) c' ∧
     sighash_taproot self i leaf_hash c = Some (c', taproot_message self i leaf_hash inp utxo us)).
Proof. intros Hps Hc Hfit Hus Hag Hu Hi. split; [by apply sighash_ecdsa_ok|]. by apply sighash_taproot_ok; [..|apply Hfit| | |]. Qed.
End SignMessages.

#[local] Existing Instances PlainSecp.plain_keys PlainSecp.plain_keys_laws PlainSecp.plain_secp PlainSecp.plain_secp_laws.
#[local] Existing Instances PlainTaprootKeys.keys PlainTaprootKeys.keys_laws.

#[local] Existing Instance plain_xonly_ordered.

Lemma sample_unsigned_wf : tx_wf sample_unsigned_tx.
Proof.
  constructor; cbn; try done.
  - split; [|done]. constructor; [|constructor]. constructor; cbn; done.
  - constructor; [|constructor]. by exists [].
  - split; [|done]. constructor; [|constructor]. constructor; cbn; done.
Qed.

Lemma sample_serving ps : serving ps sample_unsigned_tx (cache_new sample_unsigned_tx).
Proof.
  constructor; [constructor; try done; apply outputs_fit, sample_unsigned_wf|apply sample_unsigned_wf|split_and!; reflexivity].
Qed.

(** The sample spends a bare output. *)
Lemma sighash_messages_witness :
  ∃ c', sighash_ecdsa sample_psbt 0 (cache_new sample_unsigned_tx) =
    Some (c', ecdsa_message sample_psbt 0 sample_psbt_input {| Transaction.value := 5000; script_pubkey := [x51] |}).
Proof.
  destruct (sighash_messages sample_psbt 0 None sample_psbt_input {| Transaction.value := 5000; script_pubkey := [x51] |}
    [Some {| Transaction.value := 5000; script_pubkey := [x51] |}] [{| Transaction.value := 5000; script_pubkey := [x51] |}]
    (cache_new sample_unsigned_tx)) as [(c' & _ & E) _].
  - by repeat constructor.
  - apply sample_serving.
  - split; [done|by intros ? [= <-]|by intros ? [=]].
  - reflexivity.
  - done.
  - reflexivity.
  - reflexivity.
  - by exists c'.
Defined.

Lemma output_type_spec_witness : output_type sample_psbt 1 = Some (Err (SignIndexOutOfBounds (IndexInputs 1 1))) ∧
  ∃ r, output_type sample_psbt 0 = Some r ∧ (r = Ok Bare ↔ spends [x51] (Some [x51]) Bare).
Proof.
  destruct (output_type_spec sample_psbt 1) as (_ & H1' & _). split; [apply H1'; cbn; lia|].
  destruct (output_type_spec sample_psbt 0) as (Hr & _). destruct (Hr sample_psbt_input _ eq_refl eq_refl) as (r & E & Hok & _).
  exists r. split; [exact E|exact (Hok Bare)].
Defined.
