(* ===== verification/PsbtSigner.v ===== *)
(** The signer of partially signed transactions ([sign], [bip32_sign_ecdsa],
    [bip32_sign_schnorr], [GetKey] of [src/litecoin/src/psbt/mod.rs]): which keys are asked
    for, which signatures are added, and what they sign. *)

From S2P Require Import Witness.
From Stdlib Require Import String ZArith Lia ZifyBool.
From stdpp Require Import base list.
From Stdlib Require Import Init.Byte.
From coqutil Require Import Byte Word.LittleEndianList.
From S2P Require Import Prelude Io Ordered HashEngine Sha256 Tagged Encode Mimblewimble Units Locktime Transaction Opcodes Script Templates.
From S2P Require Import Taproot Sighash Keys Bip32 Psbt PsbtValues PsbtMweb PsbtOutput PsbtInput PsbtGlobal PsbtTx PsbtSign.
Import Raw.

(** ** The library

    Public keys of secret keys, key pairs and their tweaks, and the two kinds of
    signature. *)
Class Signer `{Secp256k1, TaprootKeys} := {
  public_key_of : SecretKey → PublicKey;
  secret_negate : SecretKey → SecretKey;
  x_only_public_key : PublicKey → XOnly * bool;
  public_key_of_xonly : XOnly → bool → PublicKey;
  Keypair : Type;
  keypair_of : SecretKey → Keypair;
  keypair_xonly : Keypair → XOnly;
  keypair_add_xonly_tweak : Keypair → Scalar → option Keypair;
  sign_ecdsa : list byte → SecretKey → EcdsaSig;
  verify_ecdsa : list byte → EcdsaSig → PublicKey → bool;
  sign_schnorr : list byte → Keypair → SchnorrSig;
  verify_schnorr : list byte → SchnorrSig → XOnly → bool }.

(** Documented: what is signed verifies for the key, and the key of a tweaked pair is the
    tweaked key. *)
Class SignerLaws `{Signer} : Prop := {
  ecdsa_verifies msg sk : verify_ecdsa msg (sign_ecdsa msg sk) (public_key_of sk) = true;
  schnorr_verifies msg kp : verify_schnorr msg (sign_schnorr msg kp) (keypair_xonly kp) = true;
  tweak_xonly kp s kp' : keypair_add_xonly_tweak kp s = Some kp' →
    ∃ parity, xonly_add_tweak (keypair_xonly kp) s = Some (keypair_xonly kp', parity) }.

Section Requests.
Context `{Secp256k1, TaprootKeys}.

(** ** Keys *)

Inductive KeyRequest :=
| ReqPubkey (pk : BitcoinKey)
| ReqBip32 (source : KeySource)
| ReqXOnlyPubkey (xonly : XOnly).


Inductive GetKeyError := GetKeyBip32 (e : Bip32.Error) | NotSupported.
End Requests.

(** The trait; [Ok None] when there is no such key. *)
Class GetKey `{Secp256k1, TaprootKeys} (K : Type) := {
  get_key_error : Type;
  get_key : K → KeyRequest → result get_key_error (option PrivateKey) }.

Section Keys.
Context `{Secp256k1, TaprootKeys, !Signer, !Ordered XOnly}.

Definition priv_public_key (self : PrivateKey) : BitcoinKey :=
  {| compressed := priv_compressed self; inner := public_key_of (secret self) |}.
Definition priv_negate (self : PrivateKey) : PrivateKey :=
  {| priv_compressed := priv_compressed self; network := network self; secret := secret_negate (secret self) |}.

(** [impl_get_key_for_pubkey_map!] *)
Definition pubkey_map_get_key (self : list (BitcoinKey * PrivateKey)) (key_request : KeyRequest) :
    result GetKeyError (option PrivateKey) :=
  match key_request with
  | ReqPubkey pk => Ok (bmap_get pk self)
  | ReqXOnlyPubkey xonly =>
      match bmap_get (key_new (public_key_of_xonly xonly false)) self with
      | Some key => Ok (Some key)
      | None =>
          match bmap_get (key_new (public_key_of_xonly xonly true)) self with
          | Some priv_key => Ok (Some (priv_negate priv_key))
          | None => Ok None
          end
      end
  | ReqBip32 _ => Err NotSupported
  end.
#[export] Instance pubkey_map_keys : GetKey (list (BitcoinKey * PrivateKey)) :=
  {| get_key_error := GetKeyError; get_key := pubkey_map_get_key |}.

(** [impl_get_key_for_xonly_map!] *)
Definition xonly_map_get_key (self : list (XOnly * PrivateKey)) (key_request : KeyRequest) :
    result GetKeyError (option PrivateKey) :=
  match key_request with
  | ReqXOnlyPubkey xonly => Ok (bmap_get xonly self)
  | ReqPubkey pk =>
      let '(xonly, parity) := x_only_public_key (inner pk) in
      match bmap_get xonly self with
      | Some priv_key =>
          let computed_pk := priv_public_key priv_key in
          let '(_, computed_parity) := x_only_public_key (inner computed_pk) in
          Ok (Some (if negb (eqb computed_parity parity) then priv_negate priv_key else priv_key))
      | None => Ok None
      end
  | ReqBip32 _ => Err NotSupported
  end.
#[export] Instance xonly_map_keys : GetKey (list (XOnly * PrivateKey)) :=
  {| get_key_error := GetKeyError; get_key := xonly_map_get_key |}.

(** The two requests, one after the other; an error is no key. *)
Definition request_key {K} `{!GetKey K} (k : K) (first second : KeyRequest) : option PrivateKey :=
  match get_key k first with
  | Ok (Some sk) => Some sk
  | _ => match get_key k second with Ok (Some sk) => Some sk | _ => None end
  end.

(** [tap_tweak] of a key pair; [None]: the panics of [to_scalar] and of [expect]. *)
Definition keypair_tap_tweak (self : Keypair) (merkle_root : option (list byte)) : option Keypair :=
  tweak ← scalar_from_be_bytes (tap_tweak_hash (keypair_xonly self) merkle_root);
  keypair_add_xonly_tweak self tweak.
End Keys.

Section Signing.
Context `{Secp256k1, TaprootKeys, !Signer, !Ordered XOnly, !GetKey K}.

#[local] Instance xonly_eq_dec : EqDecision XOnly := ordered_eq_dec.

Definition put_input (self : Psbt) (i : nat) (inp : PsbtInput) : Psbt :=
  set psbt_inputs_f (<[i := inp]> (psbt_inputs self)) self.

(** ** ECDSA *)

(** The loop over the derivations: the signatures, and the keys used. *)
Fixpoint ecdsa_loop (k : K) (msg : result SignError (list byte * EcdsaSighashType)) (sources : list (PublicKey * KeySource))
    (sigs : list (BitcoinKey * EcdsaSignature)) (used : list BitcoinKey) :
    list (BitcoinKey * EcdsaSignature) * result SignError (list BitcoinKey) :=
  match sources with
  | [] => (sigs, Ok used)
  | (pk, key_source) :: sources =>
      match request_key k (ReqBip32 key_source) (ReqPubkey (key_new pk)) with
      | None => ecdsa_loop k msg sources sigs used
      | Some sk =>
          match msg with
          | Err e => (sigs, Err e)
          | Ok (msg', sighash_ty) =>
              let sig := {| ecdsa_signature := sign_ecdsa msg' (secret sk); ecdsa_sighash_type := sighash_ty |} in
              let pk := priv_public_key sk in
              ecdsa_loop k msg sources (bmap_insert pk sig sigs) (used ++ [pk])
          end
      end
  end.

(** What is signed with, the cache, and the result. *)
Definition bip32_sign_ecdsa (k : K) (self : Psbt) (input_index : nat) (cache : SighashCache) :
    option (Psbt * SighashCache * result SignError (list BitcoinKey)) :=
  '(cache, msg) ← sighash_ecdsa self input_index cache;
  inp ← psbt_inputs self !! input_index;
  let '(sigs, r) := ecdsa_loop k msg (in_bip32_derivation inp) (in_partial_sigs inp) [] in
  Some (put_input self input_index (set in_partial_sigs_f sigs inp), cache, r).

(** ** Schnorr *)

(** A step on the input that is signed, the cache and the keys used. *)
Definition schnorr_state : Type := PsbtInput * SighashCache * list XOnly.

(** A loop that stops at an error, or at a panic. *)
Fixpoint try_fold {A} (f : A → schnorr_state → option (SighashCache * result SignError schnorr_state))
    (l : list A) (st : schnorr_state) : option (SighashCache * result SignError schnorr_state) :=
  match l with
  | [] => Some (snd (fst st), Ok st)
  | a :: l =>
      '(cache, r) ← f a st;
      match r with Ok st => try_fold f l st | Err e => Some (cache, Err e) end
  end.

Definition key_path_spend (self : Psbt) (input_index : nat) (sk : PrivateKey) (xonly : XOnly)
    (leaf_hashes : list (list byte)) (st : schnorr_state) : option (SighashCache * result SignError schnorr_state) :=
  let '(inp, cache, used) := st in
  match in_tap_internal_key inp with
  | Some internal_key =>
      if bool_decide (internal_key = xonly) && (length leaf_hashes =? 0)%nat && negb (bool_decide (is_Some (in_tap_key_sig inp))) then
        '(cache, r) ← sighash_taproot self input_index None cache;
        match r with
        | Err e => Some (cache, Err e)
        | Ok (msg, sighash_type) =>
            key_pair ← keypair_tap_tweak (keypair_of (secret sk)) (in_tap_merkle_root inp);
            let signature := {| schnorr_signature := sign_schnorr msg key_pair; tap_sighash_type := sighash_type |} in
            Some (cache, Ok (set in_tap_key_sig_f (Some signature) inp, cache, used ++ [internal_key]))
        end
      else Some (cache, Ok st)
  | None => Some (cache, Ok st)
  end.

(** The signature for one leaf. *)
Definition leaf_spend (self : Psbt) (input_index : nat) (key_pair : Keypair) (xonly : XOnly) (lh : list byte)
    (st : schnorr_state) : option (SighashCache * result SignError schnorr_state) :=
  let '(inp, cache, used) := st in
  '(cache, r) ← sighash_taproot self input_index (Some lh) cache;
  match r with
  | Err e => Some (cache, Err e)
  | Ok (msg, sighash_type) =>
      let signature := {| schnorr_signature := sign_schnorr msg key_pair; tap_sighash_type := sighash_type |} in
      Some (cache, Ok (set in_tap_script_sigs_f (bmap_insert (xonly, lh) signature (in_tap_script_sigs inp)) inp, cache, used))
  end.

Definition script_path_spend (self : Psbt) (input_index : nat) (sk : PrivateKey) (xonly : XOnly)
    (st : schnorr_state) : option (SighashCache * result SignError schnorr_state) :=
  let '(inp, cache, used) := st in
  match bmap_get xonly (in_tap_key_origins inp) with
  | Some (leaf_hashes, _) =>
      let leaf_hashes := filter (λ lh, bmap_get (xonly, lh) (in_tap_script_sigs inp) = None) leaf_hashes in
      match leaf_hashes with
      | [] => Some (cache, Ok st)
      | _ =>
          '(cache, r) ← try_fold (leaf_spend self input_index (keypair_of (secret sk)) xonly) leaf_hashes st;
          match r with
          | Err e => Some (cache, Err e)
          | Ok (inp, cache, used) =>
              Some (cache, Ok (inp, cache, used ++ [fst (x_only_public_key (inner (priv_public_key sk)))]))
          end
      end
  | None => Some (cache, Ok st)
  end.

Definition schnorr_step (k : K) (self : Psbt) (input_index : nat) (origin : XOnly * (list (list byte) * KeySource))
    (st : schnorr_state) : option (SighashCache * result SignError schnorr_state) :=
  let '(xonly, (leaf_hashes, key_source)) := origin in
  match request_key k (ReqBip32 key_source) (ReqXOnlyPubkey xonly) with
  | None => Some (snd (fst st), Ok st)
  | Some sk =>
      '(cache, r) ← key_path_spend self input_index sk xonly leaf_hashes st;
      match r with Ok st => script_path_spend self input_index sk xonly st | Err e => Some (cache, Err e) end
  end.

Definition bip32_sign_schnorr (k : K) (self : Psbt) (input_index : nat) (cache : SighashCache) :
    option (Psbt * SighashCache * result SignError (list XOnly)) :=
  r ← checked_input self input_index;
  match r with
  | Err e => Some (self, cache, Err e)
  | Ok inp =>
      '(cache, r) ← try_fold (schnorr_step k self input_index) (in_tap_key_origins inp) (inp, cache, []);
      match r with
      | Ok (inp, cache, used) => Some (put_input self input_index inp, cache, Ok used)
      | Err e => Some (self, cache, Err e)
      end
  end.

(** ** All inputs *)

Inductive SigningKeys :=
| EcdsaKeys (keys : list BitcoinKey)
| SchnorrKeys (keys : list XOnly).

(** The maps grow with the index. *)
Definition SigningKeysMap : Type := list (nat * SigningKeys).
Definition SigningErrors : Type := list (nat * SignError).

Definition sign_input (k : K) (st : Psbt * SighashCache * SigningKeysMap * SigningErrors) (i : nat) :
    option (Psbt * SighashCache * SigningKeysMap * SigningErrors) :=
  let '(self, cache, used, errors) := st in
  algorithm ← signing_algorithm self i;
  match algorithm with
  | Ok AlgoEcdsa =>
      '(self, cache, r) ← bip32_sign_ecdsa k self i cache;
      Some (match r with
            | Ok v => (self, cache, used ++ [(i, EcdsaKeys v)], errors)
            | Err e => (self, cache, used, errors ++ [(i, e)])
            end)
  | Ok AlgoSchnorr =>
      '(self, cache, r) ← bip32_sign_schnorr k self i cache;
      Some (match r with
            | Ok v => (self, cache, used ++ [(i, SchnorrKeys v)], errors)
            | Err e => (self, cache, used, errors ++ [(i, e)])
            end)
  | Err e => Some (self, cache, used, errors ++ [(i, e)])
  end.

Definition sign (k : K) (self : Psbt) : option (Psbt * result (SigningKeysMap * SigningErrors) SigningKeysMap) :=
  '(self', _, used, errors) ← foldl (λ o i, st ← o; sign_input k st i)
    (Some (self, cache_new (unsigned_tx self), [], [])) (seq 0 (length (psbt_inputs self)));
  Some (self', match errors with [] => Ok used | _ => Err (used, errors) end).
End Signing.

(** ** What is signed *)

Section EcdsaLaws.
Context `{SignerLaws, !PublicKeyLaws, !Ordered XOnly, !GetKey K}.

(** The keys that are found for the derivations. *)
Definition ecdsa_keys (k : K) (sources : list (PublicKey * KeySource)) : list PrivateKey :=
  omap (λ '(pk, key_source), request_key k (ReqBip32 key_source) (ReqPubkey (key_new pk))) sources.

Definition ecdsa_signature_by (sk : PrivateKey) (h : list byte) (ty : EcdsaSighashType) : EcdsaSignature :=
  {| ecdsa_signature := sign_ecdsa h (secret sk); ecdsa_sighash_type := ty |}.

Lemma ecdsa_loop_err k e sources sigs used :
  ecdsa_loop k (Err e) sources sigs used = (sigs, match ecdsa_keys k sources with [] => Ok used | _ => Err e end).
Proof.
  induction sources as [|[pk src] sources IH]; [done|]. cbn [ecdsa_loop]. unfold ecdsa_keys. cbn [omap list_omap].
  destruct (request_key _ _ _); [done|]. apply IH.
Qed.

Lemma ecdsa_loop_ok k h ty sources sigs used :
  ecdsa_loop k (Ok (h, ty)) sources sigs used =
  (foldl (λ sigs sk, bmap_insert (priv_public_key sk) (ecdsa_signature_by sk h ty) sigs) sigs (ecdsa_keys k sources),
   Ok (used ++ map priv_public_key (ecdsa_keys k sources))).
Proof.
  revert sigs used. induction sources as [|[pk src] sources IH]; intros sigs used; [cbn; by rewrite app_nil_r|].
  cbn [ecdsa_loop]. unfold ecdsa_keys. cbn [omap list_omap]. destruct (request_key _ _ _) as [sk|]; [|apply IH].
  rewrite IH. cbn [foldl map]. by rewrite <- app_assoc.
Qed.

Lemma signed_fold h ty sks sigs :
  bmap_wf sigs →
  let sigs' := foldl (λ sigs sk, bmap_insert (priv_public_key sk) (ecdsa_signature_by sk h ty) sigs) sigs sks in
  bmap_wf sigs' ∧
  (∀ pk, pk ∉ map priv_public_key sks → bmap_get pk sigs' = bmap_get pk sigs) ∧
  (∀ sk, sk ∈ sks → ∃ sk', sk' ∈ sks ∧ priv_public_key sk' = priv_public_key sk ∧
     bmap_get (priv_public_key sk) sigs' = Some (ecdsa_signature_by sk' h ty)).
Proof.
  intros Hw. cbv zeta. induction sks as [|sk sks (IHw & IHn & IHs)] using rev_ind; [split_and!; [done|done|by intros sk ?%elem_of_nil]|].
  rewrite foldl_snoc. split_and!; [by apply bmap_insert_wf| |].
  - intros pk Hpk. rewrite map_app, not_elem_of_app in Hpk. destruct Hpk as [Hpk Hne]. rewrite bmap_get_insert by done.
    rewrite decide_False; [by apply IHn|]. intros ->. apply Hne. left.
  - intros sk0 Hin. rewrite bmap_get_insert by done. destruct (decide (priv_public_key sk0 = priv_public_key sk)) as [E|E].
    + exists sk. split_and!; [apply elem_of_app; right; left|done|done].
    + apply elem_of_app in Hin as [Hin|Hin]; [|by apply list_elem_of_singleton in Hin as ->].
      destruct (IHs sk0 Hin) as (sk' & Hin' & E1 & E2). exists sk'. split_and!; [apply elem_of_app; by left|done|done].
Qed.

Lemma bip32_sign_ecdsa_ok k m i inp utxo ps c :
  Forall script_fits ps → serving ps (unsigned_tx m) c → scripts_fit inp utxo →
  spend_utxo m i = Some (Ok utxo) → psbt_inputs m !! i = Some inp →
  ∃ c', serving ps (unsigned_tx m) c' ∧
    let '(sigs, r) := ecdsa_loop k (ecdsa_message m i inp utxo) (in_bip32_derivation inp) (in_partial_sigs inp) [] in
    bip32_sign_ecdsa k m i c = Some (put_input m i (set in_partial_sigs_f sigs inp), c', r).
Proof.
  intros Hps Hc Hfit Hu Hi. destruct (sighash_ecdsa_ok m i inp utxo ps c) as (c' & Hc' & E); [done..|]. exists c'. split; [done|].
  unfold bip32_sign_ecdsa. rewrite E, Hi. cbn [mbind option_bind]. by destruct (ecdsa_loop _ _ _ _ _).
Qed.

(** C38: For an input whose output is known, [bip32_sign_ecdsa] does not panic; it signs the
    digest of the input's kind and hash type with each key found for its derivations, and only
    the partial signatures of that input change: those of the keys used verify, the others stay.
    When there is no digest no signature is added, and the error is reported only if there is
    a key. *)
Theorem bip32_sign_ecdsa_spec (k : K) (m : Psbt) (i : nat) (inp : PsbtInput) (utxo : TxOut) (ps : list TxOut) (c : SighashCache) :
  Forall script_fits ps → serving ps (unsigned_tx m) c → scripts_fit inp utxo →
  spend_utxo m i = Some (Ok utxo) → psbt_inputs m !! i = Some inp → bmap_wf (in_partial_sigs inp) →
  let sks := ecdsa_keys k (in_bip32_derivation inp) in
  ∃ c' sigs r, bip32_sign_ecdsa k m i c = Some (put_input m i (set in_partial_sigs_f sigs inp), c', r) ∧
    serving ps (unsigned_tx m) c' ∧
    match ecdsa_message m i inp utxo with
    | Err e => sigs = in_partial_sigs inp ∧ r = match sks with [] => Ok [] | _ => Err e end
    | Ok (h, ty) =>
        r = Ok (map priv_public_key sks) ∧
        (∀ pk, pk ∉ map priv_public_key sks → bmap_get pk sigs = bmap_get pk (in_partial_sigs inp)) ∧
        (∀ sk, sk ∈ sks → ∃ sig, bmap_get (priv_public_key sk) sigs = Some sig ∧ ecdsa_sighash_type sig = ty ∧
           verify_ecdsa h (ecdsa_signature sig) (public_key_of (secret sk)) = true)
    end.
Proof.
  intros Hps Hc Hfit Hu Hi Hw sks. destruct (bip32_sign_ecdsa_ok k m i inp utxo ps c) as (c' & Hc' & E); [done..|].
  destruct (ecdsa_message m i inp utxo) as [[h ty]|e].
  - rewrite ecdsa_loop_ok in E. eexists c', _, _. split_and!; [done|done|done|by apply signed_fold|].
    intros sk Hin. destruct (proj2 (proj2 (signed_fold h ty _ _ Hw)) sk Hin) as (sk' & _ & E1 & E2).
    eexists. split; [exact E2|]. split; [done|]. injection E1 as _ E1. rewrite <- E1. apply ecdsa_verifies.
  - rewrite ecdsa_loop_err in E. eexists c', _, _. split_and!; done.
Qed.
End EcdsaLaws.

Section SchnorrLaws.
Context `{SignerLaws, !PublicKeyLaws, !Ordered XOnly, !GetKey K}.
#[local] Existing Instance xonly_eq_dec.
Context (k : K) (m : Psbt) (i : nat) (inp : PsbtInput) (utxo : TxOut) (us : list (option TxOut)) (ps : list TxOut).

Definition taproot_key (xonly : XOnly) (source : KeySource) : option PrivateKey :=
  request_key k (ReqBip32 source) (ReqXOnlyPubkey xonly).

(** A signature of the key path: of the digest, by the output key. *)
Definition key_signed (s : TaprootSignature) : Prop :=
  ∃ xonly source sk h out parity,
    in_tap_internal_key inp = Some xonly ∧ (xonly, ([], source)) ∈ in_tap_key_origins inp ∧ taproot_key xonly source = Some sk ∧
    taproot_message m i None inp utxo us = Ok (h, tap_sighash_type s) ∧
    tap_tweak (keypair_xonly (keypair_of (secret sk))) (in_tap_merkle_root inp) = Some (out, parity) ∧
    verify_schnorr h (schnorr_signature s) out = true.

(** A signature of a leaf: of the digest for it, by the key that is found. *)
Definition leaf_signed (xonly : XOnly) (lh : list byte) (s : TaprootSignature) : Prop :=
  ∃ leaves source source' sk h,
    bmap_get xonly (in_tap_key_origins inp) = Some (leaves, source') ∧ lh ∈ leaves ∧ taproot_key xonly source = Some sk ∧
    taproot_message m i (Some lh) inp utxo us = Ok (h, tap_sighash_type s) ∧
    verify_schnorr h (schnorr_signature s) (keypair_xonly (keypair_of (secret sk))) = true.

(** The panic: the key found for the internal key, which is asked for as there is no
    signature of the key path, cannot be tweaked by the root of the input. *)
Definition untweakable : Prop :=
  ∃ xonly source sk,
    in_tap_internal_key inp = Some xonly ∧ (xonly, ([], source)) ∈ in_tap_key_origins inp ∧ taproot_key xonly source = Some sk ∧
    in_tap_key_sig inp = None ∧ keypair_tap_tweak (keypair_of (secret sk)) (in_tap_merkle_root inp) = None.

(** The input with the signatures so far, where those that were there are kept. *)
Definition with_sigs (ks : option TaprootSignature) (l : list (XOnly * list byte * TaprootSignature)) : PsbtInput :=
  set in_tap_script_sigs_f l (set in_tap_key_sig_f ks inp).
Record progress (ks : option TaprootSignature) (l : list (XOnly * list byte * TaprootSignature)) : Prop := {
  pg_wf : bmap_wf l;
  pg_key_kept : is_Some (in_tap_key_sig inp) → ks = in_tap_key_sig inp;
  pg_key_new : ∀ s, in_tap_key_sig inp = None → ks = Some s → key_signed s;
  pg_leaf_kept : ∀ p s, bmap_get p (in_tap_script_sigs inp) = Some s → bmap_get p l = Some s;
  pg_leaf_new : ∀ x lh s, bmap_get (x, lh) (in_tap_script_sigs inp) = None → bmap_get (x, lh) l = Some s → leaf_signed x lh s }.

Definition good (st : schnorr_state) : Prop :=
  ∃ ks l c used, st = (with_sigs ks l, c, used) ∧ serving ps (unsigned_tx m) c ∧ progress ks l.

Definition has_leaf (x : XOnly) (lh : list byte) (st : schnorr_state) : Prop :=
  is_Some (bmap_get (x, lh) (in_tap_script_sigs (fst (fst st)))).
Definition has_key (st : schnorr_state) : Prop := is_Some (in_tap_key_sig (fst (fst st))).
Definition grows (st st' : schnorr_state) : Prop :=
  (∀ x lh, has_leaf x lh st → has_leaf x lh st') ∧ (has_key st → has_key st').

(** What a part of the loop leads to. *)
Definition leads_to (st : schnorr_state) (Q : schnorr_state → Prop) (o : option (SighashCache * result SignError schnorr_state)) : Prop :=
  match o with
  | Some (_, Ok st') => good st' ∧ grows st st' ∧ Q st'
  | Some (c, Err e) => serving ps (unsigned_tx m) c ∧ ∃ leaf_hash, taproot_message m i leaf_hash inp utxo us = Err e
  | None => untweakable
  end.

Lemma grows_refl st : grows st st.
Proof. by split. Qed.
Lemma grows_trans st1 st2 st3 : grows st1 st2 → grows st2 st3 → grows st1 st3.
Proof. intros [] []. split; auto. Qed.

Lemma try_fold_outcome {A} (f : A → schnorr_state → option (SighashCache * result SignError schnorr_state)) Q l st :
  (∀ a st, a ∈ l → good st → leads_to st (Q a) (f a st)) → (∀ a st st', grows st st' → Q a st → Q a st') →
  good st → leads_to st (λ st', ∀ a, a ∈ l → Q a st') (try_fold f l st).
Proof.
  intros Hf HQ. revert st. induction l as [|a l IH]; intros st Hst; cbn [try_fold].
  { split_and!; [done|apply grows_refl|by intros ? ?%elem_of_nil]. }
  specialize (Hf a st) as Ha. destruct (f a st) as [[c [st'|e]]|]; cbn [mbind option_bind]; [|by apply Ha; [left|]..].
  destruct Ha as (Hst' & Hg & Ha); [left|done|]. specialize (IH (λ a st Hin, Hf a st (list_elem_of_further _ _ _ Hin)) st' Hst').
  destruct (try_fold f l st') as [[c2 [st2|e]]|]; [|done|done]. destruct IH as (Hst2 & Hg2 & Hl).
  split_and!; [done|by eapply grows_trans|]. intros b [->|Hb]%elem_of_cons; [by eapply HQ|by apply Hl].
Qed.

Context (Hps : Forall script_fits ps) (Hus : spend_utxos m = Some us) (Hfit : script_fits utxo) (Hagree : prevouts_agree us ps).
Context (Hutxo : spend_utxo m i = Some (Ok utxo)) (Hinp : psbt_inputs m !! i = Some inp).

Lemma message_ok leaf_hash c :
  serving ps (unsigned_tx m) c →
  ∃ c', serving ps (unsigned_tx m) c' ∧ sighash_taproot m i leaf_hash c = Some (c', taproot_message m i leaf_hash inp utxo us).
Proof. intros Hc. by apply sighash_taproot_ok. Qed.

(** One more signature of a leaf. *)
Lemma progress_leaf ks l x lh s :
  progress ks l → bmap_get (x, lh) (in_tap_script_sigs inp) = None → leaf_signed x lh s →
  progress ks (bmap_insert (x, lh) s l).
Proof.
  intros [Hw Hk Hn Hlk Hln] Hx Hs. split; [by apply bmap_insert_wf|done|done| |].
  - intros p t Hp. rewrite bmap_get_insert by done. rewrite decide_False; [by apply Hlk|]. intros ->. by rewrite Hx in Hp.
  - intros y lh' t Hy. rewrite bmap_get_insert by done. destruct (decide _) as [[= -> ->]|]; [by intros [= <-]|by apply Hln].
Qed.

Lemma leaf_outcome leaves source source' sk xonly lh st :
  bmap_get xonly (in_tap_key_origins inp) = Some (leaves, source') → lh ∈ leaves → taproot_key xonly source = Some sk →
  bmap_get (xonly, lh) (in_tap_script_sigs inp) = None → good st →
  leads_to st (has_leaf xonly lh) (leaf_spend m i (keypair_of (secret sk)) xonly lh st).
Proof.
  intros Hl Hin Hk Hnone (ks & l & c & used & -> & Hc & Hp). unfold leaf_spend.
  destruct (message_ok (Some lh) c Hc) as (c' & Hc' & E). rewrite E. cbn [mbind option_bind].
  destruct (taproot_message m i (Some lh) inp utxo us) as [[h ty]|e] eqn:Hm; [|split; [done|by eexists]].
  set (s := {| schnorr_signature := _ |}). change (in_tap_script_sigs (with_sigs ks l)) with l.
  assert (progress ks (bmap_insert (xonly, lh) s l)) as Hp'.
  { apply progress_leaf; [done|done|]. exists leaves, source, source', sk, h. split_and!; [done..|]. apply schnorr_verifies. }
  split_and!.
  - by exists ks, (bmap_insert (xonly, lh) s l), c', used.
  - split; [|done]. intros x lh'. unfold has_leaf. cbn [fst]. change (in_tap_script_sigs (with_sigs ks l)) with l.
    change (in_tap_script_sigs (set in_tap_script_sigs_f ?v _)) with v. rewrite bmap_get_insert by apply Hp.
    by destruct (decide _); [intros; eexists|].
  - unfold has_leaf. cbn [fst]. change (in_tap_script_sigs (set in_tap_script_sigs_f ?v _)) with v.
    rewrite bmap_get_insert by apply Hp. by rewrite decide_True.
Qed.

Lemma script_outcome source sk xonly st :
  taproot_key xonly source = Some sk → good st →
  leads_to st (λ st', ∀ leaves source' lh, bmap_get xonly (in_tap_key_origins inp) = Some (leaves, source') → lh ∈ leaves →
                has_leaf xonly lh st')
    (script_path_spend m i sk xonly st).
Proof.
  intros Hk Hst. pose proof Hst as (ks & l & c & used & -> & Hc & Hp). unfold script_path_spend.
  change (in_tap_key_origins (with_sigs ks l)) with (in_tap_key_origins inp). change (in_tap_script_sigs (with_sigs ks l)) with l.
  destruct (bmap_get xonly (in_tap_key_origins inp)) as [[leaves source']|] eqn:Hl; [|split_and!; [done|apply grows_refl|done]].
  assert (∀ lh, lh ∈ filter (λ lh, bmap_get (xonly, lh) l = None) leaves ↔ bmap_get (xonly, lh) l = None ∧ lh ∈ leaves) as Hfil
    by (intros lh; by rewrite list_elem_of_filter).
  assert (leads_to (with_sigs ks l, c, used) (λ st', ∀ lh, lh ∈ filter (λ lh, bmap_get (xonly, lh) l = None) leaves → has_leaf xonly lh st')
    (try_fold (leaf_spend m i (keypair_of (secret sk)) xonly) (filter (λ lh, bmap_get (xonly, lh) l = None) leaves) (with_sigs ks l, c, used))) as Ho.
  { apply (try_fold_outcome _ (has_leaf xonly)); [|by intros lh st st' [Hg _]; apply Hg|done].
    intros lh st Hin Hg. apply Hfil in Hin as [Hn Hin]. eapply leaf_outcome; [done|done|done| |done].
    destruct (bmap_get (xonly, lh) (in_tap_script_sigs inp)) eqn:E; [|done]. apply (pg_leaf_kept _ _ Hp) in E. congruence. }
  assert (∀ st', grows (with_sigs ks l, c, used) st' →
    (∀ lh, lh ∈ filter (λ lh, bmap_get (xonly, lh) l = None) leaves → has_leaf xonly lh st') → ∀ lh, lh ∈ leaves → has_leaf xonly lh st') as Hall.
  { intros st' [Hg _] Hs lh Hin. destruct (bmap_get (xonly, lh) l) eqn:E; [apply Hg; by eexists|]. apply Hs, Hfil. done. }
  destruct (filter _ leaves) as [|lh0 lhs].
  { split_and!; [done|apply grows_refl|]. intros ? ? lh [= <- <-]. apply Hall; [apply grows_refl|]. by intros ? ?%elem_of_nil. }
  destruct (try_fold _ _ _) as [[c' [[[inp' c''] used']|e]]|]; cbn [mbind option_bind]; [|done|done].
  destruct Ho as (Hg & Hgr & Hq). split_and!.
  - destruct Hg as (ks' & l' & c3 & used3 & [= -> -> ->] & Hc3 & Hp3).
    by exists ks', l', c3, (used3 ++ [fst (x_only_public_key (inner (priv_public_key sk)))]).
  - done.
  - intros ? ? lh [= <- <-]. by apply Hall.
Qed.

Lemma key_outcome leaf_hashes source sk xonly st :
  (xonly, (leaf_hashes, source)) ∈ in_tap_key_origins inp → taproot_key xonly source = Some sk → good st →
  leads_to st (λ st', in_tap_internal_key inp = Some xonly → leaf_hashes = [] → has_key st')
    (key_path_spend m i sk xonly leaf_hashes st).
Proof.
  intros Hin Hk Hst. pose proof Hst as (ks & l & c & used & -> & Hc & Hp). unfold key_path_spend.
  change (in_tap_internal_key (with_sigs ks l)) with (in_tap_internal_key inp).
  change (in_tap_key_sig (with_sigs ks l)) with ks. change (in_tap_merkle_root (with_sigs ks l)) with (in_tap_merkle_root inp).
  destruct (in_tap_internal_key inp) as [internal|] eqn:Hik; [|split_and!; [done|apply grows_refl|done]].
  destruct (bool_decide_reflect (internal = xonly)) as [->|Hne]; cbn [andb]; [|split_and!; [done|apply grows_refl|congruence]].
  destruct (Nat.eqb_spec (length leaf_hashes) 0) as [->%length_zero_iff_nil|Hl]; cbn [andb];
    [|split_and!; [done|apply grows_refl|by intros _ ->]].
  destruct (bool_decide_reflect (is_Some ks)) as [Hks|Hks]; cbn [negb]; [split_and!; [done|apply grows_refl|done]|].
  destruct (message_ok None c Hc) as (c' & Hc' & E). rewrite E. cbn [mbind option_bind].
  destruct (taproot_message m i None inp utxo us) as [[h ty]|e] eqn:Hm; [|split; [done|by eexists]].
  destruct (keypair_tap_tweak (keypair_of (secret sk)) (in_tap_merkle_root inp)) as [kp|] eqn:Ht.
  2: { exists xonly, source, sk. split_and!; try done. destruct (in_tap_key_sig inp) eqn:Es; [|done].
       destruct Hks. by rewrite (pg_key_kept _ _ Hp); [|eexists]. }
  cbn [mbind option_bind]. set (s := {| schnorr_signature := _ |}).
  assert (key_signed s) as Hs.
  { unfold keypair_tap_tweak in Ht. destruct (scalar_from_be_bytes _) as [tweak|] eqn:Hsc; [|done]. cbn [mbind option_bind] in Ht.
    apply tweak_xonly in Ht as [parity Ht]. exists xonly, source, sk, h, (keypair_xonly kp), parity. split_and!; try done.
    - unfold tap_tweak. rewrite Hsc. exact Ht.
    - apply schnorr_verifies. }
  split_and!.
  - exists (Some s), l, c', (used ++ [xonly]). split_and!; [by destruct inp|done|]. destruct Hp as [Hw Hkk Hn Hlk Hln].
    split; [done| | |done|done]; [|by intros ? _ [= <-]]. intros Hi. by rewrite <- (Hkk Hi) in Hi.
  - split; [done|]. intros _. by exists s.
  - intros _ _. by exists s.
Qed.

Definition step_done (origin : XOnly * (list (list byte) * KeySource)) (st : schnorr_state) : Prop :=
  ∀ sk, taproot_key (fst origin) (snd (snd origin)) = Some sk →
    (in_tap_internal_key inp = Some (fst origin) → fst (snd origin) = [] → has_key st) ∧
    (∀ leaves source' lh, bmap_get (fst origin) (in_tap_key_origins inp) = Some (leaves, source') → lh ∈ leaves → has_leaf (fst origin) lh st).

Lemma step_done_grows origin st st' : grows st st' → step_done origin st → step_done origin st'.
Proof. intros [Hl Hk] Hs sk Hsk. destruct (Hs sk Hsk) as [H1' H2']. split; eauto. Qed.

Lemma step_outcome origin st :
  origin ∈ in_tap_key_origins inp → good st → leads_to st (step_done origin) (schnorr_step k m i origin st).
Proof.
  destruct origin as [xonly [leaf_hashes source]]. intros Hin Hst. unfold schnorr_step, step_done. cbn [fst snd]. fold (taproot_key xonly source).
  destruct (taproot_key xonly source) as [sk|] eqn:Hk; [|split_and!; [done|apply grows_refl|done]].
  pose proof (key_outcome leaf_hashes source sk xonly st Hin Hk Hst) as Ho.
  destruct (key_path_spend m i sk xonly leaf_hashes st) as [[c [st'|e]]|]; cbn [mbind option_bind]; [|done|done].
  destruct Ho as (Hst' & Hg & Hkey). pose proof (script_outcome source sk xonly st' Hk Hst') as Ho.
  destruct (script_path_spend m i sk xonly st') as [[c2 [st2|e]]|]; [|done|done]. destruct Ho as (Hst2 & Hg2 & Hl).
  split_and!; [done|by eapply grows_trans|]. intros ? [= <-]. split; [|exact Hl]. intros Hi He. by apply Hg2, Hkey.
Qed.

(** What the loop over all origins leads to. *)
Definition schnorr_result (r : option (Psbt * SighashCache * result SignError (list XOnly))) : Prop :=
  match r with
  | None => untweakable
  | Some (m', c', Err e) => m' = m ∧ serving ps (unsigned_tx m) c' ∧ ∃ leaf_hash, taproot_message m i leaf_hash inp utxo us = Err e
  | Some (m', c', Ok _) =>
      serving ps (unsigned_tx m) c' ∧
      ∃ ks l, m' = put_input m i (with_sigs ks l) ∧ progress ks l ∧
        (∀ origin, origin ∈ in_tap_key_origins inp → step_done origin (with_sigs ks l, c', []))
  end.

Lemma bip32_sign_schnorr_ok c :
  serving ps (unsigned_tx m) c → bmap_wf (in_tap_script_sigs inp) → schnorr_result (bip32_sign_schnorr k m i c).
Proof.
  intros Hc Hw. unfold bip32_sign_schnorr. rewrite (checked_input_eq m i inp utxo) by done. cbn [mbind option_bind].
  assert (good (inp, c, [])) as Hg.
  { exists (in_tap_key_sig inp), (in_tap_script_sigs inp), c, []. split_and!; [unfold with_sigs; destruct inp; reflexivity|done|].
    split; [done|done|intros; congruence|done|intros; congruence]. }
  pose proof (try_fold_outcome (schnorr_step k m i) step_done (in_tap_key_origins inp) (inp, c, [])
    ltac:(intros; by apply step_outcome) step_done_grows Hg) as Ho.
  destruct (try_fold _ _ _) as [[c' [[[inp' c''] used]|e]]|]; cbn [mbind option_bind]; [|by destruct Ho as (? & ? & ?); split_and!; [done|done|eexists]|done].
  destruct Ho as ((ks & l & c3 & used3 & [= -> -> ->] & Hc3 & Hp) & _ & Hd). split; [done|]. exists ks, l. split_and!; [done|done|].
  intros origin Hin. exact (Hd origin Hin).
Qed.
(** C39: For an input whose output is known, [bip32_sign_schnorr] adds signatures of the taproot
    digests and changes nothing else: a signature that was there stays, a new one of the key path
    verifies for the key found for the internal key, tweaked by the root, and one of a leaf for
    the key found for it; when it succeeds none is missing among those whose key is found. An
    error is that of a digest and leaves the whole as it was; the only panic is that of the
    key found for the internal key, when it is to sign and the library does not tweak it by
    the root of the input. *)
Theorem bip32_sign_schnorr_spec (c : SighashCache) :
  serving ps (unsigned_tx m) c → bmap_wf (in_tap_script_sigs inp) → schnorr_result (bip32_sign_schnorr k m i c).
Proof. apply bip32_sign_schnorr_ok. Qed.
End SchnorrLaws.

(** ** All inputs *)

Section SignLaws.
Context `{SignerLaws, !PublicKeyLaws, !Ordered XOnly, !GetKey K}.

(** Only signatures change. *)
Definition signed_as (inp inp' : PsbtInput) : Prop :=
  ∃ sigs ks l, inp' = set in_tap_script_sigs_f l (set in_tap_key_sig_f ks (set in_partial_sigs_f sigs inp)).
Definition only_signatures (a b : Psbt) : Prop := ∃ ins, b = set psbt_inputs_f ins a ∧ Forall2 signed_as (psbt_inputs a) ins.

Lemma signed_as_refl inp : signed_as inp inp.
Proof. exists (in_partial_sigs inp), (in_tap_key_sig inp), (in_tap_script_sigs inp). by destruct inp. Qed.

Lemma only_signatures_refl m : only_signatures m m.
Proof. exists (psbt_inputs m). split; [by destruct m|]. induction (psbt_inputs m); constructor; [apply signed_as_refl|done]. Qed.

(** Which leaves what is spent, and how it is signed. *)
Lemma only_signatures_lookup a b i :
  only_signatures a b →
  match psbt_inputs a !! i with
  | Some inp => ∃ inp', psbt_inputs b !! i = Some inp' ∧ signed_as inp inp'
  | None => psbt_inputs b !! i = None
  end.
Proof.
  intros (ins & -> & Hins). change (psbt_inputs (set psbt_inputs_f ins a)) with ins.
  destruct (psbt_inputs a !! i) as [inp|] eqn:Hi; [by eapply Forall2_lookup_l|].
  apply Forall2_length in Hins. apply lookup_ge_None in Hi. apply lookup_ge_None. lia.
Qed.

Lemma only_signatures_spend a b i :
  only_signatures a b → spend_utxo b i = spend_utxo a i ∧ signing_algorithm b i = signing_algorithm a i.
Proof.
  intros Hab. pose proof (only_signatures_lookup a b i Hab) as Hi. destruct Hab as (ins & Hb & Hins%Forall2_length).
  assert (check_index_is_within_bounds b i = check_index_is_within_bounds a i ∧ unsigned_tx b = unsigned_tx a) as [Hc Ht].
  { subst b. unfold check_index_is_within_bounds. change (psbt_inputs (set psbt_inputs_f ins a)) with ins. by rewrite Hins. }
  destruct (psbt_inputs a !! i) as [inp|] eqn:Ha.
  - destruct Hi as (inp' & Hb' & sigs & ks & l & ->).
    assert (spend_utxo b i = spend_utxo a i) as Hs by (unfold spend_utxo, checked_input; by rewrite Hc, Ht, Ha, Hb'; destruct (check_index_is_within_bounds a i)).
    split; [done|]. unfold signing_algorithm, output_type. rewrite Hs. unfold checked_input. rewrite Hc, Ha, Hb'.
    by destruct (check_index_is_within_bounds a i).
  - assert (spend_utxo b i = spend_utxo a i) as Hs by (unfold spend_utxo, checked_input; by rewrite Hc, Ht, Ha, Hi).
    split; [done|]. unfold signing_algorithm, output_type. rewrite Hs. unfold checked_input. by rewrite Hc, Ha, Hi.
Qed.

Lemma only_signatures_put a b i inp inp' :
  only_signatures a b → psbt_inputs a !! i = Some inp → signed_as inp inp' → only_signatures a (put_input b i inp').
Proof.
  intros (ins & -> & Hins) Hi Hs. exists (<[i := inp']> ins). split; [by destruct a|].
  rewrite <- (list_insert_id (psbt_inputs a) i inp) by done. by apply Forall2_insert.
Qed.

Context (k : K) (m : Psbt) (us : list (option TxOut)) (ps : list TxOut).
Context (Hps : Forall script_fits ps) (Hus : spend_utxos m = Some us) (Hagree : prevouts_agree us ps).
Context (Hfit : ∀ i inp utxo, psbt_inputs m !! i = Some inp → spend_utxo m i = Some (Ok utxo) →
  scripts_fit inp utxo ∧ bmap_wf (in_tap_script_sigs inp)).

(** How an input is accounted for. *)
Definition accounted (i : nat) (used : SigningKeysMap) (errors : SigningErrors) : Prop :=
  match signing_algorithm m i with
  | Some (Ok AlgoEcdsa) => (∃ v, (i, EcdsaKeys v) ∈ used) ∨ ∃ e, (i, e) ∈ errors
  | Some (Ok AlgoSchnorr) => (∃ v, (i, SchnorrKeys v) ∈ used) ∨ ∃ e, (i, e) ∈ errors
  | Some (Err e) => (i, e) ∈ errors
  | None => False
  end.

Record signing_upto (n : nat) (st : Psbt * SighashCache * SigningKeysMap * SigningErrors) : Prop := {
  su_only : only_signatures m (fst (fst (fst st)));
  su_serving : serving ps (unsigned_tx m) (snd (fst (fst st)));
  su_rest : ∀ j, (n <= j)%nat → psbt_inputs (fst (fst (fst st))) !! j = psbt_inputs m !! j;
  su_indexes : map fst (snd (fst st)) ++ map fst (snd st) ≡ₚ seq 0 n;
  su_accounted : ∀ i, (i < n)%nat → accounted i (snd (fst st)) (snd st) }.

Lemma accounted_more i used errors used' errors' :
  accounted i used errors → accounted i (used ++ used') (errors ++ errors').
Proof.
  unfold accounted. destruct (signing_algorithm m i) as [[[]|e]|]; [| |rewrite elem_of_app; by left|done];
    (intros [[v Hv]|[e He]]; [left; exists v; rewrite elem_of_app; by left|right; exists e; rewrite elem_of_app; by left]).
Qed.

Lemma spend_utxo_known i : (i < length (psbt_inputs m))%nat → is_Some (spend_utxo m i).
Proof.
  intros Hi. revert Hus. unfold spend_utxos. intros Hm%mapM_Some.
  destruct (Forall2_lookup_l _ _ _ i i Hm) as (o & _ & He); [by apply lookup_seq_lt|]. cbv beta in He.
  destruct (spend_utxo m i); [by eexists|done].
Qed.

Lemma spend_utxos_same self : only_signatures m self → spend_utxos self = Some us.
Proof.
  intros Ho. rewrite <- Hus. unfold spend_utxos. pose proof Ho as (ins & E & Hl%Forall2_length).
  assert (length (psbt_inputs self) = length (psbt_inputs m)) as -> by by subst self.
  induction (seq 0 (length (psbt_inputs m))) as [|i l IH]; [done|]. cbn [mapM].
  rewrite (proj1 (only_signatures_spend m self i Ho)). by rewrite IH.
Qed.

(** An input that succeeds, or fails. *)
Lemma upto_used n self c used errors self' c' keys :
  signing_upto n (self, c, used, errors) → only_signatures m self' → serving ps (unsigned_tx m) c' →
  (∀ j, (S n <= j)%nat → psbt_inputs self' !! j = psbt_inputs m !! j) → accounted n (used ++ [(n, keys)]) errors →
  signing_upto (S n) (self', c', used ++ [(n, keys)], errors).
Proof.
  intros [Ho Hc Hr Hi Ha] Ho' Hc' Hr' Hn. cbn [fst snd] in *. split; cbn [fst snd]; [done|done|done| |].
  - rewrite map_app, seq_S, <- Hi. cbn. solve_Permutation.
  - intros i Hlt. destruct (decide (i = n)) as [->|]; [done|]. rewrite <- (app_nil_r errors). apply accounted_more, Ha. lia.
Qed.

Lemma upto_error n self c used errors self' c' e :
  signing_upto n (self, c, used, errors) → only_signatures m self' → serving ps (unsigned_tx m) c' →
  (∀ j, (S n <= j)%nat → psbt_inputs self' !! j = psbt_inputs m !! j) → accounted n used (errors ++ [(n, e)]) →
  signing_upto (S n) (self', c', used, errors ++ [(n, e)]).
Proof.
  intros [Ho Hc Hr Hi Ha] Ho' Hc' Hr' Hn. cbn [fst snd] in *. split; cbn [fst snd]; [done|done|done| |].
  - rewrite map_app, seq_S, <- Hi. cbn. solve_Permutation.
  - intros i Hlt. destruct (decide (i = n)) as [->|]; [done|]. rewrite <- (app_nil_r used). apply accounted_more, Ha. lia.
Qed.

Lemma put_input_other self i inp j : j ≠ i → psbt_inputs (put_input self i inp) !! j = psbt_inputs self !! j.
Proof. intros Hj. unfold put_input. change (psbt_inputs (set psbt_inputs_f ?v self)) with v. by apply list_lookup_insert_ne. Qed.

(** The inputs that panic. *)
Definition panics_at (i : nat) : Prop :=
  ∃ inp, psbt_inputs m !! i = Some inp ∧ signing_algorithm m i = Some (Ok AlgoSchnorr) ∧ untweakable k inp.

Lemma sign_input_upto n st :
  (n < length (psbt_inputs m))%nat → signing_upto n st →
  match sign_input k st n with Some st' => signing_upto (S n) st' | None => panics_at n end.
Proof.
  destruct st as [[[self c] used] errors]. intros Hn Hst. pose proof Hst as [Ho Hc Hr _ _]. cbn [fst snd] in *.
  destruct (only_signatures_spend m self n Ho) as [Hsp Halg]. unfold sign_input. rewrite Halg.
  assert (unsigned_tx self = unsigned_tx m) as Htx by (by destruct Ho as (ins & -> & _)).
  assert (∀ j, (S n <= j)%nat → psbt_inputs self !! j = psbt_inputs m !! j) as Hr' by (intros; apply Hr; lia).
  destruct (lookup_lt_is_Some_2 (psbt_inputs m) n Hn) as [inp Hi]. pose proof (Hr n ltac:(lia)) as Hi'. rewrite Hi in Hi'.
  destruct (spend_utxo_known n Hn) as [[utxo|e] Hu].
  2: { assert (∃ e, signing_algorithm m n = Some (Err e)) as [e' He].
       { unfold signing_algorithm, output_type. rewrite Hu. destruct (checked_input m n) as [[]|] eqn:Hch; [by eexists..|].
         unfold spend_utxo in Hu. by rewrite Hch in Hu. }
       rewrite He. eapply upto_error; [done..|]. unfold accounted. rewrite He. apply elem_of_app. right. left. }
  assert (signing_algorithm m n = Some (result_map type_algorithm (type_of (script_pubkey utxo) (in_redeem_script inp)))) as He.
  { unfold signing_algorithm. rewrite (output_type_eq m n inp utxo) by done. by destruct (type_of _ _). }
  destruct (Hfit n inp utxo Hi Hu) as [Hf Hw]. rewrite Hu in Hsp. rewrite <- Htx in Hc.
  destruct (type_of (script_pubkey utxo) (in_redeem_script inp)) as [ot|e] eqn:Hot; cbn [result_map result_bind] in He; rewrite He; cbn [mbind option_bind].
  2: { rewrite Htx in Hc. eapply upto_error; [done..|]. unfold accounted. rewrite He. apply elem_of_app. right. left. }
  destruct (type_algorithm ot) eqn:Hty.
  - destruct (bip32_sign_ecdsa_ok k self n inp utxo ps c Hps Hc Hf Hsp Hi') as (c' & Hc' & E).
    destruct (ecdsa_loop _ _ _ _ _) as [sigs [v|e]] eqn:Hl; rewrite E; cbn [mbind option_bind]; rewrite Htx in Hc'.
    + eapply upto_used; [done| |done| |].
      * eapply only_signatures_put; [done|done|]. exists sigs, (in_tap_key_sig inp), (in_tap_script_sigs inp). by destruct inp.
      * intros j Hj. rewrite put_input_other by lia. by apply Hr'.
      * unfold accounted. rewrite He. left. exists v. apply elem_of_app. right. left.
    + eapply upto_error; [done| |done| |].
      * eapply only_signatures_put; [done|done|]. exists sigs, (in_tap_key_sig inp), (in_tap_script_sigs inp). by destruct inp.
      * intros j Hj. rewrite put_input_other by lia. by apply Hr'.
      * unfold accounted. rewrite He. right. exists e. apply elem_of_app. right. left.
  - pose proof (bip32_sign_schnorr_ok k self n inp utxo us ps Hps (spend_utxos_same self Ho) (sf_spk _ _ Hf) Hagree Hsp Hi' c Hc Hw) as Hs.
    destruct (bip32_sign_schnorr k self n c) as [[[m' c'] [v|e]]|]; cbn [mbind option_bind schnorr_result] in *.
    + destruct Hs as (Hc' & ks & l & -> & _). rewrite Htx in Hc'. eapply upto_used; [done| |done| |].
      * eapply only_signatures_put; [done|done|]. exists (in_partial_sigs inp), ks, l. unfold with_sigs. by destruct inp.
      * intros j Hj. rewrite put_input_other by lia. by apply Hr'.
      * unfold accounted. rewrite He. left. exists v. apply elem_of_app. right. left.
    + destruct Hs as (-> & Hc' & _). rewrite Htx in Hc'. eapply upto_error; [done..|].
      unfold accounted. rewrite He. right. exists e. apply elem_of_app. right. left.
    + by exists inp.
Qed.

Lemma sign_upto n :
  (n <= length (psbt_inputs m))%nat → serving ps (unsigned_tx m) (cache_new (unsigned_tx m)) →
  match foldl (λ o i, st ← o; sign_input k st i) (Some (m, cache_new (unsigned_tx m), [], [])) (seq 0 n) with
  | Some st => signing_upto n st
  | None => ∃ i, (i < n)%nat ∧ panics_at i
  end.
Proof.
  intros Hn Hc. induction n as [|n IH].
  - split; cbn [fst snd]; [apply only_signatures_refl|done|done|done|lia].
  - specialize (IH ltac:(lia)). rewrite seq_S, foldl_snoc. destruct (foldl _ _ _) as [st|]; cbn [mbind option_bind].
    + pose proof (sign_input_upto n st ltac:(lia) IH) as Hs. cbn [Nat.add].
      destruct (sign_input k st n); [done|]. exists n. split; [lia|done].
    + destruct IH as (i & Hi & Hp). exists i. split; [lia|done].
Qed.

(** C40: When no output index is out of bounds, [sign] goes over the
    inputs once each, changes nothing but their signatures, and accounts for each one, with
    the keys of its algorithm or with an error; it succeeds exactly when there is no error.
    It panics only at a taproot input for whose internal key a key is found that the
    library does not tweak by the root of that input. *)
Theorem sign_spec :
  tx_wf (unsigned_tx m) →
  match sign k m with
  | Some (m', r) =>
      only_signatures m m' ∧
      let '(used, errors) := match r with Ok used => (used, []) | Err e => e end in
      (∀ e, r = Err e → snd e ≠ []) ∧ map fst used ++ map fst errors ≡ₚ seq 0 (length (psbt_inputs m)) ∧
      (∀ i, (i < length (psbt_inputs m))%nat → accounted i used errors)
  | None => ∃ i, (i < length (psbt_inputs m))%nat ∧ panics_at i
  end.
Proof.
  intros Hwf. assert (serving ps (unsigned_tx m) (cache_new (unsigned_tx m))) as Hc.
  { constructor; [constructor; try done; by apply outputs_fit|done|done]. }
  pose proof (sign_upto (length (psbt_inputs m)) ltac:(lia) Hc) as Hs. unfold sign.
  destruct (foldl _ _ _) as [[[[m' c] used] errors]|]; cbn [mbind option_bind]; [|exact Hs].
  destruct Hs as [Ho _ _ Hi Ha]. cbn [fst snd] in *. split; [done|].
  destruct errors as [|e errors]; split_and!; try done. by intros ? [= <-].
Qed.
End SignLaws.

#[local] Existing Instances PlainSecp.plain_keys PlainSecp.plain_keys_laws PlainSecp.plain_secp PlainSecp.plain_secp_laws.
#[local] Existing Instances PlainTaprootKeys.keys PlainTaprootKeys.keys_laws.

#[local] Existing Instance plain_xonly_ordered.

(** Signatures that hold the message and the key, as far as they fit. *)
Module PlainSigner.
Definition bytes_of {n} (x : PlainSecp.fixed n) : list byte := proj1_sig x.
Definition fit (n : nat) (bs : list byte) : PlainSecp.fixed n :=
  match PlainSecp.to_fixed n (take n (bs ++ replicate n x00)) with Some s => s | None => PlainSecp.repeated n x00 end.

#[export] Instance signer : Signer := {
  public_key_of sk := (false, sk);
  secret_negate sk := sk;
  x_only_public_key pk := (snd pk, fst pk);
  public_key_of_xonly x odd := (odd, x);
  Keypair := PlainTaprootKeys.key;
  keypair_of sk := sk;
  keypair_xonly kp := kp;
  keypair_add_xonly_tweak kp s := PlainTaprootKeys.to_key s;
  sign_ecdsa msg sk := fit 70 (msg ++ bytes_of sk);
  verify_ecdsa msg s pk := bool_decide (bytes_of s = bytes_of (fit 70 (msg ++ bytes_of (n := 32) (snd pk))));
  sign_schnorr msg kp := fit 64 (msg ++ bytes_of (n := 32) kp);
  verify_schnorr msg s x := bool_decide (bytes_of s = bytes_of (fit 64 (msg ++ bytes_of (n := 32) x))) }.

#[export] Instance signer_laws : SignerLaws.
Proof.
  split.
  - intros msg sk. by apply bool_decide_eq_true.
  - intros msg kp. by apply bool_decide_eq_true.
  - intros kp s kp' E. exists true. cbn in *. by rewrite E.
Qed.

Lemma tweaks_pair (sk : PrivateKey) root : is_Some (keypair_tap_tweak (keypair_of (secret sk)) root).
Proof.
  destruct (PlainTaprootKeys.tweaks (secret sk) root) as [[o p] Ho]. unfold tap_tweak in Ho. unfold keypair_tap_tweak.
  change (keypair_xonly (keypair_of (secret sk))) with (secret sk).
  destruct (scalar_from_be_bytes _) as [s|]; [|done]. cbn [mbind option_bind] in *. cbn in *.
  destruct (PlainTaprootKeys.to_key s); [by eexists|done].
Qed.
End PlainSigner.
#[local] Existing Instances PlainSigner.signer PlainSigner.signer_laws.

Definition sample_private : PrivateKey := {| priv_compressed := true; network := Main; secret := PlainSecp.repeated 32 x07 |}.

(** A P2WPKH output and a taproot output, spent with the same secret key. *)
Definition sample_wpkh : PsbtInput :=
  set in_witness_utxo_f (Some {| Transaction.value := 5000; script_pubkey := x00 :: x14 :: replicate 20 x33 |})
    (set in_bip32_derivation_f [((false, PlainSecp.repeated 32 x07), (replicate 4 x11, [Hardened 0]))] psbt_input_default).
Definition sample_tr : PsbtInput :=
  set in_witness_utxo_f (Some {| Transaction.value := 5000; script_pubkey := x51 :: x20 :: replicate 32 x33 |})
    (set in_tap_internal_key_f (Some (PlainSecp.repeated 32 x07))
       (set in_tap_key_origins_f [(PlainSecp.repeated 32 x07, ([], (replicate 4 x11, [Hardened 0])))] psbt_input_default)).
Definition sample_to_sign (inp : PsbtInput) : Psbt := set psbt_inputs_f [inp] sample_psbt.
Definition sample_keys : list (BitcoinKey * PrivateKey) := [(priv_public_key sample_private, sample_private)].

Lemma sample_scripts_fit v s inp : in_redeem_script inp = None → in_witness_script inp = None → fits_u64 s →
  scripts_fit inp {| Transaction.value := v; script_pubkey := s |}.
Proof. intros Hr Hw Hs. split; [done|by rewrite Hr|by rewrite Hw]. Qed.

Lemma bip32_sign_ecdsa_spec_witness :
  ∃ c' sigs, bip32_sign_ecdsa sample_keys (sample_to_sign sample_wpkh) 0 (cache_new sample_unsigned_tx) =
    Some (put_input (sample_to_sign sample_wpkh) 0 (set in_partial_sigs_f sigs sample_wpkh), c', Ok [priv_public_key sample_private]) ∧
    is_Some (bmap_get (priv_public_key sample_private) sigs).
Proof.
  destruct (bip32_sign_ecdsa_spec sample_keys (sample_to_sign sample_wpkh) 0 sample_wpkh
    {| Transaction.value := 5000; script_pubkey := x00 :: x14 :: replicate 20 x33 |} [] (cache_new sample_unsigned_tx))
    as (c' & sigs & r & E & _ & Hr).
  - constructor.
  - apply sample_serving.
  - by apply sample_scripts_fit.
  - reflexivity.
  - reflexivity.
  - done.
  - destruct (ecdsa_message _ _ _ _) as [[h ty]|e] eqn:Hm; [|by discriminate Hm].
    destruct Hr as (-> & _ & Hs). exists c', sigs. split; [exact E|]. destruct (Hs sample_private) as (sig & Hg & _); [left|by eexists].
Defined.

Definition sample_xonly_keys : list (XOnly * PrivateKey) := [(PlainSecp.repeated 32 x07, sample_private)].
Definition sample_tr_utxo : TxOut := {| Transaction.value := 5000; script_pubkey := x51 :: x20 :: replicate 32 x33 |}.

Lemma bip32_sign_schnorr_spec_witness :
  ∃ c' used ks l, bip32_sign_schnorr sample_xonly_keys (sample_to_sign sample_tr) 0 (cache_new sample_unsigned_tx) =
    Some (put_input (sample_to_sign sample_tr) 0 (with_sigs sample_tr ks l), c', Ok used) ∧ is_Some ks.
Proof.
  pose proof (bip32_sign_schnorr_spec sample_xonly_keys (sample_to_sign sample_tr) 0 sample_tr sample_tr_utxo [Some sample_tr_utxo] [sample_tr_utxo]
    ltac:(by repeat constructor) eq_refl ltac:(done) ltac:(done) eq_refl eq_refl (cache_new sample_unsigned_tx) (sample_serving _) I) as Hs.
  destruct (bip32_sign_schnorr _ _ _ _) as [[[m' c'] [used|e]]|]; cbn [schnorr_result] in Hs.
  - destruct Hs as (_ & ks & l & -> & _ & Hd). exists c', used, ks, l. split; [done|].
    specialize (Hd _ ltac:(left) sample_private). destruct Hd as [Hk _]; [reflexivity|]. by apply Hk.
  - destruct Hs as (_ & _ & [leaf|] & Hm); discriminate Hm.
  - destruct Hs as (xonly & source & sk & _ & _ & _ & _ & Hn).
    destruct (PlainSigner.tweaks_pair sk (in_tap_merkle_root sample_tr)) as [? E]. by rewrite Hn in E.
Defined.

Lemma sample_sign_fits i inp utxo :
  psbt_inputs (sample_to_sign sample_wpkh) !! i = Some inp → spend_utxo (sample_to_sign sample_wpkh) i = Some (Ok utxo) →
  scripts_fit inp utxo ∧ bmap_wf (in_tap_script_sigs inp).
Proof.
  destruct i as [|i]; intros Hi Hu; [|discriminate Hi]. injection Hi as <-. vm_compute in Hu. injection Hu as <-. split; [|done].
  by apply sample_scripts_fit.
Qed.

Lemma sign_spec_witness :
  ∃ m' r, sign sample_keys (sample_to_sign sample_wpkh) = Some (m', r) ∧ only_signatures (sample_to_sign sample_wpkh) m'.
Proof.
  pose proof (sign_spec sample_keys (sample_to_sign sample_wpkh) [Some {| Transaction.value := 5000; script_pubkey := x00 :: x14 :: replicate 20 x33 |}]
    [{| Transaction.value := 5000; script_pubkey := x00 :: x14 :: replicate 20 x33 |}] ltac:(by repeat constructor) eq_refl ltac:(done)
    sample_sign_fits sample_unsigned_wf) as Hs.
  destruct (sign sample_keys (sample_to_sign sample_wpkh)) as [[m' r]|].
  - exists m', r. split; [reflexivity|]. exact (proj1 Hs).
  - exfalso. destruct Hs as (i & _ & inp & Hl & _ & xonly & source & sk & Hk & _). destruct i as [|i]; [|discriminate Hl].
    injection Hl as <-. discriminate Hk.
Defined.
