(* ===== verification/PsbtKeys.v ===== *)
(** Extended private keys as a source of keys for the signer ([GetKey for Xpriv] and for sets
    of them, [src/litecoin/src/psbt/mod.rs]): which path is derived, and that a key answers for
    its parent on its own branch. *)

From S2P Require Import Witness.
From Stdlib Require Import String ZArith Lia.
From stdpp Require Import base list.
From Stdlib Require Import Init.Byte.
From S2P Require Import Prelude Ordered Encode Mimblewimble Taproot Keys Bip32 Derive PsbtTx PsbtSigner.

Section Keys.
Context `{Secp256k1, !KeyArith, TaprootKeys}.

Definition derived_key (self : Xpriv) (path : DerivationPath) : option (result GetKeyError (option PrivateKey)) :=
  k ← derive_priv self path;
  Some (let? k := result_map_err GetKeyBip32 k in Ok (Some (to_priv k))).

(** [None] is a panic of the derivation. *)
Definition xpriv_get_key (self : Xpriv) (key_request : KeyRequest) : option (result GetKeyError (option PrivateKey)) :=
  match key_request with
  | ReqPubkey _ => Some (Err NotSupported)
  | ReqXOnlyPubkey _ => Some (Err NotSupported)
  | ReqBip32 (fingerprint, path) =>
      if bool_decide (xpriv_fingerprint self = fingerprint) then derived_key self path
      else if bool_decide (xpriv_parent self = fingerprint) && negb (bool_decide (path = []))
              && bool_decide (head path = Some (xpriv_child self))
      then derived_key self (drop 1 path)
      else Some (Ok None)
  end.

(** [impl_get_key_for_set!]: the first key or error, in the order of the set. *)
Fixpoint xpriv_set_get_key (self : list Xpriv) (key_request : KeyRequest) : option (result GetKeyError (option PrivateKey)) :=
  match self with
  | [] => Some (Ok None)
  | xpriv :: self =>
      r ← xpriv_get_key xpriv key_request;
      match r with
      | Ok None => xpriv_set_get_key self key_request
      | r => Some r
      end
  end.

(** ** Which key *)

Lemma derived_key_ok self path k : derived_key self path = Some (Ok (Some k)) ↔
  ∃ xk, derive_priv self path = Some (Ok xk) ∧ k = to_priv xk.
Proof.
  unfold derived_key. destruct (derive_priv self path) as [[xk|e]|]; cbn; split; try done; try (by intros (? & ? & _)).
  - intros [= <-]. by exists xk.
  - by intros (xk' & [= <-] & ->).
Qed.

Lemma ckd_priv_links self c k : ckd_priv self c = Some (Ok k) → xpriv_parent k = xpriv_fingerprint self ∧ xpriv_child k = c.
Proof.
  unfold ckd_priv. destruct (hmac_sha512 _ _) as [h|]; [|done]. cbn [mbind option_bind].
  destruct (SecretKey_from_slice _) as [sk|]; [|done]. cbn [mbind option_bind]. destruct (secret_add_tweak _ _); [|done]. cbn [mbind option_bind].
  destruct (checked_depth _); [|done]. by intros [= <-].
Qed.

(** A key is handed out only when the request names this extended key, and is then the one at
    the path given, or its parent with a path that starts with its own child number, and is
    then the one at the rest of the path.  The key of a child answers a request for its
    branch as its parent would. *)
Theorem xpriv_get_key_spec (self : Xpriv) :
  (∀ fingerprint path k, xpriv_get_key self (ReqBip32 (fingerprint, path)) = Some (Ok (Some k)) →
     ∃ rel xk, derive_priv self rel = Some (Ok xk) ∧ k = to_priv xk ∧
       (fingerprint = xpriv_fingerprint self ∧ rel = path ∨
        fingerprint = xpriv_parent self ∧ path = xpriv_child self :: rel)) ∧
  (∀ c child rest, ckd_priv self c = Some (Ok child) → xpriv_fingerprint child ≠ xpriv_fingerprint self →
     let request := ReqBip32 (xpriv_fingerprint self, c :: rest) in
     xpriv_get_key child request = xpriv_get_key self request).
Proof.
  split.
  - intros fp path k. cbn [xpriv_get_key]. case_bool_decide as E1.
    { intros (xk & Hd & ->)%derived_key_ok. exists path, xk. split_and!; [done|done|]. by left. }
    destruct (_ && _) eqn:E; [|done]. apply andb_true_iff in E as [[E2%bool_decide_eq_true _]%andb_true_iff E3%bool_decide_eq_true].
    intros (xk & Hd & ->)%derived_key_ok. exists (drop 1 path), xk. split_and!; [done|done|]. right. split; [done|].
    destruct path; [done|]. by injection E3 as ->.
  - intros c child rest Hc Hf. cbn [xpriv_get_key]. rewrite bool_decide_eq_false_2 by done. rewrite (bool_decide_eq_true_2 (xpriv_fingerprint self = _)) by done.
    destruct (ckd_priv_links _ _ _ Hc) as [-> ->]. rewrite bool_decide_eq_true_2, bool_decide_eq_false_2, bool_decide_eq_true_2 by done.
    cbn [andb negb]. change (drop 1 (c :: rest)) with rest. unfold derived_key. cbn [derive_priv]. by rewrite Hc.
Qed.

(** The comment of the set says that a key can only fail for another kind of request.  At the
    last level a derivation fails too, and hides the keys after it. *)
Theorem set_stops_at_depth (deep : Xpriv) (others : list Xpriv) c :
  xpriv_depth deep = 255 → is_Some (ckd_priv deep c) →
  xpriv_set_get_key (deep :: others) (ReqBip32 (xpriv_fingerprint deep, [c])) = Some (Err (GetKeyBip32 MaximumDepthExceeded)).
Proof.
  intros Hd [r Hr]. cbn [xpriv_set_get_key xpriv_get_key]. rewrite bool_decide_eq_true_2 by done. unfold derived_key. cbn [derive_priv].
  assert (r = Err MaximumDepthExceeded) as ->.
  { unfold ckd_priv in Hr. destruct (hmac_sha512 _ _) as [h|]; [|done]. cbn [mbind option_bind] in Hr.
    destruct (SecretKey_from_slice _) as [sk|]; [|done]. cbn [mbind option_bind] in Hr. destruct (secret_add_tweak _ _); [|done].
    cbn [mbind option_bind] in Hr. unfold checked_depth in Hr. rewrite Hd in Hr. by injection Hr as <-. }
  rewrite Hr. reflexivity.
Qed.
End Keys.
